(* ===== verification/_CoqProject ===== *)
-Q . S2P
Prelude.v
SmtpLineReader.v
SmtpLineReaderProofs.v
DotStuffer.v
JsString.v
JsStringFacts.v
Base64.v
SmtpReply.v
SmtpReplyParser.v
SmtpReplyProofs.v
SmtpAddress.v
SmtpAddressProofs.v
SmtpCommand.v
SmtpCommandProofs.v
SmtpCommandRoundTrip.v
SmtpSession.v
SmtpSessionProofs.v
SmtpSessionData.v
ProxyProtocol.v
ProxyProtocolProofs.v
DkimCanon.v
DkimCanonProofs.v
DkimMessage.v
DkimSign.v
DkimSignFacts.v
DkimSignProofs.v
DkimVerifyProofs.v
DkimSplitProofs.v
AuditLog.v
AuthThrottle.v
AuthThrottleProofs.v
AuthThrottleNetwork.v
SpfIp.v
SpfMacro.v
SpfParse.v
SpfCheckHost.v
SpfBounds.v
SpfSound.v
SpfWellFormed.v
SpfCidr.v
Utf8.v
DnsName.v
DnsWire.v
DnsWireProofs.v
DnsResolver.v
DnsResolverProofs.v
DnsMx.v
Psl.v
Dmarc.v
DmarcProofs.v
JsDouble.v
DeliveryState.v
SmtpClient.v
SmtpClientProofs.v
JobQueue.v
DeliveryQueue.v
DeliveryQueueProofs.v
MtaSts.v
Dane.v
DirectTransport.v
DirectTransportProofs.v
ImapSequence.v
ImapMutf7.v
ImapReader.v
ImapReaderProofs.v
ImapFraming.v
SieveMatch.v
MimeWords.v
MimeAddress.v
MimeTransfer.v
SieveSyntax.v
SieveCompile.v
SieveInterp.v
Threading.v
MailDb.v
MailStore.v
MailStoreProofs.v
MailSync.v
MailBlobs.v
ImapView.v
