(* ===== verification/Prelude.v ===== *)
(** * Postroom: a verification of the mail server's protocol and authentication core

    Postroom is a self-hosted mail system written in TypeScript: daemons under [src/apps] (inbound
    SMTP, submission, delivery, IMAP, DAV, the worker, the HTTP API and web client) over protocol and
    policy packages under [src/packages]. The packages carry the logic; the daemons connect them to
    sockets, DNS, PostgreSQL and the blob store. This library models the packages that decide what a
    byte stream from the network means and whether a message is authentic, function by function, and
    proves what they promise each other.

    ** How a message passes through the modelled parts

    A connection may begin with a PROXY header (ProxyProtocol). Its octets are framed by the line reader
    (SmtpLineReader), each line is parsed to a command (SmtpCommand over SmtpAddress), the session engine
    (SmtpSession) runs the SMTP state machine and answers with replies (SmtpReply). Authentication attempts
    pass the throttle (AuthThrottle), which counts failures in the audit log (AuditLog). An accepted
    message is checked against SPF (SpfIp, SpfMacro, SpfParse, SpfCheckHost), its DKIM signatures
    (DkimCanon, DkimMessage, DkimSign) and DMARC (Dmarc, over the public suffix list, Psl). Outbound, the
    worker takes a job (JobQueue, DeliveryQueue), finds the mail exchangers (DnsMx) and their TLS policy
    (MtaSts, Dane, DirectTransport), speaks SMTP (SmtpClient), encoding the message (DotStuffer) and reading
    the server's replies (SmtpReplyParser), and decides what becomes of each recipient (DeliveryState).

    ** Files, and the code they model (paths under [src/packages] unless said otherwise)

    - Prelude: octets, code units, notations, tactics, hints and generic lemmas.
    - JsString, JsStringFacts: the JavaScript string functions the sources use. A string is the list of
      its UTF-16 code units; what depends on Unicode tables or on [node:net] is a field of the class
      [Runtime], and [RuntimeOk] states what is relied on.
    - SmtpLineReader: [smtp-proto/src/line-reader.ts], the class SmtpLineReader; the proofs are in
      SmtpLineReaderProofs.
    - DotStuffer: [apps/delivery/src/client/dot-stuff.ts].
    - SmtpReply, SmtpReplyParser, SmtpReplyProofs: [smtp-proto/src/reply.ts] and [reply-parser.ts].
    - SmtpAddress, SmtpAddressProofs: [smtp-proto/src/address.ts]. SmtpCommand, SmtpCommandProofs,
      SmtpCommandRoundTrip: [smtp-proto/src/command.ts].
    - SmtpSession: [smtp-proto/src/session.ts]. The engine is the record [Engine]; handlers are computations
      of a state monad with an event log, the hooks of the daemon are the record [Hooks] over an arbitrary
      world. SmtpSessionProofs and SmtpSessionData hold the theorems and a concrete server.
    - ProxyProtocol, ProxyProtocolProofs: [proxy-protocol/src/index.ts].
    - DkimCanon, DkimCanonProofs: [auth-checks/src/dkim/canon.ts]. DkimMessage and DkimSign: [tags.ts],
      [message.ts], [header-hash.ts], [sign.ts], [verify-local.ts] and the key checks of [keys.ts], with
      hashing and signing as parameters (DkimSignFacts, DkimSignProofs, DkimVerifyProofs, DkimSplitProofs).
    - AuditLog: [audit/src]. AuthThrottle, AuthThrottleProofs, AuthThrottleNetwork: [auth-throttle/src];
      the class of ledgers is the interface between the throttle and the two ledgers that implement it.
    - SpfIp, SpfMacro, SpfParse, SpfCheckHost: [auth-checks/src/spf]; SpfBounds, SpfSound, SpfWellFormed and
      SpfCidr hold the theorems.
    - Psl: [auth-checks/src/psl/index.ts]. Dmarc, DmarcProofs: [auth-checks/src/dmarc].
    - Utf8: the UTF-8 encoder of Buffer. DnsName, DnsWire: [dns/src/name.ts] and [wire.ts]; DnsResolver:
      [resolver.ts], [transport.ts] and [trust.ts], the sockets being functions of the events they deliver;
      DnsMx: [mx.ts]. The theorems are in the files named after them.
    - JsDouble: binary64 arithmetic on rationals, for the one place that computes with fractions.
      DeliveryState: [apps/delivery/src/state.ts].
    - SmtpClient, SmtpClientProofs: [apps/delivery/src/client/connection.ts] and [session.ts], with
      [isMandatory] and [describePolicy] of [policy/index.ts]. The server is an oracle that sees everything
      the client did; a session is a computation that threads the connection, its trace, and errors.
    - JobQueue: [queue/src/index.ts], one function of the job table per SQL statement. DeliveryQueue: the
      tables of the outbound queue ([db/prisma/schema.prisma]) and [apps/delivery/src/worker.ts],
      [enqueue.ts], [hold.ts], [cancel.ts], [suppression.ts] and [message-id-alias.ts]; DeliveryQueueProofs
      has the step relation that interleaves the transactions of workers, sweeps, operators and crashes, and
      concrete runs.
    - MtaSts and Dane: [apps/delivery/src/policy/mta-sts.ts] and [dane.ts]; DirectTransport: [policy/index.ts]
      and [client/transport.ts], which compose MX resolution (DnsMx), the two policies and the session
      (SmtpClient); the theorems are in DirectTransportProofs.
    - ImapSequence and ImapMutf7: [imap-proto/src/sequence.ts] and [mutf7.ts], with their theorems. ImapReader:
      [reader.ts], the command reader; ImapReaderProofs compares it with itself fed octet by octet,
      ImapFraming states what a client may send and what the daemon then sees.
    - Base64: the base64 of Buffer. MimeWords: [mime/src/charset.ts], [encoded-word.ts] and the header values of
      [writer.ts]; MimeAddress: [address.ts] and the mailboxes of [writer.ts]; MimeTransfer: [transfer.ts]. Each
      holds its theorems. TextDecoder is the class [TextDecoders].
    - SieveSyntax: [sieve/src/ast.ts], [errors.ts], [lexer.ts], [printer.ts] and [parser.ts], and the proof
      that parsing ends. SieveMatch: [match.ts]; SieveCompile: [compile.ts]; both with their theorems.
      SieveInterp: [interpreter.ts], a state monad over the fields of [Run], and its invariant.
    - Threading: [threading/src/jwz.ts], its containers in a store of numbered places, and the store read as
      a forest.
    - MailDb: the tables of the mailboxes ([db/prisma/schema.prisma]), a transaction monad and the statements their
      writers share, with [apps/imap/src/flags.ts], [classifier/src/buckets.ts], the rows of
      [blobstore/src/store.ts] and [dsn/src/file-local-message.ts]. MailStore: [apps/imap/src/store.ts], the moves of
      [apps/worker/src/scheduled/mailbox.ts] and the webmail's [updateMessage]. MailStoreProofs says how a mailbox
      may change and shows it of every operation; MailSync and MailBlobs have the theorems about any history.
      ImapView: [apps/imap/src/view.ts] and [extensions/qresync.ts], what a session believes of its mailbox, each
      read of the store an argument, so that other sessions may write between the reads.

    ** What the theorems show

    - Framing: whatever the chunking, the line reader yields exactly the lines and the message body that a
      bytewise reading of RFC 5321 gives (data_phase_correct, command_phase_correct), in bounded memory
      (reader_bounded); what a client stuffs, a server reads back (stuffed_message_reads_back).
    - Session: the engine refines an abstract machine of SMTP sequencing (engine_refines_protocol), keeps
      its invariant, ends on every input, answers each command once, accepts a message only when the octets
      were framed properly (data_acceptance), and forgets plaintext at STARTTLS.
    - Texts: commands, replies, paths and xtext survive printing and parsing and carry no control
      characters; PROXY headers round-trip and are read independently of chunks.
    - DKIM: the streaming canonicalizer equals the line-by-line definition, a signed message verifies, the
      body hash is that of the canonical body, a stream splits like a buffer.
    - Throttle: the counts refine the history of attempts, guesses are bounded whatever the interleaving
      with successes, both ledgers agree, the audit log never stores a secret.
    - SPF: every evaluation ends within a fixed number of DNS queries; a definite result is the one a
      declarative reading of RFC 7208 prescribes; parsed records are well-formed; CIDR matching is equality
      of leading bits.
    - DMARC: a message passes exactly when an aligned identifier vouches for its one author domain; with
      an ambiguous author the strictest policy applies; the suffix lookup is the published algorithm.
    - DNS: names and messages decode to what a reading of RFC 1035 with compression gives, every buffer is
      decoded or refused, a query ends and its answer comes from the trusted resolver and matches the
      question, and mail exchangers are tried in order of preference.
    - Delivery: a recipient's retries end after five days and only a permanent reply or age bounces it
      (retries_end); a recipient is reported delivered only when the server took the whole message for it;
      a broken attempt never terminates a partial message; under a mandatory TLS policy, or towards a
      smarthost, nothing but the greeting crosses an unverified connection; a result is definitive for every
      recipient or nothing of a transaction was sent.
    - Queue: however workers, sweeps, cancels and crashes interleave, a recipient has at most one attempt
      open and in flight (attempts_exclusive), its message is accepted at most once, plus once for every worker
      that died between a server's acceptance and the commit of it (delivered_at_most_once), it never leaves a final state
      (final_states_final), and a sweep leaves no group with work and no job
      (sweep_leaves_no_orphan).
    - TLS policy: DANE accepts exactly the chains of RFC 7672 (dane_accepts_iff), a cached MTA-STS policy
      cannot be stripped before it expires (sts_policy_not_stripped), a domain under DANE or an enforced
      policy never receives mail over a connection that was not verified (enforced_policy_no_downgrade), and
      an attempt starts at most one transaction that can deliver (attempt_is_one_transaction).
    - IMAP: commands and literals arrive as the client wrote them (imap_commands_delivered), whatever the chunks
      (imap_reader_chunking), in bounded memory (imap_reader_bounded); a mailbox name has one spelling
      (mailbox_names_bijective); sequence sets and their normal forms denote the same numbers
      (sequence_sets_denote).
    - MIME: a header value, a list of mailboxes and a body come back from their encodings as they were written,
      however the encoded body is cut (header_value_roundtrip, mailbox_list_roundtrip, transfer_roundtrip).
    - Sieve: every text is parsed or refused (parse_total); a glob is matched leftmost-shortest in bounded work
      (glob_leftmost_shortest); what validation accepts is well-formed (compiled_well_formed) and does not fail on
      its values when it runs (validated_values); no run loses the message (sieve_loses_no_mail), relays it
      (sieve_never_relays) or answers a machine (sieve_vacation_safe).
    - Threading: every message of a batch stands in its threads exactly once, in the order of the dates
      (threads_complete).
    - Mailboxes: after any history of IMAP, delivery, the scheduled loop and the webmail a UID names one message
      for good (uid_names_one_message), a client that resynchronises has the mailbox exactly, if the webmail moved
      nothing (resynchronising_is_exact), filing cannot fail for its UID (filing_succeeds), and a stored content
      is counted exactly (blob_counts_are_exact). Whatever others write meanwhile, what a session tells its
      client is never contradicted and the client ends with the mailbox (view_converges); message sets resolve
      to the messages of the view that they name (resolveSeqs_spec, resolveUids_spec).

    ** Recursion and fuel

    Loops over a list are structural. The others take fuel, and a theorem or the bound used shows it is
    enough: [next_fuel] and [data_fuel] of the line reader are computed from the buffered octets and the
    refinement theorems prove a result; the session's run is shown to end for every input
    (session_terminates); header, TLV and folding loops take the length of their input, each round consuming
    some of it; [spf_fuel] (11) exceeds the nesting that ten counted lookups allow, and spf_terminates proves
    that it is never exhausted. Macro expansion recurses on the length of the template.
    DNS names take [name_fuel] (384) rounds, more than the 255 octets and 127 jumps a name may have; the other
    DNS loops are bounded by the octets or the records left, CNAME chains by the source's own limit.
    A pump of the IMAP reader takes two rounds an octet and one a chunk at most ([pumpFuel]); ImapReaderProofs
    shows that it always comes to rest within them.
    The loop of a glob takes at most n(m + 1) + m rounds ([globFuel]) and is shown to; the parser of Sieve takes
    three calls a character at most ([parserFuel]), and parse_total shows that it never runs out. The compiler and
    the interpreter recurse on the tree; the expansion of references consumes the string it expands.
    A walk over containers takes one round a container ([walkFuel]); threads_complete shows that it is enough.

    ** Not modelled

    Socket back-pressure and timers of the session ([maxBodyBuffered], idle timeouts; a close is modelled at
    the points where the engine waits for input), failures of a message stream while it is read, memory
    limits of the runtime. Cryptography, DNS answers, the generated rule texts of the public suffix list,
    Unicode tables, [net.isIPv6] and the clock are parameters. The daemons' database, socket and file
    operations, the web client, and packages that wrap network or database I/O are left out.

    ** Plan

    Left for later: the syntax of IMAP commands (imap-proto), the streaming MIME parser, ARC and the DNS-driven DKIM
    verifier, delivery reports (dsn), the assignment of a message to a stored thread (assign.ts), the IMAP
    sessions over the mail store and their view of a mailbox. *)
From stdpp Require Export base sets list numbers option strings.
From Stdlib Require Export ZArith Lia.

#[global] Open Scope Z_scope.

(** ** Carriers

    Octets and UTF-16 code units are both plain integers; which of the two a list holds is said by
    the abbreviation used for it and, where it matters, by [octets_ok] or [units_ok]. *)

Abbreviation bytes := (list Z).
Abbreviation jsstr := (list Z).

Definition is_octet (b : Z) : Prop := 0 <= b < 256.
Definition is_unit (u : Z) : Prop := 0 <= u < 65536.
Abbreviation octets_ok := (Forall is_octet).
Abbreviation units_ok := (Forall is_unit).

(** ASCII text written as a Rocq string. *)
Definition lit (s : string) : jsstr :=
  List.map (fun c => Z.of_N (Ascii.N_of_ascii c)) (String.list_ascii_of_string s).

Declare Scope js_scope.
Delimit Scope js_scope with js.
Notation "'js' s" := (lit s%string) (at level 1, s at level 0, only parsing) : js_scope.
#[global] Open Scope js_scope.

(** ** Octets with a role in the protocols *)

Definition NUL : Z := 0.
Definition HTAB : Z := 9.
Definition LF : Z := 10.
Definition CR : Z := 13.
Definition SP : Z := 32.
Definition DOT : Z := 46.
Definition CRLF : bytes := [CR; LF].

(** ** Slices

    [sub l i j] is [l.subarray(i, j)] (and [l.slice(i, j)]) for [0 <= i <= j <= l.length]. *)

Definition sub {A} (l : list A) (i j : nat) : list A := take (j - i) (drop i l).

(** ** Automation *)

Create HintDb postroom.

(** Turn boolean tests into arithmetic and finish. *)
Ltac zlia := unfold is_octet, is_unit, NUL, HTAB, LF, CR, SP, DOT in *; lia.

(** Boolean comparisons of naturals in the context as propositions. *)
Ltac nat_tests :=
  repeat match goal with
    | H : (_ <? _)%nat = false |- _ => apply Nat.ltb_ge in H
    | H : (_ <? _)%nat = true |- _ => apply Nat.ltb_lt in H
    | H : (_ <=? _)%nat = false |- _ => apply Nat.leb_gt in H
    | H : (_ <=? _)%nat = true |- _ => apply Nat.leb_le in H
    | H : (_ =? _)%nat = true |- _ => apply Nat.eqb_eq in H
    | H : (_ =? _)%nat = false |- _ => apply Nat.eqb_neq in H
    end.

(** Split every [match]/[if] of the goal and of the context, then simplify. *)
Ltac split_matches := repeat (case_match; simplify_eq/=).

(** ** Lists *)

Lemma sub_nil {A} (l : list A) i : sub l i i = [].
Proof. unfold sub. by rewrite Nat.sub_diag. Qed.

Lemma sub_all_drop {A} (l : list A) i : sub l i (length l) = drop i l.
Proof. unfold sub. apply take_ge. rewrite length_drop. lia. Qed.

Lemma length_sub {A} (l : list A) i j :
  (j <= length l)%nat -> length (sub l i j) = (j - i)%nat.
Proof. intros. unfold sub. rewrite length_take, length_drop. lia. Qed.

(** Extending a slice by the element at its right end. *)
Lemma sub_snoc {A} (l : list A) i j x :
  (i <= j)%nat -> l !! j = Some x -> sub l i (S j) = sub l i j ++ [x].
Proof.
  intros Hij Hx. unfold sub. replace (S j - i)%nat with (S (j - i)) by lia.
  apply take_S_r. rewrite lookup_drop. by replace (i + (j - i))%nat with j by lia.
Qed.

Lemma drop_cons_lookup {A} (l : list A) i x t :
  drop i l = x :: t -> l !! i = Some x /\ drop (S i) l = t.
Proof.
  intros H. split.
  - rewrite <- (Nat.add_0_r i), <- lookup_drop, H. done.
  - replace (S i) with (i + 1)%nat by lia. rewrite <- drop_drop, H. done.
Qed.

Lemma drop_nil_length {A} (l : list A) i : drop i l = [] -> (length l <= i)%nat.
Proof. intros H. apply (f_equal length) in H. rewrite length_drop in H. simpl in H. lia. Qed.

(** Writing at the first free position of a fixed buffer appends to the used part. *)
Lemma take_insert_snoc {A} (l : list A) n x :
  (n < length l)%nat -> take (S n) (<[n:=x]> l) = take n l ++ [x].
Proof.
  intros H. erewrite take_S_r; [| by apply list_lookup_insert_eq].
  by rewrite take_insert_ge.
Qed.

(** Boolean universal quantification, for every [f] and [l]. *)
Lemma forallb_Forall {A} (f : A -> bool) l : forallb f l = true <-> Forall (fun x => f x = true) l.
Proof. rewrite forallb_forall, Forall_forall. setoid_rewrite list_elem_of_In. done. Qed.

Lemma Forall_sub {A} (P : A -> Prop) l i j : Forall P l -> Forall P (sub l i j).
Proof. intros. unfold sub. by apply Forall_take, Forall_drop. Qed.

#[export] Hint Resolve Forall_sub : postroom.
