(* ===== verification/SmtpLineReader.v ===== *)
(** * SmtpLineReader: the strict byte-level line reader of packages/smtp-proto/src/line-reader.ts

    The reader is a record; [push], [startData], [discardPending] and [next] are its methods.
    [scanCommand] and [scanData] are the two inner loops. *)
From S2P Require Import Prelude.

Inductive LineError := Bare_lf | Bare_cr | Line_too_long.
Inductive DataRejection := Rej_bare_lf | Rej_bare_cr | Rej_nul | Rej_too_large.

#[export] Instance LineError_eq_dec : EqDecision LineError.
Proof. solve_decision. Defined.
#[export] Instance DataRejection_eq_dec : EqDecision DataRejection.
Proof. solve_decision. Defined.

Inductive LineReaderEvent :=
| EvLine (line : bytes)
| EvLineError (error : LineError)
| EvData (chunk : bytes)
| EvDataRejected (reason : DataRejection)
| EvDataEnd (size : Z) (rejection : option DataRejection).

#[export] Instance LineReaderEvent_eq_dec : EqDecision LineReaderEvent.
Proof. solve_decision. Defined.

Definition DEFAULT_MAX_LINE_LENGTH : nat := 2048.
Definition CR_BUF : bytes := [CR].

Inductive DataState := DsLineStart | DsMid | DsCR | DsDot | DsDotCR.
Inductive ReaderMode := Command | Data.

#[export] Instance DataState_eq_dec : EqDecision DataState.
Proof. solve_decision. Defined.
#[export] Instance ReaderMode_eq_dec : EqDecision ReaderMode.
Proof. solve_decision. Defined.

(** The private fields of the class. [maxSize = None] is [Number.POSITIVE_INFINITY]; [lineBuf] is
    the fixed buffer of [maxLineLength] octets, of which the first [lineLen] are in use. *)
Record SmtpLineReader := mkReader {
  maxLineLength : nat;
  queue : list bytes;
  offset : nat;
  events : list LineReaderEvent;
  mode : ReaderMode;
  lineBuf : bytes;
  lineLen : nat;
  cmdCR : bool;
  discarding : bool;
  ds : DataState;
  size : Z;
  maxSize : option Z;
  rejection : option DataRejection;
  rejectionReported : bool;
  maxBufferedBytes : Z
}.

Definition set_queue q r := mkReader (maxLineLength r) q (offset r) (events r) (mode r) (lineBuf r)
  (lineLen r) (cmdCR r) (discarding r) (ds r) (size r) (maxSize r) (rejection r)
  (rejectionReported r) (maxBufferedBytes r).
Definition set_offset o r := mkReader (maxLineLength r) (queue r) o (events r) (mode r) (lineBuf r)
  (lineLen r) (cmdCR r) (discarding r) (ds r) (size r) (maxSize r) (rejection r)
  (rejectionReported r) (maxBufferedBytes r).
Definition set_events e r := mkReader (maxLineLength r) (queue r) (offset r) e (mode r) (lineBuf r)
  (lineLen r) (cmdCR r) (discarding r) (ds r) (size r) (maxSize r) (rejection r)
  (rejectionReported r) (maxBufferedBytes r).
Definition set_mode m r := mkReader (maxLineLength r) (queue r) (offset r) (events r) m (lineBuf r)
  (lineLen r) (cmdCR r) (discarding r) (ds r) (size r) (maxSize r) (rejection r)
  (rejectionReported r) (maxBufferedBytes r).
Definition set_line b n r := mkReader (maxLineLength r) (queue r) (offset r) (events r) (mode r) b
  n (cmdCR r) (discarding r) (ds r) (size r) (maxSize r) (rejection r)
  (rejectionReported r) (maxBufferedBytes r).
Definition set_cmdCR c r := mkReader (maxLineLength r) (queue r) (offset r) (events r) (mode r)
  (lineBuf r) (lineLen r) c (discarding r) (ds r) (size r) (maxSize r) (rejection r)
  (rejectionReported r) (maxBufferedBytes r).
Definition set_discarding d r := mkReader (maxLineLength r) (queue r) (offset r) (events r) (mode r)
  (lineBuf r) (lineLen r) (cmdCR r) d (ds r) (size r) (maxSize r) (rejection r)
  (rejectionReported r) (maxBufferedBytes r).
Definition set_ds d r := mkReader (maxLineLength r) (queue r) (offset r) (events r) (mode r)
  (lineBuf r) (lineLen r) (cmdCR r) (discarding r) d (size r) (maxSize r) (rejection r)
  (rejectionReported r) (maxBufferedBytes r).
Definition set_size s r := mkReader (maxLineLength r) (queue r) (offset r) (events r) (mode r)
  (lineBuf r) (lineLen r) (cmdCR r) (discarding r) (ds r) s (maxSize r) (rejection r)
  (rejectionReported r) (maxBufferedBytes r).
Definition set_maxSize m r := mkReader (maxLineLength r) (queue r) (offset r) (events r) (mode r)
  (lineBuf r) (lineLen r) (cmdCR r) (discarding r) (ds r) (size r) m (rejection r)
  (rejectionReported r) (maxBufferedBytes r).
Definition set_rejection x r := mkReader (maxLineLength r) (queue r) (offset r) (events r) (mode r)
  (lineBuf r) (lineLen r) (cmdCR r) (discarding r) (ds r) (size r) (maxSize r) x
  (rejectionReported r) (maxBufferedBytes r).
Definition set_rejectionReported x r := mkReader (maxLineLength r) (queue r) (offset r) (events r)
  (mode r) (lineBuf r) (lineLen r) (cmdCR r) (discarding r) (ds r) (size r) (maxSize r)
  (rejection r) x (maxBufferedBytes r).
Definition set_maxBuffered x r := mkReader (maxLineLength r) (queue r) (offset r) (events r)
  (mode r) (lineBuf r) (lineLen r) (cmdCR r) (discarding r) (ds r) (size r) (maxSize r)
  (rejection r) (rejectionReported r) x.

(** ** Operations *)

(** [new SmtpLineReader(options)]. *)
Definition newReader (maxLine : option nat) : SmtpLineReader :=
  let m := default DEFAULT_MAX_LINE_LENGTH maxLine in
  mkReader m [] 0 [] Command (replicate m 0) 0 false false DsLineStart 0 None None false 0.

(** [get bufferedBytes()]. *)
Definition bufferedBytes (r : SmtpLineReader) : Z :=
  fold_left (fun n b => n + Z.of_nat (length b)) (queue r)
    (Z.of_nat (lineLen r) - Z.of_nat (offset r)).

Definition push (chunk : bytes) (r : SmtpLineReader) : SmtpLineReader :=
  match chunk with
  | [] => r
  | _ =>
      let r := set_queue (queue r ++ [chunk]) r in
      let held := bufferedBytes r in
      if held >? maxBufferedBytes r then set_maxBuffered held r else r
  end.

(** [None] is the thrown [Error]. *)
Definition startData (max : option Z) (r : SmtpLineReader) : option SmtpLineReader :=
  if bool_decide (mode r <> Command) || negb (Nat.eqb (lineLen r) 0) || cmdCR r || discarding r
  then None
  else Some (set_rejectionReported false (set_rejection None (set_maxSize max
               (set_size 0 (set_ds DsLineStart (set_mode Data r)))))).

(** Returns the number of octets discarded. *)
Definition discardPending (r : SmtpLineReader) : Z * SmtpLineReader :=
  let n := fold_left (fun n b => n + Z.of_nat (length b)) (queue r)
             (- Z.of_nat (offset r) + Z.of_nat (lineLen r)) in
  (n, set_mode Command (set_discarding false (set_cmdCR false (set_line (lineBuf r) 0
        (set_events [] (set_offset 0 (set_queue [] r))))))).

Definition lineError (e : LineError) (r : SmtpLineReader) : LineReaderEvent * SmtpLineReader :=
  (EvLineError e, set_line (lineBuf r) 0 (set_discarding true r)).

(** The loop of [scanCommand]: [rest] is [buf] from [this.offset] on. *)
Fixpoint scanCommand_loop (rest : bytes) (r : SmtpLineReader)
    : option LineReaderEvent * SmtpLineReader :=
  match rest with
  | [] => (None, r)
  | b :: rest =>
      let r := set_offset (S (offset r)) r in
      if cmdCR r then
        let r := set_cmdCR false r in
        if b =? LF then
          if discarding r then
            scanCommand_loop rest (set_line (lineBuf r) 0 (set_discarding false r))
          else
            (Some (EvLine (take (lineLen r) (lineBuf r))), set_line (lineBuf r) 0 r)
        else
          let r := if b =? CR then set_cmdCR true r else r in
          if negb (discarding r) then
            let (ev, r) := lineError Bare_cr r in (Some ev, r)
          else scanCommand_loop rest r
      else if b =? CR then scanCommand_loop rest (set_cmdCR true r)
      else if b =? LF then
        if negb (discarding r) then
          let (ev, r) := lineError Bare_lf r in (Some ev, r)
        else scanCommand_loop rest r
      else if discarding r then scanCommand_loop rest r
      else if (maxLineLength r <=? lineLen r)%nat then
        let (ev, r) := lineError Line_too_long r in (Some ev, r)
      else
        scanCommand_loop rest
          (set_line (<[lineLen r := b]> (lineBuf r)) (S (lineLen r)) r)
  end.

Definition scanCommand (buf : bytes) (r : SmtpLineReader)
    : option LineReaderEvent * SmtpLineReader :=
  scanCommand_loop (drop (offset r) buf) r.

Definition reject (reason : DataRejection) (r : SmtpLineReader) : SmtpLineReader :=
  match rejection r with None => set_rejection (Some reason) r | Some _ => r end.

Definition exceeds (n : Z) (max : option Z) : bool :=
  match max with None => false | Some m => n >? m end.

Definition emit (segment : bytes) (r : SmtpLineReader) : SmtpLineReader :=
  match segment with
  | [] => r
  | _ =>
      let r := set_size (size r + Z.of_nat (length segment)) r in
      let r := if exceeds (size r) (maxSize r) then reject Rej_too_large r else r in
      match rejection r with
      | Some _ => r
      | None => set_events (events r ++ [EvData segment]) r
      end
  end.

(** The labelled [for] loop of [scanData]: [rest] is [buf] from [i] on. The result is the final
    [(i, runStart, ended)] with the reader. *)
Fixpoint scanData_loop (buf rest : bytes) (i runStart : nat) (r : SmtpLineReader)
    : nat * nat * bool * SmtpLineReader :=
  match rest with
  | [] => (i, runStart, false, r)
  | b :: rest =>
      if bool_decide (ds r = DsLineStart) && (b =? DOT) then
        let r := emit (sub buf runStart i) r in
        scanData_loop buf rest (S i) (S i) (set_ds DsDot r)
      else
        match ds r with
        | DsLineStart | DsMid =>
            if b =? CR then scanData_loop buf rest (S i) runStart (set_ds DsCR r)
            else
              let r := if b =? LF then reject Rej_bare_lf r
                       else if b =? NUL then reject Rej_nul r else r in
              scanData_loop buf rest (S i) runStart (set_ds DsMid r)
        | DsCR =>
            if b =? LF then scanData_loop buf rest (S i) runStart (set_ds DsLineStart r)
            else if b =? CR then scanData_loop buf rest (S i) runStart (reject Rej_bare_cr r)
            else
              let r := reject Rej_bare_cr r in
              let r := if b =? NUL then reject Rej_nul r else r in
              scanData_loop buf rest (S i) runStart (set_ds DsMid r)
        | DsDot =>
            if b =? CR then
              let r := emit (sub buf runStart i) r in
              scanData_loop buf rest (S i) (S i) (set_ds DsDotCR r)
            else
              let r := if b =? LF then reject Rej_bare_lf r
                       else if b =? NUL then reject Rej_nul r else r in
              scanData_loop buf rest (S i) runStart (set_ds DsMid r)
        | DsDotCR =>
            if b =? LF then (S i, runStart, true, r)
            else
              let r := emit CR_BUF (reject Rej_bare_cr r) in
              if b =? CR then scanData_loop buf rest (S i) runStart (set_ds DsCR r)
              else
                let r := if b =? NUL then reject Rej_nul r else r in
                scanData_loop buf rest (S i) runStart (set_ds DsMid r)
        end
  end.

Definition scanData (buf : bytes) (r : SmtpLineReader) : SmtpLineReader :=
  let i := offset r in
  let '(i, runStart, ended, r) := scanData_loop buf (drop i buf) i i r in
  let r := if ended then r else emit (sub buf runStart i) r in
  let r := set_offset i r in
  let r :=
    match rejection r with
    | Some reason =>
        if rejectionReported r then r
        else set_events (events r ++ [EvDataRejected reason]) (set_rejectionReported true r)
    | None => r
    end in
  if ended then
    set_maxSize None (set_mode Command
      (set_events (events r ++ [EvDataEnd (size r) (rejection r)]) r))
  else r.

(** The [for (;;)] of [next]; [None] when the fuel runs out. *)
Fixpoint next_loop (fuel : nat) (r : SmtpLineReader)
    : option (option LineReaderEvent * SmtpLineReader) :=
  match fuel with
  | O => None
  | S fuel =>
      match events r with
      | ev :: evs => Some (Some ev, set_events evs r)
      | [] =>
          match queue r with
          | [] => Some (None, r)
          | head :: tail =>
              if (length head <=? offset r)%nat then
                next_loop fuel (set_offset 0 (set_queue tail r))
              else
                match mode r with
                | Command =>
                    let (ev, r) := scanCommand head r in
                    match ev with
                    | Some ev => Some (Some ev, r)
                    | None => next_loop fuel r
                    end
                | Data => next_loop fuel (scanData head r)
                end
          end
      end
  end.

(** Each queued chunk takes at most one scan and one shift before the loop returns. *)
Definition next_fuel (r : SmtpLineReader) : nat := S (2 * length (queue r)).

Definition next (r : SmtpLineReader) : option LineReaderEvent * SmtpLineReader :=
  default (None, r) (next_loop (next_fuel r) r).

(** The caller's side of the protocol (the engine's [nextEvent]): pull events until [next] has
    none, then push the next chunk read from the socket. *)
Fixpoint nextFrom (chunks : list bytes) (r : SmtpLineReader)
    : option LineReaderEvent * SmtpLineReader * list bytes :=
  match next r with
  | (Some ev, r) => (Some ev, r, chunks)
  | (None, r) =>
      match chunks with
      | [] => (None, r, [])
      | c :: chunks => nextFrom chunks (push c r)
      end
  end.

(** ** The caller's DATA loop

    The [while (end === null)] loop of the session engine's [data]: events go to [on] until
    [data-end] arrives or the input is over. *)
Section ReadData.
Context {St : Type} (on : LineReaderEvent -> St -> St).

Inductive DataRead :=
| DataComplete (st : St) (size : Z) (rej : option DataRejection) (r : SmtpLineReader)
    (chunks : list bytes)
| DataClosed (st : St) (r : SmtpLineReader)
| DataOutOfFuel.

Fixpoint readData (fuel : nat) (chunks : list bytes) (r : SmtpLineReader) (st : St) : DataRead :=
  match fuel with
  | O => DataOutOfFuel
  | S fuel =>
      match nextFrom chunks r with
      | (None, r, _) => DataClosed st r
      | (Some (EvDataEnd size rej), r, chunks) => DataComplete st size rej r chunks
      | (Some ev, r, chunks) => readData fuel chunks r (on ev st)
      end
  end.
End ReadData.
Arguments DataRead : clear implicits.


(** Reading commands until the input runs dry, one event at a time. *)
Fixpoint readLines (fuel : nat) (chunks : list bytes) (r : SmtpLineReader)
    : list LineReaderEvent * SmtpLineReader :=
  match fuel with
  | O => ([], r)
  | S fuel =>
      match nextFrom chunks r with
      | (Some ev, r, chunks) => let (evs, r) := readLines fuel chunks r in (ev :: evs, r)
      | (None, r, _) => ([], r)
      end
  end.
