(* ===== verification/SmtpLineReaderProofs.v ===== *)
(** * SmtpLineReaderProofs: what the line reader does, whatever the chunking

    Bytewise readings of the two modes ([drun], [crun]), the proofs that the chunk-driven loops of
    [SmtpLineReader] implement them, and the line-level specifications ([data_lines],
    [command_events]) those readings implement in turn. *)
From S2P Require Import Prelude.
From S2P Require Import SmtpLineReader.

(** ** The bytewise reading of a DATA phase

    [dstep s b] is what one octet does: the next state ([None]: the terminator is complete), the
    body octets it yields and whether it makes the message unacceptable. *)
Definition dstep (s : DataState) (b : Z) : option DataState * bytes * bool :=
  match s with
  | DsLineStart =>
      if b =? DOT then (Some DsDot, [], false)
      else if b =? CR then (Some DsCR, [b], false)
      else (Some DsMid, [b], (b =? LF) || (b =? NUL))
  | DsMid =>
      if b =? CR then (Some DsCR, [b], false)
      else (Some DsMid, [b], (b =? LF) || (b =? NUL))
  | DsCR =>
      if b =? LF then (Some DsLineStart, [b], false)
      else if b =? CR then (Some DsCR, [b], true)
      else (Some DsMid, [b], true)
  | DsDot =>
      if b =? CR then (Some DsDotCR, [], false)
      else (Some DsMid, [b], (b =? LF) || (b =? NUL))
  | DsDotCR =>
      if b =? LF then (None, [], false)
      else if b =? CR then (Some DsCR, [CR; b], true)
      else (Some DsMid, [CR; b], true)
  end.

(** The result of reading octets in DATA mode: either still inside the message, or ended with the
    octets that follow the terminator. *)
Inductive DataOutcome := InData (s : DataState) | Ended (rest : bytes).

Record DataRun := mkRun { run_body : bytes; run_bad : bool; run_out : DataOutcome }.

Fixpoint drun (s : DataState) (l : bytes) : DataRun :=
  match l with
  | [] => mkRun [] false (InData s)
  | b :: l =>
      match dstep s b with
      | (None, out, bad) => mkRun out bad (Ended l)
      | (Some s', out, bad) =>
          let d := drun s' l in mkRun (out ++ run_body d) (bad || run_bad d) (run_out d)
      end
  end.

(** Reading on: a run over [l] continued over [l']. *)
Definition drun_continue (d : DataRun) (l' : bytes) : DataRun :=
  match run_out d with
  | InData s =>
      let d' := drun s l' in
      mkRun (run_body d ++ run_body d') (run_bad d || run_bad d') (run_out d')
  | Ended rest => mkRun (run_body d) (run_bad d) (Ended (rest ++ l'))
  end.

Lemma drun_app s l l' : drun s (l ++ l') = drun_continue (drun s l) l'.
Proof.
  revert s. induction l as [|b l IH]; intros s; simpl.
  - unfold drun_continue; simpl. by destruct (drun s l').
  - destruct (dstep s b) as [[[s'|] out] bad]; [|done].
    rewrite IH. unfold drun_continue; simpl.
    destruct (run_out (drun s' l)); simpl; by rewrite ?app_assoc, ?orb_assoc.
Qed.

(** ** How the chunk loop refines the bytewise reading *)

(** The fields a DATA scan may change. *)
Definition dupd d s j e r := set_ds d (set_size s (set_rejection j (set_events e r))).

Lemma dupd_self r : r = dupd (ds r) (size r) (rejection r) (events r) r.
Proof. by destruct r. Qed.

Lemma dupd_dupd d s j e d' s' j' e' r :
  dupd d s j e (dupd d' s' j' e' r) = dupd d s j e r.
Proof. done. Qed.

Definition framed r r' := r' = dupd (ds r') (size r') (rejection r') (events r') r.

Lemma framed_trans r r' r'' : framed r r' -> framed r' r'' -> framed r r''.
Proof. unfold framed. intros H1 H2. rewrite H2 at 1. rewrite H1 at 1. done. Qed.

Lemma framed_refl r : framed r r.
Proof. apply dupd_self. Qed.

Lemma framed_set_ds d r : framed r (set_ds d r).
Proof. by destruct r. Qed.

Lemma framed_reject x r : framed r (reject x r).
Proof. unfold reject. destruct r as [??????????????]; simpl. by case_match. Qed.

Lemma framed_emit x r : framed r (emit x r).
Proof.
  unfold emit, reject, framed. destruct r; simpl. split_matches; done.
Qed.

#[export] Hint Resolve framed_refl framed_set_ds framed_reject framed_emit framed_trans : postroom.

(** [Emits r segs r']: the reader went from [r] to [r'] queueing [segs] as data events; when the
    message is still acceptable in [r'] nothing was held back, and the size limit is respected. *)
Record Emits (r : SmtpLineReader) (out : bytes) (bad : bool) (r' : SmtpLineReader) : Prop := {
  emits_frame : framed r r';
  emits_size : size r' = size r + Z.of_nat (length out);
  emits_segs : exists segs, events r' = events r ++ (EvData <$> segs) /\
      (length segs <= length out)%nat /\
      (rejection r <> None -> segs = []) /\
      concat segs `prefix_of` out /\ (rejection r' = None -> concat segs = out);
  emits_rej : rejection r' = None <->
      rejection r = None /\ bad = false /\ (out <> [] -> exceeds (size r') (maxSize r) = false)
}.

Lemma Emits_refl r : Emits r [] false r.
Proof.
  split; [apply framed_refl | simpl; lia | | naive_solver].
  exists []. rewrite app_nil_r. repeat split; auto.
Qed.

Lemma Emits_set_ds d r : Emits r [] false (set_ds d r).
Proof.
  split; [apply framed_set_ds | simpl; lia | | simpl; naive_solver].
  exists []. simpl. rewrite app_nil_r. repeat split; auto.
Qed.

Lemma Emits_reject x r : Emits r [] true (reject x r).
Proof.
  split; [apply framed_reject | | |].
  - unfold reject. case_match; simpl; lia.
  - exists []. unfold reject. case_match; simpl; rewrite app_nil_r; repeat split; auto.
  - unfold reject. destruct (rejection r) eqn:E; simpl; rewrite ?E; naive_solver.
Qed.

Lemma Emits_emit seg r : Emits r seg false (emit seg r).
Proof.
  destruct seg as [|b seg]; [apply Emits_refl|].
  split; [apply framed_emit | | |]; unfold emit, reject;
    destruct r as [? ? ? ? ? ? ? ? ? ? sz mx rj ? ?]; simpl.
  all: destruct (exceeds _ _) eqn:Ex, rj; simpl; rewrite ?Ex.
  all: try naive_solver lia.
  1-3: exists []; rewrite app_nil_r; split_and!; auto using prefix_nil; simpl; (lia || congruence).
  exists [b :: seg]. simpl. rewrite app_nil_r. split_and!; auto with lia; congruence.
Qed.

Lemma exceeds_mono n n' m : n <= n' -> exceeds n' m = false -> exceeds n m = false.
Proof. unfold exceeds. destruct m; [|done]. intros. lia. Qed.

Lemma framed_maxSize r r' : framed r r' -> maxSize r' = maxSize r.
Proof. intros ->. done. Qed.

Lemma Emits_trans r o1 b1 r1 o2 b2 r2 :
  Emits r o1 b1 r1 -> Emits r1 o2 b2 r2 -> Emits r (o1 ++ o2) (b1 || b2) r2.
Proof.
  intros [F1 S1 (g1 & E1 & L1 & N1 & P1 & Q1) J1] [F2 S2 (g2 & E2 & L2 & N2 & P2 & Q2) J2].
  pose proof (framed_maxSize _ _ F1) as M. rewrite M in J2.
  split; [by eapply framed_trans | rewrite S2, S1, length_app; lia | |].
  - exists (g1 ++ g2). rewrite E2, E1, fmap_app, <- app_assoc, !length_app, concat_app.
    split; [done|]. split; [lia|]. split.
    { intros H. rewrite N1 by done. rewrite N2; [done|]. intros C. apply J1 in C. tauto. }
    destruct (rejection r1) eqn:R1.
    + rewrite N2 by done. rewrite app_nil_r. split; [by apply prefix_app_r|].
      intros C. apply J2 in C. naive_solver.
    + rewrite Q1 by done. split; [by apply prefix_app|]. intros C. by rewrite Q2.
  - rewrite J2, J1. rewrite orb_false_iff. split.
    + intros ((HR & Hb & He1) & Hb2 & He2). repeat split; auto. intros Hne.
      destruct o2 as [|x o2]; [|by apply He2].
      rewrite app_nil_r in Hne. simpl in S2. rewrite S2, Z.add_0_r. auto.
    + intros (HR & [Hb Hb2] & He). repeat split; auto.
      * intros Hne. eapply exceeds_mono; [|apply He]; [lia|]. by destruct o1.
      * intros Hne. apply He. destruct o1; [done|]. done.
Qed.

Lemma Emits_eq r o o' b b' r' : Emits r o b r' -> o = o' -> b = b' -> Emits r o' b' r'.
Proof. by intros ? -> ->. Qed.

Lemma Emits_reject_if (c : bool) x r :
  Emits r [] c (if c then reject x r else r).
Proof. destruct c; [apply Emits_reject | apply Emits_refl]. Qed.

(** The [if LF … else if NUL …] of three of the states, then the move to [Mid]. *)
Lemma Emits_reject2 (c1 c2 : bool) x y s r :
  Emits r [] (c1 || c2)
    (set_ds s (if c1 then reject x r else if c2 then reject y r else r)).
Proof.
  rewrite <- (orb_false_r (c1 || c2)). eapply (Emits_trans _ [] _ _ []); [|apply Emits_set_ds].
  destruct c1; [apply Emits_reject|apply Emits_reject_if].
Qed.

Lemma ds_reject x r : ds (reject x r) = ds r.
Proof. unfold reject. by case_match. Qed.

Lemma ds_emit x r : ds (emit x r) = ds r.
Proof. unfold emit. destruct x; [done|]. simpl. split_matches; rewrite ?ds_reject; done. Qed.

(** What the loop of [scanData] leaves behind: the slices it has emitted together with the run
    still open at [runStart] are exactly what the bytewise reading yields. *)
Definition loop_post (buf : bytes) (i runStart : nat) (r : SmtpLineReader) (d : DataRun)
    (res : nat * nat * bool * SmtpLineReader) : Prop :=
  let '(i', rs', ended, r') := res in
  match run_out d with
  | InData s =>
      ended = false /\ i' = length buf /\ ds r' = s /\
      Emits r (sub buf runStart i ++ run_body d) (run_bad d) (emit (sub buf rs' i') r')
  | Ended rest =>
      ended = true /\ drop i' buf = rest /\ (i < i' <= length buf)%nat /\
      Emits r (sub buf runStart i ++ run_body d) (run_bad d) r'
  end.

(** One iteration followed by the rest of the loop. *)
Lemma loop_post_step buf i runStart runStart' r r1 o1 b1 out d res :
  Emits r o1 b1 r1 ->
  o1 ++ sub buf runStart' (S i) = sub buf runStart i ++ out ->
  loop_post buf (S i) runStart' r1 d res ->
  loop_post buf i runStart r (mkRun (out ++ run_body d) (b1 || run_bad d) (run_out d)) res.
Proof.
  intros HE Heq. unfold loop_post. destruct res as [[[i' rs'] ended] r']. simpl.
  rewrite app_assoc, <- Heq, <- app_assoc.
  destruct (run_out d).
  all: intros (? & ? & ? & ?); split_and!; auto with lia; by eapply Emits_trans.
Qed.

Lemma scanData_loop_post buf rest : forall i runStart r,
  drop i buf = rest -> (i <= length buf)%nat -> (runStart <= i)%nat ->
  (ds r = DsDot \/ ds r = DsDotCR -> runStart = i) ->
  loop_post buf i runStart r (drun (ds r) rest) (scanData_loop buf rest i runStart r).
Proof.
  induction rest as [|b rest IH]; intros i runStart r Hd Hi Hr Hdot.
  { simpl. split_and!; auto.
    - apply drop_nil_length in Hd. lia.
    - rewrite app_nil_r. apply Emits_emit. }
  apply drop_cons_lookup in Hd as [Hb Hd].
  assert (S i <= length buf)%nat as Hi' by (apply lookup_lt_Some in Hb; lia).
  (* an iteration that keeps the run open: it only changes the state and maybe rejects *)
  assert (forall r1 s' bad, Emits r [] bad r1 -> ds r1 = s' -> s' <> DsDot -> s' <> DsDotCR ->
    loop_post buf i runStart r
      (mkRun ([b] ++ run_body (drun s' rest)) (bad || run_bad (drun s' rest))
         (run_out (drun s' rest)))
      (scanData_loop buf rest (S i) runStart r1)) as Keep.
  { intros r1 s' bad HE Hs H1 H2. eapply loop_post_step; [exact HE | | rewrite <- Hs; apply IH].
    - by rewrite (sub_snoc _ _ _ b) by done.
    - done.
    - done.
    - lia.
    - rewrite Hs. tauto. }
  (* an iteration that closes the run before [b] and drops [b] *)
  assert (forall s', loop_post buf i runStart r
      (mkRun ([] ++ run_body (drun s' rest)) (false || run_bad (drun s' rest))
         (run_out (drun s' rest)))
      (scanData_loop buf rest (S i) (S i) (set_ds s' (emit (sub buf runStart i) r)))) as Cut.
  { intros s'. eapply loop_post_step.
    - eapply (Emits_trans _ (sub buf runStart i) false _ [] false);
        [apply Emits_emit | apply Emits_set_ds].
    - by rewrite sub_nil, !app_nil_r.
    - apply (IH (S i) (S i) (set_ds s' (emit (sub buf runStart i) r))); auto with lia. }
  simpl. unfold dstep. destruct (ds r) eqn:Hds; simpl.
  - destruct (b =? DOT); [apply Cut|].
    destruct (b =? CR); [apply (Keep _ DsCR); [apply Emits_set_ds | done..]|].
    apply (Keep _ DsMid); [apply Emits_reject2 | done..].
  - destruct (b =? CR); [apply (Keep _ DsCR); [apply Emits_set_ds | done..]|].
    apply (Keep _ DsMid); [apply Emits_reject2 | done..].
  - destruct (b =? LF); [apply (Keep _ DsLineStart); [apply Emits_set_ds | done..]|].
    destruct (b =? CR); [apply (Keep _ DsCR); [apply Emits_reject | by rewrite ds_reject | done..]|].
    apply (Keep _ DsMid); [|done..].
    eapply (Emits_trans _ [] true _ [] false); [|apply Emits_set_ds].
    destruct (b =? NUL); [|apply Emits_reject].
    by eapply (Emits_trans _ [] true _ [] true); apply Emits_reject.
  - destruct (b =? CR); [apply Cut|].
    apply (Keep _ DsMid); [apply Emits_reject2 | done..].
  - rewrite Hdot in * by auto. destruct (b =? LF) eqn:HLF.
    { simpl. rewrite sub_nil. split_and!; auto using Emits_refl with lia. }
    assert (Emits r [CR] true (emit CR_BUF (reject Rej_bare_cr r))) as HE.
    { eapply (Emits_trans _ [] true _ [CR] false); [apply Emits_reject | apply Emits_emit]. }
    assert (forall r1 s', Emits r [CR] true r1 -> ds r1 = s' -> s' <> DsDot -> s' <> DsDotCR ->
      loop_post buf i i r
        (mkRun ([CR; b] ++ run_body (drun s' rest)) (true || run_bad (drun s' rest))
           (run_out (drun s' rest)))
        (scanData_loop buf rest (S i) i r1)) as Held.
    { intros r1 s' HE1 Hs H1 H2. eapply loop_post_step; [exact HE1 | | rewrite <- Hs; apply IH].
      - rewrite (sub_snoc _ _ _ b), sub_nil by done. done.
      - done.
      - done.
      - lia.
      - rewrite Hs. tauto. }
    destruct (b =? CR); [apply (Held _ DsCR); [|done..]|apply (Held _ DsMid); [|done..]].
    + by eapply (Emits_trans _ [CR] true _ [] false); [|apply Emits_set_ds].
    + eapply (Emits_trans _ [CR] true _ [] false); [|apply Emits_set_ds].
      destruct (b =? NUL); [|done].
      by eapply (Emits_trans _ [CR] true _ [] true); [|apply Emits_reject].
Qed.

(** ** Reading a message through [next] *)

(** The octets pushed and not yet consumed. *)
Definition unread (r : SmtpLineReader) : bytes :=
  match queue r with [] => [] | h :: t => drop (offset r) h ++ concat t end.

(** Well-formed readers: the read position is inside the head chunk and the partial command line
    fits the fixed buffer. *)
Record wf (r : SmtpLineReader) : Prop := {
  wf_offset : match queue r with [] => offset r = 0%nat | h :: _ => (offset r <= length h)%nat end;
  wf_buf : length (lineBuf r) = maxLineLength r;
  wf_len : (lineLen r <= maxLineLength r)%nat
}.

(** The body octets carried by a sequence of events. *)
Definition data_of (evs : list LineReaderEvent) : bytes :=
  concat (omap (fun ev => match ev with EvData c => Some c | _ => None end) evs).

Definition in_data_event (ev : LineReaderEvent) : Prop :=
  match ev with EvData _ | EvDataRejected _ => True | _ => False end.

#[export] Instance in_data_event_dec ev : Decision (in_data_event ev).
Proof. destruct ev; simpl; apply _. Defined.

(** [verdict_ok max d rej]: [rej] is the verdict [rej] on the message read so far. *)
Definition verdict_ok (max : option Z) (d : DataRun) (rej : option DataRejection) : Prop :=
  rej = None <-> run_bad d = false /\ exceeds (Z.of_nat (length (run_body d))) max = false.

Definition delivered (d : DataRun) (rej : option DataRejection) (evs : list LineReaderEvent) : Prop :=
  Forall in_data_event evs /\ data_of evs `prefix_of` run_body d /\
  (rej = None -> exists segs, evs = EvData <$> segs /\ concat segs = run_body d).

(** [DI max c evs r]: having consumed [c] since [startData] and produced the events [evs], the
    reader is where the bytewise reading of [c] says. *)
Definition DI (max : option Z) (c : bytes) (evs : list LineReaderEvent) (r : SmtpLineReader) : Prop :=
  let d := drun DsLineStart c in
  lineLen r = 0%nat /\ cmdCR r = false /\ discarding r = false /\
  match run_out d with
  | InData s =>
      mode r = Data /\ ds r = s /\ maxSize r = max /\
      size r = Z.of_nat (length (run_body d)) /\
      verdict_ok max d (rejection r) /\ delivered d (rejection r) evs
  | Ended rest =>
      rest = [] /\ mode r = Command /\
      exists pre rej, evs = pre ++ [EvDataEnd (Z.of_nat (length (run_body d))) rej] /\
        verdict_ok max d rej /\ delivered d rej pre
  end.

Lemma data_of_app e1 e2 : data_of (e1 ++ e2) = data_of e1 ++ data_of e2.
Proof. unfold data_of. by rewrite omap_app, concat_app. Qed.

Lemma data_of_segs segs : data_of (EvData <$> segs) = concat segs.
Proof. unfold data_of. f_equal. induction segs as [|s segs IH]; [done|]. csimpl. by rewrite IH. Qed.

Lemma in_data_segs segs : Forall in_data_event (EvData <$> segs).
Proof. apply Forall_fmap, Forall_true. done. Qed.

Lemma drun_ended_split s l rest :
  run_out (drun s l) = Ended rest ->
  exists c, l = c ++ rest /\ drun s c = mkRun (run_body (drun s l)) (run_bad (drun s l)) (Ended []).
Proof.
  revert s. induction l as [|b l IH]; intros s; simpl; [done|].
  destruct (dstep s b) as [[[s'|] out] bad] eqn:E; simpl.
  - intros H. apply IH in H as (c & -> & Hc). exists (b :: c). simpl. rewrite E, Hc. done.
  - intros [= ->]. exists [b]. simpl. by rewrite E.
Qed.

(** Body octets never outnumber the octets read by more than the held CR. *)
Lemma drun_body_length s l :
  (length (run_body (drun s l)) <= length l + (if decide (s = DsDotCR) then 1 else 0))%nat.
Proof.
  revert s. induction l as [|b l IH]; intros s; simpl; [lia|].
  destruct (dstep s b) as [[[s'|] out] bad] eqn:E; simpl.
  - specialize (IH s'). rewrite length_app.
    destruct s; simpl in E; repeat case_match; simplify_eq/=; repeat case_decide; simplify_eq; lia.
  - destruct s; simpl in E; repeat case_match; simplify_eq/=; lia.
Qed.

(** Progress of the data invariant along what a scan emits. *)
Lemma Emits_progress max d0 out bad o r r' evs :
  Emits r out bad r' ->
  maxSize r = max -> size r = Z.of_nat (length (run_body d0)) ->
  verdict_ok max d0 (rejection r) -> delivered d0 (rejection r) evs ->
  let d := mkRun (run_body d0 ++ out) (run_bad d0 || bad) o in
  exists segs, events r' = events r ++ (EvData <$> segs) /\ (length segs <= length out)%nat /\
    size r' = Z.of_nat (length (run_body d)) /\
    verdict_ok max d (rejection r') /\ delivered d (rejection r') (evs ++ (EvData <$> segs)).
Proof.
  intros [F S (segs & E & L & N & P & Q) J] HM HS HV (HF & HP & HQ) d.
  exists segs. split; [done|]. split; [done|].
  assert (size r' = Z.of_nat (length (run_body d))) as HS'.
  { simpl. rewrite length_app, S, HS. lia. }
  split; [done|]. split.
  - unfold verdict_ok in *. rewrite J, HV, HM, <- HS'. unfold d; simpl.
    rewrite orb_false_iff. split.
    + intros ([? He] & ? & He'). repeat split; auto.
      destruct out; [|by apply He']. simpl in S. by rewrite S, Z.add_0_r, HS.
    + intros ([? ?] & He). repeat split; auto. eapply exceeds_mono; [|done]. lia.
  - split; [by apply Forall_app; split; [|apply in_data_segs]|].
    rewrite data_of_app, data_of_segs. simpl. destruct (rejection r) eqn:R.
    + rewrite N by done. rewrite app_nil_r. split; [by apply prefix_app_r|].
      intros C. apply J in C. naive_solver.
    + destruct HQ as (segs0 & -> & Hs0); [done|]. rewrite data_of_segs, Hs0.
      split; [by apply prefix_app|]. intros C. exists (segs0 ++ segs).
      rewrite fmap_app, concat_app, Hs0. by rewrite Q.
Qed.

(** The event that reports a rejection, once. *)
Lemma delivered_rejected d rej evs x :
  rej <> None -> delivered d rej evs -> delivered d rej (evs ++ [EvDataRejected x]).
Proof.
  intros Hr (HF & HP & _). split; [by apply Forall_app; split; [|apply Forall_singleton]|].
  rewrite data_of_app, app_nil_r. by split.
Qed.

Definition report (r : SmtpLineReader) : SmtpLineReader :=
  match rejection r with
  | Some reason =>
      if rejectionReported r then r
      else set_events (events r ++ [EvDataRejected reason]) (set_rejectionReported true r)
  | None => r
  end.

Definition finish (r : SmtpLineReader) : SmtpLineReader :=
  set_maxSize None (set_mode Command
    (set_events (events r ++ [EvDataEnd (size r) (rejection r)]) r)).

Lemma scanData_eq buf r :
  scanData buf r =
    (let '(i, runStart, ended, r1) := scanData_loop buf (drop (offset r) buf) (offset r) (offset r) r in
     if ended then finish (report (set_offset i r1))
     else report (set_offset i (emit (sub buf runStart i) r1))).
Proof. unfold scanData. by destruct (scanData_loop _ _ _ _ _) as [[[i rs] [|]] r1]. Qed.

Lemma report_spec d r evs :
  delivered d (rejection r) evs ->
  exists new, events (report r) = events r ++ new /\ (length new <= 1)%nat /\
    delivered d (rejection r) (evs ++ new) /\
    report r = set_events (events (report r)) (set_rejectionReported (rejectionReported (report r)) r).
Proof.
  intros HD. unfold report. destruct (rejection r) eqn:R.
  2: { exists []. rewrite !app_nil_r. split_and!; [done | simpl; lia | done | by destruct r]. }
  destruct (rejectionReported r) eqn:RR.
  - exists []. rewrite !app_nil_r. split_and!; [done | simpl; lia | done | by destruct r].
  - eexists [_]. split_and!; [done | simpl; lia | by apply delivered_rejected | by destruct r].
Qed.

(** The fields a scan in DATA mode leaves alone. *)
Definition outer (r : SmtpLineReader) :=
  (maxLineLength r, queue r, lineBuf r, lineLen r, cmdCR r, discarding r).

Lemma framed_outer r r' :
  framed r r' -> outer r' = outer r /\ mode r' = mode r /\ maxSize r' = maxSize r.
Proof. intros ->. done. Qed.

Lemma report_frame r :
  outer (report r) = outer r /\ mode (report r) = mode r /\ maxSize (report r) = maxSize r /\
  offset (report r) = offset r /\ ds (report r) = ds r /\ size (report r) = size r /\
  rejection (report r) = rejection r.
Proof. unfold report. by repeat case_match. Qed.

Lemma outer_wf r r' :
  outer r' = outer r -> wf r -> (forall h t, queue r = h :: t -> (offset r' <= length h)%nat) ->
  queue r <> [] -> wf r'.
Proof.
  unfold outer. intros [= E1 E2 E3 E4 E5 E6] [W1 W2 W3] Ho Hne.
  split; rewrite ?E1, ?E2, ?E3, ?E4; auto.
  destruct (queue r) eqn:Eq; [done|]. by eapply Ho.
Qed.

(** One scan of the head chunk, seen from the bytewise reading. *)
Lemma scanData_run h t r :
  mode r = Data -> queue r = h :: t -> (offset r <= length h)%nat ->
  let d := drun (ds r) (drop (offset r) h) in
  exists r1, Emits r (run_body d) (run_bad d) r1 /\
    match run_out d with
    | InData s => scanData h r = report (set_offset (length h) r1) /\ ds r1 = s
    | Ended rest => exists i, scanData h r = finish (report (set_offset i r1)) /\
        drop i h = rest /\ (offset r < i <= length h)%nat
    end.
Proof.
  intros Hm Hq Ho d.
  pose proof (scanData_loop_post h (drop (offset r) h) (offset r) (offset r) r
    eq_refl Ho (Nat.le_refl _) (fun _ => eq_refl)) as HL.
  rewrite scanData_eq. unfold loop_post in HL.
  destruct (scanData_loop _ _ _ _ _) as [[[i rs] ended] r1].
  rewrite sub_nil in HL. fold d in HL. simpl app in HL.
  destruct (run_out d) as [s|rest].
  - destruct HL as (-> & -> & Hds & HE). eexists. split; [exact HE|]. by rewrite ds_emit.
  - destruct HL as (-> & Hd & Hi & HE). eauto 6.
Qed.

(** [DI] for a reader whose message is still open, resp. just ended. *)
Lemma DI_open max c evs r d :
  drun DsLineStart c = d -> 
  lineLen r = 0%nat -> cmdCR r = false -> discarding r = false -> mode r = Data ->
  run_out d = InData (ds r) -> maxSize r = max -> size r = Z.of_nat (length (run_body d)) ->
  verdict_ok max d (rejection r) -> delivered d (rejection r) evs -> DI max c evs r.
Proof. intros <- ???? Hs. intros. unfold DI. rewrite Hs. by repeat (split; [done|]). Qed.

Lemma unread_queue r h t : queue r = h :: t -> unread r = drop (offset r) h ++ concat t.
Proof. unfold unread. by intros ->. Qed.

Lemma outer_inj r r' :
  outer r' = outer r ->
  maxLineLength r' = maxLineLength r /\ queue r' = queue r /\ lineBuf r' = lineBuf r /\
  lineLen r' = lineLen r /\ cmdCR r' = cmdCR r /\ discarding r' = discarding r.
Proof. unfold outer. intros [= ]. done. Qed.

(** A scan that reaches the end of the head chunk inside the message. *)
Lemma scanData_DI_open max c evs h t r r1 s' :
  DI max c evs r -> mode r = Data -> queue r = h :: t -> wf r ->
  let d := drun (ds r) (drop (offset r) h) in
  Emits r (run_body d) (run_bad d) r1 -> run_out d = InData s' -> ds r1 = s' ->
  let r' := report (set_offset (length h) r1) in
  exists new, events r' = events r ++ new /\ (length new <= length (run_body d) + 1)%nat /\
    DI max (c ++ drop (offset r) h) (evs ++ new) r' /\ outer r' = outer r.
Proof.
  intros (H1 & H2 & H3 & HD) Hm Hq Hwf d HE Hrun1 Hds1 r'.
  destruct (run_out (drun DsLineStart c)) as [s|rest] eqn:Hrun; [|naive_solver congruence].
  destruct HD as (_ & Hds & HM & HS & HV & Hdel).
  pose proof (framed_outer _ _ (emits_frame _ _ _ _ HE)) as (HO & HMo & HMx).
  destruct (Emits_progress max _ _ _ (run_out d) _ _ evs HE HM HS HV Hdel)
    as (segs & Hev & Hlen & HS' & HV' & Hdel').
  destruct (report_spec _ (set_offset (length h) r1) _ Hdel') as (new & En & Ln & Dn & _).
  destruct (report_frame (set_offset (length h) r1)) as (FO & Fm & Fx & Fo & Fd & Fs & Fr).
  fold r' in En, FO, Fm, Fx, Fo, Fd, Fs, Fr.
  assert (outer r' = outer r) as HOu by (rewrite FO, <- HO; done).
  destruct (outer_inj _ _ HOu) as (? & ? & ? & ? & ? & ?).
  exists ((EvData <$> segs) ++ new). simpl in *.
  split; [by rewrite En, Hev, app_assoc|].
  split; [rewrite length_app, length_fmap; lia|]. split; [|done].
  eapply DI_open.
  { rewrite drun_app. unfold drun_continue. rewrite Hrun, <- Hds. reflexivity. }
  all: simpl; fold d; rewrite ?Fs, ?Fr, ?app_assoc; try congruence; done.
Qed.

(** A scan that completes the terminator inside the head chunk. *)
Lemma scanData_DI_ended max c evs h t r r1 i rest :
  DI max c evs r -> mode r = Data -> queue r = h :: t -> wf r ->
  let d := drun (ds r) (drop (offset r) h) in
  Emits r (run_body d) (run_bad d) r1 -> run_out d = Ended rest ->
  let r' := finish (report (set_offset i r1)) in
  exists c1 new, drop (offset r) h = c1 ++ rest /\
    events r' = events r ++ new /\ (length new <= length c1 + 3)%nat /\ new <> [] /\
    DI max (c ++ c1) (evs ++ new) r' /\ outer r' = outer r.
Proof.
  intros (H1 & H2 & H3 & HD) Hm Hq Hwf d HE Hrun1 r'.
  destruct (run_out (drun DsLineStart c)) as [s|rest'] eqn:Hrun; [|naive_solver congruence].
  destruct HD as (_ & Hds & HM & HS & HV & Hdel).
  pose proof (framed_outer _ _ (emits_frame _ _ _ _ HE)) as (HO & HMo & HMx).
  destruct (Emits_progress max _ _ _ (run_out d) _ _ evs HE HM HS HV Hdel)
    as (segs & Hev & Hlen & HS' & HV' & Hdel').
  destruct (report_spec _ (set_offset i r1) _ Hdel') as (new & En & Ln & Dn & _).
  destruct (report_frame (set_offset i r1)) as (FO & Fm & Fx & Fo & Fd & Fs & Fr).
  assert (outer r' = outer r) as HOu.
  { change (outer r') with (outer (report (set_offset i r1))). by rewrite FO, <- HO. }
  destruct (outer_inj _ _ HOu) as (? & ? & ? & ? & ? & ?).
  destruct (drun_ended_split _ _ _ Hrun1) as (c1 & Hc1 & Hd1).
  assert (drun DsLineStart (c ++ c1) =
    mkRun (run_body (drun DsLineStart c) ++ run_body d) (run_bad (drun DsLineStart c) || run_bad d)
      (Ended [])) as HR.
  { rewrite drun_app. unfold drun_continue. rewrite Hrun, <- Hds, Hd1. done. }
  exists c1, ((EvData <$> segs) ++ new ++ [EvDataEnd (size r1) (rejection r1)]). simpl in *.
  split; [done|]. split; [by rewrite En, Hev, Fs, Fr, !app_assoc|].
  pose proof (drun_body_length (ds r) c1) as Hbl. rewrite Hd1 in Hbl. simpl in Hbl. fold d in Hbl.
  split; [rewrite !length_app, length_fmap; simpl; case_decide; lia|].
  split; [by destruct (EvData <$> segs), new|]. split; [|done].
  unfold DI. rewrite HR. simpl. do 5 (split; [done || congruence|]).
  exists (evs ++ (EvData <$> segs) ++ new), (rejection r1). simpl.
  rewrite <- HS', !app_assoc. split; [done|]. split; done.
Qed.

Lemma scanData_DI max c evs h t r :
  DI max c evs r -> mode r = Data -> queue r = h :: t -> wf r -> (offset r < length h)%nat ->
  exists c1 new, unread r = c1 ++ unread (scanData h r) /\ c1 <> [] /\
    events (scanData h r) = events r ++ new /\ (length new <= length c1 + 3)%nat /\
    DI max (c ++ c1) (evs ++ new) (scanData h r) /\ wf (scanData h r) /\
    queue (scanData h r) = h :: t /\
    (new = [] -> mode (scanData h r) = Data /\ offset (scanData h r) = length h).
Proof.
  intros HD Hm Hq Hwf Ho.
  destruct (scanData_run h t r Hm Hq ltac:(lia)) as (r1 & HE & Hout).
  assert (length (drop (offset r) h) = length h - offset r)%nat as Hdl by apply length_drop.
  destruct (run_out _) as [s'|rest] eqn:Hrun.
  - destruct Hout as (-> & Hds1).
    destruct (scanData_DI_open _ _ _ _ _ _ _ _ HD Hm Hq Hwf HE Hrun Hds1) as (new & Hn & Hl & HDI & HO).
    destruct (report_frame (set_offset (length h) r1)) as (_ & Fm & _ & Fo & _).
    destruct (framed_outer _ _ (emits_frame _ _ _ _ HE)) as (_ & Hm1 & _).
    destruct (outer_inj _ _ HO) as (? & Hq' & ?). rewrite Hq in Hq'. simpl in Fo, Fm.
    pose proof (drun_body_length (ds r) (drop (offset r) h)) as Hbl.
    exists (drop (offset r) h), new. rewrite (unread_queue _ _ _ Hq), (unread_queue _ _ _ Hq'), Fo.
    rewrite drop_all. do 4 (split; [first [done | intros E; apply drop_nil_length in E; lia
      | case_decide; lia]|]).
    split; [done|]. split; [|split; [done|intros _; split; congruence]].
    eapply outer_wf; [done..| |congruence]. intros ?? E. rewrite Hq in E. injection E as <- <-. lia.
  - destruct Hout as (i & Hsc & Hi & Hii).
    destruct (scanData_DI_ended _ _ _ _ _ _ _ i _ HD Hm Hq Hwf HE Hrun)
      as (c1 & new & Hc & Hn & Hl & Hne & HDI & HO).
    destruct (report_frame (set_offset i r1)) as (_ & _ & _ & Fo & _).
    rewrite <- Hsc in *. destruct (outer_inj _ _ HO) as (? & Hq' & ?). rewrite Hq in Hq'.
    assert (offset (scanData h r) = i) as Fo' by (rewrite Hsc; exact Fo).
    assert (length c1 = i - offset r)%nat as Hc1l.
    { apply (f_equal length) in Hc. rewrite length_app, Hdl, <- Hi, length_drop in Hc. lia. }
    exists c1, new. rewrite (unread_queue _ _ _ Hq), (unread_queue _ _ _ Hq'), Fo', Hc, Hi.
    rewrite app_assoc. do 4 (split; [first [done | intros ->; simpl in Hc1l; lia]|]).
    split; [done|]. split; [|done].
    eapply outer_wf; [done..| |congruence]. intros ?? E. rewrite Hq in E. injection E as <- <-. lia.
Qed.

(** The data invariant between two calls of [next]: [popped] are the events handed out so far. *)
Definition J (max : option Z) (c : bytes) (popped : list LineReaderEvent) (r : SmtpLineReader) : Prop :=
  DI max c (popped ++ events r) r /\ wf r.

(** Iterations [next_loop] still needs from [r]. *)
Definition need (r : SmtpLineReader) : nat :=
  match events r, queue r with
  | _ :: _, _ | _, [] => 1
  | [], h :: t => 2 * length t + (if (offset r <? length h)%nat then 3 else 2)
  end.

Lemma need_fuel r : (need r <= next_fuel r)%nat.
Proof. unfold need, next_fuel. destruct (events r), (queue r); simpl; try lia. case_match; lia. Qed.

Lemma need_pos r : (1 <= need r)%nat.
Proof. unfold need. destruct (events r), (queue r); try lia. case_match; lia. Qed.

(** Dropping an exhausted head chunk. *)
Definition shift (tail : list bytes) (r : SmtpLineReader) := set_offset 0 (set_queue tail r).

Lemma shift_spec r h t :
  events r = [] -> queue r = h :: t -> wf r -> (length h <= offset r)%nat ->
  wf (shift t r) /\ unread (shift t r) = unread r /\ (need (shift t r) < need r)%nat.
Proof.
  intros He Hq [Ho Hb Hl] Hle. rewrite Hq in Ho. split_and!.
  - split; simpl; [destruct t; simpl; lia | done..].
  - unfold unread; simpl. rewrite Hq, drop_ge by lia. by destruct t.
  - unfold need; simpl. rewrite He, Hq. destruct t as [|h' t]; simpl; repeat case_match; lia.
Qed.

Lemma DI_shift max c evs r t : DI max c evs r -> DI max c evs (shift t r).
Proof. done. Qed.

Lemma next_loop_data max fuel : forall c popped r,
  J max c popped r -> (mode r = Data \/ events r <> []) -> (need r <= fuel)%nat ->
  exists res r' c1, next_loop fuel r = Some (res, r') /\ unread r = c1 ++ unread r' /\
    match res with
    | Some ev => J max (c ++ c1) (popped ++ [ev]) r' /\
        (length (events r') + 1 <= length (events r) + 4 * length c1)%nat
    | None => J max (c ++ c1) popped r' /\ queue r' = [] /\ events r' = [] /\ mode r' = Data
    end.
Proof.
  induction fuel as [|fuel IH]; intros c popped r [HD Hwf] Hpre Hfuel.
  { pose proof (need_pos r). lia. }
  simpl. destruct (events r) as [|ev evs] eqn:Hev.
  2: { exists (Some ev), (set_events evs r), []. rewrite !app_nil_r.
       split_and!; [done|done|split|simpl; lia]; [|by destruct Hwf].
       simpl. by rewrite <- app_assoc. }
  destruct Hpre as [Hm|]; [|done].
  destruct (queue r) as [|h t] eqn:Hq.
  { exists None, r, []. rewrite !app_nil_r. unfold J. rewrite Hev. by split_and!. }
  destruct (Nat.leb_spec (length h) (offset r)) as [Hle|Hlt].
  - destruct (shift_spec _ _ _ Hev Hq Hwf Hle) as (Hwf' & Hun & Hneed).
    destruct (IH c popped (shift t r)) as (res & r' & c1 & Hn & Hu & Hres);
      [split; [apply DI_shift; by rewrite <- Hev in HD|done] | by left | lia |].
    exists res, r', c1. split; [exact Hn|]. split; [congruence|]. simpl in Hres.
    by rewrite Hev in Hres.
  - rewrite Hm. rewrite app_nil_r in HD.
    destruct (scanData_DI _ _ _ _ _ _ HD Hm Hq Hwf Hlt)
      as (c1 & new & Hu & Hc1 & Hn & Hl & HD' & Hwf' & Hq' & Hnew).
    rewrite Hev in Hn. simpl in Hn.
    destruct (IH (c ++ c1) popped (scanData h r)) as (res & r' & c2 & Hnx & Hu2 & Hres).
    + split; [|done]. by rewrite Hn.
    + rewrite Hn. destruct new; [left; by apply Hnew|by right].
    + unfold need in *. rewrite Hn, Hq'. rewrite Hev, Hq in Hfuel.
      destruct (Nat.ltb_spec (offset r) (length h)); [|lia].
      destruct new; [|lia]. destruct Hnew as [_ ->]; [done|]. rewrite Nat.ltb_irrefl. lia.
    + exists res, r', (c1 ++ c2). split; [done|]. rewrite <- app_assoc, <- Hu2. split; [done|].
      rewrite app_assoc. destruct res; [|done]. destruct Hres as [? Hlen]. split; [done|].
      rewrite Hn in Hlen. rewrite length_app. destruct c1; [done|]. simpl in *. lia.
Qed.

(** [push] appends to the unread octets and changes nothing else the invariants mention. *)
Lemma push_spec x r :
  wf r -> wf (push x r) /\ unread (push x r) = unread r ++ x /\ events (push x r) = events r /\
    mode (push x r) = mode r /\ (forall max c evs, DI max c evs r -> DI max c evs (push x r)).
Proof.
  intros [Ho Hb Hl]. unfold push. destruct x as [|b x]; [by rewrite app_nil_r|].
  set (r1 := set_queue (queue r ++ [b :: x]) r).
  assert (wf r1 /\ unread r1 = unread r ++ b :: x) as [Hw Hu].
  { unfold r1. split; [split; simpl; [|done..]|].
    - destruct (queue r); simpl; lia.
    - unfold unread; simpl. destruct (queue r); simpl.
      + rewrite Ho. simpl. by rewrite app_nil_r.
      + rewrite concat_app. simpl. by rewrite app_nil_r, app_assoc. }
  destruct (bufferedBytes r1 >? maxBufferedBytes r1); (split; [by destruct Hw; split|]); done.
Qed.

(** A bound on the events still to come. *)
Definition budget (r : SmtpLineReader) (chunks : list bytes) : nat :=
  length (events r) + 5 * (length (unread r) + length (concat chunks)).

Lemma nextFrom_data max chunks : forall c popped r,
  J max c popped r -> (mode r = Data \/ events r <> []) ->
  exists res r' chunks' c1, nextFrom chunks r = (res, r', chunks') /\
    unread r ++ concat chunks = c1 ++ unread r' ++ concat chunks' /\
    match res with
    | Some ev => J max (c ++ c1) (popped ++ [ev]) r' /\ (budget r' chunks' < budget r chunks)%nat
    | None => J max (c ++ c1) popped r' /\ events r' = [] /\ mode r' = Data /\
        unread r' ++ concat chunks' = []
    end.
Proof.
  induction chunks as [|x chunks IH]; intros c popped r HJ Hpre.
  all: destruct (next_loop_data _ _ _ _ _ HJ Hpre (need_fuel r)) as (res & r' & c1 & Hn & Hu & Hres).
  all: simpl; unfold next; rewrite Hn; simpl.
  all: destruct res as [ev|].
  1,3: exists (Some ev), r'; eexists; exists c1; split; [done|]; rewrite Hu, <- app_assoc; split; [done|];
    destruct Hres as [? Hlen]; split; [done|]; unfold budget; rewrite Hu, length_app; simpl; lia.
  - destruct Hres as (? & Hq & ? & ?). exists None, r', [], c1.
    split; [done|]. rewrite Hu, <- app_assoc. split; [done|]. split_and!; try done.
    unfold unread. by rewrite Hq.
  - destruct Hres as ((HD & Hwf) & Hq & He & Hm).
    destruct (push_spec x r' Hwf) as (Hwf' & Hu' & He' & Hm' & HD').
    assert (unread r' = []) as Hr' by (unfold unread; by rewrite Hq).
    destruct (IH (c ++ c1) popped (push x r')) as (res & r2 & ch & c2 & Hn2 & Hu2 & Hres).
    { split; [|done]. apply HD'. by rewrite He'. }
    { left. congruence. }
    rewrite Hr' in *. rewrite app_nil_r in Hu. simpl in Hu'. rewrite Hu' in Hu2.
    exists res, r2, ch, (c1 ++ c2). split; [done|]. rewrite Hu, <- app_assoc, Hu2.
    split; [done|]. rewrite app_assoc. destruct res; [|done]. destruct Hres as [? Hb]. split; [done|].
    unfold budget in *. rewrite He', He, Hu' in Hb. simpl in *. rewrite Hu, length_app. lia.
Qed.

Lemma last_data_event (l1 l2 pre : list LineReaderEvent) x y :
  Forall in_data_event pre -> ~ in_data_event x -> l1 ++ x :: l2 = pre ++ [y] ->
  l2 = [] /\ l1 = pre /\ x = y.
Proof.
  revert pre. induction l1 as [|e l1 IH]; intros [|p pre] HF Hx; simpl; intros [= E1 E2].
  - done.
  - inv HF. subst. done.
  - by destruct l1.
  - subst. inv HF. destruct (IH pre) as (-> & -> & ->); done.
Qed.

(** Readings that start between two lines, in DATA mode. *)
Lemma startData_J max r0 r :
  wf r0 -> events r0 = [] -> exceeds 0 max = false -> startData max r0 = Some r ->
  J max [] [] r /\ mode r = Data /\ unread r = unread r0 /\ events r = [].
Proof.
  unfold startData. intros [Ho Hb Hl] He Hmax Hs.
  destruct (bool_decide _ || _ || _ || _) eqn:E; [done|]. injection Hs as <-.
  rewrite !orb_false_iff in E. destruct E as [[[_ E1] E2] E3].
  assert (lineLen r0 = 0%nat) as E0 by (destruct (Nat.eqb_spec (lineLen r0) 0); done).
  split_and!; [|done..]. split; [|by split]. unfold DI. simpl. rewrite He.
  do 7 (split; [done|]). split; [by unfold verdict_ok|].
  split; [constructor|]. split; [apply prefix_nil|]. intros _. by exists [].
Qed.

(** The event just handed out is [data-end] exactly when the terminator has been consumed and
    nothing is queued behind it. *)
Lemma J_last max c popped ev r :
  J max c (popped ++ [ev]) r -> Forall in_data_event popped ->
  let d := drun DsLineStart c in
  match ev with
  | EvDataEnd sz rej => run_out d = Ended [] /\ sz = Z.of_nat (length (run_body d)) /\
      verdict_ok max d rej /\ delivered d rej popped /\ mode r = Command /\ events r = []
  | _ => in_data_event ev /\ (mode r = Data \/ events r <> [])
  end.
Proof.
  intros [(_ & _ & _ & HD) _] HF d. fold d in HD. rewrite <- app_assoc in HD. simpl in HD.
  assert (forall x l, ~ in_data_event x -> ~ Forall in_data_event (popped ++ x :: l)) as Hno.
  { intros x l Hx C. apply Forall_app in C as [_ C]. by inv C. }
  destruct (run_out d) as [s|rest].
  - destruct HD as (Hm & _ & _ & _ & _ & HFe & _).
    assert (in_data_event ev) by (apply Forall_app in HFe as [_ C]; by inv C).
    destruct ev; try done; by split; [|left].
  - destruct HD as (-> & Hm & pre & rej & Heq & HV & Hdel).
    destruct (decide (ev = EvDataEnd (Z.of_nat (length (run_body d))) rej)) as [->|Hne].
    + apply last_data_event in Heq as (He & -> & _); [|apply Hdel|by intros []].
      repeat (split; [done|]). done.
    + assert (events r <> []) as Hev.
      { intros E. rewrite E in Heq. apply app_inj_tail in Heq. naive_solver. }
      assert (in_data_event ev) as Hin.
      { destruct (events r) as [|e es _] using rev_ind; [done|].
        rewrite app_comm_cons, app_assoc in Heq. apply app_inj_tail in Heq as [<- _].
        destruct Hdel as [HFe _]. apply Forall_app in HFe as [_ C]. by inv C. }
      destruct ev; try done; by split; [|right].
Qed.

Lemma readData_J {St} (on : LineReaderEvent -> St -> St) max fuel : forall c popped r chunks st,
  J max c popped r -> (mode r = Data \/ events r <> []) -> Forall in_data_event popped ->
  (budget r chunks < fuel)%nat ->
  let d := drun DsLineStart (c ++ unread r ++ concat chunks) in
  exists evs, 
    match run_out d with
    | InData _ => exists r', readData on fuel chunks r st = DataClosed (fold_left (flip on) evs st) r'
    | Ended rest => exists rej r' chunks',
        readData on fuel chunks r st =
          DataComplete (fold_left (flip on) evs st) (Z.of_nat (length (run_body d))) rej r' chunks' /\
        unread r' ++ concat chunks' = rest /\ verdict_ok max d rej /\ delivered d rej (popped ++ evs) /\
        wf r' /\ mode r' = Command /\ events r' = [] /\
        lineLen r' = 0%nat /\ cmdCR r' = false /\ discarding r' = false
    end.
Proof.
  induction fuel as [|fuel IH]; intros c popped r chunks st HJ Hpre HF Hfuel d; [lia|].
  destruct (nextFrom_data max chunks _ _ _ HJ Hpre) as (res & r' & ch & c1 & Hn & Hu & Hres).
  assert (d = drun_continue (drun DsLineStart (c ++ c1)) (unread r' ++ concat ch)) as Hd.
  { unfold d. by rewrite Hu, app_assoc, drun_app. }
  simpl. rewrite Hn. destruct res as [ev|].
  2: { destruct Hres as ((HD & _) & He & Hm & Hnil). rewrite Hnil in Hd.
       destruct HD as (_ & _ & _ & HD). unfold drun_continue in Hd.
       destruct (run_out (drun DsLineStart (c ++ c1))); [|naive_solver congruence].
       rewrite Hd. exists []. simpl. eauto. }
  destruct Hres as (HJ' & Hb). pose proof (J_last _ _ _ _ _ HJ' HF) as HL.
  destruct (decide (in_data_event ev)) as [Hin|Hnin].
  - destruct (IH _ _ _ ch (on ev st) HJ') as (evs & Hevs).
    { destruct ev; naive_solver. }
    { apply Forall_app. split; [done|]. by apply Forall_singleton. }
    { lia. }
    rewrite <- app_assoc, <- Hu in Hevs. fold d in Hevs. exists (ev :: evs).
    rewrite <- app_assoc in Hevs. destruct ev; try done.
  - destruct ev as [| | | |sz rej]; try naive_solver. destruct HL as (HR & -> & HV & Hdel & Hm & He).
    unfold drun_continue in Hd. rewrite HR in Hd. rewrite Hd. exists []. simpl.
    rewrite app_nil_r. destruct HJ' as [(? & ? & ? & _) Hwf].
    exists rej, r', ch. split_and!; done.
Qed.

(** ** The line-level specification of DATA

    A message is a sequence of lines, each closed by CRLF, up to a line that is a single dot. This
    is RFC 5321's reading and mentions neither chunks nor states. *)

(** The lines of the message and what follows the terminator; [acc] is the line being read. *)
Fixpoint data_lines (acc s : bytes) : option (list bytes * bytes) :=
  match s with
  | [] => None
  | b :: s' =>
      match s' with
      | b' :: s'' =>
          if (b =? CR) && (b' =? LF) then
            if decide (acc = [DOT]) then Some ([], s'')
            else (fun '(ls, rest) => (acc :: ls, rest)) <$> data_lines [] s''
          else data_lines (acc ++ [b]) s'
      | [] => None
      end
  end.

(** Transparency: a leading dot is dropped. *)
Definition unstuff (l : bytes) : bytes :=
  match l with [] => [] | b :: l' => if b =? DOT then l' else l end.

Definition message_body (ls : list bytes) : bytes := concat ((fun l => unstuff l ++ CRLF) <$> ls).

(** A line that contains a bare CR, a bare LF or a NUL octet. *)
Definition dirty (l : bytes) : bool :=
  existsb (fun b => (b =? CR) || (b =? LF) || (b =? NUL)) l.

(** [l] contains no CRLF, and none would arise by putting it after [prev]. *)
Fixpoint no_crlf (prev : Z) (l : bytes) : bool :=
  match l with
  | [] => true
  | b :: l => negb ((prev =? CR) && (b =? LF)) && no_crlf b l
  end.

Lemma drun_mid l : forall s p,
  (s = DsMid /\ p <> CR) \/ (s = DsCR /\ p = CR) -> no_crlf p l = true ->
  drun s (l ++ CRLF) = mkRun (l ++ CRLF) (bool_decide (s = DsCR) || dirty l) (InData DsLineStart).
Proof.
  induction l as [|b l IH]; intros s p Hs Hl.
  - by destruct Hs as [[-> _]|[-> _]].
  - simpl in Hl. apply andb_true_iff in Hl as [Hb Hl].
    assert (forall q, (q = DsMid /\ b <> CR) \/ (q = DsCR /\ b = CR) ->
      drun q (l ++ CRLF) = mkRun (l ++ CRLF) (bool_decide (q = DsCR) || dirty l) (InData DsLineStart))
      as IH' by (intros; by eapply IH).
    simpl. destruct Hs as [[-> Hp]|[-> ->]]; simpl.
    + destruct (Z.eqb_spec b CR) as [->|Hn]; simpl.
      * rewrite (IH' DsCR) by tauto. done.
      * rewrite (IH' DsMid) by tauto. done.
    + destruct (Z.eqb_spec b LF) as [->|Hn]; [done|].
      destruct (Z.eqb_spec b CR) as [->|Hn']; simpl.
      * rewrite (IH' DsCR) by tauto. done.
      * rewrite (IH' DsMid) by tauto. done.
Qed.

Lemma no_crlf_indep p q l : p <> CR -> no_crlf q l = true -> no_crlf p l = true.
Proof.
  destruct l as [|b l]; [done|]. simpl. intros Hp H. apply andb_true_iff in H as [_ ->].
  destruct (Z.eqb_spec p CR); [done|]. done.
Qed.

Lemma no_crlf_tail p b l : no_crlf p (b :: l) = true -> no_crlf b l = true.
Proof. simpl. intros H. by apply andb_true_iff in H as [_ ->]. Qed.

(** One line of DATA. *)
Lemma drun_line l :
  no_crlf 0 l = true ->
  drun DsLineStart (l ++ CRLF) =
    if decide (l = [DOT]) then mkRun [] false (Ended [])
    else mkRun (unstuff l ++ CRLF) (dirty l) (InData DsLineStart).
Proof.
  intros Hl. case_decide as Hd; [by subst|].
  destruct l as [|b l]; [done|]. apply no_crlf_tail in Hl.
  pose proof (drun_mid (b :: l) DsMid 0 ltac:(left; done) Hl) as HM. simpl in HM.
  simpl. destruct (Z.eqb_spec b DOT) as [->|Hb].
  2: { simpl. destruct (Z.eqb_spec b CR); simpl in *; by rewrite HM. }
  simpl. destruct l as [|b l]; [done|]. 
  pose proof (drun_mid (b :: l) DsMid DOT ltac:(left; done) Hl) as HM'. simpl in HM'.
  apply no_crlf_tail in Hl. simpl. destruct (Z.eqb_spec b CR) as [->|Hc]; simpl in *.
  2: { by rewrite HM'. }
  destruct l as [|b l]; [done|].
  pose proof (drun_mid (b :: l) DsCR CR ltac:(right; done) Hl) as HM''. simpl in HM''.
  simpl. destruct (Z.eqb_spec b LF) as [->|]; [done|].
  destruct (Z.eqb_spec b CR) as [->|Hc]; simpl in *.
  all: pose proof (f_equal run_body HM'') as E1; pose proof (f_equal run_out HM'') as E2;
    simpl in E1, E2; injection E1 as E1; by rewrite E1, E2.
Qed.

Lemma drun_no_crlf l : no_crlf 0 l = true -> exists st, run_out (drun DsLineStart l) = InData st.
Proof.
  intros H. pose proof (drun_line l H) as HL. rewrite drun_app in HL. unfold drun_continue in HL.
  destruct (run_out (drun DsLineStart l)) as [st|rest]; [by exists st|].
  case_decide; [|done]. injection HL as _ _ E. by destruct rest.
Qed.

Lemma last_cons_default {A} (x y p : A) l : List.last (x :: l) y = List.last (x :: l) p.
Proof. revert x. induction l as [|z l IH]; intros x; [done|]. apply (IH z). Qed.

Lemma no_crlf_snoc p l b :
  no_crlf p (l ++ [b]) = no_crlf p l && negb ((List.last l p =? CR) && (b =? LF)).
Proof.
  revert p. induction l as [|x l IH]; intros p; simpl.
  - by rewrite andb_true_r.
  - rewrite IH, andb_assoc. destruct l as [|z l]; [done|]. by rewrite (last_cons_default z x p).
Qed.

(** The bytewise reading implements the line-level specification, on every input. *)
Lemma data_lines_drun n : forall s acc, (length s <= n)%nat ->
  no_crlf 0 acc = true ->
  (List.last acc 0 = CR -> match s with b :: _ => b <> LF | [] => True end) ->
  match data_lines acc s with
  | Some (ls, rest) =>
      drun DsLineStart (acc ++ s) = mkRun (message_body ls) (existsb dirty ls) (Ended rest)
  | None => exists st, run_out (drun DsLineStart (acc ++ s)) = InData st
  end.
Proof.
  induction n as [|n IH]; intros s acc Hn Hacc Hlast.
  { destruct s; [|simpl in Hn; lia]. simpl. rewrite app_nil_r. by apply drun_no_crlf. }
  destruct s as [|b [|b' s]]; simpl.
  { rewrite app_nil_r. by apply drun_no_crlf. }
  { apply drun_no_crlf. rewrite no_crlf_snoc, Hacc. simpl.
    destruct (Z.eqb_spec (List.last acc 0) CR), (Z.eqb_spec b LF); naive_solver. }
  destruct ((b =? CR) && (b' =? LF)) eqn:Hc.
  - apply andb_true_iff in Hc as [->%Z.eqb_eq ->%Z.eqb_eq].
    change (acc ++ CR :: LF :: s) with (acc ++ CRLF ++ s).
    rewrite app_assoc, drun_app, drun_line by done. unfold drun_continue.
    case_decide as Hdot; simpl; [done|].
    specialize (IH s [] ltac:(simpl in Hn; lia) eq_refl ltac:(done)). simpl in IH.
    destruct (data_lines [] s) as [[ls rest]|]; simpl; [|done]. by rewrite IH.
  - change (acc ++ b :: b' :: s) with (acc ++ [b] ++ b' :: s). rewrite app_assoc.
    apply (IH (b' :: s) (acc ++ [b])); [simpl in *; lia| |].
    + rewrite no_crlf_snoc, Hacc. simpl.
      destruct (Z.eqb_spec (List.last acc 0) CR), (Z.eqb_spec b LF); naive_solver.
    + rewrite last_last. intros ->. intros ->. done.
Qed.

(** A reader between two command lines, with nothing queued. *)
Definition at_boundary (r : SmtpLineReader) : Prop :=
  wf r /\ mode r = Command /\ events r = [] /\ lineLen r = 0%nat /\ cmdCR r = false /\
  discarding r = false.

(** ** Command mode, bytewise

    The reader's command-mode state: the octets of the partial line, whether the last octet was a
    CR, and whether the rest of a malformed line is being skipped. *)
Record CmdState := mkCmd { cs_line : bytes; cs_cr : bool; cs_skip : bool }.

Definition cmd_init : CmdState := mkCmd [] false false.

Definition cstep (max : nat) (s : CmdState) (b : Z) : option LineReaderEvent * CmdState :=
  let bad e cr := (Some (EvLineError e), mkCmd [] cr true) in
  if cs_cr s then
    if b =? LF then
      (if cs_skip s then None else Some (EvLine (cs_line s)), cmd_init)
    else if cs_skip s then (None, mkCmd (cs_line s) (b =? CR) true)
    else bad Bare_cr (b =? CR)
  else if b =? CR then (None, mkCmd (cs_line s) true (cs_skip s))
  else if b =? LF then (if cs_skip s then (None, s) else bad Bare_lf false)
  else if cs_skip s then (None, s)
  else if (max <=? length (cs_line s))%nat then bad Line_too_long false
  else (None, mkCmd (cs_line s ++ [b]) false false).

Fixpoint crun (max : nat) (s : CmdState) (l : bytes) : list LineReaderEvent * CmdState :=
  match l with
  | [] => ([], s)
  | b :: l =>
      let (ev, s) := cstep max s b in
      let (evs, s) := crun max s l in (option_list ev ++ evs, s)
  end.

Lemma crun_app max s l l' :
  crun max s (l ++ l') =
    (let (e1, s1) := crun max s l in let (e2, s2) := crun max s1 l' in (e1 ++ e2, s2)).
Proof.
  revert s. induction l as [|b l IH]; intros s; simpl.
  - by destruct (crun max s l').
  - destruct (cstep max s b) as [ev s1]. rewrite IH.
    destruct (crun max s1 l) as [e1 s2], (crun max s2 l') as [e2 s3]. by rewrite app_assoc.
Qed.

Definition cmd_state (r : SmtpLineReader) : CmdState :=
  mkCmd (take (lineLen r) (lineBuf r)) (cmdCR r) (discarding r).

(** The fields a scan in command mode leaves alone. *)
Definition cframe (r : SmtpLineReader) := (maxLineLength r, queue r, events r, mode r).

(** What one call of [scanCommand] does with [rest]: it consumes [c1], which the bytewise reading
    takes to the new state with the returned event. *)
Definition scan_post (r : SmtpLineReader) (rest : bytes)
    (res : option LineReaderEvent * SmtpLineReader) : Prop :=
  let (ev, r') := res in
  exists c1 rest', rest = c1 ++ rest' /\ offset r' = (offset r + length c1)%nat /\
    crun (maxLineLength r) (cmd_state r) c1 = (option_list ev, cmd_state r') /\
    cframe r' = cframe r /\ length (lineBuf r') = maxLineLength r /\
    (lineLen r' <= maxLineLength r)%nat /\
    match ev with
    | None => rest' = []
    | Some (EvLine _) => c1 <> [] /\ cmd_state r' = cmd_init
    | Some _ => c1 <> []
    end.

Arguments scan_post : simpl never.

(** The state right after one octet. *)
Definition byte_post (r r1 : SmtpLineReader) (b : Z) (ev : option LineReaderEvent) : Prop :=
  length (lineBuf r1) = maxLineLength r /\ (lineLen r1 <= maxLineLength r)%nat /\
  cframe r1 = cframe r /\ offset r1 = S (offset r) /\
  cstep (maxLineLength r) (cmd_state r) b = (ev, cmd_state r1).

Lemma scan_go r r1 b rest res :
  byte_post r r1 b None -> scan_post r1 rest res -> scan_post r (b :: rest) res.
Proof.
  intros (H1 & H2 & H3 & H4 & H5). destruct res as [ev r'].
  intros (c1 & rest' & E2 & E3 & E4 & E5 & E6 & E7 & E8).
  assert (maxLineLength r1 = maxLineLength r) as HM by (by injection H3). rewrite HM in *.
  exists (b :: c1), rest'. rewrite E2. split_and!; auto.
  - simpl. lia.
  - simpl. rewrite H5, E4. done.
  - congruence.
  - destruct ev as [[]|]; naive_solver.
Qed.

Lemma cstep_line max s b l s' : cstep max s b = (Some (EvLine l), s') -> s' = cmd_init.
Proof. unfold cstep. intros. repeat case_match; simplify_eq; done. Qed.

Lemma scan_stop r r1 b rest ev : byte_post r r1 b (Some ev) -> scan_post r (b :: rest) (Some ev, r1).
Proof.
  intros (H1 & H2 & H3 & H4 & H5). exists [b], rest. split_and!; auto; simpl; [lia|by rewrite H5|].
  destruct ev; try done. split; [done|]. by eapply cstep_line.
Qed.

Lemma scanCommand_loop_spec rest : forall r,
  length (lineBuf r) = maxLineLength r -> (lineLen r <= maxLineLength r)%nat ->
  scan_post r rest (scanCommand_loop rest r).
Proof.
  induction rest as [|b rest IH]; intros r Hb Hl.
  { exists [], []. simpl. split_and!; auto. }
  assert (forall r1, byte_post r r1 b None -> scan_post r (b :: rest) (scanCommand_loop rest r1)) as Go.
  { intros r1 Hp. eapply scan_go; [done|]. destruct Hp as (H1 & H2 & H3 & _).
    injection H3 as HM _ _ _. apply IH; lia. }
  simpl. unfold lineError. destruct (cmdCR r) eqn:Hcr.
  - destruct (b =? LF) eqn:Hlf.
    + destruct (discarding r) eqn:Hd; [apply Go | apply scan_stop]; unfold byte_post, cstep, cmd_state;
        simpl; rewrite Hcr, Hlf, Hd; simpl; split_and!; try done; try lia.
    + destruct (b =? CR) eqn:Hc, (discarding r) eqn:Hd; simpl; rewrite ?Hd; simpl;
        [apply Go | apply scan_stop | apply Go | apply scan_stop]; unfold byte_post, cstep, cmd_state;
        simpl; rewrite ?Hcr, Hlf, ?Hd, Hc; simpl; split_and!; try done; lia.
  - destruct (b =? CR) eqn:Hc.
    { apply Go. unfold byte_post, cstep, cmd_state; simpl. rewrite Hcr, Hc. by split_and!. }
    destruct (b =? LF) eqn:Hlf.
    { destruct (discarding r) eqn:Hd; simpl; [apply Go | apply scan_stop];
        unfold byte_post, cstep, cmd_state; simpl; rewrite ?Hcr, Hc, Hlf, ?Hd; simpl; split_and!; try done; lia. }
    destruct (discarding r) eqn:Hd.
    { apply Go. unfold byte_post, cstep, cmd_state; simpl. rewrite Hcr, Hc, Hlf, Hd. by split_and!. }
    assert (length (take (lineLen r) (lineBuf r)) = lineLen r) as Hlen by (rewrite length_take; lia).
    destruct (Nat.leb_spec (maxLineLength r) (lineLen r)) as [Hm|Hm].
    + apply scan_stop. unfold byte_post, cstep, cmd_state; simpl. rewrite Hcr, Hc, Hlf, Hd, Hlen.
      destruct (Nat.leb_spec (maxLineLength r) (lineLen r)); [|lia]. split_and!; try done; lia.
    + apply Go. unfold byte_post, cstep, cmd_state; simpl. rewrite Hcr, Hc, Hlf, Hd, Hlen.
      destruct (Nat.leb_spec (maxLineLength r) (lineLen r)); [lia|].
      rewrite length_insert, take_insert_snoc by lia. split_and!; try done; lia.
Qed.

Lemma scanCommand_spec h t r ev r' :
  wf r -> queue r = h :: t -> scanCommand h r = (ev, r') ->
  exists c1, unread r = c1 ++ unread r' /\
    crun (maxLineLength r) (cmd_state r) c1 = (option_list ev, cmd_state r') /\
    cframe r' = cframe r /\ wf r' /\
    match ev with
    | None => offset r' = length h
    | Some ev => c1 <> [] /\ (forall l, ev = EvLine l -> cmd_state r' = cmd_init)
    end.
Proof.
  intros [Ho Hb Hl] Hq Hs. rewrite Hq in Ho. unfold scanCommand in Hs.
  pose proof (scanCommand_loop_spec (drop (offset r) h) r Hb Hl) as HP. rewrite Hs in HP.
  destruct HP as (c1 & rest' & E1 & E2 & E3 & E4 & E5 & E6 & E7).
  injection E4 as F1 F2 F3 F4. rewrite Hq in F2.
  assert (length h - offset r = length c1 + length rest')%nat as HL.
  { apply (f_equal length) in E1. by rewrite length_drop, length_app in E1. }
  assert (drop (offset r') h = rest') as Hdr.
  { rewrite E2, <- drop_drop, E1. by rewrite drop_app_length. }
  exists c1. rewrite (unread_queue _ _ _ Hq), (unread_queue _ _ _ F2), Hdr, E1, app_assoc.
  split_and!; auto.
  - unfold cframe. congruence.
  - split; rewrite ?F1, ?F2; auto; lia.
  - destruct ev as [[]|]; [naive_solver..|]. subst rest'. simpl in HL. lia.
Qed.

Lemma next_loop_cmd fuel : forall r,
  wf r -> mode r = Command -> events r = [] -> (need r <= fuel)%nat ->
  exists ev r' c1, next_loop fuel r = Some (ev, r') /\ unread r = c1 ++ unread r' /\
    crun (maxLineLength r) (cmd_state r) c1 = (option_list ev, cmd_state r') /\
    wf r' /\ mode r' = Command /\ events r' = [] /\ maxLineLength r' = maxLineLength r /\
    match ev with
    | None => queue r' = []
    | Some ev => c1 <> [] /\ (forall l, ev = EvLine l -> cmd_state r' = cmd_init)
    end.
Proof.
  induction fuel as [|fuel IH]; intros r Hwf Hm He Hfuel.
  { pose proof (need_pos r). lia. }
  simpl. rewrite He, Hm. destruct (queue r) as [|h t] eqn:Hq.
  { exists None, r, []. by split_and!. }
  destruct (Nat.leb_spec (length h) (offset r)) as [Hle|Hlt].
  - destruct (shift_spec _ _ _ He Hq Hwf Hle) as (Hwf' & Hun & Hneed).
    destruct (IH (shift t r)) as (ev & r' & c1 & H); [done..|lia|].
    rewrite Hun in H. eauto.
  - destruct (scanCommand h r) as [ev r1] eqn:Hs.
    destruct (scanCommand_spec _ _ _ _ _ Hwf Hq Hs) as (c1 & Hu & Hc & Hf & Hwf1 & Hev).
    injection Hf as F1 F2 F3 F4.
    destruct ev as [ev|].
    { exists (Some ev), r1, c1. do 3 (split; [done|]). destruct Hev. split_and!; auto; congruence. }
    destruct (IH r1) as (ev & r' & c2 & Hn & Hu2 & Hc2 & ? & ? & ? & HM & Hev2); try congruence.
    { unfold need in *. rewrite F3, F2, He, Hq in *.
      destruct (Nat.ltb_spec (offset r) (length h)); [|lia].
      destruct (Nat.ltb_spec (offset r1) (length h)); lia. }
    exists ev, r', (c1 ++ c2). rewrite Hu, Hu2, <- app_assoc, crun_app, Hc. rewrite F1 in Hc2, HM.
    rewrite Hc2. split_and!; auto. destruct ev; [|done]. destruct Hev2. split; [|done].
    intros C. by apply app_nil in C as [_ ?].
Qed.

Lemma nextFrom_cmd chunks : forall r,
  wf r -> mode r = Command -> events r = [] ->
  exists ev r' chunks' c1, nextFrom chunks r = (ev, r', chunks') /\
    unread r ++ concat chunks = c1 ++ unread r' ++ concat chunks' /\
    crun (maxLineLength r) (cmd_state r) c1 = (option_list ev, cmd_state r') /\
    wf r' /\ mode r' = Command /\ events r' = [] /\ maxLineLength r' = maxLineLength r /\
    match ev with
    | None => unread r' ++ concat chunks' = []
    | Some ev => (length (unread r' ++ concat chunks') < length (unread r ++ concat chunks))%nat /\
        (forall l, ev = EvLine l -> cmd_state r' = cmd_init)
    end.
Proof.
  induction chunks as [|x chunks IH]; intros r Hwf Hm He.
  all: destruct (next_loop_cmd _ r Hwf Hm He (need_fuel r))
    as (ev & r1 & c1 & Hn & Hu & Hc & Hwf1 & Hm1 & He1 & HM1 & Hev).
  all: simpl; unfold next; rewrite Hn; simpl; destruct ev as [ev|].
  1,3: destruct Hev as [Hc1 Hline]; exists (Some ev), r1; eexists; exists c1;
    rewrite Hu, <- app_assoc; split_and!; auto; rewrite (length_app c1); destruct c1; [done|simpl; lia].
  - exists None, r1, [], c1. rewrite Hu, <- app_assoc. split_and!; auto. unfold unread. by rewrite Hev.
  - destruct (push_spec x r1 Hwf1) as (Hwf2 & Hu2 & He2 & Hm2 & _).
    assert (unread r1 = []) as Hr1 by (unfold unread; by rewrite Hev).
    assert (maxLineLength (push x r1) = maxLineLength r1 /\ cmd_state (push x r1) = cmd_state r1)
      as [HMp HCp] by (unfold push, cmd_state; destruct x; simpl; repeat case_match; done).
    destruct (IH (push x r1)) as (ev & r' & ch & c2 & Hn2 & Hu3 & Hc2 & ? & ? & ? & HM2 & Hev2);
      [congruence..|].
    rewrite Hr1 in *. rewrite app_nil_r in Hu. simpl in Hu2. rewrite Hu2 in *.
    rewrite HMp, HM1 in *. rewrite HCp in Hc2.
    exists ev, r', ch, (c1 ++ c2). rewrite crun_app, Hc, Hc2. rewrite Hu, <- app_assoc, Hu3.
    split_and!; auto. destruct ev; [|done]. destruct Hev2. split; [|done].
    rewrite <- Hu3. rewrite (length_app c1). lia.
Qed.

Lemma readLines_crun fuel : forall chunks r,
  wf r -> mode r = Command -> events r = [] ->
  (length (unread r ++ concat chunks) < fuel)%nat ->
  exists r', readLines fuel chunks r =
      (fst (crun (maxLineLength r) (cmd_state r) (unread r ++ concat chunks)), r') /\
    cmd_state r' = snd (crun (maxLineLength r) (cmd_state r) (unread r ++ concat chunks)) /\ wf r'.
Proof.
  induction fuel as [|fuel IH]; intros chunks r Hwf Hm He Hfuel; [lia|].
  destruct (nextFrom_cmd chunks r Hwf Hm He)
    as (ev & r1 & ch & c1 & Hn & Hu & Hc & Hwf1 & Hm1 & He1 & HM1 & Hev).
  simpl. rewrite Hn, Hu, crun_app, Hc. destruct ev as [ev|].
  - destruct (IH ch r1) as (r' & Hr & Hs & ?); [done..|lia|]. rewrite HM1 in *.
    rewrite Hr. exists r'. destruct (crun _ _ (unread r1 ++ concat ch)) eqn:E. done.
  - rewrite Hev. exists r1. by simpl.
Qed.

(** ** The line-level specification of command mode *)

(** The complete lines of a stream and its unfinished last line. *)
Fixpoint split_lines (acc s : bytes) : list bytes * bytes :=
  match s with
  | [] => ([], acc)
  | b :: s' =>
      match s' with
      | b' :: s'' =>
          if (b =? CR) && (b' =? LF) then
            let (ls, t) := split_lines [] s'' in (acc :: ls, t)
          else split_lines (acc ++ [b]) s'
      | [] => ([], acc ++ [b])
      end
  end.

(** The first thing wrong with a line, [n] octets of which were already accepted. *)
Fixpoint first_error (max n : nat) (l : bytes) : option LineError :=
  match l with
  | [] => None
  | b :: l =>
      if b =? CR then Some Bare_cr
      else if b =? LF then Some Bare_lf
      else if (max <=? n)%nat then Some Line_too_long
      else first_error max (S n) l
  end.

(** The one event of a complete line. *)
Definition line_event (max : nat) (l : bytes) : LineReaderEvent :=
  match first_error max 0 l with Some e => EvLineError e | None => EvLine l end.

Definition ends_cr (l : bytes) : bool := List.last l 0 =? CR.
Definition strip_cr (l : bytes) : bytes := if ends_cr l then List.removelast l else l.

(** An unfinished line: its error has been reported already, a trailing CR is not yet one. *)
Definition tail_events (max : nat) (t : bytes) : list LineReaderEvent :=
  option_list (EvLineError <$> first_error max 0 (strip_cr t)).

Definition command_events (max : nat) (s : bytes) : list LineReaderEvent :=
  let (ls, t) := split_lines [] s in (line_event max <$> ls) ++ tail_events max t.

Definition tail_state (max : nat) (t : bytes) : CmdState :=
  match first_error max 0 (strip_cr t) with
  | Some _ => mkCmd [] (ends_cr t) true
  | None => mkCmd (strip_cr t) (ends_cr t) false
  end.

Lemma first_error_snoc max l b : forall n,
  first_error max n (l ++ [b]) =
    match first_error max n l with
    | Some e => Some e
    | None => if b =? CR then Some Bare_cr else if b =? LF then Some Bare_lf
              else if (max <=? n + length l)%nat then Some Line_too_long else None
    end.
Proof.
  induction l as [|x l IH]; intros n; simpl.
  - by rewrite Nat.add_0_r.
  - destruct (x =? CR), (x =? LF), (max <=? n)%nat; auto. rewrite IH.
    by replace (S n + length l)%nat with (n + S (length l))%nat by lia.
Qed.

Lemma ends_cr_snoc l b : ends_cr (l ++ [b]) = (b =? CR).
Proof. unfold ends_cr. by rewrite last_last. Qed.

Lemma strip_cr_snoc l b : strip_cr (l ++ [b]) = if b =? CR then l else l ++ [b].
Proof. unfold strip_cr. rewrite ends_cr_snoc. by rewrite removelast_last. Qed.

Lemma ends_cr_inv l : ends_cr l = true -> exists l', l = l' ++ [CR].
Proof.
  unfold ends_cr. destruct l as [|b l _] using rev_ind; [done|]. rewrite last_last.
  intros ->%Z.eqb_eq. eauto.
Qed.

Lemma crun_open max t :
  no_crlf 0 t = true -> crun max cmd_init t = (tail_events max t, tail_state max t).
Proof.
  induction t as [|b t IH] using rev_ind; intros Hn; [done|].
  rewrite no_crlf_snoc in Hn. apply andb_true_iff in Hn as [Hn Hb].
  rewrite crun_app, IH by done. clear IH.
  unfold tail_events, tail_state. rewrite strip_cr_snoc, ends_cr_snoc.
  destruct (ends_cr t) eqn:He.
  - apply ends_cr_inv in He as [t' ->]. rewrite strip_cr_snoc, Z.eqb_refl.
    rewrite last_last in Hb. destruct (Z.eqb_spec b LF) as [->|Hlf]; [done|].
    assert ((b =? LF) = false) as Hlf' by lia.
    destruct (b =? CR) eqn:Hc; rewrite !first_error_snoc; simpl;
      destruct (first_error max 0 t') eqn:Hfe; simpl; unfold cstep; simpl; by rewrite Hlf', Hc.
  - assert (strip_cr t = t) as Hst by (unfold strip_cr; by rewrite He). rewrite Hst.
    destruct (b =? CR) eqn:Hc; simpl.
    + destruct (first_error max 0 t) eqn:Hfe; simpl; unfold cstep; simpl; by rewrite Hc.
    + rewrite first_error_snoc, Hc. destruct (first_error max 0 t) eqn:Hfe; simpl.
      * unfold cstep; simpl. rewrite Hc. by destruct (b =? LF).
      * unfold cstep; simpl. rewrite Hc. destruct (b =? LF); simpl; [done|].
        by destruct (max <=? length t)%nat.
Qed.

Lemma crun_line max l :
  no_crlf 0 l = true -> crun max cmd_init (l ++ CRLF) = ([line_event max l], cmd_init).
Proof.
  intros Hl. change CRLF with ([CR] ++ [LF]). rewrite app_assoc, crun_app.
  rewrite crun_open.
  2: { rewrite no_crlf_snoc, Hl. simpl. by rewrite andb_false_r. }
  unfold tail_events, tail_state, line_event. rewrite strip_cr_snoc, ends_cr_snoc. simpl.
  by destruct (first_error max 0 l).
Qed.

Lemma command_events_crun max n : forall s acc, (length s <= n)%nat ->
  no_crlf 0 acc = true ->
  (List.last acc 0 = CR -> match s with b :: _ => b <> LF | [] => True end) ->
  let (ls, t) := split_lines acc s in
  fst (crun max cmd_init (acc ++ s)) = (line_event max <$> ls) ++ tail_events max t.
Proof.
  induction n as [|n IH]; intros s acc Hn Hacc Hlast.
  { destruct s; [|simpl in Hn; lia]. simpl. by rewrite app_nil_r, crun_open. }
  destruct s as [|b [|b' s]]; simpl.
  { by rewrite app_nil_r, crun_open. }
  { rewrite crun_open; [done|]. rewrite no_crlf_snoc, Hacc. simpl.
    destruct (Z.eqb_spec (List.last acc 0) CR), (Z.eqb_spec b LF); naive_solver. }
  destruct ((b =? CR) && (b' =? LF)) eqn:Hc.
  - apply andb_true_iff in Hc as [->%Z.eqb_eq ->%Z.eqb_eq].
    specialize (IH s [] ltac:(simpl in Hn; lia) eq_refl ltac:(done)). simpl in IH.
    destruct (split_lines [] s) as [ls t].
    change (acc ++ CR :: LF :: s) with (acc ++ CRLF ++ s).
    rewrite app_assoc, crun_app, crun_line by done.
    destruct (crun max cmd_init s). simpl in *. by rewrite IH.
  - change (acc ++ b :: b' :: s) with (acc ++ [b] ++ b' :: s). rewrite app_assoc.
    apply (IH (b' :: s) (acc ++ [b])); [simpl in *; lia| |].
    + rewrite no_crlf_snoc, Hacc. simpl.
      destruct (Z.eqb_spec (List.last acc 0) CR), (Z.eqb_spec b LF); naive_solver.
    + rewrite last_last. intros ->. intros ->. done.
Qed.

(** ** Invariants of every reachable reader *)

(** The readers a caller can obtain through the methods of the class. *)
Inductive reachable : SmtpLineReader -> Prop :=
| reach_new max : reachable (newReader max)
| reach_push c r : reachable r -> reachable (push c r)
| reach_next r : reachable r -> reachable (snd (next r))
| reach_startData max r r' : reachable r -> startData max r = Some r' -> reachable r'
| reach_discard r : reachable r -> reachable (snd (discardPending r)).

Lemma scanData_wf h t r :
  wf r -> mode r = Data -> queue r = h :: t -> (offset r < length h)%nat ->
  wf (scanData h r) /\ queue (scanData h r) = h :: t /\
  (exists c1, unread r = c1 ++ unread (scanData h r)) /\
  (events (scanData h r) <> [] \/ offset (scanData h r) = length h).
Proof.
  intros Hwf Hm Hq Ho. destruct (scanData_run h t r Hm Hq ltac:(lia)) as (r1 & HE & Hout).
  destruct (framed_outer _ _ (emits_frame _ _ _ _ HE)) as (HO & Hm1 & _).
  assert (forall i, outer (report (set_offset i r1)) = outer r /\
      offset (report (set_offset i r1)) = i) as Hf.
  { intros i. destruct (report_frame (set_offset i r1)) as (FO & _ & _ & Fo & _).
    split; [by rewrite FO, <- HO|done]. }
  assert (forall r', outer r' = outer r -> (offset r <= offset r' <= length h)%nat ->
    wf r' /\ queue r' = h :: t /\ exists c1, unread r = c1 ++ unread r') as Hwf'.
  { intros r' HO' Hi. destruct (outer_inj _ _ HO') as (? & Hq' & ?). rewrite Hq in Hq'.
    split_and!; [|done|].
    - eapply outer_wf; [done..| |congruence]. intros ?? E. rewrite Hq in E. injection E as <- <-. lia.
    - exists (sub h (offset r) (offset r')). rewrite (unread_queue _ _ _ Hq), (unread_queue _ _ _ Hq').
      rewrite app_assoc. f_equal. unfold sub. rewrite <- (take_drop (offset r' - offset r) (drop (offset r) h)) at 1.
      f_equal. rewrite drop_drop. f_equal. lia. }
  destruct (run_out _).
  - destruct Hout as (-> & _). destruct (Hf (length h)) as [HO' Ho'].
    destruct (Hwf' _ HO' ltac:(lia)) as (? & ? & ?). auto.
  - destruct Hout as (i & -> & _ & Hi). destruct (Hf i) as [HO' Ho'].
    destruct (Hwf' (finish (report (set_offset i r1))) HO' ltac:(simpl; lia)) as (? & ? & ?).
    split_and!; auto. left. simpl. by destruct (events (report (set_offset i r1))).
Qed.

(** [next] always returns within its fuel, from any well-formed reader, and keeps it well-formed. *)
Lemma next_loop_wf fuel : forall r, wf r -> (need r <= fuel)%nat ->
  exists ev r' c1, next_loop fuel r = Some (ev, r') /\ wf r' /\ unread r = c1 ++ unread r' /\
    maxLineLength r' = maxLineLength r.
Proof.
  induction fuel as [|fuel IH]; intros r Hwf Hfuel.
  { pose proof (need_pos r). lia. }
  simpl. destruct (events r) as [|ev evs] eqn:He.
  2: { exists (Some ev), (set_events evs r), []. by destruct Hwf. }
  destruct (queue r) as [|h t] eqn:Hq; [by exists None, r, []|].
  destruct (Nat.leb_spec (length h) (offset r)) as [Hle|Hlt].
  - destruct (shift_spec _ _ _ He Hq Hwf Hle) as (Hwf' & Hun & Hneed).
    destruct (IH (shift t r)) as (ev & r' & c1 & H1 & H2 & H3 & H4); [done|lia|].
    rewrite Hun in H3. eauto 8.
  - assert (forall r1, wf r1 -> queue r1 = h :: t -> (exists c1, unread r = c1 ++ unread r1) ->
      (events r1 <> [] \/ offset r1 = length h) -> maxLineLength r1 = maxLineLength r ->
      exists ev r' c1, next_loop fuel r1 = Some (ev, r') /\ wf r' /\ unread r = c1 ++ unread r' /\
        maxLineLength r' = maxLineLength r) as Go.
    { intros r1 W Q (c1 & U) E M. destruct (IH r1 W) as (ev & r' & c2 & H1 & H2 & H3 & H4).
      - unfold need in *. rewrite He, Hq in Hfuel. rewrite Q.
        destruct (Nat.ltb_spec (offset r) (length h)); [|lia].
        destruct (events r1); [|lia]. destruct E as [E | E]; [done|]. rewrite E, Nat.ltb_irrefl. lia.
      - exists ev, r', (c1 ++ c2). rewrite U, H3, app_assoc. split_and!; auto; congruence. }
    destruct (mode r) eqn:Hm.
    + destruct (scanCommand h r) as [ev r1] eqn:Hs.
      destruct (scanCommand_spec _ _ _ _ _ Hwf Hq Hs) as (c1 & Hu & _ & Hf & Hwf1 & Hev).
      injection Hf as F1 F2 F3 F4. destruct ev as [ev|]; [by exists (Some ev), r1, c1|].
      apply Go; eauto; congruence.
    + destruct (scanData_wf _ _ _ Hwf Hm Hq Hlt) as (? & ? & ? & ?).
      destruct (scanData_run h t r Hm Hq ltac:(lia)) as (r1 & HE & Hout).
      apply Go; auto. destruct (framed_outer _ _ (emits_frame _ _ _ _ HE)) as (HO & _ & _).
      destruct (outer_inj _ _ HO) as (<- & _).
      destruct (run_out _); [destruct Hout as (-> & _) | destruct Hout as (i & -> & _)]; simpl;
        match goal with |- context [report ?x] => destruct (report_frame x) as (FO & _) end;
        by destruct (outer_inj _ _ FO) as (-> & _).
Qed.

Lemma reachable_wf r : reachable r -> wf r.
Proof.
  induction 1 as [max|c r _ IH|r _ IH|max r r' _ IH Hs|r _ IH].
  - split; simpl; [done|apply length_replicate|lia].
  - by apply push_spec.
  - destruct (next_loop_wf _ r IH (need_fuel r)) as (ev & r' & c1 & Hn & Hw & _).
    unfold next. by rewrite Hn.
  - unfold startData in Hs. case_match; simplify_eq. destruct IH. by split.
  - destruct IH. split; simpl; [done|done|lia].
Qed.

Lemma fold_lengths (l : list bytes) n :
  fold_left (fun n b => n + Z.of_nat (length b)) l n = n + Z.of_nat (length (concat l)).
Proof.
  revert n. induction l as [|x l IH]; intros n; simpl; [lia|]. rewrite IH, length_app. lia.
Qed.

Lemma bufferedBytes_unread r :
  wf r -> bufferedBytes r = Z.of_nat (length (unread r)) + Z.of_nat (lineLen r).
Proof.
  intros [Ho _ _]. unfold bufferedBytes, unread. rewrite fold_lengths.
  destruct (queue r); simpl; [lia|]. rewrite !length_app, length_drop. lia.
Qed.

Lemma readLines_events r chunks fuel :
  at_boundary r -> (length (unread r ++ concat chunks) < fuel)%nat ->
  fst (readLines fuel chunks r) = command_events (maxLineLength r) (unread r ++ concat chunks).
Proof.
  intros (Hwf & Hm & He & Hl & Hc & Hd) Hfuel.
  destruct (readLines_crun fuel chunks r Hwf Hm He Hfuel) as (r' & -> & _). simpl.
  assert (cmd_state r = cmd_init) as -> by (unfold cmd_state; by rewrite Hl, Hc, Hd).
  pose proof (command_events_crun (maxLineLength r) _ (unread r ++ concat chunks) []
    (Nat.le_refl _) eq_refl ltac:(done)) as H.
  unfold command_events. simpl app in H. by destruct (split_lines [] _).
Qed.

(** ** The properties *)

Lemma data_phase {St} (on : LineReaderEvent -> St -> St) max r0 r chunks st fuel :
  wf r0 -> events r0 = [] -> exceeds 0 max = false -> startData max r0 = Some r ->
  (5 * length (unread r0 ++ concat chunks) < fuel)%nat ->
  match data_lines [] (unread r0 ++ concat chunks) with
  | None => exists evs r', readData on fuel chunks r st = DataClosed (fold_left (flip on) evs st) r'
  | Some (ls, rest) => exists evs rej r' chunks',
      readData on fuel chunks r st =
        DataComplete (fold_left (flip on) evs st) (Z.of_nat (length (message_body ls))) rej r' chunks' /\
      (rej = None <-> existsb dirty ls = false /\
                      exceeds (Z.of_nat (length (message_body ls))) max = false) /\
      data_of evs `prefix_of` message_body ls /\ (rej = None -> exists segs, evs = EvData <$> segs /\ concat segs = message_body ls) /\
      unread r' ++ concat chunks' = rest /\ at_boundary r'
  end.
Proof.
  intros Hwf He Hmax Hs Hfuel.
  destruct (startData_J _ _ _ Hwf He Hmax Hs) as (HJ & Hm & Hu & He').
  destruct (readData_J on max fuel [] [] r chunks st HJ ltac:(auto) ltac:(auto)) as (evs & Hevs).
  { unfold budget. rewrite He', Hu. rewrite length_app in Hfuel. simpl. lia. }
  simpl app in Hevs. rewrite Hu in Hevs.
  pose proof (data_lines_drun _ (unread r0 ++ concat chunks) [] (Nat.le_refl _) eq_refl ltac:(done)) as HL.
  simpl app in HL. destruct (data_lines [] _) as [[ls rest]|].
  - rewrite HL in Hevs. simpl in Hevs.
    destruct Hevs as (rej & r' & ch & E & Hr & HV & (_ & HP & HQ) & W).
    exists evs, rej, r', ch. split_and!; try done; naive_solver.
  - destruct HL as [s HL]. rewrite HL in Hevs. destruct Hevs as [r' E]. by exists evs, r'.
Qed.

(** C1: DATA mode, end to end. Whatever way the input is cut into chunks, and whatever is already
    buffered behind the DATA command, the engine's DATA loop ends exactly at the first line that is
    a single dot; the reported size is the size of the dot-unstuffed message; the message is
    accepted iff no line holds a bare CR, a bare LF or a NUL and the size limit is respected; an
    accepted message is handed over in full (and a rejected one never beyond a prefix); the octets
    after the terminator stay for command mode. *)
Theorem data_phase_correct {St} (on : LineReaderEvent -> St -> St) max r0 r chunks st fuel :
  wf r0 -> events r0 = [] -> exceeds 0 max = false -> startData max r0 = Some r ->
  (5 * length (unread r0 ++ concat chunks) < fuel)%nat ->
  match data_lines [] (unread r0 ++ concat chunks) with
  | None => exists evs r', readData on fuel chunks r st = DataClosed (fold_left (flip on) evs st) r'
  | Some (ls, rest) => exists evs rej r' chunks',
      readData on fuel chunks r st =
        DataComplete (fold_left (flip on) evs st) (Z.of_nat (length (message_body ls))) rej r' chunks' /\
      (rej = None <-> existsb dirty ls = false /\
                      exceeds (Z.of_nat (length (message_body ls))) max = false) /\
      data_of evs `prefix_of` message_body ls /\ (rej = None -> exists segs, evs = EvData <$> segs /\ concat segs = message_body ls) /\
      unread r' ++ concat chunks' = rest /\ at_boundary r'
  end.
Proof. apply data_phase. Qed.

(** The client sends [a CRLF ..b CRLF . CRLF QUIT CRLF], cut inside the terminator. *)
Definition demo_chunks : list bytes :=
  [lit "a" ++ CRLF ++ lit "..b" ++ [CR]; [LF] ++ lit "." ++ [CR]; [LF] ++ lit "QUIT" ++ CRLF].

Lemma data_phase_correct_witness :
  exists r evs rej r' chunks',
    startData (Some 100) (newReader (Some 16%nat)) = Some r /\
    readData (fun ev st => st ++ [ev]) 200 demo_chunks r []
      = DataComplete (fold_left (flip (fun ev st => st ++ [ev])) evs []) 7 rej r' chunks' /\
    rej = None /\
    (exists segs, evs = EvData <$> segs /\ concat segs = lit "a" ++ CRLF ++ lit ".b" ++ CRLF) /\
    unread r' ++ concat chunks' = lit "QUIT" ++ CRLF.
Proof.
  eexists. 
  pose proof (data_phase_correct (fun ev st => st ++ [ev]) (Some 100) (newReader (Some 16%nat)) _
    demo_chunks [] 200 (reachable_wf _ (reach_new _)) eq_refl eq_refl eq_refl
    ltac:(apply Nat.ltb_lt; reflexivity)) as H.
  replace (data_lines [] (unread (newReader (Some 16%nat)) ++ concat demo_chunks))
    with (Some ([lit "a"; lit "..b"], lit "QUIT" ++ CRLF)) in H by reflexivity.
  destruct H as (evs & rej & r' & ch & E & HV & _ & HQ & HU & _).
  assert (rej = None) as Hrej by (apply HV; split; reflexivity).
  exists evs, rej, r', ch. split; [reflexivity|]. split; [exact E|]. split; [exact Hrej|].
  split; [exact (HQ Hrej)|exact HU].
Defined.

(** C2: command mode, end to end. However the input is cut, the events are those of the
    line-level reading: one per CRLF-terminated line (the line itself, or the first thing wrong
    with it), plus the error of an unfinished last line as soon as it is seen. A bare LF or a bare
    CR never ends a line. *)
Theorem command_phase_correct r chunks fuel :
  at_boundary r -> (length (unread r ++ concat chunks) < fuel)%nat ->
  fst (readLines fuel chunks r) = command_events (maxLineLength r) (unread r ++ concat chunks).
Proof. apply readLines_events. Qed.

Lemma command_phase_correct_witness :
  fst (readLines 100 [lit "EHLO x" ++ [CR]; [LF] ++ lit "A" ++ [LF] ++ lit "B" ++ CRLF ++ lit "QU"; lit "IT" ++ CRLF] (newReader (Some 8%nat)))
  = [EvLine (lit "EHLO x"); EvLineError Bare_lf; EvLine (lit "QUIT")].
Proof.
  rewrite (command_phase_correct (newReader (Some 8%nat))); [reflexivity | | apply Nat.ltb_lt; reflexivity].
  split; [apply reachable_wf, reach_new|]. by split_and!.
Defined.

(** memory and progress of every reachable reader. The partial line never exceeds the limit,
    the octets held are exactly the unread input plus the partial line, and [next] returns within
    its fuel, without gaining input. *)
Theorem reader_bounded r :
  reachable r ->
  (lineLen r <= maxLineLength r)%nat /\
  bufferedBytes r = Z.of_nat (length (unread r)) + Z.of_nat (lineLen r) /\
  exists ev r' c1, next_loop (next_fuel r) r = Some (ev, r') /\ next r = (ev, r') /\
    unread r = c1 ++ unread r' /\
    (lineLen r' <= maxLineLength r)%nat /\
    bufferedBytes r' <= Z.of_nat (length (unread r)) + Z.of_nat (maxLineLength r).
Proof.
  intros Hr%reachable_wf. pose proof (wf_len _ Hr).
  destruct (next_loop_wf _ r Hr (need_fuel r)) as (ev & r' & c1 & Hn & Hw & Hu & HM).
  split; [done|]. split; [by apply bufferedBytes_unread|].
  exists ev, r', c1. unfold next. rewrite Hn. pose proof (wf_len _ Hw). rewrite HM in *.
  rewrite bufferedBytes_unread by done. rewrite Hu, length_app. split_and!; auto. lia.
Qed.

Lemma reader_bounded_witness :
  bufferedBytes (push (lit "NOOP") (newReader (Some 16%nat))) = 4.
Proof.
  destruct (reader_bounded (push (lit "NOOP") (newReader (Some 16%nat)))
    (reach_push _ _ (reach_new _))) as (_ & -> & _). reflexivity.
Defined.

(** STARTTLS injection. Whatever a reachable reader holds when the engine calls
    [discardPending], nothing of it survives: the octets thrown away are counted exactly, and the
    events read afterwards are those of the new input alone. *)
Theorem discard_no_injection r chunks fuel :
  reachable r -> (length (concat chunks) < fuel)%nat ->
  fst (discardPending r) = Z.of_nat (length (unread r)) + Z.of_nat (lineLen r) /\
  fst (readLines fuel chunks (snd (discardPending r))) = command_events (maxLineLength r) (concat chunks).
Proof.
  intros Hr Hfuel. pose proof (reachable_wf _ Hr) as [Ho _ _]. split.
  - simpl. rewrite fold_lengths. unfold unread. destruct (queue r); simpl; [lia|].
    rewrite !length_app, length_drop. lia.
  - pose proof (reachable_wf _ (reach_discard _ Hr)) as Hw.
    assert (at_boundary (snd (discardPending r))) as Hb by (split; [done|]; by split_and!).
    exact (readLines_events _ chunks fuel Hb Hfuel).
Qed.

Lemma discard_no_injection_witness :
  fst (readLines 100 [lit "NOOP" ++ CRLF]
        (snd (discardPending (push (lit "STAR" ++ [CR] ++ lit "RCPT TO:<x>" ++ CRLF) (newReader None)))))
  = [EvLine (lit "NOOP")].
Proof.
  destruct (discard_no_injection (push (lit "STAR" ++ [CR] ++ lit "RCPT TO:<x>" ++ CRLF) (newReader None))
    [lit "NOOP" ++ CRLF] 100 (reach_push _ _ (reach_new _)) ltac:(apply Nat.ltb_lt; reflexivity)) as [_ ->].
  reflexivity.
Defined.
