(* ===== verification/DotStuffer.v ===== *)
(** * DotStuffer: the streaming DATA encoder of apps/delivery/src/client/dot-stuff.ts

    Line endings are normalised to CRLF, leading dots doubled, and the message closed with
    [<CRLF>.<CRLF>]. [push] and [end] are the methods of the class; a method on an ended encoder
    throws, which is [None] here. *)
From S2P Require Import Prelude SmtpLineReader SmtpLineReaderProofs.

Record DotStuffer := mkStuffer { atLineStart : bool; pendingCR : bool; ended : bool }.

Definition newStuffer : DotStuffer := mkStuffer true false false.

(** One turn of the [for (const b of chunk)] loop: the octets written and the new state. *)
Definition stuff_byte (b : Z) (s : DotStuffer) : bytes * DotStuffer :=
  let out0 := if pendingCR s then [CR; LF] else [] in
  let s1 := if pendingCR s then mkStuffer true false (ended s) else s in
  if pendingCR s && (b =? LF) then (out0, s1)
  else if b =? CR then (out0, mkStuffer (atLineStart s1) true (ended s1))
  else if b =? LF then (out0 ++ [CR; LF], mkStuffer true (pendingCR s1) (ended s1))
  else
    (out0 ++ (if atLineStart s1 && (b =? DOT) then [DOT] else []) ++ [b],
     mkStuffer false (pendingCR s1) (ended s1)).

Fixpoint stuff_loop (chunk : bytes) (s : DotStuffer) : bytes * DotStuffer :=
  match chunk with
  | [] => ([], s)
  | b :: chunk =>
      let (o, s) := stuff_byte b s in
      let (os, s) := stuff_loop chunk s in (o ++ os, s)
  end.

(** The size of the buffer [push] allocates for its output. *)
Definition out_capacity (chunk : bytes) : nat := length chunk * 2 + 2.

Definition stuffer_push (chunk : bytes) (s : DotStuffer) : option (bytes * DotStuffer) :=
  if ended s then None else Some (stuff_loop chunk s).

Definition stuffer_end (s : DotStuffer) : option (bytes * DotStuffer) :=
  if ended s then None
  else
    let tail := if pendingCR s then [CR; LF] else [] in
    let atStart := if pendingCR s then true else atLineStart s in
    let tail := if atStart then tail else tail ++ [CR; LF] in
    Some (tail ++ [DOT; CR; LF], mkStuffer atStart (pendingCR s) true).

(** The client's use of it: push every chunk, then end. *)
Fixpoint stuff_message (chunks : list bytes) (s : DotStuffer) : option bytes :=
  match chunks with
  | [] => fst <$> stuffer_end s
  | c :: chunks =>
      match stuffer_push c s with
      | None => None
      | Some (o, s) => (fun os => o ++ os) <$> stuff_message chunks s
      end
  end.

(** ** What the encoder writes, the line reader reads back *)

(** ** Reference: the lines of a text

    CRLF, a lone CR and a lone LF all end a line; a last line without an ending counts. *)
Fixpoint text_lines (acc s : bytes) : list bytes :=
  match s with
  | [] => match acc with [] => [] | _ => [acc] end
  | b :: s' =>
      if b =? CR then
        match s' with
        | b' :: s'' => if b' =? LF then acc :: text_lines [] s'' else acc :: text_lines [] s'
        | [] => [acc]
        end
      else if b =? LF then acc :: text_lines [] s'
      else text_lines (acc ++ [b]) s'
  end.

(** The message with every line ended by CRLF. *)
Definition normalised (s : bytes) : bytes := concat ((fun l => l ++ CRLF) <$> text_lines [] s).

Definition stuff_line (l : bytes) : bytes :=
  match l with b :: _ => if b =? DOT then DOT :: l else l | [] => [] end.

(** ** The encoder is chunk-independent *)

Lemma stuff_loop_app c c' s :
  stuff_loop (c ++ c') s =
    (let (o, s1) := stuff_loop c s in let (o', s2) := stuff_loop c' s1 in (o ++ o', s2)).
Proof.
  revert s. induction c as [|b c IH]; intros s; simpl.
  - by destruct (stuff_loop c' s).
  - destruct (stuff_byte b s) as [o s1]. rewrite IH.
    destruct (stuff_loop c s1) as [o1 s2], (stuff_loop c' s2) as [o2 s3]. by rewrite app_assoc.
Qed.

Lemma stuff_byte_ended b s : ended (snd (stuff_byte b s)) = ended s.
Proof. unfold stuff_byte. destruct s as [a p e]; simpl. destruct p; simpl; repeat case_match; done. Qed.

Lemma stuff_loop_ended c s : ended (snd (stuff_loop c s)) = ended s.
Proof.
  revert s. induction c as [|b c IH]; intros s; [done|]. simpl.
  pose proof (stuff_byte_ended b s). destruct (stuff_byte b s) as [o s1]. specialize (IH s1).
  destruct (stuff_loop c s1). simpl in *. congruence.
Qed.

Lemma stuff_message_concat chunks s :
  ended s = false ->
  stuff_message chunks s =
    (let (o, s1) := stuff_loop (concat chunks) s in (fun e => o ++ fst e) <$> stuffer_end s1).
Proof.
  revert s. induction chunks as [|c chunks IH]; intros s He; simpl.
  - by destruct (stuffer_end s).
  - unfold stuffer_push. rewrite He, stuff_loop_app.
    pose proof (stuff_loop_ended c s) as He1. destruct (stuff_loop c s) as [o s1]. simpl in He1.
    rewrite IH by congruence. destruct (stuff_loop (concat chunks) s1) as [o2 s2].
    destruct (stuffer_end s2); simpl; [|done]. by rewrite app_assoc.
Qed.

(** ** What it writes, line by line *)

Definition wire (ls : list bytes) : bytes := concat ((fun l => stuff_line l ++ CRLF) <$> ls).

Definition finish_from (s : bytes) (st : DotStuffer) : bytes :=
  let (o, st) := stuff_loop s st in o ++ default [] (fst <$> stuffer_end st).

(** [st] is the encoder in the middle of line [acc]. *)
Definition line_state (acc : bytes) : DotStuffer := mkStuffer (bool_decide (acc = [])) false false.

Lemma stuff_line_snoc acc b :
  stuff_line (acc ++ [b]) =
    stuff_line acc ++ (if bool_decide (acc = []) && (b =? DOT) then [DOT] else []) ++ [b].
Proof.
  destruct acc as [|x acc]; simpl.
  - by destruct (Z.eqb_spec b DOT) as [->|].
  - by destruct (x =? DOT).
Qed.

Lemma finish_from_cons b s st :
  finish_from (b :: s) st = fst (stuff_byte b st) ++ finish_from s (snd (stuff_byte b st)).
Proof.
  unfold finish_from. simpl. destruct (stuff_byte b st) as [o st1].
  simpl. destruct (stuff_loop s st1). by rewrite app_assoc.
Qed.

Lemma wire_cons l ls : wire (l :: ls) = stuff_line l ++ CRLF ++ wire ls.
Proof. unfold wire. simpl. by rewrite <- app_assoc. Qed.

(** A held CR is the end of the line it closes, whatever comes next but LF. *)
Lemma stuff_byte_pending b a :
  (b =? LF) = false ->
  stuff_byte b (mkStuffer a true false) =
    (CRLF ++ fst (stuff_byte b (line_state [])), snd (stuff_byte b (line_state []))).
Proof. intros Hb. unfold stuff_byte; simpl. rewrite Hb. simpl. by repeat case_match. Qed.

Lemma finish_from_lines n : forall s acc, (length s <= n)%nat ->
  stuff_line acc ++ finish_from s (line_state acc) = wire (text_lines acc s) ++ [DOT; CR; LF] /\
  stuff_line acc ++ finish_from s (mkStuffer (bool_decide (acc = [])) true false) =
    wire (text_lines acc (CR :: s)) ++ [DOT; CR; LF].
Proof.
  induction n as [|n IH]; intros s acc Hn.
  { destruct s; [|simpl in Hn; lia]. unfold finish_from. simpl.
    destruct acc as [|x acc]; simpl; [done|]. unfold wire; simpl.
    by rewrite !app_nil_r, <- !app_assoc. }
  assert (forall acc, stuff_line acc ++ finish_from s (line_state acc) =
    wire (text_lines acc s) ++ [DOT; CR; LF]) as HA.
  { clear acc. intros acc. destruct s as [|b s]; [by apply (IH [] acc); simpl; lia|].
    simpl in Hn. rewrite finish_from_cons. unfold stuff_byte; simpl.
    destruct (Z.eqb_spec b CR) as [->|Hc]; [by apply (IH s acc); lia|].
    destruct (b =? LF) eqn:Hlf; simpl.
    - destruct (IH s [] ltac:(lia)) as [IHs _]. simpl in IHs.
      rewrite wire_cons, <- ?app_assoc, <- IHs. done.
    - destruct (IH s (acc ++ [b]) ltac:(lia)) as [IHs _]. rewrite <- IHs, stuff_line_snoc.
      unfold line_state. rewrite <- !app_assoc. do 4 f_equal.
      rewrite bool_decide_eq_false_2; [done|]. by destruct acc. }
  split; [apply HA|]. destruct s as [|b s].
  { unfold finish_from. simpl. rewrite wire_cons, <- app_assoc. done. }
  rewrite finish_from_cons. simpl. destruct (b =? LF) eqn:Hlf.
  - unfold stuff_byte; simpl. rewrite Hlf. simpl.
    simpl in Hn. destruct (IH s [] ltac:(lia)) as [IHs _]. simpl in IHs.
    rewrite wire_cons, <- ?app_assoc, <- IHs. done.
  - rewrite stuff_byte_pending by done. simpl. rewrite <- ?app_assoc, wire_cons, <- ?app_assoc.
    specialize (HA []). rewrite finish_from_cons in HA. simpl in HA. by rewrite HA, Hlf.
Qed.

(** ** Reading the lines back *)

Definition line_ok (l : bytes) : Prop := Forall (fun b => b <> CR /\ b <> LF) l.

Lemma text_lines_ok n : forall s acc, (length s <= n)%nat ->
  line_ok acc -> Forall line_ok (text_lines acc s).
Proof.
  induction n as [|n IH]; intros s acc Hn Hacc.
  { destruct s; [|simpl in Hn; lia]. simpl. destruct acc; auto using List.Forall_nil, List.Forall_cons. }
  destruct s as [|b s]; simpl; [destruct acc; auto using List.Forall_nil, List.Forall_cons|]. simpl in Hn.
  assert (line_ok []) as Hnil by constructor.
  destruct (Z.eqb_spec b CR).
  - destruct s as [|b' s]; [auto using List.Forall_nil, List.Forall_cons|]. simpl in Hn.
    destruct (b' =? LF); constructor; auto; apply IH; simpl; auto; lia.
  - destruct (Z.eqb_spec b LF).
    + constructor; auto; apply IH; auto; lia.
    + apply IH; [lia|]. apply Forall_app. split; [done|]. by apply Forall_singleton.
Qed.

Lemma line_ok_stuff l : line_ok l -> line_ok (stuff_line l).
Proof.
  intros H. destruct l as [|b l]; [done|]. simpl. case_match; [|done].
  constructor; [|done]. done.
Qed.

Lemma stuff_line_not_dot l : stuff_line l <> [DOT].
Proof.
  destruct l as [|b l]; [done|]. simpl. destruct (Z.eqb_spec b DOT) as [->|]; [done|].
  intros [= ]. done.
Qed.

Lemma unstuff_stuff_line l : unstuff (stuff_line l) = l.
Proof.
  destruct l as [|b l]; [done|]. simpl. destruct (Z.eqb_spec b DOT) as [->|Hn]; [done|].
  simpl. destruct (Z.eqb_spec b DOT); [congruence|done].
Qed.

Lemma data_lines_line l s : forall acc,
  line_ok l ->
  data_lines acc (l ++ CRLF ++ s) =
    if decide (acc ++ l = [DOT]) then Some ([], s)
    else (fun '(ls, rest) => ((acc ++ l) :: ls, rest)) <$> data_lines [] s.
Proof.
  induction l as [|b l IH]; intros acc Hl.
  - rewrite app_nil_r. done.
  - inv Hl as [|?? [H1 H2] Hl']. change ((b :: l) ++ CRLF ++ s) with (b :: (l ++ CRLF ++ s)).
    assert (data_lines acc (b :: l ++ CRLF ++ s) = data_lines (acc ++ [b]) (l ++ CRLF ++ s)) as ->.
    { simpl. destruct (Z.eqb_spec b CR); [done|]. by destruct l. }
    rewrite IH by done. by rewrite <- app_assoc.
Qed.

Lemma data_lines_wire ls rest :
  Forall line_ok ls ->
  data_lines [] (wire ls ++ [DOT; CR; LF] ++ rest) = Some (stuff_line <$> ls, rest).
Proof.
  induction 1 as [|l ls Hl _ IH]; simpl.
  - apply (data_lines_line [DOT] rest []). repeat constructor; done.
  - rewrite wire_cons, <- !app_assoc. rewrite data_lines_line by (by apply line_ok_stuff).
    rewrite decide_False by apply stuff_line_not_dot. simpl app. simpl app in IH. by rewrite IH.
Qed.

Lemma message_body_stuff ls :
  message_body (stuff_line <$> ls) = concat ((fun l => l ++ CRLF) <$> ls).
Proof.
  unfold message_body. f_equal. rewrite <- list_fmap_compose. apply list_fmap_ext.
  intros i l _. simpl. by rewrite unstuff_stuff_line.
Qed.

Definition has_nul (l : bytes) : bool := existsb (fun b => b =? NUL) l.

Lemma dirty_stuff l : line_ok l -> dirty (stuff_line l) = has_nul l.
Proof.
  intros H. assert (dirty l = has_nul l) as E.
  { unfold dirty. induction H as [|b l [H1 H2] _ IH]; [done|]. simpl. rewrite IH.
    by destruct (Z.eqb_spec b CR), (Z.eqb_spec b LF). }
  destruct l as [|b l]; [done|]. simpl. case_match; [|done]. simpl in *. done.
Qed.

Lemma has_nul_app a b : has_nul (a ++ b) = has_nul a || has_nul b.
Proof. apply existsb_app. Qed.

Lemma text_lines_cr acc b s :
  text_lines acc (CR :: b :: s) = acc :: text_lines [] (if b =? LF then s else b :: s).
Proof.
  change (text_lines acc (CR :: b :: s)) with
    (if b =? LF then acc :: text_lines [] s else acc :: text_lines [] (b :: s)).
  by destruct (b =? LF).
Qed.

Lemma text_lines_nul n : forall s acc, (length s <= n)%nat ->
  existsb has_nul (text_lines acc s) = has_nul (acc ++ s).
Proof.
  induction n as [|n IH]; intros s acc Hn.
  { destruct s; [|simpl in Hn; lia]. rewrite app_nil_r. simpl. destruct acc; [done|]. simpl.
    by rewrite orb_false_r. }
  destruct s as [|b s].
  { rewrite app_nil_r. simpl. destruct acc; [done|]. simpl. by rewrite orb_false_r. }
  rewrite has_nul_app. destruct (Z.eqb_spec b CR) as [->|Hc].
  - destruct s as [|b' s]; [done|]. rewrite text_lines_cr. simpl existsb at 1. simpl in Hn.
    destruct (Z.eqb_spec b' LF) as [->|]; rewrite IH by (simpl; lia); done.
  - simpl in Hn. simpl text_lines. destruct (Z.eqb_spec b CR); [done|].
    destruct (Z.eqb_spec b LF) as [->|].
    + simpl. by rewrite (IH s []) by lia.
    + rewrite IH by lia. by rewrite <- app_assoc, has_nul_app.
Qed.

(** ** The properties *)

(** the delivery client's DATA encoder and the server's DATA reader are inverse. Whatever the
    chunking on the sending side, the encoded stream followed by anything is, for the receiver, one
    message that ends where the encoder ended it, whose body is the sent text with its line endings
    normalised; it is clean (no bare CR or LF is ever put on the wire) unless the text itself holds
    a NUL. *)
Theorem stuffed_message_reads_back chunks rest :
  exists out ls,
    stuff_message chunks newStuffer = Some out /\
    data_lines [] (out ++ rest) = Some (ls, rest) /\
    message_body ls = normalised (concat chunks) /\
    existsb dirty ls = has_nul (concat chunks).
Proof.
  set (msg := concat chunks).
  pose proof (text_lines_ok _ msg [] (Nat.le_refl _) ltac:(constructor)) as Hok.
  exists (wire (text_lines [] msg) ++ [DOT; CR; LF]), (stuff_line <$> text_lines [] msg).
  split_and!.
  - rewrite stuff_message_concat by done. fold msg.
    destruct (finish_from_lines _ msg [] (Nat.le_refl _)) as [<- _]. unfold finish_from.
    change (line_state []) with newStuffer.
    pose proof (stuff_loop_ended msg newStuffer) as He.
    destruct (stuff_loop msg newStuffer) as [o s]. simpl in *. unfold stuffer_end. by rewrite He.
  - rewrite <- app_assoc. by apply data_lines_wire.
  - apply message_body_stuff.
  - change msg with ([] ++ msg) at 2. rewrite <- (text_lines_nul _ msg [] (Nat.le_refl _)).
    induction Hok as [|l ls Hl _ IH]; [done|]. csimpl. by rewrite dirty_stuff, IH.
Qed.

Lemma stuff_byte_length b s :
  (length (fst (stuff_byte b s)) + (if pendingCR (snd (stuff_byte b s)) then 2 else 0)
    <= 2 + (if pendingCR s then 2 else 0))%nat.
Proof. unfold stuff_byte. destruct s as [a [] e]; simpl; repeat case_match; simplify_eq/=; lia. Qed.

Lemma stuff_loop_length c s :
  (length (fst (stuff_loop c s)) + (if pendingCR (snd (stuff_loop c s)) then 2 else 0)
    <= length c * 2 + (if pendingCR s then 2 else 0))%nat.
Proof.
  revert s. induction c as [|b c IH]; intros s; simpl; [lia|].
  pose proof (stuff_byte_length b s). destruct (stuff_byte b s) as [o s1]. specialize (IH s1).
  destruct (stuff_loop c s1). simpl in *. rewrite length_app. lia.
Qed.

(** [push] never writes past the buffer it allocates ([chunk.length * 2 + 2] octets), in any
    state the encoder can be in. *)
Theorem stuffer_push_fits chunk s o s' :
  stuffer_push chunk s = Some (o, s') -> (length o <= out_capacity chunk)%nat.
Proof.
  unfold stuffer_push, out_capacity. destruct (ended s); [done|]. intros [= H].
  pose proof (stuff_loop_length chunk s) as HL. rewrite H in HL. simpl in HL.
  destruct (pendingCR s); lia.
Qed.

Lemma stuffer_push_fits_witness :
  (length [CR; LF; DOT; DOT] <= out_capacity [DOT])%nat.
Proof.
  apply (stuffer_push_fits [DOT] (mkStuffer false true false) _ (mkStuffer false false false)).
  reflexivity.
Defined.
