(* ===== verification/JsString.v ===== *)
(** * JsString: the part of the JavaScript runtime's text handling the sources use

    A JavaScript string is the list of its UTF-16 code units. Functions whose result depends on
    Unicode tables ([toUpperCase] and [toLowerCase] outside ASCII), on the shortest-digits printing
    of numbers beyond 2^53, or on Node's address parser ([net.isIPv6]) are fields of the class [Runtime]: a parameter of every definition that uses
    them. The ASCII behaviour is fixed here. *)
From S2P Require Import Prelude.

Class Runtime := {
  uni_upper : jsstr -> jsstr;
  uni_lower : jsstr -> jsstr;
  big_string : Z -> jsstr;
  isIPv6 : jsstr -> bool
}.

(** [net.isIPv6] accepts hexadecimal groups, colons, a dotted quad and a zone identifier. *)
Definition ipv6_char (c : Z) : Prop :=
  (48 <= c <= 58) \/ (65 <= c <= 90) \/ (97 <= c <= 122) \/ c = 37 \/ c = 45 \/ c = 46.

Class RuntimeOk (R : Runtime) : Prop := {
  isIPv6_chars : forall s, isIPv6 s = true -> Forall ipv6_char s
}.

(** ** Character classes *)

Definition isAlphaUpper (c : Z) : bool := (65 <=? c) && (c <=? 90).
Definition isAlphaLower (c : Z) : bool := (97 <=? c) && (c <=? 122).
Definition is_digit (c : Z) : bool := (48 <=? c) && (c <=? 57).
Definition is_hex_upper (c : Z) : bool := is_digit c || ((65 <=? c) && (c <=? 70)).
Definition is_hex (c : Z) : bool := is_hex_upper c || ((97 <=? c) && (c <=? 102)).
Definition is_ascii (s : jsstr) : bool := forallb (fun c => c <? 128) s.

(** [String.prototype.trim]'s white space. *)
Definition is_js_space (c : Z) : bool :=
  ((9 <=? c) && (c <=? 13)) || (c =? 32) || (c =? 160) || (c =? 0x1680) ||
  ((0x2000 <=? c) && (c <=? 0x200a)) || (c =? 0x2028) || (c =? 0x2029) || (c =? 0x202f) ||
  (c =? 0x205f) || (c =? 0x3000) || (c =? 0xfeff).

(** ** Case *)

Definition upper_char (c : Z) : Z := if isAlphaLower c then c - 32 else c.
Definition lower_char (c : Z) : Z := if isAlphaUpper c then c + 32 else c.

Definition toUpperCase `{Runtime} (s : jsstr) : jsstr :=
  if is_ascii s then upper_char <$> s else uni_upper s.
Definition toLowerCase `{Runtime} (s : jsstr) : jsstr :=
  if is_ascii s then lower_char <$> s else uni_lower s.

(** ** Searching and cutting *)

(** [s.indexOf(c)] for a one-unit [c]; [None] is [-1]. *)
Fixpoint indexOf (c : Z) (s : jsstr) : option nat :=
  match s with
  | [] => None
  | x :: s => if x =? c then Some 0%nat else S <$> indexOf c s
  end.

(** [s.split(c)] for a one-unit separator: never the empty list. *)
Fixpoint splitOn (c : Z) (s : jsstr) : list jsstr :=
  match s with
  | [] => [[]]
  | x :: s =>
      if x =? c then [] :: splitOn c s
      else match splitOn c s with p :: ps => (x :: p) :: ps | [] => [[x]] end
  end.

Fixpoint startsWith (p s : jsstr) : bool :=
  match p, s with
  | [], _ => true
  | x :: p, y :: s => (x =? y) && startsWith p s
  | _, [] => false
  end.

(** [/^p/i.test(s)] for a lower-case literal [p]. *)
Fixpoint startsWithCI (p s : jsstr) : bool :=
  match p, s with
  | [], _ => true
  | x :: p, y :: s => (x =? lower_char y) && startsWithCI p s
  | _, [] => false
  end.

Definition endsWith (p s : jsstr) : bool := startsWith (rev p) (rev s).

Fixpoint dropWhile (f : Z -> bool) (s : jsstr) : jsstr :=
  match s with [] => [] | c :: s' => if f c then dropWhile f s' else s end.

Fixpoint takeWhile (f : Z -> bool) (s : jsstr) : jsstr :=
  match s with [] => [] | c :: s' => if f c then c :: takeWhile f s' else [] end.

(** [s.replace(/f+$/, '')]. *)
Definition dropEndWhile (f : Z -> bool) (s : jsstr) : jsstr := rev (dropWhile f (rev s)).

Definition trim (s : jsstr) : jsstr := dropEndWhile is_js_space (dropWhile is_js_space s).

(** [s.split(/ +/)] (or any run of [f]): a separator at either end yields an empty part. *)
Fixpoint splitRuns (f : Z -> bool) (fuel : nat) (s : jsstr) : list jsstr :=
  match fuel with
  | O => [s]
  | S fuel =>
      let p := takeWhile (fun c => negb (f c)) s in
      match drop (length p) s with
      | [] => [p]
      | rest => p :: splitRuns f fuel (dropWhile f rest)
      end
  end.

Definition splitSpaces (s : jsstr) : list jsstr := splitRuns (fun c => c =? SP) (length s) s.

(** [parts.join(sep)]. *)
Fixpoint joinWith (sep : jsstr) (parts : list jsstr) : jsstr :=
  match parts with
  | [] => []
  | [p] => p
  | p :: ps => p ++ sep ++ joinWith sep ps
  end.

(** ** Numbers in text *)

Fixpoint dec_aux (fuel : nat) (n : Z) (acc : jsstr) : jsstr :=
  match fuel with
  | O => acc
  | S fuel =>
      let acc := (48 + n mod 10) :: acc in
      if n / 10 =? 0 then acc else dec_aux fuel (n / 10) acc
  end.

(** [String(n)] of a safe integer (at most 2^53 in absolute value). *)
Definition dec (n : Z) : jsstr :=
  if n <? 0 then 45 :: dec_aux (S (Z.to_nat (Z.log2 (- n)))) (- n) []
  else dec_aux (S (Z.to_nat (Z.log2 n))) n [].

(** [String(n)] of any integral number. *)
Definition num_string `{Runtime} (n : Z) : jsstr := if Z.abs n <=? 2 ^ 53 then dec n else big_string n.

(** The value of a string of decimal digits. *)
Definition digits_val (s : jsstr) : Z := fold_left (fun v c => 10 * v + (c - 48)) s 0.

(** Rounding to the nearest binary64 integer, ties to even, as [Number] does with long digit
    strings. *)
Definition to_double (n : Z) : Z :=
  if n <=? 2 ^ 53 then n
  else
    let k := Z.log2 n - 52 in
    let q := n / 2 ^ k in
    let rem := n mod 2 ^ k in
    let half := 2 ^ (k - 1) in
    let q := if (rem >? half) || ((rem =? half) && Z.odd q) then q + 1 else q in
    q * 2 ^ k.

(** [Number(s)] for [s] matching [/^\d+$/]. *)
Definition Number (s : jsstr) : Z := to_double (digits_val s).

Definition hex_digit_val (c : Z) : Z :=
  if is_digit c then c - 48 else if c <=? 70 then c - 55 else c - 87.
Definition hex_val (s : jsstr) : Z := fold_left (fun v c => 16 * v + hex_digit_val c) s 0.

(** One upper-case, resp. lower-case hexadecimal digit. *)
Definition hex_upper_digit (d : Z) : Z := if d <? 10 then 48 + d else 55 + d.
Definition hex_lower_digit (d : Z) : Z := if d <? 10 then 48 + d else 87 + d.

(** ** 32-bit operators *)

(** 32-bit signed wrap-around, as the bitwise operators apply it. *)
Definition int32 (n : Z) : Z := (n + 2 ^ 31) mod 2 ^ 32 - 2 ^ 31.
Definition uint32 (n : Z) : Z := n mod 2 ^ 32.

(** ** Addresses in text *)

(** [s.split(cc)] for a doubled unit, as in [s.split('::')]. *)
Fixpoint splitDouble (c : Z) (s : jsstr) : list jsstr :=
  match s with
  | [] => [[]]
  | x :: s' =>
      match s' with
      | y :: t =>
          if (x =? c) && (y =? c) then [] :: splitDouble c t
          else match splitDouble c s' with p :: ps => (x :: p) :: ps | [] => [[x]] end
      | [] => [[x]]
      end
  end.

(** [parseInt(s, 16)]; [None] is [NaN]. A value too long for a double is out of range for every
    write of it, rounded or not. *)
Definition parseInt16 (s : jsstr) : option Z :=
  let s := dropWhile is_js_space s in
  let '(neg, s) := match s with 45 :: t => (true, t) | 43 :: t => (false, t) | _ => (false, s) end in
  let s := match s with 48 :: x :: t => if (x =? 120) || (x =? 88) then t else s | _ => s end in
  let digits := takeWhile is_hex s in
  if Nat.eqb (length digits) 0 then None
  else Some (if neg then - hex_val digits else hex_val digits).

(** [s.lastIndexOf(c)] of one unit; [None] is [-1]. *)
Fixpoint lastIndexOf (c : Z) (s : jsstr) : option nat :=
  match s with
  | [] => None
  | d :: s => match lastIndexOf c s with Some i => Some (S i) | None => if d =? c then Some 0%nat else None end
  end.

Definition includesChar (c : Z) (s : jsstr) : bool := existsb (Z.eqb c) s.

(** [n.toString(16)] of a natural number. *)
Fixpoint hex_aux (fuel : nat) (n : Z) (acc : jsstr) : jsstr :=
  match fuel with
  | O => acc
  | S fuel =>
      let acc := hex_lower_digit (n mod 16) :: acc in
      if n / 16 =? 0 then acc else hex_aux fuel (n / 16) acc
  end.
Definition toString16 (n : Z) : jsstr := hex_aux (S (Z.to_nat (Z.log2 n))) n [].

(** ** UTF-8 *)

(** [Buffer.byteLength(s, 'utf8')]: a lone surrogate counts as U+FFFD. *)
Definition is_high (c : Z) : bool := (0xd800 <=? c) && (c <=? 0xdbff).
Definition is_low (c : Z) : bool := (0xdc00 <=? c) && (c <=? 0xdfff).

Fixpoint byteLength (s : jsstr) : nat :=
  match s with
  | [] => 0
  | c :: s' =>
      if c <? 0x80 then S (byteLength s')
      else if c <? 0x800 then S (S (byteLength s'))
      else if is_high c then
        match s' with
        | d :: s'' => if is_low d then 4 + byteLength s'' else 3 + byteLength s'
        | [] => 3
        end
      else 3 + byteLength s'
  end.

(** The WHATWG UTF-8 decoder. *)
Record Utf8State := mkUtf8 { u_cp : Z; u_needed : nat; u_lower : Z; u_upper : Z }.

Definition utf8_idle : Utf8State := mkUtf8 0 0 0x80 0xbf.

(** Outside a sequence; [None] in the output is a decoding error. *)
Definition utf8_start (b : Z) : list (option Z) * Utf8State :=
  if b <? 0x80 then ([Some b], utf8_idle)
  else if (0xc2 <=? b) && (b <=? 0xdf) then ([], mkUtf8 (Z.land b 0x1f) 1 0x80 0xbf)
  else if (0xe0 <=? b) && (b <=? 0xef) then
    ([], mkUtf8 (Z.land b 0xf) 2 (if b =? 0xe0 then 0xa0 else 0x80) (if b =? 0xed then 0x9f else 0xbf))
  else if (0xf0 <=? b) && (b <=? 0xf4) then
    ([], mkUtf8 (Z.land b 0x7) 3 (if b =? 0xf0 then 0x90 else 0x80) (if b =? 0xf4 then 0x8f else 0xbf))
  else ([None], utf8_idle).

Definition utf8_step (b : Z) (s : Utf8State) : list (option Z) * Utf8State :=
  match u_needed s with
  | O => utf8_start b
  | S n =>
      if (b <? u_lower s) || (b >? u_upper s) then
        let (o, s) := utf8_start b in (None :: o, s)
      else
        let cp := Z.lor (Z.shiftl (u_cp s) 6) (Z.land b 0x3f) in
        match n with
        | O => ([Some cp], utf8_idle)
        | S _ => ([], mkUtf8 cp n 0x80 0xbf)
        end
  end.

Fixpoint utf8_codepoints (l : bytes) (s : Utf8State) : list (option Z) :=
  match l with
  | [] => match u_needed s with O => [] | S _ => [None] end
  | b :: l => let (o, s) := utf8_step b s in o ++ utf8_codepoints l s
  end.

Definition utf16_of (cp : Z) : jsstr :=
  if cp <? 0x10000 then [cp]
  else [0xd800 + Z.shiftr (cp - 0x10000) 10; 0xdc00 + Z.land (cp - 0x10000) 0x3ff].

(** A leading byte order mark is dropped by both decoders. *)
Definition drop_bom (l : bytes) : bytes :=
  if startsWith [0xef; 0xbb; 0xbf] l then drop 3 l else l.

(** [new TextDecoder('utf-8', { fatal: true }).decode(l)]; [None] is the thrown [TypeError]. *)
Definition utf8_decode_fatal (l : bytes) : option jsstr :=
  (fun cps => concat (utf16_of <$> cps)) <$> mapM id (utf8_codepoints (drop_bom l) utf8_idle).

(** [new TextDecoder('utf-8').decode(l)]. *)
Definition utf8_decode (l : bytes) : jsstr :=
  concat ((fun cp => utf16_of (default 0xfffd cp)) <$> utf8_codepoints (drop_bom l) utf8_idle).

(** The code points of a string, a lone surrogate as U+FFFD. *)
Fixpoint codePoints (s : jsstr) : list Z :=
  match s with
  | [] => []
  | c :: s' =>
      if is_high c then
        match s' with
        | d :: s'' => if is_low d then (0x10000 + Z.shiftl (c - 0xd800) 10 + (d - 0xdc00)) :: codePoints s''
                      else 0xfffd :: codePoints s'
        | [] => [0xfffd]
        end
      else if is_low c then 0xfffd :: codePoints s'
      else c :: codePoints s'
  end.

(** [new TextEncoder().encode] of one code point. *)
Definition utf8_bytes (cp : Z) : bytes :=
  if cp <? 0x80 then [cp]
  else if cp <? 0x800 then [0xc0 + Z.shiftr cp 6; 0x80 + Z.land cp 0x3f]
  else if cp <? 0x10000 then [0xe0 + Z.shiftr cp 12; 0x80 + Z.land (Z.shiftr cp 6) 0x3f; 0x80 + Z.land cp 0x3f]
  else [0xf0 + Z.shiftr cp 18; 0x80 + Z.land (Z.shiftr cp 12) 0x3f; 0x80 + Z.land (Z.shiftr cp 6) 0x3f; 0x80 + Z.land cp 0x3f].

(** ** JSON *)

Definition unicodeEscape (c : Z) : jsstr := js "\u" ++ [hex_lower_digit (Z.shiftr c 12); hex_lower_digit (Z.land (Z.shiftr c 8) 15); hex_lower_digit (Z.land (Z.shiftr c 4) 15); hex_lower_digit (Z.land c 15)].

(** [JSON.stringify] of a string: what is between the quotes, and the whole. *)
Fixpoint jsonBody (s : jsstr) : jsstr :=
  match s with
  | [] => []
  | c :: rest =>
      if c =? 34 then [92; 34] ++ jsonBody rest
      else if c =? 92 then [92; 92] ++ jsonBody rest
      else if c =? 8 then js "\b" ++ jsonBody rest
      else if c =? 12 then js "\f" ++ jsonBody rest
      else if c =? 10 then js "\n" ++ jsonBody rest
      else if c =? 13 then js "\r" ++ jsonBody rest
      else if c =? 9 then js "\t" ++ jsonBody rest
      else if c <? 32 then unicodeEscape c ++ jsonBody rest
      else if is_high c then
        match rest with
        | d :: rest' => if is_low d then c :: d :: jsonBody rest' else unicodeEscape c ++ jsonBody rest
        | [] => unicodeEscape c
        end
      else if is_low c then unicodeEscape c ++ jsonBody rest
      else c :: jsonBody rest
  end.

Definition jsonString (s : jsstr) : jsstr := [34] ++ jsonBody s ++ [34].
Definition jsonOrNull (s : option jsstr) : jsstr := match s with Some s => jsonString s | None => js "null" end.
