(* ===== verification/JsStringFacts.v ===== *)
(** * JsStringFacts: lemmas on the text functions of [JsString] shared by the components *)
From S2P Require Import Prelude.
From S2P Require Import JsString.

(** ** Decimal numbers *)

Lemma is_digit_spec c : is_digit c = true <-> 48 <= c <= 57.
Proof. unfold is_digit. lia. Qed.

Lemma digits_val_app s t v :
  fold_left (fun v c => 10 * v + (c - 48)) (s ++ t) v =
  fold_left (fun v c => 10 * v + (c - 48)) t (fold_left (fun v c => 10 * v + (c - 48)) s v).
Proof. apply fold_left_app. Qed.

(** [dec_aux] writes the digits of [n] in front of [acc]. *)
Lemma dec_aux_spec fuel n acc :
  0 <= n < 2 ^ Z.of_nat fuel -> (0 < fuel)%nat ->
  exists ds, dec_aux fuel n acc = ds ++ acc /\ Forall (fun c => is_digit c = true) ds /\
    ds <> [] /\ digits_val ds = n.
Proof.
  revert n acc. induction fuel as [|fuel IH]; intros n acc Hn Hf; [lia|].
  cbn [dec_aux]. assert (0 <= n mod 10 < 10) by (apply Z.mod_pos_bound; lia).
  assert (Hd : n = 10 * (n / 10) + n mod 10) by (apply Z.div_mod; lia).
  assert (is_digit (48 + n mod 10) = true) by (apply is_digit_spec; lia).
  destruct (n / 10 =? 0) eqn:E.
  - exists [48 + n mod 10]. split_and!; auto. cbn. lia.
  - rewrite Nat2Z.inj_succ, Z.pow_succ_r in Hn by lia.
    destruct (IH (n / 10) ((48 + n mod 10) :: acc)) as (ds & Heq & Hds & Hne & Hv).
    + split; lia.
    + destruct fuel; [|lia]. cbn in Hn. lia.
    + exists (ds ++ [48 + n mod 10]). split_and!.
      * rewrite Heq. by rewrite <- app_assoc.
      * apply Forall_app; auto.
      * by destruct ds.
      * unfold digits_val in *. rewrite digits_val_app, Hv. cbn. lia.
Qed.

Lemma dec_spec n :
  0 <= n -> Forall (fun c => is_digit c = true) (dec n) /\ dec n <> [] /\ digits_val (dec n) = n.
Proof.
  intros Hn. unfold dec. replace (n <? 0) with false by lia.
  destruct (dec_aux_spec (S (Z.to_nat (Z.log2 n))) n []) as (ds & -> & ? & ? & ?); [|lia|].
  - rewrite Nat2Z.inj_succ, Z2Nat.id by apply Z.log2_nonneg.
    destruct (decide (n = 0)) as [->|]; [cbn; lia|]. pose proof (Z.log2_spec n). lia.
  - by rewrite app_nil_r.
Qed.

(** A positive number is written without a leading zero. *)
Lemma dec_aux_head fuel n acc :
  1 <= n < 2 ^ Z.of_nat fuel -> exists c ds, dec_aux fuel n acc = c :: ds ++ acc /\ 49 <= c <= 57 /\ Forall (fun c => is_digit c = true) ds.
Proof.
  revert n acc. induction fuel as [|fuel IH]; intros n acc Hn; [cbn in Hn; lia|]. cbn [dec_aux].
  assert (0 <= n mod 10 < 10) by (apply Z.mod_pos_bound; lia). assert (Hd : n = 10 * (n / 10) + n mod 10) by (apply Z.div_mod; lia).
  destruct (n / 10 =? 0) eqn:E; [exists (48 + n mod 10), []; split_and!; [done|lia..|constructor]|].
  rewrite Nat2Z.inj_succ, Z.pow_succ_r in Hn by lia.
  destruct (IH (n / 10) ((48 + n mod 10) :: acc)) as (c & ds & -> & Hc & Hds); [lia|].
  exists c, (ds ++ [48 + n mod 10]). rewrite <- app_assoc. split_and!; [done|lia..|]. apply Forall_app_2; [done|]. constructor; [apply is_digit_spec; lia|done].
Qed.

Lemma dec_head n : 1 <= n -> exists c ds, dec n = c :: ds /\ 49 <= c <= 57 /\ Forall (fun c => is_digit c = true) ds.
Proof.
  intros Hn. unfold dec. replace (n <? 0) with false by lia.
  destruct (dec_aux_head (S (Z.to_nat (Z.log2 n))) n []) as (c & ds & -> & ? & ?).
  - rewrite Nat2Z.inj_succ, Z2Nat.id by apply Z.log2_nonneg. pose proof (Z.log2_spec n). lia.
  - exists c, ds. by rewrite app_nil_r.
Qed.

(** ** Prefixes *)

Lemma startsWith_spec p s : startsWith p s = true <-> exists t, s = p ++ t.
Proof.
  revert s. induction p as [|x p IH]; intros s; cbn; [naive_solver|].
  destruct s as [|y s]; [naive_solver|].
  rewrite andb_true_iff, Z.eqb_eq, IH. naive_solver.
Qed.

Lemma takeWhile_stop f p c s :
  Forall (fun x => f x = true) p -> f c = false -> takeWhile f (p ++ c :: s) = p.
Proof. intros Hp Hc. induction Hp as [|x p Hx _ IH]; cbn; [by rewrite Hc|]. by rewrite Hx, IH. Qed.

Lemma takeWhile_all f p : Forall (fun x => f x = true) p -> takeWhile f p = p.
Proof. intros Hp. induction Hp as [|x p Hx _ IH]; cbn; [done|]. by rewrite Hx, IH. Qed.

Lemma takeWhile_true f s : Forall (fun x => f x = true) (takeWhile f s).
Proof. induction s as [|c s IH]; cbn; [done|]. destruct (f c) eqn:?; auto. Qed.

Lemma takeWhile_dropWhile f s : takeWhile f s ++ dropWhile f s = s.
Proof. induction s as [|c s IH]; cbn; [done|]. destruct (f c); cbn; congruence. Qed.

(** ** Splitting *)

Lemma splitOn_ne c s : splitOn c s <> [].
Proof. destruct s as [|x s]; cbn; [done|]. repeat case_match; done. Qed.

Lemma splitOn_none c s : c ∉ s -> splitOn c s = [s].
Proof.
  induction s as [|x s IH]; cbn; [done|]. intros [Hx Hs]%not_elem_of_cons.
  rewrite IH by done. by destruct (Z.eqb_spec x c); [congruence|].
Qed.

Lemma splitOn_app c s t : c ∉ s -> splitOn c (s ++ c :: t) = s :: splitOn c t.
Proof.
  induction s as [|x s IH]; cbn; [by rewrite Z.eqb_refl|]. intros [Hx Hs]%not_elem_of_cons.
  rewrite IH by done. by destruct (Z.eqb_spec x c); [congruence|].
Qed.

Lemma splitOn_parts c s : Forall (fun p => c ∉ p) (splitOn c s).
Proof.
  induction s as [|x s IH]; cbn; [repeat constructor; set_solver|].
  destruct (Z.eqb_spec x c); [constructor; [set_solver|done]|].
  destruct IH; repeat constructor; set_solver.
Qed.

Lemma joinWith_cons sep p ps : ps <> [] -> joinWith sep (p :: ps) = p ++ sep ++ joinWith sep ps.
Proof. by destruct ps. Qed.

Lemma joinWith_splitOn c s : joinWith [c] (splitOn c s) = s.
Proof.
  induction s as [|x s IH]; cbn; [done|].
  pose proof (splitOn_ne c s). destruct (Z.eqb_spec x c) as [->|].
  - rewrite joinWith_cons, IH by done. done.
  - destruct (splitOn c s) as [|p ps]; [done|]. by destruct ps; cbn in *; rewrite <- IH.
Qed.

Lemma splitOn_joinWith c ps :
  ps <> [] -> Forall (fun p => c ∉ p) ps -> splitOn c (joinWith [c] ps) = ps.
Proof.
  intros Hne H. induction H as [|p ps Hp Hps IH]; [done|]. destruct (decide (ps = [])) as [->|Hps'].
  - by apply splitOn_none.
  - rewrite joinWith_cons by done. cbn. rewrite splitOn_app by done. by rewrite IH.
Qed.

(** ** [indexOf] *)

Lemma indexOf_Some c s i :
  indexOf c s = Some i -> s = take i s ++ c :: drop (S i) s /\ c ∉ take i s.
Proof.
  revert i. induction s as [|x s IH]; cbn; intros i; [done|].
  destruct (Z.eqb_spec x c) as [->|Hx]; intros E; simplify_eq/=.
  - split; [done|set_solver].
  - destruct (indexOf c s) as [j|]; simplify_eq/=. destruct (IH j eq_refl) as [H1 H2].
    split; [by f_equal|set_solver].
Qed.

Lemma indexOf_None c s : indexOf c s = None <-> c ∉ s.
Proof.
  induction s as [|x s IH]; cbn; [set_solver|].
  destruct (Z.eqb_spec x c) as [->|Hx]; [set_solver|].
  destruct (indexOf c s); cbn; set_solver.
Qed.

Lemma indexOf_first c s t : c ∉ s -> indexOf c (s ++ c :: t) = Some (length s).
Proof.
  induction s as [|x s IH]; cbn; [by rewrite Z.eqb_refl|]. intros [Hx Hs]%not_elem_of_cons.
  rewrite IH by done. by destruct (Z.eqb_spec x c); [congruence|].
Qed.

(** ** UTF-8 of ASCII text *)

Definition ascii_ok (s : jsstr) : Prop := Forall (fun c => 0 <= c < 128) s.

Lemma utf8_codepoints_ascii s : ascii_ok s -> utf8_codepoints s utf8_idle = Some <$> s.
Proof.
  induction 1 as [|c s Hc _ IH]; [done|]. cbn. unfold utf8_step, utf8_start. cbn.
  replace (c <? 128) with true by lia. cbn. by rewrite IH.
Qed.

Lemma drop_bom_ascii s : ascii_ok s -> drop_bom s = s.
Proof.
  intros H. unfold drop_bom. case_match eqn:E; [|done].
  apply startsWith_spec in E as [t ->]. inv H. lia.
Qed.

Lemma concat_utf16_ascii s : ascii_ok s -> concat (utf16_of <$> s) = s.
Proof.
  induction 1 as [|c s Hc _ IH]; [done|]. csimpl. rewrite IH. unfold utf16_of.
  by replace (c <? 65536) with true by lia.
Qed.

Lemma utf8_decode_ascii s : ascii_ok s -> utf8_decode s = s.
Proof.
  intros H. unfold utf8_decode. rewrite drop_bom_ascii, utf8_codepoints_ascii by done.
  rewrite <- list_fmap_compose. by apply concat_utf16_ascii.
Qed.

Lemma utf8_decode_fatal_ascii s : ascii_ok s -> utf8_decode_fatal s = Some s.
Proof.
  intros H. unfold utf8_decode_fatal. rewrite drop_bom_ascii, utf8_codepoints_ascii by done.
  assert (mapM id (Some <$> s) = Some s) as ->.
  { apply mapM_Some. clear H. induction s; cbn; constructor; auto. }
  cbn. by rewrite concat_utf16_ascii.
Qed.

Lemma byteLength_ascii s : ascii_ok s -> byteLength s = length s.
Proof.
  induction 1 as [|c s Hc _ IH]; [done|]. cbn [byteLength].
  replace (c <? 0x80) with true by lia. cbn. by rewrite IH.
Qed.

#[export] Hint Rewrite @byteLength_ascii @utf8_decode_ascii using done : postroom.

(** ** Lengths of decimal texts, trimming, words *)

Lemma dec_aux_length fuel n acc k :
  0 <= n < 10 ^ Z.of_nat (S k) -> (length (dec_aux fuel n acc) <= S k + length acc)%nat.
Proof.
  revert n acc k. induction fuel as [|fuel IH]; intros n acc k Hn; cbn [dec_aux]; [lia|].
  pose proof (Z.mod_pos_bound n 10). pose proof (Z.div_mod n 10).
  destruct (n / 10 =? 0) eqn:E; [cbn; lia|]. destruct k as [|k]; [change (10 ^ Z.of_nat 1) with 10 in Hn; lia|].
  specialize (IH (n / 10) ((48 + n mod 10) :: acc) k). cbn [length] in *.
  rewrite Nat2Z.inj_succ, Z.pow_succ_r in Hn by lia. lia.
Qed.

Lemma dec_length n k : 0 <= n < 10 ^ Z.of_nat (S k) -> (length (dec n) <= S k)%nat.
Proof.
  intros Hn. unfold dec. replace (n <? 0) with false by lia.
  pose proof (dec_aux_length (S (Z.to_nat (Z.log2 n))) n [] k Hn). cbn [length] in *. lia.
Qed.

Lemma Number_dec n : 0 <= n <= 2 ^ 53 -> Number (dec n) = n.
Proof.
  intros Hn. unfold Number. destruct (dec_spec n) as (_ & _ & ->); [lia|]. unfold to_double.
  by replace (n <=? 2 ^ 53) with true by lia.
Qed.

Lemma dropWhile_stop f c s : f c = false -> dropWhile f (c :: s) = c :: s.
Proof. cbn. by intros ->. Qed.

Lemma dropEndWhile_stop f c s : f c = false -> dropEndWhile f (s ++ [c]) = s ++ [c].
Proof.
  intros Hc. unfold dropEndWhile. rewrite rev_unit, dropWhile_stop by done.
  cbn. by rewrite rev_involutive.
Qed.

Lemma dropWhile_head f s :
  dropWhile f s = [] \/ exists c t, dropWhile f s = c :: t /\ f c = false.
Proof. induction s as [|c s IH]; cbn; [by left|]. destruct (f c) eqn:E; eauto. Qed.

Lemma dropWhile_suffix f s : exists p, s = p ++ dropWhile f s /\ Forall (fun c => f c = true) p.
Proof.
  induction s as [|c s [p [Hp Hf]]]; cbn; [by exists []|]. destruct (f c) eqn:E; [|by exists []].
  exists (c :: p). cbn. split; [by f_equal|by constructor].
Qed.

(** A text that neither starts nor ends with a character of [f]. *)
Definition trimmed (f : Z -> bool) (s : jsstr) : Prop :=
  (exists c t, s = c :: t /\ f c = false) /\ (exists t c, s = t ++ [c] /\ f c = false).

Lemma trimmed_id f s : trimmed f s -> dropEndWhile f (dropWhile f s) = s.
Proof.
  intros [(c & t & -> & Hc) (u & d & Hd & Hfd)]. rewrite dropWhile_stop by done. rewrite Hd.
  by apply dropEndWhile_stop.
Qed.

Lemma trim_trimmed f s : dropEndWhile f (dropWhile f s) = [] \/ trimmed f (dropEndWhile f (dropWhile f s)).
Proof.
  destruct (dropWhile_head f s) as [->|(c & t & -> & Hc)]; [by left|]. right.
  unfold dropEndWhile. destruct (dropWhile_suffix f (rev (c :: t))) as (p & Hp & Hf).
  destruct (dropWhile_head f (rev (c :: t))) as [He|(d & u & He & Hd)].
  - exfalso. rewrite He, app_nil_r in Hp. rewrite <- Hp in Hf. rewrite Forall_forall in Hf.
    rewrite (Hf c) in Hc; [done|]. apply list_elem_of_In, in_rev. rewrite rev_involutive. by left.
  - rewrite He in *. split; [|exists (rev u), d; by rewrite rev_unit || done].
    apply (f_equal (@rev _)) in Hp. rewrite rev_involutive, rev_app_distr in Hp.
    destruct (rev (d :: u)) as [|x y] eqn:Er; [by destruct (app_cons_not_nil (rev u) [] d); cbn in Er|].
    cbn in Hp. injection Hp as -> _. by exists x, y.
Qed.

(** Words: non-empty and without the separator [f]. *)
Definition word (f : Z -> bool) (w : jsstr) : Prop := w <> [] /\ Forall (fun c => f c = false) w.

Lemma splitRuns_join f sep ws fuel :
  f sep = true -> ws <> [] -> Forall (word f) ws -> (length (joinWith [sep] ws) <= fuel)%nat ->
  splitRuns f fuel (joinWith [sep] ws) = ws.
Proof.
  intros Hsep Hne Hws. revert fuel. induction Hws as [|w ws [Hw1 Hw2] Hws IH]; intros fuel Hf; [done|].
  assert (Forall (fun c => negb (f c) = true) w) as Hneg
    by (eapply Forall_impl; [done|]; cbn; by intros c ->).
  destruct fuel as [|fuel].
  { destruct (decide (ws = [])) as [->|]; [by destruct w|]. rewrite joinWith_cons in Hf by done.
    rewrite length_app in Hf. destruct w; cbn in Hf; [done|lia]. }
  cbn [splitRuns]. destruct (decide (ws = [])) as [->|Hws'].
  - cbn [joinWith]. rewrite takeWhile_all by done. by rewrite drop_ge by done.
  - rewrite joinWith_cons in * by done. cbn [app] in *.
    rewrite takeWhile_stop by (done || by rewrite Hsep). rewrite drop_app_length. f_equal.
    cbn [dropWhile]. rewrite Hsep. rewrite length_app in Hf. cbn in Hf.
    destruct ws as [|w' ws]; [done|]. inv Hws. destruct H1 as [Hn Hw'].
    assert (dropWhile f (joinWith [sep] (w' :: ws)) = joinWith [sep] (w' :: ws)) as ->.
    { destruct w' as [|c w']; [done|]. inv Hw'. destruct ws; by apply dropWhile_stop. }
    apply IH; [done|]. lia.
Qed.

Lemma digits_val_nonneg s : forallb is_digit s = true -> 0 <= digits_val s.
Proof.
  unfold digits_val. intros Hs%forallb_Forall.
  assert (forall v, 0 <= v -> 0 <= fold_left (fun v c => 10 * v + (c - 48)) s v) as Hall; [|by apply Hall].
  induction Hs as [|c s Hc _ IH]; intros v Hv; [done|]. cbn. apply IH. apply is_digit_spec in Hc. lia.
Qed.

Lemma to_double_nonneg n : 0 <= n -> 0 <= to_double n.
Proof.
  intros Hn. unfold to_double. destruct (n <=? 2 ^ 53) eqn:E; [done|]. cbn zeta.
  assert (0 <= n / 2 ^ (Z.log2 n - 52)) by (apply Z.div_pos; [lia|apply Z.pow_pos_nonneg; [lia|]]; pose proof (Z.log2_le_mono (2^53) n); rewrite Z.log2_pow2 in *; lia).
  destruct (_ || _); apply Z.mul_nonneg_nonneg; try apply Z.pow_nonneg; lia.
Qed.

Lemma Number_nonneg s : forallb is_digit s = true -> 0 <= Number s.
Proof. intros H. unfold Number. by apply to_double_nonneg, digits_val_nonneg. Qed.

(** ** Short digit strings are exact *)

Lemma digits_val_from s v :
  forallb is_digit s = true -> 0 <= v ->
  v * 10 ^ Z.of_nat (length s) <= fold_left (fun v c => 10 * v + (c - 48)) s v < (v + 1) * 10 ^ Z.of_nat (length s).
Proof.
  revert v. induction s as [|c s IH]; intros v; cbn [forallb fold_left length]; [change (10 ^ Z.of_nat 0) with 1; lia|].
  intros [Hc Hs]%andb_true_iff Hv. apply is_digit_spec in Hc. specialize (IH (10 * v + (c - 48)) Hs ltac:(lia)).
  rewrite Nat2Z.inj_succ, Z.pow_succ_r by lia. nia.
Qed.

Lemma digits_val_bound s : forallb is_digit s = true -> 0 <= digits_val s < 10 ^ Z.of_nat (length s).
Proof. intros H. pose proof (digits_val_from s 0 H). unfold digits_val. lia. Qed.

Lemma Number_short s : forallb is_digit s = true -> (length s <= 15)%nat -> Number s = digits_val s.
Proof.
  intros H Hl. pose proof (digits_val_bound s H). assert (10 ^ Z.of_nat (length s) <= 10 ^ 15) by (apply Z.pow_le_mono_r; lia).
  unfold Number, to_double. by replace (digits_val s <=? 2 ^ 53) with true by lia.
Qed.

Lemma digits_val_head c s : 49 <= c <= 57 -> forallb is_digit s = true -> 1 <= digits_val (c :: s).
Proof.
  intros Hc Hs. unfold digits_val. cbn [fold_left]. pose proof (digits_val_from s (10 * 0 + (c - 48)) Hs ltac:(lia)).
  pose proof (Z.pow_pos_nonneg 10 (Z.of_nat (length s))). nia.
Qed.
