(* ===== verification/Base64.v ===== *)
(** * Base64: the base64 conversions of Buffer

    [buf.toString('base64')] and, on well-formed text, [Buffer.from(s, 'base64')]. *)
From S2P Require Import Prelude JsString JsStringFacts.


Definition base64_digit (n : Z) : Z :=
  if n <? 26 then 65 + n else if n <? 52 then 71 + n else if n <? 62 then n - 4 else if n =? 62 then 43 else 47.

Definition base64_value (c : Z) : Z :=
  if isAlphaUpper c then c - 65 else if isAlphaLower c then c - 71 else if is_digit c then c + 4
  else if c =? 43 then 62 else 63.

Definition is_base64 (c : Z) : bool := isAlphaUpper c || isAlphaLower c || is_digit c || (c =? 43) || (c =? 47).

(** [buf.toString('base64')]. *)
Fixpoint base64_encode (b : bytes) : jsstr :=
  match b with
  | [] => []
  | [x] => [base64_digit (x / 4); base64_digit (x mod 4 * 16); 61; 61]
  | [x; y] => [base64_digit (x / 4); base64_digit (x mod 4 * 16 + y / 16); base64_digit (y mod 16 * 4); 61]
  | x :: y :: z :: b =>
      base64_digit (x / 4) :: base64_digit (x mod 4 * 16 + y / 16) :: base64_digit (y mod 16 * 4 + z / 64) ::
      base64_digit (z mod 64) :: base64_encode b
  end.

(** Well-formed base64 text: whole groups, the last one padded. *)
Fixpoint base64_strict (s : jsstr) : option bytes :=
  match s with
  | [] => Some []
  | a :: b :: c :: d :: t =>
      let '(va, vb, vc, vd) := (base64_value a, base64_value b, base64_value c, base64_value d) in
      if is_base64 a && is_base64 b then
        match t with
        | [] =>
            if (c =? 61) && (d =? 61) then Some [va * 4 + vb / 16]
            else if is_base64 c && (d =? 61) then Some [va * 4 + vb / 16; vb mod 16 * 16 + vc / 4]
            else if is_base64 c && is_base64 d then
              Some [va * 4 + vb / 16; vb mod 16 * 16 + vc / 4; vc mod 4 * 64 + vd]
            else None
        | _ =>
            if is_base64 c && is_base64 d then
              rest ← base64_strict t;
              Some (va * 4 + vb / 16 :: vb mod 16 * 16 + vc / 4 :: vc mod 4 * 64 + vd :: rest)
            else None
        end
      else None
  | _ => None
  end.

(** ** They are inverse *)


Lemma base64_digit_ok n : 0 <= n < 64 -> is_base64 (base64_digit n) = true /\ base64_value (base64_digit n) = n.
Proof.
  intros Hn. assert (forallb (fun n => bool_decide (is_base64 (base64_digit n) = true /\ base64_value (base64_digit n) = n))
    (seqZ 0 64) = true) as Hall by (vm_compute; reflexivity).
  rewrite forallb_Forall, Forall_forall in Hall. eapply bool_decide_unpack.
  apply Is_true_true_2, Hall, elem_of_seqZ. lia.
Qed.

Definition base64_text (s : jsstr) : Prop := Forall (fun c => is_base64 c = true \/ c = 61) s.

Lemma base64_encode_ind (P : bytes -> Prop) :
  P [] -> (forall x, P [x]) -> (forall x y, P [x; y]) ->
  (forall x y z b, P b -> P (x :: y :: z :: b)) -> forall b, P b.
Proof.
  intros H0 H1 H2 H3. fix IH 1. intros [|x [|y [|z b]]]; [done|done|done|]. apply H3, IH.
Qed.

Lemma sextets x y z : is_octet x -> is_octet y -> is_octet z ->
  0 <= x / 4 < 64 /\ 0 <= x mod 4 * 16 + y / 16 < 64 /\ 0 <= y mod 16 * 4 + z / 64 < 64 /\ 0 <= z mod 64 < 64 /\
  x / 4 * 4 + (x mod 4 * 16 + y / 16) / 16 = x /\
  (x mod 4 * 16 + y / 16) mod 16 * 16 + (y mod 16 * 4 + z / 64) / 4 = y /\
  (y mod 16 * 4 + z / 64) mod 4 * 64 + z mod 64 = z.
Proof. unfold is_octet. intros. repeat split; Z.to_euclidean_division_equations; lia. Qed.

Lemma base64_roundtrip b : octets_ok b -> base64_strict (base64_encode b) = Some b /\ base64_text (base64_encode b).
Proof.
  revert b. apply (base64_encode_ind (fun b => octets_ok b -> _)).
  - intros _. split; [done|constructor].
  - intros x Hx. rewrite Forall_cons in Hx. destruct Hx as [Hx _].
    destruct (sextets x 0 0) as (A & B & _ & _ & E & _); [done|zlia|zlia|]. rewrite Z.div_0_l, Z.add_0_r in * by lia.
    destruct (base64_digit_ok _ A) as [A1 A2], (base64_digit_ok _ B) as [B1 B2]. cbn -[base64_digit base64_value Z.div Z.modulo Z.mul].
    rewrite A1, B1, A2, B2, E. split; [done|]. repeat (apply Forall_cons; split; [first [by left|by right]|]). constructor.
  - intros x y Hx. rewrite !Forall_cons in Hx. destruct Hx as (Hx & Hy & _).
    destruct (sextets x y 0) as (A & B & C & _ & E & F & _); [done|done|zlia|]. rewrite Z.div_0_l, Z.add_0_r in * by lia.
    destruct (base64_digit_ok _ A) as [A1 A2], (base64_digit_ok _ B) as [B1 B2], (base64_digit_ok _ C) as [C1 C2].
    cbn -[base64_digit base64_value Z.div Z.modulo Z.mul Z.eqb].
    assert (base64_digit (y mod 16 * 4) =? 61 = false) as ->
      by (destruct (Z.eqb_spec (base64_digit (y mod 16 * 4)) 61) as [E'|]; [rewrite E' in C1; done|done]).
    rewrite A1, B1, C1, A2, B2, C2, E, F. split; [done|]. repeat (apply Forall_cons; split; [first [by left|by right]|]). constructor.
  - intros x y z b IH Hx. rewrite !Forall_cons in Hx. destruct Hx as (Hx & Hy & Hz & Hb).
    destruct (sextets x y z) as (A & B & C & D & E & F & G); [done..|]. destruct (IH Hb) as [IH1 IH2].
    destruct (base64_digit_ok _ A) as [A1 A2], (base64_digit_ok _ B) as [B1 B2], (base64_digit_ok _ C) as [C1 C2],
      (base64_digit_ok _ D) as [D1 D2].
    split; [|repeat (constructor; [by left|]); done].
    cbn -[base64_digit base64_value Z.div Z.modulo Z.mul Z.eqb].
    rewrite A1, B1, A2, B2, C2, D2, E, F, G. cbn [andb]. rewrite IH1, C1, D1. cbn -[base64_encode base64_digit Z.eqb Z.div Z.modulo Z.mul].
    destruct (base64_encode b) eqn:Eb; [|done].
    assert (b = []) as -> by (destruct b as [|? [|? [|? ?]]]; done).
    assert (base64_digit (z mod 64) =? 61 = false) as ->
      by (destruct (Z.eqb_spec (base64_digit (z mod 64)) 61) as [E'|]; [rewrite E' in D1; done|done]).
    by rewrite !andb_false_r.
Qed.

Lemma base64_encode_ne b : b <> [] -> base64_encode b <> [].
Proof. by destruct b as [|? [|? [|? ?]]]. Qed.
