(* ===== verification/SmtpReply.v ===== *)
(** * SmtpReply: SMTP replies and their writer, packages/smtp-proto/src/reply.ts *)
From S2P Require Import Prelude.
From S2P Require Import JsString.

(** [enhanced = None] is an absent property; [lines] is as given by the caller. *)
Record SmtpReply := mkReply { code : Z; enhanced : option jsstr; lines : list jsstr }.

#[export] Instance SmtpReply_eq_dec : EqDecision SmtpReply.
Proof. solve_decision. Defined.

Definition reply (c : Z) (e : option jsstr) (ls : list jsstr) : SmtpReply :=
  mkReply c e (match ls with [] => [[]] | _ => ls end).

Definition isValidReplyCode (c : Z) : bool := (c >=? 200) && (c <=? 599).

(** [/^\d{1,3}$/]. *)
Definition digits13 (s : jsstr) : bool :=
  forallb is_digit s && (1 <=? length s)%nat && (length s <=? 3)%nat.

(** [ENHANCED_RE], with the first group as the class digit. *)
Definition enhanced_class (s : jsstr) : option Z :=
  match splitOn DOT s with
  | [[c]; a; b] => if ((c =? 50) || (c =? 52) || (c =? 53)) && digits13 a && digits13 b then Some c else None
  | _ => None
  end.

Definition isValidEnhancedCode (c : Z) (e : jsstr) : bool :=
  match enhanced_class e with
  | Some k => bool_decide ([k] = dec (c / 100))
  | None => false
  end.

Definition is_control (c : Z) : bool := (c <? 0x20) || (c =? 0x7f).

Definition sanitizeReplyText (text : jsstr) : jsstr :=
  (fun c => if is_control c then SP else c) <$> text.

(** The body of the [for] loop of [formatReply] for one line. *)
Definition formatLine (c : Z) (e : option jsstr) (last : bool) (line : jsstr) : jsstr :=
  let text := sanitizeReplyText line in
  let text :=
    match e with
    | None => text
    | Some e => match text with [] => e | _ => e ++ [SP] ++ text end
    end in
  match text with
  | [] => dec c ++ (if last then [] else [45]) ++ CRLF
  | _ => dec c ++ (if last then [SP] else [45]) ++ text ++ CRLF
  end.

Fixpoint formatLines (c : Z) (e : option jsstr) (ls : list jsstr) : jsstr :=
  match ls with
  | [] => []
  | [l] => formatLine c e true l
  | l :: ls => formatLine c e false l ++ formatLines c e ls
  end.

(** [useEnhanced] is [options.enhanced !== false]; [None] is the thrown [TypeError]. *)
Definition formatReply (r : SmtpReply) (useEnhanced : bool) : option jsstr :=
  if negb (isValidReplyCode (code r)) then None
  else
    let e := if useEnhanced then enhanced r else None in
    if match e with Some e => negb (isValidEnhancedCode (code r) e) | None => false end then None
    else
      let ls := match lines r with [] => [[]] | ls => ls end in
      Some (formatLines (code r) e ls).

Definition buildEhloReply (hostname greeting : jsstr) (capabilities : list jsstr) : SmtpReply :=
  let first := match greeting with [] => hostname | _ => hostname ++ [SP] ++ greeting end in
  mkReply 250 None (first :: capabilities).

(** [parseEhloCapabilities]: the [Map] as an association list in which a later keyword replaces an
    earlier one in place. *)
Fixpoint mapSet (k : jsstr) (v : list jsstr) (m : list (jsstr * list jsstr)) :=
  match m with
  | [] => [(k, v)]
  | (k', v') :: m => if decide (k' = k) then (k, v) :: m else (k', v') :: mapSet k v m
  end.

Definition parseEhloCapabilities `{Runtime} (r : SmtpReply) : list (jsstr * list jsstr) :=
  fold_left (fun caps line =>
    match List.filter (fun p => negb (bool_decide (p = []))) (splitRuns is_js_space (length (trim line)) (trim line)) with
    | [] => caps
    | keyword :: params => mapSet (toUpperCase keyword) params caps
    end) (drop 1 (lines r)) [].

(** ** [Replies]: what the protocol layer itself sends *)
Module Replies.

Definition ok := reply 250 (Some (lit "2.0.0")) [lit "OK"].
Definition mailOk := reply 250 (Some (lit "2.1.0")) [lit "Sender OK"].
Definition rcptOk := reply 250 (Some (lit "2.1.5")) [lit "Recipient OK"].
Definition reset := reply 250 (Some (lit "2.0.0")) [lit "Reset"].
Definition bye := reply 221 (Some (lit "2.0.0")) [lit "Bye"].
Definition vrfy := reply 252 (Some (lit "2.5.0"))
  [lit "Cannot VRFY user, but will accept message and attempt delivery"].
Definition help := reply 214 (Some (lit "2.0.0")) [lit "See RFC 5321"].
Definition startData := reply 354 None [lit "End data with <CR><LF>.<CR><LF>"].
Definition startTls := reply 220 (Some (lit "2.0.0")) [lit "Ready to start TLS"].
Definition authOk := reply 235 (Some (lit "2.7.0")) [lit "Authentication successful"].
Definition bareLineEnding := reply 500 (Some (lit "5.5.2")) [lit "Bare LF/CR not allowed"].
Definition lineTooLong := reply 500 (Some (lit "5.5.2")) [lit "Line too long"].
Definition unknownCommand := reply 500 (Some (lit "5.5.1")) [lit "Command not recognized"].
Definition notImplemented := reply 502 (Some (lit "5.5.1")) [lit "Command not implemented"].
Definition ehloFirst := reply 503 (Some (lit "5.5.1")) [lit "Send EHLO first"].
Definition mailFirst := reply 503 (Some (lit "5.5.1")) [lit "Need MAIL command"].
Definition rcptFirst := reply 503 (Some (lit "5.5.1")) [lit "Need RCPT command"].
Definition nestedMail := reply 503 (Some (lit "5.5.1")) [lit "Sender already specified"].
Definition noValidRecipients := reply 554 (Some (lit "5.5.1")) [lit "No valid recipients"].
Definition alreadyTls := reply 503 (Some (lit "5.5.1")) [lit "TLS already active"].
Definition tlsUnavailable := reply 502 (Some (lit "5.5.1")) [lit "STARTTLS not available"].
Definition alreadyAuthenticated := reply 503 (Some (lit "5.5.1")) [lit "Already authenticated"].
Definition authInTransaction := reply 503 (Some (lit "5.5.1"))
  [lit "AUTH not permitted during a mail transaction"].
Definition authUnavailable := reply 502 (Some (lit "5.5.1")) [lit "AUTH not available"].
Definition authNeedsTls := reply 538 (Some (lit "5.7.11"))
  [lit "Encryption required for requested authentication mechanism"].
Definition authMechanism := reply 504 (Some (lit "5.5.4")) [lit "Unrecognized authentication type"].
Definition authCancelled := reply 501 (Some (lit "5.0.0")) [lit "Authentication cancelled"].
Definition authLineInvalid := reply 501 (Some (lit "5.5.2")) [lit "Cannot decode response"].
Definition authTempFail := reply 454 (Some (lit "4.7.0")) [lit "Temporary authentication failure"].
Definition tooManyRecipients := reply 452 (Some (lit "4.5.3")) [lit "Too many recipients"].
Definition messageTooBig := reply 552 (Some (lit "5.3.4"))
  [lit "Message size exceeds fixed maximum message size"].
Definition bareLineEndingInData := reply 550 (Some (lit "5.6.0"))
  [lit "Bare LF/CR not allowed in message data"].
Definition nulInData := reply 550 (Some (lit "5.6.0")) [lit "NUL octets not allowed in message data"].
Definition localError := reply 451 (Some (lit "4.3.0")) [lit "Local error in processing"].
Definition tooManyErrors := reply 421 (Some (lit "4.7.0")) [lit "Too many errors, closing connection"].
Definition idleTimeout := reply 421 (Some (lit "4.4.2")) [lit "Idle timeout, closing connection"].
Definition shuttingDown := reply 421 (Some (lit "4.3.2")) [lit "Service shutting down"].

(** All of them, in the order of the source. *)
Definition all : list SmtpReply :=
  [ok; mailOk; rcptOk; reset; bye; vrfy; help; startData; startTls; authOk; bareLineEnding;
   lineTooLong; unknownCommand; notImplemented; ehloFirst; mailFirst; rcptFirst; nestedMail;
   noValidRecipients; alreadyTls; tlsUnavailable; alreadyAuthenticated; authInTransaction;
   authUnavailable; authNeedsTls; authMechanism; authCancelled; authLineInvalid; authTempFail;
   tooManyRecipients; messageTooBig; bareLineEndingInData; nulInData; localError; tooManyErrors;
   idleTimeout; shuttingDown].

End Replies.
