(* ===== verification/SmtpReplyParser.v ===== *)
(** * SmtpReplyParser: the client-side reply parser, packages/smtp-proto/src/reply-parser.ts

    [push] folds the octets of a chunk through [push_byte]; the thrown [SmtpReplyError] is the
    [inl] of the result and leaves the parser failed. *)
From S2P Require Import Prelude.
From S2P Require Import JsString.
From S2P Require Import SmtpReply.

Inductive SmtpReplyError :=
| BareCR | BareLF | LineTooLong | ShortLine | InvalidCode | InvalidSeparator
| InconsistentCodes | TooManyLines.

Record ReplyParser := mkParser {
  rp_maxLineLength : nat;
  rp_maxLines : nat;
  rp_line : bytes;
  rp_lineLen : nat;
  rp_sawCR : bool;
  rp_failed : option SmtpReplyError;
  rp_code : option Z;
  rp_texts : list jsstr
}.

Definition newReplyParser (maxLineLength maxLines : option nat) : ReplyParser :=
  let m := default 4096%nat maxLineLength in
  mkParser m (default 256%nat maxLines) (replicate m 0) 0 false None None [].

Definition pending (p : ReplyParser) : bool :=
  bool_decide (rp_code p <> None) || (0 <? rp_lineLen p)%nat || rp_sawCR p.

(** The enhanced code at the start of a text: [/^([245]\.\d{1,3}\.\d{1,3})(?: |$)/]. *)
Definition leading_enhanced (t : jsstr) : option jsstr :=
  let word := takeWhile (fun c => negb (c =? SP)) t in
  match enhanced_class word with Some _ => Some word | None => None end.

(** Split an enhanced status code off every line when the first line carries one. *)
Definition finishReply (c : Z) (texts : list jsstr) : SmtpReply :=
  match leading_enhanced (default [] (head texts)) with
  | Some e =>
      if decide (head e = head (dec c)) then
        mkReply c (Some e)
          ((fun t => if decide (t = e) then []
                     else if startsWith (e ++ [SP]) t then drop (S (length e)) t else t) <$> texts)
      else mkReply c None texts
  | None => mkReply c None texts
  end.

Definition fail (e : SmtpReplyError) (p : ReplyParser) : SmtpReplyError * ReplyParser :=
  (e, mkParser (rp_maxLineLength p) (rp_maxLines p) (rp_line p) (rp_lineLen p) (rp_sawCR p)
        (Some e) (rp_code p) (rp_texts p)).

Definition set_code_texts c t p := mkParser (rp_maxLineLength p) (rp_maxLines p) (rp_line p)
  (rp_lineLen p) (rp_sawCR p) (rp_failed p) c t.
Definition set_rp_line l n p := mkParser (rp_maxLineLength p) (rp_maxLines p) l n (rp_sawCR p)
  (rp_failed p) (rp_code p) (rp_texts p).
Definition set_sawCR b p := mkParser (rp_maxLineLength p) (rp_maxLines p) (rp_line p)
  (rp_lineLen p) b (rp_failed p) (rp_code p) (rp_texts p).

Definition endLine (p : ReplyParser) : (SmtpReplyError * ReplyParser) + (option SmtpReply * ReplyParser) :=
  let raw := take (rp_lineLen p) (rp_line p) in
  let p := set_rp_line (rp_line p) 0 p in
  if (length raw <? 3)%nat then inl (fail ShortLine p)
  else
    let d0 := default 0 (raw !! 0%nat) in
    let d1 := default 0 (raw !! 1%nat) in
    let d2 := default 0 (raw !! 2%nat) in
    if (d0 <? 0x32) || (d0 >? 0x35) || (d1 <? 0x30) || (d1 >? 0x35) || (d2 <? 0x30) || (d2 >? 0x39)
    then inl (fail InvalidCode p)
    else
      let c := (d0 - 0x30) * 100 + (d1 - 0x30) * 10 + (d2 - 0x30) in
      match (match raw !! 3%nat with
             | None => Some true
             | Some s => if s =? 0x20 then Some true else if s =? 0x2d then Some false else None
             end) with
      | None => inl (fail InvalidSeparator p)
      | Some last =>
          if match rp_code p with Some c' => negb (c' =? c) | None => false end
          then inl (fail InconsistentCodes p)
          else
            let texts := rp_texts p ++ [if (4 <? length raw)%nat then utf8_decode (drop 4 raw) else []] in
            let p := set_code_texts (Some c) texts p in
            if (rp_maxLines p <? length texts)%nat then inl (fail TooManyLines p)
            else if negb last then inr (None, p)
            else inr (Some (finishReply c texts), set_code_texts None [] p)
      end.

(** One turn of the loop of [push]. *)
Definition push_byte (b : Z) (p : ReplyParser)
    : (SmtpReplyError * ReplyParser) + (option SmtpReply * ReplyParser) :=
  if rp_sawCR p then
    let p := set_sawCR false p in
    if negb (b =? LF) then inl (fail BareCR p) else endLine p
  else if b =? CR then inr (None, set_sawCR true p)
  else if b =? LF then inl (fail BareLF p)
  else if (rp_maxLineLength p <=? rp_lineLen p)%nat then inl (fail LineTooLong p)
  else inr (None, set_rp_line (<[rp_lineLen p := b]> (rp_line p)) (S (rp_lineLen p)) p).

Fixpoint push_loop (chunk : bytes) (p : ReplyParser)
    : (SmtpReplyError * ReplyParser) + (list SmtpReply * ReplyParser) :=
  match chunk with
  | [] => inr ([], p)
  | b :: chunk =>
      match push_byte b p with
      | inl e => inl e
      | inr (r, p) =>
          match push_loop chunk p with
          | inl e => inl e
          | inr (rs, p) => inr (option_list r ++ rs, p)
          end
      end
  end.

Definition rp_push (chunk : bytes) (p : ReplyParser)
    : (SmtpReplyError * ReplyParser) + (list SmtpReply * ReplyParser) :=
  match rp_failed p with
  | Some e => inl (e, p)
  | None => push_loop chunk p
  end.
