(* ===== verification/SmtpReplyProofs.v ===== *)
(** * SmtpReplyProofs: what the reply writer puts on the wire is what the client's parser reads

    The writer ([formatReply]) frames every reply as CRLF lines that carry no control character,
    whatever text a caller interpolates; the parser ([rp_push]) reads any sequence of written replies
    back from any fragmentation, keeps its buffers within their limits on arbitrary input, and stays
    failed once a reply could not be framed. *)
From S2P Require Import Prelude.
From S2P Require Import JsString.
From S2P Require Import JsStringFacts.
From S2P Require Import SmtpReply.
From S2P Require Import SmtpReplyParser.

(** ** The writer *)

Definition printable (s : jsstr) : Prop := Forall (fun c => is_control c = false) s.

Lemma sanitize_printable s : printable (sanitizeReplyText s).
Proof.
  unfold printable, sanitizeReplyText. apply Forall_fmap, Forall_forall. intros c _. cbn.
  by destruct (is_control c) eqn:?.
Qed.

Lemma sanitize_id s : printable s -> sanitizeReplyText s = s.
Proof. induction 1 as [|c s Hc _ IH]; [done|]. cbn. rewrite Hc. by f_equal. Qed.

Lemma digits_printable s : Forall (fun c => is_digit c = true) s -> printable s.
Proof.
  intros H. eapply Forall_impl; [done|]. intros c Hc%is_digit_spec. unfold is_control. lia.
Qed.

(** The text of a wire line after the separator. *)
Definition wire_text (e : option jsstr) (line : jsstr) : jsstr :=
  match e with
  | None => sanitizeReplyText line
  | Some e => match sanitizeReplyText line with [] => e | t => e ++ [SP] ++ t end
  end.

(** A wire line without its CRLF. *)
Definition wire_line (c : Z) (e : option jsstr) (last : bool) (line : jsstr) : jsstr :=
  dec c ++ match wire_text e line with
           | [] => if last then [] else [45]
           | t => (if last then SP else 45) :: t
           end.

Lemma formatLine_wire c e last line : formatLine c e last line = wire_line c e last line ++ CRLF.
Proof.
  unfold formatLine, wire_line, wire_text.
  destruct e as [[|x e]|], (sanitizeReplyText line), last; cbn;
    repeat (rewrite <- ?app_assoc; cbn); done.
Qed.

Fixpoint wire_lines (c : Z) (e : option jsstr) (ls : list jsstr) : list jsstr :=
  match ls with
  | [] => []
  | [l] => [wire_line c e true l]
  | l :: ls => wire_line c e false l :: wire_lines c e ls
  end.

Lemma formatLines_wire c e ls :
  formatLines c e ls = concat ((fun l => l ++ CRLF) <$> wire_lines c e ls).
Proof.
  induction ls as [|l ls IH]; [done|]. cbn [formatLines wire_lines].
  destruct ls as [|l' ls]; rewrite formatLine_wire; [cbn; by rewrite app_nil_r|]. by rewrite IH.
Qed.

Lemma wire_lines_length c e ls : length (wire_lines c e ls) = length ls.
Proof. induction ls as [|l [|l' ls] IH]; [done..|]. cbn in *. by f_equal. Qed.

(** The enhanced code the writer uses. *)
Definition used_enhanced (r : SmtpReply) (useEnhanced : bool) : option jsstr :=
  if useEnhanced then enhanced r else None.

Definition reply_lines (r : SmtpReply) : list jsstr :=
  match lines r with [] => [[]] | ls => ls end.

Definition formattable (r : SmtpReply) (useEnhanced : bool) : bool :=
  isValidReplyCode (code r) &&
  match used_enhanced r useEnhanced with Some e => isValidEnhancedCode (code r) e | None => true end.

Lemma formatReply_cases r u :
  formatReply r u =
  if formattable r u
  then Some (concat ((fun l => l ++ CRLF) <$> wire_lines (code r) (used_enhanced r u) (reply_lines r)))
  else None.
Proof.
  unfold formatReply, formattable. fold (used_enhanced r u). fold (reply_lines r).
  rewrite formatLines_wire. destruct (isValidReplyCode (code r)); cbn; [|done].
  destruct (used_enhanced r u) as [e|]; [|done]. by destruct (isValidEnhancedCode (code r) e).
Qed.

(** ** Enhanced codes *)

Lemma enhanced_class_shape e k :
  enhanced_class e = Some k ->
  exists a b, e = [k; DOT] ++ a ++ [DOT] ++ b /\ (k = 50 \/ k = 52 \/ k = 53) /\
    digits13 a = true /\ digits13 b = true.
Proof.
  unfold enhanced_class. pose proof (joinWith_splitOn DOT e) as Hj.
  destruct (splitOn DOT e) as [|[|c [|]] [|a [|b [|]]]]; try done.
  case_match eqn:Hc; [|done]. intros [= ->]. exists a, b.
  apply andb_true_iff in Hc as [[Hc Ha]%andb_true_iff Hb].
  split_and!; [|zlia|done..]. rewrite <- Hj. done.
Qed.

Lemma digits13_digits a : digits13 a = true -> Forall (fun c => is_digit c = true) a.
Proof.
  unfold digits13. rewrite !andb_true_iff. intros [[H _] _]. by apply forallb_Forall.
Qed.

Lemma enhanced_graphic e k : enhanced_class e = Some k -> Forall (fun c => 46 <= c <= 57) e.
Proof.
  intros (a & b & -> & Hk & Ha%digits13_digits & Hb%digits13_digits)%enhanced_class_shape.
  assert (forall s, Forall (fun c => is_digit c = true) s -> Forall (fun c => 46 <= c <= 57) s) as Himp.
  { intros s H. eapply Forall_impl; [done|]. intros c Hc%is_digit_spec. lia. }
  rewrite !Forall_app. split_and!; auto; repeat constructor; zlia.
Qed.

(** What [isValidEnhancedCode] accepts. *)
Lemma valid_enhanced_spec c e :
  isValidEnhancedCode c e = true -> exists k, enhanced_class e = Some k /\ dec (c / 100) = [k].
Proof.
  unfold isValidEnhancedCode. destruct (enhanced_class e) as [k|]; [|done].
  intros H%bool_decide_eq_true. eauto.
Qed.

Lemma dec_valid_code c :
  isValidReplyCode c = true ->
  dec c = [48 + c / 100; 48 + c / 10 mod 10; 48 + c mod 10] /\ dec (c / 100) = [48 + c / 100].
Proof.
  unfold isValidReplyCode. intros H.
  assert (Hall : forallb (fun c =>
     bool_decide (dec c = [48 + c / 100; 48 + c / 10 mod 10; 48 + c mod 10] /\
                  dec (c / 100) = [48 + c / 100])) (seqZ 200 400) = true) by (vm_compute; reflexivity).
  rewrite forallb_forall in Hall. eapply bool_decide_eq_true_1, Hall, list_elem_of_In, elem_of_seqZ. lia.
Qed.

Lemma dec_digits c : isValidReplyCode c = true -> Forall (fun c => is_digit c = true) (dec c).
Proof. intros H. apply dec_spec. unfold isValidReplyCode in H. lia. Qed.

Lemma wire_line_printable c e last l :
  isValidReplyCode c = true ->
  match e with Some e => isValidEnhancedCode c e | None => true end = true ->
  printable (wire_line c e last l).
Proof.
  intros Hc He. apply Forall_app. split; [by apply digits_printable, dec_digits|].
  assert (printable (wire_text e l)) as Ht.
  { pose proof (sanitize_printable l) as Hs. destruct e as [e|]; [|done]. cbn.
    assert (printable e).
    { apply valid_enhanced_spec in He as (k & He & _). apply enhanced_graphic in He.
      eapply Forall_impl; [done|]. cbn. unfold is_control. lia. }
    destruct (sanitizeReplyText l); [done|]. apply Forall_app; split; [done|]. by constructor. }
  destruct (wire_text e l); destruct last; auto; by constructor.
Qed.

Lemma wire_lines_Forall (P : jsstr -> Prop) c e ls :
  (forall last l, P (wire_line c e last l)) -> Forall P (wire_lines c e ls).
Proof. intros H. induction ls as [|l [|l' ls] IH]; cbn in *; auto. Qed.

(** A text made of CRLF lines, each starting with [prefix] and free of control characters. *)
Definition framed_lines (prefix out : jsstr) (n : nat) : Prop :=
  exists ls, out = concat ((fun l => l ++ CRLF) <$> ls) /\ length ls = n /\
    Forall (fun l => printable l /\ startsWith prefix l = true) ls.

Lemma formatReply_framed r u :
  match formatReply r u with
  | Some out => isValidReplyCode (code r) = true /\ framed_lines (dec (code r)) out (length (reply_lines r))
  | None => formattable r u = false
  end.
Proof.
  rewrite formatReply_cases. destruct (formattable r u) eqn:Hf; [|done].
  apply andb_true_iff in Hf as [Hc He]. split; [done|].
  exists (wire_lines (code r) (used_enhanced r u) (reply_lines r)).
  split_and!; [done|apply wire_lines_length|]. apply wire_lines_Forall. intros last l.
  split; [by apply wire_line_printable|]. apply startsWith_spec. unfold wire_line. eauto.
Qed.

(** whatever text a reply carries, the writer produces exactly one wire line per reply line (one
    for a reply without lines), each ending in CRLF, each starting with the reply code, and with no
    control character (so no CR or LF) inside; it refuses exactly the replies whose code is outside
    200-599 or whose enhanced code does not match. *)
Theorem formatReply_framing (r : SmtpReply) (useEnhanced : bool) :
  match formatReply r useEnhanced with
  | Some out => framed_lines (dec (code r)) out (length (reply_lines r))
  | None => formattable r useEnhanced = false
  end.
Proof. pose proof (formatReply_framed r useEnhanced). destruct (formatReply _ _); naive_solver. Qed.

(** ** The parser: feeding one line *)

(** Between lines: nothing buffered, [c] and [ts] the lines of the reply so far. *)
Record between (m ml : nat) (c : option Z) (ts : list jsstr) (p : ReplyParser) : Prop := {
  bt_max : rp_maxLineLength p = m;
  bt_maxLines : rp_maxLines p = ml;
  bt_buf : length (rp_line p) = m;
  bt_len : rp_lineLen p = 0%nat;
  bt_cr : rp_sawCR p = false;
  bt_ok : rp_failed p = None;
  bt_code : rp_code p = c;
  bt_texts : rp_texts p = ts
}.

Lemma push_loop_app a b p :
  push_loop (a ++ b) p =
  match push_loop a p with
  | inl e => inl e
  | inr (rs, p) =>
      match push_loop b p with inl e => inl e | inr (rs', p) => inr (rs ++ rs', p) end
  end.
Proof.
  revert p. induction a as [|x a IH]; intros p; cbn; [by destruct (push_loop b p) as [|[]]|].
  destruct (push_byte x p) as [|[r p1]]; [done|]. rewrite IH.
  destruct (push_loop a p1) as [|[rs p2]]; [done|].
  destruct (push_loop b p2) as [|[rs' p3]]; [done|]. by rewrite app_assoc.
Qed.

(** Octets other than CR and LF are appended to the line buffer. *)
Lemma push_text l p :
  Forall (fun b => b <> CR /\ b <> LF) l -> rp_sawCR p = false ->
  length (rp_line p) = rp_maxLineLength p -> (rp_lineLen p + length l <= rp_maxLineLength p)%nat ->
  exists buf, push_loop l p = inr ([], set_rp_line buf (rp_lineLen p + length l) p) /\
    length buf = length (rp_line p) /\
    take (rp_lineLen p + length l) buf = take (rp_lineLen p) (rp_line p) ++ l.
Proof.
  intros Hl. revert p. induction Hl as [|b l [Hb1 Hb2] _ IH]; intros p Hcr Hbuf Hlen; cbn [length] in *.
  - exists (rp_line p). rewrite Nat.add_0_r, app_nil_r. by destruct p.
  - cbn [push_loop]. unfold push_byte. rewrite Hcr.
    rewrite (proj2 (Z.eqb_neq b CR)), (proj2 (Z.eqb_neq b LF)) by done.
    rewrite (proj2 (Nat.leb_gt _ _)) by lia.
    destruct (IH (set_rp_line (<[rp_lineLen p:=b]> (rp_line p)) (S (rp_lineLen p)) p))
      as (buf & Heq & Hlb & Htake); cbn in *; rewrite ?length_insert in *; [done|done|lia|].
    exists buf. rewrite Heq, Hlb. replace (rp_lineLen p + S (length l))%nat
      with (S (rp_lineLen p + length l)) by lia.
    split_and!; [done..|]. rewrite Htake, take_insert_snoc by lia. by rewrite <- app_assoc.
Qed.

(** A whole line is handed to [endLine] with exactly that line in the buffer. *)
Lemma push_line m ml c ts l p :
  between m ml c ts p -> Forall (fun b => b <> CR /\ b <> LF) l -> (length l <= m)%nat ->
  exists buf, length buf = m /\ take (length l) buf = l /\
    push_loop (l ++ CRLF) p =
    match endLine (set_rp_line buf (length l) p) with
    | inl e => inl e
    | inr (r, p) => inr (option_list r, p)
    end.
Proof.
  intros [Hm Hml Hbuf Hlen Hcr Hok Hc Hts] Hl Hlm.
  destruct (push_text l p) as (buf & Heq & Hlb & Htake); [done|done|lia|lia|].
  rewrite Hlen in *. cbn in Heq, Htake. exists buf. split_and!; [lia|done|].
  rewrite push_loop_app, Heq. cbn [CRLF push_loop]. unfold push_byte at 1. cbn. rewrite Hcr.
  unfold push_byte. cbn. unfold set_sawCR, set_rp_line; cbn. rewrite Hcr.
  destruct (endLine _) as [|[r p']]; [done|]. cbn. by rewrite app_nil_r.
Qed.

(** ** A written line *)

(** A reply that fits the parser: its code is one the parser knows, its text is ASCII, its lines fit
    the line buffer. *)
Definition parser_code (c : Z) : bool := isValidReplyCode c && (c / 10 mod 10 <=? 5).

Lemma wire_line_raw c e last l :
  parser_code c = true ->
  exists d0 d1 d2, wire_line c e last l = d0 :: d1 :: d2 :: match wire_text e l with
           | [] => if last then [] else [45]
           | t => (if last then SP else 45) :: t
           end /\
    50 <= d0 <= 53 /\ 48 <= d1 <= 53 /\ 48 <= d2 <= 57 /\
    (d0 - 0x30) * 100 + (d1 - 0x30) * 10 + (d2 - 0x30) = c.
Proof.
  unfold parser_code. rewrite andb_true_iff. intros [Hc Ht].
  destruct (dec_valid_code c Hc) as [Hd _]. unfold wire_line. rewrite Hd.
  unfold isValidReplyCode in Hc. do 3 eexists. split; [done|].
  pose proof (Z.div_mod c 10). pose proof (Z.div_mod (c / 10) 10).
  assert (c / 10 / 10 = c / 100) by (rewrite Z.div_div by lia; done).
  pose proof (Z.mod_pos_bound c 10). pose proof (Z.mod_pos_bound (c / 10) 10). lia.
Qed.

Lemma wire_text_ascii c e l :
  ascii_ok l -> match e with Some e => isValidEnhancedCode c e | None => true end = true ->
  ascii_ok (wire_text e l).
Proof.
  intros Hl He. assert (ascii_ok (sanitizeReplyText l)) as Hs.
  { apply Forall_fmap. eapply Forall_impl; [done|]. intros x Hx. cbn in *. destruct (is_control x); zlia. }
  destruct e as [e|]; [|done]. cbn. apply valid_enhanced_spec in He as (k & He%enhanced_graphic & _).
  assert (ascii_ok e) by (eapply Forall_impl; [done|]; cbn; lia).
  destruct (sanitizeReplyText l); [done|]. apply Forall_app; split; [done|].
  constructor; [zlia|done].
Qed.

Lemma endLine_written m ml co ts p buf c e last l :
  between m ml co ts p -> parser_code c = true -> ascii_ok (wire_text e l) ->
  length buf = m -> take (length (wire_line c e last l)) buf = wire_line c e last l ->
  co = None \/ co = Some c -> (length ts < ml)%nat ->
  let texts := ts ++ [wire_text e l] in
  exists p', endLine (set_rp_line buf (length (wire_line c e last l)) p) =
    inr (if last then Some (finishReply c texts) else None, p') /\
    between m ml (if last then None else Some c) (if last then [] else texts) p'.
Proof.
  intros [Hm Hml Hbuf Hlen Hcr Hok Hc Hts] Hpc Ha Hb Htake Hco Hlt texts.
  destruct (wire_line_raw c e last l Hpc) as (d0 & d1 & d2 & Hw & H0 & H1 & H2 & Hcv).
  unfold endLine. cbn [rp_line rp_lineLen set_rp_line]. rewrite Htake, Hw. cbn -[Nat.ltb].
  rewrite (proj2 (Nat.ltb_ge _ 3)) by lia.
  replace ((d0 <? 50) || (d0 >? 53) || (d1 <? 48) || (d1 >? 53) || (d2 <? 48) || (d2 >? 57))
    with false by lia. rewrite Hcv.
  assert (match rp_code p with Some c' => negb (c' =? c) | None => false end = false) as ->.
  { rewrite Hc. destruct Hco as [->| ->]; [done|]. by rewrite Z.eqb_refl. }
  assert (forall t, (rp_maxLines p <? length (rp_texts p ++ [t]))%nat = false) as Hlt'.
  { intros. apply Nat.ltb_ge. rewrite length_app, Hts. cbn. lia. }
  destruct (wire_text e l) as [|x t], last; cbn -[Nat.ltb utf8_decode];
    try rewrite (proj2 (Nat.ltb_lt 4 _)) by lia; rewrite ?utf8_decode_ascii by done;
    cbn -[Nat.ltb utf8_decode]; rewrite Hlt', Hts; eexists; (split; [done|]); by split.
Qed.

(** ** A written reply *)

(** The reply as it looks on the wire: control characters are gone, an empty reply has one line. *)
Definition wire_reply (r : SmtpReply) (useEnhanced : bool) : SmtpReply :=
  mkReply (code r) (used_enhanced r useEnhanced) (sanitizeReplyText <$> reply_lines r).

(** Replies a parser with line limit [m] and line-count limit [ml] can be sent: a code whose second
    digit is at most 5, ASCII text, lines that fit; and, without an enhanced code of its own, a first
    line that does not look like one. *)
Definition readable (m ml : nat) (r : SmtpReply) (useEnhanced : bool) : bool :=
  let e := used_enhanced r useEnhanced in
  let ls := reply_lines r in
  formattable r useEnhanced && (code r / 10 mod 10 <=? 5) &&
  forallb (fun l => forallb (fun c => (0 <=? c) && (c <? 128)) l &&
                    (4 + length (wire_text e l) <=? m)%nat) ls &&
  (length ls <=? ml)%nat &&
  match e with
  | Some _ => true
  | None =>
      match leading_enhanced (sanitizeReplyText (default [] (head ls))) with
      | Some w => negb (bool_decide (head w = head (dec (code r))))
      | None => true
      end
  end.

Lemma wire_line_length c e last l :
  parser_code c = true -> (length (wire_line c e last l) <= 4 + length (wire_text e l))%nat.
Proof.
  intros H. destruct (wire_line_raw c e last l H) as (? & ? & ? & -> & _).
  destruct (wire_text e l), last; cbn; lia.
Qed.

Lemma push_written_line m ml co ts p c e last l :
  between m ml co ts p -> parser_code c = true ->
  match e with Some e => isValidEnhancedCode c e | None => true end = true ->
  ascii_ok l -> (4 + length (wire_text e l) <= m)%nat ->
  co = None \/ co = Some c -> (length ts < ml)%nat ->
  let texts := ts ++ [wire_text e l] in
  exists p', push_loop (wire_line c e last l ++ CRLF) p =
    inr (if last then [finishReply c texts] else [], p') /\
    between m ml (if last then None else Some c) (if last then [] else texts) p'.
Proof.
  intros Hp Hpc He Ha Hlen Hco Hlt texts.
  pose proof (wire_line_length c e last l Hpc).
  destruct (push_line m ml co ts (wire_line c e last l) p) as (buf & Hb & Htake & Heq); [done| |lia|].
  { eapply Forall_impl; [apply wire_line_printable; [|done]|].
    - by apply andb_true_iff in Hpc as [? _].
    - cbn. unfold is_control. intros x Hx. zlia. }
  destruct (endLine_written m ml co ts p buf c e last l) as (p' & He' & Hp'); try done.
  { by eapply wire_text_ascii. }
  exists p'. rewrite Heq, He'. split; [by destruct last|done].
Qed.

Lemma push_written_lines m ml c e ls ts p :
  ls <> [] -> between m ml (if decide (ts = []) then None else Some c) ts p ->
  parser_code c = true ->
  match e with Some e => isValidEnhancedCode c e | None => true end = true ->
  Forall (fun l => ascii_ok l /\ (4 + length (wire_text e l) <= m)%nat) ls ->
  (length ts + length ls <= ml)%nat ->
  exists p', push_loop (concat ((fun l => l ++ CRLF) <$> wire_lines c e ls)) p =
    inr ([finishReply c (ts ++ (wire_text e <$> ls))], p') /\ between m ml None [] p'.
Proof.
  intros Hne Hp Hpc He Hls. revert ts p Hp Hne.
  induction Hls as [|l ls [Ha Hm] Hls IH]; intros ts p Hp Hne Hml; [done|].
  assert (forall last, let texts := ts ++ [wire_text e l] in
    exists p', push_loop (wire_line c e last l ++ CRLF) p =
    inr (if last then [finishReply c texts] else [], p') /\
    between m ml (if last then None else Some c) (if last then [] else texts) p') as Hline.
  { intros last. eapply push_written_line; try done; [case_decide; auto|cbn in Hml; lia]. }
  destruct ls as [|l' ls]; cbn [wire_lines]; csimpl.
  - destruct (Hline true) as (p' & Heq & Hp'). exists p'. rewrite app_nil_r. done.
  - destruct (Hline false) as (p1 & Heq & Hp1).
    destruct (IH (ts ++ [wire_text e l]) p1) as (p' & Heq' & Hp'); [|done|..].
    { rewrite decide_False by (by destruct ts). done. }
    { rewrite length_app. cbn in *. lia. }
    exists p'. rewrite push_loop_app, Heq. cbn [wire_lines] in Heq'. csimpl in *. rewrite Heq'.
    rewrite <- app_assoc. done.
Qed.

(** ** Splitting the enhanced code off again *)

Lemma leading_enhanced_written e k t :
  enhanced_class e = Some k -> leading_enhanced (e ++ SP :: t) = Some e /\ leading_enhanced e = Some e.
Proof.
  intros He. assert (Forall (fun x => negb (x =? SP) = true) e) as Hg.
  { eapply Forall_impl; [by eapply enhanced_graphic|]. cbn. intros x Hx. zlia. }
  unfold leading_enhanced. rewrite takeWhile_stop, takeWhile_all, He by done. done.
Qed.

Lemma enhanced_head e k : enhanced_class e = Some k -> head e = Some k.
Proof. by intros (a & b & -> & _)%enhanced_class_shape. Qed.

Lemma finish_enhanced c e ls :
  isValidReplyCode c = true -> isValidEnhancedCode c e = true -> ls <> [] ->
  finishReply c (wire_text (Some e) <$> ls) = mkReply c (Some e) (sanitizeReplyText <$> ls).
Proof.
  intros Hc (k & Hk & Hd)%valid_enhanced_spec Hne.
  destruct (dec_valid_code c Hc) as [Hdc Hdc']. rewrite Hd in Hdc'. simplify_eq.
  assert (leading_enhanced (default [] (head (wire_text (Some e) <$> ls))) = Some e) as Hlead.
  { destruct ls as [|l ls]; [done|]. cbn.
    destruct (sanitizeReplyText l) as [|x t]; by eapply leading_enhanced_written. }
  unfold finishReply. rewrite Hlead, decide_True by (by rewrite Hdc, (enhanced_head e _ Hk)).
  f_equal. rewrite <- list_fmap_compose. apply list_fmap_ext. intros i l _. cbn.
  destruct (sanitizeReplyText l) as [|x t] eqn:El; [by rewrite decide_True|].
  rewrite decide_False by (intros Heq%(f_equal length); rewrite length_app in Heq; cbn in Heq; lia).
  assert (startsWith (e ++ [SP]) (e ++ SP :: x :: t) = true) as ->.
  { apply startsWith_spec. exists (x :: t). by rewrite <- app_assoc. }
  change (e ++ SP :: x :: t) with (e ++ [SP] ++ x :: t). rewrite app_assoc.
  apply drop_app_length'. rewrite length_app. cbn. lia.
Qed.

Lemma push_reply m ml r u p :
  readable m ml r u = true -> between m ml None [] p ->
  exists out p', formatReply r u = Some out /\ push_loop out p = inr ([wire_reply r u], p') /\
    between m ml None [] p'.
Proof.
  unfold readable. rewrite !andb_true_iff. intros [[[[Hf Ht] Hls] Hml] Hamb] Hp.
  rewrite formatReply_cases, Hf. apply andb_true_iff in Hf as [Hc He].
  assert (reply_lines r <> []) as Hne by (unfold reply_lines; by destruct (lines r)).
  destruct (push_written_lines m ml (code r) (used_enhanced r u) (reply_lines r) [] p)
    as (p' & Heq & Hp'); try done.
  - unfold parser_code. by rewrite Hc, Ht.
  - apply forallb_Forall in Hls. eapply Forall_impl; [done|]. cbn. intros l [Hl Hm]%andb_true_iff.
    split; [|by apply Nat.leb_le].
    apply forallb_Forall in Hl. eapply Forall_impl; [done|]. cbn. lia.
  - cbn. by apply Nat.leb_le.
  - eexists _, p'. split_and!; [done| |done]. rewrite Heq. cbn [app]. do 3 f_equal.
    unfold wire_reply. destruct (used_enhanced r u) as [e|]; [by apply finish_enhanced|].
    unfold finishReply. destruct (reply_lines r) as [|l ls]; [done|]. cbn -[sanitizeReplyText] in Hamb |- *.
    destruct (leading_enhanced (sanitizeReplyText l)) as [w|]; [|done].
    apply negb_true_iff, bool_decide_eq_false in Hamb. by rewrite decide_False.
Qed.

(** Successive calls of [push], as a client loop over the socket's chunks makes them. *)
Fixpoint push_chunks (chunks : list bytes) (p : ReplyParser)
    : (SmtpReplyError * ReplyParser) + (list SmtpReply * ReplyParser) :=
  match chunks with
  | [] => inr ([], p)
  | c :: chunks =>
      match rp_push c p with
      | inl e => inl e
      | inr (rs, p) =>
          match push_chunks chunks p with inl e => inl e | inr (rs', p) => inr (rs ++ rs', p) end
      end
  end.

Lemma fail_failed e p : rp_failed (fail e p).2 = Some (fail e p).1.
Proof. done. Qed.

(** A parser that did not throw has not failed; one that threw has. *)
Lemma endLine_failed p :
  rp_failed p = None ->
  match endLine p with
  | inl (e, p) => rp_failed p = Some e
  | inr (_, p) => rp_failed p = None
  end.
Proof. intros H. unfold endLine. repeat (case_match; simplify_eq/=; try done). Qed.

Lemma push_loop_failed chunk p :
  rp_failed p = None ->
  match push_loop chunk p with
  | inl (e, p) => rp_failed p = Some e
  | inr (_, p) => rp_failed p = None
  end.
Proof.
  revert p. induction chunk as [|b chunk IH]; intros p Hp; [done|]. cbn.
  assert (match push_byte b p with
          | inl (e, p) => rp_failed p = Some e | inr (_, p) => rp_failed p = None end) as Hb.
  { unfold push_byte. destruct (rp_sawCR p).
    - destruct (negb (b =? LF)); [done|]. by apply (endLine_failed (set_sawCR false p)).
    - destruct (b =? CR), (b =? LF), (rp_maxLineLength p <=? rp_lineLen p)%nat; done. }
  destruct (push_byte b p) as [[]|[r p1]]; [done|]. specialize (IH p1 Hb).
  by destruct (push_loop chunk p1) as [[]|[]].
Qed.

Lemma push_chunks_loop chunks p :
  rp_failed p = None -> push_chunks chunks p = push_loop (concat chunks) p.
Proof.
  revert p. induction chunks as [|c chunks IH]; intros p Hp; [done|]. cbn.
  unfold rp_push. rewrite Hp, push_loop_app. pose proof (push_loop_failed c p Hp) as Hc.
  destruct (push_loop c p) as [|[rs p1]]; [done|]. by rewrite IH.
Qed.

(** every sequence of replies the writer formats, however the network fragments it, is read back
    by the client's parser as the same replies in the same order (with the writer's control-character
    replacement applied), and nothing is left pending. *)
Theorem replies_read_back (m ml : nat) (rs : list (SmtpReply * bool)) (chunks : list bytes) (outs : list jsstr) :
  Forall (fun '(r, u) => readable m ml r u = true) rs ->
  mapM (fun '(r, u) => formatReply r u) rs = Some outs ->
  concat chunks = concat outs ->
  exists p', push_chunks chunks (newReplyParser (Some m) (Some ml)) =
    inr ((fun '(r, u) => wire_reply r u) <$> rs, p') /\ pending p' = false.
Proof.
  intros Hrs Houts Hch. rewrite push_chunks_loop, Hch by done.
  assert (between m ml None [] (newReplyParser (Some m) (Some ml))) as Hp.
  { split; try done. cbn. apply length_replicate. }
  clear Hch chunks. revert outs Houts Hp. generalize (newReplyParser (Some m) (Some ml)).
  induction Hrs as [|[r u] rs Hr _ IH]; intros p outs Houts Hp; cbn in Houts.
  - injection Houts as <-. exists p. split; [done|].
    destruct Hp as [_ _ _ Hlen Hcr _ Hc _]. unfold pending. by rewrite Hlen, Hcr, Hc.
  - destruct (push_reply m ml r u p Hr Hp) as (out & p1 & Hout & Hpush & Hp1).
    rewrite Hout in Houts. cbn in Houts. destruct (mapM _ rs) as [outs'|]; [|done]. injection Houts as <-.
    destruct (IH p1 outs' eq_refl Hp1) as (p' & Heq & Hpend).
    exists p'. cbn. by rewrite push_loop_app, Hpush, Heq.
Qed.

(** The replies the server engine itself sends, in their order, cut into single octets. *)
Lemma replies_read_back_witness :
  exists outs p', mapM (fun '(r, u) => formatReply r u) ((fun r => (r, true)) <$> Replies.all) = Some outs /\
    push_chunks ((fun b => [b]) <$> concat outs) (newReplyParser (Some 512%nat) (Some 1%nat)) =
      inr ((fun '(r, u) => wire_reply r u) <$> ((fun r => (r, true)) <$> Replies.all), p') /\
    pending p' = false.
Proof.
  destruct (mapM (fun '(r, u) => formatReply r u) ((fun r => (r, true)) <$> Replies.all)) as [outs|] eqn:E.
  - exists outs.
    destruct (replies_read_back 512 1 ((fun r => (r, true)) <$> Replies.all)
      ((fun b => [b]) <$> concat outs) outs) as (p' & H1 & H2).
    + repeat constructor.
    + exact E.
    + induction (concat outs) as [|b l IH]; [reflexivity|]. csimpl. by rewrite IH.
    + exists p'. split_and!; [reflexivity|exact H1|exact H2].
  - exfalso. vm_compute in E. discriminate E.
Defined.

(** ** The parser on arbitrary input *)

(** The buffers within their limits, and a reply in progress exactly when it has a line. *)
Record parser_wf (p : ReplyParser) : Prop := {
  pw_buf : length (rp_line p) = rp_maxLineLength p;
  pw_len : (rp_lineLen p <= rp_maxLineLength p)%nat;
  pw_texts : (length (rp_texts p) <= rp_maxLines p)%nat;
  pw_code : match rp_code p with
            | Some c => parser_code c = true /\ rp_texts p <> []
            | None => rp_texts p = []
            end;
  pw_ok : rp_failed p = None
}.

(** What every produced reply satisfies: a known code, an enhanced code of the same class, and
    between one and [maxLines] lines. *)
Definition reply_sane (maxLines : nat) (r : SmtpReply) : Prop :=
  parser_code (code r) = true /\ formattable r true = true /\
  (1 <= length (lines r) <= maxLines)%nat.

Lemma parser_code_range c d0 d1 d2 :
  (d0 <? 0x32) || (d0 >? 0x35) || (d1 <? 0x30) || (d1 >? 0x35) || (d2 <? 0x30) || (d2 >? 0x39) = false ->
  c = (d0 - 0x30) * 100 + (d1 - 0x30) * 10 + (d2 - 0x30) -> parser_code c = true.
Proof.
  intros H ->. unfold parser_code, isValidReplyCode.
  assert (((d0 - 48) * 100 + (d1 - 48) * 10 + (d2 - 48)) / 10 mod 10 = d1 - 48) as Hmod.
  { replace (((d0 - 48) * 100 + (d1 - 48) * 10 + (d2 - 48))) with
      (((d0 - 48) * 10 + (d1 - 48)) * 10 + (d2 - 48)) by lia.
    rewrite Z.div_add_l, (Z.div_small (d2 - 48)) by lia.
    replace ((d0 - 48) * 10 + (d1 - 48) + 0) with ((d1 - 48) + (d0 - 48) * 10) by lia.
    rewrite Z.mod_add by lia. apply Z.mod_small. lia. }
  rewrite Hmod. lia.
Qed.

Lemma finishReply_sane ml c texts :
  parser_code c = true -> (1 <= length texts <= ml)%nat -> reply_sane ml (finishReply c texts).
Proof.
  intros Hc Hl. pose proof Hc as [Hv _]%andb_true_iff. destruct (dec_valid_code c Hv) as [Hd Hd'].
  unfold reply_sane, formattable, finishReply.
  destruct (leading_enhanced (default [] (head texts))) as [e|] eqn:He; cbn; [|by rewrite Hv].
  case_decide as Hh; cbn; rewrite Hv; [|done]. rewrite length_fmap. split_and!; [done| |lia..].
  unfold leading_enhanced in He. case_match eqn:Hk; simplify_eq.
  rewrite (enhanced_head _ _ Hk), Hd in Hh. cbn in Hh. simplify_eq.
  unfold isValidEnhancedCode. cbn. rewrite Hk, Hd'. by apply bool_decide_eq_true.
Qed.

Lemma endLine_wf p :
  parser_wf p -> rp_sawCR p = false ->
  match endLine p with
  | inl (e, p) => rp_failed p = Some e
  | inr (r, p') => parser_wf p' /\ rp_maxLines p' = rp_maxLines p /\
      Forall (reply_sane (rp_maxLines p)) (option_list r)
  end.
Proof.
  intros [Hb Hlen Ht Hc Hok] Hcr. unfold endLine.
  destruct (_ <? 3)%nat; [done|]. cbn zeta. set (raw := take _ _).
  destruct (_ || _) eqn:Hd; [done|]. pose proof (parser_code_range _ _ _ _ Hd eq_refl) as Hcode.
  set (c := _ + _) in Hcode |- *. clearbody c.
  destruct (match raw !! 3%nat with None => Some true | Some s => _ end) as [last|]; [|done].
  destruct (match rp_code _ with Some _ => _ | None => _ end); [done|].
  set (t := if (4 <? length raw)%nat then _ else _). clearbody t. cbn [rp_texts rp_maxLines set_code_texts set_rp_line].
  destruct (_ <? _)%nat eqn:Hm; [done|]. apply Nat.ltb_ge in Hm. rewrite length_app in Hm. cbn in Hm.
  destruct last; cbn; (split_and!; [split; cbn; try done; try lia|done|..]).
  - constructor; [|done]. apply finishReply_sane; [done|]. rewrite length_app. cbn. lia.
  - rewrite length_app. cbn. lia.
  - split; [done|]. by destruct (rp_texts p).
  - constructor.
Qed.

Lemma push_byte_wf b p :
  parser_wf p ->
  match push_byte b p with
  | inl (e, p) => rp_failed p = Some e
  | inr (r, p') => parser_wf p' /\ rp_maxLines p' = rp_maxLines p /\
      Forall (reply_sane (rp_maxLines p)) (option_list r)
  end.
Proof.
  intros Hp. unfold push_byte. destruct (rp_sawCR p) eqn:Hcr.
  - destruct (negb (b =? LF)); [done|]. apply (endLine_wf (set_sawCR false p)); [|done].
    by destruct Hp; split.
  - destruct Hp as [Hb Hlen Ht Hc Hok]. destruct (b =? CR); [by split_and!; [split|..]|].
    destruct (b =? LF); [done|]. destruct (_ <=? _)%nat eqn:Hm; [done|]. apply Nat.leb_gt in Hm.
    split_and!; [split|..]; cbn; rewrite ?length_insert; done || lia.
Qed.

Lemma push_loop_wf chunk p :
  parser_wf p ->
  match push_loop chunk p with
  | inl (e, p) => rp_failed p = Some e
  | inr (rs, p') => parser_wf p' /\ rp_maxLines p' = rp_maxLines p /\
      Forall (reply_sane (rp_maxLines p)) rs
  end.
Proof.
  revert p. induction chunk as [|b chunk IH]; intros p Hp; [done|]. cbn.
  pose proof (push_byte_wf b p Hp) as Hb. destruct (push_byte b p) as [[e p1]|[r p1]]; [done|].
  destruct Hb as (Hp1 & Hm & Hr). specialize (IH p1 Hp1).
  destruct (push_loop chunk p1) as [[e p2]|[rs p2]]; [done|]. destruct IH as (Hp2 & Hm2 & Hrs).
  split_and!; [done|congruence|]. apply Forall_app. split; [done|]. by rewrite <- Hm.
Qed.

(** On any input whatever, a parser in a legal state either throws, and then throws the same
    error for every later chunk without producing a reply, or stays within its buffers and limits;
    every reply it produces has a code it knows, between one and [maxLines] lines, and can itself be
    written again by [formatReply]. *)
Theorem parser_robust (chunk : bytes) (p : ReplyParser) :
  parser_wf p ->
  match rp_push chunk p with
  | inl (e, p') => forall chunk', rp_push chunk' p' = inl (e, p')
  | inr (rs, p') => parser_wf p' /\ Forall (reply_sane (rp_maxLines p)) rs
  end.
Proof.
  intros Hp. unfold rp_push at 1. rewrite (pw_ok p Hp).
  pose proof (push_loop_wf chunk p Hp) as H. destruct (push_loop chunk p) as [[e p']|[rs p']].
  - intros chunk'. unfold rp_push. by rewrite H.
  - naive_solver.
Qed.

Lemma newReplyParser_wf m ml : parser_wf (newReplyParser m ml).
Proof. split; cbn; [apply length_replicate|lia..|done|done]. Qed.

Lemma parser_robust_witness :
  (exists p', rp_push (lit "250 OK" ++ [LF]) (newReplyParser None None) = inl (BareLF, p') /\
    forall chunk', rp_push chunk' p' = inl (BareLF, p')) /\
  parser_wf (newReplyParser None None).
Proof.
  split; [|apply newReplyParser_wf].
  pose proof (parser_robust (lit "250 OK" ++ [LF]) (newReplyParser None None) (newReplyParser_wf _ _)) as H.
  destruct (rp_push (lit "250 OK" ++ [LF]) (newReplyParser None None)) as [[e p']|[rs p']] eqn:E.
  - assert (e = BareLF) as -> by (vm_compute in E; congruence). exists p'. auto.
  - exfalso. vm_compute in E. discriminate E.
Defined.
