(* ===== verification/SmtpAddress.v ===== *)
(** * SmtpAddress: paths, mailboxes and domains, packages/smtp-proto/src/address.ts

    A position in a string is represented by the rest of the string from there; [parsePath] turns
    the rest back into the index [end] that the source returns. *)
From S2P Require Import Prelude.
From S2P Require Import JsString.

Record Mailbox := mkMailbox { localPart : jsstr; domain : jsstr }.

#[export] Instance Mailbox_eq_dec : EqDecision Mailbox.
Proof. solve_decision. Defined.

(** [ReversePath] has the first two alternatives, [ForwardPath] the last two. *)
Inductive Path := PNull | PMailbox (m : Mailbox) | PPostmaster.
Inductive PathKind := Reverse | Forward.

#[export] Instance Path_eq_dec : EqDecision Path.
Proof. solve_decision. Defined.
#[export] Instance PathKind_eq_dec : EqDecision PathKind.
Proof. solve_decision. Defined.

Definition MAX_LOCAL_PART_OCTETS : nat := 64.
Definition MAX_DOMAIN_OCTETS : nat := 255.
Definition MAX_PATH_OCTETS : nat := 256.

Definition LT_CH : Z := 0x3c.
Definition GT_CH : Z := 0x3e.
Definition AT_CH : Z := 0x40.
Definition DQUOTE : Z := 0x22.
Definition BACKSLASH : Z := 0x5c.
Definition COLON : Z := 0x3a.
Definition COMMA : Z := 0x2c.
Definition HYPHEN : Z := 0x2d.
Definition PLUS : Z := 0x2b.
Definition LBRACKET : Z := 0x5b.
Definition RBRACKET : Z := 0x5d.

Definition ATEXT : list Z := lit "!#$%&'*+-/=?^_`{|}~".

Definition isAlpha (c : Z) : bool := ((c >=? 0x41) && (c <=? 0x5a)) || ((c >=? 0x61) && (c <=? 0x7a)).
Definition isDigit (c : Z) : bool := (c >=? 0x30) && (c <=? 0x39).
Definition isAtext (c : Z) : bool :=
  isAlpha c || isDigit c || bool_decide (c ∈ ATEXT) || (c >=? 0x80).
Definition isQtextSMTP (c : Z) : bool :=
  (c =? 32) || (c =? 33) || ((c >=? 35) && (c <=? 91)) || ((c >=? 93) && (c <=? 126)) || (c >=? 0x80).

Definition octets (s : jsstr) : nat := byteLength s.

Definition hasNonAscii (s : jsstr) : bool := existsb (fun c => c >=? 0x80) s.

Fixpoint isDotString_loop (s : jsstr) (prevDot : bool) : bool :=
  match s with
  | [] => negb prevDot
  | c :: s =>
      if c =? DOT then if prevDot then false else isDotString_loop s true
      else if isAtext c then isDotString_loop s false
      else false
  end.

Definition isDotString (s : jsstr) : bool :=
  match s with [] => false | _ => isDotString_loop s true end.

Definition isLabelChar (c : Z) : bool := isAlpha c || isDigit c || (c =? HYPHEN) || (c >=? 0x80).

Definition isLabel (label : jsstr) : bool :=
  if bool_decide (label = []) || (63 <? octets label)%nat then false
  else if startsWith [HYPHEN] label || endsWith [HYPHEN] label then false
  else forallb isLabelChar label.

Definition isDomain (s : jsstr) : bool :=
  if bool_decide (s = []) || (MAX_DOMAIN_OCTETS <? octets s)%nat then false
  else forallb isLabel (splitOn DOT s).

(** [/^(?:0|[1-9]\d{0,2})$/.test(p) && Number(p) <= 255]. *)
Definition isIPv4_part (p : jsstr) : bool :=
  match p with
  | [] => false
  | c :: ds =>
      ((c =? 48) && bool_decide (ds = []) ||
       ((49 <=? c) && (c <=? 57) && forallb is_digit ds && (length ds <=? 2)%nat)) &&
      (digits_val p <=? 255)
  end.

Definition isIPv4 (s : jsstr) : bool :=
  let parts := splitOn DOT s in
  (length parts =? 4)%nat && forallb isIPv4_part parts.

(** [s.slice(1, -1)]. *)
Definition slice_inner (s : jsstr) : jsstr := take (length s - 2) (drop 1 s).

(** [/^IPv6:/i.test(s)]. *)
Definition has_ipv6_tag (s : jsstr) : bool := bool_decide (upper_char <$> take 5 s = lit "IPV6:").

Definition isAddressLiteral `{Runtime} (s : jsstr) : bool :=
  if negb (startsWith [LBRACKET] s) || negb (endsWith [RBRACKET] s) then false
  else
    let inner := slice_inner s in
    if has_ipv6_tag inner then isIPv6 (drop 5 inner)
    else isIPv4 inner.

Definition isDomainOrLiteral `{Runtime} (s : jsstr) : bool :=
  if startsWith [LBRACKET] s then isAddressLiteral s else isDomain s.

(** The replacement of a backslash or a double quote by its quoted pair. *)
Definition escape_char (c : Z) : jsstr :=
  if (c =? BACKSLASH) || (c =? DQUOTE) then [BACKSLASH; c] else [c].

Definition formatLocalPart (local : jsstr) : jsstr :=
  if isDotString local then local
  else [DQUOTE] ++ concat (escape_char <$> local) ++ [DQUOTE].

Definition formatMailbox (m : Mailbox) : jsstr :=
  formatLocalPart (localPart m) ++ [AT_CH] ++ domain m.

(** [formatReversePath] and [formatForwardPath]. *)
Definition formatPath (p : Path) : jsstr :=
  match p with
  | PNull => lit "<>"
  | PPostmaster => lit "<Postmaster>"
  | PMailbox m => [LT_CH] ++ formatMailbox m ++ [GT_CH]
  end.

Inductive PathParse :=
| PathOk (path : Path) (end_ : nat) (nonAscii : bool)
| PathErr (reason : jsstr).

(** The quoted local part after its opening quote: the content and what follows the closing quote. *)
Fixpoint parseQuoted (s : jsstr) : jsstr + (jsstr * jsstr) :=
  match s with
  | [] => inl (lit "unterminated quoted local part")
  | c :: s' =>
      if c =? DQUOTE then inr ([], s')
      else if c =? BACKSLASH then
        match s' with
        | n :: s'' =>
            if (n >=? 32) && (n <=? 126)
            then match parseQuoted s'' with
                 | inl e => inl e
                 | inr (buf, rest) => inr (n :: buf, rest)
                 end
            else inl (lit "invalid quoted-pair")
        | [] => inl (lit "invalid quoted-pair")
        end
      else if negb (isQtextSMTP c) then inl (lit "invalid character in quoted local part")
      else match parseQuoted s' with
           | inl e => inl e
           | inr (buf, rest) => inr (c :: buf, rest)
           end
  end.

(** The source route [@dom,@dom:], if there is one. *)
Definition parseRoute `{Runtime} (s : jsstr) : jsstr + jsstr :=
  if startsWith [AT_CH] s then
    match indexOf COLON s with
    | None => inl (lit "unterminated source route")
    | Some colon =>
        if negb (forallb (fun h => startsWith [AT_CH] h && isDomainOrLiteral (drop 1 h))
                   (splitOn COMMA (take colon s)))
        then inl (lit "invalid source route")
        else inr (drop (S colon) s)
    end
  else inr s.

(** The local part: [inr (inl rest)] is the bare [<Postmaster>], [rest] following its [>]. *)
Definition parseLocal `{Runtime} (kind : PathKind) (s : jsstr) : jsstr + (jsstr + (jsstr * jsstr)) :=
  if startsWith [DQUOTE] s then
    match parseQuoted (drop 1 s) with
    | inl e => inl e
    | inr (local, rest) => inr (inr (local, rest))
    end
  else
    let local := takeWhile (fun c => negb (c =? AT_CH) && negb (c =? GT_CH)) s in
    let rest := drop (length local) s in
    if bool_decide (kind = Forward) && startsWith [GT_CH] rest &&
       bool_decide (toLowerCase local = lit "postmaster")
    then inr (inl (drop 1 rest))
    else if negb (isDotString local) then inl (lit "invalid local part")
    else inr (inr (local, rest)).

(** From the [@] on. *)
Definition parseAtDomain `{Runtime} (local rest : jsstr) : jsstr + (Mailbox * jsstr) :=
  if (MAX_LOCAL_PART_OCTETS <? octets local)%nat then inl (lit "local part too long")
  else if negb (startsWith [AT_CH] rest) then inl (lit "missing @domain")
  else
    let rest := drop 1 rest in
    match indexOf GT_CH rest with
    | None => inl (lit "path must end with >")
    | Some close =>
        let domain := take close rest in
        if negb (isDomainOrLiteral domain) then inl (lit "invalid domain")
        else
          let mailbox := mkMailbox local domain in
          if (MAX_PATH_OCTETS <? octets (formatMailbox mailbox) + 2)%nat then inl (lit "path too long")
          else inr (mailbox, drop (S close) rest)
    end.

Definition parsePath `{Runtime} (s : jsstr) (start : nat) (kind : PathKind) : PathParse :=
  let endAt (rest : jsstr) := (length s - length rest)%nat in
  let at_ := drop start s in
  if negb (startsWith [LT_CH] at_) then PathErr (lit "path must start with <")
  else
    let at_ := drop 1 at_ in
    if startsWith [GT_CH] at_ then
      if decide (kind = Forward) then PathErr (lit "null path not allowed here")
      else PathOk PNull (endAt (drop 1 at_)) false
    else
      match parseRoute at_ with
      | inl reason => PathErr reason
      | inr at_ =>
          match parseLocal kind at_ with
          | inl reason => PathErr reason
          | inr (inl rest) => PathOk PPostmaster (endAt rest) false
          | inr (inr (local, rest)) =>
              match parseAtDomain local rest with
              | inl reason => PathErr reason
              | inr (mailbox, rest) =>
                  PathOk (PMailbox mailbox) (endAt rest)
                    (hasNonAscii local || hasNonAscii (domain mailbox))
              end
          end
      end.

(** ** xtext (RFC 3461 section 4) *)

Fixpoint decodeXtext (s : jsstr) : option jsstr :=
  match s with
  | [] => Some []
  | c :: s' =>
      if c =? PLUS then
        match s' with
        | h :: l :: s'' =>
            if is_hex_upper h && is_hex_upper l
            then cons (hex_val [h; l]) <$> decodeXtext s''
            else None
        | _ => None
        end
      else if (c >=? 33) && (c <=? 126) && negb (c =? 0x3d) then cons c <$> decodeXtext s'
      else None
  end.

Definition encodeXtext_char (c : Z) : option jsstr :=
  if (c >=? 33) && (c <=? 126) && negb (c =? PLUS) && negb (c =? 0x3d) then Some [c]
  else if c <=? 0xff then Some [PLUS; hex_upper_digit (c / 16); hex_upper_digit (c mod 16)]
  else None.

(** [None] is the thrown [TypeError]. *)
Fixpoint encodeXtext (s : jsstr) : option jsstr :=
  match s with
  | [] => Some []
  | c :: s =>
      match encodeXtext_char c, encodeXtext s with
      | Some e, Some r => Some (e ++ r)
      | _, _ => None
      end
  end.
