(* ===== verification/SmtpAddressProofs.v ===== *)
(** * SmtpAddressProofs: paths survive printing, carry no control characters, and xtext round-trips *)
From S2P Require Import Prelude.
From S2P Require Import JsString.
From S2P Require Import JsStringFacts.
From S2P Require Import SmtpReply.
From S2P Require Import SmtpAddress.

(** ** Character facts *)

Ltac zchars := unfold isLabelChar, AT_CH, GT_CH, LT_CH, DQUOTE, BACKSLASH, COLON, COMMA, HYPHEN, PLUS, LBRACKET,
  RBRACKET, isAlpha, isDigit, is_digit, is_control, isQtextSMTP in *; zlia.

Lemma atext_range c : isAtext c = true -> 33 <= c /\ c <> 127 /\ c <> AT_CH /\ c <> GT_CH /\ c <> DQUOTE /\ c <> LT_CH.
Proof.
  unfold isAtext. rewrite !orb_true_iff. intros [[[H|H]|H]|H]; try (split_and!; zchars).
  apply bool_decide_eq_true in H. unfold ATEXT in H.
  assert (Forall (fun c => (33 <=? c) && negb (c =? 127) && negb (c =? AT_CH) && negb (c =? GT_CH) &&
    negb (c =? DQUOTE) && negb (c =? LT_CH) = true) (lit "!#$%&'*+-/=?^_`{|}~")) as Hall by repeat constructor.
  rewrite Forall_forall in Hall. specialize (Hall c H). cbn in Hall. lia.
Qed.

(** What a local part may hold: no control character. *)
Definition local_char (c : Z) : Prop := 32 <= c <= 126 \/ 0x80 <= c.

Lemma isDotString_loop_chars s d :
  isDotString_loop s d = true -> Forall (fun c => c = DOT \/ isAtext c = true) s.
Proof.
  revert d. induction s as [|c s IH]; intros d; cbn; [constructor|].
  destruct (Z.eqb_spec c DOT) as [->|]; [destruct d; [done|]|]; [intros ?%IH; auto|].
  destruct (isAtext c) eqn:Hc; [|done]. intros ?%IH. auto.
Qed.

Lemma isDotString_chars s :
  isDotString s = true ->
  s <> [] /\ Forall (fun c => 33 <= c /\ c <> 127 /\ c <> AT_CH /\ c <> GT_CH /\ c <> DQUOTE) s.
Proof.
  intros H. split; [by destruct s|]. destruct s as [|c s]; [done|].
  apply isDotString_loop_chars in H. eapply Forall_impl; [done|]. cbn.
  intros x [->|Hx]; [split_and!; zchars|]. apply atext_range in Hx. naive_solver.
Qed.

(** ** Local parts *)

Lemma parseQuoted_spec s buf rest :
  parseQuoted s = inr (buf, rest) ->
  Forall local_char buf /\ exists pre, s = pre ++ rest.
Proof.
  remember (length s) as n eqn:Hn. revert s buf rest Hn.
  induction n as [n IH] using lt_wf_ind. intros [|c s] buf rest -> H; [done|]. cbn in H.
  destruct (c =? DQUOTE); [simplify_eq; split; [constructor|]; by eexists [c]|].
  destruct (c =? BACKSLASH).
  - destruct s as [|x s]; [done|]. destruct (_ && _) eqn:Hx; [|done].
    destruct (parseQuoted s) as [|[buf' rest']] eqn:E; [done|]. injection H as <- <-.
    destruct (IH (length s) ltac:(cbn; lia) s _ _ eq_refl E) as [Hb [pre ->]].
    split; [constructor; [left; lia|done]|]. by exists (c :: x :: pre).
  - destruct (isQtextSMTP c) eqn:Hc; [|done]. cbn in H.
    destruct (parseQuoted s) as [|[buf' rest']] eqn:E; [done|]. injection H as <- <-.
    destruct (IH (length s) ltac:(cbn; lia) s _ _ eq_refl E) as [Hb [pre ->]].
    split; [|by exists (c :: pre)]. constructor; [unfold local_char; zchars|done].
Qed.

Lemma parseQuoted_escape buf rest :
  Forall local_char buf ->
  parseQuoted (concat (escape_char <$> buf) ++ DQUOTE :: rest) = inr (buf, rest).
Proof.
  unfold local_char. induction 1 as [|c buf Hc _ IH]; [done|]. csimpl. rewrite <- app_assoc.
  unfold escape_char at 1. destruct ((c =? BACKSLASH) || (c =? DQUOTE)) eqn:E; cbn [app parseQuoted].
  - replace (BACKSLASH =? DQUOTE) with false by done. rewrite Z.eqb_refl.
    replace ((c >=? 32) && (c <=? 126)) with true by zchars. by rewrite IH.
  - apply orb_false_iff in E as [E1 E2]. rewrite E1, E2.
    replace (isQtextSMTP c) with true by zchars. cbn. by rewrite IH.
Qed.

(** A local part as [parsePath] delivers it. *)
Definition local_ok (l : jsstr) : Prop := isDotString l = true \/ Forall local_char l.

Lemma local_ok_printable l : local_ok l -> Forall (fun c => is_control c = false) (formatLocalPart l).
Proof.
  intros Hl. unfold formatLocalPart. destruct (isDotString l) eqn:Hd.
  - eapply Forall_impl; [by apply isDotString_chars|]. cbn. intros c Hc. zchars.
  - destruct Hl as [|Hl]; [congruence|]. apply Forall_app; split; [by repeat constructor|].
    apply Forall_app; split; [|by repeat constructor]. apply Forall_concat, Forall_fmap.
    eapply Forall_impl; [done|]. unfold local_char. intros c Hc. cbn. unfold escape_char.
    destruct (_ || _); repeat constructor; zchars.
Qed.

Section WithRuntime.
Context `{Runtime}.

Lemma parseLocal_spec kind s local rest :
  parseLocal kind s = inr (inr (local, rest)) -> local_ok local /\ exists pre, s = pre ++ rest.
Proof.
  unfold parseLocal. destruct (startsWith [DQUOTE] s) eqn:Hq.
  - apply startsWith_spec in Hq as [t ->]. change (drop 1 ([DQUOTE] ++ t)) with t.
    destruct (parseQuoted t) as [|[buf r]] eqn:E; [done|]. intros [= -> ->].
    destruct (parseQuoted_spec _ _ _ E) as [Hb [pre ->]]. split; [by right|]. by exists (DQUOTE :: pre).
  - destruct (_ && _ && _); [done|]. destruct (isDotString _) eqn:Hd; [|done]. intros [= <- <-].
    split; [by left|]. eexists. symmetry. apply take_drop.
Qed.

Lemma parseLocal_postmaster kind s rest :
  parseLocal kind s = inr (inl rest) -> kind = Forward /\ exists pre, s = pre ++ GT_CH :: rest.
Proof.
  unfold parseLocal. destruct (startsWith [DQUOTE] s).
  { by destruct (parseQuoted _) as [|[]]. }
  set (local := takeWhile _ s). destruct (_ && _ && _) eqn:Hp; [|by destruct (isDotString _)].
  intros [= <-]. rewrite !andb_true_iff in Hp. destruct Hp as [[Hk [t Ht]%startsWith_spec] _].
  apply bool_decide_eq_true in Hk. split; [done|]. exists (take (length local) s).
  rewrite Ht. change (GT_CH :: drop 1 ([GT_CH] ++ t)) with ([GT_CH] ++ t).
  by rewrite <- Ht, take_drop.
Qed.

Lemma parseLocal_format kind l t :
  local_ok l -> parseLocal kind (formatLocalPart l ++ AT_CH :: t) = inr (inr (l, AT_CH :: t)).
Proof.
  intros Hl. unfold formatLocalPart. destruct (isDotString l) eqn:Hd.
  - destruct (isDotString_chars l Hd) as [Hne Hc]. unfold parseLocal.
    assert (startsWith [DQUOTE] (l ++ AT_CH :: t) = false) as ->.
    { destruct l as [|c l]; [done|]. inv Hc. cbn [app startsWith]. by rewrite (proj2 (Z.eqb_neq _ _)) by naive_solver. }
    rewrite takeWhile_stop; [|eapply Forall_impl; [done|]; cbn; intros; zchars|done].
    rewrite drop_app_length. rewrite Hd. cbn. rewrite andb_false_r. done.
  - destruct Hl as [|Hl]; [congruence|]. unfold parseLocal. rewrite <- !app_assoc.
    cbn [app startsWith drop]. rewrite Z.eqb_refl. cbn [andb].
    by rewrite drop_0, parseQuoted_escape.
Qed.

Lemma formatLocalPart_head l :
  local_ok l -> exists c r, formatLocalPart l = c :: r /\ c <> GT_CH /\ c <> AT_CH.
Proof.
  intros Hl. unfold formatLocalPart. destruct (isDotString l) eqn:Hd.
  - destruct (isDotString_chars l Hd) as [Hne Hc]. destruct l as [|c l]; [done|].
    inv Hc. exists c, l. naive_solver.
  - eexists _, _. cbn. split_and!; done.
Qed.

(** ** Domains *)

Lemma parseAtDomain_spec local rest m rest' :
  parseAtDomain local rest = inr (m, rest') ->
  localPart m = local /\ rest = AT_CH :: domain m ++ GT_CH :: rest' /\ GT_CH ∉ domain m /\
  isDomainOrLiteral (domain m) = true /\ (octets local <= MAX_LOCAL_PART_OCTETS)%nat /\
  (octets (formatMailbox m) + 2 <= MAX_PATH_OCTETS)%nat.
Proof.
  unfold parseAtDomain. destruct (_ <? _)%nat eqn:Hl; [done|]. apply Nat.ltb_ge in Hl.
  destruct (startsWith _ rest) eqn:Ha; [|done]. apply startsWith_spec in Ha as [t ->]. cbn [negb app drop]. rewrite ?drop_0.
  destruct (indexOf GT_CH t) as [i|] eqn:Hi; [|done]. apply indexOf_Some in Hi as [Ht Hni].
  destruct (isDomainOrLiteral _) eqn:Hd; [|done]. cbn [negb].
  destruct (_ <? _)%nat eqn:Hp; [done|]. apply Nat.ltb_ge in Hp. intros [= <- <-].
  cbn [localPart domain]. split_and!; try done. by rewrite Ht at 1.
Qed.

Lemma parseAtDomain_format m rest :
  GT_CH ∉ domain m -> isDomainOrLiteral (domain m) = true ->
  (octets (localPart m) <= MAX_LOCAL_PART_OCTETS)%nat ->
  (octets (formatMailbox m) + 2 <= MAX_PATH_OCTETS)%nat ->
  parseAtDomain (localPart m) (AT_CH :: domain m ++ GT_CH :: rest) = inr (m, rest).
Proof.
  intros Hg Hd Hl Hp. unfold parseAtDomain.
  rewrite (proj2 (Nat.ltb_ge _ _)) by done. cbn [startsWith]. rewrite Z.eqb_refl. cbn [andb negb drop]. rewrite ?drop_0.
  rewrite indexOf_first by done. rewrite take_app_length, Hd. cbn [negb].
  destruct m as [l d]. cbn [localPart domain] in *. rewrite (proj2 (Nat.ltb_ge _ _)) by done.
  by rewrite cons_middle, app_assoc, drop_app_length' by (rewrite length_app; cbn; lia).
Qed.

(** ** The whole path *)

(** What [parsePath] guarantees of the mailbox it returns. *)
Record mailbox_ok (m : Mailbox) : Prop := {
  mo_local : local_ok (localPart m);
  mo_gt : GT_CH ∉ domain m;
  mo_domain : isDomainOrLiteral (domain m) = true;
  mo_local_len : (octets (localPart m) <= MAX_LOCAL_PART_OCTETS)%nat;
  mo_path_len : (octets (formatMailbox m) + 2 <= MAX_PATH_OCTETS)%nat
}.

Lemma parseRoute_spec s t : parseRoute s = inr t -> exists pre, s = pre ++ t.
Proof.
  unfold parseRoute. destruct (startsWith [AT_CH] s); [|intros [= ->]; by exists []].
  destruct (indexOf COLON s) as [i|]; [|done]. destruct (negb _); [done|]. intros [= <-].
  eexists. symmetry. apply take_drop.
Qed.

(** The three ways a path is accepted: what it is, and that it ends just past a [>] of the input. *)
Lemma parsePath_inv s start kind p e na :
  parsePath s start kind = PathOk p e na ->
  (exists pre rest, drop start s = LT_CH :: pre ++ GT_CH :: rest /\ e = (length s - length rest)%nat) /\
  match p with
  | PNull => kind = Reverse /\ na = false
  | PPostmaster => kind = Forward /\ na = false
  | PMailbox m => mailbox_ok m /\ na = hasNonAscii (localPart m) || hasNonAscii (domain m)
  end.
Proof.
  unfold parsePath. destruct (startsWith [LT_CH] _) eqn:Hlt; [|done].
  apply startsWith_spec in Hlt as [t Ht]. rewrite Ht. cbn [negb app drop]. rewrite ?drop_0.
  destruct (startsWith [GT_CH] t) eqn:Hgt.
  { apply startsWith_spec in Hgt as [u ->]. case_decide as Hk; [done|]. intros [= <- <- <-].
    split; [by exists [], u|]. by destruct kind. }
  destruct (parseRoute t) as [|t'] eqn:Hr; [done|]. apply parseRoute_spec in Hr as [pre ->].
  destruct (parseLocal kind t') as [|[rest|[local rest]]] eqn:Hl; [done|..].
  - apply parseLocal_postmaster in Hl as [-> [pre' ->]]. intros [= <- <- <-].
    split; [|done]. exists (pre ++ pre'), rest. by rewrite <- app_assoc.
  - apply parseLocal_spec in Hl as [Hlo [pre' ->]].
    destruct (parseAtDomain local rest) as [|[m rest']] eqn:Hd; [done|]. intros [= <- <- <-].
    apply parseAtDomain_spec in Hd as (<- & -> & Hg & Hdom & Hll & Hpl).
    split; [|by split; [constructor|]]. exists (pre ++ pre' ++ AT_CH :: domain m), rest'.
    by rewrite <- !app_assoc.
Qed.

(** A path [parsePath] can return for [kind], with the UTF-8 flag it reports. *)
Definition path_ok (kind : PathKind) (p : Path) (na : bool) : Prop :=
  match p with
  | PNull => kind = Reverse /\ na = false
  | PPostmaster => kind = Forward /\ na = false
  | PMailbox m => mailbox_ok m /\ na = hasNonAscii (localPart m) || hasNonAscii (domain m)
  end.

(** Printing such a path and parsing it again, inside any surrounding text. *)
Lemma parsePath_format kind p na pre rest :
  path_ok kind p na ->
  parsePath (pre ++ formatPath p ++ rest) (length pre) kind =
  PathOk p (length pre + length (formatPath p)) na.
Proof.
  intros Hp. unfold parsePath. rewrite drop_app_length.
  assert (forall r, length (pre ++ formatPath p ++ r) - length r = length pre + length (formatPath p))%nat
    as Hend by (intros; rewrite !length_app; lia).
  destruct p as [|m|]; [destruct Hp as [-> ->]; cbn; rewrite ?drop_0; f_equal; apply Hend| |
    destruct Hp as [-> ->]; cbn; rewrite ?drop_0; f_equal; apply Hend].
  destruct Hp as [[Hlo Hg Hd Hll Hpl] ->].
  replace (startsWith [LT_CH] (formatPath (PMailbox m) ++ rest)) with true by reflexivity. cbn [negb].
  assert (drop 1 (formatPath (PMailbox m) ++ rest) = formatMailbox m ++ GT_CH :: rest) as ->.
  { cbn [formatPath app drop]. rewrite drop_0, <- app_assoc. done. }
  destruct (formatLocalPart_head _ Hlo) as (c & r & Hf & Hc1 & Hc2).
  assert (startsWith [GT_CH] (formatMailbox m ++ GT_CH :: rest) = false) as ->.
  { unfold formatMailbox. rewrite Hf. cbn [app startsWith]. by rewrite (proj2 (Z.eqb_neq _ _)). }
  assert (parseRoute (formatMailbox m ++ GT_CH :: rest) = inr (formatMailbox m ++ GT_CH :: rest)) as ->.
  { unfold parseRoute, formatMailbox. rewrite Hf. cbn [app startsWith]. by rewrite (proj2 (Z.eqb_neq _ _)). }
  unfold formatMailbox at 1. rewrite <- !app_assoc. cbn [app].
  rewrite parseLocal_format, parseAtDomain_format by done. f_equal. apply Hend.
Qed.

(** printing a parsed path with [formatReversePath]/[formatForwardPath] and parsing the result
    yields the same path, consumes the whole string and reports the same use of UTF-8: quoting and
    unquoting of the local part are inverse, and the length limits that accepted the original accept
    the printed form. *)
Theorem parsePath_canonical (s : jsstr) (start : nat) (kind : PathKind) (p : Path) (e : nat) (na : bool) :
  parsePath s start kind = PathOk p e na ->
  parsePath (formatPath p) 0 kind = PathOk p (length (formatPath p)) na.
Proof.
  intros [_ Hp]%parsePath_inv. pose proof (parsePath_format kind p na [] [] Hp) as Hf.
  by rewrite app_nil_l, app_nil_r in Hf.
Qed.

(** ** What a parsed path may contain *)

Definition graphic (c : Z) : Prop := 33 <= c /\ c <> 127.

Lemma isDomain_graphic s : isDomain s = true -> Forall graphic s.
Proof.
  unfold isDomain. destruct (_ || _); [done|]. intros Hl%forallb_Forall.
  rewrite <- (joinWith_splitOn DOT s). induction Hl as [|p ps Hp _ IH]; [constructor|].
  assert (Forall graphic p).
  { unfold isLabel in Hp. destruct (_ || _); [done|]. destruct (_ || _); [done|].
    apply forallb_Forall in Hp. eapply Forall_impl; [done|]. unfold graphic. cbn. intros c Hc. zchars. }
  destruct ps as [|p' ps]; [done|]. rewrite joinWith_cons by done.
  rewrite !Forall_app. split_and!; [done| |done]. constructor; [|constructor]. unfold graphic. zchars.
Qed.

Lemma isIPv4_graphic s : isIPv4 s = true -> Forall graphic s.
Proof.
  unfold isIPv4. rewrite andb_true_iff. intros [_ Hl%forallb_Forall].
  rewrite <- (joinWith_splitOn DOT s). induction Hl as [|p ps Hp _ IH]; [constructor|].
  assert (Forall graphic p).
  { destruct p as [|c ds]; [done|]. cbn [isIPv4_part] in Hp. apply andb_true_iff in Hp as [Hp _].
    unfold graphic. apply orb_true_iff in Hp as [Hp|Hp]; rewrite !andb_true_iff in Hp.
    - destruct Hp as [Hc Hd]. apply bool_decide_eq_true in Hd as ->.
      constructor; [zchars|constructor].
    - destruct Hp as [[Hc Hd] _]. constructor; [zchars|]. apply forallb_Forall in Hd.
      eapply Forall_impl; [done|]. cbn. intros x Hx. zchars. }
  destruct ps as [|p' ps]; [done|]. rewrite joinWith_cons by done.
  rewrite !Forall_app. split_and!; [done| |done]. constructor; [|constructor]. unfold graphic. zchars.
Qed.

Lemma startsWith_endsWith_inner a b s :
  a <> b -> startsWith [a] s = true -> endsWith [b] s = true -> s = a :: slice_inner s ++ [b].
Proof.
  intros Hab [t ->]%startsWith_spec [u Hu]%startsWith_spec.
  apply (f_equal (@rev _)) in Hu. rewrite rev_involutive in Hu. cbn in Hu.
  destruct t as [|x t _] using rev_ind; [by apply (app_inj_tail []) in Hu as [_ ?]|].
  rewrite app_comm_cons in Hu. apply app_inj_tail in Hu as [_ ->].
  unfold slice_inner. cbn [app]. cbn [length drop]. rewrite drop_0, length_app. cbn.
  by rewrite take_app_length' by lia.
Qed.

Lemma isAddressLiteral_graphic `{!RuntimeOk _} s : isAddressLiteral s = true -> Forall graphic s.
Proof.
  unfold isAddressLiteral. destruct (startsWith _ s) eqn:Hs; [|done].
  destruct (endsWith _ s) eqn:He; [|done]. cbn [negb orb]. intros Hi.
  rewrite (startsWith_endsWith_inner LBRACKET RBRACKET s) by done.
  constructor; [unfold graphic; zchars|]. apply Forall_app; split;
    [|constructor; [unfold graphic; zchars|constructor]].
  destruct (has_ipv6_tag _) eqn:Ht; [|by apply isIPv4_graphic].
  rewrite <- (take_drop 5 (slice_inner s)). apply Forall_app. split.
  - unfold has_ipv6_tag in Ht. apply bool_decide_eq_true in Ht.
    assert (Forall (fun c => 50 <= c <= 90) (upper_char <$> take 5 (slice_inner s))) as Hu
      by (rewrite Ht; repeat constructor; cbn; lia).
    apply Forall_fmap in Hu. eapply Forall_impl; [done|]. cbn. intros c.
    unfold upper_char, isAlphaLower, graphic. destruct (_ && _) eqn:?; lia.
  - eapply Forall_impl; [by apply isIPv6_chars|]. unfold ipv6_char, graphic. lia.
Qed.

Lemma isDomainOrLiteral_graphic `{!RuntimeOk _} s : isDomainOrLiteral s = true -> Forall graphic s.
Proof.
  unfold isDomainOrLiteral. destruct (startsWith _ s); [apply isAddressLiteral_graphic|apply isDomain_graphic].
Qed.

Lemma byteLength_snoc s c : 0 <= c < 128 -> byteLength (s ++ [c]) = S (byteLength s).
Proof.
  intros Hc. remember (length s) as n eqn:Hn. revert s Hn.
  induction n as [n IH] using lt_wf_ind. intros [|x s] ->.
  { cbn. replace (c <? 128) with true by lia. done. }
  cbn [app byteLength]. rewrite (IH (length s)) by (cbn; lia || done).
  destruct (x <? 128); [done|]. destruct (x <? 2048); [done|]. destruct (is_high x); [|done].
  destruct s as [|y s]; cbn [app].
  - unfold is_low. replace ((0xdc00 <=? c) && (c <=? 0xdfff)) with false by lia. cbn.
    replace (c <? 128) with true by lia. done.
  - destruct (is_low y); [|done]. rewrite (IH (length s)) by (cbn; lia || done). done.
Qed.

Lemma path_ok_printable `{!RuntimeOk _} kind p na :
  path_ok kind p na -> Forall (fun c => is_control c = false) (formatPath p).
Proof.
  destruct p as [|m|]; intros Hp; try by repeat constructor.
  destruct Hp as [[Hlo _ Hd _ _] _]. cbn [formatPath]. unfold formatMailbox.
  rewrite !Forall_app. split_and!; [by repeat constructor|by apply local_ok_printable|..];
    try by repeat constructor.
  eapply Forall_impl; [by apply isDomainOrLiteral_graphic|]. unfold graphic. cbn. intros c Hc. zchars.
Qed.

(** A path is accepted only if it is terminated by a [>] inside the string, and its printed form
    - what the delivery client puts into its own MAIL and RCPT commands - holds no control character
    (no CR, LF, NUL) and fits the 256 octets of a path; the local part fits 64 octets. *)
Theorem parsePath_safe `{!RuntimeOk _} (s : jsstr) (start : nat) (kind : PathKind) (p : Path) (e : nat) (na : bool) :
  parsePath s start kind = PathOk p e na ->
  (start + 2 <= e <= length s)%nat /\ s !! (e - 1)%nat = Some GT_CH /\
  Forall (fun c => is_control c = false) (formatPath p) /\
  (octets (formatPath p) <= MAX_PATH_OCTETS)%nat /\
  match p with PMailbox m => (octets (localPart m) <= MAX_LOCAL_PART_OCTETS)%nat | _ => True end.
Proof.
  intros [(pre & rest & Hs & ->) Hp]%parsePath_inv.
  assert (Hlen : (length s = start + 2 + length pre + length rest)%nat).
  { apply (f_equal length) in Hs as Hl. rewrite length_drop in Hl. cbn in Hl.
    rewrite length_app in Hl. cbn in Hl. lia. }
  split_and!; [lia|lia| |by eapply path_ok_printable| |].
  - replace (length s - length rest - 1)%nat with (start + S (length pre))%nat by lia.
    rewrite <- lookup_drop, Hs. cbn. by apply list_lookup_middle.
  - destruct p as [|m|]; [apply Nat.leb_le; reflexivity| |apply Nat.leb_le; reflexivity].
    destruct Hp as [[_ _ _ _ Hpl] _]. unfold octets in *. cbn [formatPath app].
    rewrite app_comm_cons, byteLength_snoc by zchars. cbn [byteLength].
    replace (LT_CH <? 128) with true by done. lia.
  - destruct p as [|m|]; [done| |done]. by destruct Hp as [[] _].
Qed.
End WithRuntime.

(** A runtime to evaluate on: ASCII case mapping everywhere, one IPv6 address. *)
Definition ascii_runtime : Runtime :=
  {| uni_upper s := upper_char <$> s; uni_lower s := lower_char <$> s; big_string := dec;
     isIPv6 s := bool_decide (s = lit "::1") |}.

Lemma ascii_runtime_ok : RuntimeOk ascii_runtime.
Proof.
  split. intros s Hs. apply bool_decide_eq_true in Hs as ->.
  repeat constructor; unfold ipv6_char; cbn; lia.
Qed.

(** A reverse path with a quoted local part (a space, an escaped quote) and an IPv6 literal. *)
Definition quoted_path : jsstr :=
  [LT_CH; DQUOTE] ++ lit "a b" ++ [BACKSLASH; DQUOTE] ++ lit "c" ++ [DQUOTE] ++ lit "@[IPv6:::1]>".

Definition quoted_mailbox : Path :=
  PMailbox (mkMailbox (lit "a b" ++ [DQUOTE] ++ lit "c") (lit "[IPv6:::1]")).

Lemma parsePath_canonical_witness :
  @parsePath ascii_runtime (lit "FROM:" ++ quoted_path) 5 Reverse = PathOk quoted_mailbox 26 false /\
  @parsePath ascii_runtime (formatPath quoted_mailbox) 0 Reverse = PathOk quoted_mailbox 21 false.
Proof.
  split; [reflexivity|].
  apply (@parsePath_canonical ascii_runtime (lit "FROM:" ++ quoted_path) 5 Reverse quoted_mailbox 26 false).
  reflexivity.
Defined.

Lemma parsePath_safe_witness :
  Forall (fun c => is_control c = false) (formatPath quoted_mailbox) /\
  (octets (formatPath quoted_mailbox) <= MAX_PATH_OCTETS)%nat.
Proof.
  destruct (@parsePath_safe ascii_runtime ascii_runtime_ok
    (lit "FROM:" ++ quoted_path) 5 Reverse quoted_mailbox 26 false) as (_ & _ & H1 & H2 & _).
  - reflexivity.
  - split; [exact H1|exact H2].
Defined.

(** ** xtext *)

Lemma hex_upper_digit_spec d :
  0 <= d < 16 -> is_hex_upper (hex_upper_digit d) = true /\ hex_digit_val (hex_upper_digit d) = d.
Proof.
  intros Hd. unfold hex_upper_digit, is_hex_upper, hex_digit_val, is_digit.
  destruct (d <? 10) eqn:E; split; try lia; repeat case_match; lia.
Qed.

Lemma encodeXtext_char_spec c e t :
  0 <= c -> encodeXtext_char c = Some e ->
  decodeXtext (e ++ t) = cons c <$> decodeXtext t /\
  Forall (fun x => 33 <= x <= 126 /\ x <> 0x3d) e /\ c <= 0xff.
Proof.
  intros Hc. unfold encodeXtext_char.
  destruct ((c >=? 33) && (c <=? 126) && negb (c =? PLUS) && negb (c =? 0x3d)) eqn:E.
  - intros [= <-]. cbn [app decodeXtext]. replace (c =? PLUS) with false by zchars.
    replace ((c >=? 33) && (c <=? 126) && negb (c =? 61)) with true by zchars.
    split_and!; [done| |zchars]. constructor; [zchars|constructor].
  - destruct (c <=? 0xff) eqn:Hb; [|done]. intros [= <-]. cbn [app decodeXtext]. rewrite Z.eqb_refl.
    assert (0 <= c / 16 < 16 /\ 0 <= c mod 16 < 16) as [Hq Hr].
    { pose proof (Z.mod_pos_bound c 16). pose proof (Z.div_mod c 16). lia. }
    destruct (hex_upper_digit_spec (c / 16) Hq) as [Hx1 Hv1].
    destruct (hex_upper_digit_spec (c mod 16) Hr) as [Hx2 Hv2]. rewrite Hx1, Hx2. cbn [andb].
    split_and!; [|unfold is_hex_upper, is_digit in Hx1, Hx2; repeat constructor; zchars|lia].
    unfold hex_val. cbn [fold_left]. rewrite Hv1, Hv2. do 2 f_equal.
    pose proof (Z.div_mod c 16). lia.
Qed.

Lemma encodeXtext_spec (s : jsstr) :
  Forall (fun c => 0 <= c) s ->
  match encodeXtext s with
  | Some x => decodeXtext x = Some s /\ Forall (fun c => 33 <= c <= 126 /\ c <> 0x3d) x
  | None => Exists (fun c => 0xff < c) s
  end.
Proof.
  induction 1 as [|c s Hc _ IH]; [by split|]. cbn [encodeXtext].
  destruct (encodeXtext_char c) as [e|] eqn:Ec.
  - destruct (encodeXtext_char_spec c e (default [] (encodeXtext s)) Hc Ec) as (Hd & Hp & _).
    destruct (encodeXtext s) as [x|]; [|by apply Exists_cons_tl]. destruct IH as [IH Hx].
    split; [|by apply Forall_app]. cbn in Hd. by rewrite Hd, IH.
  - apply Exists_cons_hd. unfold encodeXtext_char in Ec. repeat case_match; done || lia.
Qed.

Lemma decodeXtext_range s d : decodeXtext s = Some d -> Forall (fun c => 0 <= c <= 0xff) d.
Proof.
  remember (length s) as n eqn:Hn. revert s d Hn.
  induction n as [n IH] using lt_wf_ind. intros [|c s] d -> Hd; [injection Hd as <-; constructor|].
  cbn in Hd. destruct (c =? PLUS).
  - destruct s as [|h [|l s]]; try done. destruct (is_hex_upper h && is_hex_upper l) eqn:Hx; [|done].
    destruct (decodeXtext s) as [d'|] eqn:E; [|done]. injection Hd as <-.
    constructor; [|eapply (IH (length s)); eauto; cbn; lia].
    apply andb_true_iff in Hx as [Hh Hl]. unfold is_hex_upper, is_digit, hex_val, hex_digit_val in *.
    cbn [fold_left]. unfold is_digit. repeat case_match; lia.
  - destruct (_ && _) eqn:Hc; [|done]. destruct (decodeXtext s) as [d'|] eqn:E; [|done].
    injection Hd as <-. constructor; [lia|]. eapply (IH (length s)); eauto.
Qed.

(** Xtext encoding (AUTH=, ENVID=, ORCPT=) fails exactly on characters above U+00FF; otherwise the
    result is printable ASCII without a space or an equals sign, so it is one ESMTP parameter value,
    and decoding it gives the original back. *)
Theorem xtext_roundtrip (s : jsstr) :
  Forall (fun c => 0 <= c) s ->
  match encodeXtext s with
  | Some x => decodeXtext x = Some s /\ Forall (fun c => 33 <= c <= 126 /\ c <> 0x3d) x
  | None => Exists (fun c => 0xff < c) s
  end.
Proof. apply encodeXtext_spec. Qed.

Lemma xtext_roundtrip_witness :
  encodeXtext (lit "a+b=c d") = Some (lit "a+2Bb+3Dc+20d") /\
  decodeXtext (lit "a+2Bb+3Dc+20d") = Some (lit "a+b=c d").
Proof.
  split; [reflexivity|].
  assert (Forall (fun c => 0 <= c) (lit "a+b=c d")) as H by (repeat constructor; cbn; lia).
  pose proof (xtext_roundtrip (lit "a+b=c d") H) as Hx.
  replace (encodeXtext (lit "a+b=c d")) with (Some (lit "a+2Bb+3Dc+20d")) in Hx by reflexivity.
  exact (proj1 Hx).
Defined.
