(* ===== verification/SmtpCommand.v ===== *)
(** * SmtpCommand: the command parser and formatter, packages/smtp-proto/src/command.ts

    A parse result is [inl] the reply to send or [inr] the command. *)
From S2P Require Import Prelude.
From S2P Require Import JsString.
From S2P Require Import SmtpReply.
From S2P Require Import SmtpAddress.

Inductive BodyType := Body7BIT | Body8BITMIME.
Inductive DsnRet := RetFULL | RetHDRS.

Record MailParams := mkMailParams {
  mp_size : option Z;
  mp_body : option BodyType;
  mp_smtputf8 : bool;
  mp_auth : option jsstr;
  mp_ret : option DsnRet;
  mp_envid : option jsstr
}.

(** [notify] holds the keywords NEVER, SUCCESS, FAILURE and DELAY themselves. *)
Record RcptParams := mkRcptParams {
  rcp_notify : option (list jsstr);
  rcp_orcpt : option (jsstr * jsstr)
}.

Inductive HelloVerb := EHLO | HELO.
Inductive PlainVerb := DATA | RSET | QUIT | STARTTLS.

Inductive SmtpCommand :=
| CHello (verb : HelloVerb) (domain : jsstr)
| CMail (from : Path) (params : MailParams)
| CRcpt (to : Path) (params : RcptParams)
| CPlain (verb : PlainVerb)
| CNoop (argument : option jsstr)
| CHelp (argument : option jsstr)
| CVrfy (argument : jsstr)
| CAuth (mechanism : jsstr) (initialResponse : option jsstr).

#[export] Instance BodyType_eq_dec : EqDecision BodyType. Proof. solve_decision. Defined.
#[export] Instance DsnRet_eq_dec : EqDecision DsnRet. Proof. solve_decision. Defined.
#[export] Instance HelloVerb_eq_dec : EqDecision HelloVerb. Proof. solve_decision. Defined.
#[export] Instance PlainVerb_eq_dec : EqDecision PlainVerb. Proof. solve_decision. Defined.
#[export] Instance MailParams_eq_dec : EqDecision MailParams. Proof. solve_decision. Defined.
#[export] Instance RcptParams_eq_dec : EqDecision RcptParams. Proof. solve_decision. Defined.

Abbreviation ParseResult := (SmtpReply + SmtpCommand)%type.

Definition invalidChars : SmtpReply := reply 500 (Some (lit "5.5.2")) [lit "Invalid characters in command"].
Definition syntaxReply (text : jsstr) : SmtpReply := reply 501 (Some (lit "5.5.4")) [text].
Definition syntax (text : jsstr) : ParseResult := inl (syntaxReply text).
Definition failWith (c : Z) (e : string) (text : jsstr) : ParseResult := inl (reply c (Some (lit e)) [text]).

Definition UNIMPLEMENTED : list jsstr :=
  [lit "EXPN"; lit "TURN"; lit "ETRN"; lit "ATRN"; lit "BDAT"; lit "SEND"; lit "SOML"; lit "SAML"].

Definition hello_name (v : HelloVerb) : jsstr := match v with EHLO => lit "EHLO" | HELO => lit "HELO" end.
Definition plain_name (v : PlainVerb) : jsstr :=
  match v with DATA => lit "DATA" | RSET => lit "RSET" | QUIT => lit "QUIT" | STARTTLS => lit "STARTTLS" end.

Definition parseHello `{Runtime} (verb : HelloVerb) (args : jsstr) : ParseResult :=
  match args with
  | [] => syntax (hello_name verb ++ lit " requires a domain or address literal")
  | _ =>
      if bool_decide (SP ∈ args) then syntax (hello_name verb ++ lit " takes exactly one argument")
      else
        let valid := if startsWith [LBRACKET] args then isAddressLiteral args else isDomain args in
        if negb valid then syntax (lit "Invalid domain or address literal")
        else inr (CHello verb args)
  end.

(** ** Parameters *)

(** [/^[A-Z0-9][A-Z0-9-]*$/]. *)
Definition isKeyword (s : jsstr) : bool :=
  match s with
  | [] => false
  | c :: r => (isAlphaUpper c || is_digit c) &&
              forallb (fun x => isAlphaUpper x || is_digit x || (x =? HYPHEN)) r
  end.

(** [/^[\x21-\x3c\x3e-\x7e\u0080-\u{10ffff}]+$/u]. *)
Definition isValueChar (c : Z) : bool :=
  ((0x21 <=? c) && (c <=? 0x3c)) || ((0x3e <=? c) && (c <=? 0x7e)) || (0x80 <=? c).
Definition isParamValue (s : jsstr) : bool := negb (bool_decide (s = [])) && forallb isValueChar s.

Abbreviation RawParam := (jsstr * option jsstr)%type.

Definition rawParam `{Runtime} (token : jsstr) : RawParam :=
  match indexOf 0x3d token with
  | None => (toUpperCase token, None)
  | Some eq => (toUpperCase (take eq token), Some (drop (S eq) token))
  end.

Fixpoint splitParams_loop `{Runtime} (tokens : list jsstr) (seen : list jsstr)
    : SmtpReply + list RawParam :=
  match tokens with
  | [] => inr []
  | token :: tokens =>
      let (keyword, value) := rawParam token in
      if negb (isKeyword keyword) then inl (syntaxReply (lit "Invalid parameter keyword"))
      else if match value with Some v => negb (isParamValue v) | None => false end
      then inl (syntaxReply (lit "Invalid parameter value"))
      else if bool_decide (keyword ∈ seen)
      then inl (syntaxReply (lit "Duplicate " ++ keyword ++ lit " parameter"))
      else match splitParams_loop tokens (seen ++ [keyword]) with
           | inl e => inl e
           | inr out => inr ((keyword, value) :: out)
           end
  end.

Definition splitParams `{Runtime} (rest : jsstr) : SmtpReply + list RawParam :=
  match rest with
  | [] => inr []
  | _ =>
      if negb (startsWith [SP] rest) then inl (syntaxReply (lit "Expected a space before parameters"))
      else splitParams_loop (splitSpaces (trim rest)) []
  end.

Definition pathArgs `{Runtime} (args prefix : jsstr) (kind : PathKind) : option (PathParse * jsstr) :=
  if negb (bool_decide (toUpperCase (take (length prefix) args) = prefix)) then None
  else
    let after := drop (length prefix) args in
    let i := (length prefix + length (takeWhile (fun c => (c =? SP)%Z) after))%nat in
    let parsed := parsePath args i kind in
    Some (parsed, match parsed with PathOk _ e _ => drop e args | PathErr _ => [] end).

Definition hasControl (s : jsstr) : bool := existsb is_control s.

(** [decodeXtext] of a parameter value, refused when absent, empty or holding a control. *)
Definition xtextValue (value : option jsstr) : option jsstr :=
  match value with
  | None => None
  | Some v =>
      match decodeXtext v with
      | None => None
      | Some [] => None
      | Some d => if hasControl d then None else Some d
      end
  end.

Definition upperValue `{Runtime} (value : option jsstr) : option jsstr := toUpperCase <$> value.

(** One turn of the loop over the parameters of MAIL. *)
Definition mailParam `{Runtime} (kv : RawParam) (p : MailParams) : SmtpReply + MailParams :=
  let (keyword, value) := kv in
  if decide (keyword = lit "SIZE") then
    match value with
    | Some v =>
        if forallb is_digit v && (1 <=? length v)%nat && (length v <=? 20)%nat
        then inr (mkMailParams (Some (Number v)) (mp_body p) (mp_smtputf8 p) (mp_auth p) (mp_ret p) (mp_envid p))
        else inl (syntaxReply (lit "Invalid SIZE"))
    | None => inl (syntaxReply (lit "Invalid SIZE"))
    end
  else if decide (keyword = lit "BODY") then
    let set b := inr (mkMailParams (mp_size p) (Some b) (mp_smtputf8 p) (mp_auth p) (mp_ret p) (mp_envid p)) in
    if decide (upperValue value = Some (lit "7BIT")) then set Body7BIT
    else if decide (upperValue value = Some (lit "8BITMIME")) then set Body8BITMIME
    else inl (syntaxReply (lit "Invalid BODY (7BIT or 8BITMIME)"))
  else if decide (keyword = lit "SMTPUTF8") then
    match value with
    | Some _ => inl (syntaxReply (lit "SMTPUTF8 takes no value"))
    | None => inr (mkMailParams (mp_size p) (mp_body p) true (mp_auth p) (mp_ret p) (mp_envid p))
    end
  else if decide (keyword = lit "AUTH") then
    match xtextValue value with
    | None => inl (syntaxReply (lit "Invalid AUTH parameter"))
    | Some d => inr (mkMailParams (mp_size p) (mp_body p) (mp_smtputf8 p) (Some d) (mp_ret p) (mp_envid p))
    end
  else if decide (keyword = lit "RET") then
    let set r := inr (mkMailParams (mp_size p) (mp_body p) (mp_smtputf8 p) (mp_auth p) (Some r) (mp_envid p)) in
    if decide (upperValue value = Some (lit "FULL")) then set RetFULL
    else if decide (upperValue value = Some (lit "HDRS")) then set RetHDRS
    else inl (syntaxReply (lit "Invalid RET (FULL or HDRS)"))
  else if decide (keyword = lit "ENVID") then
    match xtextValue value with
    | Some d =>
        if (100 <? length d)%nat then inl (syntaxReply (lit "Invalid ENVID"))
        else inr (mkMailParams (mp_size p) (mp_body p) (mp_smtputf8 p) (mp_auth p) (mp_ret p) (Some d))
    | None => inl (syntaxReply (lit "Invalid ENVID"))
    end
  else inl (reply 555 (Some (lit "5.5.4")) [lit "Unsupported parameter " ++ keyword]).

Definition noMailParams : MailParams := mkMailParams None None false None None None.
Definition noRcptParams : RcptParams := mkRcptParams None None.

(** A loop over parameters with early return. *)
Fixpoint paramLoop {P} (step : RawParam -> P -> SmtpReply + P) (raw : list RawParam) (p : P) : SmtpReply + P :=
  match raw with
  | [] => inr p
  | kv :: raw => match step kv p with inl e => inl e | inr p => paramLoop step raw p end
  end.

Definition nonAsciiReply : SmtpReply :=
  reply 553 (Some (lit "5.6.7")) [lit "Non-ASCII address requires SMTPUTF8"].

Definition parseMail `{Runtime} (args : jsstr) : ParseResult :=
  match pathArgs args (lit "FROM:") Reverse with
  | None => syntax (lit "Syntax: MAIL FROM:<address>")
  | Some (PathErr reason, _) => failWith 501 "5.1.7" (lit "Bad sender address syntax: " ++ reason)
  | Some (PathOk path _ nonAscii, rest) =>
      match splitParams rest with
      | inl e => inl e
      | inr raw =>
          match paramLoop mailParam raw noMailParams with
          | inl e => inl e
          | inr params =>
              if nonAscii && negb (mp_smtputf8 params) then inl nonAsciiReply
              else inr (CMail path params)
          end
      end
  end.

Definition NOTIFY_VALUES : list jsstr := [lit "SUCCESS"; lit "FAILURE"; lit "DELAY"].

Definition isAlnum (c : Z) : bool := isAlphaUpper c || isAlphaLower c || is_digit c.

(** [/^[A-Za-z0-9][A-Za-z0-9-]*$/]. *)
Definition isAddrType (s : jsstr) : bool :=
  match s with
  | [] => false
  | c :: r => isAlnum c && forallb (fun x => isAlnum x || (x =? HYPHEN)) r
  end.

(** One turn of the loop over the parameters of RCPT. *)
Definition rcptParam `{Runtime} (kv : RawParam) (p : RcptParams) : SmtpReply + RcptParams :=
  let (keyword, value) := kv in
  if decide (keyword = lit "NOTIFY") then
    let list_ := splitOn COMMA (toUpperCase (default [] value)) in
    let valid :=
      bool_decide (value <> None) && bool_decide (NoDup list_) &&
      (if bool_decide (list_ = [lit "NEVER"]) then true
       else forallb (fun v => bool_decide (v ∈ NOTIFY_VALUES)) list_) in
    if negb valid then inl (syntaxReply (lit "Invalid NOTIFY"))
    else inr (mkRcptParams (Some list_) (rcp_orcpt p))
  else if decide (keyword = lit "ORCPT") then
    match value with
    | None => inl (syntaxReply (lit "Invalid ORCPT"))
    | Some v =>
        match indexOf 0x3b v with
        | None | Some O => inl (syntaxReply (lit "Invalid ORCPT"))
        | Some semi =>
            match isAddrType (take semi v), xtextValue (Some (drop (S semi) v)) with
            | true, Some address => inr (mkRcptParams (rcp_notify p) (Some (take semi v, address)))
            | _, _ => inl (syntaxReply (lit "Invalid ORCPT"))
            end
        end
    end
  else inl (reply 555 (Some (lit "5.5.4")) [lit "Unsupported parameter " ++ keyword]).

Definition parseRcpt `{Runtime} (args : jsstr) (smtputf8 : bool) : ParseResult :=
  match pathArgs args (lit "TO:") Forward with
  | None => syntax (lit "Syntax: RCPT TO:<address>")
  | Some (PathErr reason, _) => failWith 501 "5.1.3" (lit "Bad recipient address syntax: " ++ reason)
  | Some (PathOk path _ nonAscii, rest) =>
      if nonAscii && negb smtputf8 then inl nonAsciiReply
      else
        match splitParams rest with
        | inl e => inl e
        | inr raw =>
            match paramLoop rcptParam raw noRcptParams with
            | inl e => inl e
            | inr params => inr (CRcpt path params)
            end
        end
  end.

(** [/^[A-Z0-9_-]{1,20}$/]. *)
Definition isMechanism (s : jsstr) : bool :=
  forallb (fun c => isAlphaUpper c || is_digit c || (c =? 0x5f) || (c =? HYPHEN)) s &&
  (1 <=? length s)%nat && (length s <=? 20)%nat.

Definition isBase64Char (c : Z) : bool := isAlnum c || (c =? PLUS) || (c =? 0x2f).

(** [/^[A-Za-z0-9+/]*={0,2}$/] after the length test. *)
Definition isBase64 (s : jsstr) : bool :=
  (length s mod 4 =? 0)%nat &&
  let body := takeWhile isBase64Char s in
  let tail := drop (length body) s in
  forallb (fun c => c =? 0x3d) tail && (length tail <=? 2)%nat.

Definition parseAuth `{Runtime} (args : jsstr) : ParseResult :=
  match (match args with [] => [] | _ => splitSpaces args end) with
  | [] => syntax (lit "Syntax: AUTH mechanism [initial-response]")
  | m :: rest =>
      let mechanism := toUpperCase m in
      if (1 <? length rest)%nat || negb (isMechanism mechanism)
      then syntax (lit "Syntax: AUTH mechanism [initial-response]")
      else
        match rest with
        | [] => inr (CAuth mechanism None)
        | ir :: _ =>
            if negb (bool_decide (ir = lit "=")) && negb (isBase64 ir)
            then failWith 501 "5.5.2" (lit "Invalid base64 in initial response")
            else inr (CAuth mechanism (Some ir))
        end
  end.

(** ** [parseCommand] *)

(** The scan of the octets: [None] when one is a control, else whether all are ASCII. *)
Definition scanOctets (line : bytes) : option bool :=
  if existsb (fun b => (b <? 0x20) || (b =? 0x7f)) line then None
  else Some (negb (existsb (fun b => 0x80 <=? b) line)).

(** [/^[A-Z]{4,8}$/]. *)
Definition isVerb (s : jsstr) : bool :=
  forallb isAlphaUpper s && (4 <=? length s)%nat && (length s <=? 8)%nat.

Definition argument (args : jsstr) : option jsstr := match args with [] => None | _ => Some args end.

Definition parsePlain (verb : PlainVerb) (args : jsstr) : ParseResult :=
  match args with
  | [] => inr (CPlain verb)
  | _ => syntax (plain_name verb ++ lit " takes no arguments")
  end.

(** The [switch] on the verb; verbs without arguments come first. *)
Definition parseVerb `{Runtime} (verb args : jsstr) (smtputf8 : bool) : ParseResult :=
  if decide (verb = lit "DATA") then parsePlain DATA args
  else if decide (verb = lit "RSET") then parsePlain RSET args
  else if decide (verb = lit "QUIT") then parsePlain QUIT args
  else if decide (verb = lit "STARTTLS") then parsePlain STARTTLS args
  else if decide (verb = lit "EHLO") then parseHello EHLO args
  else if decide (verb = lit "HELO") then parseHello HELO args
  else if decide (verb = lit "MAIL") then parseMail args
  else if decide (verb = lit "RCPT") then parseRcpt args smtputf8
  else if decide (verb = lit "NOOP") then inr (CNoop (argument args))
  else if decide (verb = lit "HELP") then inr (CHelp (argument args))
  else if decide (verb = lit "VRFY") then
    match args with [] => syntax (lit "VRFY requires an argument") | _ => inr (CVrfy args) end
  else if decide (verb = lit "AUTH") then parseAuth args
  else inl (if bool_decide (verb ∈ UNIMPLEMENTED) then Replies.notImplemented else Replies.unknownCommand).

Definition parseCommand `{Runtime} (line : bytes) (smtputf8 : bool) : ParseResult :=
  match scanOctets line with
  | None => inl invalidChars
  | Some ascii =>
      match (if ascii : bool then Some line else utf8_decode_fatal line) with
      | None => inl invalidChars
      | Some text =>
          let '(verb, args) :=
            match indexOf SP text with
            | None => (toUpperCase text, [])
            | Some sp => (toUpperCase (take sp text),
                          dropEndWhile (fun c => c =? SP) (dropWhile (fun c => c =? SP) (drop (S sp) text)))
            end in
          if negb (isVerb verb) then inl Replies.unknownCommand
          else if negb ascii && negb (bool_decide (verb = lit "MAIL")) && negb (bool_decide (verb = lit "RCPT"))
          then inl invalidChars
          else parseVerb verb args smtputf8
      end
  end.

(** ** Formatting *)

Definition body_name (b : BodyType) : jsstr := match b with Body7BIT => lit "7BIT" | Body8BITMIME => lit "8BITMIME" end.
Definition ret_name (r : DsnRet) : jsstr := match r with RetFULL => lit "FULL" | RetHDRS => lit "HDRS" end.

(** [KEY=${encodeXtext(v)}] when [v] is present; the outer [None] is [encodeXtext]'s [TypeError]. *)
Definition xtextParam (key : jsstr) (v : option jsstr) : option (list jsstr) :=
  match v with
  | None => Some []
  | Some v => (fun x => [key ++ x]) <$> encodeXtext v
  end.

Definition spaced (out : list jsstr) : jsstr := concat (cons SP <$> out).

Definition formatMailParams `{Runtime} (p : MailParams) : option jsstr :=
  let size := match mp_size p with Some n => [lit "SIZE=" ++ num_string n] | None => [] end in
  let body := match mp_body p with Some b => [lit "BODY=" ++ body_name b] | None => [] end in
  let utf8 := if mp_smtputf8 p then [lit "SMTPUTF8"] else [] in
  let ret := match mp_ret p with Some r => [lit "RET=" ++ ret_name r] | None => [] end in
  match xtextParam (lit "AUTH=") (mp_auth p), xtextParam (lit "ENVID=") (mp_envid p) with
  | Some auth, Some envid => Some (spaced (size ++ body ++ utf8 ++ auth ++ ret ++ envid))
  | _, _ => None
  end.

Definition formatRcptParams (p : RcptParams) : option jsstr :=
  let notify := match rcp_notify p with
                | Some l => [lit "NOTIFY=" ++ joinWith [COMMA] l] | None => [] end in
  match (match rcp_orcpt p with
         | None => Some []
         | Some (t, a) => xtextParam (lit "ORCPT=" ++ t ++ [0x3b]) (Some a)
         end) with
  | Some orcpt => Some (spaced (notify ++ orcpt))
  | None => None
  end.

Definition withArgument (verb : jsstr) (a : option jsstr) : jsstr :=
  match a with None => verb | Some a => verb ++ [SP] ++ a end.

Definition formatCommand `{Runtime} (c : SmtpCommand) : option jsstr :=
  match c with
  | CHello v d => Some (hello_name v ++ [SP] ++ d)
  | CMail from params => (fun p => lit "MAIL FROM:" ++ formatPath from ++ p) <$> formatMailParams params
  | CRcpt to params => (fun p => lit "RCPT TO:" ++ formatPath to ++ p) <$> formatRcptParams params
  | CPlain v => Some (plain_name v)
  | CNoop a => Some (withArgument (lit "NOOP") a)
  | CHelp a => Some (withArgument (lit "HELP") a)
  | CVrfy a => Some (withArgument (lit "VRFY") (Some a))
  | CAuth m ir => Some (withArgument (lit "AUTH " ++ m) ir)
  end.
