(* ===== verification/SmtpCommandRoundTrip.v ===== *)
(** * SmtpCommandRoundTrip: [parseCommand] reads back what [formatCommand] writes *)
From S2P Require Import Prelude.
From S2P Require Import JsString.
From S2P Require Import JsStringFacts.
From S2P Require Import SmtpReply.
From S2P Require Import SmtpAddress.
From S2P Require Import SmtpAddressProofs.
From S2P Require Import SmtpCommand.
From S2P Require Import SmtpCommandProofs.

Abbreviation is_sp := (fun c => c =? SP).

(** ** The line: verb, space, arguments *)

Lemma upper_id s :
  Forall (fun c => 0 <= c < 97 \/ 122 < c < 128) s -> is_ascii s = true /\ upper_char <$> s = s.
Proof.
  induction 1 as [|c s Hc _ [IH1 IH2]]; [done|]. cbn [is_ascii forallb]. unfold is_ascii in IH1.
  rewrite IH1. csimpl. rewrite IH2. unfold upper_char, isAlphaLower.
  replace ((97 <=? c) && (c <=? 122)) with false by lia. split; [lia|done].
Qed.

Section WithRuntime.
Context `{Runtime}.

Lemma toUpperCase_id s : Forall (fun c => 0 <= c < 97 \/ 122 < c < 128) s -> toUpperCase s = s.
Proof. intros Hs. unfold toUpperCase. by destruct (upper_id s Hs) as [-> ->]. Qed.

Lemma verb_upper v : isVerb v = true -> toUpperCase v = v /\ SP ∉ v.
Proof.
  unfold isVerb. rewrite !andb_true_iff. intros [[Hv%forallb_Forall _] _]. split.
  - apply toUpperCase_id. eapply Forall_impl; [done|]. cbn. intros c Hc. zkeys.
  - intros Hin. rewrite Forall_forall in Hv. specialize (Hv _ Hin). cbn in Hv. zkeys.
Qed.

Definition verb_line (v args : jsstr) : jsstr := match args with [] => v | _ => v ++ SP :: args end.

Lemma scanOctets_ascii s : clean s -> is_ascii s = true -> scanOctets s = Some true.
Proof.
  intros Hc Ha. unfold scanOctets.
  assert (existsb is_control s = false) as Hx.
  { induction Hc as [|c s Hc _ IH]; [done|]. cbn in Ha |- *. apply andb_true_iff in Ha as [_ Ha].
    by rewrite Hc, IH. }
  assert (existsb (fun b => 128 <=? b) s = false) as ->.
  { clear Hx Hc. induction s as [|c s IH]; [done|]. cbn in Ha |- *. apply andb_true_iff in Ha as [Hc Ha].
    rewrite IH by done. lia. }
  unfold is_control in Hx. by rewrite Hx.
Qed.

Lemma parse_verb_line v args u :
  isVerb v = true -> args = [] \/ trimmed is_sp args -> clean (verb_line v args) ->
  is_ascii (verb_line v args) = true ->
  parseCommand (verb_line v args) u = parseVerb v args u.
Proof.
  intros Hv Hargs Hc Ha. destruct (verb_upper v Hv) as [Hup Hsp]. unfold parseCommand.
  rewrite scanOctets_ascii by done. destruct Hargs as [->|Ht].
  - cbn [verb_line]. rewrite (proj2 (indexOf_None SP v)) by done. by rewrite Hup, Hv.
  - destruct args as [|x args]; [by destruct Ht as [(?&?&?&_) _]|]. cbn [verb_line].
    rewrite indexOf_first, take_app_length by done. rewrite Hup, Hv. cbn [negb andb].
    rewrite cons_middle, app_assoc, drop_app_length' by (rewrite length_app; cbn; lia).
    by rewrite trimmed_id.
Qed.

(** ** Parameters *)

(** A token that stands for the keyword [k] with value [v]. *)
Definition token_of (tok : jsstr) (kv : RawParam) : Prop :=
  isKeyword kv.1 = true /\
  match kv.2 with
  | None => tok = kv.1
  | Some v => tok = kv.1 ++ 0x3d :: v /\ v <> [] /\ Forall (fun c => 33 <= c <= 126 /\ c <> 0x3d) v
  end.

Lemma keyword_chars k :
  isKeyword k = true -> k <> [] /\ Forall (fun c => 45 <= c <= 90 /\ c <> 0x3d) k.
Proof.
  destruct k as [|c k]; [done|]. cbn [isKeyword]. intros [Hc Hk%forallb_Forall]%andb_true_iff.
  split; [done|]. constructor; [zkeys|]. eapply Forall_impl; [done|]. cbn. intros x Hx. zkeys.
Qed.

Lemma rawParam_token tok kv : token_of tok kv -> rawParam tok = kv.
Proof.
  destruct kv as [k v]. intros [Hk Hv]. cbn in *. destruct (keyword_chars k Hk) as [_ Hc].
  assert (toUpperCase k = k) as Hup.
  { apply toUpperCase_id. eapply Forall_impl; [done|]. cbn. lia. }
  assert (0x3d ∉ k) as Heq by (intros Hin; rewrite Forall_forall in Hc; specialize (Hc _ Hin); cbn in Hc; lia).
  unfold rawParam. destruct v as [v|].
  - destruct Hv as [-> _]. rewrite indexOf_first, take_app_length, Hup by done.
    by rewrite cons_middle, app_assoc, drop_app_length' by (rewrite length_app; cbn; lia).
  - subst tok. by rewrite (proj2 (indexOf_None _ k)), Hup.
Qed.

Lemma token_graphic tok kv : token_of tok kv -> tok <> [] /\ Forall (fun c => 33 <= c <= 126) tok.
Proof.
  destruct kv as [k v]. intros [Hk Hv]. cbn in *. destruct (keyword_chars k Hk) as [Hne Hc].
  assert (Forall (fun c => 33 <= c <= 126) k) by (eapply Forall_impl; [done|]; cbn; lia).
  destruct v as [v|]; [|by subst]. destruct Hv as (-> & _ & Hv). split; [by destruct k|].
  apply Forall_app. split; [done|]. constructor; [lia|]. eapply Forall_impl; [done|]. cbn. lia.
Qed.

Lemma splitParams_loop_tokens toks kvs seen :
  Forall2 token_of toks kvs -> NoDup (kvs.*1) -> (forall k, k ∈ kvs.*1 -> k ∉ seen) ->
  splitParams_loop toks seen = inr kvs.
Proof.
  intros Ht. revert seen. induction Ht as [|tok [k v] toks kvs Htok _ IH]; intros seen Hnd Hseen; [done|].
  cbn [splitParams_loop]. rewrite (rawParam_token _ _ Htok). destruct Htok as [Hk Hv]. cbn in Hk, Hv.
  csimpl in Hnd. apply NoDup_cons in Hnd as [Hnin Hnd]. rewrite Hk. cbn [negb].
  assert (match v with Some v => negb (isParamValue v) | None => false end = false) as ->.
  { destruct v as [v|]; [|done]. destruct Hv as (_ & Hne & Hv). unfold isParamValue.
    rewrite bool_decide_eq_false_2 by done. cbn. apply negb_false_iff, forallb_Forall.
    eapply Forall_impl; [done|]. cbn. intros c Hc. zkeys. }
  rewrite bool_decide_eq_false_2 by (apply Hseen; csimpl; left).
  rewrite IH; [done|done|]. intros k' Hk' [Hs| ->%list_elem_of_singleton]%elem_of_app; [|done].
  apply (Hseen k'); [csimpl; by right|done].
Qed.

Lemma joinWith_trimmed f toks :
  toks <> [] -> Forall (word f) toks -> trimmed f (joinWith [SP] toks).
Proof.
  intros Hne Ht. split.
  - destruct Ht as [|[|c w] toks [Hw Hf] _]; [done|done|]. inv Hf.
    destruct toks; [by eexists _, _|]. rewrite joinWith_cons by done. by eexists _, _.
  - induction Ht as [|w toks [Hw Hf] _ IH]; [done|].
    destruct (decide (toks = [])) as [->|].
    + destruct w as [|c w _] using rev_ind; [done|]. apply Forall_app in Hf as [_ Hf]. inv Hf. eauto.
    + rewrite joinWith_cons by done. destruct IH as (t & c & -> & Hc); [done|].
      exists (w ++ [SP] ++ t), c. by rewrite <- !app_assoc.
Qed.

Lemma spaced_join toks : toks <> [] -> spaced toks = SP :: joinWith [SP] toks.
Proof.
  unfold spaced. induction toks as [|w toks IH]; [done|]. intros _.
  change (concat (cons SP <$> w :: toks)) with ((SP :: w) ++ concat (cons SP <$> toks)).
  destruct (decide (toks = [])) as [->|]; [cbn; by rewrite app_nil_r|].
  by rewrite IH, joinWith_cons.
Qed.

Lemma graphic_words toks :
  Forall (fun tok => tok <> [] /\ Forall (fun c => 33 <= c <= 126) tok) toks ->
  Forall (word is_sp) toks /\ Forall (word is_js_space) toks.
Proof.
  intros Ht. split; eapply Forall_impl; try done; cbn; intros tok [Hne Hc]; (split; [done|]);
    (eapply Forall_impl; [done|]); cbn; intros c Hr; [zkeys|unfold is_js_space; lia].
Qed.

Lemma splitParams_tokens toks kvs :
  Forall2 token_of toks kvs -> NoDup (kvs.*1) -> splitParams (spaced toks) = inr kvs.
Proof.
  intros Ht Hnd. destruct (decide (toks = [])) as [->|Hne]; [by inv Ht|].
  assert (Forall (fun tok => tok <> [] /\ Forall (fun c => 33 <= c <= 126) tok) toks) as Hg.
  { clear Hne Hnd. induction Ht; constructor; [by eapply token_graphic|done]. }
  destruct (graphic_words toks Hg) as [Hw1 Hw2].
  rewrite spaced_join by done. unfold splitParams.
  replace (startsWith [SP] (SP :: joinWith [SP] toks)) with true by reflexivity. cbn [negb].
  assert (trim (SP :: joinWith [SP] toks) = joinWith [SP] toks) as ->.
  { unfold trim. cbn [dropWhile]. replace (is_js_space SP) with true by reflexivity.
    by apply trimmed_id, joinWith_trimmed. }
  unfold splitSpaces. rewrite (splitRuns_join _ SP) by done.
  apply splitParams_loop_tokens; [done|done|]. set_solver.
Qed.

(** ** What a parsed command satisfies *)

Definition xt_ok (d : jsstr) : Prop :=
  d <> [] /\ hasControl d = false /\ Forall (fun c => 0 <= c <= 0xff) d.

Lemma xtextValue_ok v d : xtextValue v = Some d -> xt_ok d.
Proof.
  unfold xtextValue. destruct v as [v|]; [|done]. destruct (decodeXtext v) as [[|x y]|] eqn:Hd; try done.
  destruct (hasControl _) eqn:E; [done|]. intros [= <-]. split_and!; [done|done|].
  by eapply decodeXtext_range.
Qed.

(** An xtext value printed and read again. *)
Lemma xtext_print d :
  xt_ok d -> exists x, encodeXtext d = Some x /\ x <> [] /\
    Forall (fun c => 33 <= c <= 126 /\ c <> 0x3d) x /\ xtextValue (Some x) = Some d.
Proof.
  intros (Hne & Hc & Hr).
  assert (Forall (fun c => 0 <= c) d) as Hp by (eapply Forall_impl; [done|]; cbn; lia).
  pose proof (encodeXtext_spec d Hp) as Hx. destruct (encodeXtext d) as [x|].
  - destruct Hx as [Hd Hx]. exists x. split_and!; [done| |done|].
    + intros ->. by injection Hd as <-.
    + cbn. rewrite Hd. destruct d; [done|]. by rewrite Hc.
  - exfalso. apply Exists_exists in Hx as (c & Hin & Hgt). rewrite Forall_forall in Hr.
    specialize (Hr c Hin). cbn in Hr. lia.
Qed.

Definition mail_ok (ps : MailParams) : Prop :=
  match mp_size ps with Some n => 0 <= n | None => True end /\
  match mp_auth ps with Some d => xt_ok d | None => True end /\
  match mp_envid ps with Some d => xt_ok d /\ (length d <= 100)%nat | None => True end.

Lemma mailParam_ok kv p p' : mail_ok p -> mailParam kv p = inr p' -> mail_ok p'.
Proof.
  intros (Hs & Ha & He). unfold mailParam. destruct kv as [k v].
  case_decide.
  { destruct v as [v|]; [|done]. destruct (_ && _ && _) eqn:Hd; [|done]. intros [= <-].
    rewrite !andb_true_iff in Hd. destruct Hd as [[Hd _] _].
    split_and!; [by apply to_double_nonneg, digits_val_nonneg|done|done]. }
  case_decide; [repeat (case_match; try done); intros; simplify_eq/=; by split_and!|].
  case_decide; [repeat (case_match; try done); intros; simplify_eq/=; by split_and!|].
  case_decide.
  { destruct (xtextValue v) eqn:E; [|done]. intros [= <-]. split_and!; [done|by eapply xtextValue_ok|done]. }
  case_decide; [repeat (case_match; try done); intros; simplify_eq/=; by split_and!|].
  case_decide; [|done]. destruct (xtextValue v) as [d|] eqn:E; [|done].
  destruct (100 <? length d)%nat eqn:Hl; [done|]. apply Nat.ltb_ge in Hl. intros [= <-].
  split; [done|]. split; [done|]. cbn. split; [by eapply xtextValue_ok|done].
Qed.

Definition notify_ok (l : list jsstr) : Prop :=
  l <> [] /\ NoDup l /\
  (if bool_decide (l = [lit "NEVER"]) then true
   else forallb (fun v => bool_decide (v ∈ NOTIFY_VALUES)) l) = true.

Definition rcpt_ok (ps : RcptParams) : Prop :=
  match rcp_notify ps with Some l => notify_ok l | None => True end /\
  match rcp_orcpt ps with Some (t, a) => isAddrType t = true /\ xt_ok a | None => True end.

Lemma rcptParam_ok kv p p' : rcpt_ok p -> rcptParam kv p = inr p' -> rcpt_ok p'.
Proof.
  intros [Hn Ho]. unfold rcptParam. destruct kv as [k v]. case_decide.
  - destruct (negb _) eqn:Hv; [done|]. intros [= <-]. apply negb_false_iff in Hv.
    rewrite !andb_true_iff in Hv. destruct Hv as [[_ Hnd%bool_decide_eq_true] Hv].
    split; [|done]. cbn. split_and!; [apply splitOn_ne|done|done].
  - case_decide; [|done]. destruct v as [v|]; [|done]. destruct (indexOf _ v) as [[|i]|]; try done.
    destruct (isAddrType _) eqn:Ht; [|done]. destruct (xtextValue _) as [a|] eqn:Ha; [|done].
    intros [= <-]. split; [done|]. split; [done|by eapply xtextValue_ok].
Qed.

(** ** MAIL parameters *)

Definition opt_kv (k : jsstr) (o : option jsstr) : list RawParam :=
  match o with Some x => [(k, Some x)] | None => [] end.
Definition opt_tok (k : jsstr) (o : option jsstr) : list jsstr :=
  match o with Some x => [k ++ 0x3d :: x] | None => [] end.

Definition value_ok (x : jsstr) : Prop := x <> [] /\ Forall (fun c => 33 <= c <= 126 /\ c <> 0x3d) x.

Lemma opt_tokens k o :
  isKeyword k = true -> (forall x, o = Some x -> value_ok x) -> Forall2 token_of (opt_tok k o) (opt_kv k o).
Proof.
  intros Hk Ho. destruct o as [x|]; [|constructor]. destruct (Ho x eq_refl) as [Hne Hx].
  constructor; [|constructor]. by split.
Qed.

(** An optional text encoded as xtext. *)
Lemma xtext_print_opt key o :
  match o with Some d => xt_ok d | None => True end ->
  exists x, xtextParam (key ++ [0x3d]) o = Some (opt_tok key x) /\
    (forall y, x = Some y -> value_ok y) /\
    match o with
    | Some d => exists y, x = Some y /\ xtextValue (Some y) = Some d
    | None => x = None
    end.
Proof.
  intros Ho. destruct o as [d|]; [|by exists None].
  destruct (xtext_print d Ho) as (x & Hx & Hne & Hv & Hd). exists (Some x). cbn. rewrite Hx. split_and!.
  - cbn. by rewrite <- app_assoc.
  - by intros y [= <-].
  - eauto.
Qed.

Definition mail_kvs (ps : MailParams) (ax ex : option jsstr) : list RawParam :=
  opt_kv (lit "SIZE") (dec <$> mp_size ps) ++ opt_kv (lit "BODY") (body_name <$> mp_body ps) ++
  (if mp_smtputf8 ps then [(lit "SMTPUTF8", None)] else []) ++ opt_kv (lit "AUTH") ax ++
  opt_kv (lit "RET") (ret_name <$> mp_ret ps) ++ opt_kv (lit "ENVID") ex.

Definition mail_toks (ps : MailParams) (ax ex : option jsstr) : list jsstr :=
  opt_tok (lit "SIZE") (dec <$> mp_size ps) ++ opt_tok (lit "BODY") (body_name <$> mp_body ps) ++
  (if mp_smtputf8 ps then [lit "SMTPUTF8"] else []) ++ opt_tok (lit "AUTH") ax ++
  opt_tok (lit "RET") (ret_name <$> mp_ret ps) ++ opt_tok (lit "ENVID") ex.

Lemma dec_value_ok n : 0 <= n -> value_ok (dec n).
Proof.
  intros Hn. destruct (dec_spec n Hn) as (Hd & Hne & _). split; [done|].
  eapply Forall_impl; [done|]. intros c Hc%is_digit_spec. lia.
Qed.

Lemma mail_tokens ps ax ex :
  mail_ok ps -> (forall y, ax = Some y -> value_ok y) -> (forall y, ex = Some y -> value_ok y) ->
  Forall2 token_of (mail_toks ps ax ex) (mail_kvs ps ax ex).
Proof.
  intros (Hs & _ & _) Ha He. repeat apply Forall2_app; try (apply opt_tokens; [reflexivity|]); try done.
  - destruct (mp_size ps); [|done]. intros x [= <-]. by apply dec_value_ok.
  - destruct (mp_body ps) as [[]|]; intros x [= <-]; apply (bool_decide_unpack _); exact I.
  - destruct (mp_smtputf8 ps); repeat constructor.
  - destruct (mp_ret ps) as [[]|]; intros x [= <-]; apply (bool_decide_unpack _); exact I.
Qed.

Lemma mail_keys_NoDup ps ax ex : NoDup ((mail_kvs ps ax ex).*1).
Proof.
  destruct ps as [s b u a r e]. unfold mail_kvs. rewrite !fmap_app. cbn [mp_size mp_body mp_smtputf8 mp_ret].
  destruct s, b, u, ax, r, ex; apply (bool_decide_unpack _); exact I.
Qed.

Lemma paramLoop_app {P} (step : RawParam -> P -> SmtpReply + P) a b p :
  paramLoop step (a ++ b) p =
  match paramLoop step a p with inl e => inl e | inr p => paramLoop step b p end.
Proof.
  revert p. induction a as [|kv a IH]; intros p; cbn; [done|]. by destruct (step kv p).
Qed.

Lemma mailParam_size n p :
  0 <= n <= 2 ^ 53 ->
  mailParam (lit "SIZE", Some (dec n)) p =
  inr (mkMailParams (Some n) (mp_body p) (mp_smtputf8 p) (mp_auth p) (mp_ret p) (mp_envid p)).
Proof.
  intros Hn. unfold mailParam. rewrite decide_True by done.
  destruct (dec_spec n) as (Hd & Hne & _); [lia|].
  rewrite (proj2 (forallb_Forall is_digit (dec n)) Hd), Number_dec by done.
  assert (length (dec n) <= 20)%nat as Hl.
  { apply (dec_length n 19). split; [lia|]. apply Z.le_lt_trans with (2 ^ 53); [lia|]. reflexivity. }
  rewrite (proj2 (Nat.leb_le _ _) Hl).
  by replace (1 <=? length (dec n))%nat with true by (symmetry; apply Nat.leb_le; destruct (dec n); [done|cbn; lia]).
Qed.

Definition size_safe (ps : MailParams) : Prop :=
  match mp_size ps with Some n => n <= 2 ^ 53 | None => True end.

Lemma mail_params_read ps ax ex :
  mail_ok ps -> size_safe ps ->
  match mp_auth ps with
  | Some d => exists y, ax = Some y /\ xtextValue (Some y) = Some d | None => ax = None end ->
  match mp_envid ps with
  | Some d => exists y, ex = Some y /\ xtextValue (Some y) = Some d | None => ex = None end ->
  paramLoop mailParam (mail_kvs ps ax ex) noMailParams = inr ps.
Proof.
  intros (Hs & _ & He') Hsafe Ha He. destruct ps as [s b u a r e]. unfold size_safe, mail_kvs in *.
  cbn [mp_size mp_body mp_smtputf8 mp_auth mp_ret mp_envid] in *.
  assert (paramLoop mailParam (opt_kv (lit "SIZE") (dec <$> s)) noMailParams =
    inr (mkMailParams s None false None None None)) as H1.
  { destruct s; [|done]. cbn [opt_kv fmap option_fmap option_map paramLoop]. by rewrite mailParam_size. }
  assert (forall p, mp_body p = None -> paramLoop mailParam (opt_kv (lit "BODY") (body_name <$> b)) p =
    inr (mkMailParams (mp_size p) b (mp_smtputf8 p) (mp_auth p) (mp_ret p) (mp_envid p))) as H2.
  { intros [] Hp. cbn in Hp; subst. by destruct b as [[]|]. }
  assert (forall p, mp_ret p = None -> paramLoop mailParam (opt_kv (lit "RET") (ret_name <$> r)) p =
    inr (mkMailParams (mp_size p) (mp_body p) (mp_smtputf8 p) (mp_auth p) r (mp_envid p))) as H5.
  { intros [] Hp. cbn in Hp; subst. by destruct r as [[]|]. }
  assert (forall p, mp_auth p = None -> paramLoop mailParam (opt_kv (lit "AUTH") ax) p =
    inr (mkMailParams (mp_size p) (mp_body p) (mp_smtputf8 p) a (mp_ret p) (mp_envid p))) as H4.
  { intros [] Hp. cbn in Hp; subst. destruct a as [d|]; [|by subst]. destruct Ha as (y & -> & Hy).
    unfold opt_kv. cbn [paramLoop]. unfold mailParam.
    do 3 rewrite decide_False by done. rewrite decide_True by done. by rewrite Hy. }
  assert (forall p, mp_envid p = None -> paramLoop mailParam (opt_kv (lit "ENVID") ex) p =
    inr (mkMailParams (mp_size p) (mp_body p) (mp_smtputf8 p) (mp_auth p) (mp_ret p) e)) as H6.
  { intros [] Hp. cbn in Hp; subst. destruct e as [d|]; [|by subst]. destruct He as (y & -> & Hy).
    unfold opt_kv. cbn [paramLoop]. unfold mailParam.
    do 5 rewrite decide_False by done. rewrite decide_True by done. rewrite Hy.
    by rewrite (proj2 (Nat.ltb_ge _ _)) by apply He'. }
  assert (forall s b, paramLoop mailParam (if u then [(lit "SMTPUTF8", None)] else []) (mkMailParams s b false None None None) =
    inr (mkMailParams s b u None None None)) as H3 by (intros; by destruct u).
  rewrite paramLoop_app, H1. cbv iota beta. rewrite paramLoop_app, H2 by done. cbv iota beta.
  rewrite paramLoop_app. cbn [mp_size mp_body mp_smtputf8 mp_auth mp_ret mp_envid]. rewrite H3. cbv iota beta.
  rewrite paramLoop_app, H4 by done. cbv iota beta. rewrite paramLoop_app, H5 by done. cbv iota beta.
  by rewrite H6.
Qed.

Lemma formatMailParams_toks ps ax ex :
  mail_ok ps -> size_safe ps -> xtextParam (lit "AUTH=") (mp_auth ps) = Some (opt_tok (lit "AUTH") ax) ->
  xtextParam (lit "ENVID=") (mp_envid ps) = Some (opt_tok (lit "ENVID") ex) ->
  formatMailParams ps = Some (spaced (mail_toks ps ax ex)).
Proof.
  intros (Hs & _ & _) Hsafe Ha He. unfold formatMailParams. rewrite Ha, He.
  unfold mail_toks. unfold size_safe in Hsafe. do 3 f_equal.
  - destruct (mp_size ps) as [n|]; [|done]. cbn. unfold num_string.
    by replace (Z.abs n <=? 2 ^ 53) with true by lia.
  - f_equal; [by destruct (mp_body ps)|]. do 2 f_equal. f_equal. by destruct (mp_ret ps).
Qed.

Lemma mail_params_roundtrip ps :
  mail_ok ps -> size_safe ps ->
  exists toks kvs, formatMailParams ps = Some (spaced toks) /\ Forall2 token_of toks kvs /\
    NoDup (kvs.*1) /\ paramLoop mailParam kvs noMailParams = inr ps.
Proof.
  intros Hok Hs. pose proof Hok as (_ & Ha & He).
  destruct (xtext_print_opt (lit "AUTH") (mp_auth ps) Ha) as (ax & Hax & Hva & Hra).
  destruct (xtext_print_opt (lit "ENVID") (mp_envid ps)) as (ex & Hex & Hve & Hre).
  { destruct (mp_envid ps); [apply He|done]. }
  exists (mail_toks ps ax ex), (mail_kvs ps ax ex). split_and!.
  - by apply formatMailParams_toks.
  - by apply mail_tokens.
  - apply mail_keys_NoDup.
  - by apply mail_params_read.
Qed.

(** ** RCPT parameters *)

Lemma notify_chars l : notify_ok l -> Forall (fun v => v <> [] /\ Forall (fun c => 65 <= c <= 90) v) l.
Proof.
  intros (_ & _ & Hv). case_bool_decide as Hn.
  { subst. apply (bool_decide_unpack _); exact I. }
  apply forallb_Forall in Hv. eapply Forall_impl; [done|]. cbn. intros v Hin%bool_decide_eq_true.
  assert (Forall (fun v => v <> [] /\ Forall (fun c => 65 <= c <= 90) v) NOTIFY_VALUES) as Hall
    by (apply (bool_decide_unpack _); exact I).
  rewrite Forall_forall in Hall. by apply Hall.
Qed.

Lemma joinWith_Forall (P : Z -> Prop) sep ps :
  P sep -> Forall (Forall P) ps -> Forall P (joinWith [sep] ps).
Proof.
  intros Hs Hp. induction Hp as [|p ps Hp _ IH]; [constructor|].
  destruct (decide (ps = [])) as [->|]; [done|]. rewrite joinWith_cons by done.
  apply Forall_app; split; [done|]. by constructor.
Qed.

Lemma notify_read l p :
  notify_ok l ->
  rcptParam (lit "NOTIFY", Some (joinWith [COMMA] l)) p = inr (mkRcptParams (Some l) (rcp_orcpt p)) /\
  value_ok (joinWith [COMMA] l).
Proof.
  intros Hl. pose proof (notify_chars l Hl) as Hc. pose proof Hl as (Hne & Hnd & Hv).
  assert (Forall (fun c => c = COMMA \/ 65 <= c <= 90) (joinWith [COMMA] l)) as Hj.
  { apply joinWith_Forall; [by left|]. eapply Forall_impl; [done|]. cbn. intros v [_ Hvc].
    eapply Forall_impl; [done|]. auto. }
  split.
  - unfold rcptParam. rewrite decide_True by done. cbn [default]. unfold id.
    rewrite toUpperCase_id by (eapply Forall_impl; [done|]; cbn; intros; zchars).
    rewrite splitOn_joinWith; [|done|].
    + rewrite Hv, (bool_decide_eq_true_2 (NoDup l)) by done. done.
    + eapply Forall_impl; [done|]. cbn. intros v [_ Hvc] Hin. rewrite Forall_forall in Hvc.
      specialize (Hvc _ Hin). cbn in Hvc. zchars.
  - split.
    + destruct Hc as [|v l' [Hv1 _] _]; [done|]. destruct v, l'; done.
    + eapply Forall_impl; [done|]. cbn. intros c Hc'. zchars.
Qed.

Lemma orcpt_read t a x p :
  isAddrType t = true -> xtextValue (Some x) = Some a -> x <> [] -> Forall (fun c => 33 <= c <= 126 /\ c <> 0x3d) x ->
  rcptParam (lit "ORCPT", Some (t ++ 0x3b :: x)) p = inr (mkRcptParams (rcp_notify p) (Some (t, a))) /\
  value_ok (t ++ 0x3b :: x).
Proof.
  intros Ht Ha Hne Hx. assert (t <> [] /\ Forall (fun c => 45 <= c <= 122 /\ c <> 0x3b /\ c <> 0x3d) t) as [Htn Htc].
  { destruct t as [|c t]; [done|]. cbn [isAddrType] in Ht. apply andb_true_iff in Ht as [Hc Ht%forallb_Forall].
    split; [done|]. constructor; [zkeys|]. eapply Forall_impl; [done|]. cbn. intros y Hy. zkeys. }
  split.
  - unfold rcptParam. rewrite decide_False, decide_True by done.
    rewrite indexOf_first by (intros Hin; rewrite Forall_forall in Htc; specialize (Htc _ Hin); cbn in Htc; lia).
    destruct (length t) as [|i] eqn:El; [by destruct t|]. rewrite <- El.
    rewrite take_app_length, cons_middle, app_assoc, drop_app_length' by (rewrite length_app; cbn; lia).
    by rewrite Ht, Ha.
  - split; [by destruct t|]. apply Forall_app. split; [eapply Forall_impl; [done|]; cbn; lia|].
    constructor; [lia|done].
Qed.

Lemma rcpt_params_roundtrip ps :
  rcpt_ok ps ->
  exists toks kvs, formatRcptParams ps = Some (spaced toks) /\ Forall2 token_of toks kvs /\
    NoDup (kvs.*1) /\ paramLoop rcptParam kvs noRcptParams = inr ps.
Proof.
  destruct ps as [n o]. intros [Hn Ho]. cbn in Hn, Ho. unfold formatRcptParams. cbn [rcp_notify rcp_orcpt].
  assert (exists ox, match o with None => Some [] | Some (t, a) => xtextParam (lit "ORCPT=" ++ t ++ [0x3b]) (Some a) end
      = Some (opt_tok (lit "ORCPT") ox) /\ (forall y, ox = Some y -> value_ok y) /\
      forall p, rcp_orcpt p = None -> paramLoop rcptParam (opt_kv (lit "ORCPT") ox) p = inr (mkRcptParams (rcp_notify p) o))
    as (ox & -> & Hvo & Hro).
  { destruct o as [[t a]|]; [|exists None; split_and!; [done|done|]; intros [] Hp; cbn in *; by subst].
    destruct Ho as [Ht Ha]. destruct (xtext_print a Ha) as (x & Hx & Hne & Hxc & Hxv).
    exists (Some (t ++ 0x3b :: x)). cbn [xtextParam]. rewrite Hx.
    split_and!; [cbn; by rewrite <- app_assoc|intros y [= <-]; by eapply (orcpt_read t a x noRcptParams)|].
    intros p _. cbn [opt_kv paramLoop]. by destruct (orcpt_read t a x p Ht Hxv Hne Hxc) as [-> _]. }
  exists (opt_tok (lit "NOTIFY") (joinWith [COMMA] <$> n) ++ opt_tok (lit "ORCPT") ox),
    (opt_kv (lit "NOTIFY") (joinWith [COMMA] <$> n) ++ opt_kv (lit "ORCPT") ox). split_and!.
  - do 3 f_equal. by destruct n.
  - apply Forall2_app; apply opt_tokens; try reflexivity; [|done].
    destruct n as [l|]; [|done]. intros x [= <-]. by apply (notify_read l noRcptParams).
  - rewrite fmap_app. destruct n, ox; apply (bool_decide_unpack _); exact I.
  - rewrite paramLoop_app. destruct n as [l|]; cbn [opt_kv fmap option_fmap option_map paramLoop]; [|by apply Hro].
    destruct (notify_read l noRcptParams Hn) as [-> _]. by rewrite Hro.
Qed.

(** ** Commands *)

Definition cmd_ok (u : bool) (c : SmtpCommand) : Prop :=
  match c with
  | CHello _ d => d <> [] /\ SP ∉ d /\ isDomainOrLiteral d = true
  | CMail p ps => exists na, path_ok Reverse p na /\ mail_ok ps /\ na && negb (mp_smtputf8 ps) = false
  | CRcpt p ps => exists na, path_ok Forward p na /\ rcpt_ok ps /\ na && negb u = false
  | CPlain _ => True
  | CNoop a | CHelp a => match a with Some a => trimmed is_sp a /\ clean a | None => True end
  | CVrfy a => trimmed is_sp a /\ clean a
  | CAuth m ir =>
      isMechanism m = true /\
      match ir with Some r => r <> [] /\ (r = lit "=" \/ isBase64 r = true) | None => True end
  end.

(** The last part of a split is not empty when the text does not end with a separator. *)
Lemma splitRuns_last f fuel s :
  (length s <= fuel)%nat -> (exists t c, s = t ++ [c] /\ f c = false) ->
  exists p, last (splitRuns f fuel s) = Some p /\ p <> [].
Proof.
  revert s. induction fuel as [|fuel IH]; intros s Hl (t & c & Hs & Hc).
  { subst. rewrite length_app in Hl. cbn in Hl. lia. }
  cbn [splitRuns]. set (p := takeWhile _ s). pose proof (takeWhile_dropWhile (fun c => negb (f c)) s) as Hp.
  fold p in Hp. rewrite <- Hp, drop_app_length. rewrite <- Hp in Hs.
  destruct (dropWhile _ s) as [|x r] eqn:Er.
  - exists p. split; [done|]. rewrite app_nil_r in Hs. intros ->. by destruct t.
  - assert (f x = true) as Hx.
    { destruct (dropWhile_head (fun c => negb (f c)) s) as [Hd|(y & w & Hd & Hy)]; rewrite Er in Hd; [done|].
      injection Hd as <- <-. by apply negb_false_iff. }
    destruct (dropWhile_suffix f (x :: r)) as (q & Hq & Hqf).
    assert (exists t c, dropWhile f (x :: r) = t ++ [c] /\ f c = false) as Hend.
    { destruct (dropWhile f (x :: r)) as [|y w _] using rev_ind.
      - exfalso. rewrite app_nil_r in Hq. rewrite Hq in Hs.
        destruct q as [|z q _] using rev_ind; [done|]. rewrite app_assoc in Hs.
        apply app_inj_tail in Hs as [_ ->]. apply Forall_app in Hqf as [_ Hqf]. inv Hqf. congruence.
      - exists w, y. split; [done|]. rewrite Hq, !app_assoc in Hs. apply app_inj_tail in Hs as [_ ->]. done. }
    destruct (IH (dropWhile f (x :: r))) as (last_p & Hlast & Hne).
    + apply (f_equal length) in Hp, Hq. rewrite length_app in Hp, Hq. cbn [length] in *.
      destruct q as [|z q]; [|cbn in *; lia]. cbn in Hq. exfalso.
      cbn [dropWhile] in Hq. rewrite Hx in Hq.
      destruct (dropWhile_suffix f r) as (q' & Hq' & _). apply (f_equal length) in Hq'. rewrite length_app in Hq'. lia.
    + done.
    + exists last_p. split; [|done].
      destruct (splitRuns f fuel (dropWhile f (x :: r))) eqn:E; [done|].
      cbn [last]. by rewrite E in Hlast || done.
Qed.

Lemma parseAuth_ok args c u : trimmed is_sp args -> parseAuth args = inr c -> cmd_ok u c.
Proof.
  intros [_ Hend]. unfold parseAuth. destruct args as [|x args]; [done|].
  destruct (splitRuns_last is_sp (length (x :: args)) (x :: args)) as (p & Hp & Hne); [lia|done|].
  fold (splitSpaces (x :: args)) in Hp. destruct (splitSpaces (x :: args)) as [|m rest]; [done|].
  destruct (_ || _) eqn:E; [done|]. apply orb_false_iff in E as [Hl Hm%negb_false_iff].
  apply Nat.ltb_ge in Hl. destruct rest as [|ir [|]]; [by intros [= <-]| |cbn in Hl; lia].
  destruct (_ && _) eqn:E; [done|]. intros [= <-]. cbn in Hp. injection Hp as ->.
  split; [done|]. split; [done|].
  apply andb_false_iff in E as [E%negb_false_iff|E%negb_false_iff]; [left|by right].
  by apply bool_decide_eq_true in E.
Qed.

Lemma parseMail_ok args c u : parseMail args = inr c -> cmd_ok u c.
Proof.
  unfold parseMail. destruct (pathArgs _ _ _) as [[[path e na|] rest]|] eqn:Hp; try done.
  destruct (splitParams rest) as [|raw]; [done|].
  destruct (paramLoop _ _ _) as [|ps] eqn:Hl; [done|]. destruct (_ && _) eqn:Hn; [done|]. intros [= <-].
  apply (paramLoop_inv mail_ok) in Hl; [|apply mailParam_ok|done].
  exists na. split_and!; [by eapply pathArgs_ok|apply Hl..|done].
Qed.

Lemma parseRcpt_ok args c u : parseRcpt args u = inr c -> cmd_ok u c.
Proof.
  unfold parseRcpt. destruct (pathArgs _ _ _) as [[[path e na|] rest]|] eqn:Hp; try done.
  destruct (_ && _) eqn:Hn; [done|]. destruct (splitParams rest) as [|raw]; [done|].
  destruct (paramLoop _ _ _) as [|ps] eqn:Hl; [done|]. intros [= <-].
  apply (paramLoop_inv rcpt_ok) in Hl; [|apply rcptParam_ok|done].
  exists na. split_and!; [by eapply pathArgs_ok|apply Hl..|done].
Qed.

Lemma parseHello_ok v args c u : parseHello v args = inr c -> cmd_ok u c.
Proof.
  unfold parseHello. destruct args as [|x args]; [done|]. case_bool_decide; [done|].
  fold (isDomainOrLiteral (x :: args)). destruct (isDomainOrLiteral _) eqn:Hd; [|done]. by intros [= <-].
Qed.

Lemma parseVerb_ok verb args c u :
  args = [] \/ trimmed is_sp args -> (verb <> lit "MAIL" -> verb <> lit "RCPT" -> clean args) ->
  parseVerb verb args u = inr c -> cmd_ok u c.
Proof.
  intros Ht Hc. unfold parseVerb.
  do 4 (case_decide; [destruct args; [by intros [= <-]|done]|]).
  do 2 (case_decide; [apply parseHello_ok|]).
  case_decide; [apply parseMail_ok|]. case_decide; [apply parseRcpt_ok|].
  assert (args = [] \/ trimmed is_sp args /\ clean args) as Harg by naive_solver.
  do 2 (case_decide; [intros [= <-]; destruct Harg as [->|Ha]; [done|by destruct args]|]).
  case_decide; [destruct args; [done|]; intros [= <-]; by destruct Harg|].
  case_decide; [|done]. destruct Ht as [->|Ht]; [done|]. by apply parseAuth_ok.
Qed.

Lemma parseCommand_ok line u c : parseCommand line u = inr c -> cmd_ok u c.
Proof.
  unfold parseCommand. destruct (scanOctets line) as [ascii|] eqn:Hs; [|done].
  destruct (if ascii : bool then _ else _) as [text|] eqn:Ht; [|done].
  destruct (match indexOf SP text with None => _ | Some _ => _ end) as [verb args] eqn:Hv.
  destruct (negb (isVerb verb)); [done|]. destruct (_ && _ && _) eqn:Ha; [done|].
  apply parseVerb_ok.
  - destruct (indexOf SP text); simplify_eq; [apply trim_trimmed|by left].
  - intros H1 H2. rewrite (bool_decide_eq_false_2 (verb = lit "MAIL")),
      (bool_decide_eq_false_2 (verb = lit "RCPT")) in Ha by done.
    destruct ascii; [|done]. injection Ht as <-. destruct (indexOf SP line); simplify_eq; [|constructor].
    apply Forall_dropEndWhile, Forall_dropWhile, Forall_drop. by eapply scanOctets_clean.
Qed.

(** ** Formatting and reading back *)

(** The formatted line is clean, and if it is ASCII it parses to the command. *)
Definition reads_as (out : jsstr) (u : bool) (c : SmtpCommand) : Prop :=
  clean out /\ (is_ascii out = true -> parseCommand out u = inr c).

Lemma line_reads_as v args u c :
  isVerb v = true -> args = [] \/ trimmed is_sp args -> clean args -> parseVerb v args u = inr c ->
  reads_as (verb_line v args) u c.
Proof.
  intros Hv Ht Hc Hp. assert (clean (verb_line v args)) as Hcl.
  { assert (clean v).
    { unfold isVerb in Hv. rewrite !andb_true_iff in Hv. destruct Hv as [[Hv _] _].
      apply forallb_Forall in Hv. eapply Forall_impl; [done|]. cbn. intros x Hx. zkeys. }
    unfold verb_line. destruct args; [done|]. apply Forall_app; split; [done|].
    constructor; [reflexivity|done]. }
  split; [done|]. intros Ha. by rewrite parse_verb_line.
Qed.

Lemma path_args_read prefix kind p na toks :
  toUpperCase prefix = prefix -> path_ok kind p na ->
  pathArgs (prefix ++ formatPath p ++ spaced toks) prefix kind =
    Some (PathOk p (length prefix + length (formatPath p)) na, spaced toks).
Proof.
  intros Hup Hp. unfold pathArgs. rewrite take_app_length, bool_decide_eq_true_2 by done. cbn [negb].
  rewrite drop_app_length. assert (takeWhile is_sp (formatPath p ++ spaced toks) = []) as ->.
  { destruct p; reflexivity. }
  cbn [length]. rewrite Nat.add_0_r, (parsePath_format _ _ na) by done.
  by rewrite app_assoc, drop_app_length' by (rewrite length_app; lia).
Qed.

Lemma formatPath_end p : exists t, formatPath p = t ++ [GT_CH].
Proof.
  destruct p as [|m|]; [by exists [LT_CH]|by exists (LT_CH :: formatMailbox m)|].
  by exists (lit "<Postmaster").
Qed.

Lemma path_args_text `{!RuntimeOk _} c prefix kind p na toks kvs :
  is_sp c = false -> clean (c :: prefix) -> path_ok kind p na -> Forall2 token_of toks kvs ->
  trimmed is_sp ((c :: prefix) ++ formatPath p ++ spaced toks) /\
  clean ((c :: prefix) ++ formatPath p ++ spaced toks).
Proof.
  intros Hc Hcl Hp Ht.
  assert (Forall (fun tok => tok <> [] /\ Forall (fun c => 33 <= c <= 126) tok) toks) as Hg.
  { induction Ht; constructor; [by eapply token_graphic|done]. }
  split.
  - split; [by eexists c, _|]. destruct (decide (toks = [])) as [->|Hne].
    + destruct (formatPath_end p) as [t ->]. exists ((c :: prefix) ++ t), GT_CH.
      split; [|done]. unfold spaced. cbn. by rewrite app_nil_r, <- app_assoc.
    + rewrite spaced_join by done.
      destruct (joinWith_trimmed is_sp toks Hne) as [_ (t & d & -> & Hd)]; [by apply graphic_words|].
      exists ((c :: prefix) ++ formatPath p ++ SP :: t), d. split; [|done]. cbn. by rewrite <- !app_assoc.
  - apply Forall_app; split; [done|]. apply Forall_app; split; [by eapply path_ok_printable|].
    unfold spaced. apply Forall_concat, Forall_fmap. eapply Forall_impl; [done|]. cbn.
    intros tok [_ Htok]. constructor; [reflexivity|]. eapply Forall_impl; [done|]. cbn. intros; zchars.
Qed.

Lemma mail_reads_as `{!RuntimeOk _} p ps u :
  cmd_ok u (CMail p ps) -> size_safe ps ->
  exists out, formatCommand (CMail p ps) = Some out /\ reads_as out u (CMail p ps).
Proof.
  intros (na & Hp & Hok & Hna) Hs. destruct (mail_params_roundtrip ps Hok Hs) as (toks & kvs & Hf & Ht & Hnd & Hl).
  cbn [formatCommand]. rewrite Hf. eexists. split; [reflexivity|].
  destruct (path_args_text 70 (lit "ROM:") Reverse p na toks kvs) as [Htr Hcl];
    [reflexivity|by repeat constructor|done|done|].
  apply (line_reads_as (lit "MAIL") (lit "FROM:" ++ formatPath p ++ spaced toks)); [reflexivity|by right|done|].
  change (parseVerb (lit "MAIL") (lit "FROM:" ++ formatPath p ++ spaced toks) u) with
    (parseMail (lit "FROM:" ++ formatPath p ++ spaced toks)). unfold parseMail.
  rewrite (path_args_read _ _ _ na) by done. rewrite (splitParams_tokens toks kvs), Hl by done. by rewrite Hna.
Qed.

Lemma rcpt_reads_as `{!RuntimeOk _} p ps u :
  cmd_ok u (CRcpt p ps) ->
  exists out, formatCommand (CRcpt p ps) = Some out /\ reads_as out u (CRcpt p ps).
Proof.
  intros (na & Hp & Hok & Hna). destruct (rcpt_params_roundtrip ps Hok) as (toks & kvs & Hf & Ht & Hnd & Hl).
  cbn [formatCommand]. rewrite Hf. eexists. split; [reflexivity|].
  destruct (path_args_text 84 (lit "O:") Forward p na toks kvs) as [Htr Hcl];
    [reflexivity|by repeat constructor|done|done|].
  apply (line_reads_as (lit "RCPT") (lit "TO:" ++ formatPath p ++ spaced toks)); [reflexivity|by right|done|].
  change (parseVerb (lit "RCPT") (lit "TO:" ++ formatPath p ++ spaced toks) u) with
    (parseRcpt (lit "TO:" ++ formatPath p ++ spaced toks) u). unfold parseRcpt.
  rewrite (path_args_read _ _ _ na) by done. rewrite Hna. by rewrite (splitParams_tokens toks kvs), Hl by done.
Qed.

Lemma no_space_trimmed s : s <> [] -> SP ∉ s -> trimmed is_sp s.
Proof.
  intros Hne Hsp. split.
  - destruct s as [|c s]; [done|]. exists c, s. split; [done|]. apply Z.eqb_neq. set_solver.
  - destruct s as [|c s _] using rev_ind; [done|]. exists s, c. split; [done|]. apply Z.eqb_neq. set_solver.
Qed.

Lemma hello_reads_as `{!RuntimeOk _} v d u :
  cmd_ok u (CHello v d) -> reads_as (hello_name v ++ [SP] ++ d) u (CHello v d).
Proof.
  intros (Hne & Hsp & Hd).
  replace (hello_name v ++ [SP] ++ d) with (verb_line (hello_name v) d) by (by destruct d).
  apply line_reads_as; [by destruct v|right; by apply no_space_trimmed| |].
  - eapply Forall_impl; [by apply isDomainOrLiteral_graphic|]. unfold graphic. cbn. intros; zchars.
  - assert (parseVerb (hello_name v) d u = parseHello v d) as -> by (by destruct v).
    unfold parseHello. destruct d as [|x d]; [done|]. rewrite bool_decide_eq_false_2 by done.
    fold (isDomainOrLiteral (x :: d)). by rewrite Hd.
Qed.

Lemma mechanism_chars m : isMechanism m = true ->
  m <> [] /\ Forall (fun c => 45 <= c <= 95) m.
Proof.
  unfold isMechanism. rewrite !andb_true_iff. intros [[Hm%forallb_Forall Hl] _].
  split; [by destruct m|]. eapply Forall_impl; [done|]. cbn. intros; zkeys.
Qed.

Lemma auth_reads_as m ir u :
  cmd_ok u (CAuth m ir) -> reads_as (withArgument (lit "AUTH " ++ m) ir) u (CAuth m ir).
Proof.
  intros [Hm Hir]. destruct (mechanism_chars m Hm) as [Hne Hc].
  set (parts := m :: option_list ir).
  assert (Forall (word is_sp) parts /\ Forall clean parts) as [Hw Hcl].
  { assert (word is_sp m /\ clean m) as [??].
    { split; [split; [done|]|]; (eapply Forall_impl; [done|]); cbn; intros; zchars. }
    destruct ir as [r|]; [|unfold parts; cbn; rewrite !Forall_cons; auto]. destruct Hir as [Hr Hb].
    assert (Forall (fun c => 43 <= c <= 122) r).
    { destruct Hb as [->|Hb]; [apply (bool_decide_unpack _); exact I|].
      unfold isBase64 in Hb. apply andb_true_iff in Hb as [_ [Hb%forallb_Forall _]%andb_true_iff].
      pose proof (takeWhile_true isBase64Char r) as Ht. rewrite <- (takeWhile_dropWhile isBase64Char r) in Hb at 2.
      rewrite drop_app_length in Hb. rewrite <- (takeWhile_dropWhile isBase64Char r).
      apply Forall_app. split; (eapply Forall_impl; [done|]); cbn; intros; zkeys. }
    assert (word is_sp r /\ clean r) as [??].
    { split; [split; [done|]|]; (eapply Forall_impl; [done|]); cbn; intros; zchars. }
    unfold parts; cbn; rewrite !Forall_cons; auto 10. }
  assert (withArgument (lit "AUTH " ++ m) ir = verb_line (lit "AUTH") (joinWith [SP] parts)) as ->.
  { unfold parts, verb_line. destruct m as [|x m]; [done|]. by destruct ir. }
  apply line_reads_as; [reflexivity|right; by apply joinWith_trimmed|by apply joinWith_Forall|].
  change (parseVerb (lit "AUTH") (joinWith [SP] parts) u) with (parseAuth (joinWith [SP] parts)).
  unfold parseAuth. assert (match joinWith [SP] parts with [] => [] | _ => splitSpaces (joinWith [SP] parts) end = parts) as ->.
  { unfold splitSpaces. rewrite (splitRuns_join _ SP) by done. unfold parts. by destruct m, ir. }
  unfold parts. rewrite toUpperCase_id by (eapply Forall_impl; [done|]; cbn; lia). rewrite Hm.
  destruct ir as [r|]; [|done]. destruct Hir as [_ [->|Hb]]; [done|]. cbn. rewrite Hb.
  by rewrite andb_false_r.
Qed.

Lemma argument_reads_as v a u c :
  isVerb v = true -> trimmed is_sp a /\ clean a -> parseVerb v a u = inr c ->
  reads_as (withArgument v (Some a)) u c.
Proof.
  intros Hv [Ht Ha] Hp. replace (withArgument v (Some a)) with (verb_line v a).
  - apply line_reads_as; auto.
  - destruct Ht as [(x & t & -> & _) _]. done.
Qed.

(** Every command the parser accepts can be written by [formatCommand]; the written line holds no
    control character, and, whenever it is ASCII, parsing it yields the same command again -
    parameters, quoting, xtext and all. The one limit is a declared SIZE beyond 2^53, which
    JavaScript numbers do not print exactly. *)
Theorem command_roundtrip `{!RuntimeOk _} (line : bytes) (smtputf8 : bool) (c : SmtpCommand) :
  parseCommand line smtputf8 = inr c ->
  match c with CMail _ ps => size_safe ps | _ => True end ->
  exists out, formatCommand c = Some out /\ clean out /\
    (is_ascii out = true -> parseCommand out smtputf8 = inr c).
Proof.
  intros Hok%parseCommand_ok Hs.
  assert (exists out, formatCommand c = Some out /\ reads_as out smtputf8 c) as (out & Hf & Hc & Hr); [|eauto].
  destruct c as [v d|p ps|p ps|v|a|a|a|m ir]; [..|eexists; split; [reflexivity|]|].
  - eexists; split; [reflexivity|]. by apply hello_reads_as.
  - by apply mail_reads_as.
  - by apply rcpt_reads_as.
  - eexists; split; [reflexivity|]. apply (line_reads_as (plain_name v) []); [by destruct v|by left|constructor|].
    by destruct v.
  - eexists; split; [reflexivity|]. destruct a as [a|]; [|by apply (line_reads_as (lit "NOOP") []); auto].
    apply argument_reads_as; [reflexivity|done|]. by destruct Hok as [[(x & t & -> & _) _] _].
  - eexists; split; [reflexivity|]. destruct a as [a|]; [|by apply (line_reads_as (lit "HELP") []); auto].
    apply argument_reads_as; [reflexivity|done|]. by destruct Hok as [[(x & t & -> & _) _] _].
  - apply argument_reads_as; [reflexivity|done|]. by destruct Hok as [[(x & t & -> & _) _] _].
  - eexists; split; [reflexivity|]. by apply auth_reads_as.
Qed.
End WithRuntime.

(** A MAIL command with its parameters in another order and case, and its printed form. *)
Definition sample_line : bytes := lit "mail from: <a@b.example>  ret=full size=1000 AUTH=x+2By ENVID=q".
Definition sample_mail : SmtpCommand :=
  CMail (PMailbox (mkMailbox (lit "a") (lit "b.example")))
    (mkMailParams (Some 1000) None false (Some (lit "x+y")) (Some RetFULL) (Some (lit "q"))).
Definition sample_out : jsstr := lit "MAIL FROM:<a@b.example> SIZE=1000 AUTH=x+2By RET=FULL ENVID=q".

Lemma command_roundtrip_witness :
  @parseCommand ascii_runtime sample_line false = inr sample_mail /\
  @formatCommand ascii_runtime sample_mail = Some sample_out /\
  @parseCommand ascii_runtime sample_out false = inr sample_mail.
Proof.
  split; [reflexivity|]. split; [reflexivity|].
  destruct (@command_roundtrip ascii_runtime ascii_runtime_ok sample_line false sample_mail)
    as (out & Hf & _ & Hp); [reflexivity|apply Z.leb_le; reflexivity|].
  apply (f_equal (default [])) in Hf. change (sample_out = out) in Hf. subst out.
  apply Hp. reflexivity.
Defined.
