(* ===== verification/SmtpSession.v ===== *)
(** * SmtpSession: the server session engine, packages/smtp-proto/src/session.ts

    The engine is a state machine over [Engine]; a handler is a computation in the monad [M], whose
    result is a value or a thrown exception and which keeps the state in both cases.

    Outside the engine are the socket and the daemon's hooks.
    - The socket's input is an [Input]: the chunks it will deliver and how it then ends. A call of
      [close] by the daemon while the engine waits for input is the ending [TClosed].
    - A hook is a function of its arguments, of the session context and of a world [W] it may change;
      the world is arbitrary, so a hook may answer differently every time. [onData] runs alongside
      the engine: it is started, sees what the engine pushes into the body stream, may settle or
      destroy the stream at any point, and is awaited at the end ([dh_rejection_error] says whether the
      error it settled with is the stream's own rejection error). [onAuth] is an interaction that may
      send challenges, and may catch what they throw.
    - [upgradeTls] yields the input of the secured socket; [tlsArrived] is how many chunks of
      plaintext the old socket had already buffered when STARTTLS was handled. *)
From S2P Require Import Prelude.
From S2P Require Import JsString.
From S2P Require Import SmtpLineReader.
From S2P Require Import SmtpReply.
From S2P Require Import SmtpAddress.
From S2P Require Import SmtpCommand.

(** ** Data *)

Record Recipient := mkRecipient { rcpt_to : Path; rcpt_params : RcptParams }.

Record Transaction := mkTransaction {
  tx_from : Path;
  tx_params : MailParams;
  tx_recipients : list Recipient
}.

Record SessionContext := mkContext {
  ctx_id : jsstr;
  ctx_remoteAddress : option jsstr;
  ctx_secure : bool;
  ctx_hello : option (HelloVerb * jsstr);
  ctx_auth : option (jsstr * jsstr);
  ctx_transaction : option Transaction
}.

Inductive Terminal := TEnd | TTimeout | TClosed.
Record Input := mkInput { in_chunks : list bytes; in_end : Terminal }.

(** What a hook does: return, or throw. *)
Inductive HookRes (A : Type) := HRet (a : A) | HThrow.
Arguments HRet {A} a.
Arguments HThrow {A}.

Inductive AuthResult := AuthOk (identity : jsstr) (r : option SmtpReply) | AuthFail (r : SmtpReply).

(** What [challenge] throws, and any other error. *)
Inductive SaslExn := SaslCancelled | SaslLineError (e : LineError) | SaslConnectionClosed | SaslOther.

Inductive AuthProg (W : Type) :=
| ADone (r : SaslExn + AuthResult) (w : W)
| AChallenge (b64 : jsstr) (w : W) (k : SaslExn + jsstr -> W -> AuthProg W).
Arguments ADone {W} r w.
Arguments AChallenge {W} b64 w k.

Inductive TlsResult := TlsFailed | TlsUpgraded (i : Input).

(** What the body stream shows the [onData] hook. [BodySkip] is a chunk that arrived when the hook had
    settled or the stream was destroyed. *)
Inductive BodyEvent :=
| BodyChunk (c : bytes)
| BodySkip
| BodyDestroyed (reason : option DataRejection)
| BodyEnd.

Record DataHook (W : Type) := mkDataHook {
  dh_start : SessionContext -> W -> W;
  dh_step : BodyEvent -> W -> W;
  dh_settled : W -> option (HookRes SmtpReply);
  dh_destroyed : W -> bool;
  dh_rejection_error : W -> bool;
  dh_await : W -> HookRes SmtpReply * W
}.
Arguments mkDataHook {W}.
Arguments dh_start {W}.
Arguments dh_step {W}.
Arguments dh_settled {W}.
Arguments dh_destroyed {W}.
Arguments dh_rejection_error {W}.
Arguments dh_await {W}.

Record ServerHooks (W : Type) := mkHooks {
  onConnect : option (SessionContext -> W -> HookRes (option SmtpReply) * W);
  onHello : option (jsstr -> HelloVerb -> SessionContext -> W -> HookRes (option SmtpReply) * W);
  onMail : option (Path -> MailParams -> SessionContext -> W -> HookRes (option SmtpReply) * W);
  onRcpt : Path -> RcptParams -> SessionContext -> W -> HookRes SmtpReply * W;
  onData : DataHook W;
  onAuth : option (jsstr -> option jsstr -> SessionContext -> W -> AuthProg W);
  upgradeTls : option (W -> TlsResult * W);
  tlsArrived : W -> nat;
  onError : W -> W
}.
Arguments onConnect {W}.
Arguments onHello {W}.
Arguments onMail {W}.
Arguments onRcpt {W}.
Arguments onData {W}.
Arguments onAuth {W}.
Arguments upgradeTls {W}.
Arguments tlsArrived {W}.
Arguments onError {W}.

Record ServerCapabilities := mkCaps {
  cap_pipelining : bool;
  cap_eightBitMime : bool;
  cap_smtpUtf8 : bool;
  cap_enhancedStatusCodes : bool;
  cap_dsn : bool;
  cap_auth : list jsstr;
  cap_authRequiresTls : bool;
  cap_startTls : bool
}.

(** The defaults of the constructor. *)
Definition defaultCaps : ServerCapabilities := mkCaps true true true true false [] true true.

Record ServerSessionOptions := mkOptions {
  opt_hostname : jsstr;
  opt_maxSize : Z;
  opt_caps : ServerCapabilities;
  opt_secure : bool;
  opt_remoteAddress : option jsstr;
  opt_greeting : option jsstr;
  opt_maxLineLength : option nat;
  opt_maxRecipients : option nat;
  opt_maxErrors : option nat;
  opt_closeOnBareLineEnding : option bool
}.

Record SessionStats := mkStats {
  st_commands : nat;
  st_maxReaderBuffered : Z;
  st_discardedOnStartTls : Z
}.

Section Engine.
Context `{Runtime} {W : Type} (options : ServerSessionOptions) (hooks : ServerHooks W).

Record Engine := mkEngine {
  context : SessionContext;
  stats : SessionStats;
  input : Input;
  destroyed : bool;
  reader : SmtpLineReader;
  outbox : list jsstr;
  written : list jsstr;
  closed : bool;
  errors : nat;
  world : W
}.

Definition with_context c e := mkEngine c (stats e) (input e) (destroyed e) (reader e) (outbox e) (written e)
  (closed e) (errors e) (world e).
Definition with_stats s e := mkEngine (context e) s (input e) (destroyed e) (reader e) (outbox e) (written e)
  (closed e) (errors e) (world e).
Definition with_input i e := mkEngine (context e) (stats e) i (destroyed e) (reader e) (outbox e) (written e)
  (closed e) (errors e) (world e).
Definition with_destroyed d e := mkEngine (context e) (stats e) (input e) d (reader e) (outbox e) (written e)
  (closed e) (errors e) (world e).
Definition with_reader r e := mkEngine (context e) (stats e) (input e) (destroyed e) r (outbox e) (written e)
  (closed e) (errors e) (world e).
Definition with_outbox o w e := mkEngine (context e) (stats e) (input e) (destroyed e) (reader e) o w
  (closed e) (errors e) (world e).
Definition with_closed c e := mkEngine (context e) (stats e) (input e) (destroyed e) (reader e) (outbox e)
  (written e) c (errors e) (world e).
Definition with_errors n e := mkEngine (context e) (stats e) (input e) (destroyed e) (reader e) (outbox e)
  (written e) (closed e) n (world e).
Definition with_world w e := mkEngine (context e) (stats e) (input e) (destroyed e) (reader e) (outbox e)
  (written e) (closed e) (errors e) w.

Definition set_secure b c := mkContext (ctx_id c) (ctx_remoteAddress c) b (ctx_hello c) (ctx_auth c) (ctx_transaction c).
Definition set_hello h c := mkContext (ctx_id c) (ctx_remoteAddress c) (ctx_secure c) h (ctx_auth c) (ctx_transaction c).
Definition set_auth a c := mkContext (ctx_id c) (ctx_remoteAddress c) (ctx_secure c) (ctx_hello c) a (ctx_transaction c).
Definition set_transaction t c := mkContext (ctx_id c) (ctx_remoteAddress c) (ctx_secure c) (ctx_hello c) (ctx_auth c) t.

(** ** The monad of handlers *)

Inductive Result (A : Type) := Done (a : A) | Threw.
Arguments Done {A} a.
Arguments Threw {A}.

Definition M (A : Type) : Type := Engine -> Result A * Engine.

#[local] Instance M_ret : MRet M := fun A a e => (Done a, e).
#[local] Instance M_bind : MBind M := fun A B f m e =>
  match m e with
  | (Done a, e) => f a e
  | (Threw, e) => (Threw, e)
  end.

Definition get : M Engine := fun e => (Done e, e).
Definition modify (f : Engine -> Engine) : M unit := fun e => (Done tt, f e).
Definition modify_context (f : SessionContext -> SessionContext) : M unit :=
  modify (fun e => with_context (f (context e)) e).

(** ** Plumbing *)

Definition newSessionReader : SmtpLineReader := newReader (opt_maxLineLength options).

Definition reportError : M unit := modify (fun e => with_world (onError hooks (world e)) e).

Definition hello_is (v : HelloVerb) (e : Engine) : bool :=
  match ctx_hello (context e) with Some (v', _) => bool_decide (v' = v) | None => false end.

Definition useEnhanced (e : Engine) : bool := cap_enhancedStatusCodes (opt_caps options) && hello_is EHLO e.

Definition send (r : SmtpReply) : M unit := fun e =>
  match formatReply r (useEnhanced e) with
  | Some out => (Done tt, with_outbox (outbox e ++ [out]) (written e) e)
  | None => (Threw, e)
  end.

Definition flush : M unit :=
  modify (fun e => with_outbox [] (if destroyed e then written e else written e ++ outbox e) e).

Definition finish : M unit :=
  modify (fun e => if closed e then e else with_destroyed true (with_closed true e)).

(** [close]: 421 (or the given reply), written at once. *)
Definition close (r : SmtpReply) : M unit :=
  e ← get;
  if closed e then mret tt else send r;; flush;; finish.

(** ** Input *)

Inductive Pulled := PulledEnd | PulledTimeout | PulledClosed.

Definition pullTerminal (t : Terminal) : M Pulled :=
  match t with
  | TEnd => mret PulledEnd
  | TTimeout => mret PulledTimeout
  | TClosed => close Replies.shuttingDown;; mret PulledClosed
  end.

Definition note_buffered : M unit :=
  modify (fun e =>
    let st := stats e in
    if maxBufferedBytes (reader e) >? st_maxReaderBuffered st
    then with_stats (mkStats (st_commands st) (maxBufferedBytes (reader e)) (st_discardedOnStartTls st)) e
    else e).

(** The [for (;;)] of [nextEvent], by recursion on the chunks the socket still delivers. *)
Fixpoint nextEvent_loop (chunks : list bytes) : M (Pulled + LineReaderEvent) := fun e =>
  let (ev, r) := next (reader e) in
  let e := with_reader r e in
  match ev with
  | Some ev => (Done (inr ev), e)
  | None =>
      match flush e with
      | (Threw, e) => (Threw, e)
      | (Done _, e) =>
          match chunks with
          | [] => (p ← pullTerminal (in_end (input e)); mret (inl p)) e
          | c :: chunks =>
              (modify (fun e => with_reader (push c (reader e)) (with_input (mkInput chunks (in_end (input e))) e));;
               note_buffered;; nextEvent_loop chunks) e
          end
      end
  end.

Definition nextEvent : M (Pulled + LineReaderEvent) := fun e => nextEvent_loop (in_chunks (input e)) e.

(** ** Errors and hooks *)

Definition maxErrors : nat := default 10%nat (opt_maxErrors options).

Definition errorReply (r : option SmtpReply) : M bool :=
  match r with Some r => send r | None => mret tt end;;
  modify (fun e => with_errors (S (errors e)) e);;
  e ← get;
  if (maxErrors <=? errors e)%nat then send Replies.tooManyErrors;; mret false
  else mret true.

Definition lineErrorReply (err : LineError) : M bool :=
  match err with
  | Line_too_long => errorReply (Some Replies.lineTooLong)
  | _ =>
      send Replies.bareLineEnding;;
      if default true (opt_closeOnBareLineEnding options) then flush;; mret false
      else errorReply None
  end.

(** A hook's answer; [None] is [HOOK_FAILED]. *)
Definition callHook {A} (f : SessionContext -> W -> HookRes A * W) : M (option A) := fun e =>
  let (r, w) := f (context e) (world e) in
  let e := with_world w e in
  match r with
  | HRet a => (Done (Some a), e)
  | HThrow => (reportError;; mret None) e
  end.

(** An absent hook answers [undefined]. *)
Definition absent {A} : SessionContext -> W -> HookRes (option A) * W := fun _ w => (HRet None, w).

(** ** EHLO, HELO *)

Definition startTlsAvailable (e : Engine) : bool :=
  cap_startTls (opt_caps options) && bool_decide (is_Some (upgradeTls hooks)) && negb (ctx_secure (context e)).

Definition authAvailable : bool :=
  bool_decide (is_Some (onAuth hooks)) && (0 <? length (cap_auth (opt_caps options)))%nat.

Definition capabilityLines (e : Engine) : list jsstr :=
  let c := opt_caps options in
  (if cap_pipelining c then [lit "PIPELINING"] else []) ++
  [lit "SIZE " ++ num_string (opt_maxSize options)] ++
  (if cap_eightBitMime c then [lit "8BITMIME"] else []) ++
  (if cap_smtpUtf8 c && cap_eightBitMime c then [lit "SMTPUTF8"] else []) ++
  (if cap_enhancedStatusCodes c then [lit "ENHANCEDSTATUSCODES"] else []) ++
  (if cap_dsn c then [lit "DSN"] else []) ++
  (if startTlsAvailable e then [lit "STARTTLS"] else []) ++
  (if authAvailable && (ctx_secure (context e) || negb (cap_authRequiresTls c))
   then [lit "AUTH " ++ joinWith [SP] (cap_auth c)] else []).

Definition hello (verb : HelloVerb) (domain : jsstr) : M bool :=
  modify_context (set_transaction None);;
  r ← callHook (match onHello hooks with Some h => h domain verb | None => absent end);
  match r with
  | None => send Replies.localError;; mret true
  | Some answer =>
      if match answer with Some r => code r >=? 400 | None => false end
      then match answer with Some r => send r | None => mret tt end;; mret true
      else
        modify_context (set_hello (Some (verb, domain)));;
        e ← get;
        match verb with
        | HELO => send (reply 250 None [opt_hostname options])
        | EHLO => send (buildEhloReply (opt_hostname options) (lit "greets " ++ domain) (capabilityLines e))
        end;;
        mret true
  end.

(** ** MAIL *)

Definition no_params (p : MailParams) : bool :=
  bool_decide (p = noMailParams).

Definition unadvertised (params : MailParams) (e : Engine) : option jsstr :=
  let c := opt_caps options in
  if negb (hello_is EHLO e) && negb (no_params params) then Some (lit "parameters require EHLO")
  else if bool_decide (mp_body params = Some Body8BITMIME) && negb (cap_eightBitMime c) then Some (lit "BODY=8BITMIME")
  else if mp_smtputf8 params && negb (cap_smtpUtf8 c && cap_eightBitMime c) then Some (lit "SMTPUTF8")
  else if (bool_decide (is_Some (mp_ret params)) || bool_decide (is_Some (mp_envid params))) && negb (cap_dsn c)
  then Some (lit "RET/ENVID")
  else if bool_decide (is_Some (mp_auth params)) && negb authAvailable then Some (lit "AUTH")
  else None.

Definition is_2xx (r : SmtpReply) : bool := (code r >=? 200) && (code r <? 300).

Definition mail (from : Path) (params : MailParams) : M bool :=
  e ← get;
  if bool_decide (ctx_hello (context e) = None) then errorReply (Some Replies.ehloFirst)
  else if match ctx_transaction (context e) with Some _ => true | None => false end
  then errorReply (Some Replies.nestedMail)
  else match unadvertised params e with
  | Some bad => errorReply (Some (reply 555 (Some (lit "5.5.4")) [lit "Unsupported parameter: " ++ bad]))
  | None =>
      if match mp_size params with Some n => n >? opt_maxSize options | None => false end
      then send Replies.messageTooBig;; mret true
      else
        r ← callHook (match onMail hooks with Some h => h from params | None => absent end);
        match r with
        | None => send Replies.localError;; mret true
        | Some answer =>
            let answer := default Replies.mailOk answer in
            (if is_2xx answer then modify_context (set_transaction (Some (mkTransaction from params [])))
             else mret tt);;
            send answer;; mret true
        end
  end.

(** ** RCPT *)

Definition maxRecipients : nat := default 100%nat (opt_maxRecipients options).

Definition add_recipient (r : Recipient) (tx : Transaction) : Transaction :=
  mkTransaction (tx_from tx) (tx_params tx) (tx_recipients tx ++ [r]).

Definition rcpt (to : Path) (params : RcptParams) : M bool :=
  e ← get;
  if bool_decide (ctx_hello (context e) = None) then errorReply (Some Replies.ehloFirst)
  else match ctx_transaction (context e) with
  | None => errorReply (Some Replies.mailFirst)
  | Some tx =>
      if (bool_decide (is_Some (rcp_notify params)) || bool_decide (is_Some (rcp_orcpt params))) &&
         negb (cap_dsn (opt_caps options))
      then errorReply (Some (reply 555 (Some (lit "5.5.4")) [lit "Unsupported parameter: NOTIFY/ORCPT"]))
      else if (maxRecipients <=? length (tx_recipients tx))%nat
      then send Replies.tooManyRecipients;; mret true
      else
        r ← callHook (onRcpt hooks to params);
        match r with
        | None => send Replies.localError;; mret true
        | Some r =>
            (if is_2xx r
             then modify_context (set_transaction (Some (add_recipient (mkRecipient to params) tx)))
             else mret tt);;
            send r;; mret true
        end
  end.

(** ** DATA *)

Definition dataRejectionReply (reason : DataRejection) : SmtpReply :=
  match reason with
  | Rej_bare_lf | Rej_bare_cr => Replies.bareLineEndingInData
  | Rej_nul => Replies.nulInData
  | Rej_too_large => Replies.messageTooBig
  end.

(** The variables of the DATA loop: the hook's world, the first rejection seen, and whether the engine
    has destroyed the body. *)
Record DataLoop := mkDataLoop { dl_world : W; dl_rejection : option DataRejection; dl_destroyed : bool }.

Definition body_destroyed (d : DataLoop) : bool := dl_destroyed d || dh_destroyed (onData hooks) (dl_world d).

(** [if (!body.destroyed) body.destroy(...)]. *)
Definition destroy_body (reason : option DataRejection) (d : DataLoop) : DataLoop :=
  if body_destroyed d then d
  else mkDataLoop (dh_step (onData hooks) (BodyDestroyed reason) (dl_world d)) (dl_rejection d) true.

(** [reason1 ??= reason2]. *)
Definition or_else {A} (a b : option A) : option A := match a with Some _ => a | None => b end.

(** The [switch] of the loop. *)
Definition on_data_event (ev : LineReaderEvent) (d : DataLoop) : DataLoop :=
  match ev with
  | EvData c =>
      if bool_decide (is_Some (dh_settled (onData hooks) (dl_world d))) || body_destroyed d
      then mkDataLoop (dh_step (onData hooks) BodySkip (dl_world d)) (dl_rejection d) (dl_destroyed d)
      else mkDataLoop (dh_step (onData hooks) (BodyChunk c) (dl_world d)) (dl_rejection d) (dl_destroyed d)
  | EvDataRejected reason =>
      destroy_body (Some reason) (mkDataLoop (dl_world d) (or_else (dl_rejection d) (Some reason)) (dl_destroyed d))
  | _ => d
  end.

(** [await hook]. *)
Definition await_hook (w : W) : HookRes SmtpReply * W :=
  match dh_settled (onData hooks) w with
  | Some s => (s, w)
  | None => dh_await (onData hooks) w
  end.

Definition finishData (d : DataLoop) : SmtpReply * W :=
  match dl_rejection d with
  | Some rejection =>
      let d := destroy_body (Some rejection) d in
      let (s, w) := await_hook (dl_world d) in
      (dataRejectionReply rejection,
       match s with
       | HThrow => if dh_rejection_error (onData hooks) w then w else onError hooks w
       | HRet _ => w
       end)
  | None =>
      match dh_settled (onData hooks) (dl_world d) with
      | Some early =>
          let d := destroy_body None d in
          match early with
          | HThrow => (Replies.localError, onError hooks (dl_world d))
          | HRet r => (if code r >=? 400 then r else Replies.localError, dl_world d)
          end
      | None =>
          let w := if body_destroyed d then dl_world d else dh_step (onData hooks) BodyEnd (dl_world d) in
          match await_hook w with
          | (HThrow, w) => (Replies.localError, onError hooks w)
          | (HRet r, w) => (r, w)
          end
      end
  end.

(** Enough turns for every event the remaining input can produce. *)
Definition data_fuel (r : SmtpLineReader) (chunks : list bytes) : nat :=
  S (length (events r) + 5 * (length (concat (queue r)) + length (concat chunks))).

(** The connection ended (or idled) in the middle of the message. *)
Definition data_incomplete (d : DataLoop) : M bool := fun e =>
  (p ← pullTerminal (in_end (input e));
   let (_, w) := await_hook (dl_world (destroy_body None d)) in
   modify (with_world w);;
   modify_context (set_transaction None);;
   match p with
   | PulledTimeout => send Replies.idleTimeout;; mret false
   | _ => mret false
   end) e.

(** [try { this.send(await this.finishData(...)) } finally { transaction = null }]. *)
Definition data_reply (d : DataLoop) : M bool := fun e =>
  let (r, w) := finishData d in
  match send r (with_world w e) with
  | (res, e) =>
      let e := with_context (set_transaction None (context e)) e in
      match res with Done _ => (Done true, e) | Threw => (Threw, e) end
  end.

(** The body of [data] once the 354 has been written. *)
Definition receive : M bool := fun e =>
  match startData (Some (opt_maxSize options)) (reader e) with
  | None => (Threw, e)
  | Some r =>
      let d := mkDataLoop (dh_start (onData hooks) (context e) (world e)) None false in
      let chunks := in_chunks (input e) in
      match readData on_data_event (data_fuel r chunks) chunks r d with
      | DataOutOfFuel => (Threw, e)
      | DataClosed d r =>
          (modify (fun e => with_input (mkInput [] (in_end (input e))) (with_reader r e));;
           note_buffered;; data_incomplete d) e
      | DataComplete d _ rej r chunks =>
          (modify (fun e => with_input (mkInput chunks (in_end (input e))) (with_reader r e));;
           note_buffered;;
           data_reply (mkDataLoop (dl_world d) (or_else (dl_rejection d) rej) (dl_destroyed d))) e
      end
  end.

Definition data : M bool :=
  e ← get;
  if bool_decide (ctx_hello (context e) = None) then errorReply (Some Replies.ehloFirst)
  else match ctx_transaction (context e) with
  | None => errorReply (Some Replies.mailFirst)
  | Some tx =>
      if bool_decide (length (tx_recipients tx) = 0%nat) then errorReply (Some Replies.noValidRecipients)
      else send Replies.startData;; flush;; receive
  end.

(** ** AUTH *)

(** [/^[A-Za-z0-9+/=]*$/]. *)
Definition isChallenge (b64 : jsstr) : bool := forallb (fun c => isBase64Char c || (c =? 0x3d)) b64.

Definition queue_challenge (b64 : jsstr) : M unit :=
  modify (fun e => with_outbox (outbox e ++ [lit "334 " ++ b64 ++ CRLF]) (written e) e).

(** The answer to a challenge, as the hook's [challenge] promise delivers it. *)
Definition challenge_answer (ev : Pulled + LineReaderEvent) : SaslExn + jsstr :=
  match ev with
  | inl _ => inl SaslConnectionClosed
  | inr (EvLineError e) => inl (SaslLineError e)
  | inr (EvLine l) => if decide (trim l = lit "*") then inl SaslCancelled else inr (trim l)
  | inr _ => inl SaslConnectionClosed
  end.

Fixpoint runAuth (p : AuthProg W) : M (SaslExn + AuthResult) :=
  match p with
  | ADone r w => modify (with_world w);; mret r
  | AChallenge b64 w k =>
      modify (with_world w);;
      if negb (isChallenge b64) then e ← get; runAuth (k (inl SaslOther) (world e))
      else
        queue_challenge b64;; flush;;
        ev ← nextEvent;
        e ← get;
        runAuth (k (challenge_answer ev) (world e))
  end.

Definition auth (mechanism : jsstr) (initialResponse : option jsstr) : M bool :=
  e ← get;
  match (if authAvailable then onAuth hooks else None) with
  | None => errorReply (Some Replies.authUnavailable)
  | Some hook =>
      if negb (hello_is EHLO e) then errorReply (Some Replies.ehloFirst)
      else if bool_decide (is_Some (ctx_auth (context e))) then errorReply (Some Replies.alreadyAuthenticated)
      else if match ctx_transaction (context e) with Some _ => true | None => false end
      then errorReply (Some Replies.authInTransaction)
      else if cap_authRequiresTls (opt_caps options) && negb (ctx_secure (context e))
      then errorReply (Some Replies.authNeedsTls)
      else if negb (bool_decide (mechanism ∈ cap_auth (opt_caps options)))
      then errorReply (Some Replies.authMechanism)
      else
        let ir := if decide (initialResponse = Some (lit "=")) then Some [] else initialResponse in
        result ← runAuth (hook mechanism ir (context e) (world e));
        match result with
        | inl SaslCancelled => errorReply (Some Replies.authCancelled)
        | inl (SaslLineError err) => lineErrorReply err
        | inl SaslConnectionClosed => mret false
        | inl SaslOther => reportError;; send Replies.authTempFail;; mret true
        | inr (AuthOk identity r) =>
            modify_context (set_auth (Some (mechanism, identity)));;
            send (default Replies.authOk r);; mret true
        | inr (AuthFail r) => errorReply (Some r)
        end
  end.

(** ** STARTTLS *)

(** [discardPending] and the loop that empties the socket's buffer. *)
Definition discard_plaintext : M unit :=
  modify (fun e =>
    let (n, r) := discardPending (reader e) in
    let k := tlsArrived hooks (world e) in
    let gone := take k (in_chunks (input e)) in
    let st := stats e in
    with_stats (mkStats (st_commands st) (st_maxReaderBuffered st)
                  (st_discardedOnStartTls st + (n + Z.of_nat (length (concat gone)))))
      (with_input (mkInput (drop k (in_chunks (input e))) (in_end (input e))) (with_reader r e))).

(** The session starts over on the secured socket. *)
Definition secured (i : Input) : M unit :=
  modify (fun e =>
    with_context (set_auth None (set_transaction None (set_hello None (set_secure true (context e)))))
      (with_reader newSessionReader (with_destroyed false (with_input i e)))).

Definition startTls : M bool :=
  e ← get;
  if ctx_secure (context e) then errorReply (Some Replies.alreadyTls)
  else match (if startTlsAvailable e then upgradeTls hooks else None) with
  | None => errorReply (Some Replies.tlsUnavailable)
  | Some upgrade =>
      discard_plaintext;;
      send Replies.startTls;; flush;;
      e ← get;
      let (r, w) := upgrade (world e) in
      modify (with_world w);;
      match r with
      | TlsFailed => reportError;; modify (with_destroyed true);; mret false
      | TlsUpgraded i => secured i;; mret true
      end
  end.

(** ** Commands and the main loop *)

Definition smtputf8_open (e : Engine) : bool :=
  match ctx_transaction (context e) with Some tx => mp_smtputf8 (tx_params tx) | None => false end.

Definition command (line : bytes) : M bool :=
  e ← get;
  match parseCommand line (smtputf8_open e) with
  | inl r => errorReply (Some r)
  | inr (CHello verb domain) => hello verb domain
  | inr (CMail from params) => mail from params
  | inr (CRcpt to params) => rcpt to params
  | inr (CPlain DATA) => data
  | inr (CPlain RSET) => modify_context (set_transaction None);; send Replies.reset;; mret true
  | inr (CNoop _) => send Replies.ok;; mret true
  | inr (CVrfy _) => send Replies.vrfy;; mret true
  | inr (CHelp _) => send Replies.help;; mret true
  | inr (CPlain QUIT) => send Replies.bye;; flush;; mret false
  | inr (CPlain STARTTLS) => startTls
  | inr (CAuth mechanism ir) => auth mechanism ir
  end.

Definition count_command : M unit :=
  modify (fun e => let st := stats e in
    with_stats (mkStats (S (st_commands st)) (st_maxReaderBuffered st) (st_discardedOnStartTls st)) e).

(** One turn of the [while (!this.closed)] loop; [false] ends it. *)
Definition iteration : M bool :=
  ev ← nextEvent;
  match ev with
  | inl PulledEnd | inl PulledClosed => mret false
  | inl PulledTimeout => send Replies.idleTimeout;; flush;; mret false
  | inr (EvLineError err) => lineErrorReply err
  | inr (EvLine line) => count_command;; command line
  | inr _ => mret true
  end.

Fixpoint run_loop (fuel : nat) (e : Engine) : option (Result unit * Engine) :=
  match fuel with
  | O => None
  | S fuel =>
      if closed e then Some (Done tt, e)
      else match iteration e with
      | (Done true, e) => run_loop fuel e
      | (Done false, e) => Some (Done tt, e)
      | (Threw, e) => Some (Threw, e)
      end
  end.

Definition greet : M bool :=
  custom ← callHook (match onConnect hooks with Some h => h | None => absent end);
  let greeting :=
    match custom with
    | None => reply 421 (Some (lit "4.3.0")) [lit "Service not available"]
    | Some (Some r) => r
    | Some None => reply 220 None [opt_hostname options ++ [SP] ++ default (lit "ESMTP Postroom") (opt_greeting options)]
    end in
  send greeting;;
  if negb (code greeting =? 220) then flush;; mret false else mret true.

(** The [catch] and [finally] of [run]. *)
Definition conclude (res : Result unit) (e : Engine) : Engine :=
  let e := match res with Threw => (reportError e).2 | Done _ => e end in
  if closed e then e else ((flush;; finish) e).2.

Definition run (fuel : nat) (e : Engine) : option Engine :=
  match greet e with
  | (Done true, e) =>
      match run_loop fuel e with Some (res, e) => Some (conclude res e) | None => None end
  | (Done false, e) => Some (conclude (Done tt) e)
  | (Threw, e) => Some (conclude Threw e)
  end.

(** The constructor. *)
Definition newEngine (id : jsstr) (i : Input) (w : W) : Engine :=
  mkEngine (mkContext id (opt_remoteAddress options) (opt_secure options) None None None)
    (mkStats 0 0 0) i false newSessionReader [] [] false 0 w.
End Engine.

Arguments Done {A} a.
Arguments Threw {A}.
#[export] Existing Instances M_ret M_bind.
