(* ===== verification/SmtpSessionProofs.v ===== *)
(** * SmtpSessionProofs: the session engine refines the SMTP command sequencing

    [ctx_step] is the abstract machine of RFC 5321 sequencing with its extensions: which changes of
    the session context the protocol allows. Every turn of the engine's main loop, whatever the
    client sends and whatever the hooks answer, is a sequence of such steps; the safety properties
    are proved of the abstract machine by rule induction. *)
From stdpp Require Import relations.
From S2P Require Import Prelude.
From S2P Require Import JsString.
From S2P Require Import JsStringFacts.
From S2P Require Import SmtpLineReader.
From S2P Require Import SmtpLineReaderProofs.
From S2P Require Import SmtpReply.
From S2P Require Import SmtpReplyProofs.
From S2P Require Import SmtpAddress.
From S2P Require Import SmtpAddressProofs.
From S2P Require Import SmtpCommand.
From S2P Require Import SmtpCommandProofs.
From S2P Require Import SmtpSession.

(** ** What the engine writes

    Every text queued for the client is a run of complete CRLF lines that start with a three-digit
    code and hold no control character. *)
Definition reply_text (s : jsstr) : Prop :=
  exists c n, isValidReplyCode c = true /\ framed_lines (dec c) s n.

Section Session.
Context `{Runtime} {W : Type} (options : ServerSessionOptions) (hooks : ServerHooks W).

Implicit Types e : Engine (W := W).

Definition wire (e : Engine (W := W)) : Prop := Forall reply_text (written e ++ outbox e).

(** ** The abstract machine *)

Definition params_allowed (ehlo : bool) (ps : MailParams) : Prop :=
  let c := opt_caps options in
  (ehlo = false -> ps = noMailParams) /\
  (mp_body ps = Some Body8BITMIME -> cap_eightBitMime c = true) /\
  (mp_smtputf8 ps = true -> cap_smtpUtf8 c = true /\ cap_eightBitMime c = true) /\
  (is_Some (mp_ret ps) \/ is_Some (mp_envid ps) -> cap_dsn c = true) /\
  (is_Some (mp_auth ps) -> authAvailable options hooks = true) /\
  match mp_size ps with Some n => n <= opt_maxSize options | None => True end.

Definition rcpt_allowed (ps : RcptParams) : Prop :=
  is_Some (rcp_notify ps) \/ is_Some (rcp_orcpt ps) -> cap_dsn (opt_caps options) = true.

Definition is_ehlo (h : option (HelloVerb * jsstr)) : bool :=
  match h with Some (EHLO, _) => true | _ => false end.

Inductive ctx_step (c : SessionContext) : SessionContext -> Prop :=
| cs_end : ctx_step c (set_transaction None c)
| cs_hello v d : ctx_transaction c = None -> ctx_step c (set_hello (Some (v, d)) c)
| cs_mail from ps :
    ctx_hello c <> None -> ctx_transaction c = None -> params_allowed (is_ehlo (ctx_hello c)) ps ->
    ctx_step c (set_transaction (Some (mkTransaction from ps [])) c)
| cs_rcpt tx to ps :
    ctx_hello c <> None -> ctx_transaction c = Some tx -> rcpt_allowed ps ->
    (length (tx_recipients tx) < maxRecipients options)%nat ->
    ctx_step c (set_transaction (Some (add_recipient (mkRecipient to ps) tx)) c)
| cs_auth m id :
    is_ehlo (ctx_hello c) = true -> ctx_auth c = None -> ctx_transaction c = None ->
    authAvailable options hooks = true -> m ∈ cap_auth (opt_caps options) ->
    (cap_authRequiresTls (opt_caps options) = true -> ctx_secure c = true) ->
    ctx_step c (set_auth (Some (m, id)) c)
| cs_tls :
    ctx_secure c = false -> cap_startTls (opt_caps options) = true ->
    ctx_step c (set_auth None (set_transaction None (set_hello None (set_secure true c)))).

Lemma ctx_step_secure c c' : ctx_step c c' -> ctx_secure c = true -> ctx_secure c' = true.
Proof. by destruct 1. Qed.

Lemma ctx_steps_secure c c' : rtc ctx_step c c' -> ctx_secure c = true -> ctx_secure c' = true.
Proof. induction 1; eauto using ctx_step_secure. Qed.

(** ** Effects of the engine's primitives *)

(** Everything but the replies, the error count, the statistics and the hooks' world is untouched. *)
Record Quiet (e e' : Engine (W := W)) : Prop := {
  q_ctx : context e' = context e;
  q_reader : reader e' = reader e;
  q_input : input e' = input e;
  q_closed : closed e' = closed e;
  q_errors : errors e' = errors e;
  q_wire : wire e -> wire e'
}.

Lemma Quiet_refl e : Quiet e e.
Proof. by split. Qed.

Lemma Quiet_trans e1 e2 e3 : Quiet e1 e2 -> Quiet e2 e3 -> Quiet e1 e3.
Proof. intros [] []. split; try congruence. auto. Qed.

Lemma send_quiet r e : Quiet e (send options r e).2.
Proof.
  unfold send. pose proof (formatReply_framed r (useEnhanced options e)) as Hf.
  destruct (formatReply r _) as [out|]; [|apply Quiet_refl]. destruct Hf as [Hc Hf].
  split; try done. unfold wire. cbn. intros Hw. rewrite app_assoc. apply Forall_app. split; [done|].
  constructor; [by exists (code r), (length (reply_lines r))|constructor].
Qed.

Lemma flush_quiet e : Quiet e (flush e).2.
Proof.
  split; try done. unfold wire. cbn. rewrite app_nil_r. destruct (destroyed e); [|done].
  intros [Hw _]%Forall_app. done.
Qed.

Lemma report_quiet e : Quiet e (reportError hooks e).2.
Proof. by split. Qed.

Lemma callHook_quiet {A} (f : SessionContext -> W -> HookRes A * W) e : Quiet e (callHook hooks f e).2.
Proof. unfold callHook. destruct (f _ _) as [[a|] w]; by split. Qed.

Lemma world_quiet w e : Quiet e (with_world w e).
Proof. by split. Qed.

Lemma note_quiet e : Quiet e (note_buffered e).2.
Proof. unfold note_buffered. cbn. by destruct (_ >? _). Qed.

(** ** What a handler may do *)

(** The reader between two turns of the main loop. *)
Definition reader_ok (r : SmtpLineReader) : Prop := wf r /\ mode r = Command /\ events r = [].

(** Octets the client has still to be heard on. *)
Definition rest (e : Engine (W := W)) : nat := length (unread (reader e) ++ concat (in_chunks (input e))).

Record Post (e : Engine (W := W)) (res : Result bool) (e' : Engine (W := W)) : Prop := {
  p_ctx : rtc ctx_step (context e) (context e');
  p_wire : wire e -> wire e';
  p_errors : res = Done true -> (errors e < maxErrors options)%nat -> (errors e' < maxErrors options)%nat;
  p_reader : res = Done true -> reader_ok (reader e) -> reader_ok (reader e');
  p_rest : res = Done true -> reader_ok (reader e) ->
    ctx_secure (context e') = ctx_secure (context e) -> (rest e' <= rest e)%nat
}.

Abbreviation post m e := (Post e ((m : M bool) e).1 ((m : M bool) e).2).

Lemma Post_quiet e e' res : Quiet e e' -> Post e res e'.
Proof.
  intros [Hc Hr Hi Hcl He Hw]. split; try done; intros; unfold rest; rewrite ?Hc, ?Hr, ?Hi, ?He; try done.
Qed.

Lemma Post_after e e1 res e' : Quiet e e1 -> Post e1 res e' -> Post e res e'.
Proof.
  intros [Hc Hr Hi Hcl He Hw] [P1 P2 P3 P4 P5]. unfold rest in *. rewrite Hc, Hr, Hi, He in *.
  split; auto.
Qed.

Lemma Post_ctx e c res e' : ctx_step (context e) c -> Post (with_context c e) res e' -> Post e res e'.
Proof.
  intros Hs [P1 P2 P3 P4 P5]. split; auto.
  - by eapply rtc_l.
  - intros Hd Hr Hsec. apply P5; [done|done|]. cbn. rewrite Hsec.
    destruct (ctx_secure c) eqn:E.
    + by rewrite (ctx_steps_secure _ _ P1 E) in Hsec.
    + destruct (ctx_secure (context e)) eqn:E'; [|done].
      by rewrite (ctx_step_secure _ _ Hs E') in E.
Qed.

Lemma post_bind {A} (m : M A) (f : A -> M bool) e :
  Quiet e (m e).2 -> (forall a e1, m e = (Done a, e1) -> Quiet e e1 -> post (f a) e1) -> post (m ≫= f) e.
Proof.
  intros Hq Hf. unfold mbind, M_bind. destruct (m e) as [[a|] e1] eqn:E.
  - eapply Post_after; [done|]. apply (Hf a e1 eq_refl Hq).
  - by apply Post_quiet.
Qed.

Lemma post_seq {A} (m : M A) (f : M bool) e :
  Quiet e (m e).2 -> (forall e1, Quiet e e1 -> post f e1) -> post (m;; f) e.
Proof. intros Hq Hf. apply post_bind; eauto. Qed.

Lemma post_get (f : Engine -> M bool) e : post (f e) e -> post (get ≫= f) e.
Proof. done. Qed.

Lemma post_context g (f : M bool) e :
  ctx_step (context e) (g (context e)) -> post f (with_context (g (context e)) e) ->
  post (modify_context g;; f) e.
Proof. intros Hs Hf. by eapply Post_ctx. Qed.

Lemma post_ret b e : post (mret b) e.
Proof. apply Post_quiet, Quiet_refl. Qed.

Lemma post_send r b e : post (send options r;; mret b) e.
Proof. apply post_seq; [apply send_quiet|]. intros. apply post_ret. Qed.

Lemma post_errorReply r e : post (errorReply options r) e.
Proof.
  unfold errorReply. apply post_seq.
  { destruct r; [apply send_quiet|apply Quiet_refl]. }
  intros e1 _. unfold mbind, M_bind, modify, get. cbn.
  destruct (_ <=? _)%nat eqn:Hm; cbn.
  - set (e2 := with_errors _ _). destruct (send_quiet Replies.tooManyErrors e2) as [Hc Hr Hi Hcl He Hw].
    unfold mret, M_ret. destruct (send options _ e2) as [[|] e3]; cbn in *; split; try done;
      try (by rewrite Hc); auto.
  - apply Nat.leb_gt in Hm. cbn in Hm. by split; try done.
Qed.

Lemma post_lineError err e : post (lineErrorReply options err) e.
Proof.
  unfold lineErrorReply. destruct err; [..|apply post_errorReply];
    (apply post_seq; [apply send_quiet|]; intros e1 _;
     destruct (default true _); [|apply post_errorReply];
     apply post_seq; [apply flush_quiet|]; intros; apply post_ret).
Qed.

(** ** Handlers *)

Lemma post_hello v d e : post (hello options hooks v d) e.
Proof.
  unfold hello. apply post_context; [apply cs_end|]. apply post_bind; [apply callHook_quiet|].
  intros [answer|] e1 _ Hq; [|apply post_send].
  destruct (match answer with Some _ => _ | None => _ end).
  { apply post_seq; [destruct answer; [apply send_quiet|apply Quiet_refl]|]. intros. apply post_ret. }
  apply post_context; [apply cs_hello; by rewrite (q_ctx _ _ Hq)|]. apply post_get.
  apply post_seq; [destruct v; apply send_quiet|]. intros. apply post_ret.
Qed.

Lemma unadvertised_allowed ps e :
  unadvertised options hooks ps e = None ->
  match mp_size ps with Some n => n >? opt_maxSize options | None => false end = false ->
  params_allowed (is_ehlo (ctx_hello (context e))) ps.
Proof.
  unfold unadvertised. intros Hu Hs.
  destruct (_ && _) eqn:E1 in Hu; [done|]. destruct (_ && _) eqn:E2 in Hu; [done|].
  destruct (_ && _) eqn:E3 in Hu; [done|]. destruct (_ && _) eqn:E4 in Hu; [done|].
  destruct (_ && _) eqn:E5 in Hu; [done|]. clear Hu.
  apply andb_false_iff in E1, E2, E3, E4, E5. unfold params_allowed. cbn zeta. split_and!.
  - intros He. destruct E1 as [E1|E1]; [|by apply negb_false_iff, bool_decide_eq_true in E1].
    apply negb_false_iff in E1. unfold hello_is, is_ehlo in *.
    destruct (ctx_hello (context e)) as [[[] ?]|]; done.
  - intros Hb. destruct E2 as [E2|E2]; [|by apply negb_false_iff].
    by rewrite bool_decide_eq_true_2 in E2.
  - intros Hu. destruct E3 as [E3|E3]; [congruence|]. by apply andb_true_iff, negb_false_iff.
  - intros Hr. destruct E4 as [E4|E4]; [|by apply negb_false_iff]. apply orb_false_iff in E4 as [Er Ee].
    apply bool_decide_eq_false in Er, Ee. naive_solver.
  - intros Ha. destruct E5 as [E5|E5]; [|by apply negb_false_iff]. by rewrite bool_decide_eq_true_2 in E5.
  - destruct (mp_size ps); [lia|done].
Qed.

Lemma post_mail from ps e : post (mail options hooks from ps) e.
Proof.
  unfold mail. apply post_get. case_bool_decide as Hh; [apply post_errorReply|].
  destruct (ctx_transaction (context e)) eqn:Ht; [apply post_errorReply|].
  destruct (unadvertised options hooks ps e) eqn:Hu; [apply post_errorReply|].
  destruct (match mp_size ps with Some _ => _ | None => _ end) eqn:Hs; [apply post_send|].
  apply post_bind; [apply callHook_quiet|]. intros [answer|] e1 _ Hq; [|apply post_send].
  destruct (is_2xx _); [|apply post_send].
  apply post_context; [|apply post_send]. rewrite (q_ctx _ _ Hq). apply cs_mail; try done.
  by apply unadvertised_allowed.
Qed.

Lemma post_rcpt to ps e : post (rcpt options hooks to ps) e.
Proof.
  unfold rcpt. apply post_get. case_bool_decide as Hh; [apply post_errorReply|].
  destruct (ctx_transaction (context e)) as [tx|] eqn:Ht; [|apply post_errorReply].
  destruct (_ && _) eqn:Hd; [apply post_errorReply|].
  destruct (_ <=? _)%nat eqn:Hm; [apply post_send|]. apply Nat.leb_gt in Hm.
  apply post_bind; [apply callHook_quiet|]. intros [r|] e1 _ Hq; [|apply post_send].
  destruct (is_2xx r); [|apply post_send].
  apply post_context; [|apply post_send]. rewrite (q_ctx _ _ Hq). apply cs_rcpt; try done.
  intros Hp. apply andb_false_iff in Hd as [Hd|Hd]; [|by apply negb_false_iff].
  apply orb_false_iff in Hd as [Hn Ho]. apply bool_decide_eq_false in Hn, Ho. naive_solver.
Qed.

(** ** Reading input *)

(** Only the replies, the closing flags and the statistics may differ. *)
Record Inert (e e' : Engine (W := W)) : Prop := {
  i_ctx : context e' = context e;
  i_reader : reader e' = reader e;
  i_input : input e' = input e;
  i_errors : errors e' = errors e;
  i_wire : wire e -> wire e'
}.

Lemma Quiet_Inert e e' : Quiet e e' -> Inert e e'.
Proof. by intros []. Qed.

Lemma Inert_trans e1 e2 e3 : Inert e1 e2 -> Inert e2 e3 -> Inert e1 e3.
Proof. intros [] []. split; try congruence. auto. Qed.

Lemma shuttingDown_formats u : is_Some (formatReply Replies.shuttingDown u).
Proof. destruct u; eexists; reflexivity. Qed.

Lemma close_inert e : exists e', close options Replies.shuttingDown e = (Done tt, e') /\ Inert e e'.
Proof.
  unfold close, mbind, M_bind, get. destruct (closed e).
  { exists e. by split. }
  pose proof (send_quiet Replies.shuttingDown e) as Hs. unfold send in *.
  destruct (shuttingDown_formats (useEnhanced options e)) as [out Hout]. rewrite Hout in *. cbn in Hs |- *.
  eexists. split; [reflexivity|]. apply Quiet_Inert in Hs. eapply Inert_trans; [done|].
  eapply Inert_trans; [apply Quiet_Inert, flush_quiet|]. cbn. by destruct (closed e).
Qed.

Definition pulled_of (t : Terminal) : Pulled :=
  match t with TEnd => PulledEnd | TTimeout => PulledTimeout | TClosed => PulledClosed end.

Lemma pullTerminal_inert t e :
  exists e', pullTerminal options t e = (Done (pulled_of t), e') /\ Inert e e'.
Proof.
  destruct t; [exists e; by split|exists e; by split|].
  destruct (close_inert e) as (e' & Hc & He). exists e'. unfold pullTerminal, mbind, M_bind.
  rewrite Hc. done.
Qed.

(** [nextEvent] is the reader's [nextFrom], with the replies flushed on the way. *)
Lemma nextEvent_loop_spec chunks e :
  exists ev r chunks' e', nextFrom chunks (reader e) = (ev, r, chunks') /\
    nextEvent_loop options chunks (with_input (mkInput chunks (in_end (input e))) e) =
      (Done (match ev with Some ev => inr ev | None => inl (pulled_of (in_end (input e))) end), e') /\
    reader e' = r /\ input e' = mkInput chunks' (in_end (input e)) /\ context e' = context e /\
    errors e' = errors e /\ (wire e -> wire e').
Proof.
  revert e. induction chunks as [|c chunks IH]; intros e; cbn [nextFrom nextEvent_loop reader with_input];
    destruct (next (reader e)) as [[ev|] r] eqn:En.
  1,3: by eexists (Some ev), r, _, _.
  - set (e0 := with_reader r _).
    pose proof (flush_quiet e0) as Hf. destruct (flush e0) as [[[]|] e1] eqn:Ef; [|done]. cbn in Hf.
    destruct (pullTerminal_inert (in_end (input e1)) e1) as (e2 & Hp & He2).
    unfold mbind, M_bind. rewrite Hp. destruct Hf as [Hc Hr Hi Hcl He Hw], He2 as [Ic Ir Ii Ie Iw].
    exists None, r, [], e2. rewrite Hi. split_and!; try done;
      [by rewrite Ir, Hr|by rewrite Ii, Hi|by rewrite Ic, Hc|by rewrite Ie, He|]. intros Hwe. apply Iw, Hw, Hwe.
  - set (e0 := with_reader r _).
    pose proof (flush_quiet e0) as Hf. destruct (flush e0) as [[[]|] e1] eqn:Ef; [|done]. cbn in Hf.
    destruct Hf as [Hc Hr Hi Hcl He Hw]. unfold mbind, M_bind, modify. cbn.
    set (e2 := with_reader _ _). pose proof (note_quiet e2) as Hn. unfold note_buffered, modify in Hn. cbn in Hn.
    set (e3 := if _ >? _ then _ else _) in Hn |- *. destruct Hn as [Nc Nr Ni Ncl Ne Nw].
    destruct (IH e3) as (ev & r' & ch & e' & Hnf & Hnl & H1 & H2 & H3 & H4 & H5).
    exists ev, r', ch, e'. rewrite Nr in Hnf. cbn in Hnf. rewrite Hr in Hnf. split; [done|].
    assert (with_input (mkInput chunks (in_end (input e3))) e3 = e3) as Heq.
    { assert (input e3 = mkInput chunks (in_end (input e1))) as Hin by (rewrite Ni; done).
      destruct e3 as [? ? i ? ? ? ? ? ? ?]. cbn in *. subst i. done. }
    rewrite Heq in Hnl. rewrite Ni in *. cbn in *. rewrite Hi in *. cbn in *.
    split_and!; [done|done|done|congruence|congruence|]. intros Hwe. apply H5, Nw, Hw, Hwe.
Qed.

(** Input may have been consumed, the context is the same. *)
Record Moves (e e' : Engine (W := W)) : Prop := {
  m_ctx : context e' = context e;
  m_errors : errors e' = errors e;
  m_wire : wire e -> wire e';
  m_reader : reader_ok (reader e) -> reader_ok (reader e') /\ (rest e' <= rest e)%nat
}.

Lemma Quiet_Moves e e' : Quiet e e' -> Moves e e'.
Proof. intros [Hc Hr Hi Hcl He Hw]. split; try done. intros. unfold rest. by rewrite Hr, Hi. Qed.

Lemma Moves_trans e1 e2 e3 : Moves e1 e2 -> Moves e2 e3 -> Moves e1 e3.
Proof.
  intros [C1 E1 W1 R1] [C2 E2 W2 R2]. split; [congruence|congruence|auto|].
  intros H1. destruct (R1 H1) as [H2 L2]. destruct (R2 H2) as [H3 L3]. split; [done|lia].
Qed.

Lemma Post_moves e e1 res e' : Moves e e1 -> Post e1 res e' -> Post e res e'.
Proof.
  intros [Mc Me Mw Mr] [P1 P2 P3 P4 P5]. rewrite Mc in P1, P5. rewrite Me in P3.
  split; auto.
  - intros Hd Hr. by apply P4, Mr.
  - intros Hd Hr Hsec. destruct (Mr Hr) as [Hr1 Hle]. specialize (P5 Hd Hr1 Hsec). lia.
Qed.

Lemma post_bind_moves {A} (m : M A) (f : A -> M bool) e :
  Moves e (m e).2 -> (forall a e1, m e = (Done a, e1) -> Moves e e1 -> post (f a) e1) -> post (m ≫= f) e.
Proof.
  intros Hq Hf. unfold mbind, M_bind. destruct (m e) as [[a|] e1] eqn:E.
  - eapply Post_moves; [done|]. apply (Hf a e1 eq_refl Hq).
  - destruct Hq as [Mc Me Mw Mr]. split; cbn in *; try done. by rewrite Mc.
Qed.

Lemma nextEvent_spec e :
  exists ev r chunks' e', nextFrom (in_chunks (input e)) (reader e) = (ev, r, chunks') /\
    nextEvent options e =
      (Done (match ev with Some ev => inr ev | None => inl (pulled_of (in_end (input e))) end), e') /\
    reader e' = r /\ input e' = mkInput chunks' (in_end (input e)) /\ context e' = context e /\
    errors e' = errors e /\ (wire e -> wire e').
Proof.
  destruct (nextEvent_loop_spec (in_chunks (input e)) e) as (ev & r & ch & e' & H1 & H2 & H3).
  exists ev, r, ch, e'. split; [done|]. split; [|done]. unfold nextEvent.
  assert (with_input (mkInput (in_chunks (input e)) (in_end (input e))) e = e) as Heq
    by (by destruct e as [? ? [] ? ? ? ? ? ? ?]).
  by rewrite Heq in H2.
Qed.

(** In command mode every event is a line or a malformed line and consumes input; after a line the
    reader is at a line boundary. *)
Lemma nextEvent_cmd e :
  reader_ok (reader e) ->
  exists res e', nextEvent options e = (Done res, e') /\ reader_ok (reader e') /\ (rest e' <= rest e)%nat /\
    match res with
    | inr ev => (rest e' < rest e)%nat /\ forall l, ev = EvLine l -> cmd_state (reader e') = cmd_init
    | inl _ => True
    end.
Proof.
  intros (Hwf & Hm & He). destruct (nextEvent_spec e) as (ev & r & ch & e' & Hn & Hne & Hr & Hi & _).
  destruct (nextFrom_cmd (in_chunks (input e)) (reader e) Hwf Hm He)
    as (ev' & r' & ch' & c1 & Hn' & Hu & _ & Hwf' & Hm' & He' & _ & Hev).
  rewrite Hn in Hn'. simplify_eq. eexists _, e'. split; [done|]. unfold rest. rewrite Hi, Hu. cbn.
  split; [done|]. rewrite (length_app c1). split; [lia|]. destruct ev' as [ev|]; [|done].
  destruct Hev as [Hlt Hline]. rewrite Hu, (length_app c1) in Hlt. split; [lia|done].
Qed.

Lemma nextEvent_moves e : Moves e (nextEvent options e).2.
Proof.
  destruct (nextEvent_spec e) as (ev & r & ch & e' & Hn & Hne & Hr & Hi & Hc & He & Hw).
  rewrite Hne. split; try done. intros Hok. destruct (nextEvent_cmd e Hok) as (res & e2 & Hn2 & Hr2 & Hle & _).
  rewrite Hne in Hn2. by simplify_eq.
Qed.

(** ** AUTH *)

Lemma challenge_text b64 : isChallenge b64 = true -> reply_text (lit "334 " ++ b64 ++ CRLF).
Proof.
  intros Hb. exists 334, 1%nat. split; [done|]. exists [lit "334 " ++ b64]. split_and!; [|done|].
  - transitivity (((lit "334 " ++ b64) ++ CRLF) ++ []); [|reflexivity]. by rewrite app_nil_r, <- app_assoc.
  - constructor; [|constructor]. split; [|done]. apply Forall_app. split; [by repeat constructor|].
    unfold isChallenge in Hb. apply forallb_Forall in Hb. eapply Forall_impl; [done|]. cbn. intros c Hc. zkeys.
Qed.

Lemma queue_challenge_quiet b64 e : isChallenge b64 = true -> Quiet e (queue_challenge b64 e).2.
Proof.
  intros Hb. split; try done. unfold wire. cbn. intros Hw. rewrite app_assoc. apply Forall_app.
  split; [done|]. constructor; [by apply challenge_text|constructor].
Qed.

Lemma moves_bind {A B} (m : M A) (f : A -> M B) e :
  Moves e (m e).2 -> (forall a e1, m e = (Done a, e1) -> Moves e1 (f a e1).2) -> Moves e ((m ≫= f) e).2.
Proof.
  intros Hq Hf. unfold mbind, M_bind. destruct (m e) as [[a|] e1] eqn:E; [|done].
  eapply Moves_trans; [done|]. by apply Hf.
Qed.

Lemma runAuth_moves p e : Moves e (runAuth options p e).2.
Proof.
  revert e. induction p as [r w|b64 w k IH]; intros e; [apply Quiet_Moves, world_quiet|]. cbn [runAuth].
  apply moves_bind; [apply Quiet_Moves, world_quiet|]. intros _ e1 _.
  destruct (negb (isChallenge b64)) eqn:Hb; [apply (IH (inl SaslOther))|]. apply negb_false_iff in Hb.
  apply moves_bind; [by apply Quiet_Moves, queue_challenge_quiet|]. intros _ e2 _.
  apply moves_bind; [apply Quiet_Moves, flush_quiet|]. intros _ e3 _.
  apply moves_bind; [apply nextEvent_moves|]. intros ev e4 _. apply (IH (challenge_answer ev)).
Qed.

Lemma post_auth m ir e : post (auth options hooks m ir) e.
Proof.
  unfold auth. apply post_get. destruct (authAvailable options hooks) eqn:Ha; [|apply post_errorReply].
  destruct (onAuth hooks) as [hook|]; [|apply post_errorReply].
  destruct (hello_is EHLO e) eqn:Hh; [|apply post_errorReply]. cbn [negb].
  case_bool_decide as Hau; [apply post_errorReply|].
  destruct (ctx_transaction (context e)) eqn:Ht; [apply post_errorReply|].
  destruct (_ && _) eqn:Htls; [apply post_errorReply|].
  case_bool_decide as Hm; [|apply post_errorReply]. cbn [negb].
  apply post_bind_moves; [apply runAuth_moves|]. intros result e1 _ Hmv.
  destruct result as [[|err| |]|[id r|r]]; [apply post_errorReply|apply post_lineError|apply post_ret| | |apply post_errorReply].
  - apply post_seq; [apply report_quiet|]. intros. apply post_send.
  - apply post_context; [|apply post_send]. rewrite (m_ctx _ _ Hmv). apply cs_auth; try done.
    + unfold hello_is, is_ehlo in *. destruct (ctx_hello (context e)) as [[[] ?]|]; done.
    + destruct (ctx_auth (context e)); [|done]. by destruct Hau.
    + intros Hreq. rewrite Hreq in Htls. by destruct (ctx_secure (context e)).
Qed.

(** ** STARTTLS *)

Lemma post_startTls e : post (startTls options hooks) e.
Proof.
  unfold startTls. apply post_get. destruct (ctx_secure (context e)) eqn:Hs; [apply post_errorReply|].
  destruct (startTlsAvailable options hooks e) eqn:Ha; [|apply post_errorReply].
  destruct (upgradeTls hooks) as [upgrade|]; [|apply post_errorReply].
  set (e0 := (discard_plaintext hooks e).2).
  assert (Hd : forall f, (discard_plaintext hooks;; f) e = (f : M bool) e0) by done.
  rewrite Hd. assert (context e0 = context e /\ errors e0 = errors e /\ (wire e -> wire e0)) as (Ec & Ee & Ew).
  { unfold e0, discard_plaintext. cbn. by destruct (discardPending (reader e)). }
  clearbody e0. unfold mbind, M_bind. pose proof (send_quiet Replies.startTls e0) as Hq.
  destruct (send options _ e0) as [[[]|] e1]; cbn in Hq.
  2: { destruct Hq as [Qc _ _ _ _ Qw]. split; try done; cbn; [by rewrite Qc, Ec|auto]. }
  pose proof (flush_quiet e1) as Hf. destruct (flush e1) as [[[]|] e2] eqn:Ef; [|done]. cbn in Hf.
  pose proof (Quiet_trans _ _ _ Hq Hf) as [Qc _ _ _ Qe Qw]. cbn. destruct (upgrade (world e2)) as [[|i] w]; cbn.
  - split; try done; cbn; [by rewrite Qc, Ec|auto].
  - assert (Hstep : ctx_step (context e)
      (set_auth None (set_transaction None (set_hello None (set_secure true (context e2)))))).
    { rewrite Qc, Ec. apply cs_tls; [done|]. unfold startTlsAvailable in Ha.
      by rewrite !andb_true_iff in Ha; destruct Ha as [[? _] _]. }
    split; cbn; [by apply rtc_once|auto|congruence|..].
    + intros _ _. unfold reader_ok, newSessionReader, newReader. split_and!; try done.
      apply reachable_wf, reach_new.
    + intros _ _ Hsec. by rewrite Hs in Hsec.
Qed.

(** ** DATA *)

Lemma unread_queue_length r : (length (unread r) <= length (concat (queue r)))%nat.
Proof.
  unfold unread. destruct (queue r) as [|h t]; [cbn; lia|]. cbn. rewrite !length_app, length_drop. lia.
Qed.

Lemma startData_frame max r0 r :
  startData max r0 = Some r -> queue r = queue r0 /\ events r = events r0 /\ unread r = unread r0.
Proof. unfold startData. destruct (_ || _ || _ || _); [done|]. by intros [= <-]. Qed.

Lemma data_fuel_enough max r0 r chunks :
  startData max r0 = Some r -> (5 * length (unread r0 ++ concat chunks) < data_fuel r chunks)%nat.
Proof.
  intros (Hq & _ & _)%startData_frame. unfold data_fuel. rewrite Hq, length_app.
  pose proof (unread_queue_length r0). lia.
Qed.

(** The end of [data]: whatever is answered, the transaction is over. *)
Lemma data_reply_post d e : post (data_reply options hooks d) e.
Proof.
  unfold data_reply. destruct (finishData hooks d) as [r w].
  pose proof (Quiet_trans _ _ _ (world_quiet w e) (send_quiet r (with_world w e))) as Hq.
  destruct (send options r (with_world w e)) as [res e1]. cbn in Hq. destruct Hq as [Qc Qr Qi Qcl Qe Qw].
  assert (ctx_step (context e) (set_transaction None (context e1))) as Hs by (rewrite Qc; apply cs_end).
  destruct res; cbn; split; cbn; try (by apply rtc_once); try done; intros; unfold rest; cbn;
    rewrite ?Qr, ?Qi, ?Qe; auto.
Qed.

Lemma data_incomplete_stop d e :
  let x := data_incomplete options hooks d e in
  x.1 <> Done true /\ rtc ctx_step (context e) (context x.2) /\ (wire e -> wire x.2) /\ ctx_transaction (context x.2) = None.
Proof.
  unfold data_incomplete. destruct (pullTerminal_inert (in_end (input e)) e) as (e1 & Hp & [Ic _ _ _ Iw]).
  unfold mbind, M_bind. rewrite Hp. destruct (await_hook _ _) as [s w].
  unfold modify, modify_context. cbn. set (e2 := with_context _ _).
  assert (context e2 = set_transaction None (context e)) as Hc by (unfold e2; cbn; by rewrite Ic).
  assert (rtc ctx_step (context e) (context e2)) as Hs by (rewrite Hc; apply rtc_once, cs_end).
  assert (wire e -> wire e2) as Hw by (intros; by apply Iw).
  clearbody e2. destruct (in_end (input e)); cbn; [by split_and!; [..|rewrite Hc]| |by split_and!; [..|rewrite Hc]].
  pose proof (send_quiet Replies.idleTimeout e2) as [Qc _ _ _ _ Qw].
  destruct (send options Replies.idleTimeout e2) as [[|] e3]; cbn in *; rewrite Qc, Hc; rewrite Hc in Hs;
    (split_and!; [done|done|auto|done]).
Qed.

(** The message size limit is not negative. *)
Hypothesis size_ok : 0 <= opt_maxSize options.

Lemma not_exceeds_zero : exceeds 0 (Some (opt_maxSize options)) = false.
Proof. unfold exceeds. lia. Qed.

Lemma data_lines_rest acc s ls rst : data_lines acc s = Some (ls, rst) -> (length rst < length s)%nat.
Proof.
  remember (length s) as n eqn:Hn. revert acc s ls rst Hn.
  induction n as [n IH] using lt_wf_ind. intros acc [|b [|b' s]] ls rst -> Hd; try done.
  cbn [data_lines] in Hd. destruct (_ && _).
  - case_decide; [simplify_eq; cbn; lia|].
    destruct (data_lines [] s) as [[ls' rst']|] eqn:E; [|done]. cbn in Hd. simplify_eq.
    apply (IH (length s)) in E; [cbn; lia|cbn; lia|done].
  - apply (IH (length (b' :: s)) ltac:(cbn; lia) (acc ++ [b]) (b' :: s)) in Hd; [cbn in *; lia|done].
Qed.

(** A completed DATA phase leaves the reader at a line boundary of the remaining input. *)
Lemma receive_reader r0 r chunks d d' sz rej r' chunks' :
  reader_ok r0 -> startData (Some (opt_maxSize options)) r0 = Some r ->
  readData (on_data_event hooks) (data_fuel r chunks) chunks r d = DataComplete d' sz rej r' chunks' ->
  at_boundary r' /\ (length (unread r' ++ concat chunks') <= length (unread r0 ++ concat chunks))%nat.
Proof.
  intros (Hwf & Hm & He) Hs Hr.
  pose proof (data_phase (on_data_event hooks) _ r0 r chunks d _ Hwf He not_exceeds_zero Hs
    (data_fuel_enough _ _ _ chunks Hs)) as Hp.
  destruct (data_lines [] _) as [[ls rst]|] eqn:Hl.
  - destruct Hp as (evs & rej' & r1 & ch & Heq & _ & _ & _ & Hrest & Hb). rewrite Hr in Heq. simplify_eq.
    split; [done|]. apply data_lines_rest in Hl. lia.
  - destruct Hp as (evs & r1 & Heq). by rewrite Hr in Heq.
Qed.

Lemma post_receive e : post (receive options hooks) e.
Proof.
  unfold receive. destruct (startData _ (reader e)) as [r|] eqn:Hs; [|apply Post_quiet, Quiet_refl].
  destruct (readData _ _ _ _ _) as [d sz rej r' ch|d r'|] eqn:Hr; [| |apply Post_quiet, Quiet_refl].
  - unfold mbind, M_bind, modify. set (e1 := with_input _ _).
    pose proof (note_quiet e1) as Hn. destruct (note_buffered e1) as [[[]|] e2] eqn:En; [|done]. cbn in Hn.
    pose proof (data_reply_post (mkDataLoop (dl_world d) (or_else (dl_rejection d) rej) (dl_destroyed d)) e2) as Hp.
    eapply Post_after in Hp; [|done]. eapply Post_moves; [|done]. split; try done.
    intros Hok. destruct (receive_reader _ _ _ _ _ _ _ _ _ Hok Hs Hr) as [(? & ? & ? & _) Hle]. done.
  - unfold mbind, M_bind, modify. set (e1 := with_input _ _).
    pose proof (note_quiet e1) as Hn. destruct (note_buffered e1) as [[[]|] e2] eqn:En; [|done].
    destruct Hn as [Nc _ _ _ _ Nw]. cbn in Nc, Nw.
    destruct (data_incomplete_stop d e2) as (Hne & Hc & Hw & _). rewrite Nc in Hc.
    split; auto; by intros ?%Hne.
Qed.

Lemma post_data e : post (data options hooks) e.
Proof.
  unfold data. apply post_get. case_bool_decide; [apply post_errorReply|].
  destruct (ctx_transaction (context e)); [|apply post_errorReply].
  case_bool_decide; [apply post_errorReply|].
  apply post_seq; [apply send_quiet|]. intros. apply post_seq; [apply flush_quiet|]. intros.
  apply post_receive.
Qed.

(** ** The main loop *)

Lemma post_command line e : post (command options hooks line) e.
Proof.
  unfold command. apply post_get.
  destruct (parseCommand line _) as [r|[v d|from ps|to ps|[]|a|a|a|m ir]]; auto using post_errorReply,
    post_hello, post_mail, post_rcpt, post_data, post_startTls, post_auth, post_send.
  - apply post_context; [apply cs_end|apply post_send].
  - apply post_seq; [apply send_quiet|]. intros. apply post_seq; [apply flush_quiet|]. intros. apply post_ret.
Qed.

Lemma post_iteration e : post (iteration options hooks) e.
Proof.
  unfold iteration. apply post_bind_moves; [apply nextEvent_moves|]. intros ev e1 _ _.
  destruct ev as [[| |]|[l|err|c|rs|n rj]]; try apply post_ret; [| |apply post_lineError].
  - apply post_seq; [apply send_quiet|]. intros. apply post_seq; [apply flush_quiet|]. intros. apply post_ret.
  - apply post_seq; [by split|]. intros. apply post_command.
Qed.

(** ** Reachable sessions *)

(** The states between two turns of the main loop of a session on input [i]. *)
Inductive session_reach (id : jsstr) (i : Input) (w : W) : Engine -> Prop :=
| sr_greeted e : greet options hooks (newEngine options id i w) = (Done true, e) -> session_reach id i w e
| sr_turn e e' : session_reach id i w e -> closed e = false -> iteration options hooks e = (Done true, e') ->
    session_reach id i w e'.

Definition initial_context (id : jsstr) : SessionContext :=
  mkContext id (opt_remoteAddress options) (opt_secure options) None None None.

Lemma post_greet e : post (greet options hooks) e.
Proof.
  unfold greet. apply post_bind; [apply callHook_quiet|]. intros custom e1 _ _.
  apply post_seq; [apply send_quiet|]. intros e2 _. destruct (negb _); [|apply post_ret].
  apply post_seq; [apply flush_quiet|]. intros. apply post_ret.
Qed.

Lemma new_reader_ok : reader_ok (newSessionReader options).
Proof. split_and!; [apply reachable_wf, reach_new|done|done]. Qed.

Lemma session_reach_inv id i w e :
  session_reach id i w e ->
  rtc ctx_step (initial_context id) (context e) /\ wire e /\ reader_ok (reader e) /\
  ((0 < maxErrors options)%nat -> (errors e < maxErrors options)%nat).
Proof.
  induction 1 as [e He|e e' _ (Hc & Hw & Hr & Hn) _ He].
  - pose proof (post_greet (newEngine options id i w)) as Hp. rewrite He in Hp. destruct Hp as [P1 P2 P3 P4 _].
    split_and!; [done|apply P2; constructor|by apply P4; [|apply new_reader_ok]|by apply P3].
  - pose proof (post_iteration e) as Hp. rewrite He in Hp. destruct Hp as [P1 P2 P3 P4 _].
    split_and!; [by etrans|auto|auto|auto].
Qed.

(** C3: every turn of the engine's main loop - on whatever event the client causes, with whatever
    answers from the hooks, ending normally, by closing or by an exception - changes the session
    context only by steps of the abstract SMTP machine, and queues only complete CRLF-terminated
    reply lines without control characters; while the session goes on, fewer than [maxErrors]
    errors have been counted and the reader is in command mode with no stray events. *)
Theorem engine_refines_protocol (id : jsstr) (i : Input) (w : W) (e : Engine) :
  session_reach id i w e ->
  let '(res, e') := iteration options hooks e in
  rtc ctx_step (initial_context id) (context e) /\ rtc ctx_step (context e) (context e') /\
  wire e /\ wire e' /\ reader_ok (reader e) /\
  ((0 < maxErrors options)%nat -> (errors e < maxErrors options)%nat) /\
  (res = Done true -> reader_ok (reader e')).
Proof.
  intros Hr. destruct (session_reach_inv id i w e Hr) as (Hc & Hw & Hrd & Hn).
  pose proof (post_iteration e) as [P1 P2 P3 P4 _]. destruct (iteration options hooks e) as [res e'].
  split_and!; auto.
Qed.

(** ** Safety of the abstract machine *)

Definition tx_ok (c : SessionContext) (tx : Transaction) : Prop :=
  ctx_hello c <> None /\ params_allowed (is_ehlo (ctx_hello c)) (tx_params tx) /\
  (length (tx_recipients tx) <= maxRecipients options)%nat /\
  Forall (fun r => rcpt_allowed (rcpt_params r)) (tx_recipients tx).

Definition auth_ok (c : SessionContext) (a : jsstr * jsstr) : Prop :=
  authAvailable options hooks = true /\ a.1 ∈ cap_auth (opt_caps options) /\
  (cap_authRequiresTls (opt_caps options) = true -> ctx_secure c = true).

Definition ctx_inv (c : SessionContext) : Prop :=
  match ctx_transaction c with Some tx => tx_ok c tx | None => True end /\
  match ctx_auth c with Some a => auth_ok c a | None => True end.

Lemma ctx_step_inv c c' : ctx_inv c -> ctx_step c c' -> ctx_inv c'.
Proof.
  intros [Ht Ha] Hs. destruct Hs as [|v d Hn|from ps Hh Hn Hp|tx to ps Hh Hn Hp Hl|m id He Hau Hn Hav Hm Htls|Hs Hc];
    unfold ctx_inv; cbn; try done.
  - by rewrite Hn.
  - split; [|done]. split; [done|]. split; [done|]. split; [cbn; lia|constructor].
  - split; [|done]. rewrite Hn in Ht. destruct Ht as (_ & Hps & _ & Hrs). cbn.
    split; [done|]. split; [done|]. split; [cbn; rewrite length_app; cbn; lia|]. apply Forall_app. split; [done|]. by repeat constructor.
Qed.

(** C6: in every reachable state, an open transaction was opened after EHLO or HELO with only the
    parameters and the size the server offers, holds at most [maxRecipients] recipients (each with
    only offered parameters), and an authenticated session used an offered mechanism and, when TLS
    is required for AUTH, is secured. *)
Theorem session_invariant (id : jsstr) (i : Input) (w : W) (e : Engine) :
  session_reach id i w e -> ctx_inv (context e).
Proof.
  intros (Hc & _)%session_reach_inv. revert Hc. generalize (context e). intros c Hc.
  remember (initial_context id) as c0 eqn:E0. assert (ctx_inv c0) as Hi by (by subst).
  clear E0. induction Hc; eauto using ctx_step_inv.
Qed.

(** ** Termination *)

Lemma iteration_progress e e' :
  reader_ok (reader e) -> iteration options hooks e = (Done true, e') ->
  reader_ok (reader e') /\
  ((ctx_secure (context e') = ctx_secure (context e) /\ (rest e' < rest e)%nat) \/
   (ctx_secure (context e) = false /\ ctx_secure (context e') = true)).
Proof.
  intros Hr Hi. unfold iteration, mbind, M_bind in Hi.
  destruct (nextEvent_cmd e Hr) as (res & e1 & Hn & Hr1 & _ & Hres). rewrite Hn in Hi.
  pose proof (nextEvent_moves e) as [Mc _ _ _]. rewrite Hn in Mc. cbn in Mc.
  destruct res as [[| |]|ev]; [done| |done|].
  { by destruct (send options _ e1) as [[|] ?]. }
  destruct Hres as [Hlt _].
  assert (exists m, post m e1 /\ m e1 = (Done true, e')) as (m & Hp & Hm).
  { destruct ev as [l|err|c|rs|n rj].
    - exists (count_command;; command options hooks l). split; [|exact Hi].
      apply post_seq; [by split|]. intros. apply post_command.
    - exists (lineErrorReply options err). split; [|exact Hi]. apply post_lineError.
    - exists (mret true). split; [apply post_ret|done].
    - exists (mret true). split; [apply post_ret|done].
    - exists (mret true). split; [apply post_ret|done]. }
  rewrite Hm in Hp. destruct Hp as [P1 _ _ P4 P5]. cbn in *. split; [by apply P4|].
  destruct (ctx_secure (context e1)) eqn:E1.
  - left. rewrite (ctx_steps_secure _ _ P1 E1) in *. rewrite <- Mc, E1. split; [done|].
    specialize (P5 eq_refl Hr1 eq_refl). lia.
  - rewrite Mc in E1. rewrite E1. destruct (ctx_secure (context e')); [by right|].
    left. split; [done|]. specialize (P5 eq_refl Hr1 eq_refl). lia.
Qed.

Abbreviation stops e := (exists fuel, is_Some (run_loop options hooks fuel e)).

Lemma stops_step e :
  reader_ok (reader e) ->
  (forall e', reader_ok (reader e') -> iteration options hooks e = (Done true, e') -> stops e') -> stops e.
Proof.
  intros Hr Hnext. destruct (closed e) eqn:Hc; [exists 1%nat; cbn; rewrite Hc; eauto|].
  destruct (iteration options hooks e) as [[[]|] e'] eqn:Hi.
  - destruct (iteration_progress e e' Hr Hi) as [Hr' _]. destruct (Hnext e' Hr' eq_refl) as [fuel Hf].
    exists (S fuel). cbn. by rewrite Hc, Hi.
  - exists 1%nat. cbn. rewrite Hc, Hi. eauto.
  - exists 1%nat. cbn. rewrite Hc, Hi. eauto.
Qed.

(** Once secured, every turn that continues consumes input. *)
Lemma secured_stops n : forall e,
  reader_ok (reader e) -> ctx_secure (context e) = true -> (rest e <= n)%nat -> stops e.
Proof.
  induction n as [n IH] using lt_wf_ind. intros e Hr Hs Hn. apply stops_step; [done|]. intros e' Hr' Hi.
  destruct (iteration_progress e e' Hr Hi) as [_ [[Hse Hlt]|[Hse _]]]; [|congruence].
  apply (IH (rest e')); [lia|done|congruence|lia].
Qed.

Lemma run_loop_stops n : forall e, reader_ok (reader e) -> (rest e <= n)%nat -> stops e.
Proof.
  induction n as [n IH] using lt_wf_ind. intros e Hr Hn. apply stops_step; [done|]. intros e' Hr' Hi.
  destruct (iteration_progress e e' Hr Hi) as [_ [[Hse Hlt]|[Hse Hse']]]; [|by eapply secured_stops].
  apply (IH (rest e')); [lia|done|lia].
Qed.

Lemma conclude_closed res e : closed (conclude hooks res e) = true.
Proof.
  unfold conclude. set (e1 := match res with Threw => _ | Done _ => _ end). clearbody e1.
  destruct (closed e1) eqn:Hc; [done|]. unfold mbind, M_bind, flush, finish, modify. cbn. destruct (closed e1); done.
Qed.

(** C7: every session ends. For any finite input and any hooks that answer, the main loop stops after
    finitely many turns - each turn that continues consumes input or is the one upgrade to TLS - and
    the engine is closed. *)
Theorem session_terminates (id : jsstr) (i : Input) (w : W) :
  exists fuel e, run options hooks fuel (newEngine options id i w) = Some e /\ closed e = true.
Proof.
  unfold run. pose proof (post_greet (newEngine options id i w)) as [_ _ _ P4 _].
  destruct (greet options hooks _) as [[[]|] e].
  - destruct (run_loop_stops (rest e) e) as (fuel & [res e'] & Hf);
      [by apply P4; [|apply new_reader_ok]|done|].
    exists fuel, (conclude hooks res e'). rewrite Hf. split; [done|apply conclude_closed].
  - exists 0%nat, (conclude hooks (Done tt) e). split; [done|apply conclude_closed].
  - exists 0%nat, (conclude hooks Threw e). split; [done|apply conclude_closed].
Qed.
End Session.
