(* ===== verification/SmtpSessionData.v ===== *)
(** * SmtpSessionData: what DATA accepts, what STARTTLS forgets

    The DATA command end to end: the octets that follow the 354 reply decide, by the line-level
    reading of [data_lines], whether the engine answers with its own rejection or with the verdict of
    the daemon's hook, and the hook that gives the verdict has been handed the whole message. STARTTLS
    makes the session independent of whatever plaintext was pending. *)
From stdpp Require Import relations.
From S2P Require Import Prelude SmtpLineReader SmtpLineReaderProofs JsString JsStringFacts SmtpReply SmtpReplyProofs SmtpAddress SmtpAddressProofs SmtpCommand SmtpSession SmtpSessionProofs.

Section Session.
Context `{Runtime} {W : Type} (options : ServerSessionOptions) (hooks : ServerHooks W).
Hypothesis size_ok : 0 <= opt_maxSize options.

Implicit Types e : Engine (W := W).

(** Everything said to the client so far, in order. *)
Definition said (e : Engine (W := W)) : list jsstr := written e ++ outbox e.

(** The message is acceptable at the protocol level. *)
Definition acceptable (ls : list bytes) : bool :=
  negb (existsb dirty ls) &&
  negb (exceeds (Z.of_nat (length (message_body ls))) (Some (opt_maxSize options))).

(** A hook that neither answers nor destroys the body before the message is complete. *)
Definition patient : Prop :=
  forall w, dh_settled (onData hooks) w = None /\ dh_destroyed (onData hooks) w = false.

(** The verdict of a hook that is handed the chunks [segs] and then the end of the body. *)
Definition hook_verdict (c : SessionContext) (w : W) (segs : list bytes) : SmtpReply :=
  let h := onData hooks in
  let w := fold_left (fun w seg => dh_step h (BodyChunk seg) w) segs (dh_start h c w) in
  match dh_await h (dh_step h BodyEnd w) with
  | (HRet r, _) => r
  | (HThrow, _) => Replies.localError
  end.

Lemma on_data_patient segs d :
  patient -> dl_destroyed d = false ->
  fold_left (flip (on_data_event hooks)) (EvData <$> segs) d =
  mkDataLoop (fold_left (fun w seg => dh_step (onData hooks) (BodyChunk seg) w) segs (dl_world d))
    (dl_rejection d) false.
Proof.
  intros Hp. revert d. induction segs as [|seg segs IH]; intros [w rej des] Hd; cbn in Hd; subst; [done|].
  change (fold_left (flip (on_data_event hooks)) (EvData <$> seg :: segs) (mkDataLoop w rej false)) with
    (fold_left (flip (on_data_event hooks)) (EvData <$> segs) (on_data_event hooks (EvData seg) (mkDataLoop w rej false))).
  assert (on_data_event hooks (EvData seg) (mkDataLoop w rej false) =
    mkDataLoop (dh_step (onData hooks) (BodyChunk seg) w) rej false) as ->.
  { destruct (Hp w) as [Hs Hdes]. cbn [on_data_event dl_world]. unfold body_destroyed.
    cbn [dl_world dl_destroyed]. by rewrite Hs, Hdes. }
  by rewrite IH.
Qed.

Lemma finishData_patient w segs c :
  patient ->
  (finishData hooks (mkDataLoop (fold_left (fun w seg => dh_step (onData hooks) (BodyChunk seg) w) segs
     (dh_start (onData hooks) c w)) None false)).1 = hook_verdict c w segs.
Proof.
  intros Hp. unfold finishData, hook_verdict, body_destroyed, await_hook. cbn [dl_rejection dl_world dl_destroyed].
  set (w1 := fold_left _ _ _). destruct (Hp w1) as [-> ->]. cbn [orb].
  destruct (Hp (dh_step (onData hooks) BodyEnd w1)) as [-> _].
  by destruct (dh_await _ _) as [[]].
Qed.

Lemma finishData_rejected d reason :
  dl_rejection d = Some reason -> (finishData hooks d).1 = dataRejectionReply reason.
Proof. intros Hd. unfold finishData. rewrite Hd. by destruct (await_hook _ _). Qed.

Lemma said_send r e :
  send options r e = match formatReply r (useEnhanced options e) with
    | Some t => (Done tt, with_outbox (outbox e ++ [t]) (written e) e)
    | None => (Threw, e)
    end.
Proof. done. Qed.

(** The reply of [data] once the body is complete. *)
Lemma data_reply_said d e :
  let r := (finishData hooks d).1 in
  let x := data_reply options hooks d e in
  x.1 = (if formattable r (useEnhanced options e) then Done true else Threw) /\
  said x.2 = said e ++ option_list (formatReply r (useEnhanced options e)) /\
  ctx_transaction (context x.2) = None /\ reader x.2 = reader e /\ input x.2 = input e.
Proof.
  cbn zeta. unfold data_reply. destruct (finishData hooks d) as [r w] eqn:Hf. cbn [fst].
  rewrite said_send. change (useEnhanced options (with_world w e)) with (useEnhanced options e).
  rewrite formatReply_cases. destruct (formattable r _); cbn; split_and!; try done.
  - unfold said. cbn. by rewrite app_assoc.
  - unfold said. cbn. by rewrite app_nil_r.
Qed.

(** After the 354: the DATA phase of a reader at a line boundary, complete. *)
Lemma receive_complete e ls rst :
  at_boundary (reader e) ->
  data_lines [] (unread (reader e) ++ concat (in_chunks (input e))) = Some (ls, rst) ->
  exists d e1, receive options hooks e = data_reply options hooks d e1 /\
    context e1 = context e /\ said e1 = said e /\ at_boundary (reader e1) /\
    unread (reader e1) ++ concat (in_chunks (input e1)) = rst /\
    (acceptable ls = false -> is_Some (dl_rejection d)) /\
    (acceptable ls = true -> patient -> exists segs, concat segs = message_body ls /\
       (finishData hooks d).1 = hook_verdict (context e) (world e) segs).
Proof.
  intros (Hwf & Hm & He & Hl & Hcr & Hdi) Hdl. unfold receive.
  assert (exists r, startData (Some (opt_maxSize options)) (reader e) = Some r) as [r Hs].
  { unfold startData. rewrite Hm, Hl, Hcr, Hdi. cbn. eauto. }
  rewrite Hs. set (d0 := mkDataLoop _ _ _).
  pose proof (data_phase (on_data_event hooks) _ (reader e) r (in_chunks (input e)) d0 _ Hwf He
    (not_exceeds_zero options size_ok) Hs (data_fuel_enough _ _ _ _ Hs)) as Hp.
  rewrite Hdl in Hp. destruct Hp as (evs & rej & r' & ch & Heq & Hrej & _ & Hseg & Hrest & Hb). rewrite Heq.
  set (d1 := fold_left _ _ _). unfold mbind, M_bind, modify. set (e1 := with_input _ _).
  pose proof (note_quiet e1) as Hn. destruct (note_buffered e1) as [[[]|] e2] eqn:En; [|done].
  destruct Hn as [Nc Nr Ni _ _ _]. cbn in Nc, Nr, Ni.
  assert (said e2 = said e) as Hsaid.
  { unfold note_buffered, modify in En. injection En as <-. by destruct (_ >? _). }
  exists (mkDataLoop (dl_world d1) (or_else (dl_rejection d1) rej) (dl_destroyed d1)), e2.
  rewrite Nr, Ni. split_and!; try done.
  - intros Ha. cbn. destruct (dl_rejection d1) as [x|]; [by exists x|]. destruct rej as [x|]; [by exists x|].
    destruct (proj1 Hrej eq_refl) as [H1 H2]. unfold acceptable in Ha. by rewrite H1, H2 in Ha.
  - intros Ha Hpat. unfold acceptable in Ha. apply andb_true_iff in Ha as [H1%negb_true_iff H2%negb_true_iff].
    assert (rej = None) as -> by (by apply Hrej). destruct (Hseg eq_refl) as (segs & -> & Hc).
    exists segs. split; [done|]. unfold d1. rewrite on_data_patient by done. cbn.
    by apply finishData_patient.
Qed.

(** The connection ends inside the message: the engine stops; the client hears at most a 421. *)
Definition farewell (t : jsstr) : Prop :=
  exists r u, (r = Replies.idleTimeout \/ r = Replies.shuttingDown) /\ formatReply r u = Some t.

Lemma send_farewell r e :
  r = Replies.idleTimeout \/ r = Replies.shuttingDown ->
  exists t, farewell t /\ send options r e = (Done tt, with_outbox (outbox e ++ [t]) (written e) e).
Proof.
  intros Hr. rewrite said_send. set (u := useEnhanced options e).
  assert (exists t, formatReply r u = Some t) as [t Ht] by (destruct Hr as [->| ->], u; eexists; reflexivity).
  exists t. rewrite Ht. split; [|done]. exists r, u. auto.
Qed.

Lemma pullTerminal_said t e :
  destroyed e = false ->
  exists e' ts, pullTerminal options t e = (Done (pulled_of t), e') /\ said e' = said e ++ ts /\ Forall farewell ts.
Proof.
  intros Hd. destruct t; [exists e, []; rewrite app_nil_r; done|exists e, []; rewrite app_nil_r; done|].
  unfold pullTerminal, close, mbind, M_bind, get. destruct (closed e) eqn:Hc.
  { exists e, []. by rewrite app_nil_r. }
  destruct (send_farewell Replies.shuttingDown e) as (t & Ht & ->); [by right|]. cbn. rewrite Hd, Hc.
  eexists _, [t]. split; [done|]. split; [|by repeat constructor]. unfold said. cbn. by rewrite app_nil_r, app_assoc.
Qed.

Lemma receive_incomplete e :
  at_boundary (reader e) -> destroyed e = false ->
  data_lines [] (unread (reader e) ++ concat (in_chunks (input e))) = None ->
  exists e' ts, receive options hooks e = (Done false, e') /\ ctx_transaction (context e') = None /\
    said e' = said e ++ ts /\ Forall farewell ts.
Proof.
  intros (Hwf & Hm & He & Hl & Hcr & Hdi) Hdes Hdl. unfold receive.
  assert (exists r, startData (Some (opt_maxSize options)) (reader e) = Some r) as [r Hs].
  { unfold startData. rewrite Hm, Hl, Hcr, Hdi. cbn. eauto. }
  rewrite Hs. set (d0 := mkDataLoop _ _ _).
  pose proof (data_phase (on_data_event hooks) _ (reader e) r (in_chunks (input e)) d0 _ Hwf He
    (not_exceeds_zero options size_ok) Hs (data_fuel_enough _ _ _ _ Hs)) as Hp.
  rewrite Hdl in Hp. destruct Hp as (evs & r' & ->).
  set (d1 := fold_left _ _ _). unfold mbind, M_bind, modify. set (e1 := with_input _ _).
  destruct (note_buffered e1) as [[[]|] e2] eqn:En; [|done].
  assert (said e2 = said e /\ destroyed e2 = false) as [Hsaid Hdes2].
  { unfold note_buffered, modify in En. injection En as <-. by destruct (_ >? _). }
  unfold data_incomplete. destruct (pullTerminal_said (in_end (input e2)) e2 Hdes2) as (e3 & ts & Hp & Hs3 & Hts).
  unfold mbind, M_bind. rewrite Hp. destruct (await_hook _ _) as [s w]. unfold modify, modify_context. cbn -[send].
  set (e4 := with_context _ _). assert (said e4 = said e ++ ts) as Hs4 by (rewrite <- Hsaid; done).
  assert (ctx_transaction (context e4) = None) as Hc4 by done. clearbody e4.
  destruct (in_end (input e2)); [by exists e4, ts| |by exists e4, ts].
  cbn [pulled_of]. destruct (send_farewell Replies.idleTimeout e4) as (t & Ht & ->); [by left|].
  eexists _, (ts ++ [t]). split; [done|]. split; [done|]. split; [|apply Forall_app; by repeat constructor].
  unfold said in *. cbn. by rewrite app_assoc, Hs4, <- app_assoc.
Qed.

Lemma startData_formats u : exists t, formatReply Replies.startData u = Some t.
Proof. destruct u; eexists; reflexivity. Qed.


(** ** STARTTLS *)

(** Two sessions that differ only in the plaintext still pending (and in what they counted). *)
Definition same_but_pending (e1 e2 : Engine (W := W)) : Prop :=
  exists r i s, e2 = with_stats s (with_input i (with_reader r e1)).

(** C5: after a successful STARTTLS the session is the same whatever plaintext the client had sent
    behind the STARTTLS line, in the reader or in the socket: secured, no greeting, no identity, no
    transaction, an empty reader on the input of the TLS stream. Nothing pending in plaintext can
    become a command of the secured session. *)
Theorem starttls_forgets_plaintext (e1 e2 e1' : Engine) :
  same_but_pending e1 e2 -> ctx_secure (context e1) = false ->
  startTls options hooks e1 = (Done true, e1') -> startTlsAvailable options hooks e1 = true ->
  (exists e2', startTls options hooks e2 = (Done true, e2') /\ e2' = with_stats (stats e2') e1') /\
  reader e1' = newSessionReader options /\
  context e1' = mkContext (ctx_id (context e1)) (ctx_remoteAddress (context e1)) true None None None /\
  exists upgrade, upgradeTls hooks = Some upgrade /\ fst (upgrade (world e1)) = TlsUpgraded (input e1').
Proof.
  intros (r & i & s & ->) Hs He Ha. unfold startTls in *.
  unfold mbind at 1, M_bind at 1, get in He. unfold mbind at 1, M_bind at 1, get. cbn [context with_stats with_input with_reader].
  rewrite Hs in *. change (startTlsAvailable options hooks (with_stats s (with_input i (with_reader r e1))))
    with (startTlsAvailable options hooks e1). rewrite Ha in *.
  unfold startTlsAvailable in Ha. rewrite !andb_true_iff in Ha. destruct Ha as [[_ Hu%bool_decide_eq_true] _].
  destruct (upgradeTls hooks) as [upgrade|]; [|by destruct Hu].
  unfold discard_plaintext, mbind, M_bind, modify, flush, reportError, secured, send in *. cbn -[formatReply Replies.startTls] in *.
  destruct (discardPending (reader e1)) as [n1 r1]. destruct (discardPending r) as [n2 r2]. cbn -[formatReply Replies.startTls] in *.
  unfold useEnhanced, hello_is in *. cbn -[formatReply Replies.startTls] in *.
  destruct (formatReply Replies.startTls _) as [t|]; [|done]. cbn -[formatReply Replies.startTls] in *.
  destruct (upgrade (world e1)) as [[|i'] w] eqn:Eu; [done|]. injection He as <-. cbn.
  split; [eexists; split; [reflexivity|done]|]. split; [done|]. split; [done|]. exists upgrade. by rewrite Eu.
Qed.

(** ** One reply per command *)

(** When [m] lets the session go on, it has said exactly one reply. *)
Definition says_one (m : M bool) (e : Engine (W := W)) : Prop :=
  destroyed e = false -> forall e', m e = (Done true, e') ->
  destroyed e' = false /\ exists t, said e' = said e ++ [t].

(** Steps that say nothing. *)
Definition silent {A} (m : M A) : Prop :=
  forall e, destroyed (m e).2 = destroyed e /\ said (m e).2 = said e.

Lemma says_bind {A} (m : M A) (f : A -> M bool) e :
  silent m -> (forall a e1, m e = (Done a, e1) -> says_one (f a) e1) -> says_one (m ≫= f) e.
Proof.
  intros Hm Hf Hd e' He. unfold mbind, M_bind in He. destruct (Hm e) as [Hd1 Hs1].
  destruct (m e) as [[a|] e1] eqn:E; [|done]. cbn in *.
  destruct (Hf a e1 eq_refl) with (e' := e') as [Hd' Hs']; [congruence|done|]. by rewrite <- Hs1.
Qed.

Lemma says_get f e : says_one (f e) e -> says_one (get ≫= f) e.
Proof. done. Qed.

Lemma silent_context g : silent (modify_context g).
Proof. done. Qed.

Lemma silent_hook {A} (f : SessionContext -> W -> HookRes A * W) : silent (callHook hooks f).
Proof. intros e. unfold callHook. by destruct (f _ _) as [[] ?]. Qed.

Lemma says_send r e : says_one (send options r;; mret true) e.
Proof.
  intros Hd e' He. unfold mbind, M_bind in He. rewrite said_send in He.
  destruct (formatReply r _) as [t|]; [|done]. injection He as <-. split; [done|]. exists t.
  unfold said. cbn. by rewrite app_assoc.
Qed.

Lemma says_errorReply r e : says_one (errorReply options (Some r)) e.
Proof.
  intros Hd e' He. unfold errorReply, mbind, M_bind in He. rewrite said_send in He.
  destruct (formatReply r _) as [t|]; [|done]. unfold modify, get in He. cbn -[send] in He.
  destruct (_ <=? _)%nat; [by destruct (send options _ _) as [[|] ?]|].
  injection He as <-. split; [done|]. exists t. unfold said. cbn. by rewrite app_assoc.
Qed.

Lemma says_hello v d e : says_one (hello options hooks v d) e.
Proof.
  apply says_bind; [apply silent_context|]. intros _ e1 _. apply says_bind; [apply silent_hook|].
  intros [answer|] e2 _; [|apply says_send]. destruct answer as [r|].
  - destruct (code r >=? 400); [apply says_send|].
    apply says_bind; [apply silent_context|]. intros. apply says_get. destruct v; apply says_send.
  - apply says_bind; [apply silent_context|]. intros. apply says_get. destruct v; apply says_send.
Qed.

Lemma says_mail from ps e : says_one (mail options hooks from ps) e.
Proof.
  apply says_get. destruct (bool_decide _); [apply says_errorReply|].
  destruct (ctx_transaction (context e)); [apply says_errorReply|].
  destruct (unadvertised _ _ _ _); [apply says_errorReply|]. destruct (match mp_size ps with Some _ => _ | None => _ end);
    [apply says_send|]. apply says_bind; [apply silent_hook|]. intros [answer|] e1 _; [|apply says_send].
  apply says_bind; [by destruct (is_2xx _)|]. intros. apply says_send.
Qed.

Lemma says_rcpt to ps e : says_one (rcpt options hooks to ps) e.
Proof.
  apply says_get. destruct (bool_decide _); [apply says_errorReply|].
  destruct (ctx_transaction (context e)); [|apply says_errorReply].
  destruct (_ && _); [apply says_errorReply|]. destruct (_ <=? _)%nat; [apply says_send|].
  apply says_bind; [apply silent_hook|]. intros [r|] e1 _; [|apply says_send].
  apply says_bind; [by destruct (is_2xx _)|]. intros. apply says_send.
Qed.

Lemma says_startTls e : says_one (startTls options hooks) e.
Proof.
  apply says_get. destruct (ctx_secure _); [apply says_errorReply|].
  destruct (if startTlsAvailable _ _ _ then _ else _) as [upgrade|]; [|apply says_errorReply].
  apply says_bind.
  { intros e1. by split. }
  intros _ e1 _ Hd e' He. unfold mbind, M_bind in He. rewrite said_send in He.
  destruct (formatReply Replies.startTls _) as [t|]; [|done]. unfold flush, modify, get, secured in He.
  cbn -[formatReply] in He. rewrite Hd in He. destruct (upgrade _) as [[|i] w]; [done|]. injection He as <-. split; [done|].
  exists t. unfold said. cbn. by rewrite app_nil_r, app_assoc.
Qed.

(** Commands and replies stay in step. Any line that leaves the session running, other than an
    accepted DATA or AUTH (which have their own exchange), is answered by exactly one reply, queued
    behind everything said before. *)
Theorem one_reply_per_command (line : bytes) (e e' : Engine) :
  destroyed e = false -> command options hooks line e = (Done true, e') ->
  match parseCommand line (smtputf8_open e) with
  | inr (CPlain DATA) | inr (CAuth _ _) => True
  | _ => exists t, said e' = said e ++ [t]
  end.
Proof.
  intros Hd He. unfold command in He. unfold mbind at 1, M_bind at 1, get in He.
  assert (forall m, says_one m e -> m e = (Done true, e') -> exists t, said e' = said e ++ [t]) as Hall.
  { intros m Hm Hme. by destruct (Hm Hd e' Hme). }
  destruct (parseCommand line _) as [r|[v d|from ps|to ps|[]|a|a|a|m ir]]; try done;
    try (eapply Hall; [|exact He]); auto using says_errorReply, says_hello, says_mail, says_rcpt, says_send, says_startTls.
  - apply says_bind; [apply silent_context|]. intros. apply says_send.
  - unfold mbind, M_bind in He. by destruct (send options _ e) as [[|] ?].
Qed.
End Session.

(** ** A concrete server

    A daemon that accepts mail for [b.example], stores the body in its world, offers PLAIN over TLS
    only, and upgrades to a TLS stream on which the client greets and quits. *)

#[local] Existing Instance ascii_runtime.

Definition demo_options : ServerSessionOptions :=
  mkOptions (lit "mx.example") 1000
    (mkCaps true true true true false [lit "PLAIN"] true true)
    false None None None None None None.

Definition demo_data : DataHook bytes :=
  mkDataHook (fun _ w => w)
    (fun ev w => match ev with BodyChunk c => w ++ c | _ => w end)
    (fun _ => None) (fun _ => false) (fun _ => true)
    (fun w => (HRet (reply 250 (Some (lit "2.0.0")) [lit "Queued " ++ dec (Z.of_nat (length w))]), w)).

Definition to_example (p : Path) : bool :=
  match p with PMailbox m => bool_decide (domain m = lit "b.example") | _ => false end.

Definition demo_hooks : ServerHooks bytes :=
  mkHooks bytes None None None
    (fun to _ _ w => (HRet (if to_example to then Replies.rcptOk
                            else reply 550 (Some (lit "5.7.1")) [lit "Relaying denied"]), w))
    demo_data
    (Some (fun _ _ _ w => ADone (inr (AuthOk (lit "user") None)) w))
    (Some (fun w => (TlsUpgraded (mkInput [lit "EHLO c.example" ++ CRLF] TEnd), w)))
    (fun _ => 1%nat) (fun w => w).

(** The client's side: a whole transaction, cut at odd places. *)
Definition demo_input : Input :=
  mkInput [lit "EHLO c.example" ++ CRLF ++ lit "MAIL FR";
           lit "OM:<a@c.example>" ++ CRLF ++ lit "RCPT TO:<x@b.example>" ++ CRLF ++ lit "DATA" ++ [CR];
           [LF] ++ lit "hello" ++ CRLF ++ lit "..dot" ++ CRLF ++ lit "." ++ [CR];
           [LF] ++ lit "QUIT" ++ CRLF] TEnd.

Definition demo_start : Engine (W := bytes) := newEngine demo_options (lit "id") demo_input [].

(** The state after the greeting and [n] turns. *)
Fixpoint turns (n : nat) (e : Engine) : Engine :=
  match n with O => e | S n => (iteration demo_options demo_hooks (turns n e)).2 end.
Definition demo_greeted : Engine := (greet demo_options demo_hooks demo_start).2.

(** After EHLO, MAIL and RCPT. *)
Definition demo_rcpt : Engine := turns 3 demo_greeted.

Lemma reach_turn id i w e :
  session_reach demo_options demo_hooks id i w e -> closed e = false ->
  (iteration demo_options demo_hooks e).1 = Done true ->
  session_reach demo_options demo_hooks id i w (iteration demo_options demo_hooks e).2.
Proof.
  intros Hr Hc Hi. destruct (iteration demo_options demo_hooks e) as [res e'] eqn:E. cbn in *. subst.
  by eapply sr_turn.
Qed.

Lemma demo_reach_greeted : session_reach demo_options demo_hooks (lit "id") demo_input [] demo_greeted.
Proof. apply sr_greeted. vm_compute. reflexivity. Qed.

Lemma demo_reach_rcpt : session_reach demo_options demo_hooks (lit "id") demo_input [] demo_rcpt.
Proof.
  unfold demo_rcpt. cbn [turns].
  apply reach_turn; [apply reach_turn; [apply reach_turn; [apply demo_reach_greeted|..]|..]|..];
    vm_compute; reflexivity.
Qed.

Lemma demo_size_ok : 0 <= opt_maxSize demo_options.
Proof. by apply Z.leb_le. Qed.

Lemma engine_refines_protocol_witness :
  wire (iteration demo_options demo_hooks demo_rcpt).2 /\
  rtc (ctx_step demo_options demo_hooks) (context demo_rcpt)
    (context (iteration demo_options demo_hooks demo_rcpt).2).
Proof.
  pose proof (engine_refines_protocol demo_options demo_hooks demo_size_ok (lit "id") demo_input [] demo_rcpt
    demo_reach_rcpt) as Hp.
  destruct (iteration demo_options demo_hooks demo_rcpt) as [res e'].
  destruct Hp as (_ & Hc & _ & Hw & _). split; [exact Hw|exact Hc].
Defined.

Lemma session_invariant_witness :
  ctx_inv demo_options demo_hooks (context demo_rcpt) /\ is_Some (ctx_transaction (context demo_rcpt)).
Proof.
  split; [|vm_compute; eauto].
  exact (session_invariant demo_options demo_hooks demo_size_ok (lit "id") demo_input [] demo_rcpt demo_reach_rcpt).
Defined.

Lemma session_terminates_witness :
  exists fuel e, run demo_options demo_hooks fuel demo_start = Some e /\ closed e = true.
Proof. exact (session_terminates demo_options demo_hooks demo_size_ok (lit "id") demo_input []). Defined.

(** The state in which the DATA command is handled. *)
Definition demo_at_data : Engine := (nextEvent demo_options demo_rcpt).2.
Definition demo_tx : Transaction :=
  mkTransaction (PMailbox (mkMailbox (lit "a") (lit "c.example"))) noMailParams
    [mkRecipient (PMailbox (mkMailbox (lit "x") (lit "b.example"))) noRcptParams].

Lemma demo_boundary : at_boundary (reader demo_at_data).
Proof.
  split_and!; [|vm_compute; reflexivity..].
  destruct (session_reach_inv demo_options demo_hooks demo_size_ok _ _ _ _ demo_reach_rcpt) as (_ & _ & Hok & _).
  pose proof (nextEvent_moves demo_options demo_rcpt) as [_ _ _ Hm]. by destruct (Hm Hok) as [[? _] _].
Qed.

Lemma demo_patient : patient demo_hooks.
Proof. done. Qed.


(** STARTTLS with a command smuggled behind it in the same chunk, and without. *)
Definition tls_start (extra : bytes) : Engine (W := bytes) :=
  (nextEvent demo_options (newEngine demo_options (lit "id")
     (mkInput [lit "STARTTLS" ++ CRLF ++ extra; lit "RSET" ++ CRLF] TEnd) [])).2.

Lemma starttls_forgets_plaintext_witness :
  exists e2', startTls demo_options demo_hooks (tls_start []) = (Done true, e2') /\
    e2' = with_stats (stats e2')
      (startTls demo_options demo_hooks (tls_start (lit "MAIL FROM:<evil@c.example>" ++ CRLF))).2.
Proof.
  destruct (starttls_forgets_plaintext demo_options demo_hooks
    (tls_start (lit "MAIL FROM:<evil@c.example>" ++ CRLF)) (tls_start [])
    (startTls demo_options demo_hooks (tls_start (lit "MAIL FROM:<evil@c.example>" ++ CRLF))).2)
    as ((e2' & H1 & H2) & _).
  - exists (reader (tls_start [])), (input (tls_start [])), (stats (tls_start [])). vm_compute. reflexivity.
  - vm_compute. reflexivity.
  - vm_compute. reflexivity.
  - vm_compute. reflexivity.
  - exists e2'. split; [exact H1|exact H2].
Defined.

(** RCPT for a foreign domain: one reply, the hook's refusal. *)
Lemma one_reply_per_command_witness :
  exists t, said (command demo_options demo_hooks (lit "RCPT TO:<x@other.example>") demo_rcpt).2 =
    said demo_rcpt ++ [t].
Proof.
  pose proof (one_reply_per_command demo_options demo_hooks (lit "RCPT TO:<x@other.example>") demo_rcpt
    (command demo_options demo_hooks (lit "RCPT TO:<x@other.example>") demo_rcpt).2) as Hp.
  replace (parseCommand (lit "RCPT TO:<x@other.example>") (smtputf8_open demo_rcpt))
    with (inr (CRcpt (PMailbox (mkMailbox (lit "x") (lit "other.example"))) noRcptParams) : ParseResult)
    in Hp by (vm_compute; reflexivity).
  apply Hp; vm_compute; reflexivity.
Defined.

(** The whole conversation. *)
Definition crlf (s : string) : jsstr := lit s ++ CRLF.

Example demo_transcript :
  (fun e => (concat (written e), world e)) <$> run demo_options demo_hooks 10 demo_start =
  Some (crlf "220 mx.example ESMTP Postroom" ++
        crlf "250-mx.example greets c.example" ++ crlf "250-PIPELINING" ++ crlf "250-SIZE 1000" ++
        crlf "250-8BITMIME" ++ crlf "250-SMTPUTF8" ++ crlf "250-ENHANCEDSTATUSCODES" ++ crlf "250 STARTTLS" ++
        crlf "250 2.1.0 Sender OK" ++ crlf "250 2.1.5 Recipient OK" ++
        crlf "354 End data with <CR><LF>.<CR><LF>" ++ crlf "250 2.0.0 Queued 13" ++ crlf "221 2.0.0 Bye",
        lit "hello" ++ CRLF ++ lit ".dot" ++ CRLF).
Proof. vm_compute. reflexivity. Qed.
