(* ===== verification/ProxyProtocol.v ===== *)
(** * ProxyProtocol: the PROXY protocol v2 codec (packages/proxy-protocol/src/index.ts)

    The encoder the edge forwarder prefixes a connection with, the decoder and the socket reader
    of the home side, and the peer-trust rule. A [RangeError] of a [Buffer] write is [None]. The
    reader is a step function over the socket's events; its promise is the state [Pending],
    [Resolved] or [Rejected]. *)
From S2P Require Import Prelude JsString.

(** What [buf.writeUInt8(Number(s))] makes of a text [s] that is neither empty nor all digits
    ([Number] also reads signs, fractions, exponents and radix prefixes): [None] when it throws. *)
Class NumberRuntime := { text_number : jsstr -> option Z }.

Section codec.
Context `{NR : NumberRuntime}.

Definition SIGNATURE : bytes := [0x0d; 0x0a; 0x0d; 0x0a; 0x00; 0x0d; 0x0a; 0x51; 0x55; 0x49; 0x54; 0x0a].
Definition PP2_VERSION : Z := 0x20.

Inductive ProxyCommand := LOCAL | PROXY.
Inductive ProxyFamily := TCP4 | TCP6 | UNSPEC.

Definition COMMAND_BITS (c : ProxyCommand) : Z := match c with LOCAL => 0x00 | PROXY => 0x01 end.
Definition COMMAND_BY_BITS (n : Z) : option ProxyCommand :=
  if n =? 0x00 then Some LOCAL else if n =? 0x01 then Some PROXY else None.
Definition FAM_BITS (f : ProxyFamily) : Z := match f with UNSPEC => 0x00 | TCP4 => 0x10 | TCP6 => 0x20 end.
Definition FAM_BY_BITS (n : Z) : option ProxyFamily :=
  if n =? 0x00 then Some UNSPEC else if n =? 0x10 then Some TCP4 else if n =? 0x20 then Some TCP6 else None.
Definition PROTO_STREAM : Z := 0x01.

Record ProxyEndpoint := mkEndpoint { ep_address : jsstr; ep_port : Z }.
Record ProxyTlv := mkTlv { tlv_type : Z; tlv_value : bytes }.
Record ProxyHeader := mkHeader {
  ph_command : ProxyCommand;
  ph_family : ProxyFamily;
  ph_source : option ProxyEndpoint;
  ph_destination : option ProxyEndpoint;
  ph_tlvs : list ProxyTlv
}.

(** [EncodeProxyV2Input] has the same fields; an absent [tlvs] is the empty list. *)
Definition EncodeProxyV2Input := ProxyHeader.

(** ** Addresses in text *)

Definition MAPPED : jsstr := js "::ffff:".

Definition normalizeAddress (address : jsstr) : jsstr :=
  if startsWith MAPPED address then drop (length MAPPED) address else address.

Definition ipv4_part (part : jsstr) : bool :=
  if (Nat.eqb (length part) 0) || (3 <? length part)%nat then false
  else if negb (forallb is_digit part) then false
  else let n := Number part in (0 <=? n) && (n <=? 255).

Definition isIPv4Literal (address : jsstr) : bool :=
  let parts := splitOn DOT address in
  if negb (Nat.eqb (length parts) 4) then false else forallb ipv4_part parts.

(** [buf.writeUInt8(n)] and [buf.writeUInt16BE(n)] of an integer. *)
Definition writeUInt8 (n : Z) : option bytes :=
  if (n >? 255) || (n <? 0) then None else Some [n].
Definition writeUInt16BE (n : Z) : option bytes :=
  if (n >? 65535) || (n <? 0) then None else Some [Z.shiftr n 8; Z.land n 255].

(** [buf.writeUInt8(Number(p))]. *)
Definition writeNumberText (p : jsstr) : option bytes :=
  if Nat.eqb (length p) 0 then Some [0]
  else if forallb is_digit p then writeUInt8 (Number p)
  else (fun n => [n mod 256]) <$> text_number p.

Definition encodeIPv4 (address : jsstr) : option bytes :=
  let parts := splitOn DOT address in
  let write i := match parts !! i with Some p => writeNumberText p | None => Some [0] end in
  a ← write 0%nat; b ← write 1%nat; c ← write 2%nat; d ← write 3%nat; Some (a ++ b ++ c ++ d).

Fixpoint expandGroup (groups : list jsstr) : option (list (option Z)) :=
  match groups with
  | [] => Some []
  | g :: gs =>
      out ← (if includesChar DOT g then
               v4 ← encodeIPv4 g;
               let at_ i := nth i v4 0 in
               Some [Some (Z.lor (Z.shiftl (at_ 0%nat) 8) (at_ 1%nat));
                     Some (Z.lor (Z.shiftl (at_ 2%nat) 8) (at_ 3%nat))]
             else Some [parseInt16 g]);
      rest ← expandGroup gs;
      Some (out ++ rest)
  end.

(** [buf.writeUInt16BE(groups[i] ?? 0, i * 2)]; [NaN] is stored as zero. *)
Definition writeGroup (groups : list (option Z)) (i : nat) : option bytes :=
  match groups !! i with
  | None => Some [0; 0]
  | Some None => Some [0; 0]
  | Some (Some n) => writeUInt16BE n
  end.

Definition expandIPv6 (address : jsstr) : option bytes :=
  let normalized := normalizeAddress address in
  let pieces := splitDouble 58 normalized in
  let parts i := match pieces !! i with
                 | Some p => if (0 <? length p)%nat then splitOn 58 p else []
                 | None => []
                 end in
  groups ← (if (1 <? length pieces)%nat then
              headGroups ← expandGroup (parts 0%nat);
              tailGroups ← expandGroup (parts 1%nat);
              let missing := 8 - Z.of_nat (length headGroups) - Z.of_nat (length tailGroups) in
              Some (headGroups ++ replicate (Z.to_nat (Z.max missing 0)) (Some 0) ++ tailGroups)
            else expandGroup (splitOn 58 normalized));
  ws ← mapM (writeGroup groups) (seq 0 8);
  Some (concat ws).

Definition effectiveFamily (address : jsstr) : ProxyFamily :=
  if isIPv4Literal (normalizeAddress address) then TCP4 else TCP6.

Definition encodeEndpointAddress (family : ProxyFamily) (endpoint : ProxyEndpoint) : option bytes :=
  let address := normalizeAddress (ep_address endpoint) in
  match family with TCP4 => encodeIPv4 address | _ => expandIPv6 address end.

Definition encodePort (port : Z) : option bytes := writeUInt16BE (Z.land port 0xffff).

Definition encodeTlv (tlv : ProxyTlv) : option bytes :=
  t ← writeUInt8 (tlv_type tlv);
  l ← writeUInt16BE (Z.of_nat (length (tlv_value tlv)));
  Some (t ++ l ++ tlv_value tlv).

Definition encodeLocal (tlvs : list ProxyTlv) : option bytes :=
  tlvBufs ← mapM encodeTlv tlvs;
  lenBuf ← writeUInt16BE (Z.of_nat (length (concat tlvBufs)));
  Some (SIGNATURE ++ [Z.lor PP2_VERSION (COMMAND_BITS LOCAL)] ++ [Z.lor (FAM_BITS UNSPEC) 0x00] ++
        lenBuf ++ concat tlvBufs).

Definition encodeProxyV2 (input : EncodeProxyV2Input) : option bytes :=
  let tlvs := ph_tlvs input in
  match ph_command input, ph_source input, ph_destination input with
  | PROXY, Some source, Some destination =>
      let family := effectiveFamily (ep_address source) in
      srcAddr ← encodeEndpointAddress family source;
      dstAddr ← encodeEndpointAddress family destination;
      srcPort ← encodePort (ep_port source);
      dstPort ← encodePort (ep_port destination);
      tlvBufs ← mapM encodeTlv tlvs;
      let body := srcAddr ++ dstAddr ++ srcPort ++ dstPort ++ concat tlvBufs in
      lenBuf ← writeUInt16BE (Z.of_nat (length body));
      Some (SIGNATURE ++ [Z.lor PP2_VERSION (COMMAND_BITS PROXY)] ++
            [Z.lor (FAM_BITS family) PROTO_STREAM] ++ lenBuf ++ body)
  | _, _, _ => encodeLocal tlvs
  end.

End codec.

(** ** Decoding *)

Inductive DecodeProxyV2Result :=
| Incomplete
| DecodeOk (header : ProxyHeader) (bytesConsumed : nat)
| DecodeError (reason : jsstr).

(** [buffer.readUInt8(i)], [buffer.readUInt16BE(i)] at an offset inside the buffer. *)
Definition readUInt8 (buffer : bytes) (i : nat) : Z := nth i buffer 0.
Definition readUInt16BE (buffer : bytes) (i : nat) : Z := readUInt8 buffer i * 256 + readUInt8 buffer (S i).

Definition formatIPv4 (buf : bytes) (offset : nat) : jsstr :=
  joinWith [DOT] (dec ∘ readUInt8 buf <$> [offset; (offset + 1)%nat; (offset + 2)%nat; (offset + 3)%nat]).

Record ZeroRun := mkRun { bestStart : nat; bestLen : nat; curStart : option nat; curLen : nat }.

(** The scan of [formatIPv6] for its longest run of zero groups. *)
Definition zero_run_step (i : nat) (group : jsstr) (s : ZeroRun) : ZeroRun :=
  if bool_decide (group = js "0") then
    let start := default i (curStart s) in
    let len := S (curLen s) in
    if (bestLen s <? len)%nat then mkRun start len (Some start) len
    else mkRun (bestStart s) (bestLen s) (Some start) len
  else mkRun (bestStart s) (bestLen s) None 0.

Fixpoint zero_run_loop (i : nat) (groups : list jsstr) (s : ZeroRun) : ZeroRun :=
  match groups with [] => s | g :: gs => zero_run_loop (S i) gs (zero_run_step i g s) end.

Definition formatIPv6 (buf : bytes) (offset : nat) : jsstr :=
  let groups := (fun i => toString16 (readUInt16BE buf (offset + i * 2))) <$> seq 0 8 in
  let s := zero_run_loop 0 groups (mkRun 0 0 None 0) in
  if (1 <? bestLen s)%nat then
    joinWith [58] (take (bestStart s) groups) ++ js "::" ++ joinWith [58] (drop (bestStart s + bestLen s) groups)
  else joinWith [58] groups.

Fixpoint decodeTlvs (fuel : nat) (buffer : bytes) (cursor bodyEnd : nat) (tlvs : list ProxyTlv)
  : jsstr + list ProxyTlv :=
  if (cursor <? bodyEnd)%nat then
    match fuel with
    | O => inl []
    | S fuel =>
        if (bodyEnd - cursor <? 3)%nat then inl (js "truncated TLV header")
        else
          let type := readUInt8 buffer cursor in
          let tlvLen := readUInt16BE buffer (cursor + 1) in
          let valueStart := (cursor + 3)%nat in
          let valueEnd := (valueStart + Z.to_nat tlvLen)%nat in
          if (bodyEnd <? valueEnd)%nat then inl (js "TLV length overflow")
          else decodeTlvs fuel buffer valueEnd bodyEnd (tlvs ++ [mkTlv type (sub buffer valueStart valueEnd)])
    end
  else inr tlvs.

Definition decodeAddresses (family : ProxyFamily) (buffer : bytes) (cursor bodyEnd : nat)
  : jsstr + (option ProxyEndpoint * option ProxyEndpoint * nat) :=
  match family with
  | TCP4 =>
      let need := 12%nat in
      if (bodyEnd - cursor <? need)%nat then inl (js "body too short for TCP4 addresses")
      else inr (Some (mkEndpoint (formatIPv4 buffer cursor) (readUInt16BE buffer (cursor + 8))),
                Some (mkEndpoint (formatIPv4 buffer (cursor + 4)) (readUInt16BE buffer (cursor + 10))),
                (cursor + need)%nat)
  | TCP6 =>
      let need := 36%nat in
      if (bodyEnd - cursor <? need)%nat then inl (js "body too short for TCP6 addresses")
      else inr (Some (mkEndpoint (formatIPv6 buffer cursor) (readUInt16BE buffer (cursor + 32))),
                Some (mkEndpoint (formatIPv6 buffer (cursor + 16)) (readUInt16BE buffer (cursor + 34))),
                (cursor + need)%nat)
  | UNSPEC => inr (None, None, cursor)
  end.

(** From the address block to the end of [decodeProxyV2]. *)
Definition decodeBody (command : ProxyCommand) (family : ProxyFamily) (buffer : bytes) (start headerEnd : nat)
  : DecodeProxyV2Result :=
  match decodeAddresses family buffer start headerEnd with
  | inl reason => DecodeError reason
  | inr (source, destination, cursor) =>
      match decodeTlvs (headerEnd - cursor) buffer cursor headerEnd [] with
      | inl reason => DecodeError reason
      | inr tlvs => DecodeOk (mkHeader command family source destination tlvs) headerEnd
      end
  end.

Definition decodeProxyV2 (buffer : bytes) : DecodeProxyV2Result :=
  if Nat.eqb (length buffer) 0 then Incomplete
  else
    let sigLen := Nat.min (length buffer) (length SIGNATURE) in
    if negb (bool_decide (sub buffer 0 sigLen = sub SIGNATURE 0 sigLen)) then DecodeError (js "bad signature")
    else if (length buffer <? length SIGNATURE + 4)%nat then Incomplete
    else
      let verCmd := readUInt8 buffer (length SIGNATURE) in
      let version := Z.land verCmd 0xf0 in
      let cmdBits := Z.land verCmd 0x0f in
      if negb (version =? PP2_VERSION) then DecodeError (js "unsupported version 0x" ++ toString16 version)
      else
        match COMMAND_BY_BITS cmdBits with
        | None => DecodeError (js "unknown command bits 0x" ++ toString16 cmdBits)
        | Some command =>
            let famBits := Z.land (readUInt8 buffer (length SIGNATURE + 1)) 0xf0 in
            match FAM_BY_BITS famBits with
            | None => DecodeError (js "unknown family bits 0x" ++ toString16 famBits)
            | Some family =>
                let lenOffset := (length SIGNATURE + 2)%nat in
                let len := readUInt16BE buffer lenOffset in
                let headerEnd := (lenOffset + 2 + Z.to_nat len)%nat in
                if len >? 0xffff then DecodeError (js "length overflow")
                else if (length buffer <? headerEnd)%nat then Incomplete
                else decodeBody command family buffer (lenOffset + 2) headerEnd
            end
        end.

(** ** Reading the header off a socket *)

Inductive Promise :=
| Pending (buffer : bytes)
| Resolved (header : ProxyHeader) (rest : bytes)
| Rejected (message : jsstr).

Inductive SocketEvent :=
| OnData (chunk : bytes)
| OnTimeout
| OnError (message : jsstr)
| OnClose.

Definition onData (maxBytes : nat) (buffer chunk : bytes) : Promise :=
  let buffer := buffer ++ chunk in
  if (maxBytes <? length buffer)%nat then Rejected (js "PROXY protocol header exceeded maxBytes")
  else
    match decodeProxyV2 buffer with
    | DecodeOk header consumed => Resolved header (drop consumed buffer)
    | DecodeError reason => Rejected (js "invalid PROXY protocol header: " ++ reason)
    | Incomplete => Pending buffer
    end.

(** Once settled, the listeners are gone: a later event changes nothing. *)
Definition readProxyHeader_step (maxBytes : nat) (p : Promise) (ev : SocketEvent) : Promise :=
  match p with
  | Pending buffer =>
      match ev with
      | OnData chunk => onData maxBytes buffer chunk
      | OnTimeout => Rejected (js "timed out waiting for PROXY protocol header")
      | OnError message => Rejected message
      | OnClose => Rejected (js "socket closed before PROXY protocol header completed")
      end
  | _ => p
  end.

Definition readProxyHeader (maxBytes : nat) (evs : list SocketEvent) : Promise :=
  fold_left (readProxyHeader_step maxBytes) evs (Pending []).

Definition isTrustedProxyPeer (remoteAddress : jsstr) (trustedPeers : list jsstr) : bool :=
  let normalized := normalizeAddress remoteAddress in
  existsb (fun peer => bool_decide (normalizeAddress peer = normalized)) trustedPeers.
