(* ===== verification/ProxyProtocolProofs.v ===== *)
(** * ProxyProtocolProofs: the PROXY v2 codec round-trips and its reader is chunk-independent

    The decoder looks only at the header it consumes ([decode_app]); an encoded header decodes to
    itself; the socket reader settles on what decoding the whole stream gives, whatever the chunks. *)
From S2P Require Import Prelude JsString JsStringFacts ProxyProtocol.

(** ** Reads do not see past the end of what they read *)

Lemma readUInt8_app b r i : (i < length b)%nat -> readUInt8 (b ++ r) i = readUInt8 b i.
Proof. intros H. unfold readUInt8. by apply app_nth1. Qed.

Lemma readUInt8_app_r b r i : readUInt8 (b ++ r) (length b + i) = readUInt8 r i.
Proof. unfold readUInt8. rewrite app_nth2 by lia. f_equal. lia. Qed.

Lemma readUInt16BE_app b r i : (S i < length b)%nat -> readUInt16BE (b ++ r) i = readUInt16BE b i.
Proof. intros H. unfold readUInt16BE. by rewrite !readUInt8_app by lia. Qed.

Lemma formatIPv4_app b r i : (i + 4 <= length b)%nat -> formatIPv4 (b ++ r) i = formatIPv4 b i.
Proof. intros H. unfold formatIPv4. csimpl. by rewrite !readUInt8_app by lia. Qed.

Lemma formatIPv6_app b r i : (i + 16 <= length b)%nat -> formatIPv6 (b ++ r) i = formatIPv6 b i.
Proof.
  intros H. unfold formatIPv6.
  assert ((fun j => toString16 (readUInt16BE (b ++ r) (i + j * 2))) <$> seq 0 8 =
          (fun j => toString16 (readUInt16BE b (i + j * 2))) <$> seq 0 8) as ->; [|done].
  apply list_fmap_ext. intros k x Hx%lookup_seq. rewrite readUInt16BE_app by lia. done.
Qed.

Lemma sub_app_l {A} (b r : list A) i j : (i <= j <= length b)%nat -> sub (b ++ r) i j = sub b i j.
Proof. intros H. unfold sub. rewrite drop_app_le by lia. rewrite take_app_le; [done|]. rewrite length_drop. lia. Qed.

Lemma decodeTlvs_app b r e : (e <= length b)%nat -> forall fuel i tlvs,
  decodeTlvs fuel (b ++ r) i e tlvs = decodeTlvs fuel b i e tlvs.
Proof.
  intros He. induction fuel as [|fuel IH]; intros i tlvs; cbn [decodeTlvs]; [done|].
  destruct (Nat.ltb_spec i e); [|done]. destruct (Nat.ltb_spec (e - i) 3); [done|].
  rewrite readUInt8_app, readUInt16BE_app by lia. cbv zeta.
  destruct (Nat.ltb_spec e (i + 3 + Z.to_nat (readUInt16BE b (i + 1)))); [done|].
  rewrite sub_app_l by lia. apply IH.
Qed.

Lemma decodeAddresses_app f b r i e :
  (e <= length b)%nat -> decodeAddresses f (b ++ r) i e = decodeAddresses f b i e.
Proof.
  intros He. destruct f; cbn [decodeAddresses]; [| |done]; case_match eqn:E; try done;
    apply Nat.ltb_ge in E; by rewrite ?formatIPv4_app, ?formatIPv6_app, !readUInt16BE_app by lia.
Qed.

Lemma decodeBody_app c f b r i e :
  (e <= length b)%nat -> decodeBody c f (b ++ r) i e = decodeBody c f b i e.
Proof.
  intros He. unfold decodeBody. rewrite decodeAddresses_app by done.
  destruct (decodeAddresses f b i e) as [|[[? ?] ?]]; [done|]. by rewrite decodeTlvs_app.
Qed.

Lemma length_SIGNATURE : length SIGNATURE = 12%nat.
Proof. done. Qed.

Lemma decodeBody_total c f b i e : decodeBody c f b i e <> Incomplete.
Proof. unfold decodeBody. repeat case_match; done. Qed.

(** A decision once taken is not changed by more input. *)
Lemma decode_app b r : decodeProxyV2 b <> Incomplete -> decodeProxyV2 (b ++ r) = decodeProxyV2 b.
Proof.
  unfold decodeProxyV2. rewrite length_SIGNATURE, length_app.
  destruct (Nat.eqb_spec (length b) 0) as [|Hne]; [done|].
  destruct (Nat.eqb_spec (length b + length r) 0); [lia|]. cbv zeta.
  destruct (bool_decide_reflect (sub b 0 (length b `min` 12) = sub SIGNATURE 0 (length b `min` 12))) as [Hs|Hs].
  - cbn [negb]. destruct (Nat.ltb_spec (length b) (12 + 4)); [done|].
    destruct (Nat.ltb_spec (length b + length r) (12 + 4)); [lia|].
    rewrite (bool_decide_true (sub (b ++ r) _ _ = _)).
    2:{ rewrite !Nat.min_r in * by lia. rewrite sub_app_l by lia. done. }
    cbn [negb]. rewrite !readUInt8_app, readUInt16BE_app by lia.
    case_match; [done|]. case_match; [|done]. case_match; [|done]. case_match; [done|].
    set (e := (12 + 2 + 2 + _)%nat). destruct (Nat.ltb_spec (length b) e); [done|].
    destruct (Nat.ltb_spec (length b + length r) e); [lia|]. intros _. by rewrite decodeBody_app by lia.
  - intros _. cbn [negb]. rewrite bool_decide_false; [done|]. contradict Hs.
    assert (forall m, (m <= (length b + length r) `min` 12)%nat ->
              sub (b ++ r) 0 m = sub SIGNATURE 0 m) as Hpre.
    { intros m Hm. unfold sub in *. rewrite !Nat.sub_0_r, !drop_0 in *.
      apply (f_equal (take m)) in Hs. rewrite !take_take in Hs. by rewrite !Nat.min_l in Hs by lia. }
    rewrite <- Hpre by lia. symmetry. apply sub_app_l. lia.
Qed.

Lemma decode_ok_bound b h n : decodeProxyV2 b = DecodeOk h n -> (16 <= n <= length b)%nat.
Proof.
  unfold decodeProxyV2, decodeBody. rewrite length_SIGNATURE. cbv zeta. intros H.
  repeat (case_match; simplify_eq). nat_tests. cbn [Nat.add] in *. lia.
Qed.

Lemma decode_take b h n k :
  decodeProxyV2 b = DecodeOk h n -> (k < n)%nat -> decodeProxyV2 (take k b) = Incomplete.
Proof.
  intros Hb Hk. destruct (decodeProxyV2 (take k b)) as [|h' n'|reason] eqn:E; [done| |];
    pose proof (decode_app (take k b) (drop k b)) as Happ; rewrite take_drop, E in Happ;
    rewrite Happ in Hb by done; simplify_eq.
  apply decode_ok_bound in E. rewrite length_take in E. lia.
Qed.

(** ** The reader *)

Definition reader_outcome (b : bytes) (unread : list bytes) (p : Promise) : Prop :=
  match decodeProxyV2 b with
  | Incomplete => unread = [] /\ p = Pending b
  | DecodeError reason => p = Rejected (js "invalid PROXY protocol header: " ++ reason)
  | DecodeOk h n => exists rest, p = Resolved h rest /\ rest ++ concat unread = drop n b
  end.

Lemma fold_settled m p evs :
  (forall b, p <> Pending b) -> fold_left (readProxyHeader_step m) evs p = p.
Proof. intros Hp. induction evs as [|e evs IH]; cbn; [done|]. destruct p; cbn; [naive_solver|..]; apply IH. Qed.

Lemma reader_fold m chunks : forall b,
  decodeProxyV2 b = Incomplete -> (length (b ++ concat chunks) <= m)%nat ->
  exists used unread, chunks = used ++ unread /\
    reader_outcome (b ++ concat chunks) unread (fold_left (readProxyHeader_step m) (OnData <$> chunks) (Pending b)).
Proof.
  induction chunks as [|c chunks IH]; intros b Hb Hm.
  { exists [], []. cbn. rewrite app_nil_r. unfold reader_outcome. by rewrite Hb. }
  csimpl. cbn [fold_left readProxyHeader_step]. unfold onData. cbn [concat] in *.
  rewrite !length_app in Hm. destruct (Nat.ltb_spec m (length (b ++ c))) as [Hl|_]; [rewrite length_app in Hl; lia|].
  pose proof (decode_app (b ++ c) (concat chunks)) as Happ. rewrite <- (assoc_L (++)) in Happ.
  destruct (decodeProxyV2 (b ++ c)) as [|h n|reason] eqn:E.
  - destruct (IH (b ++ c)) as (used & unread & -> & Ho); [done|rewrite !length_app; lia|].
    exists (c :: used), unread. by rewrite <- (assoc_L (++)) in Ho.
  - exists [c], chunks. split; [done|]. unfold reader_outcome. rewrite Happ, fold_settled by done.
    eexists. split; [done|]. rewrite (assoc_L (++) b c). apply decode_ok_bound in E. symmetry. apply drop_app_le. lia.
  - exists [c], chunks. split; [done|]. unfold reader_outcome. by rewrite Happ, fold_settled.
Qed.

(** ** Numbers in text *)

Lemma hex_lower_digit_ok d : 0 <= d < 16 ->
  is_hex (hex_lower_digit d) = true /\ hex_digit_val (hex_lower_digit d) = d /\
  is_js_space (hex_lower_digit d) = false /\ ~ hex_lower_digit d ∈ [43; 45; 46; 58; 88; 120].
Proof.
  intros Hd.
  assert (forallb (fun d => bool_decide (is_hex (hex_lower_digit d) = true /\ hex_digit_val (hex_lower_digit d) = d /\
    is_js_space (hex_lower_digit d) = false /\ ~ hex_lower_digit d ∈ [43; 45; 46; 58; 88; 120]))
    (seqZ 0 16) = true) as Hall by (vm_compute; reflexivity).
  rewrite forallb_Forall, Forall_forall in Hall. eapply bool_decide_unpack. apply Is_true_true_2, Hall, elem_of_seqZ. lia.
Qed.

(** A hexadecimal number in text: not empty, and no unit with another meaning. *)
Definition hex_text (s : jsstr) : Prop :=
  s <> [] /\ Forall (fun c => is_hex c = true /\ is_js_space c = false /\ ~ c ∈ [43; 45; 46; 58; 88; 120]) s.

Lemma hex_val_app s t v :
  fold_left (fun v c => 16 * v + hex_digit_val c) (s ++ t) v =
  fold_left (fun v c => 16 * v + hex_digit_val c) t (fold_left (fun v c => 16 * v + hex_digit_val c) s v).
Proof. apply fold_left_app. Qed.

Lemma hex_aux_spec fuel n acc : 0 <= n < 2 ^ Z.of_nat fuel -> (0 < fuel)%nat ->
  exists ds, hex_aux fuel n acc = ds ++ acc /\ hex_text ds /\ hex_val ds = n.
Proof.
  revert n acc. induction fuel as [|fuel IH]; intros n acc Hn Hf; [lia|]. cbn [hex_aux].
  pose proof (Z.div_mod n 16) as Hdm. pose proof (Z.mod_pos_bound n 16) as Hmb.
  destruct (hex_lower_digit_ok (n mod 16)) as (H1 & H2 & H3 & H4); [lia|].
  destruct (Z.eqb_spec (n / 16) 0) as [E|E].
  - exists [hex_lower_digit (n mod 16)]. split; [done|]. split; [split; [done|by repeat constructor]|].
    cbn. rewrite H2. lia.
  - assert (0 < n / 16) by (pose proof (Z.div_pos n 16); lia).
    assert (n / 16 < 2 ^ Z.of_nat fuel).
    { apply Z.div_lt_upper_bound; [lia|]. rewrite Nat2Z.inj_succ, Z.pow_succ_r in Hn by lia. lia. }
    destruct (IH (n / 16) (hex_lower_digit (n mod 16) :: acc)) as (ds & -> & [Hne Hds] & Hv); [lia| |].
    { destruct fuel; [cbn in *; lia|lia]. }
    exists (ds ++ [hex_lower_digit (n mod 16)]). rewrite <- (assoc_L (++)). split; [done|]. split.
    + split; [by destruct ds|]. apply Forall_app. by repeat constructor.
    + unfold hex_val in *. rewrite hex_val_app, Hv. cbn. rewrite H2. lia.
Qed.

Lemma toString16_spec n : 0 <= n -> hex_text (toString16 n) /\ hex_val (toString16 n) = n.
Proof.
  intros Hn. destruct (hex_aux_spec (S (Z.to_nat (Z.log2 n))) n []) as (ds & E & H1 & H2); [|lia|].
  - split; [done|]. destruct (decide (n = 0)) as [->|]; [done|].
    pose proof (Z.log2_spec n). pose proof (Z.log2_nonneg n).
    rewrite Nat2Z.inj_succ, Z2Nat.id by done. lia.
  - unfold toString16. by rewrite E, app_nil_r.
Qed.

Lemma toString16_inj_0 n : 0 <= n -> toString16 n = js "0" <-> n = 0.
Proof.
  intros Hn. split; [|by intros ->]. intros E. destruct (toString16_spec n Hn) as [_ H]. by rewrite E in H.
Qed.

Lemma parseInt16_hex s : hex_text s -> parseInt16 s = Some (hex_val s).
Proof.
  intros [Hne Hs]. destruct s as [|c s]; [done|]. inversion_clear Hs as [|? ? (Hc & Hsp & Hno) Hs'].
  unfold parseInt16. rewrite dropWhile_stop by done.
  replace (match c :: s with 45 :: t => (true, t) | 43 :: t => (false, t) | _ => (false, c :: s) end)
    with (false, c :: s) by (repeat case_match; simplify_eq; set_solver).
  replace (match c :: s with 48 :: x :: t => if (x =? 120) || (x =? 88) then t else c :: s | _ => c :: s end)
    with (c :: s).
  - rewrite takeWhile_all; [done|]. constructor; [done|]. eapply Forall_impl; [done|]. naive_solver.
  - repeat case_match; simplify_eq; try done. inversion_clear Hs' as [|? ? (_ & _ & Hx) _].
    exfalso. apply Hx. destruct (Z.eqb_spec z 120), (Z.eqb_spec z 88); set_solver.
Qed.

(** ** IPv4 text *)

Section text.
Context `{NR : NumberRuntime}.

Lemma no_mapped_prefix s : (forall c t, s = c :: t -> c <> 58) -> normalizeAddress s = s.
Proof.
  intros H. unfold normalizeAddress. case_match eqn:E; [|done].
  apply startsWith_spec in E as [t ->]. by destruct (H 58 (drop 1 MAPPED ++ t)).
Qed.

Lemma normalize_mapped s : normalizeAddress (MAPPED ++ s) = s.
Proof.
  unfold normalizeAddress. replace (startsWith MAPPED (MAPPED ++ s)) with true
    by (symmetry; apply startsWith_spec; by exists s). by rewrite drop_app_length.
Qed.

Lemma dec_no n c : 0 <= n -> is_digit c = false -> c ∉ dec n.
Proof.
  intros Hn Hc Hin. destruct (dec_spec n Hn) as (Hd & _). rewrite Forall_forall in Hd.
  apply Hd in Hin. congruence.
Qed.

Lemma ipv4_part_dec n : is_octet n -> ipv4_part (dec n) = true /\ writeNumberText (dec n) = Some [n].
Proof.
  intros Hn. destruct (dec_spec n) as (Hd & Hne & _); [zlia|].
  pose proof (dec_length n 2) as Hl. unfold ipv4_part, writeNumberText, writeUInt8.
  rewrite Number_dec by zlia. apply forallb_Forall in Hd. rewrite Hd.
  destruct (Nat.eqb_spec (length (dec n)) 0) as [E|_]; [by apply nil_length_inv in E|].
  destruct (Nat.ltb_spec 3 (length (dec n))); [cbn in Hl; zlia|]. cbn [orb negb].
  unfold is_octet in Hn.
  replace (0 <=? n) with true by lia. replace (n <=? 255) with true by lia.
  replace (n >? 255) with false by lia. by replace (n <? 0) with false by lia.
Qed.

Lemma splitOn_ipv4 a b c d : octets_ok [a; b; c; d] ->
  splitOn DOT (formatIPv4 [a; b; c; d] 0) = [dec a; dec b; dec c; dec d].
Proof.
  intros H. unfold formatIPv4. cbn -[joinWith splitOn dec]. apply splitOn_joinWith; [done|].
  inv H. repeat match goal with H : Forall _ (_ :: _) |- _ => inv H end.
  repeat constructor; apply dec_no; zlia || done.
Qed.

Lemma ipv4_text_ok a b c d : octets_ok [a; b; c; d] ->
  let t := formatIPv4 [a; b; c; d] 0 in
  normalizeAddress t = t /\ isIPv4Literal t = true /\ encodeIPv4 t = Some [a; b; c; d].
Proof.
  intros H t. pose proof (splitOn_ipv4 a b c d H) as Hs. fold t in Hs.
  rewrite !Forall_cons in H. destruct H as (Ha & Hb & Hc & Hd & _).
  destruct (ipv4_part_dec a Ha) as [Pa Wa], (ipv4_part_dec b Hb) as [Pb Wb],
    (ipv4_part_dec c Hc) as [Pc Wc], (ipv4_part_dec d Hd) as [Pd Wd].
  split; [|split].
  - apply no_mapped_prefix. intros x u Hx. unfold t, formatIPv4 in Hx. cbn -[dec] in Hx.
    destruct (dec_spec a) as (Hda & Hne & _); [zlia|]. destruct (dec a) as [|y s]; [done|].
    inv Hx. inv Hda. intros ->. done.
  - unfold isIPv4Literal. rewrite Hs. cbn -[ipv4_part dec]. by rewrite Pa, Pb, Pc, Pd.
  - unfold encodeIPv4. rewrite Hs. cbn -[writeNumberText dec]. by rewrite Wa, Wb, Wc, Wd.
Qed.

(** ** IPv6 text *)

Definition prepend (s : jsstr) (l : list jsstr) : list jsstr :=
  match l with p :: ps => (s ++ p) :: ps | [] => [s] end.

Lemma prepend_app s t l : l <> [] -> prepend (s ++ t) l = prepend s (prepend t l).
Proof. destruct l; [done|]. cbn. by rewrite (assoc_L (++)). Qed.

Lemma splitDouble_ne c s : splitDouble c s <> [].
Proof. destruct s as [|x [|y t]]; cbn; [done..|]. by repeat case_match. Qed.

Lemma splitDouble_step c x u : (x <> c \/ (forall y t, u = y :: t -> y <> c)) ->
  splitDouble c (x :: u) = prepend [x] (splitDouble c u).
Proof.
  intros H. destruct u as [|y t]; [done|]. change (splitDouble c (x :: y :: t)) with
    (if (x =? c) && (y =? c) then [] :: splitDouble c t
     else match splitDouble c (y :: t) with p :: ps => (x :: p) :: ps | [] => [[x]] end).
  replace ((x =? c) && (y =? c)) with false; [done|].
  destruct (Z.eqb_spec x c) as [->|], (Z.eqb_spec y c) as [->|]; naive_solver.
Qed.

Lemma splitDouble_plain c p u : c ∉ p -> splitDouble c (p ++ u) = prepend p (splitDouble c u).
Proof.
  induction p as [|x p IH]; [by destruct (splitDouble c u) eqn:E; [destruct (splitDouble_ne c u)|]|].
  intros [Hx Hp]%not_elem_of_cons. cbn [app]. rewrite splitDouble_step by auto. rewrite IH by done.
  destruct (splitDouble c u) eqn:E; [by destruct (splitDouble_ne c u)|done].
Qed.

Definition segment (c : Z) (p : jsstr) : Prop := p <> [] /\ c ∉ p.

Lemma joinWith_head c ps y t : Forall (segment c) ps -> joinWith [c] ps = y :: t -> y <> c.
Proof.
  intros H E. destruct H as [|p ps [Hne Hc] _]; [done|]. destruct p as [|z p]; [done|].
  apply not_elem_of_cons in Hc as [Hz _]. destruct ps; cbn in E; by inv E.
Qed.

Lemma splitDouble_joinWith c ps u : Forall (segment c) ps ->
  splitDouble c (joinWith [c] ps ++ u) = prepend (joinWith [c] ps) (splitDouble c u).
Proof.
  induction ps as [|p ps IH]; intros H.
  { cbn. by destruct (splitDouble c u) eqn:E; [destruct (splitDouble_ne c u)|]. }
  inversion_clear H as [|? ? [Hne Hc] Hps]. destruct (decide (ps = [])) as [->|Hn]; [by apply splitDouble_plain|].
  rewrite joinWith_cons by done. rewrite <- (assoc_L (++)). rewrite splitDouble_plain by done.
  cbn [app]. rewrite splitDouble_step.
  - rewrite IH by done. destruct (splitDouble c u) eqn:E; [by destruct (splitDouble_ne c u)|]. cbn. by rewrite <- (assoc_L (++)).
  - right. intros y t E. destruct ps as [|q ps]; [done|]. inversion_clear Hps as [|? ? [Hq Hcq] _].
    destruct q as [|z q]; [done|]. apply not_elem_of_cons in Hcq as [Hz _].
    destruct ps; cbn in E; by inv E.
Qed.

(** The scan finds a run of zero groups, if any. *)
Definition run_ok (gs : list jsstr) (i : nat) (s : ZeroRun) : Prop :=
  (bestStart s + bestLen s <= i)%nat /\
  (forall j, (bestStart s <= j < bestStart s + bestLen s)%nat -> gs !! j = Some (js "0")) /\
  match curStart s with
  | Some st => (st + curLen s = i)%nat /\ forall j, (st <= j < i)%nat -> gs !! j = Some (js "0")
  | None => curLen s = 0%nat
  end.

Lemma zero_run_step_ok gs i g s : gs !! i = Some g -> run_ok gs i s -> run_ok gs (S i) (zero_run_step i g s).
Proof.
  intros Hg (Hb & Hbz & Hc). unfold zero_run_step. case_bool_decide as Hz; cycle 1.
  { split; cbn -[lit]; [lia|]. done. }
  subst g. destruct (curStart s) as [st|]; cbn [default].
  - destruct Hc as [Hst Hcz].
    assert (forall j, (st <= j < S i)%nat -> gs !! j = Some (js "0")) as Hcz'.
    { intros j Hj. destruct (decide (j = i)) as [->|]; [done|]. apply Hcz. lia. }
    destruct (Nat.ltb_spec (bestLen s) (S (curLen s))); split_and!; cbn -[lit]; split_and?; try lia; try done;
      intros j Hj; apply Hcz' || apply Hbz; lia.
  - assert (forall j, (i <= j < S i)%nat -> gs !! j = Some (js "0")) as Hcz'
      by (intros j Hj; by replace j with i by lia).
    rewrite Hc. destruct (Nat.ltb_spec (bestLen s) 1); split_and!; cbn -[lit]; split_and?; try lia; try done;
      intros j Hj; apply Hcz' || apply Hbz; lia.
Qed.

Lemma zero_run_loop_ok gs pre rest s :
  gs = pre ++ rest -> run_ok gs (length pre) s -> run_ok gs (length gs) (zero_run_loop (length pre) rest s).
Proof.
  revert pre s. induction rest as [|g rest IH]; intros pre s Hgs Hs; cbn [zero_run_loop].
  { by rewrite Hgs at 2; rewrite app_nil_r. }
  replace (S (length pre)) with (length (pre ++ [g])) by (rewrite length_app; cbn; lia).
  apply IH; [by rewrite <- (assoc_L (++))|]. rewrite length_app, Nat.add_1_r.
  apply zero_run_step_ok; [|done]. by rewrite Hgs, list_lookup_middle.
Qed.

Lemma zero_run gs s :
  s = zero_run_loop 0 gs (mkRun 0 0 None 0) ->
  (bestStart s + bestLen s <= length gs)%nat /\
  gs = take (bestStart s) gs ++ replicate (bestLen s) (js "0") ++ drop (bestStart s + bestLen s) gs.
Proof.
  intros ->. destruct (zero_run_loop_ok gs [] gs (mkRun 0 0 None 0)) as (Hb & Hz & _); [done|..].
  { split_and!; cbn; lia || done. }
  cbn [length] in *. set (s := zero_run_loop _ _ _) in *. split; [done|].
  rewrite <- (take_drop (bestStart s) gs) at 1. f_equal.
  rewrite <- (take_drop (bestLen s) (drop (bestStart s) gs)) at 1. rewrite drop_drop. f_equal.
  apply list_eq. intros j. destruct (decide (j < bestLen s)%nat).
  - rewrite lookup_take_lt, lookup_drop by done. rewrite lookup_replicate_2 by done. apply Hz. lia.
  - rewrite lookup_take_ge by lia. symmetry. apply lookup_replicate_None. lia.
Qed.

Lemma hex_segment s : hex_text s -> segment 58 s.
Proof.
  intros [Hne Hs]. split; [done|]. intros Hin. rewrite Forall_forall in Hs.
  apply Hs in Hin as (_ & _ & Hno). set_solver.
Qed.

Lemma hex_no_dot s : hex_text s -> includesChar DOT s = false.
Proof.
  intros [_ Hs]. unfold includesChar. induction Hs as [|c s (_ & _ & Hno) _ IH]; [done|]. cbn [existsb].
  rewrite IH. destruct (Z.eqb_spec DOT c) as [<-|]; [|done]. unfold DOT in Hno. set_solver.
Qed.

Abbreviation shorts_ok := (Forall is_unit).

Lemma shorts_text ns : shorts_ok ns -> Forall (segment 58) (toString16 <$> ns).
Proof. induction 1; csimpl; constructor; [|done]. apply hex_segment, toString16_spec. zlia. Qed.

Lemma expandGroup_text ns : shorts_ok ns -> expandGroup (toString16 <$> ns) = Some (Some <$> ns).
Proof.
  induction 1 as [|n ns Hn _ IH]; [done|]. csimpl. cbn [expandGroup].
  destruct (toString16_spec n) as [Ht Hv]; [zlia|]. rewrite hex_no_dot by done.
  rewrite parseInt16_hex, Hv by done. cbn. by rewrite IH.
Qed.

Lemma segments_back ps : Forall (segment 58) ps ->
  (if (0 <? length (joinWith [58%Z] ps))%nat then splitOn 58 (joinWith [58] ps) else []) = ps.
Proof.
  intros H. destruct (decide (ps = [])) as [->|Hne]; [done|].
  destruct (Nat.ltb_spec 0 (length (joinWith [58] ps))) as [_|Hl].
  - apply splitOn_joinWith; [done|]. eapply Forall_impl; [done|]. by intros p [].
  - destruct H as [|p ps [Hp _] _]; [done|]. destruct p; [done|]. destruct ps; cbn in Hl; lia.
Qed.

Definition shorts_bytes (ns : list Z) : bytes := concat ((fun n => [Z.shiftr n 8; Z.land n 255]) <$> ns).

Lemma writeGroups_text ns : length ns = 8%nat -> shorts_ok ns ->
  (ws ← mapM (writeGroup (Some <$> ns)) (seq 0 8); Some (concat ws)) = Some (shorts_bytes ns).
Proof.
  intros Hl H. assert (Forall (fun n => writeUInt16BE n = Some [Z.shiftr n 8; Z.land n 255]) ns) as Hw.
  { eapply Forall_impl; [done|]. intros n Hn. unfold writeUInt16BE. cbv beta in Hn.
    replace (n >? 65535) with false by zlia. by replace (n <? 0) with false by zlia. }
  do 8 (destruct ns as [|? ns]; [done|]). destruct ns; [|done].
  repeat match goal with H : Forall _ (_ :: _) |- _ => inv H end.
  unfold writeGroup. cbn -[writeUInt16BE Z.shiftr Z.land]. unfold shorts_bytes.
  repeat match goal with H : writeUInt16BE _ = _ |- _ => rewrite H; clear H; cbn -[writeUInt16BE Z.shiftr Z.land] end.
  done.
Qed.

(** The text of eight groups, as [formatIPv6] builds it. *)
Definition ipv6_collapse (gs : list jsstr) : jsstr :=
  let s := zero_run_loop 0 gs (mkRun 0 0 None 0) in
  if (1 <? bestLen s)%nat then
    joinWith [58] (take (bestStart s) gs) ++ js "::" ++ joinWith [58] (drop (bestStart s + bestLen s) gs)
  else joinWith [58] gs.

Lemma hex_val_text ns : shorts_ok ns -> hex_val <$> (toString16 <$> ns) = ns.
Proof. induction 1 as [|n ns Hn _ IH]; [done|]. csimpl. rewrite IH. f_equal. apply toString16_spec. zlia. Qed.

Lemma zeros_text ns a k c : shorts_ok ns ->
  toString16 <$> ns = take a (toString16 <$> ns) ++ replicate k (js "0") ++ drop c (toString16 <$> ns) ->
  ns = take a ns ++ replicate k 0 ++ drop c ns.
Proof.
  intros Hns E. apply (f_equal (fmap hex_val)) in E.
  rewrite !fmap_app, fmap_take, fmap_drop, hex_val_text, fmap_replicate in E by done. exact E.
Qed.

Lemma expand_collapse ns t : t = ipv6_collapse (toString16 <$> ns) ->
  length ns = 8%nat -> shorts_ok ns -> startsWith MAPPED t = false -> expandIPv6 t = Some (shorts_bytes ns).
Proof.
  intros Ht Hl Hns Hm. unfold expandIPv6, normalizeAddress. rewrite Hm, <- writeGroups_text by done.
  pose proof (shorts_text ns Hns) as Hseg. unfold ipv6_collapse in Ht.
  destruct (zero_run (toString16 <$> ns) _ eq_refl) as [Hb Hz].
  set (s := zero_run_loop _ _ _) in *. cbv zeta in Ht. rewrite length_fmap in Hb.
  apply zeros_text in Hz; [|done]. destruct (Nat.ltb_spec 1 (bestLen s)) as [Hlt|_].
  - assert (Forall (segment 58) (take (bestStart s) (toString16 <$> ns)) /\
      Forall (segment 58) (drop (bestStart s + bestLen s) (toString16 <$> ns))) as [Hs1 Hs2]
      by (split; [by apply Forall_take|by apply Forall_drop]).
    pose proof (splitDouble_joinWith 58 _ (js "::" ++ joinWith [58] (drop (bestStart s + bestLen s) (toString16 <$> ns))) Hs1) as Hsd.
    pose proof (splitDouble_joinWith 58 _ [] Hs2) as Hsd2. rewrite app_nil_r in Hsd2.
    rewrite <- Ht in Hsd. change (splitDouble 58 (js "::" ++ ?u)) with ([] :: splitDouble 58 u) in Hsd.
    rewrite Hsd2 in Hsd. cbn [prepend splitDouble] in Hsd. rewrite !app_nil_r in Hsd. rewrite Hsd.
    change (1 <? length [?a; ?b])%nat with true. cbn beta iota. cbn [lookup list_lookup]. rewrite !segments_back by done.
    rewrite <- fmap_take, <- fmap_drop.
    rewrite !expandGroup_text by (by apply Forall_take || by apply Forall_drop). cbn [mbind option_bind].
    rewrite !length_fmap, length_take, length_drop.
    replace (Z.to_nat _) with (bestLen s) by lia.
    rewrite <- fmap_replicate, <- !fmap_app, <- Hz. done.
  - pose proof (splitDouble_joinWith 58 _ [] Hseg) as Hsd. rewrite app_nil_r, <- Ht in Hsd. rewrite Hsd.
    cbn [prepend splitDouble length Nat.ltb Nat.leb]. rewrite Ht, splitOn_joinWith.
    + by rewrite expandGroup_text.
    + destruct ns; done.
    + eapply Forall_impl; [done|]. by intros p [].
Qed.

Definition shorts_of (b : bytes) : list Z := (fun i => readUInt16BE b (0 + i * 2)) <$> seq 0 8.

Lemma short_split h l : is_octet h -> is_octet l ->
  Z.shiftr (h * 256 + l) 8 = h /\ Z.land (h * 256 + l) 255 = l.
Proof.
  intros Hh Hl. rewrite Z.shiftr_div_pow2 by lia. change 255 with (Z.ones 8).
  rewrite Z.land_ones by lia. change (2 ^ 8) with 256. unfold is_octet in *. split.
  - symmetry. apply (Z.div_unique _ _ _ l); lia.
  - symmetry. apply (Z.mod_unique _ _ h); lia.
Qed.

Lemma shorts_of_ok b : length b = 16%nat -> octets_ok b ->
  shorts_ok (shorts_of b) /\ shorts_bytes (shorts_of b) = b.
Proof.
  intros Hl Hb. do 16 (destruct b as [|? b]; [done|]). destruct b; [|done].
  rewrite !Forall_cons in Hb. destruct_and! Hb.
  unfold shorts_of, shorts_bytes, readUInt16BE, readUInt8. cbn -[Z.shiftr Z.land Z.mul Z.add]. split.
  - repeat (apply Forall_cons; split; [zlia|]). done.
  - repeat match goal with
      |- context [Z.shiftr (?h * 256 + ?l) 8] =>
        destruct (short_split h l) as [E1 E2]; [done|done|]; rewrite E1, E2; clear E1 E2
      end. done.
Qed.

Lemma formatIPv6_back b : length b = 16%nat -> octets_ok b ->
  startsWith MAPPED (formatIPv6 b 0) = false -> expandIPv6 (formatIPv6 b 0) = Some b.
Proof.
  intros Hl Hb Hm. destruct (shorts_of_ok b Hl Hb) as [H1 H2]. rewrite <- H2 at 2.
  apply expand_collapse; [|by unfold shorts_of; rewrite length_fmap|done|done].
  unfold formatIPv6, ipv6_collapse, shorts_of. by rewrite <- list_fmap_compose.
Qed.

(** Texts of IPv6 addresses hold no dot. *)
Lemma joinWith_elem sep ps c : c ∈ joinWith [sep] ps -> c = sep \/ exists p, p ∈ ps /\ c ∈ p.
Proof.
  induction ps as [|p ps IH]; [set_solver|]. destruct ps as [|q ps]; [set_solver|].
  rewrite joinWith_cons by done. set_solver.
Qed.

Lemma joinWith_no sep c ps : c <> sep -> Forall (fun p => c ∉ p) ps -> c ∉ joinWith [sep] ps.
Proof. intros Hc H [|(p & Hp & Hin)]%joinWith_elem; [done|]. rewrite Forall_forall in H. by apply (H p). Qed.

Lemma formatIPv6_not_ipv4 b : length b = 16%nat -> octets_ok b -> isIPv4Literal (formatIPv6 b 0) = false.
Proof.
  intros Hl Hb. assert (DOT ∉ formatIPv6 b 0) as Hd.
  { destruct (shorts_of_ok b Hl Hb) as [Hok _].
    unfold formatIPv6. set (gs := _ <$> seq 0 8). assert (Forall (fun p => DOT ∉ p) gs) as Hgs.
    { replace gs with (toString16 <$> shorts_of b) by (unfold gs, shorts_of; by rewrite <- list_fmap_compose).
      apply Forall_fmap. eapply Forall_impl; [done|]. intros n Hn. cbn.
      destruct (toString16_spec n) as [[_ Ht] _]; [unfold is_unit in Hn; lia|]. intros Hin. rewrite Forall_forall in Ht.
      apply Ht in Hin as (_ & _ & Hc). unfold DOT in Hc. set_solver. }
    cbv zeta. case_match; [|by apply joinWith_no]. rewrite !not_elem_of_app. split_and!.
    - apply joinWith_no; [done|]. by apply Forall_take.
    - vm_compute. set_solver.
    - apply joinWith_no; [done|]. by apply Forall_drop. }
  unfold isIPv4Literal. by rewrite splitOn_none.
Qed.

(** ** The wire layout *)

Lemma decodeTlvs_encoded tlvs bufs : mapM encodeTlv tlvs = Some bufs -> forall pre acc fuel,
  (length (concat bufs) <= fuel)%nat ->
  decodeTlvs fuel (pre ++ concat bufs) (length pre) (length pre + length (concat bufs)) acc = inr (acc ++ tlvs).
Proof.
  revert bufs. induction tlvs as [|[ty v] tlvs IH]; intros bufs Hm pre acc fuel Hf.
  { injection Hm as <-. cbn [concat length]. rewrite Nat.add_0_r, !app_nil_r. destruct fuel; cbn [decodeTlvs]; by rewrite Nat.ltb_irrefl. }
  apply mapM_Some in Hm. revert Hf. inversion_clear Hm as [|? buf ? bufs' Hbuf Hm']. apply mapM_Some in Hm'.
  unfold encodeTlv in Hbuf. cbn [tlv_type tlv_value] in Hbuf. unfold writeUInt8, writeUInt16BE in Hbuf.
  destruct ((ty >? 255) || (ty <? 0)) eqn:E1; [done|]. cbn [mbind option_bind] in Hbuf.
  set (n := Z.of_nat (length v)) in *. destruct ((n >? 65535) || (n <? 0)) eqn:E2; [done|].
  cbn -[Z.shiftr Z.land] in Hbuf. injection Hbuf as <-. intros Hf. cbn [concat] in *.
  rewrite !length_app in *. cbn [length] in *.
  destruct fuel as [|fuel]; [lia|]. cbn [decodeTlvs].
  destruct (Nat.ltb_spec (length pre) (length pre + (S (S (S (length v))) + length (concat bufs')))) as [_|]; [|lia].
  destruct (Nat.ltb_spec (length pre + (S (S (S (length v))) + length (concat bufs')) - length pre) 3) as [|_]; [lia|].
  assert (readUInt8 (pre ++ (ty :: Z.shiftr n 8 :: Z.land n 255 :: v) ++ concat bufs') (length pre) = ty) as ->.
  { rewrite <- (Nat.add_0_r (length pre)). by rewrite readUInt8_app_r. }
  assert (readUInt16BE (pre ++ (ty :: Z.shiftr n 8 :: Z.land n 255 :: v) ++ concat bufs') (length pre + 1) = n) as ->.
  { unfold readUInt16BE. rewrite <- Nat.add_succ_r, !readUInt8_app_r. cbn -[Z.shiftr Z.land].
    rewrite Z.shiftr_div_pow2 by lia. change 255 with (Z.ones 8). rewrite Z.land_ones by lia.
    change (2 ^ 8) with 256. pose proof (Z.div_mod n 256). lia. }
  cbv zeta. unfold n. rewrite Nat2Z.id.
  destruct (Nat.ltb_spec (length pre + (S (S (S (length v))) + length (concat bufs'))) (length pre + 3 + length v)) as [|_]; [lia|].
  specialize (IH bufs' Hm' (pre ++ ty :: Z.shiftr n 8 :: Z.land n 255 :: v) (acc ++ [mkTlv ty v]) fuel ltac:(lia)).
  rewrite <- !(assoc_L (++)) in IH. rewrite !length_app in IH. cbn [length] in IH.
  replace (length pre + 3 + length v)%nat with (length pre + S (S (S (length v))))%nat by lia.
  rewrite <- Nat.add_assoc in IH.
  replace (sub _ (length pre + 3) (length pre + S (S (S (length v))))) with v; [exact IH|].
  unfold sub. rewrite drop_app_add.
  replace (length pre + S (S (S (length v))) - (length pre + 3))%nat with (length v) by lia.
  symmetry. apply take_app_length.
Qed.

(** Sixteen fixed octets, then a body of the announced length. *)
Lemma decode_layout vc fp c f h l body rest :
  Z.land vc 0xf0 = PP2_VERSION -> COMMAND_BY_BITS (Z.land vc 0x0f) = Some c ->
  FAM_BY_BITS (Z.land fp 0xf0) = Some f ->
  h * 256 + l = Z.of_nat (length body) -> Z.of_nat (length body) <= 65535 ->
  let p := SIGNATURE ++ [vc] ++ [fp] ++ [h; l] in
  decodeBody c f (p ++ body) (length p) (length p + length body) = DecodeOk rest (length p + length body) ->
  decodeProxyV2 (p ++ body) = DecodeOk rest (length p + length body).
Proof.
  intros Hv Hc Hf Hlen Hmax p Hb. unfold decodeProxyV2. rewrite length_SIGNATURE.
  assert (length (p ++ body) = (16 + length body)%nat) as Hl by (rewrite length_app; done).
  rewrite Hl. cbv zeta. replace (Nat.eqb (16 + length body) 0) with false by done.
  rewrite (bool_decide_true (sub (p ++ body) _ _ = _)).
  2:{ rewrite Nat.min_r by lia. unfold p. rewrite <- (assoc_L (++)). by rewrite sub_app_l by (cbn; lia). }
  cbn [negb]. destruct (Nat.ltb_spec (16 + length body) (12 + 4)); [lia|].
  change (readUInt8 (p ++ body) 12) with vc. change (readUInt8 (p ++ body) (12 + 1)) with fp.
  change (readUInt16BE (p ++ body) (12 + 2)) with (h * 256 + l).
  rewrite Hv, Z.eqb_refl, Hc, Hf, Hlen. cbn [negb]. rewrite Nat2Z.id.
  replace (Z.of_nat (length body) >? 65535) with false by lia.
  change (length p) with 16%nat in Hb |- *. change (12 + 2 + 2)%nat with 16%nat.
  destruct (Nat.ltb_spec (16 + length body) (16 + length body)); [lia|]. exact Hb.
Qed.

Lemma writeUInt16BE_ok n : 0 <= n <= 65535 ->
  exists h l, writeUInt16BE n = Some [h; l] /\ h * 256 + l = n.
Proof.
  intros Hn. exists (Z.shiftr n 8), (Z.land n 255). unfold writeUInt16BE.
  replace (n >? 65535) with false by lia. replace (n <? 0) with false by lia. split; [done|].
  rewrite Z.shiftr_div_pow2 by lia. change 255 with (Z.ones 8). rewrite Z.land_ones by lia.
  change (2 ^ 8) with 256. pose proof (Z.div_mod n 256). lia.
Qed.

Lemma encodePort_ok p : is_unit p -> exists h l, encodePort p = Some [h; l] /\ h * 256 + l = p.
Proof.
  intros Hp. unfold encodePort. change 0xffff with (Z.ones 16). rewrite Z.land_ones by lia.
  rewrite Z.mod_small by (unfold is_unit in Hp; lia). apply writeUInt16BE_ok. unfold is_unit in Hp. lia.
Qed.

Definition tlv_ok (t : ProxyTlv) : Prop := is_octet (tlv_type t) /\ Z.of_nat (length (tlv_value t)) <= 65535.
Definition tlvs_size (ts : list ProxyTlv) : nat := sum_list_with (fun t => 3 + length (tlv_value t))%nat ts.

Lemma encodeTlvs_ok ts : Forall tlv_ok ts ->
  exists bufs, mapM encodeTlv ts = Some bufs /\ length (concat bufs) = tlvs_size ts.
Proof.
  induction 1 as [|t ts [Ht Hl] _ (bufs & Hb & Hs)]; [by exists []|].
  destruct (writeUInt16BE_ok (Z.of_nat (length (tlv_value t)))) as (h & l & Hw & _); [lia|].
  exists (([tlv_type t] ++ [h; l] ++ tlv_value t) :: bufs). split.
  - cbn -[encodeTlv]. rewrite Hb. unfold encodeTlv, writeUInt8. unfold is_octet in Ht.
    replace (tlv_type t >? 255) with false by lia. replace (tlv_type t <? 0) with false by lia. cbn. by rewrite Hw.
  - cbn. by rewrite length_app, Hs.
Qed.

(** The text of an address of family [f] with octets [o]; an IPv6 text that the code would take for
    an IPv4-mapped one is excluded. *)
Definition address_text (f : ProxyFamily) (o : bytes) (t : jsstr) : Prop :=
  octets_ok o /\
  match f with
  | TCP4 => length o = 4%nat /\ t = formatIPv4 o 0
  | TCP6 => length o = 16%nat /\ t = formatIPv6 o 0 /\ startsWith MAPPED t = false
  | UNSPEC => False
  end.

Lemma address_text_ok f o t a p : address_text f o t -> normalizeAddress a = t ->
  effectiveFamily a = f /\ encodeEndpointAddress f (mkEndpoint a p) = Some o.
Proof.
  intros [Ho Ht] Ha. unfold effectiveFamily, encodeEndpointAddress. cbn [ep_address]. rewrite Ha.
  destruct f; [| |done].
  - destruct Ht as [Hl ->]. do 4 (destruct o as [|? o]; [done|]). destruct o; [|done].
    destruct (ipv4_text_ok _ _ _ _ Ho) as (_ & H1 & H2). by rewrite H1, H2.
  - destruct Ht as (Hl & -> & Hm). by rewrite formatIPv6_not_ipv4, formatIPv6_back.
Qed.
Definition address_size (f : ProxyFamily) : nat := match f with TCP4 => 12 | TCP6 => 36 | UNSPEC => 0 end.

Lemma decodeAddresses_encoded f pre so do_ src dst h1 l1 h2 l2 tl e :
  length pre = 16%nat -> address_text f so src -> address_text f do_ dst ->
  (16 + address_size f <= e)%nat ->
  decodeAddresses f (pre ++ so ++ do_ ++ [h1; l1] ++ [h2; l2] ++ tl) 16 e =
    inr (Some (mkEndpoint src (h1 * 256 + l1)), Some (mkEndpoint dst (h2 * 256 + l2)),
         (16 + address_size f)%nat) /\
  (16 + address_size f)%nat = length (pre ++ so ++ do_ ++ [h1; l1] ++ [h2; l2]).
Proof.
  intros Hp [_ Hs] [_ Hd] He. destruct f; cbn [address_size] in *; [..|done].
  - destruct Hs as [Hls ->], Hd as [Hld ->]. split; [|rewrite !length_app; cbn; lia].
    do 16 (destruct pre as [|? pre]; [done|]). destruct pre; [|done].
    do 4 (destruct so as [|? so]; [done|]). destruct so; [|done].
    do 4 (destruct do_ as [|? do_]; [done|]). destruct do_; [|done].
    unfold decodeAddresses. destruct (Nat.ltb_spec (e - 16) 12); [lia|reflexivity].
  - destruct Hs as (Hls & -> & _), Hd as (Hld & -> & _). split; [|rewrite !length_app; cbn; lia].
    do 16 (destruct pre as [|? pre]; [done|]). destruct pre; [|done].
    do 16 (destruct so as [|? so]; [done|]). destruct so; [|done].
    do 16 (destruct do_ as [|? do_]; [done|]). destruct do_; [|done].
    unfold decodeAddresses. destruct (Nat.ltb_spec (e - 16) 36); [lia|reflexivity].
Qed.

Lemma family_bits f : f <> UNSPEC -> FAM_BY_BITS (Z.land (Z.lor (FAM_BITS f) PROTO_STREAM) 0xf0) = Some f.
Proof. by destruct f. Qed.

Lemma encode_proxy_decodes f fam so src do_ dst a1 a2 p1 p2 tlvs :
  address_text f so src -> address_text f do_ dst -> normalizeAddress a1 = src -> normalizeAddress a2 = dst ->
  is_unit p1 -> is_unit p2 -> Forall tlv_ok tlvs ->
  Z.of_nat (address_size f + tlvs_size tlvs) <= 65535 ->
  exists b,
    encodeProxyV2 (mkHeader PROXY fam (Some (mkEndpoint a1 p1)) (Some (mkEndpoint a2 p2)) tlvs) = Some b /\
    decodeProxyV2 b =
      DecodeOk (mkHeader PROXY f (Some (mkEndpoint src p1)) (Some (mkEndpoint dst p2)) tlvs) (length b).
Proof.
  intros Hs Hd Ha1 Ha2 Hp1 Hp2 Ht Hmax.
  assert (f <> UNSPEC) as Hf by (destruct Hs as [_ Hs]; by intros ->).
  destruct (address_text_ok _ _ _ _ p1 Hs Ha1) as [Hfam E1], (address_text_ok _ _ _ _ p2 Hd Ha2) as [_ E2].
  destruct (encodePort_ok p1 Hp1) as (h1 & l1 & E3 & V1), (encodePort_ok p2 Hp2) as (h2 & l2 & E4 & V2).
  destruct (encodeTlvs_ok tlvs Ht) as (bufs & E5 & Hsz).
  set (body := so ++ do_ ++ [h1; l1] ++ [h2; l2] ++ concat bufs).
  assert (length body = address_size f + tlvs_size tlvs)%nat as Hlb.
  { destruct (decodeAddresses_encoded f (replicate 16 0) so do_ src dst h1 l1 h2 l2 [] 100) as [_ Hl]; [done..|destruct f; cbn; lia|].
    rewrite !length_app, length_replicate in Hl. unfold body. rewrite !length_app, Hsz. lia. }
  destruct (writeUInt16BE_ok (Z.of_nat (length body))) as (h & l & E6 & V); [lia|].
  set (p := SIGNATURE ++ [Z.lor PP2_VERSION (COMMAND_BITS PROXY)] ++ [Z.lor (FAM_BITS f) PROTO_STREAM] ++ [h; l]).
  exists (p ++ body). split.
  - unfold encodeProxyV2. cbn [ph_command ph_source ph_destination ph_tlvs ep_address ep_port].
    rewrite Hfam, E1. cbn [mbind option_bind]. rewrite E2. cbn [mbind option_bind].
    rewrite E3. cbn [mbind option_bind]. rewrite E4. cbn [mbind option_bind]. rewrite E5. cbn [mbind option_bind].
    fold body. rewrite E6. cbn [mbind option_bind]. unfold p. by rewrite <- !(assoc_L (++)).
  - rewrite length_app. apply (decode_layout _ _ PROXY f); [done|done|by apply family_bits|done|lia|].
    fold p. change (length p) with 16%nat. unfold decodeBody.
    destruct (decodeAddresses_encoded f p so do_ src dst h1 l1 h2 l2 (concat bufs) (16 + length body)) as [Hda Hcur];
      [done..|lia|]. fold body in Hda. rewrite Hda.
    pose proof (decodeTlvs_encoded tlvs bufs E5 (p ++ so ++ do_ ++ [h1; l1] ++ [h2; l2]) []
      (16 + length body - (16 + address_size f)) ltac:(lia)) as Htl.
    rewrite <- Hcur, <- !(assoc_L (++)) in Htl. fold body in Htl.
    replace (16 + address_size f + length (concat bufs))%nat with (16 + length body)%nat in Htl by lia.
    rewrite Htl, V1, V2. done.
Qed.

Lemma encode_local_decodes tlvs : Forall tlv_ok tlvs -> Z.of_nat (tlvs_size tlvs) <= 65535 ->
  exists b, encodeLocal tlvs = Some b /\
    decodeProxyV2 b = DecodeOk (mkHeader LOCAL UNSPEC None None tlvs) (length b).
Proof.
  intros Ht Hmax. destruct (encodeTlvs_ok tlvs Ht) as (bufs & E & Hsz).
  destruct (writeUInt16BE_ok (Z.of_nat (length (concat bufs)))) as (h & l & E6 & V); [lia|].
  set (p := SIGNATURE ++ [Z.lor PP2_VERSION (COMMAND_BITS LOCAL)] ++ [Z.lor (FAM_BITS UNSPEC) 0x00] ++ [h; l]).
  exists (p ++ concat bufs). split.
  - unfold encodeLocal. rewrite E. cbn [mbind option_bind]. rewrite E6. cbn [mbind option_bind].
    unfold p. by rewrite <- !(assoc_L (++)).
  - rewrite length_app. apply (decode_layout _ _ LOCAL UNSPEC); [done..|lia|]. fold p. unfold decodeBody, decodeAddresses.
    by rewrite (decodeTlvs_encoded tlvs bufs E p []) by lia.
Qed.
(** [carries input h]: the encoder's input is in range and [h] is the header it stands for. An IPv4
    address may be given with the IPv4-mapped prefix; the family field is ignored; without both
    endpoints the connection is announced as local. *)
Inductive carries : EncodeProxyV2Input -> ProxyHeader -> Prop :=
| carries_proxy f fam so src do_ dst a1 a2 p1 p2 tlvs :
    address_text f so src -> address_text f do_ dst ->
    normalizeAddress a1 = src -> normalizeAddress a2 = dst ->
    is_unit p1 -> is_unit p2 -> Forall tlv_ok tlvs ->
    Z.of_nat (address_size f + tlvs_size tlvs) <= 65535 ->
    carries (mkHeader PROXY fam (Some (mkEndpoint a1 p1)) (Some (mkEndpoint a2 p2)) tlvs)
            (mkHeader PROXY f (Some (mkEndpoint src p1)) (Some (mkEndpoint dst p2)) tlvs)
| carries_local input :
    ph_command input = LOCAL \/ ph_source input = None \/ ph_destination input = None ->
    Forall tlv_ok (ph_tlvs input) -> Z.of_nat (tlvs_size (ph_tlvs input)) <= 65535 ->
    carries input (mkHeader LOCAL UNSPEC None None (ph_tlvs input)).

(** A header the encoder is given in range is encoded, and decoding the octets, followed by
    anything, gives back the header with the addresses in normal form and consumes exactly its
    octets; every strict prefix of them is reported incomplete. *)
Theorem proxy_roundtrip input h rest : carries input h ->
  exists b, encodeProxyV2 input = Some b /\
    decodeProxyV2 (b ++ rest) = DecodeOk h (length b) /\
    forall k, (k < length b)%nat -> decodeProxyV2 (take k b) = Incomplete.
Proof.
  intros Hc. assert (exists b, encodeProxyV2 input = Some b /\ decodeProxyV2 b = DecodeOk h (length b)) as (b & E & D).
  { destruct Hc as [f fam so src do_ dst a1 a2 p1 p2 tlvs|input Hl Ht Hm]; [by eapply encode_proxy_decodes|].
    replace (encodeProxyV2 input) with (encodeLocal (ph_tlvs input)); [by apply encode_local_decodes|].
    unfold encodeProxyV2. by destruct Hl as [-> | [-> | ->]]; repeat case_match. }
  exists b. split_and!; [done|by rewrite decode_app, D by (by rewrite D)|]. intros k Hk. by eapply decode_take.
Qed.

End text.

(** The socket reader does not depend on how the stream is cut into chunks: as long as the
    chunks stay within [maxBytes] and decide the header, it settles on what decoding them at once
    gives, whatever events follow, and on success the octets it hands over together with the chunks
    it left unread are exactly the stream after the header. *)
Theorem reader_chunk_independent maxBytes chunks later :
  (length (concat chunks) <= maxBytes)%nat -> decodeProxyV2 (concat chunks) <> Incomplete ->
  exists used unread, chunks = used ++ unread /\
    reader_outcome (concat chunks) unread (readProxyHeader maxBytes ((OnData <$> chunks) ++ later)).
Proof.
  intros Hm Hd. destruct (reader_fold maxBytes chunks [] eq_refl Hm) as (used & unread & -> & Ho).
  exists used, unread. split; [done|]. unfold readProxyHeader. rewrite fold_left_app. cbn [app] in Ho.
  rewrite fold_settled; [done|]. intros b Hb. unfold reader_outcome in Ho. rewrite Hb in Ho.
  destruct (decodeProxyV2 _); [done|..]; [by destruct Ho as (? & ? & _)|done].
Qed.

(** ** Examples *)

#[local] Instance no_numbers : NumberRuntime := {| text_number _ := None |}.

Definition demo_input : EncodeProxyV2Input :=
  mkHeader PROXY TCP6 (Some (mkEndpoint (js "::ffff:203.0.113.9") 40000)) (Some (mkEndpoint (js "10.0.0.2") 25))
    [mkTlv 5 [1; 2; 3]].
Definition demo_header : ProxyHeader :=
  mkHeader PROXY TCP4 (Some (mkEndpoint (js "203.0.113.9") 40000)) (Some (mkEndpoint (js "10.0.0.2") 25))
    [mkTlv 5 [1; 2; 3]].

Lemma demo_carries : carries demo_input demo_header.
Proof.
  eapply (carries_proxy TCP4 _ [203; 0; 113; 9] _ [10; 0; 0; 2]); try reflexivity; try (unfold is_unit; lia).
  - split; [repeat constructor|]; done.
  - split; [repeat constructor|]; done.
  - repeat constructor; done.
  - vm_compute. done.
Qed.

Lemma proxy_roundtrip_witness : exists b, encodeProxyV2 demo_input = Some b /\
  decodeProxyV2 (b ++ js "EHLO") = DecodeOk demo_header (length b) /\
  forall k, (k < length b)%nat -> decodeProxyV2 (take k b) = Incomplete.
Proof. apply proxy_roundtrip, demo_carries. Defined.

(** A local header and some payload, in three chunks. *)
Definition demo_chunks : list bytes := [take 5 SIGNATURE; drop 5 SIGNATURE ++ [0x20; 0x00; 0]; [0] ++ js "QUIT"].

Lemma reader_chunk_independent_witness :
  exists used unread, demo_chunks = used ++ unread /\
    reader_outcome (concat demo_chunks) unread (readProxyHeader 64 ((OnData <$> demo_chunks) ++ [OnClose])).
Proof. apply (reader_chunk_independent 64 demo_chunks [OnClose]); [vm_compute; lia|vm_compute; done]. Defined.

(** The text printed for the IPv6 form of 1.2.3.4 is read back as another address. *)
Example mapped_text_not_roundtrip :
  let o := replicate 10 0 ++ [255; 255; 1; 2; 3; 4] in
  formatIPv6 o 0 = js "::ffff:102:304" /\ expandIPv6 (formatIPv6 o 0) <> Some o.
Proof. vm_compute. done. Qed.

(** A short header followed, in one chunk, by more payload than [maxBytes] is refused. *)
Example payload_counts_against_maxBytes :
  let b := SIGNATURE ++ [0x20; 0x00; 0; 0] in
  decodeProxyV2 b = DecodeOk (mkHeader LOCAL UNSPEC None None []) 16 /\
  readProxyHeader 20 [OnData b; OnData (js "PIPELINED")] = Resolved (mkHeader LOCAL UNSPEC None None []) [] /\
  readProxyHeader 20 [OnData (b ++ js "PIPELINED")] = Rejected (js "PROXY protocol header exceeded maxBytes").
Proof. vm_compute. done. Qed.

(** ** Addresses in text *)

(** Digits, lower-case hexadecimal digits, dots and colons. *)
Definition addr_char (c : Z) : Prop := 46 <= c <= 58 \/ 97 <= c <= 102.

Lemma hex_aux_chars fuel n acc : 0 <= n -> Forall addr_char acc -> Forall addr_char (hex_aux fuel n acc).
Proof.
  revert n acc. induction fuel as [|fuel IH]; intros n acc Hn Hacc; [done|]. cbn [hex_aux].
  assert (Forall addr_char (hex_lower_digit (n mod 16) :: acc)) as H.
  { constructor; [|done]. pose proof (Z.mod_pos_bound n 16). unfold addr_char, hex_lower_digit. case_match; lia. }
  case_match; [done|]. apply IH; [|done]. apply Z.div_pos; lia.
Qed.

Lemma toString16_chars n : 0 <= n -> Forall addr_char (toString16 n).
Proof. intros. by apply hex_aux_chars. Qed.

Lemma joinWith_chars (P : Z -> Prop) sep ps : Forall P sep -> Forall (Forall P) ps -> Forall P (joinWith sep ps).
Proof.
  intros Hsep. induction 1 as [|p ps Hp _ IH]; [constructor|]. destruct ps as [|q ps]; [done|].
  rewrite joinWith_cons by done. by repeat (apply Forall_app; split).
Qed.

Lemma collapse_chars ns : units_ok ns -> Forall addr_char (ipv6_collapse (toString16 <$> ns)) /\ DOT ∉ ipv6_collapse (toString16 <$> ns).
Proof.
  intros H. assert (Forall (fun c => addr_char c /\ c <> DOT) (ipv6_collapse (toString16 <$> ns))) as Hall.
  { assert (forall ms, units_ok ms -> Forall (fun c => addr_char c /\ c <> DOT) (joinWith [58] (toString16 <$> ms))) as Hj.
    { intros ms Hms. apply joinWith_chars; [apply Forall_singleton; unfold addr_char, DOT; lia|]. apply Forall_fmap.
      eapply Forall_impl; [done|]. intros n Hn. cbn. apply Forall_and. split; [apply toString16_chars; zlia|].
      destruct (toString16_spec n) as [[_ Ht] _]; [zlia|]. eapply Forall_impl; [done|]. cbn. intros c (_ & _ & Hc) ->.
      apply Hc. unfold DOT. set_solver. }
    unfold ipv6_collapse. cbv zeta. case_match; [|auto]. rewrite <- fmap_take, <- fmap_drop.
    apply Forall_app. split; [apply Hj; by apply Forall_take|].
    apply Forall_app. split; [|apply Hj; by apply Forall_drop].
    change (js "::") with [58; 58]. repeat (apply Forall_cons; split; [unfold addr_char, DOT; lia|]). constructor. }
  split; [eapply Forall_impl; [exact Hall|]; by intros c []|].
  intros Hin. rewrite Forall_forall in Hall. by apply Hall in Hin as [].
Qed.

Lemma collapse_halves ns t : t = ipv6_collapse (toString16 <$> ns) -> length ns = 8%nat -> units_ok ns ->
  (exists a k, splitDouble 58 t = [joinWith [58] (toString16 <$> take a ns); joinWith [58] (toString16 <$> drop (a + k) ns)] /\
     ns = take a ns ++ replicate k 0 ++ drop (a + k) ns /\ (a + k <= 8)%nat) \/
  (splitDouble 58 t = [t] /\ t = joinWith [58] (toString16 <$> ns)).
Proof.
  intros Ht Hl Hns. pose proof (shorts_text ns Hns) as Hseg. unfold ipv6_collapse in Ht.
  destruct (zero_run (toString16 <$> ns) _ eq_refl) as [Hb Hz].
  set (s := zero_run_loop _ _ _) in *. cbv zeta in Ht. rewrite length_fmap in Hb.
  apply zeros_text in Hz; [|done]. destruct (Nat.ltb_spec 1 (bestLen s)) as [Hlt|_].
  - left. exists (bestStart s), (bestLen s). split; [|split; [done|lia]]. rewrite !fmap_take, !fmap_drop.
    assert (Forall (segment 58) (take (bestStart s) (toString16 <$> ns)) /\
      Forall (segment 58) (drop (bestStart s + bestLen s) (toString16 <$> ns))) as [Hs1 Hs2]
      by (split; [by apply Forall_take|by apply Forall_drop]).
    rewrite Ht, splitDouble_joinWith by done.
    change (splitDouble 58 (js "::" ++ ?u)) with ([] :: splitDouble 58 u).
    pose proof (splitDouble_joinWith 58 _ [] Hs2) as Hsd2. rewrite app_nil_r in Hsd2. rewrite Hsd2.
    cbn [prepend splitDouble]. by rewrite !app_nil_r.
  - right. split; [|done]. pose proof (splitDouble_joinWith 58 _ [] Hseg) as Hsd. rewrite app_nil_r, <- Ht in Hsd. rewrite Hsd.
    cbn [prepend splitDouble]. by rewrite app_nil_r.
Qed.

Lemma part_back ps : Forall (segment 58) ps ->
  match Some (joinWith [58] ps) with None | Some [] => [] | Some h => splitOn 58 h end = ps.
Proof.
  intros H. pose proof (segments_back ps H) as E. destruct (joinWith [58] ps) eqn:Ej; [done|]. exact E.
Qed.

Lemma formatIPv6_collapse b : formatIPv6 b 0 = ipv6_collapse (toString16 <$> shorts_of b).
Proof. unfold formatIPv6, ipv6_collapse, shorts_of. by rewrite <- list_fmap_compose. Qed.

