(* ===== verification/DkimCanon.v ===== *)
(** * DkimCanon: DKIM canonicalization (packages/auth-checks/src/dkim/canon.ts)

    Header canonicalization, the streaming body canonicalizer and the body hasher. Text is latin1,
    so a string and the buffer it came from are the same list. An operation that pushes chunks to
    the sink returns them together with the new state, in the order they are pushed. SHA-256 is a
    parameter ([Sha256]): the [Hash] object is the concatenation of what it was given. *)
From S2P Require Import Prelude JsString.

Class Sha256 := { sha256 : bytes -> bytes }.

Inductive Canonicalization := simple | relaxed.
#[export] Instance Canonicalization_eq_dec : EqDecision Canonicalization.
Proof. solve_decision. Defined.

Definition is_relaxed (mode : Canonicalization) : bool := match mode with relaxed => true | simple => false end.

Definition is_wsp (b : Z) : bool := (b =? SP) || (b =? HTAB).

(** ** Headers *)

(** [s.replace(/\r\n/g, '')]. *)
Fixpoint removeCRLF (s : jsstr) : jsstr :=
  match s with
  | [] => []
  | x :: s' =>
      match s' with
      | y :: t => if (x =? CR) && (y =? LF) then removeCRLF t else x :: removeCRLF s'
      | [] => [x]
      end
  end.

(** [s.replace(/[ \t]+/g, ' ')]; [inRun] is whether the last unit belonged to a run. *)
Fixpoint collapseWsp (inRun : bool) (s : jsstr) : jsstr :=
  match s with
  | [] => []
  | c :: s => if is_wsp c then (if inRun then [] else [SP]) ++ collapseWsp true s else c :: collapseWsp false s
  end.

(** [s.replace(/^ /, '')] and [s.replace(/ $/, '')]. *)
Definition dropFirstSpace (s : jsstr) : jsstr :=
  match s with c :: t => if c =? SP then t else s | [] => [] end.
Definition dropLastSpace (s : jsstr) : jsstr := rev (dropFirstSpace (rev s)).

Definition asciiLower (s : jsstr) : jsstr := lower_char <$> s.

Definition relaxedHeader (text : jsstr) : jsstr :=
  let colon := indexOf 58 text in
  let rawName := match colon with None => text | Some i => take i text end in
  let rawValue := match colon with None => [] | Some i => drop (S i) text end in
  let name := asciiLower (dropEndWhile is_wsp (removeCRLF rawName)) in
  let value := dropLastSpace (dropFirstSpace (collapseWsp false (removeCRLF rawValue))) in
  match colon with None => name | Some _ => name ++ [58] ++ value end.

Definition canonicalizeHeader (raw : bytes) (mode : Canonicalization) : jsstr :=
  match mode with simple => raw | relaxed => relaxedHeader raw end.

(** ** The body *)

Record BodyCanonicalizer := mkCanon {
  bc_mode : Canonicalization;
  bc_crlfRun : nat;
  bc_cr : bool;
  bc_wsp : bool;
  bc_emittedContent : bool;
  bc_ended : bool
}.

Definition newCanonicalizer (mode : Canonicalization) : BodyCanonicalizer :=
  mkCanon mode 0 false false false false.

Definition set_cr (cr : bool) (c : BodyCanonicalizer) : BodyCanonicalizer :=
  mkCanon (bc_mode c) (bc_crlfRun c) cr (bc_wsp c) (bc_emittedContent c) (bc_ended c).
Definition set_wsp (w : bool) (c : BodyCanonicalizer) : BodyCanonicalizer :=
  mkCanon (bc_mode c) (bc_crlfRun c) (bc_cr c) w (bc_emittedContent c) (bc_ended c).

Definition content (bs : bytes) (c : BodyCanonicalizer) : list bytes * BodyCanonicalizer :=
  (replicate (bc_crlfRun c) CRLF ++ (if bc_wsp c then [[SP]] else []) ++ [bs],
   mkCanon (bc_mode c) 0 (bc_cr c) false true (bc_ended c)).

(** [if (this.cr) { this.cr = false; this.content(CR_BYTE); }]. *)
Definition flush_cr (c : BodyCanonicalizer) : list bytes * BodyCanonicalizer :=
  if bc_cr c then content [CR] (set_cr false c) else ([], c).

(** The CRLF branch of a line feed. *)
Definition end_line (c : BodyCanonicalizer) : BodyCanonicalizer :=
  mkCanon (bc_mode c) (S (bc_crlfRun c)) false false (bc_emittedContent c) (bc_ended c).

Definition special (mode : Canonicalization) (b : Z) : bool :=
  (b =? CR) || (b =? LF) || (is_relaxed mode && is_wsp b).

(** What follows the flush of the plain run, for a special octet. *)
Definition special_byte (b : Z) (c : BodyCanonicalizer) : list bytes * BodyCanonicalizer :=
  if b =? LF then
    if bc_cr c then ([], end_line c) else content [b] c
  else
    let '(o, c) := flush_cr c in
    (o, if b =? CR then set_cr true c else set_wsp true c).

(** The loop over [buf]; [rest] is [buf.subarray(i)]. *)
Fixpoint canon_loop (buf rest : bytes) (i runStart : nat) (c : BodyCanonicalizer)
  : list bytes * nat * BodyCanonicalizer :=
  match rest with
  | [] => ([], runStart, c)
  | b :: rest =>
      if negb (special (bc_mode c) b) then
        let '(o1, c) := flush_cr c in
        let '(o2, rs, c) := canon_loop buf rest (S i) runStart c in
        (o1 ++ o2, rs, c)
      else
        let '(o1, c) := if (runStart <? i)%nat then content (sub buf runStart i) c else ([], c) in
        let '(o2, c) := special_byte b c in
        let '(o3, rs, c) := canon_loop buf rest (S i) (S i) c in
        (o1 ++ o2 ++ o3, rs, c)
  end.

(** [None] is the thrown error. *)
Definition canon_update (buf : bytes) (c : BodyCanonicalizer) : option (list bytes * BodyCanonicalizer) :=
  if bc_ended c then None
  else
    let '(o1, runStart, c) := canon_loop buf buf 0 0 c in
    if (runStart <? length buf)%nat then
      let '(o2, c) := flush_cr c in
      let '(o3, c) := content (drop runStart buf) c in
      Some (o1 ++ o2 ++ o3, c)
    else Some (o1, c).

Definition canon_end (c : BodyCanonicalizer) : list bytes * BodyCanonicalizer :=
  if bc_ended c then ([], c)
  else
    let '(o, c) := flush_cr (mkCanon (bc_mode c) (bc_crlfRun c) (bc_cr c) (bc_wsp c) (bc_emittedContent c) true) in
    let c := set_wsp false c in
    if bc_emittedContent c then (o ++ [CRLF], c)
    else match bc_mode c with simple => (o ++ [CRLF], c) | relaxed => (o, c) end.

(** ** The body hash *)

Definition isSafeInteger (n : Z) : bool := (- (2 ^ 53 - 1) <=? n) && (n <=? 2 ^ 53 - 1).

Record BodyHasher := mkHasher {
  bh_hash : bytes;  (* what [hash.update] was given *)
  bh_canon : BodyCanonicalizer;
  bh_limit : option Z;
  bh_hashed : Z;
  bh_total : Z;
  bh_result : option bytes
}.

(** [None] is the thrown [RangeError]. *)
Definition newHasher (mode : Canonicalization) (limit : option Z) : option BodyHasher :=
  match limit with
  | Some l => if negb (isSafeInteger l) || (l <? 0) then None
              else Some (mkHasher [] (newCanonicalizer mode) limit 0 0 None)
  | None => Some (mkHasher [] (newCanonicalizer mode) limit 0 0 None)
  end.

(** The sink given to the canonicalizer. *)
Definition hasher_sink (h : BodyHasher) (chunk : bytes) : BodyHasher :=
  let len := Z.of_nat (length chunk) in
  let total := bh_total h + len in
  match bh_limit h with
  | None => mkHasher (bh_hash h ++ chunk) (bh_canon h) (bh_limit h) (bh_hashed h) total (bh_result h)
  | Some limit =>
      let room := limit - bh_hashed h in
      if room <=? 0 then mkHasher (bh_hash h) (bh_canon h) (bh_limit h) (bh_hashed h) total (bh_result h)
      else
        let part := if len <=? room then chunk else take (Z.to_nat room) chunk in
        mkHasher (bh_hash h ++ part) (bh_canon h) (bh_limit h) (bh_hashed h + Z.of_nat (length part)) total (bh_result h)
  end.

Definition hasher_with (o : list bytes) (c : BodyCanonicalizer) (h : BodyHasher) : BodyHasher :=
  let h := fold_left hasher_sink o h in
  mkHasher (bh_hash h) c (bh_limit h) (bh_hashed h) (bh_total h) (bh_result h).

Definition hasher_update (chunk : bytes) (h : BodyHasher) : option BodyHasher :=
  '(o, c) ← canon_update chunk (bh_canon h); Some (hasher_with o c h).

Definition hasher_digest `{Sha256} (h : BodyHasher) : bytes * BodyHasher :=
  match bh_result h with
  | Some r => (r, h)
  | None =>
      let '(o, c) := canon_end (bh_canon h) in
      let h := hasher_with o c h in
      let r := sha256 (bh_hash h) in
      (r, mkHasher (bh_hash h) (bh_canon h) (bh_limit h) (bh_hashed h) (bh_total h) (Some r))
  end.

Definition canonicalLength (h : BodyHasher) : Z := bh_total h.

Definition canonicalizeBody (body : bytes) (mode : Canonicalization) : option bytes :=
  '(o1, c) ← canon_update body (newCanonicalizer mode);
  let '(o2, _) := canon_end c in
  Some (concat (o1 ++ o2)).

(** ** The c= tag *)

Definition canonicalization_named (s : jsstr) : option Canonicalization :=
  if bool_decide (s = js "simple") then Some simple
  else if bool_decide (s = js "relaxed") then Some relaxed else None.

Definition parseCanonicalization (value : option jsstr) : option (Canonicalization * Canonicalization) :=
  match value with
  | None => Some (simple, simple)
  | Some value =>
      let pair h b :=
        header ← canonicalization_named (asciiLower h);
        body ← canonicalization_named (asciiLower b);
        Some (header, body) in
      match splitOn 47 value with
      | [] => pair [] (js "simple")
      | [h] => pair h (js "simple")
      | [h; b] => pair h b
      | _ => None
      end
  end.
