(* ===== verification/DkimCanonProofs.v ===== *)
(** * DkimCanonProofs: the streaming canonicalizer computes RFC 6376's line-by-line definition

    The reference definition splits the body into lines, reduces each line, drops the empty lines
    at the end and terminates every remaining line. The streaming machine is related to it in three
    steps: buffered runs to one octet at a time, octets to tokens (an octet of content or the end of
    a line), tokens to lines. *)
From S2P Require Import Prelude JsString JsStringFacts DkimCanon.

(** ** The reference definition *)

(** The pieces of a body between CRLFs; the last one is not terminated. *)
Fixpoint crlf_lines (l : bytes) : list bytes :=
  match l with
  | [] => [[]]
  | x :: l' =>
      match l' with
      | y :: t =>
          if (x =? CR) && (y =? LF) then [] :: crlf_lines t
          else match crlf_lines l' with p :: ps => (x :: p) :: ps | [] => [[x]] end
      | [] => [[x]]
      end
  end.

Definition canon_line (mode : Canonicalization) (line : bytes) : bytes :=
  match mode with simple => line | relaxed => dropEndWhile is_wsp (collapseWsp false line) end.

Fixpoint drop_empty_end (ls : list bytes) : list bytes :=
  match ls with
  | [] => []
  | l :: ls => match l, drop_empty_end ls with [], [] => [] | _, ls' => l :: ls' end
  end.

Definition canon_spec (mode : Canonicalization) (body : bytes) : bytes :=
  match drop_empty_end (canon_line mode <$> crlf_lines body) with
  | [] => match mode with simple => CRLF | relaxed => [] end
  | ls => concat ((fun l => l ++ CRLF) <$> ls)
  end.

(** ** One octet at a time *)

Definition flat (p : list bytes * BodyCanonicalizer) : bytes * BodyCanonicalizer := (concat p.1, p.2).

Definition then_ (p : bytes * BodyCanonicalizer) (f : BodyCanonicalizer -> bytes * BodyCanonicalizer)
  : bytes * BodyCanonicalizer := ((p.1 ++ (f p.2).1), (f p.2).2).

Lemma then_assoc p f g : then_ (then_ p f) g = then_ p (fun c => then_ (f c) g).
Proof. unfold then_. cbn. by rewrite (assoc_L (++)). Qed.

Lemma then_ret p : then_ p (fun c => ([], c)) = p.
Proof. unfold then_. cbn. rewrite app_nil_r. by destruct p. Qed.

Lemma ret_then c f : then_ ([], c) f = f c.
Proof. unfold then_. cbn. by destruct (f c). Qed.

Lemma then_ext p f g : (forall c, f c = g c) -> then_ p f = then_ p g.
Proof. intros H. unfold then_. by rewrite !H. Qed.

Definition byte_step (b : Z) (c : BodyCanonicalizer) : bytes * BodyCanonicalizer :=
  if special (bc_mode c) b then flat (special_byte b c)
  else then_ (flat (flush_cr c)) (fun c => flat (content [b] c)).

Fixpoint run_bytes (l : bytes) (c : BodyCanonicalizer) : bytes * BodyCanonicalizer :=
  match l with [] => ([], c) | b :: l => then_ (byte_step b c) (run_bytes l) end.

Lemma run_bytes_app l1 l2 c : run_bytes (l1 ++ l2) c = then_ (run_bytes l1 c) (run_bytes l2).
Proof.
  revert c. induction l1 as [|b l1 IH]; intros c; cbn [app run_bytes]; [by rewrite ret_then|].
  rewrite then_assoc. apply then_ext. done.
Qed.

(** A run of content is emitted as its octets are. *)
Definition pending_run (run : bytes) (c : BodyCanonicalizer) : bytes * BodyCanonicalizer :=
  match run with [] => ([], c) | _ => flat (content run c) end.


Lemma pending_run_snoc run b c :
  pending_run (run ++ [b]) c = then_ (pending_run run c) (fun c => flat (content [b] c)).
Proof.
  destruct run as [|x run]; [by cbn [app pending_run]; rewrite ret_then|].
  unfold pending_run, then_, flat, content. cbn -[concat]. f_equal.
  rewrite !concat_app. cbn. rewrite <- !(assoc_L (++)). cbn. by rewrite app_nil_r.
Qed.

Lemma pending_run_cr run c : run <> [] -> bc_cr (pending_run run c).2 = bc_cr c.
Proof. by destruct run. Qed.

Lemma pending_run_mode run c : bc_mode (pending_run run c).2 = bc_mode c.
Proof. by destruct run. Qed.

Lemma flush_cr_mode c : bc_mode (flush_cr c).2 = bc_mode c.
Proof. unfold flush_cr. by destruct (bc_cr c). Qed.

Lemma flush_cr_cr c : bc_cr (flush_cr c).2 = false.
Proof. unfold flush_cr. by destruct (bc_cr c) eqn:E. Qed.

Lemma special_byte_mode b c : bc_mode (special_byte b c).2 = bc_mode c.
Proof.
  unfold special_byte, flush_cr. destruct (b =? LF), (bc_cr c) eqn:E; try done; by destruct (b =? CR).
Qed.

Definition loop_result (buf : bytes) (r : list bytes * nat * BodyCanonicalizer) : bytes * BodyCanonicalizer :=
  let '(o, rs, c) := r in then_ (concat o, c) (pending_run (drop rs buf)).

Definition loop_exit (buf : bytes) (r : list bytes * nat * BodyCanonicalizer) : Prop :=
  let '(_, rs, c) := r in (rs <= length buf)%nat /\ (bc_cr c = true -> rs = length buf).

Lemma canon_loop_bytes buf rest : forall i rs c,
  drop i buf = rest -> (rs <= i <= length buf)%nat -> (bc_cr c = true -> rs = i) ->
  loop_result buf (canon_loop buf rest i rs c) = then_ (pending_run (sub buf rs i) c) (run_bytes rest) /\
  loop_exit buf (canon_loop buf rest i rs c).
Proof.
  induction rest as [|b rest IH]; intros i rs c Hd Hi Hcr.
  { apply drop_nil_length in Hd. assert (i = length buf) as -> by lia. cbn [canon_loop loop_result loop_exit].
    rewrite sub_all_drop. cbn [run_bytes]. rewrite then_ret. cbn [concat]. rewrite ret_then. split; [done|]. split; [lia|done]. }
  apply drop_cons_lookup in Hd as [Hb Hd]. assert (i < length buf)%nat by (by eapply lookup_lt_Some).
  cbn [canon_loop run_bytes]. destruct (special (bc_mode c) b) eqn:Hs; cbn [negb].
  - set (p1 := if (rs <? i)%nat then content (sub buf rs i) c else ([], c)).
    assert (flat p1 = pending_run (sub buf rs i) c) as Hp1.
    { unfold p1. destruct (Nat.ltb_spec rs i).
      - pose proof (length_sub buf rs i). destruct (sub buf rs i) eqn:E; [cbn in *; lia|done].
      - assert (rs = i) as -> by lia. by rewrite sub_nil. }
    destruct p1 as [o1 c1]. destruct (special_byte b c1) as [o2 c2] eqn:E2.
    destruct (IH (S i) (S i) c2) as [IH1 IH2]; [done|lia|done|].
    destruct (canon_loop buf rest (S i) (S i) c2) as [[o3 rs'] c3]. split; [|done].
    rewrite <- Hp1. unfold byte_step. rewrite sub_nil in IH1. cbn [pending_run] in IH1. rewrite ret_then in IH1.
    assert (bc_mode c1 = bc_mode c) as Hm1.
    { change c1 with (flat (o1, c1)).2. by rewrite Hp1, pending_run_mode. }
    unfold then_ at 1. unfold flat. cbn [fst snd]. rewrite Hm1, Hs.
    rewrite E2. cbn [loop_result] in *.
    unfold then_ in *. cbn [fst snd flat] in *. rewrite !concat_app, <- !(assoc_L (++)), <- IH1. done.
  - destruct (flush_cr c) as [o1 c1] eqn:E1.
    assert (bc_cr c1 = false /\ bc_mode c1 = bc_mode c) as [Hc1 Hm1].
    { pose proof (flush_cr_cr c). pose proof (flush_cr_mode c). by rewrite E1 in *. }
    destruct (IH (S i) rs c1) as [IH1 IH2]; [done|lia|congruence|].
    destruct (canon_loop buf rest (S i) rs c1) as [[o3 rs'] c3]. split; [|done].
    rewrite (sub_snoc buf rs i b) in IH1 by (lia || done). rewrite pending_run_snoc, then_assoc in IH1.
    cbn [loop_result] in *.
    assert (then_ (pending_run (sub buf rs i) c) (fun c => then_ (byte_step b c) (run_bytes rest)) =
            then_ (concat o1, c1) (fun c1 => then_ (pending_run (sub buf rs i) c1)
              (fun c => then_ (flat (content [b] c)) (run_bytes rest)))) as ->.
    { destruct (bc_cr c) eqn:Ecr.
      - rewrite (Hcr eq_refl), sub_nil. cbn [pending_run]. rewrite ret_then. unfold byte_step. rewrite Hs, E1, then_assoc.
        apply then_ext. intros c'. by rewrite ret_then.
      - assert (o1 = [] /\ c1 = c) as [-> ->] by (unfold flush_cr in E1; rewrite Ecr in E1; by inv E1).
        cbn [concat]. rewrite ret_then.
        assert (bc_mode (pending_run (sub buf rs i) c).2 = bc_mode c /\ bc_cr (pending_run (sub buf rs i) c).2 = false)
          as [Hm Hcr'] by (by destruct (sub buf rs i)).
        set (q := pending_run (sub buf rs i) c) in *. unfold then_. unfold byte_step. rewrite Hm, Hs.
        unfold flush_cr. rewrite Hcr'. unfold flat at 1 4. cbn [concat fst snd]. by rewrite !ret_then. }
    unfold then_ at 1 2. cbn [fst snd]. rewrite <- IH1. unfold then_. cbn [fst snd].
    by rewrite concat_app, <- (assoc_L (++)).
Qed.

Lemma canon_update_bytes buf c : bc_ended c = false ->
  exists o c', canon_update buf c = Some (o, c') /\ (concat o, c') = run_bytes buf c.
Proof.
  intros He. unfold canon_update. rewrite He.
  destruct (canon_loop_bytes buf buf 0 0 c) as [H1 H2]; [done|lia|done|].
  rewrite sub_nil in H1. cbn [pending_run] in H1. rewrite ret_then in H1. rewrite <- H1.
  destruct (canon_loop buf buf 0 0 c) as [[o rs] c']. destruct H2 as [Hrs Hcr].
  cbn [loop_result]. destruct (Nat.ltb_spec rs (length buf)) as [Hlt|Hge].
  - unfold flush_cr. destruct (bc_cr c'); [specialize (Hcr eq_refl); lia|].
    eexists _, _. split; [done|]. destruct (drop rs buf) eqn:E; [apply drop_nil_length in E; lia|].
    cbn [app]. rewrite concat_app. done.
  - eexists _, _. split; [done|]. rewrite drop_ge by lia. cbn [pending_run]. by rewrite then_ret.
Qed.

Lemma byte_step_ended b c : bc_ended (byte_step b c).2 = bc_ended c.
Proof.
  unfold byte_step, special_byte, flush_cr. destruct (special (bc_mode c) b), (bc_cr c), (b =? LF), (b =? CR); done.
Qed.

Lemma byte_step_mode b c : bc_mode (byte_step b c).2 = bc_mode c.
Proof.
  unfold byte_step, special_byte, flush_cr. destruct (special (bc_mode c) b), (bc_cr c), (b =? LF), (b =? CR); done.
Qed.

Lemma run_bytes_const l c : bc_ended (run_bytes l c).2 = bc_ended c /\ bc_mode (run_bytes l c).2 = bc_mode c.
Proof.
  revert c. induction l as [|b l IH]; intros c; [done|]. cbn [run_bytes then_ snd].
  destruct (IH (byte_step b c).2) as [-> ->]. by rewrite byte_step_ended, byte_step_mode.
Qed.

(** ** Octets to tokens *)

Inductive token := Octet (b : Z) | Eol.

Fixpoint tokens (cr : bool) (l : bytes) : list token :=
  match l with
  | [] => if cr then [Octet CR] else []
  | b :: l =>
      if b =? LF then (if cr then Eol else Octet LF) :: tokens false l
      else (if cr then [Octet CR] else []) ++ (if b =? CR then tokens true l else Octet b :: tokens false l)
  end.

Definition token_step (t : token) (c : BodyCanonicalizer) : bytes * BodyCanonicalizer :=
  match t with
  | Octet b => if is_relaxed (bc_mode c) && is_wsp b then ([], set_wsp true c) else flat (content [b] c)
  | Eol => ([], end_line c)
  end.

Fixpoint run_tokens (ts : list token) (c : BodyCanonicalizer) : bytes * BodyCanonicalizer :=
  match ts with [] => ([], c) | t :: ts => then_ (token_step t c) (run_tokens ts) end.

Lemma run_tokens_app t1 t2 c : run_tokens (t1 ++ t2) c = then_ (run_tokens t1 c) (run_tokens t2).
Proof.
  revert c. induction t1 as [|t t1 IH]; intros c; cbn [app run_tokens]; [by rewrite ret_then|].
  rewrite then_assoc. by apply then_ext.
Qed.

Lemma token_CR c : token_step (Octet CR) c = flat (content [CR] c).
Proof. cbn. by rewrite andb_false_r. Qed.
Lemma token_LF c : token_step (Octet LF) c = flat (content [LF] c).
Proof. cbn. by rewrite andb_false_r. Qed.

Lemma token_wsp b c : is_relaxed (bc_mode c) && is_wsp b = true -> token_step (Octet b) c = ([], set_wsp true c).
Proof. intros H. cbn [token_step]. by rewrite H. Qed.
Lemma token_plain b c : is_relaxed (bc_mode c) && is_wsp b = false -> token_step (Octet b) c = flat (content [b] c).
Proof. intros H. cbn [token_step]. by rewrite H. Qed.

Lemma byte_step_tokens b l c :
  then_ (byte_step b c) (fun c' => run_tokens (tokens (bc_cr c') l) (set_cr false c')) =
  run_tokens (tokens (bc_cr c) (b :: l)) (set_cr false c).
Proof.
  destruct c as [m k cr w e d]. cbn [bc_cr tokens]. unfold byte_step, special, special_byte. cbn [bc_mode bc_cr].
  destruct (Z.eqb_spec b LF) as [->|HLF].
  - change (LF =? CR) with false. cbn [orb]. destruct cr; cbn [run_tokens]; [done|].
    by rewrite token_LF.
  - destruct (Z.eqb_spec b CR) as [->|HCR]; cbn [orb].
    + destruct cr; cbn [app run_tokens]; rewrite ?token_CR; unfold flush_cr, flat, content; cbn -[then_ CRLF concat]; by rewrite ?ret_then.
    + unfold flush_cr. cbn [bc_cr]. destruct (is_relaxed m && is_wsp b) eqn:Ew.
      * destruct cr; cbn [app run_tokens]; rewrite ?token_CR; unfold then_; cbn [fst snd flat content];
          rewrite token_wsp by done; cbn -[CRLF concat run_tokens]; by rewrite ?app_nil_r.
      * destruct cr; cbn [app run_tokens]; rewrite ?token_CR; unfold then_; cbn [fst snd flat content];
          rewrite token_plain by done; cbn -[CRLF concat run_tokens]; by rewrite <- ?(assoc_L (++)).
Qed.

Lemma run_bytes_tokens l c :
  then_ (run_bytes l c) (fun c => flat (flush_cr c)) = run_tokens (tokens (bc_cr c) l) (set_cr false c).
Proof.
  revert c. induction l as [|b l IH]; intros c.
  { cbn [run_bytes tokens]. rewrite ret_then. unfold flush_cr. destruct (bc_cr c) eqn:E; cbn [run_tokens].
    - by rewrite token_CR, then_ret.
    - destruct c. cbn in E. by subst. }
  cbn [run_bytes]. rewrite then_assoc, <- byte_step_tokens. by apply then_ext.
Qed.

(** ** Tokens to lines *)

Definition line_tokens (ls : list bytes) : list token :=
  match ls with
  | [] => []
  | l :: ls => (Octet <$> l) ++ concat ((fun l => Eol :: (Octet <$> l)) <$> ls)
  end.

Lemma crlf_lines_ne l : crlf_lines l <> [].
Proof. destruct l as [|x [|y t]]; cbn; [done..|]. by repeat case_match. Qed.

Lemma crlf_lines_cons x l : (x <> CR \/ forall t, l <> LF :: t) ->
  crlf_lines (x :: l) = match crlf_lines l with p :: ps => (x :: p) :: ps | [] => [[x]] end.
Proof.
  intros H. destruct l as [|y t]; [done|]. change (crlf_lines (x :: y :: t)) with
    (if (x =? CR) && (y =? LF) then [] :: crlf_lines t
     else match crlf_lines (y :: t) with p :: ps => (x :: p) :: ps | [] => [[x]] end).
  replace ((x =? CR) && (y =? LF)) with false; [done|].
  destruct (Z.eqb_spec x CR) as [->|], (Z.eqb_spec y LF) as [->|]; naive_solver.
Qed.

Lemma line_tokens_cons x l : (x <> CR \/ forall t, l <> LF :: t) ->
  line_tokens (crlf_lines (x :: l)) = Octet x :: line_tokens (crlf_lines l).
Proof.
  intros H. rewrite crlf_lines_cons by done. pose proof (crlf_lines_ne l). by destruct (crlf_lines l).
Qed.

Lemma line_tokens_eol l : line_tokens ([] :: crlf_lines l) = Eol :: line_tokens (crlf_lines l).
Proof. cbn. pose proof (crlf_lines_ne l). by destruct (crlf_lines l). Qed.

Lemma tokens_lines l :
  tokens false l = line_tokens (crlf_lines l) /\ tokens true l = line_tokens (crlf_lines (CR :: l)).
Proof.
  induction l as [|b l [IH1 IH2]]; [done|]. cbn [tokens]. destruct (Z.eqb_spec b LF) as [->|HLF].
  - split; [rewrite line_tokens_cons by auto; by rewrite IH1|].
    change (crlf_lines (CR :: LF :: l)) with ([] :: crlf_lines l). by rewrite line_tokens_eol, IH1.
  - rewrite (line_tokens_cons CR) by (right; congruence). destruct (Z.eqb_spec b CR) as [->|HCR]; [by rewrite IH2|].
    rewrite line_tokens_cons by auto. by rewrite IH1.
Qed.

(** One line, with a whitespace run before it pending when [w]. *)
Fixpoint reduce_wsp (w : bool) (l : bytes) : bytes :=
  match l with
  | [] => []
  | b :: l => if is_wsp b then reduce_wsp true l else (if w then [SP] else []) ++ b :: reduce_wsp false l
  end.

Lemma dropEndWhile_app_stop f p b s : f b = false -> dropEndWhile f (p ++ b :: s) = p ++ b :: dropEndWhile f s.
Proof.
  intros Hb. unfold dropEndWhile. rewrite rev_app_distr. cbn [rev]. rewrite <- (assoc_L (++)). cbn [app].
  induction (rev s) as [|x t IH]; cbn [app dropWhile].
  - rewrite Hb. cbn [rev]. by rewrite rev_involutive.
  - destruct (f x); [done|]. cbn [rev]. rewrite !rev_app_distr. cbn [rev]. by rewrite rev_involutive, <- !(assoc_L (++)).
Qed.

Lemma reduce_wsp_spec w l :
  reduce_wsp w l = dropEndWhile is_wsp ((if w then [SP] else []) ++ collapseWsp w l).
Proof.
  revert w. induction l as [|b l IH]; intros w; cbn [reduce_wsp collapseWsp]; [by destruct w|].
  destruct (is_wsp b) eqn:E; [rewrite IH; by destruct w|]. rewrite dropEndWhile_app_stop by done.
  by rewrite (IH false).
Qed.

Definition reduce_line (m : Canonicalization) (w : bool) (l : bytes) : bytes :=
  match m with simple => l | relaxed => reduce_wsp w l end.

Abbreviation crlfs k := (concat (replicate k CRLF)).

Lemma run_line m k w e d l : (m = simple -> w = false) ->
  exists w', (m = simple -> w' = false) /\ run_tokens (Octet <$> l) (mkCanon m k false w e d) =
    match reduce_line m w l with
    | [] => ([], mkCanon m k false w' e d)
    | r => (crlfs k ++ r, mkCanon m 0 false w' true d)
    end.
Proof.
  revert k w e. induction l as [|b l IH]; intros k w e Hw; [|rewrite fmap_cons]; cbn [run_tokens].
  { exists w. split; [done|]. by destruct m. }
  destruct (is_relaxed m && is_wsp b) eqn:E.
  - rewrite token_wsp by done. rewrite ret_then. destruct m; [done|]. cbn [is_relaxed andb] in E.
    cbn [reduce_line reduce_wsp]. rewrite E. destruct (IH k true e) as (w' & Hw' & H); [done|]. exists w'. by split.
  - rewrite token_plain by done. unfold flat, content. cbn -[concat CRLF then_ run_tokens].
    destruct (IH 0%nat false true) as (w' & Hw' & H); [done|]. exists w'. split; [done|].
    unfold then_. cbn [fst snd]. rewrite H. rewrite !concat_app.
    assert (reduce_line m w (b :: l) = (if w then [SP] else []) ++ b :: reduce_line m false l) as ->.
    { destruct m; cbn [reduce_line reduce_wsp]; [by rewrite Hw|]. cbn [is_relaxed andb] in E. by rewrite E. }
    destruct w, (reduce_line m false l) as [|x t]; cbn -[concat CRLF]; by rewrite <- ?(assoc_L (++)).
Qed.

Fixpoint out_lines (k : nat) (ls : list bytes) : bytes :=
  match ls with
  | [] => []
  | l :: ls => match l with [] => out_lines (S k) ls | _ => crlfs k ++ l ++ out_lines 1 ls end
  end.

Lemma reduce_canon m l : reduce_line m false l = canon_line m l.
Proof. destruct m; [done|]. cbn. by rewrite reduce_wsp_spec. Qed.

Definition has_content (ls : list bytes) : bool := existsb (fun l => match l with [] => false | _ => true end) ls.

Lemma run_lines m ls : forall k e d, exists k' w', run_tokens (line_tokens ls) (mkCanon m k false false e d) =
  (out_lines k (canon_line m <$> ls), mkCanon m k' false w' (e || has_content (canon_line m <$> ls)) d).
Proof.
  induction ls as [|l ls IH]; intros k e d.
  { eexists _, _. cbn. by rewrite orb_false_r. }
  destruct (run_line m k false e d l) as (w' & _ & H); [done|]. rewrite reduce_canon in H.
  cbn [line_tokens]. rewrite run_tokens_app, H. csimpl.
  destruct ls as [|l2 ls].
  { csimpl. destruct (canon_line m l); eexists _, _; unfold then_; cbn -[concat CRLF]; by rewrite ?orb_false_r, ?app_nil_r, ?orb_true_r. }
  change (concat ((fun l => Eol :: (Octet <$> l)) <$> l2 :: ls)) with (Eol :: line_tokens (l2 :: ls)).
  cbn [run_tokens token_step]. cbn [out_lines has_content existsb]. fold (has_content (canon_line m <$> l2 :: ls)).
  destruct (canon_line m l) as [|x t]; unfold then_, end_line; cbn [fst snd end_line bc_mode bc_crlfRun bc_emittedContent bc_ended app].
  - destruct (IH (S k) e d) as (k' & w2 & ->). by eexists _, _.
  - destruct (IH 1%nat true d) as (k' & w2 & ->). eexists _, _. cbn [fst snd]. rewrite orb_true_r, <- (assoc_L (++)). done.
Qed.

Lemma drop_empty_end_content ls : has_content ls = true <-> drop_empty_end ls <> [].
Proof.
  induction ls as [|l ls IH]; [done|]. cbn. destruct l; [|by split]. cbn. fold (has_content ls).
  rewrite IH. by destruct (drop_empty_end ls).
Qed.

Lemma crlfs_snoc k : crlfs (S k) = crlfs k ++ CRLF.
Proof. induction k as [|k IH]; [done|]. cbn [replicate concat] in *. by rewrite <- (assoc_L (++)), <- IH. Qed.

Lemma out_lines_empty ls : has_content ls = false -> forall k, out_lines k ls = [].
Proof. induction ls as [|[|y t] ls IH]; intros E k; [done| |done]. cbn in *. by apply IH. Qed.

Lemma out_lines_spec ls : forall k, has_content ls = true ->
  out_lines k ls ++ CRLF = crlfs k ++ concat ((fun l => l ++ CRLF) <$> drop_empty_end ls).
Proof.
  induction ls as [|l ls IH]; intros k H; [done|]. cbn [has_content existsb] in H. fold (has_content ls) in H.
  cbn [out_lines drop_empty_end]. pose proof (drop_empty_end_content ls) as Hd.
  destruct l as [|x l].
  - cbn [orb] in H. rewrite IH by done. destruct (drop_empty_end ls) as [|y t]; [naive_solver|].
    rewrite crlfs_snoc, <- (assoc_L (++)). done.
  - destruct (has_content ls) eqn:E.
    + rewrite <- !(assoc_L (++)), IH by done. csimpl. by rewrite <- !(assoc_L (++)).
    + assert (drop_empty_end ls = []) as -> by (destruct (drop_empty_end ls); [done|naive_solver]).
      rewrite out_lines_empty by done. csimpl. by rewrite !app_nil_r, <- !(assoc_L (++)).
Qed.

(** ** Any chunking *)

Fixpoint canon_feed (chunks : list bytes) (c : BodyCanonicalizer) : option (list bytes * BodyCanonicalizer) :=
  match chunks with
  | [] => Some ([], c)
  | b :: chunks => '(o1, c) ← canon_update b c; '(o2, c) ← canon_feed chunks c; Some (o1 ++ o2, c)
  end.

Lemma canon_feed_bytes chunks : forall c, bc_ended c = false ->
  exists o c', canon_feed chunks c = Some (o, c') /\ (concat o, c') = run_bytes (concat chunks) c.
Proof.
  induction chunks as [|b chunks IH]; intros c Hc; [by eexists _, _|].
  destruct (canon_update_bytes b c Hc) as (o & c1 & E & H). cbn [canon_feed concat]. rewrite E.
  destruct (run_bytes_const b c) as [He _]. rewrite <- H in He. cbn [snd] in He.
  destruct (IH c1) as (o2 & c2 & E2 & H2); [congruence|]. cbn [mbind option_bind]. rewrite E2.
  eexists _, _. split; [done|]. rewrite run_bytes_app, <- H. unfold then_. cbn [fst snd].
  by rewrite <- H2, concat_app.
Qed.

Lemma canon_end_flush c : bc_ended c = false ->
  concat (canon_end c).1 = (flat (flush_cr c)).1 ++
    (if bc_emittedContent (flush_cr c).2 then CRLF
     else match bc_mode c with simple => CRLF | relaxed => [] end).
Proof.
  intros H. unfold canon_end. rewrite H. destruct c as [m k cr w e d]. unfold flush_cr. cbn [bc_cr].
  destruct cr; cbn -[CRLF concat].
  - by rewrite concat_app.
  - destruct e; cbn; [done|]. by destruct m.
Qed.

Lemma canon_stream mode chunks :
  exists o c, canon_feed chunks (newCanonicalizer mode) = Some (o, c) /\ bc_ended c = false /\
    concat (o ++ (canon_end c).1) = canon_spec mode (concat chunks).
Proof.
  destruct (canon_feed_bytes chunks (newCanonicalizer mode) eq_refl) as (o & c & E & H).
  destruct (run_bytes_const (concat chunks) (newCanonicalizer mode)) as [He Hm]. rewrite <- H in He, Hm. cbn in He, Hm.
  exists o, c. split_and!; [done|done|]. rewrite concat_app, canon_end_flush by done. rewrite (assoc_L (++)).
  pose proof (run_bytes_tokens (concat chunks) (newCanonicalizer mode)) as Ht. rewrite <- H in Ht.
  cbn [bc_cr newCanonicalizer] in Ht. rewrite (proj1 (tokens_lines _)) in Ht.
  destruct (run_lines mode (crlf_lines (concat chunks)) 0 false false) as (k' & w' & Hl).
  change (set_cr false (newCanonicalizer mode)) with (mkCanon mode 0 false false false false) in Ht. rewrite Hl in Ht.
  unfold then_ in Ht. cbn [fst snd] in Ht. injection Ht as Ht1 Ht2. change (flat (flush_cr c)).1 with (concat (flush_cr c).1). rewrite Ht1, Ht2, Hm. cbn [bc_emittedContent orb].
  unfold canon_spec. set (ls := canon_line mode <$> _). destruct (has_content ls) eqn:Ec.
  - rewrite out_lines_spec by done. apply drop_empty_end_content in Ec. by destruct (drop_empty_end ls).
  - rewrite out_lines_empty by done. pose proof (drop_empty_end_content ls) as Hd. rewrite Ec in Hd.
    destruct (drop_empty_end ls); [done|]. naive_solver.
Qed.

(** However a message body is cut into chunks, what the streaming canonicalizer pushes to its
    sink is the canonical body of RFC 6376: the lines between CRLFs, each reduced (relaxed: runs of
    white space collapsed, none at the end), without the empty lines at the end, each terminated;
    an empty body is a single CRLF (simple) or nothing (relaxed). *)
Theorem body_canonicalization mode chunks :
  exists o c, canon_feed chunks (newCanonicalizer mode) = Some (o, c) /\
    concat (o ++ (canon_end c).1) = canon_spec mode (concat chunks).
Proof. destruct (canon_stream mode chunks) as (o & c & H1 & _ & H2). by exists o, c. Qed.
