(* ===== verification/DkimMessage.v ===== *)
(** * DkimMessage: DKIM tag lists and message headers

    packages/auth-checks/src/dkim/tags.ts and message.ts: the tag=value lists of signatures and key
    records, the split of a message into header block and body (from one buffer, or from a stream
    of chunks), header fields and their selection by an h= list. A thrown [DkimError] is the left
    result; maps are insertion-ordered association lists. *)
From stdpp Require Import gmap.
From S2P Require Import Prelude JsString DkimCanon.

(** ** tags.ts *)

Definition is_fws (c : Z) : bool := (c =? SP) || (c =? HTAB) || (c =? CR) || (c =? LF).

(** [s.replace(FWS, '')]. *)
Definition trimFws (s : jsstr) : jsstr := dropEndWhile is_fws (dropWhile is_fws s).

Definition is_alpha (c : Z) : bool := isAlphaUpper c || isAlphaLower c.

(** [TAG_NAME.test(name)]. *)
Definition isTagName (s : jsstr) : bool :=
  match s with
  | [] => false
  | c :: t => is_alpha c && forallb (fun c => is_alpha c || is_digit c || (c =? 95)) t
  end.

Abbreviation TagMap := (list (jsstr * jsstr)).

Fixpoint tagGet (name : jsstr) (tags : TagMap) : option jsstr :=
  match tags with
  | [] => None
  | (n, v) :: tags => if bool_decide (n = name) then Some v else tagGet name tags
  end.

(** One turn of [parseTagList]'s loop; the tail says whether this is the last part. *)
Fixpoint parseTags_loop (parts : list jsstr) (tags : TagMap) : jsstr + TagMap :=
  match parts with
  | [] => inr tags
  | part :: parts' =>
      if bool_decide (trimFws part = []) then
        match parts' with [] => inr tags | _ => inl (js "empty tag in tag-list") end
      else
        match indexOf 61 part with
        | None => inl (js "tag without " ++ [34; 61; 34])
        | Some eq =>
            let name := trimFws (take eq part) in
            if negb (isTagName name) then inl (js "invalid tag name")
            else if bool_decide (is_Some (tagGet name tags)) then inl (js "duplicate tag " ++ name)
            else parseTags_loop parts' (tags ++ [(name, trimFws (drop (S eq) part))])
        end
  end.

Definition parseTagList (text : jsstr) : jsstr + TagMap := parseTags_loop (splitOn 59 text) [].

Definition stripWhitespace (value : jsstr) : jsstr := List.filter (fun c => negb (is_fws c)) value.

Definition splitColonList (value : jsstr) : list jsstr :=
  List.filter (fun s => negb (bool_decide (s = []))) (trimFws <$> splitOn 58 value).

(** The walk over the tag-specs; [offset] is where [part] starts in the value. *)
Fixpoint emptyB_loop (rawField : jsstr) (colon : nat) (parts : list jsstr) (offset : nat) : jsstr + jsstr :=
  match parts with
  | [] => inl (js "signature has no b= tag")
  | part :: parts =>
      let next := emptyB_loop rawField colon parts (offset + length part + 1)%nat in
      match indexOf 61 part with
      | Some eq =>
          if bool_decide (trimFws (take eq part) = js "b") then
            let start := (colon + 1 + offset + eq + 1)%nat in
            let end_ := (colon + 1 + offset + length part)%nat in
            inr (take start rawField ++ drop end_ rawField)
          else next
      | None => next
      end
  end.

Definition withEmptyB (rawField : jsstr) : jsstr + jsstr :=
  match indexOf 58 rawField with
  | None => inl (js "not a header field")
  | Some colon => emptyB_loop rawField colon (splitOn 59 (drop (S colon) rawField)) 0
  end.

(** ** message.ts *)

Definition DEFAULT_MAX_HEADER_BYTES : nat := Z.to_nat 1048576.

Record HeaderField := mkField { hf_name : jsstr; hf_key : jsstr; hf_raw : bytes }.

Record SplitMessage := mkSplit { sm_headerBlock : bytes; sm_fields : list HeaderField; sm_body : list bytes }.

Definition SEPARATOR : bytes := [CR; LF; CR; LF].

(** [buf.indexOf(pattern, from)] for [from <= buf.length]. *)
Fixpoint indexOfSub (pattern buf : bytes) : option nat :=
  if startsWith pattern buf then Some 0%nat
  else match buf with [] => None | _ :: buf => S <$> indexOfSub pattern buf end.
Definition indexOfFrom (pattern buf : bytes) (from : nat) : option nat :=
  (fun i => (from + i)%nat) <$> indexOfSub pattern (drop from buf).

(** The pair is [headEnd], [bodyStart]. *)
Definition findSeparator (buf : bytes) (from : nat) : option (nat * nat) :=
  if startsWith CRLF buf then Some (0%nat, 2%nat)
  else (fun i => (i + 2, i + 4)%nat) <$> indexOfFrom SEPARATOR buf from.

Definition makeField (raw : bytes) : HeaderField :=
  let name := match indexOf 58 raw with None => [] | Some colon => dropEndWhile is_wsp (take colon raw) end in
  mkField name (asciiLower name) raw.

Fixpoint fields_loop (fuel : nat) (block : bytes) (start pos : nat) : list HeaderField :=
  match fuel with
  | O => []
  | S fuel =>
      if (pos <? length block)%nat then
        let nl := indexOfFrom CRLF block pos in
        let lineEnd := default (length block) nl in
        let nextLine := match nl with None => length block | Some i => (i + 2)%nat end in
        let continues := match block !! nextLine with Some b => is_wsp b | None => false end in
        if continues then fields_loop fuel block start nextLine
        else makeField (sub block start lineEnd) :: fields_loop fuel block nextLine nextLine
      else []
  end.

(** Every turn moves past a CRLF or to the end. *)
Definition parseHeaderFields (block : bytes) : list HeaderField := fields_loop (S (length block)) block 0 0.

(** [None] is the thrown [HeaderTooLargeError]. *)
Definition cut (buf : bytes) (max : nat) : option (bytes * bytes) :=
  match findSeparator buf 0 with
  | None => if (max <? length buf)%nat then None else Some (buf, [])
  | Some (headEnd, bodyStart) => if (max <? headEnd)%nat then None else Some (take headEnd buf, drop bodyStart buf)
  end.

(** Chunks that carry nothing are not yielded. *)
Definition nonEmpty (chunks : list bytes) : list bytes := List.filter (fun c => negb (bool_decide (c = []))) chunks.

Definition splitBuffer (buf : bytes) (max : nat) : option SplitMessage :=
  '(head, rest) ← cut buf max; Some (mkSplit head (parseHeaderFields head) (nonEmpty [rest])).

Fixpoint splitStream_loop (chunks : list bytes) (acc : bytes) (max : nat) : option SplitMessage :=
  match chunks with
  | [] => splitBuffer acc max
  | chunk :: chunks =>
      let searchFrom := (length acc - (length SEPARATOR - 1))%nat in
      let acc := acc ++ chunk in
      match findSeparator acc searchFrom with
      | None => if (max <? length acc)%nat then None else splitStream_loop chunks acc max
      | Some (headEnd, bodyStart) =>
          if (max <? headEnd)%nat then None
          else
            let head := take headEnd acc in
            Some (mkSplit head (parseHeaderFields head) (nonEmpty (drop bodyStart acc :: chunks)))
      end
  end.

Inductive MessageInput := WholeBuffer (buf : bytes) | Chunked (chunks : list bytes).

Definition splitMessage (input : MessageInput) (maxHeaderBytes : option nat) : option SplitMessage :=
  let max := default DEFAULT_MAX_HEADER_BYTES maxHeaderBytes in
  match input with
  | WholeBuffer buf => splitBuffer buf max
  | Chunked chunks => splitStream_loop chunks [] max
  end.

(** The inner loop of [selectHeaders], over the fields from the bottom up. *)
Fixpoint pick (fields : list HeaderField) (key : jsstr) (skip seen : nat) : option HeaderField :=
  match fields with
  | [] => None
  | f :: fields =>
      if negb (bool_decide (hf_key f = key)) then pick fields key skip seen
      else if Nat.eqb seen skip then Some f else pick fields key skip (S seen)
  end.

Fixpoint select_loop (fields : list HeaderField) (names : list jsstr) (used : gmap jsstr nat) : list HeaderField :=
  match names with
  | [] => []
  | n :: names =>
      let key := asciiLower (trim n) in
      let skip := default 0%nat (used !! key) in
      option_list (pick (rev fields) key skip 0) ++ select_loop fields names (<[key := S skip]> used)
  end.

Definition selectHeaders (fields : list HeaderField) (names : list jsstr) : list HeaderField :=
  select_loop fields names ∅.
