(* ===== verification/DkimSign.v ===== *)
(** * DkimSign: the DKIM signer and the local verifier

    packages/auth-checks/src/dkim/header-hash.ts, sign.ts and verify-local.ts, with the key checks of
    keys.ts that they use. Node's cryptography is a parameter ([DkimCrypto]): key objects with the
    attributes the code reads, [crypto.sign], [crypto.verify], and the base64 decoder on texts that
    are not well-formed base64 ([base64_lenient]). A thrown error is the left result. *)
From S2P Require Import Prelude JsString Base64 DkimCanon DkimMessage.

(** ** Keys and algorithms *)

Inductive DkimAlgorithm := Rsa_sha256 | Ed25519_sha256.
#[export] Instance DkimAlgorithm_eq_dec : EqDecision DkimAlgorithm.
Proof. solve_decision. Defined.

Definition algorithm_name (a : DkimAlgorithm) : jsstr :=
  match a with Rsa_sha256 => js "rsa-sha256" | Ed25519_sha256 => js "ed25519-sha256" end.

Definition keyTypeFor (a : DkimAlgorithm) : jsstr :=
  match a with Rsa_sha256 => js "rsa" | Ed25519_sha256 => js "ed25519" end.

Definition RSA_MODULUS_BITS : Z := 2048.

Class DkimCrypto := {
  KeyObject : Type;
  key_private : KeyObject -> bool;
  asymmetricKeyType : KeyObject -> jsstr;
  modulusLength : KeyObject -> Z;
  crypto_sign : option jsstr -> bytes -> KeyObject -> bytes;
  crypto_verify : option jsstr -> bytes -> KeyObject -> bytes -> jsstr + bool;
  base64_lenient : jsstr -> bytes
}.

Section dkim.
Context `{R : Runtime} `{H : Sha256} `{C : DkimCrypto}.

(** [Buffer.from(s, 'base64')]. *)
Definition base64_decode (s : jsstr) : bytes :=
  match base64_strict s with Some b => b | None => base64_lenient s end.

Definition assertKeyType (key : KeyObject) (a : DkimAlgorithm) : option jsstr :=
  if bool_decide (asymmetricKeyType key = keyTypeFor a) then None
  else Some (algorithm_name a ++ js " needs a " ++ keyTypeFor a ++ js " key").

(** ** header-hash.ts *)

Definition headerHashInput (fields : list HeaderField) (hNames : list jsstr) (signatureField : jsstr)
    (mode : Canonicalization) : bytes :=
  concat ((fun f => canonicalizeHeader (hf_raw f) mode ++ CRLF) <$> selectHeaders fields hNames) ++
  canonicalizeHeader signatureField mode.

Definition signHeaderData (a : DkimAlgorithm) (privateKey : KeyObject) (data : bytes) : bytes :=
  match a with
  | Rsa_sha256 => crypto_sign (Some (js "sha256")) data privateKey
  | Ed25519_sha256 => crypto_sign None (sha256 data) privateKey
  end.

Definition verifyHeaderData (a : DkimAlgorithm) (publicKey : KeyObject) (data signature : bytes) : jsstr + bool :=
  match a with
  | Rsa_sha256 => crypto_verify (Some (js "sha256")) data publicKey signature
  | Ed25519_sha256 => crypto_verify None (sha256 data) publicKey signature
  end.

(** ** sign.ts *)

Record DkimSigningKey := mkSigningKey { sk_selector : jsstr; sk_algorithm : DkimAlgorithm; sk_privateKey : KeyObject }.

Record SignOptions := mkSignOptions {
  so_domain : jsstr;
  so_keys : list DkimSigningKey;
  so_headers : option (list jsstr);
  so_now : Z;  (* milliseconds: [options.now], or the clock *)
  so_canonicalization : option (Canonicalization * Canonicalization);
  so_maxHeaderBytes : option nat
}.

Definition DEFAULT_SIGNED_HEADERS : list jsstr :=
  [js "from"; js "to"; js "cc"; js "subject"; js "date"; js "reply-to"; js "in-reply-to"; js "references";
   js "mime-version"; js "content-type"; js "content-transfer-encoding"; js "list-unsubscribe";
   js "list-unsubscribe-post"; js "feedback-id"].

Definition MAX_LINE : nat := 78.

Definition is_alnum (c : Z) : bool := is_alpha c || is_digit c.

Definition isDomainLabel (l : jsstr) : bool :=
  negb (bool_decide (l = [])) && (length l <=? 63)%nat && forallb (fun c => is_alnum c || (c =? 45)) l &&
  match l with c :: _ => is_alnum c | [] => false end &&
  match rev l with c :: _ => is_alnum c | [] => false end.

(** [DOMAIN.test(s)]. *)
Definition isDomainName (s : jsstr) : bool :=
  (1 <=? length s)%nat && (length s <=? 253)%nat && forallb isDomainLabel (splitOn DOT s).

Fixpoint checkKeys (keys : list DkimSigningKey) : option jsstr :=
  match keys with
  | [] => None
  | k :: keys =>
      if negb (isDomainName (sk_selector k)) then Some (js "invalid selector")
      else if negb (key_private (sk_privateKey k)) then
        Some (algorithm_name (sk_algorithm k) ++ js " key is not a private key")
      else
        match assertKeyType (sk_privateKey k) (sk_algorithm k) with
        | Some e => Some e
        | None =>
            match sk_algorithm k with
            | Rsa_sha256 =>
                if modulusLength (sk_privateKey k) <? RSA_MODULUS_BITS
                then Some (js "RSA key must be at least 2048 bits") else checkKeys keys
            | Ed25519_sha256 => checkKeys keys
            end
        end
  end.

Definition count (name : jsstr) (present : list jsstr) : nat :=
  length (List.filter (fun k => bool_decide (k = name)) present).

Fixpoint names_loop (present configured seen : list jsstr) : list jsstr :=
  match configured with
  | [] => []
  | raw :: configured =>
      let name := toLowerCase (trim raw) in
      if bool_decide (name ∈ seen) || bool_decide (58 ∈ name) || bool_decide (name = [])
      then names_loop present configured seen
      else replicate (count name present) name ++ names_loop present configured (name :: seen)
  end.

Definition signedHeaderNames (present configured : list jsstr) : jsstr + list jsstr :=
  let fromCount := count (js "from") present in
  if Nat.eqb fromCount 0 then inl (js "message has no From header")
  else inr (replicate (fromCount + 1) (js "from") ++ names_loop present configured [js "from"]).

Record Folder := mkFolder { fo_text : jsstr; fo_lineLen : nat }.

Definition newFolder (prefix : jsstr) : Folder := mkFolder prefix (length prefix).

Definition FOLD : jsstr := [CR; LF; HTAB].

Definition folder_add (piece sep : jsstr) (f : Folder) : Folder :=
  if (MAX_LINE <? fo_lineLen f + length sep + length piece)%nat then
    mkFolder (fo_text f ++ FOLD ++ piece) (1 + length piece)
  else mkFolder (fo_text f ++ sep ++ piece) (fo_lineLen f + (length sep + length piece)).

(** Every turn takes at least one unit: [fuel] is the length of the value. *)
Fixpoint splittable_loop (fuel : nat) (rest : jsstr) (f : Folder) : Folder :=
  match fuel with
  | O => f
  | S fuel =>
      if (0 <? length rest)%nat then
        let full := (MAX_LINE <=? fo_lineLen f)%nat in
        let f := if full then mkFolder (fo_text f ++ FOLD) 1 else f in
        let room := (MAX_LINE - fo_lineLen f)%nat in
        let part := take room rest in
        splittable_loop fuel (drop (length part) rest) (mkFolder (fo_text f ++ part) (fo_lineLen f + length part))
      else f
  end.

Definition folder_addSplittable (value : jsstr) (f : Folder) : Folder := splittable_loop (length value) value f.

Definition canon_name (m : Canonicalization) : jsstr :=
  match m with simple => js "simple" | relaxed => js "relaxed" end.

(** The pieces of h=: [first] marks the one that carries the tag name. *)
Fixpoint add_names (names : list jsstr) (first : bool) (f : Folder) : Folder :=
  match names with
  | [] => f
  | name :: names =>
      let last := match names with [] => true | _ => false end in
      add_names names false
        (folder_add ((if first then js "h=" else []) ++ name ++ (if last then js ";" else js ":"))
           (if first then js " " else []) f)
  end.

(** The signature field up to and including [b=]. *)
Definition unsigned_field (hc bc : Canonicalization) (domain : jsstr) (key : DkimSigningKey) (t : Z)
    (hNames : list jsstr) (bh : jsstr) : Folder :=
  let f := newFolder (js "DKIM-Signature: ") in
  let f := folder_add (js "v=1;") [] f in
  let f := folder_add (js "a=" ++ algorithm_name (sk_algorithm key) ++ js ";") (js " ") f in
  let f := folder_add (js "c=" ++ canon_name hc ++ js "/" ++ canon_name bc ++ js ";") (js " ") f in
  let f := folder_add (js "d=" ++ domain ++ js ";") (js " ") f in
  let f := folder_add (js "s=" ++ sk_selector key ++ js ";") (js " ") f in
  let f := folder_add (js "t=" ++ dec t ++ js ";") (js " ") f in
  let f := add_names hNames true f in
  let f := folder_add (js "bh=" ++ bh ++ js ";") (js " ") f in
  folder_add (js "b=") (js " ") f.

Definition sign_with (fields : list HeaderField) (hc bc : Canonicalization) (domain : jsstr) (t : Z)
    (hNames : list jsstr) (bh : jsstr) (key : DkimSigningKey) : jsstr :=
  let folder := unsigned_field hc bc domain key t hNames bh in
  let data := headerHashInput fields hNames (fo_text folder) hc in
  let b := base64_encode (signHeaderData (sk_algorithm key) (sk_privateKey key) data) in
  fo_text (folder_addSplittable b folder) ++ CRLF.

Definition rank (a : DkimAlgorithm) : Z := match a with Ed25519_sha256 => 0 | Rsa_sha256 => 1 end.

(** A stable sort on the two ranks. *)
Definition ordered (keys : list DkimSigningKey) : list DkimSigningKey :=
  List.filter (fun k => rank (sk_algorithm k) =? 0) keys ++ List.filter (fun k => rank (sk_algorithm k) =? 1) keys.

Fixpoint feed_hasher (chunks : list bytes) (h : BodyHasher) : option BodyHasher :=
  match chunks with [] => Some h | c :: chunks => h ← hasher_update c h; feed_hasher chunks h end.

Definition tooLarge (max : option nat) : jsstr :=
  js "header block exceeds " ++ dec (Z.of_nat (default DEFAULT_MAX_HEADER_BYTES max)) ++ js " bytes".

Definition signMessage (message : MessageInput) (options : SignOptions) : jsstr + list jsstr :=
  if negb (isDomainName (so_domain options)) then inl (js "invalid signing domain")
  else if bool_decide (so_keys options = []) then inl (js "no signing keys")
  else
    match checkKeys (so_keys options) with
    | Some e => inl e
    | None =>
        let '(hc, bc) := default (relaxed, relaxed) (so_canonicalization options) in
        match splitMessage message (so_maxHeaderBytes options) with
        | None => inl (tooLarge (so_maxHeaderBytes options))
        | Some split =>
            match signedHeaderNames (hf_key <$> sm_fields split) (default DEFAULT_SIGNED_HEADERS (so_headers options)) with
            | inl e => inl e
            | inr hNames =>
                match newHasher bc None ≫= feed_hasher (sm_body split) with
                | None => inl (js "BodyCanonicalizer: update after end")
                | Some hasher =>
                    let bh := base64_encode (hasher_digest hasher).1 in
                    let t := so_now options / 1000 in
                    inr (sign_with (sm_fields split) hc bc (so_domain options) t hNames bh <$> ordered (so_keys options))
                end
            end
        end
    end.

(** ** verify-local.ts *)

Inductive VerifyOutcome := Pass | Fail | Permerror.

Record LocalVerifyResult := mkVerify {
  vr_result : VerifyOutcome;
  vr_id : option (jsstr * jsstr * DkimAlgorithm);  (* domain, selector, algorithm *)
  vr_reason : option jsstr
}.

Record ParsedSignature := mkParsed {
  ps_raw : jsstr;
  ps_algorithm : DkimAlgorithm;
  ps_domain : jsstr;
  ps_selector : jsstr;
  ps_headerCanon : Canonicalization;
  ps_bodyCanon : Canonicalization;
  ps_signedHeaders : list jsstr;
  ps_bodyHash : bytes;
  ps_signature : bytes;
  ps_length : option Z
}.

Definition need (tags : TagMap) (name : jsstr) : jsstr + jsstr :=
  match tagGet name tags with
  | None | Some [] => inl (js "missing " ++ name ++ js "= tag")
  | Some v => inr v
  end.

Abbreviation bind_error x f := (match x with inl e => inl e | inr v => f v end) (only parsing).

Definition parse_algorithm (a : jsstr) : option DkimAlgorithm :=
  if bool_decide (a = js "rsa-sha256") then Some Rsa_sha256
  else if bool_decide (a = js "ed25519-sha256") then Some Ed25519_sha256 else None.

(** The l= tag: absent, or at most 76 digits and a safe integer. *)
Definition parse_length (l : option jsstr) : jsstr + option Z :=
  match l with
  | None => inr None
  | Some l =>
      if negb ((1 <=? length l)%nat && (length l <=? 76)%nat && forallb is_digit l) then inl (js "invalid l=")
      else if negb (isSafeInteger (Number l)) then inl (js "l= too large")
      else inr (Some (Number l))
  end.

Definition parseSignatureField (raw : jsstr) : jsstr + ParsedSignature :=
  match indexOf 58 raw with
  | None => inl (js "not a header field")
  | Some colon =>
      bind_error (parseTagList (drop (S colon) raw)) (fun tags =>
      bind_error (need tags (js "v")) (fun v =>
      if negb (bool_decide (v = js "1")) then inl (js "unsupported v=") else
      bind_error (need tags (js "a")) (fun a =>
      match parse_algorithm (toLowerCase a) with
      | None => inl (js "unsupported a=")
      | Some alg =>
          match parseCanonicalization (tagGet (js "c") tags) with
          | None => inl (js "unsupported c=")
          | Some (hc, bc) =>
              bind_error (need tags (js "h")) (fun h =>
              let signedHeaders := splitColonList h in
              if negb (existsb (fun h => bool_decide (toLowerCase h = js "from")) signedHeaders)
              then inl (js "h= does not include From") else
              bind_error (parse_length (tagGet (js "l") tags)) (fun len =>
              bind_error (need tags (js "d")) (fun d =>
              bind_error (need tags (js "s")) (fun s =>
              bind_error (need tags (js "bh")) (fun bh =>
              bind_error (need tags (js "b")) (fun b =>
              inr (mkParsed raw alg d s hc bc signedHeaders (base64_decode (stripWhitespace bh))
                     (base64_decode (stripWhitespace b)) len)))))))
          end
      end)))
  end.

Definition hasherKey (s : ParsedSignature) : jsstr :=
  canon_name (ps_bodyCanon s) ++ js ":" ++ match ps_length s with Some l => dec l | None => [] end.

Abbreviation Hashers := (list (jsstr * BodyHasher)).

Fixpoint hasherGet (k : jsstr) (hs : Hashers) : option BodyHasher :=
  match hs with [] => None | (k', h) :: hs => if bool_decide (k' = k) then Some h else hasherGet k hs end.

(** [None] is a thrown [RangeError]. *)
Fixpoint make_hashers (ps : list (LocalVerifyResult + ParsedSignature)) (hs : Hashers) : option Hashers :=
  match ps with
  | [] => Some hs
  | inl _ :: ps => make_hashers ps hs
  | inr p :: ps =>
      match hasherGet (hasherKey p) hs with
      | Some _ => make_hashers ps hs
      | None => h ← newHasher (ps_bodyCanon p) (ps_length p); make_hashers ps (hs ++ [(hasherKey p, h)])
      end
  end.

Definition verify_one (fields : list HeaderField) (keys : jsstr -> option KeyObject) (hashers : Hashers)
    (p : LocalVerifyResult + ParsedSignature) : jsstr + LocalVerifyResult :=
  match p with
  | inl r => inr r
  | inr p =>
      let id := Some (ps_domain p, ps_selector p, ps_algorithm p) in
      match hasherGet (hasherKey p) hashers with
      | None => inr (mkVerify Permerror id (Some (js "internal: no body hasher")))
      | Some hasher =>
          let '(digest, hasher) := hasher_digest hasher in
          if match ps_length p with Some l => l >? canonicalLength hasher | None => false end
          then inr (mkVerify Fail id (Some (js "l= exceeds the canonical body length")))
          else if negb (bool_decide (digest = ps_bodyHash p))
          then inr (mkVerify Fail id (Some (js "body hash did not verify")))
          else
            match keys (ps_selector p) with
            | None => inr (mkVerify Permerror id (Some (js "no key for selector")))
            | Some key =>
                if negb (bool_decide (asymmetricKeyType key = keyTypeFor (ps_algorithm p)))
                then inr (mkVerify Permerror id (Some (js "key type does not match a=")))
                else
                  bind_error (withEmptyB (ps_raw p)) (fun emptied =>
                  let data := headerHashInput fields (ps_signedHeaders p) emptied (ps_headerCanon p) in
                  match verifyHeaderData (ps_algorithm p) key data (ps_signature p) with
                  | inl e => inr (mkVerify Fail id (Some (js "signature did not verify (" ++ e ++ js ")")))
                  | inr true => inr (mkVerify Pass id None)
                  | inr false => inr (mkVerify Fail id (Some (js "signature did not verify")))
                  end)
            end
      end
  end.

Fixpoint collect {A} (l : list (jsstr + A)) : jsstr + list A :=
  match l with
  | [] => inr []
  | inl e :: _ => inl e
  | inr a :: l => match collect l with inl e => inl e | inr r => inr (a :: r) end
  end.

Definition is_signature (f : HeaderField) : bool := bool_decide (hf_key f = js "dkim-signature").

Definition parsed_signatures (fields : list HeaderField) : list (LocalVerifyResult + ParsedSignature) :=
  (fun f => match parseSignatureField (hf_raw f) with
            | inl e => inl (mkVerify Permerror None (Some e))
            | inr p => inr p
            end) <$> List.filter is_signature fields.

(** The digest of a hasher is computed once and then kept; as it does not depend on the other
    signatures, every signature reads it from the hashers as they are after the body. *)
Definition verifyLocal (message : MessageInput) (keys : jsstr -> option KeyObject) (maxHeaderBytes : option nat)
  : jsstr + list LocalVerifyResult :=
  match splitMessage message maxHeaderBytes with
  | None => inl (tooLarge maxHeaderBytes)
  | Some split =>
      let parsed := parsed_signatures (sm_fields split) in
      match make_hashers parsed [] ≫= mapM (fun '(k, h) => h ← feed_hasher (sm_body split) h; Some (k, h)) with
      | None => inl (js "body length limit must be a non-negative integer")
      | Some hashers => collect (verify_one (sm_fields split) keys hashers <$> parsed)
      end
  end.
End dkim.
