(* ===== verification/DkimSignFacts.v ===== *)
(** * DkimSignFacts: lemmas on the body hasher, folding and header blocks *)
From stdpp Require Import gmap.
From S2P Require Import Prelude JsString JsStringFacts Base64 DkimCanon DkimCanonProofs DkimMessage DkimSign.

(** ** The hasher *)

Definition limited (limit : option Z) (b : bytes) : bytes :=
  match limit with None => b | Some l => take (Z.to_nat l) b end.

Lemma take_take_app {A} n (a b : list A) : take n (take n a ++ b) = take n (a ++ b).
Proof.
  destruct (decide (n <= length a)%nat).
  - rewrite !take_app_le; [by rewrite take_take, Nat.min_id|done|rewrite length_take; lia].
  - by rewrite (take_ge a) by lia.
Qed.

Definition hasher_ok (h : BodyHasher) : Prop :=
  bh_result h = None /\ bc_ended (bh_canon h) = false /\
  match bh_limit h with None => True | Some l => 0 <= l /\ bh_hashed h = Z.of_nat (length (bh_hash h)) /\ bh_hashed h <= l end.

Lemma hasher_sink_fold o : forall h, hasher_ok h ->
  let h' := fold_left hasher_sink o h in
  hasher_ok h' /\ bh_limit h' = bh_limit h /\ bh_canon h' = bh_canon h /\
  bh_hash h' = limited (bh_limit h) (bh_hash h ++ concat o) /\
  bh_total h' = bh_total h + Z.of_nat (length (concat o)).
Proof.
  induction o as [|c o IH]; intros h Hh; cbn [fold_left concat].
  { rewrite app_nil_r, Z.add_0_r. destruct Hh as (H1 & H2 & H3). split_and!; try done.
    unfold limited. destruct (bh_limit h); [|done]. rewrite take_ge; [done|lia]. }
  destruct Hh as (H1 & H2 & H3).
  assert (hasher_ok (hasher_sink h c) /\ bh_limit (hasher_sink h c) = bh_limit h /\ bh_canon (hasher_sink h c) = bh_canon h /\
    bh_hash (hasher_sink h c) = limited (bh_limit h) (bh_hash h ++ c) /\
    bh_total (hasher_sink h c) = bh_total h + Z.of_nat (length c)) as (S1 & S2 & S3 & S4 & S5).
  { unfold hasher_sink. destruct (bh_limit h) as [l|] eqn:El; cbn [limited].
    - destruct H3 as (Hl & Hh & Hle). destruct (Z.leb_spec (l - bh_hashed h) 0) as [Hr|Hr].
      + unfold hasher_ok. cbn. split_and!; try done. rewrite take_app_le by lia. rewrite take_ge by lia. done.
      + destruct (Z.leb_spec (Z.of_nat (length c)) (l - bh_hashed h)) as [Hc|Hc]; unfold hasher_ok; cbn;
          rewrite ?length_app, ?length_take; split_and!; try done; try lia.
        * rewrite take_ge; [done|rewrite length_app; lia].
        * rewrite take_app_ge by lia. do 2 f_equal. lia.
    - unfold hasher_ok. cbn. done. }
  destruct (IH _ S1) as (I1 & I2 & I3 & I4 & I5). split_and!; [done|congruence|congruence| |].
  - rewrite I4, S2, S4. unfold limited. destruct (bh_limit h) as [l|]; [|by rewrite (assoc_L (++))].
    by rewrite take_take_app, (assoc_L (++)).
  - rewrite I5, S5, length_app. lia.
Qed.

Lemma feed_hasher_spec chunks : forall h, hasher_ok h ->
  exists o c h', canon_feed chunks (bh_canon h) = Some (o, c) /\ feed_hasher chunks h = Some h' /\
    hasher_ok h' /\ bh_canon h' = c /\ bh_limit h' = bh_limit h /\
    bh_hash h' = limited (bh_limit h) (bh_hash h ++ concat o) /\
    bh_total h' = bh_total h + Z.of_nat (length (concat o)).
Proof.
  induction chunks as [|b chunks IH]; intros h Hh.
  { exists [], (bh_canon h), h. cbn. rewrite app_nil_r, Z.add_0_r. split_and!; try done.
    destruct Hh as (_ & _ & H3). unfold limited. destruct (bh_limit h); [|done]. rewrite take_ge; [done|lia]. }
  pose proof Hh as (H1 & H2 & H3). destruct (canon_update_bytes b (bh_canon h) H2) as (o1 & c1 & E1 & R1).
  destruct (run_bytes_const b (bh_canon h)) as [He _]. rewrite <- R1 in He. cbn [snd] in He.
  destruct (hasher_sink_fold o1 h Hh) as (S1 & S2 & S3 & S4 & S5).
  set (h1 := hasher_with o1 c1 h).
  assert (hasher_ok h1) as Hh1.
  { destruct S1 as (? & ? & ?). unfold h1, hasher_with, hasher_ok. cbn. split_and!; [done|congruence|done]. }
  destruct (IH h1 Hh1) as (o2 & c2 & h2 & F1 & F2 & F3 & F4 & F5 & F6 & F7).
  exists (o1 ++ o2), c2, h2. cbn [canon_feed feed_hasher]. unfold hasher_update. rewrite E1. cbn [mbind option_bind].
  fold h1. change (bh_canon h1) with c1 in F1. rewrite F1. cbn [mbind option_bind].
  change (bh_limit h1) with (bh_limit (fold_left hasher_sink o1 h)) in *.
  change (bh_hash h1) with (bh_hash (fold_left hasher_sink o1 h)) in *.
  change (bh_total h1) with (bh_total (fold_left hasher_sink o1 h)) in *.
  split_and!; try done; [congruence| |].
  - rewrite F6, S2, S4, concat_app. unfold limited. destruct (bh_limit h) as [l|]; [|by rewrite (assoc_L (++))].
    by rewrite take_take_app, (assoc_L (++)).
  - rewrite F7, S5, concat_app, length_app. lia.
Qed.

Lemma newHasher_ok mode limit h : newHasher mode limit = Some h -> hasher_ok h /\ h = mkHasher [] (newCanonicalizer mode) limit 0 0 None.
Proof.
  unfold newHasher, hasher_ok. intros Hn. destruct limit as [l|]; [|by inv Hn].
  destruct (negb (isSafeInteger l) || (l <? 0)) eqn:E; [done|]. inv Hn. apply orb_false_iff in E as [_ E]. cbn. split_and!; try done; lia.
Qed.

Lemma body_hash_spec `{Sha256} mode limit h0 chunks : newHasher mode limit = Some h0 ->
  exists h, feed_hasher chunks h0 = Some h /\
    (hasher_digest h).1 = sha256 (limited limit (canon_spec mode (concat chunks))) /\
    canonicalLength (hasher_digest h).2 = Z.of_nat (length (canon_spec mode (concat chunks))).
Proof.
  intros Hn. apply newHasher_ok in Hn as [Hok ->].
  destruct (feed_hasher_spec chunks _ Hok) as (o & c & h & F1 & F2 & F3 & F4 & F5 & F6 & F7).
  destruct (canon_stream mode chunks) as (o' & c' & E1 & E2 & E3).
  cbn [bh_canon bh_limit bh_hash bh_total app] in *. rewrite E1 in F1. injection F1 as -> ->.
  exists h. split; [done|]. unfold hasher_digest. destruct F3 as (G1 & G2 & G3). rewrite G1, F4.
  destruct (canon_end c) as [o2 c2] eqn:Ee. cbn [fst] in E3.
  destruct (hasher_sink_fold o2 h) as (S1 & S2 & S3 & S4 & S5); [done|].
  unfold canonicalLength, hasher_with. cbn [fst snd bh_hash bh_total]. split.
  - rewrite S4, F5, F6. f_equal. rewrite <- E3, concat_app. unfold limited. destruct limit; [|done].
    by rewrite take_take_app.
  - rewrite S5, F7, <- E3, concat_app, length_app. lia.
Qed.

(** ** Folded text *)

(** Text of one header field: CRLF only in front of a tab. *)
Inductive folded : jsstr -> Prop :=
| folded_nil : folded []
| folded_fold s : folded s -> folded (CR :: LF :: HTAB :: s)
| folded_char c s : c <> CR -> c <> LF -> folded s -> folded (c :: s).
#[local] Hint Constructors folded : core.

Lemma folded_app s t : folded s -> folded t -> folded (s ++ t).
Proof. induction 1; cbn; auto. Qed.

Lemma folded_plain s : Forall (fun c => c <> CR /\ c <> LF) s -> folded s.
Proof. induction 1 as [|c s [] _ IH]; auto. Qed.

Lemma folded_FOLD : folded FOLD.
Proof. by repeat constructor. Qed.

Lemma startsWith_CRLF s : startsWith CRLF s = true <-> exists t, s = CR :: LF :: t.
Proof. apply startsWith_spec. Qed.

(** The first CRLF that ends a line. *)
Lemma indexOfSub_plain p s t : (forall u v, s = u ++ v -> v <> [] -> startsWith p (v ++ t) = false) ->
  indexOfSub p (s ++ t) = (fun i => (length s + i)%nat) <$> indexOfSub p t.
Proof.
  induction s as [|c s IH]; intros Hs.
  { cbn. by destruct (indexOfSub p t). }
  cbn [app].
  change (indexOfSub p (c :: s ++ t)) with
    (if startsWith p (c :: s ++ t) then Some 0%nat else S <$> indexOfSub p (s ++ t)).
  pose proof (Hs [] (c :: s) eq_refl ltac:(done)) as H0. cbn [app] in H0. rewrite H0, IH.
  - by destruct (indexOfSub p t).
  - intros u v -> Hv. by apply (Hs (c :: u)).
Qed.

Lemma indexOfSub_hit p t : startsWith p t = true -> indexOfSub p t = Some 0%nat.
Proof. intros H. destruct t; cbn [indexOfSub]; by rewrite H. Qed.

(** [a] holds no CR: the next line end is behind it. *)
Lemma line_end a t : CR ∉ a -> indexOfSub CRLF (a ++ CR :: LF :: t) = Some (length a).
Proof.
  intros Ha. rewrite indexOfSub_plain.
  - rewrite indexOfSub_hit by (apply startsWith_CRLF; eauto). cbn. f_equal. lia.
  - intros u v -> Hv. destruct (startsWith CRLF _) eqn:E; [|done]. apply startsWith_CRLF in E as [w E].
    destruct v as [|x v]; [done|]. injection E as -> _. set_solver.
Qed.

Lemma folded_split s : folded s -> (CR ∉ s) \/ exists a t, s = a ++ CR :: LF :: HTAB :: t /\ CR ∉ a /\ folded t.
Proof.
  induction 1 as [|s Hs IH|c s Hc Hl Hs IH]; [left; set_solver| |].
  - right. exists [], s. split_and!; [done|set_solver|done].
  - destruct IH as [IH|(a & t & -> & Ha & Ht)]; [left; set_solver|].
    right. exists (c :: a), t. split_and!; [done|set_solver|done].
Qed.

Lemma lookup_drop_head {A} (l : list A) n x t : drop n l = x :: t -> l !! n = Some x.
Proof. apply drop_cons_lookup. Qed.

(** Whatever fuel covers the rest of the block. *)
Lemma fields_loop_fuel block : forall f1 f2 start pos,
  (length block - pos < f1)%nat -> (length block - pos < f2)%nat ->
  fields_loop f1 block start pos = fields_loop f2 block start pos.
Proof.
  induction f1 as [|f1 IH]; intros f2 start pos H1 H2; [lia|]. destruct f2 as [|f2]; [lia|]. cbn [fields_loop].
  destruct (Nat.ltb_spec pos (length block)) as [Hp|]; [|done].
  assert (pos < match indexOfFrom CRLF block pos with None => length block | Some i => (i + 2)%nat end)%nat.
  { unfold indexOfFrom. destruct (indexOfSub CRLF (drop pos block)); cbn; lia. }
  cbv zeta. set (nl := match indexOfFrom CRLF block pos with None => length block | Some i => (i + 2)%nat end) in *.
  destruct (match block !! nl with Some b => is_wsp b | None => false end); [|f_equal]; apply IH; lia.
Qed.

Lemma indexOfFrom_drop p block pos s : drop pos block = s -> indexOfFrom p block pos = (fun i => (pos + i)%nat) <$> indexOfSub p s.
Proof. by intros <-. Qed.

Definition no_wsp_head (s : bytes) : Prop := match s with c :: _ => is_wsp c = false | [] => True end.

(** One field: the folded text [s] from [pos], its CRLF, and something that does not continue it. *)
Lemma fields_loop_field block rest : forall s, folded s -> forall fuel start pos,
  drop pos block = s ++ CRLF ++ rest -> no_wsp_head rest -> (length block - pos < fuel)%nat ->
  exists fuel', (length block - (pos + length s + 2) < fuel')%nat /\
    fields_loop fuel block start pos =
      makeField (sub block start (pos + length s)) :: fields_loop fuel' block (pos + length s + 2) (pos + length s + 2).
Proof.
  intros s. induction s as [s IH] using (induction_ltof1 _ length). unfold ltof in IH.
  intros Hs fuel start pos Hd Hr Hf. destruct fuel as [|fuel]; [lia|]. cbn [fields_loop].
  assert (length block - pos = length s + 2 + length rest)%nat as Hlen.
  { rewrite <- length_drop, Hd, !length_app. cbn. lia. }
  destruct (Nat.ltb_spec pos (length block)) as [_|]; [|lia].
  destruct (folded_split s Hs) as [Hcr|(a & t & -> & Ha & Ht)].
  - rewrite (indexOfFrom_drop _ _ _ _ Hd). cbn [app CRLF] in *. rewrite line_end by done. cbn [fmap option_fmap option_map].
    cbn [default id]. exists fuel. split; [lia|].
    assert (drop (pos + length s + 2) block = rest) as Hrest.
    { rewrite <- Nat.add_assoc, <- drop_drop, Hd. change (s ++ CR :: LF :: rest) with (s ++ ([CR; LF] ++ rest)).
      by rewrite drop_app_add. }
    assert (match block !! (pos + length s + 2)%nat with Some b => is_wsp b | None => false end = false) as ->; [|done].
    destruct rest as [|x rest]; [|by rewrite (lookup_drop_head _ _ _ _ Hrest)].
    apply drop_nil_length in Hrest. rewrite lookup_ge_None_2 by lia. done.
  - rewrite (indexOfFrom_drop _ _ _ _ Hd). rewrite <- (assoc_L (++)) in Hd. cbn [app] in Hd.
    rewrite <- (assoc_L (++)). cbn [app]. rewrite line_end by done. cbn [fmap option_fmap option_map].
    cbn [default id]. rewrite length_app in *. cbn [length] in *.
    assert (drop (pos + length a + 2) block = (HTAB :: t) ++ CRLF ++ rest) as Hrest.
    { rewrite <- Nat.add_assoc, <- drop_drop, Hd. change (a ++ CR :: LF :: HTAB :: t ++ CRLF ++ rest) with (a ++ ([CR; LF] ++ HTAB :: t ++ CRLF ++ rest)).
      by rewrite drop_app_add. }
    rewrite (lookup_drop_head _ _ HTAB _ Hrest). cbn [is_wsp]. change (is_wsp HTAB) with true. cbn iota.
    destruct (IH (HTAB :: t) ltac:(rewrite ?length_app; cbn; lia) ltac:(by repeat constructor) fuel start (pos + length a + 2)%nat Hrest Hr)
      as (fuel' & Hf' & E); [lia|]. cbn [length] in *.
    exists fuel'. replace (pos + (length a + S (S (S (length t)))))%nat with (pos + length a + 2 + S (length t))%nat by lia.
    split; [done|exact E].
Qed.

Lemma sub_app_shift {A} (p l : list A) i j : sub (p ++ l) (length p + i) (length p + j) = sub l i j.
Proof. unfold sub. rewrite drop_app_add. f_equal. lia. Qed.

Lemma indexOfFrom_shift pat p block pos :
  indexOfFrom pat (p ++ block) (length p + pos) = (fun i => (length p + i)%nat) <$> indexOfFrom pat block pos.
Proof.
  unfold indexOfFrom. rewrite drop_app_add. destruct (indexOfSub pat (drop pos block)); cbn; [|done]. f_equal. lia.
Qed.

Lemma fields_loop_shift p block : forall fuel start pos,
  fields_loop fuel (p ++ block) (length p + start) (length p + pos) = fields_loop fuel block start pos.
Proof.
  induction fuel as [|fuel IH]; intros start pos; [done|]. cbn [fields_loop]. rewrite length_app, indexOfFrom_shift.
  replace (length p + pos <? length p + length block)%nat with (pos <? length block)%nat
    by (destruct (Nat.ltb_spec pos (length block)), (Nat.ltb_spec (length p + pos) (length p + length block)); lia || done).
  destruct (pos <? length block)%nat; [|done]. destruct (indexOfFrom CRLF block pos) as [i|]; cbn [fmap option_fmap option_map default id].
  - rewrite <- Nat.add_assoc, lookup_app_r, sub_app_shift by lia.
    replace (length p + (i + 2) - length p)%nat with (i + 2)%nat by lia. by rewrite !IH.
  - rewrite lookup_app_r, sub_app_shift by lia. replace (length p + length block - length p)%nat with (length block) by lia.
    by rewrite !IH.
Qed.

Lemma parseHeaderFields_cons s rest : folded s -> no_wsp_head rest ->
  parseHeaderFields (s ++ CRLF ++ rest) = makeField s :: parseHeaderFields rest.
Proof.
  intros Hs Hr. unfold parseHeaderFields at 1.
  destruct (fields_loop_field (s ++ CRLF ++ rest) rest s Hs (S (length (s ++ CRLF ++ rest))) 0 0) as (fuel & Hf & ->); [done|done|lia|].
  f_equal; [unfold sub; cbn [Nat.add]; rewrite Nat.sub_0_r, drop_0; by rewrite take_app_length|].
  replace (0 + length s + 2)%nat with (length (s ++ CRLF) + 0)%nat by (rewrite length_app; cbn; lia).
  rewrite (assoc_L (++)). rewrite fields_loop_shift. apply fields_loop_fuel; [|lia].
  rewrite !length_app in Hf. cbn in Hf. lia.
Qed.

(** ** The separator behind prepended fields *)

Lemma folded_no_separator s t : folded s -> startsWith CRLF t = false ->
  forall u v, s ++ CRLF = u ++ v -> v <> [] -> startsWith SEPARATOR (v ++ t) = false.
Proof.
  intros Hs Ht u v E Hv. destruct (startsWith SEPARATOR (v ++ t)) eqn:Hst; [|done].
  apply startsWith_spec in Hst as [w Hw]. exfalso.
  assert (forall s, folded s -> forall u v, s ++ CRLF = u ++ v -> v <> [] ->
    v ++ t = SEPARATOR ++ w -> False) as Hgen; [|by eapply Hgen].
  clear s u v E Hv Hs Hw. induction 1 as [|s Hs IH|c s Hc Hl Hs IH]; intros u v E Hv Hw.
  - destruct u as [|x u]; cbn in E.
    + subst v. cbn in Hw. injection Hw as ->. done.
    + injection E as <- E. destruct u as [|y u]; cbn in E.
      * subst v. done.
      * injection E as <- E. symmetry in E. apply app_eq_nil in E as [_ ->]. done.
  - destruct u as [|x u]; cbn in E.
    + subst v. done.
    + injection E as <- E. destruct u as [|y u]; cbn in E.
      * subst v. done.
      * injection E as <- E. destruct u as [|z u]; cbn in E; [by subst v|]. injection E as <- E. by eapply IH.
  - destruct u as [|x u]; cbn in E.
    + subst v. cbn in Hw. injection Hw as -> _. done.
    + injection E as <- E. by eapply IH.
Qed.

Lemma findSeparator_prepend s m : folded s -> s <> [] -> startsWith CRLF s = false -> startsWith CRLF m = false ->
  findSeparator (s ++ CRLF ++ m) 0 =
    (fun '(h, b) => (length s + 2 + h, length s + 2 + b)%nat) <$> findSeparator m 0.
Proof.
  intros Hs Hne Hc Hm. unfold findSeparator. rewrite Hm.
  assert (startsWith CRLF (s ++ CRLF ++ m) = false) as ->.
  { destruct (startsWith CRLF (s ++ CRLF ++ m)) eqn:E; [|done]. apply startsWith_CRLF in E as [t E].
    destruct Hs as [|s Hs|c s Hcr Hlf Hs]; [done|done|]. by injection E as ->. }
  unfold indexOfFrom. rewrite !drop_0. rewrite (assoc_L (++)), indexOfSub_plain.
  - destruct (indexOfSub SEPARATOR m) as [i|]; cbn [fmap option_fmap option_map]; [|done].
    rewrite length_app. cbn [length CRLF]. do 2 f_equal; lia.
  - intros u v E Hv. by eapply folded_no_separator.
Qed.
