(* ===== verification/DkimSignProofs.v ===== *)
(** * DkimSignProofs: what the signer writes, the verifier accepts

    The signature field the signer folds is read back by the tag parser, its b= value is removed to
    the very text that was signed, the prepended fields leave header selection and body unchanged;
    so with a matching key pair every added signature verifies. *)
From stdpp Require Import gmap.
From S2P Require Import Prelude JsString JsStringFacts Base64 DkimCanon DkimCanonProofs DkimMessage DkimSign DkimSignFacts.

(** ** Folding white space *)

Definition fws (g : jsstr) : Prop := Forall (fun c => is_fws c = true) g.

(** Text with no folding white space at either end. *)
Definition tight (s : jsstr) : Prop := trimFws s = s.

Lemma dropWhile_all f g s : Forall (fun c => f c = true) g -> dropWhile f (g ++ s) = dropWhile f s.
Proof. induction 1 as [|c g Hc _ IH]; [done|]. cbn. by rewrite Hc. Qed.

Lemma trimFws_gap g s : fws g -> trimFws (g ++ s) = trimFws s.
Proof. intros Hg. unfold trimFws. by rewrite dropWhile_all. Qed.

Lemma trim_none f s : Forall (fun c => f c = false) s -> dropEndWhile f (dropWhile f s) = s.
Proof.
  intros Hs. destruct (decide (s = [])) as [->|Hne]; [done|]. apply trimmed_id. split.
  - destruct Hs as [|c s Hc _]; [done|]. by eexists _, _.
  - destruct (exists_last Hne) as (t & c & ->). apply Forall_app in Hs as [_ Hc]. inv Hc. by eexists _, _.
Qed.

Lemma trimFws_none s : Forall (fun c => is_fws c = false) s -> tight s.
Proof. apply trim_none. Qed.

Lemma trimFws_ends c s d t : is_fws c = false -> is_fws d = false -> c :: s = t ++ [d] -> tight (c :: s).
Proof. intros Hc Hd E. apply trimmed_id. split; [by eexists _, _|]. rewrite E. by eexists _, _. Qed.

(** ** The tags of a list *)

Record tag_spec := mkTag { tg_gap : jsstr; tg_name : jsstr; tg_value : jsstr }.

Definition tag_text (t : tag_spec) : jsstr := tg_gap t ++ tg_name t ++ [61] ++ tg_value t.

Definition tag_ok (t : tag_spec) : Prop := fws (tg_gap t) /\ isTagName (tg_name t) = true.

Lemma tag_name_chars n : isTagName n = true -> n <> [] /\ Forall (fun c => is_fws c = false /\ c <> 61 /\ c <> 59) n.
Proof.
  unfold isTagName. destruct n as [|c n]; [done|]. intros [Hc Hn]%andb_true_iff. split; [done|].
  rewrite forallb_Forall in Hn. constructor.
  - unfold is_alpha, isAlphaUpper, isAlphaLower, is_fws in *. zlia.
  - eapply Forall_impl; [done|]. intros d Hd. cbv beta in Hd.
    unfold is_alpha, isAlphaUpper, isAlphaLower, is_digit, is_fws in *. zlia.
Qed.

Lemma tag_text_eq t : tag_ok t ->
  indexOf 61 (tag_text t) = Some (length (tg_gap t ++ tg_name t)) /\
  trimFws (take (length (tg_gap t ++ tg_name t)) (tag_text t)) = tg_name t /\
  drop (S (length (tg_gap t ++ tg_name t))) (tag_text t) = tg_value t /\
  trimFws (tag_text t) <> [].
Proof.
  intros [Hg Hn]. destruct (tag_name_chars _ Hn) as [Hne Hc]. unfold tag_text.
  assert (61 ∉ tg_gap t ++ tg_name t) as Hno.
  { intros [Hin|Hin]%elem_of_app.
    - unfold fws in Hg. rewrite Forall_forall in Hg. apply Hg in Hin. done.
    - rewrite Forall_forall in Hc. apply Hc in Hin as (_ & Hin & _). done. }
  rewrite !(assoc_L (++) (tg_gap t)). split_and!.
  - change ([61] ++ tg_value t) with (61 :: tg_value t). by apply indexOf_first.
  - rewrite take_app_length, trimFws_gap by done. apply trimFws_none. eapply Forall_impl; [done|]. naive_solver.
  - rewrite <- Nat.add_1_r, drop_app_add. done.
  - rewrite <- (assoc_L (++)), trimFws_gap by done. unfold trimFws.
    destruct (tg_name t) as [|c n]; [done|]. apply Forall_cons in Hc as [[Hc _] _]. cbn [app].
    rewrite dropWhile_stop by done. pose proof (dropEndWhile_app_stop is_fws [] c (n ++ 61 :: tg_value t) Hc) as E'.
    cbn [app] in E'. by rewrite E'.
Qed.

Lemma tagGet_None n tags : n ∉ tags.*1 -> tagGet n tags = None.
Proof.
  induction tags as [|[m v] tags IH]; [done|]. csimpl. intros [Hm Ht]%not_elem_of_cons.
  by rewrite bool_decide_false, IH by congruence.
Qed.

Lemma parseTags_parts ts : Forall tag_ok ts -> forall acc, NoDup (acc.*1 ++ (tg_name <$> ts)) ->
  parseTags_loop (tag_text <$> ts) acc = inr (acc ++ ((fun t => (tg_name t, trimFws (tg_value t))) <$> ts)).
Proof.
  induction 1 as [|t ts Ht _ IH]; intros acc Hnd; csimpl; [by rewrite app_nil_r|]. cbn [parseTags_loop].
  destruct (tag_text_eq t Ht) as (E1 & E2 & E3 & E4). rewrite bool_decide_false by done. rewrite E1, E2, E3.
  destruct Ht as [Hg Hn]. rewrite Hn. cbn [negb].
  assert (tagGet (tg_name t) acc = None) as ->.
  { apply tagGet_None. intros Hin. csimpl in Hnd. apply NoDup_app in Hnd as (_ & Hd & _). apply (Hd _ Hin). set_solver. }
  rewrite bool_decide_false by (by intros []). rewrite IH.
  - by rewrite <- (assoc_L (++)).
  - rewrite fmap_app, <- (assoc_L (++)). done.
Qed.

(** The walk of [withEmptyB] finds the tag b and cuts its value out. *)
Lemma emptyB_loop_parts raw colon ps last rest : forall offset,
  Forall (fun p => forall eq, indexOf 61 p = Some eq -> trimFws (take eq p) <> js "b") ps ->
  tag_ok last -> tg_name last = js "b" ->
  emptyB_loop raw colon (ps ++ tag_text last :: rest) offset =
    let start := (colon + 1 + offset + sum_list_with (fun p => length p + 1)%nat ps + length (tg_gap last) + 2)%nat in
    inr (take start raw ++ drop (start + length (tg_value last)) raw).
Proof.
  induction ps as [|p ps IH]; intros offset Hps Hl Hb; cbn [app emptyB_loop].
  - destruct (tag_text_eq last Hl) as (E1 & E2 & _ & _). rewrite E1, E2, Hb, bool_decide_true by done.
    unfold tag_text. rewrite !length_app, Hb. cbn [sum_list_with length lit]. change (length (js "b")) with 1%nat.
    cbv zeta. do 2 f_equal; f_equal; lia.
  - inversion_clear Hps as [|? ? Hp Hps']. rewrite IH by done. cbn [sum_list_with].
    replace (colon + 1 + (offset + length p + 1) + sum_list_with (fun p => (length p + 1)%nat) ps)%nat
      with (colon + 1 + offset + (length p + 1 + sum_list_with (fun p => (length p + 1)%nat) ps))%nat by lia.
    destruct (indexOf 61 p) as [eq|] eqn:E; [|done]. by rewrite bool_decide_false by (by apply Hp).
Qed.

Definition join_tail (c : Z) (rest : list jsstr) : jsstr := match rest with [] => [] | _ => c :: joinWith [c] rest end.

Lemma joinWith_middle c (ps : list jsstr) x rest :
  joinWith [c] (ps ++ x :: rest) = concat ((fun p => p ++ [c]) <$> ps) ++ x ++ join_tail c rest.
Proof.
  induction ps as [|p ps IH]; [|rewrite fmap_cons]; cbn [app concat].
  - destruct rest; cbn [joinWith join_tail fmap list_fmap concat app]; by rewrite ?app_nil_r.
  - rewrite joinWith_cons by (by destruct ps). rewrite IH. by rewrite <- !(assoc_L (++)).
Qed.

Lemma length_prefix_parts c (ps : list jsstr) :
  length (concat ((fun p => p ++ [c]) <$> ps)) = sum_list_with (fun p : jsstr => length p + 1)%nat ps.
Proof. induction ps as [|p ps IH]; [done|]. csimpl. rewrite !length_app, IH. cbn. lia. Qed.

Definition without_value (t : tag_spec) : tag_spec := mkTag (tg_gap t) (tg_name t) [].

Lemma withEmptyB_spec hd ps last rest :
  58 ∉ hd -> Forall (fun p => 59 ∉ p) (ps ++ tag_text last :: rest) ->
  Forall (fun p => forall eq, indexOf 61 p = Some eq -> trimFws (take eq p) <> js "b") ps ->
  tag_ok last -> tg_name last = js "b" ->
  withEmptyB (hd ++ [58] ++ joinWith [59] (ps ++ tag_text last :: rest)) =
    inr (hd ++ [58] ++ joinWith [59] (ps ++ tag_text (without_value last) :: rest)).
Proof.
  intros Hhd Hsemi Hps Hl Hb. unfold withEmptyB. cbn [app]. rewrite indexOf_first by done.
  assert (drop (S (length hd)) (hd ++ 58 :: joinWith [59] (ps ++ tag_text last :: rest)) =
    joinWith [59] (ps ++ tag_text last :: rest)) as -> by (rewrite <- Nat.add_1_r, drop_app_add; done).
  rewrite splitOn_joinWith by (done || by destruct ps). rewrite emptyB_loop_parts by done. cbv zeta. f_equal.
  rewrite !joinWith_middle. unfold tag_text, without_value. cbn [tg_gap tg_name tg_value]. rewrite Hb.
  set (P := concat _). set (T := join_tail 59 rest).
  pose proof (length_prefix_parts 59 ps) as HP. fold P in HP. rewrite <- HP.
  set (A := hd ++ 58 :: P ++ tg_gap last ++ js "b" ++ [61]).
  replace (hd ++ 58 :: P ++ (tg_gap last ++ js "b" ++ [61] ++ tg_value last) ++ T) with (A ++ tg_value last ++ T)
    by (unfold A; by rewrite <- !(assoc_L (++)); cbn [app]; rewrite <- !(assoc_L (++))).
  replace (hd ++ 58 :: P ++ (tg_gap last ++ js "b" ++ [61] ++ []) ++ T) with (A ++ T)
    by (unfold A; by rewrite app_nil_r, <- !(assoc_L (++)); cbn [app]; rewrite <- !(assoc_L (++))).
  replace (length hd + 1 + 0 + length P + length (tg_gap last) + 2)%nat with (length A)
    by (unfold A; repeat (rewrite length_app; cbn [length]); cbn; lia).
  rewrite take_app_length, drop_app_add. by rewrite drop_app_length.
Qed.

(** ** What the folder writes *)

Definition gap (g : jsstr) : Prop := g = [] \/ g = [SP] \/ g = FOLD.

Lemma gap_fws g : gap g -> fws g.
Proof. intros [->|[->| ->]]; by repeat constructor. Qed.
Lemma gap_folded g : gap g -> folded g.
Proof. intros [->|[->| ->]]; [constructor|by repeat constructor|apply folded_FOLD]. Qed.
Lemma gap_no c g : gap g -> is_fws c = false -> c ∉ g.
Proof.
  intros Hg Hc Hin. apply gap_fws in Hg. unfold fws in Hg. rewrite Forall_forall in Hg. apply Hg in Hin. congruence.
Qed.

Lemma folder_add_text piece sep f : gap sep ->
  exists g, gap g /\ fo_text (folder_add piece sep f) = fo_text f ++ g ++ piece.
Proof.
  intros Hs. unfold folder_add. destruct (_ <? _)%nat; [exists FOLD; split; [by right; right|done]|by exists sep].
Qed.

(** The h= list as it is spread over lines. *)
Inductive spread : list jsstr -> jsstr -> Prop :=
| spread_one n : spread [n] n
| spread_cons n ns g t : gap g -> spread ns t -> spread (n :: ns) (n ++ [58] ++ g ++ t).

Lemma add_names_text names : names <> [] -> forall first f,
  exists g t, gap g /\ spread names t /\
    fo_text (add_names names first f) = fo_text f ++ g ++ (if first then js "h=" else []) ++ t ++ js ";".
Proof.
  induction names as [|n names IH]; intros Hne first f; [done|]. cbn [add_names].
  set (piece := _ ++ n ++ _).
  destruct (folder_add_text piece (if first then js " " else []) f) as (g & Hg & E); [destruct first; [by right; left|by left]|].
  destruct names as [|n2 names].
  - exists g, n. split_and!; [done|constructor|]. cbn [add_names]. rewrite E. done.
  - destruct (IH ltac:(done) false (folder_add piece (if first then js " " else []) f)) as (g2 & t & Hg2 & Ht & E2).
    exists g, (n ++ [58] ++ g2 ++ t). split_and!; [done|by constructor|]. rewrite E2, E. unfold piece.
    change (js ":") with [58]. cbn iota. rewrite <- !(assoc_L (++)). done.
Qed.

(** A value broken anywhere by folds. *)
Inductive scattered : jsstr -> jsstr -> Prop :=
| scattered_nil : scattered [] []
| scattered_char c v t : scattered v t -> scattered (c :: v) (c :: t)
| scattered_fold v t : scattered v t -> scattered v (FOLD ++ t).

Lemma scattered_app p v t : scattered v t -> scattered (p ++ v) (p ++ t).
Proof. intros Ht. induction p; [done|]. by constructor. Qed.

Lemma splittable_text fuel : forall rest f, (length rest <= fuel)%nat ->
  exists t, scattered rest t /\ fo_text (splittable_loop fuel rest f) = fo_text f ++ t.
Proof.
  induction fuel as [|fuel IH]; intros rest f Hf.
  { destruct rest; [|cbn in Hf; lia]. exists []. split; [constructor|]. by rewrite app_nil_r. }
  cbn [splittable_loop]. destruct (Nat.ltb_spec 0 (length rest)) as [Hl|Hl]; cycle 1.
  { destruct rest; [|cbn in Hl; lia]. exists []. split; [constructor|]. by rewrite app_nil_r. }
  set (f1 := if (MAX_LINE <=? fo_lineLen f)%nat then mkFolder (fo_text f ++ FOLD) 1 else f).
  set (part := take (MAX_LINE - fo_lineLen f1) rest).
  assert (0 < length part)%nat as Hp.
  { unfold part. rewrite length_take. unfold f1. destruct (Nat.leb_spec MAX_LINE (fo_lineLen f)); cbn [fo_lineLen]; unfold MAX_LINE in *; lia. }
  assert (rest = part ++ drop (length part) rest) as Er.
  { unfold part at 1. rewrite <- (take_drop (MAX_LINE - fo_lineLen f1) rest) at 1. f_equal. unfold part.
    rewrite length_take. destruct (decide (MAX_LINE - fo_lineLen f1 <= length rest)%nat); [by rewrite Nat.min_l by lia|].
    rewrite Nat.min_r by lia. by rewrite !drop_ge by lia. }
  destruct (IH (drop (length part) rest) (mkFolder (fo_text f1 ++ part) (fo_lineLen f1 + length part))) as (t & Ht & E).
  { rewrite length_drop. lia. }
  rewrite E. cbn [fo_text]. unfold f1 at 1. destruct (MAX_LINE <=? fo_lineLen f)%nat eqn:Ef.
  - exists (FOLD ++ part ++ t). split.
    + constructor. rewrite Er. by apply scattered_app.
    + unfold f1. cbn [fo_text]. by rewrite <- !(assoc_L (++)).
  - exists (part ++ t). split; [rewrite Er; by apply scattered_app|]. unfold f1. by rewrite <- (assoc_L (++)).
Qed.

Lemma scattered_strip v t : Forall (fun c => is_fws c = false) v -> scattered v t -> stripWhitespace t = v.
Proof.
  intros Hv. induction 1 as [|c v t Ht IH|v t Ht IH]; [done| |by apply IH].
  inv Hv. unfold stripWhitespace. cbn. rewrite H1. cbn. f_equal. by apply IH.
Qed.

Lemma scattered_all (P : Z -> Prop) v t : Forall P v -> Forall P FOLD -> scattered v t -> Forall P t.
Proof.
  intros Hv Hf. induction 1 as [|c v t Ht IH|v t Ht IH]; [done| |apply Forall_app; auto]. inv Hv. constructor; auto.
Qed.

Lemma scattered_folded v t : Forall (fun c => c <> CR /\ c <> LF) v -> scattered v t -> folded t.
Proof.
  intros Hv. induction 1 as [|c v t Ht IH|v t Ht IH]; [constructor| |].
  - inv Hv. destruct H1. constructor; auto.
  - apply folded_app; [apply folded_FOLD|auto].
Qed.

(** ** The h= list is read back *)

Definition name_char (c : Z) : Prop := 33 <= c <= 126 /\ c <> 58 /\ c <> 59.
Definition plain_name (n : jsstr) : Prop := n <> [] /\ Forall name_char n.

Lemma name_char_fws c : name_char c -> is_fws c = false.
Proof. unfold name_char, is_fws. zlia. Qed.

Lemma plain_tight n : plain_name n -> tight n.
Proof. intros [_ Hn]. apply trimFws_none. eapply Forall_impl; [done|]. apply name_char_fws. Qed.

Lemma splitOn_prefix c g t : c ∉ g -> exists p ps, splitOn c t = p :: ps /\ splitOn c (g ++ t) = (g ++ p) :: ps.
Proof.
  intros Hg. induction g as [|x g IH]; cbn [app splitOn].
  - pose proof (splitOn_ne c t). destruct (splitOn c t) as [|p ps]; [done|]. by exists p, ps.
  - apply not_elem_of_cons in Hg as [Hx Hg]. destruct (IH Hg) as (p & ps & E1 & E2). exists p, ps. split; [done|].
    destruct (Z.eqb_spec x c); [congruence|]. by rewrite E2.
Qed.

Lemma spread_list names t : Forall plain_name names -> spread names t -> splitColonList t = names.
Proof.
  intros Hn Ht. unfold splitColonList.
  assert (trimFws <$> splitOn 58 t = names) as ->.
  { induction Ht as [n|n ns g t Hg Ht IH]; inversion_clear Hn as [|? ? Hp Hns].
    - rewrite splitOn_none; [csimpl; by rewrite plain_tight|]. destruct Hp as [_ Hp]. intros Hin.
      rewrite Forall_forall in Hp. apply Hp in Hin. unfold name_char in Hin. lia.
    - cbn [app]. rewrite splitOn_app.
      + rewrite fmap_cons, plain_tight by done. f_equal.
        destruct (splitOn_prefix 58 g t) as (p & ps & E1 & E2); [by apply gap_no|].
        rewrite E2, fmap_cons, trimFws_gap by (by apply gap_fws). rewrite E1, fmap_cons in IH. by apply IH.
      + destruct Hp as [_ Hp]. intros Hin. rewrite Forall_forall in Hp. apply Hp in Hin. unfold name_char in Hin. lia. }
  clear Ht t. induction Hn as [|n names [Hne _] _ IH]; [done|]. cbn. rewrite bool_decide_false by done. cbn. by rewrite IH.
Qed.

Lemma spread_all (P : Z -> Prop) names t : Forall (Forall P) names -> P 58 -> (forall g, gap g -> Forall P g) ->
  spread names t -> Forall P t.
Proof.
  intros Hn Hc Hg. induction 1 as [n|n ns g t Hgap Ht IH]; inversion_clear Hn; [done|].
  repeat (apply Forall_app; split); [done|by repeat constructor|by apply Hg|by apply IH].
Qed.

Lemma plain_folded n : Forall name_char n -> folded n.
Proof. intros Hn. apply folded_plain. eapply Forall_impl; [exact Hn|]. unfold name_char, CR, LF. intros c. lia. Qed.

Lemma spread_folded names t : Forall plain_name names -> spread names t -> folded t.
Proof.
  intros Hn. induction 1 as [n|n ns g t Hgap Ht IH]; inversion_clear Hn as [|? ? [_ Hp] Hns];
    apply plain_folded in Hp; [done|].
  apply folded_app; [done|]. constructor; [done|done|]. apply folded_app; [by apply gap_folded|by apply IH].
Qed.

Lemma spread_first names t : Forall plain_name names -> spread names t -> exists c s, t = c :: s /\ is_fws c = false.
Proof.
  intros Hn Ht. destruct Ht as [n|n ns g t Hg Ht]; inversion_clear Hn as [|? ? [Hne Hp] _];
    (destruct n as [|c n]; [done|]); inversion_clear Hp as [|? ? Hc _]; eexists _, _; (split; [done|by apply name_char_fws]).
Qed.

Lemma spread_last names t : Forall plain_name names -> spread names t -> exists s d, t = s ++ [d] /\ is_fws d = false.
Proof.
  intros Hn. induction 1 as [n|n ns g t Hg Ht IH]; inversion_clear Hn as [|? ? [Hne Hp] Hns].
  - destruct (exists_last Hne) as (s & d & ->). apply Forall_app in Hp as [_ Hd]. inversion_clear Hd as [|? ? Hd' _].
    eexists _, _. split; [done|]. by apply name_char_fws.
  - destruct (IH Hns) as (s & d & -> & Hd). exists (n ++ [58] ++ g ++ s), d. by rewrite <- !(assoc_L (++)).
Qed.

Lemma spread_tight names t : Forall plain_name names -> spread names t -> tight t.
Proof.
  intros Hn Ht. destruct (spread_first _ _ Hn Ht) as (c & s & E & Hc), (spread_last _ _ Hn Ht) as (u & d & E' & Hd).
  rewrite E. eapply trimFws_ends; [done|done|]. by rewrite <- E.
Qed.

(** ** The signature field *)

Section field.
Context `{R : Runtime} `{H : Sha256} `{C : DkimCrypto}.

Definition FIELD : jsstr := js "DKIM-Signature".

(** The tags before b=, each behind its gap; [hl] is the spread list of names. *)
Definition field_tags (gs : list jsstr) (hc bc : Canonicalization) (domain : jsstr) (key : DkimSigningKey) (t : Z)
    (hl bh : jsstr) : list tag_spec :=
  zip_with (fun g nv => mkTag g nv.1 nv.2) gs
    [(js "v", js "1"); (js "a", algorithm_name (sk_algorithm key)); (js "c", canon_name hc ++ js "/" ++ canon_name bc);
     (js "d", domain); (js "s", sk_selector key); (js "t", dec t); (js "h", hl); (js "bh", bh)].

Lemma unsigned_field_text hc bc domain key t names bh : names <> [] ->
  exists g0 gs gb hl, length gs = 7%nat /\ Forall gap (g0 :: gb :: gs) /\ spread names hl /\
    fo_text (unsigned_field hc bc domain key t names bh) =
      FIELD ++ [58] ++ joinWith [59] ((tag_text <$> field_tags ((SP :: g0) :: gs) hc bc domain key t hl bh) ++
        [tag_text (mkTag gb (js "b") [])]).
Proof.
  intros Hne. unfold unsigned_field.
  destruct (folder_add_text (js "v=1;") [] (newFolder (js "DKIM-Signature: "))) as (g0 & G0 & E0); [by left|].
  set (f0 := folder_add (js "v=1;") [] _) in *.
  assert (gap (js " ")) as Hsp by (by right; left).
  destruct (folder_add_text (js "a=" ++ algorithm_name (sk_algorithm key) ++ js ";") (js " ") f0 Hsp) as (g1 & G1 & E1).
  set (f1 := folder_add _ (js " ") f0) in *.
  destruct (folder_add_text (js "c=" ++ canon_name hc ++ js "/" ++ canon_name bc ++ js ";") (js " ") f1 Hsp) as (g2 & G2 & E2).
  set (f2 := folder_add _ (js " ") f1) in *.
  destruct (folder_add_text (js "d=" ++ domain ++ js ";") (js " ") f2 Hsp) as (g3 & G3 & E3).
  set (f3 := folder_add _ (js " ") f2) in *.
  destruct (folder_add_text (js "s=" ++ sk_selector key ++ js ";") (js " ") f3 Hsp) as (g4 & G4 & E4).
  set (f4 := folder_add _ (js " ") f3) in *.
  destruct (folder_add_text (js "t=" ++ dec t ++ js ";") (js " ") f4 Hsp) as (g5 & G5 & E5).
  set (f5 := folder_add _ (js " ") f4) in *.
  destruct (add_names_text names Hne true f5) as (g6 & hl & G6 & Hhl & E6). set (f6 := add_names names true f5) in *.
  destruct (folder_add_text (js "bh=" ++ bh ++ js ";") (js " ") f6 Hsp) as (g7 & G7 & E7).
  set (f7 := folder_add _ (js " ") f6) in *.
  destruct (folder_add_text (js "b=") (js " ") f7 Hsp) as (gb & Gb & Eb).
  exists g0, [g1; g2; g3; g4; g5; g6; g7], gb, hl. split_and!; [done|by repeat (apply Forall_cons; split; [assumption|])|done|].
  rewrite Eb, E7, E6, E5, E4, E3, E2, E1, E0. clear. rewrite joinWith_middle. cbn [join_tail].
  unfold field_tags, tag_text. cbn [zip_with fmap list_fmap concat tg_gap tg_name tg_value fst snd newFolder fo_text].
  rewrite !app_nil_r, <- !(assoc_L (++)). reflexivity.
Qed.

Lemma dec_chars n : Forall (fun c => is_digit c = true \/ c = 45) (dec n) /\ dec n <> [].
Proof.
  destruct (Z.leb_spec 0 n) as [Hn|Hn].
  - destruct (dec_spec n Hn) as (Hd & Hne & _). split; [|done]. eapply Forall_impl; [done|]. auto.
  - unfold dec. replace (n <? 0) with true by lia. split; [|done]. constructor; [by right|].
    destruct (dec_spec (- n)) as (Hd & _); [lia|]. unfold dec in Hd. replace (- n <? 0) with false in Hd by lia.
    eapply Forall_impl; [done|]. auto.
Qed.

Lemma joinWith_all (P : Z -> Prop) c ps : P c -> Forall (Forall P) ps -> Forall P (joinWith [c] ps).
Proof.
  intros Hc. induction 1 as [|p ps Hp Hps IH]; [done|]. destruct (decide (ps = [])) as [->|]; [done|].
  rewrite joinWith_cons by done. apply Forall_app. split; [done|]. by constructor.
Qed.

Definition domain_char (c : Z) : Prop := is_alnum c = true \/ c = 45 \/ c = DOT.

Lemma domain_chars s : isDomainName s = true -> s <> [] /\ Forall domain_char s.
Proof.
  unfold isDomainName. intros [[Hl _]%andb_true_iff Hd]%andb_true_iff. nat_tests. split; [by destruct s|].
  rewrite <- (joinWith_splitOn DOT s). apply joinWith_all; [by right; right|]. apply forallb_Forall in Hd.
  eapply Forall_impl; [exact Hd|]. unfold isDomainLabel. intros l [[[[_ _]%andb_true_iff Hc]%andb_true_iff _]%andb_true_iff _]%andb_true_iff.
  apply forallb_Forall in Hc. eapply Forall_impl; [exact Hc|]. intros c. unfold domain_char.
  intros [?|?%Z.eqb_eq]%orb_true_iff; auto.
Qed.

(** Values the tag list can carry: no semicolon, no folding white space at the ends. *)
Definition value_char (c : Z) : Prop := is_fws c = false /\ c <> 59.

Lemma value_tight v : Forall value_char v -> tight v.
Proof. intros Hv. apply trimFws_none. eapply Forall_impl; [done|]. by intros c []. Qed.

Lemma domain_value s : isDomainName s = true -> Forall value_char s.
Proof.
  intros [_ Hs]%domain_chars. eapply Forall_impl; [done|]. unfold domain_char, value_char, is_alnum, is_alpha, isAlphaUpper, isAlphaLower, is_digit, is_fws.
  intros c. zlia.
Qed.

Lemma dec_value n : Forall value_char (dec n).
Proof.
  eapply Forall_impl; [apply dec_chars|]. unfold value_char, is_digit, is_fws. intros c. zlia.
Qed.

Lemma base64_value_chars s : base64_text s -> Forall value_char s.
Proof.
  intros Hs. eapply Forall_impl; [exact Hs|]. unfold value_char, is_base64, isAlphaUpper, isAlphaLower, is_digit, is_fws.
  intros c. zlia.
Qed.

Lemma strip_id s : Forall value_char s -> stripWhitespace s = s.
Proof.
  induction 1 as [|c s [Hc _] _ IH]; [done|]. unfold stripWhitespace in *. cbn. by rewrite Hc, IH.
Qed.

Lemma strip_app s t : stripWhitespace (s ++ t) = stripWhitespace s ++ stripWhitespace t.
Proof. unfold stripWhitespace. induction s as [|c s IH]; [done|]. cbn. destruct (negb (is_fws c)); cbn; by rewrite IH. Qed.

Lemma strip_fws g : fws g -> stripWhitespace g = [].
Proof. induction 1 as [|c g Hc _ IH]; [done|]. unfold stripWhitespace in *. cbn. by rewrite Hc. Qed.

Lemma strip_trim s : stripWhitespace (trimFws s) = stripWhitespace s.
Proof.
  unfold trimFws. destruct (dropWhile_suffix is_fws s) as (p & Ep & Hp). rewrite Ep at 2. rewrite strip_app, (strip_fws p) by done.
  cbn [app]. set (u := dropWhile is_fws s). unfold dropEndWhile. destruct (dropWhile_suffix is_fws (rev u)) as (q & Eq & Hq).
  assert (u = rev (dropWhile is_fws (rev u)) ++ rev q) as Eu
    by (rewrite <- rev_app_distr, <- Eq; symmetry; apply rev_involutive).
  rewrite Eu at 2. rewrite strip_app, (strip_fws (rev q)), app_nil_r; [done|]. by apply Forall_rev.
Qed.

Lemma base64_decode_encode b : octets_ok b -> base64_decode (base64_encode b) = b.
Proof. intros Hb. unfold base64_decode. by destruct (base64_roundtrip b Hb) as [-> _]. Qed.

Lemma need_some tags n v : tagGet n tags = Some v -> v <> [] -> need tags n = inr v.
Proof. intros E Hv. unfold need. rewrite E. by destruct v. Qed.

Definition signable (hc bc : Canonicalization) (domain : jsstr) (key : DkimSigningKey) (names : list jsstr) (bh : jsstr) : Prop :=
  isDomainName domain = true /\ isDomainName (sk_selector key) = true /\
  Forall plain_name names /\ js "from" ∈ names /\ base64_text bh /\ bh <> [].

Lemma closed_value (s : jsstr) : forallb (fun c => bool_decide (value_char c)) s = true -> Forall value_char s.
Proof. intros Hs. apply forallb_Forall in Hs. eapply Forall_impl; [exact Hs|]. intros c Hc. by apply bool_decide_eq_true in Hc. Qed.

Lemma value_semi v : Forall value_char v -> 59 ∉ v.
Proof. intros Hv Hin. rewrite Forall_forall in Hv. by apply Hv in Hin as []. Qed.

Lemma spread_semi names hl : Forall plain_name names -> spread names hl -> 59 ∉ hl.
Proof.
  intros Hn Hs Hin. assert (Forall (fun c => c <> 59) hl) as Hall.
  { eapply spread_all; [..|exact Hs]; [|done|].
    - eapply Forall_impl; [exact Hn|]. intros n [_ Hp]. eapply Forall_impl; [exact Hp|]. unfold name_char. intros c. lia.
    - intros g [->|[->| ->]]; by repeat constructor. }
  rewrite Forall_forall in Hall. by apply Hall in Hin.
Qed.

Lemma value_folded v : Forall value_char v -> folded v.
Proof. intros Hv. apply folded_plain. eapply Forall_impl; [exact Hv|]. unfold value_char, is_fws. intros c. zlia. Qed.

Lemma joinWith_folded ps : Forall folded ps -> folded (joinWith [59] ps).
Proof.
  induction 1 as [|p ps Hp _ IH]; [constructor|]. destruct (decide (ps = [])) as [->|]; [done|].
  rewrite joinWith_cons by done. apply folded_app; [done|]. by constructor.
Qed.

(** Everything the readers need to know of the tags in front of b=. *)
Lemma field_tags_ok g0 gs hc bc domain key t names hl bh :
  length gs = 7%nat -> Forall gap (g0 :: gs) -> signable hc bc domain key names bh -> spread names hl ->
  let ts := field_tags ((SP :: g0) :: gs) hc bc domain key t hl bh in
  Forall tag_ok ts /\ Forall (fun x => 59 ∉ tag_text x /\ folded (tag_text x)) ts /\
  tg_name <$> ts = [js "v"; js "a"; js "c"; js "d"; js "s"; js "t"; js "h"; js "bh"] /\
  (fun x => (tg_name x, trimFws (tg_value x))) <$> ts =
    [(js "v", js "1"); (js "a", algorithm_name (sk_algorithm key)); (js "c", canon_name hc ++ js "/" ++ canon_name bc);
     (js "d", domain); (js "s", sk_selector key); (js "t", dec t); (js "h", hl); (js "bh", bh)].
Proof.
  intros Hl Hg (Hd & Hs & Hn & Hf & Hb & Hbne) Hhl ts.
  do 7 (destruct gs as [|? gs]; [done|]). destruct gs; [|done].
  assert (Forall value_char (algorithm_name (sk_algorithm key))) as Va
    by (destruct (sk_algorithm key); apply closed_value; vm_compute; reflexivity).
  assert (Forall value_char (canon_name hc ++ js "/" ++ canon_name bc)) as Vc
    by (destruct hc, bc; apply closed_value; vm_compute; reflexivity).
  assert (Forall value_char (js "1")) as V1 by (apply closed_value; vm_compute; reflexivity).
  pose proof (domain_value _ Hd) as Vd. pose proof (domain_value _ Hs) as Vs. pose proof (dec_value t) as Vt.
  pose proof (base64_value_chars _ Hb) as Vb.
  assert (forall g n v, gap g -> isTagName n = true -> 59 ∉ v /\ folded v ->
    tag_ok (mkTag g n v) /\ 59 ∉ tag_text (mkTag g n v) /\ folded (tag_text (mkTag g n v))) as Hmk.
  { intros g n v Hgap Hname [Hv Hfv]. split; [split; [by apply gap_fws|done]|]. unfold tag_text. cbn [tg_gap tg_name tg_value].
    apply tag_name_chars in Hname as [_ Hname]. split.
    - rewrite !not_elem_of_app. split_and!; [by apply gap_no| |set_solver|done].
      intros Hin. rewrite Forall_forall in Hname. by apply Hname in Hin as (_ & _ & ?).
    - apply folded_app; [by apply gap_folded|]. apply folded_app; [|by constructor].
      apply value_folded. eapply Forall_impl; [exact Hname|]. by intros c (? & ? & ?). }
  assert (forall v, Forall value_char v -> 59 ∉ v /\ folded v) as Hvc
    by (intros v Hv; split; [by apply value_semi|by apply value_folded]).
  assert (59 ∉ hl /\ folded hl) as Hhv by (split; [by eapply spread_semi|by eapply spread_folded]).
  rewrite !Forall_cons in Hg. destruct_and! Hg.
  assert (tag_ok (mkTag (SP :: g0) (js "v") (js "1")) /\ 59 ∉ tag_text (mkTag (SP :: g0) (js "v") (js "1")) /\
    folded (tag_text (mkTag (SP :: g0) (js "v") (js "1")))) as [Hv1 Hv2].
  { destruct (Hmk g0 (js "v") (js "1")) as ([Hok1 Hok2] & Hv & Hvf); [done|done|by apply Hvc|].
    split; [split; [by constructor|done]|]. unfold tag_text in *. cbn [tg_gap tg_name tg_value] in *.
    split; [set_solver|]. by constructor. }
  unfold ts, field_tags. cbn [zip_with fst snd].
  split_and!.
  - repeat (apply Forall_cons; split; [first [done|apply Hmk; [done|done|first [done|by apply Hvc]]]|]). done.
  - repeat (apply Forall_cons; split; [first [done|apply Hmk; [done|done|first [done|by apply Hvc]]]|]). done.
  - done.
  - cbn [fmap list_fmap tg_name tg_value fst snd]. rewrite (value_tight (js "1")), (value_tight (algorithm_name _)), (value_tight (canon_name hc ++ _)),
      (value_tight domain), (value_tight (sk_selector key)), (value_tight (dec t)), (value_tight bh) by done.
    by rewrite (spread_tight _ _ Hn Hhl).
Qed.

(** A signed field and the two ways it is read: as a signature, and with its b= value removed. *)
Lemma field_reads_back hc bc domain key t names hash sig :
  signable hc bc domain key names (base64_encode hash) -> octets_ok hash -> octets_ok sig -> sig <> [] ->
  let f := unsigned_field hc bc domain key t names (base64_encode hash) in
  let raw := fo_text (folder_addSplittable (base64_encode sig) f) in
  withEmptyB raw = inr (fo_text f) /\ folded raw /\ (exists v, raw = FIELD ++ 58 :: v) /\
  parseSignatureField raw =
    inr (mkParsed raw (sk_algorithm key) domain (sk_selector key) hc bc names hash sig None).
Proof.
  intros Hok Hh Hs Hsne f raw. pose proof Hok as (Hd & Hsel & Hn & Hfrom & Hb & Hbne).
  destruct (unsigned_field_text hc bc domain key t names (base64_encode hash)) as (g0 & gs & gb & hl & Hl & Hg & Hhl & Ef).
  { by intros ->%elem_of_nil || (destruct names; [by apply elem_of_nil in Hfrom|done]). }
  fold f in Ef. destruct (splittable_text (length (base64_encode sig)) (base64_encode sig) f) as (sc & Hsc & Eraw); [lia|].
  fold (folder_addSplittable (base64_encode sig) f) in Eraw. fold raw in Eraw.
  destruct (base64_roundtrip sig Hs) as [_ Hsig]. pose proof (base64_value_chars _ Hsig) as Vsig.
  rewrite !Forall_cons in Hg. destruct Hg as (G0 & Gb & Gs).
  destruct (field_tags_ok g0 gs hc bc domain key t names hl (base64_encode hash)) as (T1 & T2 & T3 & T4);
    [done|by apply Forall_cons|done|done|].
  set (ts := field_tags _ _ _ _ _ _ _ _) in *. set (tb := mkTag gb (js "b") sc).
  assert (tag_ok tb) as Tb by (split; [by apply gap_fws|done]).
  assert (59 ∉ sc) as Hsemi.
  { intros Hin. assert (Forall (fun c => c <> 59) sc) as Hall.
    { eapply scattered_all; [..|exact Hsc]; [|by repeat constructor]. eapply Forall_impl; [exact Vsig|]. by intros c []. }
    rewrite Forall_forall in Hall. by apply Hall in Hin. }
  assert (raw = FIELD ++ [58] ++ joinWith [59] ((tag_text <$> ts) ++ [tag_text tb])) as Er.
  { rewrite Eraw, Ef, !joinWith_middle. cbn [join_tail]. unfold tag_text at 2 4. cbn [tg_gap tg_name tg_value tb].
    rewrite !app_nil_r. rewrite <- !app_assoc. reflexivity. }
  assert (Forall (fun p => 59 ∉ p) ((tag_text <$> ts) ++ [tag_text tb])) as Hall.
  { apply Forall_app. split; [apply Forall_fmap; eapply Forall_impl; [exact T2|]; by intros x []|].
    apply Forall_singleton. unfold tag_text. cbn [tg_gap tg_name tg_value tb].
    rewrite !not_elem_of_app. split_and!; [by apply gap_no|vm_compute; set_solver|set_solver|done]. }
  assert (58 ∉ FIELD) as Hcol by (vm_compute; set_solver).
  assert (Forall (fun x => tg_name x <> js "b") ts) as Hnames.
  { assert (Forall (fun n => n <> js "b") (tg_name <$> ts)) as Hf;
      [|by apply (proj1 (Forall_fmap tg_name (fun n => n <> js "b") ts)) in Hf].
    rewrite T3. vm_compute. repeat (apply Forall_cons; split; [done|]). done. }
  split_and!.
  - rewrite Er, withEmptyB_spec; [by rewrite Ef|done|done| |done|done].
    apply Forall_fmap. rewrite Forall_forall. intros x Hx eq Heq. rewrite Forall_forall in T1, Hnames.
    destruct (tag_text_eq x (T1 x Hx)) as (E1 & E2 & _). rewrite Heq in E1. injection E1 as ->. rewrite E2. by apply Hnames.
  - rewrite Er. apply folded_app; [apply value_folded, closed_value; vm_compute; reflexivity|]. constructor; [done|done|].
    apply joinWith_folded, Forall_app. split; [apply Forall_fmap; eapply Forall_impl; [exact T2|]; by intros x []|].
    apply Forall_singleton. unfold tag_text. cbn [tg_gap tg_name tg_value tb].
    apply folded_app; [by apply gap_folded|]. constructor; [done|done|]. constructor; [done|done|].
    eapply scattered_folded; [|exact Hsc]. eapply Forall_impl; [exact Vsig|]. unfold value_char, is_fws. intros c. zlia.
  - rewrite Er. by eexists.
  - unfold parseSignatureField. rewrite Er at 1. cbn [app]. rewrite indexOf_first by done.
    assert (drop (S (length FIELD)) raw = joinWith [59] ((tag_text <$> ts) ++ [tag_text tb])) as ->
      by (rewrite Er, <- Nat.add_1_r, drop_app_add; done).
    unfold parseTagList.
    rewrite splitOn_joinWith by (done || by destruct (tag_text <$> ts)).
    change [tag_text tb] with (tag_text <$> [tb]). rewrite <- fmap_app, parseTags_parts; cycle 1.
    { apply Forall_app. split; [done|]. by apply Forall_singleton. }
    { cbn [fmap list_fmap app]. rewrite fmap_app, T3. apply (bool_decide_unpack _). vm_compute. exact I. }
    rewrite fmap_app, T4. cbn [app fmap list_fmap tg_name tg_value tb].
    set (T := [_; _; _; _; _; _; _; _; _]).
    assert (trimFws sc <> []) as Hsc1.
    { intros E. pose proof (strip_trim sc) as Es. rewrite E in Es.
      rewrite (scattered_strip _ _ ltac:(eapply Forall_impl; [exact Vsig|]; by intros c []) Hsc) in Es.
      by apply (base64_encode_ne sig). }
    rewrite (need_some T (js "v") (js "1")) by done. rewrite bool_decide_true by done. cbn [negb].
    rewrite (need_some T (js "a") (algorithm_name (sk_algorithm key))) by (done || by destruct (sk_algorithm key)).
    assert (parse_algorithm (toLowerCase (algorithm_name (sk_algorithm key))) = Some (sk_algorithm key)) as ->
      by (by destruct (sk_algorithm key)).
    change (tagGet (js "c") T) with (Some (canon_name hc ++ js "/" ++ canon_name bc)).
    assert (parseCanonicalization (Some (canon_name hc ++ js "/" ++ canon_name bc)) = Some (hc, bc)) as ->
      by (by destruct hc, bc).
    rewrite (need_some T (js "h") hl); [|done|by destruct (spread_first _ _ Hn Hhl) as (c & s & -> & _)].
    rewrite (spread_list names hl) by done.
    assert (existsb (fun h => bool_decide (toLowerCase h = js "from")) names = true) as ->.
    { apply existsb_exists. exists (js "from"). split; [by apply list_elem_of_In|done]. }
    cbn [negb]. change (tagGet (js "l") T) with (@None jsstr). cbn [parse_length].
    rewrite (need_some T (js "d") domain) by (done || by apply domain_chars).
    rewrite (need_some T (js "s") (sk_selector key)) by (done || by apply domain_chars).
    rewrite (need_some T (js "bh") (base64_encode hash)) by done.
    rewrite (need_some T (js "b") (trimFws sc)) by done.
    rewrite strip_id by (by apply base64_value_chars). rewrite base64_decode_encode by done.
    rewrite strip_trim, (scattered_strip _ _ ltac:(eapply Forall_impl; [exact Vsig|]; by intros c []) Hsc).
    by rewrite base64_decode_encode.
Qed.
End field.
