(* ===== verification/DkimVerifyProofs.v ===== *)
(** * DkimVerifyProofs: a signed message verifies

    The prepended signature fields do not disturb the header block, the body or the selection of
    the signed headers; together with the reading back of the field itself this gives the end-to-end
    theorem of the signer and the local verifier. *)
From stdpp Require Import gmap.
From S2P Require Import Prelude JsString JsStringFacts Base64 DkimCanon DkimCanonProofs DkimMessage DkimSign DkimSignFacts DkimSignProofs.

Section verify.
Context `{R : Runtime} `{H : Sha256} `{C : DkimCrypto}.

(** ** Selecting signed headers *)

Lemma count_app n l1 l2 : count n (l1 ++ l2) = (count n l1 + count n l2)%nat.
Proof. unfold count. induction l1 as [|x l1 IH]; [done|]. cbn. case_bool_decide; cbn; by rewrite IH. Qed.

Lemma count_cons n x l : count n (x :: l) = ((if bool_decide (x = n) then 1 else 0) + count n l)%nat.
Proof. unfold count. cbn. by case_bool_decide. Qed.

Lemma count_rev n l : count n (rev l) = count n l.
Proof. induction l as [|x l IH]; [done|]. cbn [rev]. rewrite count_app, IH, !count_cons. cbn. lia. Qed.

Lemma count_replicate n k x : count n (replicate k x) = if bool_decide (x = n) then k else 0%nat.
Proof. induction k as [|k IH]; cbn [replicate]; [by case_bool_decide|]. rewrite count_cons, IH. by case_bool_decide. Qed.

Lemma count_0 n l : n ∉ l -> count n l = 0%nat.
Proof. induction l as [|x l IH]; [done|]. intros [Hx Hl]%not_elem_of_cons. by rewrite count_cons, bool_decide_false, IH. Qed.

Lemma pick_none l key skip seen : key ∉ hf_key <$> l -> pick l key skip seen = None.
Proof.
  induction l as [|f l IH]; [done|]. csimpl. intros [Hf Hl]%not_elem_of_cons.
  rewrite bool_decide_false by congruence. by apply IH.
Qed.

Lemma pick_app_other l1 l2 key skip : key ∉ hf_key <$> l2 -> forall seen,
  pick (l1 ++ l2) key skip seen = pick l1 key skip seen.
Proof.
  intros Hk. induction l1 as [|f l1 IH]; intros seen; cbn [app pick]; [by apply pick_none|].
  case_bool_decide; cbn [negb]; [case_match; [done|apply IH]|apply IH].
Qed.

Lemma pick_app_enough l1 l2 key skip : forall seen, (seen <= skip < seen + count key (hf_key <$> l1))%nat ->
  pick (l1 ++ l2) key skip seen = pick l1 key skip seen.
Proof.
  induction l1 as [|f l1 IH]; intros seen Hs; [cbn in Hs; lia|]. csimpl in Hs. rewrite count_cons in Hs. cbn [app pick].
  case_bool_decide; cbn [negb]; [|apply IH; lia].
  destruct (Nat.eqb_spec seen skip); [done|]. apply IH. lia.
Qed.

Definition selectable (sf fields : list HeaderField) (names : list jsstr) (used : gmap jsstr nat) : Prop :=
  forall k, (default 0%nat (used !! k) + count k names <= count k (hf_key <$> fields))%nat \/ k ∉ hf_key <$> sf.

Lemma select_prepend sf fields names : Forall (fun n => asciiLower (trim n) = n) names ->
  forall used, selectable sf fields names used ->
  select_loop (sf ++ fields) names used = select_loop fields names used.
Proof.
  induction 1 as [|n names Hn _ IH]; intros used Hsel; [done|]. cbn [select_loop]. rewrite Hn. f_equal.
  - f_equal. rewrite rev_app_distr. destruct (Hsel n) as [Hle|Hno].
    + apply pick_app_enough. rewrite count_cons, bool_decide_true in Hle by done.
      change (hf_key <$> rev fields) with (List.map hf_key (rev fields)).
      rewrite map_rev, count_rev. change (List.map hf_key fields) with (hf_key <$> fields). lia.
    + apply pick_app_other. change (hf_key <$> rev sf) with (List.map hf_key (rev sf)). rewrite map_rev.
      change (List.map hf_key sf) with (hf_key <$> sf). 
      intros Hin. apply Hno, list_elem_of_In, in_rev, list_elem_of_In. done.
  - apply IH. intros k. destruct (Hsel k) as [Hle|Hno]; [left|by right]. rewrite count_cons in Hle.
    destruct (decide (k = n)) as [->|Hk].
    + rewrite lookup_insert_eq. rewrite bool_decide_true in Hle by done. cbn. lia.
    + rewrite lookup_insert_ne by congruence. rewrite bool_decide_false in Hle by congruence. lia.
Qed.

(** ** The names the signer lists *)

Definition plain_config (raw : jsstr) : Prop := Forall name_char (trim raw).

Lemma name_char_lower c : name_char c -> name_char (lower_char c) /\ lower_char (lower_char c) = lower_char c.
Proof. unfold name_char, lower_char, isAlphaUpper. intros Hc. repeat case_match; lia. Qed.

Lemma plain_ascii s : Forall name_char s -> is_ascii s = true.
Proof. intros Hs. apply forallb_Forall. eapply Forall_impl; [exact Hs|]. unfold name_char. intros c. lia. Qed.

Lemma plain_lower s : Forall name_char s -> Forall name_char (toLowerCase s) /\ asciiLower (trim (toLowerCase s)) = toLowerCase s.
Proof.
  intros Hs. unfold toLowerCase. rewrite plain_ascii by done. assert (Forall name_char (lower_char <$> s)) as Hl.
  { apply Forall_fmap. eapply Forall_impl; [exact Hs|]. intros c Hc. by apply name_char_lower. }
  split; [done|]. unfold trim. rewrite trim_none.
  - unfold asciiLower. rewrite <- list_fmap_compose. apply Forall_fmap_ext_1. eapply Forall_impl; [exact Hs|].
    intros c Hc. by apply name_char_lower.
  - eapply Forall_impl; [exact Hl|]. unfold name_char, is_js_space. intros c. lia.
Qed.

Lemma names_loop_ok present configured : Forall plain_config configured -> forall seen,
  Forall (fun n => plain_name n /\ asciiLower (trim n) = n) (names_loop present configured seen) /\
  forall k, (count k (names_loop present configured seen) <= if bool_decide (k ∈ seen) then 0 else count k present)%nat.
Proof.
  induction 1 as [|raw configured Hr _ IH]; intros seen; cbn [names_loop].
  { split; [done|]. intros k. cbn. lia. }
  set (name := toLowerCase (trim raw)). destruct (plain_lower _ Hr) as [Hp Ht]. fold name in Hp, Ht.
  destruct (bool_decide (name ∈ seen) || bool_decide (58 ∈ name) || bool_decide (name = [])) eqn:E; [apply IH|].
  rewrite !orb_false_iff, !bool_decide_eq_false in E. destruct E as [[E1 E2] E3].
  destruct (IH (name :: seen)) as [I1 I2]. split.
  - apply Forall_app. split; [|done]. apply Forall_replicate. by split.
  - intros k. specialize (I2 k). rewrite count_app, count_replicate. destruct (decide (k = name)) as [->|Hk].
    + rewrite (bool_decide_true (name = name)) by done. rewrite bool_decide_true in I2 by set_solver.
      rewrite bool_decide_false by done. lia.
    + rewrite (bool_decide_false (name = k)) by congruence.
      destruct (decide (k ∈ seen)); [rewrite bool_decide_true in I2 by set_solver; rewrite bool_decide_true by done|
        rewrite bool_decide_false in I2 by set_solver; rewrite bool_decide_false by done]; lia.
Qed.

Lemma signedHeaderNames_ok present configured names :
  Forall plain_config configured -> signedHeaderNames present configured = inr names ->
  Forall plain_name names /\ Forall (fun n => asciiLower (trim n) = n) names /\ js "from" ∈ names /\
  (0 < count (js "from") present)%nat /\
  forall k, k <> js "from" -> (count k names <= count k present)%nat.
Proof.
  intros Hc. unfold signedHeaderNames. destruct (Nat.eqb_spec (count (js "from") present) 0) as [|Hf]; [done|].
  intros [= <-]. destruct (names_loop_ok present configured Hc [js "from"]) as [I1 I2].
  assert (plain_name (js "from") /\ asciiLower (trim (js "from")) = js "from") as Hfrom.
  { split; [split; [done|]|reflexivity]. repeat (apply Forall_cons; split; [unfold name_char; cbn; lia|]). done. }
  assert (Forall (fun n => plain_name n /\ asciiLower (trim n) = n)
    (replicate (count (js "from") present + 1) (js "from") ++ names_loop present configured [js "from"])) as Hall.
  { apply Forall_app. split; [by apply Forall_replicate|done]. }
  split_and!.
  - eapply Forall_impl; [exact Hall|]. by intros n [].
  - eapply Forall_impl; [exact Hall|]. by intros n [].
  - rewrite Nat.add_comm. cbn. set_solver.
  - lia.
  - intros k Hk. rewrite count_app, count_replicate, bool_decide_false by congruence.
    specialize (I2 k). rewrite bool_decide_false in I2 by set_solver. lia.
Qed.

(** ** Prepending fields *)

(** What every prepended field satisfies. *)
Definition sig_field (raw : jsstr) : Prop := folded raw /\ exists v, raw = FIELD ++ 58 :: v.

Definition prefix_of (raws : list jsstr) : bytes := concat ((fun r => r ++ CRLF) <$> raws).

Lemma prepend_head raws m : Forall sig_field raws -> startsWith CRLF m = false -> no_wsp_head m ->
  startsWith CRLF (prefix_of raws ++ m) = false /\ no_wsp_head (prefix_of raws ++ m).
Proof. intros Hr Hm Hw. destruct Hr as [|r raws [_ [v ->]] _]; [done|]. by split. Qed.

Lemma prepend_separator raws m : Forall sig_field raws -> startsWith CRLF m = false -> no_wsp_head m ->
  findSeparator (prefix_of raws ++ m) 0 =
    (fun '(h, b) => (length (prefix_of raws) + h, length (prefix_of raws) + b)%nat) <$> findSeparator m 0.
Proof.
  intros Hr Hm Hw. induction Hr as [|r raws [Hf [v Hv]] Hr IH].
  { cbn. by destruct (findSeparator m 0) as [[]|]. }
  change (prefix_of (r :: raws)) with ((r ++ CRLF) ++ prefix_of raws). rewrite <- !(assoc_L (++)).
  rewrite findSeparator_prepend; [|done|by rewrite Hv|by rewrite Hv|by apply prepend_head].
  rewrite IH. destruct (findSeparator m 0) as [[h b]|]; cbn [fmap option_fmap option_map]; [|done].
  rewrite !length_app. cbn [length CRLF]. do 2 f_equal; lia.
Qed.

Lemma prepend_fields raws head : Forall sig_field raws -> no_wsp_head head ->
  parseHeaderFields (prefix_of raws ++ head) = (makeField <$> raws) ++ parseHeaderFields head.
Proof.
  intros Hr Hw. induction Hr as [|r raws [Hf [v Hv]] Hr IH]; [done|].
  change (prefix_of (r :: raws)) with ((r ++ CRLF) ++ prefix_of raws). rewrite <- !(assoc_L (++)).
  rewrite parseHeaderFields_cons; [|done|]; [by rewrite IH|].
  destruct Hr as [|r2 raws [_ [v2 ->]] _]; done.
Qed.

Lemma prepend_split raws m max max' head rest : Forall sig_field raws -> startsWith CRLF m = false -> no_wsp_head m ->
  cut m max = Some (head, rest) -> cut (prefix_of raws ++ m) max' <> None ->
  cut (prefix_of raws ++ m) max' = Some (prefix_of raws ++ head, rest) /\ no_wsp_head head.
Proof.
  intros Hr Hm Hw Hc Hc'. unfold cut in *. rewrite prepend_separator in * by done.
  destruct (findSeparator m 0) as [[h b]|]; cbn [fmap option_fmap option_map] in *.
  - destruct (max <? h)%nat; [done|]. injection Hc as <- <-. destruct (max' <? _)%nat; [done|].
    rewrite take_app_add, drop_app_add. split; [done|]. destruct m as [|c m]; [by rewrite take_nil|]. by destruct h.
  - destruct (max <? length m)%nat; [done|]. injection Hc as <- <-. by destruct (max' <? _)%nat.
Qed.

Lemma sig_makeField raw : sig_field raw -> hf_key (makeField raw) = js "dkim-signature" /\ hf_raw (makeField raw) = raw.
Proof.
  intros [_ [v ->]]. split; [|done]. unfold makeField. rewrite indexOf_first by (vm_compute; set_solver).
  rewrite take_app_length. reflexivity.
Qed.

(** ** Other signatures never make the verifier throw *)

Lemma parseTags_b parts : forall acc tags v, parseTags_loop parts acc = inr tags -> tagGet (js "b") tags = Some v ->
  tagGet (js "b") acc = None ->
  Exists (fun p => exists eq, indexOf 61 p = Some eq /\ trimFws (take eq p) = js "b") parts.
Proof.
  induction parts as [|p parts IH]; intros acc tags v Hp Hg Ha; cbn [parseTags_loop] in Hp; [simplify_eq|].
  case_bool_decide; [destruct parts; [simplify_eq|done]|].
  destruct (indexOf 61 p) as [eq|] eqn:E; [|done]. case_match; [done|]. case_bool_decide; [done|].
  destruct (decide (trimFws (take eq p) = js "b")) as [Eb|Hb]; [left; eauto|]. right. eapply IH; [done|done|].
  clear -Ha Hb. induction acc as [|[n w] acc IH]; cbn [tagGet app] in *; [by rewrite bool_decide_false|].
  case_bool_decide; [done|auto].
Qed.

Lemma emptyB_found raw colon parts : forall offset,
  Exists (fun p => exists eq, indexOf 61 p = Some eq /\ trimFws (take eq p) = js "b") parts ->
  exists e, emptyB_loop raw colon parts offset = inr e.
Proof.
  induction parts as [|p parts IH]; intros offset Hex; [by inv Hex|]. cbn [emptyB_loop].
  destruct (indexOf 61 p) as [eq|] eqn:E.
  - case_bool_decide; [by eexists|]. apply IH. inv Hex; [|done]. destruct H2 as (? & ? & ?). congruence.
  - apply IH. inv Hex; [|done]. destruct H1 as (? & ? & ?). congruence.
Qed.

Definition length_ok (l : option Z) : Prop := match l with None => True | Some l => 0 <= l /\ isSafeInteger l = true end.

Lemma parse_length_ok l len : parse_length l = inr len -> length_ok len.
Proof.
  unfold parse_length. destruct l as [l|]; [|by intros [= <-]]. case_match; [done|]. case_match eqn:E; [done|]. intros [= <-].
  apply negb_false_iff in E. split; [|done]. unfold Number, to_double.
  assert (0 <= digits_val l) as Hd.
  { apply negb_false_iff, andb_true_iff in H0 as [_ Hdig]. apply forallb_Forall in Hdig. unfold digits_val. clear -Hdig.
    assert (forall v, 0 <= v -> 0 <= fold_left (fun v c => 10 * v + (c - 48)) l v) as Hg; [|by apply Hg].
    induction Hdig as [|c l Hc _ IH]; intros v Hv; [done|]. cbn. apply IH. apply is_digit_spec in Hc. lia. }
  case_match; [done|]. apply Z.mul_nonneg_nonneg; [|apply Z.pow_nonneg; lia].
  pose proof (Z.div_pos (digits_val l) (2 ^ (Z.log2 (digits_val l) - 52))) as Hq.
  assert (53 <= Z.log2 (digits_val l)) by (apply Z.log2_le_pow2; lia).
  specialize (Hq Hd ltac:(apply Z.pow_pos_nonneg; lia)). case_match; lia.
Qed.

Lemma parsed_ok raw p : parseSignatureField raw = inr p ->
  ps_raw p = raw /\ length_ok (ps_length p) /\ exists e, withEmptyB raw = inr e.
Proof.
  unfold parseSignatureField, withEmptyB. destruct (indexOf 58 raw) as [colon|]; [|done]. intros Hp.
  destruct (parseTagList (drop (S colon) raw)) as [|tags] eqn:Et; [done|].
  destruct (need tags (js "v")) as [|v]; [done|]. case_match; [done|]. destruct (need tags (js "a")) as [|a]; [done|].
  destruct (parse_algorithm _); [|done]. destruct (parseCanonicalization _) as [[hc bc]|]; [|done].
  destruct (need tags (js "h")) as [|h]; [done|]. case_match; [done|].
  destruct (parse_length _) as [|len] eqn:El; [done|]. destruct (need tags (js "d")); [done|]. destruct (need tags (js "s")); [done|].
  destruct (need tags (js "bh")); [done|]. destruct (need tags (js "b")) as [|b] eqn:Eb; [done|]. simplify_eq. cbn.
  split_and!; [done|by apply parse_length_ok in El|]. apply emptyB_found.
  unfold need in Eb. destruct (tagGet (js "b") tags) as [w|] eqn:Eg; [|done].
  eapply (parseTags_b _ [] tags w); [exact Et|done|done].
Qed.

(** ** One hasher per canonicalization and limit *)

Definition key_of (mode : Canonicalization) (len : option Z) : jsstr :=
  canon_name mode ++ js ":" ++ match len with Some l => dec l | None => [] end.

Lemma key_of_inj m1 l1 m2 l2 : length_ok l1 -> length_ok l2 -> key_of m1 l1 = key_of m2 l2 -> m1 = m2 /\ l1 = l2.
Proof.
  intros H1 H2 E. unfold key_of in E. destruct m1, m2; try done; (split; [done|]); apply app_inv_head in E; apply app_inv_head in E.
  all: destruct l1 as [a|], l2 as [b|]; try done.
  all: try (destruct (dec_chars a) as [_ Hne]; by rewrite E in Hne || by rewrite <- E in Hne).
  all: try (destruct (dec_chars b) as [_ Hne]; by rewrite <- E in Hne).
  all: destruct H1, H2; f_equal; destruct (dec_spec a) as (_ & _ & <-); [done|]; rewrite E; by destruct (dec_spec b) as (_ & _ & ->).
Qed.

Definition hashers_inv (hs : list (jsstr * BodyHasher)) : Prop :=
  (forall mode len h, length_ok len -> hasherGet (key_of mode len) hs = Some h -> newHasher mode len = Some h) /\
  Forall (fun kh => hasher_ok kh.2) hs.

Lemma hasherGet_app k hs k' h : hasherGet k (hs ++ [(k', h)]) =
  match hasherGet k hs with Some x => Some x | None => if bool_decide (k' = k) then Some h else None end.
Proof.
  induction hs as [|[k2 h2] hs IH]; [done|]. cbn [app hasherGet]. destruct (bool_decide (k2 = k)); [done|apply IH].
Qed.

Lemma newHasher_total mode len : length_ok len -> exists h, newHasher mode len = Some h /\ hasher_ok h.
Proof.
  intros Hl. assert (exists h, newHasher mode len = Some h) as [h E].
  { unfold newHasher. destruct len as [l|]; [|by eexists]. destruct Hl as [Hl ->]. replace (l <? 0) with false by lia. by eexists. }
  exists h. split; [done|]. by apply newHasher_ok in E as [].
Qed.

Definition lengths_ok (ps : list (LocalVerifyResult + ParsedSignature)) : Prop :=
  Forall (fun x => match x with inr p => length_ok (ps_length p) | inl _ => True end) ps.

Lemma make_hashers_ok ps : lengths_ok ps -> forall hs, hashers_inv hs ->
  exists hs', make_hashers ps hs = Some hs' /\ hashers_inv hs' /\
    (forall k h, hasherGet k hs = Some h -> hasherGet k hs' = Some h) /\
    Forall (fun x => match x with inr p => is_Some (hasherGet (hasherKey p) hs') | inl _ => True end) ps.
Proof.
  induction 1 as [|[r|p] ps Hx _ IH]; intros hs Hinv; cbn [make_hashers].
  - by exists hs.
  - destruct (IH hs Hinv) as (hs' & E & I1 & I2 & I3). exists hs'. split_and!; try done. by constructor.
  - destruct (hasherGet (hasherKey p) hs) as [h|] eqn:Eg.
    + destruct (IH hs Hinv) as (hs' & E & I1 & I2 & I3). exists hs'. split_and!; try done. constructor; [|done].
      exists h. by apply I2.
    + destruct (newHasher_total (ps_bodyCanon p) (ps_length p) Hx) as (h & En & Hok). rewrite En. cbn [mbind option_bind].
      destruct Hinv as [V1 V2]. destruct (IH (hs ++ [(hasherKey p, h)])) as (hs' & E & I1 & I2 & I3).
      { split; [|apply Forall_app; split; [done|by apply Forall_singleton]]. intros mode len h' Hl. rewrite hasherGet_app.
        destruct (hasherGet (key_of mode len) hs) eqn:Eh; [intros [= <-]; by eapply V1|]. case_bool_decide as Ek; [|done].
        intros [= <-]. apply key_of_inj in Ek as [<- <-]; done. }
      exists hs'. split_and!; try done.
      * intros k h' Hk. apply I2. by rewrite hasherGet_app, Hk.
      * constructor; [|done]. exists h. apply I2. rewrite hasherGet_app, Eg. by rewrite bool_decide_true.
Qed.

Lemma feed_all body hs : Forall (fun kh => hasher_ok kh.2) hs ->
  exists hs', mapM (fun '(k, h) => h ← feed_hasher body h; Some (k, h)) hs = Some hs' /\
    forall k, hasherGet k hs' = hasherGet k hs ≫= feed_hasher body.
Proof.
  induction 1 as [|[k h] hs Hh _ (hs' & E & IH)]; [by exists []|]. cbn [snd] in Hh.
  destruct (feed_hasher_spec body h Hh) as (o & c & h' & _ & Ef & _). exists ((k, h') :: hs'). split.
  - cbn [mapM mbind option_bind]. rewrite Ef. cbn [mbind option_bind]. by rewrite E.
  - intros k2. cbn [hasherGet]. case_bool_decide; [by cbn; rewrite Ef|]. apply IH.
Qed.

Lemma collect_ok {A} (l : list (jsstr + A)) l1 : (forall x, x ∈ l -> exists a, x = inr a) ->
  exists others, collect ((inr <$> l1) ++ l) = inr (l1 ++ others).
Proof.
  intros Hl. assert (exists r, collect l = inr r) as [r Er].
  { induction l as [|x l IH]; [by eexists|]. destruct (Hl x) as [a ->]; [set_solver|]. cbn [collect].
    destruct IH as [r ->]; [set_solver|]. by eexists. }
  exists r. induction l1 as [|a l1 IH]; [done|]. rewrite fmap_cons. cbn [app collect]. by rewrite IH.
Qed.

Lemma verify_one_total fields keys hashers x :
  match x with inr p => exists e, withEmptyB (ps_raw p) = inr e | inl _ => True end ->
  exists r, verify_one fields keys hashers x = inr r.
Proof.
  destruct x as [r|p]; [by eexists|]. intros [e He]. unfold verify_one.
  rewrite He. repeat case_match; by eexists.
Qed.

Lemma parsed_signatures_ok fields : lengths_ok (parsed_signatures fields) /\
  Forall (fun x => match x with inr p => exists e, withEmptyB (ps_raw p) = inr e | inl _ => True end) (parsed_signatures fields).
Proof.
  unfold parsed_signatures, lengths_ok. induction fields as [|f fields [I1 I2]]; [done|]. cbn [List.filter].
  destruct (is_signature f); [|done]. rewrite fmap_cons.
  destruct (parseSignatureField (hf_raw f)) as [e|p] eqn:E; [by split; constructor|].
  apply parsed_ok in E as (E1 & E2 & E3). split; constructor; try done. by rewrite E1.
Qed.

(** ** End to end *)

(** What the signer and the verifier need of Node's cryptography: a digest is a non-empty octet
    string, and the public key of a pair accepts what its private key signed. *)
Definition digest_ok : Prop := forall b, octets_ok (sha256 b) /\ sha256 b <> [].

Definition key_pair (a : DkimAlgorithm) (priv pub : KeyObject) : Prop :=
  asymmetricKeyType pub = keyTypeFor a /\
  forall data, octets_ok (signHeaderData a priv data) /\ signHeaderData a priv data <> [] /\
    verifyHeaderData a pub data (signHeaderData a priv data) = inr true.

Definition raw_signature (fields : list HeaderField) (hc bc : Canonicalization) (domain : jsstr) (t : Z)
    (hNames : list jsstr) (bh : jsstr) (key : DkimSigningKey) : jsstr :=
  let folder := unsigned_field hc bc domain key t hNames bh in
  fo_text (folder_addSplittable
    (base64_encode (signHeaderData (sk_algorithm key) (sk_privateKey key) (headerHashInput fields hNames (fo_text folder) hc))) folder).

Lemma ordered_elem k keys : k ∈ ordered keys <-> k ∈ keys.
Proof.
  unfold ordered. rewrite elem_of_app, !list_elem_of_In, !filter_In. destruct (sk_algorithm k); cbn; intuition.
Qed.

Lemma checkKeys_selector keys k : checkKeys keys = None -> k ∈ keys -> isDomainName (sk_selector k) = true.
Proof.
  induction keys as [|k' keys IH]; [set_solver|]. cbn [checkKeys]. intros Hc Hin.
  destruct (isDomainName (sk_selector k')) eqn:E; [|done]. apply elem_of_cons in Hin as [->|Hin]; [done|].
  apply IH; [|done]. by repeat case_match.
Qed.

(** The parsed form of an added signature, and that the verifier passes it. *)
Lemma added_signature_passes fields sf keys hashers hc bc domain t names hash key pub :
  signable hc bc domain key names (base64_encode hash) -> octets_ok hash ->
  key_pair (sk_algorithm key) (sk_privateKey key) pub -> keys (sk_selector key) = Some pub ->
  select_loop (sf ++ fields) names ∅ = select_loop fields names ∅ ->
  (exists h, hasherGet (key_of bc None) hashers = Some h /\ (hasher_digest h).1 = hash) ->
  let raw := raw_signature fields hc bc domain t names (base64_encode hash) key in
  exists p, sig_field raw /\ parseSignatureField raw = inr p /\ hasherKey p = key_of bc None /\
    verify_one (sf ++ fields) keys hashers (inr p) = inr (mkVerify Pass (Some (domain, sk_selector key, sk_algorithm key)) None).
Proof.
  intros Hok Hh [Hty Hpair] Hk Hsel (h & Eh & Ed) raw.
  set (data := headerHashInput fields names (fo_text (unsigned_field hc bc domain key t names (base64_encode hash))) hc).
  destruct (Hpair data) as (S1 & S2 & S3).
  destruct (field_reads_back hc bc domain key t names hash _ Hok Hh S1 S2) as (E1 & E2 & E3 & E4).
  eexists. split_and!; [split; [exact E2|exact E3]|exact E4|done|].
  unfold verify_one. cbn [ps_domain ps_selector ps_algorithm ps_length ps_bodyHash ps_raw ps_signedHeaders ps_headerCanon ps_signature].
  match goal with |- context [hasherGet ?k hashers] => change k with (key_of bc None) end.
  rewrite Eh. destruct (hasher_digest h) as [d h'] eqn:Edig. cbn [fst] in Ed. subst d.
  rewrite bool_decide_true by done. cbn [negb]. rewrite Hk, Hty, bool_decide_true by done. cbn [negb].
  rewrite E1. unfold headerHashInput at 1, selectHeaders. rewrite Hsel.
  fold (selectHeaders fields names). fold (headerHashInput fields names (fo_text (unsigned_field hc bc domain key t names (base64_encode hash))) hc).
  fold data. by rewrite S3.
Qed.

Lemma parsed_signatures_app a b : parsed_signatures (a ++ b) = parsed_signatures a ++ parsed_signatures b.
Proof. unfold parsed_signatures. by rewrite List.filter_app, fmap_app. Qed.

Lemma parsed_signatures_raws (raw : DkimSigningKey -> jsstr) ks ps :
  Forall2 (fun k p => sig_field (raw k) /\ parseSignatureField (raw k) = inr p) ks ps ->
  parsed_signatures (makeField <$> (raw <$> ks)) = inr <$> ps.
Proof.
  unfold parsed_signatures. induction 1 as [|k p ks ps [Hf Hp] _ IH]; [done|]. rewrite !fmap_cons. cbn [List.filter].
  destruct (sig_makeField (raw k) Hf) as [E1 E2]. unfold is_signature at 1. rewrite E1, bool_decide_true by done.
  rewrite fmap_cons, E2, Hp, IH. done.
Qed.

Lemma prefix_concat (f : DkimSigningKey -> jsstr) ks : concat ((fun k => f k ++ CRLF) <$> ks) = prefix_of (f <$> ks).
Proof. unfold prefix_of. by rewrite <- list_fmap_compose. Qed.

Lemma fields_need_separator m max head rest : cut m max = Some (head, rest) ->
  (0 < count (js "from") (hf_key <$> parseHeaderFields head))%nat -> startsWith CRLF m = false.
Proof.
  unfold cut, findSeparator. destruct (startsWith CRLF m); [|done].
  replace (max <? 0)%nat with false by (symmetry; apply Nat.ltb_ge; lia). intros [= <- _] Hc. rewrite take_0 in Hc. cbn in Hc. lia.
Qed.

Lemma verify_all (v : LocalVerifyResult + ParsedSignature -> jsstr + LocalVerifyResult) (Q : DkimSigningKey -> ParsedSignature -> Prop)
    (pass : DkimSigningKey -> LocalVerifyResult) ks ps :
  Forall2 (fun k p => Q k p /\ v (inr p) = inr (pass k)) ks ps -> v <$> (inr <$> ps) = inr <$> (pass <$> ks).
Proof. induction 1 as [|k p ks ps [_ Hp] _ IH]; [done|]. rewrite !fmap_cons, Hp. by f_equal. Qed.

(** A run of the verifier on a message with added signatures. *)
Lemma verify_prepended m max max' head rest hc bc domain t names hash h0 ks keys :
  cut m max = Some (head, rest) -> no_wsp_head m ->
  cut (prefix_of (raw_signature (parseHeaderFields head) hc bc domain t names (base64_encode hash) <$> ks) ++ m)
    (default DEFAULT_MAX_HEADER_BYTES max') <> None ->
  startsWith CRLF m = false ->
  (forall k, k ∈ ks -> signable hc bc domain k names (base64_encode hash) /\
     exists pub, keys (sk_selector k) = Some pub /\ key_pair (sk_algorithm k) (sk_privateKey k) pub) ->
  octets_ok hash ->
  Forall (fun n => asciiLower (trim n) = n) names ->
  (forall k, k <> js "from" -> (count k names <= count k (hf_key <$> parseHeaderFields head))%nat) ->
  (newHasher bc None ≫= feed_hasher (nonEmpty [rest])) = Some h0 -> (hasher_digest h0).1 = hash ->
  exists others,
    verifyLocal (WholeBuffer (prefix_of (raw_signature (parseHeaderFields head) hc bc domain t names (base64_encode hash) <$> ks) ++ m)) keys max' =
    inr (((fun k => mkVerify Pass (Some (domain, sk_selector k, sk_algorithm k)) None) <$> ks) ++ others).
Proof.
  set (fields := parseHeaderFields head). set (raw := raw_signature fields hc bc domain t names (base64_encode hash)).
  intros Hcut Hw Hcut' Hcr Hks Hh Hlow Hcnt Eh0 Edig.
  assert (forall hashers, (exists h, hasherGet (key_of bc None) hashers = Some h /\ (hasher_digest h).1 = hash) ->
    forall sf, select_loop (sf ++ fields) names ∅ = select_loop fields names ∅ ->
    exists ps, Forall2 (fun k p => sig_field (raw k) /\ parseSignatureField (raw k) = inr p) ks ps /\
      Forall2 (fun k p => hasherKey p = key_of bc None /\ verify_one (sf ++ fields) keys hashers (inr p) =
        inr (mkVerify Pass (Some (domain, sk_selector k, sk_algorithm k)) None)) ks ps) as Hadd.
  { intros hashers Hhs sf Hsf. clear Hcut'. induction ks as [|k ks IH]; [by exists []|].
    destruct (Hks k) as (Hsg & pub & Hk & Hp); [set_solver|].
    destruct (added_signature_passes fields sf keys hashers hc bc domain t names hash k pub) as (p & P1 & P2 & P3 & P4); [done..|].
    destruct IH as (ps & F1 & F2); [intros k' Hk'; apply Hks; set_solver|].
    exists (p :: ps). by split; constructor. }
  destruct (Hadd [(key_of bc None, h0)] ltac:(exists h0; split; [cbn [hasherGet]; by rewrite bool_decide_true|done]) [] eq_refl) as (ps & F1 & _).
  assert (Forall sig_field (raw <$> ks)) as Hsf.
  { clear -F1. induction F1 as [|k p ks ps [Hf _] _ IH]; [done|]. by constructor. }
  destruct (prepend_split (raw <$> ks) m max _ head rest Hsf Hcr Hw Hcut Hcut') as [Ecut Hwh].
  unfold verifyLocal, splitMessage, splitBuffer. rewrite Ecut. cbn [mbind option_bind sm_fields sm_body].
  rewrite prepend_fields by done. fold fields. rewrite parsed_signatures_app, (parsed_signatures_raws raw ks ps) by done.
  assert (select_loop ((makeField <$> (raw <$> ks)) ++ fields) names ∅ = select_loop fields names ∅) as Hsel.
  { apply select_prepend; [done|]. intros k. rewrite lookup_empty. cbn [default]. destruct (decide (k = js "from")) as [->|Hk]; [right|left].
    - intros (f & Ef & Hf)%list_elem_of_fmap. apply list_elem_of_fmap in Hf as (r & -> & Hr). rewrite Forall_forall in Hsf.
      destruct (sig_makeField r (Hsf r Hr)) as [E1 _]. by rewrite E1 in Ef.
    - by apply Hcnt. }
  assert (lengths_ok (((inr <$> ps) : list (LocalVerifyResult + ParsedSignature)) ++ parsed_signatures fields)) as Hlen.
  { destruct (parsed_signatures_ok ((makeField <$> (raw <$> ks)) ++ fields)) as [Hl _].
    by rewrite parsed_signatures_app, (parsed_signatures_raws raw ks ps) in Hl. }
  destruct (make_hashers_ok _ Hlen []) as (hs & Em & [I1 I2] & _ & I3); [by split|].
  rewrite Em. cbn [mbind option_bind]. destruct (feed_all (nonEmpty [rest]) hs I2) as (hs' & Ef & Hget). rewrite Ef.
  rewrite fmap_app.
  assert (ks <> [] -> exists h, hasherGet (key_of bc None) hs' = Some h /\ (hasher_digest h).1 = hash) as Hhash.
  { intros Hne. rewrite Hget. apply Forall_app in I3 as [I3 _].
    destruct (Hadd [(key_of bc None, h0)] ltac:(exists h0; split; [cbn [hasherGet]; by rewrite bool_decide_true|done]) [] eq_refl) as (ps' & G1 & G2).
    destruct G2 as [|k p ks ps2 [Hkey _] _]; [done|]. inversion F1 as [|? p' ? ? [_ Hp'] _]; subst. inversion G1 as [|? ? ? ? [_ Hp] _]; subst.
    assert (p' = p) as -> by congruence. rewrite fmap_cons in I3. apply Forall_cons in I3 as [[h Eh] _]. rewrite Hkey in Eh.
    rewrite Eh. cbn [mbind option_bind]. apply I1 in Eh; [|done]. rewrite Eh in Eh0. cbn [mbind option_bind] in Eh0. rewrite Eh0. by exists h0. }
  assert (verify_one ((makeField <$> (raw <$> ks)) ++ fields) keys hs' <$> (inr <$> ps) =
    inr <$> ((fun k => mkVerify Pass (Some (domain, sk_selector k, sk_algorithm k)) None) <$> ks)) as ->.
  { destruct (decide (ks = [])) as [->|Hne]; [by inv F1|].
    destruct (Hadd hs' (Hhash Hne) _ Hsel) as (ps' & G1 & G2). assert (ps' = ps) as ->.
    { clear -F1 G1. revert ps' G1. induction F1 as [|k p ks ps [_ Hp] _ IH]; intros ps' G1; inversion G1 as [|? p' ? ? [_ Hp'] G]; subst; [done|].
      f_equal; [congruence|by apply IH]. }
    eapply verify_all. exact G2. }
  apply collect_ok. intros x (y & -> & Hy)%list_elem_of_fmap. apply verify_one_total.
  destruct (parsed_signatures_ok fields) as [_ Hall]. rewrite Forall_forall in Hall. by apply Hall.
Qed.

(** C30: Signing then verifying. Whatever message the signer accepts, prepending the fields it
    returns yields a message in which the local verifier passes every one of them, in order and
    with the signer's domain, selector and algorithm - provided the verifier is given the public
    keys of the pairs, the names configured for signing are plain header names, the message does
    not start with a continuation line, and the header block still fits the verifier's limit. Other
    signatures the message may carry cannot make the verifier throw. *)
Theorem signed_message_verifies m options sigs keys max' :
  digest_ok ->
  (forall k, k ∈ so_keys options ->
     exists pub, keys (sk_selector k) = Some pub /\ key_pair (sk_algorithm k) (sk_privateKey k) pub) ->
  Forall plain_config (default DEFAULT_SIGNED_HEADERS (so_headers options)) ->
  no_wsp_head m ->
  signMessage (WholeBuffer m) options = inr sigs ->
  splitMessage (WholeBuffer (concat sigs ++ m)) max' <> None ->
  exists others,
    verifyLocal (WholeBuffer (concat sigs ++ m)) keys max' =
    inr (((fun k => mkVerify Pass (Some (so_domain options, sk_selector k, sk_algorithm k)) None) <$> ordered (so_keys options)) ++ others).
Proof.
  intros Hdig Hkeys Hplain Hw Hsign Hsplit. unfold signMessage in Hsign.
  destruct (isDomainName (so_domain options)) eqn:Ed; [|done]. cbn [negb] in Hsign. case_bool_decide; [done|].
  destruct (checkKeys (so_keys options)) eqn:Ek; [done|].
  destruct (default (relaxed, relaxed) (so_canonicalization options)) as [hc bc].
  cbn [splitMessage] in Hsign. unfold splitBuffer in Hsign.
  destruct (cut m (default DEFAULT_MAX_HEADER_BYTES (so_maxHeaderBytes options))) as [[head rest]|] eqn:Ecut; [|done].
  cbn [mbind option_bind sm_fields sm_body] in Hsign.
  destruct (signedHeaderNames _ _) as [|names] eqn:En; [done|].
  destruct (newHasher bc None ≫= feed_hasher (nonEmpty [rest])) as [h0|] eqn:Eh; [|done]. injection Hsign as <-.
  destruct (signedHeaderNames_ok _ _ _ Hplain En) as (N1 & N2 & N3 & N4 & N5).
  assert (octets_ok (hasher_digest h0).1 /\ (hasher_digest h0).1 <> []) as [Hoct Hne].
  { destruct (newHasher_total bc None I) as (h1 & E1 & Hok). rewrite E1 in Eh. cbn [mbind option_bind] in Eh.
    destruct (feed_hasher_spec (nonEmpty [rest]) h1 Hok) as (o & c & h' & _ & E2 & (G1 & _) & _). rewrite Eh in E2. injection E2 as <-.
    unfold hasher_digest. rewrite G1. destruct (canon_end _) as [o2 c2]. apply Hdig. }
  set (hash := (hasher_digest h0).1) in *.
  change (sign_with ?f hc bc ?d ?t names (base64_encode hash)) with
    (fun k => raw_signature f hc bc d t names (base64_encode hash) k ++ CRLF) in Hsplit |- *.
  rewrite prefix_concat in *. unfold splitMessage, splitBuffer in Hsplit.
  eapply verify_prepended; [exact Ecut|done| |by eapply fields_need_separator| |done|done|done|exact Eh|done].
  - intros E. by rewrite E in Hsplit.
  - intros k Hk. apply (proj1 (ordered_elem k _)) in Hk. split; [|by apply Hkeys].
    split_and!; [done|by eapply checkKeys_selector|done|done|by apply base64_roundtrip|by apply base64_encode_ne].
Qed.
End verify.

(** ** A concrete signer *)

Module Toy.

(** A checksum for a hash and a keyed checksum for a signature: enough to run the code. *)
Definition checksum (b : bytes) : Z := fold_left (fun a x => (a * 31 + x + 7) mod 256) b 0.

#[export] Instance sha : Sha256 := {| sha256 b := [checksum b; Z.of_nat (length b) mod 256] |}.

#[export] Instance crypto : DkimCrypto := {|
  KeyObject := bool * Z * jsstr;
  key_private k := k.1.1;
  asymmetricKeyType k := k.2;
  modulusLength k := 2048;
  crypto_sign _ d k := [checksum (k.1.2 :: d)];
  crypto_verify _ d k s := inr (bool_decide (s = [checksum (k.1.2 :: d)]));
  base64_lenient _ := []
|}.

#[export] Instance runtime : Runtime := {|
  uni_upper s := s; uni_lower s := s; big_string _ := []; isIPv6 _ := false
|}.

Definition options : SignOptions :=
  mkSignOptions (js "example.org")
    [mkSigningKey (js "r1") Rsa_sha256 (true, 5, js "rsa"); mkSigningKey (js "e1") Ed25519_sha256 (true, 9, js "ed25519")]
    None 1700000000000 None None.

Definition public (selector : jsstr) : option KeyObject :=
  if bool_decide (selector = js "r1") then Some (false, 5, js "rsa")
  else if bool_decide (selector = js "e1") then Some (false, 9, js "ed25519") else None.

Definition message : bytes :=
  js "From: a@example.org" ++ CRLF ++ js "Subject:  hello" ++ CRLF ++ js "To: b@example.net" ++ CRLF ++ CRLF ++
  js "Body  text " ++ CRLF ++ CRLF.

Definition signatures : list jsstr := match signMessage (WholeBuffer message) options with inr s => s | inl _ => [] end.

Lemma checksum_octet b : is_octet (checksum b).
Proof.
  unfold checksum. assert (forall a, is_octet a -> is_octet (fold_left (fun a x => (a * 31 + x + 7) mod 256) b a)) as Hg.
  { induction b as [|x b IH]; intros a Ha; [done|]. cbn [fold_left]. apply IH. apply Z.mod_pos_bound. lia. }
  apply Hg. zlia.
Qed.

Lemma pair_ok a n ty : ty = keyTypeFor a -> key_pair a (true, n, ty) (false, n, ty).
Proof.
  intros ->. split; [done|]. intros data.
  destruct a; cbn -[checksum]; (split_and!; [constructor; [apply checksum_octet|constructor]|done|by rewrite bool_decide_true]).
Qed.
End Toy.

#[local] Existing Instances Toy.sha Toy.crypto Toy.runtime.

Lemma signed_message_verifies_witness : exists others,
  verifyLocal (WholeBuffer (concat Toy.signatures ++ Toy.message)) Toy.public None =
  inr (((fun k => mkVerify Pass (Some (js "example.org", sk_selector k, sk_algorithm k)) None) <$> ordered (so_keys Toy.options)) ++ others).
Proof.
  apply (signed_message_verifies Toy.message Toy.options Toy.signatures Toy.public None).
  - intros b. split; [|done]. constructor; [apply Toy.checksum_octet|]. constructor; [|constructor].
    apply Z.mod_pos_bound. lia.
  - intros k [->|[->|[]%elem_of_nil]%elem_of_cons]%elem_of_cons.
    + exists (false, 5, js "rsa"). split; [vm_compute; reflexivity|by apply Toy.pair_ok].
    + exists (false, 9, js "ed25519"). split; [vm_compute; reflexivity|by apply Toy.pair_ok].
  - apply (bool_decide_unpack _). vm_compute. exact I.
  - vm_compute. reflexivity.
  - vm_compute. reflexivity.
  - vm_compute. discriminate.
Defined.
