(* ===== verification/DkimSplitProofs.v ===== *)
(** * DkimSplitProofs: body hash and message split, from a stream and from a buffer *)
From stdpp Require Import gmap.
From S2P Require Import Prelude JsString JsStringFacts DkimCanon DkimCanonProofs DkimMessage DkimSign DkimSignFacts.

(** The body hash. Whatever chunks a hasher is given, its digest is the SHA-256 of the canonical
    body of RFC 6376, cut at the l= limit when there is one, and [canonicalLength] is the length of
    the whole canonical body; no chunk makes it throw. *)
Theorem body_hash_correct `{Sha256} mode limit h0 chunks : newHasher mode limit = Some h0 ->
  exists h, feed_hasher chunks h0 = Some h /\
    (hasher_digest h).1 = sha256 (limited limit (canon_spec mode (concat chunks))) /\
    canonicalLength (hasher_digest h).2 = Z.of_nat (length (canon_spec mode (concat chunks))).
Proof. apply body_hash_spec. Qed.

#[local] Instance demo_sha : Sha256 := {| sha256 b := take 4 b |}.

Lemma body_hash_correct_witness : exists h0 h,
  newHasher relaxed (Some 3) = Some h0 /\ feed_hasher [js "a "; js " b"; CRLF] h0 = Some h /\
  (hasher_digest h).1 = sha256 (limited (Some 3) (canon_spec relaxed (js "a  b" ++ CRLF))) /\
  canonicalLength (hasher_digest h).2 = 5.
Proof.
  eexists. destruct (body_hash_correct relaxed (Some 3) (mkHasher [] (newCanonicalizer relaxed) (Some 3) 0 0 None)
    [js "a "; js " b"; CRLF] eq_refl) as (h & H1 & H2 & H3).
  exists h. split; [reflexivity|]. split; [exact H1|]. split; [exact H2|exact H3].
Defined.

(** ** Searching *)

Lemma indexOfSub_Some p l i : indexOfSub p l = Some i -> exists u v, l = u ++ p ++ v /\ length u = i.
Proof.
  revert i. induction l as [|x l IH]; intros i; cbn [indexOfSub].
  - destruct (startsWith p []) eqn:E; [|done]. intros [= <-]. apply startsWith_spec in E as [t Ht]. by exists [], t.
  - destruct (startsWith p (x :: l)) eqn:E.
    + intros [= <-]. apply startsWith_spec in E as [t Ht]. by exists [], t.
    + destruct (indexOfSub p l) as [j|]; [|done]. intros [= <-]. destruct (IH j eq_refl) as (u & v & -> & <-). by exists (x :: u), v.
Qed.

Lemma indexOfSub_first p u v : indexOfSub p (u ++ p ++ v) <> None.
Proof.
  induction u as [|x u IH]; cbn [app].
  - rewrite indexOfSub_hit; [done|]. apply startsWith_spec. by exists v.
  - cbn [indexOfSub]. destruct (startsWith p (x :: u ++ p ++ v)); [done|]. by destruct (indexOfSub p (u ++ p ++ v)).
Qed.

Lemma startsWith_app p l r : startsWith p l = true -> startsWith p (l ++ r) = true.
Proof. intros [t ->]%startsWith_spec. apply startsWith_spec. exists (t ++ r). by rewrite (assoc_L (++)). Qed.

Lemma startsWith_app_inv p l r : (length p <= length l)%nat -> startsWith p (l ++ r) = true -> startsWith p l = true.
Proof.
  intros Hl [t E]%startsWith_spec. apply startsWith_spec. exists (drop (length p) l).
  apply (f_equal (take (length p))) in E. rewrite take_app_length in E. rewrite take_app_le in E by done.
  rewrite <- E at 1. by rewrite take_drop.
Qed.

(** Appending does not move a match, and keeps an old part free of one free of it. *)
Lemma indexOfSub_mono p l r i : indexOfSub p l = Some i -> indexOfSub p (l ++ r) = Some i.
Proof.
  revert i. induction l as [|x l IH]; intros i; cbn [indexOfSub app].
  - destruct (startsWith p []) eqn:E; [|done]. intros [= <-]. apply indexOfSub_hit. by apply (startsWith_app _ []).
  - destruct (startsWith p (x :: l)) eqn:E.
    + intros [= <-]. pose proof (startsWith_app _ _ r E) as E'. cbn [app] in E'. by rewrite E'.
    + destruct (startsWith p (x :: l ++ r)) eqn:E2.
      * intros Hi. exfalso. destruct (indexOfSub p l) as [j|] eqn:Ej; [|done].
        apply indexOfSub_Some in Ej as (u & v & -> & _).
        assert (startsWith p (x :: u ++ p ++ v) = true); [|congruence].
        apply (startsWith_app_inv p (x :: u ++ p ++ v) r); [cbn; rewrite !length_app; lia|done].
      * destruct (indexOfSub p l) as [j|] eqn:Ej; [|done]. intros [= <-]. by rewrite (IH j).
Qed.

Lemma indexOfSub_fresh p l r i : indexOfSub p l = None -> indexOfSub p (l ++ r) = Some i ->
  (length l < i + length p)%nat.
Proof.
  intros Hl Hi. apply indexOfSub_Some in Hi as (u & v & E & Hu).
  destruct (decide (length l < i + length p)%nat) as [|Hge]; [done|]. exfalso.
  apply (indexOfSub_first p u (drop (i + length p) l)). rewrite <- Hl. f_equal.
  assert (take (i + length p) (l ++ r) = u ++ p) as Et.
  { rewrite E, (assoc_L (++)). replace (i + length p)%nat with (length (u ++ p)) by (rewrite length_app; lia). apply take_app_length. }
  rewrite take_app_le in Et by lia. rewrite (assoc_L (++)), <- Et. by rewrite take_drop.
Qed.

(** The search may start three octets before the new chunk. *)
Lemma search_from acc chunk : indexOfSub SEPARATOR acc = None ->
  indexOfFrom SEPARATOR (acc ++ chunk) (length acc - 3) = indexOfSub SEPARATOR (acc ++ chunk).
Proof.
  intros Hacc. unfold indexOfFrom. set (k := (length acc - 3)%nat).
  rewrite <- (take_drop k (acc ++ chunk)) at 2. rewrite indexOfSub_plain.
  - rewrite length_take, length_app. replace (k `min` (length acc + length chunk))%nat with k by lia. done.
  - intros u v E Hv. destruct (startsWith SEPARATOR (v ++ drop k (acc ++ chunk))) eqn:Es; [|done]. exfalso.
    apply startsWith_spec in Es as [w Ew].
    assert (acc ++ chunk = u ++ SEPARATOR ++ w) as Eall.
    { rewrite <- Ew, (assoc_L (++)), <- E. by rewrite take_drop. }
    assert (length u < k)%nat as Hu.
    { apply (f_equal length) in E. rewrite length_take, !length_app in E. destruct v; [done|]. cbn in E. lia. }
    apply (indexOfSub_first SEPARATOR u (drop (length u + 4) acc)). rewrite <- Hacc. f_equal.
    assert (take (length u + 4) (acc ++ chunk) = u ++ SEPARATOR) as Et.
    { rewrite Eall, (assoc_L (++)). replace (length u + 4)%nat with (length (u ++ SEPARATOR)) by (rewrite length_app; cbn; lia). apply take_app_length. }
    rewrite take_app_le in Et by (unfold k in *; lia). rewrite (assoc_L (++)), <- Et. by rewrite take_drop.
Qed.

Lemma indexOfFrom_0 p l : indexOfFrom p l 0 = indexOfSub p l.
Proof. unfold indexOfFrom. rewrite drop_0. by destruct (indexOfSub p l). Qed.

Lemma findSeparator_from acc chunk : findSeparator acc 0 = None ->
  findSeparator (acc ++ chunk) (length acc - 3) = findSeparator (acc ++ chunk) 0.
Proof.
  unfold findSeparator. destruct (startsWith CRLF acc); [done|]. intros Hacc.
  destruct (startsWith CRLF (acc ++ chunk)); [done|]. rewrite indexOfFrom_0 in *. rewrite search_from; [done|].
  by destruct (indexOfSub SEPARATOR acc).
Qed.

Lemma findSeparator_bounds l h b : findSeparator l 0 = Some (h, b) -> (b <= length l)%nat /\ (b = h + 2)%nat.
Proof.
  unfold findSeparator, indexOfFrom. rewrite drop_0. destruct (startsWith CRLF l) eqn:E.
  - intros [= <- <-]. apply startsWith_spec in E as [t ->]. cbn. lia.
  - destruct (indexOfSub SEPARATOR l) as [i|] eqn:Ei; [|done]. intros [= <- <-].
    apply indexOfSub_Some in Ei as (u & v & -> & <-). rewrite !length_app. cbn. lia.
Qed.

Lemma findSeparator_mono l r h b : findSeparator l 0 = Some (h, b) -> findSeparator (l ++ r) 0 = Some (h, b).
Proof.
  unfold findSeparator, indexOfFrom. rewrite !drop_0. destruct (startsWith CRLF l) eqn:E; [by rewrite (startsWith_app _ _ r E)|].
  destruct (indexOfSub SEPARATOR l) as [i|] eqn:Ei; [|done]. intros [= <- <-].
  destruct (startsWith CRLF (l ++ r)) eqn:E2.
  - apply startsWith_app_inv in E2; [congruence|]. apply indexOfSub_Some in Ei as (u & v & -> & _). rewrite !length_app. cbn. lia.
  - by rewrite (indexOfSub_mono _ _ r _ Ei).
Qed.

Lemma findSeparator_late l r h b : findSeparator l 0 = None -> findSeparator (l ++ r) 0 = Some (h, b) -> (length l <= h + 1)%nat.
Proof.
  unfold findSeparator, indexOfFrom. rewrite !drop_0. destruct (startsWith CRLF l) eqn:E; [done|].
  destruct (indexOfSub SEPARATOR l) as [i|] eqn:Ei; [done|]. intros _. destruct (startsWith CRLF (l ++ r)) eqn:E2.
  - intros [= <- <-]. destruct (decide (2 <= length l)%nat); [|lia].
    apply startsWith_app_inv in E2; [congruence|done].
  - destruct (indexOfSub SEPARATOR (l ++ r)) as [j|] eqn:Ej; [|done]. intros [= <- <-].
    pose proof (indexOfSub_fresh _ _ _ _ Ei Ej) as Hf. cbn in Hf. lia.
Qed.

(** ** A stream and a buffer split alike *)

Definition same_split (a b : option SplitMessage) : Prop :=
  match a, b with
  | Some a, Some b => sm_headerBlock a = sm_headerBlock b /\ sm_fields a = sm_fields b /\ concat (sm_body a) = concat (sm_body b)
  | None, None => True
  | _, _ => False
  end.

Lemma concat_nonEmpty l : concat (nonEmpty l) = concat l.
Proof. induction l as [|c l IH]; [done|]. unfold nonEmpty in *. cbn. case_bool_decide; subst; cbn; by rewrite IH. Qed.

Lemma split_stream max chunks : forall acc,
  findSeparator acc 0 = None ->
  match findSeparator (acc ++ concat chunks) 0 with Some (h, _) => (h < max)%nat | None => True end ->
  same_split (splitStream_loop chunks acc max) (splitBuffer (acc ++ concat chunks) max).
Proof.
  induction chunks as [|c chunks IH]; intros acc Hacc Hmax; cbn [splitStream_loop concat].
  { rewrite app_nil_r. unfold same_split. by destruct (splitBuffer acc max). }
  change (length SEPARATOR - 1)%nat with 3%nat. rewrite findSeparator_from by done. cbn [concat] in Hmax. rewrite (assoc_L (++)) in *.
  destruct (findSeparator (acc ++ c) 0) as [[h b]|] eqn:E.
  - pose proof (findSeparator_mono _ (concat chunks) _ _ E) as Em. pose proof (findSeparator_bounds _ _ _ E) as [Hb Hh].
    rewrite Em in Hmax. unfold splitBuffer, cut. rewrite Em. replace (max <? h)%nat with false by (symmetry; apply Nat.ltb_ge; lia).
    cbn [mbind option_bind same_split sm_headerBlock sm_fields sm_body].
    rewrite (take_app_le _ (concat chunks)) by lia. split_and!; [done|done|].
    rewrite !concat_nonEmpty. cbn [concat]. rewrite (drop_app_le _ (concat chunks)) by lia. by rewrite app_nil_r.
  - destruct (Nat.ltb_spec max (length (acc ++ c))) as [Hlt|_]; [|by apply IH].
    unfold splitBuffer, cut. destruct (findSeparator ((acc ++ c) ++ concat chunks) 0) as [[h b]|] eqn:Ef.
    + pose proof (findSeparator_late _ _ _ _ E Ef). lia.
    + replace (max <? length ((acc ++ c) ++ concat chunks))%nat with true; [done|].
      symmetry. apply Nat.ltb_lt. rewrite (length_app (acc ++ c)). lia.
Qed.

(** Splitting a message read from a stream gives the same header block, the same fields and the
    same body as splitting it from one buffer, however it is cut into chunks, and refuses the same
    oversized header blocks - as long as the block is smaller than the limit itself. *)
Theorem stream_splits_like_buffer chunks max :
  match findSeparator (concat chunks) 0 with Some (h, _) => (h < default DEFAULT_MAX_HEADER_BYTES max)%nat | None => True end ->
  same_split (splitMessage (Chunked chunks) max) (splitMessage (WholeBuffer (concat chunks)) max).
Proof. intros Hmax. apply (split_stream _ chunks []); [done|exact Hmax]. Qed.

Definition demo_stream : list bytes := [js "A: 1"; [CR]; [LF; CR]; [LF] ++ js "body"].

Lemma stream_splits_like_buffer_witness :
  same_split (splitMessage (Chunked demo_stream) (Some 8%nat)) (splitMessage (WholeBuffer (concat demo_stream)) (Some 8%nat)).
Proof. apply (stream_splits_like_buffer demo_stream (Some 8%nat)). vm_compute. lia. Defined.

(** At the limit itself the outcome depends on the chunks. *)
Example split_limit_depends_on_chunks :
  splitMessage (Chunked demo_stream) (Some 6%nat) = None /\
  splitMessage (WholeBuffer (concat demo_stream)) (Some 6%nat) <> None.
Proof. vm_compute. done. Qed.
