(* ===== verification/AuditLog.v ===== *)
(** * AuditLog: redaction and the append-only audit log (packages/audit/src)

    [redact] of redact.ts over a model of the JavaScript values it distinguishes, and [recordAudit]
    of record.ts as an append to the table's rows. Printing of dates is a parameter; row ids,
    which no reader of this model looks at, are left out. *)
From S2P Require Import Prelude JsString.

(** [Date.prototype.toISOString] of a valid time value. *)
Class DateRuntime := { toISOString : Z -> jsstr }.

(** An ISO 8601 date starts with a digit or a sign. *)
Definition starts_date (s : jsstr) : Prop := exists c t, s = c :: t /\ (is_digit c = true \/ c = 43 \/ c = 45).

Class DateRuntimeOk (D : DateRuntime) : Prop := { toISOString_start : forall t, starts_date (toISOString t) }.

(** ** Values *)

(** [VOpaque] is a function or a symbol, [VDate None] an invalid date, [VBytes n] a [Uint8Array] of
    [n] octets. Any other object is the list of its own enumerable entries, in order. *)
Inductive value :=
| VNull
| VUndef
| VBool (b : bool)
| VNum (n : Z)
| VBigInt (n : Z)
| VStr (s : jsstr)
| VOpaque
| VDate (time : option Z)
| VBytes (n : Z)
| VArr (items : list value)
| VObj (entries : list (jsstr * value)).

(** ** Case-insensitive search *)

(** [/p/i.test(s)] for a lower-case literal [p]. *)
Fixpoint includesCI (p s : jsstr) : bool :=
  startsWithCI p s || match s with [] => false | _ :: s' => includesCI p s' end.

Definition is_word (c : Z) : bool := isAlphaUpper c || isAlphaLower c || is_digit c || (c =? 95).

(** [/p\b/i.test(s)] for a literal [p] that ends in a letter. *)
Fixpoint includesWordEndCI (p s : jsstr) : bool :=
  (startsWithCI p s && match drop (length p) s with [] => true | c :: _ => negb (is_word c) end) ||
  match s with [] => false | _ :: s' => includesWordEndCI p s' end.

(** ** redact.ts *)

Definition SECRET_KEY (key : jsstr) : bool :=
  existsb (fun p => includesCI p key)
    [js "password"; js "passwd"; js "pwd"; js "secret"; js "token"; js "totp"; js "otp"; js "key"; js "hash";
     js "dek"; js "kek"; js "authorization"; js "cookie"; js "session"; js "credential"; js "private";
     js "apikey"; js "api_key"; js "bearer"; js "signature"; js "seed"] ||
  existsb (fun p => includesWordEndCI p key) [js "pass"; js "pin"].

(** [/^(bearer|basic)\s+\S+/i]. *)
Definition secret_scheme (scheme s : jsstr) : bool :=
  startsWithCI scheme s &&
  match drop (length scheme) s with
  | c :: rest => is_js_space c && match dropWhile is_js_space rest with [] => false | _ => true end
  | [] => false
  end.

Definition SECRET_VALUE (s : jsstr) : bool := secret_scheme (js "bearer") s || secret_scheme (js "basic") s.

Definition REDACTED : jsstr := js "[redacted]".

(** Assigning [out['__proto__']] sets the object's prototype instead of an entry. *)
Definition is_proto (k : jsstr) : bool := bool_decide (k = js "__proto__").

Section redaction.
Context `{DR : DateRuntime}.

Fixpoint redact (v : value) (key : option jsstr) : value :=
  if match key with Some k => SECRET_KEY k | None => false end then VStr REDACTED
  else
    match v with
    | VStr s => if SECRET_VALUE s then VStr REDACTED else VStr s
    | VNull | VUndef => VNull
    | VBigInt n => VStr (dec n)
    | VOpaque => VUndef
    | VDate None => VStr (js "Invalid Date")
    | VDate (Some t) => VStr (toISOString t)
    | VBytes n => VStr (js "[bytes:" ++ dec n ++ js "]")
    | VArr items => VArr (List.map (fun item => redact item None) items)
    | VObj entries =>
        VObj (List.filter (fun e => negb (is_proto (fst e)))
                (List.map (fun e => (fst e, redact (snd e) (Some (fst e)))) entries))
    | VBool _ | VNum _ => v
    end.

(** ** record.ts *)

Inductive Actor := AccountActor (accountId : jsstr) | OtherActor (kind : jsstr).

Record RequestContext := mkContext { rc_requestId : jsstr; rc_ip : option jsstr; rc_userAgent : option jsstr }.

Record AuditInput := mkAuditInput {
  ai_actor : Actor;
  ai_action : jsstr;
  ai_entityType : jsstr;
  ai_entityId : option jsstr;
  ai_before : option value;
  ai_after : option value;
  ai_context : option RequestContext
}.

(** A row of [audit_event]; [ae_at] is the time the database gives it. *)
Record AuditEvent := mkAuditEvent {
  ae_at : Z;
  ae_actorKind : jsstr;
  ae_actorAccountId : option jsstr;
  ae_action : jsstr;
  ae_entityType : jsstr;
  ae_entityId : option jsstr;
  ae_before : option value;
  ae_after : option value;
  ae_ip : option jsstr;
  ae_userAgent : option jsstr;
  ae_requestId : option jsstr
}.

Definition recordAudit (now : Z) (event : AuditInput) (table : list AuditEvent) : list AuditEvent :=
  table ++ [mkAuditEvent now
    (match ai_actor event with AccountActor _ => js "account" | OtherActor k => k end)
    (match ai_actor event with AccountActor a => Some a | OtherActor _ => None end)
    (ai_action event) (ai_entityType event) (ai_entityId event)
    ((fun v => redact v None) <$> ai_before event)
    ((fun v => redact v None) <$> ai_after event)
    (c ← ai_context event; rc_ip c)
    (c ← ai_context event; rc_userAgent c)
    (rc_requestId <$> ai_context event)].

End redaction.

(** PostgreSQL's [json ->> name] on an object: the text of a string member, [NULL] when it is absent.
    (No column read here holds anything but strings.) *)
Fixpoint json_text (name : jsstr) (entries : list (jsstr * value)) : option jsstr :=
  match entries with
  | [] => None
  | (k, v) :: es =>
      if bool_decide (k = name) then match v with VStr s => Some s | _ => None end else json_text name es
  end.

Definition after_text (name : jsstr) (row : AuditEvent) : option jsstr :=
  match ae_after row with Some (VObj es) => json_text name es | _ => None end.

(** ** What redaction leaves *)

(** A value all of whose strings may be stored: under a secret-looking key only the marker, and
    nowhere a bearer or basic credential; only values JSON can hold. *)
Fixpoint storable (v : value) : bool :=
  match v with
  | VNull | VUndef | VBool _ | VNum _ => true
  | VStr s => negb (SECRET_VALUE s)
  | VBigInt _ | VOpaque | VDate _ | VBytes _ => false
  | VArr items => forallb storable items
  | VObj entries =>
      forallb (fun e => storable (snd e) &&
                 (negb (SECRET_KEY (fst e)) || match snd e with VStr s => bool_decide (s = REDACTED) | _ => false end))
        entries
  end.

(** Values that need no redaction at all. *)
Fixpoint plain (v : value) : bool :=
  match v with
  | VNull | VBool _ | VNum _ => true
  | VStr s => negb (SECRET_VALUE s)
  | VUndef | VBigInt _ | VOpaque | VDate _ | VBytes _ => false
  | VArr items => forallb plain items
  | VObj entries => forallb (fun e => negb (SECRET_KEY (fst e)) && negb (is_proto (fst e)) && plain (snd e)) entries
  end.

(** Induction over values with the hypotheses for nested lists. *)
Definition value_nested_ind (P : value -> Prop)
  (Hnull : P VNull) (Hundef : P VUndef) (Hbool : forall b, P (VBool b)) (Hnum : forall n, P (VNum n))
  (Hbig : forall n, P (VBigInt n)) (Hstr : forall s, P (VStr s)) (Hop : P VOpaque) (Hdate : forall t, P (VDate t))
  (Hbytes : forall n, P (VBytes n)) (Harr : forall l, Forall P l -> P (VArr l))
  (Hobj : forall es, Forall (fun e => P (snd e)) es -> P (VObj es)) : forall v, P v :=
  fix ind (v : value) : P v :=
    match v with
    | VNull => Hnull | VUndef => Hundef | VBool b => Hbool b | VNum n => Hnum n | VBigInt n => Hbig n
    | VStr s => Hstr s | VOpaque => Hop | VDate t => Hdate t | VBytes n => Hbytes n
    | VArr l => Harr l ((fix go l : Forall P l :=
                           match l with [] => List.Forall_nil _ | x :: l => List.Forall_cons _ _ _ (ind x) (go l) end) l)
    | VObj es => Hobj es ((fix go es : Forall (fun e => P (snd e)) es :=
                             match es with [] => List.Forall_nil _ | x :: l => List.Forall_cons _ _ _ (ind (snd x)) (go l) end) es)
    end.

(** A credential starts with a letter b. *)
Lemma SECRET_VALUE_head s : SECRET_VALUE s = true -> exists c t, s = c :: t /\ (c = 66 \/ c = 98).
Proof.
  unfold SECRET_VALUE, secret_scheme. destruct s as [|c t]; [done|]. intros H. exists c, t. split; [done|].
  assert (lower_char c = 98) as Hc.
  { apply orb_prop in H as [H|H]; apply andb_prop in H as [H _]; cbn -[lower_char Z.eqb] in H; apply andb_prop in H as [H _]; apply Z.eqb_eq in H; by rewrite <- H. }
  unfold lower_char, isAlphaUpper in Hc. destruct ((65 <=? c) && (c <=? 90)) eqn:E; cbn in Hc; lia.
Qed.

Lemma not_secret_head c t : c <> 66 -> c <> 98 -> SECRET_VALUE (c :: t) = false.
Proof. intros. destruct (SECRET_VALUE _) eqn:E; [|done]. apply SECRET_VALUE_head in E as (?&?&?&?). simplify_eq. lia. Qed.

Lemma starts_date_not_secret s : starts_date s -> SECRET_VALUE s = false.
Proof.
  intros (c & t & -> & H). apply not_secret_head; intros ->; destruct H as [H|[H|H]]; cbn in H; done.
Qed.

Lemma dec_starts n : starts_date (dec n).
Proof.
  assert (forall fuel m acc, 0 <= m -> (acc = [] \/ starts_date acc) -> starts_date (dec_aux (S fuel) m acc)) as Haux.
  { induction fuel as [|fuel IH]; intros m acc Hm Hacc.
    - cbn. destruct (_ =? _); eexists _, _; (split; [done|]); left; unfold is_digit; pose proof (Z.mod_pos_bound m 10); lia.
    - cbn -[Z.div Z.modulo dec_aux]. change (dec_aux (S (S fuel)) m acc) with
        (let acc := (48 + m mod 10) :: acc in if m / 10 =? 0 then acc else dec_aux (S fuel) (m / 10) acc). cbv zeta.
      assert (starts_date ((48 + m mod 10) :: acc)) as Hs.
      { eexists _, _. split; [done|]. left. unfold is_digit. pose proof (Z.mod_pos_bound m 10). lia. }
      destruct (_ =? _); [done|]. apply IH; [|by right]. apply Z.div_pos; lia. }
  unfold dec. destruct (n <? 0) eqn:E.
  - eexists _, _. split; [done|]. auto.
  - apply Haux; [lia|by left].
Qed.

Section redaction_proofs.
Context `{DR : DateRuntime} {DOk : DateRuntimeOk DR}.

Lemma redact_secret_key v k : SECRET_KEY k = true -> redact v (Some k) = VStr REDACTED.
Proof. intros H. destruct v; cbn [redact]; by rewrite H. Qed.

Lemma redact_other_key v k : SECRET_KEY k = false -> redact v (Some k) = redact v None.
Proof. intros H. destruct v; cbn [redact]; by rewrite H. Qed.

Lemma storable_redact v key : storable (redact v key) = true.
Proof.
  revert key. induction v as [| |b|n|n|s| |t|n|l IH|es IH] using value_nested_ind; intros key;
    cbn [redact]; (destruct (match key with Some k => SECRET_KEY k | None => false end); [done|]);
    try done; cbn [storable].
  - by rewrite (starts_date_not_secret _ (dec_starts n)).
  - destruct (SECRET_VALUE s) eqn:E; cbn; by rewrite ?E.
  - destruct t as [t|]; [|done]. cbn. by rewrite (starts_date_not_secret _ (toISOString_start t)).
  - apply forallb_Forall, Forall_map. eapply Forall_impl; [exact IH|]. intros v Hv. apply Hv.
  - apply forallb_Forall, Forall_forall. intros e He.
    apply list_elem_of_In, filter_In in He as [He _].
    apply in_map_iff in He as ([k v] & <- & He). cbn [fst snd].
    apply list_elem_of_In in He. pose proof (proj1 (Forall_forall _ _) IH _ He) as Hv. cbn [snd] in Hv.
    rewrite Hv. destruct (SECRET_KEY k) eqn:E; [|done]. by rewrite redact_secret_key.
Qed.

Lemma redact_plain_id v : plain v = true -> redact v None = v.
Proof.
  induction v as [| |b|n|n|s| |t|n|l IH|es IH] using value_nested_ind; cbn [plain redact]; try done; intros H.
  - by destruct (SECRET_VALUE s).
  - f_equal. apply forallb_Forall in H. induction IH as [|v l Hv _ IHl]; [done|].
    inversion_clear H. cbn [List.map]. rewrite Hv, IHl; done.
  - f_equal. apply forallb_Forall in H. induction IH as [|[k v] l Hv _ IHl]; [done|].
    inversion_clear H as [|? ? Hk Hl]. cbn [fst snd] in *. apply andb_prop in Hk as [Hk Hp]. apply andb_prop in Hk as [Hk Hq].
    cbn [List.map List.filter fst snd]. rewrite Hq. rewrite redact_other_key by (by destruct (SECRET_KEY k)).
    rewrite Hv, IHl; done.
Qed.

(** redaction keeps every credential out of the audit log, at any depth and for any payload: in
    what is stored, a value reached through a secret-looking key is the marker, no string has the shape
    of a bearer or basic credential, and everything is representable in JSON. A payload with nothing to
    hide, and only JSON values, is stored unchanged. *)
Theorem redact_safe v :
  storable (redact v None) = true /\ (plain v = true -> redact v None = v).
Proof. split; [apply storable_redact | apply redact_plain_id]. Qed.

End redaction_proofs.

(** Dates as their time value, enough to run [redact]. *)
Definition plainDates : DateRuntime := {| toISOString := dec |}.

Lemma plainDates_ok : DateRuntimeOk plainDates.
Proof. constructor. intros t. apply dec_starts. Qed.

Lemma redact_safe_witness :
  let v := VObj [(js "user", VStr (js "alice")); (js "newPassword", VStr (js "hunter2"));
                 (js "headers", VArr [VObj [(js "value", VStr (js "Bearer abc"))]; VDate (Some 0)])] in
  storable (redact (DR := plainDates) v None) = true /\
  redact (DR := plainDates) v None =
    VObj [(js "user", VStr (js "alice")); (js "newPassword", VStr REDACTED);
          (js "headers", VArr [VObj [(js "value", VStr REDACTED)]; VStr (js "0")])].
Proof.
  intros v. split; [|reflexivity].
  exact (proj1 (redact_safe (DR := plainDates) (DOk := plainDates_ok) v)).
Defined.
