(* ===== verification/AuthThrottle.v ===== *)
(** * AuthThrottle: the authentication tarpit (packages/auth-throttle/src)

    [Network] models network.ts (the keys an attempt is counted by), the ledgers model ledger.ts (the
    audit log and the in-memory one, as instances of one interface) and the throttle models
    throttle.ts. Times are integers of one unit; each operation takes the clock reading it makes.
    A [Map] keeps insertion order, so [lastSuccess] is an association list, oldest first. *)
From S2P Require Import Prelude JsString AuditLog.

(** ** network.ts *)

Section network.
Context `{R : Runtime}.

(** [net.isIPv4]: four decimal octets without leading zeroes. *)
Definition netIsIPv4_octet (p : jsstr) : bool :=
  match p with
  | [] => false
  | c :: t => forallb is_digit p && (length p <=? 3)%nat && (negb (c =? 48) || (length t =? 0)%nat) && (digits_val p <=? 255)
  end.

Definition netIsIPv4 (s : jsstr) : bool :=
  let parts := splitOn DOT s in (length parts =? 4)%nat && forallb netIsIPv4_octet parts.

(** [/^\d+\.\d+\.\d+\.\d+$/]. *)
Definition isQuad (s : jsstr) : bool :=
  let parts := splitOn DOT s in
  (length parts =? 4)%nat && forallb (fun p => negb (length p =? 0)%nat && forallb is_digit p) parts.

Definition normalizeIp (ip : jsstr) : jsstr :=
  let trimmed := toLowerCase (trim ip) in
  let bare := match indexOf 37 trimmed with None => trimmed | Some zone => take zone trimmed end in
  let mapped := drop 7 bare in
  if startsWith (js "::ffff:") bare && isQuad mapped && netIsIPv4 mapped then mapped else bare.

(** The leftmost place where the rest of the text is a dotted quad. *)
Fixpoint v4_index (text : jsstr) : option nat :=
  if isQuad text then Some 0%nat
  else match text with [] => None | _ :: t => S <$> v4_index t end.

(** [n.toString(16)], negative numbers included. *)
Definition hexString (n : Z) : jsstr := if n <? 0 then 45 :: toString16 (- n) else toString16 n.
Definition pairGroup (a b : Z) : jsstr := hexString (Z.lor (int32 (Z.shiftl (int32 a) 8)) (int32 b)).

Definition groupsText (ip : jsstr) : jsstr :=
  match v4_index ip with
  | None => ip
  | Some i =>
      let n k := Number (nth k (splitOn DOT (drop i ip)) []) in
      take i ip ++ pairGroup (n 0%nat) (n 1%nat) ++ [58] ++ pairGroup (n 2%nat) (n 3%nat)
  end.

(** [Number.isInteger(g) && g >= 0 && g <= 0xffff]. *)
Definition groupNumber (g : option Z) : option Z := n ← g; if (0 <=? n) && (n <=? 0xffff) then Some n else None.

(** [Array.from] of a negative length is empty. *)
Definition ipv6Groups (ip : jsstr) : option (list Z) :=
  if negb (isIPv6 ip) then None
  else
    let halves := splitDouble 58 (groupsText ip) in
    let part i := match halves !! i with None | Some [] => [] | Some h => splitOn 58 h end in
    let head := part 0%nat in
    let tail := if (length halves <? 2)%nat then [] else part 1%nat in
    let fill := if (length halves =? 2)%nat then (8 - length head - length tail)%nat else 0%nat in
    let groups := parseInt16 <$> (head ++ replicate fill (js "0") ++ tail) in
    if (length groups =? 8)%nat then mapM groupNumber groups else None.

Definition networkOf (ip : jsstr) : jsstr :=
  let addr := normalizeIp ip in
  if netIsIPv4 addr then joinWith [DOT] (take 3 (splitOn DOT addr)) ++ js ".0/24"
  else
    match ipv6Groups addr with
    | None => addr
    | Some groups => joinWith [58] (toString16 <$> take 4 groups) ++ js "::/64"
    end.

Definition sourceOf (ip : jsstr) : jsstr :=
  let addr := normalizeIp ip in if netIsIPv4 addr then addr else networkOf addr.

End network.

(** ** ledger.ts *)

Definition FAILURE_ACTION : jsstr := js "auth.failure".
Definition FAILURE_ENTITY : jsstr := js "credential".

Record FailureEntry := mkEntry {
  fe_protocol : jsstr; fe_username : jsstr; fe_ip : jsstr; fe_network : jsstr; fe_source : jsstr; fe_reason : jsstr
}.

Record FailureQuery := mkQuery {
  fq_username : jsstr; fq_network : jsstr; fq_source : jsstr; fq_since : Z; fq_streakSince : Z
}.

Record FailureCounts := mkCounts { fc_streak : Z; fc_source : Z }.

(** What a ledger promises its clients: it starts empty, and recording an entry adds to each count
    exactly what that entry is worth to it. *)
Class FailureLedger (L : Type) := {
  ledger_empty : L;
  ledger_record : Z -> FailureEntry -> L -> L;
  ledger_count : FailureQuery -> L -> FailureCounts
}.

Definition in_streak (q : FailureQuery) (at_ : Z) (e : FailureEntry) : bool :=
  bool_decide (fe_username e = fq_username q) && bool_decide (fe_network e = fq_network q) &&
  (fq_since q <? at_) && (fq_streakSince q <=? at_).

Definition in_source (q : FailureQuery) (at_ : Z) (e : FailureEntry) : bool :=
  bool_decide (fe_source e = fq_source q) && (fq_since q <? at_).

Definition add_entry (q : FailureQuery) (at_ : Z) (e : FailureEntry) (c : FailureCounts) : FailureCounts :=
  mkCounts (fc_streak c + Z.b2z (in_streak q at_ e)) (fc_source c + Z.b2z (in_source q at_ e)).

(** [storable_entry] says which entries the ledger keeps faithfully. *)
Class FailureLedgerOk (L : Type) {FL : FailureLedger L} := {
  storable_entry : FailureEntry -> Prop;
  count_empty : forall q, ledger_count q ledger_empty = mkCounts 0 0;
  count_record : forall q at_ e l, storable_entry e ->
    ledger_count q (ledger_record at_ e l) = add_entry q at_ e (ledger_count q l)
}.

(** *** The memory ledger *)

Definition memory_record (now : Z) (e : FailureEntry) (entries : list (FailureEntry * Z)) : list (FailureEntry * Z) :=
  entries ++ [(e, now)].

Fixpoint memory_count_loop (q : FailureQuery) (entries : list (FailureEntry * Z)) (streak source : Z) : FailureCounts :=
  match entries with
  | [] => mkCounts streak source
  | (e, at_) :: es =>
      if at_ <=? fq_since q then memory_count_loop q es streak source
      else
        let source := if bool_decide (fe_source e = fq_source q) then source + 1 else source in
        let streak :=
          if bool_decide (fe_username e = fq_username q) && bool_decide (fe_network e = fq_network q) &&
             (fq_streakSince q <=? at_) then streak + 1 else streak in
        memory_count_loop q es streak source
  end.

Definition memory_count (q : FailureQuery) (entries : list (FailureEntry * Z)) : FailureCounts :=
  memory_count_loop q entries 0 0.

Definition memoryLedger : FailureLedger (list (FailureEntry * Z)) :=
  {| ledger_empty := []; ledger_record := memory_record; ledger_count := memory_count |}.

(** *** The audit log *)

Section audit_ledger.
Context `{DR : DateRuntime} (randomUUID : jsstr).

Definition failure_event (e : FailureEntry) : AuditInput :=
  mkAuditInput (OtherActor (js "anonymous")) FAILURE_ACTION FAILURE_ENTITY (Some (fe_username e)) None
    (Some (VObj [(js "protocol", VStr (fe_protocol e)); (js "username", VStr (fe_username e));
                 (js "network", VStr (fe_network e)); (js "source", VStr (fe_source e));
                 (js "reason", VStr (fe_reason e))]))
    (Some (mkContext randomUUID (Some (fe_ip e)) None)).

Definition audit_record (now : Z) (e : FailureEntry) (table : list AuditEvent) : list AuditEvent :=
  recordAudit now (failure_event e) table.

(** The rows the query's [WHERE] keeps and those each [FILTER] counts. *)
Definition failure_row (q : FailureQuery) (row : AuditEvent) : bool :=
  bool_decide (ae_action row = FAILURE_ACTION) && bool_decide (ae_entityType row = FAILURE_ENTITY) &&
  (fq_since q <? ae_at row).

Definition streak_row (q : FailureQuery) (row : AuditEvent) : bool :=
  bool_decide (ae_entityId row = Some (fq_username q)) && bool_decide (after_text (js "network") row = Some (fq_network q)) &&
  (fq_streakSince q <=? ae_at row).

Definition source_row (q : FailureQuery) (row : AuditEvent) : bool :=
  bool_decide (after_text (js "source") row = Some (fq_source q)).

Definition audit_count (q : FailureQuery) (table : list AuditEvent) : FailureCounts :=
  let rows := List.filter (failure_row q) table in
  mkCounts (Z.of_nat (length (List.filter (streak_row q) rows))) (Z.of_nat (length (List.filter (source_row q) rows))).

Definition auditLedger : FailureLedger (list AuditEvent) :=
  {| ledger_empty := []; ledger_record := audit_record; ledger_count := audit_count |}.

End audit_ledger.

(** ** throttle.ts *)

Record AuthAttempt := mkAttempt { at_protocol : jsstr; at_username : jsstr; at_ip : jsstr }.

Inductive GateOutcome := Proceed | Refuse | Aborted.

Record Gate := mkGate { ga_outcome : GateOutcome; ga_delayMs : Z; ga_streak : Z; ga_sourceFailures : Z }.

Record ThrottleOptions := mkThrottleOptions {
  windowMs : Z; freeFailures : Z; baseDelayMs : Z; maxDelayMs : Z; sourceCeiling : Z; maxTracked : nat
}.

Definition defaultOptions : ThrottleOptions := mkThrottleOptions (15 * 60000) 3 1000 30000 20 (Z.to_nat 10000).

Record AttemptKeys := mkKeys { k_username : jsstr; k_ip : jsstr; k_network : jsstr; k_source : jsstr; k_streakKey : jsstr }.

(** [Map.get], [Map.delete] and [Map.set] of an association list in insertion order. *)
Fixpoint map_get (k : jsstr) (m : list (jsstr * Z)) : option Z :=
  match m with [] => None | (k', v) :: m => if bool_decide (k' = k) then Some v else map_get k m end.

Definition map_delete (k : jsstr) (m : list (jsstr * Z)) : list (jsstr * Z) :=
  List.filter (fun e => negb (bool_decide (fst e = k))) m.

(** [set] of a key that is not there. *)
Definition map_append (k : jsstr) (v : Z) (m : list (jsstr * Z)) : list (jsstr * Z) := m ++ [(k, v)].

(** How the tarpit's [sleep] ended, and what the signal said at the two looks at it. *)
Inductive SleepEnd := Slept | SleepFailed.
Record Signal := mkSignal { aborted_before : bool; aborted_after : bool; sleep_end : SleepEnd }.

Section throttle.
Context `{R : Runtime} {L : Type} `{FL : FailureLedger L} (o : ThrottleOptions).

Record Throttle := mkThrottle { th_ledger : L; th_lastSuccess : list (jsstr * Z) }.

Definition newThrottle : Throttle := mkThrottle ledger_empty [].

Definition keys (a : AuthAttempt) : AttemptKeys :=
  let username := toLowerCase (trim (at_username a)) in
  let ip := normalizeIp (at_ip a) in
  let network := networkOf ip in
  mkKeys username ip network (sourceOf ip) (username ++ [0] ++ network).

(** Products with a power of two are exact until they overflow to infinity, which the minimum cuts
    off as it does any product over [maxDelayMs]. *)
Definition delayFor (streak sourceFailures : Z) : Z :=
  if sourceFailures >=? sourceCeiling o then maxDelayMs o
  else
    let over := streak - freeFailures o in
    if over <? 0 then 0 else Z.min (maxDelayMs o) (baseDelayMs o * 2 ^ over).

Definition before_query (t : Z) (a : AuthAttempt) (th : Throttle) : FailureQuery :=
  let k := keys a in
  let since := t - windowMs o in
  let streakSince := match map_get (k_streakKey k) (th_lastSuccess th) with
                     | Some succeeded => if succeeded >? since then succeeded else since
                     | None => since
                     end in
  mkQuery (k_username k) (k_network k) (k_source k) since streakSince.

(** [inl] is an error of [sleep] thrown on. *)
Definition before (t : Z) (a : AuthAttempt) (signal : Signal) (th : Throttle) : unit + Gate :=
  let counts := ledger_count (before_query t a th) (th_ledger th) in
  let delayMs := delayFor (fc_streak counts) (fc_source counts) in
  let gate outcome := mkGate outcome delayMs (fc_streak counts) (fc_source counts) in
  let decision := inr (gate (if fc_source counts >=? sourceCeiling o then Refuse else Proceed)) in
  if aborted_before signal then inr (gate Aborted)
  else if delayMs >? 0 then
    match sleep_end signal with
    | SleepFailed => if aborted_after signal then inr (gate Aborted) else inl tt
    | Slept => decision
    end
  else decision.

Definition failure (now : Z) (a : AuthAttempt) (reason : jsstr) (th : Throttle) : Throttle :=
  let k := keys a in
  mkThrottle (ledger_record now (mkEntry (at_protocol a) (k_username k) (k_ip k) (k_network k) (k_source k) reason) (th_ledger th))
    (th_lastSuccess th).

Definition success (now : Z) (a : AuthAttempt) (th : Throttle) : Throttle :=
  let k := keys a in
  let m := map_delete (k_streakKey k) (th_lastSuccess th) in
  let m := if (maxTracked o <=? length m)%nat then match m with [] => [] | (oldest, _) :: _ => map_delete oldest m end else m in
  mkThrottle (th_ledger th) (map_append (k_streakKey k) now m).

End throttle.
