(* ===== verification/AuthThrottleProofs.v ===== *)
(** * AuthThrottleProofs: what the tarpit counts, and what a guesser can do

    Both ledgers satisfy the interface; the throttle's theorems are proved against the interface, over
    arbitrary histories of failures and successes. *)
From S2P Require Import Prelude JsString JsStringFacts ProxyProtocol ProxyProtocolProofs AuditLog AuthThrottle.

(** ** The ledgers implement the interface *)

Lemma memory_count_loop_app q es e at_ s c :
  memory_count_loop q (es ++ [(e, at_)]) s c = add_entry q at_ e (memory_count_loop q es s c).
Proof.
  revert s c. induction es as [|[e' at'] es IH]; intros s c; cbn [memory_count_loop app].
  - unfold add_entry, in_streak, in_source. cbn [fc_streak fc_source].
    destruct (Z.leb_spec at_ (fq_since q)), (Z.ltb_spec (fq_since q) at_); try lia; rewrite ?andb_false_r, ?andb_true_r.
    + cbn. by rewrite !Z.add_0_r.
    + cbn [memory_count_loop]. repeat case_match; cbn [Z.b2z andb] in *; f_equal; try lia; done.
  - destruct (at' <=? fq_since q); apply IH.
Qed.

Definition memoryLedgerOk : @FailureLedgerOk _ memoryLedger.
Proof.
  refine (@Build_FailureLedgerOk _ memoryLedger (fun _ => True) _ _).
  - done.
  - intros. apply memory_count_loop_app.
Defined.

Section audit_ledger.
Context `{DR : DateRuntime} (uuid : jsstr).

(** An entry whose network and source do not look like credentials is stored as it is. *)
Definition audit_storable (e : FailureEntry) : Prop :=
  SECRET_VALUE (fe_network e) = false /\ SECRET_VALUE (fe_source e) = false.

Lemma failure_row_texts now e row :
  audit_storable e -> audit_record uuid now e [] = [row] ->
  failure_row (mkQuery [] [] [] (now - 1) 0) row = true /\ ae_at row = now /\ ae_entityId row = Some (fe_username e) /\
  after_text (js "network") row = Some (fe_network e) /\ after_text (js "source") row = Some (fe_source e).
Proof.
  intros [Hn Hs] [= <-]. unfold after_text, failure_row. cbn [ae_after ae_at ae_entityId fmap option_fmap option_map].
  cbn [ai_after failure_event redact List.map fst snd List.filter]. rewrite Hn, Hs.
  split_and!; try done. cbn [ae_action ae_entityType fq_since]. rewrite !bool_decide_true by done. cbn. lia.
Qed.

Lemma audit_record_app now e table : audit_record uuid now e table = table ++ audit_record uuid now e [].
Proof. done. Qed.

Lemma audit_count_record q now e table : audit_storable e ->
  audit_count q (audit_record uuid now e table) = add_entry q now e (audit_count q table).
Proof.
  intros He. rewrite audit_record_app. destruct (audit_record uuid now e []) as [|row [|]] eqn:Hr; try done.
  destruct (failure_row_texts _ _ _ He Hr) as (Hf & Hat & Hid & Hnet & Hsrc).
  unfold audit_count, add_entry, in_streak, in_source. cbn [fc_streak fc_source].
  rewrite !List.filter_app, !length_app. unfold failure_row in Hf. apply andb_prop in Hf as [Hf _].
  cbn [List.filter]. unfold failure_row at 2 4. rewrite Hf, Hat, andb_true_l.
  assert (forall x y : jsstr, bool_decide (Some x = Some y) = bool_decide (x = y)) as Hsome.
  { intros. apply bool_decide_ext. by split; [intros [= ->]|intros ->]. }
  destruct (fq_since q <? now); rewrite ?andb_false_r, ?andb_true_r, ?andb_false_l; cbn [List.filter length Z.b2z].
  2:{ f_equal; lia. }
  assert (streak_row q row = bool_decide (fe_username e = fq_username q) && bool_decide (fe_network e = fq_network q) &&
                             (fq_streakSince q <=? now)) as ->.
  { unfold streak_row. by rewrite Hid, Hnet, Hat, !Hsome. }
  assert (source_row q row = bool_decide (fe_source e = fq_source q)) as ->.
  { unfold source_row. by rewrite Hsrc, Hsome. }
  rewrite !Nat2Z.inj_add. f_equal; [by destruct (_ && _ && _) | by destruct (bool_decide (fe_source e = _))].
Qed.

Definition auditLedgerOk : @FailureLedgerOk _ (auditLedger uuid).
Proof.
  refine (@Build_FailureLedgerOk _ (auditLedger uuid) audit_storable _ _).
  - done.
  - intros. by apply audit_count_record.
Defined.

(** the in-memory ledger the tests use has the semantics of the production ledger: after the same
    failures at the same times, the audit-log query and the memory ledger return the same counts for
    every query, as long as no network or source looks like a credential (which the audit log would
    redact). *)
Theorem ledgers_agree (q : FailureQuery) (records : list (FailureEntry * Z)) :
  Forall (fun r => audit_storable r.1) records ->
  ledger_count (FailureLedger := auditLedger uuid) q
    (fold_left (fun l r => ledger_record (FailureLedger := auditLedger uuid) r.2 r.1 l) records []) =
  ledger_count (FailureLedger := memoryLedger) q
    (fold_left (fun l r => ledger_record (FailureLedger := memoryLedger) r.2 r.1 l) records []).
Proof.
  induction records as [|[e t] rs IH] using rev_ind; [done|].
  intros [Hrs He]%Forall_app. rewrite !fold_left_app. cbn [fold_left fst snd].
  inversion_clear He. cbn [ledger_count ledger_record auditLedger memoryLedger] in *.
  rewrite audit_count_record by done. unfold memory_count, memory_record. rewrite memory_count_loop_app.
  f_equal. by apply IH.
Qed.

End audit_ledger.

Lemma ledgers_agree_witness :
  let e := mkEntry (js "imap") (js "bob") (js "192.0.2.7") (js "192.0.2.0/24") (js "192.0.2.7") (js "bad") in
  let q := mkQuery (js "bob") (js "192.0.2.0/24") (js "192.0.2.7") 5 8 in
  ledger_count (FailureLedger := auditLedger (DR := plainDates) (js "id")) q
    (fold_left (fun l r => ledger_record (FailureLedger := auditLedger (DR := plainDates) (js "id")) r.2 r.1 l) [(e, 4); (e, 7); (e, 9)] []) =
  ledger_count (FailureLedger := memoryLedger) q
    (fold_left (fun l r => ledger_record (FailureLedger := memoryLedger) r.2 r.1 l) [(e, 4); (e, 7); (e, 9)] []) /\
  ledger_count (FailureLedger := memoryLedger) q
    (fold_left (fun l r => ledger_record (FailureLedger := memoryLedger) r.2 r.1 l) [(e, 4); (e, 7); (e, 9)] []) = mkCounts 1 2.
Proof.
  intros e q. split; [|reflexivity].
  apply (ledgers_agree (DR := plainDates) (js "id")). repeat constructor.
Defined.

(** ** Histories *)

Inductive Event := EvFailure (t : Z) (a : AuthAttempt) (reason : jsstr) | EvSuccess (t : Z) (a : AuthAttempt).

Section history.
Context `{R : Runtime} {L : Type} `{FL : FailureLedger L} {LOk : FailureLedgerOk L} (o : ThrottleOptions).

Definition step_event (th : Throttle) (ev : Event) : Throttle :=
  match ev with EvFailure t a reason => failure t a reason th | EvSuccess t a => success o t a th end.

Definition run_events (evs : list Event) : Throttle := fold_left step_event evs newThrottle.

Definition entry_of (a : AuthAttempt) (reason : jsstr) : FailureEntry :=
  mkEntry (at_protocol a) (k_username (keys a)) (k_ip (keys a)) (k_network (keys a)) (k_source (keys a)) reason.

Definition storable_event (ev : Event) : Prop :=
  match ev with EvFailure _ a reason => storable_entry (entry_of a reason) | EvSuccess _ _ => True end.

(** The time of the last success of a (username, network) pair in a history. *)
Definition last_success (key : jsstr) (evs : list Event) : option Z :=
  fold_left (fun acc ev => match ev with
                           | EvSuccess t a => if bool_decide (k_streakKey (keys a) = key) then Some t else acc
                           | EvFailure _ _ _ => acc
                           end) evs None.

(** Specification: the failures of the attempt's source within the window, and those of its username
    and network within the window that are not older than the pair's last success. *)
Definition source_failure (t : Z) (a : AuthAttempt) (ev : Event) : bool :=
  match ev with
  | EvFailure t' b _ => bool_decide (k_source (keys b) = k_source (keys a)) && (t - windowMs o <? t')
  | EvSuccess _ _ => false
  end.

Definition streak_failure (t : Z) (a : AuthAttempt) (from : option Z) (ev : Event) : bool :=
  match ev with
  | EvFailure t' b _ =>
      bool_decide (k_username (keys b) = k_username (keys a)) && bool_decide (k_network (keys b) = k_network (keys a)) &&
      (t - windowMs o <? t') && match from with Some s => s <=? t' | None => true end
  | EvSuccess _ _ => false
  end.

Definition spec_source (t : Z) (a : AuthAttempt) (evs : list Event) : Z :=
  Z.of_nat (length (List.filter (source_failure t a) evs)).

Definition spec_streak (t : Z) (a : AuthAttempt) (evs : list Event) : Z :=
  Z.of_nat (length (List.filter (streak_failure t a (last_success (k_streakKey (keys a)) evs)) evs)).

Lemma run_events_snoc evs ev : run_events (evs ++ [ev]) = step_event (run_events evs) ev.
Proof. unfold run_events. by rewrite fold_left_app. Qed.

Lemma last_success_snoc key evs ev : last_success key (evs ++ [ev]) =
  match ev with
  | EvSuccess t a => if bool_decide (k_streakKey (keys a) = key) then Some t else last_success key evs
  | EvFailure _ _ _ => last_success key evs
  end.
Proof. unfold last_success. rewrite fold_left_app. done. Qed.

Definition event_in_streak (q : FailureQuery) (ev : Event) : bool :=
  match ev with EvFailure t a reason => in_streak q t (entry_of a reason) | EvSuccess _ _ => false end.
Definition event_in_source (q : FailureQuery) (ev : Event) : bool :=
  match ev with EvFailure t a reason => in_source q t (entry_of a reason) | EvSuccess _ _ => false end.

(** The ledger of a throttle holds exactly the failures of its history. *)
Lemma ledger_history q evs : Forall storable_event evs ->
  ledger_count q (th_ledger (run_events evs)) =
  mkCounts (Z.of_nat (length (List.filter (event_in_streak q) evs))) (Z.of_nat (length (List.filter (event_in_source q) evs))).
Proof.
  induction evs as [|ev evs IH] using rev_ind; intros H; [apply count_empty|].
  apply Forall_app in H as [Hevs Hev]. inversion_clear Hev as [|? ? Hs _].
  rewrite run_events_snoc, !List.filter_app, !length_app, !Nat2Z.inj_add. destruct ev as [t a reason|t a].
  - cbn [step_event failure th_ledger]. rewrite count_record by exact Hs. rewrite IH by done.
    unfold add_entry. cbn [fc_streak fc_source List.filter event_in_streak event_in_source].
    unfold entry_of. by destruct (in_streak _ _ _), (in_source _ _ _).
  - cbn [step_event success th_ledger]. rewrite IH by done. cbn. by rewrite !Z.add_0_r.
Qed.

(** *** Remembered successes *)

Lemma map_get_app k m k' v : map_get k (m ++ [(k', v)]) =
  match map_get k m with Some x => Some x | None => if bool_decide (k' = k) then Some v else None end.
Proof. induction m as [|[k2 v2] m IH]; cbn; [done|]. by destruct (bool_decide (k2 = k)). Qed.

Lemma map_delete_cons k k2 v2 m :
  map_delete k ((k2, v2) :: m) = if bool_decide (k2 = k) then map_delete k m else (k2, v2) :: map_delete k m.
Proof. unfold map_delete. cbn [List.filter fst]. by destruct (bool_decide _). Qed.

Lemma map_get_delete_eq k m : map_get k (map_delete k m) = None.
Proof.
  induction m as [|[k2 v2] m IH]; [done|]. rewrite map_delete_cons.
  destruct (bool_decide (k2 = k)) eqn:E; [done|]. cbn. by rewrite E.
Qed.

Lemma map_get_delete_ne k k' m : k <> k' -> map_get k (map_delete k' m) = map_get k m.
Proof.
  intros Hne. induction m as [|[k2 v2] m IH]; [done|]. rewrite map_delete_cons.
  destruct (bool_decide_reflect (k2 = k')) as [->|]; cbn [map_get]; rewrite IH; [|done].
  by rewrite bool_decide_false by done.
Qed.

Lemma map_get_In k m v : map_get k m = Some v -> k ∈ m.*1.
Proof.
  induction m as [|[k2 v2] m IH]; cbn; [done|]. rewrite elem_of_cons.
  destruct (bool_decide_reflect (k2 = k)); [auto|]. intros H. right. auto.
Qed.

Lemma map_delete_keys k m : (map_delete k m).*1 = List.filter (fun k' => negb (bool_decide (k' = k))) m.*1.
Proof.
  induction m as [|[k2 v2] m IH]; [done|]. rewrite map_delete_cons. cbn [fmap list_fmap List.filter fst].
  destruct (bool_decide _); cbn [negb fmap list_fmap fst]; [done|]. by f_equal.
Qed.

Lemma map_delete_keys_sub k m x : x ∈ (map_delete k m).*1 -> x ∈ m.*1 /\ x <> k.
Proof.
  rewrite map_delete_keys, !list_elem_of_In, filter_In. intros [H1 H2]. split; [done|].
  by destruct (bool_decide_reflect (x = k)).
Qed.

Lemma map_delete_NoDup k m : NoDup m.*1 -> NoDup (map_delete k m).*1.
Proof. intros H. rewrite map_delete_keys. apply NoDup_ListNoDup, List.NoDup_filter, NoDup_ListNoDup, H. Qed.

Definition success_keys (evs : list Event) : list jsstr :=
  flat_map (fun ev => match ev with EvSuccess _ a => [k_streakKey (keys a)] | EvFailure _ _ _ => [] end) evs.

Definition evict (m : list (jsstr * Z)) : list (jsstr * Z) :=
  if (maxTracked o <=? length m)%nat then match m with [] => [] | (oldest, _) :: _ => map_delete oldest m end else m.

Lemma success_map t a (th : @Throttle L) : th_lastSuccess (success o t a th) =
  map_append (k_streakKey (keys a)) t (evict (map_delete (k_streakKey (keys a)) (th_lastSuccess th))).
Proof. done. Qed.

(** Eviction forgets keys, and never invents a time. *)
Lemma evict_get k m v : map_get k (evict m) = Some v -> map_get k m = Some v.
Proof.
  unfold evict. destruct (_ <=? _)%nat; [|done]. destruct m as [|[k0 v0] m]; [done|]. intros H.
  destruct (decide (k = k0)) as [->|Hne]; [by rewrite map_get_delete_eq in H|]. by rewrite map_get_delete_ne in H.
Qed.

Lemma evict_NoDup m : NoDup m.*1 -> NoDup (evict m).*1.
Proof. unfold evict. destruct (_ <=? _)%nat; [|done]. destruct m as [|[k0 v0] m]; [done|]. apply map_delete_NoDup. Qed.

Lemma evict_keys m x : x ∈ (evict m).*1 -> x ∈ m.*1.
Proof.
  unfold evict. destruct (_ <=? _)%nat; [|done]. destruct m as [|[k0 v0] m]; [done|]. intros H.
  by apply map_delete_keys_sub in H as [? _].
Qed.

Lemma map_delete_fresh k m : k ∉ m.*1 -> map_delete k m = m.
Proof.
  induction m as [|[k2 v2] m IH]; [done|]. cbn [fmap list_fmap fst]. rewrite not_elem_of_cons, map_delete_cons.
  intros [H1 H2]. rewrite bool_decide_false by congruence. by rewrite IH.
Qed.

Lemma evict_length m : NoDup m.*1 -> (length (evict m) <= length m)%nat /\ (1 <= maxTracked o -> length m <= maxTracked o -> length (evict m) < maxTracked o)%nat.
Proof.
  intros Hnd. unfold evict. destruct (Nat.leb_spec (maxTracked o) (length m)); [|lia].
  destruct m as [|[k0 v0] m]; [cbn in *; lia|]. rewrite map_delete_cons, bool_decide_true by done.
  inversion_clear Hnd as [|? ? Hk _]. rewrite map_delete_fresh by done. cbn in *. lia.
Qed.

Lemma map_delete_length k m : (length (map_delete k m) <= length m)%nat.
Proof. apply List.filter_length_le. Qed.

(** The remembered successes of any history: distinct pairs that did succeed, at most [maxTracked] of
    them, each with the time of its last success. *)
Lemma lastSuccess_history evs : let m := th_lastSuccess (run_events evs) in
  NoDup m.*1 /\ (forall k, k ∈ m.*1 -> k ∈ success_keys evs) /\ (1 <= maxTracked o -> length m <= maxTracked o)%nat /\
  (forall k s, map_get k m = Some s -> last_success k evs = Some s).
Proof.
  induction evs as [|ev evs (IHnd & IHsub & IHlen & IHget)] using rev_ind; cbv zeta.
  { split_and!; [constructor|done|cbn; lia|done]. }
  rewrite run_events_snoc. setoid_rewrite last_success_snoc. unfold success_keys. setoid_rewrite flat_map_app.
  destruct ev as [t a reason|t a]; cbn [step_event].
  { cbn [flat_map]. setoid_rewrite app_nil_r. done. }
  rewrite success_map. set (k0 := k_streakKey (keys a)). unfold map_append.
  set (m0 := map_delete k0 (th_lastSuccess (run_events evs))).
  assert (NoDup m0.*1) as Hnd by (by apply map_delete_NoDup).
  assert (k0 ∉ (evict m0).*1) as Hk0 by (intros H%evict_keys%map_delete_keys_sub; tauto).
  rewrite fmap_app. split_and!.
  - apply NoDup_app. split_and!; [by apply evict_NoDup| |apply NoDup_singleton]. intros x Hx ->%list_elem_of_singleton. done.
  - intros k [H|H]%elem_of_app; apply elem_of_app.
    + left. apply IHsub. apply evict_keys, map_delete_keys_sub in H. tauto.
    + right. done.
  - intros H1. rewrite length_app. cbn [length]. pose proof (evict_length m0 Hnd) as [_ He].
    pose proof (map_delete_length k0 (th_lastSuccess (run_events evs))). specialize (IHlen H1).
    specialize (He H1). unfold m0 in *. lia.
  - intros k s. rewrite map_get_app. destruct (map_get k (evict m0)) as [x|] eqn:E.
    + intros [= ->]. pose proof (map_get_In _ _ _ E) as Hin. rewrite bool_decide_false by (intros ->; done).
      apply IHget. apply evict_get in E. apply map_get_In in E as Hk. apply map_delete_keys_sub in Hk as [_ Hne].
      by rewrite <- (map_get_delete_ne k k0).
    + destruct (bool_decide _); [|done]. by intros [= ->].
Qed.

(** Without eviction, every success is remembered. *)
Lemma lastSuccess_complete evs (D : list jsstr) k : (length D <= maxTracked o)%nat -> (forall x, x ∈ success_keys evs -> x ∈ D) ->
  map_get k (th_lastSuccess (run_events evs)) = last_success k evs.
Proof.
  intros HD. induction evs as [|ev evs IH] using rev_ind; [done|]. intros Hsub.
  rewrite run_events_snoc, last_success_snoc. unfold success_keys in *. setoid_rewrite flat_map_app in Hsub.
  assert (forall x, x ∈ success_keys evs -> x ∈ D) as Hsub' by (intros x Hx; apply Hsub, elem_of_app; by left).
  specialize (IH Hsub'). destruct ev as [t a reason|t a]; [done|]. cbn [step_event].
  rewrite success_map. set (k0 := k_streakKey (keys a)) in *. unfold map_append.
  destruct (lastSuccess_history evs) as (Hnd & Hkeys & _). set (m := th_lastSuccess (run_events evs)) in *.
  assert (length (map_delete k0 m) < maxTracked o)%nat as Hlt.
  { assert (length (k0 :: (map_delete k0 m).*1) <= length D)%nat as H.
    { apply NoDup_incl_length.
      - apply NoDup_ListNoDup, NoDup_cons. split; [|by apply map_delete_NoDup].
        intros H%map_delete_keys_sub. tauto.
      - intros x Hx. apply list_elem_of_In. apply list_elem_of_In, elem_of_cons in Hx as [->|Hx].
        + apply Hsub, elem_of_app. right. cbn. by left.
        + apply Hsub', Hkeys. by apply map_delete_keys_sub in Hx as [? _]. }
    cbn [length] in H. rewrite length_fmap in H. lia. }
  unfold evict. destruct (Nat.leb_spec (maxTracked o) (length (map_delete k0 m))); [lia|].
  rewrite map_get_app. destruct (decide (k0 = k)) as [<-|Hne].
  - by rewrite map_get_delete_eq, !bool_decide_true.
  - rewrite map_get_delete_ne, IH, !bool_decide_false by done. by destruct (last_success k evs).
Qed.

End history.

(** ** The gate *)

Section gate.
Context `{R : Runtime} {L : Type} `{FL : FailureLedger L} {LOk : FailureLedgerOk L} (o : ThrottleOptions).

Lemma before_counts t a sig (th : @Throttle L) g : before o t a sig th = inr g ->
  let c := ledger_count (before_query o t a th) (th_ledger th) in
  ga_streak g = fc_streak c /\ ga_sourceFailures g = fc_source c /\ ga_delayMs g = delayFor o (fc_streak c) (fc_source c) /\
  (ga_outcome g = Proceed -> fc_source c < sourceCeiling o) /\ (ga_outcome g = Refuse -> sourceCeiling o <= fc_source c) /\
  (ga_outcome g = Aborted -> aborted_before sig = true \/ (aborted_after sig = true /\ 0 < ga_delayMs g)).
Proof.
  cbv zeta. unfold before. set (c := ledger_count _ _).
  destruct (aborted_before sig) eqn:Hb; [intros [= <-]; cbn; split_and!; auto; done|].
  destruct (delayFor _ _ _ >? 0) eqn:Hd, (sleep_end sig), (aborted_after sig) eqn:Ha; try discriminate;
    destruct (fc_source c >=? sourceCeiling o) eqn:Hs; intros [= <-]; cbn; split_and!; try done; lia || (intros; right; split; [done|lia]).
Qed.

Lemma filter_length_mono {A} (f g : A -> bool) l : (forall x, f x = true -> g x = true) ->
  (length (List.filter f l) <= length (List.filter g l))%nat.
Proof.
  intros H. induction l as [|x l IH]; [done|]. cbn. destruct (f x) eqn:E; [rewrite (H _ E)|destruct (g x)]; cbn; lia.
Qed.

Lemma filter_length_ext {A} (f g : A -> bool) l : (forall x, f x = g x) -> length (List.filter f l) = length (List.filter g l).
Proof. intros H. f_equal. by apply List.filter_ext. Qed.

Lemma source_query t a th ev : event_in_source (before_query (L := L) o t a th) ev = source_failure o t a ev.
Proof. by destruct ev. Qed.

(** The query's streak start when the remembered success is [from]. *)
Lemma streak_query t a (th : @Throttle L) ev :
  event_in_streak (before_query o t a th) ev =
  streak_failure o t a (map_get (k_streakKey (keys a)) (th_lastSuccess th)) ev.
Proof.
  destruct ev as [t' b r|]; [|done]. unfold event_in_streak, in_streak, streak_failure. cbn.
  rewrite <- !andb_assoc. do 2 f_equal. destruct (map_get _ _) as [s|]; [|lia].
  destruct (s >? t - windowMs o) eqn:E; lia.
Qed.

(** What the gate reports of any history of failures and successes: the source's failures are
    exactly those within the window, whatever the usernames and whatever succeeded in between; the
    streak never counts fewer failures than the pair has had in the window since its last success, and
    counts exactly those while the remembered successes have not overflowed [maxTracked]. *)
Theorem throttle_counts (evs : list Event) (t : Z) (a : AuthAttempt) (sig : Signal) (g : Gate) :
  Forall storable_event evs ->
  before o t a sig (run_events (L := L) o evs) = inr g ->
  ga_sourceFailures g = spec_source o t a evs /\
  spec_streak o t a evs <= ga_streak g /\
  (forall D : list jsstr, (length D <= maxTracked o)%nat -> (forall k, k ∈ success_keys evs -> k ∈ D) ->
     ga_streak g = spec_streak o t a evs).
Proof.
  intros Hst Hb. apply before_counts in Hb as (Hstreak & Hsource & _). rewrite Hstreak, Hsource, !ledger_history by done.
  cbn [fc_streak fc_source]. unfold spec_source, spec_streak. split_and!.
  - apply inj_eq, filter_length_ext. intros. apply source_query.
  - apply inj_le, filter_length_mono. intros ev Hev. rewrite streak_query.
    destruct (lastSuccess_history (L := L) o evs) as (_ & _ & _ & Hget).
    destruct (map_get _ _) as [s|] eqn:E; [by rewrite (Hget _ _ E) in Hev|].
    destruct ev as [t' b r|]; [|done]. unfold streak_failure in *. rewrite andb_true_r. by apply andb_prop in Hev as [? _].
  - intros D HD Hsub. apply inj_eq, filter_length_ext. intros ev. rewrite streak_query. f_equal.
    by apply (lastSuccess_complete (L := L) o evs D).
Qed.

(** The tarpit's delay is never negative and never over the maximum, grows with the streak, is
    zero up to [freeFailures] failures exclusive, then doubles with every further failure until it
    reaches the maximum; at the source's ceiling it is the maximum. *)
Theorem delay_schedule (streak sourceFailures : Z) :
  0 <= baseDelayMs o -> 0 <= maxDelayMs o ->
  (0 <= delayFor o streak sourceFailures <= maxDelayMs o) /\
  (forall streak' sourceFailures', streak <= streak' -> sourceFailures <= sourceFailures' ->
     delayFor o streak sourceFailures <= delayFor o streak' sourceFailures') /\
  (sourceFailures < sourceCeiling o -> streak < freeFailures o -> delayFor o streak sourceFailures = 0) /\
  (forall k, sourceFailures < sourceCeiling o -> streak = freeFailures o + k -> 0 <= k ->
     delayFor o streak sourceFailures = Z.min (maxDelayMs o) (baseDelayMs o * 2 ^ k)) /\
  (sourceCeiling o <= sourceFailures -> delayFor o streak sourceFailures = maxDelayMs o).
Proof.
  intros Hb Hm. unfold delayFor.
  assert (forall n, 0 <= n -> 0 <= baseDelayMs o * 2 ^ n) as Hpow by (intros; apply Z.mul_nonneg_nonneg; lia).
  split; [|split_and!].
  - specialize (Hpow (streak - freeFailures o)). repeat case_match; lia.
  - intros s' f' Hs Hf. specialize (Hpow (s' - freeFailures o)). repeat case_match; try lia.
    apply Z.min_le_compat_l, Z.mul_le_mono_nonneg_l; [done|]. apply Z.pow_le_mono_r; lia.
  - intros. repeat case_match; lia.
  - intros k ? -> ?. replace (freeFailures o + k - freeFailures o) with k by lia. repeat case_match; lia.
  - intros. repeat case_match; lia.
Qed.

(** *** Guessing *)

(** One credential check as the daemons run it: the gate, then, if it lets the attempt proceed, the
    check, whose outcome is recorded. *)
Record Guess := mkGuess { gu_attempt : AuthAttempt; gu_time : Z; gu_signal : Signal; gu_recorded : Z; gu_correct : bool; gu_reason : jsstr }.

Definition guess_event (gu : Guess) (th : @Throttle L) : option Event :=
  match before o (gu_time gu) (gu_attempt gu) (gu_signal gu) th with
  | inr g => match ga_outcome g with
             | Proceed => Some (if gu_correct gu then EvSuccess (gu_recorded gu) (gu_attempt gu)
                                else EvFailure (gu_recorded gu) (gu_attempt gu) (gu_reason gu))
             | Refuse | Aborted => None
             end
  | inl _ => None
  end.

Definition guess_step (evs : list Event) (gu : Guess) : list Event :=
  match guess_event gu (run_events o evs) with Some ev => evs ++ [ev] | None => evs end.

Definition guess_all (gs : list Guess) : list Event := fold_left guess_step gs [].

(** Failures of a source within the window that ends at [s]. *)
Definition window_failure (s : Z) (src : jsstr) (ev : Event) : bool :=
  match ev with
  | EvFailure t' b _ => bool_decide (k_source (keys b) = src) && (s - windowMs o <? t') && (t' <=? s)
  | EvSuccess _ _ => false
  end.

Definition window_failures (s : Z) (src : jsstr) (evs : list Event) : nat := length (List.filter (window_failure s src) evs).

(** C31: however a client spreads its guesses over usernames, protocols and addresses of its network,
    and however many of them succeed, credential checks made one after another let at most
    [sourceCeiling] failures of one source through in any window of [windowMs]. *)
Theorem guesses_bounded (gs : list Guess) :
  (forall gu, gu ∈ gs -> gu_time gu <= gu_recorded gu /\ storable_entry (entry_of (gu_attempt gu) (gu_reason gu))) ->
  forall s src, Z.of_nat (window_failures s src (guess_all gs)) <= Z.max 0 (sourceCeiling o).
Proof.
  intros H. enough (Forall storable_event (guess_all gs) /\
    forall s src, Z.of_nat (window_failures s src (guess_all gs)) <= Z.max 0 (sourceCeiling o)) by tauto.
  induction gs as [|gu gs IH] using rev_ind; [split; [constructor|cbn; lia]|].
  destruct IH as [IHst IH]; [intros; apply H, elem_of_app; by left|].
  destruct (H gu) as [Ht Hst]; [apply elem_of_app; right; by apply list_elem_of_singleton|].
  unfold guess_all. rewrite fold_left_app. cbn [fold_left]. fold (guess_all gs). unfold guess_step.
  destruct (guess_event gu _) as [ev|] eqn:E; [|done]. unfold guess_event in E.
  destruct (before _ _ _ _ _) as [|g] eqn:Hb; [done|]. destruct (ga_outcome g) eqn:Ho; [|done..].
  apply before_counts in Hb as (_ & _ & _ & Hp & _). specialize (Hp Ho). rewrite ledger_history in Hp by done.
  cbn [fc_source] in Hp. injection E as <-. split.
  { apply Forall_app. split; [done|]. repeat constructor. by destruct (gu_correct gu). }
  intros s src. unfold window_failures. rewrite List.filter_app, length_app. specialize (IH s src). unfold window_failures in IH.
  destruct (gu_correct gu); cbn [List.filter length window_failure]; [lia|].
  destruct (bool_decide_reflect (k_source (keys (gu_attempt gu)) = src)) as [<-|]; cbn [andb length]; [|lia].
  destruct (s - windowMs o <? gu_recorded gu), (Z.leb_spec (gu_recorded gu) s); cbn [andb length]; try lia.
  match type of Hp with Z.of_nat (length (List.filter ?f _)) < _ =>
    pose proof (filter_length_mono (window_failure s (k_source (keys (gu_attempt gu)))) f (guess_all gs)) as Hle end.
  lapply Hle; [lia|]. intros ev Hev. rewrite source_query. destruct ev as [t' b r|]; [|done]. cbn in *.
  apply andb_prop in Hev as [[Hk Hw]%andb_prop _]. rewrite Hk. cbn. lia.
Qed.

End gate.
