(* ===== verification/AuthThrottleNetwork.v ===== *)
(** * AuthThrottleNetwork: the keys attempts are counted by

    The texts of client addresses are those the PROXY protocol decoder produces; the throttle's keys
    of such a text are functions of the address's network prefix, and determine it. *)
From S2P Require Import Prelude JsString JsStringFacts ProxyProtocol ProxyProtocolProofs AuditLog AuthThrottle AuthThrottleProofs.

Section network_texts.
Context `{R : Runtime}.

(** Normalization leaves plain address texts alone. *)
Lemma addr_trim s : Forall addr_char s -> trim s = s.
Proof.
  intros H. unfold trim. destruct s as [|c s]; [done|].
  assert (forall x, addr_char x -> is_js_space x = false) as Hsp.
  { intros x Hx. unfold addr_char, is_js_space in *. lia. }
  apply trimmed_id. split.
  - exists c, s. split; [done|]. inversion_clear H. auto.
  - destruct (exists_last (l := c :: s)) as (t & d & E); [done|]. exists t, d. split; [done|].
    rewrite E in H. apply Forall_app in H as [_ H]. inversion_clear H. auto.
Qed.

Lemma addr_lower s : Forall addr_char s -> toLowerCase s = s.
Proof.
  intros H. unfold toLowerCase.
  replace (is_ascii s) with true.
  - induction H as [|c s Hc _ IH]; [done|]. csimpl. rewrite IH. f_equal.
    unfold lower_char, isAlphaUpper, addr_char in *. case_match; lia.
  - symmetry. apply forallb_Forall. eapply Forall_impl; [done|]. intros c Hc. unfold addr_char in Hc. lia.
Qed.

Lemma addr_normalize s : Forall addr_char s ->
  normalizeIp s = if startsWith (js "::ffff:") s && isQuad (drop 7 s) && netIsIPv4 (drop 7 s) then drop 7 s else s.
Proof.
  intros H. unfold normalizeIp. rewrite addr_trim, addr_lower by done.
  replace (indexOf 37 s) with (@None nat); [done|].
  symmetry. apply indexOf_None. intros Hin. rewrite Forall_forall in H. apply H in Hin. unfold addr_char in Hin. lia.
Qed.

Lemma no_dot_isQuad s : DOT ∉ s -> isQuad s = false /\ netIsIPv4 s = false.
Proof. intros H. unfold isQuad, netIsIPv4. by rewrite splitOn_none. Qed.

Lemma no_dot_v4_index s : DOT ∉ s -> v4_index s = None.
Proof.
  induction s as [|c s IH]; [done|]. intros [H1 H2]%not_elem_of_cons. cbn [v4_index].
  rewrite (proj1 (no_dot_isQuad (c :: s) ltac:(by apply not_elem_of_cons))), IH; done.
Qed.

(** *** IPv6 *)

Lemma groups_back ns : units_ok ns -> mapM groupNumber (parseInt16 <$> (toString16 <$> ns)) = Some ns.
Proof.
  intros H. rewrite <- list_fmap_compose. induction H as [|n ns Hn _ IH]; [done|].
  destruct (toString16_spec n) as [Ht Hv]; [zlia|]. cbn [fmap list_fmap mapM]. rewrite IH. unfold compose.
  rewrite parseInt16_hex, Hv by done. unfold groupNumber. cbn. unfold is_unit in Hn.
  by replace ((0 <=? n) && (n <=? 65535)) with true by lia.
Qed.

Lemma ipv6Groups_text ns t : t = ipv6_collapse (toString16 <$> ns) -> length ns = 8%nat -> units_ok ns ->
  isIPv6 t = true -> ipv6Groups t = Some ns.
Proof.
  intros Ht Hl Hns H6. unfold ipv6Groups. rewrite H6. cbn [negb]. unfold groupsText.
  rewrite no_dot_v4_index by (subst t; by apply collapse_chars).
  pose proof (fun ms Hms => part_back _ (shorts_text ms Hms)) as Hp.
  destruct (collapse_halves ns t Ht Hl Hns) as [(a & k & Hs & Hz & Hk)|[Hs Hj]]; rewrite Hs.
  - cbn [length Nat.ltb Nat.leb Nat.eqb lookup list_lookup]. rewrite !Hp by (by apply Forall_take || by apply Forall_drop).
    rewrite !length_fmap, length_take, length_drop.
    replace (replicate (8 - a `min` length ns - (length ns - (a + k))) (js "0")) with (toString16 <$> replicate k 0).
    + rewrite <- !fmap_app, <- Hz, groups_back by done. by rewrite !length_fmap, Hl.
    + rewrite fmap_replicate, Hl. f_equal. lia.
  - cbn [length Nat.ltb Nat.leb Nat.eqb lookup list_lookup replicate]. rewrite Hj, Hp, !app_nil_r by done.
    rewrite groups_back by done. by rewrite !length_fmap, Hl.
Qed.

Definition prefix64 (b : bytes) : jsstr := joinWith [58] (toString16 <$> take 4 (shorts_of b)) ++ js "::/64".

Lemma ipv6_keys b : length b = 16%nat -> octets_ok b -> isIPv6 (formatIPv6 b 0) = true ->
  normalizeIp (formatIPv6 b 0) = formatIPv6 b 0 /\ networkOf (formatIPv6 b 0) = prefix64 b /\ sourceOf (formatIPv6 b 0) = prefix64 b.
Proof.
  intros Hl Hb H6. destruct (shorts_of_ok b Hl Hb) as [Hok _].
  destruct (collapse_chars _ Hok) as [Hc Hd]. rewrite <- formatIPv6_collapse in Hc, Hd.
  assert (normalizeIp (formatIPv6 b 0) = formatIPv6 b 0) as Hn.
  { rewrite addr_normalize by done. destruct (no_dot_isQuad (drop 7 (formatIPv6 b 0))) as [-> _].
    - intros Hin. apply Hd. rewrite <- (take_drop 7 (formatIPv6 b 0)). apply elem_of_app. by right.
    - by rewrite andb_false_r. }
  assert (networkOf (formatIPv6 b 0) = prefix64 b) as Hnet.
  { unfold networkOf. rewrite Hn, (proj2 (no_dot_isQuad _ Hd)).
    by rewrite (ipv6Groups_text (shorts_of b)) by (done || apply formatIPv6_collapse). }
  split_and!; [done..|]. unfold sourceOf. by rewrite Hn, (proj2 (no_dot_isQuad _ Hd)).
Qed.

Lemma prefix64_inj b1 b2 : length b1 = 16%nat -> length b2 = 16%nat -> octets_ok b1 -> octets_ok b2 ->
  prefix64 b1 = prefix64 b2 <-> take 8 b1 = take 8 b2.
Proof.
  intros Hl1 Hl2 Hb1 Hb2. destruct (shorts_of_ok b1 Hl1 Hb1) as [Hok1 _], (shorts_of_ok b2 Hl2 Hb2) as [Hok2 _].
  assert (take 4 (shorts_of b1) = take 4 (shorts_of b2) <-> take 8 b1 = take 8 b2) as Hshort.
  { clear Hok1 Hok2. do 16 (destruct b1 as [|? b1]; [done|]). do 16 (destruct b2 as [|? b2]; [done|]).
    destruct b1, b2; try done. rewrite !Forall_cons in Hb1, Hb2. destruct_and!.
    unfold shorts_of, readUInt16BE, readUInt8, is_octet in *. cbn -[Z.mul Z.add]. split; intros [=]; repeat f_equal; lia. }
  rewrite <- Hshort. unfold prefix64. split; [|by intros ->].
  intros E. apply app_inv_tail in E. apply (f_equal (splitOn 58)) in E.
  assert (forall ms, ms <> [] -> units_ok ms -> splitOn 58 (joinWith [58] (toString16 <$> ms)) = toString16 <$> ms) as Hs.
  { intros ms Hne Hms. apply splitOn_joinWith; [by destruct ms|]. eapply Forall_impl; [by apply shorts_text|]. by intros p []. }
  rewrite !Hs in E by (done || by apply Forall_take). apply (f_equal (fmap hex_val)) in E.
  by rewrite !hex_val_text in E by (by apply Forall_take).
Qed.

(** *** IPv4 *)

Lemma octet_dec n : is_octet n -> netIsIPv4_octet (dec n) = true /\ negb (length (dec n) =? 0)%nat && forallb is_digit (dec n) = true.
Proof.
  intros Hn.
  assert (forallb (fun n => netIsIPv4_octet (dec n) && (negb (length (dec n) =? 0)%nat && forallb is_digit (dec n))) (seqZ 0 256) = true) as Hall
    by (vm_compute; reflexivity).
  rewrite forallb_Forall, Forall_forall in Hall. apply andb_prop, Hall, elem_of_seqZ. zlia.
Qed.

Lemma ipv4_text a b c d : octets_ok [a; b; c; d] -> let t := formatIPv4 [a; b; c; d] 0 in
  netIsIPv4 t = true /\ isQuad t = true /\ Forall addr_char t /\ startsWith (js "::ffff:") t = false.
Proof.
  intros H t. pose proof (splitOn_ipv4 a b c d H) as Hs. fold t in Hs.
  assert (forall n, is_octet n -> Forall addr_char (dec n)) as Hd.
  { intros n Hn. destruct (dec_spec n) as (Hd & _); [zlia|]. eapply Forall_impl; [done|]. cbn. intros x Hx%is_digit_spec.
    unfold addr_char. lia. }
  assert (octets_ok [a; b; c; d]) as H' by done. rewrite !Forall_cons in H'. destruct H' as (Ha & Hb & Hc & Hd' & _).
  unfold netIsIPv4, isQuad. rewrite Hs. cbn [length Nat.eqb forallb].
  destruct (octet_dec a Ha) as [-> ->], (octet_dec b Hb) as [-> ->], (octet_dec c Hc) as [-> ->], (octet_dec d Hd') as [-> ->].
  split_and!; try done.
  - unfold t, formatIPv4. apply joinWith_chars; [apply Forall_singleton; unfold addr_char, DOT; lia|]. apply Forall_fmap.
    repeat constructor; cbn -[dec]; auto.
  - unfold t, formatIPv4. cbn [fmap list_fmap]. rewrite joinWith_cons by done.
    change (readUInt8 [a; b; c; d] 0) with a. unfold compose at 1. cbn [readUInt8 nth].
    destruct (dec_spec a) as (Hda & Hne & _); [zlia|]. destruct (dec a) as [|x u]; [done|]. inv Hda.
    change (js "::ffff:") with (58 :: js ":ffff:"). cbn [app startsWith].
    destruct (Z.eqb_spec 58 x) as [<-|]; done.
Qed.

Lemma ipv4_keys a b c d : octets_ok [a; b; c; d] -> let t := formatIPv4 [a; b; c; d] 0 in
  normalizeIp t = t /\ normalizeIp (js "::ffff:" ++ t) = t /\
  networkOf t = joinWith [DOT] [dec a; dec b; dec c] ++ js ".0/24" /\ sourceOf t = t.
Proof.
  intros H t. destruct (ipv4_text a b c d H) as (H4 & Hq & Hc & Hm). fold t in H4, Hq, Hc, Hm.
  assert (normalizeIp t = t) as Hn by (by rewrite addr_normalize, Hm).
  split_and!; [done| | |].
  - rewrite addr_normalize.
    + replace (drop 7 (js "::ffff:" ++ t)) with t by done. rewrite H4, Hq.
      by replace (startsWith (js "::ffff:") (js "::ffff:" ++ t)) with true by (symmetry; apply startsWith_spec; by exists t).
    + apply Forall_app. split; [|done]. change (js "::ffff:") with [58; 58; 102; 102; 102; 102; 58].
      repeat (apply Forall_cons; split; [unfold addr_char; lia|]). constructor.
  - unfold networkOf. rewrite Hn, H4. unfold t. by rewrite splitOn_ipv4.
  - unfold sourceOf. by rewrite Hn, H4.
Qed.

Lemma quad_inj a b c d a' b' c' d' : octets_ok [a; b; c; d] -> octets_ok [a'; b'; c'; d'] ->
  formatIPv4 [a; b; c; d] 0 = formatIPv4 [a'; b'; c'; d'] 0 -> [a; b; c; d] = [a'; b'; c'; d'].
Proof.
  intros H H' E. apply (f_equal (splitOn DOT)) in E. rewrite !splitOn_ipv4 in E by done.
  apply (f_equal (fmap digits_val)) in E. cbn -[digits_val dec] in E. rewrite !Forall_cons in H, H'.
  destruct_and!. unfold is_octet in *.
  assert (forall n, 0 <= n -> digits_val (dec n) = n) as Hd by (intros; by apply dec_spec). by rewrite !Hd in E by lia.
Qed.

Lemma net24_inj a b c d a' b' c' d' : octets_ok [a; b; c; d] -> octets_ok [a'; b'; c'; d'] ->
  joinWith [DOT] [dec a; dec b; dec c] ++ js ".0/24" = joinWith [DOT] [dec a'; dec b'; dec c'] ++ js ".0/24" <-> [a; b; c] = [a'; b'; c'].
Proof.
  intros H H'. split; [|by intros [= -> -> ->]]. intros E. apply app_inv_tail, (f_equal (splitOn DOT)) in E.
  rewrite !Forall_cons in H, H'. destruct_and!. unfold is_octet in *.
  assert (forall n, 0 <= n -> DOT ∉ dec n) as Hno by (intros; by apply dec_no).
  rewrite !splitOn_joinWith in E by (done || (repeat constructor; apply Hno; lia)).
  apply (f_equal (fmap digits_val)) in E. cbn -[digits_val dec] in E.
  assert (forall n, 0 <= n -> digits_val (dec n) = n) as Hd by (intros; by apply dec_spec). by rewrite !Hd in E by lia.
Qed.

(** the keys of a client address are its network, and nothing else: an IPv4 client is counted by
    its /24 for the streak and by its own address for the ceiling, whether it is written plain or as an
    IPv4-mapped IPv6 address; an IPv6 client is counted by its /64 for both, so all the addresses of one
    /64 share one key and two different /64s never do. *)
Theorem client_keys :
  (forall a b c d a' b' c' d', octets_ok [a; b; c; d] -> octets_ok [a'; b'; c'; d'] ->
     let t := formatIPv4 [a; b; c; d] 0 in let t' := formatIPv4 [a'; b'; c'; d'] 0 in
     normalizeIp (js "::ffff:" ++ t) = normalizeIp t /\
     (networkOf t = networkOf t' <-> [a; b; c] = [a'; b'; c']) /\ (sourceOf t = sourceOf t' <-> [a; b; c; d] = [a'; b'; c'; d'])) /\
  (forall b b', length b = 16%nat -> length b' = 16%nat -> octets_ok b -> octets_ok b' ->
     let t := formatIPv6 b 0 in let t' := formatIPv6 b' 0 in
     isIPv6 t = true -> isIPv6 t' = true ->
     (networkOf t = networkOf t' <-> take 8 b = take 8 b') /\ (sourceOf t = sourceOf t' <-> take 8 b = take 8 b')).
Proof.
  split.
  - intros a b c d a' b' c' d' H H' t t'.
    destruct (ipv4_keys a b c d H) as (Hn & Hm & Hnet & Hsrc), (ipv4_keys a' b' c' d' H') as (Hn' & _ & Hnet' & Hsrc').
    fold t in Hn, Hm, Hnet, Hsrc. fold t' in Hn', Hnet', Hsrc'. rewrite Hn, Hm, Hnet, Hnet', Hsrc, Hsrc'.
    split_and!; [done|by apply (net24_inj a b c d a' b' c' d')|].
    split; [by apply quad_inj|]. unfold t, t'. by intros [= -> -> -> ->].
  - intros b b' Hl Hl' Hb Hb' t t' H6 H6'.
    destruct (ipv6_keys b Hl Hb H6) as (_ & Hnet & Hsrc), (ipv6_keys b' Hl' Hb' H6') as (_ & Hnet' & Hsrc').
    unfold t, t'. rewrite Hnet, Hnet', Hsrc, Hsrc'. split; by apply prefix64_inj.
Qed.

End network_texts.

(** ** Concrete runs *)

(** A runtime for texts in ASCII; [isIPv6] accepts any text with a colon. *)
Definition asciiRuntime : Runtime :=
  {| uni_upper s := s; uni_lower s := s; big_string _ := []; isIPv6 s := existsb (Z.eqb 58) s |}.

Definition demo_attempt (user ip : jsstr) : AuthAttempt := mkAttempt (js "imap") user ip.

Lemma client_keys_witness :
  let _ := asciiRuntime in
  networkOf (js "2001:db8::1") = js "2001:db8:0:0::/64" /\
  (networkOf (formatIPv6 [32;1;13;184;0;0;0;0;0;0;0;0;0;0;0;1] 0) = networkOf (formatIPv6 [32;1;13;184;0;0;0;0;9;9;9;9;9;9;9;9] 0)).
Proof.
  intros R. split; [vm_compute; reflexivity|].
  apply (proj2 (client_keys (R := R)) [32;1;13;184;0;0;0;0;0;0;0;0;0;0;0;1] [32;1;13;184;0;0;0;0;9;9;9;9;9;9;9;9]);
    first [reflexivity | repeat constructor; lia | vm_compute; reflexivity].
Defined.

Definition demo_history : list Event :=
  [EvFailure 100 (demo_attempt (js "bob") (js "192.0.2.7")) []; EvFailure 200 (demo_attempt (js "Bob ") (js "::ffff:192.0.2.9")) [];
   EvSuccess 300 (demo_attempt (js "bob") (js "192.0.2.7")); EvFailure 400 (demo_attempt (js "bob") (js "192.0.2.7")) []].

Definition no_signal : Signal := mkSignal false false Slept.

Lemma throttle_counts_witness :
  let _ := asciiRuntime in let _ := memoryLedger in let _ := memoryLedgerOk in
  exists g, before defaultOptions 500 (demo_attempt (js "bob") (js "192.0.2.7")) no_signal (run_events defaultOptions demo_history) = inr g /\
    ga_sourceFailures g = 2 /\ ga_streak g = spec_streak defaultOptions 500 (demo_attempt (js "bob") (js "192.0.2.7")) demo_history /\ ga_streak g = 1.
Proof.
  intros R FL LOk.
  assert (before defaultOptions 500 (demo_attempt (js "bob") (js "192.0.2.7")) no_signal (run_events (L := list (FailureEntry * Z)) defaultOptions demo_history)
          = inr (mkGate Proceed 0 1 2)) as E by (vm_compute; reflexivity).
  exists (mkGate Proceed 0 1 2). split; [exact E|].
  destruct (throttle_counts (LOk := LOk) defaultOptions demo_history 500 _ no_signal _ ltac:(repeat constructor) E) as (_ & _ & H).
  split; [reflexivity|]. split; [|reflexivity].
  apply (H (success_keys demo_history)); [|done].
  apply Nat.leb_le. vm_compute. reflexivity.
Defined.

Lemma delay_schedule_witness :
  0 <= delayFor defaultOptions 6 6 <= 30000 /\
  (fun streak => delayFor defaultOptions streak 0) <$> [2; 3; 4; 5; 6; 7; 8; 9] = [0; 1000; 2000; 4000; 8000; 16000; 30000; 30000].
Proof.
  split; [|reflexivity].
  apply (delay_schedule defaultOptions 6 6); cbn; lia.
Defined.

(** Twenty-five guesses at different usernames of one /64. *)
Definition demo_guesses : list Guess :=
  (fun i => mkGuess (demo_attempt (js "user" ++ dec (Z.of_nat i)) (js "2001:db8::" ++ dec (Z.of_nat i)))
              (Z.of_nat i * 1000) no_signal (Z.of_nat i * 1000 + 1) false (js "bad")) <$> seq 1 25.

Lemma guesses_bounded_witness :
  let _ := asciiRuntime in let _ := memoryLedger in let _ := memoryLedgerOk in
  Z.of_nat (window_failures defaultOptions 25001 (js "2001:db8:0:0::/64") (guess_all defaultOptions demo_guesses)) <= 20 /\
  window_failures defaultOptions 25001 (js "2001:db8:0:0::/64") (guess_all defaultOptions demo_guesses) = 20%nat.
Proof.
  intros R FL LOk. split; [|vm_compute; reflexivity].
  apply (guesses_bounded (LOk := LOk) defaultOptions demo_guesses).
  intros gu Hgu. unfold demo_guesses in Hgu. apply list_elem_of_fmap in Hgu as (i & -> & Hi). cbn. split; [lia|done].
Defined.
