(* ===== verification/SpfIp.v ===== *)
(** * SpfIp: addresses and CIDR matching (packages/auth-checks/src/spf/ip.ts)

    [undefined] is [None]; IPv4 values are 32-bit unsigned numbers, computed with the source's 32-bit
    operators, IPv6 values are big integers. *)
From S2P Require Import Prelude JsString.

(** [/^\d{1,3}$/]. *)
Definition digits1to3 (s : jsstr) : bool := (1 <=? length s)%nat && (length s <=? 3)%nat && forallb is_digit s.

Fixpoint parseIPv4_loop (parts : list jsstr) (value : Z) : option Z :=
  match parts with
  | [] => Some (uint32 value)
  | part :: parts =>
      if negb (digits1to3 part) then None
      else
        let n := Number part in
        if n >? 255 then None else parseIPv4_loop parts (Z.lor (int32 (Z.shiftl value 8)) n)
  end.

Definition parseIPv4 (addr : jsstr) : option Z :=
  let parts := splitOn DOT addr in
  if negb (length parts =? 4)%nat then None else parseIPv4_loop parts 0.

(** [s.lastIndexOf(c) + 1]: zero when [c] does not occur. *)
Definition afterLast (c : Z) (s : jsstr) : nat :=
  match indexOf c (rev s) with None => 0%nat | Some i => (length s - i)%nat end.

Definition padStart (n : nat) (s : jsstr) : jsstr := replicate (n - length s) 48 ++ s.

(** [/^[0-9a-fA-F]{1,4}$/]. *)
Definition hex14 (s : jsstr) : bool := (1 <=? length s)%nat && (length s <=? 4)%nat && forallb is_hex s.

Fixpoint parseIPv6_groups (groups : list jsstr) (value : Z) : option Z :=
  match groups with
  | [] => Some value
  | g :: gs => if hex14 g then parseIPv6_groups gs (Z.lor (Z.shiftl value 16) (hex_val g)) else None
  end.

(** The text with a dotted-quad tail rewritten as two groups. *)
Definition parseIPv6_working (addr : jsstr) : option jsstr :=
  let at_ := afterLast 58 addr in
  let tail := drop at_ addr in
  if includesChar DOT tail then
    v4 ← parseIPv4 tail;
    let hex := padStart 8 (toString16 v4) in
    Some (take at_ addr ++ take 4 hex ++ [58] ++ drop 4 hex)
  else Some addr.

Definition groupsOf (part : option jsstr) : list jsstr :=
  match part with None | Some [] => [] | Some p => splitOn 58 p end.

Definition parseIPv6 (addr : jsstr) : option Z :=
  working ← parseIPv6_working addr;
  let halves := splitDouble 58 working in
  if (2 <? length halves)%nat then None
  else
    let headGroups := groupsOf (halves !! 0%nat) in
    let tailGroups := groupsOf (halves !! 1%nat) in
    groups ← (if (length halves =? 2)%nat then
                if (8 <? length headGroups + length tailGroups)%nat then None
                else Some (headGroups ++ replicate (8 - length headGroups - length tailGroups) (js "0") ++ tailGroups)
              else Some headGroups);
    if negb (length groups =? 8)%nat then None else parseIPv6_groups groups 0.

Definition ipv4MappedToIPv4 (v6 : Z) : option Z :=
  let prefix := Z.shiftr v6 32 in
  let low32 := Z.land v6 0xffffffff in
  let rest := Z.shiftr v6 48 in
  if (prefix =? 0xffff) && (rest =? 0) then Some (uint32 low32) else None.

Definition ipv4CidrMatch (a b prefix : Z) : bool :=
  if prefix >=? 32 then a =? b
  else if prefix <=? 0 then true
  else
    let mask := uint32 (int32 (Z.shiftl (int32 0xffffffff) (32 - prefix))) in
    uint32 (Z.land (int32 a) (int32 mask)) =? uint32 (Z.land (int32 b) (int32 mask)).

Definition ipv6CidrMatch (a b prefix : Z) : bool :=
  if prefix >=? 128 then a =? b
  else if prefix <=? 0 then true
  else
    let mask := Z.shiftl (Z.shiftl 1 prefix - 1) (128 - prefix) in
    Z.land a mask =? Z.land b mask.

Definition ipv6ToDottedNibbles (v6 : Z) : jsstr :=
  joinWith [DOT] ((fun c => [upper_char c]) <$> padStart 32 (toString16 v6)).

(** ** What the arithmetic computes *)

Lemma uint32_int32 n : uint32 (int32 n) = uint32 n.
Proof.
  unfold uint32, int32. rewrite Zminus_mod, Z.mod_mod, <- Zminus_mod by lia. f_equal. lia.
Qed.

Lemma int32_bits n i : 0 <= i < 32 -> Z.testbit (int32 n) i = Z.testbit n i.
Proof.
  intros Hi. rewrite <- (Z.mod_pow2_bits_low (int32 n) 32 i), <- (Z.mod_pow2_bits_low n 32 i) by lia.
  f_equal. apply (uint32_int32 n).
Qed.

Lemma uint32_small n : 0 <= n < 2 ^ 32 -> uint32 n = n.
Proof. apply Z.mod_small. Qed.

(** Two numbers agree above bit [k] exactly when their quotients by [2 ^ k] agree. *)
Lemma shiftr_eq_bits a b k : 0 <= k ->
  a / 2 ^ k = b / 2 ^ k <-> (forall i, k <= i -> Z.testbit a i = Z.testbit b i).
Proof.
  intros Hk. rewrite <- !Z.shiftr_div_pow2 by lia. split.
  - intros H i Hi. replace i with ((i - k) + k) by lia. rewrite <- !Z.shiftr_spec by lia. by rewrite H.
  - intros H. apply Z.bits_inj'. intros i Hi. rewrite !Z.shiftr_spec by lia. apply H. lia.
Qed.

(** Masking away the low [k] of [w] bits. *)
Lemma mask_eq a b k w : 0 <= k <= w -> 0 <= a < 2 ^ w -> 0 <= b < 2 ^ w ->
  (forall i, 0 <= i < w -> Z.testbit a i && (k <=? i) = Z.testbit b i && (k <=? i)) <-> a / 2 ^ k = b / 2 ^ k.
Proof.
  intros Hk Ha Hb. rewrite shiftr_eq_bits by lia.
  assert (forall x i, 0 <= x < 2 ^ w -> w <= i -> Z.testbit x i = false) as Hhigh.
  { intros x i Hx Hi. destruct (decide (x = 0)) as [->|]; [apply Z.bits_0|]. apply Z.bits_above_log2; [lia|].
    apply Z.log2_lt_pow2; [lia|]. apply Z.lt_le_trans with (2 ^ w); [lia|]. apply Z.pow_le_mono_r; lia. }
  split; intros H i Hi.
  - destruct (decide (i < w)) as [Hw|]; [|by rewrite !Hhigh by lia]. specialize (H i). replace (k <=? i) with true in H by lia.
    rewrite !andb_true_r in H. apply H. lia.
  - destruct (Z.leb_spec k i); [|by rewrite !andb_false_r]. by rewrite H.
Qed.

Lemma ipv4CidrMatch_spec a b p : 0 <= a < 2 ^ 32 -> 0 <= b < 2 ^ 32 -> 0 <= p <= 32 ->
  ipv4CidrMatch a b p = true <-> a / 2 ^ (32 - p) = b / 2 ^ (32 - p).
Proof.
  intros Ha Hb Hp. unfold ipv4CidrMatch. destruct (p >=? 32) eqn:E32.
  { replace (32 - p) with 0 by lia. rewrite !Z.div_1_r. lia. }
  destruct (p <=? 0) eqn:E0.
  { replace (32 - p) with 32 by lia. rewrite !Z.div_small by lia. done. }
  rewrite Z.eqb_eq, <- (mask_eq a b (32 - p) 32) by lia. unfold uint32.
  set (mask := int32 (_ mod _)).
  assert (forall i, 0 <= i < 32 -> Z.testbit mask i = (32 - p <=? i)) as Hmask.
  { intros i Hi. unfold mask. rewrite int32_bits by done. rewrite Z.mod_pow2_bits_low by lia. rewrite int32_bits by done.
    change (int32 0xffffffff) with (-1). rewrite Z.shiftl_spec by lia.
    destruct (Z.leb_spec (32 - p) i); [apply Z.bits_m1; lia|]. apply Z.testbit_neg_r. lia. }
  assert (forall x i, 0 <= i < 32 -> Z.testbit (Z.land (int32 x) mask mod 2 ^ 32) i = Z.testbit x i && (32 - p <=? i)) as Hbit.
  { intros x i Hi. rewrite Z.mod_pow2_bits_low, Z.land_spec, int32_bits, Hmask by lia. done. }
  split.
  - intros H i Hi. by rewrite <- !Hbit, H by done.
  - intros H. apply Z.bits_inj'. intros i Hi. destruct (decide (i < 32)); [|by rewrite !Z.mod_pow2_bits_high by lia].
    rewrite !Hbit by lia. apply H. lia.
Qed.

Lemma ipv6CidrMatch_spec a b p : 0 <= a < 2 ^ 128 -> 0 <= b < 2 ^ 128 -> 0 <= p <= 128 ->
  ipv6CidrMatch a b p = true <-> a / 2 ^ (128 - p) = b / 2 ^ (128 - p).
Proof.
  intros Ha Hb Hp. unfold ipv6CidrMatch. destruct (p >=? 128) eqn:E32.
  { replace (128 - p) with 0 by lia. rewrite !Z.div_1_r. lia. }
  destruct (p <=? 0) eqn:E0.
  { replace (128 - p) with 128 by lia. rewrite !Z.div_small by lia. done. }
  rewrite Z.eqb_eq, <- (mask_eq a b (128 - p) 128) by lia.
  assert (forall i, 0 <= i -> Z.testbit (Z.shiftl (Z.shiftl 1 p - 1) (128 - p)) i = (128 - p <=? i) && (i <? 128)) as Hmask.
  { intros i Hi. rewrite Z.shiftl_spec, Z.shiftl_1_l by lia. rewrite Z.sub_1_r, <- Z.ones_equiv.
    destruct (Z.leb_spec (128 - p) i); [|apply Z.testbit_neg_r; lia]. rewrite Z.testbit_ones by lia. cbn. lia. }
  split.
  - intros H i Hi. apply (f_equal (fun z => Z.testbit z i)) in H. rewrite !Z.land_spec, Hmask in H by lia.
    replace (i <? 128) with true in H by lia. by rewrite andb_true_r in H.
  - intros H. apply Z.bits_inj'. intros i Hi. rewrite !Z.land_spec, Hmask by lia.
    destruct (Z.ltb_spec i 128); [|by rewrite !andb_false_r]. rewrite andb_true_r. apply H. lia.
Qed.
