(* ===== verification/SpfMacro.v ===== *)
(** * SpfMacro: macro expansion (packages/auth-checks/src/spf/macro.ts)

    A thrown [SpfPermError] is [inl] of its message. The scan of [expandMacros] works on the rest of
    the template, [i] being its position; every round consumes at least one unit, so fuel equal to
    the template's length is enough. *)
From S2P Require Import Prelude JsString SpfIp.

Record MacroContext := mkMacroContext {
  mc_sender : jsstr;
  mc_domain : jsstr;
  mc_ip : jsstr;
  mc_ipVersion : Z;
  mc_helo : jsstr;
  mc_receivingDomain : option jsstr;
  mc_timestamp : option Z;
  mc_inExp : bool;
  mc_validatedName : option jsstr
}.

Definition MACRO_LETTERS : jsstr := js "slodipvhcrtSLODIPVHCRT".

Definition localPart (sender : jsstr) : jsstr :=
  match indexOf 64 sender with None => sender | Some at_ => take at_ sender end.

Definition domainPart (sender : jsstr) : jsstr :=
  match indexOf 64 sender with None => [] | Some at_ => drop (S at_) sender end.

(** The delimiters are ASCII, so splitting code points and code units agree. *)
Fixpoint splitByDelims (str delims current : jsstr) : list jsstr :=
  match str with
  | [] => [current]
  | ch :: str =>
      if includesChar ch delims then current :: splitByDelims str delims []
      else splitByDelims str delims (current ++ [ch])
  end.

Definition unreserved (c : Z) : bool :=
  isAlphaUpper c || isAlphaLower c || is_digit c || (c =? 46) || (c =? 95) || (c =? 126) || (c =? 45).

Definition percent (b : Z) : jsstr := 37 :: padStart 2 (upper_char <$> toString16 b).

Definition urlEscape (str : jsstr) : jsstr :=
  concat ((fun cp => if unreserved cp then [cp] else concat (percent <$> utf8_bytes cp)) <$> codePoints str).

(** The pattern of a macro's body: a letter, digits, an optional [r], then delimiters to the end. A
    letter other than [r] after the digits, or anything else left over, is no match. *)
Definition is_delim (c : Z) : bool := includesChar c (js ".-+,/_=").

Definition macroBody (body : jsstr) : option (Z * jsstr * bool * jsstr) :=
  match body with
  | [] => None
  | letter :: rest =>
      if negb (isAlphaUpper letter || isAlphaLower letter) then None
      else
        let digits := takeWhile is_digit rest in
        let rest := drop (length digits) rest in
        let '(reverse, delims) := match rest with c :: t => if c =? 114 then (true, t) else (false, rest) | [] => (false, []) end in
        if forallb is_delim delims then Some (letter, digits, reverse, delims) else None
  end.

Section macros.
Context `{R : Runtime} (clock : Z).

Definition expandLetter (letter : Z) (ctx : MacroContext) : jsstr + jsstr :=
  if letter =? 115 (* s *) then inr (mc_sender ctx)
  else if letter =? 108 (* l *) then inr (localPart (mc_sender ctx))
  else if letter =? 111 (* o *) then inr (domainPart (mc_sender ctx))
  else if letter =? 100 (* d *) then inr (mc_domain ctx)
  else if letter =? 105 (* i *) then
    if mc_ipVersion ctx =? 4 then inr (mc_ip ctx)
    else match parseIPv6 (mc_ip ctx) with
         | None => inl (js "invalid IPv6 address for %{i}: " ++ mc_ip ctx)
         | Some v6 => inr (ipv6ToDottedNibbles v6)
         end
  else if letter =? 112 (* p *) then inr (default (js "unknown") (mc_validatedName ctx))
  else if letter =? 118 (* v *) then inr (if mc_ipVersion ctx =? 4 then js "in-addr" else js "ip6")
  else if letter =? 104 (* h *) then inr (mc_helo ctx)
  else if letter =? 99 (* c *) then inr (if mc_ipVersion ctx =? 6 then toLowerCase (mc_ip ctx) else mc_ip ctx)
  else if letter =? 114 (* r *) then inr (default (js "unknown") (mc_receivingDomain ctx))
  else if letter =? 116 (* t *) then inr (num_string (default clock (mc_timestamp ctx)))
  else inl (js "unknown macro letter: " ++ [letter]).

(** [Number(digits)] is not an integer only when it overflows to infinity. *)
Definition badCount (digits : jsstr) : bool := (Number digits >=? 2 ^ 1024) || (Number digits <=? 0).

(** [parts.slice(-n)] for [n > 0]. *)
Definition sliceLast (n : Z) (parts : list jsstr) : list jsstr :=
  if n >=? Z.of_nat (length parts) then parts else drop (length parts - Z.to_nat n) parts.

Definition is_expOnly (letter : Z) : bool := (letter =? 99) || (letter =? 114) || (letter =? 116).

Definition expandBody (body : jsstr) (ctx : MacroContext) : jsstr + jsstr :=
  match macroBody body with
  | None => inl (js "invalid macro: %{" ++ body ++ js "}")
  | Some (letterRaw, digitsRaw, reverseFlag, delimsRaw) =>
      if negb (includesChar letterRaw MACRO_LETTERS) then inl (js "invalid macro: %{" ++ body ++ js "}")
      else
        let letter := lower_char letterRaw in
        if is_expOnly letter && negb (mc_inExp ctx) then
          inl (js "macro %{" ++ [letter] ++ js "} is only valid in an exp= explanation")
        else
          match expandLetter letter ctx with
          | inl e => inl e
          | inr expanded =>
              let delims := match delimsRaw with [] => [DOT] | _ => delimsRaw end in
              let parts := splitByDelims expanded delims [] in
              let parts := if reverseFlag then rev parts else parts in
              if negb (length digitsRaw =? 0)%nat && badCount digitsRaw then
                inl (js "macro digit transformer must be a positive integer: " ++ digitsRaw)
              else
                let parts := if (length digitsRaw =? 0)%nat then parts else sliceLast (Number digitsRaw) parts in
                let expanded := joinWith [DOT] parts in
                inr (if letterRaw =? letter then expanded else urlEscape expanded)
          end
  end.

Fixpoint expand_loop (fuel : nat) (rest : jsstr) (i : nat) (ctx : MacroContext) (result : jsstr) : jsstr + jsstr :=
  match fuel with
  | O => inr result
  | S fuel =>
      match rest with
      | [] => inr result
      | ch :: tail =>
          if negb (ch =? 37) then expand_loop fuel tail (S i) ctx (result ++ [ch])
          else
            match tail with
            | next :: tail =>
                if next =? 37 then expand_loop fuel tail (i + 2) ctx (result ++ [37])
                else if next =? 95 then expand_loop fuel tail (i + 2) ctx (result ++ [32])
                else if next =? 45 then expand_loop fuel tail (i + 2) ctx (result ++ js "%20")
                else if next =? 123 then
                  match indexOf 125 tail with
                  | None => inl (js "unterminated macro expansion")
                  | Some close =>
                      match expandBody (take close tail) ctx with
                      | inl e => inl e
                      | inr expanded => expand_loop fuel (drop (S close) tail) (i + 3 + close) ctx (result ++ expanded)
                      end
                  end
                else inl (js "invalid macro escape at position " ++ dec (Z.of_nat i))
            | [] => inl (js "invalid macro escape at position " ++ dec (Z.of_nat i))
            end
      end
  end.

Definition expandMacros (template : jsstr) (ctx : MacroContext) : jsstr + jsstr :=
  expand_loop (length template) template 0 ctx [].

End macros.
