(* ===== verification/SpfParse.v ===== *)
(** * SpfParse: terms of an SPF record (packages/auth-checks/src/spf/parse.ts)

    A thrown [SpfPermError] is [inl] of its message. *)
From S2P Require Import Prelude JsString SpfIp SpfMacro.

Inductive Qualifier := QPlus | QMinus | QTilde | QQuestion.

Inductive Mechanism :=
| MAll (q : Qualifier)
| MInclude (q : Qualifier) (domainSpec : jsstr)
| MA (q : Qualifier) (domainSpec : option jsstr) (ip4Prefix ip6Prefix : Z)
| MMx (q : Qualifier) (domainSpec : option jsstr) (ip4Prefix ip6Prefix : Z)
| MPtr (q : Qualifier) (domainSpec : option jsstr)
| MIp4 (q : Qualifier) (ip : jsstr) (prefix : Z)
| MIp6 (q : Qualifier) (ip : jsstr) (prefix : Z)
| MExists (q : Qualifier) (domainSpec : jsstr).

Inductive Modifier := MRedirect (domainSpec : jsstr) | MExp (domainSpec : jsstr) | MUnknown (name value : jsstr).

Inductive Term := TMechanism (m : Mechanism) | TModifier (m : Modifier).

(** Sequencing of computations that may throw. *)
Definition bindE {E A B} (m : E + A) (k : A -> E + B) : E + B := match m with inl e => inl e | inr a => k a end.
Definition assertE {E} (b : bool) (e : E) : E + unit := if b then inr tt else inl e.
Notation "'tryE' x <- m ; k" := (bindE m (fun x => k)) (at level 200, x name, m at level 100, k at level 200).

Definition stripQualifier (token : jsstr) : Qualifier * jsstr :=
  match token with
  | c :: rest =>
      if c =? 43 then (QPlus, rest) else if c =? 45 then (QMinus, rest)
      else if c =? 126 then (QTilde, rest) else if c =? 63 then (QQuestion, rest) else (QPlus, token)
  | [] => (QPlus, token)
  end.

Inductive Keyword := KInclude | KExists | KIp4 | KIp6 | KAll | KPtr | KMx | KA.

Definition keyword_text (k : Keyword) : jsstr :=
  match k with
  | KInclude => js "include" | KExists => js "exists" | KIp4 => js "ip4" | KIp6 => js "ip6"
  | KAll => js "all" | KPtr => js "ptr" | KMx => js "mx" | KA => js "a"
  end.

Definition MECHANISM_KEYWORDS : list Keyword := [KInclude; KExists; KIp4; KIp6; KAll; KPtr; KMx; KA].

(** The first keyword that [rest] is, or is followed by a colon or a slash in [rest]. *)
Definition is_keyword (rest : jsstr) (kw : Keyword) : bool :=
  bool_decide (rest = keyword_text kw) || startsWith (keyword_text kw ++ [58]) rest || startsWith (keyword_text kw ++ [47]) rest.

Definition findKeyword (rest : jsstr) : option Keyword := List.find (is_keyword rest) MECHANISM_KEYWORDS.

Section parse.
Context `{R : Runtime} (clock : Z).

Definition SYNTAX_CHECK_CTX : MacroContext :=
  mkMacroContext (js "syntax-check@syntax-check.example") (js "syntax-check.example") (js "0.0.0.0") 4
    (js "syntax-check.example") None None false None.

Definition assertMacroSyntax (text label : jsstr) : jsstr + unit :=
  match expandMacros clock text SYNTAX_CHECK_CTX with
  | inl _ => inl (js "invalid macro syntax in " ++ label ++ js ": " ++ text)
  | inr _ => inr tt
  end.

(** A macro expansion or an escape that takes up all of [s]. *)
Definition macroAtEnd (s : jsstr) : bool :=
  match s with
  | 37 :: c :: t =>
      if c =? 123 then match indexOf 125 t with Some i => (S i =? length t)%nat | None => false end
      else ((c =? 37) || (c =? 95) || (c =? 45)) && (length t =? 0)%nat
  | _ => false
  end.

Fixpoint endsInMacro (s : jsstr) : bool := macroAtEnd s || match s with [] => false | _ :: t => endsInMacro t end.

Definition is_ldh (c : Z) : bool := isAlphaUpper c || isAlphaLower c || is_digit c || (c =? 45).

Definition hasValidDomainEnd (raw : jsstr) : bool :=
  if (length raw =? 0)%nat then false
  else if endsInMacro raw then true
  else
    let trimmed := if endsWith [DOT] raw then take (length raw - 1) raw else raw in
    if negb (includesChar DOT trimmed) then false
    else
      let toplabel := drop (afterLast DOT trimmed) trimmed in
      if (length toplabel =? 0)%nat || negb (forallb is_ldh toplabel) then false
      else if forallb is_digit toplabel then false
      else negb (startsWith [45] toplabel || endsWith [45] toplabel).

Definition assertDomainSpec (spec label : jsstr) : jsstr + unit :=
  tryE _ <- assertMacroSyntax spec label;
  if hasValidDomainEnd spec then inr tt
  else inl (js "invalid domain-spec in " ++ label ++ js " (must end in a macro-expand or a valid top-label): " ++ spec).

(** The digits a text ends with, and what precedes them. *)
Definition trailingDigits (s : jsstr) : jsstr * jsstr :=
  let ds := rev (takeWhile is_digit (rev s)) in (take (length s - length ds) s, ds).

(** [/(slashes)(\d{1,3})$/.exec(s)]: the number, and [s] without the match. *)
Definition stripCidr (slashes s : jsstr) : option (Z * jsstr) :=
  let '(before, ds) := trailingDigits s in
  if digits1to3 ds && endsWith slashes before then Some (Number ds, take (length before - length slashes) before) else None.

Definition stripTrailingDualCidr (body : jsstr) : jsstr + (jsstr * Z * Z) :=
  tryE v6 <- (match stripCidr (js "//") body with
              | None => inr (128, body)
              | Some (n, rest) => if n >? 128 then inl (js "ip6 cidr length out of range: " ++ body) else inr (n, rest)
              end);
  tryE v4 <- (match stripCidr (js "/") (snd v6) with
              | None => inr (32, snd v6)
              | Some (n, rest) => if n >? 32 then inl (js "ip4 cidr length out of range: " ++ body) else inr (n, rest)
              end);
  inr (snd v4, fst v4, fst v6).

Definition parseAOrMxTail (tail label : jsstr) : jsstr + (option jsstr * Z * Z) :=
  if (length tail =? 0)%nat then inr (None, 32, 128)
  else if startsWith [47] tail then
    tryE r <- stripTrailingDualCidr tail;
    let '(domain, ip4Prefix, ip6Prefix) := r in
    if negb (length domain =? 0)%nat then inl (js "invalid dual-cidr-length in " ++ label ++ js ": " ++ tail)
    else inr (None, ip4Prefix, ip6Prefix)
  else if negb (startsWith [58] tail) then inl (js "invalid " ++ label ++ js ": " ++ tail)
  else
    let body := drop 1 tail in
    if (length body =? 0)%nat then inl (js "empty domain-spec in " ++ label)
    else
      tryE r <- stripTrailingDualCidr body;
      let '(domain, ip4Prefix, ip6Prefix) := r in
      if (length domain =? 0)%nat then inl (js "empty domain-spec in " ++ label)
      else tryE _ <- assertDomainSpec domain label; inr (Some domain, ip4Prefix, ip6Prefix).

Definition is_line_end (c : Z) : bool := (c =? 10) || (c =? 13) || (c =? 0x2028) || (c =? 0x2029).
Definition is_name_char (c : Z) : bool := isAlphaUpper c || isAlphaLower c || is_digit c || (c =? 95) || (c =? 46) || (c =? 45).

(** [name=value]: a name that starts with a letter, and a value without line terminators. *)
Definition modMatch (token : jsstr) : option (jsstr * jsstr) :=
  match token with
  | c :: _ =>
      if isAlphaUpper c || isAlphaLower c then
        let name := takeWhile is_name_char token in
        match drop (length name) token with
        | e :: value => if (e =? 61) && forallb (fun c => negb (is_line_end c)) value then Some (name, value) else None
        | [] => None
        end
      else None
  | [] => None
  end.

Definition parseModifier (name value : jsstr) : jsstr + Term :=
  if (length value =? 0)%nat then inl (js "empty value for modifier " ++ name)
  else
    let lower := toLowerCase name in
    if bool_decide (lower = js "redirect") then tryE _ <- assertDomainSpec value (js "redirect="); inr (TModifier (MRedirect value))
    else if bool_decide (lower = js "exp") then tryE _ <- assertDomainSpec value (js "exp="); inr (TModifier (MExp value))
    else tryE _ <- assertMacroSyntax value (js "modifier " ++ name ++ js "="); inr (TModifier (MUnknown name value)).

(** An argument [:domain-spec] that is not empty. *)
Definition needSpec (tail label error : jsstr) : jsstr + jsstr :=
  if negb (startsWith [58] tail) || (length tail <=? 1)%nat then inl error
  else tryE _ <- assertDomainSpec (drop 1 tail) label; inr (drop 1 tail).

(** [/^(?:0|[1-9]\d{0,more})$/]. *)
Definition isCidr (more : nat) (s : jsstr) : bool :=
  match s with
  | [] => false
  | c :: t => if c =? 48 then (length t =? 0)%nat else is_digit c && forallb is_digit t && (length t <=? more)%nat
  end.

Definition isQuad13 (ip : jsstr) : bool := let parts := splitOn DOT ip in (length parts =? 4)%nat && forallb digits1to3 parts.

(** The common shape of the [ip4] and [ip6] cases: a network and an optional prefix length. *)
Definition parseNetwork (name token tail : jsstr) (okNetwork : jsstr -> jsstr + unit) (more : nat) (maxPrefix : Z)
  : jsstr + (jsstr * Z) :=
  if negb (startsWith [58] tail) then inl (name ++ js " requires a network: " ++ token)
  else
    let parts := splitOn 47 (drop 1 tail) in
    if (2 <? length parts)%nat then inl (name ++ js " does not take a dual-cidr-length: " ++ token)
    else
      let ip := default [] (parts !! 0%nat) in
      tryE _ <- okNetwork ip;
      match parts !! 1%nat with
      | None => inr (ip, maxPrefix)
      | Some cidrStr =>
          if negb (isCidr more cidrStr) then inl (js "invalid " ++ name ++ js " cidr length: " ++ token)
          else if Number cidrStr >? maxPrefix then inl (name ++ js " cidr length out of range: " ++ token)
          else inr (ip, Number cidrStr)
      end.

Definition parseMechanism (token : jsstr) (q : Qualifier) (keyword : Keyword) (tail : jsstr) : jsstr + Mechanism :=
  match keyword with
  | KAll => if negb (length tail =? 0)%nat then inl ([34] ++ js "all" ++ [34] ++ js " takes no argument: " ++ token) else inr (MAll q)
  | KInclude => tryE d <- needSpec tail (js "include:") (js "include requires a domain-spec: " ++ token); inr (MInclude q d)
  | KExists => tryE d <- needSpec tail (js "exists:") (js "exists requires a domain-spec: " ++ token); inr (MExists q d)
  | KPtr =>
      if (length tail =? 0)%nat then inr (MPtr q None)
      else tryE d <- needSpec tail (js "ptr:") (js "invalid ptr argument: " ++ token); inr (MPtr q (Some d))
  | KIp4 =>
      tryE n <- parseNetwork (js "ip4") token tail
        (fun ip => assertE (negb (length ip =? 0)%nat && isQuad13 ip) (js "invalid ip4 network: " ++ token)) 1 32;
      inr (MIp4 q (fst n) (snd n))
  | KIp6 =>
      tryE n <- parseNetwork (js "ip6") token tail
        (fun ip => assertE (negb (length ip =? 0)%nat) (js "empty ip6 network: " ++ token)) 2 128;
      inr (MIp6 q (fst n) (snd n))
  | KA => tryE r <- parseAOrMxTail tail (js "a"); inr (MA q (fst (fst r)) (snd (fst r)) (snd r))
  | KMx => tryE r <- parseAOrMxTail tail (js "mx"); inr (MMx q (fst (fst r)) (snd (fst r)) (snd r))
  end.

Definition parseTerm (token : jsstr) : jsstr + Term :=
  if (length token =? 0)%nat then inl (js "empty term")
  else
    match modMatch token with
    | Some (name, value) => parseModifier name value
    | None =>
        let '(qualifier, rest) := stripQualifier token in
        match findKeyword rest with
        | None => inl (js "unrecognized term: " ++ token)
        | Some keyword =>
            tryE m <- parseMechanism token qualifier keyword (drop (length (keyword_text keyword)) rest);
            inr (TMechanism m)
        end
    end.

(** [/^v=spf1(?:$| )/i]. *)
Definition isSpfRecord (r : jsstr) : bool :=
  startsWithCI (js "v=spf1") r && match drop 6 r with [] => true | c :: _ => c =? 32 end.

(** [Ok None] is [NO_SPF_RECORD]. *)
Definition selectSpfRecord (txtRecords : list jsstr) : jsstr + option jsstr :=
  match List.filter isSpfRecord txtRecords with
  | [] => inr None
  | [r] => inr (Some r)
  | _ => inl (js "multiple v=spf1 records")
  end.

Definition is_printable (c : Z) : bool := negb ((c <? 0x20) || (c >? 0x7e)).

Definition assertPrintableAscii (text : jsstr) : jsstr + unit :=
  assertE (forallb is_printable text) (js "SPF records are restricted to printable 7-bit ASCII (RFC 7208 SS3.1)").

Fixpoint parseTerms (tokens : list jsstr) : jsstr + list Term :=
  match tokens with
  | [] => inr []
  | t :: ts => tryE x <- parseTerm t; tryE xs <- parseTerms ts; inr (x :: xs)
  end.

Definition parseRecord (record : jsstr) : jsstr + list Term :=
  let rest := drop 7 record in
  if isSpfRecord record && forallb (fun c => negb (is_line_end c)) rest then
    tryE _ <- assertPrintableAscii rest;
    parseTerms (List.filter (fun t => negb (length t =? 0)%nat) (splitOn 32 rest))
  else inl (js "record does not begin with v=spf1").

End parse.
