(* ===== verification/SpfCheckHost.v ===== *)
(** * SpfCheckHost: check_host and the evaluator (packages/auth-checks/src/spf)

    check-host.ts and evaluate.ts. The evaluator's mutable state is threaded through a state and error
    monad in which a thrown error keeps the state reached; [None] is a recursion that ran out of fuel.
    DNS is a parameter: an answer may depend on the query and on how many queries were sent before it,
    so nothing is assumed of the servers. The log of queries sent is kept for the theorems only. *)
From S2P Require Import Prelude JsString SpfIp SpfMacro SpfParse.

Inductive SpfResult := SpfNone | Neutral | SpfPass | SpfFail | Softfail | Temperror | SpfPermerror.

Inductive SpfError := PermError (message : jsstr) | TempError (message : jsstr).

Record SpfMxRecord := mkMx { mx_preference : Z; mx_exchange : jsstr }.

(** What a DNS call resolves to or rejects with. *)
Inductive Reply (T : Type) :=
| Answer (records : list T) (isVoid : bool)
| Rejected (e : SpfError)
| RejectedOther (message : jsstr).
Arguments Answer {T} _ _.
Arguments Rejected {T} _.
Arguments RejectedOther {T} _.

Inductive Query := QTxt (name : jsstr) | QA (name : jsstr) | QAaaa (name : jsstr) | QMx (name : jsstr) | QPtr (ip : jsstr).

(** The [mx] replies carry preferences, the others are texts. *)
Record SpfDns := mkDns { dns_text : nat -> Query -> Reply jsstr; dns_mx : nat -> jsstr -> Reply SpfMxRecord }.

Definition MAX_DNS_LOOKUPS : Z := 10.
Definition MAX_VOID_LOOKUPS : Z := 2.
Definition MAX_MX_NAMES : nat := 10.
Definition MAX_PTR_NAMES : nat := 10.

Record CheckHostArgs := mkArgs {
  ch_ip : jsstr; ch_ipVersion : Z; ch_sender : jsstr; ch_helo : jsstr; ch_receivingDomain : option jsstr; ch_now : option Z
}.

Record CheckHostState := mkChState { dnsLookups : Z; voidLookups : Z; ch_trace : list jsstr; ch_queries : list Query }.

Definition newCheckHostState : CheckHostState := mkChState 0 0 [] [].

Record CheckHostOutcome := mkOutcome { oc_result : SpfResult; oc_mechanism : option jsstr; oc_explanation : option jsstr }.

Definition outcome (r : SpfResult) : CheckHostOutcome := mkOutcome r None None.

(** ** The monad *)

Definition M (A : Type) : Type := CheckHostState -> option ((SpfError + A) * CheckHostState).

#[export] Instance M_ret : MRet M := fun A a s => Some (inr a, s).
#[export] Instance M_bind : MBind M := fun A B k m s =>
  match m s with
  | None => None
  | Some (inl e, s') => Some (inl e, s')
  | Some (inr a, s') => k a s'
  end.

Definition throw {A} (e : SpfError) : M A := fun s => Some (inl e, s).
Definition noFuel {A} : M A := fun s => None.
Definition getState : M CheckHostState := fun s => Some (inr s, s).
Definition lift {A} (m : jsstr + A) : M A := match m with inl e => throw (PermError e) | inr a => mret a end.

(** [try { m } catch (err) { handler(err) }]. *)
Definition catchM {A} (m : M A) (handler : SpfError -> M A) : M A := fun s =>
  match m s with Some (inl e, s') => handler e s' | r => r end.

Definition trace (line : jsstr) : M unit := fun s =>
  Some (inr tt, mkChState (dnsLookups s) (voidLookups s) (ch_trace s ++ [line]) (ch_queries s)).

Definition error_message (e : SpfError) : jsstr := match e with PermError m | TempError m => m end.

(** ** check-host.ts *)

Definition qualifierResult (q : Qualifier) : SpfResult :=
  match q with QPlus => SpfPass | QMinus => SpfFail | QTilde => Softfail | QQuestion => Neutral end.

Definition countLookup (label : jsstr) : M unit := fun s =>
  let s := mkChState (dnsLookups s + 1) (voidLookups s) (ch_trace s) (ch_queries s) in
  if dnsLookups s >? MAX_DNS_LOOKUPS then
    throw (PermError (js "exceeded the " ++ dec MAX_DNS_LOOKUPS ++ js "-lookup limit at " ++ label ++ js " (RFC 7208 SS4.6.4)")) s
  else Some (inr tt, s).

Definition countVoid (wasVoid : bool) (label : jsstr) : M unit := fun s =>
  if negb wasVoid then Some (inr tt, s)
  else
    let s := mkChState (dnsLookups s) (voidLookups s + 1) (ch_trace s) (ch_queries s) in
    if voidLookups s >? MAX_VOID_LOOKUPS then
      throw (PermError (js "exceeded the " ++ dec MAX_VOID_LOOKUPS ++ js "-void-lookup limit at " ++ label ++ js " (RFC 7208 SS4.6.4)")) s
    else Some (inr tt, s).

(** [await safeDns(dns.q(...), label)]: the query is sent, an error that is not SPF's own becomes temporary. *)
Definition safeReply {T} (r : Reply T) (label : jsstr) : SpfError + (list T * bool) :=
  match r with
  | Answer records isVoid => inr (records, isVoid)
  | Rejected e => inl e
  | RejectedOther message => inl (TempError (js "DNS error during " ++ label ++ js ": " ++ message))
  end.

Definition sendQuery {T} (q : Query) (reply : nat -> Reply T) (label : jsstr) : M (list T * bool) := fun s =>
  Some (safeReply (reply (length (ch_queries s))) label,
        mkChState (dnsLookups s) (voidLookups s) (ch_trace s) (ch_queries s ++ [q])).

Definition macroContext (domain : jsstr) (args : CheckHostArgs) (inExp : bool) (validatedName : option jsstr) : MacroContext :=
  mkMacroContext (ch_sender args) domain (ch_ip args) (ch_ipVersion args) (ch_helo args) (ch_receivingDomain args)
    (ch_now args) inExp validatedName.

(** Drop labels from the left while more than one is left and the name is too long. *)
Fixpoint dropLabels (labels : list jsstr) : list jsstr :=
  match labels with
  | _ :: (_ :: _) as rest => if (253 <? length (joinWith [DOT] labels))%nat then dropLabels rest else labels
  | _ => labels
  end.

Definition truncateDomainName (name : jsstr) : jsstr := joinWith [DOT] (dropLabels (splitOn DOT name)).

(** [/%\{[pP]/]. *)
Fixpoint usesPMacro (template : jsstr) : bool :=
  startsWith (js "%{p") template || startsWith (js "%{P") template ||
  match template with [] => false | _ :: t => usesPMacro t end.

(** [name.replace(/\.$/, '')]. *)
Definition dropFinalDot (name : jsstr) : jsstr := if endsWith [DOT] name then take (length name - 1) name else name.

Definition clientAsIPv4 (args : CheckHostArgs) : option Z :=
  if ch_ipVersion args =? 4 then parseIPv4 (ch_ip args) else v6 ← parseIPv6 (ch_ip args); ipv4MappedToIPv4 v6.

Section evaluator.
Context `{R : Runtime} (clock : Z) (dns : SpfDns) (args : CheckHostArgs).

Definition askText (q : Query) (label : jsstr) : M (list jsstr * bool) := sendQuery q (fun n => dns_text dns n q) label.

Definition is_subdomain (wanted normalized : jsstr) : bool := bool_decide (normalized = wanted) || endsWith (DOT :: wanted) normalized.

Definition normalizeName (name : jsstr) : jsstr := toLowerCase (dropFinalDot name).

Definition matchesA (name : jsstr) (ip4Prefix ip6Prefix : Z) (label : jsstr) : M bool :=
  match clientAsIPv4 args with
  | Some mappedV4 =>
      r ← askText (QA name) label;
      _ ← countVoid (snd r) label;
      mret (existsb (fun addr => match parseIPv4 addr with Some c => ipv4CidrMatch mappedV4 c ip4Prefix | None => false end) (fst r))
  | None =>
      match parseIPv6 (ch_ip args) with
      | None => mret false
      | Some clientV6 =>
          r ← askText (QAaaa name) label;
          _ ← countVoid (snd r) label;
          mret (existsb (fun addr => match parseIPv6 addr with Some c => ipv6CidrMatch clientV6 c ip6Prefix | None => false end) (fst r))
      end
  end.

(** The first name that validates, and the first among those that is at or below [wanted]. *)
Fixpoint validate_names (names : list jsstr) (wanted label : jsstr) (first sub : option jsstr) : M (option jsstr * option jsstr) :=
  match names with
  | [] => mret (first, sub)
  | name :: names =>
      confirmed ← matchesA name 32 128 (label ++ js ":" ++ name);
      if negb confirmed then validate_names names wanted label first sub
      else
        let first := match first with None => Some name | Some _ => first end in
        let sub := match sub with
                   | None => if is_subdomain wanted (normalizeName name) then Some name else None
                   | Some _ => sub
                   end in
        validate_names names wanted label first sub
  end.

Definition computeValidatedName (domain : jsstr) : M jsstr :=
  _ ← countLookup (js "p-macro:" ++ domain);
  let label := js "ptr:" ++ ch_ip args ++ js "(p-macro)" in
  r ← askText (QPtr (ch_ip args)) label;
  _ ← countVoid (snd r) label;
  found ← validate_names (take MAX_PTR_NAMES (fst r)) (normalizeName domain) label None None;
  mret (match snd found, fst found with Some name, _ => name | None, Some name => name | None, None => js "unknown" end).

Definition validatedNameFor (template domain : jsstr) : M (option jsstr) :=
  if usesPMacro template then name ← computeValidatedName domain; mret (Some name) else mret None.

Definition expandDomainSpec (spec : option jsstr) (domain : jsstr) : M jsstr :=
  let template := match spec with None | Some [] => js "%{d}" | Some t => t end in
  validated ← validatedNameFor template domain;
  expanded ← lift (expandMacros clock template (macroContext domain args false validated));
  if (length expanded =? 0)%nat then throw (PermError (js "domain-spec expanded to the empty string"))
  else mret (truncateDomainName expanded).

Definition evalIp4 (ip : jsstr) (prefix : Z) : M bool :=
  match parseIPv4 ip with
  | None => throw (PermError (js "invalid ip4 network: " ++ ip))
  | Some network => mret (match clientAsIPv4 args with None => false | Some c => ipv4CidrMatch c network prefix end)
  end.

Definition evalIp6 (ip : jsstr) (prefix : Z) : M bool :=
  match parseIPv6 ip with
  | None => throw (PermError (js "invalid ip6 network: " ++ ip))
  | Some network =>
      mret (match clientAsIPv4 args with
            | Some _ => false
            | None => match parseIPv6 (ch_ip args) with None => false | Some c => ipv6CidrMatch c network prefix end
            end)
  end.

Definition evalExists (domainSpec domain : jsstr) : M bool :=
  name ← expandDomainSpec (Some domainSpec) domain;
  r ← askText (QA name) (js "exists:" ++ name);
  _ ← countVoid (snd r) (js "exists:" ++ name);
  mret (negb (length (fst r) =? 0)%nat).

Definition evalA (domainSpec : option jsstr) (ip4Prefix ip6Prefix : Z) (domain : jsstr) : M bool :=
  name ← expandDomainSpec domainSpec domain;
  matchesA name ip4Prefix ip6Prefix (js "a:" ++ name).

(** [records.sort((a, b) => a.preference - b.preference)], which is stable. *)
Fixpoint insertMx (x : SpfMxRecord) (l : list SpfMxRecord) : list SpfMxRecord :=
  match l with [] => [x] | y :: l' => if mx_preference x <=? mx_preference y then x :: l else y :: insertMx x l' end.
Definition sortMx (l : list SpfMxRecord) : list SpfMxRecord := foldr insertMx [] l.

Fixpoint anyMx (l : list SpfMxRecord) (name : jsstr) (ip4Prefix ip6Prefix : Z) : M bool :=
  match l with
  | [] => mret false
  | mx :: l =>
      matched ← matchesA (mx_exchange mx) ip4Prefix ip6Prefix (js "mx:" ++ name ++ js ":" ++ mx_exchange mx);
      if matched : bool then mret true else anyMx l name ip4Prefix ip6Prefix
  end.

Definition evalMx (domainSpec : option jsstr) (ip4Prefix ip6Prefix : Z) (domain : jsstr) : M bool :=
  name ← expandDomainSpec domainSpec domain;
  r ← sendQuery (QMx name) (fun n => dns_mx dns n name) (js "mx:" ++ name);
  _ ← countVoid (snd r) (js "mx:" ++ name);
  if (MAX_MX_NAMES <? length (fst r))%nat then
    throw (PermError (js "mx:" ++ name ++ js " resulted in more than " ++ dec (Z.of_nat MAX_MX_NAMES) ++ js " MX records (RFC 7208 SS4.6.4)"))
  else anyMx (sortMx (fst r)) name ip4Prefix ip6Prefix.

Fixpoint anyPtr (names : list jsstr) (target : jsstr) : M bool :=
  match names with
  | [] => mret false
  | name :: names =>
      if is_subdomain (normalizeName target) (normalizeName name) then
        confirmed ← matchesA name 32 128 (js "ptr:" ++ name);
        if confirmed : bool then mret true else anyPtr names target
      else anyPtr names target
  end.

Definition evalPtr (domainSpec : option jsstr) (domain : jsstr) : M bool :=
  target ← expandDomainSpec domainSpec domain;
  r ← askText (QPtr (ch_ip args)) (js "ptr:" ++ ch_ip args);
  _ ← countVoid (snd r) (js "ptr:" ++ ch_ip args);
  anyPtr (take MAX_PTR_NAMES (fst r)) target.

Definition resolveExplanation (spec domain : jsstr) : M (option jsstr) :=
  catchM
    (target ← expandDomainSpec (Some spec) domain;
     r ← askText (QTxt target) (js "exp:" ++ target);
     match fst r with
     | [] => mret None
     | first :: _ =>
         validated ← validatedNameFor first domain;
         text ← lift (expandMacros clock first (macroContext domain args true validated));
         mret (Some text)
     end)
    (fun _ => mret None).

Definition qualifier_of (m : Mechanism) : Qualifier :=
  match m with
  | MAll q | MInclude q _ | MA q _ _ _ | MMx q _ _ _ | MPtr q _ | MIp4 q _ _ | MIp6 q _ _ | MExists q _ => q
  end.

Definition type_text (m : Mechanism) : jsstr :=
  match m with
  | MAll _ => js "all" | MInclude _ _ => js "include" | MA _ _ _ _ => js "a" | MMx _ _ _ _ => js "mx"
  | MPtr _ _ => js "ptr" | MIp4 _ _ _ => js "ip4" | MIp6 _ _ _ => js "ip6" | MExists _ _ => js "exists"
  end.

Definition mechanismText (m : Mechanism) : jsstr :=
  match qualifier_of m with QPlus => [] | QMinus => js "-" | QTilde => js "~" | QQuestion => js "?" end ++ type_text m.

(** The modifiers of the record: at most one [exp] and one [redirect]. *)
Fixpoint collectModifiers (terms : list Term) (exp redirect : option jsstr) : jsstr + (option jsstr * option jsstr) :=
  match terms with
  | [] => inr (exp, redirect)
  | TModifier (MExp d) :: ts =>
      match exp with Some _ => inl (js "exp= appears more than once") | None => collectModifiers ts (Some d) redirect end
  | TModifier (MRedirect d) :: ts =>
      match redirect with Some _ => inl (js "redirect= appears more than once") | None => collectModifiers ts exp (Some d) end
  | _ :: ts => collectModifiers ts exp redirect
  end.

(** The record to evaluate: [inl] when the result is already known. *)
Definition fetchRecord (domain : jsstr) : M (CheckHostOutcome + jsstr) :=
  catchM
    (r ← askText (QTxt domain) (js "txt:" ++ domain);
     _ ← countVoid (snd r) (js "txt:" ++ domain);
     selected ← lift (selectSpfRecord (fst r));
     match selected with
     | None => _ ← trace (domain ++ js ": no v=spf1 record -> none"); mret (inl (outcome SpfNone))
     | Some record => mret (inr record)
     end)
    (fun err => match err with
                | TempError m => _ ← trace (domain ++ js ": temporary DNS error fetching TXT: " ++ m); mret (inl (outcome Temperror))
                | PermError _ => throw err
                end).

Section terms.
(** The recursive call, for [include] and [redirect]. *)
Variable recur : jsstr -> M CheckHostOutcome.

(** [inl] is an early return of check_host, [inr] whether the mechanism matched. *)
Definition evalMechanism (m : Mechanism) (domain : jsstr) : M (CheckHostOutcome + bool) :=
  match m with
  | MAll _ => mret (inr true)
  | MIp4 _ ip prefix => b ← evalIp4 ip prefix; mret (inr b)
  | MIp6 _ ip prefix => b ← evalIp6 ip prefix; mret (inr b)
  | MA _ spec p4 p6 => _ ← countLookup (js "a:" ++ domain); b ← evalA spec p4 p6 domain; mret (inr b)
  | MMx _ spec p4 p6 => _ ← countLookup (js "mx:" ++ domain); b ← evalMx spec p4 p6 domain; mret (inr b)
  | MPtr _ spec => _ ← countLookup (js "ptr:" ++ domain); b ← evalPtr spec domain; mret (inr b)
  | MExists _ spec => _ ← countLookup (js "exists:" ++ domain); b ← evalExists spec domain; mret (inr b)
  | MInclude _ spec =>
      _ ← countLookup (js "include:" ++ domain);
      includedDomain ← expandDomainSpec (Some spec) domain;
      o ← recur includedDomain;
      mret (match oc_result o with
            | SpfPass => inr true
            | SpfFail | Softfail | Neutral => inr false
            | Temperror => inl (outcome Temperror)
            | SpfNone | SpfPermerror => inl (outcome SpfPermerror)
            end)
  end.

(** [inr] when no mechanism matched. *)
Fixpoint evalTerms (terms : list Term) (domain : jsstr) (exp : option jsstr) : M (CheckHostOutcome + unit) :=
  match terms with
  | [] => mret (inr tt)
  | TModifier _ :: ts => evalTerms ts domain exp
  | TMechanism m :: ts =>
      r ← evalMechanism m domain;
      match r with
      | inl o => mret (inl o)
      | inr false => evalTerms ts domain exp
      | inr true =>
          _ ← trace (domain ++ js ": matched " ++ mechanismText m);
          let result := qualifierResult (qualifier_of m) in
          match result, exp with
          | SpfFail, Some spec => explanation ← resolveExplanation spec domain; mret (inl (mkOutcome result (Some (mechanismText m)) explanation))
          | _, _ => mret (inl (mkOutcome result (Some (mechanismText m)) None))
          end
      end
  end.

Definition redirectTo (redirect : option jsstr) (domain : jsstr) : M CheckHostOutcome :=
  match redirect with
  | None => _ ← trace (domain ++ js ": fell off the end of the record -> neutral"); mret (outcome Neutral)
  | Some spec =>
      _ ← countLookup (js "redirect:" ++ domain);
      redirectDomain ← expandDomainSpec (Some spec) domain;
      if bool_decide (redirectDomain = domain) then throw (PermError (js "redirect= points back at the same domain: " ++ domain))
      else
        o ← recur redirectDomain;
        mret (match oc_result o with SpfNone => outcome SpfPermerror | _ => o end)
  end.

Definition evalRecord (record domain : jsstr) : M CheckHostOutcome :=
  match parseRecord clock record with
  | inl e => _ ← trace (domain ++ js ": permerror parsing record: " ++ e); mret (outcome SpfPermerror)
  | inr terms =>
      mods ← lift (collectModifiers terms None None);
      r ← evalTerms terms domain (fst mods);
      match r with inl o => mret o | inr _ => redirectTo (snd mods) domain end
  end.

Definition checkHostBody (domain : jsstr) : M CheckHostOutcome :=
  _ ← trace (js "check_host(" ++ domain ++ js ")");
  fetched ← fetchRecord domain;
  match fetched with inl o => mret o | inr record => evalRecord record domain end.

End terms.

Fixpoint checkHost (fuel : nat) (domain : jsstr) : M CheckHostOutcome :=
  match fuel with O => noFuel | S fuel => checkHostBody (checkHost fuel) domain end.

End evaluator.

(** ** evaluate.ts *)

Inductive SpfScope := ScopeMfrom | ScopeHelo.

Record EvaluateSpfResult := mkSpfResult {
  sr_result : SpfResult; sr_domain : jsstr; sr_scope : SpfScope; sr_explanation : option jsstr; sr_mechanism : option jsstr;
  sr_lookups : Z; sr_voidLookups : Z; sr_trace : list jsstr
}.

Record EvaluateSpfOptions := mkSpfOptions {
  so_ip : jsstr; so_mailFrom : option jsstr; so_helo : jsstr; so_receiver : option jsstr; so_now : option Z
}.

Definition detectIpVersion (ip : jsstr) : Z := if includesChar 58 ip then 6 else 4.

Definition isValidInitialDomain (domain : jsstr) : bool :=
  if startsWith [91] domain then false
  else if negb (includesChar DOT domain) then false
  else if (253 <? length domain)%nat then false
  else forallb (fun label => (1 <=? length label)%nat && (length label <=? 63)%nat) (splitOn DOT domain).

(** Ten lookups are allowed and every recursive call counts one. *)
Definition spf_fuel : nat := 11.

Section evaluate.
Context `{R : Runtime} (clock : Z) (dns : SpfDns).

Definition noEvaluation (domain : jsstr) (scope : SpfScope) (line : jsstr) : EvaluateSpfResult :=
  mkSpfResult SpfNone domain scope None None 0 0 [line].

(** The identity checked: scope, sender and domain. *)
Definition identity (o : EvaluateSpfOptions) : SpfScope * jsstr * jsstr * jsstr :=
  let helo := match so_helo o with [] => js "unknown" | h => h end in
  match so_mailFrom o with
  | None | Some [] => (ScopeHelo, helo, js "postmaster@" ++ helo, helo)
  | Some sender => (ScopeMfrom, helo, sender, match domainPart sender with [] => helo | d => d end)
  end.

Definition finishSpf (domain : jsstr) (scope : SpfScope) (r : (SpfError + CheckHostOutcome) * CheckHostState) : EvaluateSpfResult :=
  let '(res, s) := r in
  match res with
  | inr o => mkSpfResult (oc_result o) domain scope (oc_explanation o) (oc_mechanism o) (dnsLookups s) (voidLookups s) (ch_trace s)
  | inl e => mkSpfResult (match e with PermError _ => SpfPermerror | TempError _ => Temperror end) domain scope None None
               (dnsLookups s) (voidLookups s) (ch_trace s ++ [js "aborted: " ++ error_message e])
  end.

(** The evaluation and the queries it sent; [None] when the fuel did not suffice. *)
Definition evaluateSpf (o : EvaluateSpfOptions) : option (EvaluateSpfResult * list Query) :=
  let ipVersion := detectIpVersion (so_ip o) in
  let invalid := if ipVersion =? 4 then bool_decide (parseIPv4 (so_ip o) = None) else bool_decide (parseIPv6 (so_ip o) = None) in
  if invalid then Some (noEvaluation (so_helo o) ScopeHelo (js "invalid client IP"), [])
  else
    let '(scope, helo, sender, domain) := identity o in
    if (length domain =? 0)%nat || negb (isValidInitialDomain domain) then
      Some (noEvaluation domain scope (js "not a usable domain to evaluate: " ++ domain), [])
    else
      let effectiveSender := match localPart sender with [] => js "postmaster@" ++ domain | _ => sender end in
      let args := mkArgs (so_ip o) ipVersion effectiveSender helo (so_receiver o) (so_now o) in
      (fun r => (finishSpf domain scope r, ch_queries (snd r))) <$> checkHost clock dns args spf_fuel domain newCheckHostState.

End evaluate.

Definition spf_result_text (r : SpfResult) : jsstr :=
  match r with
  | SpfNone => js "none" | Neutral => js "neutral" | SpfPass => js "pass" | SpfFail => js "fail"
  | Softfail => js "softfail" | Temperror => js "temperror" | SpfPermerror => js "permerror"
  end.

Definition authResultsSpf (res : EvaluateSpfResult) : jsstr :=
  js "spf=" ++ spf_result_text (sr_result res) ++ js " " ++
  match sr_scope res with ScopeHelo => js "smtp.helo" | ScopeMfrom => js "smtp.mailfrom" end ++ js "=" ++ sr_domain res.
