(* ===== verification/SpfBounds.v ===== *)
(** * SpfBounds: every evaluation ends, with a bounded number of DNS queries

    Each counted lookup pays for the at most eleven queries it can cause; a call of check_host pays
    for two more (the record and an explanation). *)
From S2P Require Import Prelude JsString SpfIp SpfMacro SpfParse SpfCheckHost.

(** Lookups counted, up to the limit: once it is reached no further lookup is made. *)
Definition spent (s : CheckHostState) : Z := Z.min (dnsLookups s) MAX_DNS_LOOKUPS.
Definition sent (s : CheckHostState) : Z := Z.of_nat (length (ch_queries s)).

(** With recursion depth [f] to spare, [m] returns, and sends at most [n] queries besides eleven for
    each lookup it counts. *)
Definition costs {A} (f n : Z) (m : M A) : Prop :=
  forall s, MAX_DNS_LOOKUPS - spent s < f ->
    exists r s', m s = Some (r, s') /\ spent s <= spent s' /\ sent s <= sent s' /\ sent s' <= sent s + n + 11 * (spent s' - spent s).

Lemma costs_weaken {A} f n n' (m : M A) : n <= n' -> costs f n m -> costs f n' m.
Proof. intros Hn H s Hs. destruct (H s Hs) as (r & s' & ? & ? & ? & ?). exists r, s'. split_and!; try done; lia. Qed.

Lemma costs_ret {A} f (a : A) : costs f 0 (mret a).
Proof. intros s Hs. exists (inr a), s. split_and!; try done; lia. Qed.

Lemma costs_throw {A} f e : costs f 0 (throw (A := A) e).
Proof. intros s Hs. exists (inl e), s. split_and!; try done; lia. Qed.

Lemma costs_lift {A} f (m : jsstr + A) : costs f 0 (lift m).
Proof. destruct m; [apply costs_throw|apply costs_ret]. Qed.

Lemma costs_trace f l : costs f 0 (trace l).
Proof. intros s Hs. eexists _, _. split; [done|]. unfold spent, sent. cbn. lia. Qed.

Lemma costs_bind {A B} f n k (m : M A) (g : A -> M B) :
  0 <= k -> costs f n m -> (forall a, costs f k (g a)) -> costs f (n + k) (m ≫= g).
Proof.
  intros Hk Hm Hg s Hs. destruct (Hm s Hs) as (r & s1 & E1 & H1 & H2 & H3). unfold mbind, M_bind. rewrite E1.
  destruct r as [e|a].
  - exists (inl e), s1. split_and!; try done; lia.
  - destruct (Hg a s1) as (r & s2 & E2 & H4 & H5 & H6); [lia|]. exists r, s2. split_and!; try done; lia.
Qed.

(** Reading the first step of a sequence for free, or for one query. *)
Lemma costs_seq {A B} f k (m : M A) (g : A -> M B) : 0 <= k -> costs f 0 m -> (forall a, costs f k (g a)) -> costs f k (m ≫= g).
Proof. intros. replace k with (0 + k) by lia. by apply costs_bind. Qed.

Lemma costs_seq1 {A B} f k (m : M A) (g : A -> M B) : 1 <= k -> costs f 1 m -> (forall a, costs f (k - 1) (g a)) -> costs f k (m ≫= g).
Proof. intros. replace k with (1 + (k - 1)) by lia. apply costs_bind; [lia|done..]. Qed.

Lemma costs_send {T} f q (reply : nat -> Reply T) label : costs f 1 (sendQuery q reply label).
Proof. intros s Hs. eexists _, _. split; [done|]. unfold spent, sent. cbn. rewrite length_app. cbn. lia. Qed.

Lemma costs_countVoid f b label : costs f 0 (countVoid b label).
Proof.
  intros s Hs. unfold countVoid. destruct b; cbn [negb]; [case_match|]; eexists _, _; (split; [done|]); unfold spent, sent; cbn; lia.
Qed.

Lemma costs_catch {A} f n k (m : M A) h : 0 <= k -> costs f n m -> (forall e, costs f k (h e)) -> costs f (n + k) (catchM m h).
Proof.
  intros Hk Hm Hh s Hs. destruct (Hm s Hs) as (r & s1 & E1 & H1 & H2 & H3). unfold catchM. rewrite E1. destruct r as [e|a].
  - destruct (Hh e s1) as (r & s2 & E2 & H4 & H5 & H6); [lia|]. exists r, s2. split_and!; try done; lia.
  - exists (inr a), s1. split_and!; try done; lia.
Qed.

(** A counted lookup pays for eleven queries, and leaves one level less of recursion. *)
Lemma costs_count {B} f label (g : unit -> M B) : (forall a, costs (f - 1) 11 (g a)) -> costs f 0 (countLookup label ≫= g).
Proof.
  intros Hg s Hs. unfold mbind, M_bind, countLookup. cbn [dnsLookups].
  destruct (dnsLookups s + 1 >? MAX_DNS_LOOKUPS) eqn:E.
  - eexists _, _. split; [done|]. unfold spent, sent in *. cbn. lia.
  - set (s1 := mkChState _ _ _ _). assert (spent s1 = spent s + 1) as Hsp by (unfold spent, s1 in *; cbn; lia).
    assert (sent s1 = sent s) as Hse by done.
    destruct (Hg tt s1) as (r & s2 & E2 & H4 & H5 & H6); [lia|]. exists r, s2. split_and!; try done; lia.
Qed.

#[export] Hint Resolve costs_ret costs_throw costs_lift costs_trace costs_countVoid costs_send : spf.

(** A free computation also costs any more. *)
Ltac free := eapply costs_weaken; [|solve [eauto with spf]]; cbn [length]; lia.

Section bounds.
Context `{R : Runtime} (clock : Z) (dns : SpfDns) (args : CheckHostArgs).

Lemma costs_ask f q label : costs f 1 (askText dns q label).
Proof. apply costs_send. Qed.

Lemma costs_matchesA f name p4 p6 label : costs f 1 (matchesA dns args name p4 p6 label).
Proof.
  unfold matchesA. case_match; [|case_match; [|free]].
  all: apply costs_seq1; [lia|apply costs_ask|]; intros a; apply costs_seq; [lia|free|]; intros _; free.
Qed.

Lemma costs_validate f names wanted label first sub :
  costs f (Z.of_nat (length names)) (validate_names dns args names wanted label first sub).
Proof.
  revert first sub. induction names as [|name names IH]; intros first sub; cbn [validate_names]; [free|].
  apply costs_seq1; [cbn; lia|apply costs_matchesA|]. intros confirmed.
  destruct confirmed; cbn [negb]; eapply costs_weaken; [|apply IH| |apply IH]; cbn; lia.
Qed.

Lemma costs_validatedName f template domain : costs f 0 (validatedNameFor dns args template domain).
Proof.
  unfold validatedNameFor. case_match; [|free]. apply costs_seq; [lia| |intros; free].
  unfold computeValidatedName. apply costs_count. intros _. cbv zeta.
  apply costs_seq1; [lia|apply costs_ask|]. intros r. apply costs_seq; [lia|free|]. intros _.
  eapply costs_weaken; [|apply costs_bind; [| apply costs_validate |intros; apply costs_ret]]; [|lia].
  pose proof (length_take_le (fst r) MAX_PTR_NAMES). rewrite length_take. unfold MAX_PTR_NAMES in *. lia.
Qed.

Lemma costs_expand f spec domain : costs f 0 (expandDomainSpec clock dns args spec domain).
Proof.
  unfold expandDomainSpec. apply costs_seq; [lia|apply costs_validatedName|]. intros v.
  apply costs_seq; [lia|free|]. intros e. case_match; free.
Qed.

Lemma insertMx_length x l : length (insertMx x l) = S (length l).
Proof. induction l as [|y l IH]; cbn; [done|]. case_match; cbn; [done|]. by rewrite IH. Qed.

Lemma sortMx_length l : length (sortMx l) = length l.
Proof. induction l as [|x l IH]; [done|]. change (sortMx (x :: l)) with (insertMx x (sortMx l)). by rewrite insertMx_length, IH. Qed.

Lemma costs_anyMx f l name p4 p6 : costs f (Z.of_nat (length l)) (anyMx dns args l name p4 p6).
Proof.
  induction l as [|mx l IH]; cbn [anyMx]; [free|]. apply costs_seq1; [cbn; lia|apply costs_matchesA|].
  intros [|]; [free|]. eapply costs_weaken; [|apply IH]. cbn. lia.
Qed.

Lemma costs_anyPtr f names target : costs f (Z.of_nat (length names)) (anyPtr dns args names target).
Proof.
  induction names as [|n names IH]; cbn [anyPtr]; [free|]. case_match; [|eapply costs_weaken; [|apply IH]; cbn; lia].
  apply costs_seq1; [cbn; lia|apply costs_matchesA|]. intros [|]; [free|]. eapply costs_weaken; [|apply IH]. cbn. lia.
Qed.

Lemma costs_evalMx f spec p4 p6 domain : costs f 11 (evalMx clock dns args spec p4 p6 domain).
Proof.
  unfold evalMx. apply costs_seq; [lia|apply costs_expand|]. intros name. apply costs_seq1; [lia|free|]. intros r.
  apply costs_seq; [lia|free|]. intros _. destruct (Nat.ltb_spec MAX_MX_NAMES (length (fst r))) as [|Hle]; [free|].
  eapply costs_weaken; [|apply costs_anyMx]. rewrite sortMx_length. unfold MAX_MX_NAMES in Hle. lia.
Qed.

Lemma costs_evalPtr f spec domain : costs f 11 (evalPtr clock dns args spec domain).
Proof.
  unfold evalPtr. apply costs_seq; [lia|apply costs_expand|]. intros target. apply costs_seq1; [lia|apply costs_ask|]. intros r.
  apply costs_seq; [lia|free|]. intros _. eapply costs_weaken; [|apply costs_anyPtr].
  rewrite length_take. unfold MAX_PTR_NAMES. lia.
Qed.

Lemma costs_explanation f spec domain : costs f 1 (resolveExplanation clock dns args spec domain).
Proof.
  unfold resolveExplanation. eapply (costs_weaken _ (1 + 0)); [lia|]. apply costs_catch; [lia| |intros; free].
  apply costs_seq; [lia|apply costs_expand|]. intros target. apply costs_seq1; [lia|apply costs_ask|]. intros r.
  destruct (fst r) as [|first ?]; [free|]. apply costs_seq; [lia| |].
  - eapply costs_weaken; [|apply costs_validatedName]. lia.
  - intros v. apply costs_seq; [lia|free|]. intros; free.
Qed.

Lemma costs_fetch f domain : costs f 1 (fetchRecord dns domain).
Proof.
  unfold fetchRecord. eapply (costs_weaken _ (1 + 0)); [lia|]. apply costs_catch; [lia| |].
  - apply costs_seq1; [lia|apply costs_ask|]. intros r. apply costs_seq; [lia|free|]. intros _.
    apply costs_seq; [lia|free|]. intros [record|]; [free|]. apply costs_seq; [lia|free|intros; free].
  - intros [m|m]; [free|]. apply costs_seq; [lia|free|intros; free].
Qed.

(** With recursive calls that cost two queries, so does check_host. *)
Lemma costs_body f recur domain : (forall d, costs (f - 1) 2 (recur d)) -> costs f 2 (checkHostBody clock dns args recur domain).
Proof.
  intros Hrec. unfold checkHostBody. apply costs_seq; [lia|free|]. intros _. apply costs_seq1; [lia|apply costs_fetch|].
  intros [o|record]; [free|]. unfold evalRecord. destruct (parseRecord clock record) as [e|terms].
  { apply costs_seq; [lia|free|intros; free]. }
  apply costs_seq; [lia|free|]. intros mods.
  assert (forall m, costs f 0 (evalMechanism clock dns args recur m domain)) as Hmech.
  { intros m. unfold evalMechanism, evalIp4, evalIp6.
    destruct m; try (case_match; cbn; (apply costs_seq; [lia|free|intros; free]));
      try (apply costs_count; intros _).
    - free.
    - apply costs_seq; [lia|apply costs_expand|]. intros d. eapply (costs_weaken _ (2 + 0)); [lia|].
      apply costs_bind; [lia|apply Hrec|]. intros; free.
    - eapply (costs_weaken _ (1 + 0)); [lia|]. apply costs_bind; [lia| |intros; free]. unfold evalA.
      apply costs_seq; [lia|apply costs_expand|]. intros; apply costs_matchesA.
    - eapply (costs_weaken _ (11 + 0)); [lia|]. apply costs_bind; [lia|apply costs_evalMx|intros; free].
    - eapply (costs_weaken _ (11 + 0)); [lia|]. apply costs_bind; [lia|apply costs_evalPtr|intros; free].
    - eapply (costs_weaken _ (1 + 0)); [lia|]. apply costs_bind; [lia| |intros; free]. unfold evalExists.
      apply costs_seq; [lia|apply costs_expand|]. intros name. apply costs_seq1; [lia|apply costs_ask|]. intros r.
      apply costs_seq; [lia|free|intros; free]. }
  assert (costs f 1 (evalTerms clock dns args recur terms domain (fst mods))) as Hterms.
  { induction terms as [|[m|m] ts IH]; cbn [evalTerms]; [free| |exact IH].
    apply costs_seq; [lia|apply Hmech|]. intros [o|[|]]; [free| |exact IH].
    apply costs_seq; [lia|free|]. intros _. cbv zeta.
    destruct (qualifierResult (qualifier_of m)), (fst mods); try free.
    eapply (costs_weaken _ (1 + 0)); [lia|]. apply costs_bind; [lia|apply costs_explanation|intros; free]. }
  replace (2 - 1) with (1 + 0) by lia. apply costs_bind; [lia|exact Hterms|]. intros [o|[]]; [free|].
  unfold redirectTo. destruct (snd mods) as [spec|]; [|apply costs_seq; [lia|free|intros; free]].
  apply costs_count. intros _. apply costs_seq; [lia|apply costs_expand|]. intros d. case_match; [free|].
  eapply (costs_weaken _ (2 + 0)); [lia|]. apply costs_bind; [lia|apply Hrec|intros; free].
Qed.

Lemma costs_checkHost fuel domain : costs (Z.of_nat fuel) 2 (checkHost clock dns args fuel domain).
Proof.
  revert domain. induction fuel as [|fuel IH]; intros domain.
  - intros s Hs. unfold spent in Hs. lia.
  - cbn [checkHost]. apply costs_body. intros d. by replace (Z.of_nat (S fuel) - 1) with (Z.of_nat fuel) by lia.
Qed.

End bounds.

(** C35: an SPF evaluation always returns, whatever the records and however the DNS servers answer
    (answers may change from one query to the next, and records may include or redirect to each other
    in cycles), and it sends at most 112 DNS queries. *)
Theorem spf_terminates `{R : Runtime} (clock : Z) (dns : SpfDns) (o : EvaluateSpfOptions) :
  exists res queries, evaluateSpf clock dns o = Some (res, queries) /\ (length queries <= 112)%nat.
Proof.
  unfold evaluateSpf. destruct (if _ =? 4 then _ else _).
  { eexists _, _. split; [done|]. cbn. lia. }
  destruct (identity o) as [[[scope helo] sender] domain]. destruct (_ || _).
  { eexists _, _. split; [done|]. cbn. lia. }
  cbv zeta. set (args := mkArgs _ _ _ _ _ _).
  destruct (costs_checkHost clock dns args spf_fuel domain newCheckHostState) as (r & s' & E & H1 & H2 & H3).
  { unfold spent, spf_fuel, MAX_DNS_LOOKUPS. cbn. lia. }
  rewrite E. eexists _, _. split; [done|]. cbn [snd]. unfold sent, spent, MAX_DNS_LOOKUPS in *. cbn in *. lia.
Qed.
