(* ===== verification/SpfSound.v ===== *)
(** * SpfSound: a definite SPF result is the one RFC 7208 prescribes

    A declarative specification of check_host for a fixed content of the DNS, without limits, counters,
    order of queries or error handling, and the theorem that every definite result of the evaluator
    (none, neutral, pass, fail, softfail) is the specified one. *)
From S2P Require Import Prelude JsString SpfIp SpfMacro SpfParse SpfCheckHost.

Section specification.
Context `{R : Runtime} (clock : Z) (text : Query -> Reply jsstr) (mxs : jsstr -> Reply SpfMxRecord) (args : CheckHostArgs).

(** The client's address is, resp. is not, within the given prefix of an address of [name]; addresses
    of the client's family only, a mapped IPv4 client counting as IPv4. *)
Definition client_in (p4 p6 : Z) (name : jsstr) (b : bool) : Prop :=
  match clientAsIPv4 args with
  | Some v4 => exists addrs v, text (QA name) = Answer addrs v /\
      (b = true <-> exists addr c, addr ∈ addrs /\ parseIPv4 addr = Some c /\ ipv4CidrMatch v4 c p4 = true)
  | None =>
      match parseIPv6 (ch_ip args) with
      | Some v6 => exists addrs v, text (QAaaa name) = Answer addrs v /\
          (b = true <-> exists addr c, addr ∈ addrs /\ parseIPv6 addr = Some c /\ ipv6CidrMatch v6 c p6 = true)
      | None => b = false
      end
  end.

(** The [p] macro: among the first ten names of the client's address, those that resolve back to it;
    of these the first at or below the domain, else the first, else "unknown". *)
Definition confirmed_names (names confirmed : list jsstr) : Prop :=
  exists bs, Forall2 (client_in 32 128) names bs /\ confirmed = (fst <$> List.filter snd (zip names bs)).

Definition preferred (domain : jsstr) (confirmed : list jsstr) : jsstr :=
  match List.find (fun n => is_subdomain (normalizeName domain) (normalizeName n)) confirmed with
  | Some n => n
  | None => default (js "unknown") (head confirmed)
  end.

Definition p_name (domain name : jsstr) : Prop :=
  exists names v confirmed, text (QPtr (ch_ip args)) = Answer names v /\ confirmed_names (take 10 names) confirmed /\
    name = preferred domain confirmed.

Definition expands (domain : jsstr) (spec : option jsstr) (name : jsstr) : Prop :=
  let template := match spec with None | Some [] => js "%{d}" | Some t => t end in
  exists validated e,
    (if usesPMacro template then exists n, p_name domain n /\ validated = Some n else validated = None) /\
    expandMacros clock template (macroContext domain args false validated) = inr e /\ e <> [] /\ name = truncateDomainName e.

(** What an included result means for the [include] mechanism. *)
Definition include_match (r : SpfResult) : option bool :=
  match r with
  | SpfPass => Some true
  | SpfFail | Softfail | Neutral => Some false
  | SpfNone | Temperror | SpfPermerror => None
  end.

Inductive matches : jsstr -> Mechanism -> bool -> Prop :=
| m_all d q : matches d (MAll q) true
| m_ip4 d q ip p n : parseIPv4 ip = Some n ->
    matches d (MIp4 q ip p) (match clientAsIPv4 args with Some c => ipv4CidrMatch c n p | None => false end)
| m_ip6 d q ip p n : parseIPv6 ip = Some n ->
    matches d (MIp6 q ip p) (match clientAsIPv4 args, parseIPv6 (ch_ip args) with None, Some c => ipv6CidrMatch c n p | _, _ => false end)
| m_a d q spec p4 p6 name b : expands d spec name -> client_in p4 p6 name b -> matches d (MA q spec p4 p6) b
| m_mx_yes d q spec p4 p6 name rs v x : expands d spec name -> mxs name = Answer rs v -> (length rs <= 10)%nat ->
    x ∈ rs -> client_in p4 p6 (mx_exchange x) true -> matches d (MMx q spec p4 p6) true
| m_mx_no d q spec p4 p6 name rs v : expands d spec name -> mxs name = Answer rs v -> (length rs <= 10)%nat ->
    (forall x, x ∈ rs -> client_in p4 p6 (mx_exchange x) false) -> matches d (MMx q spec p4 p6) false
| m_exists d q spec name rs v : expands d (Some spec) name -> text (QA name) = Answer rs v ->
    matches d (MExists q spec) (bool_decide (rs <> []))
| m_ptr_yes d q spec target ns v n : expands d spec target -> text (QPtr (ch_ip args)) = Answer ns v ->
    n ∈ take 10 ns -> is_subdomain (normalizeName target) (normalizeName n) = true -> client_in 32 128 n true ->
    matches d (MPtr q spec) true
| m_ptr_no d q spec target ns v : expands d spec target -> text (QPtr (ch_ip args)) = Answer ns v ->
    (forall n, n ∈ take 10 ns -> is_subdomain (normalizeName target) (normalizeName n) = true -> client_in 32 128 n false) ->
    matches d (MPtr q spec) false
| m_include d q spec d' r b : expands d (Some spec) d' -> host d' r -> include_match r = Some b -> matches d (MInclude q spec) b
with host : jsstr -> SpfResult -> Prop :=
| h_none d rs v : text (QTxt d) = Answer rs v -> (forall r, r ∈ rs -> isSpfRecord r = false) -> host d SpfNone
| h_match d terms mods pre m post : record_of d terms mods -> terms = pre ++ TMechanism m :: post ->
    Forall (no_match d) pre -> matches d m true -> host d (qualifierResult (qualifier_of m))
| h_neutral d terms exp : record_of d terms (exp, None) -> Forall (no_match d) terms -> host d Neutral
| h_redirect d terms exp spec d' r : record_of d terms (exp, Some spec) -> Forall (no_match d) terms ->
    expands d (Some spec) d' -> d' <> d -> host d' r -> r <> SpfNone -> host d r
with record_of : jsstr -> list Term -> option jsstr * option jsstr -> Prop :=
| the_record d rs v record terms mods : text (QTxt d) = Answer rs v -> List.filter isSpfRecord rs = [record] ->
    parseRecord clock record = inr terms -> collectModifiers terms None None = inr mods -> record_of d terms mods
with no_match : jsstr -> Term -> Prop :=
| no_modifier d m : no_match d (TModifier m)
| no_mechanism d m : matches d m false -> no_match d (TMechanism m).

End specification.

(** A DNS whose answers depend on the question only. *)
Definition staticDns (text : Query -> Reply jsstr) (mxs : jsstr -> Reply SpfMxRecord) : SpfDns :=
  mkDns (fun _ => text) (fun _ => mxs).

Definition definite (r : SpfResult) : bool := match r with Temperror | SpfPermerror => false | _ => true end.

(** ** Reading runs backwards *)

Lemma bind_inv {A B} (m : M A) (k : A -> M B) s b s' :
  (m ≫= k) s = Some (inr b, s') -> exists a s1, m s = Some (inr a, s1) /\ k a s1 = Some (inr b, s').
Proof. unfold mbind, M_bind. destruct (m s) as [[[e|a] s1]|]; [done| |done]. eauto. Qed.

Lemma ret_inv {A} (a b : A) s s' : mret (M := M) a s = Some (inr b, s') -> b = a.
Proof. by intros [= -> ->]. Qed.

Lemma lift_inv {A} (m : jsstr + A) s a s' : lift m s = Some (inr a, s') -> m = inr a.
Proof. destruct m; [done|]. by intros [= -> ->]. Qed.

(** Take a run of the monad in the context apart. *)
Ltac run H :=
  lazymatch type of H with
  | (_ ≫= _) _ = Some (inr _, _) => let x := fresh "x" in let s := fresh "s" in let H1 := fresh "Hrun" in
      apply bind_inv in H as (x & s & H1 & H)
  | mret _ _ = Some (inr _, _) => apply ret_inv in H
  | lift _ _ = Some (inr _, _) => apply lift_inv in H
  | throw _ _ = Some (inr _, _) => discriminate H
  end.

Section soundness.
Context `{R : Runtime} (clock : Z) (text : Query -> Reply jsstr) (mxs : jsstr -> Reply SpfMxRecord) (args : CheckHostArgs).
Abbreviation dns := (staticDns text mxs).

Lemma ask_inv q label s r s' : askText dns q label s = Some (inr r, s') -> text q = Answer (fst r) (snd r).
Proof. unfold askText, sendQuery. intros [= H _]. cbn in H. by destruct (text q); simplify_eq/=. Qed.

Lemma sendMx_inv q name label s r s' :
  sendQuery q (fun n => dns_mx dns n name) label s = Some (inr r, s') -> mxs name = Answer (fst r) (snd r).
Proof. unfold sendQuery. intros [= H _]. cbn in H. by destruct (mxs name); simplify_eq/=. Qed.

Lemma existsb_elem {A} (f : A -> bool) l : existsb f l = true <-> exists x, x ∈ l /\ f x = true.
Proof. rewrite existsb_exists. by setoid_rewrite list_elem_of_In. Qed.

Lemma matchesA_inv name p4 p6 label s b s' : matchesA dns args name p4 p6 label s = Some (inr b, s') -> client_in text args p4 p6 name b.
Proof.
  unfold matchesA, client_in. destruct (clientAsIPv4 args) as [v4|].
  2: destruct (parseIPv6 (ch_ip args)) as [v6|]; [|intros H; by run H].
  all: intros H; do 3 run H; subst b; apply ask_inv in Hrun; eexists _, _; split; [exact Hrun|]; rewrite existsb_elem;
    split; [intros (addr & Hin & Hm); exists addr; case_match; [eauto|done] | intros (addr & c & Hin & Heq & Hm); exists addr; by rewrite Heq].
Qed.

Lemma validate_inv names wanted label first sub s r s' :
  validate_names dns args names wanted label first sub s = Some (inr r, s') ->
  exists confirmed, confirmed_names text args names confirmed /\
    fst r = match first with Some _ => first | None => head confirmed end /\
    snd r = match sub with Some _ => sub | None => List.find (fun n => is_subdomain wanted (normalizeName n)) confirmed end.
Proof.
  revert first sub s. induction names as [|name names IH]; intros first sub s H; cbn [validate_names] in H.
  - run H. subst r. exists []. split; [by exists []|]. by destruct first, sub.
  - run H. apply matchesA_inv in Hrun. destruct x; cbn [negb] in H; apply IH in H as (c & (bs & Hbs & ->) & H1 & H2).
    + eexists. split; [exists (true :: bs); split; [by constructor|done]|]. cbn [zip List.filter snd fmap list_fmap fst head List.find].
      rewrite H1, H2. split; [by destruct first|]. destruct sub; [done|]. by destruct (is_subdomain _ _).
    + eexists. split; [exists (false :: bs); split; [by constructor|done]|]. done.
Qed.

Lemma validated_inv template domain s v s' : validatedNameFor dns args template domain s = Some (inr v, s') ->
  if usesPMacro template then exists n, p_name text args domain n /\ v = Some n else v = None.
Proof.
  unfold validatedNameFor. destruct (usesPMacro template); intros H; [|by run H].
  run H. run H. subst v. unfold computeValidatedName in Hrun. do 5 run Hrun.
  apply ask_inv in Hrun1. apply validate_inv in Hrun3 as (c & Hc & H1 & H2).
  exists x. split; [|done]. eexists _, _, c. split; [exact Hrun1|]. split; [exact Hc|]. subst x. rewrite H1, H2. unfold preferred.
  destruct (List.find _ c); [done|]. by destruct c.
Qed.

Lemma expand_inv spec domain s name s' : expandDomainSpec clock dns args spec domain s = Some (inr name, s') ->
  expands clock text args domain spec name.
Proof.
  unfold expandDomainSpec, expands. cbv zeta. set (template := match spec with None | Some [] => _ | Some t => t end).
  intros H. run H. run H. run Hrun0. apply validated_inv in Hrun. destruct x0 as [|c e]; cbn [length Nat.eqb] in H; [done|].
  run H. eauto 10.
Qed.

Lemma insertMx_elem y x l : y ∈ insertMx x l <-> y = x \/ y ∈ l.
Proof. induction l as [|z l IH]; cbn; [set_solver|]. case_match; set_solver. Qed.

Lemma sortMx_elem y l : y ∈ sortMx l <-> y ∈ l.
Proof.
  induction l as [|x l IH]; [done|]. change (sortMx (x :: l)) with (insertMx x (sortMx l)).
  rewrite insertMx_elem, IH. set_solver.
Qed.

Lemma anyMx_inv l name p4 p6 s b s' : anyMx dns args l name p4 p6 s = Some (inr b, s') ->
  if b then exists x, x ∈ l /\ client_in text args p4 p6 (mx_exchange x) true
  else forall x, x ∈ l -> client_in text args p4 p6 (mx_exchange x) false.
Proof.
  revert s. induction l as [|mx l IH]; intros s H; cbn [anyMx] in H; [run H; subst b; set_solver|].
  run H. apply matchesA_inv in Hrun. destruct x.
  - run H. subst b. exists mx. split; [by left|done].
  - apply IH in H. destruct b; [set_solver|]. intros x [->|Hx]%elem_of_cons; auto.
Qed.

Lemma anyPtr_inv names target s b s' : anyPtr dns args names target s = Some (inr b, s') ->
  if b then exists n, n ∈ names /\ is_subdomain (normalizeName target) (normalizeName n) = true /\ client_in text args 32 128 n true
  else forall n, n ∈ names -> is_subdomain (normalizeName target) (normalizeName n) = true -> client_in text args 32 128 n false.
Proof.
  revert s. induction names as [|n names IH]; intros s H; cbn [anyPtr] in H; [run H; subst b; set_solver|].
  destruct (is_subdomain _ _) eqn:E; [run H; apply matchesA_inv in Hrun; destruct x|].
  - run H. subst b. exists n. split; [by left|done].
  - apply IH in H. destruct b; [set_solver|]. intros m [->|Hm]%elem_of_cons ?; auto.
  - apply IH in H. destruct b; [set_solver|]. intros m [->|Hm]%elem_of_cons Hs; [congruence|auto].
Qed.

Section body.
Variable recur : jsstr -> M CheckHostOutcome.
Hypothesis Hrec : forall d s o s', recur d s = Some (inr o, s') -> definite (oc_result o) = true -> host clock text mxs args d (oc_result o).
Abbreviation matches := (matches clock text mxs args).
Abbreviation host := (host clock text mxs args).
Abbreviation no_match := (no_match clock text mxs args).

Lemma mechanism_inv m d s r s' : evalMechanism clock dns args recur m d s = Some (inr r, s') ->
  match r with inl o => definite (oc_result o) = false | inr b => matches d m b end.
Proof.
  destruct m as [q|q spec|q spec p4 p6|q spec p4 p6|q spec|q ip p|q ip p|q spec]; cbn [evalMechanism]; intros H.
  - run H. subst r. constructor.
  - do 4 run H. apply expand_inv in Hrun0. specialize (Hrec _ _ _ _ Hrun1). subst r.
    destruct (oc_result x1) eqn:Er; try done; eapply m_include; try exact Hrun0; try (by apply Hrec); done.
  - do 3 run H. unfold evalA in Hrun0. run Hrun0. apply expand_inv in Hrun1. apply matchesA_inv in Hrun0. subst r. by econstructor.
  - do 3 run H. unfold evalMx in Hrun0. do 3 run Hrun0. apply expand_inv in Hrun1. apply sendMx_inv in Hrun2. subst r.
    destruct (Nat.ltb_spec MAX_MX_NAMES (length (fst x2))) as [|Hle]; [done|]. unfold MAX_MX_NAMES in Hle. apply anyMx_inv in Hrun0.
    destruct x0.
    + destruct Hrun0 as (mx & Hin & Hm). rewrite sortMx_elem in Hin. eapply m_mx_yes; eauto.
    + eapply m_mx_no; eauto. intros mx Hin. apply Hrun0. by rewrite sortMx_elem.
  - do 3 run H. unfold evalPtr in Hrun0. do 3 run Hrun0. apply expand_inv in Hrun1. apply ask_inv in Hrun2. subst r.
    apply anyPtr_inv in Hrun0. destruct x0.
    + destruct Hrun0 as (n & Hin & Hs & Hm). eapply m_ptr_yes; eauto.
    + eapply m_ptr_no; eauto.
  - do 2 run H. subst r. unfold evalIp4 in Hrun. destruct (parseIPv4 ip) eqn:E; [|done]. run Hrun. subst x. by eapply m_ip4.
  - do 2 run H. subst r. unfold evalIp6 in Hrun. destruct (parseIPv6 ip) eqn:E; [|done]. run Hrun. subst x. by eapply m_ip6.
  - do 3 run H. unfold evalExists in Hrun0. do 4 run Hrun0. apply expand_inv in Hrun1. apply ask_inv in Hrun2. subst r x0.
    replace (negb _) with (bool_decide (fst x2 <> [])) by (by destruct (fst x2)). eapply m_exists; eauto.
Qed.

Lemma terms_inv terms d exp s r s' : evalTerms clock dns args recur terms d exp s = Some (inr r, s') ->
  match r with
  | inr _ => Forall (no_match d) terms
  | inl o => definite (oc_result o) = true -> exists pre m post, terms = pre ++ TMechanism m :: post /\
      Forall (no_match d) pre /\ matches d m true /\ oc_result o = qualifierResult (qualifier_of m)
  end.
Proof.
  revert s. induction terms as [|t ts IH]; intros s H; cbn [evalTerms] in H; [run H; subst r; constructor|].
  assert (forall s1, no_match d t -> evalTerms clock dns args recur ts d exp s1 = Some (inr r, s') ->
    match r with
    | inr _ => Forall (no_match d) (t :: ts)
    | inl o => definite (oc_result o) = true -> exists pre m post, t :: ts = pre ++ TMechanism m :: post /\
        Forall (no_match d) pre /\ matches d m true /\ oc_result o = qualifierResult (qualifier_of m)
    end) as Hskip.
  { intros s1 Ht Hr. apply IH in Hr. destruct r as [o|[]]; [|by constructor].
    intros Ho. destruct (Hr Ho) as (pre & m & post & -> & Hpre & Hm & Hres). exists (t :: pre), m, post. split_and!; try done. by constructor. }
  destruct t as [m|m]; [|by eapply Hskip; [constructor|]]. run H. apply mechanism_inv in Hrun. destruct x as [o|[|]].
  - run H. subst r. intros Ho. congruence.
  - run H. cbv zeta in H. assert (exists o, r = inl o /\ oc_result o = qualifierResult (qualifier_of m)) as (o & -> & Ho).
    { destruct (qualifierResult (qualifier_of m)), exp; run H; try run H; subst r; eauto. }
    intros _. exists [], m, ts. split_and!; try done.
  - eapply Hskip; [by constructor|exact H].
Qed.

Lemma fetch_inv d s r s' : fetchRecord dns d s = Some (inr r, s') ->
  match r with
  | inl o => definite (oc_result o) = true -> host d (oc_result o)
  | inr record => exists rs v, text (QTxt d) = Answer rs v /\ List.filter isSpfRecord rs = [record]
  end.
Proof.
  unfold fetchRecord, catchM. destruct ((askText dns (QTxt d) _ ≫= _) s) as [[[e|a] s1]|] eqn:E; [| |done].
  - destruct e as [|m]; [done|]. intros H. run H. run H. subst r. done.
  - intros [= -> ->]. do 3 run E. run Hrun1. apply ask_inv in Hrun. unfold selectSpfRecord in Hrun1.
    destruct (List.filter isSpfRecord (fst x)) as [|record [|]] eqn:Ef; simplify_eq.
    + run E. run E. subst r. intros _. eapply h_none; [done|]. intros rec Hin. destruct (isSpfRecord rec) eqn:Er; [|done].
      assert (In rec (List.filter isSpfRecord (fst x))) as Hf by (apply filter_In; split; [by apply list_elem_of_In|done]).
      by rewrite Ef in Hf.
    + run E. subst r. eauto.
Qed.

Lemma body_inv d s o s' : checkHostBody clock dns args recur d s = Some (inr o, s') -> definite (oc_result o) = true -> host d (oc_result o).
Proof.
  unfold checkHostBody. intros H Ho. do 2 run H. apply fetch_inv in Hrun0. destruct x0 as [o'|record]; [run H; subst o'; auto|].
  destruct Hrun0 as (rs & v & Hrs & Hrecord). unfold evalRecord in H. destruct (parseRecord clock record) as [e|terms] eqn:Hp.
  { run H. run H. by subst o. }
  do 2 run H. run Hrun0. apply terms_inv in Hrun1. rename x0 into mods.
  assert (record_of clock text mxs args d terms mods) as Hrec' by (by econstructor).
  destruct x1 as [o'|[]].
  - run H. subst o'. destruct (Hrun1 Ho) as (pre & m & post & Ht & Hpre & Hm & ->). eapply h_match; eauto.
  - unfold redirectTo in H. destruct mods as [exp [spec|]]; cbn [snd] in *.
    + run H. run H. apply expand_inv in Hrun3. case_bool_decide as Hne; [done|]. do 2 run H. subst o.
      match goal with Hr : recur _ _ = Some (inr ?o', _) |- _ =>
        pose proof (Hrec _ _ _ _ Hr) as Hh; destruct (oc_result o') eqn:Er end;
        cbn in Ho |- *; rewrite ?Er in Ho |- *; try discriminate Ho;
        eapply h_redirect; try exact Hrec'; try exact Hrun1; try exact Hrun3; eauto.
    + run H. run H. subst o. eapply h_neutral; eauto.
Qed.

End body.

Lemma checkHost_inv fuel d s o s' : checkHost clock dns args fuel d s = Some (inr o, s') -> definite (oc_result o) = true ->
  host clock text mxs args d (oc_result o).
Proof.
  revert d s o s'. induction fuel as [|fuel IH]; intros d s o s' H; [done|]. by apply (body_inv (checkHost clock dns args fuel) IH d s o s').
Qed.

End soundness.

(** The arguments of check_host for a connection. *)
Definition client_args (o : EvaluateSpfOptions) : CheckHostArgs :=
  let '(_, helo, sender, domain) := identity o in
  mkArgs (so_ip o) (detectIpVersion (so_ip o)) (match localPart sender with [] => js "postmaster@" ++ domain | _ => sender end)
    helo (so_receiver o) (so_now o).

(** C36: a definite SPF verdict is never an artefact of the evaluator: when the evaluation of a
    connection returns pass, fail, softfail or neutral, the declarative reading of the published records
    gives that result for the checked domain, the first matching mechanism deciding and no earlier one
    matching, through any chain of includes and redirects. *)
Theorem spf_sound `{R : Runtime} (clock : Z) (text : Query -> Reply jsstr) (mxs : jsstr -> Reply SpfMxRecord)
  (o : EvaluateSpfOptions) (res : EvaluateSpfResult) (queries : list Query) :
  evaluateSpf clock (staticDns text mxs) o = Some (res, queries) ->
  sr_result res <> SpfNone -> definite (sr_result res) = true ->
  host clock text mxs (client_args o) (sr_domain res) (sr_result res).
Proof.
  unfold evaluateSpf, client_args. intros H Hn Hd. destruct (if _ =? 4 then _ else _); [by simplify_eq/=|].
  destruct (identity o) as [[[scope helo] sender] domain]. destruct (_ || _); [by simplify_eq/=|]. cbv zeta in H.
  set (args := mkArgs _ _ _ _ _ _) in *. revert H. generalize spf_fuel. intros fuel H.
  destruct (checkHost _ _ _ _ _ _) as [[[e|oc] s']|] eqn:E; simplify_eq/=; [by destruct e|].
  eapply checkHost_inv; eauto.
Qed.

(** A domain that includes another and authorizes one network. *)
Definition demo_text (q : Query) : Reply jsstr :=
  match q with
  | QTxt d =>
      if bool_decide (d = js "example.org") then Answer [js "other"; js "v=spf1 include:_spf.example.net a:%{d}/28 -all"] false
      else if bool_decide (d = js "_spf.example.net") then Answer [js "V=SPF1 ip4:198.51.100.0/24 ?all"] false
      else Answer [] true
  | QA d => if bool_decide (d = js "example.org") then Answer [js "192.0.2.33"] false else Answer [] true
  | _ => Answer [] true
  end.

Definition demo_mx (_ : jsstr) : Reply SpfMxRecord := Answer [] true.

Definition demo_runtime : Runtime := {| uni_upper s := s; uni_lower s := s; big_string _ := []; isIPv6 _ := false |}.

Definition demo_options : EvaluateSpfOptions :=
  mkSpfOptions (js "192.0.2.40") (Some (js "bob@example.org")) (js "mail.example.org") None None.

Lemma spf_sound_witness :
  let _ := demo_runtime in
  exists res queries, evaluateSpf 0 (staticDns demo_text demo_mx) demo_options = Some (res, queries) /\
    sr_result res = SpfPass /\ sr_lookups res = 2 /\ length queries = 3%nat /\
    host 0 demo_text demo_mx (client_args demo_options) (sr_domain res) (sr_result res).
Proof.
  intros R. destruct (evaluateSpf 0 (staticDns demo_text demo_mx) demo_options) as [[res queries]|] eqn:E; [|vm_compute in E; discriminate E].
  exists res, queries. split; [reflexivity|].
  assert (sr_result res = SpfPass /\ sr_lookups res = 2 /\ length queries = 3%nat) as (H1 & H2 & H3)
    by (vm_compute in E; injection E as <- <-; vm_compute; repeat split).
  split; [exact H1|]. split; [exact H2|]. split; [exact H3|].
  apply (spf_sound 0 demo_text demo_mx demo_options res queries E); rewrite H1; [discriminate|reflexivity].
Defined.
