(* ===== verification/SpfWellFormed.v ===== *)
(** * SpfWellFormed: what a parsed SPF record guarantees, and what address matching means *)
From S2P Require Import Prelude JsString JsStringFacts ProxyProtocol ProxyProtocolProofs SpfIp SpfMacro SpfParse.

(** ** Parsed terms are well formed *)

(** A context whose client address can be expanded. *)
Definition valid_ctx (ctx : MacroContext) : Prop := mc_ipVersion ctx = 4 \/ parseIPv6 (mc_ip ctx) <> None.

Section wf.
Context `{R : Runtime} (clock : Z).

(** A domain-spec every connection can expand, with any clock. *)
Definition spec_ok (spec : jsstr) : Prop := forall now ctx, valid_ctx ctx -> exists e, expandMacros now spec ctx = inr e.

Definition opt_ok (spec : option jsstr) : Prop := match spec with None => True | Some d => spec_ok d end.

Definition prefixes_ok (p4 p6 : Z) : Prop := 0 <= p4 <= 32 /\ 0 <= p6 <= 128.

Definition mechanism_ok (m : Mechanism) : Prop :=
  match m with
  | MAll _ => True
  | MInclude _ d | MExists _ d => spec_ok d /\ d <> []
  | MA _ d p4 p6 | MMx _ d p4 p6 => opt_ok d /\ d <> Some [] /\ prefixes_ok p4 p6
  | MPtr _ d => opt_ok d /\ d <> Some []
  | MIp4 _ ip p => isQuad13 ip = true /\ 0 <= p <= 32
  | MIp6 _ ip p => ip <> [] /\ 0 <= p <= 128
  end.

Definition term_ok (t : Term) : Prop :=
  match t with
  | TMechanism m => mechanism_ok m
  | TModifier (MRedirect d) | TModifier (MExp d) => spec_ok d /\ d <> []
  | TModifier (MUnknown _ v) => spec_ok v /\ v <> []
  end.

Lemma expandLetter_ok now l ctx e now' ctx' : expandLetter now l ctx = inr e -> valid_ctx ctx' -> exists e', expandLetter now' l ctx' = inr e'.
Proof.
  unfold expandLetter. intros H [Hv|Hv]; repeat (destruct (l =? _); [|]); eauto; try discriminate H.
  - replace (mc_ipVersion ctx' =? 4) with true by lia. eauto.
  - destruct (mc_ipVersion ctx' =? 4); [eauto|]. destruct (parseIPv6 (mc_ip ctx')); [eauto|done].
Qed.

Lemma expandBody_ok now body ctx e now' ctx' : expandBody now body ctx = inr e -> mc_inExp ctx = false -> valid_ctx ctx' ->
  exists e', expandBody now' body ctx' = inr e'.
Proof.
  unfold expandBody. intros H Hexp Hv. destruct (macroBody body) as [[[[l ds] rv] dl]|]; [|done].
  destruct (negb (includesChar l MACRO_LETTERS)); [done|]. cbv zeta in *. rewrite Hexp, andb_true_r in H.
  destruct (is_expOnly (lower_char l)); [done|]. cbn [andb].
  destruct (expandLetter now (lower_char l) ctx) as [|x] eqn:E; [done|].
  destruct (expandLetter_ok _ _ _ _ now' _ E Hv) as [x' ->]. destruct (_ && badCount ds); [done|]. eauto.
Qed.

Lemma expand_loop_ok now fuel rest i ctx acc e now' ctx' j acc' :
  expand_loop now fuel rest i ctx acc = inr e -> mc_inExp ctx = false -> valid_ctx ctx' ->
  exists e', expand_loop now' fuel rest j ctx' acc' = inr e'.
Proof.
  revert rest i acc j acc'. induction fuel as [|fuel IH]; intros rest i acc j acc' H Hexp Hv; [cbn; eauto|].
  cbn [expand_loop] in *. destruct rest as [|ch tail]; [eauto|]. destruct (negb (ch =? 37)); [by eapply IH|].
  destruct tail as [|next tail]; [done|].
  destruct (next =? 37); [by eapply IH|]. destruct (next =? 95); [by eapply IH|]. destruct (next =? 45); [by eapply IH|].
  destruct (next =? 123); [|done]. destruct (indexOf 125 tail) as [close|]; [|done].
  destruct (expandBody now (take close tail) ctx) as [|x] eqn:E; [done|].
  destruct (expandBody_ok _ _ _ _ now' _ E Hexp Hv) as [x' ->]. by eapply IH.
Qed.

Lemma macroSyntax_ok text label : assertMacroSyntax clock text label = inr tt -> spec_ok text.
Proof.
  unfold assertMacroSyntax. destruct (expandMacros clock text SYNTAX_CHECK_CTX) as [|e] eqn:E; [done|]. intros _ now ctx Hv.
  unfold expandMacros in *. by eapply expand_loop_ok.
Qed.

Lemma domainSpec_ok text label : assertDomainSpec clock text label = inr tt -> spec_ok text /\ text <> [].
Proof.
  unfold assertDomainSpec, bindE. destruct (assertMacroSyntax clock text label) as [|[]] eqn:E; [done|]. intros H. split.
  - by eapply macroSyntax_ok.
  - by intros ->.
Qed.

Lemma stripCidr_nonneg slashes s n rest : stripCidr slashes s = Some (n, rest) -> 0 <= n.
Proof.
  unfold stripCidr, trailingDigits. destruct (digits1to3 _) eqn:E; cbn [andb]; [|done]. case_match; [|done]. intros [= <- <-].
  apply Number_nonneg. unfold digits1to3 in E. by apply andb_prop in E as [_ ?].
Qed.

Lemma dualCidr_ok body d p4 p6 : stripTrailingDualCidr body = inr (d, p4, p6) -> prefixes_ok p4 p6.
Proof.
  unfold stripTrailingDualCidr, bindE, prefixes_ok.
  destruct (stripCidr (js "//") body) as [[n6 r6]|] eqn:E6; cbn [snd fst].
  - destruct (n6 >? 128) eqn:H6; [done|]. cbn [snd fst].
    destruct (stripCidr (js "/") r6) as [[n4 r4]|] eqn:E4; [destruct (n4 >? 32) eqn:H4; [done|]|]; intros [= <- <- <-];
      try apply stripCidr_nonneg in E4; apply stripCidr_nonneg in E6; cbn; lia.
  - destruct (stripCidr (js "/") body) as [[n4 r4]|] eqn:E4; [destruct (n4 >? 32) eqn:H4; [done|]|]; intros [= <- <- <-];
      try apply stripCidr_nonneg in E4; cbn; lia.
Qed.

Lemma aOrMx_ok tail label d p4 p6 : parseAOrMxTail clock tail label = inr (d, p4, p6) -> opt_ok d /\ d <> Some [] /\ prefixes_ok p4 p6.
Proof.
  unfold parseAOrMxTail. destruct (length tail =? 0)%nat; [intros [= <- <- <-]; unfold prefixes_ok; cbn; split_and!; try done; lia|].
  destruct (startsWith [47] tail).
  { destruct (stripTrailingDualCidr tail) as [|[[dm q4] q6]] eqn:E; [done|]. cbn [bindE]. case_match; [done|]. intros [= <- <- <-].
    split_and!; try done; by eapply dualCidr_ok in E as []. }
  destruct (negb _); [done|]. cbv zeta. destruct (length (drop 1 tail) =? 0)%nat; [done|].
  destruct (stripTrailingDualCidr (drop 1 tail)) as [|[[dm q4] q6]] eqn:E; [done|]. cbn [bindE].
  destruct (length dm =? 0)%nat eqn:Hd; [done|]. destruct (assertDomainSpec clock dm label) as [|[]] eqn:Ed; [done|]. cbn [bindE].
  intros [= <- <- <-]. apply domainSpec_ok in Ed as [H1 H2]. split; [done|]. split; [congruence|]. by eapply dualCidr_ok.
Qed.

Lemma needSpec_ok tail label error d : needSpec clock tail label error = inr d -> spec_ok d /\ d <> [].
Proof.
  unfold needSpec. destruct (_ || _); [done|]. destruct (assertDomainSpec clock (drop 1 tail) label) as [|[]] eqn:E; [done|].
  cbn [bindE]. intros [= <-]. by eapply domainSpec_ok.
Qed.

Lemma isCidr_digits more s : isCidr more s = true -> forallb is_digit s = true.
Proof.
  destruct s as [|c t]; [done|]. cbn. destruct (Z.eqb_spec c 48) as [->|].
  - intros H. destruct t; done.
  - intros [H _]%andb_prop. done.
Qed.

Lemma network_ok name token tail check more mx ip p : 0 <= mx -> parseNetwork name token tail check more mx = inr (ip, p) ->
  check ip = inr tt /\ 0 <= p <= mx.
Proof.
  intros Hmx. unfold parseNetwork. destruct (negb _); [done|]. cbv zeta. destruct (2 <? _)%nat; [done|].
  destruct (check _) as [|[]] eqn:Ec; [done|]. cbn [bindE]. destruct (_ !! 1%nat) as [cidr|].
  - destruct (isCidr more cidr) eqn:Ei; [|done]. cbn [negb]. destruct (Number cidr >? mx) eqn:En; [done|]. intros [= <- <-].
    split; [done|]. apply isCidr_digits, Number_nonneg in Ei. lia.
  - intros [= <- <-]. split; [done|]. lia.
Qed.

Lemma mechanism_wf token q k tail m : parseMechanism clock token q k tail = inr m -> mechanism_ok m.
Proof.
  unfold parseMechanism. destruct k.
  - destruct (needSpec _ _ _ _) as [|d] eqn:E; [done|]. intros [= <-]. by eapply needSpec_ok.
  - destruct (needSpec _ _ _ _) as [|d] eqn:E; [done|]. intros [= <-]. by eapply needSpec_ok.
  - destruct (parseNetwork _ _ _ _ _ _) as [|[ip p]] eqn:E; [done|]. intros [= <-]. apply network_ok in E as [H ?]; [|lia].
    unfold assertE in H. cbn. split; [|done]. by destruct (isQuad13 ip), (negb (length ip =? 0)%nat).
  - destruct (parseNetwork _ _ _ _ _ _) as [|[ip p]] eqn:E; [done|]. intros [= <-]. apply network_ok in E as [H ?]; [|lia].
    unfold assertE in H. cbn. split; [|done]. by intros ->.
  - case_match; [done|]. by intros [= <-].
  - case_match; [intros [= <-]; done|]. destruct (needSpec _ _ _ _) as [|d] eqn:E; [done|]. intros [= <-].
    apply needSpec_ok in E as []. split; [done|]. congruence.
  - destruct (parseAOrMxTail _ _ _) as [|[[d p4] p6]] eqn:E; [done|]. intros [= <-]. by eapply aOrMx_ok.
  - destruct (parseAOrMxTail _ _ _) as [|[[d p4] p6]] eqn:E; [done|]. intros [= <-]. by eapply aOrMx_ok.
Qed.

Lemma term_wf token t : parseTerm clock token = inr t -> term_ok t.
Proof.
  unfold parseTerm. destruct (length token =? 0)%nat; [done|]. destruct (modMatch token) as [[name value]|].
  - unfold parseModifier. destruct (length value =? 0)%nat eqn:Hl; [done|]. cbv zeta.
    case_bool_decide; [|case_bool_decide].
    1-2: destruct (assertDomainSpec _ _ _) as [|[]] eqn:E; [done|]; intros [= <-]; by eapply domainSpec_ok.
    destruct (assertMacroSyntax _ _ _) as [|[]] eqn:E; [done|]. intros [= <-]. split; [by eapply macroSyntax_ok|]. by intros ->.
  - destruct (stripQualifier token) as [q rest]. destruct (findKeyword rest) as [k|]; [|done].
    destruct (parseMechanism _ _ _ _ _) as [|m] eqn:E; [done|]. intros [= <-]. by eapply mechanism_wf.
Qed.

(** a record that parses is well typed: every domain-spec and modifier value in it is not empty and
    expands without a macro error for every client and sender (so no macro error is left to evaluation
    time), every IPv4 network is a dotted quad, and every prefix length is within its family's width. *)
Theorem record_well_formed (record : jsstr) (terms : list Term) :
  parseRecord clock record = inr terms -> Forall term_ok terms.
Proof.
  unfold parseRecord. cbv zeta. case_match; [|done]. destruct (assertPrintableAscii _) as [|[]]; [done|]. cbn [bindE].
  generalize (List.filter (fun t => negb (length t =? 0)%nat) (splitOn 32 (drop 7 record))). intros tokens. revert terms.
  induction tokens as [|tok tokens IH]; intros terms; cbn [parseTerms]; [by intros [= <-]|].
  destruct (parseTerm clock tok) as [|t] eqn:E; [done|]. cbn [bindE]. destruct (parseTerms clock tokens) as [|ts]; [done|].
  cbn [bindE]. intros [= <-]. constructor; [by eapply term_wf|]. by apply IH.
Qed.

End wf.

Lemma record_well_formed_witness :
  let R := {| uni_upper s := s; uni_lower s := s; big_string _ := []; isIPv6 _ := false |} in
  exists terms, parseRecord (R := R) 0 (js "v=spf1 a:%{ir}.x.example/28//64 ip6:2001:db8::/32 redirect=_spf.%{d2}") = inr terms /\
    length terms = 3%nat /\ Forall (term_ok (R := R)) terms.
Proof.
  intros R. destruct (parseRecord (R := R) 0 (js "v=spf1 a:%{ir}.x.example/28//64 ip6:2001:db8::/32 redirect=_spf.%{d2}")) as [e|terms] eqn:E;
    [vm_compute in E; discriminate E|].
  exists terms. split; [reflexivity|]. split; [vm_compute in E; injection E as <-; reflexivity|].
  exact (record_well_formed (R := R) 0 _ _ E).
Defined.
