(* ===== verification/SpfCidr.v ===== *)
(** * SpfCidr: CIDR matching of address texts is equality of leading bits

    From the octets of two addresses, through their texts and the numbers ip.ts parses them to, to the
    comparison of prefixes. *)
From S2P Require Import Prelude JsString JsStringFacts ProxyProtocol ProxyProtocolProofs SpfIp.

(** ** Octets as bits *)

(** The bits of an address, first bit first. *)
Definition octet_bits (b : Z) : list bool := Z.testbit b <$> [7; 6; 5; 4; 3; 2; 1; 0].
Definition bits (x : bytes) : list bool := concat (octet_bits <$> x).

(** An address as a number, first octet most significant. *)
Definition be_value (x : bytes) : Z := fold_left (fun v b => v * 256 + b) x 0.

Lemma testbit_push v k n j : 0 <= k -> 0 <= n < 2 ^ k -> 0 <= j ->
  Z.testbit (v * 2 ^ k + n) j = if j <? k then Z.testbit n j else Z.testbit v (j - k).
Proof.
  intros Hk Hn Hj. destruct (Z.ltb_spec j k).
  - rewrite <- (Z.mod_pow2_bits_low (v * 2 ^ k + n) k j), Z.add_comm, Z_mod_plus_full, Z.mod_small by lia. done.
  - replace j with ((j - k) + k) at 1 by lia. rewrite <- Z.div_pow2_bits by lia. f_equal.
    rewrite Z.div_add_l, Z.div_small by lia. lia.
Qed.

Lemma lor_push v k n : 0 <= k -> 0 <= n < 2 ^ k -> Z.lor (Z.shiftl v k) n = v * 2 ^ k + n.
Proof.
  intros Hk Hn. apply Z.bits_inj'. intros j Hj. rewrite testbit_push, Z.lor_spec, Z.shiftl_spec by lia.
  destruct (Z.ltb_spec j k); [by rewrite (Z.testbit_neg_r v) by lia|].
  replace (Z.testbit n j) with false; [by rewrite orb_false_r|]. symmetry.
  destruct (decide (n = 0)) as [->|]; [apply Z.bits_0|]. apply Z.bits_above_log2; [lia|].
  apply Z.lt_le_trans with k; [|lia]. apply Z.log2_lt_pow2; lia.
Qed.

Lemma be_value_snoc x b : be_value (x ++ [b]) = be_value x * 2 ^ 8 + b.
Proof. unfold be_value. by rewrite fold_left_app. Qed.

Lemma be_value_bound x : octets_ok x -> 0 <= be_value x < 2 ^ (8 * Z.of_nat (length x)).
Proof.
  induction x as [|b x IH] using rev_ind; [done|]. intros [Hx Hb]%Forall_app. rewrite Forall_singleton in Hb.
  rewrite be_value_snoc, length_app. cbn [length]. specialize (IH Hx).
  replace (8 * Z.of_nat (length x + 1)) with (8 * Z.of_nat (length x) + 8) by lia. rewrite Z.pow_add_r by lia. unfold is_octet in Hb. change (2 ^ 8) with 256.
  lia.
Qed.

Lemma bits_length x : length (bits x) = (8 * length x)%nat.
Proof.
  induction x as [|b x IH]; [done|]. change (bits (b :: x)) with (octet_bits b ++ bits x). rewrite length_app, IH.
  change (length (octet_bits b)) with 8%nat. cbn [length]. lia.
Qed.

Lemma bits_lookup x i : octets_ok x -> (i < 8 * length x)%nat ->
  bits x !! i = Some (Z.testbit (be_value x) (8 * Z.of_nat (length x) - 1 - Z.of_nat i)).
Proof.
  revert i. induction x as [|b x IH] using rev_ind; intros i; [cbn; lia|]. intros [Hx Hb]%Forall_app. rewrite Forall_singleton in Hb.
  rewrite be_value_snoc, length_app. cbn [length]. intros Hi. unfold bits. rewrite fmap_app, concat_app. fold (bits x).
  rewrite testbit_push by (unfold is_octet in *; lia). destruct (Z.ltb_spec (8 * Z.of_nat (length x + 1) - 1 - Z.of_nat i) 8) as [Hlt|Hge].
  - rewrite lookup_app_r by (rewrite bits_length; lia). rewrite bits_length. change (concat (octet_bits <$> [b])) with (octet_bits b).
    replace (8 * Z.of_nat (length x + 1) - 1 - Z.of_nat i) with (7 - Z.of_nat (i - 8 * length x)) by lia.
    assert (i - 8 * length x < 8)%nat as Hk by lia. revert Hk. generalize (i - 8 * length x)%nat. intros k Hk.
    do 8 (destruct k as [|k]; [done|]). lia.
  - rewrite lookup_app_l by (rewrite bits_length; lia). rewrite IH by (done || lia). do 2 f_equal. lia.
Qed.

(** Two addresses agree in their first [p] bits exactly when their quotients do. *)
Lemma prefix_bits x y p : octets_ok x -> octets_ok y -> length x = length y -> (p <= 8 * length x)%nat ->
  let k := 8 * Z.of_nat (length x) - Z.of_nat p in
  be_value x / 2 ^ k = be_value y / 2 ^ k <-> take p (bits x) = take p (bits y).
Proof.
  intros Hx Hy Hl Hp k. pose proof (be_value_bound x Hx) as Hbx. pose proof (be_value_bound y Hy) as Hby. rewrite <- Hl in Hby.
  rewrite <- (mask_eq _ _ k (8 * Z.of_nat (length x))) by (unfold k; lia). split.
  - intros H. apply list_eq. intros i. destruct (decide (i < p)%nat) as [Hi|].
    + rewrite !lookup_take_lt, !bits_lookup by (done || lia). f_equal. rewrite <- Hl.
      specialize (H (8 * Z.of_nat (length x) - 1 - Z.of_nat i)).
      replace (k <=? _) with true in H by (unfold k; lia). rewrite !andb_true_r in H. apply H. lia.
    + by rewrite !lookup_take_ge by lia.
  - intros H i Hi. destruct (Z.leb_spec k i) as [Hk|]; [|by rewrite !andb_false_r]. rewrite !andb_true_r.
    set (j := Z.to_nat (8 * Z.of_nat (length x) - 1 - i)).
    apply (f_equal (lookup j)) in H. rewrite !lookup_take_lt in H by (unfold j, k in *; lia).
    rewrite !bits_lookup, <- Hl in H by (done || (unfold j; lia)). injection H as H.
    by replace (8 * Z.of_nat (length x) - 1 - Z.of_nat j) with i in H by (unfold j; lia).
Qed.

(** ** Texts as numbers *)

Lemma push_octet value n : is_octet n -> uint32 (Z.lor (int32 (Z.shiftl value 8)) n) = uint32 (uint32 value * 256 + n).
Proof.
  intros Hn. unfold is_octet in Hn. apply Z.bits_inj'. intros j Hj. unfold uint32.
  destruct (decide (j < 32)); [|by rewrite !Z.mod_pow2_bits_high by lia].
  rewrite !(Z.mod_pow2_bits_low _ 32 j) by lia. rewrite Z.lor_spec, int32_bits, Z.shiftl_spec by lia.
  change 256 with (2 ^ 8). rewrite testbit_push by lia. destruct (Z.ltb_spec j 8); [by rewrite (Z.testbit_neg_r value) by lia|].
  rewrite Z.mod_pow2_bits_low by lia. replace (Z.testbit n j) with false; [by rewrite orb_false_r|]. symmetry.
  destruct (decide (n = 0)) as [->|]; [apply Z.bits_0|]. apply Z.bits_above_log2; [lia|].
  apply Z.lt_le_trans with 8; [|lia]. apply Z.log2_lt_pow2; lia.
Qed.

Lemma digits1to3_dec n : is_octet n -> digits1to3 (dec n) = true /\ Number (dec n) = n.
Proof.
  intros Hn. rewrite Number_dec by zlia. split; [|done].
  assert (forallb (fun n => digits1to3 (dec n)) (seqZ 0 256) = true) as Hall by (vm_compute; reflexivity).
  rewrite forallb_Forall, Forall_forall in Hall. apply Hall, elem_of_seqZ. zlia.
Qed.

Lemma parseIPv4_text x : length x = 4%nat -> octets_ok x -> parseIPv4 (formatIPv4 x 0) = Some (be_value x).
Proof.
  intros Hl Hx. pose proof (be_value_bound x Hx) as Hb. rewrite Hl in Hb. destruct x as [|a [|b [|c [|d [|]]]]]; try done.
  unfold parseIPv4. rewrite splitOn_ipv4 by done. cbn [length Nat.eqb negb parseIPv4_loop].
  rewrite !Forall_cons in Hx. destruct Hx as (Ha & Hbb & Hc & Hd & _).
  destruct (digits1to3_dec a Ha) as [-> ->], (digits1to3_dec b Hbb) as [-> ->], (digits1to3_dec c Hc) as [-> ->], (digits1to3_dec d Hd) as [-> ->].
  cbn [negb]. unfold is_octet in *.
  replace (a >? 255) with false by lia. replace (b >? 255) with false by lia.
  replace (c >? 255) with false by lia. replace (d >? 255) with false by lia.
  f_equal. unfold be_value in *. cbn [fold_left] in *. rewrite !push_octet by done. change (uint32 0) with 0.
  rewrite (uint32_small (0 * 256 + a)) by lia. rewrite (uint32_small ((0 * 256 + a) * 256 + b)) by lia.
  rewrite (uint32_small (((0 * 256 + a) * 256 + b) * 256 + c)) by lia. apply uint32_small. lia.
Qed.

Lemma hex_aux_length fuel n acc k : 0 <= n < 16 ^ Z.of_nat (S k) -> (length (hex_aux fuel n acc) <= length acc + S k)%nat.
Proof.
  revert n acc k. induction fuel as [|fuel IH]; intros n acc k Hn; cbn [hex_aux]; [lia|].
  destruct (Z.eqb_spec (n / 16) 0); cbn [length]; [lia|]. destruct k as [|k].
  - exfalso. rewrite Z.div_small in *; [done|]. change (16 ^ Z.of_nat 1) with 16 in Hn. lia.
  - etrans; [apply (IH _ _ k)|cbn [length]; lia]. split; [apply Z.div_pos; lia|].
    apply Z.div_lt_upper_bound; [lia|]. replace (Z.of_nat (S (S k))) with (1 + Z.of_nat (S k)) in Hn by lia.
    rewrite Z.pow_add_r in Hn by lia. lia.
Qed.

Lemma hex14_text n : is_unit n -> hex14 (toString16 n) = true /\ hex_val (toString16 n) = n.
Proof.
  intros Hn. destruct (toString16_spec n) as [[Hne Ht] Hv]; [zlia|]. split; [|done]. unfold hex14.
  pose proof (hex_aux_length (S (Z.to_nat (Z.log2 n))) n [] 3) as Hlen. fold (toString16 n) in Hlen. cbn [length Nat.add] in Hlen.
  replace (forallb is_hex (toString16 n)) with true; [|symmetry; apply forallb_Forall; eapply Forall_impl; [done|]; naive_solver].
  destruct (toString16 n) eqn:E; [done|]. cbn [length] in *. unfold is_unit in Hn. change (16 ^ Z.of_nat 4) with 65536 in Hlen.
  rewrite andb_true_r. apply andb_true_intro. split; apply Nat.leb_le; [lia|]. apply Hlen. lia.
Qed.

Lemma parseIPv6_groups_text ns v : units_ok ns ->
  parseIPv6_groups (toString16 <$> ns) v = Some (fold_left (fun v n => v * 65536 + n) ns v).
Proof.
  intros H. revert v. induction H as [|n ns Hn _ IH]; intros v; [done|]. cbn [fmap list_fmap parseIPv6_groups fold_left].
  destruct (hex14_text n Hn) as [-> ->]. change 16 with (Z.of_nat 16). rewrite lor_push by (zlia || lia). apply IH.
Qed.

Lemma parseIPv6_text x : length x = 16%nat -> octets_ok x -> parseIPv6 (formatIPv6 x 0) = Some (be_value x).
Proof.
  intros Hl Hx. destruct (shorts_of_ok x Hl Hx) as [Hok _]. assert (length (shorts_of x) = 8%nat) as Hl8 by done.
  pose proof (formatIPv6_collapse x) as Ht. destruct (collapse_chars _ Hok) as [_ Hdot]. rewrite <- Ht in Hdot.
  unfold parseIPv6, parseIPv6_working.
  replace (includesChar DOT (drop (afterLast 58 (formatIPv6 x 0)) (formatIPv6 x 0))) with false.
  2:{ symmetry. apply not_true_is_false. unfold includesChar. rewrite existsb_exists. intros (c & Hin%list_elem_of_In & <-%Z.eqb_eq).
      apply Hdot. rewrite <- (take_drop (afterLast 58 (formatIPv6 x 0)) (formatIPv6 x 0)). apply elem_of_app. by right. }
  cbn [mbind option_bind].
  assert (parseIPv6_groups (toString16 <$> shorts_of x) 0 = Some (be_value x)) as Hg.
  { rewrite parseIPv6_groups_text by done. f_equal. clear -Hl. do 16 (destruct x as [|? x]; [done|]). destruct x; [|done].
    unfold be_value, shorts_of, readUInt16BE, readUInt8. cbn -[Z.mul Z.add]. ring. }
  assert (forall ms, units_ok ms -> groupsOf (Some (joinWith [58] (toString16 <$> ms))) = toString16 <$> ms) as Hp
    by (intros ms Hms; apply (part_back _ (shorts_text ms Hms))).
  destruct (collapse_halves _ _ Ht Hl8 Hok) as [(a & k & Hs & Hz & Hk)|[Hs Hj]]; rewrite Hs.
  - cbn [length lookup list_lookup]. change (2 <? 2)%nat with false. change (2 =? 2)%nat with true. cbv iota zeta.
    rewrite !Hp by (by apply Forall_take || by apply Forall_drop). rewrite !length_fmap, length_take, length_drop.
    destruct (Nat.ltb_spec 8 (a `min` length (shorts_of x) + (length (shorts_of x) - (a + k)))); [lia|]. cbn [mbind option_bind].
    replace (replicate _ (js "0")) with (toString16 <$> replicate k 0) by (rewrite fmap_replicate; f_equal; lia).
    rewrite <- !fmap_app, <- Hz, length_fmap, Hl8. exact Hg.
  - cbn [length Nat.ltb Nat.leb Nat.eqb lookup list_lookup mbind option_bind]. rewrite Hj, Hp by done. rewrite length_fmap, Hl8. exact Hg.
Qed.

(** matching two addresses under a CIDR prefix, from their texts: the texts of IPv4 and of IPv6
    addresses parse to numbers, and the masked comparison of the numbers holds exactly when the first
    [p] bits of the two addresses are equal, for every prefix length from zero to the full width. *)
Theorem cidr_match_bits (x y : bytes) (p : nat) :
  octets_ok x -> octets_ok y ->
  (length x = 4%nat -> length y = 4%nat -> (p <= 32)%nat -> exists a b,
     parseIPv4 (formatIPv4 x 0) = Some a /\ parseIPv4 (formatIPv4 y 0) = Some b /\
     (ipv4CidrMatch a b (Z.of_nat p) = true <-> take p (bits x) = take p (bits y))) /\
  (length x = 16%nat -> length y = 16%nat -> (p <= 128)%nat -> exists a b,
     parseIPv6 (formatIPv6 x 0) = Some a /\ parseIPv6 (formatIPv6 y 0) = Some b /\
     (ipv6CidrMatch a b (Z.of_nat p) = true <-> take p (bits x) = take p (bits y))).
Proof.
  intros Hx Hy. pose proof (be_value_bound x Hx). pose proof (be_value_bound y Hy).
  split; intros Hlx Hly Hp; exists (be_value x), (be_value y).
  - rewrite !parseIPv4_text by done. rewrite Hlx, Hly in *. rewrite ipv4CidrMatch_spec by lia.
    pose proof (prefix_bits x y p) as Hb. rewrite Hlx in Hb. split_and!; try done. apply Hb; [done..|congruence|lia].
  - rewrite !parseIPv6_text by done. rewrite Hlx, Hly in *. rewrite ipv6CidrMatch_spec by lia.
    pose proof (prefix_bits x y p) as Hb. rewrite Hlx in Hb. split_and!; try done. apply Hb; [done..|congruence|lia].
Qed.

Lemma cidr_match_bits_witness : exists a b,
  parseIPv4 (js "192.0.2.33") = Some a /\ parseIPv4 (js "192.0.2.47") = Some b /\ ipv4CidrMatch a b 28 = true /\ ipv4CidrMatch a b 29 = false /\
  (ipv4CidrMatch a b 28 = true <-> take 28 (bits [192; 0; 2; 33]) = take 28 (bits [192; 0; 2; 47])).
Proof.
  destruct (proj1 (cidr_match_bits [192; 0; 2; 33] [192; 0; 2; 47] 28 ltac:(repeat constructor; lia) ltac:(repeat constructor; lia))
              eq_refl eq_refl ltac:(lia)) as (a & b & Ha & Hb & H).
  exists a, b. split; [exact Ha|]. split; [exact Hb|].
  split; [apply H; reflexivity|]. split; [|exact H].
  vm_compute in Ha. vm_compute in Hb. injection Ha as <-. injection Hb as <-. reflexivity.
Defined.
