(* ===== verification/Utf8.v ===== *)
(** * Utf8: Buffer.from(s, 'utf8') and buf.toString('utf8'), and that they are inverse

    A [Buffer] conversion keeps a byte order mark, unlike [TextDecoder]. Lone surrogates become
    U+FFFD when they are encoded, so a text survives if it has none ([well_formed]). *)
From S2P Require Import Prelude JsString JsStringFacts.

(** [Buffer.from(s, 'utf8')]. *)
Definition utf8_encode (s : jsstr) : bytes := concat (utf8_bytes <$> codePoints s).

(** [buf.toString('utf8')]. *)
Definition utf8_text (l : bytes) : jsstr :=
  concat ((fun cp => utf16_of (default 0xfffd cp)) <$> utf8_codepoints l utf8_idle).

(** No lone surrogate: every high one is followed by a low one. *)
Fixpoint well_formed (s : jsstr) : bool :=
  match s with
  | [] => true
  | c :: s' =>
      if is_high c then match s' with d :: s'' => is_low d && well_formed s'' | [] => false end
      else negb (is_low c) && (0 <=? c) && (c <? 0x10000) && well_formed s'
  end.

Definition scalar (cp : Z) : Prop := 0 <= cp < 0x110000 /\ ~ (0xd800 <= cp < 0xe000).

(** ** Bits *)

Lemma bits_above b k n : 0 <= k <= n -> 0 <= b < 2 ^ k -> Z.testbit b n = false.
Proof.
  intros Hk Hb. destruct (decide (b = 0)) as [->|]; [apply Z.testbit_0_l|]. apply Z.bits_above_log2; [lia|].
  apply Z.log2_lt_pow2; [lia|]. eapply Z.lt_le_trans; [apply Hb|]. apply Z.pow_le_mono_r; lia.
Qed.

(** A shift followed by an [or] of the low bits is the sum. *)
Lemma shift_lor a b k : 0 <= k -> 0 <= b < 2 ^ k -> Z.lor (Z.shiftl a k) b = a * 2 ^ k + b.
Proof.
  intros Hk Hb. rewrite <- (Z.shiftl_mul_pow2 a k) by done. symmetry.
  assert (forall n, 0 <= n -> Z.testbit (Z.shiftl a k) n && Z.testbit b n = false) as Hd.
  { intros n Hn. destruct (decide (n < k)); [by rewrite Z.shiftl_spec_low|]. rewrite (bits_above b k n) by lia. apply andb_false_r. }
  rewrite Z.add_nocarry_lxor.
  - apply Z.bits_inj'. intros n Hn. rewrite Z.lxor_spec, Z.lor_spec. specialize (Hd n Hn).
    by destruct (Z.testbit _ n), (Z.testbit b n).
  - apply Z.bits_inj'. intros n Hn. rewrite Z.land_spec, Z.bits_0. by apply Hd.
Qed.

(** Every bit operation of the UTF-8 conversions as arithmetic. *)
Ltac bits_to_arith :=
  repeat match goal with
    | |- context [Z.land ?n 0x3f] => change (Z.land n 0x3f) with (Z.land n (Z.ones 6)); rewrite (Z.land_ones n 6) by lia
    | |- context [Z.land ?n 0x1f] => change (Z.land n 0x1f) with (Z.land n (Z.ones 5)); rewrite (Z.land_ones n 5) by lia
    | |- context [Z.land ?n 0xf] => change (Z.land n 0xf) with (Z.land n (Z.ones 4)); rewrite (Z.land_ones n 4) by lia
    | |- context [Z.land ?n 0x7] => change (Z.land n 0x7) with (Z.land n (Z.ones 3)); rewrite (Z.land_ones n 3) by lia
    | |- context [Z.land ?n 0x3ff] => change (Z.land n 0x3ff) with (Z.land n (Z.ones 10)); rewrite (Z.land_ones n 10) by lia
    | |- context [Z.shiftr ?n ?k] => rewrite (Z.shiftr_div_pow2 n k) by lia
    end;
  change (2 ^ 6) with 64 in *; change (2 ^ 5) with 32 in *; change (2 ^ 4) with 16 in *; change (2 ^ 3) with 8 in *;
  change (2 ^ 10) with 1024 in *; change (2 ^ 12) with 4096 in *; change (2 ^ 18) with 262144 in *.

(** ** One code point *)

Lemma continuation_step b n cp lo hi : lo <= b <= hi ->
  utf8_step b (mkUtf8 cp (S n) lo hi) =
  match n with
  | O => ([Some (cp * 64 + b mod 64)], utf8_idle)
  | S _ => ([], mkUtf8 (cp * 64 + b mod 64) n 0x80 0xbf)
  end.
Proof.
  intros Hb. unfold utf8_step. cbn [u_needed u_lower u_upper u_cp].
  replace ((b <? lo) || (b >? hi)) with false by lia.
  assert (Z.lor (Z.shiftl cp 6) (Z.land b 0x3f) = cp * 64 + b mod 64) as ->.
  { change 0x3f with (Z.ones 6). rewrite Z.land_ones by lia. rewrite shift_lor by (try lia; apply Z.mod_pos_bound; lia). done. }
  done.
Qed.

(** Linear arithmetic with quotients and remainders. *)
Ltac dlia := Z.to_euclidean_division_equations; lia.

Lemma codepoint_back cp l : scalar cp ->
  utf8_codepoints (utf8_bytes cp ++ l) utf8_idle = Some cp :: utf8_codepoints l utf8_idle.
Proof.
  intros [Hr Hs]. unfold utf8_bytes. bits_to_arith.
  destruct (Z.ltb_spec cp 0x80); [cbn [app utf8_codepoints]; unfold utf8_step, utf8_start; cbn [u_needed utf8_idle];
    by replace (cp <? 128) with true by dlia|].
  destruct (Z.ltb_spec cp 0x800).
  { cbn [app utf8_codepoints]. unfold utf8_step at 1, utf8_start. cbn [u_needed utf8_idle].
    replace (192 + cp / 64 <? 128) with false by dlia. replace (_ && _) with true by dlia. cbn [app]. bits_to_arith.
    rewrite continuation_step by dlia. cbn [app]. do 2 f_equal. dlia. }
  destruct (Z.ltb_spec cp 0x10000).
  { cbn [app utf8_codepoints]. unfold utf8_step at 1, utf8_start. cbn [u_needed utf8_idle].
    replace (224 + cp / 4096 <? 128) with false by dlia.
    replace ((194 <=? 224 + cp / 4096) && (224 + cp / 4096 <=? 223)) with false by dlia.
    replace ((224 <=? 224 + cp / 4096) && (224 + cp / 4096 <=? 239)) with true by dlia. cbn [app]. bits_to_arith.
    rewrite continuation_step by (split; repeat case_match; dlia). cbn [app].
    rewrite continuation_step by dlia. cbn [app]. do 2 f_equal. dlia. }
  cbn [app utf8_codepoints]. unfold utf8_step at 1, utf8_start. cbn [u_needed utf8_idle].
  replace (240 + cp / 262144 <? 128) with false by dlia.
  replace ((194 <=? 240 + cp / 262144) && (240 + cp / 262144 <=? 223)) with false by dlia.
  replace ((224 <=? 240 + cp / 262144) && (240 + cp / 262144 <=? 239)) with false by dlia.
  replace ((240 <=? 240 + cp / 262144) && (240 + cp / 262144 <=? 244)) with true by dlia. cbn [app]. bits_to_arith.
  rewrite continuation_step by (split; repeat case_match; dlia). cbn [app].
  rewrite continuation_step by dlia. cbn [app]. rewrite continuation_step by dlia. cbn [app]. do 2 f_equal. dlia.
Qed.

Lemma codePoints_back s : well_formed s = true -> concat (utf16_of <$> codePoints s) = s /\ Forall scalar (codePoints s).
Proof.
  induction (Nat.lt_wf_0_projected length s) as [s _ IH]. destruct s as [|c s]; [done|]. cbn [well_formed codePoints].
  destruct (is_high c) eqn:Eh.
  - destruct s as [|d s]; [done|]. intros [El Hw]%andb_prop. rewrite El. unfold is_high, is_low in *.
    destruct (IH s) as [H1 H2]; [cbn; lia|done|]. csimpl. rewrite H1. split.
    + unfold utf16_of. set (cp := _ + _ + _). assert (cp = 0x10000 + (c - 0xd800) * 1024 + (d - 0xdc00)) as Hcp
        by (unfold cp; rewrite Z.shiftl_mul_pow2 by dlia; lia). clearbody cp.
      replace (cp <? 65536) with false by dlia. bits_to_arith. cbn [app]. f_equal; [dlia|]. f_equal. dlia.
    + constructor; [|done]. rewrite Z.shiftl_mul_pow2 by dlia. split; lia.
  - rewrite !andb_true_iff. intros [[[El%negb_true_iff Hc1] Hc2] Hw]. rewrite El. unfold is_high, is_low in *.
    destruct (IH s) as [H1 H2]; [cbn; lia|done|]. csimpl. rewrite H1. split.
    + unfold utf16_of. by replace (c <? 65536) with true by dlia.
    + constructor; [|done]. split; lia.
Qed.

(** A text without lone surrogates survives its UTF-8 form. *)
Lemma utf8_back s : well_formed s = true -> utf8_text (utf8_encode s) = s.
Proof.
  intros [Hb Hs]%codePoints_back. unfold utf8_text, utf8_encode. rewrite <- Hb at 2. clear Hb.
  induction Hs as [|cp cps Hcp _ IH]; [done|]. csimpl. rewrite codepoint_back by done. csimpl. by rewrite IH.
Qed.

Lemma utf8_bytes_octets cp : scalar cp -> octets_ok (utf8_bytes cp) /\ utf8_bytes cp <> [].
Proof.
  intros [Hr _]. unfold utf8_bytes, is_octet. bits_to_arith. repeat case_match; (split; [|done]); repeat constructor; dlia.
Qed.

Lemma utf8_encode_octets s : well_formed s = true -> octets_ok (utf8_encode s).
Proof.
  intros [_ Hs]%codePoints_back. unfold utf8_encode. induction Hs as [|cp cps Hcp _ IH]; [done|]. csimpl.
  apply Forall_app. split; [by apply utf8_bytes_octets|done].
Qed.

Lemma utf8_encode_nil s : well_formed s = true -> utf8_encode s = [] -> s = [].
Proof.
  intros Hw He. destruct (codePoints_back s Hw) as [Hb Hs]. unfold utf8_encode in He. rewrite <- Hb. clear Hb.
  destruct (codePoints s) as [|cp cps]; [done|]. inversion_clear Hs as [|? ? Hcp _].
  csimpl in He. apply app_eq_nil in He as [He _]. by apply utf8_bytes_octets in He.
Qed.
