(* ===== verification/DnsName.v ===== *)
(** * DnsName: domain names on the wire (packages/dns/src/name.ts)

    [decodeName] is a loop of labels and compression pointers; it runs on fuel, and running out of it
    is the error with the empty text (which never happens). A thrown [RangeError] of [encodeName] is
    [inl] of its message. *)
From S2P Require Import Prelude JsString JsStringFacts Utf8.

Definition MAX_NAME_OCTETS : nat := 255.
Definition MAX_LABEL_OCTETS : nat := 63.
Definition MAX_POINTER_JUMPS : nat := 128.
Definition POINTER_MASK : Z := 0xc0.

(** [end] is the offset after the name where it started. *)
Inductive DecodeNameResult := NameOk (name : jsstr) (end_ : nat) | NameError (error : jsstr).

Definition decodeLabel (label : bytes) : jsstr := utf8_text label.

Definition QUOTE : jsstr := [34].

Definition nameText (labels : list jsstr) : jsstr := match labels with [] => [DOT] | _ => joinWith [DOT] labels end.

(** [visited] holds the pointers followed so far; their number is [jumps]. *)
Fixpoint decodeName_loop (fuel : nat) (buf : bytes) (offset : nat) (end_ : option nat) (jumps totalOctets : nat)
  (visited : list nat) (labels : list jsstr) : DecodeNameResult :=
  match fuel with
  | O => NameError []
  | S fuel =>
      match buf !! offset with
      | None => NameError (js "name offset " ++ dec (Z.of_nat offset) ++ js " out of bounds")
      | Some lengthByte =>
          if lengthByte =? 0 then NameOk (nameText labels) (default (offset + 1)%nat end_)
          else
            let top2 := Z.land lengthByte POINTER_MASK in
            if top2 =? POINTER_MASK then
              match buf !! (offset + 1)%nat with
              | None => NameError (js "truncated compression pointer")
              | Some second =>
                  let pointer := Z.to_nat (Z.lor (Z.shiftl (Z.land lengthByte 0x3f) 8) second) in
                  let end_ := Some (default (offset + 2)%nat end_) in
                  let jumps := S jumps in
                  if (MAX_POINTER_JUMPS <? jumps)%nat then NameError (js "too many compression pointer jumps")
                  else if bool_decide (pointer ∈ visited) then NameError (js "compression pointer loop detected")
                  else decodeName_loop fuel buf pointer end_ jumps totalOctets (pointer :: visited) labels
              end
            else if negb (top2 =? 0) then NameError (js "reserved label length prefix")
            else
              let labelLength := Z.to_nat (Z.land lengthByte 0x3f) in
              let labelStart := (offset + 1)%nat in
              let labelEnd := (labelStart + labelLength)%nat in
              if (length buf <? labelEnd)%nat then NameError (js "truncated label")
              else
                let totalOctets := (totalOctets + (labelLength + 1))%nat in
                if (MAX_NAME_OCTETS <? totalOctets)%nat then NameError (js "name exceeds 255 octets")
                else decodeName_loop fuel buf labelEnd end_ jumps totalOctets visited (labels ++ [decodeLabel (sub buf labelStart labelEnd)])
      end
  end.

(** Each round adds a label of at least two octets or a jump, or is the last. *)
Definition name_fuel : nat := MAX_NAME_OCTETS + MAX_POINTER_JUMPS + 1.

Definition decodeName (buf : bytes) (start : nat) : DecodeNameResult := decodeName_loop name_fuel buf start None 0 0 [] [].

(** ** Encoding *)

(** [name.replace(/\.$/, '')]. *)
Definition dropRootDot (name : jsstr) : jsstr := if endsWith [DOT] name then take (length name - 1) name else name.

Definition trimRoot (name : jsstr) : jsstr := if bool_decide (name = [DOT]) then [] else dropRootDot name.

Definition nameLabels (name : jsstr) : list jsstr :=
  match trimRoot name with [] => [] | trimmed => splitOn DOT trimmed end.

(** The loop over the labels; [inl] is the message of the [RangeError]. *)
Fixpoint encodeLabels (name : jsstr) (labels : list jsstr) : jsstr + bytes :=
  match labels with
  | [] => inr []
  | label :: labels =>
      let octets := utf8_encode label in
      if (length octets =? 0)%nat then inl (js "empty DNS label in name " ++ QUOTE ++ name ++ QUOTE)
      else if (MAX_LABEL_OCTETS <? length octets)%nat then inl (js "DNS label exceeds 63 octets in name " ++ QUOTE ++ name ++ QUOTE)
      else match encodeLabels name labels with inl e => inl e | inr rest => inr (Z.of_nat (length octets) :: octets ++ rest) end
  end.

(** [total] is the number of octets written. *)
Definition encodeName (name : jsstr) : jsstr + bytes :=
  match encodeLabels name (nameLabels name) with
  | inl e => inl e
  | inr out =>
      if (MAX_NAME_OCTETS <? length out + 1)%nat then inl (js "DNS name " ++ QUOTE ++ name ++ QUOTE ++ js " exceeds 255 octets")
      else inr (out ++ [0])
  end.

Definition normalizeName `{Runtime} (name : jsstr) : jsstr := trimRoot (toLowerCase name).

(** ** What decodeName reads, that it always ends, and that encoded names read back *)

(** ** Specification: RFC 1035, section 4.1.4

    [name_at buf o labels jumps e]: at [o] stands a name of these labels, that follows [jumps] pointers
    and occupies the octets from [o] to [e]. *)
Inductive name_at (buf : bytes) : nat -> list bytes -> nat -> nat -> Prop :=
| name_root o : buf !! o = Some 0 -> name_at buf o [] 0 (o + 1)
| name_label o n ls j e : buf !! o = Some (Z.of_nat n) -> (1 <= n <= 63)%nat -> (o + 1 + n <= length buf)%nat ->
    name_at buf (o + 1 + n) ls j e -> name_at buf o (sub buf (o + 1) (o + 1 + n) :: ls) j e
| name_pointer o hi lo ls j e : buf !! o = Some (192 + hi) -> 0 <= hi < 64 -> buf !! (o + 1)%nat = Some lo -> is_octet lo ->
    name_at buf (Z.to_nat (hi * 256 + lo)) ls j e -> name_at buf o ls (S j) (o + 2).

Definition name_octets (labels : list bytes) : nat := sum_list_with (fun l => length l + 1)%nat labels.

(** There is one reading at an offset. *)
Lemma name_at_det buf o ls j e : name_at buf o ls j e -> forall ls' j' e', name_at buf o ls' j' e' -> ls = ls' /\ j = j' /\ e = e'.
Proof.
  induction 1 as [o H0|o n ls j e Hn Hr Hl _ IH|o hi lo ls j e Hh Hr Hlo Hol _ IH]; intros ls' j' e' H'; inversion H'; subst; simplify_eq; try lia; try done.
  - match goal with H : name_at _ _ _ _ _ |- _ => destruct (IH _ _ _ H) as (-> & -> & ->) end. done.
  - match goal with H : 192 + _ = 192 + _ |- _ => apply Z.add_reg_l in H; subst | _ => idtac end.
    match goal with H : name_at _ (Z.to_nat _) _ _ _ |- _ => destruct (IH _ _ _ H) as (-> & -> & _) end. done.
Qed.

(** ** The length octet *)

Lemma octet_all (f : Z -> bool) : forallb f (seqZ 0 256) = true -> forall b, is_octet b -> f b = true.
Proof. rewrite forallb_Forall, Forall_forall. intros H b Hb. apply H, elem_of_seqZ. unfold is_octet in Hb. lia. Qed.

Lemma top_bits b : is_octet b -> (Z.land b POINTER_MASK =? POINTER_MASK) = (192 <=? b) /\ (Z.land b POINTER_MASK =? 0) = (b <? 64).
Proof.
  intros Hb. apply (octet_all (fun b => eqb (Z.land b POINTER_MASK =? POINTER_MASK) (192 <=? b) && eqb (Z.land b POINTER_MASK =? 0) (b <? 64))) in Hb;
    [|vm_compute; reflexivity]. by apply andb_prop in Hb as [->%eqb_prop ->%eqb_prop].
Qed.

Lemma low_bits b : 0 <= b -> Z.land b 0x3f = b mod 64.
Proof. intros. change 0x3f with (Z.ones 6). by rewrite Z.land_ones. Qed.

Lemma pointer_value hi lo : 0 <= hi < 64 -> is_octet lo -> Z.lor (Z.shiftl (Z.land (192 + hi) 0x3f) 8) lo = hi * 256 + lo.
Proof.
  intros Hh Hl. rewrite low_bits by lia. replace ((192 + hi) mod 64) with hi by dlia. by rewrite shift_lor by (unfold is_octet in Hl; lia).
Qed.

(** ** The loop *)

Section loop.
Context (buf : bytes).

Definition fuel_ok (fuel jumps total : nat) : Prop := (MAX_NAME_OCTETS - total + (MAX_POINTER_JUMPS - jumps) < fuel)%nat.

(** A pointer already followed leads to a reading with at least as many jumps as are still to come. *)
Definition visited_ok (visited : list nat) (j : nat) : Prop :=
  Forall (fun p => exists ls' j' e', name_at buf p ls' j' e' /\ (j <= j')%nat) visited.

Lemma visited_fresh visited p ls j e : visited_ok visited (S j) -> name_at buf p ls j e -> p ∉ visited.
Proof.
  unfold visited_ok. rewrite Forall_forall. intros Hv Hp Hin. destruct (Hv p Hin) as (ls' & j' & e' & H & Hle).
  destruct (name_at_det _ _ _ _ _ Hp _ _ _ H) as (_ & -> & _). lia.
Qed.

Lemma visited_push visited p ls j e : visited_ok visited (S j) -> name_at buf p ls j e -> visited_ok (p :: visited) j.
Proof.
  intros Hv Hp. constructor; [by exists ls, j, e|]. eapply Forall_impl; [exact Hv|]. intros q (ls' & j' & e' & Hq & Hle).
  exists ls', j', e'. split; [done|lia].
Qed.

Lemma loop_complete o ls j e : name_at buf o ls j e -> forall fuel end_ jumps total visited labels,
  fuel_ok fuel jumps total -> (jumps + j <= MAX_POINTER_JUMPS)%nat -> (total + name_octets ls <= MAX_NAME_OCTETS)%nat ->
  visited_ok visited j ->
  decodeName_loop fuel buf o end_ jumps total visited labels = NameOk (nameText (labels ++ (decodeLabel <$> ls))) (default e end_).
Proof.
  unfold fuel_ok. induction 1 as [o H0|o n ls j e Hn Hr Hl Hrest IH|o hi lo ls j e Hh Hr Hlo Hol Hrest IH];
    intros fuel end_ jumps total visited labels Hf Hj Ht Hv; (destruct fuel as [|fuel]; [lia|]); cbn [decodeName_loop].
  - rewrite H0. cbn. by rewrite app_nil_r.
  - rewrite Hn. destruct (top_bits (Z.of_nat n)) as [-> ->]; [zlia|].
    replace (Z.of_nat n =? 0) with false by lia. replace (192 <=? Z.of_nat n) with false by lia.
    replace (Z.of_nat n <? 64) with true by lia. cbn [negb]. rewrite low_bits, Z.mod_small, Nat2Z.id by lia.
    cbn in Ht. rewrite length_sub in Ht by done. replace (length buf <? o + 1 + n)%nat with false by (symmetry; apply Nat.ltb_ge; lia).
    replace (MAX_NAME_OCTETS <? total + (n + 1))%nat with false by (symmetry; apply Nat.ltb_ge; fold (name_octets ls) in Ht; lia).
    fold (name_octets ls) in Ht. rewrite IH by (try done; lia). by rewrite <- app_assoc.
  - rewrite Hh. destruct (top_bits (192 + hi)) as [-> _]; [zlia|]. replace (192 + hi =? 0) with false by lia.
    replace (192 <=? 192 + hi) with true by lia. rewrite Hlo, pointer_value by done.
    replace (MAX_POINTER_JUMPS <? S jumps)%nat with false by (symmetry; apply Nat.ltb_ge; lia).
    rewrite bool_decide_false by (by eapply visited_fresh).
    rewrite IH by (lia || by eapply visited_push). done.
Qed.

Lemma loop_sound (Hbuf : octets_ok buf) fuel : forall o end_ jumps total visited labels name e,
  decodeName_loop fuel buf o end_ jumps total visited labels = NameOk name e ->
  (jumps <= MAX_POINTER_JUMPS)%nat -> (total <= MAX_NAME_OCTETS)%nat ->
  exists ls j e', name_at buf o ls j e' /\ (jumps + j <= MAX_POINTER_JUMPS)%nat /\ (total + name_octets ls <= MAX_NAME_OCTETS)%nat /\
    name = nameText (labels ++ (decodeLabel <$> ls)) /\ e = default e' end_.
Proof.
  induction fuel as [|fuel IH]; intros o end_ jumps total visited labels name e; cbn [decodeName_loop]; [done|].
  destruct (buf !! o) as [b|] eqn:Eb; [|done]. assert (is_octet b) as Hb by (by eapply Forall_lookup_1).
  destruct (top_bits b Hb) as [-> ->]. destruct (Z.eqb_spec b 0) as [->|Hb0].
  { intros [= <- <-] Hj Ht. exists [], 0%nat, (o + 1)%nat. split; [by constructor|]. cbn. rewrite app_nil_r. split_and!; (done || lia). }
  destruct (Z.leb_spec 192 b) as [Hp|Hp].
  - destruct (buf !! (o + 1)%nat) as [lo|] eqn:El; [|done]. assert (is_octet lo) as Hlo by (by eapply Forall_lookup_1).
    destruct (MAX_POINTER_JUMPS <? S jumps)%nat eqn:Ej; [done|]. case_bool_decide; [done|]. nat_tests. intros H' Hj Ht.
    apply IH in H' as (ls & j & e' & Hn & ? & ? & -> & ->); [|done..]. exists ls, (S j), (o + 2)%nat.
    split; [|split_and!; (done || lia)]. replace b with (192 + (b - 192)) in * by lia. rewrite pointer_value in Hn by (zlia || done).
    econstructor; eauto. zlia.
  - destruct (Z.ltb_spec b 64); [|done]. cbn [negb]. rewrite low_bits, Z.mod_small by zlia.
    destruct (length buf <? _)%nat eqn:El; [done|]. destruct (MAX_NAME_OCTETS <? _)%nat eqn:Et; [done|]. nat_tests. intros H' Hj Ht.
    apply IH in H' as (ls & j & e' & Hn & ? & ? & -> & ->); [|done..]. exists (sub buf (o + 1) (o + 1 + Z.to_nat b) :: ls), j, e'.
    split; [apply name_label; [by rewrite Z2Nat.id by zlia|zlia|done|done]|]. cbn [name_octets sum_list_with]. rewrite length_sub by done.
    unfold name_octets in *. split_and!; [lia|lia| |done]. by rewrite <- app_assoc.
Qed.

Lemma loop_ends fuel : forall o end_ jumps total visited labels, octets_ok buf -> fuel_ok fuel jumps total ->
  decodeName_loop fuel buf o end_ jumps total visited labels <> NameError [].
Proof.
  unfold fuel_ok. induction fuel as [|fuel IH]; intros o end_ jumps total visited labels Hbuf Hf; [lia|]. cbn [decodeName_loop].
  destruct (buf !! o) as [b|] eqn:Eb; [|done]. assert (is_octet b) as Hb by (by eapply Forall_lookup_1).
  destruct (Z.eqb_spec b 0); [done|]. destruct (top_bits b Hb) as [-> ->]. destruct (192 <=? b) eqn:Ep.
  - destruct (buf !! (o + 1)%nat); [|done]. destruct (MAX_POINTER_JUMPS <? S jumps)%nat eqn:Ej; [done|]. case_bool_decide; [done|]. nat_tests.
    apply IH; [done|]. lia.
  - destruct (b <? 64) eqn:E6; [|done]. cbn [negb]. destruct (length buf <? _)%nat; [done|]. destruct (MAX_NAME_OCTETS <? _)%nat eqn:Et; [done|].
    nat_tests. apply IH; [done|]. lia.
Qed.

End loop.

(** Decoding is the reading the specification gives, within 255 octets and 128 jumps. *)
Lemma decodeName_reads buf start name e : octets_ok buf ->
  decodeName buf start = NameOk name e <->
  exists labels jumps, name_at buf start labels jumps e /\ (jumps <= 128)%nat /\ (name_octets labels <= 255)%nat /\
    name = nameText (decodeLabel <$> labels).
Proof.
  intros Hb. unfold decodeName. assert (fuel_ok name_fuel 0 0) as Hf by (unfold fuel_ok, name_fuel; lia).
  generalize dependent name_fuel. intros fuel Hf. split.
  - intros H. destruct (loop_sound buf Hb _ _ _ _ _ _ _ _ _ H) as (ls & j & e' & Hn & Hj & Ht & -> & ->); [lia..|]. by exists ls, j.
  - intros (ls & j & Hn & Hj & Ht & ->). by rewrite (loop_complete buf start ls j e Hn) by (done || constructor).
Qed.

(** ** Encoding *)

Lemma well_formed_parts s : well_formed s = true -> Forall (fun p => well_formed p = true) (splitOn DOT s).
Proof.
  induction (Nat.lt_wf_0_projected length s) as [s _ IH]. destruct s as [|c s]; [by constructor|]. intros Hw.
  assert (forall c s', Forall (fun p => well_formed p = true) (splitOn DOT s') -> (forall p, well_formed p = true -> well_formed (c :: p) = true) ->
    Forall (fun p => well_formed p = true) (match splitOn DOT s' with p :: ps => (c :: p) :: ps | [] => [[c]] end)) as Hcons.
  { intros c' s' H Hc. pose proof (splitOn_ne DOT s'). destruct (splitOn DOT s'); [done|]. inversion_clear H. constructor; auto. }
  cbn [splitOn well_formed] in *. destruct (Z.eqb_spec c DOT) as [->|Hd].
  { constructor; [done|]. apply IH; [cbn; lia|]. by apply andb_prop in Hw as [_ Hw]. }
  destruct (is_high c) eqn:Eh.
  - destruct s as [|d s]; [done|]. apply andb_prop in Hw as [Hlo Hw]. cbn [splitOn].
    destruct (Z.eqb_spec d DOT) as [->|Hd2]; [done|]. pose proof (IH s ltac:(cbn; lia) Hw) as Hp.
    pose proof (splitOn_ne DOT s) as Hne. destruct (splitOn DOT s) as [|p ps]; [done|]. inversion_clear Hp. constructor; [|done].
    cbn [well_formed]. by rewrite Eh, Hlo.
  - apply Hcons; [|intros p Hp; cbn [well_formed]; rewrite Eh]; rewrite !andb_true_iff in *; destruct Hw as [[[? ?] ?] ?]; auto.
Qed.

Lemma well_formed_trim name : well_formed name = true -> Forall (fun p => well_formed p = true) (nameLabels name).
Proof.
  intros Hw. unfold nameLabels. destruct (trimRoot name) as [|c t] eqn:Et; [done|]. rewrite <- Et. clear Et c t.
  unfold trimRoot. case_bool_decide; [by repeat constructor|]. unfold dropRootDot. destruct (endsWith [DOT] name) eqn:Ee; [|by apply well_formed_parts].
  unfold endsWith in Ee. apply startsWith_spec in Ee as [t Ht]. cbn in Ht. apply (f_equal (@rev Z)) in Ht. rewrite rev_involutive in Ht.
  cbn in Ht. subst name. rewrite length_app. replace (_ - 1)%nat with (length (rev t)) by (cbn; lia). rewrite take_app_length.
  apply well_formed_parts in Hw. pose proof (splitOn_parts DOT (rev t)) as Hd.
  assert (splitOn DOT (rev t ++ [DOT]) = splitOn DOT (rev t) ++ [[]]) as Hs; [|rewrite Hs in Hw; by apply Forall_app in Hw as [? _]].
  clear Hw Hd H. induction (rev t) as [|c s IH]; [done|]. cbn [app splitOn]. destruct (c =? DOT); [by rewrite IH|]. rewrite IH.
  pose proof (splitOn_ne DOT s). by destruct (splitOn DOT s).
Qed.

Lemma encodeLabels_at name labels : forall out, encodeLabels name labels = inr out -> Forall (fun p => well_formed p = true) labels ->
  forall pre post, name_at (pre ++ (out ++ [0]) ++ post) (length pre) (utf8_encode <$> labels) 0 (length pre + length (out ++ [0])) /\
  name_octets (utf8_encode <$> labels) = length out.
Proof.
  induction labels as [|label labels IH]; cbn [encodeLabels]; intros out.
  - intros [= <-] _ pre post. split; [|done]. cbn. apply name_root. by rewrite lookup_app_r, Nat.sub_diag.
  - destruct (length (utf8_encode label) =? 0)%nat eqn:E0; [done|]. destruct (MAX_LABEL_OCTETS <? length (utf8_encode label))%nat eqn:E63; [done|].
    destruct (encodeLabels name labels) as [|rest] eqn:Er; [done|]. intros [= <-] Hw pre post. inversion_clear Hw as [|? ? _ Hws]. nat_tests.
    set (n := length (utf8_encode label)) in *. unfold MAX_LABEL_OCTETS in E63.
    destruct (IH rest eq_refl Hws (pre ++ Z.of_nat n :: utf8_encode label) post) as [Hn Ho].
    replace ((pre ++ Z.of_nat n :: utf8_encode label) ++ (rest ++ [0]) ++ post) with (pre ++ ((Z.of_nat n :: utf8_encode label ++ rest) ++ [0]) ++ post) in Hn
      by (rewrite <- !app_assoc; cbn [app]; by rewrite <- !app_assoc).
    rewrite length_app in Hn. cbn [length] in Hn. fold n in Hn. set (buf := pre ++ _) in *.
    assert (sub buf (length pre + 1) (length pre + 1 + n) = utf8_encode label) as Hsub.
    { unfold sub, buf. replace (length pre + 1 + n - (length pre + 1))%nat with n by lia. rewrite drop_app_add'. 2: done. cbn [app drop].
      rewrite <- app_assoc. cbn. unfold drop. rewrite <- app_assoc. apply take_app_length. }
    split.
    + replace (length pre + S n)%nat with (length pre + 1 + n)%nat in Hn by lia. csimpl. rewrite <- Hsub at 1.
      apply (name_label buf (length pre) n); [unfold buf; by rewrite lookup_app_r, Nat.sub_diag|lia|unfold buf; rewrite !length_app; cbn; rewrite !length_app; lia|].
      match goal with |- name_at _ _ _ _ ?e => replace e with (length pre + 1 + n + length (rest ++ [0%Z]))%nat; [done|] end.
      rewrite !length_app. cbn [length]. fold n. lia.
    + change (name_octets (utf8_encode <$> label :: labels)) with (n + 1 + name_octets (utf8_encode <$> labels))%nat. rewrite Ho. cbn [length]. rewrite length_app. fold n. lia.
Qed.

(** An encoded name decodes, wherever it stands in a message, to the labels it was made of. *)
Lemma encoded_name_reads name out pre post : well_formed name = true -> encodeName name = inr out ->
  decodeName (pre ++ out ++ post) (length pre) = NameOk (nameText (nameLabels name)) (length pre + length out).
Proof.
  intros Hw. unfold encodeName. destruct (encodeLabels name (nameLabels name)) as [|body] eqn:El; [done|].
  destruct (MAX_NAME_OCTETS <? length body + 1)%nat eqn:E; [done|]. intros [= <-]. nat_tests. unfold MAX_NAME_OCTETS in E.
  pose proof (well_formed_trim name Hw) as Hws. destruct (encodeLabels_at name _ body El Hws pre post) as [Hn Ho].
  unfold decodeName. rewrite (loop_complete _ _ _ _ _ Hn); [|unfold fuel_ok, name_fuel; lia|lia|unfold MAX_NAME_OCTETS; lia|constructor].
  cbn [default app]. f_equal. f_equal. rewrite <- list_fmap_compose. rewrite <- (list_fmap_id (nameLabels name)) at 2. apply list_fmap_ext.
  intros i l Hl. apply utf8_back. by eapply Forall_lookup_1 in Hws.
Qed.

(** decoding a name always ends, with a name exactly when one stands there: the labels found by
    following the length octets and the compression pointers of RFC 1035, through at most 128 pointers, of
    at most 255 octets; the offset after it is where the name ends in the original place. *)
Theorem name_decoding (buf : bytes) (start : nat) (Hbuf : octets_ok buf) :
  decodeName buf start <> NameError [] /\
  (forall name e, decodeName buf start = NameOk name e <->
    exists labels jumps, name_at buf start labels jumps e /\ (jumps <= 128)%nat /\ (name_octets labels <= 255)%nat /\
      name = nameText (decodeLabel <$> labels)).
Proof.
  split; [|intros; by apply decodeName_reads]. apply loop_ends; [done|]. unfold fuel_ok, name_fuel. lia.
Qed.

(** The name at 4 points back into the one at 0. *)
Lemma name_decoding_witness :
  let buf := [1; 97; 0; 7; 1; 98; 0xc0; 0; 9] in
  decodeName buf 4 = NameOk (js "b.a") 8 /\ decodeName buf 4 <> NameError [] /\
  exists labels jumps, name_at buf 4 labels jumps 8 /\ (jumps <= 128)%nat /\ (name_octets labels <= 255)%nat /\
    js "b.a" = nameText (decodeLabel <$> labels).
Proof.
  intros buf. assert (octets_ok buf) as Hb by (repeat constructor; unfold is_octet; lia).
  assert (decodeName buf 4 = NameOk (js "b.a") 8) as Hd by reflexivity. split; [exact Hd|].
  split; [apply (name_decoding buf 4 Hb)|]. apply (name_decoding buf 4 Hb), Hd.
Defined.
