(* ===== verification/DnsWire.v ===== *)
(** * DnsWire: queries and messages (packages/dns/src/wire.ts, types.ts)

    A reader either gives a value, an [ok: false] error, or throws; [decodeMessage] catches what its
    body throws. A [RangeError] of the encoder is [None]. *)
From S2P Require Import Prelude JsString JsStringFacts ProxyProtocol Utf8 DnsName.

(** ** types.ts *)

Module RRType.
Definition A : Z := 1.
Definition NS : Z := 2.
Definition CNAME : Z := 5.
Definition SOA : Z := 6.
Definition PTR : Z := 12.
Definition MX : Z := 15.
Definition TXT : Z := 16.
Definition AAAA : Z := 28.
Definition OPT : Z := 41.
Definition TLSA : Z := 52.
End RRType.

Module RCode.
Definition NOERROR : Z := 0.
Definition FORMERR : Z := 1.
Definition SERVFAIL : Z := 2.
Definition NXDOMAIN : Z := 3.
Definition NOTIMP : Z := 4.
Definition REFUSED : Z := 5.
End RCode.

Definition DNS_CLASS_IN : Z := 1.

Record DnsQuestion := mkQuestion { q_name : jsstr; q_type : Z; q_class : Z }.

Inductive RData :=
| KindA (address : jsstr)
| KindAAAA (address : jsstr)
| KindMX (preference : Z) (exchange : jsstr)
| KindTXT (strings : list jsstr) (text : jsstr)
| KindCNAME (target : jsstr)
| KindPTR (target : jsstr)
| KindTLSA (usage selector matchingType : Z) (certData : bytes)
| KindUNKNOWN (raw : bytes).

Record DnsAnswer := mkAnswer { an_name : jsstr; an_ttl : Z; an_type : Z; an_class : Z; an_data : RData }.

Record DnsMessage := mkMessage {
  m_id : Z; m_qr : bool; m_opcode : Z; m_aa : bool; m_tc : bool; m_rd : bool; m_ra : bool; m_ad : bool; m_cd : bool; m_rcode : Z;
  m_questions : list DnsQuestion; m_answers : list DnsAnswer; m_authority : list DnsAnswer; m_additional : list DnsAnswer
}.

(** ** Results *)

Inductive Outcome (A : Type) := Val (a : A) | Err (error : jsstr) | Throw (message : jsstr).
Arguments Val {_} _.
Arguments Err {_} _.
Arguments Throw {_} _.

#[export] Instance outcome_bind : MBind Outcome := fun A B f o =>
  match o with Val a => f a | Err e => Err e | Throw m => Throw m end.

(** [error => `${prefix}${error}`] on an [ok: false] result. *)
Definition prefixed {A} (prefix : jsstr) (o : Outcome A) : Outcome A :=
  match o with Err e => Err (prefix ++ e) | _ => o end.

(** ** wire.ts: encoding *)

Definition HEADER_LENGTH : nat := 12.
Definition DEFAULT_UDP_PAYLOAD_SIZE : Z := 1232.

Definition writeUInt32BE (n : Z) : option bytes :=
  if (n >? 0xffffffff) || (n <? 0) then None
  else Some [Z.shiftr n 24; Z.land (Z.shiftr n 16) 255; Z.land (Z.shiftr n 8) 255; Z.land n 255].

(** The options of a query; the id, drawn at random when it is not given, is an argument. *)
Record EncodeQueryOptions := mkQueryOptions {
  recursionDesired : option bool; requestAd : option bool; dnssecOk : option bool; udpPayloadSize : option Z
}.

Definition noOptions : EncodeQueryOptions := mkQueryOptions None None None None.

Definition queryFlags (rd ad : bool) : Z := Z.lor (if rd then Z.shiftl 1 8 else 0) (if ad then Z.shiftl 1 5 else 0).

Definition encodeQuery (id : Z) (name : jsstr) (type : Z) (opts : EncodeQueryOptions) : option bytes :=
  let rd := default true (recursionDesired opts) in
  let ad := default true (requestAd opts) in
  let dnssecOk := default true (dnssecOk opts) in
  let payload := default DEFAULT_UDP_PAYLOAD_SIZE (udpPayloadSize opts) in
  idBytes ← writeUInt16BE id;
  flagBytes ← writeUInt16BE (queryFlags rd ad);
  let header := idBytes ++ flagBytes ++ [0; 1; 0; 0; 0; 0; 0; 1] in
  qname ← match encodeName name with inl _ => None | inr b => Some b end;
  typeBytes ← writeUInt16BE type;
  classBytes ← writeUInt16BE DNS_CLASS_IN;
  let question := qname ++ typeBytes ++ classBytes in
  optType ← writeUInt16BE RRType.OPT;
  optClass ← writeUInt16BE payload;
  optTtl ← writeUInt32BE (uint32 (if dnssecOk then Z.shiftl 1 15 else 0));
  let opt := [0] ++ optType ++ optClass ++ optTtl ++ [0; 0] in
  Some (header ++ question ++ opt).

(** ** wire.ts: decoding *)

Definition readU16 (buf : bytes) (offset : nat) : Outcome Z :=
  match buf !! offset, buf !! (offset + 1)%nat with
  | Some b0, Some b1 => Val (Z.lor (Z.shiftl b0 8) b1)
  | _, _ => Throw (js "readU16 out of bounds")
  end.

Definition readU32 (buf : bytes) (offset : nat) : Outcome Z :=
  match buf !! offset, buf !! (offset + 1)%nat, buf !! (offset + 2)%nat, buf !! (offset + 3)%nat with
  | Some b0, Some b1, Some b2, Some b3 => Val (b0 * 0x1000000 + Z.lor (Z.lor (Z.shiftl b1 16) (Z.shiftl b2 8)) b3)
  | _, _, _, _ => Throw (js "readU32 out of bounds")
  end.

Definition nameAt (buf : bytes) (offset : nat) : Outcome (jsstr * nat) :=
  match decodeName buf offset with NameOk name end_ => Val (name, end_) | NameError e => Err e end.

Record RawRR := mkRawRR { rr_name : jsstr; rr_type : Z; rr_class : Z; rr_ttl : Z; rdataStart : nat; rdataEnd : nat }.

Definition decodeRawRR (buf : bytes) (offset : nat) : Outcome (RawRR * nat) :=
  '(name, headerStart) ← nameAt buf offset;
  if (length buf <? headerStart + 10)%nat then Err (js "truncated resource record header")
  else
    type ← readU16 buf headerStart;
    klass ← readU16 buf (headerStart + 2);
    ttl ← readU32 buf (headerStart + 4);
    rdlength ← readU16 buf (headerStart + 8);
    let rdataStart := (headerStart + 10)%nat in
    let rdataEnd := (rdataStart + Z.to_nat rdlength)%nat in
    if (length buf <? rdataEnd)%nat then Err (js "truncated rdata")
    else Val (mkRawRR name type klass ttl rdataStart rdataEnd, rdataEnd).

(** [String(buf[offset])]. *)
Definition octetText (buf : bytes) (offset : nat) : jsstr :=
  match buf !! offset with Some b => dec b | None => js "undefined" end.

Definition formatIPv4 (buf : bytes) (offset : nat) : jsstr :=
  joinWith [DOT] [octetText buf offset; octetText buf (offset + 1); octetText buf (offset + 2); octetText buf (offset + 3)].

Fixpoint readGroups (buf : bytes) (offset n : nat) : Outcome (list jsstr) :=
  match n with
  | O => Val []
  | S n => g ← readU16 buf offset; gs ← readGroups buf (offset + 2) n; Val (toString16 g :: gs)
  end.

(** The longest run of zero groups is found by the same scan as in the PROXY protocol package. *)
Definition compressGroups (groups : list jsstr) : jsstr :=
  let s := zero_run_loop 0 groups (mkRun 0 0 None 0) in
  if (1 <? bestLen s)%nat then
    joinWith [58] (take (bestStart s) groups) ++ js "::" ++ joinWith [58] (drop (bestStart s + bestLen s) groups)
  else joinWith [58] groups.

Definition formatIPv6 (buf : bytes) (offset : nat) : Outcome jsstr :=
  groups ← readGroups buf offset 8; Val (compressGroups groups).

(** Every round consumes the length octet, so [end - pos] rounds are enough. *)
Fixpoint characterStrings (fuel : nat) (buf : bytes) (pos end_ : nat) (strings : list jsstr) : Outcome (list jsstr) :=
  if (pos <? end_)%nat then
    match fuel with
    | O => Err []
    | S fuel =>
        match buf !! pos with
        | None => Err (js "truncated character-string")
        | Some len =>
            let pos := (pos + 1)%nat in
            let stop := (pos + Z.to_nat len)%nat in
            if (end_ <? stop)%nat then Err (js "character-string exceeds rdata length")
            else characterStrings fuel buf stop end_ (strings ++ [utf8_text (sub buf pos stop)])
        end
    end
  else Val strings.

Definition decodeCharacterStrings (buf : bytes) (start end_ : nat) : Outcome (list jsstr) :=
  characterStrings (end_ - start) buf start end_ [].

Definition interpretRR (buf : bytes) (raw : RawRR) : Outcome DnsAnswer :=
  let answer data := Val (mkAnswer (rr_name raw) (rr_ttl raw) (rr_type raw) (rr_class raw) data) in
  let start := rdataStart raw in
  let rdataLength := (rdataEnd raw - start)%nat in
  let type := rr_type raw in
  if type =? RRType.A then
    if negb (rdataLength =? 4)%nat then Err (js "A record rdata must be 4 octets") else answer (KindA (formatIPv4 buf start))
  else if type =? RRType.AAAA then
    if negb (rdataLength =? 16)%nat then Err (js "AAAA record rdata must be 16 octets")
    else address ← formatIPv6 buf start; answer (KindAAAA address)
  else if type =? RRType.MX then
    if (rdataLength <? 3)%nat then Err (js "MX record rdata too short")
    else
      preference ← readU16 buf start;
      '(exchange, _) ← nameAt buf (start + 2);
      answer (KindMX preference exchange)
  else if type =? RRType.TXT then
    strings ← decodeCharacterStrings buf start (rdataEnd raw);
    answer (KindTXT strings (concat strings))
  else if type =? RRType.CNAME then '(target, _) ← nameAt buf start; answer (KindCNAME target)
  else if type =? RRType.PTR then '(target, _) ← nameAt buf start; answer (KindPTR target)
  else if type =? RRType.TLSA then
    if (rdataLength <? 3)%nat then Err (js "TLSA record rdata too short")
    else
      match buf !! start, buf !! (start + 1)%nat, buf !! (start + 2)%nat with
      | Some usage, Some selector, Some matchingType => answer (KindTLSA usage selector matchingType (sub buf (start + 3) (rdataEnd raw)))
      | _, _, _ => Err (js "TLSA record rdata too short")
      end
  else answer (KindUNKNOWN (sub buf start (rdataEnd raw))).

(** [i] counts the questions for the error text. *)
Fixpoint readQuestions (count : nat) (i : Z) (buf : bytes) (offset : nat) (questions : list DnsQuestion) : Outcome (list DnsQuestion * nat) :=
  match count with
  | O => Val (questions, offset)
  | S count =>
      '(name, offset) ← prefixed (js "question " ++ dec i ++ js ": ") (nameAt buf offset);
      if (length buf <? offset + 4)%nat then Err (js "truncated question")
      else
        qtype ← readU16 buf offset;
        qclass ← readU16 buf (offset + 2);
        readQuestions count (i + 1) buf (offset + 4) (questions ++ [mkQuestion name qtype qclass])
  end.

(** [readSection]: the offset and [extendedRcodeHigh] are the variables it shares with its caller. *)
Fixpoint readSection (count : nat) (buf : bytes) (offset : nat) (extendedRcodeHigh : Z) (out : list DnsAnswer)
  : Outcome (list DnsAnswer * nat * Z) :=
  match count with
  | O => Val (out, offset, extendedRcodeHigh)
  | S count =>
      '(rr, offset) ← decodeRawRR buf offset;
      if rr_type rr =? RRType.OPT then
        readSection count buf offset (default 0 (buf !! (rdataStart rr - 6)%nat)) out
      else
        answer ← interpretRR buf rr;
        readSection count buf offset extendedRcodeHigh (out ++ [answer])
  end.

Definition flag (flags k : Z) : bool := Z.land (Z.shiftr flags k) 1 =? 1.

(** The body of the [try]. *)
Definition decodeMessage_body (buf : bytes) : Outcome DnsMessage :=
  if (length buf <? HEADER_LENGTH)%nat then Err (js "message shorter than the 12-byte header")
  else
    id ← readU16 buf 0;
    flags ← readU16 buf 2;
    qdcount ← readU16 buf 4;
    ancount ← readU16 buf 6;
    nscount ← readU16 buf 8;
    arcount ← readU16 buf 10;
    '(questions, offset) ← readQuestions (Z.to_nat qdcount) 0 buf HEADER_LENGTH [];
    '(answers, offset, high) ← prefixed (js "answer section: ") (readSection (Z.to_nat ancount) buf offset 0 []);
    '(authority, offset, high) ← prefixed (js "authority section: ") (readSection (Z.to_nat nscount) buf offset high []);
    '(additional, offset, high) ← prefixed (js "additional section: ") (readSection (Z.to_nat arcount) buf offset high []);
    Val (mkMessage id (flag flags 15) (Z.land (Z.shiftr flags 11) 0xf) (flag flags 10) (flag flags 9) (flag flags 8) (flag flags 7)
           (flag flags 5) (flag flags 4) (Z.lor (Z.shiftl high 4) (Z.land flags 0xf)) questions answers authority additional).

(** [inl] is [ok: false]. *)
Definition decodeMessage (buf : bytes) : jsstr + DnsMessage :=
  match decodeMessage_body buf with Val m => inr m | Err e => inl e | Throw m => inl m end.
