(* ===== verification/DnsWireProofs.v ===== *)
(** * DnsWireProofs: messages read back, and the decoder never throws *)
From S2P Require Import Prelude JsString JsStringFacts ProxyProtocol Utf8 DnsName DnsWire.

(** Rewriting with this, rather than computing, keeps the continuation as it is. *)
Lemma bind_val {A B} (a : A) (f : A -> Outcome B) : (Val a ≫= f) = f a.
Proof. done. Qed.

(** ** Octets at an offset *)

Definition stands_at (buf : bytes) (o : nat) (l : bytes) : Prop := exists pre post, buf = pre ++ l ++ post /\ length pre = o.

Lemma stands_app buf o l1 l2 : stands_at buf o (l1 ++ l2) -> stands_at buf o l1 /\ stands_at buf (o + length l1) l2.
Proof.
  intros (pre & post & -> & <-). split.
  - exists pre, (l2 ++ post). by rewrite <- app_assoc.
  - exists (pre ++ l1), post. rewrite <- !app_assoc, length_app. done.
Qed.

Lemma stands_bound buf o l : stands_at buf o l -> (o + length l <= length buf)%nat.
Proof. intros (pre & post & -> & <-). rewrite !length_app. lia. Qed.

Lemma stands_lookup buf o l i : stands_at buf o l -> (i < length l)%nat -> buf !! (o + i)%nat = l !! i.
Proof.
  intros (pre & post & -> & <-) Hi. rewrite lookup_app_r by lia. replace (_ + i - _)%nat with i by lia. by rewrite lookup_app_l.
Qed.

Lemma stands_sub buf o l : stands_at buf o l -> sub buf o (o + length l) = l.
Proof.
  intros (pre & post & -> & <-). unfold sub. replace (length pre + length l - length pre)%nat with (length l) by lia.
  rewrite drop_app_length. apply take_app_length.
Qed.

Lemma stands_cons buf o b l : stands_at buf o (b :: l) -> buf !! o = Some b /\ stands_at buf (o + 1) l.
Proof.
  intros H. split; [|by apply (stands_app _ _ [b]) in H as [_ ?]].
  pose proof (stands_lookup _ _ _ 0 H) as Hl. rewrite Nat.add_0_r in Hl. apply Hl. cbn. lia.
Qed.

(** Restate the offset in [H : stands_at buf o l]. *)
Ltac at_offset H e := match type of H with stands_at _ ?x _ => replace x with e in H by lia end.

(** ** Numbers *)

Lemma writeUInt16BE_spec n w : writeUInt16BE n = Some w -> 0 <= n < 65536 /\ w = [n / 256; n mod 256].
Proof.
  unfold writeUInt16BE. destruct (_ || _) eqn:E; [done|]. intros [= <-]. split; [lia|].
  rewrite Z.shiftr_div_pow2 by lia. change 255 with (Z.ones 8). by rewrite Z.land_ones by lia.
Qed.

Lemma writeUInt32BE_spec n w : writeUInt32BE n = Some w ->
  0 <= n < 2 ^ 32 /\ w = [n / 2 ^ 24; (n / 2 ^ 16) mod 256; (n / 2 ^ 8) mod 256; n mod 256].
Proof.
  unfold writeUInt32BE. destruct (_ || _) eqn:E; [done|]. intros [= <-]. split; [lia|].
  rewrite !Z.shiftr_div_pow2 by lia. change 255 with (Z.ones 8). by rewrite !Z.land_ones by lia.
Qed.

Lemma readU16_octets buf o a b : buf !! o = Some a -> buf !! (o + 1)%nat = Some b -> is_octet b -> readU16 buf o = Val (a * 256 + b).
Proof. intros Ha Hb Ho. unfold readU16. rewrite Ha, Hb. by rewrite shift_lor by zlia. Qed.

Lemma readU16_written buf o n w : writeUInt16BE n = Some w -> stands_at buf o w -> readU16 buf o = Val n.
Proof.
  intros [Hn ->]%writeUInt16BE_spec [H1 [H2 _]%stands_cons]%stands_cons. rewrite (readU16_octets _ _ _ _ H1 H2).
  - f_equal. dlia.
  - unfold is_octet. dlia.
Qed.

Lemma readU32_written buf o n w : writeUInt32BE n = Some w -> stands_at buf o w -> readU32 buf o = Val n.
Proof.
  intros [Hn ->]%writeUInt32BE_spec [H1 [H2 [H3 [H4 _]%stands_cons]%stands_cons]%stands_cons]%stands_cons.
  rewrite <- !Nat.add_assoc in *. cbn [Nat.add] in *. unfold readU32. rewrite H1, H2, H3, H4. f_equal.
  rewrite (shift_lor (n / 2 ^ 16 mod 256) (Z.shiftl (n / 2 ^ 8 mod 256) 8) 16); [|lia|rewrite Z.shiftl_mul_pow2 by lia; dlia].
  rewrite Z.shiftl_mul_pow2 by lia.
  replace (n / 2 ^ 16 mod 256 * 2 ^ 16 + n / 2 ^ 8 mod 256 * 2 ^ 8) with (Z.shiftl (n / 2 ^ 16 mod 256 * 256 + n / 2 ^ 8 mod 256) 8)
    by (rewrite Z.shiftl_mul_pow2 by lia; lia).
  rewrite shift_lor by dlia. dlia.
Qed.

Lemma write16_length n w : writeUInt16BE n = Some w -> length w = 2%nat.
Proof. by intros [_ ->]%writeUInt16BE_spec. Qed.

Lemma write32_length n w : writeUInt32BE n = Some w -> length w = 4%nat.
Proof. by intros [_ ->]%writeUInt32BE_spec. Qed.

Lemma nameAt_written buf o name b : well_formed name = true -> encodeName name = inr b -> stands_at buf o b ->
  nameAt buf o = Val (nameText (nameLabels name), (o + length b)%nat).
Proof.
  intros Hw He (pre & post & -> & <-). unfold nameAt. by rewrite (encoded_name_reads name b pre post Hw He).
Qed.

(** ** Specification: the wire form of a record (RFC 1035, 3596, 6698, 6891), without compression *)

Inductive DataSpec :=
| SpA (octets : list Z)
| SpAAAA (groups : list Z)
| SpMX (preference : Z) (exchange : jsstr)
| SpTXT (strings : list bytes)
| SpCNAME (target : jsstr)
| SpPTR (target : jsstr)
| SpTLSA (usage selector matchingType : Z) (cert : bytes)
| SpOPT (options : bytes)
| SpOther (type : Z) (raw : bytes).

Record RecordSpec := mkSpec { s_name : jsstr; s_class : Z; s_ttl : Z; s_data : DataSpec }.

Definition spec_type (d : DataSpec) : Z :=
  match d with
  | SpA _ => RRType.A | SpAAAA _ => RRType.AAAA | SpMX _ _ => RRType.MX | SpTXT _ => RRType.TXT | SpCNAME _ => RRType.CNAME
  | SpPTR _ => RRType.PTR | SpTLSA _ _ _ _ => RRType.TLSA | SpOPT _ => RRType.OPT | SpOther t _ => t
  end.

Definition known_type (t : Z) : bool :=
  existsb (Z.eqb t) [RRType.A; RRType.AAAA; RRType.MX; RRType.TXT; RRType.CNAME; RRType.PTR; RRType.TLSA; RRType.OPT].

Definition data_ok (d : DataSpec) : Prop :=
  match d with
  | SpA octets => length octets = 4%nat
  | SpAAAA groups => length groups = 8%nat
  | SpMX _ exchange => well_formed exchange = true
  | SpTXT strings => Forall (fun s => length s <= 255)%nat strings
  | SpCNAME target | SpPTR target => well_formed target = true
  | SpTLSA _ _ _ _ | SpOPT _ => True
  | SpOther t _ => known_type t = false
  end.

Definition encoded (name : jsstr) : option bytes := match encodeName name with inl _ => None | inr b => Some b end.

Definition string_bytes (s : bytes) : bytes := Z.of_nat (length s) :: s.

Definition data_bytes (d : DataSpec) : option bytes :=
  match d with
  | SpA octets => Some octets
  | SpAAAA groups => concat (A:=Z) <$> mapM writeUInt16BE groups
  | SpMX preference exchange => p ← writeUInt16BE preference; e ← encoded exchange; Some (p ++ e)
  | SpTXT strings => Some (concat (string_bytes <$> strings))
  | SpCNAME target | SpPTR target => encoded target
  | SpTLSA usage selector matchingType cert => Some (usage :: selector :: matchingType :: cert)
  | SpOPT raw | SpOther _ raw => Some raw
  end.

Definition record_bytes (r : RecordSpec) : option bytes :=
  n ← encoded (s_name r);
  d ← data_bytes (s_data r);
  t ← writeUInt16BE (spec_type (s_data r));
  c ← writeUInt16BE (s_class r);
  ttl ← writeUInt32BE (s_ttl r);
  len ← writeUInt16BE (Z.of_nat (length d));
  Some (n ++ t ++ c ++ ttl ++ len ++ d).

Definition record_ok (r : RecordSpec) : Prop := well_formed (s_name r) = true /\ data_ok (s_data r).

(** What a name is read as: without a final dot, the root as a dot. *)
Definition read_name (name : jsstr) : jsstr := nameText (nameLabels name).

Definition data_value (d : DataSpec) : RData :=
  match d with
  | SpA octets => KindA (joinWith [DOT] (dec <$> octets))
  | SpAAAA groups => KindAAAA (compressGroups (toString16 <$> groups))
  | SpMX preference exchange => KindMX preference (read_name exchange)
  | SpTXT strings => KindTXT (utf8_text <$> strings) (concat (utf8_text <$> strings))
  | SpCNAME target => KindCNAME (read_name target)
  | SpPTR target => KindPTR (read_name target)
  | SpTLSA usage selector matchingType cert => KindTLSA usage selector matchingType cert
  | SpOPT raw | SpOther _ raw => KindUNKNOWN raw
  end.

Definition answer_of (r : RecordSpec) : DnsAnswer :=
  mkAnswer (read_name (s_name r)) (s_ttl r) (spec_type (s_data r)) (s_class r) (data_value (s_data r)).

Definition is_opt (r : RecordSpec) : bool := spec_type (s_data r) =? RRType.OPT.

(** An OPT record is no answer; the top octet of its TTL is the upper part of the response code. *)
Definition answers_of (rs : list RecordSpec) : list DnsAnswer := answer_of <$> List.filter (fun r => negb (is_opt r)) rs.

Definition rcode_high (rs : list RecordSpec) (high : Z) : Z := fold_left (fun h r => if is_opt r then s_ttl r / 2 ^ 24 else h) rs high.

(** ** Records read back *)

Lemma encoded_at buf o name b : well_formed name = true -> encoded name = Some b -> stands_at buf o b ->
  nameAt buf o = Val (read_name name, (o + length b)%nat).
Proof. unfold encoded. destruct (encodeName name) eqn:E; [done|]. intros Hw [= <-]. by apply nameAt_written. Qed.

Lemma encoded_pos name b : encoded name = Some b -> (0 < length b)%nat.
Proof.
  unfold encoded, encodeName. destruct (encodeLabels _ _) as [|out]; [done|]. destruct (_ <? _)%nat; [done|].
  intros [= <-]. rewrite length_app. cbn. lia.
Qed.

Lemma strings_at buf strings : forall o out fuel, Forall (fun s => length s <= 255)%nat strings ->
  stands_at buf o (concat (string_bytes <$> strings)) -> (length (concat (string_bytes <$> strings)) <= fuel)%nat ->
  characterStrings fuel buf o (o + length (concat (string_bytes <$> strings))) out = Val (out ++ (utf8_text <$> strings)).
Proof.
  induction strings as [|s strings IH]; intros o out fuel Hs Hat Hf.
  - cbn. rewrite Nat.add_0_r, app_nil_r. destruct fuel; cbn [characterStrings]; by rewrite Nat.ltb_irrefl.
  - csimpl in *. inversion_clear Hs as [|? ? Hs1 Hs2]. unfold string_bytes at 1 in Hat. cbn [app] in Hat.
    apply stands_cons in Hat as [Hlen Hat]. apply stands_app in Hat as [Ha1 Ha2]. rewrite length_app in *.
    change (length (string_bytes s)) with (S (length s)) in *. destruct fuel as [|fuel]; [lia|]. cbn [characterStrings].
    replace (o <? _)%nat with true by (symmetry; apply Nat.ltb_lt; lia). rewrite Hlen, Nat2Z.id.
    replace (_ <? o + 1 + length s)%nat with false by (symmetry; apply Nat.ltb_ge; lia). rewrite (stands_sub _ _ _ Ha1).
    replace (o + S (length s + length (concat (string_bytes <$> strings))))%nat
      with (o + 1 + length s + length (concat (string_bytes <$> strings)))%nat by lia.
    rewrite IH by (done || lia). by rewrite <- app_assoc.
Qed.

Lemma groups_at buf groups : forall o ws, mapM writeUInt16BE groups = Some ws -> stands_at buf o (concat ws) ->
  readGroups buf o (length groups) = Val (toString16 <$> groups).
Proof.
  induction groups as [|g groups IH]; intros o ws; cbn [mapM]; [done|].
  destruct (writeUInt16BE g) as [w|] eqn:Ew; cbn; [|done]. destruct (mapM writeUInt16BE groups) as [ws'|]; cbn; [|done].
  intros [= <-] Hat. cbn [concat] in Hat. apply stands_app in Hat as [H1 H2]. rewrite (write16_length _ _ Ew) in H2.
  rewrite (readU16_written _ _ _ _ Ew H1). cbn. by rewrite (IH _ _ eq_refl H2).
Qed.

Lemma address6_at buf o groups ws : length groups = 8%nat -> mapM writeUInt16BE groups = Some ws -> stands_at buf o (concat ws) ->
  formatIPv6 buf o = Val (compressGroups (toString16 <$> groups)).
Proof. intros Hl Hw Hat. unfold formatIPv6. rewrite <- Hl. by rewrite (groups_at _ _ _ _ Hw Hat). Qed.

Lemma texts_at buf o strings : Forall (fun s => length s <= 255)%nat strings -> stands_at buf o (concat (string_bytes <$> strings)) ->
  decodeCharacterStrings buf o (o + length (concat (string_bytes <$> strings))) = Val (utf8_text <$> strings).
Proof. intros Hs Hat. unfold decodeCharacterStrings. by rewrite strings_at by (done || lia). Qed.

Lemma octets_text buf o octets : length octets = 4%nat -> stands_at buf o octets -> formatIPv4 buf o = joinWith [DOT] (dec <$> octets).
Proof.
  destruct octets as [|a [|b [|c [|d [|]]]]]; try done. intros _ [H1 [H2 [H3 [H4 _]%stands_cons]%stands_cons]%stands_cons]%stands_cons.
  rewrite <- !Nat.add_assoc in *. cbn [Nat.add] in *. unfold formatIPv4, octetText. by rewrite H1, H2, H3, H4.
Qed.

#[local] Opaque decodeName nameAt readU16 formatIPv4 formatIPv6 decodeCharacterStrings sub.

(** The data of a record, read where it stands. *)
Lemma interpret_written buf r d o : data_ok (s_data r) -> is_opt r = false -> data_bytes (s_data r) = Some d -> stands_at buf o d ->
  interpretRR buf (mkRawRR (read_name (s_name r)) (spec_type (s_data r)) (s_class r) (s_ttl r) o (o + length d)) = Val (answer_of r).
Proof.
  unfold is_opt, answer_of, interpretRR. cbn [rdataStart rdataEnd rr_type rr_name rr_class rr_ttl].
  replace (o + length d - o)%nat with (length d) by lia. intros Hok Hopt Hd Hat.
  destruct (s_data r) as [octets|groups|pref exch|strings|target|target|u s m cert|raw|t raw]; cbn [spec_type data_ok data_value] in *; cbn [data_bytes] in Hd.
  - injection Hd as <-. rewrite Hok. cbn -[formatIPv4]. by rewrite (octets_text _ _ _ Hok Hat).
  - apply fmap_Some in Hd as (ws & Hws & ->). assert (length (concat ws) = 16%nat) as ->.
    { assert (length ws = 8%nat) as Hl by (rewrite <- Hok; symmetry; by eapply length_mapM). clear -Hws Hl.
      apply mapM_Some in Hws. assert (length (concat ws) = 2 * length ws)%nat as ->; [|by rewrite Hl].
      clear Hl. induction Hws as [|? w ? ? Hw _ IH]; [done|]. cbn. rewrite length_app, IH, (write16_length _ _ Hw). lia. }
    cbn. by rewrite (address6_at _ _ _ _ Hok Hws Hat).
  - destruct (writeUInt16BE pref) as [p|] eqn:Ep; [|done]. destruct (encoded exch) as [e|] eqn:Ee; [|done]. cbn in Hd. injection Hd as <-.
    apply stands_app in Hat as [H1 H2]. rewrite (write16_length _ _ Ep) in H2.
    pose proof (encoded_pos _ _ Ee) as He.
    assert ((length (p ++ e) <? 3)%nat = false) as -> by (apply Nat.ltb_ge; rewrite length_app, (write16_length _ _ Ep); lia).
    change (RRType.MX =? RRType.A) with false. change (RRType.MX =? RRType.AAAA) with false. rewrite Z.eqb_refl. cbv beta iota.
    by rewrite (readU16_written _ _ _ _ Ep H1), bind_val, (encoded_at _ _ _ _ Hok Ee H2).
  - injection Hd as <-. cbn. by rewrite texts_at.
  - cbn -[nameAt]. by rewrite (encoded_at _ _ _ _ Hok Hd Hat).
  - cbn -[nameAt]. by rewrite (encoded_at _ _ _ _ Hok Hd Hat).
  - injection Hd as <-. destruct (stands_cons _ _ _ _ Hat) as [H1 [H2 [H3 H4]%stands_cons]%stands_cons].
    rewrite <- !Nat.add_assoc in *. cbn [Nat.add] in *. cbn -[sub Nat.ltb length]. cbn [length].
    replace (S (S (S (length cert))) <? 3)%nat with false by (symmetry; apply Nat.ltb_ge; lia). rewrite H1, H2, H3.
    replace (o + S (S (S (length cert))))%nat with (o + 3 + length cert)%nat by lia. by rewrite (stands_sub _ _ _ H4).
  - done.
  - injection Hd as <-. unfold known_type in Hok. cbn -[sub] in Hok. rewrite !orb_false_iff in Hok.
    destruct Hok as (-> & -> & -> & -> & -> & -> & -> & _). by rewrite (stands_sub _ _ _ Hat).
Qed.

(** One record, from its name on. *)
Lemma raw_written buf r b o : well_formed (s_name r) = true -> record_bytes r = Some b -> stands_at buf o b ->
  exists d start, data_bytes (s_data r) = Some d /\ stands_at buf start d /\ (start + length d = o + length b)%nat /\
    decodeRawRR buf o = Val (mkRawRR (read_name (s_name r)) (spec_type (s_data r)) (s_class r) (s_ttl r) start (start + length d), (start + length d)%nat) /\
    buf !! (start - 6)%nat = Some (s_ttl r / 2 ^ 24).
Proof.
  intros Hw. unfold record_bytes. destruct (encoded (s_name r)) as [n|] eqn:En; [|done]. destruct (data_bytes (s_data r)) as [d|]; [|done].
  destruct (writeUInt16BE (spec_type (s_data r))) as [t|] eqn:Et; [|done]. destruct (writeUInt16BE (s_class r)) as [c|] eqn:Ec; [|done].
  destruct (writeUInt32BE (s_ttl r)) as [ttl|] eqn:El; [|done]. cbn [mbind option_bind].
  destruct (writeUInt16BE (Z.of_nat (length d))) as [len|] eqn:Ed; [|done].
  intros [= <-] Hat. pose proof (stands_bound _ _ _ Hat) as Hb.
  apply stands_app in Hat as [H1 [H2 [H3 [H4 [H5 H6]%stands_app]%stands_app]%stands_app]%stands_app].
  rewrite !length_app, (write16_length _ _ Et), (write16_length _ _ Ec), (write32_length _ _ El), (write16_length _ _ Ed) in *.
  at_offset H4 (o + length n + 4)%nat. at_offset H5 (o + length n + 8)%nat. at_offset H6 (o + length n + 10)%nat.
  exists d, (o + length n + 10)%nat. split; [done|]. split; [done|]. split; [lia|]. split.
  - unfold decodeRawRR. rewrite (encoded_at _ _ _ _ Hw En H1), bind_val.
    replace (length buf <? o + length n + 10)%nat with false by (symmetry; apply Nat.ltb_ge; lia).
    rewrite (readU16_written _ _ _ _ Et H2), bind_val.
    rewrite (readU16_written _ _ _ _ Ec H3), bind_val, (readU32_written _ _ _ _ El H4), bind_val, (readU16_written _ _ _ _ Ed H5), bind_val.
    rewrite Nat2Z.id. cbv zeta. by replace (length buf <? _)%nat with false by (symmetry; apply Nat.ltb_ge; lia).
  - apply writeUInt32BE_spec in El as [_ ->]. apply stands_cons in H4 as [H4 _].
    by replace (o + length n + 10 - 6)%nat with (o + length n + 4)%nat by lia.
Qed.

Lemma section_written buf rs : forall bs o high out, Forall record_ok rs -> mapM record_bytes rs = Some bs -> stands_at buf o (concat bs) ->
  readSection (length rs) buf o high out = Val (out ++ answers_of rs, (o + length (concat bs))%nat, rcode_high rs high).
Proof.
  unfold answers_of, rcode_high. induction rs as [|r rs IH]; intros bs o high out Hok; cbn [mapM].
  { intros [= <-] _. cbn. by rewrite app_nil_r, Nat.add_0_r. }
  destruct (record_bytes r) as [b|] eqn:Eb; cbn; [|done]. destruct (mapM record_bytes rs) as [bs'|]; cbn; [|done].
  intros [= <-] Hat. inversion_clear Hok as [|? ? [Hw Hd] Hoks]. cbn [concat] in Hat. apply stands_app in Hat as [H1 H2].
  destruct (raw_written buf r b o Hw Eb H1) as (d & start & Ed & Hsd & Hend & Hraw & Httl).
  rewrite Hraw, bind_val. cbn [rr_type rdataStart]. rewrite Hend. fold (is_opt r). cbn [concat]. rewrite length_app, Nat.add_assoc.
  destruct (is_opt r) eqn:Eo; cbn [negb].
  - rewrite Httl. cbn [default]. by rewrite (IH bs').
  - rewrite <- Hend, (interpret_written buf r d start Hd Eo Ed Hsd), bind_val, Hend. rewrite (IH bs') by done.
    cbn. by rewrite <- app_assoc.
Qed.

Definition question_bytes (q : DnsQuestion) : option bytes :=
  n ← encoded (q_name q); t ← writeUInt16BE (q_type q); c ← writeUInt16BE (q_class q); Some (n ++ t ++ c).

Definition question_read (q : DnsQuestion) : DnsQuestion := mkQuestion (read_name (q_name q)) (q_type q) (q_class q).

Lemma questions_written buf qs : forall bs o i out, Forall (fun q => well_formed (q_name q) = true) qs ->
  mapM question_bytes qs = Some bs -> stands_at buf o (concat bs) ->
  readQuestions (length qs) i buf o out = Val (out ++ (question_read <$> qs), (o + length (concat bs))%nat).
Proof.
  induction qs as [|q qs IH]; intros bs o i out Hok; cbn [mapM].
  { intros [= <-] _. cbn. by rewrite app_nil_r, Nat.add_0_r. }
  destruct (question_bytes q) as [b|] eqn:Eb; [|done]. destruct (mapM question_bytes qs) as [bs'|]; [|done].
  cbn [mbind option_bind length readQuestions].
  intros [= <-] Hat. inversion_clear Hok as [|? ? Hw Hoks]. cbn [concat] in *. apply stands_app in Hat as [Hat Hrest].
  unfold question_bytes in Eb. destruct (encoded (q_name q)) as [n|] eqn:En; [|done]. cbn [mbind option_bind] in Eb.
  destruct (writeUInt16BE (q_type q)) as [t|] eqn:Et; [|done]. cbn [mbind option_bind] in Eb.
  destruct (writeUInt16BE (q_class q)) as [c|] eqn:Ec; [|done]. injection Eb as <-.
  pose proof (stands_bound _ _ _ Hat) as Hb. apply stands_app in Hat as [H1 [H2 H3]%stands_app].
  rewrite !length_app, (write16_length _ _ Et), (write16_length _ _ Ec) in *. rewrite (encoded_at _ _ _ _ Hw En H1). cbn [prefixed]. rewrite bind_val.
  replace (length buf <? o + length n + 4)%nat with false by (symmetry; apply Nat.ltb_ge; lia).
  rewrite (readU16_written _ _ _ _ Et H2), bind_val, (readU16_written _ _ _ _ Ec H3), bind_val.
  at_offset Hrest (o + length n + 4)%nat. rewrite (IH bs') by done. rewrite <- app_assoc, Nat.add_assoc.
  cbn. do 2 f_equal. lia.
Qed.

(** ** Whole messages *)

Definition counted {A} (f : A -> option bytes) (l : list A) : option (bytes * bytes) :=
  c ← writeUInt16BE (Z.of_nat (length l)); bs ← mapM f l; Some (c, concat bs).

Definition message_bytes (id flags : Z) (questions : list DnsQuestion) (answers authority additional : list RecordSpec) : option bytes :=
  i ← writeUInt16BE id;
  f ← writeUInt16BE flags;
  '(qc, qs) ← counted question_bytes questions;
  '(ac, an) ← counted record_bytes answers;
  '(nc, ns) ← counted record_bytes authority;
  '(rc, ar) ← counted record_bytes additional;
  Some (i ++ f ++ qc ++ ac ++ nc ++ rc ++ qs ++ an ++ ns ++ ar).

Lemma counted_spec {A} (f : A -> option bytes) l c b : counted f l = Some (c, b) ->
  writeUInt16BE (Z.of_nat (length l)) = Some c /\ exists bs, mapM f l = Some bs /\ b = concat bs.
Proof.
  unfold counted. destruct (writeUInt16BE _) as [c'|]; [|done]. cbn [mbind option_bind]. destruct (mapM f l) as [bs|]; [|done].
  intros [= <- <-]. split; [done|]. by exists bs.
Qed.

Lemma flag_bit flags k : 0 <= k -> flag flags k = Z.testbit flags k.
Proof.
  intros Hk. unfold flag. change 1 with (Z.ones 1) at 1. rewrite Z.land_ones by lia. change (2 ^ 1) with 2.
  rewrite Z.shiftr_div_pow2 by done. rewrite Z.testbit_eqb by done. done.
Qed.

(** What a message with these fields decodes to. *)
Definition message_value (id flags : Z) (questions : list DnsQuestion) (answers authority additional : list RecordSpec) : DnsMessage :=
  mkMessage id (Z.testbit flags 15) (flags / 2 ^ 11 mod 16) (Z.testbit flags 10) (Z.testbit flags 9) (Z.testbit flags 8) (Z.testbit flags 7)
    (Z.testbit flags 5) (Z.testbit flags 4) (16 * rcode_high (answers ++ authority ++ additional) 0 + flags mod 16)
    (question_read <$> questions) (answers_of answers) (answers_of authority) (answers_of additional).

Lemma message_written (id flags : Z) (questions : list DnsQuestion) (answers authority additional : list RecordSpec) (buf : bytes) :
  Forall (fun q => well_formed (q_name q) = true) questions -> Forall record_ok (answers ++ authority ++ additional) ->
  message_bytes id flags questions answers authority additional = Some buf ->
  decodeMessage buf = inr (message_value id flags questions answers authority additional).
Proof.
  intros Hq Hr. rewrite !Forall_app in Hr. destruct Hr as (Hr1 & Hr2 & Hr3). unfold message_bytes.
  destruct (writeUInt16BE id) as [i|] eqn:Ei; [|done]. cbn [mbind option_bind]. destruct (writeUInt16BE flags) as [f|] eqn:Ef; [|done]. cbn [mbind option_bind].
  destruct (counted question_bytes questions) as [[qc qs]|] eqn:Eq; [|done]. apply counted_spec in Eq as (Eqc & qbs & Eq & ->). cbn [mbind option_bind].
  destruct (counted record_bytes answers) as [[ac an]|] eqn:Ea; [|done]. apply counted_spec in Ea as (Eac & abs & Ea & ->). cbn [mbind option_bind].
  destruct (counted record_bytes authority) as [[nc ns]|] eqn:En; [|done]. apply counted_spec in En as (Enc & nbs & En & ->). cbn [mbind option_bind].
  destruct (counted record_bytes additional) as [[rc ar]|] eqn:Er; [|done]. apply counted_spec in Er as (Erc & rbs & Er & ->).
  intros [= <-]. set (buf := _ ++ _). assert (stands_at buf 0 buf) as Hat by (exists [], []; by rewrite app_nil_r).
  unfold buf in Hat at 2. pose proof (stands_bound _ _ _ Hat) as Hlen.
  apply stands_app in Hat as [H1 [H2 [H3 [H4 [H5 [H6 [H7 [H8 [H9 H10]%stands_app]%stands_app]%stands_app]%stands_app]%stands_app]%stands_app]%stands_app]%stands_app].
  rewrite !length_app, ?(write16_length _ _ Ei), ?(write16_length _ _ Ef), ?(write16_length _ _ Eqc), ?(write16_length _ _ Eac),
    ?(write16_length _ _ Enc), ?(write16_length _ _ Erc) in *. cbn [Nat.add] in *.
  unfold decodeMessage, decodeMessage_body. replace (length buf <? HEADER_LENGTH)%nat with false by (symmetry; apply Nat.ltb_ge; unfold HEADER_LENGTH; lia).
  rewrite (readU16_written _ _ _ _ Ei H1), bind_val, (readU16_written _ _ _ _ Ef H2), bind_val, (readU16_written _ _ _ _ Eqc H3), bind_val,
    (readU16_written _ _ _ _ Eac H4), bind_val, (readU16_written _ _ _ _ Enc H5), bind_val, (readU16_written _ _ _ _ Erc H6), bind_val, !Nat2Z.id.
  rewrite (questions_written _ _ _ _ _ _ Hq Eq H7), bind_val, (section_written _ _ _ _ _ _ Hr1 Ea H8). cbn [prefixed]. rewrite bind_val.
  rewrite (section_written _ _ _ _ _ _ Hr2 En H9). cbn [prefixed]. rewrite bind_val, (section_written _ _ _ _ _ _ Hr3 Er H10). cbn [prefixed]. rewrite bind_val.
  f_equal. unfold message_value. rewrite !flag_bit by lia.
  assert (Z.land (Z.shiftr flags 11) 0xf = flags / 2 ^ 11 mod 16) as -> by (change 0xf with (Z.ones 4); by rewrite Z.land_ones, Z.shiftr_div_pow2 by lia).
  assert (Z.land flags 0xf = flags mod 16) as -> by (change 0xf with (Z.ones 4); by rewrite Z.land_ones by lia).
  rewrite shift_lor by (try lia; apply Z.mod_pos_bound; lia). unfold rcode_high. rewrite !fold_left_app. cbn [app]. f_equal. lia.
Qed.

(** ** Queries *)

(** A query is the message of one question and the OPT record that announces EDNS. *)
Lemma query_is_message id name type opts packet : encodeQuery id name type opts = Some packet ->
  let rd := default true (recursionDesired opts) in
  let ad := default true (requestAd opts) in
  message_bytes id (queryFlags rd ad) [mkQuestion name type DNS_CLASS_IN] [] []
    [mkSpec [DOT] (default DEFAULT_UDP_PAYLOAD_SIZE (udpPayloadSize opts)) (if default true (dnssecOk opts) then 2 ^ 15 else 0) (SpOPT [])] = Some packet.
Proof.
  unfold encodeQuery. cbv zeta. destruct (writeUInt16BE id) as [i|] eqn:Ei; [|done]. cbn [mbind option_bind].
  destruct (writeUInt16BE (queryFlags _ _)) as [f|] eqn:Ef; [|done]. cbn [mbind option_bind]. fold (encoded name).
  destruct (encoded name) as [n|] eqn:En; [|done]. cbn [mbind option_bind]. destruct (writeUInt16BE type) as [t|] eqn:Et; [|done]. cbn [mbind option_bind].
  destruct (writeUInt16BE (default DEFAULT_UDP_PAYLOAD_SIZE (udpPayloadSize opts))) as [p|] eqn:Ep; [|done].
  set (ttl := if default true (dnssecOk opts) then 2 ^ 15 else 0).
  replace (uint32 (if default true (dnssecOk opts) then Z.shiftl 1 15 else 0)) with ttl by (unfold ttl; by destruct (default true (dnssecOk opts))).
  destruct (writeUInt32BE ttl) as [w|] eqn:Ew; [|done]. intros [= <-].
  unfold message_bytes. rewrite Ei. cbn [mbind option_bind]. rewrite Ef. cbn [mbind option_bind].
  assert (counted question_bytes [mkQuestion name type DNS_CLASS_IN] = Some ([0; 1], (n ++ t ++ [0; 1]) ++ [])) as ->.
  { unfold counted, question_bytes. cbn [mapM q_name q_type q_class]. rewrite En. cbn [mbind option_bind]. by rewrite Et. }
  cbn [mbind option_bind counted mapM]. unfold counted, record_bytes. cbn [mapM s_name s_data s_class s_ttl data_bytes spec_type length].
  change (writeUInt16BE (Z.of_nat 0)) with (Some [0; 0]). change (writeUInt16BE (Z.of_nat 1)) with (Some [0; 1]).
  change (encoded [DOT]) with (Some [0]). change (writeUInt16BE RRType.OPT) with (Some [0; 41]). rewrite Ep, Ew. cbn.
  change (writeUInt16BE (Z.of_nat 0)) with (Some [0; 0]). cbn. rewrite ?app_nil_r, <- ?app_assoc. cbn. by rewrite ?app_nil_r.
Qed.

Lemma query_reads_back id name type opts packet : well_formed name = true -> encodeQuery id name type opts = Some packet ->
  decodeMessage packet = inr (mkMessage id false 0 false false (default true (recursionDesired opts)) false (default true (requestAd opts)) false 0
    [mkQuestion (read_name name) type DNS_CLASS_IN] [] [] []).
Proof.
  intros Hw Hp. apply query_is_message in Hp. apply message_written in Hp; [|by constructor|constructor; [by split|by constructor]].
  rewrite Hp. destruct (default true (recursionDesired opts)), (default true (requestAd opts)), (default true (dnssecOk opts)); reflexivity.
Qed.

(** ** The decoder never throws *)

#[local] Transparent nameAt formatIPv6 decodeCharacterStrings readU16.

Definition safe {A} (o : Outcome A) : Prop := forall m, o <> Throw m.

Lemma safe_bind {A B} (o : Outcome A) (f : A -> Outcome B) : safe o -> (forall a, o = Val a -> safe (f a)) -> safe (o ≫= f).
Proof. destruct o as [a| |m]; [intros _ H; exact (H a eq_refl)|done|]. intros H _. by destruct (H m). Qed.

Lemma safe_prefixed {A} prefix (o : Outcome A) : safe o -> safe (prefixed prefix o).
Proof. by destruct o. Qed.

Lemma readU16_safe buf o : (o + 2 <= length buf)%nat -> safe (readU16 buf o).
Proof.
  intros Hl. destruct (lookup_lt_is_Some_2 buf o) as [a Ha]; [lia|]. destruct (lookup_lt_is_Some_2 buf (o + 1)) as [b Hb]; [lia|].
  intros m. unfold readU16. by rewrite Ha, Hb.
Qed.

Lemma readU32_safe buf o : (o + 4 <= length buf)%nat -> safe (readU32 buf o).
Proof.
  intros Hl. destruct (lookup_lt_is_Some_2 buf o) as [a Ha]; [lia|]. destruct (lookup_lt_is_Some_2 buf (o + 1)) as [b Hb]; [lia|].
  destruct (lookup_lt_is_Some_2 buf (o + 2)) as [c Hc]; [lia|]. destruct (lookup_lt_is_Some_2 buf (o + 3)) as [d Hd]; [lia|].
  intros m. unfold readU32. by rewrite Ha, Hb, Hc, Hd.
Qed.

Lemma nameAt_safe buf o : safe (nameAt buf o).
Proof. intros m. unfold nameAt. by destruct (decodeName buf o). Qed.

Lemma readGroups_safe buf n : forall o, (o + 2 * n <= length buf)%nat -> safe (readGroups buf o n).
Proof.
  induction n as [|n IH]; intros o Hl; [done|]. cbn [readGroups]. apply safe_bind; [apply readU16_safe; lia|]. intros g _.
  apply safe_bind; [apply IH; lia|]. done.
Qed.

Lemma strings_safe fuel : forall buf o e out, safe (characterStrings fuel buf o e out).
Proof.
  induction fuel as [|fuel IH]; intros buf o e out; cbn [characterStrings]; destruct (o <? e)%nat; try done.
  destruct (buf !! o); [|done]. cbv zeta. destruct (_ <? _)%nat; [done|apply IH].
Qed.

Lemma rawRR_bound buf o rr e : decodeRawRR buf o = Val (rr, e) -> (rdataEnd rr <= length buf)%nat.
Proof.
  unfold decodeRawRR. destruct (nameAt buf o) as [[name h]| |]; [|done..]. rewrite bind_val. destruct (length buf <? h + 10)%nat; [done|].
  destruct (readU16 buf h); [|done..]. rewrite bind_val. destruct (readU16 buf (h + 2)); [|done..]. rewrite bind_val.
  destruct (readU32 buf (h + 4)); [|done..]. rewrite bind_val. destruct (readU16 buf (h + 8)); [|done..]. rewrite bind_val. cbv zeta.
  destruct (length buf <? _)%nat eqn:El; [done|]. nat_tests. by intros [= <- <-].
Qed.

Lemma rawRR_safe buf o : safe (decodeRawRR buf o).
Proof.
  unfold decodeRawRR. apply safe_bind; [apply nameAt_safe|]. intros [name h] _. destruct (length buf <? h + 10)%nat eqn:El; [done|]. nat_tests.
  apply safe_bind; [apply readU16_safe; lia|]. intros t _. apply safe_bind; [apply readU16_safe; lia|]. intros c _.
  apply safe_bind; [apply readU32_safe; lia|]. intros ttl _. apply safe_bind; [apply readU16_safe; lia|]. intros len _. cbv zeta. by destruct (_ <? _)%nat.
Qed.

Lemma interpret_safe buf rr : (rdataEnd rr <= length buf)%nat -> safe (interpretRR buf rr).
Proof.
  intros Hl. unfold interpretRR. cbv zeta. repeat (case_match; [|]); try done; nat_tests.
  - apply safe_bind; [|done]. unfold formatIPv6. apply safe_bind; [apply readGroups_safe|done].
    match goal with H : negb _ = false |- _ => apply negb_false_iff in H end. nat_tests. lia.
  - apply safe_bind; [apply readU16_safe; lia|]. intros p _. apply safe_bind; [apply nameAt_safe|]. by intros [].
  - apply safe_bind; [apply strings_safe|done].
  - apply safe_bind; [apply nameAt_safe|by intros []].
  - apply safe_bind; [apply nameAt_safe|by intros []].
Qed.

Lemma section_safe buf count : forall o high out, safe (readSection count buf o high out).
Proof.
  induction count as [|count IH]; intros o high out; [done|]. cbn [readSection]. apply safe_bind; [apply rawRR_safe|].
  intros [rr e] Hrr. destruct (_ =? _); [apply IH|]. apply safe_bind; [|intros; apply IH]. apply interpret_safe. by eapply rawRR_bound.
Qed.

Lemma questions_safe buf count : forall i o out, safe (readQuestions count i buf o out).
Proof.
  induction count as [|count IH]; intros i o out; [done|]. cbn [readQuestions]. apply safe_bind; [apply safe_prefixed, nameAt_safe|].
  intros [name e] _. destruct (length buf <? e + 4)%nat eqn:El; [done|]. nat_tests.
  apply safe_bind; [apply readU16_safe; lia|]. intros t _. apply safe_bind; [apply readU16_safe; lia|]. intros c _. apply IH.
Qed.

Lemma body_safe buf : safe (decodeMessage_body buf).
Proof.
  unfold decodeMessage_body. destruct (length buf <? HEADER_LENGTH)%nat eqn:El; [done|]. nat_tests. unfold HEADER_LENGTH in El.
  do 6 (apply safe_bind; [apply readU16_safe; lia|]; intros ? _).
  apply safe_bind; [apply questions_safe|]. intros [qs o] _.
  do 3 (apply safe_bind; [apply safe_prefixed, section_safe|]; intros [[? ?] ?] _). done.
Qed.

Lemma strings_end fuel : forall buf o e out, octets_ok buf -> (e - o <= fuel)%nat -> characterStrings fuel buf o e out <> Err [].
Proof.
  induction fuel as [|fuel IH]; intros buf o e out Hb Hf; cbn [characterStrings]; destruct (o <? e)%nat eqn:Eo; try done; nat_tests; [lia|].
  destruct (buf !! o) as [len|] eqn:El; [|done]. cbv zeta. destruct (_ <? _)%nat eqn:Es; [done|]. nat_tests. apply IH; [done|]. lia.
Qed.

(** a DNS message written without compression, of any number of questions and records of any type in
    its three sections, decodes to exactly its fields: flags, response code with the EDNS extension,
    questions, addresses in text, exchanges, strings, targets, certificates and unknown records. *)
Theorem message_reads_back (id flags : Z) (questions : list DnsQuestion) (answers authority additional : list RecordSpec) (buf : bytes) :
  Forall (fun q => well_formed (q_name q) = true) questions -> Forall record_ok (answers ++ authority ++ additional) ->
  message_bytes id flags questions answers authority additional = Some buf ->
  decodeMessage buf = inr (message_value id flags questions answers authority additional).
Proof. apply message_written. Qed.

Lemma message_reads_back_witness :
  exists buf, decodeMessage buf = inr (mkMessage 7 true 0 false false true true true false 16
    [mkQuestion (js "b.example") RRType.MX 1]
    [mkAnswer (js "b.example") 3600 RRType.MX 1 (KindMX 10 (js "mx.b.example"))] []
    [mkAnswer (js "mx.b.example") 60 RRType.AAAA 1 (KindAAAA (js "2001:db8::1"));
     mkAnswer (js "mx.b.example") 60 RRType.TXT 1 (KindTXT [js "v="; js "x"] (js "v=x"))]).
Proof.
  eexists. etransitivity.
  - apply (message_reads_back 7 0x81a0 [mkQuestion (js "b.example.") RRType.MX 1] [mkSpec (js "b.example") 1 3600 (SpMX 10 (js "mx.b.example."))] []
      [mkSpec (js "mx.b.example") 1 60 (SpAAAA [0x2001; 0xdb8; 0; 0; 0; 0; 0; 1]); mkSpec (js "mx.b.example") 1 60 (SpTXT [js "v="; js "x"]);
       mkSpec (js ".") 1232 (2 ^ 24) (SpOPT [])]).
    + by repeat constructor.
    + repeat constructor.
    + vm_compute. reflexivity.
  - vm_compute. reflexivity.
Defined.

(** C38: on any octets whatever the decoder gives a message or an error value: nothing in its body throws,
    the loop over character-strings always ends, and every record interpreted lies inside the message. *)
Theorem decoder_total (buf : bytes) (Hbuf : octets_ok buf) :
  (forall m, decodeMessage_body buf <> Throw m) /\
  (forall start end_, decodeCharacterStrings buf start end_ <> Err []) /\
  (forall o rr e, decodeRawRR buf o = Val (rr, e) -> (rdataEnd rr <= length buf)%nat).
Proof.
  split; [apply body_safe|]. split; [|intros o rr e; apply rawRR_bound].
  intros start end_. by apply strings_end.
Qed.

Lemma decoder_total_witness :
  decodeMessage (replicate 40 192) = inl (js "question 0: name offset 192 out of bounds") /\
  (forall m, decodeMessage_body (replicate 40 192) <> Throw m).
Proof.
  split; [vm_compute; reflexivity|]. apply (decoder_total (replicate 40 192)). apply Forall_replicate. unfold is_octet. lia.
Defined.
