(* ===== verification/DnsResolver.v ===== *)
(** * DnsResolver: the stub resolver client and MX resolution (packages/dns/src)

    trust.ts, transport.ts, resolver.ts and mx.ts. A socket is the sequence of its events; a promise that
    no event has settled is [None]. The drawn query ids come with the events of each attempt. *)
From S2P Require Import Prelude JsString JsStringFacts ProxyProtocol Utf8 DnsName DnsWire.

(** What the sources use of the runtime here: the integer that [Number] makes of a text other than a
    string of digits ([None] if it makes none), and [net.isIP]. *)
Class NetRuntime := { text_integer : jsstr -> option Z; isIP : jsstr -> Z }.

(** errors.ts; [DnsOther] is any other thrown error, by its message. *)
Inductive DnsError :=
| DnsServfailError (queryName : jsstr) (queryType : Z)
| DnsTimeoutError (message : jsstr)
| DnsProtocolError (message : jsstr)
| DnsPublicResolverRefusedError (message : jsstr)
| DnsOther (message : jsstr).

(** ** trust.ts *)

Record ParsedServer := mkServer { ps_host : jsstr; ps_port : Z }.

Definition DEFAULT_DNS_PORT : Z := 53.

(** [/^\[(?<host>[^\]]+)]:(?<port>\d+)$/]. *)
Definition bracketMatch (server : jsstr) : option (jsstr * jsstr) :=
  match server with
  | 91 :: t =>
      let host := takeWhile (fun c => negb (c =? 93)) t in
      match drop (length host) t with
      | 93 :: 58 :: port => if negb (length host =? 0)%nat && negb (length port =? 0)%nat && forallb is_digit port then Some (host, port) else None
      | _ => None
      end
  | _ => None
  end.

(** The position after the last colon. *)
Fixpoint lastColon_loop (s : jsstr) (i : nat) (found : option nat) : option nat :=
  match s with [] => found | c :: t => lastColon_loop t (S i) (if c =? 58 then Some i else found) end.

Section trust.
Context `{R : Runtime} `{N : NetRuntime}.

(** [Number(text)], if it is an integer. *)
Definition integerOf (text : jsstr) : option Z :=
  match text with [] => Some 0 | _ => if forallb is_digit text then Some (Number text) else text_integer text end.

Definition parseServer (rawServer : jsstr) : ParsedServer :=
  let server := trim rawServer in
  match bracketMatch server with
  | Some (host, port) => mkServer host (Number port)
  | None =>
      match lastColon_loop server 0 None with
      | None => mkServer server DEFAULT_DNS_PORT
      | Some lastColon =>
          if (1 <? length (splitDouble 58 server))%nat then mkServer server DEFAULT_DNS_PORT
          else
            match integerOf (drop (S lastColon) server) with
            | Some port => if port <=? 0 then mkServer server DEFAULT_DNS_PORT else mkServer (take lastColon server) port
            | None => mkServer server DEFAULT_DNS_PORT
            end
      end
  end.

(** [\d{1,3}]. *)
Definition shortDigits (s : jsstr) : bool := (1 <=? length s)%nat && (length s <=? 3)%nat && forallb is_digit s.

Definition isTrustedResolverAddress (host : jsstr) : bool :=
  if bool_decide (host = js "localhost") || bool_decide (host = js "unbound") then true
  else if bool_decide (host = js "127.0.0.1") || bool_decide (host = js "::1") then true
  else
    match splitOn DOT host with
    | [a; b; c; d] =>
        if bool_decide (a = js "127") && shortDigits b && shortDigits c && shortDigits d then true
        else if bool_decide (a = js "10") && shortDigits b && shortDigits c && shortDigits d then true
        else if bool_decide (a = js "192") && bool_decide (b = js "168") && shortDigits c && shortDigits d then true
        else if bool_decide (a = js "172") && shortDigits b && shortDigits c && shortDigits d then (16 <=? Number b) && (Number b <=? 31)
        else false
    | _ => false
    end.

Definition PUBLIC_RESOLVERS : list jsstr :=
  [js "8.8.8.8"; js "8.8.4.4"; js "2001:4860:4860::8888"; js "2001:4860:4860::8844"; js "1.1.1.1"; js "1.0.0.1";
   js "2606:4700:4700::1111"; js "2606:4700:4700::1001"; js "9.9.9.9"; js "149.112.112.112"; js "2620:fe::fe";
   js "208.67.222.222"; js "208.67.220.220"].

(** [Some] is the error thrown. *)
Definition refuseIfPublicResolver (server : jsstr) : option DnsError :=
  let bare := dropRootDot (toLowerCase (ps_host (parseServer server))) in
  if bool_decide (bare ∈ PUBLIC_RESOLVERS) then
    Some (DnsPublicResolverRefusedError (js "refusing to query public resolver " ++ bare ++
      js ": DNSBL zones (Spamhaus and similar) refuse queries from public resolvers"))
  else if (isIP bare =? 0) && includesChar DOT bare then
    Some (DnsPublicResolverRefusedError (js "refusing resolver hostname " ++ bare ++
      js ": configure our own resolver by IP address or compose service name (e.g. unbound:53)"))
  else None.

End trust.

(** ** transport.ts *)

Definition serverText (host : jsstr) (port : Z) : jsstr := host ++ js ":" ++ dec port.

Inductive UdpEvent := UdpMessage (msg : bytes) | UdpTimer | UdpError (message : jsstr) | UdpSendError (message : jsstr).

Fixpoint sendUdp (host : jsstr) (port : Z) (expectedId : Z) (timeoutMs : Z) (events : list UdpEvent) : option (DnsError + bytes) :=
  match events with
  | [] => None
  | UdpTimer :: _ => Some (inl (DnsTimeoutError (js "UDP query to " ++ serverText host port ++ js " timed out after " ++ dec timeoutMs ++ js "ms")))
  | UdpError m :: _ | UdpSendError m :: _ => Some (inl (DnsOther m))
  | UdpMessage msg :: events =>
      if (length msg <? 2)%nat then sendUdp host port expectedId timeoutMs events
      else if negb (readUInt16BE msg 0 =? expectedId) then sendUdp host port expectedId timeoutMs events
      else Some (inr msg)
  end.

Inductive TcpEvent := TcpData (chunk : bytes) | TcpTimeout | TcpError (message : jsstr) | TcpClose.

(** What the connection callback writes. *)
Definition tcpRequest (packet : bytes) : option bytes := l ← writeUInt16BE (Z.of_nat (length packet)); Some (l ++ packet).

Fixpoint sendTcp (host : jsstr) (port : Z) (timeoutMs : Z) (buffered : bytes) (expectedLength : option nat) (events : list TcpEvent)
  : option (DnsError + bytes) :=
  match events with
  | [] => None
  | TcpTimeout :: _ => Some (inl (DnsTimeoutError (js "TCP query to " ++ serverText host port ++ js " timed out after " ++ dec timeoutMs ++ js "ms")))
  | TcpError m :: _ => Some (inl (DnsOther m))
  | TcpClose :: _ => Some (inl (DnsProtocolError (js "TCP connection closed before the full response arrived")))
  | TcpData chunk :: events =>
      let buffered := buffered ++ chunk in
      let '(buffered, expectedLength) :=
        match expectedLength with
        | None => if (2 <=? length buffered)%nat then (drop 2 buffered, Some (Z.to_nat (readUInt16BE buffered 0))) else (buffered, None)
        | Some _ => (buffered, expectedLength)
        end in
      match expectedLength with
      | Some n => if (n <=? length buffered)%nat then Some (inr (take n buffered)) else sendTcp host port timeoutMs buffered expectedLength events
      | None => sendTcp host port timeoutMs buffered expectedLength events
      end
  end.

(** ** resolver.ts *)

Record ResolverResult := mkResult { r_rcode : Z; r_ad : bool; r_answers : list DnsAnswer; r_authority : list DnsAnswer }.

(** One try: the id drawn for it and what the two sockets do. *)
Record Attempt := mkAttempt { at_id : Z; at_udp : list UdpEvent; at_tcp : list TcpEvent }.

Record ResolverOptions := mkResolverOptions { ro_server : option jsstr; ro_timeoutMs : option Z; ro_tries : option nat }.

Definition DEFAULT_SERVER : jsstr := js "127.0.0.1:53".
Definition DEFAULT_TIMEOUT_MS : Z := 2000.
Definition DEFAULT_TRIES : nat := 2.

Section resolver.
Context `{R : Runtime} `{N : NetRuntime}.

Definition responseMatchesQuery (message : DnsMessage) (expectedId : Z) (name : jsstr) (type : Z) : bool :=
  if negb (m_id message =? expectedId) then false
  else if negb (m_qr message) then false
  else
    match m_questions message with
    | [] => false
    | question :: _ => bool_decide (normalizeName (q_name question) = normalizeName name) && (q_type question =? type)
    end.

(** The reply of one transport, checked. *)
Definition checkedReply (transport : jsstr) (raw : bytes) (id : Z) (name : jsstr) (type : Z) : DnsError + DnsMessage :=
  match decodeMessage raw with
  | inl error => inl (DnsProtocolError (js "malformed " ++ transport ++ js " response: " ++ error))
  | inr message =>
      if negb (responseMatchesQuery message id name type)
      then inl (DnsProtocolError (transport ++ js " response id/question did not match the query"))
      else inr message
  end.

(** The [try] of one attempt; [None] while a promise is pending. *)
Definition attemptOnce (host : jsstr) (port timeoutMs : Z) (a : Attempt) (name : jsstr) (type : Z) : option (DnsError + DnsMessage) :=
  match sendUdp host port (at_id a) timeoutMs (at_udp a) with
  | None => None
  | Some (inl e) => Some (inl e)
  | Some (inr udpRaw) =>
      match checkedReply (js "UDP") udpRaw (at_id a) name type with
      | inl e => Some (inl e)
      | inr message =>
          if m_tc message then
            match sendTcp host port timeoutMs [] None (at_tcp a) with
            | None => None
            | Some (inl e) => Some (inl e)
            | Some (inr tcpRaw) => Some (checkedReply (js "TCP") tcpRaw (at_id a) name type)
            end
          else Some (inr message)
      end
  end.

(** The loop over the tries. A name that cannot be encoded throws out of the loop. *)
Fixpoint query_loop (host : jsstr) (port timeoutMs : Z) (trustAd : bool) (attempts : list Attempt) (name : jsstr) (type : Z) (exhausted : DnsError)
  : option (DnsError + ResolverResult) :=
  match attempts with
  | [] => Some (inl exhausted)
  | a :: attempts =>
      match encodeQuery (at_id a) name type noOptions with
      | None => Some (inl (DnsOther (js "RangeError")))
      | Some _ =>
          match attemptOnce host port timeoutMs a name type with
          | None => None
          | Some (inl e) => query_loop host port timeoutMs trustAd attempts name type e
          | Some (inr message) =>
              if m_rcode message =? RCode.SERVFAIL then Some (inl (DnsServfailError name type))
              else Some (inr (mkResult (m_rcode message) (trustAd && m_ad message) (m_answers message) (m_authority message)))
          end
      end
  end.

(** [createResolver(opts).query(name, type)]; [world] gives what happens in each try. *)
Definition query (opts : ResolverOptions) (world : nat -> Attempt) (name : jsstr) (type : Z) : option (DnsError + ResolverResult) :=
  let server := parseServer (default DEFAULT_SERVER (ro_server opts)) in
  let tries := default DEFAULT_TRIES (ro_tries opts) in
  query_loop (ps_host server) (ps_port server) (default DEFAULT_TIMEOUT_MS (ro_timeoutMs opts)) (isTrustedResolverAddress (ps_host server))
    (world <$> seq 0 tries) name type
    (DnsProtocolError (js "DNS query for " ++ name ++ js " failed after " ++ dec (Z.of_nat tries) ++ js " tries")).

End resolver.

(** [group.padStart(4, '0')]. *)
Definition padStart4 (group : jsstr) : jsstr := replicate (4 - length group) 48 ++ group.

Definition expandIPv6 (ip : jsstr) : jsstr :=
  let pieces := splitDouble 58 ip in
  let groups i := match pieces !! i with Some (c :: s) => splitOn 58 (c :: s) | _ => [] end in
  if (1 <? length pieces)%nat then
    let head := groups 0%nat in
    let tail := groups 1%nat in
    joinWith [58] (head ++ replicate (8 - length head - length tail) (js "0") ++ tail)
  else ip.

(** [None] is the [RangeError]. *)
Definition reverseDnsName (ip : jsstr) : option jsstr :=
  if includesChar 58 ip then
    let nibbles := rev (concat (padStart4 <$> splitOn 58 (expandIPv6 ip))) in
    Some (joinWith [DOT] ((fun c => [c]) <$> nibbles) ++ js ".ip6.arpa.")
  else
    let octets := splitOn DOT ip in
    if negb (length octets =? 4)%nat then None else Some (joinWith [DOT] (rev octets) ++ js ".in-addr.arpa.").
