(* ===== verification/DnsResolverProofs.v ===== *)
(** * DnsResolverProofs: which replies the resolver accepts, and that an honest one is delivered *)
From S2P Require Import Prelude JsString JsStringFacts ProxyProtocol Utf8 DnsName DnsWire DnsWireProofs DnsResolver.

(** ** TCP framing *)

(** The message at the start of a TCP stream, by its length prefix. *)
Definition tcp_message (stream : bytes) : option bytes :=
  if (2 <=? length stream)%nat then
    let n := Z.to_nat (readUInt16BE stream 0) in
    if (n <=? length stream - 2)%nat then Some (take n (drop 2 stream)) else None
  else None.

Lemma u16_prefix s t : (2 <= length s)%nat -> readUInt16BE (s ++ t) 0 = readUInt16BE s 0.
Proof. by destruct s as [|a [|b s]]; cbn; [lia..|]. Qed.

Lemma tcp_message_app s t m : tcp_message s = Some m -> tcp_message (s ++ t) = Some m.
Proof.
  unfold tcp_message. destruct (2 <=? length s)%nat eqn:E2; [|done]. nat_tests. rewrite length_app, u16_prefix by done.
  destruct (_ <=? length s - 2)%nat eqn:En; [|done]. nat_tests. replace (2 <=? length s + length t)%nat with true by (symmetry; apply Nat.leb_le; lia).
  replace (_ <=? length s + length t - 2)%nat with true by (symmetry; apply Nat.leb_le; lia).
  intros [= <-]. rewrite drop_app_le by done. f_equal. apply take_app_le. rewrite length_drop. lia.
Qed.

Section transport.
Context (host : jsstr) (port timeoutMs : Z).

(** The state of the socket after the octets [seen], no message being complete. *)
Definition tcp_state (seen : bytes) : bytes * option nat :=
  if (2 <=? length seen)%nat then (drop 2 seen, Some (Z.to_nat (readUInt16BE seen 0))) else (seen, None).

Lemma tcp_step seen chunk events : tcp_message seen = None ->
  sendTcp host port timeoutMs (fst (tcp_state seen)) (snd (tcp_state seen)) (TcpData chunk :: events) =
  match tcp_message (seen ++ chunk) with
  | Some m => Some (inr m)
  | None => sendTcp host port timeoutMs (fst (tcp_state (seen ++ chunk))) (snd (tcp_state (seen ++ chunk))) events
  end.
Proof.
  intros _. unfold tcp_state, tcp_message. cbn [sendTcp]. rewrite !length_app. destruct (2 <=? length seen)%nat eqn:E2; nat_tests; cbn [fst snd].
  - rewrite u16_prefix, drop_app_le, length_app, length_drop by done. set (n := Z.to_nat (readUInt16BE seen 0)).
    replace (2 <=? length seen + length chunk)%nat with true by (symmetry; apply Nat.leb_le; lia). cbn [fst snd].
    replace (length seen - 2 + length chunk)%nat with (length seen + length chunk - 2)%nat by lia. by destruct (n <=? _)%nat.
  - destruct (2 <=? length seen + length chunk)%nat eqn:E; nat_tests; cbn [fst snd]; [|done].
    rewrite length_drop, length_app. by destruct (_ <=? _)%nat.
Qed.

(** However the stream is cut, the message is the one its length prefix announces. *)
Lemma tcp_chunks chunks : forall seen, tcp_message seen = None ->
  sendTcp host port timeoutMs (fst (tcp_state seen)) (snd (tcp_state seen)) (TcpData <$> chunks) = inr <$> tcp_message (seen ++ concat chunks).
Proof.
  induction chunks as [|chunk chunks IH]; intros seen Hs; [cbn; by rewrite app_nil_r, Hs|]. rewrite fmap_cons, tcp_step by done.
  cbn [concat]. rewrite app_assoc. destruct (tcp_message (seen ++ chunk)) as [m|] eqn:Em; [by rewrite (tcp_message_app _ _ _ Em)|]. by apply IH.
Qed.

Lemma udp_from_events id events raw : sendUdp host port id timeoutMs events = Some (inr raw) -> UdpMessage raw ∈ events.
Proof.
  induction events as [|[msg| | |] events IH]; cbn [sendUdp]; try done. destruct (_ <? _)%nat; [set_solver|]. destruct (negb _); [set_solver|].
  intros [= ->]. set_solver.
Qed.

(** A datagram that cannot be the reply: too short for an id, or of another id. *)
Definition stray (id : Z) (ev : UdpEvent) : Prop :=
  match ev with UdpMessage msg => (length msg < 2)%nat \/ readUInt16BE msg 0 <> id | _ => False end.

Lemma udp_strays id strays raw events : Forall (stray id) strays -> (2 <= length raw)%nat -> readUInt16BE raw 0 = id ->
  sendUdp host port id timeoutMs (strays ++ UdpMessage raw :: events) = Some (inr raw).
Proof.
  intros Hs Hl Hid. induction Hs as [|[msg| | |] strays Hst _ IH]; cbn [app sendUdp]; [|destruct Hst as [Hst|Hst]|done..].
  - replace (length raw <? 2)%nat with false by (symmetry; apply Nat.ltb_ge; lia). by rewrite Hid, Z.eqb_refl.
  - by replace (length msg <? 2)%nat with true by (symmetry; apply Nat.ltb_lt; lia).
  - destruct (length msg <? 2)%nat; [done|]. by replace (readUInt16BE msg 0 =? id) with false by (symmetry; by apply Z.eqb_neq).
Qed.

Lemma udp_settles id events : (exists ev, ev ∈ events /\ match ev with UdpMessage _ => False | _ => True end) ->
  sendUdp host port id timeoutMs events <> None.
Proof.
  intros (ev & Hin & Hev). induction events as [|[msg| | |] events IH]; cbn [sendUdp]; try done; [set_solver|].
  apply elem_of_cons in Hin as [->|Hin]; [done|]. destruct (_ <? _)%nat; [auto|]. destruct (negb _); [auto|done].
Qed.

Lemma tcp_settles events : forall buffered expected, (exists ev, ev ∈ events /\ match ev with TcpData _ => False | _ => True end) ->
  sendTcp host port timeoutMs buffered expected events <> None.
Proof.
  induction events as [|[chunk| | |] events IH]; intros buffered expected (ev & Hin & Hev); cbn [sendTcp]; try done; [set_solver|].
  apply elem_of_cons in Hin as [->|Hin]; [done|]. repeat case_match; try done; apply IH; eauto.
Qed.

End transport.

(** ** The resolver *)

Section resolver.
Context `{R : Runtime} `{N : NetRuntime}.

(** What a reply must be to be used for this query. *)
Definition answers_query (message : DnsMessage) (id : Z) (name : jsstr) (type : Z) : Prop :=
  m_id message = id /\ m_qr message = true /\
  exists q rest, m_questions message = q :: rest /\ normalizeName (q_name q) = normalizeName name /\ q_type q = type.

Lemma matches_spec message id name type : responseMatchesQuery message id name type = true <-> answers_query message id name type.
Proof.
  unfold responseMatchesQuery, answers_query. destruct (Z.eqb_spec (m_id message) id) as [->|]; cbn; [|naive_solver].
  destruct (m_qr message); cbn; [|naive_solver]. destruct (m_questions message) as [|q rest]; [naive_solver|].
  rewrite andb_true_iff, bool_decide_eq_true, Z.eqb_eq. naive_solver.
Qed.

Lemma checked_spec transport raw id name type message : checkedReply transport raw id name type = inr message <->
  decodeMessage raw = inr message /\ answers_query message id name type.
Proof.
  unfold checkedReply. destruct (decodeMessage raw) as [e|m]; [by split; [|intros [? _]]|]. rewrite <- matches_spec.
  destruct (responseMatchesQuery m id name type) eqn:E; cbn [negb]; split.
  - by intros [= <-].
  - by intros [[= <-] _].
  - done.
  - intros [[= <-] H]. congruence.
Qed.

(** The reply an attempt used: a datagram it received, or the message on its TCP connection. *)
Definition received (host : jsstr) (port timeoutMs : Z) (a : Attempt) (raw : bytes) : Prop :=
  UdpMessage raw ∈ at_udp a \/ sendTcp host port timeoutMs [] None (at_tcp a) = Some (inr raw).

Lemma attempt_reply host port timeoutMs a name type message : attemptOnce host port timeoutMs a name type = Some (inr message) ->
  exists raw, received host port timeoutMs a raw /\ decodeMessage raw = inr message /\ answers_query message (at_id a) name type.
Proof.
  unfold attemptOnce, received. destruct (sendUdp _ _ _ _ _) as [[e|raw]|] eqn:Eu; [done| |done]. apply udp_from_events in Eu.
  destruct (checkedReply (js "UDP") raw _ _ _) as [e|m] eqn:Ec; [done|]. apply checked_spec in Ec as [Hd Hm]. destruct (m_tc m).
  - destruct (sendTcp _ _ _ _ _ _) as [[e|traw]|] eqn:Et; [done| |done]. intros [= Hc]. apply checked_spec in Hc as [Hd' Hm']. exists traw. eauto.
  - intros [= <-]. exists raw. eauto.
Qed.

Lemma loop_reply host port timeoutMs trust attempts name type : forall exhausted r,
  query_loop host port timeoutMs trust attempts name type exhausted = Some (inr r) ->
  exists a raw m, a ∈ attempts /\ received host port timeoutMs a raw /\ decodeMessage raw = inr m /\ answers_query m (at_id a) name type /\
    m_rcode m <> RCode.SERVFAIL /\ r = mkResult (m_rcode m) (trust && m_ad m) (m_answers m) (m_authority m).
Proof.
  induction attempts as [|a attempts IH]; intros exhausted r; cbn [query_loop]; [done|].
  destruct (encodeQuery _ _ _ _); [|done]. destruct (attemptOnce host port timeoutMs a name type) as [[e|m]|] eqn:Ea; [| |done].
  - intros (a' & raw & m & Hin & H)%IH. exists a', raw, m. split; [set_solver|done].
  - apply attempt_reply in Ea as (raw & Hr & Hd & Hm). destruct (Z.eqb_spec (m_rcode m) RCode.SERVFAIL); [done|]. intros [= <-].
    exists a, raw, m. split_and!; [set_solver|done..].
Qed.


(** ** Names in comparisons *)

Lemma lower_ascii s : ascii_ok s -> toLowerCase s = lower_char <$> s.
Proof.
  intros H. unfold toLowerCase. replace (is_ascii s) with true; [done|]. symmetry. apply forallb_Forall.
  eapply Forall_impl; [exact H|]. cbn. lia.
Qed.

Lemma endsWith_dot s : endsWith [DOT] s = true <-> exists t, s = t ++ [DOT].
Proof.
  unfold endsWith. rewrite startsWith_spec. cbn. split; intros [t Ht].
  - exists (rev t). by rewrite <- (rev_involutive s), Ht.
  - exists (rev t). by rewrite Ht, rev_app_distr.
Qed.

Lemma lower_dot c : lower_char c = DOT <-> c = DOT.
Proof. unfold lower_char, isAlphaUpper. case_match; zlia. Qed.

Lemma lower_endsWith s : endsWith [DOT] (lower_char <$> s) = endsWith [DOT] s.
Proof.
  apply eq_iff_eq_true. rewrite !endsWith_dot. split; intros [t Ht].
  - apply fmap_app_inv in Ht as (s1 & s2 & -> & Hs & ->). exists s1. f_equal.
    destruct s2 as [|c [|]]; try done. injection Hs as Hs. by apply symmetry, lower_dot in Hs as ->.
  - subst. exists (lower_char <$> t). by rewrite fmap_app.
Qed.

Lemma lower_dropRoot s : dropRootDot (lower_char <$> s) = lower_char <$> dropRootDot s.
Proof. unfold dropRootDot. rewrite lower_endsWith, length_fmap. destruct (endsWith _ _); [|done]. by rewrite fmap_take. Qed.

Lemma lower_trimRoot s : trimRoot (lower_char <$> s) = lower_char <$> trimRoot s.
Proof.
  unfold trimRoot. rewrite lower_dropRoot. destruct (decide (s = [DOT])) as [->|Hne]; [done|]. rewrite (bool_decide_false (s = [DOT])) by done.
  rewrite bool_decide_false; [done|]. intros Hs. apply Hne. destruct s as [|c [|]]; try done. injection Hs as Hs. by apply lower_dot in Hs as ->.
Qed.

(** The labels of an encodable name are not empty, so its trimmed form has no final dot. *)
Lemma labels_nonempty name labels : forall out, encodeLabels name labels = inr out -> Forall (fun l => l <> []) labels.
Proof.
  induction labels as [|l labels IH]; cbn [encodeLabels]; intros out; [by constructor|].
  destruct (length (utf8_encode l) =? 0)%nat eqn:E; [done|]. destruct (_ <? _)%nat; [done|]. destruct (encodeLabels name labels) as [|rest]; [done|].
  intros _. constructor; [by intros ->|]. by eapply IH.
Qed.

Lemma trimmed_stays name b : encoded name = Some b -> trimRoot name <> [] -> endsWith [DOT] (trimRoot name) = false.
Proof.
  intros He Hne. destruct (endsWith [DOT] (trimRoot name)) eqn:E; [|done]. exfalso. apply endsWith_dot in E as [t Ht].
  unfold encoded, encodeName in He. destruct (encodeLabels name (nameLabels name)) as [|out] eqn:El; [done|]. apply labels_nonempty in El.
  unfold nameLabels in El. rewrite Ht in El. destruct (t ++ [DOT]) as [|c u] eqn:Eu; [by destruct t|]. rewrite <- Eu in El. clear Eu.
  assert (splitOn DOT (t ++ [DOT]) = splitOn DOT t ++ [[]]) as Hs; [|rewrite Hs, Forall_app, Forall_singleton in El; by destruct El].
  clear. induction t as [|c t IH]; [done|]. cbn [app splitOn]. destruct (c =? DOT); [by rewrite IH|]. rewrite IH.
  pose proof (splitOn_ne DOT t). by destruct (splitOn DOT t).
Qed.

Lemma ascii_well_formed s : ascii_ok s -> well_formed s = true.
Proof.
  induction 1 as [|c s Hc _ IH]; [done|]. cbn [well_formed]. unfold is_high, is_low. replace (_ && _) with false by lia. rewrite IH. lia.
Qed.

Lemma read_name_same name b : ascii_ok name -> encoded name = Some b -> normalizeName (read_name name) = normalizeName name.
Proof.
  intros Ha He. assert (ascii_ok (trimRoot name)) as Hat.
  { unfold trimRoot, dropRootDot. repeat case_match; [by constructor|by apply Forall_take|done]. }
  unfold normalizeName at 2. rewrite (lower_ascii name Ha), lower_trimRoot. unfold read_name, nameLabels.
  destruct (trimRoot name) as [|c t] eqn:Et; [done|]. rewrite <- Et in *.
  assert (nameText (splitOn DOT (trimRoot name)) = trimRoot name) as ->.
  { unfold nameText. pose proof (splitOn_ne DOT (trimRoot name)). destruct (splitOn DOT (trimRoot name)) eqn:Es; [done|]. rewrite <- Es. apply joinWith_splitOn. }
  unfold normalizeName. rewrite (lower_ascii _ Hat), lower_trimRoot. f_equal. assert (endsWith [DOT] (trimRoot name) = false) as Hd
    by (eapply trimmed_stays; [exact He|by rewrite Et]). unfold trimRoot at 1. rewrite bool_decide_false; [|by intros H; rewrite H in Hd].
  unfold dropRootDot. by rewrite Hd.
Qed.

(** ** An honest reply *)

Lemma query_encodes id flags name type an ns ar raw : message_bytes id flags [mkQuestion name type DNS_CLASS_IN] an ns ar = Some raw ->
  (exists packet, encodeQuery id name type noOptions = Some packet) /\ (exists b, encoded name = Some b) /\
  (2 <= length raw)%nat /\ readUInt16BE raw 0 = id.
Proof.
  unfold message_bytes. destruct (writeUInt16BE id) as [i|] eqn:Ei; [|done]. cbn [mbind option_bind].
  destruct (writeUInt16BE flags) as [f|]; [|done]. cbn [mbind option_bind]. destruct (counted question_bytes _) as [[qc qs]|] eqn:Eq; [|done].
  destruct (counted record_bytes an) as [[ac a]|]; [|done]. cbn [mbind option_bind]. destruct (counted record_bytes ns) as [[nc n]|]; [|done].
  cbn [mbind option_bind]. destruct (counted record_bytes ar) as [[rc r]|]; [|done]. intros [= <-].
  apply counted_spec in Eq as (_ & bs & Eq & _). cbn [mapM] in Eq. destruct (question_bytes _) as [qb|] eqn:Eb; [|done].
  unfold question_bytes in Eb. cbn [q_name q_type q_class] in Eb. destruct (encoded name) as [b|] eqn:Ee; [|done]. cbn [mbind option_bind] in Eb.
  destruct (writeUInt16BE type) as [t|] eqn:Et; [|done]. split; [|split; [by exists b|]].
  - unfold encodeQuery, noOptions. cbn [recursionDesired requestAd dnssecOk udpPayloadSize default]. rewrite Ei. cbn [mbind option_bind].
    change (writeUInt16BE (queryFlags true true)) with (Some [1; 32]). cbn [mbind option_bind]. fold (encoded name). rewrite Ee. cbn [mbind option_bind].
    rewrite Et. cbn. by eexists.
  - apply writeUInt16BE_spec in Ei as [Hid ->]. cbn. split; [lia|]. unfold readUInt16BE, readUInt8. cbn. dlia.
Qed.

Lemma honest_reply id flags name type an ns ar raw : ascii_ok name -> Forall record_ok (an ++ ns ++ ar) ->
  message_bytes id flags [mkQuestion name type DNS_CLASS_IN] an ns ar = Some raw -> Z.testbit flags 15 = true ->
  checkedReply (js "UDP") raw id name type = inr (message_value id flags [mkQuestion name type DNS_CLASS_IN] an ns ar).
Proof.
  intros Ha Hr Hm Hq. apply checked_spec. split.
  - apply message_written; [|done..]. constructor; [|done]. by apply ascii_well_formed.
  - unfold answers_query. cbn. split; [done|]. split; [done|]. eexists _, _. split; [done|]. cbn.
    destruct (query_encodes _ _ _ _ _ _ _ _ Hm) as (_ & [b Hb] & _). split; [|done]. by eapply read_name_same.
Qed.

Lemma attempt_settles host port timeoutMs a name type :
  (exists ev, ev ∈ at_udp a /\ match ev with UdpMessage _ => False | _ => True end) ->
  (exists ev, ev ∈ at_tcp a /\ match ev with TcpData _ => False | _ => True end) ->
  attemptOnce host port timeoutMs a name type <> None.
Proof.
  intros Hu Ht. unfold attemptOnce. pose proof (udp_settles host port timeoutMs (at_id a) _ Hu). pose proof (tcp_settles host port timeoutMs _ [] None Ht).
  repeat case_match; done.
Qed.

Lemma loop_settles host port timeoutMs trust attempts name type :
  Forall (fun a => (exists ev, ev ∈ at_udp a /\ match ev with UdpMessage _ => False | _ => True end) /\
                   (exists ev, ev ∈ at_tcp a /\ match ev with TcpData _ => False | _ => True end)) attempts ->
  forall exhausted, query_loop host port timeoutMs trust attempts name type exhausted <> None.
Proof.
  induction 1 as [|a attempts [Hu Ht] _ IH]; intros exhausted; cbn [query_loop]; [done|]. destruct (encodeQuery _ _ _ _); [|done].
  pose proof (attempt_settles host port timeoutMs a name type Hu Ht). destruct (attemptOnce _ _ _ _ _ _) as [[e|m]|]; [apply IH| |done].
  by destruct (_ =? _).
Qed.

(** a query always settles, since every socket has a timer; and when the server answers the first
    try, that answer is returned, whatever stray or forged datagrams of other ids arrive before it. *)
Theorem resolver_live (opts : ResolverOptions) (world : nat -> Attempt) (name : jsstr) (type : Z) :
  ((forall i, (exists ev, ev ∈ at_udp (world i) /\ match ev with UdpMessage _ => False | _ => True end) /\
              (exists ev, ev ∈ at_tcp (world i) /\ match ev with TcpData _ => False | _ => True end)) ->
   query opts world name type <> None) /\
  (forall flags an ns ar raw strays events,
     ascii_ok name -> (0 < default DEFAULT_TRIES (ro_tries opts))%nat -> Forall record_ok (an ++ ns ++ ar) ->
     message_bytes (at_id (world 0%nat)) flags [mkQuestion name type DNS_CLASS_IN] an ns ar = Some raw ->
     Z.testbit flags 15 = true -> Z.testbit flags 9 = false ->
     16 * rcode_high (an ++ ns ++ ar) 0 + flags mod 16 <> RCode.SERVFAIL ->
     at_udp (world 0%nat) = strays ++ UdpMessage raw :: events -> Forall (stray (at_id (world 0%nat))) strays ->
     query opts world name type =
       Some (inr (mkResult (16 * rcode_high (an ++ ns ++ ar) 0 + flags mod 16)
         (isTrustedResolverAddress (ps_host (parseServer (default DEFAULT_SERVER (ro_server opts)))) && Z.testbit flags 5)
         (answers_of an) (answers_of ns)))).
Proof.
  unfold query. cbv zeta. split.
  - intros Hev. apply loop_settles, Forall_fmap, Forall_forall. intros i _. apply Hev.
  - intros flags an ns ar raw strays events Ha Htries Hr Hm Hqr Htc Hrc Hudp Hs. destruct (default DEFAULT_TRIES (ro_tries opts)) as [|tries] eqn:Et; [lia|].
    cbn [seq fmap list_fmap query_loop]. destruct (query_encodes _ _ _ _ _ _ _ _ Hm) as ([packet ->] & _ & Hl & Hid).
    unfold attemptOnce. rewrite Hudp, udp_strays by done. rewrite (honest_reply _ _ _ _ _ _ _ _ Ha Hr Hm Hqr).
    cbn [message_value m_tc m_rcode m_ad m_answers m_authority]. rewrite Htc. cbv beta iota.
    replace (_ =? RCode.SERVFAIL) with false by (symmetry; by apply Z.eqb_neq). done.
Qed.

End resolver.

(** A resolver at 127.0.0.1 whose reply comes after a datagram with another id. *)
#[local] Instance demo_net : NetRuntime := {| text_integer _ := None; isIP _ := 0 |}.

Definition demo_text : Runtime := {| uni_upper s := s; uni_lower s := s; big_string _ := []; isIPv6 _ := false |}.

Definition demo_reply : bytes :=
  default [] (message_bytes 7 0x81a0 [mkQuestion (js "b.example.") RRType.A DNS_CLASS_IN] [mkSpec (js "B.example") 1 60 (SpA [192; 0; 2; 1])] [] []).

Definition demo_world (i : nat) : Attempt := mkAttempt 7 ([UdpMessage [0; 8; 1]; UdpMessage demo_reply; UdpTimer]) [TcpClose].

Definition demo_options : ResolverOptions := mkResolverOptions None None None.

Lemma resolver_live_witness :
  let R := demo_text in
  query demo_options demo_world (js "b.example.") RRType.A <> None /\
  query demo_options demo_world (js "b.example.") RRType.A =
    Some (inr (mkResult 0 true [mkAnswer (js "B.example") 60 RRType.A 1 (KindA (js "192.0.2.1"))] [])).
Proof.
  intros R. destruct (resolver_live (R := R) demo_options demo_world (js "b.example.") RRType.A) as [H1 H2]. split.
  - apply H1. intros i. split; [exists UdpTimer|exists TcpClose]; (split; [|exact I]); repeat constructor.
  - etransitivity; [apply (H2 0x81a0 [mkSpec (js "B.example") 1 60 (SpA [192; 0; 2; 1])] [] [] demo_reply [UdpMessage [0; 8; 1]] [UdpTimer])|vm_compute; reflexivity].
    + repeat constructor; vm_compute; congruence.
    + vm_compute. lia.
    + repeat constructor.
    + vm_compute. reflexivity.
    + reflexivity.
    + reflexivity.
    + vm_compute. discriminate.
    + reflexivity.
    + constructor; [right; vm_compute; discriminate|constructor].
Defined.

