(* ===== verification/DnsMx.v ===== *)
(** * DnsMx: where mail for a domain goes (packages/dns/src/mx.ts)

    The resolver is a record of its operations, each giving a result or the error it throws. The random
    source is the sequence of its draws: [pick k i] is [Math.floor(rng() * (i + 1))] for the [k]-th call.
    The record of host verdicts is an association list; the names Object.prototype has are not domains. *)
From stdpp Require Import relations.
From Stdlib Require Import Sorting.Sorted.
From S2P Require Import Prelude JsString JsStringFacts Utf8 DnsName DnsWire DnsResolver.

Record MxTarget := mkTarget { mt_host : jsstr; mt_preference : Z; mt_addresses : list jsstr }.

Record MxDnssec := mkDnssec { md_mx : bool; md_hosts : list (jsstr * bool) }.

Inductive MxResolution :=
| MxFound (targets : list MxTarget) (dnssec : MxDnssec)
| MxImplicit (targets : list MxTarget) (dnssec : MxDnssec)
| MxNull
| MxPermanent (reason : jsstr).

(** The operations of a resolver that MX resolution calls. *)
Record Resolver := mkResolver {
  rs_mx : jsstr -> DnsError + ResolverResult;
  rs_a : jsstr -> DnsError + ResolverResult;
  rs_aaaa : jsstr -> DnsError + ResolverResult
}.

#[export] Instance sum_bind {E} : MBind (sum E) := fun A B f o => match o with inl e => inl e | inr a => f a end.

(** The owner, preference and exchange of an MX answer. *)
Record MxAnswer := mkMx { mx_name : jsstr; mx_preference : Z; mx_exchange : jsstr }.

Definition mxAnswer (rr : DnsAnswer) : option MxAnswer :=
  match an_data rr with KindMX preference exchange => Some (mkMx (an_name rr) preference exchange) | _ => None end.

Definition cnameAnswer (rr : DnsAnswer) : option (jsstr * jsstr) :=
  match an_data rr with KindCNAME target => Some (an_name rr, target) | _ => None end.

(** [items[i]] and [items[j]] change places. *)
Definition swap {A} (i j : nat) (items : list A) : list A :=
  match items !! i, items !! j with
  | Some a, Some b => <[j := a]> (<[i := b]> items)
  | _, _ => items
  end.

(** The loop from the last index down to 1; [k] counts the draws. *)
Fixpoint shuffle {A} (pick : nat -> nat -> nat) (k i : nat) (items : list A) : list A * nat :=
  match i with
  | O => (items, k)
  | S i' => shuffle pick (S k) i' (swap i (pick k i) items)
  end.

Definition shuffleInPlace {A} (pick : nat -> nat -> nat) (k : nat) (items : list A) : list A * nat := shuffle pick k (length items - 1) items.

(** A stable sort by preference. *)
Fixpoint insertByPreference (r : MxAnswer) (sorted : list MxAnswer) : list MxAnswer :=
  match sorted with
  | [] => [r]
  | s :: rest => if mx_preference s <=? mx_preference r then s :: insertByPreference r rest else r :: sorted
  end.

Definition sortByPreference (records : list MxAnswer) : list MxAnswer := fold_left (fun sorted r => insertByPreference r sorted) records [].

Fixpoint runLength (preference : Z) (rest : list MxAnswer) : nat :=
  match rest with r :: rest => if mx_preference r =? preference then S (runLength preference rest) else 0 | [] => 0 end.

(** Each group of equals is shuffled; every round takes at least one record. *)
Fixpoint shuffleGroups (fuel : nat) (pick : nat -> nat -> nat) (k : nat) (sorted : list MxAnswer) : list MxAnswer :=
  match fuel, sorted with
  | S fuel, r :: rest =>
      let j := S (runLength (mx_preference r) rest) in
      let '(group, k) := shuffleInPlace pick k (take j sorted) in
      group ++ shuffleGroups fuel pick k (drop j sorted)
  | _, _ => []
  end.

Definition orderByPreference (pick : nat -> nat -> nat) (records : list MxAnswer) : list MxAnswer :=
  shuffleGroups (length records) pick 0 (sortByPreference records).

Definition addressesA (answers : list DnsAnswer) : list jsstr :=
  omap (fun rr => match an_data rr with KindA address => Some address | _ => None end) answers.

Definition addressesAAAA (answers : list DnsAnswer) : list jsstr :=
  omap (fun rr => match an_data rr with KindAAAA address => Some address | _ => None end) answers.

Definition resolveAddresses (resolver : Resolver) (name : jsstr) (ipv4Only : bool) : DnsError + (list jsstr * bool) :=
  aResult ← rs_a resolver name;
  if ipv4Only then inr (addressesA (r_answers aResult), r_ad aResult)
  else
    aaaaResult ← rs_aaaa resolver name;
    inr (addressesA (r_answers aResult) ++ addressesAAAA (r_answers aaaaResult), r_ad aResult && r_ad aaaaResult).

Section mx.
Context `{R : Runtime}.

(** [cnameByOwner]: the last of several targets counts. *)
Fixpoint cnameOf (cnames : list (jsstr * jsstr)) (owner : jsstr) : option jsstr :=
  match cnames with
  | [] => None
  | (name, target) :: rest =>
      match cnameOf rest owner with
      | Some t => Some t
      | None => if bool_decide (normalizeName name = owner) then Some (normalizeName target) else None
      end
  end.

(** The walk along the chain; a name is not left twice. *)
Fixpoint followCnames (fuel : nat) (cnames : list (jsstr * jsstr)) (visited : list jsstr) (name : jsstr) : jsstr :=
  match fuel with
  | O => name
  | S fuel =>
      match cnameOf cnames name with
      | Some next => if bool_decide (name ∈ visited) then name else followCnames fuel cnames (name :: visited) next
      | None => name
      end
  end.

Definition effectiveName (answers : list DnsAnswer) (domain : jsstr) : jsstr :=
  let cnames := omap cnameAnswer answers in
  followCnames (S (length cnames)) cnames [] (normalizeName domain).

Definition mxRecordsAt (answers : list DnsAnswer) (name : jsstr) : list MxAnswer :=
  List.filter (fun r => bool_decide (normalizeName (mx_name r) = name)) (omap mxAnswer answers).

(** [hosts[host] ?? true], and [hosts[host] = value]. *)
Fixpoint hostGet (host : jsstr) (hosts : list (jsstr * bool)) : option bool :=
  match hosts with [] => None | (h, v) :: rest => if bool_decide (h = host) then Some v else hostGet host rest end.

Fixpoint hostSet (host : jsstr) (value : bool) (hosts : list (jsstr * bool)) : list (jsstr * bool) :=
  match hosts with
  | [] => [(host, value)]
  | (h, v) :: rest => if bool_decide (h = host) then (h, value) :: rest else (h, v) :: hostSet host value rest
  end.

Fixpoint resolveTargets (resolver : Resolver) (ipv4Only : bool) (ordered : list MxAnswer) (targets : list MxTarget) (hosts : list (jsstr * bool))
  : DnsError + (list MxTarget * list (jsstr * bool)) :=
  match ordered with
  | [] => inr (targets, hosts)
  | rr :: ordered =>
      '(addresses, secure) ← resolveAddresses resolver (mx_exchange rr) ipv4Only;
      resolveTargets resolver ipv4Only ordered (targets ++ [mkTarget (mx_exchange rr) (mx_preference rr) addresses])
        (hostSet (mx_exchange rr) (default true (hostGet (mx_exchange rr) hosts) && secure) hosts)
  end.

Definition isNullMx (records : list MxAnswer) : bool :=
  match records with [only] => (mx_preference only =? 0) && bool_decide (mx_exchange only = [DOT]) | _ => false end.

Definition resolveMxTargets (resolver : Resolver) (domain : jsstr) (ipv4Only : bool) (pick : nat -> nat -> nat) : DnsError + MxResolution :=
  result ← rs_mx resolver domain;
  if r_rcode result =? RCode.NXDOMAIN then inr (MxPermanent (js "nxdomain"))
  else if negb (r_rcode result =? RCode.NOERROR) then inr (MxPermanent (js "unexpected rcode " ++ dec (r_rcode result)))
  else
    let mxRecords := mxRecordsAt (r_answers result) (effectiveName (r_answers result) domain) in
    if isNullMx mxRecords then inr MxNull
    else
      match mxRecords with
      | _ :: _ =>
          '(targets, hosts) ← resolveTargets resolver ipv4Only (orderByPreference pick mxRecords) [] [];
          inr (MxFound targets (mkDnssec (r_ad result) hosts))
      | [] =>
          '(addresses, secure) ← resolveAddresses resolver domain ipv4Only;
          match addresses with
          | [] => inr (MxPermanent (js "no-mx-no-address"))
          | _ => inr (MxImplicit [mkTarget domain 0 addresses] (mkDnssec (r_ad result) [(domain, secure)]))
          end
      end.

End mx.

(** ** MX targets come in order, and a failure is permanent only when the DNS says so *)

(** ** Ordering *)

Definition before_or_tie (a b : MxAnswer) : Prop := mx_preference a <= mx_preference b.

Lemma swap_perm {A} i j (l : list A) : swap i j l ≡ₚ l.
Proof.
  unfold swap. destruct (l !! i) as [a|] eqn:Ei; [|done]. destruct (l !! j) as [b|] eqn:Ej; [|done].
  destruct (decide (i = j)) as [->|Hne]; [rewrite Ei in Ej; injection Ej as <-; by rewrite list_insert_insert_eq, list_insert_id|].
  apply Permutation_inj. rewrite !length_insert. split; [done|].
  exists (fun k => if decide (k = i) then j else if decide (k = j) then i else k). split; [intros k1 k2; repeat case_decide; congruence|].
  assert (i < length l)%nat by (by eapply lookup_lt_Some). assert (j < length l)%nat by (by eapply lookup_lt_Some).
  intros k. destruct (decide (k = i)) as [->|]; [rewrite list_lookup_insert_ne by done; rewrite list_lookup_insert_eq by done; by rewrite Ej|].
  destruct (decide (k = j)) as [->|]; [rewrite list_lookup_insert_eq by (by rewrite length_insert); by rewrite Ei|].
  by rewrite !list_lookup_insert_ne by done.
Qed.

Lemma shuffle_perm {A} pick i : forall k (l : list A), fst (shuffle pick k i l) ≡ₚ l.
Proof. induction i as [|i IH]; intros k l; cbn [shuffle]; [done|]. by rewrite IH, swap_perm. Qed.

Lemma insert_perm r l : insertByPreference r l ≡ₚ r :: l.
Proof. induction l as [|s l IH]; cbn [insertByPreference]; [done|]. case_match; [|done]. rewrite IH. constructor. Qed.

Lemma insert_sorted r l : StronglySorted before_or_tie l -> StronglySorted before_or_tie (insertByPreference r l).
Proof.
  unfold before_or_tie. induction 1 as [|s l Hl IH Hs]; cbn [insertByPreference]; [by repeat constructor|].
  destruct (Z.leb_spec (mx_preference s) (mx_preference r)).
  - constructor; [done|]. rewrite insert_perm. by constructor.
  - constructor; [by constructor|]. constructor; [lia|]. eapply Forall_impl; [exact Hs|]. cbn. lia.
Qed.

Lemma sort_spec records : forall acc, StronglySorted before_or_tie acc ->
  let s := fold_left (fun sorted r => insertByPreference r sorted) records acc in
  s ≡ₚ acc ++ records /\ StronglySorted before_or_tie s.
Proof.
  induction records as [|r records IH]; intros acc Ha; cbn [fold_left]; [by rewrite app_nil_r|].
  destruct (IH (insertByPreference r acc)) as [Hp Hs]; [by apply insert_sorted|]. split; [|done]. rewrite Hp, insert_perm.
  cbn. by rewrite Permutation_middle.
Qed.

Lemma run_spec p l : Forall (fun r => mx_preference r = p) (take (runLength p l) l).
Proof. induction l as [|r l IH]; cbn [runLength]; [constructor|]. destruct (Z.eqb_spec (mx_preference r) p); cbn; [by constructor|constructor]. Qed.

Lemma ties_sorted p l : Forall (fun r => mx_preference r = p) l -> StronglySorted before_or_tie l.
Proof.
  unfold before_or_tie. induction 1 as [|r l Hr Hl IH]; constructor; [done|]. eapply Forall_impl; [exact Hl|]. cbn. lia.
Qed.

Lemma sorted_app l1 l2 : StronglySorted before_or_tie l1 -> StronglySorted before_or_tie l2 ->
  Forall (fun a => Forall (before_or_tie a) l2) l1 -> StronglySorted before_or_tie (l1 ++ l2).
Proof.
  induction 1 as [|a l1 H1 IH Ha]; intros H2 H12; [done|]. inversion_clear H12. cbn. constructor; [auto|]. apply Forall_app. done.
Qed.

Lemma sorted_drop j l : StronglySorted before_or_tie l -> StronglySorted before_or_tie (drop j l).
Proof. revert l. induction j as [|j IH]; intros l; [done|]. destruct 1; [constructor|]. by apply IH. Qed.

Lemma groups_spec fuel : forall pick k l, (length l <= fuel)%nat -> StronglySorted before_or_tie l ->
  shuffleGroups fuel pick k l ≡ₚ l /\ StronglySorted before_or_tie (shuffleGroups fuel pick k l).
Proof.
  induction fuel as [|fuel IH]; intros pick k l Hf Hs; [destruct l; [done|cbn in Hf; lia]|]. destruct l as [|r rest]; [done|].
  cbn [shuffleGroups]. set (j := S (runLength (mx_preference r) rest)).
  destruct (shuffleInPlace pick k (take j (r :: rest))) as [group k'] eqn:Eg.
  assert (group ≡ₚ take j (r :: rest)) as Hg by (change group with (fst (group, k')); rewrite <- Eg; apply shuffle_perm).
  assert (Forall (fun x => mx_preference x = mx_preference r) group) as Htie.
  { rewrite Hg. cbn [j take]. constructor; [done|]. apply run_spec. }
  destruct (IH pick k' (drop j (r :: rest))) as [Hp Hsr]; [rewrite length_drop; cbn in *; lia|by apply sorted_drop|].
  split; [by rewrite Hp, Hg, take_drop|]. apply sorted_app; [by eapply ties_sorted|done|].
  apply Forall_forall. intros x Hx. rewrite Hp. rewrite Forall_forall in Htie. unfold before_or_tie. rewrite (Htie x Hx).
  apply Forall_drop. inversion_clear Hs. constructor; [lia|done].
Qed.

Lemma order_spec pick records : orderByPreference pick records ≡ₚ records /\ StronglySorted before_or_tie (orderByPreference pick records).
Proof.
  unfold orderByPreference, sortByPreference. destruct (sort_spec records [] ltac:(constructor)) as [Hp Hs]. cbn [app] in Hp.
  set (s := fold_left _ _ _) in *. destruct (groups_spec (length records) pick 0 s) as [Hgp Hgs]; [by rewrite Hp|done|]. split; [by transitivity s|done].
Qed.

(** ** Targets *)

Section targets.
Context `{R : Runtime} (resolver : Resolver) (ipv4Only : bool).

Definition target_of (r : MxAnswer) (t : MxTarget) : Prop :=
  mt_host t = mx_exchange r /\ mt_preference t = mx_preference r /\ exists secure, resolveAddresses resolver (mx_exchange r) ipv4Only = inr (mt_addresses t, secure).

Definition vouched (host : jsstr) : Prop := exists addresses, resolveAddresses resolver host ipv4Only = inr (addresses, true).

Lemma hostGet_set host v hosts h : hostGet h (hostSet host v hosts) = if decide (h = host) then Some v else hostGet h hosts.
Proof.
  induction hosts as [|[g w] hosts IH]; cbn [hostSet hostGet].
  - case_decide; [subst; by rewrite bool_decide_true|by rewrite bool_decide_false by done].
  - destruct (decide (g = host)) as [->|Hg].
    + rewrite (bool_decide_true (host = host)) by done. cbn [hostGet]. case_decide; [subst; by rewrite bool_decide_true|].
      by rewrite !bool_decide_false by done.
    + rewrite (bool_decide_false (g = host)) by done. cbn [hostGet]. rewrite IH. case_bool_decide; [|done]. subst. by rewrite decide_False.
Qed.

(** [hosts] says of each of its names whether the resolver vouched for its addresses. *)
Definition verdicts_ok (hosts : list (jsstr * bool)) : Prop := forall h v, hostGet h hosts = Some v -> v = true <-> vouched h.

Lemma targets_spec ordered : forall targets hosts targets' hosts', resolveTargets resolver ipv4Only ordered targets hosts = inr (targets', hosts') ->
  verdicts_ok hosts ->
  exists more, targets' = targets ++ more /\ Forall2 target_of ordered more /\ verdicts_ok hosts' /\
    (forall r, r ∈ ordered -> is_Some (hostGet (mx_exchange r) hosts')) /\ (forall h, is_Some (hostGet h hosts) -> is_Some (hostGet h hosts')).
Proof.
  induction ordered as [|r ordered IH]; intros targets hosts targets' hosts'; cbn [resolveTargets].
  { intros [= <- <-] Hv. exists []. rewrite app_nil_r. split_and!; [done|constructor|done|set_solver|done]. }
  destruct (resolveAddresses resolver (mx_exchange r) ipv4Only) as [e|[addresses secure]] eqn:Ea; [done|]. cbn [mbind sum_bind]. intros H Hv.
  apply IH in H as (more & -> & Hf & Hv' & Hin & Hkeep).
  - exists (mkTarget (mx_exchange r) (mx_preference r) addresses :: more). rewrite <- app_assoc. split; [done|]. split.
    { constructor; [|done]. split; [done|]. split; [done|]. by exists secure. }
    split; [done|]. split.
    + intros r' [->|Hr']%elem_of_cons; [|by apply Hin]. apply Hkeep. rewrite hostGet_set, decide_True by done. by eexists.
    + intros h Hh. apply Hkeep. rewrite hostGet_set. case_decide; [by eexists|done].
  - intros h v. rewrite hostGet_set. case_decide as Hh; [|apply Hv]. subst h. intros [= <-].
    assert (vouched (mx_exchange r) <-> secure = true) as Hvs.
    { unfold vouched. rewrite Ea. split; [by intros [? [= _ ->]]|intros ->; by eexists]. }
    rewrite andb_true_iff, Hvs. destruct (hostGet (mx_exchange r) hosts) as [v|] eqn:Eg; cbn; [|tauto].
    pose proof (Hv _ _ Eg) as Hvv. rewrite Hvs in Hvv. tauto.
Qed.

End targets.

(** ** The CNAME chain *)

Section chain.
Context `{R : Runtime} (cnames : list (jsstr * jsstr)).

Definition cname_edge (a b : jsstr) : Prop := cnameOf cnames a = Some b.

Lemma cname_owner name next : cnameOf cnames name = Some next -> name ∈ ((normalizeName ∘ fst) <$> cnames).
Proof.
  induction cnames as [|[o t] cs IH]; cbn [cnameOf]; [done|]. destruct (cnameOf cs name) as [t'|].
  - intros Hn. rewrite fmap_cons. apply elem_of_cons. right. apply (IH Hn).
  - case_bool_decide; [|done]. intros _. rewrite fmap_cons. subst. apply elem_of_cons. by left.
Qed.

Lemma follow_spec fuel : forall visited name, NoDup visited -> (forall v, v ∈ visited -> tc cname_edge v name /\ is_Some (cnameOf cnames v)) ->
  (length cnames < fuel + length visited)%nat ->
  rtc cname_edge name (followCnames fuel cnames visited name) /\
  (cnameOf cnames (followCnames fuel cnames visited name) = None \/
   tc cname_edge (followCnames fuel cnames visited name) (followCnames fuel cnames visited name)).
Proof.
  induction fuel as [|fuel IH]; intros visited name Hnd Hv Hf; cbn [followCnames].
  - exfalso. assert (length visited <= length ((normalizeName ∘ fst) <$> cnames))%nat as Hl; [|rewrite length_fmap in Hl; lia].
    apply submseteq_length, NoDup_submseteq; [done|]. intros v Hin. destruct (Hv v Hin) as [_ [next Hn]]. by eapply cname_owner.
  - destruct (cnameOf cnames name) as [next|] eqn:En; [|by auto using rtc_refl]. case_bool_decide as Hin; [split; [done|]; right; by apply Hv|].
    destruct (IH (name :: visited) next) as [H1 H2].
    + by constructor.
    + intros v [->|Hvin]%elem_of_cons; [split; [by apply tc_once|by eexists]|]. split; [|by apply Hv].
      eapply tc_r; [by apply Hv|done].
    + cbn. lia.
    + split; [|done]. by eapply rtc_l.
Qed.

End chain.

(** ** Resolution *)

Section resolution.
Context `{R : Runtime}.

(** The records that count: those at the end of the CNAME chain, or at a name of its cycle. *)
Definition records_for (answers : list DnsAnswer) (domain : jsstr) (records : list MxAnswer) : Prop :=
  exists name, rtc (cname_edge (omap cnameAnswer answers)) (normalizeName domain) name /\
    (cnameOf (omap cnameAnswer answers) name = None \/ tc (cname_edge (omap cnameAnswer answers)) name name) /\
    records = List.filter (fun r => bool_decide (normalizeName (mx_name r) = name)) (omap mxAnswer answers).

Lemma effective_records answers domain : records_for answers domain (mxRecordsAt answers (effectiveName answers domain)).
Proof.
  unfold records_for, effectiveName. destruct (follow_spec (omap cnameAnswer answers) (S (length (omap cnameAnswer answers))) [] (normalizeName domain)) as [H1 H2].
  - constructor.
  - set_solver.
  - cbn. lia.
  - eexists. split; [exact H1|]. split; [exact H2|]. done.
Qed.

(** mail is routed by the MX records at the end of the domain's CNAME chain: to all of them, in order
    of preference, ties in any order, each with the addresses looked up for it and a DNSSEC verdict that
    says whether the resolver vouched for those; to the domain itself if there are none and it has an
    address; nowhere if the one record is a null MX. A failure is permanent only if the domain does not
    exist, the response code is unexpected or no address was found: an error of the resolver, such as
    SERVFAIL, is thrown on and never taken for an answer. *)
Theorem mx_resolution (resolver : Resolver) (domain : jsstr) (ipv4Only : bool) (pick : nat -> nat -> nat) :
  match resolveMxTargets resolver domain ipv4Only pick with
  | inl e => rs_mx resolver domain = inl e \/ exists host, resolveAddresses resolver host ipv4Only = inl e
  | inr resolution =>
      exists result records, rs_mx resolver domain = inr result /\ records_for (r_answers result) domain records /\
      match resolution with
      | MxFound targets dnssec =>
          r_rcode result = RCode.NOERROR /\ records <> [] /\ md_mx dnssec = r_ad result /\
          (exists ordered, ordered ≡ₚ records /\ StronglySorted before_or_tie ordered /\ Forall2 (target_of resolver ipv4Only) ordered targets) /\
          (forall r, r ∈ records -> exists v, hostGet (mx_exchange r) (md_hosts dnssec) = Some v /\ (v = true <-> vouched resolver ipv4Only (mx_exchange r)))
      | MxImplicit targets dnssec =>
          r_rcode result = RCode.NOERROR /\ records = [] /\ exists addresses secure, addresses <> [] /\
          resolveAddresses resolver domain ipv4Only = inr (addresses, secure) /\ targets = [mkTarget domain 0 addresses] /\
          dnssec = mkDnssec (r_ad result) [(domain, secure)]
      | MxNull => r_rcode result = RCode.NOERROR /\ exists owner, records = [mkMx owner 0 [DOT]]
      | MxPermanent _ =>
          r_rcode result <> RCode.NOERROR \/ (records = [] /\ exists secure, resolveAddresses resolver domain ipv4Only = inr ([], secure))
      end
  end.
Proof.
  unfold resolveMxTargets. destruct (rs_mx resolver domain) as [e|result] eqn:Em; [by left|]. cbn [mbind sum_bind].
  pose proof (effective_records (r_answers result) domain) as Hrec. set (records := mxRecordsAt _ _) in *.
  destruct (Z.eqb_spec (r_rcode result) RCode.NXDOMAIN) as [Hnx|Hnx]; [exists result, records; split; [done|]; split; [done|]; left; by rewrite Hnx|].
  destruct (Z.eqb_spec (r_rcode result) RCode.NOERROR) as [Hok|Hok]; cbn [negb]; [|exists result, records; auto].
  destruct (isNullMx records) eqn:En.
  { exists result, records. split; [done|]. split; [done|]. split; [done|]. unfold isNullMx in En. destruct records as [|[o p x] [|]]; try done.
    cbn in En. apply andb_prop in En as [->%Z.eqb_eq ->%bool_decide_eq_true]. by exists o. }
  clear En. clearbody records. destruct records as [|r0 rs] eqn:Er.
  - destruct (resolveAddresses resolver domain ipv4Only) as [e|[addresses secure]] eqn:Ea; cbn [mbind sum_bind]; [right; by exists domain|].
    destruct addresses as [|a addresses].
    + exists result, []. split; [done|]. split; [done|]. right. split; [done|]. by exists secure.
    + exists result, []. split; [done|]. split; [done|]. split; [done|]. split; [done|]. by exists (a :: addresses), secure.
  - rewrite <- Er in *. destruct (order_spec pick records) as [Hperm Hsort].
    destruct (resolveTargets resolver ipv4Only (orderByPreference pick records) [] []) as [e|[targets hosts]] eqn:Et; cbn [mbind sum_bind].
    + right. clear -Et. revert Et. generalize ([] : list MxTarget) ([] : list (jsstr * bool)). induction (orderByPreference pick records) as [|r l IH]; intros ts hs; cbn [resolveTargets]; [done|].
      destruct (resolveAddresses resolver (mx_exchange r) ipv4Only) as [e'|[? ?]] eqn:Ea; cbn [mbind sum_bind]; [intros [= ->]; by eexists|apply IH].
    + apply targets_spec in Et as (more & -> & Hf & Hv & Hin & _); [|by intros ? ?]. exists result, records. split; [done|]. split; [done|].
      cbn [md_mx md_hosts app]. split; [done|]. split; [by rewrite Er|]. split; [done|]. split; [by exists (orderByPreference pick records)|].
      intros r Hr. destruct (Hin r) as [v Hg]; [by rewrite Hperm|]. exists v. split; [done|]. by apply Hv.
Qed.

End resolution.

(** Two records and a CNAME: the more preferred exchange comes first, whatever the shuffle. *)
Example mx_order :
  let R := {| uni_upper s := s; uni_lower s := s; big_string _ := []; isIPv6 _ := false |} in
  let answer name type data := mkAnswer (js name) 60 type 1 data in
  let reply answers := inr (mkResult 0 true answers []) : DnsError + ResolverResult in
  let resolver := mkResolver
    (fun _ => reply [answer "B.example." RRType.CNAME (KindCNAME (js "c.example")); answer "c.example" RRType.MX (KindMX 20 (js "m2"));
                     answer "c.example" RRType.MX (KindMX 10 (js "m1")); answer "d.example" RRType.MX (KindMX 5 (js "m3"))])
    (fun _ => reply [answer "m" RRType.A (KindA (js "192.0.2.1"))]) (fun _ => reply []) in
  resolveMxTargets resolver (js "b.example") false (fun _ _ => 0%nat) =
    inr (MxFound [mkTarget (js "m1") 10 [js "192.0.2.1"]; mkTarget (js "m2") 20 [js "192.0.2.1"]] (mkDnssec true [(js "m1", true); (js "m2", true)])).
Proof. vm_compute. reflexivity. Qed.
