(* ===== verification/Psl.v ===== *)
(** * Psl: the public suffix list (packages/auth-checks/src/psl/index.ts)

    The two generated rule texts and node:url's [domainToASCII] are parameters. [undefined] is
    [None]; the memoized rule sets are recomputed, which nothing can observe. *)
From S2P Require Import Prelude JsString JsStringFacts.

(** What the list needs besides the runtime. *)
Class PslData := {
  ICANN_RULES : jsstr;
  PRIVATE_RULES : jsstr;
  domainToASCII : jsstr -> jsstr
}.

(** The sets of a [RuleSet]; membership is all that is asked of them. *)
Record RuleSet := mkRules { rs_exact : list jsstr; rs_wildcard : list jsstr; rs_exception : list jsstr }.

Definition emptyRules : RuleSet := mkRules [] [] [].

Definition addRule (rule : jsstr) (set : RuleSet) : RuleSet :=
  match rule with
  | [] => set
  | c :: rest =>
      if c =? 33 then mkRules (rs_exact set) (rs_wildcard set) (rest :: rs_exception set)
      else if startsWith (js "*.") rule then mkRules (rs_exact set) (drop 2 rule :: rs_wildcard set) (rs_exception set)
      else mkRules (rule :: rs_exact set) (rs_wildcard set) (rs_exception set)
  end.

Definition addRules (text : jsstr) (set : RuleSet) : RuleSet := fold_left (fun set rule => addRule rule set) (splitOn LF text) set.

Section psl.
Context `{R : Runtime} `{PD : PslData}.

Definition rules (icannOnly : bool) : RuleSet :=
  if icannOnly then addRules ICANN_RULES emptyRules else addRules PRIVATE_RULES (addRules ICANN_RULES emptyRules).

(** [domain.replace(/\.$/, '')]. *)
Definition dropDot (s : jsstr) : jsstr := if endsWith [DOT] s then take (length s - 1) s else s.

Definition normalizeDomain (domain : jsstr) : option jsstr :=
  let d := dropDot (trim domain) in
  if (length d =? 0)%nat then None
  else
    d ← (if is_ascii d then Some (toLowerCase d)
         else match domainToASCII d with [] => None | ascii => Some ascii end);
    if existsb (fun label => (length label =? 0)%nat) (splitOn DOT d) then None else Some d.

Definition mem (x : jsstr) (l : list jsstr) : bool := bool_decide (x ∈ l).

(** The loop of [publicSuffix], from the whole name down to its last label. The result is the number
    of labels of the suffix. *)
Fixpoint suffix_loop (set : RuleSet) (labels : list jsstr) (matched : nat) : nat :=
  match labels with
  | [] => matched
  | _ :: parents =>
      let k := length labels in
      if mem (joinWith [DOT] labels) (rs_exception set) then (k - 1)%nat
      else
        let matched :=
          if (matched <? k)%nat &&
             (mem (joinWith [DOT] labels) (rs_exact set) ||
              ((2 <=? k)%nat && mem (joinWith [DOT] parents) (rs_wildcard set)))
          then k else matched in
        suffix_loop set parents matched
  end.

(** [labels.slice(labels.length - k).join('.')]. *)
Definition lastLabels (k : nat) (labels : list jsstr) : jsstr := joinWith [DOT] (drop (length labels - k) labels).

Definition publicSuffix (domain : jsstr) (icannOnly : bool) : option jsstr :=
  d ← normalizeDomain domain;
  let labels := splitOn DOT d in
  Some (lastLabels (suffix_loop (rules icannOnly) labels 1) labels).

Definition organizationalDomain (domain : jsstr) (icannOnly : bool) : option jsstr :=
  d ← normalizeDomain domain;
  suffix ← publicSuffix d icannOnly;
  let labels := splitOn DOT d in
  let suffixLabels := length (splitOn DOT suffix) in
  if (length labels <=? suffixLabels)%nat then Some d
  else Some (lastLabels (suffixLabels + 1) labels).

End psl.

(** ** The set-based lookup is the published algorithm

    The reference is the algorithm of publicsuffix.org over the list of rules: which rules match the
    domain, which of them prevails, how many labels it gives the public suffix. *)

(** ** The reference *)

Record Rule := mkRule { r_exception : bool; r_labels : list jsstr }.

Definition STAR : jsstr := js "*".

Definition parse_rule (line : jsstr) : option Rule :=
  match line with
  | [] => None
  | c :: rest => Some (if c =? 33 then mkRule true (splitOn DOT rest) else mkRule false (splitOn DOT line))
  end.

Definition label_matches (pattern label : jsstr) : bool := bool_decide (pattern = STAR) || bool_decide (pattern = label).

Fixpoint labels_match (patterns labels : list jsstr) : bool :=
  match patterns, labels with
  | [], [] => true
  | p :: ps, l :: ls => label_matches p l && labels_match ps ls
  | _, _ => false
  end.

(** The rule matches the rightmost labels of the name. *)
Definition rule_matches (labels : list jsstr) (r : Rule) : bool :=
  (length (r_labels r) <=? length labels)%nat && labels_match (r_labels r) (drop (length labels - length (r_labels r)) labels).

Definition longest (rs : list Rule) (least : nat) : nat := foldr Nat.max least ((fun r => length (r_labels r)) <$> rs).

(** An exception prevails and loses its leftmost label; otherwise the rule with the most labels does;
    with no rule at all, the suffix is the last label. *)
Definition suffix_length (rs : list Rule) (labels : list jsstr) : nat :=
  let matching := List.filter (rule_matches labels) rs in
  match List.filter r_exception matching with
  | [] => longest matching 1
  | exceptions => (longest exceptions 0 - 1)%nat
  end.

(** A rule the list may contain: a star only as the first of several labels, and not in an exception. *)
Definition rule_ok (r : Rule) : bool :=
  match r_labels r with
  | [] => false
  | first :: rest => negb (mem STAR rest) && (negb (bool_decide (first = STAR)) || (negb (r_exception r) && negb (length rest =? 0)%nat))
  end.

(** ** Rule sets *)

Lemma mem_spec x l : mem x l = true <-> x ∈ l.
Proof. unfold mem. by rewrite bool_decide_eq_true. Qed.

Definition lines_of `{PslData} (icannOnly : bool) : list jsstr :=
  splitOn LF ICANN_RULES ++ (if icannOnly then [] else splitOn LF PRIVATE_RULES).

Definition rules_of `{PslData} (icannOnly : bool) : list Rule := omap parse_rule (lines_of icannOnly).

Definition fold_rules (lines : list jsstr) (set : RuleSet) : RuleSet := fold_left (fun set rule => addRule rule set) lines set.

Lemma rules_fold `{PslData} icannOnly : rules icannOnly = fold_rules (lines_of icannOnly) emptyRules.
Proof. unfold rules, lines_of, addRules, fold_rules. destruct icannOnly; [by rewrite app_nil_r|]. by rewrite fold_left_app. Qed.

(** What each kind of line adds. *)
Definition is_exact (line : jsstr) : bool :=
  match line with [] => false | c :: _ => negb (c =? 33) && negb (startsWith (js "*.") line) end.

Lemma fold_rules_spec lines : forall set x,
  (x ∈ rs_exception (fold_rules lines set) <-> x ∈ rs_exception set \/ (33 :: x) ∈ lines) /\
  (x ∈ rs_wildcard (fold_rules lines set) <-> x ∈ rs_wildcard set \/ (js "*." ++ x) ∈ lines) /\
  (x ∈ rs_exact (fold_rules lines set) <-> x ∈ rs_exact set \/ (x ∈ lines /\ is_exact x = true)).
Proof.
  induction lines as [|line lines IH]; intros set x; [cbn; set_solver|]. unfold fold_rules. cbn [fold_left].
  fold (fold_rules lines (addRule line set)). destruct (IH (addRule line set) x) as (-> & -> & ->). rewrite !elem_of_cons.
  unfold addRule, is_exact. destruct line as [|c rest]; [naive_solver|]. destruct (Z.eqb_spec c 33) as [->|Hc]; cbn [rs_exception rs_wildcard rs_exact].
  { rewrite elem_of_cons. split_and!; [naive_solver| |].
    - assert (js "*." ++ x <> 33 :: rest) by done. naive_solver.
    - split; [naive_solver|]. intros [?|[[->|?] ?]]; [by left|done|by right]. }
  destruct (startsWith (js "*.") (c :: rest)) eqn:Es; cbn [rs_exception rs_wildcard rs_exact].
  - apply startsWith_spec in Es as [t Ht]. rewrite elem_of_cons. split_and!.
    + assert (33 :: x <> c :: rest) by congruence. naive_solver.
    + rewrite Ht. change (drop 2 (js "*." ++ t)) with t. split; [naive_solver|]. intros [?|[E|?]]; [by left; right| |by right].
      apply app_inv_head in E. by left; left.
    + split; [naive_solver|]. intros [?|[[->|?] He]]; [by left| |by right].
      rewrite Ht in He. replace (startsWith (js "*.") (js "*." ++ t)) with true in He by (symmetry; apply startsWith_spec; by exists t).
      destruct (js "*." ++ t); [done|]. by rewrite andb_false_r in He.
  - rewrite elem_of_cons. split_and!.
    + assert (33 :: x <> c :: rest) by congruence. naive_solver.
    + assert (js "*." ++ x <> c :: rest) as Hne.
      { intros E. assert (startsWith (js "*.") (c :: rest) = true) by (apply startsWith_spec; by exists x). congruence. }
      naive_solver.
    + split; [|naive_solver]. intros [[->|?]|?]; [|by left|by right; naive_solver]. right. split; [by left|].
      rewrite Es. by replace (c =? 33) with false by lia.
Qed.

Lemma rules_spec `{PslData} icannOnly x :
  (x ∈ rs_exception (rules icannOnly) <-> (33 :: x) ∈ lines_of icannOnly) /\
  (x ∈ rs_wildcard (rules icannOnly) <-> (js "*." ++ x) ∈ lines_of icannOnly) /\
  (x ∈ rs_exact (rules icannOnly) <-> x ∈ lines_of icannOnly /\ is_exact x = true).
Proof.
  rewrite rules_fold. destruct (fold_rules_spec (lines_of icannOnly) emptyRules x) as (-> & -> & ->). cbn. set_solver.
Qed.

(** ** Suffixes of a name *)

(** The non-empty suffixes, longest first. *)
Fixpoint suffixes (labels : list jsstr) : list (list jsstr) :=
  match labels with [] => [] | _ :: parents => labels :: suffixes parents end.

Lemma suffixes_length labels l : l ∈ suffixes labels -> (1 <= length l <= length labels)%nat.
Proof. induction labels as [|x labels IH]; cbn; [set_solver|]. intros [->|H]%elem_of_cons; [cbn; lia|]. apply IH in H. lia. Qed.

Lemma suffixes_spec labels l : l ∈ suffixes labels <-> l <> [] /\ exists pre, labels = pre ++ l.
Proof.
  split.
  - induction labels as [|x labels IH]; cbn; [set_solver|]. intros [->|H]%elem_of_cons; [split; [done|by exists []]|].
    apply IH in H as [? [pre ->]]. split; [done|]. by exists (x :: pre).
  - intros [Hne [pre ->]]. induction pre as [|x pre IH]; cbn; [destruct l; [done|left]|]. right. apply IH.
Qed.

Section lookup.
Variables E N : list jsstr -> bool.

(** The loop of the lookup over an abstract rule set. *)
Fixpoint abstract_loop (labels : list jsstr) (matched : nat) : nat :=
  match labels with
  | [] => matched
  | _ :: parents =>
      if E labels then (length labels - 1)%nat
      else abstract_loop parents (if (matched <? length labels)%nat && N labels then length labels else matched)
  end.

Definition lengths (ls : list (list jsstr)) : list nat := length <$> ls.

Lemma max_ge l m : (m <= foldr Nat.max m l)%nat.
Proof. induction l; cbn; lia. Qed.

Lemma max_lub l m b : (m <= b)%nat -> Forall (fun x => x <= b)%nat l -> (foldr Nat.max m l <= b)%nat.
Proof. intros Hm. induction 1; cbn; lia. Qed.

Lemma max_elem l m x : x ∈ l -> (x <= foldr Nat.max m l)%nat.
Proof. induction l as [|y l IH]; cbn; [set_solver|]. intros [->|H]%elem_of_cons; [lia|]. apply IH in H. lia. Qed.

(** The maximum depends on the elements only. *)
Lemma max_set l l' m : (forall x, x ∈ l <-> x ∈ l') -> foldr Nat.max m l = foldr Nat.max m l'.
Proof.
  intros H. apply Nat.le_antisymm; (apply max_lub; [apply max_ge|]); apply Forall_forall; intros x Hx; apply max_elem; by apply H.
Qed.

Lemma abstract_loop_spec labels matched : abstract_loop labels matched =
  match List.filter E (suffixes labels) with
  | l :: _ => (length l - 1)%nat
  | [] => foldr Nat.max matched (lengths (List.filter N (suffixes labels)))
  end.
Proof.
  revert matched. induction labels as [|x labels IH]; intros matched; [done|]. cbn [abstract_loop suffixes List.filter].
  destruct (E (x :: labels)); [done|]. rewrite IH. destruct (List.filter E (suffixes labels)); [|done].
  assert (Forall (fun k => k <= length labels)%nat (lengths (List.filter N (suffixes labels)))) as Hb.
  { apply Forall_fmap, Forall_forall. intros l Hl. apply list_elem_of_In, filter_In in Hl as [Hl%list_elem_of_In _].
    apply suffixes_length in Hl. cbn. lia. }
  destruct (N (x :: labels)); [|by rewrite andb_false_r]. rewrite andb_true_r. cbn [lengths fmap list_fmap foldr].
  fold (lengths (List.filter N (suffixes labels))). set (ks := lengths _) in *.
  destruct (Nat.ltb_spec matched (length (x :: labels))) as [Hlt|Hge]; cbn [length] in *.
  - pose proof (max_ge ks (S (length labels))). pose proof (max_lub ks (S (length labels)) (S (length labels))) as H1.
    pose proof (max_lub ks matched (S (length labels))) as H2.
    assert (Forall (fun k => k <= S (length labels))%nat ks) as Hb' by (eapply Forall_impl; [exact Hb|]; cbn; lia). 
    specialize (H1 ltac:(lia) Hb'). specialize (H2 ltac:(lia) Hb'). lia.
  - pose proof (max_ge ks matched). lia.
Qed.

End lookup.

(** ** The equivalence *)

Lemma labels_match_refl l : labels_match l l = true.
Proof. induction l as [|x l IH]; [done|]. cbn. rewrite IH, andb_true_r. unfold label_matches. rewrite orb_true_iff. right. by apply bool_decide_eq_true. Qed.

Lemma labels_match_length ps ls : labels_match ps ls = true -> length ps = length ls.
Proof. revert ls. induction ps as [|p ps IH]; intros [|l ls]; try done. cbn. intros [_ H]%andb_prop. by rewrite (IH _ H). Qed.

(** Without a star, matching is equality. *)
Lemma labels_match_eq ps ls : STAR ∉ ps -> labels_match ps ls = true -> ps = ls.
Proof.
  revert ls. induction ps as [|p ps IH]; intros [|l ls]; try done. intros [Hp Hps]%not_elem_of_cons. cbn. intros [H1 H2]%andb_prop.
  unfold label_matches in H1. rewrite (bool_decide_false (p = STAR)) in H1 by congruence. cbn in H1. apply bool_decide_eq_true in H1 as ->.
  by rewrite (IH ls).
Qed.

Section equivalence.
Context `{R : Runtime} `{PD : PslData} (icannOnly : bool).
Hypothesis Hok : forallb rule_ok (rules_of icannOnly) = true.
Abbreviation set := (rules icannOnly).

Definition is_exception (l : list jsstr) : bool := mem (joinWith [DOT] l) (rs_exception set).
Definition is_normal (l : list jsstr) : bool :=
  mem (joinWith [DOT] l) (rs_exact set) || ((2 <=? length l)%nat && mem (joinWith [DOT] (tail l)) (rs_wildcard set)).

Lemma suffix_loop_abstract labels matched : suffix_loop set labels matched = abstract_loop is_exception is_normal labels matched.
Proof. revert matched. induction labels as [|x labels IH]; intros; [done|]. cbn [suffix_loop abstract_loop]. by rewrite IH. Qed.

Lemma rule_in r : r ∈ rules_of icannOnly <-> exists line, line ∈ lines_of icannOnly /\ parse_rule line = Some r.
Proof. apply list_elem_of_omap. Qed.

Lemma rule_is_ok r : r ∈ rules_of icannOnly -> rule_ok r = true.
Proof. intros H. rewrite forallb_Forall, Forall_forall in Hok. by apply Hok. Qed.

Lemma no_dots_join l : l <> [] -> Forall (fun x => DOT ∉ x) l -> splitOn DOT (joinWith [DOT] l) = l.
Proof. intros. by apply splitOn_joinWith. Qed.

Lemma exception_rule l : l <> [] -> Forall (fun x => DOT ∉ x) l ->
  is_exception l = true <-> exists r, r ∈ rules_of icannOnly /\ r_exception r = true /\ labels_match (r_labels r) l = true.
Proof.
  intros Hne Hl. unfold is_exception. rewrite mem_spec, (proj1 (rules_spec icannOnly _)). split.
  - intros H. eexists (mkRule true (splitOn DOT (joinWith [DOT] l))). split; [apply rule_in; eexists; split; [exact H|done]|].
    cbn. rewrite no_dots_join by done. split; [done|apply labels_match_refl].
  - intros (r & Hr & He & Hm). pose proof (rule_is_ok r Hr) as Ho. apply rule_in in Hr as (line & Hline & Hp).
    destruct line as [|c rest]; [done|]. cbn in Hp. destruct (Z.eqb_spec c 33) as [->|]; simplify_eq. cbn [r_labels r_exception] in *.
    unfold rule_ok in Ho. cbn [r_labels r_exception] in Ho. destruct (splitOn DOT rest) as [|first more] eqn:Es; [done|].
    apply andb_prop in Ho as [H1 H2]. apply labels_match_eq in Hm.
    + rewrite <- Hm, <- Es, joinWith_splitOn. done.
    + apply not_elem_of_cons. split; [|intros Hin%mem_spec; by rewrite Hin in H1].
      intros <-. rewrite bool_decide_true in H2 by done. done.
Qed.

Lemma normal_rule l : l <> [] -> Forall (fun x => DOT ∉ x) l ->
  (forall r, r ∈ rules_of icannOnly -> r_exception r = true -> labels_match (r_labels r) l = false) ->
  is_normal l = true <-> exists r, r ∈ rules_of icannOnly /\ labels_match (r_labels r) l = true.
Proof.
  intros Hne Hl Hnoex. unfold is_normal. rewrite orb_true_iff, andb_true_iff, !mem_spec.
  rewrite (proj2 (proj2 (rules_spec icannOnly _))), (proj1 (proj2 (rules_spec icannOnly _))). split.
  - intros [[Hin Hex]|[Hlen Hin]].
    + exists (mkRule false (splitOn DOT (joinWith [DOT] l))). split.
      * apply rule_in. eexists. split; [exact Hin|]. unfold is_exact in Hex. destruct (joinWith [DOT] l) as [|c t]; [done|].
        apply andb_prop in Hex as [Hc _]. cbn. by destruct (c =? 33).
      * cbn. rewrite no_dots_join by done. apply labels_match_refl.
    + destruct l as [|x l]; [done|]. cbn [tail] in *. assert (l <> []) as Hl' by (intros ->; cbn in Hlen; done).
      exists (mkRule false (splitOn DOT (js "*." ++ joinWith [DOT] l))). split; [apply rule_in; eexists; split; [exact Hin|done]|].
      cbn [r_labels]. change (js "*." ++ ?u) with (STAR ++ DOT :: u). rewrite splitOn_app by (unfold STAR; vm_compute; set_solver).
      inversion_clear Hl. rewrite no_dots_join by done. cbn [labels_match]. by rewrite labels_match_refl.
  - intros (r & Hr & Hm). destruct (r_exception r) eqn:He; [by rewrite Hnoex in Hm|].
    pose proof (rule_is_ok r Hr) as Ho. apply rule_in in Hr as (line & Hline & Hp).
    assert (exists c rest, line = c :: rest /\ c <> 33 /\ r = mkRule false (splitOn DOT line)) as (c & rest & Eline & Hc & ->).
    { destruct line as [|c rest]; [done|]. cbn in Hp. destruct (Z.eqb_spec c 33); injection Hp as <-; [done|]. by exists c, rest. }
    cbn [r_labels r_exception] in *. unfold rule_ok in Ho. cbn [r_labels r_exception] in Ho.
    pose proof (joinWith_splitOn DOT line) as Hjoin. destruct (splitOn DOT line) as [|first more] eqn:Es; [done|].
    apply andb_prop in Ho as [H1 H2]. assert (STAR ∉ more) as Hmore by (intros Hin%mem_spec; by rewrite Hin in H1).
    destruct l as [|x l]; [done|]. cbn [labels_match] in Hm. apply andb_prop in Hm as [Hfirst Hrest].
    apply labels_match_eq in Hrest; [|done]. subst more. destruct (decide (first = STAR)) as [->|Hns].
    + right. rewrite bool_decide_true in H2 by done. cbn in H2. destruct l as [|y l]; [done|]. cbn [length tail]. split; [done|].
      rewrite joinWith_cons in Hjoin by done. cbn [tail]. change (js "*." ++ ?u) with (STAR ++ [DOT] ++ u). by rewrite Hjoin.
    + left. unfold label_matches in Hfirst. rewrite (bool_decide_false (first = STAR)) in Hfirst by done. cbn in Hfirst.
      apply bool_decide_eq_true in Hfirst as ->. rewrite Hjoin. split; [done|]. unfold is_exact. rewrite Eline. rewrite <- Eline.
      replace (c =? 33) with false by lia. cbn [negb andb]. apply negb_true_iff, not_true_is_false. intros [t Ht]%startsWith_spec.
      rewrite Ht in Es. change (js "*." ++ t) with (STAR ++ DOT :: t) in Es. rewrite splitOn_app in Es by (unfold STAR; vm_compute; set_solver).
      by simplify_eq.
Qed.

Lemma rule_labels_ne r : r ∈ rules_of icannOnly -> r_labels r <> [].
Proof. intros H%rule_is_ok E. unfold rule_ok in H. by rewrite E in H. Qed.

(** A rule matches a name through the suffix of its own length. *)
Lemma rule_matches_suffix labels r : r_labels r <> [] ->
  rule_matches labels r = true <-> exists l, l ∈ suffixes labels /\ labels_match (r_labels r) l = true.
Proof.
  intros Hne. unfold rule_matches. rewrite andb_true_iff, Nat.leb_le. split.
  - intros [Hlen Hm]. eexists. split; [|exact Hm]. apply suffixes_spec. split.
    + apply labels_match_length in Hm. intros E. rewrite E in Hm. by destruct (r_labels r).
    + exists (take (length labels - length (r_labels r)) labels). by rewrite take_drop.
  - intros (l & Hl & Hm). apply suffixes_spec in Hl as [_ [pre ->]]. pose proof (labels_match_length _ _ Hm) as Hlen.
    rewrite length_app, Hlen. split; [lia|]. replace (length pre + length l - length l)%nat with (length pre) by lia. by rewrite drop_app_length.
Qed.

(** The first of a list of suffixes is the longest. *)
Lemma head_longest labels f l ls : List.filter f (suffixes labels) = l :: ls -> foldr Nat.max 0%nat (lengths (l :: ls)) = length l.
Proof.
  induction labels as [|x labels IH]; [done|]. cbn [suffixes List.filter]. destruct (f (x :: labels)); [|apply IH].
  intros [= <- <-]. cbn [lengths fmap list_fmap foldr]. apply Nat.max_l, max_lub; [lia|]. apply Forall_fmap, Forall_forall.
  intros l Hl. apply list_elem_of_In, filter_In in Hl as [Hl%list_elem_of_In _]. apply suffixes_length in Hl. cbn. lia.
Qed.

Lemma filter_elem {A} (f : A -> bool) l x : x ∈ List.filter f l <-> x ∈ l /\ f x = true.
Proof. by rewrite !list_elem_of_In, filter_In. Qed.

Lemma lengths_elem k ls : k ∈ lengths ls <-> exists l, k = length l /\ l ∈ ls.
Proof. apply list_elem_of_fmap. Qed.

Lemma suffix_no_dots labels l : Forall (fun x => DOT ∉ x) labels -> l ∈ suffixes labels -> l <> [] /\ Forall (fun x => DOT ∉ x) l.
Proof. intros H Hl. apply suffixes_spec in Hl as [Hne [pre ->]]. apply Forall_app in H as [_ H]. done. Qed.

(** The lengths of the rules of a kind that match are the lengths of the suffixes of that kind. *)
Lemma lengths_agree labels (f : list jsstr -> bool) (P : Rule -> bool) m :
  (forall l, l ∈ suffixes labels -> f l = true <-> exists r, r ∈ rules_of icannOnly /\ P r = true /\ labels_match (r_labels r) l = true) ->
  foldr Nat.max m (lengths (List.filter f (suffixes labels))) = longest (List.filter P (List.filter (rule_matches labels) (rules_of icannOnly))) m.
Proof.
  intros Hf. apply max_set. intros k. rewrite lengths_elem. unfold longest. rewrite list_elem_of_fmap. split.
  - intros (l & -> & [Hl Hfl]%filter_elem). apply Hf in Hfl as (r & Hr & HP & Hm); [|done]. exists r.
    split; [symmetry; by apply labels_match_length|]. rewrite !filter_elem. split_and!; try done.
    apply rule_matches_suffix; [by apply rule_labels_ne|]. eauto.
  - intros (r & -> & [[Hr Hm]%filter_elem HP]%filter_elem).
    apply rule_matches_suffix in Hm as (l & Hl & Hm); [|by apply rule_labels_ne]. exists l.
    split; [by apply labels_match_length|]. rewrite filter_elem. split; [done|]. apply Hf; [done|]. eauto.
Qed.

Lemma suffix_loop_reference labels : Forall (fun x => DOT ∉ x) labels ->
  suffix_loop set labels 1 = suffix_length (rules_of icannOnly) labels.
Proof.
  intros Hd. rewrite suffix_loop_abstract, abstract_loop_spec. unfold suffix_length. cbv zeta.
  assert (forall l, l ∈ suffixes labels -> is_exception l = true <->
            exists r, r ∈ rules_of icannOnly /\ r_exception r = true /\ labels_match (r_labels r) l = true) as Hex.
  { intros l Hl. destruct (suffix_no_dots _ _ Hd Hl). by apply exception_rule. }
  pose proof (lengths_agree labels is_exception r_exception 0 Hex) as Hagree.
  destruct (List.filter is_exception (suffixes labels)) as [|l ls] eqn:Ef.
  - assert (List.filter r_exception (List.filter (rule_matches labels) (rules_of icannOnly)) = []) as Hnone.
    { destruct (List.filter r_exception _) as [|r rs] eqn:Er; [done|]. exfalso.
      assert (r ∈ List.filter r_exception (List.filter (rule_matches labels) (rules_of icannOnly))) as Hr by (rewrite Er; left).
      apply filter_elem in Hr as [[Hr Hm]%filter_elem He]. apply rule_matches_suffix in Hm as (l & Hl & Hm); [|by apply rule_labels_ne].
      assert (l ∈ List.filter is_exception (suffixes labels)) as Hin by (apply filter_elem; split; [done|]; apply Hex; eauto).
      rewrite Ef in Hin. by apply not_elem_of_nil in Hin. }
    rewrite Hnone. rewrite (lengths_agree labels is_normal (fun _ => true)).
    + f_equal. clear. induction (List.filter _ (rules_of icannOnly)) as [|x l IH]; cbn; [done|by f_equal].
    + intros l Hl. destruct (suffix_no_dots _ _ Hd Hl) as [H1 H2]. rewrite normal_rule; [naive_solver|done|done|].
      intros r Hr He. apply not_true_is_false. intros Hm.
      assert (l ∈ List.filter is_exception (suffixes labels)) as Hin by (apply filter_elem; split; [done|]; apply Hex; eauto).
      rewrite Ef in Hin. by apply not_elem_of_nil in Hin.
  - rewrite <- Ef in Hagree. rewrite Ef in Hagree. rewrite (head_longest labels is_exception l ls Ef) in Hagree.
    destruct (List.filter r_exception _) as [|r rs]; [|by rewrite <- Hagree].
    cbn in Hagree. assert (l ∈ suffixes labels) as Hl by (apply (filter_elem is_exception); rewrite Ef; left).
    apply suffixes_length in Hl. lia.
Qed.

(** C40: the public suffix of a domain is the one the published algorithm gives: among the rules that
    match its rightmost labels (a star matching any one label) an exception prevails and loses its first
    label, otherwise the rule with most labels prevails, and an unlisted top-level domain counts as a
    suffix by itself. This for both sections of the list or the ICANN section alone, and for any list whose
    stars stand where the format allows them. *)
Theorem public_suffix_reference (d : jsstr) : normalizeDomain d = Some d ->
  publicSuffix d icannOnly = Some (lastLabels (suffix_length (rules_of icannOnly) (splitOn DOT d)) (splitOn DOT d)).
Proof.
  intros Hd. unfold publicSuffix. rewrite Hd. cbn [mbind option_bind]. by rewrite suffix_loop_reference by apply splitOn_parts.
Qed.

End equivalence.

(** A list with every kind of rule. *)
Definition demo_psl : PslData := {|
  ICANN_RULES := js "com" ++ [LF] ++ js "co.uk" ++ [LF] ++ js "uk" ++ [LF] ++ js "*.ck" ++ [LF] ++ js "!www.ck" ++ [LF];
  PRIVATE_RULES := js "github.io";
  domainToASCII s := s
|}.

Lemma public_suffix_reference_witness :
  let R := {| uni_upper s := s; uni_lower s := s; big_string _ := []; isIPv6 _ := false |} in let PD := demo_psl in
  publicSuffix (js "a.b.co.uk") false = Some (js "co.uk") /\ publicSuffix (js "x.y.ck") false = Some (js "y.ck") /\
  publicSuffix (js "www.ck") false = Some (js "ck") /\ organizationalDomain (js "a.b.github.io") false = Some (js "b.github.io") /\
  publicSuffix (js "www.ck") false =
    Some (lastLabels (suffix_length (rules_of false) (splitOn DOT (js "www.ck"))) (splitOn DOT (js "www.ck"))).
Proof.
  intros R PD. split; [reflexivity|]. split; [reflexivity|]. split; [reflexivity|]. split; [reflexivity|].
  apply (public_suffix_reference (R := R) (PD := PD) false); reflexivity.
Defined.
