(* ===== verification/Dmarc.v ===== *)
(** * Dmarc: policy records, discovery and evaluation (packages/auth-checks/src/dmarc)

    record.ts, policy.ts and evaluate.ts. DNS is a parameter; so are the address parser of the mime
    package ([mailboxes]: the addresses of a From value) and the random draws of pct sampling
    ([draw domain pct]: the draw made for that domain is at least [pct]). *)
From S2P Require Import Prelude JsString SpfIp SpfCheckHost Psl.

Definition SECT : jsstr := [0xa7].
Definition ARROW : jsstr := [0x2192].

(** ** record.ts *)

Inductive DmarcPolicy := PNone | PQuarantine | PReject.
Inductive DmarcAlignmentMode := ModeR | ModeS.

#[export] Instance DmarcPolicy_eq_dec : EqDecision DmarcPolicy.
Proof. solve_decision. Defined.

Definition policy_text (p : DmarcPolicy) : jsstr :=
  match p with PNone => js "none" | PQuarantine => js "quarantine" | PReject => js "reject" end.

(** [isPolicy(v)]: the policy [v] names. *)
Definition isPolicy (v : jsstr) : option DmarcPolicy :=
  if bool_decide (v = js "none") then Some PNone
  else if bool_decide (v = js "quarantine") then Some PQuarantine
  else if bool_decide (v = js "reject") then Some PReject
  else None.

Record DmarcRecord := mkDmarc {
  dr_raw : jsstr; dr_p : DmarcPolicy; dr_sp : option DmarcPolicy; dr_np : option DmarcPolicy;
  dr_adkim : DmarcAlignmentMode; dr_aspf : DmarcAlignmentMode; dr_pct : Z;
  dr_rua : list jsstr; dr_ruf : list jsstr; dr_fo : list jsstr; dr_rf : list jsstr; dr_ri : Z;
  dr_pAssumed : bool; dr_notes : list jsstr
}.

Inductive DmarcRecordParse := ParsedRecord (record : DmarcRecord) | NotParsed (isDmarc : bool) (reason : jsstr).

Definition nonEmptyText (s : jsstr) : bool := negb (length s =? 0)%nat.

Definition commaList (value : option jsstr) (sep : Z) : list jsstr :=
  match value with None => [] | Some v => List.filter nonEmptyText (trim <$> splitOn sep v) end.

(** [u.replace(/!\d+[kmgt]?$/i, '')]. *)
Definition is_unit_letter (c : Z) : bool := includesChar (lower_char c) (js "kmgt").

Definition stripSizeLimit (u : jsstr) : jsstr :=
  let body := match rev u with c :: t => if is_unit_letter c then rev t else u | [] => u end in
  let digits := takeWhile is_digit (rev body) in
  match digits, drop (length digits) (rev body) with
  | _ :: _, c :: rest => if c =? 33 then rev rest else u
  | _, _ => u
  end.

(** [/^[A-Za-z][A-Za-z0-9+.-]*:\S+$/]: the scheme ends at the first colon that leaves a match. *)
Definition is_scheme_char (c : Z) : bool :=
  isAlphaUpper c || isAlphaLower c || is_digit c || (c =? 43) || (c =? 46) || (c =? 45).

Definition isUri (u : jsstr) : bool :=
  match u with
  | c :: _ =>
      (isAlphaUpper c || isAlphaLower c) &&
      match drop (length (takeWhile is_scheme_char u)) u with
      | d :: rest => (d =? 58) && nonEmptyText rest && forallb (fun c => negb (is_js_space c)) rest
      | [] => false
      end
  | [] => false
  end.

Definition Tags := list (jsstr * jsstr).

Fixpoint tagsGet (name : jsstr) (tags : Tags) : option jsstr :=
  match tags with [] => None | (k, v) :: ts => if bool_decide (k = name) then Some v else tagsGet name ts end.

Section record.
Context `{R : Runtime}.

(** The tags after the version, with the notes on those set aside. *)
Fixpoint dmarc_tags (parts : list jsstr) (tags : Tags) (notes : list jsstr) : Tags * list jsstr :=
  match parts with
  | [] => (tags, notes)
  | part :: parts =>
      match indexOf 61 part with
      | None => dmarc_tags parts tags (notes ++ [js "ignored malformed tag " ++ [34] ++ part ++ [34]])
      | Some eq =>
          let name := toLowerCase (trim (take eq part)) in
          let value := trim (drop (S eq) part) in
          match tagsGet name tags with
          | Some _ => dmarc_tags parts tags (notes ++ [js "ignored duplicate " ++ name ++ js "= tag"])
          | None => dmarc_tags parts (tags ++ [(name, value)]) notes
          end
      end
  end.

Definition startsDmarc (first : option jsstr) : bool :=
  match first with
  | None => false
  | Some f =>
      match indexOf 61 f with
      | None => false
      | Some eq => bool_decide (trim (take eq f) = js "v") && bool_decide (trim (drop (S eq) f) = js "DMARC1")
      end
  end.

Definition alignmentMode (name : jsstr) (tags : Tags) : DmarcAlignmentMode * list jsstr :=
  match toLowerCase <$> tagsGet name tags with
  | None => (ModeR, [])
  | Some v =>
      if bool_decide (v = js "r") then (ModeR, [])
      else if bool_decide (v = js "s") then (ModeS, [])
      else (ModeR, [js "ignored invalid " ++ name ++ js "=" ++ v ++ js "; using relaxed"])
  end.

Definition digitsUpTo (n : nat) (s : jsstr) : bool := (1 <=? length s)%nat && (length s <=? n)%nat && forallb is_digit s.

Definition pctOf (tags : Tags) : Z * list jsstr :=
  match tagsGet (js "pct") tags with
  | None => (100, [])
  | Some v => if digitsUpTo 3 v && (Number v <=? 100) then (Number v, []) else (100, [js "ignored invalid pct=" ++ v ++ js "; using 100"])
  end.

Definition riOf (tags : Tags) : Z * list jsstr :=
  match tagsGet (js "ri") tags with
  | None => (86400, [])
  | Some v => if digitsUpTo 10 v then (Number v, []) else (86400, [js "ignored invalid ri=" ++ v])
  end.

(** The policies [p=] and [sp=] with whether they were assumed and the note; [inl] rejects the record. *)
Definition policiesOf (tags : Tags) : jsstr + (DmarcPolicy * option DmarcPolicy * bool * list jsstr) :=
  let pRaw := toLowerCase <$> tagsGet (js "p") tags in
  let spRaw := toLowerCase <$> tagsGet (js "sp") tags in
  let rua := commaList (tagsGet (js "rua") tags) 44 in
  let hasValidRua := existsb (fun u => isUri (stripSizeLimit u)) rua in
  let bad what :=
    if negb hasValidRua then
      inl (js "DMARC record has " ++ what ++ js " and no valid rua=; DMARC is not applied (RFC 7489 " ++ SECT ++ js "6.6.3)")
    else
      inr (PNone, None, true, [js "record has " ++ what ++ js " but a valid rua=: treated as p=none (RFC 7489 " ++ SECT ++ js "6.6.3)"]) in
  match pRaw, pRaw ≫= isPolicy with
  | None, _ => bad (js "no p= tag")
  | Some v, None => bad (js "invalid p=" ++ v)
  | Some _, Some p =>
      match spRaw, spRaw ≫= isPolicy with
      | Some v, None => bad (js "invalid sp=" ++ v)
      | _, sp => inr (p, sp, false, [])
      end
  end.

Definition npOf (tags : Tags) (pAssumed : bool) : option DmarcPolicy * list jsstr :=
  match toLowerCase <$> tagsGet (js "np") tags with
  | None => (None, [])
  | Some v =>
      match isPolicy v with
      | Some np => (if pAssumed then None else Some np, [])
      | None => (None, [js "ignored invalid np=" ++ v])
      end
  end.

Definition parseDmarcRecord (txt : jsstr) : DmarcRecordParse :=
  let parts := List.filter nonEmptyText (trim <$> splitOn 59 txt) in
  if negb (startsDmarc (head parts)) then NotParsed false (js "not a DMARC record (does not start with v=DMARC1)")
  else
    let '(tags, notes) := dmarc_tags (tail parts) [] [] in
    match policiesOf tags with
    | inl reason => NotParsed true reason
    | inr (p, sp, pAssumed, pNotes) =>
        let '(np, npNotes) := npOf tags pAssumed in
        let '(adkim, adkimNotes) := alignmentMode (js "adkim") tags in
        let '(aspf, aspfNotes) := alignmentMode (js "aspf") tags in
        let '(pct, pctNotes) := pctOf tags in
        let '(ri, riNotes) := riOf tags in
        ParsedRecord (mkDmarc txt p sp np adkim aspf pct
          (commaList (tagsGet (js "rua") tags) 44) (commaList (tagsGet (js "ruf") tags) 44)
          (commaList (Some (default (js "0") (tagsGet (js "fo") tags))) 58)
          (commaList (Some (default (js "afrf") (tagsGet (js "rf") tags))) 58)
          ri pAssumed (notes ++ pNotes ++ npNotes ++ adkimNotes ++ aspfNotes ++ pctNotes ++ riNotes))
    end.

End record.

(** ** policy.ts *)

(** What a TXT query gives: a list, a resolver result (the TXT answers' strings), or an error. *)
Inductive TxtReply := TxtRecords (records : list jsstr) | TxtResult (rcode : Z) (answers : list (option (list jsstr))) | TxtThrown (message : jsstr).
Inductive ExistsReply := ExistsIs (b : bool) | ExistsThrown (message : jsstr).

Record DmarcDns := mkDmarcDns { dd_txt : jsstr -> TxtReply; dd_exists : option (jsstr -> ExistsReply) }.

Inductive LookupKind := LkRecord (recordDomain : jsstr) (record : DmarcRecord) | LkNone | LkTemperror.

Record DmarcPolicyLookup := mkLookup { lk_kind : LookupKind; lk_fromDomain : jsstr; lk_orgDomain : jsstr; lk_reasons : list jsstr }.

(** [inl] is the reason of a temporary failure. *)
Definition queryTxt (dns : DmarcDns) (name : jsstr) : jsstr + list jsstr :=
  match dd_txt dns name with
  | TxtRecords records => inr records
  | TxtResult rcode answers =>
      if negb (rcode =? 0) && negb (rcode =? 3) then
        inl (js "DNS temporary failure looking up " ++ name ++ js " (rcode " ++ dec rcode ++ js ")")
      else inr (concat ((fun a => match a with Some strings => [concat strings] | None => [] end) <$> answers))
  | TxtThrown message => inl (js "DNS temporary failure looking up " ++ name ++ js ": " ++ message)
  end.

Section policy.
Context `{R : Runtime} `{PD : PslData} (dns : DmarcDns) (icannOnly : bool).

Definition isDmarcParse (p : DmarcRecordParse) : bool := match p with ParsedRecord _ => true | NotParsed isDmarc _ => isDmarc end.

Definition dmarcOnly (records : list jsstr) : list DmarcRecordParse := List.filter isDmarcParse (parseDmarcRecord <$> records).

Definition lowerDomain (domain : jsstr) : jsstr := default (toLowerCase domain) (normalizeDomain domain).

Fixpoint tryCandidates (candidates : list jsstr) : option (LookupKind * list jsstr) :=
  match candidates with
  | [] => None
  | domain :: candidates =>
      let name := js "_dmarc." ++ domain in
      match queryTxt dns name with
      | inl reason => Some (LkTemperror, [reason])
      | inr records =>
          match dmarcOnly records with
          | [] => tryCandidates candidates
          | [NotParsed _ reason] => Some (LkNone, [reason])
          | [ParsedRecord record] => Some (LkRecord domain record, dr_notes record)
          | found => Some (LkNone, [dec (Z.of_nat (length found)) ++ js " DMARC records at " ++ name ++ js "; DMARC is not applied (RFC 7489 " ++ SECT ++ js "6.6.3)"])
          end
      end
  end.

Definition fetchDmarcPolicy (fromDomain : jsstr) : DmarcPolicyLookup :=
  let from := lowerDomain fromDomain in
  let org := default from (organizationalDomain from icannOnly) in
  let candidates := from :: (if bool_decide (org = from) then [] else [org]) in
  let '(kind, reasons) :=
    default (LkNone, [js "no DMARC record at " ++ joinWith (js " or ") ((fun d => js "_dmarc." ++ d) <$> candidates)])
      (tryCandidates candidates) in
  mkLookup kind from org reasons.

End policy.

(** ** evaluate.ts *)

Inductive DmarcResultCode := DPass | DFail | DNone | DTemperror | DPermerror.
Inductive AlignmentMode := Relaxed | Strict.
Inductive PolicySource := SrcP | SrcSp | SrcNp.

#[export] Instance DmarcResultCode_eq_dec : EqDecision DmarcResultCode.
Proof. solve_decision. Defined.

Record DmarcSpfInput := mkSpfInput { si_result : jsstr; si_domain : jsstr }.
Record DmarcDkimInput := mkDkimInput { di_result : jsstr; di_domain : option jsstr; di_testing : bool }.

(** [al_spfInput] holds the SPF result and domain when there was one; [dkim.aligned] is whether [al_dkimDomains] has any. *)
Record DmarcAlignment := mkAlignment {
  al_spfMode : AlignmentMode; al_spfInput : option DmarcSpfInput; al_spfAligned : bool;
  al_dkimMode : AlignmentMode; al_dkimDomains : list jsstr
}.

(** [ra_perDomain] lists the single-domain results when the From header named several. *)
Inductive DmarcResult := mkDmarcResult {
  ra_result : DmarcResultCode; ra_fromDomain : option jsstr; ra_fromDomains : list jsstr; ra_orgDomain : option jsstr;
  ra_record : option (jsstr * DmarcRecord); ra_policy : option (DmarcPolicy * PolicySource); ra_disposition : DmarcPolicy;
  ra_sampled : bool; ra_alignment : option DmarcAlignment; ra_perDomain : list DmarcResult; ra_reasons : list jsstr; ra_authResults : jsstr
}.

Definition SEVERITY (d : DmarcPolicy) : Z := match d with PNone => 0 | PQuarantine => 1 | PReject => 2 end.

Definition code_text (c : DmarcResultCode) : jsstr :=
  match c with DPass => js "pass" | DFail => js "fail" | DNone => js "none" | DTemperror => js "temperror" | DPermerror => js "permerror" end.

(** [first.replace(/\(/g, '[').replace(/\)/g, ']').replace(/[\\\r\n]/g, ' ')]. *)
Definition commentSafe (s : jsstr) : jsstr :=
  (fun c => if c =? 40 then 91 else if c =? 41 then 93 else if (c =? 92) || (c =? 13) || (c =? 10) then 32 else c) <$> s.

Definition authResultsDmarc (result : DmarcResultCode) (fromDomain : option jsstr) (record : option DmarcRecord)
  (disposition : DmarcPolicy) (sampled : bool) (reasons : list jsstr) : jsstr :=
  joinWith (js " ")
    ([js "dmarc=" ++ code_text result] ++
     match record with
     | Some r =>
         [js "(p=" ++ policy_text (dr_p r) ++ js " sp=" ++ policy_text (default (dr_p r) (dr_sp r)) ++ js " dis=" ++ policy_text disposition ++
          (if sampled then [] else js " pct=" ++ dec (dr_pct r) ++ js " not-sampled") ++ js ")"]
     | None => match reasons with [] => [] | first :: _ => [js "(" ++ commentSafe first ++ js ")"] end
     end ++
     match fromDomain with Some d => [js "header.from=" ++ d] | None => [] end).

Definition finishDmarc (result : DmarcResultCode) (fromDomain : option jsstr) (fromDomains : list jsstr) (orgDomain : option jsstr)
  (record : option (jsstr * DmarcRecord)) (policy : option (DmarcPolicy * PolicySource)) (disposition : DmarcPolicy) (sampled : bool)
  (alignment : option DmarcAlignment) (perDomain : list DmarcResult) (reasons : list jsstr) : DmarcResult :=
  mkDmarcResult result fromDomain fromDomains orgDomain record policy disposition sampled alignment perDomain reasons
    (authResultsDmarc result fromDomain (snd <$> record) disposition sampled reasons).

Definition modeOf (m : DmarcAlignmentMode) : AlignmentMode := match m with ModeS => Strict | ModeR => Relaxed end.
Definition mode_text (m : AlignmentMode) : jsstr := match m with Strict => js "strict" | Relaxed => js "relaxed" end.
Definition source_text (s : PolicySource) : jsstr := match s with SrcP => js "p" | SrcSp => js "sp" | SrcNp => js "np" end.

Section evaluate.
Context `{R : Runtime} `{PD : PslData} (icannOnly : bool).

Definition domainsAligned (a b : jsstr) (mode : AlignmentMode) : bool :=
  match normalizeDomain a, normalizeDomain b with
  | Some x, Some y =>
      match mode with
      | Strict => bool_decide (x = y)
      | Relaxed =>
          match organizationalDomain x icannOnly with
          | Some ox => bool_decide (Some ox = organizationalDomain y icannOnly)
          | None => false
          end
      end
  | _, _ => false
  end.

Definition spfReason (spf : option DmarcSpfInput) (fromDomain : jsstr) (mode : AlignmentMode) (aligned : bool) : jsstr :=
  match spf with
  | None => js "no SPF result"
  | Some s =>
      if negb (bool_decide (si_result s = js "pass")) then js "SPF " ++ si_result s ++ js " for " ++ si_domain s ++ js ": does not count"
      else if aligned then js "SPF pass for " ++ si_domain s ++ js ", " ++ mode_text mode ++ js "ly aligned with " ++ fromDomain
      else js "SPF pass for " ++ si_domain s ++ js " is not " ++ mode_text mode ++ js "ly aligned with " ++ fromDomain
  end.

Definition spfAligned (spf : option DmarcSpfInput) (fromDomain : jsstr) (mode : AlignmentMode) : bool :=
  match spf with
  | Some s => bool_decide (si_result s = js "pass") && domainsAligned (si_domain s) fromDomain mode
  | None => false
  end.

(** The loop over the signatures: the aligned domains and the reasons. *)
Fixpoint dkim_loop (dkim : list DmarcDkimInput) (fromDomain : jsstr) (mode : AlignmentMode) (alignedDomains reasons : list jsstr)
  : list jsstr * list jsstr :=
  match dkim with
  | [] => (alignedDomains, reasons)
  | d :: dkim =>
      let dom := default (js "?") (di_domain d) in
      let skip reason := dkim_loop dkim fromDomain mode alignedDomains (reasons ++ [reason]) in
      if negb (bool_decide (di_result d = js "pass")) then skip (js "DKIM " ++ di_result d ++ js " for d=" ++ dom ++ js ": does not count")
      else if negb (match di_domain d with Some dd => domainsAligned dd fromDomain mode | None => false end) then
        skip (js "DKIM pass for d=" ++ dom ++ js " is not " ++ mode_text mode ++ js "ly aligned with " ++ fromDomain)
      else if di_testing d then
        skip (js "DKIM pass for d=" ++ dom ++ js " is aligned but its key is in testing mode (t=y): not counted (RFC 6376 " ++ SECT ++ js "3.6.1)")
      else
        dkim_loop dkim fromDomain mode
          (if bool_decide (dom ∈ alignedDomains) then alignedDomains else alignedDomains ++ [dom])
          (reasons ++ [js "DKIM pass for d=" ++ dom ++ js ", " ++ mode_text mode ++ js "ly aligned with " ++ fromDomain])
  end.

Record DmarcIdentifiers := mkIdentifiers {
  id_fromDomain : jsstr; id_spf : option DmarcSpfInput; id_dkim : list DmarcDkimInput;
  id_fromDomainExists : option bool; id_forceFail : option jsstr
}.

(** Which policy applies, its source, and the reasons this adds. *)
Definition applicablePolicy (record : DmarcRecord) (isSubdomainOfOrg : bool) (exists_ : option bool) (fromDomain : jsstr)
  : DmarcPolicy * PolicySource * list jsstr :=
  if negb isSubdomainOfOrg then (dr_p record, SrcP, [])
  else
    match dr_np record, exists_ with
    | Some np, Some false => (np, SrcNp, [fromDomain ++ js " does not exist: np=" ++ policy_text np ++ js " applies (RFC 9091)"])
    | np, e =>
        let '(policy, source) := match dr_sp record with Some sp => (sp, SrcSp) | None => (dr_p record, SrcP) end in
        (policy, source,
         match np, e with Some _, None => [js "np= published but the From domain's existence is unknown; np= not applied"] | _, _ => [] end)
    end.

(** The disposition of a failing message: whether it was sampled, and the reason if not. *)
Definition failDisposition (policy : DmarcPolicy) (pct : Z) (not_drawn : bool) : DmarcPolicy * bool * list jsstr :=
  if negb (bool_decide (policy = PNone)) && (pct <? 100) && not_drawn then
    let disposition := match policy with PReject => PQuarantine | _ => PNone end in
    (disposition, false,
     [js "pct=" ++ dec pct ++ js ": message not sampled, " ++ policy_text policy ++ js " downgraded to " ++ policy_text disposition ++
      js " (RFC 7489 " ++ SECT ++ js "6.6.4)"])
  else (policy, true, []).

(** [draw pct] is [random() * 100 >= pct]. *)
Definition applyDmarcPolicy (lookup : DmarcPolicyLookup) (ids : DmarcIdentifiers) (draw : Z -> bool) : DmarcResult :=
  let fromDomain := lowerDomain (id_fromDomain ids) in
  let result code := finishDmarc code (Some fromDomain) [fromDomain] (Some (lk_orgDomain lookup)) in
  match lk_kind lookup with
  | LkNone => result DNone None None PNone true None [] (lk_reasons lookup)
  | LkTemperror => result DTemperror None None PNone true None [] (lk_reasons lookup)
  | LkRecord recordDomain record =>
      let isSubdomainOfOrg := bool_decide (recordDomain = lk_orgDomain lookup) && negb (bool_decide (fromDomain = lk_orgDomain lookup)) in
      let '(policy, source, policyReasons) := applicablePolicy record isSubdomainOfOrg (id_fromDomainExists ids) fromDomain in
      let spfMode := modeOf (dr_aspf record) in
      let spfOk := spfAligned (id_spf ids) fromDomain spfMode in
      let reasons := lk_reasons lookup ++ policyReasons ++ [spfReason (id_spf ids) fromDomain spfMode spfOk] ++
                     (match id_dkim ids with [] => [js "no DKIM signatures"] | _ => [] end) in
      let '(alignedDomains, reasons) := dkim_loop (id_dkim ids) fromDomain (modeOf (dr_adkim record)) [] reasons in
      let common code := result code (Some (recordDomain, record)) (Some (policy, source)) in
      let alignment := Some (mkAlignment spfMode (id_spf ids) spfOk (modeOf (dr_adkim record)) alignedDomains) in
      match id_forceFail ids with
      | None =>
          if spfOk || negb (length alignedDomains =? 0)%nat then common DPass PNone true alignment [] reasons
          else
            let '(disposition, sampled, sampleReasons) := failDisposition policy (dr_pct record) (draw (dr_pct record)) in
            common DFail disposition sampled alignment []
              (reasons ++ [js "neither SPF nor DKIM produced an aligned pass"] ++ sampleReasons ++
               [js "policy " ++ source_text source ++ js "=" ++ policy_text policy ++ js " " ++ ARROW ++ js " disposition " ++ policy_text disposition])
      | Some forced =>
          let '(disposition, sampled, sampleReasons) := failDisposition policy (dr_pct record) (draw (dr_pct record)) in
          common DFail disposition sampled alignment []
            (reasons ++ [forced] ++ sampleReasons ++
             [js "policy " ++ source_text source ++ js "=" ++ policy_text policy ++ js " " ++ ARROW ++ js " disposition " ++ policy_text disposition])
      end
  end.

End evaluate.

Section message.
Context `{R : Runtime} `{PD : PslData} (icannOnly : bool) (dns : DmarcDns).
Context (mailboxes : jsstr -> list jsstr) (draw : jsstr -> Z -> bool).

(** The text after the last at sign. *)
Definition addressDomain (address : jsstr) : option jsstr :=
  if includesChar 64 address then normalizeDomain (drop (afterLast 64 address) address) else None.

Fixpoint boxDomains (boxes domains : list jsstr) : list jsstr * option jsstr :=
  match boxes with
  | [] => (domains, None)
  | address :: boxes =>
      match addressDomain address with
      | None => (domains, Some (js "From address " ++ [34] ++ address ++ [34] ++ js " has no usable domain"))
      | Some domain => boxDomains boxes (if bool_decide (domain ∈ domains) then domains else domains ++ [domain])
      end
  end.

(** [value.replace(/\r\n/g, '')]. *)
Fixpoint removeLineBreaks (s : jsstr) : jsstr :=
  match s with
  | [] => []
  | c :: t => match t with d :: u => if (c =? CR) && (d =? LF) then removeLineBreaks u else c :: removeLineBreaks t | [] => [c] end
  end.

Fixpoint fromDomainsOf_loop (values domains : list jsstr) : list jsstr * option jsstr :=
  match values with
  | [] => (domains, None)
  | value :: values =>
      match mailboxes (removeLineBreaks value) with
      | [] => (domains, Some (js "From header has no address"))
      | boxes =>
          match boxDomains boxes domains with
          | (domains, Some problem) => (domains, Some problem)
          | (domains, None) => fromDomainsOf_loop values domains
          end
      end
  end.

Definition fromDomainsOf (values : list jsstr) : list jsstr * option jsstr := fromDomainsOf_loop values [].

Definition domainExists (domain : jsstr) : option bool * list jsstr :=
  match dd_exists dns with
  | None => (None, [])
  | Some f =>
      match f domain with
      | ExistsIs b => (Some b, [])
      | ExistsThrown message => (None, [js "could not tell whether " ++ domain ++ js " exists (" ++ message ++ js "); np= not applied"])
      end
  end.

Record EvaluateDmarcInput := mkDmarcInput { ed_from : list jsstr; ed_spf : option DmarcSpfInput; ed_dkim : list DmarcDkimInput }.

Definition withReasons (extra : list jsstr) (r : DmarcResult) : DmarcResult :=
  match extra with
  | [] => r
  | _ => finishDmarc (ra_result r) (ra_fromDomain r) (ra_fromDomains r) (ra_orgDomain r) (ra_record r) (ra_policy r)
           (ra_disposition r) (ra_sampled r) (ra_alignment r) (ra_perDomain r) (extra ++ ra_reasons r)
  end.

(** The existence test of evaluateOne, made only where [np=] could apply. *)
Definition existenceFor (lookup : DmarcPolicyLookup) : option bool * list jsstr :=
  match lk_kind lookup with
  | LkRecord recordDomain record =>
      if bool_decide (is_Some (dr_np record)) && bool_decide (recordDomain = lk_orgDomain lookup) &&
         negb (bool_decide (lk_fromDomain lookup = lk_orgDomain lookup))
      then domainExists (lk_fromDomain lookup) else (None, [])
  | _ => (None, [])
  end.

Definition evaluateOne (input : EvaluateDmarcInput) (fromDomain : jsstr) (forceFail : option jsstr) : DmarcResult :=
  let lookup := fetchDmarcPolicy dns icannOnly fromDomain in
  let '(exists_, extra) := existenceFor lookup in
  withReasons extra
    (applyDmarcPolicy icannOnly lookup (mkIdentifiers fromDomain (ed_spf input) (ed_dkim input) exists_ forceFail) (draw fromDomain)).

(** The strictest of the dispositions, the first of equals. *)
Definition strictest (rs : list DmarcResult) : DmarcPolicy :=
  fold_left (fun d r => if SEVERITY (ra_disposition r) >? SEVERITY d then ra_disposition r else d) rs PNone.

Definition noVerdict (domains : list jsstr) (reason : jsstr) : DmarcResult :=
  finishDmarc DPermerror None domains None None None PNone true None [] [reason].

(** Several From headers or author domains: each domain's policy is applied as to a failure. *)
Definition ambiguousAuthor (input : EvaluateDmarcInput) (from domains : list jsstr) : DmarcResult :=
  let what :=
    if (1 <? length from)%nat
    then js "message has " ++ dec (Z.of_nat (length from)) ++ js " From headers; alignment is ambiguous (RFC 6376 " ++ SECT ++ js "8.15)"
    else js "From header names " ++ dec (Z.of_nat (length domains)) ++ js " domains; alignment is ambiguous" in
  let forced := what ++ js ": treated as a DMARC failure (RFC 7489 " ++ SECT ++ js "6.6.1)" in
  let perDomain := (fun d => evaluateOne input d (Some forced)) <$> domains in
  let disposition := strictest perDomain in
  let reasons :=
    [what ++ js " [" ++ joinWith (js ", ") domains ++ js "]: DMARC permerror, each domain's policy applied as a failure (RFC 7489 " ++ SECT ++ js "6.6.1)"] ++
    ((fun r => default (js "?") (ra_fromDomain r) ++ js ": dmarc=" ++ code_text (ra_result r) ++ js ", disposition " ++ policy_text (ra_disposition r)) <$> perDomain) ++
    [js "strictest disposition applied: " ++ policy_text disposition] in
  finishDmarc DPermerror None domains None None None disposition true None perDomain reasons.

Definition evaluateDmarc (input : EvaluateDmarcInput) : DmarcResult :=
  match ed_from input with
  | [] => noVerdict [] (js "message has no From header")
  | from =>
      match fromDomainsOf from with
      | (domains, Some problem) => noVerdict domains problem
      | (domains, None) =>
          match from, domains with
          | [_], [only] => evaluateOne input only None
          | _, _ => ambiguousAuthor input from domains
          end
      end
  end.

End message.
