(* ===== verification/DmarcProofs.v ===== *)
(** * DmarcProofs: when DMARC passes, and what happens when the author is ambiguous *)
From S2P Require Import Prelude JsString JsStringFacts SpfIp Psl Dmarc.

Section verdict.
Context `{R : Runtime} `{PD : PslData} (icannOnly : bool) (dns : DmarcDns).
Context (mailboxes : jsstr -> list jsstr) (draw : jsstr -> Z -> bool).

(** ** Specification *)

(** [record] is the one DMARC record published for [domain] itself. *)
Definition published_at (domain : jsstr) (record : DmarcRecord) : Prop :=
  exists records, queryTxt dns (js "_dmarc." ++ domain) = inr records /\ dmarcOnly records = [ParsedRecord record].

Definition nothing_at (domain : jsstr) : Prop :=
  exists records, queryTxt dns (js "_dmarc." ++ domain) = inr records /\ dmarcOnly records = [].

(** The policy record of a From domain: its own, or its organizational domain's if it has none. *)
Definition policy_record (from recordDomain : jsstr) (record : DmarcRecord) : Prop :=
  (recordDomain = from /\ published_at from record) \/
  (nothing_at from /\ organizationalDomain from icannOnly = Some recordDomain /\ recordDomain <> from /\ published_at recordDomain record).

Definition spf_vouches (input : EvaluateDmarcInput) (from : jsstr) (record : DmarcRecord) : Prop :=
  exists s, ed_spf input = Some s /\ si_result s = js "pass" /\ domainsAligned icannOnly (si_domain s) from (modeOf (dr_aspf record)) = true.

(** A passing signature of an aligned domain, its key not in testing mode. *)
Definition dkim_vouches (input : EvaluateDmarcInput) (from : jsstr) (record : DmarcRecord) : Prop :=
  exists d dd, d ∈ ed_dkim input /\ di_result d = js "pass" /\ di_testing d = false /\ di_domain d = Some dd /\
    domainsAligned icannOnly dd from (modeOf (dr_adkim record)) = true.

(** ** Discovery *)

Lemma try_record candidates rd record notes : tryCandidates dns candidates = Some (LkRecord rd record, notes) ->
  notes = dr_notes record /\ exists pre post, candidates = pre ++ rd :: post /\ Forall nothing_at pre /\ published_at rd record.
Proof.
  induction candidates as [|c cs IH]; cbn [tryCandidates]; [done|].
  destruct (queryTxt dns (js "_dmarc." ++ c)) as [e|records] eqn:Eq; [done|].
  destruct (dmarcOnly records) as [|[r|? ?] [|]] eqn:Ed; try done.
  - intros (-> & pre & post & -> & Hpre & Hp)%IH. split; [done|]. exists (c :: pre), post. split; [done|]. split; [|done].
    constructor; [|done]. by exists records.
  - intros [= <- <- <-]. split; [done|]. exists [], cs. split; [done|]. split; [done|]. by exists records.
Qed.

Lemma try_found candidates pre rd post record : candidates = pre ++ rd :: post -> Forall nothing_at pre -> published_at rd record ->
  tryCandidates dns candidates = Some (LkRecord rd record, dr_notes record).
Proof.
  intros ->. induction 1 as [|c pre (records & Hq & Hd) _ IH]; cbn [app tryCandidates].
  - intros (records & -> & ->). done.
  - intros Hp. rewrite Hq, Hd. by apply IH.
Qed.

Definition lookup_of (d : jsstr) : DmarcPolicyLookup := fetchDmarcPolicy dns icannOnly d.

Lemma fetch_fields d : lk_fromDomain (lookup_of d) = lowerDomain d /\
  lk_orgDomain (lookup_of d) = default (lowerDomain d) (organizationalDomain (lowerDomain d) icannOnly).
Proof. unfold lookup_of, fetchDmarcPolicy. cbv zeta. by destruct (default _ _). Qed.

Lemma fetch_record d rd record : lk_kind (lookup_of d) = LkRecord rd record <-> policy_record (lowerDomain d) rd record.
Proof.
  unfold lookup_of, fetchDmarcPolicy, policy_record. cbv zeta. set (from := lowerDomain d).
  set (org := default from (organizationalDomain from icannOnly)).
  set (candidates := from :: (if bool_decide (org = from) then [] else [org])).
  assert (match tryCandidates dns candidates with Some (LkRecord rd' r', _) => rd' = rd /\ r' = record | _ => False end <->
          (rd = from /\ published_at from record) \/
          (nothing_at from /\ organizationalDomain from icannOnly = Some rd /\ rd <> from /\ published_at rd record)) as Hiff.
  { split.
    - destruct (tryCandidates dns candidates) as [[[rd' r'| |] notes]|] eqn:E; try done. intros [-> ->].
      apply try_record in E as (_ & pre & post & Hc & Hpre & Hp). unfold candidates in Hc. destruct pre as [|c pre].
      + injection Hc as <- _. by left.
      + right. injection Hc as <- Hc. inversion_clear Hpre as [|? ? Hn _]. case_bool_decide as Ho; [by destruct pre|].
        destruct pre as [|? [|]]; try done. injection Hc as Hrd _.
        assert (organizationalDomain from icannOnly = Some rd) as Hor.
        { revert Hrd Ho. unfold org. destruct (organizationalDomain from icannOnly); cbn; [by intros <-|done]. }
        split; [done|]. split; [done|]. split; [|done]. intros Hf. apply Ho. congruence.
    - intros [[-> Hp]|(Hn & Ho & Hne & Hp)].
      + by rewrite (try_found candidates [] from (tail candidates) record).
      + rewrite (try_found candidates [from] rd [] record); try done; [|by constructor].
        unfold candidates, org. rewrite Ho. cbn. by rewrite bool_decide_false. }
  rewrite <- Hiff. destruct (tryCandidates dns candidates) as [[k notes]|]; [|cbn; split; done].
  cbn. destruct k; split; try done; [by intros [= -> ->]|by intros [-> ->]].
Qed.

(** ** Alignment *)

Lemma spfAligned_spec input from record :
  spfAligned icannOnly (ed_spf input) from (modeOf (dr_aspf record)) = true <-> spf_vouches input from record.
Proof.
  unfold spfAligned, spf_vouches. destruct (ed_spf input) as [s|]; [|split; [done|by intros (? & ? & _)]].
  rewrite andb_true_iff, bool_decide_eq_true. naive_solver.
Qed.

Lemma dkim_loop_spec dkim from mode acc reasons :
  (fst (dkim_loop icannOnly dkim from mode acc reasons) <> []) <->
  acc <> [] \/ exists d dd, d ∈ dkim /\ di_result d = js "pass" /\ di_testing d = false /\ di_domain d = Some dd /\
    domainsAligned icannOnly dd from mode = true.
Proof.
  revert acc reasons. induction dkim as [|s dkim IH]; intros acc reasons; cbn [dkim_loop]; [cbn; set_solver|].
  assert (forall P : Prop, (exists d dd, d ∈ s :: dkim /\ di_result d = js "pass" /\ di_testing d = false /\ di_domain d = Some dd /\
      domainsAligned icannOnly dd from mode = true) <->
    (di_result s = js "pass" /\ di_testing s = false /\ exists dd, di_domain s = Some dd /\ domainsAligned icannOnly dd from mode = true) \/
    (exists d dd, d ∈ dkim /\ di_result d = js "pass" /\ di_testing d = false /\ di_domain d = Some dd /\
      domainsAligned icannOnly dd from mode = true)) as Hcons.
  { intros _. setoid_rewrite elem_of_cons. naive_solver. }
  rewrite (Hcons True). clear Hcons. case_bool_decide as Hres; cbn [negb]; [|rewrite IH; tauto].
  destruct (di_domain s) as [dd|] eqn:Hdd; cbn [negb]; [|rewrite IH; naive_solver].
  assert (forall dd', Some dd = Some dd' -> dd = dd') as Hinj by (by intros ? [= <-]).
  destruct (domainsAligned icannOnly dd from mode) eqn:Hal; cbn [negb];
    [|rewrite IH; split; [tauto|]; intros [?|[(_ & _ & dd' & ->%Hinj & ?)|?]]; [tauto|congruence|tauto]].
  destruct (di_testing s); [rewrite IH; split; [tauto|]; intros [?|[(_ & ? & _)|?]]; [tauto|done|tauto]|].
  rewrite IH. split; [intros _; right; left; eauto|]. intros _. left. cbn [from_option]. case_bool_decide as Hin; [|by destruct acc].
  intros ->. by apply elem_of_nil in Hin.
Qed.

Lemma dkimAligned_spec input from record reasons :
  negb (length (fst (dkim_loop icannOnly (ed_dkim input) from (modeOf (dr_adkim record)) [] reasons)) =? 0)%nat = true <->
  dkim_vouches input from record.
Proof.
  unfold dkim_vouches. transitivity (fst (dkim_loop icannOnly (ed_dkim input) from (modeOf (dr_adkim record)) [] reasons) <> []).
  - destruct (fst (dkim_loop _ _ _ _ _ _)); cbn; split; done.
  - rewrite dkim_loop_spec. set_solver.
Qed.

(** ** One domain *)

Lemma withReasons_fields extra r : ra_result (withReasons extra r) = ra_result r /\ ra_disposition (withReasons extra r) = ra_disposition r.
Proof. by destruct extra. Qed.

(** The reasons gathered do not influence which domains align. *)
Lemma dkim_loop_indep dkim from mode acc r1 r2 :
  fst (dkim_loop icannOnly dkim from mode acc r1) = fst (dkim_loop icannOnly dkim from mode acc r2).
Proof. revert acc r1 r2. induction dkim as [|s dk IH]; intros acc r1 r2; cbn [dkim_loop]; [done|]. repeat case_match; apply IH. Qed.

(** The result code of applying a policy. *)
Lemma apply_pass lookup ids dr : ra_result (applyDmarcPolicy icannOnly lookup ids dr) = DPass <->
  exists rd record, lk_kind lookup = LkRecord rd record /\ id_forceFail ids = None /\
    (spfAligned icannOnly (id_spf ids) (lowerDomain (id_fromDomain ids)) (modeOf (dr_aspf record)) = true \/
     exists reasons, negb (length (fst (dkim_loop icannOnly (id_dkim ids) (lowerDomain (id_fromDomain ids)) (modeOf (dr_adkim record)) [] reasons)) =? 0)%nat = true).
Proof.
  unfold applyDmarcPolicy. destruct (lk_kind lookup) as [rd record| |]; cbv zeta.
  2-3: split; [done|naive_solver].
  destruct (applicablePolicy _ _ _ _) as [[policy source] preasons].
  set (reasons := lk_reasons lookup ++ _). set (from := lowerDomain _).
  destruct (dkim_loop icannOnly (id_dkim ids) from (modeOf (dr_adkim record)) [] reasons) as [al rs] eqn:Ed.
  assert (forall r, fst (dkim_loop icannOnly (id_dkim ids) from (modeOf (dr_adkim record)) [] r) = al) as Hal
    by (intros r; by rewrite (dkim_loop_indep _ _ _ _ r reasons), Ed).
  destruct (id_forceFail ids) as [forced|].
  { destruct (failDisposition _ _ _) as [[dis sam] sr]. cbn. split; [done|naive_solver]. }
  destruct (spfAligned _ _ _ _ || negb (length al =? 0)%nat) eqn:Ho.
  - cbn. split; [|done]. intros _. exists rd, record. split; [done|]. split; [done|]. apply orb_prop in Ho as [Ho|Ho]; [by left|].
    right. exists []. by rewrite Hal.
  - destruct (failDisposition _ _ _) as [[dis sam] sr]. cbn. split; [done|]. apply orb_false_elim in Ho as [H1 H2].
    intros (rd' & record' & [= <- <-] & _ & [H|[r H]]); [congruence|]. rewrite Hal in H. congruence.
Qed.

Lemma one_pass input d forced : ra_result (evaluateOne icannOnly dns draw input d forced) = DPass <->
  forced = None /\ exists rd record, policy_record (lowerDomain d) rd record /\
    (spf_vouches input (lowerDomain d) record \/ dkim_vouches input (lowerDomain d) record).
Proof.
  unfold evaluateOne. fold (lookup_of d). cbv zeta. destruct (existenceFor dns (lookup_of d)) as [ex extra] eqn:Eex.
  rewrite (proj1 (withReasons_fields _ _)), apply_pass. cbn [id_forceFail id_spf id_dkim id_fromDomain].
  setoid_rewrite fetch_record. setoid_rewrite spfAligned_spec. setoid_rewrite dkimAligned_spec. split.
  - intros (rd & record & Hp & -> & H). split; [done|]. exists rd, record. split; [done|]. naive_solver.
  - intros (-> & rd & record & Hp & H). exists rd, record. split; [done|]. split; [done|]. destruct H; [by left|right]. exists []. done.
Qed.

(** C39: DMARC passes exactly when it should: the message has one From header with one author domain,
    that domain or its organizational domain publishes one DMARC record, and either SPF passed for a domain
    aligned with the author's, or a DKIM signature of an aligned domain passed whose key is not in testing
    mode; alignment being strict or relaxed as the record asks. *)
Theorem dmarc_pass_iff (input : EvaluateDmarcInput) :
  ra_result (evaluateDmarc icannOnly dns mailboxes draw input) = DPass <->
  exists value d rd record,
    ed_from input = [value] /\ fromDomainsOf mailboxes [value] = ([d], None) /\ policy_record (lowerDomain d) rd record /\
    (spf_vouches input (lowerDomain d) record \/ dkim_vouches input (lowerDomain d) record).
Proof.
  unfold evaluateDmarc. split.
  - destruct (ed_from input) as [|v vs] eqn:Ef; [done|]. destruct (fromDomainsOf mailboxes (v :: vs)) as [domains [p|]] eqn:Eo; [done|].
    destruct vs as [|v2 vs]; [|done]. destruct domains as [|d [|d2 ds]]; [done| |done].
    intros (_ & rd & record & Hp & H)%one_pass. exists v, d, rd, record. done.
  - intros (v & d & rd & record & -> & -> & Hp & H). apply one_pass. split; [done|]. by exists rd, record.
Qed.

(** ** Several authors *)

Lemma strictest_spec rs : forall d0,
  let s := fold_left (fun d r => if SEVERITY (ra_disposition r) >? SEVERITY d then ra_disposition r else d) rs d0 in
  SEVERITY d0 <= SEVERITY s /\ (forall r, r ∈ rs -> SEVERITY (ra_disposition r) <= SEVERITY s) /\
  (s = d0 \/ exists r, r ∈ rs /\ s = ra_disposition r).
Proof.
  induction rs as [|r rs IH]; intros d0; cbn [fold_left]; [cbn; set_solver by lia|].
  destruct (IH (if SEVERITY (ra_disposition r) >? SEVERITY d0 then ra_disposition r else d0)) as (H1 & H2 & H3). split_and!.
  - destruct (_ >? _) eqn:E; lia.
  - intros x [->|Hx]%elem_of_cons; [|by apply H2]. destruct (_ >? _) eqn:E; lia.
  - destruct H3 as [->|(x & Hx & ->)]; [|right; exists x; set_solver]. destruct (_ >? _); [right; exists r; set_solver|by left].
Qed.

(** What a failing message gets from the policy of domain [d]: its own [p=]; for a subdomain covered by
    its organizational domain's record, [np=] if the domain is known not to exist, else [sp=], else [p=];
    downgraded one step if the message is not sampled. *)
Definition failure_disposition (d : jsstr) (disposition : DmarcPolicy) : Prop :=
  (exists rd record,
     policy_record (lowerDomain d) rd record /\
     let org := default (lowerDomain d) (organizationalDomain (lowerDomain d) icannOnly) in
     let policy :=
       if bool_decide (rd = org /\ lowerDomain d <> org) then
         match dr_np record, fst (domainExists dns (lowerDomain d)) with
         | Some np, Some false => np
         | _, _ => default (dr_p record) (dr_sp record)
         end
       else dr_p record in
     disposition = fst (fst (failDisposition policy (dr_pct record) (draw d (dr_pct record))))) \/
  ((forall rd record, ~ policy_record (lowerDomain d) rd record) /\ disposition = PNone).

(** The policy chosen by [applicablePolicy], with the existence test evaluateOne makes for it. *)
Lemma policy_chosen d rd record : lk_kind (lookup_of d) = LkRecord rd record ->
  let org := lk_orgDomain (lookup_of d) in
  fst (fst (applicablePolicy record (bool_decide (rd = org) && negb (bool_decide (lowerDomain d = org)))
    (fst (existenceFor dns (lookup_of d))) (lowerDomain d))) =
  if bool_decide (rd = org /\ lowerDomain d <> org) then
    match dr_np record, fst (domainExists dns (lowerDomain d)) with
    | Some np, Some false => np
    | _, _ => default (dr_p record) (dr_sp record)
    end
  else dr_p record.
Proof.
  intros Hk. cbv zeta. unfold existenceFor, applicablePolicy. rewrite Hk. destruct (fetch_fields d) as [-> _].
  set (org := lk_orgDomain _). rewrite bool_decide_and, bool_decide_not.
  destruct (bool_decide (rd = org)), (bool_decide (lowerDomain d = org)); cbn; try done.
  destruct (dr_np record) as [np|]; cbn; [|by destruct (dr_sp record)].
  destruct (fst (domainExists _ _)) as [[|]|]; by destruct (dr_sp record).
Qed.

Lemma one_forced input d forced : let r := evaluateOne icannOnly dns draw input d (Some forced) in
  ra_result r <> DPass /\ failure_disposition d (ra_disposition r).
Proof.
  cbv zeta. split; [intros H; by apply one_pass in H as [? _]|].
  unfold evaluateOne. fold (lookup_of d). cbv zeta. destruct (existenceFor dns (lookup_of d)) as [ex extra] eqn:Eex.
  rewrite (proj2 (withReasons_fields _ _)). unfold applyDmarcPolicy, failure_disposition. cbn [id_forceFail id_fromDomain id_fromDomainExists id_spf id_dkim].
  destruct (lk_kind (lookup_of d)) as [rd record| |] eqn:Ek; cbv zeta.
  2-3: right; split; [|done]; intros rd record Hp%fetch_record; congruence.
  left. exists rd, record. split; [by apply fetch_record|]. rewrite <- (proj2 (fetch_fields d)). cbv zeta.
  rewrite <- (policy_chosen d rd record Ek), Eex. cbn [fst].
  destruct (applicablePolicy _ _ _ _) as [[policy source] preasons]. destruct (dkim_loop _ _ _ _ _ _) as [al rs].
  cbn [fst]. destruct (failDisposition _ _ _) as [[dis sam] sr]. done.
Qed.

(** A message with several From headers, or with authors in several domains, can never pass: it is
    a permerror, and the disposition is the strictest of those that a failure would get from the policy of
    each named domain. *)
Theorem dmarc_ambiguous_author (input : EvaluateDmarcInput) (domains : list jsstr) :
  ed_from input <> [] -> fromDomainsOf mailboxes (ed_from input) = (domains, None) ->
  (length (ed_from input) <> 1 \/ length domains <> 1)%nat ->
  let r := evaluateDmarc icannOnly dns mailboxes draw input in
  ra_result r = DPermerror /\
  (forall d, d ∈ domains -> exists dis, failure_disposition d dis /\ SEVERITY dis <= SEVERITY (ra_disposition r)) /\
  (ra_disposition r = PNone \/ exists d, d ∈ domains /\ failure_disposition d (ra_disposition r)).
Proof.
  intros Hne Hd Hamb.
  assert (evaluateDmarc icannOnly dns mailboxes draw input = ambiguousAuthor icannOnly dns draw input (ed_from input) domains) as ->.
  { unfold evaluateDmarc. destruct (ed_from input) as [|v vs]; [done|]. rewrite Hd. destruct vs, domains as [|? [|]]; try done. cbn in Hamb. lia. }
  unfold ambiguousAuthor. set (per := _ <$> domains). cbn [finishDmarc ra_result ra_disposition].
  destruct (strictest_spec per PNone) as (_ & Hle & Hatt). fold (strictest per) in Hle, Hatt.
  split_and!; [done| |].
  - intros d Hin. eexists. split; [eapply (one_forced input d)|]. apply Hle, list_elem_of_fmap. by exists d.
  - destruct Hatt as [?|(r & Hr & ->)]; [by left|]. right. apply list_elem_of_fmap in Hr as (d & -> & Hin). exists d. split; [done|].
    apply one_forced.
Qed.

End verdict.

(** A sender whose domains publish [p=reject] and [p=quarantine], and a From header with both. *)
Definition demo_runtime : Runtime := {| uni_upper s := s; uni_lower s := s; big_string _ := []; isIPv6 _ := false |}.

Definition demo_dns : DmarcDns := {|
  dd_txt name :=
    if bool_decide (name = js "_dmarc.a.com") then TxtRecords [js "v=DMARC1; p=quarantine; adkim=s"]
    else if bool_decide (name = js "_dmarc.b.com") then TxtRecords [js "v=spf1 -all"; js "v=DMARC1; p=reject; sp=none"]
    else TxtRecords [];
  dd_exists := None
|}.

Definition demo_boxes (value : jsstr) : list jsstr := splitOn 44 value.

Lemma dmarc_ambiguous_author_witness :
  let R := demo_runtime in let PD := demo_psl in
  let input := mkDmarcInput [js "x@a.com,y@b.com"] (Some (mkSpfInput (js "pass") (js "a.com"))) [] in
  let r := evaluateDmarc false demo_dns demo_boxes (fun _ _ => true) input in
  ra_disposition r = PReject /\ ra_result r = DPermerror /\
  ra_result (evaluateDmarc false demo_dns demo_boxes (fun _ _ => true) (mkDmarcInput [js "x@mail.a.com"] (ed_spf input) [])) = DPass.
Proof.
  intros R PD input r. split; [vm_compute; reflexivity|]. split; [|vm_compute; reflexivity].
  assert (fromDomainsOf demo_boxes (ed_from input) = ([js "a.com"; js "b.com"], None)) as Hd by (vm_compute; reflexivity).
  apply (dmarc_ambiguous_author (R := R) (PD := PD) false demo_dns demo_boxes (fun _ _ => true) input [js "a.com"; js "b.com"]).
  - discriminate.
  - exact Hd.
  - right. discriminate.
Defined.
