(* ===== verification/JsDouble.v ===== *)
(** * JsDouble: rounding of floating-point results

    A finite number is its rational value; an operation computes exactly and then rounds to the nearest
    binary64 number, ties to even ([fl]). The sources that use this stay far from the overflow and
    subnormal ranges, which are not modelled. *)
From Stdlib Require Import QArith Qround Qabs Qpower Lqa.
From S2P Require Import Prelude.

Definition pow2 (e : Z) : Q := Qpower 2 e.

(** To the nearest integer, ties to even. *)
Definition nearest (x : Q) : Z :=
  let f := Qfloor x in
  let r := (x - inject_Z f)%Q in
  match (r ?= 1 # 2)%Q with
  | Lt => f
  | Gt => f + 1
  | Eq => if Z.even f then f else f + 1
  end.

(** The exponent of a nonzero number: [2 ^ e <= |q| < 2 ^ (e + 1)]. *)
Definition exponent (q : Q) : Z :=
  let e := Z.log2 (Z.abs (Qnum q)) - Z.log2 (Zpos (Qden q)) in
  if Qle_bool (pow2 e) (Qabs q) then e else e - 1.

Definition fl (q : Q) : Q :=
  if Qnum q =? 0 then 0%Q
  else
    let k := 52 - exponent q in
    let m := nearest (Qabs q * pow2 k) in
    Qred (inject_Z (Z.sgn (Qnum q) * m) * pow2 (- k)).

(** [Math.round]. *)
Definition mathRound (x : Q) : Z := Qfloor (x + (1 # 2))%Q.

(** Half a unit in the last place. *)
Definition ulp_half : Q := pow2 (-53).

Lemma pow2_pos e : (0 < pow2 e)%Q.
Proof. apply Qpower_0_lt. lra. Qed.

Lemma pow2_plus a b : (pow2 (a + b) == pow2 a * pow2 b)%Q.
Proof. apply Qpower_plus. lra. Qed.

Lemma pow2_inject e : 0 <= e -> (inject_Z (2 ^ e) == pow2 e)%Q.
Proof. intros He. unfold pow2. change 2%Q with (inject_Z 2). by apply Zpower_Qpower. Qed.

Lemma nearest_error x : (Qabs (inject_Z (nearest x) - x) <= 1 # 2)%Q.
Proof.
  unfold nearest. pose proof (Qfloor_le x) as H1. pose proof (Qlt_floor x) as H2. rewrite inject_Z_plus in H2. set (f := inject_Z (Qfloor x)) in *.
  change (inject_Z 1) with 1%Q in H2. apply Qabs_Qle_condition.
  destruct (Qcompare_spec (x - f) (1 # 2)) as [H|H|H]; [destruct (Z.even (Qfloor x))| |]; rewrite ?inject_Z_plus; change (inject_Z 1) with 1%Q; fold f; lra.
Qed.

(** The exponent is not too large. *)
Lemma exponent_le q : Qnum q <> 0 -> (pow2 (exponent q) <= Qabs q)%Q.
Proof.
  intros Hn. unfold exponent. set (la := Z.log2 (Z.abs (Qnum q))). set (ld := Z.log2 (Zpos (Qden q))).
  destruct (Qle_bool (pow2 (la - ld)) (Qabs q)) eqn:E; [by apply Qle_bool_iff|].
  pose proof (Z.log2_spec (Z.abs (Qnum q)) ltac:(lia)) as [Ha _]. pose proof (Z.log2_spec (Zpos (Qden q)) ltac:(lia)) as [_ Hd]. fold la in Ha. fold ld in Hd.
  assert (0 <= la) by apply Z.log2_nonneg. assert (0 <= ld) by apply Z.log2_nonneg.
  assert (Qabs q == inject_Z (Z.abs (Qnum q)) / inject_Z (Zpos (Qden q)))%Q as ->.
  { destruct q as [n d]. cbn. unfold Qeq. cbn. lia. }
  apply Qle_shift_div_l; [by apply Qlt_shift_mult_l || (change 0%Q with (inject_Z 0); rewrite <- Zlt_Qlt; lia)|].
  apply Qle_trans with (pow2 (la - ld - 1) * pow2 (Z.succ ld))%Q.
  - rewrite (Qmult_comm _ (pow2 (Z.succ ld))), (Qmult_comm _ (inject_Z _)). apply Qmult_le_compat_r; [|apply Qlt_le_weak, pow2_pos].
    rewrite <- (pow2_inject (Z.succ ld)) by lia. rewrite <- Zle_Qle. lia.
  - rewrite <- pow2_plus. replace (la - ld - 1 + Z.succ ld) with la by lia. rewrite <- pow2_inject by done. by rewrite <- Zle_Qle.
Qed.

(** Rounding changes a number by at most half a unit in its last place. *)
Lemma fl_error q : (Qabs (fl q - q) <= Qabs q * ulp_half)%Q.
Proof.
  unfold fl. destruct (Z.eqb_spec (Qnum q) 0) as [H0|Hn].
  { assert (q == 0)%Q as -> by (unfold Qeq; cbn; lia). vm_compute. discriminate. }
  rewrite Qred_correct. set (k := 52 - exponent q). set (x := (Qabs q * pow2 k)%Q). pose proof (nearest_error x) as He.
  assert (pow2 52 <= x)%Q as Hx.
  { unfold x. replace 52 with (exponent q + k) at 1 by (unfold k; lia). rewrite pow2_plus. apply Qmult_le_compat_r; [by apply exponent_le|].
    apply Qlt_le_weak, pow2_pos. }
  assert (x * pow2 (- k) == Qabs q)%Q as Hxk.
  { unfold x. rewrite <- Qmult_assoc, <- pow2_plus. replace (k + - k) with 0 by lia. cbn. ring. }
  assert (q == inject_Z (Z.sgn (Qnum q)) * Qabs q)%Q as Hsgn.
  { destruct q as [n d]. cbn. unfold Qeq. cbn. rewrite (Z.mul_comm (Z.sgn n)), Z.abs_sgn. lia. }
  assert (inject_Z (Z.sgn (Qnum q) * nearest x) * pow2 (- k) - q == inject_Z (Z.sgn (Qnum q)) * ((inject_Z (nearest x) - x) * pow2 (- k)))%Q as ->.
  { rewrite inject_Z_mult. rewrite Hsgn at 2. rewrite <- Hxk. ring. }
  rewrite !Qabs_Qmult, (Qabs_pos (pow2 (- k))) by (apply Qlt_le_weak, pow2_pos).
  assert (Qabs (inject_Z (Z.sgn (Qnum q))) == 1)%Q as -> by (destruct (Qnum q); cbn; [done|reflexivity..]).
  rewrite Qmult_1_l. apply Qle_trans with ((1 # 2) * pow2 (- k))%Q; [apply Qmult_le_compat_r; [done|apply Qlt_le_weak, pow2_pos]|].
  rewrite <- Hxk. rewrite <- Qmult_assoc, (Qmult_comm (pow2 (- k))), Qmult_assoc. apply Qmult_le_compat_r; [|apply Qlt_le_weak, pow2_pos].
  change (1 # 2)%Q with (pow2 (-1)). change (-1) with (52 + -53). rewrite pow2_plus. apply Qmult_le_compat_r; [done|].
  apply Qlt_le_weak, pow2_pos.
Qed.

Lemma mathRound_bounds x lo hi : (inject_Z lo <= x)%Q -> (x <= inject_Z hi)%Q -> lo <= mathRound x <= hi.
Proof.
  intros Hl Hh. unfold mathRound. pose proof (Qfloor_le (x + (1 # 2))) as H1. pose proof (Qlt_floor (x + (1 # 2))) as H2.
  rewrite inject_Z_plus in H2. change (inject_Z 1) with 1%Q in H2. split.
  - apply Z.lt_succ_r. unfold Z.succ. rewrite Zlt_Qlt, inject_Z_plus. change (inject_Z 1) with 1%Q. lra.
  - apply Z.lt_succ_r. unfold Z.succ. rewrite Zlt_Qlt, inject_Z_plus. change (inject_Z 1) with 1%Q. lra.
Qed.
