(* ===== verification/DeliveryState.v ===== *)
(** * DeliveryState: the per-recipient outbound state machine (apps/delivery/src/state.ts)

    A [Date] is its time value in milliseconds. [null] and [undefined] are [None]. *)

From Stdlib Require Import QArith Qabs Lqa.
From S2P Require Import Prelude JsString JsDouble.

Definition MINUTE : Z := 60000.
Definition HOUR : Z := 60 * MINUTE.
Definition DAY : Z := 24 * HOUR.

Definition retrySchedule : list Z :=
  [5 * MINUTE; 10 * MINUTE; 20 * MINUTE; 40 * MINUTE; 1 * HOUR; 2 * HOUR; 3 * HOUR; 4 * HOUR].

(** The literal 0.15. *)
Definition JITTER : Q := fl (15 # 100).

Definition MAX_QUEUE_AGE_MS : Z := 5 * DAY.
Definition DELAY_DSN_AFTER_MS : Z := 4 * HOUR.

Definition baseDelayMs (attempts : Z) : Z :=
  let last_ := default (4 * HOUR) (last retrySchedule) in
  if attempts <? 1 then default last_ (head retrySchedule)
  else default last_ (retrySchedule !! Z.to_nat (attempts - 1)).

(** [Math.min(Math.max(random(), 0), 1)]. *)
Definition clampUnit (r : Q) : Q :=
  let r := if Qle_bool 0 r then r else 0%Q in
  if Qle_bool r 1 then r else 1%Q.

(** [random] is the number drawn. *)
Definition jitteredDelayMs (attempts : Z) (random : Q) : Z :=
  let base := inject_Z (baseDelayMs attempts) in
  let r := clampUnit random in
  mathRound (fl (base * fl (1 + fl (JITTER * fl (fl (2 * r) - 1))))%Q).

(** ** NOTIFY *)

Record NotifyPolicy := mkNotify { np_success : bool; np_failure : bool; np_delay : bool }.

Definition parseNotify `{Runtime} (value : option jsstr) : NotifyPolicy :=
  match value with
  | None => mkNotify false true true
  | Some v =>
      if (length (trim v) =? 0)%nat then mkNotify false true true
      else
        let words := trim <$> splitOn 44 (toUpperCase v) in
        let has w := bool_decide (w ∈ words) in
        if has (js "NEVER") then mkNotify false false false
        else mkNotify (has (js "SUCCESS")) (has (js "FAILURE")) (has (js "DELAY"))
  end.

(** ** Transitions *)

Inductive AttemptOutcome :=
| ODelivered (code : option Z) (enhanced : option jsstr) (text : option jsstr)
| OTemporary (code : option Z) (enhanced : option jsstr) (text : option jsstr)
| OPermanent (code : Z) (enhanced : option jsstr) (text : jsstr)
| OError (error : jsstr).

Record RecipientSnapshot := mkSnapshot {
  rc_id : jsstr; rc_outboundMessageId : jsstr; rc_address : jsstr; rc_attempts : Z; rc_createdAt : Z;
  rc_dsnNotify : option jsstr; rc_delayDsnSentAt : option Z; rc_failureDsnSentAt : option Z
}.

Inductive DsnKind := DsnDelay | DsnFailure.
Inductive BounceReason := RPermanent | RExpired.

Record DsnIntent := mkIntent {
  di_kind : DsnKind; di_recipientId : jsstr; di_outboundMessageId : jsstr; di_address : jsstr;
  di_code : option Z; di_enhanced : option jsstr; di_text : jsstr; di_queuedAt : Z; di_at : Z;
  di_willRetryUntil : option Z; di_reason : option BounceReason
}.

Inductive RecipientState := Queued | Attempting | Deferred | Delivered | Bounced | Cancelled.
Inductive OutcomeName := ODeliveredName | ODeferredName | OBouncedName | OErrorName.

#[export] Instance RecipientState_eq_dec : EqDecision RecipientState.
Proof. solve_decision. Defined.

(** [tr_state] is one of delivered, deferred and bounced. *)
Record Transition := mkTransition {
  tr_state : RecipientState; tr_attemptOutcome : OutcomeName; tr_nextAttemptAt : Z;
  tr_lastCode : option Z; tr_lastEnhanced : option jsstr; tr_lastText : option jsstr; tr_deliveredAt : option Z;
  tr_bounceReason : option BounceReason; tr_dsn : list DsnIntent
}.

Definition describe (outcome : AttemptOutcome) : option Z * option jsstr * jsstr :=
  match outcome with
  | OError error => (None, None, error)
  | ODelivered code enhanced text | OTemporary code enhanced text => (code, enhanced, default [] text)
  | OPermanent code enhanced text => (Some code, enhanced, text)
  end.

Definition emptyToNull (s : jsstr) : option jsstr := match s with [] => None | _ => Some s end.

Definition nextState `{Runtime} (r : RecipientSnapshot) (outcome : AttemptOutcome) (now : Z) (random : Q) : Transition :=
  let '(code, enhanced, text) := describe outcome in
  let notify := parseNotify (rc_dsnNotify r) in
  let expiresAt := rc_createdAt r + MAX_QUEUE_AGE_MS in
  let make state attemptOutcome next deliveredAt reason dsn :=
    mkTransition state attemptOutcome next code enhanced (emptyToNull text) deliveredAt reason dsn in
  let intent kind until reason :=
    mkIntent kind (rc_id r) (rc_outboundMessageId r) (rc_address r) code enhanced text (rc_createdAt r) now until reason in
  let bounce reason :=
    make Bounced OBouncedName now None (Some reason)
      (if np_failure notify && bool_decide (rc_failureDsnSentAt r = None) then [intent DsnFailure None (Some reason)] else []) in
  let defer name :=
    let next := Z.min (now + jitteredDelayMs (rc_attempts r) random) expiresAt in
    make Deferred name next None None
      (if np_delay notify && bool_decide (rc_delayDsnSentAt r = None) && (now - rc_createdAt r >=? DELAY_DSN_AFTER_MS)
       then [intent DsnDelay (Some expiresAt) None] else []) in
  match outcome with
  | ODelivered _ _ _ => make Delivered ODeliveredName now (Some now) None []
  | OPermanent _ _ _ => bounce RPermanent
  | OTemporary _ _ _ => if now >=? expiresAt then bounce RExpired else defer ODeferredName
  | OError _ => if now >=? expiresAt then bounce RExpired else defer OErrorName
  end.

Definition canCancel (state : RecipientState) : bool := match state with Queued | Deferred => true | _ => false end.

(** ** The retry schedule is kept, ends, and tells the sender *)

(** ** Jitter *)

Lemma fl_near q M : (Qabs q <= M)%Q -> (- (M * ulp_half) <= fl q - q <= M * ulp_half)%Q.
Proof.
  intros HM. apply Qabs_Qle_condition. eapply Qle_trans; [apply fl_error|]. apply Qmult_le_compat_r; [done|]. apply Qlt_le_weak, pow2_pos.
Qed.

Lemma clampUnit_range r : (0 <= clampUnit r <= 1)%Q.
Proof.
  unfold clampUnit. destruct (Qle_bool 0 r) eqn:E0.
  - apply Qle_bool_iff in E0. destruct (Qle_bool r 1) eqn:E1; [apply Qle_bool_iff in E1; lra|lra].
  - destruct (Qle_bool 0 1) eqn:E1; lra.
Qed.

Lemma baseDelay_in attempts : baseDelayMs attempts ∈ retrySchedule.
Proof.
  unfold baseDelayMs. cbv zeta. destruct (attempts <? 1); [by apply list_elem_of_here|].
  destruct (retrySchedule !! Z.to_nat (attempts - 1)) as [d|] eqn:E; cbn [default]; [by eapply list_elem_of_lookup_2|].
  do 7 apply list_elem_of_further. apply list_elem_of_here.
Qed.

Lemma jitter_factor r : (0 <= r <= 1)%Q -> (849 # 1000 <= fl (1 + fl (JITTER * fl (fl (2 * r) - 1))) <= 1151 # 1000)%Q.
Proof.
  intros Hr. assert (ulp_half == 1 # 9007199254740992)%Q as Hu by (vm_compute; reflexivity).
  assert (JITTER == 5404319552844595 # 36028797018963968)%Q as HJ by (vm_compute; reflexivity).
  pose proof (fl_near (2 * r) 2 ltac:(apply Qabs_Qle_condition; lra)) as Ha. set (a := fl (2 * r)) in *.
  pose proof (fl_near (a - 1) 2 ltac:(apply Qabs_Qle_condition; lra)) as Hb. set (b := fl (a - 1)) in *.
  pose proof (fl_near (JITTER * b) 1 ltac:(apply Qabs_Qle_condition; rewrite HJ; lra)) as Hc. set (c := fl (JITTER * b)) in *. rewrite HJ in Hc.
  pose proof (fl_near (1 + c) 2 ltac:(apply Qabs_Qle_condition; lra)) as Hd. set (d := fl (1 + c)) in *. lra.
Qed.

(** Each delay is within 16 percent of the documented one, rounding included. *)
Lemma jitter_bounds attempts random :
  84 * baseDelayMs attempts <= 100 * jitteredDelayMs attempts random <= 116 * baseDelayMs attempts.
Proof.
  unfold jitteredDelayMs. cbv zeta. pose proof (jitter_factor _ (clampUnit_range random)) as Hf.
  set (f := fl (1 + _)) in *. clearbody f. pose proof (baseDelay_in attempts) as Hin. set (b := baseDelayMs attempts) in *. clearbody b.
  assert (300000 <= b <= 14400000) as Hb by (unfold retrySchedule, HOUR, MINUTE in Hin; set_solver by lia).
  assert (exists k, b = 100 * k) as [k Hk].
  { exists (b / 100). unfold retrySchedule, HOUR, MINUTE in Hin. rewrite !elem_of_cons, elem_of_nil in Hin.
    destruct Hin as [->|[->|[->|[->|[->|[->|[->|[->|[]]]]]]]]]; reflexivity. }
  assert (inject_Z b == 100 * inject_Z k)%Q as Hbk by (rewrite Hk, inject_Z_mult; reflexivity).
  assert (3000 <= inject_Z k <= 144000)%Q as Hkr by (change 3000%Q with (inject_Z 3000); change 144000%Q with (inject_Z 144000); rewrite <- !Zle_Qle; lia).
  pose proof (fl_near (inject_Z b * f) (2 * inject_Z b)) as He.
  assert (0 < inject_Z b)%Q as Hb0 by lra.
  assert ((849 # 1000) * inject_Z b <= inject_Z b * f <= (1151 # 1000) * inject_Z b)%Q as Hbf by (split; nra).
  specialize (He ltac:(apply Qabs_Qle_condition; lra)). assert (ulp_half == 1 # 9007199254740992)%Q as Hu by (vm_compute; reflexivity). rewrite Hu in He.
  pose proof (mathRound_bounds (fl (inject_Z b * f)) (84 * k) (116 * k)) as Hm. rewrite !inject_Z_mult in Hm.
  change (inject_Z 84) with 84%Q in Hm. change (inject_Z 116) with 116%Q in Hm. specialize (Hm ltac:(lra) ltac:(lra)). lia.
Qed.

(** ** The life of a recipient that keeps failing *)

Section retries.
Context `{R : Runtime}.

Definition count_attempt (r : RecipientSnapshot) : RecipientSnapshot :=
  mkSnapshot (rc_id r) (rc_outboundMessageId r) (rc_address r) (rc_attempts r + 1) (rc_createdAt r) (rc_dsnNotify r) (rc_delayDsnSentAt r) (rc_failureDsnSentAt r).

(** A series of attempts, each made no earlier than it is due, that all end in a deferral; the DSN marks
    may change in between. *)
Inductive deferrals : RecipientSnapshot -> Z -> list Z -> Prop :=
| deferrals_nil r due : deferrals r due []
| deferrals_cons r due now outcome random delaySent failureSent rest :
    due <= now -> tr_state (nextState (count_attempt r) outcome now random) = Deferred ->
    deferrals (mkSnapshot (rc_id r) (rc_outboundMessageId r) (rc_address r) (rc_attempts r + 1) (rc_createdAt r) (rc_dsnNotify r) delaySent failureSent)
      (tr_nextAttemptAt (nextState (count_attempt r) outcome now random)) rest ->
    deferrals r due (now :: rest).

(** A deferral happens before the recipient is five days old, and sets the next attempt by the schedule. *)
Lemma deferred_spec r outcome now random : tr_state (nextState r outcome now random) = Deferred ->
  now < rc_createdAt r + MAX_QUEUE_AGE_MS /\
  tr_nextAttemptAt (nextState r outcome now random) = Z.min (now + jitteredDelayMs (rc_attempts r) random) (rc_createdAt r + MAX_QUEUE_AGE_MS).
Proof.
  unfold nextState. destruct (describe outcome) as [[code enhanced] text]. cbv zeta. destruct outcome; cbn [tr_state]; try done.
  all: destruct (now >=? _) eqn:E; cbn [tr_state tr_nextAttemptAt]; [done|]; split; [lia|done].
Qed.

(** The shortest time the first [k] delays can take, in percent of a millisecond. *)
Definition least_wait (k : nat) : Z := 84 * fold_right Z.add 0 ((fun i => baseDelayMs (Z.of_nat i + 1)) <$> seq 0 k).

Lemma least_wait_S k : least_wait (S k) = least_wait k + 84 * baseDelayMs (Z.of_nat k + 1).
Proof.
  unfold least_wait. rewrite seq_S, fmap_app, fold_right_app. cbn [fmap list_fmap fold_right Nat.add].
  assert (forall l a, fold_right Z.add a l = fold_right Z.add 0 l + a) as H by (induction l as [|x l IH]; intros a; cbn; [lia|rewrite IH; lia]).
  rewrite H. lia.
Qed.

Lemma baseDelay_pos attempts : 300000 <= baseDelayMs attempts.
Proof. pose proof (baseDelay_in attempts) as Hin. unfold retrySchedule, HOUR, MINUTE in Hin. set_solver by lia. Qed.

Lemma least_wait_le k k' : (k <= k')%nat -> least_wait k <= least_wait k'.
Proof. induction 1 as [|k' _ IH]; [done|]. rewrite least_wait_S. pose proof (baseDelay_pos (Z.of_nat k' + 1)). lia. Qed.

Lemma deferrals_bounded r due times : deferrals r due times -> forall k, rc_attempts r = Z.of_nat k -> least_wait k <= 100 * (due - rc_createdAt r) ->
  times <> [] -> (length times + k <= 41)%nat.
Proof.
  induction 1 as [|r due now outcome random delaySent failureSent rest Hdue Hst Hrest IH]; intros k Hk Hw Htimes; [done|]. clear Htimes.
  destruct (deferred_spec _ _ _ _ Hst) as [Hnow Hnext]. cbn [count_attempt rc_createdAt rc_attempts] in Hnow, Hnext.
  assert (k <= 40)%nat as Hk40.
  { apply Nat.nlt_ge. intros Hlt. pose proof (least_wait_le 41 k ltac:(lia)) as H41. assert (43200000000 <= least_wait 41) by (vm_compute; congruence).
    unfold MAX_QUEUE_AGE_MS, DAY, HOUR, MINUTE in Hnow. lia. }
  destruct (decide (rest = [])) as [->|Hne]; [cbn; lia|].
  assert (Z.of_nat (S k) = rc_attempts r + 1) as HSk by lia. cbn [length]. enough (length rest + S k <= 41)%nat by lia.
  apply IH; [cbn; lia| |done]. cbn [rc_createdAt]. rewrite Hnext, least_wait_S, Hk.
  destruct (Z.min_spec (now + jitteredDelayMs (Z.of_nat k + 1) random) (rc_createdAt r + MAX_QUEUE_AGE_MS)) as [[Hmin ->]|[Hmin ->]].
  - pose proof (jitter_bounds (Z.of_nat k + 1) random). lia.
  - exfalso. rewrite Hnext, Hk, Z.min_r in Hrest by done. inversion Hrest as [|? ? now' ? ? ? ? ? Hd' Hst']; subst; [done|].
    destruct (deferred_spec _ _ _ _ Hst') as [Hn' _]. cbn [count_attempt rc_createdAt] in Hn'. lia.
Qed.

Lemma bounced_spec r outcome now random : let t := nextState r outcome now random in tr_state t = Bounced ->
  ((exists code enhanced text, outcome = OPermanent code enhanced text /\ tr_bounceReason t = Some RPermanent) \/
   (rc_createdAt r + 5 * DAY <= now /\ tr_bounceReason t = Some RExpired)) /\
  exists i, di_kind i = DsnFailure /\ di_recipientId i = rc_id r /\
    tr_dsn t = if np_failure (parseNotify (rc_dsnNotify r)) && bool_decide (rc_failureDsnSentAt r = None) then [i] else [].
Proof.
  unfold nextState. destruct (describe outcome) as [[code enhanced] text]. cbv zeta.
  destruct outcome as [| |c e x|]; cbn [tr_state]; try done; try (destruct (now >=? _) eqn:E; cbn [tr_state]; [|done]); intros _;
    (split; [|eexists (mkIntent _ _ _ _ _ _ _ _ _ _ _); split; [|split; [|reflexivity]]; reflexivity]); cbn [tr_bounceReason];
    unfold MAX_QUEUE_AGE_MS in *; first [left; by eauto|right; split; [lia|done]].
Qed.

(** C34: a recipient whose attempts keep failing temporarily is deferred at most 41 times, whatever the
    jitter and however late the attempts are made; it is given up, and the sender told if NOTIFY allows and
    no failure DSN went out before, only by a permanent reply or by an attempt made five days or more after
    it was queued. *)
Theorem retries_end (r : RecipientSnapshot) (times : list Z) (Hnew : rc_attempts r = 0) (Hrun : deferrals r (rc_createdAt r) times) :
  (length times <= 41)%nat /\
  (forall outcome now random, let t := nextState r outcome now random in
     tr_state t = Bounced ->
     ((exists code enhanced text, outcome = OPermanent code enhanced text /\ tr_bounceReason t = Some RPermanent) \/
      (rc_createdAt r + 5 * DAY <= now /\ tr_bounceReason t = Some RExpired)) /\
     (tr_dsn t <> [] <-> np_failure (parseNotify (rc_dsnNotify r)) = true /\ rc_failureDsnSentAt r = None) /\
     Forall (fun i => di_kind i = DsnFailure /\ di_recipientId i = rc_id r) (tr_dsn t)) /\
  (forall outcome now random, rc_createdAt r + 5 * DAY <= now -> tr_state (nextState r outcome now random) <> Deferred).
Proof.
  split; [|split].
  - destruct (decide (times = [])) as [->|Hne]; [cbn; lia|]. pose proof (deferrals_bounded _ _ _ Hrun 0 Hnew) as H.
    rewrite Nat.add_0_r in H. apply H; [|done]. unfold least_wait. cbn. lia.
  - intros outcome now random t Hb. destruct (bounced_spec r outcome now random Hb) as (Hr & i & Hk & Hid & Hdsn). fold t in Hr, Hdsn.
    split; [done|]. rewrite Hdsn. destruct (np_failure _), (decide (rc_failureDsnSentAt r = None)) as [Hf|Hf];
      rewrite ?(bool_decide_true (rc_failureDsnSentAt r = None)), ?(bool_decide_false (rc_failureDsnSentAt r = None)) by done; cbn [andb].
    all: split; [naive_solver|by repeat constructor].
  - intros outcome now random Hn Hd. apply deferred_spec in Hd as [Hlt _]. unfold MAX_QUEUE_AGE_MS in Hlt. lia.
Qed.

End retries.

Definition demo_recipient : RecipientSnapshot := mkSnapshot (js "r1") (js "m1") (js "u@b.example") 0 1000 None None None.

Lemma retries_end_witness :
  let R := {| uni_upper s := s; uni_lower s := s; big_string _ := []; isIPv6 _ := false |} in
  (length [1000; 301000] <= 41)%nat /\ tr_state (nextState demo_recipient (OError (js "timeout")) (1000 + 5 * DAY) 0) <> Deferred.
Proof.
  intros R. destruct (retries_end (R := R) demo_recipient [1000; 301000]) as (H1 & _ & H3).
  - reflexivity.
  - apply (deferrals_cons _ _ _ (OError (js "timeout")) (1 # 2) None None); [vm_compute; congruence|vm_compute; reflexivity|].
    apply (deferrals_cons _ _ _ (OError (js "timeout")) (1 # 2) None None); [vm_compute; congruence|vm_compute; reflexivity|]. apply deferrals_nil.
  - split; [exact H1|]. apply H3. vm_compute. congruence.
Defined.
