(* ===== verification/SmtpClient.v ===== *)
(** * SmtpClient: one outbound SMTP connection and session (apps/delivery/src/client)

    connection.ts and session.ts. The other side is an oracle: for each point where the client waits, it
    gives, from everything that has happened so far, the socket events of that wait ([Peer]); when a read or
    a write is still pending after them its deadline passes. A thrown [Error] is its message. Logging is
    left out. *)
From S2P Require Import Prelude JsString Base64 SmtpReply SmtpReplyParser SmtpAddress SmtpCommand DotStuffer Utf8 DkimSign DeliveryState.

(** ** connection.ts *)

Inductive Stage := StConnect | StGreeting | StEhlo | StHelo | StStarttls | StTls | StAuth | StMail | StRcpt | StData | StDataBody | StDataEnd | StQuit.

Definition stage_text (s : Stage) : jsstr :=
  match s with
  | StConnect => js "connect" | StGreeting => js "greeting" | StEhlo => js "ehlo" | StHelo => js "helo" | StStarttls => js "starttls"
  | StTls => js "tls" | StAuth => js "auth" | StMail => js "mail" | StRcpt => js "rcpt" | StData => js "data"
  | StDataBody => js "data-body" | StDataEnd => js "data-end" | StQuit => js "quit"
  end.

(** The message of a [SmtpClientError]; its kind is not read by the session. *)
Definition clientError (stage : Stage) (message : jsstr) : jsstr := stage_text stage ++ js ": " ++ message.

Definition replyErrorText (e : SmtpReplyError) : jsstr :=
  match e with
  | BareCR => js "bare CR in reply" | BareLF => js "bare LF in reply" | LineTooLong => js "reply line too long"
  | ShortLine => js "reply line shorter than a code" | InvalidCode => js "invalid reply code" | InvalidSeparator => js "invalid reply separator"
  | InconsistentCodes => js "inconsistent codes in multiline reply" | TooManyLines => js "too many reply lines"
  end.

(** What a TLS socket tells about its session and peer. *)
Record TlsInfo := mkTls {
  tls_protocol : option jsstr; tls_cipher : jsstr; tls_subjectCN : option jsstr; tls_issuerCN : option jsstr;
  tls_authorized : bool; tls_authorizationError : jsstr
}.

Inductive SocketEvent := SockData (chunk : bytes) | SockError (message : jsstr) | SockClose | SockAbort (reason : jsstr).

(** Everything the session did and saw, in order. *)
Inductive ConnEvent := Sent (line : jsstr) | Wrote (data : bytes) | Read (reply : SmtpReply) | Secured (info : TlsInfo).

(** The handshake completes, or the socket fails, or nothing happens before the deadline. *)
Inductive Handshake := HandshakeOk (info : TlsInfo) | HandshakeFails (ev : SocketEvent) | HandshakeStalls.

Record Peer := mkPeer {
  p_read : list ConnEvent -> list SocketEvent;
  p_write : list ConnEvent -> list SocketEvent * bool;
  p_tls : list ConnEvent -> Handshake
}.

Record AttemptDetails := mkDetails {
  ad_mxHost : option jsstr; ad_mxIp : option jsstr; ad_localIp : option jsstr;
  ad_tlsVersion : option jsstr; ad_tlsCipher : option jsstr; ad_tlsPeer : option jsstr
}.

(** The connection, with the details record the session writes to. *)
Record Conn := mkConn {
  cn_parser : ReplyParser; cn_queue : list SmtpReply; cn_failure : option jsstr; cn_stage : Stage; cn_secure : option TlsInfo;
  cn_trace : list ConnEvent; cn_details : AttemptDetails
}.

Definition newConn (details : AttemptDetails) : Conn := mkConn (newReplyParser None None) [] None StGreeting None [] details.

Definition set_parser p c := mkConn p (cn_queue c) (cn_failure c) (cn_stage c) (cn_secure c) (cn_trace c) (cn_details c).
Definition set_queue q c := mkConn (cn_parser c) q (cn_failure c) (cn_stage c) (cn_secure c) (cn_trace c) (cn_details c).
Definition set_stage s c := mkConn (cn_parser c) (cn_queue c) (cn_failure c) s (cn_secure c) (cn_trace c) (cn_details c).
Definition set_tls t c := mkConn (cn_parser c) (cn_queue c) (cn_failure c) (cn_stage c) (Some t) (cn_trace c) (cn_details c).
Definition set_details d c := mkConn (cn_parser c) (cn_queue c) (cn_failure c) (cn_stage c) (cn_secure c) (cn_trace c) d.
Definition record ev c := mkConn (cn_parser c) (cn_queue c) (cn_failure c) (cn_stage c) (cn_secure c) (cn_trace c ++ [ev]) (cn_details c).

(** [fail]: the first failure stays. *)
Definition fail (error : jsstr) (c : Conn) : Conn :=
  match cn_failure c with
  | Some _ => c
  | None => mkConn (cn_parser c) (cn_queue c) (Some error) (cn_stage c) (cn_secure c) (cn_trace c) (cn_details c)
  end.

Definition onData (chunk : bytes) (c : Conn) : Conn :=
  match cn_failure c with
  | Some _ => c
  | None =>
      match rp_push chunk (cn_parser c) with
      | inl (e, p) => fail (clientError (cn_stage c) (js "unparseable reply: " ++ replyErrorText e)) (set_parser p c)
      | inr (replies, p) => set_queue (cn_queue c ++ replies) (set_parser p c)
      end
  end.

Definition onEvent (ev : SocketEvent) (c : Conn) : Conn :=
  match ev with
  | SockData chunk => onData chunk c
  | SockError m => fail (clientError (cn_stage c) (js "socket error: " ++ m)) c
  | SockClose => fail (clientError (cn_stage c) (js "connection closed")) c
  | SockAbort reason => fail (clientError (cn_stage c) reason) c
  end.

Definition onEvents (evs : list SocketEvent) (c : Conn) : Conn := fold_left (fun c ev => onEvent ev c) evs c.

(** A computation of the session: a thrown message or a value, and the connection after it. *)
Definition Sess (A : Type) : Type := Conn -> (jsstr + A) * Conn.

#[export] Instance Sess_ret : MRet Sess := fun A a c => (inr a, c).
#[export] Instance Sess_bind : MBind Sess := fun A B f m c => match m c with (inl e, c) => (inl e, c) | (inr a, c) => f a c end.

Definition throw {A} (message : jsstr) : Sess A := fun c => (inl message, c).
Definition modify (f : Conn -> Conn) : Sess unit := fun c => (inr tt, f c).
Definition gets {A} (f : Conn -> A) : Sess A := fun c => (inr (f c), c).

Section connection.
Context (peer : Peer).

(** The events of a wait for a reply: the first reply that arrives is the one read, later ones are queued. *)
Fixpoint waitReply (evs : list SocketEvent) (c : Conn) : option SmtpReply * Conn :=
  match evs with
  | [] => (None, c)
  | ev :: evs =>
      let c := onEvent ev c in
      match cn_queue c with
      | reply :: rest => (Some reply, onEvents evs (set_queue rest c))
      | [] => match cn_failure c with Some _ => (None, onEvents evs c) | None => waitReply evs c end
      end
  end.

Definition read (stage : Stage) (timeoutMs : Z) : Sess SmtpReply := fun c =>
  let c := set_stage stage c in
  match cn_failure c with
  | Some e => (inl e, c)
  | None =>
      match cn_queue c with
      | queued :: rest => (inr queued, record (Read queued) (set_queue rest c))
      | [] =>
          match waitReply (p_read peer (cn_trace c)) c with
          | (Some reply, c) => (inr reply, record (Read reply) c)
          | (None, c) =>
              let c := fail (clientError stage (js "no reply within " ++ dec timeoutMs ++ js " ms")) c in
              (inl (default [] (cn_failure c)), c)
          end
      end
  end.

Definition send (stage : Stage) (line : jsstr) : Sess unit := fun c =>
  let c := set_stage stage c in
  match cn_failure c with
  | Some e => (inl e, c)
  | None =>
      if includesChar CR line || includesChar LF line then (inl (clientError stage (js "refusing to send a command containing CR or LF")), c)
      else (inr tt, record (Sent line) c)
  end.

Definition command (stage : Stage) (line : jsstr) (timeoutMs : Z) : Sess SmtpReply := send stage line ;; read stage timeoutMs.

(** The flag of [p_write] says whether the socket accepted the data in time. A failure that happens meanwhile
    stops the body: the stream is destroyed with it, and every later use of the connection throws it. *)
Definition write (stage : Stage) (data : bytes) (timeoutMs : Z) : Sess unit := fun c =>
  let c := set_stage stage c in
  match cn_failure c with
  | Some e => (inl e, c)
  | None =>
      let c := record (Wrote data) c in
      let '(evs, accepted) := p_write peer (cn_trace c) in
      let c := onEvents evs c in
      let c := if accepted then c else fail (clientError stage (js "data block not accepted within " ++ dec timeoutMs ++ js " ms")) c in
      match cn_failure c with Some e => (inl e, c) | None => (inr tt, c) end
  end.

Definition startTls (timeoutMs : Z) : Sess TlsInfo := fun c =>
  let c := set_stage StTls c in
  match cn_failure c with
  | Some e => (inl e, c)
  | None =>
      if negb (length (cn_queue c) =? 0)%nat || pending (cn_parser c) then
        let error := clientError StTls (js "plaintext bytes after the STARTTLS 220 reply (response injection?)") in
        (inl error, fail error c)
      else
        match p_tls peer (cn_trace c) with
        | HandshakeOk info => (inr info, record (Secured info) (set_tls info c))
        | outcome =>
            let c := match outcome with HandshakeFails (SockData _) => c | HandshakeFails ev => onEvent ev c | _ => c end in
            let c := fail (clientError StTls (js "no TLS handshake within " ++ dec timeoutMs ++ js " ms")) c in
            (inl (clientError StTls (js "handshake failed: " ++ default [] (cn_failure c))), c)
        end
  end.

End connection.

(** ** policy/index.ts, as far as the session uses it

    The DANE and WebPKI judgements of a peer are those of the TLS library and of dane.ts. *)

Inductive TlsPolicyKind := PkDane | PkMtaStsEnforce | PkMtaStsTesting | PkOpportunistic.

Definition kind_text (k : TlsPolicyKind) : jsstr :=
  match k with PkDane => js "dane" | PkMtaStsEnforce => js "mta-sts-enforce" | PkMtaStsTesting => js "mta-sts-testing" | PkOpportunistic => js "opportunistic" end.

#[export] Instance TlsPolicyKind_eq_dec : EqDecision TlsPolicyKind.
Proof. solve_decision. Defined.

Definition mandatoryKind (k : TlsPolicyKind) : bool := match k with PkDane | PkMtaStsEnforce => true | _ => false end.

(** [isMandatory(policy)]. *)
Definition isMandatory (policy : option TlsPolicyKind) : bool := match policy with Some k => mandatoryKind k | None => false end.

Definition replaceSemicolons (s : jsstr) : jsstr := (fun c => if c =? 59 then 44 else c) <$> s.

Definition describePolicy (kind : TlsPolicyKind) (verified : bool) (reason : jsstr) : jsstr :=
  js "tls-policy=" ++ kind_text kind ++ js "; policy-verified=" ++ (if verified then js "yes" else js "no") ++ js "; policy-reason=" ++ replaceSemicolons reason.

(** ** session.ts *)

Record CommandTimeouts := mkTimeouts {
  t_greeting : Z; t_ehlo : Z; t_starttls : Z; t_tlsHandshake : Z; t_mail : Z; t_rcpt : Z; t_dataInit : Z; t_dataBlock : Z; t_dataTerm : Z; t_quit : Z
}.

Definition RFC5321_TIMEOUTS : CommandTimeouts :=
  mkTimeouts (5 * 60000) (5 * 60000) (2 * 60000) 60000 (5 * 60000) (5 * 60000) (2 * 60000) (3 * 60000) (10 * 60000) 10000.

Record SmarthostAuth := mkAuth { sa_user : jsstr; sa_password : jsstr }.

Record SessionConfig := mkConfig { cf_heloName : jsstr; cf_timeouts : CommandTimeouts; cf_smarthost : option SmarthostAuth }.

Record Target := mkTarget { tg_host : jsstr; tg_ip : jsstr; tg_policy : option TlsPolicyKind }.

Record DeliveryRecipient := mkRecipient { dl_id : jsstr; dl_address : jsstr; dl_notify : option jsstr }.

(** The message stream: what it yields, and how it ends. *)
Inductive Message := OpenFails (message : jsstr) | MessageStream (chunks : list bytes) (failure : option jsstr).

Record DeliveryRequest := mkRequest {
  rq_envelopeFrom : jsstr; rq_recipients : list DeliveryRecipient; rq_message : Message; rq_size : Z; rq_dsnRet : option jsstr; rq_dsnEnvid : option jsstr
}.

(** The results by recipient id (an id of the database, so never a name that every object has); a later
    entry replaces an earlier one. *)
Definition Results := list (jsstr * AttemptOutcome).

Inductive SessionResult := Definitive (results : Results) | NextMx (outcome : AttemptOutcome).

Fixpoint resultGet (id : jsstr) (results : Results) : option AttemptOutcome :=
  match results with [] => None | (k, v) :: rest => if bool_decide (k = id) then Some v else resultGet id rest end.

Fixpoint resultSet (id : jsstr) (outcome : AttemptOutcome) (results : Results) : Results :=
  match results with
  | [] => [(id, outcome)]
  | (k, v) :: rest => if bool_decide (k = id) then (k, outcome) :: rest else (k, v) :: resultSet id outcome rest
  end.

(** [all(outcome)]: for everyone without a result. *)
Definition fillResults (recipients : list DeliveryRecipient) (outcome : AttemptOutcome) (results : Results) : Results :=
  fold_left (fun rs r => match resultGet (dl_id r) rs with Some _ => rs | None => resultSet (dl_id r) outcome rs end) recipients results.

(** [for (const r of accepted) results[r.id] = outcome]. *)
Definition setResults (accepted : list DeliveryRecipient) (outcome : AttemptOutcome) (results : Results) : Results :=
  fold_left (fun rs r => resultSet (dl_id r) outcome rs) accepted results.

Definition replyText (r : SmtpReply) : jsstr := trim (joinWith [SP] (lines r)).

Definition classifyReply (r : SmtpReply) : AttemptOutcome :=
  let text := replyText r in
  if (200 <=? code r) && (code r <? 300) then ODelivered (Some (code r)) (enhanced r) (Some text)
  else if 500 <=? code r then OPermanent (code r) (enhanced r) text
  else if 400 <=? code r then OTemporary (Some (code r)) (enhanced r) (Some text)
  else OTemporary (Some (code r)) (enhanced r) (Some (js "unexpected reply: " ++ text)).

(** [`${target.host} [${target.ip}] ${text}`]. *)
Definition atTarget (target : Target) (text : jsstr) : jsstr := tg_host target ++ js " [" ++ tg_ip target ++ js "] " ++ text.

Definition nextFromReply (target : Target) (stage : jsstr) (r : SmtpReply) : SessionResult :=
  let text := atTarget target (stage ++ js ": " ++ dec (code r) ++ [SP] ++ replyText r) in
  if (400 <=? code r) && (code r <? 500) then NextMx (OTemporary (Some (code r)) (enhanced r) (Some text)) else NextMx (OError text).

Section session.
Context `{R : Runtime} (peer : Peer) (verifyPeer : TlsPolicyKind -> TlsInfo -> jsstr -> bool * jsstr).

Definition DSN_NOTIFY : list jsstr := [js "NEVER"; js "SUCCESS"; js "FAILURE"; js "DELAY"].

Definition notifyWords (notify : option jsstr) : list jsstr :=
  match notify with
  | None => []
  | Some n => List.filter (fun w => bool_decide (w ∈ DSN_NOTIFY)) ((fun w => toUpperCase (trim w)) <$> splitOn 44 n)
  end.

Definition dsnRet (value : option jsstr) : option DsnRet :=
  match toUpperCase <$> value with
  | Some v => if bool_decide (v = js "FULL") then Some RetFULL else if bool_decide (v = js "HDRS") then Some RetHDRS else None
  | None => None
  end.

(** [/[\x00-\x20<>\x7f]/]. *)
Definition unsafeAddress (address : jsstr) : bool :=
  existsb (fun c => (0 <=? c) && (c <=? 32) || (c =? 60) || (c =? 62) || (c =? 127)) address.

Definition Caps := list (jsstr * list jsstr).

Fixpoint capsGet (key : jsstr) (caps : Caps) : option (list jsstr) :=
  match caps with [] => None | (k, v) :: rest => if bool_decide (k = key) then Some v else capsGet key rest end.

Definition capsHas (key : jsstr) (caps : Caps) : bool := bool_decide (is_Some (capsGet key caps)).

(** [inl] is the result to return. *)
Definition hello (cfg : SessionConfig) (target : Target) (afterTls : bool) : Sess (SessionResult + Caps) :=
  ehlo ← command peer StEhlo (js "EHLO " ++ cf_heloName cfg) (t_ehlo (cf_timeouts cfg));
  if code ehlo =? 250 then mret (inr (parseEhloCapabilities ehlo))
  else if (500 <=? code ehlo) && negb afterTls then
    helo ← command peer StHelo (js "HELO " ++ cf_heloName cfg) (t_ehlo (cf_timeouts cfg));
    mret (if code helo =? 250 then inr [] else inl (nextFromReply target (js "HELO") helo))
  else mret (inl (nextFromReply target (if afterTls then js "EHLO after STARTTLS" else js "EHLO") ehlo)).

Definition describePeer (t : TlsInfo) : jsstr :=
  joinWith (js "; ")
    (match tls_subjectCN t with Some cn => [js "CN=" ++ cn] | None => [] end ++
     match tls_issuerCN t with Some cn => [js "issuer=CN=" ++ cn] | None => [] end ++
     [js "verified=" ++ (if tls_authorized t then js "true" else js "false")] ++
     (if tls_authorized t then [] else [js "reason=" ++ tls_authorizationError t])).

(** The loop of [streamBody] over the chunks of the message. *)
Fixpoint streamChunks (timeoutMs : Z) (chunks : list bytes) (stuffer : DotStuffer) : Sess DotStuffer :=
  match chunks with
  | [] => mret stuffer
  | chunk :: chunks =>
      match stuffer_push chunk stuffer with
      | None => throw (js "DotStuffer: push after end")
      | Some (out, stuffer) =>
          (if (0 <? length out)%nat then write peer StDataBody out timeoutMs else mret tt) ;;
          streamChunks timeoutMs chunks stuffer
      end
  end.

Definition streamBody (request : DeliveryRequest) (timeoutMs : Z) : Sess unit :=
  match rq_message request with
  | OpenFails m => throw m
  | MessageStream chunks failure =>
      stuffer ← streamChunks timeoutMs chunks newStuffer;
      match failure with
      | Some m => throw m
      | None =>
          match stuffer_end stuffer with
          | None => throw (js "DotStuffer: ended twice")
          | Some (out, _) => write peer StDataBody out timeoutMs
          end
      end
  end.

Definition base64 (text : jsstr) : jsstr := base64_encode (utf8_encode text).

(** [None] is authenticated. *)
Definition authenticate (auth : SmarthostAuth) (caps : Caps) (cfg : SessionConfig) (target : Target) : Sess (option SessionResult) :=
  let timeout := t_mail (cf_timeouts cfg) in
  let mechanisms := toUpperCase <$> default [] (capsGet (js "AUTH") caps) in
  let finish (reply : SmtpReply) : Sess (option SessionResult) :=
    mret (if code reply =? 235 then None else Some (nextFromReply target (js "AUTH") reply)) in
  if bool_decide (js "PLAIN" ∈ mechanisms) then
    reply ← command peer StAuth (js "AUTH PLAIN " ++ base64 ([0] ++ sa_user auth ++ [0] ++ sa_password auth)) timeout;
    finish reply
  else if bool_decide (js "LOGIN" ∈ mechanisms) then
    reply ← command peer StAuth (js "AUTH LOGIN") timeout;
    reply ← (if code reply =? 334 then command peer StAuth (base64 (sa_user auth)) timeout else mret reply);
    reply ← (if code reply =? 334 then command peer StAuth (base64 (sa_password auth)) timeout else mret reply);
    finish reply
  else mret (Some (NextMx (OError (atTarget target (js "smarthost offers neither AUTH PLAIN nor AUTH LOGIN"))))).

(** [; ${details.tlsPeer}] when there is one. *)
Definition peerSuffix (d : AttemptDetails) : jsstr := match ad_tlsPeer d with Some p => js "; " ++ p | None => [] end.

Definition set_tlsPeer (kind : TlsPolicyKind) (verified : bool) (reason : jsstr) (d : AttemptDetails) : AttemptDetails :=
  mkDetails (ad_mxHost d) (ad_mxIp d) (ad_localIp d) (ad_tlsVersion d) (ad_tlsCipher d) (Some (describePolicy kind verified reason ++ peerSuffix d)).

(** No verified TLS, no mail. *)
Definition refuse (target : Target) (kind : TlsPolicyKind) (reason : jsstr) : Sess SessionResult :=
  modify (fun c => set_details (set_tlsPeer kind false reason (cn_details c)) c) ;;
  modify (fail (clientError StTls (kind_text kind ++ js ": " ++ reason))) ;;
  mret (NextMx (OTemporary None (Some (js "4.7.5")) (Some (atTarget target (kind_text kind ++ js " requires verified TLS: " ++ reason))))).

Definition note (target : Target) (verified : bool) (reason : jsstr) (tlsHappened : bool) : Sess unit :=
  match tg_policy target with
  | None => mret tt
  | Some kind =>
      if bool_decide (kind = PkOpportunistic) && negb tlsHappened then mret tt
      else modify (fun c => set_details (set_tlsPeer kind verified reason (cn_details c)) c)
  end.

(** [if (isMandatory(policy)) return refuse(reason); otherwise]. *)
Definition refuseOr (target : Target) (reason : jsstr) (otherwise : Sess (SessionResult + Caps)) : Sess (SessionResult + Caps) :=
  match tg_policy target with
  | Some kind => if mandatoryKind kind then r ← refuse target kind reason; mret (inl r) else otherwise
  | None => otherwise
  end.

(** [try { secure = await conn.startTls(...) } catch ...]: the error as a value. *)
Definition attempt {A} (m : Sess A) : Sess (jsstr + A) := fun c => match m c with (r, c) => (inr r, c) end.

(** After the handshake: the peer is judged, and everything learned before is forgotten. *)
Definition afterHandshake (cfg : SessionConfig) (target : Target) (secure : TlsInfo) : Sess (SessionResult + Caps) :=
  modify (fun c => let d := cn_details c in
    set_details (mkDetails (ad_mxHost d) (ad_mxIp d) (ad_localIp d) (match tls_protocol secure with Some p => Some p | None => ad_tlsVersion d end)
      (Some (tls_cipher secure)) (Some (describePeer secure))) c) ;;
  match tg_policy target with
  | Some kind =>
      let '(verified, reason) := verifyPeer kind secure (tg_host target) in
      if negb verified && mandatoryKind kind then r ← refuse target kind reason; mret (inl r)
      else note target verified reason true ;; hello cfg target true
  | None => hello cfg target true
  end.

(** From the capabilities of the first EHLO to those the transaction uses. *)
Definition secureIfOffered (cfg : SessionConfig) (target : Target) (caps : Caps) : Sess (SessionResult + Caps) :=
  if capsHas (js "STARTTLS") caps then
    starttls ← command peer StStarttls (js "STARTTLS") (t_starttls (cf_timeouts cfg));
    if code starttls =? 220 then
      result ← attempt (startTls peer (t_tlsHandshake (cf_timeouts cfg)));
      match result with
      | inl error => refuseOr target (js "TLS handshake failed: " ++ error) (throw error)
      | inr secure => afterHandshake cfg target secure
      end
    else
      refuseOr target (js "STARTTLS refused: " ++ dec (code starttls) ++ [SP] ++ replyText starttls)
        (note target false (js "STARTTLS refused: " ++ dec (code starttls)) false ;; mret (inr caps))
  else refuseOr target (js "STARTTLS not offered") (note target false (js "STARTTLS not offered") false ;; mret (inr caps)).

(** The smarthost's part: [Some] is the result to return. *)
Definition smarthostAuth (cfg : SessionConfig) (target : Target) (caps : Caps) : Sess (option SessionResult) :=
  match cf_smarthost cfg with
  | None => mret None
  | Some auth =>
      secure ← gets cn_secure;
      match secure with
      | None => mret (Some (NextMx (OError (atTarget target (js "smarthost did not complete STARTTLS: refusing to authenticate in plaintext")))))
      | Some t =>
          if negb (tls_authorized t) then
            modify (fail (js "smarthost certificate did not verify")) ;;
            mret (Some (NextMx (OError (atTarget target (js "smarthost certificate did not verify: " ++ tls_authorizationError t)))))
          else authenticate auth caps cfg target
      end
  end.

Definition mailParams (request : DeliveryRequest) (caps : Caps) : MailParams :=
  let smtputf8 := capsHas (js "SMTPUTF8") caps &&
    (hasNonAscii (rq_envelopeFrom request) || existsb (fun r => hasNonAscii (dl_address r)) (rq_recipients request)) in
  mkMailParams (if capsHas (js "SIZE") caps then Some (rq_size request) else None)
    (if capsHas (js "8BITMIME") caps then Some Body8BITMIME else None) smtputf8 None
    (if capsHas (js "DSN") caps then dsnRet (rq_dsnRet request) else None)
    (if capsHas (js "DSN") caps then rq_dsnEnvid request else None).

Definition XTEXT_ERROR : jsstr := js "xtext cannot encode characters above U+00FF".

(** A command line that formats, or the error its formatting throws. *)
Definition formatted (line : option jsstr) : Sess jsstr := match line with Some l => mret l | None => throw XTEXT_ERROR end.

Definition is2xx (r : SmtpReply) : bool := (200 <=? code r) && (code r <? 300).

(** The recipients in turn; the results so far are kept outside, for the handler of errors. *)
Fixpoint rcptLoop (cfg : SessionConfig) (caps : Caps) (recipients accepted : list DeliveryRecipient) (results : Results)
  : Conn -> (jsstr + list DeliveryRecipient) * Results * Conn := fun c =>
  match recipients with
  | [] => (inr accepted, results, c)
  | r :: recipients =>
      if unsafeAddress (dl_address r) then
        rcptLoop cfg caps recipients accepted (resultSet (dl_id r) (OPermanent 553 (Some (js "5.1.3")) (js "invalid recipient address")) results) c
      else
        let notify := if capsHas (js "DSN") caps then notifyWords (dl_notify r) else [] in
        let params := mkRcptParams (match notify with [] => None | _ => Some notify end) None in
        match (line ← formatted ((fun p => js "RCPT TO:<" ++ dl_address r ++ js ">" ++ p) <$> formatRcptParams params);
               command peer StRcpt line (t_rcpt (cf_timeouts cfg))) c with
        | (inl e, c) => (inl e, results, c)
        | (inr reply, c) =>
            if is2xx reply then rcptLoop cfg caps recipients (accepted ++ [r]) results c
            else rcptLoop cfg caps recipients accepted (resultSet (dl_id r) (classifyReply reply) results) c
        end
  end.

(** Everything before MAIL: the capabilities to use, or the result. *)
Definition prepare (target : Target) (request : DeliveryRequest) (cfg : SessionConfig) : Sess (SessionResult + Caps) :=
  greeting ← read peer StGreeting (t_greeting (cf_timeouts cfg));
  if negb (code greeting =? 220) then mret (inl (nextFromReply target (js "greeting") greeting))
  else
    caps ← hello cfg target false;
    match caps with
    | inl r => mret (inl r)
    | inr caps =>
        caps ← secureIfOffered cfg target caps;
        match caps with
        | inl r => mret (inl r)
        | inr caps =>
            refused ← smarthostAuth cfg target caps;
            match refused with
            | Some r => mret (inl r)
            | None =>
                if unsafeAddress (rq_envelopeFrom request) then
                  mret (inl (Definitive (fillResults (rq_recipients request) (OPermanent 553 (Some (js "5.1.7")) (js "invalid envelope sender")) [])))
                else mret (inr caps)
            end
        end
    end.

(** MAIL, as a result to return or to go on. *)
Definition mailCommand (request : DeliveryRequest) (cfg : SessionConfig) (caps : Caps) : Sess (option SessionResult) :=
  line ← formatted ((fun p => js "MAIL FROM:<" ++ rq_envelopeFrom request ++ js ">" ++ p) <$> formatMailParams (mailParams request caps));
  mail ← command peer StMail line (t_mail (cf_timeouts cfg));
  mret (if is2xx mail then None
        else Some (Definitive (fillResults (rq_recipients request)
               (match classifyReply mail with ODelivered _ _ _ => OTemporary None None (Some (js "unexpected reply to MAIL")) | o => o end) []))).

(** DATA, the body and the final reply. *)
Definition dataPhase (request : DeliveryRequest) (cfg : SessionConfig) (accepted : list DeliveryRecipient) (results : Results) : Sess SessionResult :=
  data ← command peer StData (js "DATA") (t_dataInit (cf_timeouts cfg));
  if negb (code data =? 354) then
    let o := match classifyReply data with
             | ODelivered _ _ _ => OTemporary (Some (code data)) None (Some (js "unexpected reply to DATA: " ++ replyText data))
             | o => o
             end in
    mret (Definitive (setResults accepted o results))
  else
    streamBody request (t_dataBlock (cf_timeouts cfg)) ;;
    final ← read peer StDataEnd (t_dataTerm (cf_timeouts cfg));
    mret (Definitive (setResults accepted (classifyReply final) results)).

(** The [catch]: before MAIL the error is about this MX, from then on about the recipients not answered yet. *)
Definition caught (target : Target) (request : DeliveryRequest) (inTransaction : bool) (results : Results) (message : jsstr) (c : Conn) : SessionResult * Conn :=
  let text := atTarget target message in
  let c := fail message c in
  (if inTransaction then Definitive (fillResults (rq_recipients request) (OError text) results) else NextMx (OError text), c).

(** From RCPT on. *)
Definition afterMail (target : Target) (request : DeliveryRequest) (cfg : SessionConfig) (caps : Caps) (c : Conn) : SessionResult * Conn :=
  match rcptLoop cfg caps (rq_recipients request) [] [] c with
  | (inl e, results, c) => caught target request true results e c
  | (inr [], results, c) => (Definitive results, c)
  | (inr accepted, results, c) =>
      match dataPhase request cfg accepted results c with
      | (inl e, c) => caught target request true results e c
      | (inr result, c) => (result, c)
      end
  end.

(** From MAIL on. *)
Definition transaction (target : Target) (request : DeliveryRequest) (cfg : SessionConfig) (caps : Caps) (c : Conn) : SessionResult * Conn :=
  match mailCommand request cfg caps c with
  | (inl e, c) => caught target request true [] e c
  | (inr (Some result), c) => (result, c)
  | (inr None, c) => afterMail target request cfg caps c
  end.

Definition runSession (target : Target) (request : DeliveryRequest) (cfg : SessionConfig) (c : Conn) : SessionResult * Conn :=
  match prepare target request cfg c with
  | (inl e, c) => caught target request false [] e c
  | (inr (inl result), c) => (result, c)
  | (inr (inr caps), c) => transaction target request cfg caps c
  end.

(** [quitInBackground], after the attempt has resolved. *)
Definition quitInBackground (cfg : SessionConfig) (c : Conn) : Conn :=
  match cn_failure c with
  | Some _ => c
  | None =>
      match command peer StQuit (js "QUIT") (t_quit (cf_timeouts cfg)) c with
      | (inr _, c) => fail (clientError (cn_stage c) (js "QUIT done")) c
      | (inl _, c) => fail (clientError (cn_stage c) (js "QUIT failed")) c
      end
  end.

End session.
