(* ===== verification/SmtpClientProofs.v ===== *)
(** * SmtpClientProofs: what an outbound session may send, and what its results mean

    The trace of the connection records what was sent, written, read and secured, in order. *)
From S2P Require Import Prelude JsString SmtpLineReader SmtpLineReaderProofs DotStuffer SmtpReply SmtpReplyParser SmtpAddress SmtpCommand.
From S2P Require Import Utf8 DkimSign DeliveryState SmtpClient.

(** ** An unfinished message is never complete for the server *)

Lemma data_lines_mono s : forall acc t ls rest, data_lines acc s = Some (ls, rest) -> data_lines acc (s ++ t) = Some (ls, rest ++ t).
Proof.
  induction s as [s IH] using (induction_ltof1 _ (@length Z)). intros acc t ls rest.
  destruct s as [|b [|b' s]]; [done|done|]. cbn -[decide]. destruct ((b =? CR) && (b' =? LF)).
  - destruct (decide (acc = [DOT])); [by intros [= <- <-]|].
    destruct (data_lines [] s) as [[ls' rest']|] eqn:E; cbn; [|done]. intros [= <- <-].
    rewrite (IH s ltac:(unfold ltof; simpl; lia) [] t ls' rest' E). done.
  - intros H. exact (IH (b' :: s) ltac:(unfold ltof; simpl; lia) _ t _ _ H).
Qed.

Lemma stuffed_complete chunks :
  exists out, stuff_message chunks newStuffer = Some out /\ exists ls, data_lines [] out = Some (ls, []).
Proof.
  rewrite stuff_message_concat by done. set (msg := concat chunks).
  destruct (finish_from_lines _ msg [] (Nat.le_refl _)) as [H _]. unfold finish_from in H. cbn [stuff_line app] in H.
  change (line_state []) with newStuffer in H.
  destruct (stuff_loop msg newStuffer) as [o s] eqn:E. pose proof (stuff_loop_ended msg newStuffer) as He. rewrite E in He. cbn in He.
  unfold stuffer_end in H |- *. rewrite He in H |- *. cbn in H |- *.
  eexists. split; [reflexivity|]. eexists. rewrite H. rewrite <- (app_nil_r [DOT; CR; LF]).
  apply data_lines_wire. eapply text_lines_ok; [done|constructor].
Qed.

(** A proper prefix of a stuffed message is not a complete message. *)
Lemma stuffed_prefix_open chunks w t : stuff_message chunks newStuffer = Some (w ++ t) -> t <> [] -> data_lines [] w = None.
Proof.
  intros H Ht. destruct (stuffed_complete chunks) as (out & Hout & ls & Hls). rewrite H in Hout. injection Hout as <-.
  destruct (data_lines [] w) as [[ls' rest']|] eqn:E; [|done]. rewrite (data_lines_mono _ _ t _ _ E) in Hls. injection Hls as _ Hn.
  by apply app_eq_nil in Hn as [_ ?].
Qed.

Lemma stuffer_end_some s : ended s = false -> exists out s', stuffer_end s = Some (out, s') /\ out <> [].
Proof. intros He. unfold stuffer_end. rewrite He. eexists _, _. split; [reflexivity|]. by destruct (pendingCR s), (atLineStart s). Qed.

Lemma stuff_message_some chunks s : ended s = false -> exists out, stuff_message chunks s = Some out /\ out <> [].
Proof.
  intros He. rewrite stuff_message_concat by done. pose proof (stuff_loop_ended (concat chunks) s) as He'.
  destruct (stuff_loop (concat chunks) s) as [o s']. cbn in He'. destruct (stuffer_end_some s') as (out & s2 & -> & Hne); [congruence|].
  exists (o ++ out). split; [done|]. intros [_ ?]%app_eq_nil. done.
Qed.

(** ** Only the operations of the session add to the trace *)

Lemma fail_trace e c : cn_trace (fail e c) = cn_trace c.
Proof. unfold fail. by destruct (cn_failure c). Qed.

Lemma onData_trace chunk c : cn_trace (onData chunk c) = cn_trace c.
Proof. unfold onData. destruct (cn_failure c); [done|]. destruct (rp_push chunk (cn_parser c)) as [[e p]|[rs p]]; [by rewrite fail_trace|done]. Qed.

Lemma onEvent_trace ev c : cn_trace (onEvent ev c) = cn_trace c.
Proof. destruct ev; cbn; [apply onData_trace|apply fail_trace..]. Qed.

Lemma onEvents_trace evs : forall c, cn_trace (onEvents evs c) = cn_trace c.
Proof. induction evs as [|ev evs IH]; intros c; [done|]. cbn. unfold onEvents in IH. by rewrite IH, onEvent_trace. Qed.

Lemma waitReply_trace evs : forall c, cn_trace (waitReply evs c).2 = cn_trace c.
Proof.
  induction evs as [|ev evs IH]; intros c; [done|]. cbn [waitReply].
  destruct (cn_queue (onEvent ev c)); [destruct (cn_failure (onEvent ev c))|]; cbn [snd]; rewrite ?IH, ?onEvents_trace; apply onEvent_trace.
Qed.

#[export] Hint Rewrite fail_trace onData_trace onEvent_trace onEvents_trace : conn.

Lemma fail_failure e c : is_Some (cn_failure (fail e c)).
Proof. unfold fail. destruct (cn_failure c) eqn:E; cbn; by rewrite ?E. Qed.

Lemma fail_secure e c : cn_secure (fail e c) = cn_secure c.
Proof. unfold fail. by destruct (cn_failure c). Qed.

Lemma onEvent_secure ev c : cn_secure (onEvent ev c) = cn_secure c.
Proof.
  destruct ev; cbn; [|apply fail_secure..]. unfold onData. destruct (cn_failure c); [done|].
  destruct (rp_push chunk (cn_parser c)) as [[e p]|[rs p]]; [by rewrite fail_secure|done].
Qed.

Lemma onEvents_secure evs : forall c, cn_secure (onEvents evs c) = cn_secure c.
Proof. induction evs as [|ev evs IH]; intros c; [done|]. cbn. unfold onEvents in IH. by rewrite IH, onEvent_secure. Qed.

Lemma waitReply_secure evs : forall c, cn_secure (waitReply evs c).2 = cn_secure c.
Proof.
  induction evs as [|ev evs IH]; intros c; [done|]. cbn [waitReply].
  destruct (cn_queue (onEvent ev c)); [destruct (cn_failure (onEvent ev c))|]; cbn [snd]; rewrite ?IH, ?onEvents_secure; apply onEvent_secure.
Qed.

(** ** Results by recipient *)

Lemma resultGet_set id id' o results : resultGet id (resultSet id' o results) = if bool_decide (id' = id) then Some o else resultGet id results.
Proof.
  induction results as [|[k v] results IH]; cbn; [done|]. destruct (bool_decide_reflect (k = id')) as [->|Hn]; cbn.
  - by destruct (bool_decide (id' = id)).
  - destruct (bool_decide_reflect (k = id)) as [->|]; [by rewrite bool_decide_eq_false_2|done].
Qed.

(** Every result has one of the outcomes of [Q], and later writers keep it so. *)
Definition outcomes (Q : jsstr -> AttemptOutcome -> Prop) (results : Results) : Prop := forall id o, resultGet id results = Some o -> Q id o.

Lemma outcomes_set Q id o results : outcomes Q results -> Q id o -> outcomes Q (resultSet id o results).
Proof. intros H HQ id' o'. rewrite resultGet_set. case_bool_decide; [by intros [= <-]; subst|apply H]. Qed.

Lemma outcomes_fill (Q : jsstr -> AttemptOutcome -> Prop) rs o : (forall id, Q id o) -> forall results, outcomes Q results -> outcomes Q (fillResults rs o results).
Proof.
  intros HQ. unfold fillResults. induction rs as [|r rs IH]; intros results H; cbn; [done|]. apply IH.
  destruct (resultGet (dl_id r) results); [done|]. by apply outcomes_set.
Qed.

Lemma outcomes_setResults (Q : jsstr -> AttemptOutcome -> Prop) acc o : (forall r, r ∈ acc -> Q (dl_id r) o) -> forall results, outcomes Q results -> outcomes Q (setResults acc o results).
Proof.
  unfold setResults. induction acc as [|r acc IH]; intros HQ results H; cbn; [done|]. apply IH; [set_solver|]. apply outcomes_set; [done|]. apply HQ. set_solver.
Qed.

Definition answered (results : Results) (r : DeliveryRecipient) : Prop := is_Some (resultGet (dl_id r) results).

Lemma answered_set r id o results : answered results r -> answered (resultSet id o results) r.
Proof. unfold answered. rewrite resultGet_set. case_bool_decide; [done|]. tauto. Qed.

Lemma fill_answers rs o : forall results r, r ∈ rs \/ answered results r -> answered (fillResults rs o results) r.
Proof.
  unfold fillResults. induction rs as [|x rs IH]; intros results r Hr; cbn; [destruct Hr; [set_solver|done]|]. apply IH.
  destruct Hr as [Hr|Hr]; [apply elem_of_cons in Hr as [->|Hr]; [right|by left]|right].
  - destruct (resultGet (dl_id x) results) eqn:E; [by unfold answered; rewrite E|]. unfold answered. rewrite resultGet_set, bool_decide_eq_true_2; done.
  - destruct (resultGet (dl_id x) results); [done|]. by apply answered_set.
Qed.

Lemma setResults_answers acc o : forall results r, r ∈ acc \/ answered results r -> answered (setResults acc o results) r.
Proof.
  unfold setResults. induction acc as [|x acc IH]; intros results r Hr; cbn; [destruct Hr; [set_solver|done]|]. apply IH.
  destruct Hr as [Hr|Hr]; [apply elem_of_cons in Hr as [->|Hr]; [right|by left]|right]; [|by apply answered_set].
  unfold answered. rewrite resultGet_set, bool_decide_eq_true_2; done.
Qed.

Definition isDelivered (o : AttemptOutcome) : bool := match o with ODelivered _ _ _ => true | _ => false end.

Lemma classify_delivered reply : isDelivered (classifyReply reply) = is2xx reply.
Proof. unfold classifyReply, is2xx. destruct (_ && _); [done|]. destruct (500 <=? code reply); [done|]. by destruct (400 <=? code reply). Qed.

Lemma formatted_throws line c e c' : formatted line c = (inl e, c') -> c' = c.
Proof. destruct line; [done|]. by intros [= _ <-]. Qed.

Lemma formatted_line line c l c' : formatted line c = (inr l, c') -> c' = c /\ line = Some l.
Proof. destruct line; [|done]. by intros [= <- <-]. Qed.

Section client.
Context `{R : Runtime} (peer : Peer).

Lemma read_spec stage t c r c' :
  read peer stage t c = (r, c') ->
  cn_secure c' = cn_secure c /\
  match r with inr reply => cn_trace c' = cn_trace c ++ [Read reply] | inl _ => cn_trace c' = cn_trace c end.
Proof.
  unfold read. cbn [set_stage cn_failure cn_queue]. destruct (cn_failure c) as [e|]; [by intros [= <- <-]|].
  destruct (cn_queue c) as [|q rest]; [|by intros [= <- <-]].
  set (c0 := set_stage stage c). pose proof (waitReply_trace (p_read peer (cn_trace c0)) c0) as Ht.
  pose proof (waitReply_secure (p_read peer (cn_trace c0)) c0) as Hs.
  destruct (waitReply (p_read peer (cn_trace c0)) c0) as [[reply|] c1]; cbn in Ht, Hs; intros [= <- <-]; cbn; rewrite ?fail_trace, ?fail_secure, ?Ht; done.
Qed.

Lemma send_spec stage line c r c' :
  send stage line c = (r, c') ->
  cn_secure c' = cn_secure c /\ match r with inr _ => cn_trace c' = cn_trace c ++ [Sent line] | inl _ => cn_trace c' = cn_trace c end.
Proof.
  unfold send. cbn [set_stage cn_failure]. destruct (cn_failure c); [by intros [= <- <-]|]. destruct (_ || _); by intros [= <- <-].
Qed.

(** A command and its reply. *)
Lemma command_spec stage line t c r c' :
  command peer stage line t c = (r, c') ->
  cn_secure c' = cn_secure c /\
  match r with
  | inr reply => cn_trace c' = cn_trace c ++ [Sent line; Read reply]
  | inl _ => cn_trace c' = cn_trace c \/ cn_trace c' = cn_trace c ++ [Sent line]
  end.
Proof.
  unfold command, mbind, Sess_bind. destruct (send stage line c) as [[e|[]] c1] eqn:E1; apply send_spec in E1 as [Hs1 E1].
  - intros [= <- <-]. auto.
  - intros E2. apply read_spec in E2 as [Hs2 E2]. split; [congruence|]. destruct r; rewrite E2, E1; [by right|by rewrite <- app_assoc].
Qed.

Lemma write_spec stage data t c r c' :
  write peer stage data t c = (r, c') ->
  (exists e, r = inl e /\ cn_trace c' = cn_trace c) \/ cn_trace c' = cn_trace c ++ [Wrote data].
Proof.
  unfold write. cbn [set_stage cn_failure]. destruct (cn_failure c) as [e|]; [intros [= <- <-]; by left; eexists|].
  destruct (p_write peer _) as [evs accepted]. set (c1 := onEvents evs _).
  assert (Ht : cn_trace c1 = cn_trace c ++ [Wrote data]) by (unfold c1; by rewrite onEvents_trace).
  set (c2 := if accepted then c1 else _). intros H. right. assert (cn_trace c' = cn_trace c2) as -> by (destruct (cn_failure c2); by injection H as _ <-).
  unfold c2. destruct accepted; by rewrite ?fail_trace.
Qed.

Lemma startTls_spec t c r c' :
  startTls peer t c = (r, c') ->
  match r with
  | inr info => cn_trace c' = cn_trace c ++ [Secured info] /\ cn_secure c' = Some info
  | inl _ => cn_trace c' = cn_trace c
  end.
Proof.
  unfold startTls. cbn [set_stage cn_failure cn_queue cn_parser cn_trace]. destruct (cn_failure c); [by intros [= <- <-]|].
  destruct (_ || _); [intros [= <- <-]; by rewrite fail_trace|].
  destruct (p_tls peer (cn_trace c)) as [info|ev|]; intros [= <- <-]; cbn; [done| |by rewrite fail_trace].
  rewrite fail_trace. destruct ev; by autorewrite with conn.
Qed.

(** ** The events a computation adds *)

Definition emits {A} (P : ConnEvent -> Prop) (m : Sess A) : Prop :=
  forall c r c', m c = (r, c') -> exists l, cn_trace c' = cn_trace c ++ l /\ Forall P l.

Lemma emits_same {A} P (m : Sess A) : (forall c, cn_trace (m c).2 = cn_trace c) -> emits P m.
Proof. intros H c r c' E. exists []. specialize (H c). rewrite E in H. rewrite app_nil_r. by split. Qed.

Lemma emits_ret {A} P (a : A) : emits P (mret a).
Proof. by apply emits_same. Qed.

Lemma emits_throw {A} P m : emits P (throw (A := A) m).
Proof. by apply emits_same. Qed.

Lemma emits_gets {A} P (f : Conn -> A) : emits P (gets f).
Proof. by apply emits_same. Qed.

Lemma emits_details P f : emits P (modify (fun c => set_details (f c) c)).
Proof. by apply emits_same. Qed.

Lemma emits_fail P e : emits P (modify (fail e)).
Proof. apply emits_same. intros c. apply fail_trace. Qed.

Lemma emits_bind {A B} P (m : Sess A) (f : A -> Sess B) : emits P m -> (forall a, emits P (f a)) -> emits P (m ≫= f).
Proof.
  intros Hm Hf c r c'. unfold mbind, Sess_bind. destruct (m c) as [[e|a] c1] eqn:E1; apply Hm in E1 as (l1 & H1 & F1).
  - intros [= <- <-]. by exists l1.
  - intros E2. apply Hf in E2 as (l2 & H2 & F2). exists (l1 ++ l2). rewrite H2, H1, app_assoc. split; [done|]. by apply Forall_app.
Qed.

Lemma emits_attempt {A} P (m : Sess A) : emits P m -> emits P (attempt m).
Proof. intros Hm c r c'. unfold attempt. destruct (m c) as [r1 c1] eqn:E1. intros [= <- <-]. by apply Hm in E1. Qed.

Lemma emits_mono {A} (P Q : ConnEvent -> Prop) (m : Sess A) : (forall ev, P ev -> Q ev) -> emits P m -> emits Q m.
Proof. intros HPQ Hm c r c' E. apply Hm in E as (l & H & F). exists l. split; [done|]. by eapply Forall_impl. Qed.

Lemma emits_read P stage t : (forall r, P (Read r)) -> emits P (read peer stage t).
Proof. 
  intros HR c r c' E. apply read_spec in E as [_ E]. destruct r as [e|reply]; [exists []; rewrite app_nil_r; by split|].
  exists [Read reply]. split; [done|]. by repeat constructor.
Qed.

Lemma emits_command P stage line t : (forall r, P (Read r)) -> P (Sent line) -> emits P (command peer stage line t).
Proof.
  intros HR HS c r c' E. apply command_spec in E as [_ E]. destruct r as [e|reply]; [destruct E as [E|E]|].
  - exists []. rewrite app_nil_r. by split.
  - exists [Sent line]. split; [done|]. by repeat constructor.
  - exists [Sent line; Read reply]. split; [done|]. by repeat constructor.
Qed.

Lemma emits_startTls P t : (forall info, P (Secured info)) -> emits P (startTls peer t).
Proof.
  intros HS c r c' E. apply startTls_spec in E. destruct r as [e|info]; [exists []; rewrite app_nil_r; by split|].
  destruct E as [E _]. exists [Secured info]. split; [done|]. by repeat constructor.
Qed.

Lemma sess_bind_inv {A B} (m : Sess A) (f : A -> Sess B) c r c' :
  (m ≫= f) c = (r, c') -> (exists e, m c = (inl e, c') /\ r = inl e) \/ (exists a c1, m c = (inr a, c1) /\ f a c1 = (r, c')).
Proof. unfold mbind, Sess_bind. destruct (m c) as [[e|a] c1]; [intros [= <- <-]|]; eauto. Qed.

(** The TLS session is only changed by [startTls]. *)
Definition keeps {A} (m : Sess A) : Prop := forall c r c', m c = (r, c') -> cn_secure c' = cn_secure c.

Lemma keeps_bind {A B} (m : Sess A) (f : A -> Sess B) : keeps m -> (forall a, keeps (f a)) -> keeps (m ≫= f).
Proof. intros Hm Hf c r c' H. apply sess_bind_inv in H as [(e & H & _)|(a & c1 & H1 & H2)]; [by apply Hm in H|]. apply Hm in H1. apply Hf in H2. congruence. Qed.

Lemma keeps_ret {A} (a : A) : keeps (mret a).
Proof. by intros c r c' [= <- <-]. Qed.

Lemma keeps_command stage line t : keeps (command peer stage line t).
Proof. intros c r c' H. by apply command_spec in H as [H _]. Qed.

Lemma keeps_read stage t : keeps (read peer stage t).
Proof. intros c r c' H. by apply read_spec in H as [H _]. Qed.

(** ** Before the transaction *)

Section session.
Context (verifyPeer : TlsPolicyKind -> TlsInfo -> jsstr -> bool * jsstr) (cfg : SessionConfig) (target : Target) (request : DeliveryRequest).

(** What may cross a connection that has not been judged. *)
Definition clear (ev : ConnEvent) : Prop :=
  match ev with
  | Sent line => line = js "EHLO " ++ cf_heloName cfg \/ line = js "HELO " ++ cf_heloName cfg \/ line = js "STARTTLS"
  | Wrote _ => False
  | _ => True
  end.

Definition authLine (auth : SmarthostAuth) (line : jsstr) : Prop :=
  line = js "AUTH PLAIN " ++ base64 ([0] ++ sa_user auth ++ [0] ++ sa_password auth) \/ line = js "AUTH LOGIN" \/
  line = base64 (sa_user auth) \/ line = base64 (sa_password auth).

(** What may be sent before the transaction: that, and the smarthost's authentication. *)
Definition preliminary (ev : ConnEvent) : Prop :=
  clear ev \/ exists line auth, ev = Sent line /\ cf_smarthost cfg = Some auth /\ authLine auth line.

(** The connection is one the policy of the target and the smarthost's credentials may be trusted to. *)
Definition judged (info : TlsInfo) : Prop :=
  (forall kind, tg_policy target = Some kind -> mandatoryKind kind = true -> fst (verifyPeer kind info (tg_host target)) = true) /\
  (cf_smarthost cfg <> None -> tls_authorized info = true).

Lemma hello_emits after : emits clear (hello peer cfg target after).
Proof.
  unfold hello. apply emits_bind; [apply emits_command; cbn; auto|]. intros ehlo. destruct (code ehlo =? 250); [apply emits_ret|].
  destruct (_ && _); [|apply emits_ret]. apply emits_bind; [apply emits_command; cbn; auto|]. intros helo. apply emits_ret.
Qed.

Lemma note_emits P verified reason happened : emits P (note target verified reason happened).
Proof. unfold note. destruct (tg_policy target); [|apply emits_ret]. destruct (_ && _); [apply emits_ret|apply emits_details]. Qed.

Lemma refuse_emits P kind reason : emits P (refuse target kind reason).
Proof. repeat (apply emits_bind; [first [apply emits_details|apply emits_fail]|intros []]). apply emits_ret. Qed.

Lemma refuseOr_emits P reason m : emits P m -> emits P (refuseOr target reason m).
Proof.
  intros Hm. unfold refuseOr. destruct (tg_policy target) as [kind|]; [|done]. destruct (mandatoryKind kind); [|done].
  apply emits_bind; [apply refuse_emits|]. intros r. apply emits_ret.
Qed.

Lemma afterHandshake_emits secure : emits clear (afterHandshake peer verifyPeer cfg target secure).
Proof.
  unfold afterHandshake. apply emits_bind; [apply emits_details|]. intros []. destruct (tg_policy target) as [kind|]; [|apply hello_emits].
  destruct (verifyPeer kind secure (tg_host target)) as [v reason]. destruct (_ && _).
  - apply emits_bind; [apply refuse_emits|]. intros r. apply emits_ret.
  - apply emits_bind; [apply note_emits|]. intros []. apply hello_emits.
Qed.

Lemma secureIfOffered_emits caps : emits clear (secureIfOffered peer verifyPeer cfg target caps).
Proof.
  unfold secureIfOffered. destruct (capsHas _ caps); [|apply refuseOr_emits, emits_bind; [apply note_emits|intros []; apply emits_ret]].
  apply emits_bind; [apply emits_command; cbn; auto|]. intros starttls. destruct (code starttls =? 220).
  - apply emits_bind; [by apply emits_attempt, emits_startTls|]. intros [e|secure]; [apply refuseOr_emits, emits_throw|apply afterHandshake_emits].
  - apply refuseOr_emits, emits_bind; [apply note_emits|intros []; apply emits_ret].
Qed.

Lemma hello_keeps after : keeps (hello peer cfg target after).
Proof.
  unfold hello. apply keeps_bind; [apply keeps_command|]. intros ehlo. destruct (code ehlo =? 250); [apply keeps_ret|].
  destruct (_ && _); [|apply keeps_ret]. apply keeps_bind; [apply keeps_command|]. intros helo. apply keeps_ret.
Qed.

Lemma note_keeps verified reason happened : keeps (note target verified reason happened).
Proof. unfold note. destruct (tg_policy target); [|apply keeps_ret]. destruct (_ && _); [apply keeps_ret|by intros c r c' [= <- <-]]. Qed.

Definition policyVerified (info : TlsInfo) : Prop :=
  forall kind, tg_policy target = Some kind -> mandatoryKind kind = true -> fst (verifyPeer kind info (tg_host target)) = true.

(** What is known when the session goes on past the TLS phase. *)
Definition settled (c : Conn) : Prop :=
  match cn_secure c with
  | None => isMandatory (tg_policy target) = false
  | Some info => Secured info ∈ cn_trace c /\ policyVerified info
  end.

Lemma refuseOr_settled reason m c caps c' :
  refuseOr target reason m c = (inr (inr caps), c') -> isMandatory (tg_policy target) = false /\ m c = (inr (inr caps), c').
Proof.
  unfold refuseOr, isMandatory. destruct (tg_policy target) as [kind|]; [|done]. destruct (mandatoryKind kind); [|done].
  intros H. apply sess_bind_inv in H as [(e & _ & H)|(a & c1 & _ & H)]; [done|]. by injection H.
Qed.

Lemma afterHandshake_settled secure c caps c' :
  afterHandshake peer verifyPeer cfg target secure c = (inr (inr caps), c') -> cn_secure c = Some secure -> Secured secure ∈ cn_trace c -> settled c'.
Proof.
  intros H Hs Ht. pose proof (afterHandshake_emits secure _ _ _ H) as (l & Hl & _). unfold settled.
  assert (Hin : Secured secure ∈ cn_trace c') by (rewrite Hl; set_solver).
  unfold afterHandshake in H. apply sess_bind_inv in H as [(e & _ & H)|([] & c1 & H1 & H)]; [done|]. injection H1 as <-. unfold policyVerified.
  destruct (tg_policy target) as [kind|]; [|rewrite (hello_keeps _ _ _ _ H); cbn; rewrite Hs; by split].
  destruct (verifyPeer kind secure (tg_host target)) as [v reason] eqn:Ev. destruct (negb v && mandatoryKind kind) eqn:Em.
  - apply sess_bind_inv in H as [(e & _ & H)|(a & c1 & _ & H)]; [done|]. by injection H.
  - apply sess_bind_inv in H as [(e & _ & H)|(a & c1 & Hn & H)]; [done|]. rewrite (hello_keeps _ _ _ _ H), (note_keeps _ _ _ _ _ _ Hn). cbn. rewrite Hs.
    split; [done|]. intros k [= <-] Hk. rewrite Ev. rewrite Hk in Em. by destruct v.
Qed.

Lemma secureIfOffered_settled caps0 c caps c' :
  secureIfOffered peer verifyPeer cfg target caps0 c = (inr (inr caps), c') -> cn_secure c = None -> settled c'.
Proof.
  assert (Hplain : forall reason (why : jsstr) c, refuseOr target reason (note target false why false ;; mret (inr caps0)) c = (inr (inr caps), c') ->
    cn_secure c = None -> settled c').
  { intros reason why c1 H Hs. apply refuseOr_settled in H as [Hm H]. unfold settled. apply sess_bind_inv in H as [(e & _ & H)|([] & c2 & Hn & H)]; [done|].
    injection H as _ <-. by rewrite (note_keeps _ _ _ _ _ _ Hn), Hs. }
  unfold secureIfOffered. destruct (capsHas _ caps0); [|apply Hplain]. intros H Hs.
  apply sess_bind_inv in H as [(e & _ & H)|(starttls & c1 & Hc & H)]; [done|]. pose proof (keeps_command _ _ _ _ _ _ Hc) as Hk. rewrite Hs in Hk.
  destruct (code starttls =? 220); [|by apply Hplain in H].
  apply sess_bind_inv in H as [(e & _ & H)|(res & c2 & Ha & H)]; [done|]. unfold attempt in Ha.
  destruct (startTls peer _ c1) as [r1 c3] eqn:Et. injection Ha as <- <-. destruct r1 as [e|secure].
  - by apply refuseOr_settled in H as [_ H].
  - apply startTls_spec in Et as [Et Es]. apply (afterHandshake_settled _ _ _ _ H Es). rewrite Et. set_solver.
Qed.

Lemma preliminary_auth auth line : cf_smarthost cfg = Some auth -> authLine auth line -> preliminary (Sent line).
Proof. intros H1 H2. right. by exists line, auth. Qed.

Lemma preliminary_read r : preliminary (Read r).
Proof. by left. Qed.

Lemma authenticate_emits auth caps : cf_smarthost cfg = Some auth -> emits preliminary (authenticate peer auth caps cfg target).
Proof.
  intros Ha. unfold authenticate.
  assert (Hc : forall line t, authLine auth line -> emits preliminary (command peer StAuth line t)).
  { intros line t Hl. apply emits_command; [apply preliminary_read|by eapply preliminary_auth]. }
  assert (Hif : forall (b : bool) line t r, authLine auth line -> emits preliminary (if b then command peer StAuth line t else mret r)).
  { intros [] line t r Hl; [by apply Hc|apply emits_ret]. }
  unfold authLine in Hc, Hif. destruct (bool_decide _); [|destruct (bool_decide _); [|apply emits_ret]].
  - apply emits_bind; [apply Hc; auto|]. intros r. apply emits_ret.
  - repeat (apply emits_bind; [first [apply Hc|apply Hif]; auto|intros ?]). apply emits_ret.
Qed.

Lemma smarthostAuth_spec caps c r c' :
  smarthostAuth peer cfg target caps c = (r, c') ->
  exists l, cn_trace c' = cn_trace c ++ l /\ Forall preliminary l /\
    (l <> [] \/ r = inr None -> cf_smarthost cfg <> None -> exists info, cn_secure c = Some info /\ tls_authorized info = true).
Proof.
  intros H. unfold smarthostAuth in H. destruct (cf_smarthost cfg) as [auth|] eqn:Ea.
  - cbn in H. unfold mbind, Sess_bind, gets in H. destruct (cn_secure c) as [info|]; [destruct (tls_authorized info) eqn:Et; cbn in H|].
    + apply (authenticate_emits auth caps Ea) in H as (l & H & F). exists l. eauto.
    + exists []. injection H as <- <-. rewrite app_nil_r, fail_trace. split_and!; [done..|]. by intros [?|?].
    + exists []. injection H as <- <-. rewrite app_nil_r. split_and!; [done..|]. by intros [?|?].
  - injection H as <- <-. exists []. rewrite app_nil_r. by split_and!.
Qed.

(** Everything up to the transaction: nothing but greetings and STARTTLS until the connection is judged. *)
Definition guarded {A} (r : jsstr + (A + Caps)) (c : Conn) : Prop :=
  exists pre post, cn_trace c = pre ++ post /\ Forall clear pre /\ Forall preliminary post /\
    (post <> [] \/ (exists caps, r = inr (inr caps)) -> isMandatory (tg_policy target) = true \/ cf_smarthost cfg <> None ->
     exists info, Secured info ∈ pre /\ judged info).

Lemma guarded_clear {A} (r : jsstr + (A + Caps)) c l :
  cn_trace c = l -> Forall clear l -> (forall caps, r <> inr (inr caps)) -> guarded r c.
Proof. intros <- Hl Hr. exists (cn_trace c), []. rewrite app_nil_r. split_and!; [done..|]. intros [?|[caps Hc]]; [done|]. by apply Hr in Hc. Qed.

Lemma prepare_guarded d r c' : prepare peer verifyPeer target request cfg (newConn d) = (r, c') -> guarded r c'.
Proof.
  intros H. unfold prepare in H.
  apply sess_bind_inv in H as [(e & H & ->)|(greeting & c1 & Hg & H)].
  { apply (emits_read clear) in H as (l & Hl & Fl); [|done]. by eapply guarded_clear. }
  pose proof (keeps_read _ _ _ _ _ Hg) as K1. apply (emits_read clear) in Hg as (l1 & H1 & F1); [|done]. cbn in H1, K1.
  destruct (negb _); [injection H as <- <-; by eapply guarded_clear|].
  apply sess_bind_inv in H as [(e & H & ->)|(caps1 & c2 & Hh & H)].
  { apply hello_emits in H as (l & Hl & Fl). rewrite H1 in Hl. eapply guarded_clear; [done| |done]. by apply Forall_app. }
  pose proof (hello_keeps _ _ _ _ Hh) as K2. apply hello_emits in Hh as (l2 & H2 & F2). rewrite H1 in H2.
  assert (F12 : Forall clear (l1 ++ l2)) by by apply Forall_app.
  destruct caps1 as [res|caps1]; [injection H as <- <-; by eapply guarded_clear|].
  apply sess_bind_inv in H as [(e & H & ->)|(caps2 & c3 & Hs & H)].
  { apply secureIfOffered_emits in H as (l & Hl & Fl). rewrite H2 in Hl. eapply guarded_clear; [done| |done]. by apply Forall_app. }
  assert (Hset : forall caps, caps2 = inr caps -> settled c3) by (intros caps ->; eapply secureIfOffered_settled; [exact Hs|congruence]).
  apply secureIfOffered_emits in Hs as (l3 & H3 & F3). rewrite H2 in H3. assert (F123 : Forall clear ((l1 ++ l2) ++ l3)) by by apply Forall_app.
  destruct caps2 as [res|caps2]; [injection H as <- <-; by eapply guarded_clear|]. specialize (Hset _ eq_refl).
  assert (Hfin : exists ra l, smarthostAuth peer cfg target caps2 c3 = (ra, c') /\ cn_trace c' = cn_trace c3 ++ l /\ Forall preliminary l /\
    ((exists caps, r = inr (inr caps)) -> ra = inr None) /\
    (l <> [] \/ ra = inr None -> cf_smarthost cfg <> None -> exists info, cn_secure c3 = Some info /\ tls_authorized info = true)).
  { apply sess_bind_inv in H as [(e & H & ->)|(refused & c4 & Ha & H)].
    - pose proof (smarthostAuth_spec _ _ _ _ H) as (l & Hl & Fl & Hj). exists (inl e), l. split_and!; [done..|by intros [? ?]|done].
    - pose proof (smarthostAuth_spec _ _ _ _ Ha) as (l & Hl & Fl & Hj).
      assert (c4 = c') as -> by (destruct refused; [|destruct (unsafeAddress _)]; by injection H).
      exists (inr refused), l. split_and!; [done..| |done]. intros [caps ->]. by destruct refused. }
  destruct Hfin as (ra & l & _ & Hl & Fl & Hra & Hj). exists ((l1 ++ l2) ++ l3), l. rewrite Hl, H3. split_and!; [done..|].
  intros Hpost Hneed. unfold settled in Hset. assert (Hpost' : l <> [] \/ ra = inr None) by (destruct Hpost as [?|?]; auto).
  destruct (cn_secure c3) as [info|].
  - exists info. destruct Hset as [Hin Hv]. rewrite <- H3. split; [done|]. split; [done|]. intros Hc. destruct (Hj Hpost' Hc) as (i & [= <-] & ?). done.
  - destruct Hneed as [Hm|Hc]; [congruence|]. by destruct (Hj Hpost' Hc) as (i & ? & _).
Qed.

Lemma guarded_preliminary {A} (r : jsstr + (A + Caps)) c : guarded r c -> Forall preliminary (cn_trace c).
Proof. intros (pre & post & -> & F1 & F2 & _). apply Forall_app. split; [|done]. eapply Forall_impl; [exact F1|]. by left. Qed.

(** ** The transaction *)

Definition noBody (ev : ConnEvent) : Prop := match ev with Wrote _ => False | _ => True end.

Lemma mailCommand_spec caps c r c' :
  mailCommand peer request cfg caps c = (r, c') ->
  exists l, cn_trace c' = cn_trace c ++ l /\ Forall noBody l /\
    (r = inr None -> exists p reply, l = [Sent (js "MAIL FROM:<" ++ rq_envelopeFrom request ++ js ">" ++ p); Read reply] /\ is2xx reply = true) /\
    (forall res, r = inr (Some res) -> exists o, isDelivered o = false /\ res = Definitive (fillResults (rq_recipients request) o [])).
Proof.
  intros H. unfold mailCommand in H. apply sess_bind_inv in H as [(e & H & ->)|(line & c1 & Hf & H)].
  { exists []. rewrite (formatted_throws _ _ _ _ H), app_nil_r. by split_and!. }
  assert (exists p, c1 = c /\ line = js "MAIL FROM:<" ++ rq_envelopeFrom request ++ js ">" ++ p) as (p & -> & ->).
  { apply formatted_line in Hf as [-> Hf]. destruct (formatMailParams _) as [p|]; [|done]. exists p. by injection Hf as <-. }
  apply sess_bind_inv in H as [(e & H & ->)|(mail & c2 & Hc & H)].
  - apply (emits_command noBody) in H as (l & Hl & Fl); [|done..]. exists l. by split_and!.
  - apply command_spec in Hc as [_ Hc]. injection H as <- <-. eexists. split; [exact Hc|]. split; [by repeat constructor|].
    pose proof (classify_delivered mail) as Hd. destruct (is2xx mail) eqn:E2; split; [by intros _; exists p, mail|done|done|].
    intros res [= <-]. eexists. split; [|reflexivity]. by destruct (classifyReply mail).
Qed.

Lemma preliminary_noBody l : Forall preliminary l -> Forall noBody l.
Proof. intros F. eapply Forall_impl; [exact F|]. intros ev [H|(line & auth & -> & _)]; [by destruct ev|done]. Qed.

(** The server accepted the recipient. *)
Definition rcptAccepted (l : list ConnEvent) (r : DeliveryRecipient) : Prop :=
  exists l1 p reply l2, l = l1 ++ [Sent (js "RCPT TO:<" ++ dl_address r ++ js ">" ++ p); Read reply] ++ l2 /\ is2xx reply = true.

Lemma rcptAccepted_app l l' r : rcptAccepted l' r -> rcptAccepted (l ++ l') r.
Proof. intros (l1 & p & reply & l2 & -> & H). exists (l ++ l1), p, reply, l2. by rewrite <- app_assoc. Qed.

Definition notDelivered (id : jsstr) (o : AttemptOutcome) : Prop := isDelivered o = false.

Record rcptSpec (rs acc : list DeliveryRecipient) (results : Results) (l : list ConnEvent) (r : jsstr + list DeliveryRecipient) (results' : Results) : Prop := {
  rs_body : Forall noBody l;
  rs_outcomes : outcomes notDelivered results -> outcomes notDelivered results';
  rs_answered x : answered results x -> answered results' x;
  rs_accepted acc' x : r = inr acc' -> x ∈ acc' -> x ∈ acc \/ x ∈ rs /\ rcptAccepted l x;
  rs_kept acc' x : r = inr acc' -> x ∈ acc -> x ∈ acc';
  rs_all acc' x : r = inr acc' -> x ∈ rs -> x ∈ acc' \/ answered results' x
}.

Lemma rcptSpec_refuse x o l0 rs acc results l r results' :
  Forall noBody l0 -> isDelivered o = false ->
  rcptSpec rs acc (resultSet (dl_id x) o results) l r results' -> rcptSpec (x :: rs) acc results (l0 ++ l) r results'.
Proof.
  intros Hl Ho [H1 H2 H3 H4 H5 H6]. split.
  - by apply Forall_app.
  - intros Hq. by apply H2, outcomes_set.
  - intros y Hy. by apply H3, answered_set.
  - intros acc' y E Hy. destruct (H4 acc' y E Hy) as [?|[? ?]]; [by left|right]. split; [set_solver|by apply rcptAccepted_app].
  - done.
  - intros acc' y E Hy. apply elem_of_cons in Hy as [->|Hy]; [right; apply H3|by apply H6].
    unfold answered. rewrite resultGet_set, bool_decide_eq_true_2; done.
Qed.

Lemma rcptSpec_accept x l0 rs acc results l r results' :
  Forall noBody l0 -> (forall l, rcptAccepted (l0 ++ l) x) -> rcptSpec rs (acc ++ [x]) results l r results' -> rcptSpec (x :: rs) acc results (l0 ++ l) r results'.
Proof.
  intros Hl Hx [H1 H2 H3 H4 H5 H6]. split; [by apply Forall_app|done|done|..].
  - intros acc' y E Hy. destruct (H4 acc' y E Hy) as [Hin|[? ?]]; [|right; split; [set_solver|by apply rcptAccepted_app]].
    apply elem_of_app in Hin as [?|Hin]; [by left|]. apply list_elem_of_singleton in Hin as ->. right. split; [set_solver|apply Hx].
  - intros acc' y E Hy. apply (H5 _ _ E). set_solver.
  - intros acc' y E Hy. apply elem_of_cons in Hy as [->|Hy]; [left; apply (H5 _ _ E); set_solver|by apply H6].
Qed.

Lemma rcptLoop_spec caps rs : forall acc results c r results' c',
  rcptLoop peer cfg caps rs acc results c = (r, results', c') -> exists l, cn_trace c' = cn_trace c ++ l /\ rcptSpec rs acc results l r results'.
Proof.
  induction rs as [|x rs IH]; intros acc results c r results' c' H; cbn [rcptLoop] in H.
  { injection H as <- <- <-. exists []. rewrite app_nil_r. split; [done|]. split; [done..| | |set_solver]; intros acc' x [= <-]; auto. }
  destruct (unsafeAddress (dl_address x)).
  { apply IH in H as (l & Hl & HS). exists l. split; [done|]. by apply (rcptSpec_refuse x _ []) in HS. }
  match type of H with (let (_, _) := ?m in _) = _ => destruct m as [[e|reply] c1] eqn:E end.
  - injection H as <- <- <-. apply sess_bind_inv in E as [(e' & E & _)|(line & c2 & Ef & E)].
    + exists []. rewrite (formatted_throws _ _ _ _ E), app_nil_r. by split.
    + apply formatted_line in Ef as [-> _].
      apply (emits_command noBody) in E as (l & Hl & Fl); [|done..]. exists l. by split.
  - apply sess_bind_inv in E as [(e' & _ & E)|(line & c2 & Ef & E)]; [done|].
    assert (exists p, c2 = c /\ line = js "RCPT TO:<" ++ dl_address x ++ js ">" ++ p) as (p & -> & ->).
    { apply formatted_line in Ef as [-> Ef]. destruct (formatRcptParams _) as [p|]; [|done]. exists p. by injection Ef as <-. }
    apply command_spec in E as [_ E]. pose proof (classify_delivered reply) as Hd. destruct (is2xx reply) eqn:E2.
    + apply IH in H as (l & Hl & HS). rewrite Hl, E. eexists. rewrite <- app_assoc. split; [reflexivity|].
      apply rcptSpec_accept; [by repeat constructor| |done]. intros l'. by exists [], p, reply, l'.
    + apply IH in H as (l & Hl & HS). rewrite Hl, E. eexists. rewrite <- app_assoc. split; [reflexivity|].
      eapply rcptSpec_refuse; [by repeat constructor|exact Hd|done].
Qed.

(** What was written of the message. *)
Definition written (l : list ConnEvent) : bytes := concat ((fun ev => match ev with Wrote d => d | _ => [] end) <$> l).

Lemma written_app l l' : written (l ++ l') = written l ++ written l'.
Proof. unfold written. by rewrite fmap_app, concat_app. Qed.

Lemma written_wrote ws : written (Wrote <$> ws) = concat ws.
Proof. unfold written. induction ws as [|w ws IH]; [done|]. cbn in IH |- *. by rewrite IH. Qed.

Lemma written_noBody l : Forall noBody l -> written l = [].
Proof. unfold written. induction 1 as [|ev l H _ IH]; [done|]. by destruct ev. Qed.

Lemma streamChunks_spec t chunks : forall stuffer c r c',
  ended stuffer = false -> streamChunks peer t chunks stuffer c = (r, c') ->
  exists ws rest, cn_trace c' = cn_trace c ++ (Wrote <$> ws) /\ stuff_message chunks stuffer = Some (concat ws ++ rest) /\ rest <> [] /\
    forall s', r = inr s' -> exists s2, stuffer_end s' = Some (rest, s2).
Proof.
  induction chunks as [|chunk chunks IH]; intros stuffer c r c' He H; cbn [streamChunks stuff_message] in H |- *.
  - injection H as <- <-. destruct (stuffer_end_some stuffer He) as (out & s2 & Hs & Hne). exists [], out. rewrite app_nil_r, Hs.
    split_and!; [done..|]. intros s' [= <-]. eauto.
  - unfold stuffer_push in H |- *. rewrite He in H |- *. pose proof (stuff_loop_ended chunk stuffer) as He'.
    destruct (stuff_loop chunk stuffer) as [out s1]. cbn in He'. rewrite He in He'.
    destruct (stuff_message_some chunks s1 He') as (rest & Hm & Hne).
    apply sess_bind_inv in H as [(e & H & ->)|([] & c1 & Hw & H)].
    + destruct (0 <? length out)%nat; [|done]. rewrite Hm. cbn. apply write_spec in H as [(e' & _ & H)|H]; rewrite H.
      * exists [], (out ++ rest). rewrite app_nil_r. split_and!; [done..|by intros [_ ?]%app_eq_nil|done].
      * exists [out], rest. cbn. rewrite app_nil_r. by split_and!.
    + assert (exists ws0, cn_trace c1 = cn_trace c ++ (Wrote <$> ws0) /\ out = concat ws0) as (ws0 & H0 & ->).
      { destruct (0 <? length out)%nat eqn:El.
        - apply write_spec in Hw as [(e & ? & _)|Hw]; [done|]. exists [out]. cbn. by rewrite app_nil_r.
        - injection Hw as <-. exists []. rewrite app_nil_r. split; [done|]. destruct out; [done|]. by cbn in El. }
      apply IH in H as (ws & rest' & H1 & H2 & H3 & H4); [|done]. exists (ws0 ++ ws), rest'.
      rewrite H1, H0, H2, fmap_app, concat_app, <- !app_assoc. by split_and!.
Qed.

(** Either the whole message was written, or a part that does not end it. *)
Lemma streamBody_spec t c r c' :
  streamBody peer request t c = (r, c') ->
  exists ws, cn_trace c' = cn_trace c ++ (Wrote <$> ws) /\
    ((exists chunks, rq_message request = MessageStream chunks None /\ stuff_message chunks newStuffer = Some (concat ws)) \/
     r <> inr tt /\ data_lines [] (concat ws) = None).
Proof.
  unfold streamBody. destruct (rq_message request) as [m|chunks failure].
  { intros [= <- <-]. exists []. rewrite app_nil_r. split; [done|]. by right. }
  intros H. apply sess_bind_inv in H as [(e & H & ->)|(s1 & c1 & Hs & H)].
  { apply streamChunks_spec in H as (ws & rest & H1 & H2 & H3 & _); [|done]. exists ws. split; [done|]. right. split; [done|]. by eapply stuffed_prefix_open. }
  apply streamChunks_spec in Hs as (ws & rest & H1 & H2 & H3 & H4); [|done]. destruct (H4 _ eq_refl) as [s2 He].
  assert (Hopen : data_lines [] (concat ws) = None) by by eapply stuffed_prefix_open.
  destruct failure as [m|]; [injection H as <- <-; exists ws; split; [done|by right]|]. rewrite He in H. apply write_spec in H as [(e & -> & H)|H].
  - exists ws. rewrite H. split; [done|by right].
  - exists (ws ++ [rest]). rewrite H, H1, fmap_app, app_assoc. split; [done|]. left. exists chunks. split; [done|].
    rewrite concat_app. cbn. by rewrite app_nil_r.
Qed.

Definition whole (w : bytes) : Prop := exists chunks, rq_message request = MessageStream chunks None /\ stuff_message chunks newStuffer = Some w.

Lemma dataPhase_spec acc results c r c' :
  dataPhase peer request cfg acc results c = (r, c') ->
  exists l, cn_trace c' = cn_trace c ++ l /\ (whole (written l) \/ data_lines [] (written l) = None) /\
    forall res, r = inr res ->
      (exists o, isDelivered o = false /\ res = Definitive (setResults acc o results)) \/
      (exists data ws final, l = [Sent (js "DATA"); Read data] ++ (Wrote <$> ws) ++ [Read final] /\ code data = 354 /\ whole (concat ws) /\
         res = Definitive (setResults acc (classifyReply final) results)).
Proof.
  intros H. unfold dataPhase in H. apply sess_bind_inv in H as [(e & H & ->)|(data & c1 & Hd & H)].
  { apply (emits_command noBody) in H as (l & Hl & Fl); [|done..]. exists l. rewrite (written_noBody _ Fl). split_and!; [done|by right|done]. }
  apply command_spec in Hd as [_ Hd]. destruct (code data =? 354) eqn:E354; cbn [negb] in H.
  - apply sess_bind_inv in H as [(e & H & ->)|([] & c2 & Hb & H)].
    + apply streamBody_spec in H as (ws & H1 & H2). eexists. rewrite H1, Hd, <- app_assoc. split; [reflexivity|]. split; [|done].
      rewrite written_app, written_wrote. cbn. destruct H2 as [?|[_ ?]]; [by left|by right].
    + apply streamBody_spec in Hb as (ws & H1 & [H2|[? _]]); [|done]. rewrite Hd, <- app_assoc in H1.
      apply sess_bind_inv in H as [(e & H & ->)|(final & c3 & Hr & H)]; [apply read_spec in H as [_ H]|apply read_spec in Hr as [_ Hr]].
      * eexists. rewrite H. split; [exact H1|]. split; [left; by rewrite written_app, written_wrote|done].
      * injection H as <- <-. eexists. rewrite Hr, H1, <- !app_assoc. split; [reflexivity|]. split.
        -- left. rewrite !written_app, written_wrote. change (written [Read final]) with (@nil Z). by rewrite app_nil_r.
        -- intros res [= <-]. right. apply Z.eqb_eq in E354. exists data, ws, final. by split_and!.
  - injection H as <- <-. eexists. split; [exact Hd|]. split; [by right|]. intros res [= <-]. left. eexists. split; [|reflexivity].
    by destruct (classifyReply data).
Qed.

(** ** Results *)

Definition returns {A} (Q : A -> Prop) (m : Sess A) : Prop := forall c a c', m c = (inr a, c') -> Q a.

Lemma returns_bind {A B} (Q : B -> Prop) (m : Sess A) (f : A -> Sess B) : (forall a, returns Q (f a)) -> returns Q (m ≫= f).
Proof. intros Hf c b c' H. apply sess_bind_inv in H as [(e & _ & H)|(a & c1 & _ & H)]; [done|]. by apply Hf in H. Qed.

Lemma returns_bind2 {A B} (Q' : A -> Prop) (Q : B -> Prop) (m : Sess A) (f : A -> Sess B) : returns Q' m -> (forall a, Q' a -> returns Q (f a)) -> returns Q (m ≫= f).
Proof. intros Hm Hf c b c' H. apply sess_bind_inv in H as [(e & _ & H)|(a & c1 & Ha & H)]; [done|]. apply Hm in Ha. by apply (Hf a Ha) in H. Qed.

Lemma returns_ret {A} (Q : A -> Prop) a : Q a -> returns Q (mret a).
Proof. by intros Ha c b c' [= <- <-]. Qed.

Definition isNext (r : SessionResult) : Prop := match r with NextMx o => isDelivered o = false | Definitive _ => False end.
Definition leftNext {A} (r : SessionResult + A) : Prop := match r with inl r => isNext r | inr _ => True end.
Definition someNext (r : option SessionResult) : Prop := match r with Some r => isNext r | None => True end.

Lemma nextFromReply_next stage r : isNext (nextFromReply target stage r).
Proof. unfold nextFromReply. by destruct (_ && _). Qed.

Lemma hello_next after : returns leftNext (hello peer cfg target after).
Proof.
  apply returns_bind. intros ehlo. destruct (code ehlo =? 250); [by apply returns_ret|]. destruct (_ && _).
  - apply returns_bind. intros helo. apply returns_ret. destruct (code helo =? 250); [done|]. apply nextFromReply_next.
  - apply returns_ret, nextFromReply_next.
Qed.

Lemma refuse_next kind reason : returns isNext (refuse target kind reason).
Proof. unfold refuse. do 2 (apply returns_bind; intros ?). by apply returns_ret. Qed.

Lemma refuseOr_next reason m : returns leftNext m -> returns leftNext (refuseOr target reason m).
Proof.
  intros Hm. unfold refuseOr. destruct (tg_policy target) as [kind|]; [|done]. destruct (mandatoryKind kind); [|done].
  apply (returns_bind2 isNext); [apply refuse_next|intros r Hr; by apply returns_ret].
Qed.

Lemma afterHandshake_next secure : returns leftNext (afterHandshake peer verifyPeer cfg target secure).
Proof.
  apply returns_bind. intros []. destruct (tg_policy target) as [kind|]; [|apply hello_next]. destruct (verifyPeer _ _ _) as [v reason]. destruct (_ && _).
  - apply (returns_bind2 isNext); [apply refuse_next|intros r Hr; by apply returns_ret].
  - apply returns_bind. intros []. apply hello_next.
Qed.

Lemma secureIfOffered_next caps : returns leftNext (secureIfOffered peer verifyPeer cfg target caps).
Proof.
  unfold secureIfOffered. destruct (capsHas _ caps); [|apply refuseOr_next, returns_bind; intros []; by apply returns_ret]. apply returns_bind. intros starttls.
  destruct (code starttls =? 220); [|apply refuseOr_next, returns_bind; intros []; by apply returns_ret]. apply returns_bind. intros [e|secure]; [by apply refuseOr_next|apply afterHandshake_next].
Qed.

Lemma smarthostAuth_next caps : returns someNext (smarthostAuth peer cfg target caps).
Proof.
  unfold smarthostAuth. destruct (cf_smarthost cfg) as [auth|]; [|by apply returns_ret]. apply returns_bind. intros [info|]; [|by apply returns_ret].
  destruct (negb _); [apply returns_bind; intros []; by apply returns_ret|].
  assert (Hf : forall reply, returns someNext (mret (if code reply =? 235 then None else Some (nextFromReply target (js "AUTH") reply)))).
  { intros reply. apply returns_ret. destruct (code reply =? 235); [done|]. apply nextFromReply_next. }
  unfold authenticate. destruct (bool_decide _); [apply returns_bind; intros ?; apply Hf|].
  destruct (bool_decide _); [|by apply returns_ret]. repeat (apply returns_bind; intros ?). apply Hf.
Qed.

(** A result of the preparation is about this MX only, unless the sender's address is unusable. *)
Lemma prepare_result : returns (fun r => leftNext r \/ exists o, isDelivered o = false /\ r = inl (Definitive (fillResults (rq_recipients request) o [])))
  (prepare peer verifyPeer target request cfg).
Proof.
  apply returns_bind. intros greeting. destruct (negb _); [apply returns_ret; left; apply nextFromReply_next|].
  apply (returns_bind2 leftNext); [apply hello_next|]. intros [res|caps] H; [apply returns_ret; by left|].
  apply (returns_bind2 leftNext); [apply secureIfOffered_next|]. intros [res|caps'] H'; [apply returns_ret; by left|].
  apply (returns_bind2 someNext); [apply smarthostAuth_next|]. intros [res|] H''; [apply returns_ret; by left|].
  destruct (unsafeAddress _); apply returns_ret; [right; eexists; split; [|reflexivity]; done|by left].
Qed.

(** The transaction in which the server took the message for the recipient. *)
Definition acceptedIn (l : list ConnEvent) (r : DeliveryRecipient) (o : AttemptOutcome) : Prop :=
  exists p mail l1 data ws final,
    l = [Sent (js "MAIL FROM:<" ++ rq_envelopeFrom request ++ js ">" ++ p); Read mail] ++ l1 ++ [Sent (js "DATA"); Read data] ++ (Wrote <$> ws) ++ [Read final] /\
    is2xx mail = true /\ rcptAccepted l1 r /\ code data = 354 /\ whole (concat ws) /\ is2xx final = true /\ o = classifyReply final.

Definition fair (l : list ConnEvent) (id : jsstr) (o : AttemptOutcome) : Prop :=
  isDelivered o = true -> exists r, r ∈ rq_recipients request /\ dl_id r = id /\ acceptedIn l r o.

Lemma fair_not l id o : isDelivered o = false -> fair l id o.
Proof. unfold fair. congruence. Qed.

Lemma outcomes_fair l results : outcomes notDelivered results -> outcomes (fair l) results.
Proof. intros H id o Ho. by apply fair_not, (H id). Qed.

(** The state of affairs when the session ends after MAIL was tried. *)
Definition concluded (l : list ConnEvent) (res : SessionResult) : Prop :=
  (whole (written l) \/ data_lines [] (written l) = None) /\
  exists results, res = Definitive results /\ (forall r, r ∈ rq_recipients request -> answered results r) /\ outcomes (fair l) results.

Lemma caught_concluded l results e c res c' :
  (whole (written l) \/ data_lines [] (written l) = None) -> outcomes notDelivered results ->
  caught target request true results e c = (res, c') -> cn_trace c' = cn_trace c /\ concluded l res.
Proof.
  intros Hw Hq [= <- <-]. rewrite fail_trace. split; [done|]. split; [done|]. eexists. split; [reflexivity|].
  split; [intros r Hr; apply fill_answers; by left|]. apply outcomes_fill; [by intros id; apply fair_not|]. by apply outcomes_fair.
Qed.

Lemma fill_concluded l o : Forall noBody l -> isDelivered o = false -> concluded l (Definitive (fillResults (rq_recipients request) o [])).
Proof.
  intros Hl Ho. split; [right; by rewrite written_noBody|]. eexists. split; [reflexivity|].
  split; [intros r Hr; apply fill_answers; by left|]. apply outcomes_fill; [by intros id; apply fair_not|done].
Qed.

Lemma afterMail_concluded caps c0 c res c' (lm : list ConnEvent) p mail :
  lm = [Sent (js "MAIL FROM:<" ++ rq_envelopeFrom request ++ js ">" ++ p); Read mail] -> is2xx mail = true ->
  afterMail peer target request cfg caps c = (res, c') -> cn_trace c = cn_trace c0 ++ lm -> exists l, cn_trace c' = cn_trace c0 ++ l /\ concluded l res.
Proof.
  intros Hlm Hmail H Hc. unfold afterMail in H. destruct (rcptLoop _ _ _ _ _ _ _) as [[r results] c1] eqn:Er.
  apply rcptLoop_spec in Er as (l & Hl & [S1 S2 _ S4 _ S6]). assert (Hq : outcomes notDelivered results) by by apply S2.
  assert (Fl : Forall noBody (lm ++ l)) by (subst lm; by repeat constructor).
  assert (Hw : data_lines [] (written (lm ++ l)) = None) by by rewrite written_noBody.
  rewrite Hc, <- app_assoc in Hl. destruct r as [e|acc].
  { eapply caught_concluded in H as [Ht HC]; [|by right|done]. exists (lm ++ l). by rewrite Ht. }
  destruct acc as [|x acc].
  { injection H as <- <-. exists (lm ++ l). split; [done|]. split; [by right|]. exists results. split; [done|]. split; [|by apply outcomes_fair].
    intros r Hr. destruct (S6 [] r eq_refl Hr) as [Hn|?]; [set_solver|done]. }
  destruct (dataPhase _ _ _ _ _ _) as [rd c2] eqn:Ed. apply dataPhase_spec in Ed as (ld & Hd & Hwd & Hres).
  assert (Hww : whole (written ((lm ++ l) ++ ld)) \/ data_lines [] (written ((lm ++ l) ++ ld)) = None) by by rewrite written_app, (written_noBody (lm ++ l) Fl).
  rewrite Hl, <- app_assoc in Hd. exists ((lm ++ l) ++ ld). destruct rd as [e|result].
  { eapply caught_concluded in H as [Ht HC]; [|exact Hww|done]. by rewrite Ht. }
  injection H as <- <-. split; [done|]. split; [done|].
  assert (Hans : forall o r, r ∈ rq_recipients request -> answered (setResults (x :: acc) o results) r).
  { intros o r Hr. apply setResults_answers. by apply (S6 _ _ eq_refl). }
  destruct (Hres _ eq_refl) as [(o & Ho & ->)|(data & ws & final & -> & H354 & Hwh & ->)]; (eexists; split; [reflexivity|]; split; [apply Hans|]).
  - apply outcomes_setResults; [by intros; apply fair_not|by apply outcomes_fair].
  - apply outcomes_setResults; [|by apply outcomes_fair]. intros r Hr Hdel. exists r. destruct (S4 _ _ eq_refl Hr) as [?|[? ?]]; [set_solver|].
    split; [done|]. split; [done|]. subst lm. exists p, mail, l, data, ws, final. rewrite classify_delivered in Hdel. by rewrite <- !app_assoc.
Qed.

Lemma transaction_concluded caps c res c' :
  transaction peer target request cfg caps c = (res, c') -> exists l, cn_trace c' = cn_trace c ++ l /\ concluded l res.
Proof.
  unfold transaction. destruct (mailCommand _ _ _ _ _) as [rm c1] eqn:Em. apply mailCommand_spec in Em as (lm & Hl & Fl & Hok & Hno).
  intros H. destruct rm as [e|[result|]].
  - eapply caught_concluded in H as [Ht HC]; [|by right; rewrite (written_noBody _ Fl)|done]. exists lm. by rewrite Ht.
  - injection H as <- <-. destruct (Hno _ eq_refl) as (o & Ho & ->). exists lm. split; [done|]. by apply fill_concluded.
  - destruct (Hok eq_refl) as (p & mail & Hlm & Hmail). by eapply afterMail_concluded.
Qed.

(** What a session from a new connection comes to. *)
Lemma runSession_cases d res c :
  runSession peer verifyPeer target request cfg (newConn d) = (res, c) ->
  exists rp c0 l, prepare peer verifyPeer target request cfg (newConn d) = (rp, c0) /\ cn_trace c = cn_trace c0 ++ l /\
    ((l = [] /\ isNext res) \/ (l <> [] -> exists caps, rp = inr (inr caps)) /\ concluded l res).
Proof.
  unfold runSession. destruct (prepare _ _ _ _ _ _) as [rp c0] eqn:Ep. intros H. exists rp, c0. destruct rp as [e|[result|caps]].
  - exists []. injection H as <- <-. rewrite app_nil_r, fail_trace. split_and!; [done..|]. by left.
  - exists []. injection H as <- <-. rewrite app_nil_r. split_and!; [done..|]. destruct (prepare_result _ _ _ Ep) as [Hn|(o & Ho & [= ->])]; [by left|right].
    split; [done|]. by apply fill_concluded.
  - apply transaction_concluded in H as (l & Hl & HC). exists l. split_and!; [done..|]. right. split; [|done]. intros _. by exists caps.
Qed.

Lemma session_delivered d results c id o :
  runSession peer verifyPeer target request cfg (newConn d) = (Definitive results, c) ->
  resultGet id results = Some o -> isDelivered o = true ->
  exists before l r, cn_trace c = before ++ l /\ Forall preliminary before /\ r ∈ rq_recipients request /\ dl_id r = id /\ acceptedIn l r o.
Proof.
  intros H Ho Hd. apply runSession_cases in H as (rp & c0 & l & Hp & Hl & [[_ []]|[_ (_ & results' & [= <-] & _ & Hf)]]).
  destruct (Hf _ _ Ho Hd) as (r & Hr & Hid & Ha). exists (cn_trace c0), l, r. split_and!; [done| |done..]. by eapply guarded_preliminary, prepare_guarded.
Qed.

(** C32: A recipient is reported delivered only after the server took the message for it: MAIL answered 2xx,
    RCPT to its address answered 2xx, DATA answered 354, the whole message written dot-stuffed and
    terminated, and the reply after it 2xx; that reply is the reported outcome, and nothing follows it. *)
Theorem delivered_means_accepted d results c id o :
  runSession peer verifyPeer target request cfg (newConn d) = (Definitive results, c) ->
  resultGet id results = Some o -> isDelivered o = true ->
  exists before l r, cn_trace c = before ++ l /\ Forall preliminary before /\ r ∈ rq_recipients request /\ dl_id r = id /\ acceptedIn l r o.
Proof. apply session_delivered. Qed.

(** What the server has been sent of the message when the session ends is the whole message or not a
    complete message: an attempt that stops midway never terminates the body. *)
Theorem body_whole_or_open d res c :
  runSession peer verifyPeer target request cfg (newConn d) = (res, c) ->
  whole (written (cn_trace c)) \/ data_lines [] (written (cn_trace c)) = None.
Proof.
  intros H. apply runSession_cases in H as (rp & c0 & l & Hp & Hl & Hc). apply prepare_guarded, guarded_preliminary, preliminary_noBody, written_noBody in Hp.
  rewrite Hl, written_app, Hp. destruct Hc as [[-> _]|[_ [Hw _]]]; [by right|done].
Qed.

Lemma session_tls d res c :
  isMandatory (tg_policy target) = true \/ cf_smarthost cfg <> None ->
  runSession peer verifyPeer target request cfg (newConn d) = (res, c) ->
  exists pre post, cn_trace c = pre ++ post /\ Forall clear pre /\ (post <> [] -> exists info, Secured info ∈ pre /\ judged info).
Proof.
  intros Hneed H. apply runSession_cases in H as (rp & c0 & l & Hp & Hl & Hc). apply prepare_guarded in Hp as (pre & post & Ht & Fpre & _ & Hj).
  exists pre, (post ++ l). rewrite Hl, Ht, <- app_assoc. split_and!; [done..|]. intros Hne. apply Hj; [|done].
  destruct post; [right|by left]. destruct Hc as [[-> _]|[Hcaps _]]; [done|]. by apply Hcaps.
Qed.

(** C33: When the policy of the target makes verified TLS mandatory, or the session is one with a
    smarthost, nothing but EHLO, HELO and STARTTLS is sent before a completed handshake whose peer was
    verified under the policy (and whose certificate is authorized, for a smarthost): neither
    credentials, nor addresses, nor the message. *)
Theorem nothing_before_verified_tls d res c :
  isMandatory (tg_policy target) = true \/ cf_smarthost cfg <> None ->
  runSession peer verifyPeer target request cfg (newConn d) = (res, c) ->
  exists pre post, cn_trace c = pre ++ post /\ Forall clear pre /\ (post <> [] -> exists info, Secured info ∈ pre /\ judged info).
Proof. apply session_tls. Qed.

Lemma session_result d res c :
  runSession peer verifyPeer target request cfg (newConn d) = (res, c) ->
  match res with
  | Definitive results => forall r, r ∈ rq_recipients request -> is_Some (resultGet (dl_id r) results)
  | NextMx o => Forall preliminary (cn_trace c) /\ isDelivered o = false
  end.
Proof.
  intros H. apply runSession_cases in H as (rp & c0 & l & Hp & Hl & [[-> Hn]|[_ (_ & results & -> & Ha & _)]]); [|done].
  destruct res as [|o]; [done|]. split; [|done]. rewrite Hl, app_nil_r. by eapply guarded_preliminary, prepare_guarded.
Qed.

(** The session is definitive for the message or says nothing about it: a definitive result answers
    for every recipient, and when the next MX is to be tried nothing of a transaction was sent. *)
Theorem definitive_or_untouched d res c :
  runSession peer verifyPeer target request cfg (newConn d) = (res, c) ->
  match res with
  | Definitive results => forall r, r ∈ rq_recipients request -> is_Some (resultGet (dl_id r) results)
  | NextMx o => Forall preliminary (cn_trace c) /\ isDelivered o = false
  end.
Proof. apply session_result. Qed.

End session.

End client.

(** ** A session *)

(** A server that offers STARTTLS, has a certificate that verifies, and accepts everything. *)
Definition demo_reply (trace : list ConnEvent) : jsstr :=
  match last trace with
  | None => js "220 mx.example ESMTP"
  | Some (Sent line) =>
      if startsWith (js "EHLO") line then js "250-mx.example" ++ CRLF ++ js "250 STARTTLS"
      else if startsWith (js "STARTTLS") line then js "220 go ahead"
      else if startsWith (js "DATA") line then js "354 end with a dot" else js "250 2.0.0 ok"
  | Some _ => js "250 2.0.0 queued"
  end.

Definition demo_tls : TlsInfo := mkTls (Some (js "TLSv1.3")) (js "TLS_AES_128_GCM_SHA256") (Some (js "mx.example")) None true [].
Definition demo_peer : Peer := mkPeer (fun trace => [SockData (demo_reply trace ++ CRLF)]) (fun _ => ([], true)) (fun _ => HandshakeOk demo_tls).
Definition demo_verify (kind : TlsPolicyKind) (info : TlsInfo) (host : jsstr) : bool * jsstr := (tls_authorized info, js "certificate valid").
Definition demo_config : SessionConfig := mkConfig (js "out.example") RFC5321_TIMEOUTS None.
Definition demo_target : Target := mkTarget (js "mx.example") (js "192.0.2.1") (Some PkMtaStsEnforce).
Definition demo_request (failure : option jsstr) : DeliveryRequest :=
  mkRequest (js "a@example.org") [mkRecipient (js "r1") (js "b@example.net") None] (MessageStream [js "Subject: x" ++ CRLF; CRLF ++ js ".dot"] failure) 18 None None.
Definition demo_runtime : Runtime := {| uni_upper s := s; uni_lower s := s; big_string _ := []; isIPv6 _ := false |}.
Definition demo_details : AttemptDetails := mkDetails (Some (js "mx.example")) (Some (js "192.0.2.1")) None None None None.
Definition demo_run (failure : option jsstr) : SessionResult * Conn :=
  runSession (R := demo_runtime) demo_peer demo_verify demo_target (demo_request failure) demo_config (newConn demo_details).

Definition demo_outcome : AttemptOutcome := ODelivered (Some 250) (Some (js "2.0.0")) (Some (js "queued")).

Lemma delivered_means_accepted_witness :
  resultGet (js "r1") [(js "r1", demo_outcome)] = Some demo_outcome /\
  exists before l r, cn_trace (demo_run None).2 = before ++ l /\ Forall (preliminary demo_config) before /\ r ∈ rq_recipients (demo_request None) /\
    dl_id r = js "r1" /\ acceptedIn (demo_request None) l r demo_outcome.
Proof.
  split; [vm_compute; reflexivity|].
  apply (delivered_means_accepted (R := demo_runtime) demo_peer demo_verify demo_config demo_target (demo_request None) demo_details [(js "r1", demo_outcome)]).
  - vm_compute. reflexivity.
  - vm_compute. reflexivity.
  - reflexivity.
Defined.

Lemma body_whole_or_open_witness :
  data_lines [] (written (cn_trace (demo_run (Some (js "blob store timeout"))).2)) = None.
Proof.
  destruct (body_whole_or_open (R := demo_runtime) demo_peer demo_verify demo_config demo_target (demo_request (Some (js "blob store timeout"))) demo_details
    (demo_run (Some (js "blob store timeout"))).1 (demo_run (Some (js "blob store timeout"))).2) as [(chunks & H & _)|H].
  - vm_compute. reflexivity.
  - discriminate H.
  - exact H.
Defined.

Lemma nothing_before_verified_tls_witness :
  exists pre post, cn_trace (demo_run None).2 = pre ++ post /\ Forall (clear demo_config) pre /\
    (post <> [] -> exists info, Secured info ∈ pre /\ judged demo_verify demo_config demo_target info).
Proof.
  apply (nothing_before_verified_tls (R := demo_runtime) demo_peer demo_verify demo_config demo_target (demo_request None) demo_details (demo_run None).1).
  - left. reflexivity.
  - vm_compute. reflexivity.
Defined.

Lemma definitive_or_untouched_witness :
  is_Some (resultGet (js "r1") [(js "r1", demo_outcome)]).
Proof.
  assert (H : runSession (R := demo_runtime) demo_peer demo_verify demo_target (demo_request None) demo_config (newConn demo_details) =
    (Definitive [(js "r1", demo_outcome)], (demo_run None).2)) by (vm_compute; reflexivity).
  apply (definitive_or_untouched (R := demo_runtime) _ _ _ _ _ _ _ _ H (mkRecipient (js "r1") (js "b@example.net") None)). apply list_elem_of_here.
Defined.
