(* ===== verification/JobQueue.v ===== *)
(** * JobQueue: the job table (packages/queue/src/index.ts)

    One list of rows for the table; an operation is one SQL statement or one transaction, so it is a
    function on the table. A payload is that of the outbound queue, or [None] when it has another shape. The
    ids the database draws are [uuid n] for a counter [n]. The polling loop of a worker is left out. *)
From Stdlib Require Import QArith.
From S2P Require Import Prelude JsString JsDouble.

Inductive JobStatus := JPending | JRunning | JDone | JDead.

#[export] Instance JobStatus_eq_dec : EqDecision JobStatus.
Proof. solve_decision. Defined.

(** A domain group: the payload of an outbound job. *)
Record Group := mkGroup { gr_messageId : jsstr; gr_domain : jsstr }.

#[export] Instance Group_eq_dec : EqDecision Group.
Proof. solve_decision. Defined.

Record Job := mkJob {
  jb_id : jsstr; jb_queue : jsstr; jb_payload : option Group; jb_status : JobStatus; jb_runAt : Z; jb_attempts : Z; jb_maxAttempts : Z;
  jb_lockedAt : option Z; jb_lockedBy : option jsstr; jb_lastError : option jsstr; jb_idempotencyKey : option jsstr; jb_createdAt : Z;
  jb_finishedAt : option Z
}.

(** [UPDATE ... WHERE p]: the rows changed are those of [p]. *)
Definition updateMany {A} (p : A -> bool) (f : A -> A) (table : list A) : list A := (fun row => if p row then f row else row) <$> table.

Definition set_job status runAt attempts lockedAt lockedBy lastError finishedAt (j : Job) : Job :=
  mkJob (jb_id j) (jb_queue j) (jb_payload j) status runAt attempts (jb_maxAttempts j) lockedAt lockedBy lastError (jb_idempotencyKey j) (jb_createdAt j) finishedAt.

Definition hasKey (key : jsstr) (j : Job) : bool := bool_decide (jb_idempotencyKey j = Some key).

(** [None] is the job an earlier enqueue with this key made already. *)
Definition enqueue (id queue : jsstr) (payload : option Group) (runAt maxAttempts : Z) (idempotencyKey : option jsstr) (now : Z) (jobs : list Job)
    : option Job * list Job :=
  if match idempotencyKey with Some key => existsb (hasKey key) jobs | None => false end then (None, jobs)
  else
    let job := mkJob id queue payload JPending runAt 0 maxAttempts None None None idempotencyKey now None in
    (Some job, jobs ++ [job]).

(** [baseMs = 30000] and [capMs = 3600000]; [random] is the number drawn. *)
Definition backoffMs (attempt baseMs capMs : Z) (random : Q) : Z :=
  let ceiling := inject_Z (Z.min capMs (baseMs * 2 ^ Z.max 0 (attempt - 1))) in
  mathRound (fl (fl (ceiling / 2) + fl (fl (random * ceiling) / 2)))%Q.

Definition claimable (queue : jsstr) (now leaseMs : Z) (j : Job) : bool :=
  bool_decide (jb_queue j = queue) &&
  (bool_decide (jb_status j = JPending) && (jb_runAt j <=? now) ||
   bool_decide (jb_status j = JRunning) && match jb_lockedAt j with Some t => t <? now - leaseMs | None => false end).

(** [ORDER BY run_at, created_at LIMIT 1]. *)
Definition earlier (a b : Job) : bool := (jb_runAt a <? jb_runAt b) || (jb_runAt a =? jb_runAt b) && (jb_createdAt a <=? jb_createdAt b).

Fixpoint earliest (jobs : list Job) : option Job :=
  match jobs with
  | [] => None
  | j :: jobs => match earliest jobs with Some k => Some (if earlier j k then j else k) | None => Some j end
  end.

Definition claim (queue workerId : jsstr) (now leaseMs : Z) (jobs : list Job) : option Job * list Job :=
  match earliest (List.filter (claimable queue now leaseMs) jobs) with
  | None => (None, jobs)
  | Some j =>
      let take (j : Job) := set_job JRunning (jb_runAt j) (jb_attempts j + 1) (Some now) (Some workerId) (jb_lastError j) (jb_finishedAt j) j in
      (Some (take j), updateMany (fun k => bool_decide (jb_id k = jb_id j)) take jobs)
  end.

(** The row is still this worker's. *)
Definition ownedBy (job k : Job) : bool :=
  bool_decide (jb_id k = jb_id job) && bool_decide (jb_status k = JRunning) && bool_decide (jb_lockedBy k = jb_lockedBy job).

Definition complete (job : Job) (now : Z) (jobs : list Job) : list Job :=
  updateMany (ownedBy job) (fun k => set_job JDone (jb_runAt k) (jb_attempts k) None (jb_lockedBy k) (jb_lastError k) (Some now) k) jobs.

Inductive FailResult := Retry | Dead.

Definition failJob (job : Job) (message : jsstr) (retryAt : option Z) (now : Z) (random : Q) (jobs : list Job) : FailResult * list Job :=
  let error := Some (take 4000 message) in
  if jb_maxAttempts job <=? jb_attempts job then
    (Dead, updateMany (ownedBy job) (fun k => set_job JDead (jb_runAt k) (jb_attempts k) None (jb_lockedBy k) error (Some now) k) jobs)
  else
    let runAt := default (now + backoffMs (jb_attempts job) 30000 3600000 random) retryAt in
    (Retry, updateMany (ownedBy job) (fun k => set_job JPending runAt (jb_attempts k) None (jb_lockedBy k) error (jb_finishedAt k) k) jobs).

Definition replay (id : jsstr) (now : Z) (jobs : list Job) : list Job :=
  updateMany (fun k => bool_decide (jb_id k = id)) (set_job JPending now 0 None None None None) jobs.
