(* ===== verification/DeliveryQueue.v ===== *)
(** * DeliveryQueue: the outbound queue and its worker (apps/delivery/src)

    enqueue.ts, worker.ts, hold.ts, cancel.ts, suppression.ts and message-id-alias.ts over the tables they
    use. A statement or a transaction is a function on the database, so that other processes may act between
    any two of them. Each operation takes the time its clock shows; rows the database makes get the id
    [uuid n] of a counter. Transports, the DSN hook and the router are arguments. Logging is left out. *)
From Stdlib Require Import QArith.
From S2P Require Import Prelude JsString JsDouble AuditLog SmtpReply SmtpClient DeliveryState JobQueue.

(** ** Tables *)

Record OutboundMessage := mkMessage {
  om_id : jsstr; om_appPasswordId : option jsstr; om_envelopeFrom : jsstr; om_messageId : option jsstr; om_blobSha256 : jsstr; om_size : Z;
  om_dsnRet : option jsstr; om_dsnEnvid : option jsstr; om_createdAt : Z
}.

Record OutboundRecipient := mkOutbound {
  or_id : jsstr; or_outboundMessageId : jsstr; or_address : jsstr; or_domain : jsstr; or_state : RecipientState; or_attempts : Z;
  or_nextAttemptAt : Z; or_lastCode : option Z; or_lastEnhanced : option jsstr; or_lastText : option jsstr; or_deliveredAt : option Z;
  or_delayDsnSentAt : option Z; or_failureDsnSentAt : option Z; or_dsnNotify : option jsstr; or_transport : jsstr; or_createdAt : Z; or_updatedAt : Z
}.

Record DeliveryAttempt := mkAttempt {
  da_id : jsstr; da_recipientId : jsstr; da_startedAt : Z; da_finishedAt : option Z; da_transport : jsstr; da_details : AttemptDetails;
  da_remoteCode : option Z; da_remoteEnhanced : option jsstr; da_remoteText : option jsstr; da_outcome : OutcomeName; da_error : option jsstr
}.

Record SuppressedRecipient := mkSuppressed {
  sr_id : jsstr; sr_address : jsstr; sr_reason : jsstr; sr_code : option Z; sr_enhanced : option jsstr; sr_text : option jsstr;
  sr_sourceRecipientId : option jsstr; sr_bounceCount : Z; sr_firstAt : Z; sr_lastAt : Z
}.

Record MessageIdAlias := mkAlias { al_alias : jsstr; al_messageId : jsstr; al_source : jsstr; al_outboundMessageId : jsstr; al_createdAt : Z }.

(** [db_frozen] holds the frozen app passwords. *)
Record Db := mkDb {
  db_messages : list OutboundMessage; db_recipients : list OutboundRecipient; db_attempts : list DeliveryAttempt; db_jobs : list Job;
  db_suppressed : list SuppressedRecipient; db_aliases : list MessageIdAlias; db_audit : list AuditEvent; db_frozen : list jsstr; db_seq : nat
}.

Definition set_recipients f (db : Db) : Db :=
  mkDb (db_messages db) (f (db_recipients db)) (db_attempts db) (db_jobs db) (db_suppressed db) (db_aliases db) (db_audit db) (db_frozen db) (db_seq db).
Definition set_attempts f (db : Db) : Db :=
  mkDb (db_messages db) (db_recipients db) (f (db_attempts db)) (db_jobs db) (db_suppressed db) (db_aliases db) (db_audit db) (db_frozen db) (db_seq db).
Definition set_jobs jobs (db : Db) : Db :=
  mkDb (db_messages db) (db_recipients db) (db_attempts db) jobs (db_suppressed db) (db_aliases db) (db_audit db) (db_frozen db) (db_seq db).
Definition set_suppressed rows (db : Db) : Db :=
  mkDb (db_messages db) (db_recipients db) (db_attempts db) (db_jobs db) rows (db_aliases db) (db_audit db) (db_frozen db) (db_seq db).
Definition set_aliases rows (db : Db) : Db :=
  mkDb (db_messages db) (db_recipients db) (db_attempts db) (db_jobs db) (db_suppressed db) rows (db_audit db) (db_frozen db) (db_seq db).
Definition set_audit rows (db : Db) : Db :=
  mkDb (db_messages db) (db_recipients db) (db_attempts db) (db_jobs db) (db_suppressed db) (db_aliases db) rows (db_frozen db) (db_seq db).
Definition set_frozen ids (db : Db) : Db :=
  mkDb (db_messages db) (db_recipients db) (db_attempts db) (db_jobs db) (db_suppressed db) (db_aliases db) (db_audit db) ids (db_seq db).
Definition bump (db : Db) : Db :=
  mkDb (db_messages db) (db_recipients db) (db_attempts db) (db_jobs db) (db_suppressed db) (db_aliases db) (db_audit db) (db_frozen db) (S (db_seq db)).

Definition isWaiting (s : RecipientState) : bool := match s with Queued | Deferred => true | _ => false end.
Definition isAttempting (s : RecipientState) : bool := match s with Attempting => true | _ => false end.
Definition isBounced (s : RecipientState) : bool := match s with Bounced => true | _ => false end.

Definition byId (id : jsstr) (r : OutboundRecipient) : bool := bool_decide (or_id r = id).
Definition inGroup (g : Group) (r : OutboundRecipient) : bool := bool_decide (or_outboundMessageId r = gr_messageId g) && bool_decide (or_domain r = gr_domain g).

(** Columns an update names: state, attempts, schedule, last reply, delivery; the rest stays. *)
Definition moved_to state attempts nextAttemptAt lastCode lastEnhanced lastText deliveredAt updatedAt (r : OutboundRecipient) : OutboundRecipient :=
  mkOutbound (or_id r) (or_outboundMessageId r) (or_address r) (or_domain r) state attempts nextAttemptAt lastCode lastEnhanced lastText deliveredAt
    (or_delayDsnSentAt r) (or_failureDsnSentAt r) (or_dsnNotify r) (or_transport r) (or_createdAt r) updatedAt.

(** ** enqueue.ts *)

Definition OUTBOUND_QUEUE : jsstr := js "outbound".

Definition outboundJobKey (messageId domain generation : jsstr) : jsstr :=
  js "outbound:" ++ messageId ++ [58] ++ domain ++ [58] ++ generation.

(** [Array.prototype.sort] of strings: by code units. *)
Fixpoint ltString (a b : jsstr) : bool :=
  match a, b with
  | _, [] => false
  | [], _ :: _ => true
  | x :: a, y :: b => (x <? y) || (x =? y) && ltString a b
  end.

Fixpoint insertString (x : jsstr) (l : list jsstr) : list jsstr :=
  match l with [] => [x] | y :: l' => if ltString y x then y :: insertString x l' else x :: l end.

Definition sortStrings (l : list jsstr) : list jsstr := foldr insertString [] l.

Section queue.
Context `{R : Runtime} `{DR : DateRuntime} (uuid : nat -> jsstr).

(** [None] is the thrown error. *)
Definition recipientDomain (address : jsstr) : option jsstr :=
  match lastIndexOf 64 address with
  | None => None
  | Some at_ =>
      let domain := toLowerCase (trim (drop (S at_) address)) in
      if (at_ <? 1)%nat || bool_decide (domain = []) then None else Some domain
  end.

Record EnqueueOutboundInput := mkInput {
  ei_appPasswordId : option jsstr; ei_envelopeFrom : jsstr; ei_messageId : option jsstr; ei_blobSha256 : jsstr; ei_size : Z;
  ei_dsnRet : option jsstr; ei_dsnEnvid : option jsstr; ei_recipients : list (jsstr * option jsstr)
}.

(** The map of distinct recipients, in insertion order: address, domain, NOTIFY. *)
Fixpoint collectRecipients (rs : list (jsstr * option jsstr)) (byKey : list (jsstr * jsstr * option jsstr)) : option (list (jsstr * jsstr * option jsstr)) :=
  match rs with
  | [] => Some byKey
  | (a, notify) :: rs =>
      domain ← recipientDomain a;
      let local := take (default 0%nat (lastIndexOf 64 a)) a in
      let address := local ++ [64] ++ domain in
      if existsb (fun '(k, _, _) => bool_decide (k = address)) byKey then collectRecipients rs byKey
      else collectRecipients rs (byKey ++ [(address, domain, notify)])
  end.

Definition newRecipient (id messageId : jsstr) (transport : jsstr) (now : Z) (entry : jsstr * jsstr * option jsstr) : OutboundRecipient :=
  let '(address, domain, notify) := entry in
  mkOutbound id messageId address domain Queued 0 now None None None None None None notify transport now now.

Fixpoint createRecipients (messageId : jsstr) (policy : jsstr -> jsstr) (now : Z) (entries : list (jsstr * jsstr * option jsstr)) (db : Db) : Db :=
  match entries with
  | [] => db
  | e :: entries =>
      createRecipients messageId policy now entries
        (bump (set_recipients (fun rows => rows ++ [newRecipient (uuid (db_seq db)) messageId (policy (snd (fst e))) now e]) db))
  end.

(** [enqueue] on the outbound queue, through the transaction. *)
Definition enqueueJob (g : Group) (runAt : Z) (key : jsstr) (now : Z) (db : Db) : bool * Db :=
  match enqueue (uuid (db_seq db)) OUTBOUND_QUEUE (Some g) runAt 1000 (Some key) now (db_jobs db) with
  | (job, jobs) => (bool_decide (is_Some job), bump (set_jobs jobs db))
  end.

Definition enqueueOutbound (input : EnqueueOutboundInput) (transportFor : jsstr -> jsstr) (now : Z) (db : Db) : option (jsstr * list jsstr * Db) :=
  match ei_recipients input with
  | [] => None
  | rs =>
      entries ← collectRecipients rs [];
      let id := uuid (db_seq db) in
      let message := mkMessage id (ei_appPasswordId input) (ei_envelopeFrom input) (ei_messageId input) (ei_blobSha256 input) (ei_size input)
        (ei_dsnRet input) (ei_dsnEnvid input) now in
      let db := bump (mkDb (db_messages db ++ [message]) (db_recipients db) (db_attempts db) (db_jobs db) (db_suppressed db) (db_aliases db) (db_audit db) (db_frozen db) (db_seq db)) in
      let db := createRecipients id transportFor now entries db in
      let domains := sortStrings (remove_dups ((fun '(_, d, _) => d) <$> entries)) in
      Some (id, domains, fold_left (fun db d => snd (enqueueJob (mkGroup id d) now (outboundJobKey id d (js "0")) now db)) domains db)
  end.

(** ** suppression.ts *)

Definition suppressionKey (address : jsstr) : jsstr := toLowerCase (trim address).

(** [/^5\.1\.\d{1,3}$/]. *)
Definition ADDRESS_STATUS (s : jsstr) : bool :=
  startsWith (js "5.1.") s && (let d := drop 4 s in forallb is_digit d && (1 <=? length d)%nat && (length d <=? 3)%nat).

Definition shouldSuppress (outcome : AttemptOutcome) (t : Transition) : bool :=
  if negb (isBounced (tr_state t)) || negb (match tr_bounceReason t with Some RPermanent => true | _ => false end) then false
  else
    match outcome with
    | OPermanent code enhanced _ =>
        if (code <? 500) || (599 <? code) then false else match enhanced with Some e => ADDRESS_STATUS (trim e) | None => false end
    | _ => false
    end.

Definition nullable (v : option jsstr) : value := match v with Some s => VStr s | None => VNull end.

(** The upsert on [address], and its audit row. *)
Definition recordHardBounce (address recipientId : jsstr) (code : Z) (enhanced text : jsstr) (at_ : Z) (db : Db) : Db :=
  let address := suppressionKey address in
  let hit r := bool_decide (sr_address r = address) in
  let '(id, count, db) :=
    match List.find hit (db_suppressed db) with
    | Some r =>
        (sr_id r, sr_bounceCount r + 1,
         set_suppressed (updateMany hit (fun r =>
           mkSuppressed (sr_id r) (sr_address r) (sr_reason r) (Some code) (Some enhanced) (Some text) (Some recipientId) (sr_bounceCount r + 1) (sr_firstAt r) at_) (db_suppressed db)) db)
    | None =>
        (uuid (db_seq db), 1,
         bump (set_suppressed (db_suppressed db ++ [mkSuppressed (uuid (db_seq db)) address (js "hard-bounce") (Some code) (Some enhanced) (Some text) (Some recipientId) 1 at_ at_]) db))
    end in
  set_audit (recordAudit at_ (mkAuditInput (OtherActor (js "system")) (js "suppression.add") (js "suppressed_recipient") (Some id) None
    (Some (VObj [(js "address", VStr address); (js "reason", VStr (js "hard-bounce")); (js "code", VNum code); (js "enhanced", VStr enhanced); (js "text", VStr text);
                 (js "sourceRecipientId", VStr recipientId); (js "bounceCount", VNum count)]))
    (Some (mkContext (js "delivery:" ++ recipientId) None None))) (db_audit db)) db.

(** The rows listed among the addresses; the database's collation gives their order. *)
Definition findSuppressed (addresses : list jsstr) (db : Db) : list SuppressedRecipient :=
  let keys := List.filter (fun a => negb (bool_decide (a = []))) (suppressionKey <$> addresses) in
  List.filter (fun r => bool_decide (sr_address r ∈ keys)) (db_suppressed db).

(** ** message-id-alias.ts *)

(** [raw.replace(/\r?\n[ \t]+/g, ' ')]. *)
Definition is_wsp (c : Z) : bool := (c =? 32) || (c =? 9).

Fixpoint unfoldHeader (fuel : nat) (s : jsstr) : jsstr :=
  match fuel with
  | O => s
  | S fuel =>
      match s with
      | 13 :: 10 :: w :: rest => if is_wsp w then 32 :: unfoldHeader fuel (dropWhile is_wsp rest) else 13 :: unfoldHeader fuel (10 :: w :: rest)
      | 10 :: w :: rest => if is_wsp w then 32 :: unfoldHeader fuel (dropWhile is_wsp rest) else 10 :: unfoldHeader fuel (w :: rest)
      | c :: rest => c :: unfoldHeader fuel rest
      | [] => []
      end
  end.

(** [/^<([^>]* )>$/], its group. *)
Definition angle (s : jsstr) : option jsstr :=
  match s with
  | 60 :: rest => let inner := takeWhile (fun c => negb (c =? 62)) rest in if bool_decide (drop (length inner) rest = [62]) then Some inner else None
  | _ => None
  end.

Definition normalizeMessageId (raw : jsstr) : jsstr := let unfolded := trim (unfoldHeader (length raw) raw) in trim (default unfolded (angle unfolded)).

Definition recordMessageIdAlias (alias messageIdHeader outboundMessageId source recipientId : jsstr) (at_ : Z) (db : Db) : Db :=
  let messageId := normalizeMessageId messageIdHeader in
  if bool_decide (messageId = []) || bool_decide (alias = []) || bool_decide (messageId = alias) then db
  else if existsb (fun a => bool_decide (al_alias a = alias)) (db_aliases db) then db
  else
    let db := set_aliases (db_aliases db ++ [mkAlias alias messageId source outboundMessageId at_]) db in
    set_audit (recordAudit at_ (mkAuditInput (OtherActor (js "system")) (js "message_id_alias.add") (js "message_id_alias") (Some alias) None
      (Some (VObj [(js "alias", VStr alias); (js "messageId", VStr messageId); (js "source", VStr source); (js "outboundMessageId", VStr outboundMessageId)]))
      (Some (mkContext (js "delivery:" ++ recipientId) None None))) (db_audit db)) db.

(** ** cancel.ts *)

(** [inl] is the state of the [CannotCancelError]. *)
Definition cancelRecipient (id : jsstr) (now : Z) (db : Db) : (option RecipientState) + Db :=
  match List.find (byId id) (db_recipients db) with
  | None => inl None
  | Some r =>
      if isWaiting (or_state r) then
        inr (set_recipients (updateMany (fun r => byId id r && isWaiting (or_state r)) (fun r =>
          moved_to Cancelled (or_attempts r) (or_nextAttemptAt r) (or_lastCode r) (or_lastEnhanced r) (or_lastText r) (or_deliveredAt r) now r)) db)
      else inl (Some (or_state r))
  end.

(** ** hold.ts *)

Definition HELD_TEXT : jsstr := js "held: credential frozen".

Definition isCredentialFrozen (m : OutboundMessage) (db : Db) : bool :=
  match om_appPasswordId m with Some id => bool_decide (id ∈ db_frozen db) | None => false end.

Definition holdGroup (g : Group) (now : Z) (db : Db) : Db :=
  set_recipients (updateMany (fun r => inGroup g r && isWaiting (or_state r)) (fun r =>
    moved_to (or_state r) (or_attempts r) (or_nextAttemptAt r) (or_lastCode r) (or_lastEnhanced r) (Some HELD_TEXT) (or_deliveredAt r) now r)) db.

Definition groupOf (r : OutboundRecipient) : Group := mkGroup (or_outboundMessageId r) (or_domain r).

Definition heldGroups (appPasswordId : jsstr) (db : Db) : list Group :=
  let ofMessage id := existsb (fun m => bool_decide (om_id m = id) && bool_decide (om_appPasswordId m = Some appPasswordId)) (db_messages db) in
  remove_dups (groupOf <$> List.filter (fun r => ofMessage (or_outboundMessageId r) && isWaiting (or_state r)) (db_recipients db)).

Definition reenqueueHeld (appPasswordId : jsstr) (now : Z) (db : Db) : Db :=
  fold_left (fun db g => snd (enqueueJob g now (outboundJobKey (gr_messageId g) (gr_domain g) (js "thaw-" ++ dec now)) now db)) (heldGroups appPasswordId db) db.

(** [frozenAt], the time of the freeze, is only read for the audit row. *)
Definition thawCredential (appPasswordId : jsstr) (actor : Actor) (frozenAt now : Z) (context : option RequestContext) (db : Db) : bool * Db :=
  if bool_decide (appPasswordId ∈ db_frozen db) then
    let db := set_frozen (List.filter (fun id => negb (bool_decide (id = appPasswordId))) (db_frozen db)) db in
    let db := set_audit (recordAudit now (mkAuditInput actor (js "app_password.thaw") (js "app_password") (Some appPasswordId)
      (Some (VObj [(js "frozenAt", VStr (toISOString frozenAt))])) (Some (VObj [(js "frozenAt", VNull)])) context) (db_audit db)) db in
    (true, reenqueueHeld appPasswordId now db)
  else (false, db).

(** ** worker.ts *)

Definition IN_FLIGHT : jsstr := js "in flight".
Definition INTERRUPTED : jsstr := js "interrupted: the worker stopped mid-attempt (crash or kill); retrying".

Record DeliveryResult := mkResult { dr_details : AttemptDetails; dr_results : Results; dr_transport : option jsstr; dr_messageIdAlias : option jsstr }.

(** [tp_deliver]: [inl] is the text of what it throws. *)
Record Transport := mkTransport { tp_name : jsstr; tp_claims : option (jsstr -> bool); tp_deliver : jsstr -> DeliveryRequest -> jsstr + DeliveryResult }.

(** The configured transports, in the order of their keys. *)
Definition Transports := list (jsstr * Transport).

Fixpoint transportNamed (name : jsstr) (ts : Transports) : option Transport :=
  match ts with [] => None | (k, t) :: ts => if bool_decide (k = name) then Some t else transportNamed name ts end.

Definition routeByClaims (ts : Transports) (domain enqueued : jsstr) : jsstr :=
  match List.find (fun '(_, t) => match tp_claims t with Some f => f domain | None => false end) ts with
  | Some (name, _) => name
  | None =>
      match transportNamed enqueued ts with
      | Some _ => enqueued
      | None => match transportNamed (js "direct") ts with None => enqueued | Some _ => js "direct" end
      end
  end.

(** The recipients whose attempt no live worker can own. *)
Definition stuck (leaseMs now : Z) (group : option Group) (db : Db) : list jsstr :=
  let staleBefore := now - leaseMs in
  or_id <$> List.filter (fun r =>
    isAttempting (or_state r) && (or_updatedAt r <? staleBefore) && match group with Some g => inGroup g r | None => true end &&
    negb (existsb (fun a => bool_decide (da_recipientId a = or_id r) && bool_decide (da_finishedAt a = None) && (staleBefore <=? da_startedAt a)) (db_attempts db)))
    (db_recipients db).

(** One transaction of the loop over them. *)
Definition recoverOne (now : Z) (id : jsstr) (db : Db) : bool * Db :=
  if existsb (fun r => byId id r && isAttempting (or_state r)) (db_recipients db) then
    let db := set_recipients (updateMany (fun r => byId id r && isAttempting (or_state r)) (fun r =>
      moved_to Deferred (or_attempts r) now None None (Some INTERRUPTED) (or_deliveredAt r) now r)) db in
    (true, set_attempts (updateMany (fun a => bool_decide (da_recipientId a = id) && bool_decide (da_finishedAt a = None)) (fun a =>
      mkAttempt (da_id a) (da_recipientId a) (da_startedAt a) (Some now) (da_transport a) (da_details a) (da_remoteCode a) (da_remoteEnhanced a) (da_remoteText a)
        OErrorName (Some INTERRUPTED))) db)
  else (false, db).

Definition recoverAll (now : Z) (ids : list jsstr) (db : Db) : nat * Db :=
  fold_left (fun '(n, db) id => let '(done, db) := recoverOne now id db in ((if done : bool then S n else n), db)) ids (0%nat, db).

Definition recoverInterrupted (leaseMs now : Z) (group : option Group) (db : Db) : nat * Db := recoverAll now (stuck leaseMs now group db) db.

(** A recipient marked attempting, with its open attempt. *)
Record Claim := mkClaim { cl_recipient : OutboundRecipient; cl_attemptId : jsstr; cl_transport : jsstr }.

Definition due (g : Group) (now : Z) (r : OutboundRecipient) : bool := inGroup g r && isWaiting (or_state r) && (or_nextAttemptAt r <=? now).

Definition startAttempt (now : Z) (r : OutboundRecipient) : OutboundRecipient :=
  moved_to Attempting (or_attempts r + 1) (or_nextAttemptAt r) (or_lastCode r) (or_lastEnhanced r) (or_lastText r) (or_deliveredAt r) now r.

Definition noDetails : AttemptDetails := mkDetails None None None None None None.

Fixpoint openAttempts (route : jsstr -> jsstr -> jsstr) (g : Group) (now : Z) (rs : list OutboundRecipient) (db : Db) : list Claim * Db :=
  match rs with
  | [] => ([], db)
  | r :: rs =>
      let transport := route (gr_domain g) (or_transport r) in
      let id := uuid (db_seq db) in
      let db := bump (set_attempts (fun rows => rows ++ [mkAttempt id (or_id r) now None transport noDetails None None None OErrorName (Some IN_FLIGHT)]) db) in
      let '(claims, db) := openAttempts route g now rs db in
      (mkClaim r id transport :: claims, db)
  end.

(** [byAddress] is the order of the database for [ORDER BY address]. *)
Definition begin (byAddress : list OutboundRecipient -> list OutboundRecipient) (route : jsstr -> jsstr -> jsstr) (g : Group) (now : Z) (db : Db) : list Claim * Db :=
  match List.filter (due g now) (db_recipients db) with
  | [] => ([], db)
  | rows => openAttempts route g now (byAddress (startAttempt now <$> rows)) (set_recipients (updateMany (due g now) (startAttempt now)) db)
  end.

Definition everyoneError (request : DeliveryRequest) (text : jsstr) : DeliveryResult :=
  mkResult noDetails ((fun r => (dl_id r, OError text)) <$> rq_recipients request) None None.

Definition runTransport (t : option Transport) (domain : jsstr) (request : DeliveryRequest) : DeliveryResult :=
  match t with
  | None => everyoneError request (js "no transport configured for this recipient")
  | Some t => match tp_deliver t domain request with inl text => everyoneError request text | inr result => result end
  end.

(** The mark of a DSN that was sent; [updatedAt] is set by the client on every update. *)
Definition dsnSent (kind : DsnKind) (at_ : Z) (r : OutboundRecipient) : OutboundRecipient :=
  mkOutbound (or_id r) (or_outboundMessageId r) (or_address r) (or_domain r) (or_state r) (or_attempts r) (or_nextAttemptAt r) (or_lastCode r) (or_lastEnhanced r)
    (or_lastText r) (or_deliveredAt r) (match kind with DsnDelay => Some at_ | DsnFailure => or_delayDsnSentAt r end)
    (match kind with DsnFailure => Some at_ | DsnDelay => or_failureDsnSentAt r end) (or_dsnNotify r) (or_transport r) (or_createdAt r) at_.

Definition dsnUnsent (kind : DsnKind) (r : OutboundRecipient) : bool :=
  match kind with DsnDelay => bool_decide (or_delayDsnSentAt r = None) | DsnFailure => bool_decide (or_failureDsnSentAt r = None) end.

(** [onDsn]: whether the hook succeeds. *)
Definition emitDsn (onDsn : DsnIntent -> bool) (at_ : Z) (intent : DsnIntent) (db : Db) : Db :=
  if onDsn intent then
    set_recipients (updateMany (fun r => byId (di_recipientId intent) r && dsnUnsent (di_kind intent) r) (dsnSent (di_kind intent) at_)) db
  else db.

Definition waitingOf (g : Group) (db : Db) : list OutboundRecipient := List.filter (fun r => inGroup g r && isWaiting (or_state r)) (db_recipients db).

(** [_min] and [_max] of a column; [None] when there is no row. *)
Definition aggregate (op : Z -> Z -> Z) (column : OutboundRecipient -> Z) (rows : list OutboundRecipient) : option Z :=
  match rows with [] => None | r :: rows => Some (fold_left (fun m r => op m (column r)) rows (column r)) end.

Definition scheduleNext (g : Group) (generation : option jsstr) (now : Z) (db : Db) : bool * Db :=
  let pending := waitingOf g db in
  match aggregate Z.min or_nextAttemptAt pending with
  | None => (false, db)
  | Some runAt =>
      let attempts := default 0 (aggregate Z.max or_attempts pending) in
      enqueueJob g runAt (outboundJobKey (gr_messageId g) (gr_domain g) (default (dec attempts) generation)) now db
  end.

Definition snapshot (r : OutboundRecipient) : RecipientSnapshot :=
  mkSnapshot (or_id r) (or_outboundMessageId r) (or_address r) (or_attempts r) (or_createdAt r) (or_dsnNotify r) (or_delayDsnSentAt r) (or_failureDsnSentAt r).

Definition applyTransition (t : Transition) (at_ : Z) (r : OutboundRecipient) : OutboundRecipient :=
  moved_to (tr_state t) (or_attempts r) (tr_nextAttemptAt t) (tr_lastCode t) (tr_lastEnhanced t) (tr_lastText t)
    (match tr_deliveredAt t with Some d => Some d | None => or_deliveredAt r end) at_ r.

Definition outcomeOf (result : DeliveryResult) (c : Claim) : AttemptOutcome :=
  default (OError (js "transport returned no result for this recipient")) (resultGet (or_id (cl_recipient c)) (dr_results result)).

(** The attempt's row once it has ended. *)
Definition closeAttempt (moved : bool) (result : DeliveryResult) (transport : jsstr) (outcome : AttemptOutcome) (t : Transition) (at_ : Z) (a : DeliveryAttempt) : DeliveryAttempt :=
  let '(code, enhanced, text) :=
    match outcome with
    | OError _ => (None, None, None)
    | ODelivered c e x | OTemporary c e x => (c, e, x)
    | OPermanent c e x => (Some c, e, Some x)
    end in
  mkAttempt (da_id a) (da_recipientId a) (da_startedAt a) (Some at_) transport (dr_details result) code enhanced text
    (if moved then tr_attemptOutcome t else OErrorName)
    (match outcome with OError e => Some e | _ => if moved then None else Some (js "finished after recovery had closed the attempt") end).

(** One turn of the loop of the outcome transaction; the intents and the first delivered recipient so far. *)
Definition commitOne (result : DeliveryResult) (transport : jsstr) (finishedAt : Z) (random : jsstr -> Q) (c : Claim) (st : Db * list DsnIntent * option jsstr)
    : Db * list DsnIntent * option jsstr :=
  let '(db, intents, delivered) := st in
  let r := cl_recipient c in
  let outcome := outcomeOf result c in
  let t := nextState (snapshot r) outcome finishedAt (random (or_id r)) in
  let moved := existsb (fun row => byId (or_id r) row && isAttempting (or_state row)) (db_recipients db) in
  let db := set_recipients (updateMany (fun row => byId (or_id r) row && isAttempting (or_state row)) (applyTransition t finishedAt)) db in
  let delivered := if moved then match outcome, delivered with ODelivered _ _ _, None => Some (or_id r) | _, d => d end else delivered in
  let intents := if moved then intents ++ tr_dsn t else intents in
  let db :=
    match outcome with
    | OPermanent code enhanced text =>
        if moved && shouldSuppress outcome t then recordHardBounce (or_address r) (or_id r) code (default [] enhanced) text finishedAt db else db
    | _ => db
    end in
  let db := set_attempts (updateMany (fun a => bool_decide (da_id a = cl_attemptId c)) (closeAttempt moved result transport outcome t finishedAt)) db in
  (db, intents, delivered).

(** The outcome transaction of a batch: every recipient's outcome, the alias, the group's next job. *)
Definition commitBatch (ts : Transports) (g : Group) (m : OutboundMessage) (name : jsstr) (batch : list Claim) (result : DeliveryResult) (finishedAt : Z)
    (random : jsstr -> Q) (db : Db) : list DsnIntent * Db :=
  let transport := default (default name (tp_name <$> transportNamed name ts)) (dr_transport result) in
  let '(db, intents, delivered) := fold_left (fun st c => commitOne result transport finishedAt random c st) batch (db, [], None) in
  let db :=
    match dr_messageIdAlias result, delivered, om_messageId m with
    | Some alias, Some recipientId, Some header => recordMessageIdAlias alias header (om_id m) transport recipientId finishedAt db
    | _, _, _ => db
    end in
  (intents, snd (scheduleNext g None finishedAt db)).

(** [byTransport]: the claims by transport, in the order their transports first appear. *)
Fixpoint addToBatch (c : Claim) (batches : list (jsstr * list Claim)) : list (jsstr * list Claim) :=
  match batches with
  | [] => [(cl_transport c, [c])]
  | (name, cs) :: rest => if bool_decide (name = cl_transport c) then (name, cs ++ [c]) :: rest else (name, cs) :: addToBatch c rest
  end.

Definition batches (claims : list Claim) : list (jsstr * list Claim) := fold_left (fun bs c => addToBatch c bs) claims [].

Definition requestFor (openMessage : jsstr -> Message) (m : OutboundMessage) (batch : list Claim) : DeliveryRequest :=
  mkRequest (om_envelopeFrom m) ((fun c => let r := cl_recipient c in mkRecipient (or_id r) (or_address r) (or_dsnNotify r)) <$> batch)
    (openMessage (om_blobSha256 m)) (om_size m) (om_dsnRet m) (om_dsnEnvid m).

Inductive Started := MessageMissing | Held | Claimed (m : OutboundMessage) (claims : list Claim).

(** [handle] up to the network. *)
Definition handleStart (byAddress : list OutboundRecipient -> list OutboundRecipient) (route : jsstr -> jsstr -> jsstr) (leaseMs : Z) (g : Group) (startedAt : Z) (db : Db)
    : Started * Db :=
  let db := snd (recoverInterrupted leaseMs startedAt (Some g) db) in
  match List.find (fun m => bool_decide (om_id m = gr_messageId g)) (db_messages db) with
  | None => (MessageMissing, db)
  | Some m =>
      if isCredentialFrozen m db then (Held, holdGroup g startedAt db)
      else let '(claims, db) := begin byAddress route g startedAt db in (Claimed m claims, db)
  end.

(** One turn of the loop over the transports. *)
Definition handleBatch (ts : Transports) (openMessage : jsstr -> Message) (onDsn : DsnIntent -> bool) (clock : nat -> Z) (random : jsstr -> Q) (g : Group)
    (m : OutboundMessage) (i : nat) (name : jsstr) (batch : list Claim) (db : Db) : Db :=
  let result := runTransport (transportNamed name ts) (gr_domain g) (requestFor openMessage m batch) in
  let '(intents, db) := commitBatch ts g m name batch result (clock i) random db in
  fold_left (fun db intent => emitDsn onDsn (clock i) intent db) intents db.

(** The handler of the outbound queue with nothing else going on; [clock] gives the time each batch ends. *)
Definition handle (byAddress : list OutboundRecipient -> list OutboundRecipient) (ts : Transports) (route : jsstr -> jsstr -> jsstr) (openMessage : jsstr -> Message)
    (onDsn : DsnIntent -> bool) (leaseMs startedAt : Z) (clock : nat -> Z) (random : jsstr -> Q) (g : Group) (db : Db) : Db :=
  match handleStart byAddress route leaseMs g startedAt db with
  | (Claimed m [], db) => snd (scheduleNext g None startedAt db)
  | (Claimed m claims, db) =>
      snd (fold_left (fun '(i, db) '(name, batch) => (S i, handleBatch ts openMessage onDsn clock random g m i name batch db)) (batches claims) (0%nat, db))
  | (_, db) => db
  end.

(** A job of the group that is pending or running. *)
Definition liveJob (g : Group) (j : Job) : bool :=
  bool_decide (jb_queue j = OUTBOUND_QUEUE) && (bool_decide (jb_status j = JPending) || bool_decide (jb_status j = JRunning)) && bool_decide (jb_payload j = Some g).

Definition orphans (db : Db) : list Group :=
  remove_dups (List.filter (fun g => negb (existsb (liveJob g) (db_jobs db))) (groupOf <$> List.filter (fun r => isWaiting (or_state r)) (db_recipients db))).

Definition rescheduleOrphans (now : Z) (db : Db) : nat * Db :=
  fold_left (fun '(n, db) g => let '(done, db) := scheduleNext g (Some (js "sweep-" ++ dec now)) now db in ((if done : bool then S n else n), db)) (orphans db) (0%nat, db).

Definition unsentFailures (staleBefore : Z) (db : Db) : list OutboundRecipient :=
  take 100 (List.filter (fun r =>
    isBounced (or_state r) && bool_decide (or_failureDsnSentAt r = None) && (or_updatedAt r <? staleBefore) &&
    match or_dsnNotify r with None => true | Some n => bool_decide (n = []) || includesCI (js "failure") n end) (db_recipients db)).

Definition retryIntent (now : Z) (r : OutboundRecipient) : DsnIntent :=
  mkIntent DsnFailure (or_id r) (or_outboundMessageId r) (or_address r) (or_lastCode r) (or_lastEnhanced r) (default [] (or_lastText r)) (or_createdAt r) now None None.

Definition sweep (onDsn : DsnIntent -> bool) (leaseMs now : Z) (db : Db) : nat * nat * nat * Db :=
  let '(recovered, db) := recoverInterrupted leaseMs now None db in
  let '(rescheduled, db) := rescheduleOrphans now db in
  let retried := List.filter (fun r => np_failure (parseNotify (or_dsnNotify r))) (unsentFailures (now - leaseMs) db) in
  (recovered, rescheduled, length retried, fold_left (fun db r => emitDsn onDsn now (retryIntent now r) db) retried db).

End queue.
