(* ===== verification/DeliveryQueueProofs.v ===== *)
(** * DeliveryQueueProofs: no two attempts at once, final states, and how often a message can be delivered

    The queue is used by any number of workers, sweeps and operators at the same time. [step] interleaves
    their transactions; a worker may die between any two of them. *)
From Stdlib Require Import QArith.
From stdpp Require Import relations.
From S2P Require Import Prelude JsString SmtpReply AuditLog JsDouble DeliveryState SmtpClient SmtpClientProofs JobQueue DeliveryQueue.

(** ** Rows by id *)

Definition getRow (id : jsstr) (db : Db) : option OutboundRecipient := List.find (byId id) (db_recipients db).

Definition idsOf (db : Db) : list jsstr := or_id <$> db_recipients db.

Lemma find_updateMany id (p : OutboundRecipient -> bool) f rows :
  (forall r, or_id (f r) = or_id r) -> List.find (byId id) (updateMany p f rows) = (fun r => if p r then f r else r) <$> List.find (byId id) rows.
Proof.
  intros Hf. induction rows as [|r rows IH]; [done|]. cbn. unfold byId at 1 3.
  assert (or_id (if p r then f r else r) = or_id r) as -> by (destruct (p r); auto). by destruct (bool_decide (or_id r = id)).
Qed.

Lemma ids_updateMany (p : OutboundRecipient -> bool) f rows : (forall r, or_id (f r) = or_id r) -> or_id <$> updateMany p f rows = or_id <$> rows.
Proof. intros Hf. unfold updateMany. rewrite <- list_fmap_compose. apply list_fmap_ext. intros i r _. cbn. destruct (p r); auto. Qed.

Lemma find_byId id rows r : List.find (byId id) rows = Some r -> r ∈ rows /\ or_id r = id.
Proof. intros H. apply find_some in H as [Hin Hb]. apply bool_decide_eq_true in Hb. split; [by apply list_elem_of_In|done]. Qed.

Lemma find_in rows r : NoDup (or_id <$> rows) -> r ∈ rows -> List.find (byId (or_id r)) rows = Some r.
Proof.
  induction rows as [|x rows IH]; [set_solver|]. cbn. intros [Hx Hn]%NoDup_cons Hr. unfold byId at 1.
  destruct (bool_decide_reflect (or_id x = or_id r)) as [He|He].
  - apply elem_of_cons in Hr as [->|Hr]; [done|]. exfalso. apply Hx. rewrite He. by apply list_elem_of_fmap_2.
  - apply IH; [done|]. apply elem_of_cons in Hr as [->|Hr]; done.
Qed.

Lemma sublist_List_filter {A} (p : A -> bool) l : List.filter p l `sublist_of` l.
Proof. induction l as [|x l IH]; cbn; [done|]. destruct (p x); [by apply sublist_skip|by apply sublist_cons]. Qed.

(** ** How a database evolves *)

(** The table of recipients is the same; other tables may have grown. *)
Definition quiet (db db' : Db) : Prop := db_recipients db' = db_recipients db /\ (db_seq db <= db_seq db')%nat.

#[export] Instance quiet_refl : Reflexive quiet.
Proof. by split. Qed.

#[export] Instance quiet_trans : Transitive quiet.
Proof. intros a b c [H1 H2] [H3 H4]. split; [congruence|lia]. Qed.

Lemma quiet_attempts f db : quiet db (set_attempts f db).
Proof. by split. Qed.

Lemma quiet_fold {A} (g : Db -> A -> Db) l : (forall db a, quiet db (g db a)) -> forall db, quiet db (fold_left g l db).
Proof. intros Hg. induction l as [|a l IH]; intros db; cbn; [done|]. transitivity (g db a); [apply Hg|apply IH]. Qed.

(** The same recipients, each related to what it became. *)
Record evolves (Rel : OutboundRecipient -> OutboundRecipient -> Prop) (db db' : Db) : Prop := {
  ev_ids : idsOf db' = idsOf db;
  ev_seq : (db_seq db <= db_seq db')%nat;
  ev_rows id r : getRow id db = Some r -> exists r', getRow id db' = Some r' /\ Rel r r'
}.

Section evolves.
Context (Rel : OutboundRecipient -> OutboundRecipient -> Prop) `{!Reflexive Rel} `{!Transitive Rel}.

Lemma evolves_quiet db db' : quiet db db' -> evolves Rel db db'.
Proof. intros [H Hs]. split; [unfold idsOf; by rewrite H|done|]. intros id r Hr. exists r. unfold getRow in *. rewrite H. by split. Qed.

Lemma evolves_trans db1 db2 db3 : evolves Rel db1 db2 -> evolves Rel db2 db3 -> evolves Rel db1 db3.
Proof.
  intros [I12 S12 H12] [I23 S23 H23]. split; [congruence|lia|]. intros id r Hr.
  apply H12 in Hr as (r' & Hr & H1). apply H23 in Hr as (r'' & Hr & H2). exists r''. split; [done|]. by transitivity r'.
Qed.

Lemma evolves_update p f db :
  (forall r, or_id (f r) = or_id r) -> (forall r, p r = true -> Rel r (f r)) -> evolves Rel db (set_recipients (updateMany p f) db).
Proof.
  intros Hf Hp. split; [by apply ids_updateMany|done|]. intros id r Hr. unfold getRow in *. cbn. rewrite find_updateMany, Hr by done. cbn.
  eexists. split; [done|]. destruct (p r) eqn:E; [by apply Hp|reflexivity].
Qed.

Lemma evolves_fold {A} (g : Db -> A -> Db) l : (forall db a, a ∈ l -> evolves Rel db (g db a)) -> forall db, evolves Rel db (fold_left g l db).
Proof.
  induction l as [|a l IH]; intros Hg db; cbn; [by apply evolves_quiet|]. eapply evolves_trans; [apply (Hg db a), list_elem_of_here|].
  apply IH. intros db0 b Hb. by apply Hg, list_elem_of_further.
Qed.

End evolves.

Lemma evolves_mono (Rel Rel' : OutboundRecipient -> OutboundRecipient -> Prop) db db' : (forall r r', Rel r r' -> Rel' r r') -> evolves Rel db db' -> evolves Rel' db db'.
Proof. intros HR [H1 H2 H3]. split; [done..|]. intros id r Hr. apply H3 in Hr as (r' & Hr & H). eauto. Qed.

(** ** What the operations leave alone *)

Section queue.
Context `{R : Runtime} `{DR : DateRuntime} (uuid : nat -> jsstr).

Lemma enqueueJob_quiet g runAt key now db : quiet db (enqueueJob uuid g runAt key now db).2.
Proof. unfold enqueueJob. destruct (enqueue _ _ _ _ _ _ _ _) as [job jobs]. split; [done|cbn; lia]. Qed.

Lemma scheduleNext_quiet g gen now db : quiet db (scheduleNext uuid g gen now db).2.
Proof. unfold scheduleNext. destruct (aggregate _ _ _); [apply enqueueJob_quiet|done]. Qed.

Lemma rescheduleOrphans_quiet now db : quiet db (rescheduleOrphans uuid now db).2.
Proof.
  unfold rescheduleOrphans. generalize (orphans db) 0%nat. intros gs. revert db. induction gs as [|g gs IH]; intros db n; [done|]. cbn.
  pose proof (scheduleNext_quiet g (Some (lit "sweep-" ++ dec now)) now db) as H. destruct (scheduleNext _ _ _ _ _) as [done_ db1]. cbn in H.
  transitivity db1; [done|apply IH].
Qed.

Lemma recordHardBounce_quiet a id code e t at_ db : quiet db (recordHardBounce uuid a id code e t at_ db).
Proof. unfold recordHardBounce. destruct (List.find _ _); (split; [done|cbn; lia]). Qed.

Lemma recordMessageIdAlias_quiet al h m src rid at_ db : quiet db (recordMessageIdAlias al h m src rid at_ db).
Proof. unfold recordMessageIdAlias. destruct (_ || _); [done|]. by destruct (existsb _ _). Qed.

Lemma thaw_quiet id actor fr now ctx db : quiet db (thawCredential uuid id actor fr now ctx db).2.
Proof.
  unfold thawCredential, reenqueueHeld. destruct (bool_decide _); [|done]. cbn [snd]. set (db1 := set_audit _ _).
  transitivity db1; [done|]. apply quiet_fold. intros db0 g. apply enqueueJob_quiet.
Qed.

Lemma openAttempts_spec route g now rs : forall db, quiet db (openAttempts uuid route g now rs db).2 /\
  cl_recipient <$> (openAttempts uuid route g now rs db).1 = rs.
Proof.
  induction rs as [|r rs IH]; intros db; [done|]. cbn. set (db1 := bump _). specialize (IH db1). destruct (openAttempts uuid route g now rs db1) as [claims db2].
  cbn in *. destruct IH as [H ->]. split; [|done]. transitivity db1; [split; [done|cbn; lia]|done].
Qed.

(** ** Final states, and attempts in flight *)

Definition isFinal (s : RecipientState) : bool := match s with Delivered | Bounced | Cancelled => true | _ => false end.

Definition finalKept (r r' : OutboundRecipient) : Prop := isFinal (or_state r) = true -> or_state r' = or_state r.

#[local] Instance finalKept_refl : Reflexive finalKept.
Proof. by intros r. Qed.

#[local] Instance finalKept_trans : Transitive finalKept.
Proof. unfold finalKept. intros a b c H1 H2 Ha. specialize (H1 Ha). rewrite <- H1 in Ha. rewrite (H2 Ha). done. Qed.

(** Attempts made since [t0] stay marked, except those of [skip]. *)
Definition flightKept (t0 : Z) (skip : list jsstr) (r r' : OutboundRecipient) : Prop :=
  or_id r' = or_id r /\ (or_id r ∉ skip -> or_state r = Attempting -> t0 <= or_updatedAt r -> or_state r' = Attempting /\ t0 <= or_updatedAt r').

#[local] Instance flightKept_refl t0 skip : Reflexive (flightKept t0 skip).
Proof. intros r. split; auto. Qed.

#[local] Instance flightKept_trans t0 skip : Transitive (flightKept t0 skip).
Proof. intros a b c [I1 H1] [I2 H2]. split; [congruence|]. intros Hs Ha Ht. destruct (H1 Hs Ha Ht) as [Hb Hbt]. apply H2; [congruence|done..]. Qed.

(** Both at once. *)
Definition kept (t0 : Z) (skip : list jsstr) (r r' : OutboundRecipient) : Prop := finalKept r r' /\ flightKept t0 skip r r'.

#[local] Instance kept_refl t0 skip : Reflexive (kept t0 skip).
Proof. intros r. split; reflexivity. Qed.

#[local] Instance kept_trans t0 skip : Transitive (kept t0 skip).
Proof. intros a b c [H1 H2] [H3 H4]. split; [by transitivity b|by transitivity b]. Qed.

(** Waiting rows may become anything. *)
Lemma kept_waiting t0 skip r r' : isWaiting (or_state r) = true -> or_id r' = or_id r -> kept t0 skip r r'.
Proof. intros Hw Hi. split; [intros Hf; by destruct (or_state r)|]. split; [done|]. intros _ Ha. rewrite Ha in Hw. done. Qed.

(** So may attempts that are given up. *)
Lemma kept_skip t0 skip r r' : isAttempting (or_state r) = true -> or_id r ∈ skip -> or_id r' = or_id r -> kept t0 skip r r'.
Proof. intros Hw Hin Hi. split; [intros Hf; by destruct (or_state r)|]. split; [done|]. intros Hn. done. Qed.

(** The step at hand leaves the table of recipients alone. *)
Ltac ev_quiet := apply evolves_quiet; [apply _|first [reflexivity|split; [done|cbn; lia]]].

(** The step at hand updates it; [ev_then] goes on after it. *)
Ltac ev_update := apply evolves_update; [apply _|done|].
Ltac ev_then := eapply evolves_trans; [apply _|..].
Ltac ev_attempts := ev_then; [|apply evolves_quiet; [apply _|apply quiet_attempts]].

Lemma recoverOne_kept now id db t0 : evolves (kept t0 [id]) db (recoverOne now id db).2.
Proof.
  unfold recoverOne. destruct (existsb _ _); [|ev_quiet]. cbn [snd].
  ev_attempts. ev_update.
  intros r [Hi Ha]%andb_true_iff. apply bool_decide_eq_true in Hi. apply kept_skip; [done|set_solver|done].
Qed.

Lemma kept_more t0 skip skip' r r' : (forall x, x ∈ skip -> x ∈ skip') -> kept t0 skip r r' -> kept t0 skip' r r'.
Proof. intros Hs [H1 [H2 H3]]. split; [done|]. split; [done|]. intros Hn. apply H3. auto. Qed.

Lemma recoverAll_kept now ids db t0 : evolves (kept t0 ids) db (recoverAll now ids db).2.
Proof.
  unfold recoverAll. generalize 0%nat as n. assert (Hsub : forall x, x ∈ ids -> x ∈ ids) by done. revert Hsub db. generalize ids at 1 4 as todo.
  induction todo as [|id todo IH]; intros Hsub db n; cbn; [ev_quiet|].
  pose proof (recoverOne_kept now id db t0) as H. destruct (recoverOne now id db) as [done_ db1]. cbn in H.
  ev_then; [|apply IH; set_solver]. eapply evolves_mono; [|exact H]. intros r r'. apply kept_more. set_solver.
Qed.

Lemma begin_kept byAddress route g now db t0 : evolves (kept t0 []) db (begin uuid byAddress route g now db).2.
Proof.
  unfold begin. destruct (List.filter _ _) as [|r rows]; [ev_quiet|].
  ev_then; [|apply evolves_quiet; [apply _|apply openAttempts_spec]].
  ev_update. intros x [[_ Hw]%andb_true_iff _]%andb_true_iff. by apply kept_waiting.
Qed.

Lemma holdGroup_kept g now db t0 : evolves (kept t0 []) db (holdGroup g now db).
Proof. ev_update. intros x [_ Hw]%andb_true_iff. by apply kept_waiting. Qed.

Lemma cancelRecipient_kept id now db db' t0 : cancelRecipient id now db = inr db' -> evolves (kept t0 []) db db'.
Proof.
  unfold cancelRecipient. destruct (List.find _ _) as [r|]; [|done]. destruct (isWaiting (or_state r)); [|done]. intros [= <-].
  ev_update. intros x [_ Hw]%andb_true_iff. by apply kept_waiting.
Qed.

Lemma emitDsn_kept onDsn at_ intent db t0 : t0 <= at_ -> evolves (kept t0 []) db (emitDsn onDsn at_ intent db).
Proof.
  intros Ht. unfold emitDsn. destruct (onDsn intent); [|ev_quiet].
  ev_update. intros x _. split; [done|]. split; [done|]. by intros _ Ha _.
Qed.

Lemma commitOne_kept result transport at_ random c db intents d t0 :
  evolves (kept t0 [or_id (cl_recipient c)]) db (commitOne uuid result transport at_ random c (db, intents, d)).1.1.
Proof.
  unfold commitOne. set (t := nextState _ _ _ _). set (moved := existsb _ _). cbn [fst].
  ev_attempts.
  ev_then; [apply (evolves_update _ (fun row => byId (or_id (cl_recipient c)) row && isAttempting (or_state row)) (applyTransition t at_)); [done|]|].
  - intros r [Hi Ha]%andb_true_iff. apply bool_decide_eq_true in Hi. apply kept_skip; [done|set_solver|done].
  - apply evolves_quiet; [apply _|]. destruct (outcomeOf result c); [done|done| |done]. destruct (_ && _); [apply recordHardBounce_quiet|done].
Qed.

(** ** What a commit writes *)

Definition transitionOf (result : DeliveryResult) (at_ : Z) (random : jsstr -> Q) (c : Claim) : Transition :=
  nextState (snapshot (cl_recipient c)) (outcomeOf result c) at_ (random (or_id (cl_recipient c))).

Lemma nextState_delivered r o now q : isDelivered o = true -> tr_state (nextState r o now q) = Delivered.
Proof. by destruct o. Qed.

Definition mine (c : Claim) (row : OutboundRecipient) : bool := byId (or_id (cl_recipient c)) row && isAttempting (or_state row).

Lemma commitOne_row result transport at_ random c db intents d id :
  getRow id (commitOne uuid result transport at_ random c (db, intents, d)).1.1 =
  (fun r => if mine c r then applyTransition (transitionOf result at_ random c) at_ r else r) <$> getRow id db.
Proof.
  unfold commitOne. fold (transitionOf result at_ random c). set (t := transitionOf result at_ random c). set (moved := existsb _ _). cbn [fst].
  set (db1 := set_recipients _ db). assert (H1 : getRow id db1 = (fun r => if mine c r then applyTransition t at_ r else r) <$> getRow id db) by by apply find_updateMany.
  rewrite <- H1. unfold getRow. cbn [set_attempts db_recipients]. destruct (outcomeOf result c) as [| |code e text|]; [done|done| |done].
  destruct (_ && _); [|done]. by rewrite (proj1 (recordHardBounce_quiet _ _ _ _ _ _ _)).
Qed.

Definition commits (result : DeliveryResult) (transport : jsstr) (at_ : Z) (random : jsstr -> Q) (batch : list Claim) (st : Db * list DsnIntent * option jsstr) :=
  fold_left (fun st c => commitOne uuid result transport at_ random c st) batch st.

Lemma commits_cons result transport at_ random c batch st :
  commits result transport at_ random (c :: batch) st = commits result transport at_ random batch (commitOne uuid result transport at_ random c st).
Proof. done. Qed.

Lemma commits_other result transport at_ random batch : forall st id,
  id ∉ ((fun c => or_id (cl_recipient c)) <$> batch) -> getRow id (commits result transport at_ random batch st).1.1 = getRow id st.1.1.
Proof.
  induction batch as [|c batch IH]; intros [[db intents] d] id Hid; [done|]. cbn in Hid. rewrite commits_cons, IH by set_solver.
  rewrite commitOne_row. cbn [fst]. destruct (getRow id db) as [r|] eqn:Er; [|done]. cbn. f_equal. unfold mine, byId.
  apply find_byId in Er as [_ Er]. rewrite bool_decide_eq_false_2 by set_solver. done.
Qed.

Lemma commits_mine result transport at_ random batch : forall st c r,
  NoDup ((fun c => or_id (cl_recipient c)) <$> batch) -> c ∈ batch -> getRow (or_id (cl_recipient c)) st.1.1 = Some r -> or_state r = Attempting ->
  getRow (or_id (cl_recipient c)) (commits result transport at_ random batch st).1.1 = Some (applyTransition (transitionOf result at_ random c) at_ r).
Proof.
  induction batch as [|c0 batch IH]; intros [[db intents] d] c r Hn Hc Hr Ha; [set_solver|]. cbn in Hn. apply NoDup_cons in Hn as [Hc0 Hn].
  cbn in Hr. rewrite commits_cons. destruct (decide (or_id (cl_recipient c0) = or_id (cl_recipient c))) as [He|Hne].
  - assert (c = c0) as ->. { apply elem_of_cons in Hc as [->|Hc]; [done|]. exfalso. apply Hc0. rewrite He. by apply (list_elem_of_fmap_2 (fun c => or_id (cl_recipient c))). }
    rewrite commits_other by done. rewrite commitOne_row, Hr. cbn. unfold mine, byId.
    apply find_byId in Hr as [_ Hr]. rewrite bool_decide_eq_true_2 by done. by rewrite Ha.
  - apply elem_of_cons in Hc as [->|Hc]; [done|]. apply IH; [done..| |done]. rewrite commitOne_row, Hr. cbn. f_equal. unfold mine, byId.
    apply find_byId in Hr as [_ Hr]. rewrite bool_decide_eq_false_2 by congruence. done.
Qed.

Lemma commits_kept result transport at_ random batch t0 : forall st,
  evolves (kept t0 ((fun c => or_id (cl_recipient c)) <$> batch)) st.1.1 (commits result transport at_ random batch st).1.1.
Proof.
  assert (Hsub : forall c, c ∈ batch -> or_id (cl_recipient c) ∈ ((fun c => or_id (cl_recipient c)) <$> batch)).
  { intros c Hc. by apply (list_elem_of_fmap_2 (fun c => or_id (cl_recipient c))). }
  revert Hsub. generalize ((fun c => or_id (cl_recipient c)) <$> batch) as skip. unfold commits.
  induction batch as [|c batch IH]; intros skip Hsub [[db intents] d]; cbn [fst fold_left]; [ev_quiet|]. ev_then; [|apply IH; set_solver].
  eapply evolves_mono; [|apply (commitOne_kept result transport at_ random c db intents d)]. intros r r'. apply kept_more.
  intros x Hx. apply list_elem_of_singleton in Hx as ->. apply Hsub. set_solver.
Qed.

Lemma commitBatch_commits ts g m name batch result at_ random db : exists transport, quiet (commits result transport at_ random batch (db, [], None)).1.1
  (commitBatch uuid ts g m name batch result at_ random db).2.
Proof.
  unfold commitBatch. set (transport := default _ (dr_transport result)). exists transport. fold (commits result transport at_ random batch (db, [], None)).
  destruct (commits _ _ _ _ _ _) as [[db1 intents] d]. cbn [fst snd]. set (db2 := match dr_messageIdAlias result with Some _ => _ | None => _ end).
  transitivity db2; [|apply scheduleNext_quiet]. unfold db2. destruct (dr_messageIdAlias result), d, (om_messageId m); first [done|apply recordMessageIdAlias_quiet].
Qed.

Lemma getRow_quiet db db' id : quiet db db' -> getRow id db' = getRow id db.
Proof. intros [H _]. unfold getRow. by rewrite H. Qed.

(** ** Workers, sweeps and operators at once *)

(** A worker between the commit that marked its recipients and the last commit of their outcomes: the
    batches left, and what the transport returned for the first of them, if it has. *)
Record Flight := mkFlight {
  fl_group : Group; fl_message : OutboundMessage; fl_startedAt : Z; fl_batches : list (jsstr * list Claim); fl_result : option DeliveryResult
}.

(** [w_accepted]: one entry each time a remote server took the message for a recipient. [w_lost]: those of
    them whose worker died before it committed the outcome. *)
Record World := mkWorld { w_db : Db; w_now : Z; w_flights : list Flight; w_accepted : list jsstr; w_lost : list jsstr }.

Definition with_db (db : Db) (w : World) : World := mkWorld db (w_now w) (w_flights w) (w_accepted w) (w_lost w).

Definition claimId (c : Claim) : jsstr := or_id (cl_recipient c).
Definition deliveredIds (result : DeliveryResult) (batch : list Claim) : list jsstr := claimId <$> List.filter (fun c => isDelivered (outcomeOf result c)) batch.
Definition pendingIds (f : Flight) : list jsstr :=
  match fl_result f, fl_batches f with Some result, (_, batch) :: _ => deliveredIds result batch | _, _ => [] end.

Context (byAddress : list OutboundRecipient -> list OutboundRecipient) (route : jsstr -> jsstr -> jsstr) (ts : Transports) (leaseMs : Z).

(** The transactions of the queue. Time passes only as far as no attempt outlives the lease, and recovery
    finds and recovers its recipients in one go. *)
Inductive step (w : World) : World -> Prop :=
| step_tick t : w_now w <= t -> Forall (fun f => t <= fl_startedAt f + leaseMs) (w_flights w) ->
    step w (mkWorld (w_db w) t (w_flights w) (w_accepted w) (w_lost w))
| step_enqueue input transportFor id domains db : enqueueOutbound uuid input transportFor (w_now w) (w_db w) = Some (id, domains, db) -> step w (with_db db w)
| step_start g m claims db : handleStart uuid byAddress route leaseMs g (w_now w) (w_db w) = (Claimed m claims, db) -> claims <> [] ->
    step w (mkWorld db (w_now w) (w_flights w ++ [mkFlight g m (w_now w) (batches claims) None]) (w_accepted w) (w_lost w))
| step_idle g s db : handleStart uuid byAddress route leaseMs g (w_now w) (w_db w) = (s, db) -> (forall m claims, s = Claimed m claims -> claims = []) ->
    step w (with_db (match s with Claimed _ _ => (scheduleNext uuid g None (w_now w) db).2 | _ => db end) w)
| step_return l f l' name batch rest result : w_flights w = l ++ f :: l' -> fl_batches f = (name, batch) :: rest -> fl_result f = None ->
    step w (mkWorld (w_db w) (w_now w) (l ++ mkFlight (fl_group f) (fl_message f) (fl_startedAt f) (fl_batches f) (Some result) :: l')
      (w_accepted w ++ deliveredIds result batch) (w_lost w))
| step_commit l f l' name batch rest result random : w_flights w = l ++ f :: l' -> fl_batches f = (name, batch) :: rest -> fl_result f = Some result ->
    step w (mkWorld (commitBatch uuid ts (fl_group f) (fl_message f) name batch result (w_now w) random (w_db w)).2 (w_now w)
      (l ++ mkFlight (fl_group f) (fl_message f) (fl_startedAt f) rest None :: l') (w_accepted w) (w_lost w))
| step_crash l f l' : w_flights w = l ++ f :: l' -> step w (mkWorld (w_db w) (w_now w) (l ++ l') (w_accepted w) (w_lost w ++ pendingIds f))
| step_dsn onDsn intent : step w (with_db (emitDsn onDsn (w_now w) intent (w_db w)) w)
| step_recover group : step w (with_db (recoverInterrupted leaseMs (w_now w) group (w_db w)).2 w)
| step_reschedule : step w (with_db (rescheduleOrphans uuid (w_now w) (w_db w)).2 w)
| step_cancel id db : cancelRecipient id (w_now w) (w_db w) = inr db -> step w (with_db db w)
| step_thaw id actor frozenAt context : step w (with_db (thawCredential uuid id actor frozenAt (w_now w) context (w_db w)).2 w)
| step_freeze ids : step w (with_db (set_frozen ids (w_db w)) w)
| step_jobs jobs : step w (with_db (set_jobs jobs (w_db w)) w).

(** ** The invariant *)

Definition flightIds (f : Flight) : list jsstr := claimId <$> concat (snd <$> fl_batches f).
Definition inflight (w : World) : list jsstr := concat (flightIds <$> w_flights w).
Definition pending (w : World) : list jsstr := concat (pendingIds <$> w_flights w).
Definition countId (id : jsstr) (l : list jsstr) : nat := length (List.filter (fun x => bool_decide (x = id)) l).
Definition isDone (id : jsstr) (db : Db) : nat := match getRow id db with Some r => match or_state r with Delivered => 1%nat | _ => 0%nat end | None => 0%nat end.

Definition marked (db : Db) (t0 : Z) (id : jsstr) : Prop := exists r, getRow id db = Some r /\ or_state r = Attempting /\ t0 <= or_updatedAt r.

Record inv (w : World) : Prop := {
  inv_ids : NoDup (idsOf (w_db w));
  inv_fresh id : id ∈ idsOf (w_db w) -> exists n, (n < db_seq (w_db w))%nat /\ id = uuid n;
  inv_flights f : f ∈ w_flights w -> fl_startedAt f <= w_now w <= fl_startedAt f + leaseMs /\ forall id, id ∈ flightIds f -> marked (w_db w) (fl_startedAt f) id;
  inv_exclusive : NoDup (inflight w);
  inv_count id : (countId id (w_accepted w) <= countId id (w_lost w) + countId id (pending w) + isDone id (w_db w))%nat
}.

Lemma countId_app id l l' : countId id (l ++ l') = (countId id l + countId id l')%nat.
Proof. unfold countId. by rewrite List.filter_app, length_app. Qed.

Lemma isDone_kept t0 skip db db' id : evolves (kept t0 skip) db db' -> (isDone id db <= isDone id db')%nat.
Proof.
  intros [_ _ H]. unfold isDone. destruct (getRow id db) as [r|] eqn:E; [|lia]. destruct (H _ _ E) as (r' & -> & [Hf _]).
  destruct (or_state r) eqn:Es; try lia. unfold finalKept in Hf. rewrite Es in Hf. by rewrite Hf.
Qed.

Lemma marked_kept t0 skip db db' id : evolves (kept t0 skip) db db' -> id ∉ skip -> marked db t0 id -> marked db' t0 id.
Proof.
  intros [_ _ H] Hs (r & Hr & Ha & Ht). destruct (H _ _ Hr) as (r' & Hr' & [_ [Hi Hk]]). exists r'. split; [done|]. apply Hk; [|done..].
  apply find_byId in Hr as [_ ->]. done.
Qed.

Lemma inflight_elem w id : id ∈ inflight w <-> exists f, f ∈ w_flights w /\ id ∈ flightIds f.
Proof. unfold inflight. rewrite list_elem_of_In, in_concat. setoid_rewrite in_map_iff. setoid_rewrite <- list_elem_of_In. naive_solver. Qed.

(** Everything that leaves the marks of live attempts alone keeps the invariant. *)
Lemma inv_evolves w db skip :
  inv w -> (forall t0, t0 <= w_now w -> evolves (kept t0 skip) (w_db w) db) -> (forall id, id ∈ skip -> id ∉ inflight w) -> inv (with_db db w).
Proof.
  intros [H1 H2 H3 H4 H5] He Hs. destruct (He (w_now w) ltac:(lia)) as [Hids Hseq _].
  split; cbn [with_db w_db w_flights w_now w_accepted w_lost].
  - by rewrite Hids.
  - intros id. rewrite Hids. intros (n & Hn & ->)%H2. exists n. split; [lia|done].
  - intros f Hf. destruct (H3 f Hf) as [Ht Hm]. split; [done|]. intros id Hid. eapply marked_kept; [apply He; lia| |by apply Hm].
    intros Hin. apply (Hs id Hin). apply inflight_elem. eauto.
  - done.
  - intros id. specialize (H5 id). pose proof (isDone_kept _ _ _ _ id (He (w_now w) ltac:(lia))). change (pending (with_db db w)) with (pending w). lia.
Qed.

Lemma inv_kept w db : inv w -> (forall t0, t0 <= w_now w -> evolves (kept t0 []) (w_db w) db) -> inv (with_db db w).
Proof. intros Hi He. eapply inv_evolves; [done|exact He|set_solver]. Qed.

Lemma inv_quiet w db : inv w -> quiet (w_db w) db -> inv (with_db db w).
Proof. intros Hi Hq. apply inv_kept; [done|]. intros t0 _. apply evolves_quiet; [apply _|done]. Qed.

(** Recovery only takes attempts that have outlived the lease. *)
Lemma stuck_not_inflight w group id : inv w -> id ∈ stuck leaseMs (w_now w) group (w_db w) -> id ∉ inflight w.
Proof.
  intros [H1 _ H3 _ _] Hs Hin. apply inflight_elem in Hin as (f & Hf & Hid). destruct (H3 f Hf) as [[_ Ht] Hm]. destruct (Hm id Hid) as (r & Hr & _ & Hu).
  apply list_elem_of_fmap in Hs as (r' & -> & Hr'). apply list_elem_of_In, List.filter_In in Hr' as [Hin' Hp]. apply list_elem_of_In in Hin'.
  unfold getRow in Hr. rewrite (find_in _ _ H1 Hin') in Hr. injection Hr as ->.
  apply andb_true_iff in Hp as [Hp _]. apply andb_true_iff in Hp as [Hp _]. apply andb_true_iff in Hp as [_ Hp]. apply Z.ltb_lt in Hp. lia.
Qed.

Lemma inv_recover w group : inv w -> inv (with_db (recoverInterrupted leaseMs (w_now w) group (w_db w)).2 w).
Proof.
  intros Hi. eapply inv_evolves; [done|intros t0 _; apply recoverAll_kept|]. intros id Hid. by apply (stuck_not_inflight w group).
Qed.

(** ** A worker starts *)

Lemma addToBatch_perm c bs : concat (snd <$> addToBatch c bs) ≡ₚ concat (snd <$> bs) ++ [c].
Proof.
  induction bs as [|[name cs] bs IH]; [done|]. cbn. destruct (bool_decide _); cbn.
  - rewrite <- !app_assoc. f_equiv. apply Permutation_app_comm.
  - rewrite <- app_assoc. by f_equiv.
Qed.

Lemma batches_perm claims : concat (snd <$> batches claims) ≡ₚ claims.
Proof.
  unfold batches. assert (forall bs, concat (snd <$> fold_left (fun bs c => addToBatch c bs) claims bs) ≡ₚ concat (snd <$> bs) ++ claims) as H; [|by rewrite H].
  induction claims as [|c claims IH]; intros bs; cbn; [by rewrite app_nil_r|]. rewrite IH, addToBatch_perm, <- app_assoc. done.
Qed.

Context (byAddress_perm : forall l, byAddress l ≡ₚ l) (uuid_inj : forall n m, uuid n = uuid m -> n = m).

Lemma begin_claims g now db claims db' :
  begin uuid byAddress route g now db = (claims, db') -> cl_recipient <$> claims ≡ₚ startAttempt now <$> List.filter (due g now) (db_recipients db).
Proof.
  unfold begin. destruct (List.filter (due g now) (db_recipients db)) as [|r rows] eqn:E; [by intros [= <- _]|].
  pose proof (openAttempts_spec route g now (byAddress (startAttempt now <$> (r :: rows))) (set_recipients (updateMany (due g now) (startAttempt now)) db)) as [_ Hc].
  destruct (openAttempts _ _ _ _ _ _) as [cs db1]. cbn in Hc. intros [= <- _]. by rewrite Hc, byAddress_perm.
Qed.

Lemma begin_row g now db claims db' id r :
  begin uuid byAddress route g now db = (claims, db') -> getRow id db = Some r -> due g now r = true -> getRow id db' = Some (startAttempt now r).
Proof.
  unfold begin. intros H Hr Hd. destruct (List.filter (due g now) (db_recipients db)) as [|x rows] eqn:E.
  { apply find_byId in Hr as [Hin _]. apply list_elem_of_In in Hin. assert (In r []) as []. rewrite <- E. by apply List.filter_In. }
  pose proof (openAttempts_spec route g now (byAddress (startAttempt now <$> (x :: rows))) (set_recipients (updateMany (due g now) (startAttempt now)) db)) as [Hq _].
  rewrite H in Hq. rewrite (getRow_quiet _ _ _ Hq). unfold getRow in *. cbn. rewrite find_updateMany, Hr by done. cbn. by rewrite Hd.
Qed.

Lemma claimIds_perm g now db claims db' :
  begin uuid byAddress route g now db = (claims, db') -> claimId <$> claims ≡ₚ or_id <$> List.filter (due g now) (db_recipients db).
Proof.
  intros H. apply begin_claims in H. assert (claimId <$> claims = or_id <$> (cl_recipient <$> claims)) as -> by by rewrite <- list_fmap_compose.
  rewrite H, <- list_fmap_compose. done.
Qed.

Lemma inv_start w g m claims db :
  inv w -> handleStart uuid byAddress route leaseMs g (w_now w) (w_db w) = (Claimed m claims, db) -> 0 <= leaseMs ->
  inv (mkWorld db (w_now w) (w_flights w ++ [mkFlight g m (w_now w) (batches claims) None]) (w_accepted w) (w_lost w)).
Proof.
  intros Hi H Hl. apply (inv_recover w (Some g)) in Hi. unfold handleStart in H.
  set (db1 := (recoverInterrupted leaseMs (w_now w) (Some g) (w_db w)).2) in *. destruct (List.find _ (db_messages db1)) as [m'|]; [|done].
  destruct (isCredentialFrozen m' db1); [done|]. destruct (begin uuid byAddress route g (w_now w) db1) as [cs db2] eqn:Eb. injection H as -> -> ->.
  pose proof (inv_kept _ db Hi) as Hi2. cbn [with_db w_db w_now] in Hi2. assert (Hk : forall t0, evolves (kept t0 []) db1 db).
  { intros t0. pose proof (begin_kept byAddress route g (w_now w) db1 t0) as Hk. by rewrite Eb in Hk. }
  specialize (Hi2 (fun t0 _ => Hk t0)). destruct Hi2 as [J1 J2 J3 J4 J5]. destruct Hi as [I1 _ I3 _ _].
  pose proof (claimIds_perm _ _ _ _ _ Eb) as Hp.
  assert (Hfi : flightIds (mkFlight g m (w_now w) (batches claims) None) ≡ₚ or_id <$> List.filter (due g (w_now w)) (db_recipients db1)).
  { unfold flightIds. cbn [fl_batches]. by rewrite batches_perm, Hp. }
  assert (Hdue : forall id, id ∈ flightIds (mkFlight g m (w_now w) (batches claims) None) -> exists r, getRow id db1 = Some r /\ due g (w_now w) r = true).
  { intros id. rewrite Hfi. intros (r & -> & Hr)%list_elem_of_fmap. apply list_elem_of_In, List.filter_In in Hr as [Hr Hd]. apply list_elem_of_In in Hr.
    exists r. split; [by apply find_in|done]. }
  split; cbn [w_db w_flights w_now w_accepted w_lost].
  - done.
  - done.
  - intros f. rewrite elem_of_app, list_elem_of_singleton. intros [Hf| ->]; [by apply J3|]. cbn [fl_startedAt]. split; [lia|].
    intros id Hid. destruct (Hdue id Hid) as (r & Hr & Hd). exists (startAttempt (w_now w) r). split; [by eapply begin_row|]. by split.
  - unfold inflight. cbn [w_flights]. rewrite fmap_app, concat_app. cbn [fmap list_fmap concat]. rewrite app_nil_r. apply NoDup_app. split; [exact J4|]. split.
    + intros id Hin Hid. destruct (Hdue id Hid) as (r & Hr & Hd). apply (inflight_elem (with_db db1 w)) in Hin as (f & Hf & Hid').
      destruct (I3 f Hf) as [_ Hm]. destruct (Hm id Hid') as (r' & Hr' & Ha & _). cbn [with_db w_db] in Hr'. rewrite Hr in Hr'. injection Hr' as <-.
      unfold due in Hd. rewrite Ha in Hd. cbn in Hd. by rewrite andb_false_r in Hd.
    + rewrite Hfi. eapply sublist_NoDup; [exact I1|]. apply fmap_sublist, sublist_List_filter.
  - intros id. specialize (J5 id). cbn [with_db w_accepted w_lost w_db] in J5. unfold pending in *. cbn [with_db w_flights] in *. rewrite fmap_app, concat_app.
    cbn. rewrite app_nil_r. lia.
Qed.

(** ** The other steps *)

Lemma countId_split {A} (g : A -> list jsstr) l f l' id :
  countId id (concat (g <$> l ++ f :: l')) = (countId id (g f) + countId id (concat (g <$> l ++ l')))%nat.
Proof. rewrite !fmap_app, fmap_cons, !concat_app, !countId_app. cbn [concat]. rewrite countId_app. lia. Qed.

Lemma concat_split {A} (g : A -> list jsstr) l f l' : concat (g <$> l ++ f :: l') ≡ₚ g f ++ concat (g <$> l ++ l').
Proof. rewrite !fmap_app, fmap_cons, !concat_app. cbn [concat]. rewrite !app_assoc. f_equiv. apply Permutation_app_comm. Qed.

Lemma countId_NoDup id l : NoDup l -> (countId id l <= 1)%nat /\ (id ∉ l -> countId id l = 0%nat).
Proof.
  unfold countId. induction 1 as [|x l Hx Hn [IH1 IH2]]; cbn; [by split; [lia|]|]. destruct (bool_decide_reflect (x = id)) as [->|Hne]; cbn.
  - rewrite IH2 by done. split; [lia|set_solver].
  - split; [done|]. intros Hi. apply IH2. set_solver.
Qed.

Lemma elem_mid {A} (x f : A) l l' : x ∈ l ++ f :: l' <-> x = f \/ x ∈ l ++ l'.
Proof. rewrite !elem_of_app, elem_of_cons. tauto. Qed.

Lemma inv_return w l f l' name batch rest result :
  inv w -> w_flights w = l ++ f :: l' -> fl_batches f = (name, batch) :: rest -> fl_result f = None ->
  inv (mkWorld (w_db w) (w_now w) (l ++ mkFlight (fl_group f) (fl_message f) (fl_startedAt f) (fl_batches f) (Some result) :: l')
    (w_accepted w ++ deliveredIds result batch) (w_lost w)).
Proof.
  intros [I1 I2 I3 I4 I5] Hf Hb Hr. set (f' := mkFlight _ _ _ _ (Some result)).
  assert (Hids : flightIds <$> l ++ f' :: l' = flightIds <$> l ++ f :: l') by by rewrite !fmap_app.
  split; cbn [w_db w_flights w_now w_accepted w_lost]; [done|done| | |].
  - intros x Hx. assert (exists y, y ∈ w_flights w /\ fl_startedAt y = fl_startedAt x /\ flightIds y = flightIds x) as (y & Hy & <- & <-); [|by apply I3].
    rewrite Hf. apply elem_mid in Hx as [->|Hx]; [exists f|exists x]; rewrite elem_mid; auto.
  - unfold inflight in *. cbn [w_flights]. rewrite Hids, <- Hf. done.
  - intros id. specialize (I5 id). unfold pending in *. cbn [w_flights]. rewrite Hf in I5. rewrite !countId_split in *. rewrite countId_app.
    assert (pendingIds f = []) as Hp by (unfold pendingIds; by rewrite Hr). assert (pendingIds f' = deliveredIds result batch) as -> by (unfold pendingIds, f'; cbn; by rewrite Hb).
    rewrite Hp in I5. cbn in I5. unfold countId in *. lia.
Qed.

Lemma inv_crash w l f l' : inv w -> w_flights w = l ++ f :: l' -> inv (mkWorld (w_db w) (w_now w) (l ++ l') (w_accepted w) (w_lost w ++ pendingIds f)).
Proof.
  intros [I1 I2 I3 I4 I5] Hf. split; cbn [w_db w_flights w_now w_accepted w_lost]; [done|done| | |].
  - intros x Hx. apply I3. rewrite Hf, elem_mid. by right.
  - unfold inflight in *. cbn [w_flights]. rewrite Hf, concat_split in I4. by apply NoDup_app in I4 as (_ & _ & ?).
  - intros id. specialize (I5 id). unfold pending in *. cbn [w_flights]. rewrite Hf, countId_split in I5. rewrite countId_app. lia.
Qed.

Lemma flightIds_head f name batch rest : fl_batches f = (name, batch) :: rest -> flightIds f = (claimId <$> batch) ++ (claimId <$> concat (snd <$> rest)).
Proof. intros H. unfold flightIds. rewrite H. cbn. by rewrite fmap_app. Qed.

Lemma commitBatch_done w f name batch rest result random id :
  inv w -> f ∈ w_flights w -> fl_batches f = (name, batch) :: rest -> NoDup (flightIds f) ->
  (countId id (deliveredIds result batch) + isDone id (w_db w) <=
   isDone id (commitBatch uuid ts (fl_group f) (fl_message f) name batch result (w_now w) random (w_db w)).2)%nat.
Proof.
  intros Hi Hf Hb Hn. rewrite (flightIds_head _ _ _ _ Hb) in Hn. apply NoDup_app in Hn as (Hn & _ & _).
  destruct (commitBatch_commits ts (fl_group f) (fl_message f) name batch result (w_now w) random (w_db w)) as [transport Hq].
  unfold isDone at 2. rewrite (getRow_quiet _ _ _ Hq). clear Hq.
  assert (Hd : NoDup (deliveredIds result batch)). { eapply sublist_NoDup; [exact Hn|]. apply fmap_sublist, sublist_List_filter. }
  destruct (countId_NoDup id _ Hd) as [H1 H0]. destruct (decide (id ∈ deliveredIds result batch)) as [Hin|Hout].
  - apply list_elem_of_fmap in Hin as (c & -> & Hc). apply list_elem_of_In, List.filter_In in Hc as [Hc Ho]. apply list_elem_of_In in Hc.
    destruct (inv_flights _ Hi f Hf) as [_ Hm]. destruct (Hm (claimId c)) as (r & Hr & Ha & _).
    { rewrite (flightIds_head _ _ _ _ Hb). apply elem_of_app. left. by apply list_elem_of_fmap_2. }
    pose proof (commits_mine result transport (w_now w) random batch (w_db w, [], None) c r Hn Hc Hr Ha) as E. unfold claimId in H1, Hr |- *. rewrite E.
    cbn [applyTransition moved_to or_state]. unfold transitionOf. rewrite nextState_delivered by done. unfold isDone. rewrite Hr, Ha. lia.
  - rewrite H0 by done. cbn. exact (isDone_kept _ _ _ _ id (commits_kept result transport (w_now w) random batch 0 (w_db w, [], None))).
Qed.

Lemma inv_commit w l f l' name batch rest result random :
  inv w -> w_flights w = l ++ f :: l' -> fl_batches f = (name, batch) :: rest -> fl_result f = Some result ->
  inv (mkWorld (commitBatch uuid ts (fl_group f) (fl_message f) name batch result (w_now w) random (w_db w)).2 (w_now w)
    (l ++ mkFlight (fl_group f) (fl_message f) (fl_startedAt f) rest None :: l') (w_accepted w) (w_lost w)).
Proof.
  intros Hi Hf Hb Hr. set (f' := mkFlight _ _ _ rest None). pose proof (flightIds_head _ _ _ _ Hb) as Hh.
  assert (Hin : f ∈ w_flights w) by (rewrite Hf, elem_mid; by left). pose proof Hi as [I1 I2 I3 I4 I5].
  unfold inflight in I4. rewrite Hf, concat_split in I4. assert (Hnf : NoDup (flightIds f)) by (by apply NoDup_app in I4 as [? _]).
  rewrite Hh, <- app_assoc in I4. apply NoDup_app in I4 as (_ & Hdisj & I4).
  destruct (commitBatch_commits ts (fl_group f) (fl_message f) name batch result (w_now w) random (w_db w)) as [transport Hq].
  assert (Hev : forall t0, evolves (kept t0 (claimId <$> batch)) (w_db w) (commitBatch uuid ts (fl_group f) (fl_message f) name batch result (w_now w) random (w_db w)).2).
  { intros t0. ev_then; [exact (commits_kept result transport (w_now w) random batch t0 (w_db w, [], None))|by apply evolves_quiet; [apply _|]]. }
  destruct (Hev 0) as [Hids Hseq _].
  assert (Hf' : flightIds f' = claimId <$> concat (snd <$> rest)) by done.
  split; cbn [w_db w_flights w_now w_accepted w_lost].
  - by rewrite Hids.
  - intros id. rewrite Hids. intros (n & ? & ->)%I2. exists n. split; [lia|done].
  - intros x Hx. assert (exists y, y ∈ w_flights w /\ fl_startedAt y = fl_startedAt x /\
      (forall id, id ∈ flightIds x -> id ∈ flightIds y /\ id ∉ (claimId <$> batch))) as (y & Hy & <- & Hids'').
    { assert (Ho : forall x, x ∈ l ++ l' -> forall id, id ∈ flightIds x -> id ∉ (claimId <$> batch)).
      { intros z Hz id Hid Hbad. apply (Hdisj id Hbad). apply elem_of_app. right. apply (inflight_elem (mkWorld (w_db w) 0 (l ++ l') [] [])). by exists z. }
      apply elem_mid in Hx as [->|Hx]; [|exists x; rewrite Hf, elem_mid; split; [by right|]; split; [done|]; intros id Hid; split; [done|by apply (Ho x Hx)]].
      exists f. split; [done|]. split; [done|]. intros id. rewrite Hf', Hh. intros Hid. split; [apply elem_of_app; by right|].
      intros Hbad. apply (Hdisj id Hbad), elem_of_app. by left. }
    destruct (I3 y Hy) as [Ht Hm]. split; [done|]. intros id Hid. destruct (Hids'' id Hid) as [Hy' Hnb]. eapply marked_kept; [apply Hev|exact Hnb|by apply Hm].
  - unfold inflight. cbn [w_flights]. rewrite concat_split, Hf'. done.
  - intros id. specialize (I5 id). unfold pending in *. cbn [w_flights]. rewrite Hf, countId_split in I5. rewrite countId_split.
    assert (pendingIds f = deliveredIds result batch) as Hp by (unfold pendingIds; by rewrite Hr, Hb). change (pendingIds f') with (@nil jsstr).
    rewrite Hp in I5. pose proof (commitBatch_done w f name batch rest result random id Hi Hin Hb Hnf). cbn. lia.
Qed.

(** New rows are queued and have ids of their own. *)
Record grows (db db' : Db) : Prop := {
  gw_seq : (db_seq db <= db_seq db')%nat;
  gw_rows : exists rows, db_recipients db' = db_recipients db ++ rows /\ NoDup (or_id <$> rows) /\
    forall id, id ∈ or_id <$> rows -> exists n, (db_seq db <= n < db_seq db')%nat /\ id = uuid n
}.

Lemma grows_quiet db db' : quiet db db' -> grows db db'.
Proof. intros [H Hs]. split; [done|]. exists []. rewrite app_nil_r. split; [done|]. split; [constructor|]. intros id Hid. by apply not_elem_of_nil in Hid. Qed.

Lemma grows_trans db1 db2 db3 : grows db1 db2 -> grows db2 db3 -> grows db1 db3.
Proof.
  intros [S1 (r1 & H1 & N1 & F1)] [S2 (r2 & H2 & N2 & F2)]. split; [lia|]. exists (r1 ++ r2). rewrite H2, H1, app_assoc, fmap_app. split; [done|]. split.
  - apply NoDup_app. split; [done|]. split; [|done]. intros id Hi1 Hi2. destruct (F1 _ Hi1) as (n & Hn & ->). destruct (F2 _ Hi2) as (m & Hm & E). apply uuid_inj in E. lia.
  - intros id [Hid|Hid]%elem_of_app; [destruct (F1 _ Hid) as (n & Hn & ->)|destruct (F2 _ Hid) as (n & Hn & ->)]; exists n; (split; [lia|done]).
Qed.

Lemma createRecipients_grows messageId policy now entries : forall db, grows db (createRecipients uuid messageId policy now entries db).
Proof.
  induction entries as [|e entries IH]; intros db; cbn; [by apply grows_quiet|]. eapply grows_trans; [|apply IH].
  split; [cbn; lia|]. eexists. split; [reflexivity|]. destruct e as [[a d] n]. cbn. split; [apply NoDup_singleton|].
  intros id Hid. apply list_elem_of_singleton in Hid as ->. exists (db_seq db). split; [lia|done].
Qed.

Lemma enqueueOutbound_grows input tf now db id domains db' : enqueueOutbound uuid input tf now db = Some (id, domains, db') -> grows db db'.
Proof.
  unfold enqueueOutbound. destruct (ei_recipients input) as [|r rs]; [done|]. destruct (collectRecipients _ _) as [entries|]; [|done]. intros [= <- <- <-].
  eapply grows_trans; [|apply grows_quiet, quiet_fold; intros; apply enqueueJob_quiet]. eapply grows_trans; [|apply createRecipients_grows].
  apply grows_quiet. split; [done|cbn; lia].
Qed.

Lemma getRow_append id db db' rows r : db_recipients db' = db_recipients db ++ rows -> getRow id db = Some r -> getRow id db' = Some r.
Proof. unfold getRow. intros ->. induction (db_recipients db) as [|x l IH]; [done|]. cbn. by destruct (byId id x). Qed.

Lemma inv_grows w db : inv w -> grows (w_db w) db -> inv (with_db db w).
Proof.
  intros [I1 I2 I3 I4 I5] [Hs (rows & Hr & Hn & Hf)]. assert (Hids : idsOf db = idsOf (w_db w) ++ (or_id <$> rows)) by (unfold idsOf; by rewrite Hr, fmap_app).
  split; cbn [with_db w_db w_flights w_now w_accepted w_lost].
  - rewrite Hids. apply NoDup_app. split; [done|]. split; [|done]. intros id (n & Hlt & ->)%I2 (m & Hm & E)%Hf. apply uuid_inj in E. lia.
  - intros id. rewrite Hids, elem_of_app. intros [(n & ? & ->)%I2|(n & ? & ->)%Hf]; exists n; (split; [lia|done]).
  - intros f Hfl. destruct (I3 f Hfl) as [Ht Hm]. split; [done|]. intros id Hid. destruct (Hm id Hid) as (r & Hg & Ha & Hu). exists r. split; [by eapply getRow_append|done].
  - done.
  - intros id. specialize (I5 id). change (pending (with_db db w)) with (pending w). enough (isDone id (w_db w) <= isDone id db)%nat by lia.
    unfold isDone at 1. destruct (getRow id (w_db w)) as [r|] eqn:E; [|lia]. unfold isDone. by rewrite (getRow_append _ _ _ _ _ Hr E).
Qed.

Lemma inv_idle w g s db :
  inv w -> handleStart uuid byAddress route leaseMs g (w_now w) (w_db w) = (s, db) -> (forall m claims, s = Claimed m claims -> claims = []) ->
  inv (with_db (match s with Claimed _ _ => (scheduleNext uuid g None (w_now w) db).2 | _ => db end) w).
Proof.
  intros Hi H Hs. apply (inv_recover w (Some g)) in Hi. unfold handleStart in H. set (db1 := (recoverInterrupted leaseMs (w_now w) (Some g) (w_db w)).2) in *.
  destruct (List.find _ (db_messages db1)) as [m|]; [|by injection H as <- <-]. destruct (isCredentialFrozen m db1).
  - injection H as <- <-. apply (inv_kept _ _ Hi). intros t0 _. apply holdGroup_kept.
  - pose proof (begin_kept byAddress route g (w_now w) db1) as Hb. destruct (begin uuid byAddress route g (w_now w) db1) as [claims db2].
    injection H as <- <-. apply (inv_kept _ _ Hi). intros t0 _. ev_then; [apply Hb|apply evolves_quiet; [apply _|apply scheduleNext_quiet]].
Qed.

(** Every step keeps the invariant. *)
Lemma inv_step w w' : 0 <= leaseMs -> step w w' -> inv w -> inv w'.
Proof.
  intros Hl Hstep Hi. destruct Hstep.
  - destruct Hi as [I1 I2 I3 I4 I5]. split; [done|done| |done|done]. intros f Hf. destruct (I3 f Hf) as [Ht Hm]. split; [|done]. cbn.
    rewrite Forall_forall in H0. specialize (H0 f Hf). cbn in H0. lia.
  - by eapply inv_grows, enqueueOutbound_grows.
  - by apply inv_start.
  - by apply (inv_idle w g s db).
  - by eapply inv_return.
  - by eapply inv_commit.
  - by apply inv_crash.
  - apply (inv_kept _ _ Hi). intros t0 Ht. by apply emitDsn_kept.
  - by apply inv_recover.
  - apply (inv_quiet _ _ Hi), rescheduleOrphans_quiet.
  - apply (inv_kept _ _ Hi). intros t0 _. by eapply cancelRecipient_kept.
  - apply (inv_quiet _ _ Hi), thaw_quiet.
  - apply (inv_quiet _ _ Hi). by split.
  - apply (inv_quiet _ _ Hi). by split.
Qed.

(** ** What holds in every reachable state *)

(** The start: nothing in flight, recipients with ids of their own. *)
Definition initial (w : World) : Prop :=
  w_flights w = [] /\ w_accepted w = [] /\ w_lost w = [] /\ NoDup (idsOf (w_db w)) /\
  forall id, id ∈ idsOf (w_db w) -> exists n, (n < db_seq (w_db w))%nat /\ id = uuid n.

Lemma inv_reachable w w' : 0 <= leaseMs -> initial w -> rtc step w w' -> inv w'.
Proof.
  intros Hl (Hf & Ha & Hlo & Hn & Hfr) Hr. assert (Hi : inv w).
  { split; [done|done| | |]; unfold inflight; rewrite ?Hf, ?Ha; [intros f Hin; by apply not_elem_of_nil in Hin|constructor|intros id; cbn; lia]. }
  clear Hf Ha Hlo Hn Hfr. induction Hr as [|w1 w2 w3 H12 _ IH]; [done|]. by apply IH, (inv_step w1).
Qed.



Lemma kept_final t0 skip db db' id r :
  evolves (kept t0 skip) db db' -> getRow id db = Some r -> isFinal (or_state r) = true -> exists r', getRow id db' = Some r' /\ or_state r' = or_state r.
Proof. intros [_ _ H] Hr Hf. destruct (H _ _ Hr) as (r' & Hr' & [Hk _]). exists r'. split; [done|]. by apply Hk. Qed.

Lemma start_kept g now db s db' : handleStart uuid byAddress route leaseMs g now db = (s, db') -> exists skip, evolves (kept 0 skip) db db'.
Proof.
  intros H. exists (stuck leaseMs now (Some g) db). unfold handleStart, recoverInterrupted in H.
  pose proof (recoverAll_kept now (stuck leaseMs now (Some g) db) db 0) as H1. set (db1 := (recoverAll _ _ _).2) in *.
  assert (H2 : evolves (kept 0 []) db1 db' -> evolves (kept 0 (stuck leaseMs now (Some g) db)) db db').
  { intros H2. ev_then; [exact H1|]. eapply evolves_mono; [|exact H2]. intros r r'. apply kept_more. intros x Hx. by apply not_elem_of_nil in Hx. }
  destruct (List.find _ (db_messages db1)) as [m|]; [|by injection H as _ <-]. apply H2. destruct (isCredentialFrozen m db1); [injection H as _ <-; apply holdGroup_kept|].
  pose proof (begin_kept byAddress route g now db1 0) as Hb. destruct (begin uuid byAddress route g now db1). by injection H as _ <-.
Qed.

(** A step relates the rows of before and after, or only adds rows. *)
Lemma step_kept w w' : step w w' -> (exists skip, evolves (kept 0 skip) (w_db w) (w_db w')) \/ grows (w_db w) (w_db w').
Proof.
  assert (Hq : forall db db', quiet db db' -> exists skip, evolves (kept 0 skip) db db') by (intros db db' H; exists []; by apply evolves_quiet; [apply _|]).
  intros []; cbn [with_db w_db]; [left; by apply Hq|right; by eapply enqueueOutbound_grows|left..].
  - by eapply start_kept.
  - apply start_kept in H as [skip H]. exists skip. ev_then; [exact H|]. destruct s; [by apply evolves_quiet; [apply _|]..|]. apply evolves_quiet; [apply _|apply scheduleNext_quiet].
  - by apply Hq.
  - destruct (commitBatch_commits ts (fl_group f) (fl_message f) name batch result (w_now w) random (w_db w)) as [transport Hc]. eexists.
    ev_then; [exact (commits_kept result transport (w_now w) random batch 0 (w_db w, [], None))|]. by apply evolves_quiet; [apply _|].
  - by apply Hq.
  - unfold emitDsn. destruct (onDsn intent); [|by apply Hq]. exists [di_recipientId intent]. ev_update. intros r [Hi _]%andb_true_iff. apply bool_decide_eq_true in Hi.
    split; [done|]. split; [done|]. intros Hn. exfalso. apply Hn. rewrite Hi. apply list_elem_of_here.
  - eexists. apply recoverAll_kept.
  - apply Hq, rescheduleOrphans_quiet.
  - exists []. by eapply cancelRecipient_kept.
  - apply Hq, thaw_quiet.
  - apply Hq. by split.
  - apply Hq. by split.
Qed.

(** Delivered, bounced and cancelled are final: no step of any worker, sweep or operator changes the
    state of such a recipient again. *)
Theorem final_states_final w w' id r :
  rtc step w w' -> getRow id (w_db w) = Some r -> isFinal (or_state r) = true -> exists r', getRow id (w_db w') = Some r' /\ or_state r' = or_state r.
Proof.
  intros Hs. revert r. induction Hs as [|w1 w2 w3 H12 _ IH]; intros r Hr Hf; [by exists r|]. apply step_kept in H12 as [[skip He]|[_ (rows & Hrows & _)]].
  - destruct (kept_final _ _ _ _ _ _ He Hr Hf) as (r' & Hr' & Hst). rewrite <- Hst in Hf |- *. by apply IH.
  - apply IH; [by eapply getRow_append|done].
Qed.

(** ** No work is forgotten *)

Definition noColon (s : jsstr) : Prop := 58 ∉ s.

Lemma outboundJobKey_inj m d m' d' gen : noColon m -> noColon m' -> outboundJobKey m d gen = outboundJobKey m' d' gen -> m = m' /\ d = d'.
Proof.
  unfold outboundJobKey, noColon. intros Hm Hm' H. apply app_inv_head in H.
  assert (Hs : forall a b x y, 58 ∉ a -> 58 ∉ b -> a ++ [58] ++ x = b ++ [58] ++ y -> a = b /\ x = y).
  { clear. induction a as [|c a IH]; intros [|c' b] x y Ha Hb H; cbn in H; [by injection H|injection H as <- _; set_solver|injection H as -> _; set_solver|].
    injection H as <- H. apply IH in H as [-> ->]; set_solver. }
  apply Hs in H as [-> H]; [|done..]. split; [done|]. by apply app_inv_tail in H.
Qed.

Lemma scheduleNext_new g gen now db :
  waitingOf g db <> [] -> existsb (hasKey (outboundJobKey (gr_messageId g) (gr_domain g) gen)) (db_jobs db) = false ->
  exists job, db_jobs (scheduleNext uuid g (Some gen) now db).2 = db_jobs db ++ [job] /\ liveJob g job = true /\
    jb_idempotencyKey job = Some (outboundJobKey (gr_messageId g) (gr_domain g) gen).
Proof.
  intros Hw Hk. unfold scheduleNext. destruct (waitingOf g db) as [|r rows]; [done|]. cbn [aggregate]. unfold enqueueJob, enqueue. cbn [default from_option id].
  rewrite Hk. eexists. split; [reflexivity|]. split; [|reflexivity]. unfold liveJob. apply andb_true_iff. split; [done|]. by apply bool_decide_eq_true_2.
Qed.

Lemma reschedule_fold gen now : forall gs n db,
  NoDup gs -> Forall (fun g => noColon (gr_messageId g)) gs -> (forall g, g ∈ gs -> waitingOf g db <> []) ->
  (forall g, g ∈ gs -> existsb (hasKey (outboundJobKey (gr_messageId g) (gr_domain g) gen)) (db_jobs db) = false) ->
  let db' := (fold_left (fun '(n, db) g => let '(done, db) := scheduleNext uuid g (Some gen) now db in ((if done : bool then S n else n), db)) gs (n, db)).2 in
  exists new, db_jobs db' = db_jobs db ++ new /\ forall g, g ∈ gs -> existsb (liveJob g) new = true.
Proof.
  induction gs as [|g gs IH]; intros n db Hn Hc Hw Hk.
  { exists []. rewrite app_nil_r. split; [done|]. intros g Hg. by apply not_elem_of_nil in Hg. }
  apply NoDup_cons in Hn as [Hg Hn]. apply Forall_cons in Hc as [Hcg Hc]. cbn [fold_left].
  destruct (scheduleNext_new g gen now db) as (job & Hj & Hl & Hkey); [by apply Hw, list_elem_of_here|by apply Hk, list_elem_of_here|].
  pose proof (scheduleNext_quiet g (Some gen) now db) as [Hr _]. destruct (scheduleNext uuid g (Some gen) now db) as [d db1]. cbn [snd] in Hj, Hr.
  destruct (IH (if d then S n else n) db1) as (new & Hnew & Hall); [done|done| | |].
  - intros x Hx. unfold waitingOf. rewrite Hr. by apply Hw, list_elem_of_further.
  - intros x Hx. rewrite Hj, existsb_app, Hk by (by apply list_elem_of_further). cbn. rewrite orb_false_r. apply bool_decide_eq_false. rewrite Hkey. intros E. apply (inj Some) in E.
    rewrite Forall_forall in Hc. apply outboundJobKey_inj in E as [E1 E2]; [|done|by apply Hc]. apply Hg. assert (g = x) as -> by (destruct g, x; cbn in *; congruence). done.
  - exists (job :: new). rewrite Hnew, Hj, <- app_assoc. split; [done|]. intros x Hx. cbn. apply elem_of_cons in Hx as [->|Hx]; [by rewrite Hl|].
    rewrite Hall by done. apply orb_true_r.
Qed.

Lemma orphans_waiting db g : g ∈ orphans db -> waitingOf g db <> [] /\ exists r, r ∈ db_recipients db /\ groupOf r = g.
Proof.
  unfold orphans. rewrite elem_of_remove_dups, list_elem_of_In, List.filter_In. intros [Hg _]. apply list_elem_of_In, list_elem_of_fmap in Hg as (r & -> & Hr).
  apply list_elem_of_In, List.filter_In in Hr as [Hr Hs]. split; [|exists r; split; [by apply list_elem_of_In|done]].
  intros Hn. assert (In r (waitingOf (groupOf r) db)) as Hin; [|by rewrite Hn in Hin]. apply List.filter_In. split; [done|].
  unfold inGroup. cbn. by rewrite !bool_decide_eq_true_2.
Qed.

Lemma reschedule_covers now db r :
  (forall r, r ∈ db_recipients db -> noColon (or_outboundMessageId r)) ->
  (forall g, existsb (hasKey (outboundJobKey (gr_messageId g) (gr_domain g) (lit "sweep-" ++ dec now))) (db_jobs db) = false) ->
  r ∈ db_recipients db -> isWaiting (or_state r) = true -> existsb (liveJob (groupOf r)) (db_jobs (rescheduleOrphans uuid now db).2) = true.
Proof.
  intros Hc Hk Hr Hw. destruct (reschedule_fold (lit "sweep-" ++ dec now) now (orphans db) 0 db) as (new & Hnew & Hall).
  - apply NoDup_remove_dups.
  - apply Forall_forall. intros g Hg. apply orphans_waiting in Hg as (_ & x & Hx & <-). by apply Hc.
  - intros g Hg. by apply orphans_waiting in Hg as [? _].
  - intros g _. apply Hk.
  - unfold rescheduleOrphans. rewrite Hnew, existsb_app. destruct (existsb (liveJob (groupOf r)) (db_jobs db)) eqn:E; [done|]. cbn. apply Hall.
    unfold orphans. rewrite elem_of_remove_dups, list_elem_of_In, List.filter_In. split; [|by rewrite E].
    apply list_elem_of_In, list_elem_of_fmap_2, list_elem_of_In, List.filter_In. split; [by apply list_elem_of_In|done].
Qed.

Lemma emitDsn_same onDsn at_ intents db : forall r' : OutboundRecipient,
  let db' := fold_left (fun db i => emitDsn onDsn at_ i db) intents db in
  db_jobs db' = db_jobs db /\ (r' ∈ db_recipients db' -> exists r, r ∈ db_recipients db /\ or_state r' = or_state r /\ groupOf r' = groupOf r).
Proof.
  revert db. induction intents as [|i intents IH]; intros db r'; cbn; [by split; eauto|]. destruct (IH (emitDsn onDsn at_ i db) r') as [H1 H2]. rewrite H1.
  unfold emitDsn in *. destruct (onDsn i); [|done]. split; [done|]. intros Hr. destruct (H2 Hr) as (r & Hin & Hs & Hg).
  apply list_elem_of_fmap in Hin as (x & -> & Hx). exists x. split; [done|]. destruct (_ && _); done.
Qed.

Lemma recoverAll_same now ids : forall n db,
  let db' := (fold_left (fun '(n, db) id => let '(done, db) := recoverOne now id db in ((if done : bool then S n else n), db)) ids (n, db)).2 in
  db_jobs db' = db_jobs db /\ forall r', r' ∈ db_recipients db' -> exists r, r ∈ db_recipients db /\ groupOf r' = groupOf r.
Proof.
  induction ids as [|id ids IH]; intros n db; cbn; [by split; eauto|].
  assert (H1 : db_jobs (recoverOne now id db).2 = db_jobs db /\ forall r', r' ∈ db_recipients (recoverOne now id db).2 -> exists r, r ∈ db_recipients db /\ groupOf r' = groupOf r).
  { unfold recoverOne. destruct (existsb _ _); [|by split; eauto]. split; [done|]. intros r' Hr. apply list_elem_of_fmap in Hr as (x & -> & Hx). exists x. split; [done|]. by destruct (_ && _). }
  destruct (recoverOne now id db) as [d db1]. cbn in H1. destruct H1 as [J1 R1]. destruct (IH (if d then S n else n) db1) as [J2 R2]. split; [by rewrite J2|].
  intros r' Hr. destruct (R2 r' Hr) as (r & Hr1 & ->). by apply R1.
Qed.

(** C18: After a sweep, every recipient that is waiting, including those whose attempt was interrupted, has a
    pending or running job of its domain group: no accepted recipient is forgotten. *)
Theorem sweep_leaves_no_orphan onDsn now db r :
  (forall r, r ∈ db_recipients db -> noColon (or_outboundMessageId r)) ->
  (forall g, existsb (hasKey (outboundJobKey (gr_messageId g) (gr_domain g) (lit "sweep-" ++ dec now))) (db_jobs db) = false) ->
  let db' := (sweep uuid onDsn leaseMs now db).2 in
  r ∈ db_recipients db' -> isWaiting (or_state r) = true -> existsb (liveJob (groupOf r)) (db_jobs db') = true.
Proof.
  intros Hc Hk. unfold sweep, recoverInterrupted, recoverAll. destruct (recoverAll_same now (stuck leaseMs now None db) 0 db) as [J1 R1].
  destruct (fold_left _ (stuck leaseMs now None db) (0%nat, db)) as [rec db1]. cbn in J1, R1.
  assert (Hcov : forall r, r ∈ db_recipients db1 -> isWaiting (or_state r) = true -> existsb (liveJob (groupOf r)) (db_jobs (rescheduleOrphans uuid now db1).2) = true).
  { intros x. apply reschedule_covers; [|intros g; rewrite J1; apply Hk]. intros y Hy. destruct (R1 y Hy) as (z & Hz & E). injection E as -> _. by apply Hc. }
  destruct (rescheduleOrphans_quiet now db1) as [Hr2 _]. destruct (rescheduleOrphans uuid now db1) as [n db2]. cbn in Hcov, Hr2. cbn [snd].
  set (retried := List.filter _ _). assert (Hf : fold_left (fun db r => emitDsn onDsn now (retryIntent now r) db) retried db2 =
    fold_left (fun db i => emitDsn onDsn now i db) (retryIntent now <$> retried) db2).
  { clear. generalize retried as l. clear. intros l. revert db2. induction l as [|x l IH]; intros db2; [done|]. apply IH. }
  rewrite Hf. destruct (emitDsn_same onDsn now (retryIntent now <$> retried) db2 r) as [J3 R3]. rewrite J3. intros Hr Hw.
  destruct (R3 Hr) as (x & Hx & Hs & ->). rewrite Hr2 in Hx. apply Hcov; [done|congruence].
Qed.

End queue.

(** ** Runs of the outbound queue

    Concrete runs for the theorems of DeliveryQueueProofs, and two runs in which the queue does less than
    its comments say. *)

Definition queue_runtime : Runtime := {| uni_upper s := s; uni_lower s := s; big_string _ := []; isIPv6 _ := false |}.
Definition queue_dates : DateRuntime := {| toISOString _ := js "1970-01-01T00:00:00.000Z" |}.
#[local] Existing Instance queue_runtime.
#[local] Existing Instance queue_dates.

Definition demo_uuid (n : nat) : jsstr := [1000 + Z.of_nat n].
Definition demo_lease : Z := 300000.
Definition demo_route (domain enqueued : jsstr) : jsstr := enqueued.
Definition same_order (l : list OutboundRecipient) : list OutboundRecipient := l.
Definition empty_db : Db := mkDb [] [] [] [] [] [] [] [] 0.

Definition demo_input (recipients : list jsstr) : EnqueueOutboundInput :=
  mkInput None (js "a@example.org") None (js "sha") 100 None None ((fun a => (a, None)) <$> recipients).

(** A message to [recipients], accepted at time 0. *)
Definition accepted_db (recipients : list jsstr) : Db :=
  match enqueueOutbound demo_uuid (demo_input recipients) (fun _ => js "direct") 0 empty_db with Some (_, _, db) => db | None => empty_db end.

Definition demo_group : Group := mkGroup (demo_uuid 0) (js "example.net").
Definition one_db : Db := accepted_db [js "b@example.net"].
Definition demo_world : World := mkWorld one_db 1000 [] [] [].
Definition demo_start : Started * Db := handleStart demo_uuid same_order demo_route demo_lease demo_group 1000 one_db.
Definition demo_claims : list Claim := match demo_start.1 with Claimed _ claims => claims | _ => [] end.
Definition sent_ok : DeliveryResult := mkResult noDetails [(demo_uuid 1, ODelivered (Some 250) None (Some (js "ok")))] None None.
Definition demo_message : OutboundMessage := mkMessage (demo_uuid 0) None (js "a@example.org") None (js "sha") 100 None None 0.
Definition demo_flight (result : option DeliveryResult) : Flight := mkFlight demo_group demo_message 1000 (batches demo_claims) result.

(** The worker has sent the message and not committed the outcome yet. *)
Definition sent_world : World := mkWorld demo_start.2 1000 [demo_flight (Some sent_ok)] [demo_uuid 1] [].

Lemma demo_initial : initial demo_uuid demo_world.
Proof.
  split; [done|]. split; [done|]. split; [done|]. split.
  - vm_compute. apply NoDup_cons. split; [apply not_elem_of_nil|constructor].
  - intros id Hid. exists 1%nat. split; [vm_compute; lia|]. vm_compute in Hid. by apply list_elem_of_singleton in Hid.
Qed.

Lemma demo_steps : rtc (step demo_uuid same_order demo_route [] demo_lease) demo_world sent_world.
Proof.
  eapply rtc_l; [apply (step_start _ _ _ _ _ demo_world demo_group demo_message demo_claims demo_start.2); [vm_compute; reflexivity|vm_compute; done]|].
  eapply rtc_l; [apply (step_return _ _ _ _ _ _ [] (demo_flight None) [] (js "direct") demo_claims [] sent_ok); vm_compute; reflexivity|]. apply rtc_refl.
Qed.



(** A worker that dies after the server accepted the message: the retry is a second copy, and the bound is met. *)
Example crash_duplicates : countId (demo_uuid 1) (w_lost (mkWorld demo_start.2 1000 [] [demo_uuid 1] (pendingIds (demo_flight (Some sent_ok))))) = 1%nat.
Proof. vm_compute. reflexivity. Qed.

Definition done_world : World :=
  mkWorld (commitBatch demo_uuid [] demo_group demo_message (js "direct") demo_claims sent_ok 1000 (fun _ => 0%Q) (w_db sent_world)).2 1000
    [mkFlight demo_group demo_message 1000 [] None] [demo_uuid 1] [].

Lemma final_states_final_witness :
  exists r', getRow (demo_uuid 1) (w_db (with_db (set_jobs [] (w_db done_world)) done_world)) = Some r' /\ or_state r' = Delivered.
Proof.
  destruct (getRow (demo_uuid 1) (w_db done_world)) as [r|] eqn:Er; [|vm_compute in Er; discriminate Er].
  assert (Hs : or_state r = Delivered) by (vm_compute in Er; injection Er as <-; reflexivity). rewrite <- Hs.
  apply (final_states_final demo_uuid same_order demo_route [] demo_lease ltac:(unfold demo_uuid; intros n m [= H]; lia) done_world).
  - apply rtc_once, (step_jobs _ _ _ _ _ done_world []).
  - exact Er.
  - by rewrite Hs.
Defined.

(** A job table that lost the jobs. *)
Definition orphaned_db : Db := set_jobs [] one_db.

Lemma sweep_leaves_no_orphan_witness :
  existsb (liveJob demo_group) (db_jobs (sweep demo_uuid (fun _ => true) demo_lease 5000 orphaned_db).2) = true.
Proof.
  destruct (db_recipients (sweep demo_uuid (fun _ => true) demo_lease 5000 orphaned_db).2) as [|r rows] eqn:Er; [vm_compute in Er; discriminate Er|].
  assert (Hr : groupOf r = demo_group /\ isWaiting (or_state r) = true) by (vm_compute in Er; injection Er as <- _; split; reflexivity).
  destruct Hr as [<- Hw]. apply (sweep_leaves_no_orphan demo_uuid demo_lease (fun _ => true) 5000 orphaned_db r).
  - intros x Hx. vm_compute in Hx. apply list_elem_of_singleton in Hx as ->. intros Hin. vm_compute in Hin. by apply list_elem_of_singleton in Hin.
  - intros g. reflexivity.
  - rewrite Er. apply list_elem_of_here.
  - exact Hw.
Defined.

(** ** Recovery is not atomic

    [recoverInterrupted] reads the stuck recipients first and moves each in a transaction of its own, guarded
    only by the state. A worker that recovers and starts one of them in between loses its mark. *)

(** A worker started at time 1000 and died. *)
Definition crashed_db : Db := demo_start.2.

Definition race_now : Z := 1000 + demo_lease + 1.

(** The sweep reads, a worker recovers and starts, the sweep's transaction runs, another worker starts. *)
Definition race_found : list jsstr := stuck demo_lease race_now None crashed_db.
Definition race_first : Started * Db := handleStart demo_uuid same_order demo_route demo_lease demo_group race_now crashed_db.
Definition race_swept : Db := (recoverAll race_now race_found race_first.2).2.
Definition race_second : Started * Db := handleStart demo_uuid same_order demo_route demo_lease demo_group race_now race_swept.

Definition claimedIds (s : Started) : list jsstr := match s with Claimed _ claims => claimId <$> claims | _ => [] end.

Lemma recovery_race : claimedIds race_first.1 = [demo_uuid 1] /\ claimedIds race_second.1 = [demo_uuid 1].
Proof. vm_compute. split; reflexivity. Qed.

(** ** A generation's key may be taken

    Two recipients of a domain are due at different times. After the first has been tried twice and the
    second, later, twice as well, the highest attempt count is still 2: the next job has the key of the
    job that is running and is not made. Only the sweep gives the group a job again. *)

Definition two_db : Db := accepted_db [js "b@example.net"; js "c@example.net"].

(** One run of the handler at [now] in which the server cannot be reached. *)
Definition failed_run (draw : jsstr -> Q) (now : Z) (db : Db) : Db :=
  handle demo_uuid same_order [] demo_route (fun _ => OpenFails []) (fun _ => true) demo_lease now (fun _ => now) draw demo_group db.

(** The second recipient's first retry is drawn late. *)
Definition draw (id : jsstr) : Q := if bool_decide (id = demo_uuid 2) then 1%Q else 0%Q.

Definition run1 : Db := failed_run draw 0 two_db.
Definition run2 : Db := failed_run draw (5 * MINUTE) run1.
Definition run3 : Db := failed_run draw (6 * MINUTE) run2.

Lemma generation_key_taken :
  (or_attempts <$> db_recipients run3) = [2; 2] /\ length (db_jobs run2) = 3%nat /\ length (db_jobs run3) = 3%nat /\
  forallb (fun r => isWaiting (or_state r)) (db_recipients run3) = true.
Proof. vm_compute. repeat split; reflexivity. Qed.
