(* ===== verification/MtaSts.v ===== *)
(** * MtaSts: MTA-STS policies (apps/delivery/src/policy/mta-sts.ts)

    The HTTPS exchange is the parameter [get]: what the request for the policy gave, by address and host
    name. A cache is the list of its entries; [None] from a cache operation is a rejected promise. The resolver's
    operations give a result or the error they throw. *)
From S2P Require Import Prelude JsString Utf8 DnsName DnsWire DnsResolver DnsMx SmtpReply.

Inductive MtaStsMode := Enforce | Testing | NoneMode.

#[export] Instance MtaStsMode_eq_dec : EqDecision MtaStsMode.
Proof. solve_decision. Defined.

Record MtaStsPolicy := mkPolicy { po_mode : MtaStsMode; po_mx : list jsstr; po_maxAge : Z }.

Record CachedMtaStsPolicy := mkCached { cp_id : jsstr; cp_policy : MtaStsPolicy; cp_fetchedAt : Z; cp_expiresAt : Z }.

Inductive PolicySource := Fetched | FromCache.

Inductive MtaStsLookup :=
| StsNone (reason : jsstr)
| StsPolicy (id : jsstr) (policy : MtaStsPolicy) (source : PolicySource).

Definition MAX_AGE_LIMIT : Z := 31557600.
Definition DEFAULT_TIMEOUT_MS : Z := 10000.
Definition DEFAULT_MAX_BYTES : Z := 64 * 1024.

Section mtasts.
Context `{R : Runtime}.

Definition bare (name : jsstr) : jsstr := dropRootDot (toLowerCase name).

Definition isAlnum (c : Z) : bool := isAlphaUpper c || isAlphaLower c || is_digit c.

(** The fields after the version. *)
Fixpoint findId (fields : list jsstr) : option jsstr :=
  match fields with
  | [] => None
  | field :: fields =>
      match indexOf 61 field with
      | None | Some O => None
      | Some eq =>
          let key := trim (take eq field) in
          let value := trim (drop (S eq) field) in
          if bool_decide (key = js "id") then
            if forallb isAlnum value && (1 <=? length value)%nat && (length value <=? 32)%nat then Some value else None
          else findId fields
      end
  end.

Definition parseStsTxt (text : jsstr) : option jsstr :=
  match List.filter (fun f => negb (bool_decide (f = []))) (trim <$> splitOn 59 text) with
  | first :: fields => if bool_decide (first = js "v=STSv1") then findId fields else None
  | [] => None
  end.

(** [body.split(/\r?\n/)]: a CR before the LF that ends a line is part of the separator. *)
Definition dropCR (line : jsstr) : jsstr := if endsWith [CR] line then take (length line - 1) line else line.

Definition splitLines (body : jsstr) : list jsstr :=
  match rev (splitOn LF body) with
  | [] => []
  | lastLine :: before => (dropCR <$> rev before) ++ [lastLine]
  end.

(** The variables of the loop over the lines. *)
Record PolicyFields := mkFields { pf_version : option jsstr; pf_mode : option jsstr; pf_maxAge : option jsstr; pf_mx : list jsstr }.

Definition orElse (current : option jsstr) (value : jsstr) : option jsstr := match current with Some v => Some v | None => Some value end.

Definition addField (key value : jsstr) (f : PolicyFields) : PolicyFields :=
  if bool_decide (key = js "version") then mkFields (orElse (pf_version f) value) (pf_mode f) (pf_maxAge f) (pf_mx f)
  else if bool_decide (key = js "mode") then mkFields (pf_version f) (orElse (pf_mode f) value) (pf_maxAge f) (pf_mx f)
  else if bool_decide (key = js "max_age") then mkFields (pf_version f) (pf_mode f) (orElse (pf_maxAge f) value) (pf_mx f)
  else if bool_decide (key = js "mx") then mkFields (pf_version f) (pf_mode f) (pf_maxAge f) (pf_mx f ++ [bare value])
  else f.

(** [inl] is the error of the result. *)
Fixpoint readFields (lines : list jsstr) (f : PolicyFields) : jsstr + PolicyFields :=
  match lines with
  | [] => inr f
  | raw :: lines =>
      let line := trim raw in
      if bool_decide (line = []) then readFields lines f
      else
        match indexOf 58 line with
        | None | Some O => inl (js "malformed policy line: " ++ jsonString (take 80 line))
        | Some colon => readFields lines (addField (trim (take colon line)) (trim (drop (S colon) line)) f)
        end
  end.

(** [/^(\*\.)?[a-z0-9_-]+(\.[a-z0-9_-]+)*$/]. *)
Definition patternChar (c : Z) : bool := isAlphaLower c || is_digit c || (c =? 95) || (c =? 45).
Definition patternLabel (l : jsstr) : bool := negb (bool_decide (l = [])) && forallb patternChar l.
Definition validPattern (p : jsstr) : bool := forallb patternLabel (splitOn DOT (if startsWith (js "*.") p then drop 2 p else p)).

Definition modeOf (s : jsstr) : option MtaStsMode :=
  if bool_decide (s = js "enforce") then Some Enforce
  else if bool_decide (s = js "testing") then Some Testing
  else if bool_decide (s = js "none") then Some NoneMode
  else None.

Definition modeText (m : MtaStsMode) : jsstr := match m with Enforce => js "enforce" | Testing => js "testing" | NoneMode => js "none" end.

Definition digits1to10 (s : jsstr) : bool := (1 <=? length s)%nat && (length s <=? 10)%nat && forallb is_digit s.

Definition parsePolicy (body : jsstr) : jsstr + MtaStsPolicy :=
  f ← readFields (splitLines body) (mkFields None None None []);
  if negb (bool_decide (pf_version f = Some (js "STSv1"))) then inl (js "unsupported policy version " ++ jsonOrNull (pf_version f))
  else
    match (m ← pf_mode f; modeOf m) with
    | None => inl (js "invalid policy mode " ++ jsonOrNull (pf_mode f))
    | Some mode =>
        match pf_maxAge f with
        | None => inl (js "missing or invalid max_age")
        | Some text =>
            if negb (digits1to10 text) then inl (js "missing or invalid max_age")
            else
              let maxAge := digits_val text in
              if MAX_AGE_LIMIT <? maxAge then inl (js "max_age " ++ text ++ js " above " ++ dec MAX_AGE_LIMIT)
              else
                match List.find (fun p => negb (validPattern p)) (pf_mx f) with
                | Some pattern => inl (js "invalid mx pattern " ++ jsonString pattern)
                | None =>
                    if negb (bool_decide (mode = NoneMode)) && bool_decide (pf_mx f = []) then inl (js "mode " ++ modeText mode ++ js " without any mx")
                    else inr (mkPolicy mode (pf_mx f) maxAge)
                end
        end
    end.

Definition mxMatchesPattern (mxHost pattern : jsstr) : bool :=
  let host := bare mxHost in
  let p := bare pattern in
  if negb (startsWith (js "*.") p) then bool_decide (host = p)
  else
    let suffix := drop 1 p in
    if negb (endsWith suffix host) then false
    else
      let label := take (length host - length suffix) host in
      negb (bool_decide (label = [])) && negb (includesChar DOT label).

Definition mxMatchesPolicy (mxHost : jsstr) (policy : MtaStsPolicy) : bool := existsb (mxMatchesPattern mxHost) (po_mx policy).

(** ** The cache *)

(** Entries by bare domain; a later entry replaces an earlier one. *)
Definition PolicyCache := list (jsstr * CachedMtaStsPolicy).

Fixpoint cacheLookup (key : jsstr) (entries : PolicyCache) : option CachedMtaStsPolicy :=
  match entries with [] => None | (k, e) :: rest => if bool_decide (k = key) then Some e else cacheLookup key rest end.

Definition memoryGet (domain : jsstr) (entries : PolicyCache) : option CachedMtaStsPolicy := cacheLookup (bare domain) entries.
Definition memorySet (domain : jsstr) (entry : CachedMtaStsPolicy) (entries : PolicyCache) : PolicyCache :=
  (bare domain, entry) :: List.filter (fun e => negb (bool_decide (fst e = bare domain))) entries.

(** [createSettingPolicyStore]: memory in front of the table [setting]; [rows] are the well-formed values
    of the keys [mta-sts:<domain>]. A rejected database operation rejects. *)
Record SettingStore := mkStore { st_memory : PolicyCache; st_rows : PolicyCache }.

Definition storeGet (databaseUp : bool) (domain : jsstr) (s : SettingStore) : option (option CachedMtaStsPolicy) * SettingStore :=
  match memoryGet domain (st_memory s) with
  | Some hit => (Some (Some hit), s)
  | None =>
      if negb databaseUp then (None, s)
      else
        match cacheLookup (bare domain) (st_rows s) with
        | None => (Some None, s)
        | Some row => (Some (Some row), mkStore (memorySet domain row (st_memory s)) (st_rows s))
        end
  end.

Definition storeSet (databaseUp : bool) (domain : jsstr) (entry : CachedMtaStsPolicy) (s : SettingStore) : option unit * SettingStore :=
  let s := mkStore (memorySet domain entry (st_memory s)) (st_rows s) in
  if databaseUp then (Some tt, mkStore (st_memory s) (memorySet domain entry (st_rows s))) else (None, s).

(** ** Fetching *)

(** What the request comes to: an error, the deadline, or a response with its status, its content type and
    the chunks of its body, ended or broken off. *)
Inductive HttpOutcome :=
| HttpFails (message : jsstr)
| HttpTimeout
| HttpResponse (status : Z) (contentType : option jsstr) (chunks : list bytes) (broken : option jsstr).

Record StsResolver := mkStsResolver { sr_txt : jsstr -> DnsError + ResolverResult; sr_a : jsstr -> DnsError + ResolverResult; sr_aaaa : jsstr -> DnsError + ResolverResult }.

(** The message of a thrown DNS error. *)
Definition dnsErrorText (e : DnsError) : jsstr :=
  match e with
  | DnsServfailError name type => js "SERVFAIL resolving " ++ name ++ js " (type " ++ dec type ++ js ") - possibly DNSSEC-bogus"
  | DnsTimeoutError m | DnsProtocolError m | DnsPublicResolverRefusedError m | DnsOther m => m
  end.

(** The chunks of the body, as far as the size limit lets them in. *)
Fixpoint readBody (maxBytes size : Z) (chunks : list bytes) (acc : bytes) : option bytes :=
  match chunks with
  | [] => Some acc
  | chunk :: chunks => let size := size + Z.of_nat (length chunk) in if maxBytes <? size then None else readBody maxBytes size chunks (acc ++ chunk)
  end.

Definition policyUrl (host : jsstr) : jsstr := js "https://" ++ host ++ js "/.well-known/mta-sts.txt".

Definition fetchOutcome (host : jsstr) (timeoutMs maxBytes : Z) (outcome : HttpOutcome) : jsstr + jsstr :=
  match outcome with
  | HttpFails m => inl (js "fetching " ++ policyUrl host ++ js ": " ++ m)
  | HttpTimeout => inl (js "policy fetch from " ++ host ++ js " timed out after " ++ dec timeoutMs ++ js " ms")
  | HttpResponse status contentType chunks broken =>
      if negb (status =? 200) then inl (policyUrl host ++ js " answered HTTP " ++ dec status ++ js " (redirects are not followed)")
      else
        let type := toLowerCase (default [] contentType) in
        if negb (startsWith (js "text/plain") type) then inl (js "policy served as " ++ jsonString type ++ js ", not text/plain")
        else
          match readBody maxBytes 0 chunks [] with
          | None => inl (js "policy larger than " ++ dec maxBytes ++ js " bytes")
          | Some body => match broken with Some m => inl (js "reading policy: " ++ m) | None => inr (utf8_decode body) end
          end
  end.

Definition addressesOf (answers : list DnsAnswer) : list jsstr :=
  omap (fun rr => match an_data rr with KindA address => Some address | _ => None end) answers.
Definition addresses6Of (answers : list DnsAnswer) : list jsstr :=
  omap (fun rr => match an_data rr with KindAAAA address => Some address | _ => None end) answers.

Record StsOptions := mkStsOptions { so_timeoutMs : option Z; so_maxBytes : option Z; so_ipv4Only : option bool }.

Definition fetchPolicyText (resolver : StsResolver) (get : jsstr -> jsstr -> HttpOutcome) (o : StsOptions) (host : jsstr) : jsstr + jsstr :=
  match sr_a resolver host with
  | inl e => inl (dnsErrorText e)
  | inr a =>
      let addresses := addressesOf (r_answers a) in
      match (if bool_decide (so_ipv4Only o = Some false) then
               match sr_aaaa resolver host with inl e => inl (dnsErrorText e) | inr aaaa => inr (addresses ++ addresses6Of (r_answers aaaa)) end
             else inr addresses) with
      | inl e => inl e
      | inr [] => inl (host ++ js " has no address")
      | inr (ip :: _) => fetchOutcome host (default DEFAULT_TIMEOUT_MS (so_timeoutMs o)) (default DEFAULT_MAX_BYTES (so_maxBytes o)) (get ip host)
      end
  end.

(** The TXT record of the domain: [inl] is why there is no usable id. *)
Definition stsId (resolver : StsResolver) (name : jsstr) : jsstr + jsstr :=
  match sr_txt resolver (js "_mta-sts." ++ name) with
  | inl e => inl (js "_mta-sts TXT lookup failed: " ++ dnsErrorText e)
  | inr txt =>
      if negb (r_rcode txt =? RCode.NOERROR) && negb (r_rcode txt =? RCode.NXDOMAIN) then inl (js "_mta-sts TXT lookup answered rcode " ++ dec (r_rcode txt))
      else
        match omap (fun rr => match an_data rr with KindTXT _ text => if startsWith (js "v=STSv1") text then Some text else None | _ => None end) (r_answers txt) with
        | [] => inl (js "no _mta-sts TXT record")
        | [only] => match parseStsTxt only with Some id => inr id | None => inl (js "invalid _mta-sts TXT record " ++ jsonString (take 80 only)) end
        | _ => inl (js "more than one STSv1 TXT record")
        end
  end.

(** [cached] is what the cache gave, nothing when it rejected; the second result is the entry to store. *)
Definition lookupMtaSts (resolver : StsResolver) (get : jsstr -> jsstr -> HttpOutcome) (o : StsOptions) (domain : jsstr) (now : Z) (cached : option CachedMtaStsPolicy)
    : MtaStsLookup * option CachedMtaStsPolicy :=
  let name := bare domain in
  let valid := match cached with Some c => if now <? cp_expiresAt c then Some c else None | None => None end in
  let fromCache (why : jsstr) : MtaStsLookup * option CachedMtaStsPolicy :=
    (match valid with None => StsNone why | Some c => StsPolicy (cp_id c) (cp_policy c) FromCache end, None) in
  match stsId resolver name with
  | inl why => fromCache why
  | inr id =>
      if bool_decide (cp_id <$> valid = Some id) then fromCache (js "unchanged id")
      else
        match fetchPolicyText resolver get o (js "mta-sts." ++ name) with
        | inl e => fromCache (js "policy fetch failed: " ++ e)
        | inr text =>
            match parsePolicy text with
            | inl e => fromCache (js "invalid policy: " ++ e)
            | inr policy => (StsPolicy id policy Fetched, Some (mkCached id policy now (now + po_maxAge policy * 1000)))
            end
        end
  end.

End mtasts.
