(* ===== verification/Dane.v ===== *)
(** * Dane: DANE for SMTP (apps/delivery/src/policy/dane.ts)

    X.509 certificates, their public keys, and the hash functions are those of [node:crypto]: the class
    [Certificates] has the operations the source calls. *)
From S2P Require Import Prelude JsString DnsName DnsWire DnsResolver DnsMx.

Class Certificates := {
  Certificate : Type;
  PublicKey : Type;
  certRaw : Certificate -> bytes;
  certSpki : Certificate -> bytes;
  publicKey : Certificate -> PublicKey;
  createPublicKey : bytes -> option PublicKey;
  checkHost : Certificate -> jsstr -> bool;
  checkIssued : Certificate -> Certificate -> bool;
  verifySigned : Certificate -> PublicKey -> bool;
  validFrom : Certificate -> Z;
  validTo : Certificate -> Z;
  fingerprint256 : Certificate -> jsstr;
  sha256 : bytes -> bytes;
  sha512 : bytes -> bytes
}.

Record TlsaRecord := mkTlsa { ta_usage : Z; ta_selector : Z; ta_matchingType : Z; ta_data : bytes }.

Inductive DaneLookup := DaneRecords (records : list TlsaRecord) | DaneNone (reason : jsstr) | DaneUnusableHost (reason : jsstr).

Definition DIGEST_LENGTH (matchingType : Z) : option nat := if matchingType =? 1 then Some 32%nat else if matchingType =? 2 then Some 64%nat else None.

Definition isUsableTlsa (r : TlsaRecord) : bool :=
  if negb (ta_usage r =? 2) && negb (ta_usage r =? 3) then false
  else if negb (ta_selector r =? 0) && negb (ta_selector r =? 1) then false
  else if ta_matchingType r =? 0 then (0 <? length (ta_data r))%nat
  else match DIGEST_LENGTH (ta_matchingType r) with Some expected => (length (ta_data r) =? expected)%nat | None => false end.

Definition tlsaOf (rr : DnsAnswer) : option TlsaRecord :=
  match an_data rr with KindTLSA usage selector matchingType data => Some (mkTlsa usage selector matchingType data) | _ => None end.

Definition describeRecord (r : TlsaRecord) : jsstr := dec (ta_usage r) ++ [SP] ++ dec (ta_selector r) ++ [SP] ++ dec (ta_matchingType r).

Section lookup.
Context `{R : Runtime}.

(** [port = 25]. *)
Definition tlsaName (mxHost : jsstr) : jsstr := js "_25._tcp." ++ dropRootDot (toLowerCase mxHost).

(** [inl] carries the message of what the lookup throws. *)
Definition lookupDane (tlsa : jsstr -> DnsError + ResolverResult) (errorText : DnsError -> jsstr) (mxHost : jsstr) (hostSecure : bool) : DaneLookup :=
  if negb hostSecure then DaneNone (js "MX or address records not DNSSEC-validated")
  else
    let name := tlsaName mxHost in
    match tlsa name with
    | inl e =>
        let why := match e with DnsServfailError _ _ => js "SERVFAIL (possibly DNSSEC-bogus)" | _ => errorText e end in
        DaneUnusableHost (js "TLSA lookup for " ++ name ++ js " failed: " ++ why)
    | inr result =>
        if negb (r_rcode result =? RCode.NOERROR) && negb (r_rcode result =? RCode.NXDOMAIN) then
          DaneUnusableHost (js "TLSA lookup for " ++ name ++ js " answered rcode " ++ dec (r_rcode result))
        else if negb (r_ad result) then DaneNone (js "TLSA answer for " ++ name ++ js " not DNSSEC-validated")
        else
          match omap tlsaOf (r_answers result) with
          | [] => DaneNone (js "no TLSA records at " ++ name)
          | records =>
              match List.filter isUsableTlsa records with
              | [] => DaneNone (js "all " ++ dec (Z.of_nat (length records)) ++ js " TLSA record(s) at " ++ name ++ js " unusable")
              | usable => DaneRecords usable
              end
          end
    end.

End lookup.

Section verify.
Context `{X : Certificates}.

Definition selected (cert : Certificate) (selector : Z) : bytes := if selector =? 0 then certRaw cert else certSpki cert.

Definition digest (octets : bytes) (matchingType : Z) : bytes :=
  if matchingType =? 1 then sha256 octets else if matchingType =? 2 then sha512 octets else octets.

Definition tlsaMatches (record : TlsaRecord) (cert : Certificate) : bool :=
  bool_decide (digest (selected cert (ta_selector record)) (ta_matchingType record) = ta_data record).

(** A certificate as the socket shows it: its fingerprint, what its octets parse to or the message of the error
    they throw, and the next one. *)
Inductive PeerCertificate := NoCertificate | PeerCert (fingerprint : jsstr) (cert : jsstr + Certificate) (issuer : PeerCertificate).

(** A self-signed root is its own issuer: its fingerprint has been seen, so the walk of the finite unfolding
    ends there like the source's. *)
Fixpoint peerChainFrom (seen : list jsstr) (cert : PeerCertificate) : jsstr + list Certificate :=
  match cert with
  | NoCertificate => inr []
  | PeerCert fp c issuer =>
      if bool_decide (fp ∈ seen) then inr []
      else
        match c with
        | inl e => inl e
        | inr c => match peerChainFrom (fp :: seen) issuer with inl e => inl e | inr chain => inr (c :: chain) end
        end
  end.

Definition peerChain (cert : PeerCertificate) : jsstr + list Certificate := peerChainFrom [] cert.

Definition DaneVerdict : Type := jsstr + jsstr.

Definition withinValidity (cert : Certificate) (now : Z) : bool := (validFrom cert <=? now) && (now <=? validTo cert).

Definition notValidFor (names : list jsstr) : jsstr := js ", but the certificate is not valid for " ++ joinWith (js " or ") names.

(** The bare trust-anchor keys: the first that signed the certificate. *)
Definition keySigned (cert : Certificate) (r : TlsaRecord) : bool :=
  (ta_selector r =? 1) && (ta_matchingType r =? 0) && match createPublicKey (ta_data r) with Some key => verifySigned cert key | None => false end.

(** The loop up the chain, from certificate [i] on: a verdict, or whether the chain verified as far as it went. *)
Fixpoint walkChain (taRecords : list TlsaRecord) (names : list jsstr) (nameOk : bool) (now : Z) (i : nat) (chain : list Certificate) (chainOk : bool) : DaneVerdict + bool :=
  if negb chainOk then inr false
  else
    match chain with
    | [] => inr true
    | cert :: rest =>
        match (if (0 <? i)%nat then List.find (fun r => tlsaMatches r cert) taRecords else None) with
        | Some matched =>
            inl (if negb nameOk then inl (js "DANE-TA " ++ describeRecord matched ++ js " matched" ++ notValidFor names)
                 else inr (js "DANE-TA " ++ describeRecord matched ++ js " matched chain certificate " ++ dec (Z.of_nat i)))
        | None =>
            match List.find (keySigned cert) taRecords with
            | Some r =>
                inl (if negb nameOk then inl (js "DANE-TA " ++ describeRecord r ++ js " key signed the chain" ++ notValidFor names)
                     else inr (js "DANE-TA " ++ describeRecord r ++ js " key signed chain certificate " ++ dec (Z.of_nat i)))
            | None =>
                match rest with
                | [] => inr true
                | issuer :: _ => walkChain taRecords names nameOk now (S i) rest (checkIssued cert issuer && verifySigned cert (publicKey issuer) && withinValidity issuer now)
                end
            end
        end
    end.

(** [inl] is the reason of a refusal, [inr] the detail of an acceptance. *)
Definition verifyDane (records : list TlsaRecord) (chain : list Certificate) (names : list jsstr) (now : Z) : DaneVerdict :=
  match chain with
  | [] => inl (js "DANE: the server presented no certificate")
  | leaf :: _ =>
      match List.find (fun r => (ta_usage r =? 3) && tlsaMatches r leaf) records with
      | Some r => inr (js "DANE-EE " ++ describeRecord r ++ js " matched the leaf")
      | None =>
          let refuse (taReason : jsstr) : DaneVerdict :=
            inl (js "DANE: no TLSA record (" ++ joinWith (js ", ") (describeRecord <$> records) ++ js ") matched the presented certificate (leaf SHA-256 "
                 ++ fingerprint256 leaf ++ js ")" ++ taReason) in
          match List.filter (fun r => ta_usage r =? 2) records with
          | [] => refuse []
          | taRecords =>
              match walkChain taRecords names (existsb (checkHost leaf) names) now 0 chain (withinValidity leaf now) with
              | inl verdict => verdict
              | inr chainOk => refuse (if chainOk then js "; no DANE-TA record matched the chain" else js "; the chain did not verify up to a DANE-TA match")
              end
          end
      end
  end.

End verify.
