(* ===== verification/DirectTransport.v ===== *)
(** * DirectTransport: outbound TLS policy and the direct MX transport

    apps/delivery/src/policy/index.ts and client/transport.ts. Everything the attempt meets is a parameter
    ([Env]): the answers of the resolver, what the policy cache held, the HTTPS exchange, the result of each
    dial, the servers, and at which waits the attempt's signal had fired. Logging is left out. *)
From S2P Require Import Prelude JsString Utf8 DnsName DnsWire DnsResolver DnsMx SmtpReply SmtpClient DeliveryState JobQueue DeliveryQueue MtaSts Dane.

(** ** policy/index.ts *)

Inductive TlsPolicy :=
| PolOpportunistic (note : option jsstr)
| PolTesting (policyId : jsstr) (mxMatches : bool)
| PolEnforce (policyId : jsstr)
| PolDane (records : list TlsaRecord) (names : list jsstr).

Definition policyKind (p : TlsPolicy) : TlsPolicyKind :=
  match p with PolOpportunistic _ => PkOpportunistic | PolTesting _ _ => PkMtaStsTesting | PolEnforce _ => PkMtaStsEnforce | PolDane _ _ => PkDane end.

Inductive HostDecision := UseHost (policy : TlsPolicy) | SkipHost (kind : TlsPolicyKind) (reason : jsstr).

Section policy.
Context `{R : Runtime}.

Definition bareName (name : jsstr) : jsstr := dropRootDot (toLowerCase name).

Fixpoint hostSecure (host : jsstr) (hosts : list (jsstr * bool)) : bool :=
  match hosts with [] => false | (h, b) :: rest => if bool_decide (h = host) then b else hostSecure host rest end.

Definition decideUncached (daneOn : bool) (tlsa : jsstr -> DnsError + ResolverResult) (domain : jsstr) (dnssec : MxDnssec) (mtaSts : MtaStsLookup) (host : jsstr)
    : HostDecision :=
  let bySts (daneNote : option jsstr) : HostDecision :=
    match mtaSts with
    | StsPolicy id policy _ =>
        match po_mode policy with
        | Enforce =>
            if mxMatchesPolicy host policy then UseHost (PolEnforce id)
            else SkipHost PkMtaStsEnforce (js "MX " ++ bareName host ++ js " is not in the MTA-STS policy for " ++ domain ++ js " (mx: " ++ joinWith (js ", ") (po_mx policy) ++ js ")")
        | Testing => UseHost (PolTesting id (mxMatchesPolicy host policy))
        | NoneMode => UseHost (PolOpportunistic daneNote)
        end
    | StsNone _ => UseHost (PolOpportunistic daneNote)
    end in
  if daneOn then
    match lookupDane tlsa dnsErrorText host (md_mx dnssec && hostSecure host (md_hosts dnssec)) with
    | DaneRecords records => UseHost (PolDane records [bareName host; bareName domain])
    | DaneUnusableHost reason => SkipHost PkDane reason
    | DaneNone reason => bySts (Some reason)
    end
  else bySts None.

(** [decide]: the decisions made so far, by bare name. *)
Definition Memo := list (jsstr * HostDecision).

Fixpoint memoGet (key : jsstr) (memo : Memo) : option HostDecision :=
  match memo with [] => None | (k, d) :: rest => if bool_decide (k = key) then Some d else memoGet key rest end.

Definition decide_host (uncached : jsstr -> HostDecision) (host : jsstr) (memo : Memo) : HostDecision * Memo :=
  match memoGet (bareName host) memo with
  | Some d => (d, memo)
  | None => let d := uncached host in (d, (bareName host, d) :: memo)
  end.

Context `{X : Certificates} (peerCertificate : TlsInfo -> PeerCertificate) (serverIdentity : TlsInfo -> jsstr -> option jsstr).

(** [serverIdentity] is the message of the error of [tls.checkServerIdentity], when it finds one. *)
Definition webPki (secure : TlsInfo) (host : jsstr) : bool * jsstr :=
  if negb (tls_authorized secure) then (false, js "certificate did not verify: " ++ tls_authorizationError secure)
  else
    match serverIdentity secure (bareName host) with
    | Some message => (false, js "certificate not valid for " ++ bareName host ++ js ": " ++ message)
    | None => (true, js "certificate valid for " ++ bareName host)
    end.

Definition verifyPeer (now : Z) (policy : TlsPolicy) (secure : TlsInfo) (host : jsstr) : bool * jsstr :=
  match policy with
  | PolDane records names =>
      match peerChain (peerCertificate secure) with
      | inl e => (false, js "DANE: unreadable peer certificate: " ++ e)
      | inr chain => match verifyDane records chain names now with inr detail => (true, detail) | inl reason => (false, reason) end
      end
  | PolEnforce _ => webPki secure host
  | PolTesting _ mxMatches =>
      let verdict := webPki secure host in
      if negb mxMatches then
        (false, js "MX " ++ bareName host ++ js " is not in the MTA-STS policy" ++ (if fst verdict then [] else js "; " ++ snd verdict))
      else verdict
  | PolOpportunistic _ =>
      if tls_authorized secure then (true, js "opportunistic; certificate verified") else (false, js "opportunistic; " ++ tls_authorizationError secure)
  end.

(** ** client/transport.ts *)

(** The waits of [deliver]. *)
Inductive AbortPoint := AtStart | Resolving | Planning | Deciding (host : jsstr) | BeforeCandidate (i : nat).

Record DirectOptions := mkDirect { do_ipv4Only : bool; do_maxAddresses : nat; do_cfg : SessionConfig; do_mtaSts : option StsOptions; do_dane : bool }.

Record Env := mkEnv {
  e_now : Z; e_mx : DnsMx.Resolver; e_pick : nat -> nat -> nat; e_sts : StsResolver; e_get : jsstr -> jsstr -> HttpOutcome; e_tlsa : jsstr -> DnsError + ResolverResult;
  e_cached : option CachedMtaStsPolicy; e_abort : AbortPoint -> option jsstr; e_isIP : jsstr -> Z;
  e_connect : nat -> jsstr + (option jsstr * Peer)
}.

(** A session that was held: with which host under which policy, and the connection after it and after QUIT. *)
Record Dialled := mkDialled { dd_target : SmtpClient.Target; dd_policy : TlsPolicy; dd_conn : Conn; dd_quit : Conn }.

Definition everyone (request : DeliveryRequest) (outcome : AttemptOutcome) : Results := fold_left (fun rs r => resultSet (dl_id r) outcome rs) (rq_recipients request) [].

Definition answer (details : AttemptDetails) (results : Results) : DeliveryResult := mkResult details results None None.

(** The message of the error [raceAbort] rejects with. *)
Definition abortedText (reason : jsstr) : jsstr := clientError StConnect reason.

Definition usableAddress (o : DirectOptions) (env : Env) (ip : jsstr) : bool := if do_ipv4Only o then e_isIP env ip =? 4 else negb (e_isIP env ip =? 0).

Record Candidate := mkCandidate { cd_host : jsstr; cd_ip : jsstr; cd_policy : TlsPolicy }.

(** The loop over the targets: [inl] is the text of the error a decision rejects with, at its host. *)
Fixpoint collect (o : DirectOptions) (env : Env) (uncached : jsstr -> HostDecision) (targets : list MxTarget) (memo : Memo)
    (candidates : list Candidate) (skipped : list (TlsPolicyKind * jsstr)) : (jsstr * jsstr) + (list Candidate * list (TlsPolicyKind * jsstr)) :=
  match targets with
  | [] => inr (candidates, skipped)
  | target :: targets =>
      match List.filter (usableAddress o env) (mt_addresses target) with
      | [] => collect o env uncached targets memo candidates skipped
      | addresses =>
          match e_abort env (Deciding (mt_host target)) with
          | Some reason => inl (mt_host target, abortedText reason)
          | None =>
              let '(decision, memo) := decide_host uncached (mt_host target) memo in
              match decision with
              | SkipHost kind reason => collect o env uncached targets memo candidates (skipped ++ [(kind, reason)])
              | UseHost policy => collect o env uncached targets memo (candidates ++ ((fun ip => mkCandidate (mt_host target) ip policy) <$> addresses)) skipped
              end
          end
      end
  end.

Definition candidateTarget (c : Candidate) : SmtpClient.Target := SmtpClient.mkTarget (cd_host c) (cd_ip c) (Some (policyKind (cd_policy c))).

Definition isOpportunistic (p : TlsPolicy) : bool := match p with PolOpportunistic _ => true | _ => false end.

(** The loop over the candidates; the sessions held so far come first. *)
Fixpoint tryCandidates (o : DirectOptions) (env : Env) (request : DeliveryRequest) (i : nat) (cs : list Candidate) (details : AttemptDetails) (last : AttemptOutcome)
    (dialled : list Dialled) : DeliveryResult * list Dialled :=
  match cs with
  | [] => (answer details (everyone request last), dialled)
  | c :: cs =>
      match e_abort env (BeforeCandidate i) with
      | Some reason => (answer details (everyone request (OError (js "aborted: " ++ reason))), dialled)
      | None =>
          let tlsPeer := if isOpportunistic (cd_policy c) then None else Some (describePolicy (policyKind (cd_policy c)) false (js "no TLS session established")) in
          let details := mkDetails (Some (cd_host c)) (Some (cd_ip c)) None None None tlsPeer in
          match e_connect env i with
          | inl e => tryCandidates o env request (S i) cs details (OError (atTarget (candidateTarget c) e)) dialled
          | inr (localIp, peer) =>
              let details := mkDetails (Some (cd_host c)) (Some (cd_ip c)) localIp None None tlsPeer in
              let '(session, conn) := runSession peer (fun _ => verifyPeer (e_now env) (cd_policy c)) (candidateTarget c) request (do_cfg o) (newConn details) in
              let dialled := dialled ++ [mkDialled (candidateTarget c) (cd_policy c) conn (quitInBackground peer (do_cfg o) conn)] in
              match session with
              | Definitive results =>
                  (answer (cn_details conn) (fold_left (fun rs '(id, o) => resultSet id o rs) results (everyone request (OError (js "no outcome recorded")))), dialled)
              | NextMx outcome => tryCandidates o env request (S i) cs (cn_details conn) outcome dialled
              end
          end
      end
  end.

(** Once the MX hosts and the domain's policy are known. *)
Definition deliverTo (o : DirectOptions) (env : Env) (domain : jsstr) (request : DeliveryRequest) (targets : list MxTarget) (dnssec : MxDnssec) (mtaSts : MtaStsLookup)
    : DeliveryResult * list Dialled :=
  match collect o env (decideUncached (do_dane o) (e_tlsa env) domain dnssec mtaSts) targets [] [] [] with
  | inl (host, e) => (answer noDetails (everyone request (OError (js "TLS policy for " ++ host ++ js ": " ++ e))), [])
  | inr ([], skipped) =>
      match rev skipped with
      | (kind, _) :: _ =>
          let reasons := joinWith (js " | ") (snd <$> skipped) in
          (answer (mkDetails None None None None None (Some (describePolicy kind false reasons)))
             (everyone request (OTemporary None (Some (js "4.7.5")) (Some (js "no usable MX for " ++ domain ++ js " under its TLS policy: " ++ reasons)))), [])
      | [] => (answer noDetails (everyone request (OError (js "no " ++ (if do_ipv4Only o then js "IPv4 " else []) ++ js "address for any MX of " ++ domain))), [])
      end
  | inr (candidates, _) => tryCandidates o env request 0 (take (do_maxAddresses o) candidates) noDetails (OError (js "no MX tried")) []
  end.

(** The domain's MTA-STS policy, and the entry to store. *)
Definition planSts (o : DirectOptions) (env : Env) (domain : jsstr) : MtaStsLookup * option CachedMtaStsPolicy :=
  match do_mtaSts o with
  | None => (StsNone (js "MTA-STS disabled"), None)
  | Some so => lookupMtaSts (e_sts env) (e_get env) so domain (e_now env) (e_cached env)
  end.

(** [deliver]: the result and the sessions held. *)
Definition deliver (o : DirectOptions) (env : Env) (domain : jsstr) (request : DeliveryRequest) : DeliveryResult * list Dialled :=
  let all (outcome : AttemptOutcome) : DeliveryResult * list Dialled := (answer noDetails (everyone request outcome), []) in
  match e_abort env AtStart with
  | Some reason => all (OError (js "aborted: " ++ reason))
  | None =>
      match (match e_abort env Resolving with Some reason => inl (DnsOther (abortedText reason)) | None => resolveMxTargets (e_mx env) domain (do_ipv4Only o) (e_pick env) end) with
      | inl e =>
          all (OError (match e with
                       | DnsServfailError _ _ => js "DNS SERVFAIL resolving MX for " ++ domain ++ js ": " ++ dnsErrorText e
                       | _ => js "resolving MX for " ++ domain ++ js ": " ++ dnsErrorText e
                       end))
      | inr MxNull => all (OPermanent 556 (Some (js "5.1.10")) (domain ++ js " does not accept mail (null MX)"))
      | inr (MxPermanent reason) =>
          if bool_decide (reason = js "nxdomain") then all (OPermanent 550 (Some (js "5.1.2")) (domain ++ js " does not exist"))
          else if bool_decide (reason = js "no-mx-no-address") then all (OPermanent 550 (Some (js "5.1.2")) (domain ++ js " has no MX and no address"))
          else all (OError (js "resolving MX for " ++ domain ++ js ": " ++ reason))
      | inr (MxFound targets dnssec) | inr (MxImplicit targets dnssec) =>
          match e_abort env Planning with
          | Some reason => all (OError (js "TLS policy for " ++ domain ++ js ": " ++ abortedText reason))
          | None => deliverTo o env domain request targets dnssec (fst (planSts o env domain))
          end
      end
  end.

End policy.
