(* ===== verification/DirectTransportProofs.v ===== *)
(** * DirectTransportProofs: TLS policies are kept and an attempt is one transaction

    What DANE accepts, that a cached MTA-STS policy cannot be stripped, and what the sessions of an attempt
    amount to, from the theorems about a single session. *)
From S2P Require Import Prelude JsString Utf8 DnsName DnsWire DnsResolver DnsMx SmtpReply SmtpLineReaderProofs SmtpClient SmtpClientProofs DeliveryState.
From S2P Require Import JobQueue DeliveryQueue MtaSts Dane DirectTransport.

(** ** DANE *)

Section dane.
Context `{X : Certificates}.

(** A trust-anchor record vouches for [top]: for one above the leaf it may match it, for any its key may have
    signed it. *)
Definition anchors (leafOnly : bool) (r : TlsaRecord) (top : Certificate) : Prop :=
  ta_usage r = 2 /\ (leafOnly = false /\ tlsaMatches r top = true \/ keySigned top r = true).

(** Some certificate the chain verifies up to is vouched for; [atLeaf] says that the chain starts at the leaf. *)
Inductive anchored (now : Z) (records : list TlsaRecord) : bool -> list Certificate -> Prop :=
| anchored_here atLeaf r cert rest : r ∈ records -> anchors atLeaf r cert -> anchored now records atLeaf (cert :: rest)
| anchored_next atLeaf cert issuer rest :
    checkIssued cert issuer = true -> verifySigned cert (publicKey issuer) = true -> withinValidity issuer now = true ->
    anchored now records false (issuer :: rest) -> anchored now records atLeaf (cert :: issuer :: rest).

Definition accepts (v : DaneVerdict) : bool := match v with inr _ => true | inl _ => false end.

Lemma find_none {A} (p : A -> bool) l x : List.find p l = None -> x ∈ l -> p x = false.
Proof. intros H Hx. apply (find_none p l H). by apply list_elem_of_In. Qed.

Lemma find_some_elem {A} (p : A -> bool) l x : List.find p l = Some x -> x ∈ l /\ p x = true.
Proof. intros H. apply find_some in H as [H1 H2]. split; [by apply list_elem_of_In|done]. Qed.

Lemma walkChain_spec records names nameOk now : forall chain i chainOk,
  (forall r, r ∈ records -> ta_usage r = 2) ->
  match walkChain records names nameOk now i chain chainOk with
  | inl v => accepts v = nameOk /\ chainOk = true /\ anchored now records (i =? 0)%nat chain
  | inr _ => ~ (chainOk = true /\ anchored now records (i =? 0)%nat chain)
  end.
Proof.
  intros chain. induction chain as [|cert rest IH]; intros i chainOk Hta; cbn [walkChain].
  { destruct chainOk; cbn; [intros [_ H]; inversion H|by intros [? _]]. }
  destruct chainOk; cbn [negb]; [|by intros [? _]].
  set (matched := if (0 <? i)%nat then _ else None).
  assert (Hm : match matched with Some r => r ∈ records /\ (i =? 0)%nat = false /\ tlsaMatches r cert = true
               | None => (i =? 0)%nat = false -> forall r, r ∈ records -> tlsaMatches r cert = false end).
  { unfold matched. destruct i; [done|]. cbn. destruct (List.find _ records) eqn:E; [apply find_some_elem in E as [? ?]; done|]. intros _ r Hr. by apply (find_none _ _ _ E). }
  destruct matched as [r|].
  { destruct Hm as (Hr & Hi & Ht). split; [by destruct nameOk|]. split; [done|]. eapply anchored_here; [exact Hr|]. split; [by apply Hta|]. by left. }
  destruct (List.find (keySigned cert) records) as [r|] eqn:Ek.
  { apply find_some_elem in Ek as [Hr Hk]. split; [by destruct nameOk|]. split; [done|]. eapply anchored_here; [exact Hr|]. split; [by apply Hta|]. by right. }
  assert (Hno : forall r, r ∈ records -> ~ anchors (i =? 0)%nat r cert).
  { intros r Hr [_ [[Hi Ht]|Hk]]; [by rewrite (Hm Hi r Hr) in Ht|]. by rewrite (find_none _ _ _ Ek Hr) in Hk. }
  destruct rest as [|issuer rest]; [intros [_ H]; inversion H; subst; by eapply Hno|].
  specialize (IH (S i) (checkIssued cert issuer && verifySigned cert (publicKey issuer) && withinValidity issuer now) Hta).
  destruct (walkChain _ _ _ _ _ _ _) as [v|b]; cbn [Nat.eqb] in IH.
  - destruct IH as (H1 & [[H2 H3]%andb_true_iff H4]%andb_true_iff & H5). split; [done|]. split; [done|]. by apply anchored_next.
  - intros [_ H]. apply IH. inversion H; subst; [exfalso; by eapply Hno|]. split; [|done]. rewrite !andb_true_iff. done.
Qed.

(** C17: DANE accepts a server exactly when a DANE-EE record matches its leaf, or its certificate is valid for
    one of the names and within its dates and a DANE-TA record vouches for a certificate, above the leaf or by
    having signed it, up to which every certificate was issued and signed by a valid next one. *)
Theorem dane_accepts_iff records chain names now leaf rest :
  chain = leaf :: rest ->
  accepts (verifyDane records chain names now) = true <->
  (exists r, r ∈ records /\ ta_usage r = 3 /\ tlsaMatches r leaf = true) \/
  (existsb (checkHost leaf) names = true /\ withinValidity leaf now = true /\ anchored now (List.filter (fun r => ta_usage r =? 2) records) true chain).
Proof.
  intros ->. unfold verifyDane. destruct (List.find _ records) as [r|] eqn:E3.
  { apply find_some_elem in E3 as [Hr [Hu Ht]%andb_true_iff]. apply Z.eqb_eq in Hu. split; [|done]. intros _. left. by exists r. }
  assert (Hno3 : ~ exists r, r ∈ records /\ ta_usage r = 3 /\ tlsaMatches r leaf = true).
  { intros (r & Hr & Hu & Ht). pose proof (find_none _ _ _ E3 Hr) as Hf. cbn in Hf. by rewrite Hu, Ht in Hf. }
  set (tas := List.filter _ records). assert (Hta : forall r, r ∈ tas -> ta_usage r = 2).
  { intros r Hr. apply list_elem_of_In, List.filter_In in Hr as [_ Hr]. by apply Z.eqb_eq. }
  destruct tas as [|ta tas'] eqn:Et.
  { cbn. split; [done|]. intros [?|(_ & _ & H)]; [done|]. exfalso. remember true as b. clear -H. induction H as [b r c l Hr _|]; [by apply not_elem_of_nil in Hr|done]. }
  rewrite <- Et in Hta |- *. clear Et. pose proof (walkChain_spec tas names (existsb (checkHost leaf) names) now (leaf :: rest) 0 (withinValidity leaf now) Hta) as H.
  destruct (walkChain _ _ _ _ _ _ _) as [v|b]; cbn [Nat.eqb] in H.
  - destruct H as (-> & Hv & Ha). split; [intros Hn; by right|]. by intros [?|(? & _)].
  - cbn. split; [done|]. intros [?|(_ & Hv & Ha)]; [done|]. by exfalso; apply H.
Qed.

End dane.

(** ** MTA-STS *)

Section sts.
Context `{R : Runtime}.

(** C16: While a cached policy has not expired, no DNS answer, HTTPS answer or failure makes the lookup come up
    without a policy: it is the cached one, or a policy that parses, was fetched from the policy host, and is
    announced under another id. *)
Theorem sts_policy_not_stripped resolver get o domain now c :
  now < cp_expiresAt c ->
  let name := bare domain in
  let result := lookupMtaSts resolver get o domain now (Some c) in
  result = (StsPolicy (cp_id c) (cp_policy c) FromCache, None) \/
  exists id text policy, stsId resolver name = inr id /\ id <> cp_id c /\ fetchPolicyText resolver get o (js "mta-sts." ++ name) = inr text /\
    parsePolicy text = inr policy /\ result = (StsPolicy id policy Fetched, Some (mkCached id policy now (now + po_maxAge policy * 1000))).
Proof.
  intros Hc. cbv zeta. unfold lookupMtaSts. rewrite (proj2 (Z.ltb_lt _ _) Hc). destruct (stsId resolver (bare domain)) as [why|id] eqn:Ei; [by left|].
  cbn [fmap option_fmap option_map]. case_bool_decide as Hid; [by left|].
  destruct (fetchPolicyText resolver get o (js "mta-sts." ++ bare domain)) as [e|text] eqn:Ef; [by left|].
  destruct (parsePolicy text) as [e|policy] eqn:Ep; [by left|]. right. exists id, text, policy. split_and!; [done|congruence|done..].
Qed.

(** The policy the transport goes by, when the cache holds one in force. *)
Lemma mxMatches_bare host host' policy : bareName host = bareName host' -> mxMatchesPolicy host policy = mxMatchesPolicy host' policy.
Proof.
  unfold bareName. intros H. unfold mxMatchesPolicy. induction (po_mx policy) as [|p l IH]; [done|]. cbn [existsb]. rewrite IH. f_equal.
  unfold mxMatchesPattern, bare. by rewrite H.
Qed.

End sts.

(** ** The transport *)

Section transport.
Context `{R : Runtime} `{X : Certificates} (peerCertificate : TlsInfo -> PeerCertificate) (serverIdentity : TlsInfo -> jsstr -> option jsstr).
Context (o : DirectOptions) (env : Env) (request : DeliveryRequest).

(** A fact about a host that depends on its bare name holds of every candidate when it holds of decisions. *)
Lemma collect_candidates (P : jsstr -> HostDecision -> Prop) uncached :
  (forall h h' d, bareName h = bareName h' -> P h d -> P h' d) -> (forall h, P h (uncached h)) ->
  forall targets memo candidates skipped cs sk,
  (forall k d, memoGet k memo = Some d -> forall h, bareName h = k -> P h d) -> Forall (fun c => P (cd_host c) (UseHost (cd_policy c))) candidates ->
  collect o env uncached targets memo candidates skipped = inr (cs, sk) -> Forall (fun c => P (cd_host c) (UseHost (cd_policy c))) cs.
Proof.
  intros Hb Hu. induction targets as [|t targets IH]; intros memo candidates skipped cs sk Hmemo Hc H; cbn [collect] in H; [by injection H as <- _|].
  destruct (List.filter _ _) as [|ip ips]; [by eapply IH|]. destruct (e_abort env _); [done|]. set (host := mt_host t) in *.
  assert (Hd : exists d memo', decide_host uncached host memo = (d, memo') /\
    P host d /\ forall k d, memoGet k memo' = Some d -> forall h, bareName h = k -> P h d).
  { unfold decide_host. destruct (memoGet (bareName host) memo) as [d|] eqn:E; [exists d, memo; split; [done|]; split; [by apply (Hmemo _ _ E)|done]|].
    eexists _, _. split; [reflexivity|]. split; [apply Hu|]. intros k d. cbn. case_bool_decide as Hk; [|apply Hmemo].
    intros [= <-] h Hh. apply (Hb host); [congruence|apply Hu]. }
  destruct Hd as (d & memo' & E & HP & Hmemo'). rewrite E in H. destruct d as [policy|kind reason]; (eapply IH; [exact Hmemo'| |exact H]); [|done].
  apply Forall_app. split; [done|]. apply Forall_fmap, Forall_forall. by intros x _.
Qed.

Definition heldWith (d : Dialled) (session : SessionResult) : Prop :=
  exists peer details, runSession peer (fun _ => verifyPeer peerCertificate serverIdentity (e_now env) (dd_policy d)) (dd_target d) request (do_cfg o) (newConn details) = (session, dd_conn d).

Definition untouched (d : Dialled) : Prop := Forall (preliminary (do_cfg o)) (cn_trace (dd_conn d)).

(** The sessions come from candidates; all but the last are about their server only. *)
Lemma tryCandidates_spec cs : forall i details last dialled res ds,
  isDelivered last = false -> tryCandidates peerCertificate serverIdentity o env request i cs details last dialled = (res, ds) ->
  exists new, ds = dialled ++ new /\
    Forall (fun d => exists c session, c ∈ cs /\ dd_target d = candidateTarget c /\ dd_policy d = cd_policy c /\ heldWith d session) new /\
    ((Forall untouched new /\ exists out, isDelivered out = false /\ dr_results res = everyone request out) \/
     exists before d results, new = before ++ [d] /\ Forall untouched before /\ heldWith d (Definitive results) /\
       dr_results res = fold_left (fun rs '(id, o) => resultSet id o rs) results (everyone request (OError (js "no outcome recorded")))).
Proof.
  induction cs as [|c cs IH]; intros i details last dialled res ds Hl H; cbn [tryCandidates] in H.
  { injection H as <- <-. exists []. rewrite app_nil_r. split; [done|]. split; [constructor|]. left. split; [constructor|]. exists last. by split. }
  assert (Hweak : forall new : list Dialled, Forall (fun d => exists c session, c ∈ cs /\ dd_target d = candidateTarget c /\ dd_policy d = cd_policy c /\ heldWith d session) new ->
    Forall (fun d => exists c' session, c' ∈ c :: cs /\ dd_target d = candidateTarget c' /\ dd_policy d = cd_policy c' /\ heldWith d session) new).
  { intros new F. eapply Forall_impl; [exact F|]. intros d (c' & s' & Hin & ?). exists c', s'. split; [by apply list_elem_of_further|done]. }
  destruct (e_abort env (BeforeCandidate i)) as [reason|].
  { injection H as <- <-. exists []. rewrite app_nil_r. split; [done|]. split; [constructor|]. left. split; [constructor|]. exists (OError (js "aborted: " ++ reason)). by split. }
  destruct (e_connect env i) as [e|[localIp peer]].
  { apply IH in H as (new & -> & F & Ho); [|done]. exists new. auto. }
  destruct (runSession _ _ _ _ _ _) as [session conn] eqn:Es. set (d := mkDialled _ _ conn _) in H.
  assert (Hheld : heldWith d session) by (eexists _, _; exact Es).
  assert (Hd : exists c' session, c' ∈ c :: cs /\ dd_target d = candidateTarget c' /\ dd_policy d = cd_policy c' /\ heldWith d session).
  { exists c, session. split; [apply list_elem_of_here|done]. }
  pose proof (session_result _ _ _ _ _ _ _ _ Es) as Hr. destruct session as [results|outcome].
  - injection H as <- <-. exists [d]. split; [done|]. split; [by apply Forall_singleton|]. right. exists [], d, results. split_and!; [done|constructor|done..].
  - destruct Hr as [Hu Hout]. apply IH in H as (new & -> & F & Ho); [|done]. exists (d :: new). rewrite <- app_assoc. split; [done|]. split; [apply Forall_cons; auto|].
    destruct Ho as [[Hun Ho]|(before & d' & results & -> & Hun & Hd' & Ho)]; [left; split; [by apply Forall_cons|done]|].
    right. exists (d :: before), d', results. split_and!; [done|by apply Forall_cons|done..].
Qed.

Lemma everyone_spec out : (forall r, r ∈ rq_recipients request -> answered (everyone request out) r) /\ outcomes (fun _ o => o = out) (everyone request out).
Proof.
  change (everyone request out) with (setResults (rq_recipients request) out []). split.
  - intros r Hr. apply setResults_answers. by left.
  - apply outcomes_setResults; done.
Qed.

Lemma merge_spec (results base : Results) :
  let merged := fold_left (fun rs '(id, o) => resultSet id o rs) results base in
  (forall r, answered base r -> answered merged r) /\
  forall id o, resultGet id merged = Some o -> resultGet id base = Some o \/ (id, o) ∈ results.
Proof.
  revert base. induction results as [|[k v] results IH]; intros base; cbn [fold_left]; [split; auto|]. destruct (IH (resultSet k v base)) as [H1 H2]. split.
  - intros r Hr. by apply H1, answered_set.
  - intros id out Ho. apply H2 in Ho as [Ho|Ho]; [|right; by apply list_elem_of_further]. rewrite resultGet_set in Ho. case_bool_decide as Hk; [|by left].
    injection Ho as <-. right. rewrite Hk. apply list_elem_of_here.
Qed.

(** Keys of the results of a session are distinct. *)
Definition distinct (results : Results) : Prop := NoDup (fst <$> results).

Lemma distinct_get (results : Results) id out : distinct results -> (id, out) ∈ results -> resultGet id results = Some out.
Proof.
  unfold distinct. induction results as [|[k v] results IH]; [intros _ H; by apply not_elem_of_nil in H|]. cbn. intros [Hk Hn]%NoDup_cons Hin.
  apply elem_of_cons in Hin as [[= <- <-]|Hin]; [by rewrite bool_decide_eq_true_2|]. rewrite bool_decide_eq_false_2; [by apply IH|].
  intros ->. apply Hk. apply list_elem_of_fmap. by exists (id, out).
Qed.

Lemma distinct_set id out results : distinct results -> distinct (resultSet id out results).
Proof.
  unfold distinct. induction results as [|[k v] results IH]; cbn; [intros _; apply NoDup_singleton|]. intros [Hk Hn]%NoDup_cons.
  case_bool_decide as E; cbn; apply NoDup_cons; [by subst|]. split; [|by apply IH]. intros Hin. apply Hk. clear -E Hin. induction results as [|[k' v'] l IH]; cbn in *.
  - apply list_elem_of_singleton in Hin. congruence.
  - case_bool_decide; cbn in Hin; [done|]. apply elem_of_cons in Hin as [->|Hin]; [apply list_elem_of_here|apply list_elem_of_further; auto].
Qed.

Lemma distinct_fold {A} (f : Results -> A -> Results) l : (forall rs a, distinct rs -> distinct (f rs a)) -> forall rs, distinct rs -> distinct (fold_left f l rs).
Proof. intros Hf. induction l as [|a l IH]; intros rs H; cbn; auto. Qed.

Lemma distinct_fill rs out results : distinct results -> distinct (fillResults rs out results).
Proof. apply distinct_fold. intros res r H. destruct (resultGet _ res); [done|by apply distinct_set]. Qed.

Lemma distinct_setResults acc out results : distinct results -> distinct (setResults acc out results).
Proof. apply distinct_fold. intros res r H. by apply distinct_set. Qed.

Lemma rcptLoop_distinct peer caps rs : forall acc results c r results' c',
  rcptLoop peer (do_cfg o) caps rs acc results c = (r, results', c') -> distinct results -> distinct results'.
Proof.
  induction rs as [|x rs IH]; intros acc results c r results' c' H Hd; cbn [rcptLoop] in H; [by injection H as _ <- _|].
  destruct (unsafeAddress _); [by eapply IH, distinct_set|]. match type of H with (let (_, _) := ?m in _) = _ => destruct m as [[e|reply] c1] end; [by injection H as _ <- _|].
  destruct (is2xx reply); [by eapply IH|]. by eapply IH, distinct_set.
Qed.

Lemma session_distinct peer v target c results c' :
  runSession peer v target request (do_cfg o) c = (Definitive results, c') -> distinct results.
Proof.
  assert (Hn : distinct []) by constructor. unfold runSession. destruct (prepare _ _ _ _ _ _) as [[e|[result|caps]] c0] eqn:Ep; [done| |].
  { intros [= -> <-]. destruct (prepare_result _ _ _ _ _ _ _ _ Ep) as [?|(out & _ & [= ->])]; [done|]. by apply distinct_fill. }
  unfold transaction. destruct (mailCommand _ _ _ _ _) as [[e|[result|]] c1] eqn:Em; [intros [= <- <-]; by apply distinct_fill| |].
  { intros [= -> <-]. apply mailCommand_spec in Em as (_ & _ & _ & _ & Hno). destruct (Hno _ eq_refl) as (out & _ & [= ->]). by apply distinct_fill. }
  unfold afterMail. destruct (rcptLoop _ _ _ _ _ _ _) as [[[e|acc] rs] c2] eqn:Er; (apply rcptLoop_distinct in Er; [|done]); [intros [= <- <-]; by apply distinct_fill|].
  destruct acc as [|a acc]; [by intros [= <- <-]|]. destruct (dataPhase _ _ _ _ _ _) as [[e|result] c3] eqn:Ed; [intros [= <- <-]; by apply distinct_fill|]. intros [= -> <-].
  apply dataPhase_spec in Ed as (l & _ & _ & Hres). destruct (Hres _ eq_refl) as [(out & _ & [= ->])|(? & ? & final & _ & _ & _ & [= ->])]; by apply distinct_setResults, distinct_set.
Qed.

(** The server of the last session took the message for the recipient, after sessions that were about their
    servers only. *)
Definition deliveredBy (ds : list Dialled) (id : jsstr) (out : AttemptOutcome) : Prop :=
  exists before d pre l r, ds = before ++ [d] /\ Forall untouched before /\ cn_trace (dd_conn d) = pre ++ l /\ Forall (preliminary (do_cfg o)) pre /\
    r ∈ rq_recipients request /\ dl_id r = id /\ acceptedIn request l r out.

(** What an attempt amounts to. *)
Definition oneTransaction (res : DeliveryResult) (ds : list Dialled) : Prop :=
  (forall r, r ∈ rq_recipients request -> is_Some (resultGet (dl_id r) (dr_results res))) /\
  (exists before final, ds = before ++ final /\ (length final <= 1)%nat /\ Forall untouched before) /\
  forall id out, resultGet id (dr_results res) = Some out -> isDelivered out = true -> deliveredBy ds id out.

Lemma everyone_one details out : isDelivered out = false -> oneTransaction (answer details (everyone request out)) [].
Proof.
  intros Ho. destruct (everyone_spec out) as [Ha Hq]. split; [done|]. split; [exists [], []; split; [done|]; split; [cbn; lia|constructor]|].
  intros id out' Hg Hd. apply Hq in Hg. congruence.
Qed.

Lemma tryCandidates_one cs i details last res ds :
  isDelivered last = false -> tryCandidates peerCertificate serverIdentity o env request i cs details last [] = (res, ds) -> oneTransaction res ds.
Proof.
  intros Hl H. apply tryCandidates_spec in H as (new & -> & _ & [[Hu (out & Ho & Hr)]|(before & d & results & -> & Hu & (peer & det & Hd) & Hr)]); [| |done]; cbn [app]; unfold oneTransaction; rewrite Hr.
  - destruct (everyone_spec out) as [Ha Hq]. split; [done|]. split; [exists new, []; rewrite app_nil_r; split; [done|]; split; [cbn; lia|done]|].
    intros id out' Hg Hd. apply Hq in Hg. congruence.
  - destruct (everyone_spec (OError (js "no outcome recorded"))) as [Ha Hq]. destruct (merge_spec results (everyone request (OError (js "no outcome recorded")))) as [M1 M2].
    split; [intros r Hr'; by apply M1, Ha|]. split; [exists before, [d]; split; [done|]; split; [cbn; lia|done]|].
    intros id out Hg Hdel. apply M2 in Hg as [Hg|Hg]; [apply Hq in Hg; by subst|]. apply distinct_get in Hg; [|by eapply session_distinct].
    destruct (session_delivered _ _ _ _ _ _ _ _ _ _ Hd Hg Hdel) as (pre & l & r & Ht & Hp & Hin & Hid & Hacc). exists before, d, pre, l, r. done.
Qed.

(** An attempt answers for every recipient, holds at most one transaction, in its last session, and
    reports delivered only what that session's server took. *)
Theorem attempt_is_one_transaction domain res ds : deliver peerCertificate serverIdentity o env domain request = (res, ds) -> oneTransaction res ds.
Proof.
  unfold deliver. intros H. destruct (e_abort env AtStart); [injection H as <- <-; by apply everyone_one|].
  destruct (match e_abort env Resolving with Some _ => _ | None => _ end) as [e|[targets dnssec|targets dnssec| |reason]]; [injection H as <- <-; by apply everyone_one| | | |].
  3: injection H as <- <-; by apply everyone_one.
  3: repeat (case_bool_decide; [injection H as <- <-; by apply everyone_one|]); injection H as <- <-; by apply everyone_one.
  all: destruct (e_abort env Planning); [injection H as <- <-; by apply everyone_one|]; unfold deliverTo in H.
  all: destruct (collect _ _ _ _ _ _ _) as [[h e]|[[|c cs] skipped]]; [injection H as <- <-; by apply everyone_one| |by eapply tryCandidates_one in H].
  all: destruct (rev skipped) as [|[kind why] sk]; injection H as <- <-; by apply everyone_one.
Qed.

(** ** No downgrade *)

(** A decision for a host under an enforced policy: DANE, or a host of the policy. *)
Definition strictFor (policy : MtaStsPolicy) (host : jsstr) (d : HostDecision) : Prop :=
  match d with
  | SkipHost _ _ => True
  | UseHost (PolDane _ _) => True
  | UseHost (PolEnforce _) => mxMatchesPolicy host policy = true
  | UseHost _ => False
  end.

Lemma decide_strict daneOn tlsa domain dnssec id policy source host :
  po_mode policy = Enforce -> strictFor policy host (decideUncached daneOn tlsa domain dnssec (StsPolicy id policy source) host).
Proof.
  intros Hm. unfold decideUncached. rewrite Hm.
  destruct daneOn; [destruct (lookupDane _ _ _ _); [done| |done]|]; (destruct (mxMatchesPolicy host policy) eqn:E; [exact E|exact I]).
Qed.

Lemma strict_bare policy h h' d : bareName h = bareName h' -> strictFor policy h d -> strictFor policy h' d.
Proof. intros Hb. destruct d as [[]|]; cbn; [done|done| |done|done]. by rewrite (mxMatches_bare h h' policy Hb). Qed.

(** The session was held under a mandatory policy with a host it allows, and nothing but greetings was sent
    before the peer was verified under it. *)
Definition enforced (policy : MtaStsPolicy) (d : Dialled) : Prop :=
  strictFor policy (tg_host (dd_target d)) (UseHost (dd_policy d)) /\
  exists pre post, cn_trace (dd_conn d) = pre ++ post /\ Forall (clear (do_cfg o)) pre /\
    (post <> [] -> exists info, Secured info ∈ pre /\ fst (verifyPeer peerCertificate serverIdentity (e_now env) (dd_policy d) info (tg_host (dd_target d))) = true).

Lemma deliverTo_enforced domain targets dnssec id policy source res ds :
  po_mode policy = Enforce -> deliverTo peerCertificate serverIdentity o env domain request targets dnssec (StsPolicy id policy source) = (res, ds) -> Forall (enforced policy) ds.
Proof.
  intros Hm. unfold deliverTo. destruct (collect _ _ _ _ _ _ _) as [[h e]|[[|c cs] skipped]] eqn:Ec; [intros [= <- <-]; constructor| |].
  { destruct (rev skipped) as [|[kind why] sk]; intros [= <- <-]; constructor. }
  apply (collect_candidates (strictFor policy)) in Ec; [|apply strict_bare|intros h; by apply decide_strict|done|constructor].
  intros H. apply tryCandidates_spec in H as (new & -> & F & _); [|done]. cbn [app]. eapply Forall_impl; [exact F|]. intros d (c' & session & Hc & Ht & Hp & peer & det & Hs).
  assert (Hst : strictFor policy (cd_host c') (UseHost (cd_policy c'))). { rewrite Forall_forall in Ec. apply Ec. by eapply elem_of_sublist, sublist_take. }
  unfold enforced. rewrite Ht in Hs |- *. rewrite Hp in Hs |- *. split; [done|].
  assert (Hmand : isMandatory (tg_policy (candidateTarget c')) = true) by (cbn; by destruct (cd_policy c')).
  destruct (session_tls _ _ _ _ _ _ _ _ (or_introl Hmand) Hs) as (pre & post & Htr & Fpre & Hj). exists pre, post. split; [done|]. split; [done|].
  intros Hne. destruct (Hj Hne) as (info & Hin & Hv & _). exists info. split; [done|]. apply (Hv (policyKind (cd_policy c'))); [done|]. by destruct (cd_policy c').
Qed.

(** C15: While a domain's MTA-STS policy in force is in enforce mode, every session of an attempt is with a
    host that matches the policy, or under DANE, and nothing but greetings is sent in it before a TLS peer that
    was verified under that host's policy: neither the servers nor the DNS can talk the transport down. *)
Theorem enforced_policy_no_downgrade domain id policy source res ds :
  fst (planSts o env domain) = StsPolicy id policy source -> po_mode policy = Enforce ->
  deliver peerCertificate serverIdentity o env domain request = (res, ds) -> Forall (enforced policy) ds.
Proof.
  intros Hp Hm H. unfold deliver in H. rewrite Hp in H. destruct (e_abort env AtStart); [injection H as <- <-; constructor|].
  destruct (match e_abort env Resolving with Some _ => _ | None => _ end) as [e|[targets dnssec|targets dnssec| |reason]]; [injection H as <- <-; constructor| | | |].
  3: injection H as <- <-; constructor.
  3: repeat (case_bool_decide; [injection H as <- <-; constructor|]); injection H as <- <-; constructor.
  all: destruct (e_abort env Planning); [injection H as <- <-; constructor|]; by eapply deliverTo_enforced.
Qed.

End transport.

(** ** An attempt under an enforced policy

    The domain's TXT record is gone, the cached policy is not: mail goes to the MX the policy names. *)

Definition certs : Certificates := {|
  Certificate := bool; PublicKey := unit; certRaw _ := []; certSpki c := [if c then 1 else 2]; publicKey _ := tt; createPublicKey _ := None; checkHost _ _ := true;
  checkIssued _ _ := true; verifySigned _ _ := true; validFrom _ := 0; validTo _ := 10; fingerprint256 _ := []; sha256 b := b; sha512 b := b
|}.

Lemma dane_accepts_iff_witness : accepts (verifyDane (X := certs) [mkTlsa 3 1 0 [1]] [true] [js "mx.example"] 5) = true.
Proof.
  apply (dane_accepts_iff (X := certs) [mkTlsa 3 1 0 [1]] [true] [js "mx.example"] 5 true []); [reflexivity|].
  left. exists (mkTlsa 3 1 0 [1]). split; [apply list_elem_of_here|]. split; [reflexivity|]. vm_compute. reflexivity.
Defined.

Definition cached_policy : CachedMtaStsPolicy := mkCached (js "1") (mkPolicy Enforce [js "mx.example"] 86400) 0 86400000.
Definition noRecords : DnsError + ResolverResult := inr (DnsResolver.mkResult RCode.NXDOMAIN false [] []).
Definition stripped_sts : StsResolver := mkStsResolver (fun _ => noRecords) (fun _ => noRecords) (fun _ => noRecords).
Definition sts_options : StsOptions := mkStsOptions None None None.

Lemma sts_policy_not_stripped_witness :
  fst (lookupMtaSts (R := demo_runtime) stripped_sts (fun _ _ => HttpTimeout) sts_options (js "example.net") 5 (Some cached_policy)) =
  StsPolicy (js "1") (mkPolicy Enforce [js "mx.example"] 86400) FromCache.
Proof.
  destruct (sts_policy_not_stripped (R := demo_runtime) stripped_sts (fun _ _ => HttpTimeout) sts_options (js "example.net") 5 cached_policy) as [H|(id & text & policy & Hi & _)].
  - vm_compute. reflexivity.
  - by rewrite H.
  - vm_compute in Hi. discriminate Hi.
Defined.

Definition mx_answers : DnsMx.Resolver := DnsMx.mkResolver
  (fun _ => inr (DnsResolver.mkResult 0 false [mkAnswer (js "example.net") 60 15 1 (KindMX 10 (js "mx.example"))] []))
  (fun _ => inr (DnsResolver.mkResult 0 false [mkAnswer (js "mx.example") 60 1 1 (KindA (js "192.0.2.1"))] [])) (fun _ => noRecords).

Definition demo_env : Env := mkEnv 5 mx_answers (fun _ _ => 0%nat) stripped_sts (fun _ _ => HttpTimeout) (fun _ => noRecords) (Some cached_policy)
  (fun _ => None) (fun _ => 4) (fun _ => inr (None, demo_peer)).

Definition demo_options : DirectOptions := mkDirect true 5 demo_config (Some sts_options) true.

Definition demo_attempt : DeliveryResult * list Dialled :=
  deliver (R := demo_runtime) (X := certs) (fun _ => NoCertificate) (fun _ _ => None) demo_options demo_env (js "example.net") (demo_request None).

Lemma attempt_is_one_transaction_witness :
  exists before d pre l r, demo_attempt.2 = before ++ [d] /\ Forall (untouched demo_options) before /\ cn_trace (dd_conn d) = pre ++ l /\
    Forall (preliminary demo_config) pre /\ r ∈ rq_recipients (demo_request None) /\ dl_id r = js "r1" /\ acceptedIn (demo_request None) l r demo_outcome.
Proof.
  apply (attempt_is_one_transaction (R := demo_runtime) (X := certs) (fun _ => NoCertificate) (fun _ _ => None) demo_options demo_env (demo_request None) (js "example.net")
    demo_attempt.1 demo_attempt.2).
  - vm_compute. reflexivity.
  - vm_compute. reflexivity.
  - reflexivity.
Defined.

Lemma enforced_policy_no_downgrade_witness : Forall (enforced (R := demo_runtime) (X := certs) (fun _ => NoCertificate) (fun _ _ => None) demo_options demo_env (cp_policy cached_policy)) demo_attempt.2 /\ length demo_attempt.2 = 1%nat.
Proof.
  split; [|vm_compute; reflexivity].
  apply (enforced_policy_no_downgrade (R := demo_runtime) (X := certs) (fun _ => NoCertificate) (fun _ _ => None) demo_options demo_env (demo_request None) (js "example.net")
    (js "1") (cp_policy cached_policy) FromCache demo_attempt.1).
  - vm_compute. reflexivity.
  - reflexivity.
  - vm_compute. reflexivity.
Defined.
