(* ===== verification/ImapSequence.v ===== *)
(** * ImapSequence: sequence sets of [imap-proto/src/sequence.ts] and their theorems

    A set is the saved result ([$]) or a list of ranges whose bounds are numbers or [*]. *)
From S2P Require Import Prelude JsString JsStringFacts.
From Stdlib Require Import Sorted.

Inductive SeqNumber := SeqStar | SeqNum (n : Z).
#[export] Instance SeqNumber_eq_dec : EqDecision SeqNumber.
Proof. solve_decision. Defined.

Record SeqRange := mkSeqRange { sr_from : SeqNumber; sr_to : SeqNumber }.
#[export] Instance SeqRange_eq_dec : EqDecision SeqRange.
Proof. solve_decision. Defined.

Inductive SequenceSet := SeqSaved | SeqRanges (ranges : list SeqRange).

Definition MAX_NZ_NUMBER : Z := 0xffffffff.

(** ** Text *)

Definition formatSeqNumber (n : SeqNumber) : jsstr := match n with SeqStar => js "*" | SeqNum n => dec n end.

Definition formatSeqRange (r : SeqRange) : jsstr :=
  if bool_decide (sr_from r = sr_to r) then formatSeqNumber (sr_from r) else formatSeqNumber (sr_from r) ++ 58 :: formatSeqNumber (sr_to r).

Definition formatSequenceSet (set : SequenceSet) : jsstr :=
  match set with SeqSaved => js "$" | SeqRanges ranges => joinWith [44] (formatSeqRange <$> ranges) end.

Definition seqBound (b : jsstr) : option SeqNumber :=
  if bool_decide (b = js "*") then Some SeqStar
  else
    match b with
    | c :: rest =>
        if (49 <=? c) && (c <=? 57) && forallb is_digit rest && (length rest <=? 9)%nat && (Number b <=? MAX_NZ_NUMBER) then Some (SeqNum (Number b)) else None
    | [] => None
    end.

Definition seqPiece (piece : jsstr) : option SeqRange :=
  let bounds := splitOn 58 piece in
  if (2 <? length bounds)%nat then None
  else
    match mapM seqBound bounds with
    | Some (from :: rest) => Some (mkSeqRange from (default from (head rest)))
    | _ => None
    end.

Definition parseSequenceSet (text : jsstr) : option SequenceSet :=
  if bool_decide (text = js "$") then Some SeqSaved
  else if (length text =? 0)%nat then None
  else SeqRanges <$> mapM seqPiece (splitOn 44 text).

(** ** Numbers *)

Definition resolveSeq (max : Z) (n : SeqNumber) : Z := match n with SeqStar => max | SeqNum n => n end.

Definition resolveRange (max : Z) (r : SeqRange) : option (Z * Z) :=
  let a := resolveSeq max (sr_from r) in
  let b := resolveSeq max (sr_to r) in
  let lo := Z.max 1 (Z.min a b) in
  let hi := Z.max a b in
  if lo <=? hi then Some (lo, hi) else None.

(** [sort] with the comparison of the lower bounds, which is stable. *)
Fixpoint insertPair (p : Z * Z) (l : list (Z * Z)) : list (Z * Z) :=
  match l with [] => [p] | q :: l' => if p.1 <=? q.1 then p :: l else q :: insertPair p l' end.

Definition sortPairs (l : list (Z * Z)) : list (Z * Z) := foldr insertPair [] l.

(** The merging loop; [last] is the last pair of its output, which it extends in place. *)
Fixpoint mergeFrom (last : Z * Z) (l : list (Z * Z)) : list (Z * Z) :=
  match l with
  | [] => [last]
  | (lo, hi) :: l => if lo <=? last.2 + 1 then mergeFrom (last.1, Z.max last.2 hi) l else last :: mergeFrom (lo, hi) l
  end.

Definition normalizeSequenceSet (set : SequenceSet) (max : Z) : list (Z * Z) :=
  match set with
  | SeqSaved => []
  | SeqRanges ranges => match sortPairs (omap (resolveRange max) ranges) with [] => [] | p :: l => mergeFrom p l end
  end.

Definition sequenceSetHas (set : SequenceSet) (n max : Z) : bool :=
  match set with
  | SeqSaved => false
  | SeqRanges ranges =>
      existsb (fun r =>
        let a := resolveSeq max (sr_from r) in
        let b := resolveSeq max (sr_to r) in
        (Z.min a b <=? n) && (n <=? Z.max a b)) ranges
  end.

Fixpoint insertNumber (n : Z) (l : list Z) : list Z :=
  match l with [] => [n] | m :: l' => if n <=? m then n :: l else m :: insertNumber n l' end.

(** The loop over the sorted numbers once [start] is set. *)
Fixpoint numberRuns (start prev : Z) (l : list Z) : list SeqRange :=
  match l with
  | [] => [mkSeqRange (SeqNum start) (SeqNum prev)]
  | n :: l => if n =? prev + 1 then numberRuns start n l else mkSeqRange (SeqNum start) (SeqNum prev) :: numberRuns n n l
  end.

(** A number that is no integer is [None]. *)
Definition sequenceSetFromNumbers (numbers : list (option Z)) : SequenceSet :=
  SeqRanges match foldr insertNumber [] (List.filter (fun n => 0 <? n) (omap id (remove_dups numbers))) with [] => [] | n :: l => numberRuns n n l end.

(** ** Texts *)

Definition seqNumber_ok (n : SeqNumber) : Prop := match n with SeqStar => True | SeqNum n => 1 <= n <= MAX_NZ_NUMBER end.
Definition seqRange_ok (r : SeqRange) : Prop := seqNumber_ok (sr_from r) /\ seqNumber_ok (sr_to r).
Definition sequenceSet_ok (set : SequenceSet) : Prop := match set with SeqSaved => True | SeqRanges ranges => ranges <> [] /\ Forall seqRange_ok ranges end.

(** What the bounds of a range are written with. *)
Definition seqChar (c : Z) : Prop := is_digit c = true \/ c = 42.

Lemma formatSeqNumber_chars n : seqNumber_ok n -> Forall seqChar (formatSeqNumber n) /\ formatSeqNumber n <> [].
Proof.
  destruct n as [|n]; cbn; intros H; [split; [repeat constructor; by right|done]|].
  destruct (dec_spec n) as (H1 & H2 & _); [lia|]. split; [|done]. eapply Forall_impl; [done|]. intros c Hc. by left.
Qed.

Lemma seqChar_not n c : seqNumber_ok n -> ~ seqChar c -> c ∉ formatSeqNumber n.
Proof. intros Hn Hc Hin. destruct (formatSeqNumber_chars n Hn) as [H _]. rewrite Forall_forall in H. by apply Hc, H. Qed.

Lemma seqBound_format n : seqNumber_ok n -> seqBound (formatSeqNumber n) = Some n.
Proof.
  destruct n as [|n]; [done|]. cbn. unfold MAX_NZ_NUMBER. intros H. destruct (dec_head n) as (c & ds & E & Hc & Hds); [lia|].
  assert (Hlen : (length (dec n) <= 10)%nat) by (apply dec_length; cbn; lia).
  unfold seqBound. rewrite bool_decide_eq_false_2 by (rewrite E; intros [= ? ?]; lia).
  assert (HN : Number (dec n) = n) by (apply Number_dec; lia). rewrite HN. rewrite E in Hlen |- *. cbn [length] in Hlen.
  apply forallb_Forall in Hds. rewrite Hds. unfold MAX_NZ_NUMBER.
  replace ((49 <=? c) && (c <=? 57) && true && (length ds <=? 9)%nat && (n <=? 0xffffffff)) with true; [done|].
  replace (length ds <=? 9)%nat with true by (symmetry; apply Nat.leb_le; lia). lia.
Qed.

Lemma seqBound_ok b n : seqBound b = Some n -> seqNumber_ok n.
Proof.
  unfold seqBound. case_bool_decide; [by intros [= <-]|]. destruct b as [|c rest]; [done|].
  destruct (_ && _) eqn:E; [|done]. intros [= <-]. apply andb_true_iff in E as [E E2]. apply andb_true_iff in E as [E El%Nat.leb_le]. repeat apply andb_true_iff in E as [E ?]. cbn.
  assert (Hd : forallb is_digit (c :: rest) = true) by (cbn; apply andb_true_iff; split; [unfold is_digit; lia|done]).
  rewrite Number_short by (done || (cbn; lia)). split; [apply digits_val_head; [lia|done]|].
  rewrite <- Number_short by (done || (cbn; lia)). lia.
Qed.

Lemma mapM_inv {A B} (f : A -> option B) l k : mapM f l = Some k -> Forall2 (fun x y => f x = Some y) l k.
Proof. by intros H%mapM_Some. Qed.

Lemma mapM_fmap_inv {A B} (f : B -> option A) (g : A -> B) l : Forall (fun x => f (g x) = Some x) l -> mapM f (g <$> l) = Some l.
Proof. intros H. apply mapM_Some. induction H; by constructor. Qed.

Lemma seqPiece_format r : seqRange_ok r -> seqPiece (formatSeqRange r) = Some r.
Proof.
  destruct r as [a b]. intros [Ha Hb]. unfold seqPiece, formatSeqRange; cbn [sr_from sr_to] in *.
  assert (Hc : ~ seqChar 58) by (intros [H|H]; [by vm_compute in H|lia]).
  case_bool_decide as E.
  - subst b. rewrite splitOn_none by by apply seqChar_not. cbn. by rewrite seqBound_format.
  - rewrite splitOn_app, splitOn_none by by apply seqChar_not. cbn. by rewrite !seqBound_format.
Qed.

Lemma formatSeqRange_chars r : seqRange_ok r -> 44 ∉ formatSeqRange r /\ formatSeqRange r <> [] /\ formatSeqRange r <> js "$".
Proof.
  destruct r as [a b]. intros [Ha Hb]. cbn [sr_from sr_to] in *.
  destruct (formatSeqNumber_chars a Ha) as [H1 H2], (formatSeqNumber_chars b Hb) as [H3 H4].
  assert (Hc : ~ seqChar 44) by (intros [H|H]; [by vm_compute in H|lia]). pose proof (seqChar_not a 44 Ha Hc). pose proof (seqChar_not b 44 Hb Hc).
  assert (Hd : forall s, formatSeqNumber a ++ s <> js "$").
  { intros s E. destruct (formatSeqNumber a) as [|c ?]; [done|]. injection E as -> _. apply Forall_cons in H1 as [[H1|H1] _]; [by vm_compute in H1|lia]. }
  unfold formatSeqRange; cbn [sr_from sr_to]. case_bool_decide.
  - split_and!; [done|done|]. rewrite <- (app_nil_r (formatSeqNumber a)). apply Hd.
  - split_and!; [|by destruct (formatSeqNumber a)|apply Hd]. rewrite elem_of_app, elem_of_cons. intuition lia.
Qed.

(** Reading back what was written. *)
Lemma parse_format_set set : sequenceSet_ok set -> parseSequenceSet (formatSequenceSet set) = Some set.
Proof.
  destruct set as [|ranges]; [done|]. intros [Hne Hr]. unfold parseSequenceSet, formatSequenceSet.
  assert (Hc : Forall (fun p => 44 ∉ p /\ p <> [] /\ p <> js "$") (formatSeqRange <$> ranges)).
  { apply Forall_fmap. eapply Forall_impl; [done|]. apply formatSeqRange_chars. }
  assert (Hs : splitOn 44 (joinWith [44] (formatSeqRange <$> ranges)) = formatSeqRange <$> ranges).
  { apply splitOn_joinWith; [by destruct ranges|]. eapply Forall_impl; [done|]. by intros ? [? _]. }
  rewrite Hs. destruct ranges as [|r ranges]; [done|]. cbn [fmap list_fmap] in Hc. apply Forall_cons in Hc as [(_ & Hn & Hd) _].
  rewrite bool_decide_eq_false_2.
  - destruct (length _ =? 0)%nat eqn:E.
    + apply Nat.eqb_eq, nil_length_inv in E. rewrite E in Hs. cbn in Hs. injection Hs as Hs _. by rewrite <- Hs in Hn.
    + rewrite mapM_fmap_inv; [done|]. eapply Forall_impl; [done|]. apply seqPiece_format.
  - intros E. rewrite E in Hs. cbn in Hs. injection Hs as Hs _. by rewrite <- Hs in Hd.
Qed.

(** What is read is a set a client may send: at least one range, bounds of 32 bits, none zero. *)
Lemma parse_set_ok text set : parseSequenceSet text = Some set -> sequenceSet_ok set.
Proof.
  unfold parseSequenceSet. case_bool_decide; [by intros [= <-]|]. destruct (_ =? 0)%nat; [done|].
  destruct (mapM seqPiece (splitOn 44 text)) as [ranges|] eqn:E; [|done]. intros [= <-]. apply mapM_inv in E. split.
  - intros ->. apply Forall2_nil_inv_r in E. by apply splitOn_ne in E.
  - eapply Forall2_Forall_r; [done|]. apply Forall_forall. intros p _ r. unfold seqPiece. destruct (_ <? _)%nat; [done|].
    destruct (mapM seqBound (splitOn 58 p)) as [nums|] eqn:En; [|done]. apply mapM_inv in En.
    assert (Hn : Forall seqNumber_ok nums) by (eapply Forall2_Forall_r; [done|]; apply Forall_forall; intros b _ n; apply seqBound_ok).
    destruct nums as [|n nums]; [done|]. intros [= <-]. apply Forall_cons in Hn as [Hn Hns]. split; [done|]. cbn. destruct nums; [done|]. by apply Forall_cons in Hns as [? _].
Qed.

(** ** Numbers *)

(** Ascending pairs from [low] on, each followed by a number that is in none of them. *)
Fixpoint canonical (low : Z) (l : list (Z * Z)) : Prop :=
  match l with [] => True | (lo, hi) :: l => low <= lo <= hi /\ canonical (hi + 2) l end.

Definition covers (n : Z) (l : list (Z * Z)) : Prop := Exists (fun p => p.1 <= n <= p.2) l.

Lemma covers_cons n p l : covers n (p :: l) <-> p.1 <= n <= p.2 \/ covers n l.
Proof. apply Exists_cons. Qed.

Lemma covers_nil n : covers n [] <-> False.
Proof. apply Exists_nil. Qed.

Lemma canonical_weaken low low' l : low' <= low -> canonical low l -> canonical low' l.
Proof. destruct l as [|[lo hi] l]; cbn; [done|]. intros ? [??]. split; [lia|done]. Qed.

Lemma canonical_above low l n : canonical low l -> covers n l -> low <= n.
Proof.
  revert low. induction l as [|[lo hi] l IH]; intros low; [by rewrite covers_nil|]. cbn [canonical]. intros [? Hc] [Hn|Hn]%covers_cons; cbn in *; [lia|].
  specialize (IH _ Hc Hn). lia.
Qed.

(** Canonical lists are determined by what they cover. *)
Lemma canonical_unique low l low' l' : canonical low l -> canonical low' l' -> (forall n, covers n l <-> covers n l') -> l = l'.
Proof.
  revert low low' l'. induction l as [|[lo hi] l IH]; intros low low' [|[lo' hi'] l'] Hc Hc' He.
  - done.
  - exfalso. apply (covers_nil lo'), He, covers_cons. left. cbn in *. lia.
  - exfalso. apply (covers_nil lo), He, covers_cons. left. cbn in *. lia.
  - cbn [canonical] in Hc, Hc'. destruct Hc as [H Hc], Hc' as [H' Hc']. setoid_rewrite covers_cons in He. cbn [fst snd] in He.
    pose proof (fun n => canonical_above _ _ n Hc) as Ha. pose proof (fun n => canonical_above _ _ n Hc') as Ha'.
    assert (lo = lo').
    { destruct (proj1 (He lo) ltac:(lia)) as [?|?%Ha']; destruct (proj2 (He lo') ltac:(lia)) as [?|?%Ha]; lia. }
    subst lo'. assert (hi = hi').
    { destruct (Z.lt_trichotomy hi hi') as [Hlt|[->|Hlt]]; [|done|].
      - destruct (proj2 (He (hi + 1)) ltac:(lia)) as [?|?%Ha]; lia.
      - destruct (proj1 (He (hi' + 1)) ltac:(lia)) as [?|?%Ha']; lia. }
    subst hi'. f_equal. eapply IH; [done..|]. intros n. split; intros Hn.
    + destruct (proj1 (He n) ltac:(by right)) as [?|?]; [|done]. apply Ha in Hn. lia.
    + destruct (proj2 (He n) ltac:(by right)) as [?|?]; [|done]. apply Ha' in Hn. lia.
Qed.

Lemma insertPair_elem p l q : q ∈ insertPair p l <-> q = p \/ q ∈ l.
Proof. induction l as [|r l IH]; cbn; [set_solver|]. case_match; set_solver. Qed.

Lemma sortPairs_elem l q : q ∈ sortPairs l <-> q ∈ l.
Proof. induction l as [|p l IH]; cbn; [done|]. rewrite insertPair_elem, IH. set_solver. Qed.

Definition ascending (l : list (Z * Z)) : Prop := StronglySorted (fun p q => p.1 <= q.1) l.

Lemma insertPair_ascending p l : ascending l -> ascending (insertPair p l).
Proof.
  unfold ascending. induction 1 as [|q m Hs IH Hq]; cbn [insertPair]; [repeat constructor|]. destruct (p.1 <=? q.1) eqn:E.
  - constructor; [by constructor|]. constructor; [lia|]. eapply Forall_impl; [done|]. cbn. intros. lia.
  - constructor; [done|]. apply Forall_forall. intros r [->|Hr]%insertPair_elem; [lia|]. rewrite Forall_forall in Hq. by apply Hq.
Qed.

Lemma sortPairs_ascending l : ascending (sortPairs l).
Proof. induction l; cbn; [constructor|by apply insertPair_ascending]. Qed.

(** The merged list is canonical and covers the same numbers. *)
Lemma mergeFrom_spec last l :
  last.1 <= last.2 -> Forall (fun p => last.1 <= p.1 <= p.2) l -> ascending l ->
  canonical last.1 (mergeFrom last l) /\ (forall n, covers n (mergeFrom last l) <-> covers n (last :: l)).
Proof.
  revert last. induction l as [|[lo hi] l IH]; intros [a b] Hab Hl Hs; cbn [mergeFrom fst snd] in *.
  { split; [cbn; lia|done]. }
  apply Forall_cons in Hl as [Hp Hl]. cbn [fst snd] in *. inversion Hs as [|?? Hs' Hle]; subst.
  destruct (lo <=? b + 1) eqn:E.
  - destruct (IH (a, Z.max b hi)) as [H1 H2]; cbn [fst snd] in *; [lia|done..|]. split; [done|]. intros n. rewrite H2, !covers_cons. cbn.
    split; [|intuition lia]. intros [?|?]; [|by right; right]. destruct (decide (n <= b)); [left; lia|right; left; lia].
  - destruct (IH (lo, hi)) as [H1 H2]; cbn [fst snd] in *; [lia| |done|].
    { rewrite Forall_forall in Hle, Hl |- *. intros p Hin. specialize (Hle p Hin). specialize (Hl p Hin). cbn in *. lia. }
    split; [cbn; split; [lia|]; by eapply canonical_weaken; [|done]; lia|]. intros n. by rewrite !(covers_cons n (a, b)), H2.
Qed.

Lemma covers_resolved n max ranges : covers n (omap (resolveRange max) ranges) <-> 1 <= n /\ sequenceSetHas (SeqRanges ranges) n max = true.
Proof.
  unfold covers, sequenceSetHas. rewrite Exists_exists, existsb_exists. setoid_rewrite list_elem_of_omap. setoid_rewrite list_elem_of_In. split.
  - intros (p & (r & Hr & He) & Hp). unfold resolveRange in He. case_match; [|done]. injection He as <-. cbn in Hp. split; [lia|]. exists r. split; [done|lia].
  - intros (Hn & r & Hr & Hp). unfold resolveRange. eexists (Z.max 1 (Z.min (resolveSeq max (sr_from r)) (resolveSeq max (sr_to r))), _). split.
    + exists r. split; [done|]. case_match; [done|lia].
    + cbn. lia.
Qed.

Lemma normalize_spec set max :
  canonical 1 (normalizeSequenceSet set max) /\ (forall n, covers n (normalizeSequenceSet set max) <-> 1 <= n /\ sequenceSetHas set n max = true).
Proof.
  destruct set as [|ranges]; cbn [normalizeSequenceSet].
  { split; [done|]. intros n. rewrite covers_nil. cbn. naive_solver. }
  setoid_rewrite <- covers_resolved. set (l := omap (resolveRange max) ranges).
  assert (Hok : Forall (fun p => 1 <= p.1 <= p.2) (sortPairs l)).
  { apply Forall_forall. intros p Hp. rewrite sortPairs_elem in Hp. apply list_elem_of_omap in Hp as (r & _ & He). unfold resolveRange in He. case_match; [|done]. injection He as <-. cbn. lia. }
  assert (Hc : forall n, covers n (sortPairs l) <-> covers n l) by (intros n; unfold covers; rewrite !Exists_exists; by setoid_rewrite sortPairs_elem).
  pose proof (sortPairs_ascending l) as Hs. setoid_rewrite <- Hc. clear Hc.
  destruct (sortPairs l) as [|p m]; [done|]. apply Forall_cons in Hok as [Hp Hm]. inversion Hs as [|?? Hs' Hle]; subst.
  destruct (mergeFrom_spec p m) as [H1 H2]; [lia| |done|split; [by eapply canonical_weaken; [|done]; lia|done]].
  rewrite Forall_forall in *. intros q Hq. specialize (Hle q Hq). specialize (Hm q Hq). lia.
Qed.

(** ** Sets of numbers *)

Lemma insertNumber_elem n l m : m ∈ insertNumber n l <-> m = n \/ m ∈ l.
Proof. induction l as [|k l IH]; cbn; [set_solver|]. case_match; set_solver. Qed.

Lemma insertNumber_sorted n l : n ∉ l -> StronglySorted Z.lt l -> StronglySorted Z.lt (insertNumber n l).
Proof.
  intros Hn Hs. induction Hs as [|k l Hs IH Hk]; cbn; [repeat constructor|]. apply not_elem_of_cons in Hn as [Hne Hn]. destruct (n <=? k) eqn:E.
  - constructor; [by constructor|]. constructor; [lia|]. eapply Forall_impl; [done|]. cbn. intros. lia.
  - constructor; [by apply IH|]. apply Forall_forall. intros m [->|Hm]%insertNumber_elem; [lia|]. rewrite Forall_forall in Hk. by apply Hk.
Qed.

Lemma sorted_numbers l : NoDup l -> StronglySorted Z.lt (foldr insertNumber [] l) /\ (forall n, n ∈ foldr insertNumber [] l <-> n ∈ l).
Proof.
  induction 1 as [|n l Hn _ [IH1 IH2]]; cbn; [split; [constructor|done]|]. split.
  - apply insertNumber_sorted; [by rewrite IH2|done].
  - intros m. rewrite insertNumber_elem, IH2. set_solver.
Qed.

(** A range of two numbers as the pair of them. *)
Definition pairOf (r : SeqRange) : Z * Z := (resolveSeq 0 (sr_from r), resolveSeq 0 (sr_to r)).

Definition plainRange (r : SeqRange) : Prop := exists a b, r = mkSeqRange (SeqNum a) (SeqNum b) /\ a <= b.

Lemma numberRuns_spec start prev l :
  start <= prev -> StronglySorted Z.lt (prev :: l) ->
  canonical start (pairOf <$> numberRuns start prev l) /\ Forall plainRange (numberRuns start prev l) /\
  (forall n, covers n (pairOf <$> numberRuns start prev l) <-> start <= n <= prev \/ n ∈ l).
Proof.
  revert start prev. induction l as [|k l IH]; intros start prev Hle Hs; cbn [numberRuns].
  { split_and!; [cbn; lia|repeat constructor; by exists start, prev|]. intros n. cbn. rewrite covers_cons, covers_nil. cbn. set_solver. }
  inversion Hs as [|?? Hs' Hk]; subst. apply Forall_cons in Hk as [Hk _]. destruct (k =? prev + 1) eqn:E.
  - destruct (IH start k) as (H1 & H2 & H3); [lia|done|]. split_and!; [done..|]. intros n. rewrite H3, elem_of_cons.
    split; [|intuition lia]. intros [?|?]; [|by right; right]. destruct (decide (n = k)); [by right; left|left; lia].
  - destruct (IH k k) as (H1 & H2 & H3); [lia|done|]. cbn [fmap list_fmap]. split_and!.
    + cbn. split; [lia|]. by eapply canonical_weaken; [|done]; lia.
    + constructor; [|done]. by exists start, prev.
    + intros n. rewrite covers_cons, H3, elem_of_cons. cbn. split; intros [?|[?|?]]; auto; right; left; lia.
Qed.

(** The set built from numbers names exactly the positive ones, in canonical ranges. *)
Lemma fromNumbers_spec numbers :
  exists ranges, sequenceSetFromNumbers numbers = SeqRanges ranges /\ canonical 1 (pairOf <$> ranges) /\ Forall plainRange ranges /\
    (forall n, covers n (pairOf <$> ranges) <-> 0 < n /\ Some n ∈ numbers).
Proof.
  unfold sequenceSetFromNumbers. set (l := List.filter _ _).
  assert (Hnd : NoDup l).
  { apply NoDup_ListNoDup. unfold l. apply List.NoDup_filter, NoDup_ListNoDup. pose proof (NoDup_remove_dups numbers) as H. induction H as [|[n|] m Hn _ IH]; cbn; [constructor|constructor|done]; [|done].
    rewrite list_elem_of_omap. by intros (x & Hx & [= ->]). }
  assert (Hin : forall n, n ∈ l <-> 0 < n /\ Some n ∈ numbers).
  { intros n. unfold l. rewrite list_elem_of_In, filter_In, <- list_elem_of_In, list_elem_of_omap. setoid_rewrite elem_of_remove_dups. split.
    - intros [(x & Hx & [= ->]) ?]. split; [lia|done].
    - intros [? ?]. split; [by exists (Some n)|lia]. }
  destruct (sorted_numbers l Hnd) as [Hs He]. setoid_rewrite <- Hin. setoid_rewrite <- He. clear He. destruct (foldr insertNumber [] l) as [|n m] eqn:E.
  - exists []. split_and!; [done..|]. intros k. rewrite covers_nil. set_solver.
  - assert (0 < n) by (apply Hin; destruct (sorted_numbers l Hnd) as [_ He]; rewrite <- He, E; set_solver).
    destruct (numberRuns_spec n n m) as (H1 & H2 & H3); [lia|done|]. eexists. split; [done|]. split_and!; [by eapply canonical_weaken; [|done]; lia|done|].
    intros k. rewrite H3, elem_of_cons. split; intros [?|?]; auto; left; lia.
Qed.

Lemma has_plain ranges n max : Forall plainRange ranges -> sequenceSetHas (SeqRanges ranges) n max = true <-> covers n (pairOf <$> ranges).
Proof.
  intros H. cbn [sequenceSetHas]. induction H as [|r ranges (a & b & -> & Hab) _ IH]; [by rewrite covers_nil|].
  cbn [existsb fmap list_fmap]. rewrite orb_true_iff, covers_cons, IH. cbn. split; intros [?|?]; auto; left; lia.
Qed.

(** ** Theorems *)

(** Normalization gives ascending pairs of positive numbers with a gap after each, covering exactly the positive
    members of the set; two sets with the same members have the same normal form. The set built from a list
    of numbers has exactly the positive ones as members, and its ranges are their own normal form. *)
Theorem sequence_sets_denote :
  (forall set max, canonical 1 (normalizeSequenceSet set max) /\
     forall n, covers n (normalizeSequenceSet set max) <-> 1 <= n /\ sequenceSetHas set n max = true) /\
  (forall set max set' max', (forall n, 1 <= n -> sequenceSetHas set n max = sequenceSetHas set' n max') ->
     normalizeSequenceSet set max = normalizeSequenceSet set' max') /\
  (forall numbers max n, sequenceSetHas (sequenceSetFromNumbers numbers) n max = true <-> 0 < n /\ Some n ∈ numbers) /\
  (forall numbers max, sequenceSetFromNumbers numbers =
     SeqRanges ((fun p => mkSeqRange (SeqNum p.1) (SeqNum p.2)) <$> normalizeSequenceSet (sequenceSetFromNumbers numbers) max)).
Proof.
  split_and!.
  - apply normalize_spec.
  - intros set max set' max' H. destruct (normalize_spec set max) as [H1 H2], (normalize_spec set' max') as [H3 H4].
    eapply canonical_unique; [done..|]. intros n. rewrite H2, H4. split; intros [? ?]; (split; [done|]); [rewrite <- H|rewrite H]; done.
  - intros numbers max n. destruct (fromNumbers_spec numbers) as (ranges & -> & _ & Hp & Hc). by rewrite has_plain, Hc.
  - intros numbers max. destruct (fromNumbers_spec numbers) as (ranges & -> & Hcan & Hp & Hc). f_equal.
    destruct (normalize_spec (SeqRanges ranges) max) as [H1 H2].
    assert (E : normalizeSequenceSet (SeqRanges ranges) max = pairOf <$> ranges).
    { eapply canonical_unique; [done..|]. intros n. rewrite H2, has_plain by done. split; [by intros [_ ?]|]. intros Hn. split; [|done]. apply Hc in Hn. lia. }
    rewrite E, <- list_fmap_compose. rewrite <- (list_fmap_id ranges) at 1. apply list_fmap_ext. intros i r Hr.
    rewrite Forall_lookup in Hp. by destruct (Hp i r Hr) as (a & b & -> & _).
Qed.

(** A set that can be sent is read back from its text, and whatever text is read denotes such a set. *)
Theorem sequence_set_roundtrip :
  (forall set, sequenceSet_ok set -> parseSequenceSet (formatSequenceSet set) = Some set) /\
  (forall text set, parseSequenceSet text = Some set -> sequenceSet_ok set).
Proof. split; [apply parse_format_set|apply parse_set_ok]. Qed.

Example sequence_demo :
  parseSequenceSet (js "2:4,9,6:*,1") = Some (SeqRanges [mkSeqRange (SeqNum 2) (SeqNum 4); mkSeqRange (SeqNum 9) (SeqNum 9); mkSeqRange (SeqNum 6) SeqStar; mkSeqRange (SeqNum 1) (SeqNum 1)]) /\
  (fun s => normalizeSequenceSet s 12) <$> parseSequenceSet (js "2:4,9,6:*,1") = Some [(1, 4); (6, 12)] /\
  parseSequenceSet (js "0") = None /\ parseSequenceSet (js "4294967296") = None /\
  formatSequenceSet (sequenceSetFromNumbers [Some 7; Some 3; None; Some 4; Some 5; Some 3; Some (-1)]) = js "3:5,7".
Proof. by vm_compute. Qed.
