(* ===== verification/ImapMutf7.v ===== *)
(** * ImapMutf7: modified UTF-7 mailbox names ([imap-proto/src/mutf7.ts]) and that every name has one spelling *)
From S2P Require Import Prelude JsString JsStringFacts Utf8.

Definition B64 : jsstr := js "ABCDEFGHIJKLMNOPQRSTUVWXYZabcdefghijklmnopqrstuvwxyz0123456789+,".

(** [B64_INDEX.get(c)]. *)
Definition B64_INDEX (c : Z) : option Z := Z.of_nat <$> indexOf c B64.

Definition isDirect (unit : Z) : bool := (0x20 <=? unit) && (unit <=? 0x7e).

(** [B64[k] ?? '']. *)
Definition b64Char (k : Z) : jsstr := match B64 !! Z.to_nat k with Some c => [c] | None => [] end.

(** ** Encoding *)

Definition unitBytes (units : list Z) : bytes := concat ((fun u => [Z.shiftr u 8; Z.land u 0xff]) <$> units).

(** The loop of encodeRun, three octets at a time. *)
Fixpoint encodeTriples (bs : bytes) : jsstr :=
  match bs with
  | [] => []
  | b0 :: rest =>
      let n b1 b2 := Z.lor (Z.lor (Z.shiftl b0 16) (Z.shiftl b1 8)) b2 in
      let hi n := b64Char (Z.land (Z.shiftr n 18) 63) ++ b64Char (Z.land (Z.shiftr n 12) 63) in
      match rest with
      | [] => hi (n 0 0)
      | b1 :: rest =>
          match rest with
          | [] => hi (n b1 0) ++ b64Char (Z.land (Z.shiftr (n b1 0) 6) 63)
          | b2 :: rest => hi (n b1 b2) ++ b64Char (Z.land (Z.shiftr (n b1 b2) 6) 63) ++ b64Char (Z.land (n b1 b2) 63) ++ encodeTriples rest
          end
      end
  end.

Definition encodeRun (units : list Z) : jsstr := js "&" ++ encodeTriples (unitBytes units) ++ js "-".

Definition flushRun (run : list Z) : jsstr := match run with [] => [] | _ => encodeRun run end.

Definition directText (unit : Z) : jsstr := if unit =? 0x26 then js "&-" else [unit].

(** The loop over the name; [run] is the run of units waiting to be shifted. *)
Fixpoint encodeNameLoop (run : list Z) (name : jsstr) : jsstr :=
  match name with
  | [] => flushRun run
  | unit :: name =>
      if isDirect unit then flushRun run ++ directText unit ++ encodeNameLoop [] name
      else encodeNameLoop (run ++ [unit]) name
  end.

Definition encodeMailboxName (name : jsstr) : jsstr := encodeNameLoop [] name.

(** ** Decoding *)

(** The loop over the characters of a shifted run: the octets read, the pending bits and their number. *)
Fixpoint decodeSextets (bits nbits : Z) (s : jsstr) : option (bytes * Z * Z) :=
  match s with
  | [] => Some ([], bits, nbits)
  | c :: s =>
      match B64_INDEX c with
      | None => None
      | Some v =>
          let bits := Z.land (Z.lor (Z.shiftl bits 6) v) 0xffffff in
          let nbits := nbits + 6 in
          if 8 <=? nbits then
            let nbits := nbits - 8 in
            match decodeSextets bits nbits s with
            | Some (bs, b, n) => Some (Z.land (Z.shiftr bits nbits) 0xff :: bs, b, n)
            | None => None
            end
          else decodeSextets bits nbits s
      end
  end.

(** Pairs of octets as units, none of them printable ASCII. *)
Fixpoint pairUnits (bs : bytes) : option (list Z) :=
  match bs with
  | b0 :: b1 :: bs =>
      let unit := Z.lor (Z.shiftl b0 8) b1 in
      if isDirect unit then None else cons unit <$> pairUnits bs
  | [] => Some []
  | [_] => None
  end.

Definition decodeRun (s : jsstr) : option (list Z) :=
  match decodeSextets 0 0 s with
  | None => None
  | Some (bs, bits, nbits) =>
      if (6 <=? nbits) || negb (Z.land bits (Z.shiftl 1 nbits - 1) =? 0) || negb (length bs mod 2 =? 0)%nat then None
      else pairUnits bs
  end.

(** The main loop. [fuel] is at least the length of what is left of the name. *)
Fixpoint decodeNameLoop (fuel : nat) (afterRun : bool) (wire : jsstr) : option jsstr :=
  match fuel with
  | O => Some []
  | S fuel =>
      match wire with
      | [] => Some []
      | c :: rest =>
          if negb (isDirect c) then None
          else if negb (c =? 0x26) then cons c <$> decodeNameLoop fuel false rest
          else
            match indexOf 45 rest with
            | None => None
            | Some O => cons 0x26 <$> decodeNameLoop fuel false (drop 1 rest)
            | Some k =>
                if afterRun then None
                else
                  match decodeRun (take k rest) with
                  | None => None
                  | Some units => app units <$> decodeNameLoop fuel true (drop (S k) rest)
                  end
            end
      end
  end.

Definition decodeMailboxName (wire : jsstr) : option jsstr := decodeNameLoop (length wire) false wire.

(** ** The alphabet *)

Lemma indexOf_nodup c s i : NoDup s -> s !! i = Some c -> indexOf c s = Some i.
Proof.
  intros Hn. revert i. induction Hn as [|x s Hx Hn IH]; intros i Hi; [done|]. cbn [indexOf]. destruct i as [|i]; cbn in Hi.
  - injection Hi as ->. by rewrite Z.eqb_refl.
  - rewrite (IH _ Hi). assert (x <> c) by (intros ->; apply Hx, list_elem_of_lookup; by exists i). by replace (x =? c) with false by lia.
Qed.

Lemma indexOf_lookup c s i : indexOf c s = Some i -> s !! i = Some c.
Proof. revert i. induction s as [|x s IH]; cbn; [done|]. intros i. destruct (x =? c) eqn:E; [intros [= <-]; f_equal/=; lia|]. destruct (indexOf c s); [|done]. intros [= <-]. by apply IH. Qed.

Lemma B64_nodup : NoDup B64.
Proof. apply (bool_decide_unpack _). by vm_compute. Qed.

Lemma b64Char_spec k : 0 <= k < 64 -> exists c, b64Char k = [c] /\ B64_INDEX c = Some k /\ c <> 45.
Proof.
  intros Hk. unfold b64Char. destruct (B64 !! Z.to_nat k) as [c|] eqn:E.
  - exists c. unfold B64_INDEX. rewrite (indexOf_nodup _ _ _ B64_nodup E). cbn. split_and!; [done|f_equal; lia|]. intros ->.
    apply (indexOf_nodup _ _ _ B64_nodup) in E. by vm_compute in E.
  - apply lookup_ge_None in E. change (length B64) with 64%nat in E. lia.
Qed.

Lemma B64_INDEX_spec c v : B64_INDEX c = Some v -> 0 <= v < 64 /\ b64Char v = [c].
Proof.
  unfold B64_INDEX. destruct (indexOf c B64) as [i|] eqn:E; [|done]. cbn. intros [= <-]. apply indexOf_lookup in E.
  pose proof (lookup_lt_Some _ _ _ E) as Hi. change (length B64) with 64%nat in Hi. split; [lia|]. unfold b64Char. by rewrite Nat2Z.id, E.
Qed.

(** ** Octets and sextets *)

Lemma sextet_bits b v : 0 <= v < 64 -> Z.land (Z.lor (Z.shiftl b 6) v) 0xffffff = (b * 64 + v) mod 16777216.
Proof.
  intros Hv. rewrite (shift_lor b v 6) by lia. change 0xffffff with (Z.ones 24). by rewrite Z.land_ones by lia.
Qed.

Lemma land_octet b n : 0 <= n -> Z.land (Z.shiftr b n) 0xff = b / 2 ^ n mod 256.
Proof. intros Hn. change 0xff with (Z.ones 8). rewrite Z.land_ones by lia. by rewrite Z.shiftr_div_pow2. Qed.

Lemma land_sextet b n : 0 <= n -> Z.land (Z.shiftr b n) 63 = b / 2 ^ n mod 64.
Proof. intros Hn. change 63 with (Z.ones 6). rewrite Z.land_ones by lia. by rewrite Z.shiftr_div_pow2. Qed.

Lemma triple_value b0 b1 b2 : is_octet b1 -> is_octet b2 -> Z.lor (Z.lor (Z.shiftl b0 16) (Z.shiftl b1 8)) b2 = b0 * 65536 + b1 * 256 + b2.
Proof.
  unfold is_octet. intros H1 H2. rewrite (Z.shiftl_mul_pow2 b1 8) by lia. rewrite (shift_lor b0 (b1 * 2 ^ 8) 16) by lia.
  replace (b0 * 2 ^ 16 + b1 * 2 ^ 8) with (Z.shiftl (b0 * 256 + b1) 8) by (rewrite Z.shiftl_mul_pow2; lia). rewrite shift_lor by lia. lia.
Qed.

(** One character of a run. *)
Lemma decodeSextets_cons bits nbits c v s :
  B64_INDEX c = Some v -> 0 <= nbits ->
  decodeSextets bits nbits (c :: s) =
    let bits := (bits * 64 + v) mod 16777216 in
    if 8 <=? nbits + 6 then (fun '(bs, b, n) => (bits / 2 ^ (nbits - 2) mod 256 :: bs, b, n)) <$> decodeSextets bits (nbits - 2) s
    else decodeSextets bits (nbits + 6) s.
Proof.
  intros Hc Hn. cbn [decodeSextets]. rewrite Hc. pose proof (B64_INDEX_spec _ _ Hc) as [Hv _]. rewrite sextet_bits by done. cbn zeta.
  destruct (8 <=? nbits + 6) eqn:E; [|done]. replace (nbits + 6 - 8) with (nbits - 2) by lia. rewrite land_octet by lia.
  by destruct (decodeSextets _ _ s) as [[[? ?] ?]|].
Qed.

Definition emit (b : Z) (r : bytes * Z * Z) : bytes * Z * Z := let '(bs, bits, n) := r in (b :: bs, bits, n).

Lemma decodeSextets_0 bits c v s : B64_INDEX c = Some v -> decodeSextets bits 0 (c :: s) = decodeSextets ((bits * 64 + v) mod 16777216) 6 s.
Proof. intros H. by rewrite (decodeSextets_cons _ _ _ _ _ H). Qed.
Lemma decodeSextets_6 bits c v s :
  B64_INDEX c = Some v -> let b := (bits * 64 + v) mod 16777216 in decodeSextets bits 6 (c :: s) = emit (b / 16 mod 256) <$> decodeSextets b 4 s.
Proof. intros H. by rewrite (decodeSextets_cons _ _ _ _ _ H). Qed.
Lemma decodeSextets_4 bits c v s :
  B64_INDEX c = Some v -> let b := (bits * 64 + v) mod 16777216 in decodeSextets bits 4 (c :: s) = emit (b / 4 mod 256) <$> decodeSextets b 2 s.
Proof. intros H. by rewrite (decodeSextets_cons _ _ _ _ _ H). Qed.
Lemma decodeSextets_2 bits c v s :
  B64_INDEX c = Some v -> let b := (bits * 64 + v) mod 16777216 in decodeSextets bits 2 (c :: s) = emit (b mod 256) <$> decodeSextets b 0 s.
Proof. intros H. rewrite (decodeSextets_cons _ _ _ _ _ H) by done. cbn zeta. change (2 ^ (2 - 2)) with 1. by rewrite Z.div_1_r. Qed.

(** Equality of structures whose leaves are integers. *)
Ltac leaves_lia := repeat lazymatch goal with |- @eq Z _ _ => fail | |- @eq nat _ _ => fail | _ => f_equal end; first [dlia | reflexivity].

Ltac sextet_bounds :=
  repeat match goal with H : B64_INDEX _ = Some ?v |- _ => lazymatch goal with _ : 0 <= v < 64 |- _ => fail | _ => pose proof (proj1 (B64_INDEX_spec _ _ H)) end end.

(** Four characters are three octets; two or three at the end are one or two, with bits to spare. *)
Lemma decodeSextets_four bits c0 c1 c2 c3 v0 v1 v2 v3 s :
  B64_INDEX c0 = Some v0 -> B64_INDEX c1 = Some v1 -> B64_INDEX c2 = Some v2 -> B64_INDEX c3 = Some v3 ->
  exists bits', decodeSextets bits 0 (c0 :: c1 :: c2 :: c3 :: s) =
    emit (v0 * 4 + v1 / 16) <$> (emit (v1 mod 16 * 16 + v2 / 4) <$> (emit (v2 mod 4 * 64 + v3) <$> decodeSextets bits' 0 s)).
Proof.
  intros H0 H1 H2 H3. sextet_bounds. erewrite decodeSextets_0, decodeSextets_6, decodeSextets_4, decodeSextets_2 by done.
  eexists. leaves_lia.
Qed.

Lemma decodeSextets_three bits c0 c1 c2 v0 v1 v2 :
  B64_INDEX c0 = Some v0 -> B64_INDEX c1 = Some v1 -> B64_INDEX c2 = Some v2 ->
  exists bits', decodeSextets bits 0 [c0; c1; c2] = Some ([v0 * 4 + v1 / 16; v1 mod 16 * 16 + v2 / 4], bits', 2) /\ bits' mod 4 = v2 mod 4.
Proof.
  intros H0 H1 H2. sextet_bounds. erewrite decodeSextets_0, decodeSextets_6, decodeSextets_4 by done. eexists. split; [cbn -[Z.modulo Z.div Z.mul Z.add]; leaves_lia|dlia].
Qed.

Lemma decodeSextets_two bits c0 c1 v0 v1 :
  B64_INDEX c0 = Some v0 -> B64_INDEX c1 = Some v1 ->
  exists bits', decodeSextets bits 0 [c0; c1] = Some ([v0 * 4 + v1 / 16], bits', 4) /\ bits' mod 16 = v1 mod 16.
Proof.
  intros H0 H1. sextet_bounds. erewrite decodeSextets_0, decodeSextets_6 by done. eexists. split; [cbn -[Z.modulo Z.div Z.mul Z.add]; leaves_lia|dlia].
Qed.

(** The characters of an octet triple, and of the shorter groups at the end. *)
Lemma encodeTriples_three b0 b1 b2 bs : is_octet b0 -> is_octet b1 -> is_octet b2 ->
  encodeTriples (b0 :: b1 :: b2 :: bs) = b64Char (b0 / 4) ++ b64Char (b0 mod 4 * 16 + b1 / 16) ++ b64Char (b1 mod 16 * 4 + b2 / 64) ++ b64Char (b2 mod 64) ++ encodeTriples bs.
Proof.
  intros H0 H1 H2. cbn [encodeTriples]. rewrite triple_value by done. unfold is_octet in *. rewrite !land_sextet by dlia.
  change 63 with (Z.ones 6). rewrite Z.land_ones by dlia. change (2 ^ 18) with 262144. change (2 ^ 12) with 4096. change (2 ^ 6) with 64.
  rewrite <- !app_assoc. leaves_lia.
Qed.

Lemma encodeTriples_two b0 b1 : is_octet b0 -> is_octet b1 ->
  encodeTriples [b0; b1] = b64Char (b0 / 4) ++ b64Char (b0 mod 4 * 16 + b1 / 16) ++ b64Char (b1 mod 16 * 4).
Proof.
  intros H0 H1. cbn [encodeTriples]. rewrite triple_value by (done || (unfold is_octet; dlia)). unfold is_octet in *. rewrite !land_sextet by dlia.
  change (2 ^ 18) with 262144. change (2 ^ 12) with 4096. change (2 ^ 6) with 64. rewrite <- !app_assoc. leaves_lia.
Qed.

Lemma encodeTriples_one b0 : is_octet b0 -> encodeTriples [b0] = b64Char (b0 / 4) ++ b64Char (b0 mod 4 * 16).
Proof.
  intros H0. cbn [encodeTriples]. rewrite triple_value by (unfold is_octet; dlia). unfold is_octet in *. rewrite !land_sextet by dlia.
  change (2 ^ 18) with 262144. change (2 ^ 12) with 4096. leaves_lia.
Qed.

(** What decodeRun accepts at the end of a run. *)
Definition cleanEnd (bits nbits : Z) : Prop := nbits < 6 /\ Z.land bits (Z.shiftl 1 nbits - 1) = 0.

Lemma cleanEnd_mod bits nbits : 0 <= nbits -> cleanEnd bits nbits <-> nbits < 6 /\ bits mod 2 ^ nbits = 0.
Proof. intros Hn. unfold cleanEnd. rewrite Z.shiftl_1_l. replace (2 ^ nbits - 1) with (Z.ones nbits) by (rewrite Z.ones_equiv; lia). by rewrite Z.land_ones. Qed.

Lemma decode_encodeTriples bits bs : octets_ok bs -> exists b n, decodeSextets bits 0 (encodeTriples bs) = Some (bs, b, n) /\ cleanEnd b n /\ 45 ∉ encodeTriples bs.
Proof.
  remember (length bs) as len eqn:El. revert bits bs El. induction len as [len IH] using lt_wf_ind. intros bits bs -> Hbs.
  destruct bs as [|b0 [|b1 [|b2 bs]]]; repeat (apply Forall_cons in Hbs as [? Hbs]).
  - exists bits, 0. split_and!; [done| |set_solver]. apply cleanEnd_mod; [dlia|]. split; [dlia|]. apply Z.mod_1_r.
  - rewrite encodeTriples_one by done. unfold is_octet in *.
    destruct (b64Char_spec (b0 / 4) ltac:(dlia)) as (c0 & -> & I0 & ?), (b64Char_spec (b0 mod 4 * 16) ltac:(dlia)) as (c1 & -> & I1 & ?).
    destruct (decodeSextets_two bits c0 c1 _ _ I0 I1) as (b & E & Hb). cbn [app]. rewrite E. exists b, 4. split_and!; [leaves_lia| |set_solver].
    apply cleanEnd_mod; [dlia|]. split; [dlia|]. change (2 ^ 4) with 16. dlia.
  - rewrite encodeTriples_two by done. unfold is_octet in *.
    destruct (b64Char_spec (b0 / 4) ltac:(dlia)) as (c0 & -> & I0 & ?), (b64Char_spec (b0 mod 4 * 16 + b1 / 16) ltac:(dlia)) as (c1 & -> & I1 & ?), (b64Char_spec (b1 mod 16 * 4) ltac:(dlia)) as (c2 & -> & I2 & ?).
    destruct (decodeSextets_three bits c0 c1 c2 _ _ _ I0 I1 I2) as (b & E & Hb). cbn [app]. rewrite E. exists b, 2. split_and!; [leaves_lia| |set_solver].
    apply cleanEnd_mod; [dlia|]. split; [dlia|]. change (2 ^ 2) with 4. dlia.
  - rewrite encodeTriples_three by done. unfold is_octet in *.
    destruct (b64Char_spec (b0 / 4) ltac:(dlia)) as (c0 & -> & I0 & ?), (b64Char_spec (b0 mod 4 * 16 + b1 / 16) ltac:(dlia)) as (c1 & -> & I1 & ?),
      (b64Char_spec (b1 mod 16 * 4 + b2 / 64) ltac:(dlia)) as (c2 & -> & I2 & ?), (b64Char_spec (b2 mod 64) ltac:(dlia)) as (c3 & -> & I3 & ?).
    cbn [app]. destruct (decodeSextets_four bits c0 c1 c2 c3 _ _ _ _ (encodeTriples bs) I0 I1 I2 I3) as (b & E).
    destruct (IH (length bs) ltac:(cbn; dlia) b bs eq_refl Hbs) as (b' & n & E' & Hc & Hd). rewrite E, E'. exists b', n. split_and!; [|done|set_solver].
    cbn -[Z.modulo Z.div Z.mul Z.add]. leaves_lia.
Qed.

Lemma encode_decodeSextets bits s bs b n : decodeSextets bits 0 s = Some (bs, b, n) -> cleanEnd b n -> octets_ok bs /\ encodeTriples bs = s.
Proof.
  remember (length s) as len eqn:El. revert bits s bs El. induction len as [len IH] using lt_wf_ind. intros bits s bs -> E Hc.
  destruct s as [|c0 s]; [cbn in E; by simplify_eq|].
  destruct (B64_INDEX c0) as [v0|] eqn:I0; [|cbn [decodeSextets] in E; by rewrite I0 in E]. pose proof (B64_INDEX_spec _ _ I0) as [? K0].
  destruct s as [|c1 s].
  { rewrite (decodeSextets_0 _ _ _ _ I0) in E. cbn in E. simplify_eq. destruct Hc; dlia. }
  destruct (B64_INDEX c1) as [v1|] eqn:I1; [|rewrite (decodeSextets_0 _ _ _ _ I0) in E; cbn [decodeSextets] in E; by rewrite I1 in E]. pose proof (B64_INDEX_spec _ _ I1) as [? K1].
  destruct s as [|c2 s].
  { destruct (decodeSextets_two bits c0 c1 v0 v1 I0 I1) as (b' & E' & Hm). rewrite E in E'. simplify_eq. apply cleanEnd_mod in Hc as [_ Hc]; [|dlia]. change (2 ^ 4) with 16 in Hc.
    assert (is_octet (v0 * 4 + v1 / 16)) by (unfold is_octet; dlia). split; [repeat (constructor; [done|]); done|]. rewrite encodeTriples_one by done.
    replace ((v0 * 4 + v1 / 16) / 4) with v0 by dlia. replace ((v0 * 4 + v1 / 16) mod 4 * 16) with v1 by dlia. by rewrite K0, K1. }
  destruct (B64_INDEX c2) as [v2|] eqn:I2; [|rewrite (decodeSextets_0 _ _ _ _ I0), (decodeSextets_6 _ _ _ _ I1) in E; cbn [decodeSextets] in E; by rewrite I2 in E].
  pose proof (B64_INDEX_spec _ _ I2) as [? K2]. destruct s as [|c3 s].
  { destruct (decodeSextets_three bits c0 c1 c2 v0 v1 v2 I0 I1 I2) as (b' & E' & Hm). rewrite E in E'. simplify_eq. apply cleanEnd_mod in Hc as [_ Hc]; [|dlia]. change (2 ^ 2) with 4 in Hc.
    assert (is_octet (v0 * 4 + v1 / 16)) by (unfold is_octet; dlia). assert (is_octet (v1 mod 16 * 16 + v2 / 4)) by (unfold is_octet; dlia).
    split; [repeat (constructor; [done|]); done|]. rewrite encodeTriples_two by done.
    replace ((v0 * 4 + v1 / 16) / 4) with v0 by dlia. replace ((v0 * 4 + v1 / 16) mod 4 * 16 + (v1 mod 16 * 16 + v2 / 4) / 16) with v1 by dlia.
    replace ((v1 mod 16 * 16 + v2 / 4) mod 16 * 4) with v2 by dlia. by rewrite K0, K1, K2. }
  destruct (B64_INDEX c3) as [v3|] eqn:I3; [|rewrite (decodeSextets_0 _ _ _ _ I0), (decodeSextets_6 _ _ _ _ I1), (decodeSextets_4 _ _ _ _ I2) in E; cbn [decodeSextets] in E; by rewrite I3 in E].
  pose proof (B64_INDEX_spec _ _ I3) as [? K3]. destruct (decodeSextets_four bits c0 c1 c2 c3 v0 v1 v2 v3 s I0 I1 I2 I3) as (b' & E'). rewrite E in E'.
  destruct (decodeSextets b' 0 s) as [[[bs' ?] ?]|] eqn:Es; [|done]. cbn -[Z.modulo Z.div Z.mul Z.add] in E'. simplify_eq.
  destruct (IH (length s) ltac:(cbn; dlia) b' s bs' eq_refl Es Hc) as [Ho He].
  assert (is_octet (v0 * 4 + v1 / 16)) by (unfold is_octet; dlia). assert (is_octet (v1 mod 16 * 16 + v2 / 4)) by (unfold is_octet; dlia).
  assert (is_octet (v2 mod 4 * 64 + v3)) by (unfold is_octet; dlia). split; [repeat (constructor; [done|]); done|]. rewrite encodeTriples_three, He by done.
  replace ((v0 * 4 + v1 / 16) / 4) with v0 by dlia. replace ((v0 * 4 + v1 / 16) mod 4 * 16 + (v1 mod 16 * 16 + v2 / 4) / 16) with v1 by dlia.
  replace ((v1 mod 16 * 16 + v2 / 4) mod 16 * 4 + (v2 mod 4 * 64 + v3) / 64) with v2 by dlia. replace ((v2 mod 4 * 64 + v3) mod 64) with v3 by dlia.
  by rewrite K0, K1, K2, K3.
Qed.

(** ** Runs of units *)

Abbreviation shifted := (Forall (fun u => is_unit u /\ isDirect u = false)).

Lemma unit_bytes u : is_unit u -> is_octet (Z.shiftr u 8) /\ is_octet (Z.land u 0xff) /\ Z.lor (Z.shiftl (Z.shiftr u 8) 8) (Z.land u 0xff) = u.
Proof.
  unfold is_unit, is_octet. intros H. change 0xff with (Z.ones 8). rewrite Z.land_ones, Z.shiftr_div_pow2 by lia. change (2 ^ 8) with 256.
  rewrite shift_lor by dlia. split_and!; dlia.
Qed.

Lemma byte_unit b0 b1 : is_octet b0 -> is_octet b1 ->
  let u := Z.lor (Z.shiftl b0 8) b1 in is_unit u /\ Z.shiftr u 8 = b0 /\ Z.land u 0xff = b1.
Proof.
  unfold is_unit, is_octet. intros H0 H1. cbn zeta. rewrite shift_lor by lia. change 0xff with (Z.ones 8). rewrite Z.land_ones, Z.shiftr_div_pow2 by lia.
  change (2 ^ 8) with 256. split_and!; dlia.
Qed.

Lemma pairUnits_unitBytes us : shifted us -> octets_ok (unitBytes us) /\ (length (unitBytes us) mod 2 = 0)%nat /\ pairUnits (unitBytes us) = Some us.
Proof.
  induction 1 as [|u us [Hu Hd] _ (IH1 & IH2 & IH3)]; [done|]. destruct (unit_bytes u Hu) as (H1 & H2 & H3).
  change (unitBytes (u :: us)) with (Z.shiftr u 8 :: Z.land u 0xff :: unitBytes us). split_and!; [repeat (constructor; [done|]); done| |].
  - cbn [length]. by rewrite <- (Nat.Div0.add_mod_idemp_r 2 (length (unitBytes us))), IH2.
  - cbn [pairUnits]. by rewrite H3, Hd, IH3.
Qed.

Lemma unitBytes_pairUnits bs us : octets_ok bs -> pairUnits bs = Some us -> shifted us /\ unitBytes us = bs.
Proof.
  remember (length bs) as len eqn:El. revert bs us El. induction len as [len IH] using lt_wf_ind. intros [|b0 [|b1 bs]] us -> Ho; cbn [pairUnits]; [by intros [= <-]|done|].
  apply Forall_cons in Ho as [H0 Ho]. apply Forall_cons in Ho as [H1 Ho]. destruct (byte_unit b0 b1 H0 H1) as (Hu & Hh & Hl). cbn zeta in *.
  destruct (isDirect _) eqn:Ed; [done|]. destruct (pairUnits bs) as [us'|] eqn:E; [|done]. intros [= <-].
  destruct (IH (length bs) ltac:(cbn; lia) bs us' eq_refl Ho E) as [Hs Hb]. split; [by constructor|].
  change (unitBytes (?u :: us')) with (Z.shiftr u 8 :: Z.land u 0xff :: unitBytes us'). cbn. by rewrite Hh, Hl, <- Hb.
Qed.

Lemma decodeRun_encode us : shifted us -> decodeRun (encodeTriples (unitBytes us)) = Some us /\ 45 ∉ encodeTriples (unitBytes us).
Proof.
  intros Hs. destruct (pairUnits_unitBytes us Hs) as (Ho & Hl & Hp). destruct (decode_encodeTriples 0 _ Ho) as (b & n & E & [Hn Hb] & Hd).
  split; [|done]. unfold decodeRun. rewrite E, Hb, Hl. by replace (6 <=? n) with false by lia.
Qed.

Lemma decodeRun_inv s us : decodeRun s = Some us -> shifted us /\ encodeTriples (unitBytes us) = s.
Proof.
  unfold decodeRun. destruct (decodeSextets 0 0 s) as [[[bs b] n]|] eqn:E; [|done]. destruct (_ || _) eqn:Ec; [done|]. intros Hp.
  apply orb_false_iff in Ec as [Ec _]. apply orb_false_iff in Ec as [Hn Hb]. apply negb_false_iff in Hb.
  destruct (encode_decodeSextets 0 s bs b n E) as [Ho He]; [split; lia|]. destruct (unitBytes_pairUnits bs us Ho Hp) as [Hs Hu]. split; [done|]. by rewrite Hu.
Qed.

(** ** Names *)

Lemma decode_flush fuel w us : us <> [] -> shifted us -> decodeNameLoop (S fuel) false (encodeRun us ++ w) = app us <$> decodeNameLoop fuel true w.
Proof.
  intros Hne Hs. destruct (decodeRun_encode us Hs) as [Hd H45]. unfold encodeRun. rewrite <- !app_assoc. cbn [app lit List.map String.list_ascii_of_string decodeNameLoop].
  change (isDirect 38) with true. change (38 =? 0x26) with true. cbn [negb]. rewrite indexOf_first by done.
  assert (Hl : length (encodeTriples (unitBytes us)) <> 0%nat).
  { intros E%nil_length_inv. destruct us as [|u us]; [done|]. rewrite E in Hd. apply Forall_cons in Hs as [_ _]. by vm_compute in Hd. }
  destruct (length (encodeTriples (unitBytes us))) as [|k] eqn:E; [done|]. rewrite <- E, take_app_length, Hd. rewrite drop_app_ge by lia.
  by replace (S (length (encodeTriples (unitBytes us))) - length (encodeTriples (unitBytes us)))%nat with 1%nat by lia.
Qed.

(** A name that may follow a shifted run. *)
Definition startsDirect (name : jsstr) : Prop := match name with [] => True | u :: _ => isDirect u = true end.

Lemma decode_direct fuel ar u w :
  isDirect u = true -> decodeNameLoop (S fuel) ar (directText u ++ w) = cons u <$> decodeNameLoop fuel false w.
Proof. intros Hu. unfold directText. destruct (u =? 0x26) eqn:E; cbn [app lit decodeNameLoop]; [by replace u with 38 by lia|]. by rewrite Hu, E. Qed.

Lemma encode_piece_length u : (1 <= length (directText u))%nat.
Proof. unfold directText. destruct (u =? 0x26); cbn; lia. Qed.

Lemma encodeRun_length us : (1 <= length (encodeRun us))%nat.
Proof. unfold encodeRun. rewrite !length_app. cbn. lia. Qed.

Lemma decode_encodeLoop name run fuel ar :
  units_ok name -> shifted run -> (run = [] /\ startsDirect name \/ ar = false) -> (length (encodeNameLoop run name) <= fuel)%nat ->
  decodeNameLoop fuel ar (encodeNameLoop run name) = Some (run ++ name).
Proof.
  revert run fuel ar. induction name as [|u name IH]; intros run fuel ar Hn Hr Har Hf; cbn [encodeNameLoop] in *.
  - destruct run as [|r run]; [by destruct fuel|]. destruct Har as [[? _]| ->]; [done|]. cbn [flushRun] in *. pose proof (encodeRun_length (r :: run)).
    destruct fuel as [|fuel]; [lia|]. rewrite <- (app_nil_r (encodeRun _)), decode_flush by done. by destruct fuel.
  - apply Forall_cons in Hn as [Hu Hn]. destruct (isDirect u) eqn:Ed.
    + rewrite !length_app in Hf. pose proof (encode_piece_length u). destruct run as [|r run]; cbn [flushRun] in *.
      * destruct fuel as [|fuel]; [cbn in *; lia|]. cbn [app]. rewrite decode_direct, IH by (done || (by right) || (cbn in *; lia)). done.
      * destruct Har as [[? _]| ->]; [done|]. pose proof (encodeRun_length (r :: run)). destruct fuel as [|[|fuel]]; [lia|lia|].
        rewrite decode_flush, decode_direct, IH by (done || (by right) || lia). done.
    + destruct Har as [[-> Hd]| ->]; [cbn in Hd; congruence|]. rewrite IH; [by rewrite <- app_assoc|done| |by right|done].
      apply Forall_app_2; [done|]. by constructor.
Qed.

Lemma encodeLoop_shifted us name run : shifted us -> encodeNameLoop run (us ++ name) = encodeNameLoop (run ++ us) name.
Proof.
  intros H. revert run. induction H as [|u us [_ Hd] _ IH]; intros run; [by rewrite app_nil_r|]. cbn [app encodeNameLoop]. rewrite Hd, IH. by rewrite <- app_assoc.
Qed.

Lemma encodeLoop_flush us name : startsDirect name -> encodeNameLoop us name = flushRun us ++ encodeNameLoop [] name.
Proof. destruct name as [|u name]; cbn; [by rewrite app_nil_r|]. by intros ->. Qed.

Lemma encode_decodeLoop fuel ar w name :
  (length w <= fuel)%nat -> decodeNameLoop fuel ar w = Some name -> encodeNameLoop [] name = w /\ units_ok name /\ (ar = true -> startsDirect name).
Proof.
  revert ar w name. induction fuel as [|fuel IH]; intros ar [|c w] name Hf; cbn [decodeNameLoop length] in *; [by intros [= <-]|lia|by intros [= <-]|].
  destruct (isDirect c) eqn:Ed; cbn [negb]; [|done]. assert (Hc : is_unit c) by (unfold isDirect in Ed; unfold is_unit; lia).
  destruct (c =? 0x26) eqn:E; cbn [negb].
  - destruct (indexOf 45 w) as [k|] eqn:Ei; [|done]. apply indexOf_Some in Ei as [Hw _]. replace c with 38 in * by lia. destruct k as [|k].
    + destruct (decodeNameLoop fuel false (drop 1 w)) as [n|] eqn:En; [|done]. intros [= <-]. apply IH in En as (He & Hu & _); [|rewrite length_drop; lia].
      split_and!; [|by constructor|done]. rewrite Hw. cbn [encodeNameLoop]. by rewrite Ed, He.
    + destruct ar; [done|]. destruct (decodeRun (take (S k) w)) as [us|] eqn:Er; [|done]. destruct (decodeNameLoop fuel true (drop (S (S k)) w)) as [n|] eqn:En; [|done].
      intros [= <-]. apply IH in En as (He & Hu & Hs); [|rewrite length_drop; lia]. apply decodeRun_inv in Er as [Hsh Her]. split_and!; [| |done].
      * rewrite encodeLoop_shifted, encodeLoop_flush, He by auto. destruct us as [|u us].
        { destruct w; [done|]. by vm_compute in Her. }
        cbn [app flushRun]. unfold encodeRun. rewrite Her, <- !app_assoc. rewrite Hw at 3. done.
      * apply Forall_app_2; [|done]. eapply Forall_impl; [done|]. by intros u [? _].
  - destruct (decodeNameLoop fuel false w) as [n|] eqn:En; [|done]. intros [= <-]. apply IH in En as (He & Hu & _); [|lia].
    split_and!; [|by constructor|done]. cbn [encodeNameLoop]. unfold directText. by rewrite Ed, E, He.
Qed.

(** C25: A text is accepted as the spelling of a mailbox name exactly when it is what the encoder writes for that name: every name has
    one spelling, every spelling one name. *)
Theorem mailbox_names_bijective wire name : decodeMailboxName wire = Some name <-> units_ok name /\ encodeMailboxName name = wire.
Proof.
  unfold decodeMailboxName, encodeMailboxName. split.
  - intros H. apply encode_decodeLoop in H as (? & ? & _); [done|lia].
  - intros [Hu <-]. apply decode_encodeLoop; [done|constructor|by right|lia].
Qed.

Example mutf7_demo :
  encodeMailboxName ([0x7e; 112; 0x53f0; 0x5317] ++ js " & x") = js "~p&U,BTFw- &- x" /\
  decodeMailboxName (js "~p&U,BTFw- &- x") = Some ([0x7e; 112; 0x53f0; 0x5317] ++ js " & x") /\
  decodeMailboxName (js "&AGE-") = None /\ decodeMailboxName (js "&U,BTFw-&ZeVnLIqe-") = None /\ decodeMailboxName (js "&U,BTFx-") = None.
Proof. by vm_compute. Qed.
