(* ===== verification/ImapReader.v ===== *)
(** * ImapReader: the streaming IMAP command reader ([imap-proto/src/reader.ts])

    The state of the class [CommandReader] is a record, the fields that [resetCommand] clears a record of
    their own. A size is [None] when the announced digits do not fit ([Infinity]). *)
From S2P Require Import Prelude JsString JsStringFacts.

Inductive LiteralMode := LiteralMinus | LiteralPlus | LiteralNone.

Record ReaderOptions := mkReaderOptions { maxLineLength : Z; maxCommandSize : Z; maxLiterals : Z; maxAppendSize : Z; literalMode : LiteralMode }.

Inductive ReaderErrorCode :=
  | BareLf | BareCr | LineTooLong | CommandTooLarge | LiteralTooLarge | TooManyLiterals | NonSyncLiteralTooLarge | NonSyncLiteralRefused.

Record ReaderError := mkReaderError { re_code : ReaderErrorCode; re_tag : option jsstr; re_fatal : bool; re_message : jsstr }.

Inductive ReaderEvent :=
  | EvCommand (tag : option jsstr) (bs : bytes)
  | EvContinue (tag : option jsstr) (size : Z)
  | EvAppendBegin (tag : option jsstr) (prefix : bytes) (size : Z) (binary synchronizing continued : bool)
  | EvAppendData (chunk : bytes)
  | EvAppendEnd (tag : option jsstr) (trailing : bytes)
  | EvRawLine (line : bytes)
  | EvError (error : ReaderError).

Definition DEFAULT_MAX_LINE_LENGTH : Z := 64 * 1024.
Definition DEFAULT_MAX_COMMAND_SIZE : Z := 1024 * 1024.
Definition DEFAULT_MAX_LITERALS : Z := 64.
Definition DEFAULT_MAX_APPEND_SIZE : Z := 100 * 1000 * 1000.
Definition LITERAL_MINUS_MAX : Z := 4096.
Definition TAIL : nat := 32.

Definition defaultReaderOptions : ReaderOptions :=
  mkReaderOptions DEFAULT_MAX_LINE_LENGTH DEFAULT_MAX_COMMAND_SIZE DEFAULT_MAX_LITERALS DEFAULT_MAX_APPEND_SIZE LiteralMinus.

(** ** The end and the start of a line *)

Record LiteralMarker := mkMarker { mk_start : nat; mk_size : option Z; mk_nonSync : bool; mk_binary : bool }.

(** The scan from the end of the line: [r] is the line reversed, after the brace. *)
Definition literalMarkerAt (line : bytes) : option LiteralMarker :=
  match rev line with
  | 0x7d :: r =>
      let nonSync := match r with c :: _ => c =? 0x2b | [] => false end in
      let r := if nonSync then drop 1 r else r in
      let digits := takeWhile is_digit r in
      match digits, drop (length digits) r with
      | _ :: _, 0x7b :: before =>
          let size := if (15 <? length digits)%nat then None else Some (Number (rev digits)) in
          let binary := match before with c :: _ => c =? 0x7e | [] => false end in
          Some (mkMarker (if binary then length before - 1 else length before) size nonSync binary)
      | _, _ => None
      end
  | _ => None
  end.

Definition isTagChar (c : Z) : bool :=
  (0x20 <? c) && (c <? 0x7f) && negb (c =? 0x28) && negb (c =? 0x29) && negb (c =? 0x7b) && negb (c =? 0x25) && negb (c =? 0x2a) && negb (c =? 0x22) &&
  negb (c =? 0x5c) && negb (c =? 0x2b).

Definition extractTag (line : bytes) : option jsstr :=
  let tag := takeWhile isTagChar (take 256 line) in
  match tag, line !! length tag with
  | _ :: _, Some c => if c =? SP then Some tag else None
  | _, _ => None
  end.

(** For "tag APPEND ..." the offset of the first argument. *)
Definition appendArgStart `{Runtime} (line : bytes) (tag : option jsstr) : option nat :=
  match tag with
  | None => None
  | Some tag =>
      let at_ := S (length tag) in
      if (length line <? at_ + 7)%nat then None
      else if negb (bool_decide (toUpperCase (sub line at_ (at_ + 6)) = js "APPEND")) || negb (bool_decide (line !! (at_ + 6)%nat = Some SP)) then None
      else Some (at_ + 7)%nat
  end.

(** ** The state *)

Inductive Mode := MLine | MLiteral | MAppend | MDiscard | MSkip | MDead.
#[export] Instance Mode_eq_dec : EqDecision Mode.
Proof. solve_decision. Defined.

(** The command being assembled. *)
Record Assembly := mkAssembly {
  parts : list bytes; cmdSize : Z; fragment : nat; as_tag : option jsstr; appendAt : option nat; appendStreamed : bool; literals : Z; remaining : Z }.

(** What [resetCommand] leaves. *)
Definition resetCommand : Assembly := mkAssembly [] 0 0 None None false 0 0.

Record Reader := mkReader {
  rd_queue : list bytes; rd_offset : nat; rd_events : list ReaderEvent; rd_mode : Mode;
  lineParts : list bytes; rd_lineLen : Z; rawLine : bool; assembly : Assembly; awaitingSync : bool; rd_tail : bytes }.

Definition newReader : Reader := mkReader [] 0 [] MLine [] 0 false resetCommand false [].

Definition set_input (queue : list bytes) (offset : nat) (r : Reader) : Reader :=
  mkReader queue offset (rd_events r) (rd_mode r) (lineParts r) (rd_lineLen r) (rawLine r) (assembly r) (awaitingSync r) (rd_tail r).
Definition set_events (events : list ReaderEvent) (r : Reader) : Reader :=
  mkReader (rd_queue r) (rd_offset r) events (rd_mode r) (lineParts r) (rd_lineLen r) (rawLine r) (assembly r) (awaitingSync r) (rd_tail r).
Definition set_mode (mode : Mode) (r : Reader) : Reader :=
  mkReader (rd_queue r) (rd_offset r) (rd_events r) mode (lineParts r) (rd_lineLen r) (rawLine r) (assembly r) (awaitingSync r) (rd_tail r).
Definition set_line (ps : list bytes) (len : Z) (r : Reader) : Reader :=
  mkReader (rd_queue r) (rd_offset r) (rd_events r) (rd_mode r) ps len (rawLine r) (assembly r) (awaitingSync r) (rd_tail r).
Definition set_rawLine (raw : bool) (r : Reader) : Reader :=
  mkReader (rd_queue r) (rd_offset r) (rd_events r) (rd_mode r) (lineParts r) (rd_lineLen r) raw (assembly r) (awaitingSync r) (rd_tail r).
Definition set_assembly (a : Assembly) (r : Reader) : Reader :=
  mkReader (rd_queue r) (rd_offset r) (rd_events r) (rd_mode r) (lineParts r) (rd_lineLen r) (rawLine r) a (awaitingSync r) (rd_tail r).
Definition set_awaitingSync (b : bool) (r : Reader) : Reader :=
  mkReader (rd_queue r) (rd_offset r) (rd_events r) (rd_mode r) (lineParts r) (rd_lineLen r) (rawLine r) (assembly r) b (rd_tail r).
Definition set_tail (t : bytes) (r : Reader) : Reader :=
  mkReader (rd_queue r) (rd_offset r) (rd_events r) (rd_mode r) (lineParts r) (rd_lineLen r) (rawLine r) (assembly r) (awaitingSync r) t.

Definition emit (e : ReaderEvent) (r : Reader) : Reader := set_events (rd_events r ++ [e]) r.

(** [this.tag = tag]. *)
Definition set_as_tag (tag : option jsstr) (a : Assembly) : Assembly :=
  mkAssembly (parts a) (cmdSize a) (fragment a) tag (appendAt a) (appendStreamed a) (literals a) (remaining a).

Section reader.
Context `{Runtime} (o : ReaderOptions).

Definition bufferedBytes (r : Reader) : Z :=
  Z.of_nat (length (concat (rd_queue r))) - Z.of_nat (rd_offset r) + rd_lineLen r + cmdSize (assembly r).

Definition push (chunk : bytes) (r : Reader) : Reader :=
  if bool_decide (rd_mode r = MDead) || (length chunk =? 0)%nat then r else set_input (rd_queue r ++ [chunk]) (rd_offset r) r.

Definition rejectLiteral (r : Reader) : bool * Reader :=
  match awaitingSync r, rd_events r with
  | true, [] => (true, set_mode MLine (set_assembly resetCommand (set_awaitingSync false r)))
  | _, _ => (false, r)
  end.

Definition expectRawLine (r : Reader) : Reader := set_rawLine true r.

Definition emitError (code : ReaderErrorCode) (tag : option jsstr) (fatal : bool) (message : jsstr) (r : Reader) : Reader :=
  let r := emit (EvError (mkReaderError code tag fatal message)) r in
  if fatal then set_line [] 0 (set_assembly resetCommand (set_input [] 0 (set_mode MDead r))) else r.

(** [size > n]. *)
Definition sizeAbove (size : option Z) (n : Z) : bool := match size with None => true | Some k => n <? k end.

(** The error a non-synchronizing literal is refused with, if it is. *)
Definition nonSyncFatal (m : LiteralMarker) (tag : option jsstr) (r : Reader) : bool * Reader :=
  match literalMode o with
  | LiteralNone => (true, emitError NonSyncLiteralRefused tag true (js "non-synchronizing literals are not supported") r)
  | LiteralMinus =>
      if sizeAbove (mk_size m) LITERAL_MINUS_MAX
      then (true, emitError NonSyncLiteralTooLarge tag true (js "non-synchronizing literal larger than " ++ dec LITERAL_MINUS_MAX ++ js " octets (LITERAL-)") r)
      else (false, r)
  | LiteralPlus => (false, r)
  end.

Definition afterFailedLine (line : bytes) (tag : option jsstr) (r : Reader) : Reader :=
  match literalMarkerAt line with
  | None => set_mode MLine r
  | Some m =>
      if negb (mk_nonSync m) then set_mode MLine r
      else
        let '(fatal, r) := nonSyncFatal m tag r in
        if fatal then r
        else
          match mk_size m with
          | None => emitError NonSyncLiteralTooLarge tag true (js "unbounded non-synchronizing literal") r
          | Some n =>
              let a := assembly r in
              set_mode MSkip (set_assembly (mkAssembly (parts a) (cmdSize a) (fragment a) tag (appendAt a) (appendStreamed a) (literals a) n) r)
          end
  end.

Definition failLine (code : ReaderErrorCode) (tag : option jsstr) (line : bytes) (message : jsstr) (r : Reader) : Reader :=
  afterFailedLine line tag (set_assembly resetCommand (emitError code tag false message (set_rawLine false r))).

(** From "if (streaming)" on: the literal [size] announced by [line] is taken. *)
Definition beginLiteral (line : bytes) (m : LiteralMarker) (streaming : bool) (a : Assembly) (r : Reader) : Reader :=
  let tag := as_tag a in
  if streaming then
    match mk_size m with
    | Some size =>
        if maxAppendSize o <? size then failLine LiteralTooLarge tag line (js "message literal larger than " ++ dec (maxAppendSize o) ++ js " octets") (set_assembly a r)
        else
          let prefix := if appendStreamed a then line else concat (parts a ++ [line]) in
          set_awaitingSync (negb (mk_nonSync m))
            (set_mode MAppend
              (set_assembly (mkAssembly [] 0 (fragment a) (as_tag a) (appendAt a) true (literals a) size)
                (emit (EvAppendBegin tag prefix size (mk_binary m) (negb (mk_nonSync m)) (appendStreamed a)) r)))
    | None => failLine LiteralTooLarge tag line (js "message literal larger than " ++ dec (maxAppendSize o) ++ js " octets") (set_assembly a r)
    end
  else
    let tooLarge := failLine LiteralTooLarge tag line (js "literal would make the command larger than " ++ dec (maxCommandSize o) ++ js " octets") (set_assembly a r) in
    match mk_size m with
    | Some size =>
        if maxCommandSize o <? cmdSize a + size then tooLarge
        else
          let r := set_mode MLiteral
            (set_assembly (mkAssembly (parts a ++ [line; CRLF]) (cmdSize a + size) (fragment a) (as_tag a) (appendAt a) (appendStreamed a) (literals a) size) r) in
          if mk_nonSync m then r else set_awaitingSync true (emit (EvContinue tag size) r)
    | None => tooLarge
    end.

(** A line that ends with CRLF, holds no other CR and is not verbatim. *)
Definition commandLine (first : bool) (line : bytes) (tag : option jsstr) (r : Reader) : Reader :=
  let a := assembly r in
  let a := if first then mkAssembly (parts a) (cmdSize a) (fragment a) tag (appendArgStart line tag) (appendStreamed a) (literals a) (remaining a) else a in
  let marker := literalMarkerAt line in
  let size := cmdSize a + Z.of_nat (length line) + (match marker with Some _ => 2 | None => 0 end) in
  let a := mkAssembly (parts a) size (fragment a) (as_tag a) (appendAt a) (appendStreamed a) (literals a) (remaining a) in
  if maxCommandSize o <? size then failLine CommandTooLarge tag line (js "command larger than " ++ dec (maxCommandSize o) ++ js " octets") (set_assembly a r)
  else
    match marker with
    | None =>
        let e := if appendStreamed a then EvAppendEnd tag line else EvCommand tag (concat (parts a ++ [line])) in
        set_assembly resetCommand (emit e r)
    | Some m =>
        let a := mkAssembly (parts a) (cmdSize a) (fragment a) (as_tag a) (appendAt a) (appendStreamed a) (literals a + 1) (remaining a) in
        if maxLiterals o <? literals a
        then failLine TooManyLiterals tag line (js "more than " ++ dec (maxLiterals o) ++ js " literals in one command") (set_assembly a r)
        else
          let '(fatal, r) := if mk_nonSync m then nonSyncFatal m tag (set_assembly a r) else (false, r) in
          if fatal then r
          else
            let streaming := match appendAt a with Some at_ => negb (first && (mk_start m =? at_)%nat) | None => false end in
            beginLiteral line m streaming (mkAssembly (parts a) (cmdSize a) (S (fragment a)) (as_tag a) (appendAt a) (appendStreamed a) (literals a) (remaining a)) r
    end.

Definition completeLine (raw : bytes) (r : Reader) : Reader :=
  let crlf := bool_decide (last raw = Some CR) in
  let line := if crlf then take (length raw - 1) raw else raw in
  let first := (fragment (assembly r) =? 0)%nat && negb (rawLine r) in
  let tag := if first then extractTag line else as_tag (assembly r) in
  if negb crlf then failLine BareLf tag line (js "line ended with a bare LF; IMAP lines end with CRLF") r
  else if existsb (fun c => c =? CR) line then failLine BareCr tag line (js "bare CR inside a line") r
  else if rawLine r then emit (EvRawLine line) (set_rawLine false r)
  else if maxLineLength o <? Z.of_nat (length line) then failLine LineTooLong tag line (js "line longer than " ++ dec (maxLineLength o) ++ js " octets") r
  else commandLine first line tag r.

(** [subarray(-n)]. *)
Definition lastN (n : nat) (l : bytes) : bytes := drop (length l - n) l.

(** [rest] is what is left of the chunk, [lf] where its first LF is. *)
Definition stepLine (rest : bytes) (r : Reader) : Reader :=
  let lf := indexOf LF rest in
  let end_ := default (length rest) lf in
  let piece := take end_ rest in
  let at_ n (r : Reader) := set_input (rd_queue r) (rd_offset r + n)%nat r in
  if maxLineLength o + 1 <? rd_lineLen r + Z.of_nat (length piece) then
    let head := concat (lineParts r ++ [take 256 piece]) in
    let tag := if (fragment (assembly r) =? 0)%nat && negb (rawLine r) then extractTag head else as_tag (assembly r) in
    let tail := lastN TAIL (concat (lineParts r ++ [piece])) in
    let r := at_ end_ (set_line [] 0 (set_tail tail (set_rawLine false r))) in
    let r := emitError LineTooLong tag false (js "line longer than " ++ dec (maxLineLength o) ++ js " octets") r in
    set_mode MDiscard (set_assembly (set_as_tag tag resetCommand) r)
  else
    let r := if (0 <? length piece)%nat then set_line (lineParts r ++ [piece]) (rd_lineLen r + Z.of_nat (length piece)) r else r in
    match lf with
    | None => at_ (length rest) r
    | Some lf => completeLine (concat (lineParts r)) (set_line [] 0 (at_ (S lf) r))
    end.

Definition stepDiscard (rest : bytes) (r : Reader) : Reader :=
  let lf := indexOf LF rest in
  let end_ := default (length rest) lf in
  let piece := take end_ rest in
  let at_ n (r : Reader) := set_input (rd_queue r) (rd_offset r + n)%nat r in
  let tail := if (TAIL <=? length piece)%nat then drop (length piece - TAIL) piece else lastN TAIL (rd_tail r ++ piece) in
  match lf with
  | None => at_ (length rest) (set_tail tail r)
  | Some lf =>
      let t := if bool_decide (last tail = Some CR) then take (length tail - 1) tail else tail in
      let tag := as_tag (assembly r) in
      afterFailedLine t tag (set_assembly resetCommand (set_tail [] (at_ (S lf) r)))
  end.

(** [n] octets of what is left of the chunk belong to the literal. *)
Definition stepLiteral (rest : bytes) (r : Reader) : Reader :=
  let a := assembly r in
  let n := Z.to_nat (Z.min (remaining a) (Z.of_nat (length rest))) in
  let left := remaining a - Z.of_nat n in
  let consume (ps : list bytes) (r : Reader) :=
    set_input (rd_queue r) (rd_offset r + n)%nat
      (set_assembly (mkAssembly ps (cmdSize a) (fragment a) (as_tag a) (appendAt a) (appendStreamed a) (literals a) left) r) in
  match rd_mode r with
  | MLiteral => consume (parts a ++ [take n rest]) r
  | MAppend => consume (parts a) (emit (EvAppendData (take n rest)) r)
  | _ => consume (parts a) r
  end.

Definition isLiteralMode (m : Mode) : bool := match m with MLiteral | MAppend | MSkip => true | _ => false end.

(** One turn of the loop of [pump], or nothing when it returns. *)
Definition pumpStep (r : Reader) : option Reader :=
  match rd_events r, rd_mode r with
  | _ :: _, _ => None
  | _, MDead => None
  | [], mode =>
      if isLiteralMode mode && (remaining (assembly r) =? 0) then Some (set_mode (match mode with MSkip => MDiscard | _ => MLine end) r)
      else
        match rd_queue r with
        | [] => None
        | chunk :: queue =>
            if (length chunk <=? rd_offset r)%nat then Some (set_input queue 0 r)
            else
              let rest := drop (rd_offset r) chunk in
              Some match mode with
                   | MLine => stepLine rest r
                   | MDiscard => stepDiscard rest r
                   | _ => stepLiteral rest r
                   end
        end
  end.

Fixpoint pumpLoop (fuel : nat) (r : Reader) : Reader :=
  match fuel with O => r | S fuel => match pumpStep r with Some r => pumpLoop fuel r | None => r end end.

(** Two rounds an octet, one a chunk, and the change of mode after a literal. *)
Definition pumpFuel (r : Reader) : nat := 2 * length (concat (rd_queue r)) + length (rd_queue r) + 2.

Definition pump (r : Reader) : Reader := let r := set_awaitingSync false r in pumpLoop (pumpFuel r) r.

Definition next (r : Reader) : option ReaderEvent * Reader :=
  let r := match rd_events r with [] => pump r | _ => r end in
  match rd_events r with [] => (None, r) | e :: es => (Some e, set_events es r) end.

End reader.
