(* ===== verification/ImapReaderProofs.v ===== *)
(** * ImapReaderProofs: the command reader does not depend on how its input is cut, and reads back what a client writes *)
From S2P Require Import Prelude JsString JsStringFacts ImapReader.

(** ** The daemon's side

    After each event the daemon may refuse the literal just announced and may ask for the next line verbatim; it does neither
    in answer to message data or to an error. It decides on what it has seen so far, its state being of any type. *)
Record Reaction := mkReaction { ra_reject : bool; ra_raw : bool }.

(** An event that leaves the daemon nothing to answer the reader with. *)
Definition passive (e : ReaderEvent) : bool := match e with EvAppendData _ | EvError _ => true | _ => false end.

(** Events without the tags of errors, message data octet by octet. *)
Definition untagged (e : ReaderEvent) : ReaderEvent :=
  match e with EvError err => EvError (mkReaderError (re_code err) None (re_fatal err) (re_message err)) | e => e end.
Definition flatEvent (e : ReaderEvent) : list ReaderEvent :=
  match e with EvAppendData c => (fun b => EvAppendData [b]) <$> c | e => [untagged e] end.
Definition flat (es : list ReaderEvent) : list ReaderEvent := concat (flatEvent <$> es).

Section driver.
Context `{Runtime} (o : ReaderOptions) {D : Type} (react : D -> ReaderEvent -> D * Reaction).

Definition respond (d : D) (e : ReaderEvent) (r : Reader) : D * Reader :=
  if passive e then (d, r)
  else
    let '(d, x) := react d e in
    let r := if ra_reject x then (rejectLiteral r).2 else r in
    (d, if ra_raw x then expectRawLine r else r).

(** Pull events until there is none. *)
Fixpoint drain (fuel : nat) (d : D) (r : Reader) : D * Reader * list ReaderEvent :=
  match fuel with
  | O => (d, r, [])
  | S fuel =>
      match next o r with
      | (None, r) => (d, r, [])
      | (Some e, r) =>
          let '(d, r) := respond d e r in
          let '(d, r, es) := drain fuel d r in
          (d, r, e :: es)
      end
  end.

(** An octet gives two events at most. *)
Definition drainFuel (r : Reader) : nat := 2 * length (concat (rd_queue r)) + length (rd_events r) + 1.

(** Push each chunk and pull what it gives. *)
Fixpoint readChunks (d : D) (r : Reader) (chunks : list bytes) : D * Reader * list ReaderEvent :=
  match chunks with
  | [] => (d, r, [])
  | c :: chunks =>
      let r := push c r in
      let '(d, r, es) := drain (drainFuel r) d r in
      let '(d, r, es') := readChunks d r chunks in
      (d, r, es ++ es')
  end.

(** ** One octet at a time *)

(** The mode after a literal that has been read. *)
Definition modeOf (r : Reader) : Mode :=
  if isLiteralMode (rd_mode r) && (remaining (assembly r) =? 0) then match rd_mode r with MSkip => MDiscard | _ => MLine end else rd_mode r.

Definition oct (b : Z) (r : Reader) : Reader :=
  let r := set_mode (modeOf r) (set_awaitingSync false r) in
  match rd_mode r with
  | MDead => r
  | MLine => stepLine o [b] r
  | MDiscard => stepDiscard o [b] r
  | _ => stepLiteral [b] r
  end.

(** Hand the waiting events to the daemon. *)
Fixpoint settleEvents (d : D) (r : Reader) (es : list ReaderEvent) : D * Reader :=
  match es with
  | [] => (d, r)
  | e :: es => let '(d, r) := respond d e (set_events es r) in settleEvents d r es
  end.
Definition settle (d : D) (r : Reader) : D * Reader * list ReaderEvent := (settleEvents d r (rd_events r), rd_events r).

Fixpoint octets (d : D) (r : Reader) (x : bytes) : D * Reader * list ReaderEvent :=
  match x with
  | [] => (d, r, [])
  | b :: x =>
      let '(d, r, es) := settle d (oct b r) in
      let '(d, r, es') := octets d r x in
      (d, r, es ++ es')
  end.

(** What of a reader the rest of the stream can show: not how the input, the line and the parts are cut, and not the tag of a command that is being discarded. *)
Definition coreTag (m : Mode) (tag : option jsstr) : option jsstr := match m with MDiscard | MSkip => None | _ => tag end.
Definition coreAssembly (m : Mode) (a : Assembly) : Assembly :=
  mkAssembly [concat (parts a)] (cmdSize a) (fragment a) (coreTag m (as_tag a)) (appendAt a) (appendStreamed a) (literals a) (remaining a).
Definition core (r : Reader) : Reader :=
  mkReader [] 0 (untagged <$> rd_events r) (modeOf r) [concat (lineParts r)] (rd_lineLen r) (rawLine r) (coreAssembly (modeOf r) (assembly r)) (awaitingSync r) (rd_tail r).

End driver.

(** ** The steps respect the core *)

Ltac reader_cbn := cbn [rd_queue rd_offset rd_events rd_mode lineParts rd_lineLen rawLine assembly awaitingSync rd_tail parts cmdSize fragment as_tag appendAt appendStreamed literals remaining
  set_input set_events set_mode set_line set_rawLine set_assembly set_awaitingSync set_tail emit resetCommand set_as_tag isLiteralMode andb coreAssembly coreTag modeOf core] in *.

(** Equality of cores, field by field. *)
Ltac core_eq := unfold core, modeOf, coreAssembly, coreTag; reader_cbn; repeat (rewrite ?concat_app, ?fmap_app, ?app_nil_r, <- ?app_assoc in *; cbn [concat app fmap list_fmap untagged re_code re_tag re_fatal re_message]); repeat match goal with |- context [?z =? 0] => destruct (z =? 0) end; congruence.

Section core.
Context `{Runtime} (o : ReaderOptions).

Lemma afterFailedLine_core line tag tag' q off q' off' es es' m m' lp lp' ll raw aw tl :
  untagged <$> es = untagged <$> es' -> concat lp = concat lp' ->
  core (afterFailedLine o line tag (mkReader q off es m lp ll raw resetCommand aw tl)) = core (afterFailedLine o line tag' (mkReader q' off' es' m' lp' ll raw resetCommand aw tl)).
Proof.
  intros He Hl. unfold afterFailedLine, nonSyncFatal, emitError. repeat case_match; simplify_eq; core_eq.
Qed.

Lemma failLine_core code line tag message q off q' off' es es' m m' lp lp' ll raw a a' aw tl :
  untagged <$> es = untagged <$> es' -> concat lp = concat lp' ->
  core (failLine o code tag line message (mkReader q off es m lp ll raw a aw tl)) = core (failLine o code tag line message (mkReader q' off' es' m' lp' ll raw a' aw tl)).
Proof. intros He Hl. unfold failLine, emitError. reader_cbn. apply afterFailedLine_core; [|done]. cbn. rewrite !fmap_app. cbn. congruence. Qed.

Lemma beginLiteral_core line mk streaming q off q' off' es es' lp lp' ll rl b b' ps ps' cs fr tg ap st li rem aw tl :
  untagged <$> es = untagged <$> es' -> concat lp = concat lp' -> concat ps = concat ps' ->
  core (beginLiteral o line mk streaming (mkAssembly ps cs fr tg ap st li rem) (mkReader q off es MLine lp ll rl b aw tl)) =
  core (beginLiteral o line mk streaming (mkAssembly ps' cs fr tg ap st li rem) (mkReader q' off' es' MLine lp' ll rl b' aw tl)).
Proof.
  intros He Hl Hp. unfold beginLiteral. reader_cbn. destruct streaming, (mk_size mk) as [n|]; try (by apply failLine_core);
    (destruct (_ <? _); [by apply failLine_core|]); destruct (mk_nonSync mk); try destruct st; core_eq.
Qed.

Lemma commandLine_core first line tag q off q' off' es es' lp lp' ll rl ps ps' cs fr tg ap st li rem aw tl :
  untagged <$> es = untagged <$> es' -> concat lp = concat lp' -> concat ps = concat ps' ->
  core (commandLine o first line tag (mkReader q off es MLine lp ll rl (mkAssembly ps cs fr tg ap st li rem) aw tl)) =
  core (commandLine o first line tag (mkReader q' off' es' MLine lp' ll rl (mkAssembly ps' cs fr tg ap st li rem) aw tl)).
Proof.
  intros He Hl Hp. unfold commandLine. destruct first; reader_cbn; (destruct (_ <? _); [by apply failLine_core|]); (destruct (literalMarkerAt line) as [mk|]; [|destruct st; core_eq]);
    (destruct (_ <? _); [by apply failLine_core|]); unfold nonSyncFatal, emitError; reader_cbn;
    destruct (mk_nonSync mk); try destruct (literalMode o); try destruct (sizeAbove _ _); reader_cbn; try (by apply beginLiteral_core); core_eq.
Qed.

Lemma completeLine_core raw q off q' off' es es' lp lp' ll rl ps ps' cs fr tg ap st li rem aw tl :
  untagged <$> es = untagged <$> es' -> concat lp = concat lp' -> concat ps = concat ps' ->
  core (completeLine o raw (mkReader q off es MLine lp ll rl (mkAssembly ps cs fr tg ap st li rem) aw tl)) =
  core (completeLine o raw (mkReader q' off' es' MLine lp' ll rl (mkAssembly ps' cs fr tg ap st li rem) aw tl)).
Proof.
  intros He Hl Hp. unfold completeLine. reader_cbn. destruct (bool_decide _); cbn [negb]; [|by apply failLine_core].
  destruct (existsb _ _); [by apply failLine_core|]. destruct rl; [core_eq|]. destruct (_ <? _); [by apply failLine_core|]. by apply commandLine_core.
Qed.

(** Two readers of which the rest of the stream shows the same: the fields, and the same mode once a finished literal is left. *)
Lemma core_fields r r' : core r = core r' ->
  fmap untagged (rd_events r) = fmap untagged (rd_events r') /\ modeOf r = modeOf r' /\ concat (lineParts r) = concat (lineParts r') /\ rd_lineLen r = rd_lineLen r' /\
  rawLine r = rawLine r' /\ coreAssembly (modeOf r) (assembly r) = coreAssembly (modeOf r') (assembly r') /\ awaitingSync r = awaitingSync r' /\ rd_tail r = rd_tail r'.
Proof. unfold core. intros E. injection E. intros. split_and!; try done. unfold coreAssembly. congruence. Qed.

Lemma stepLine_core rest q off q' off' lp lp' ll rl ps ps' cs fr tg ap st li rem aw tl :
  concat lp = concat lp' -> concat ps = concat ps' ->
  core (stepLine o rest (mkReader q off [] MLine lp ll rl (mkAssembly ps cs fr tg ap st li rem) aw tl)) =
  core (stepLine o rest (mkReader q' off' [] MLine lp' ll rl (mkAssembly ps' cs fr tg ap st li rem) aw tl)).
Proof.
  intros Hl Hp. unfold stepLine. reader_cbn. destruct (_ <? _).
  - unfold emitError. core_eq.
  - destruct (indexOf LF rest) as [k|]; destruct (0 <? _)%nat; reader_cbn; try core_eq; rewrite ?concat_app, ?Hl; by apply completeLine_core.
Qed.

Lemma stepDiscard_core rest q off q' off' lp lp' ll rl ps ps' cs fr tg tg' ap st li rem aw tl :
  concat lp = concat lp' -> concat ps = concat ps' ->
  core (stepDiscard o rest (mkReader q off [] MDiscard lp ll rl (mkAssembly ps cs fr tg ap st li rem) aw tl)) =
  core (stepDiscard o rest (mkReader q' off' [] MDiscard lp' ll rl (mkAssembly ps' cs fr tg' ap st li rem) aw tl)).
Proof.
  intros Hl Hp. unfold stepDiscard. reader_cbn. destruct (indexOf LF rest) as [k|]; [|core_eq]. by apply afterFailedLine_core.
Qed.

Lemma stepLiteral_core rest m q off q' off' lp lp' ll rl ps ps' cs fr tg tg' ap st li rem aw tl :
  isLiteralMode m = true -> concat lp = concat lp' -> concat ps = concat ps' -> coreTag m tg = coreTag m tg' ->
  core (stepLiteral rest (mkReader q off [] m lp ll rl (mkAssembly ps cs fr tg ap st li rem) aw tl)) =
  core (stepLiteral rest (mkReader q' off' [] m lp' ll rl (mkAssembly ps' cs fr tg' ap st li rem) aw tl)).
Proof.
  intros Hm Hl Hp Ht. unfold stepLiteral. destruct m; try done; reader_cbn; core_eq.
Qed.

Lemma oct_core b r r' : core r = core r' -> rd_events r = [] -> rd_events r' = [] -> core (oct o b r) = core (oct o b r').
Proof.
  intros (_ & Hm & Hl & Hll & Hr & Ha & _ & Ht)%core_fields He He'. unfold oct. rewrite <- Hm in *. set (m := modeOf r) in *. clearbody m. clear Hm.
  destruct r as [q off es m1 lp ll rl [ps cs fr tg ap st li rem] aw tl], r' as [q' off' es' m2 lp' ll' rl' [ps' cs' fr' tg' ap' st' li' rem'] aw' tl']. reader_cbn. simplify_eq.
  destruct m; reader_cbn; simplify_eq; [by apply stepLine_core|by apply stepLiteral_core|by apply stepLiteral_core|by apply stepDiscard_core|by apply stepLiteral_core|core_eq].
Qed.
End core.

(** ** Runs *)

Section runs.
Context `{Runtime} (o : ReaderOptions) {D : Type} (react : D -> ReaderEvent -> D * Reaction).

Abbreviation run := (D * Reader * list ReaderEvent)%type.

(** The same daemon state, the same core, the same events once flattened, nothing waiting. *)
Definition same (x y : run) : Prop :=
  x.1.1 = y.1.1 /\ core x.1.2 = core y.1.2 /\ flat x.2 = flat y.2 /\ rd_events x.1.2 = [] /\ rd_events y.1.2 = [].

Lemma same_sym x y : same x y -> same y x.
Proof. intros (? & ? & ? & ? & ?). by repeat split. Qed.
Lemma same_trans x y z : same x y -> same y z -> same x z.
Proof. intros (? & ? & ? & ? & ?) (? & ? & ? & ? & ?). repeat split; congruence. Qed.

Lemma flat_app es es' : flat (es ++ es') = flat es ++ flat es'.
Proof. unfold flat. by rewrite fmap_app, concat_app. Qed.

Lemma flatEvent_untagged e : flatEvent (untagged e) = flatEvent e.
Proof. by destruct e. Qed.

Lemma flat_untagged es es' : untagged <$> es = untagged <$> es' -> flat es = flat es'.
Proof.
  intros E. assert (Hf : forall l, flat l = flat (untagged <$> l)).
  { intros l. unfold flat. rewrite <- list_fmap_compose. f_equal. apply list_fmap_ext. intros. cbn. by rewrite flatEvent_untagged. }
  by rewrite (Hf es), (Hf es'), E.
Qed.

Lemma modeOf_events es r : modeOf (set_events es r) = modeOf r.
Proof. done. Qed.

Lemma core_set_events es es' r r' : untagged <$> es = untagged <$> es' -> core r = core r' -> core (set_events es r) = core (set_events es' r').
Proof. unfold core. intros He E. injection E. intros. rewrite !modeOf_events. reader_cbn. unfold coreAssembly. congruence. Qed.

Lemma core_rejectLiteral r r' : core r = core r' -> core (rejectLiteral r).2 = core (rejectLiteral r').2.
Proof.
  intros E. destruct (core_fields _ _ E) as (He & Hm & Hl & Hll & Hr & Ha & Hw & Ht). unfold rejectLiteral. rewrite <- Hw. destruct (awaitingSync r); [|done].
  destruct (rd_events r) eqn:E1, (rd_events r') eqn:E'; try done. cbn. unfold core, modeOf. reader_cbn. rewrite E1, E'. congruence.
Qed.

Lemma core_expectRawLine r r' : core r = core r' -> core (expectRawLine r) = core (expectRawLine r').
Proof. unfold core, expectRawLine, modeOf. intros E. injection E. intros. reader_cbn. unfold coreAssembly in *. congruence. Qed.

Lemma respond_core d e e' r r' : untagged e = untagged e' -> core r = core r' -> (respond react d e r).1 = (respond react d e' r').1 /\ core (respond react d e r).2 = core (respond react d e' r').2.
Proof.
  intros He E. unfold respond. assert (Hp : passive e = passive e') by (by destruct e, e'). rewrite <- Hp. destruct (passive e) eqn:Ee; [done|].
  assert (e' = e) as -> by (by destruct e, e'). destruct (react d e) as [d' [rej raw]]. cbn. split; [done|].
  destruct rej, raw; cbn; auto using core_expectRawLine, core_rejectLiteral.
Qed.

Lemma respond_events d e r : rd_events (respond react d e r).2 = rd_events r.
Proof.
  unfold respond. destruct (passive e); [done|]. destruct (react d e) as [d' [rej raw]]. cbn.
  assert (rd_events (rejectLiteral r).2 = rd_events r) by (unfold rejectLiteral; by destruct (awaitingSync r), (rd_events r) eqn:E; cbn; rewrite ?E).
  by destruct rej, raw.
Qed.

Lemma settleEvents_events d r es : rd_events r = es -> rd_events (settleEvents react d r es).2 = [].
Proof.
  revert d r. induction es as [|e es IH]; intros d r E; [done|]. cbn [settleEvents]. pose proof (respond_events d e (set_events es r)) as Hr.
  destruct (respond react d e (set_events es r)) as [d' r']. by apply IH.
Qed.

Lemma settleEvents_core d r r' es es' : untagged <$> es = untagged <$> es' -> core r = core r' ->
  (settleEvents react d r es).1 = (settleEvents react d r' es').1 /\ core (settleEvents react d r es).2 = core (settleEvents react d r' es').2.
Proof.
  revert d r r' es'. induction es as [|e es IH]; intros d r r' [|e' es'] He E; try done. cbn [settleEvents]. injection He as He Hes.
  pose proof (respond_core d e e' _ _ He (core_set_events _ _ _ _ Hes E)) as [Hd Hc]. destruct (respond react d e _) as [d1 r1], (respond react d e' _) as [d2 r2]. cbn in Hd, Hc. subst d2. by apply IH.
Qed.

Lemma settle_same d r r' : core r = core r' -> same (settle react d r) (settle react d r').
Proof.
  intros E. destruct (core_fields _ _ E) as [He _]. destruct (settleEvents_core d r r' _ _ He E) as [Hd Hc].
  unfold same, settle. cbn [fst snd]. split_and!; [done|done|by apply flat_untagged|by apply settleEvents_events..].
Qed.

(** Continue after a run. *)
Definition andThen (x : run) (k : D -> Reader -> run) : run := let '(d, r, es) := x in let '(d, r, es') := k d r in (d, r, es ++ es').

Lemma andThen_same x y k k' : same x y -> (forall d r r', core r = core r' -> rd_events r = [] -> rd_events r' = [] -> same (k d r) (k' d r')) -> same (andThen x k) (andThen y k').
Proof.
  destruct x as [[d r] es], y as [[d' r'] es']. intros (Hd & Hc & He & Hr & Hr') Hk. cbn [fst snd] in *. subst d'. specialize (Hk d r r' Hc Hr Hr'). unfold andThen.
  destruct (k d r) as [[d1 r1] es1], (k' d r') as [[d2 r2] es2]. destruct Hk as (? & ? & ? & ? & ?). cbn [fst snd] in *. unfold same. cbn [fst snd]. rewrite !flat_app. split_and!; congruence.
Qed.

Lemma octets_cons d r b x : octets o react d r (b :: x) = andThen (settle react d (oct o b r)) (fun d r => octets o react d r x).
Proof. done. Qed.

Lemma octets_same d r r' x : core r = core r' -> rd_events r = [] -> rd_events r' = [] -> same (octets o react d r x) (octets o react d r' x).
Proof.
  revert d r r'. induction x as [|b x IH]; intros d r r' E He He'; [done|]. rewrite !octets_cons. apply andThen_same.
  - apply settle_same. by apply oct_core.
  - intros. by apply IH.
Qed.

Lemma octets_app d r x y : octets o react d r (x ++ y) = andThen (octets o react d r x) (fun d r => octets o react d r y).
Proof.
  revert d r. induction x as [|b x IH]; intros d r.
  - cbn. by destruct (octets o react d r y) as [[? ?] ?].
  - cbn [app]. rewrite !octets_cons. unfold andThen. destruct (settle react d (oct o b r)) as [[d1 r1] es1]. rewrite IH. unfold andThen.
    destruct (octets o react d1 r1 x) as [[d2 r2] es2], (octets o react d2 r2 y) as [[d3 r3] es3]. by rewrite <- app_assoc.
Qed.

(** What is run next can be read off a run with the same outcome. *)
Lemma octets_app_same d r x y d' r' es : same (octets o react d r x) (d', r', es) -> same (octets o react d r (x ++ y)) (andThen (d', r', es) (fun d r => octets o react d r y)).
Proof. intros Hs. rewrite octets_app. apply andThen_same; [done|]. intros. by apply octets_same. Qed.

Lemma octets_step d r b x d1 r1 es1 d2 r2 es2 :
  same (settle react d (oct o b r)) (d1, r1, es1) -> same (octets o react d1 r1 x) (d2, r2, es2) -> same (octets o react d r (b :: x)) (d2, r2, es1 ++ es2).
Proof.
  intros H1 H2. rewrite octets_cons. eapply same_trans; [apply andThen_same; [done|intros; by apply octets_same]|]. unfold andThen.
  destruct (octets o react d1 r1 x) as [[d3 r3] es3]. destruct H2 as (? & ? & ? & ? & ?). unfold same in *. cbn [fst snd] in *. rewrite !flat_app. split_and!; congruence.
Qed.

Lemma settle_quiet d r r' : rd_events r = [] -> rd_events r' = [] -> core r = core r' -> same (settle react d r) (d, r', []).
Proof. intros E E' Hc. unfold settle. rewrite E. by split_and!. Qed.

Lemma settle_passive d r e r' : rd_events r = [e] -> passive e = true -> rd_events r' = [] -> core (set_events [] r) = core r' -> same (settle react d r) (d, r', [e]).
Proof. intros E Hp E' Hc. unfold settle. rewrite E. cbn [settleEvents]. unfold respond. rewrite Hp. by split_and!. Qed.

(** ** Pieces of a chunk, octet by octet *)

(** A reader between two events. *)
Definition quiet (r : Reader) : Prop := rd_events r = [] /\ awaitingSync r = false.

(** [x] read into the literal. *)
Definition advance (x : bytes) (r : Reader) : Reader :=
  let a := assembly r in
  set_assembly (mkAssembly (match rd_mode r with MLiteral => parts a ++ [x] | _ => parts a end) (cmdSize a) (fragment a) (as_tag a) (appendAt a) (appendStreamed a) (literals a)
    (remaining a - Z.of_nat (length x))) r.
Definition dataOf (m : Mode) (x : bytes) : list ReaderEvent := match m with MAppend => [EvAppendData x] | _ => [] end.

Lemma modeOf_literal r : remaining (assembly r) <> 0 -> modeOf r = rd_mode r.
Proof. intros Hr. unfold modeOf. replace (remaining (assembly r) =? 0) with false by lia. by rewrite andb_false_r. Qed.

Lemma oct_literal b r : quiet r -> isLiteralMode (rd_mode r) = true -> 0 < remaining (assembly r) ->
  core (set_events [] (oct o b r)) = core (advance [b] r) /\ rd_events (oct o b r) = dataOf (rd_mode r) [b].
Proof.
  intros [He Hw] Hm Hl. unfold oct. rewrite modeOf_literal by lia. destruct r as [q off es m lp ll rl [ps cs fr tg ap st li rem] aw tl]. reader_cbn. subst es aw. unfold advance. reader_cbn.
  destruct m; try done; unfold stepLiteral; reader_cbn; cbn [length]; replace (Z.to_nat (Z.min rem (Z.of_nat 1))) with 1%nat by lia; cbn [take length]; (split; [|done]); core_eq.
Qed.

Lemma octets_literal d r x : quiet r -> isLiteralMode (rd_mode r) = true -> Z.of_nat (length x) <= remaining (assembly r) ->
  same (octets o react d r x) (d, advance x r, dataOf (rd_mode r) x).
Proof.
  revert r. induction x as [|b x IH]; intros r [He Hw] Hm Hl.
  - unfold same, advance. cbn [octets fst snd]. split_and!; [done| |by destruct (rd_mode r)|done|by destruct r].
    destruct r as [? ? ? m ? ? ? [] ? ?]. unfold core, modeOf, coreAssembly. destruct m; try done; reader_cbn; cbn [length]; rewrite ?Z.sub_0_r, ?concat_app; cbn; by rewrite ?app_nil_r.
  - cbn [length] in Hl. destruct (oct_literal b r (conj He Hw) Hm ltac:(lia)) as [Hc Hev]. specialize (IH (advance [b] r) (conj He Hw) Hm ltac:(cbn; lia)).
    assert (Hs : same (settle react d (oct o b r)) (d, advance [b] r, dataOf (rd_mode r) [b])).
    { destruct (rd_mode r) eqn:Em; try done; cbn [dataOf] in *.
      - apply settle_quiet; [done..|]. rewrite <- Hc. by destruct (oct o b r); cbn in *; subst.
      - by apply settle_passive.
      - apply settle_quiet; [done..|]. rewrite <- Hc. by destruct (oct o b r); cbn in *; subst. }
    eapply same_trans; [eapply octets_step; [exact Hs|exact IH]|]. unfold same. cbn [fst snd]. split_and!; [done| | |by destruct r..].
    + destruct r as [? ? ? m ? ? ? [] ? ?]. unfold advance. reader_cbn. replace (remaining - Z.of_nat (length [b]) - Z.of_nat (length x)) with (remaining - Z.of_nat (length (b :: x))) by (cbn [length]; lia). destruct m; try done; core_eq.
    + change (rd_mode (advance [b] r)) with (rd_mode r). by destruct (rd_mode r).
Qed.

(** [x] read into the line. *)
Definition lengthen (x : bytes) (r : Reader) : Reader := set_line (lineParts r ++ [x]) (rd_lineLen r + Z.of_nat (length x)) r.

Lemma octets_line d r x : quiet r -> rd_mode r = MLine -> LF ∉ x -> rd_lineLen r + Z.of_nat (length x) <= maxLineLength o + 1 ->
  same (octets o react d r x) (d, lengthen x r, []).
Proof.
  revert r. induction x as [|b x IH]; intros r [He Hw] Hm Hx Hl.
  - unfold same, lengthen. cbn [octets fst snd]. split_and!; try done; try (by destruct r). destruct r. unfold core, modeOf. reader_cbn. subst. cbn [length]. rewrite Z.add_0_r, concat_app. cbn. by rewrite app_nil_r.
  - apply not_elem_of_cons in Hx as [Hb Hx]. cbn [length] in Hl. specialize (IH (lengthen [b] r) (conj He Hw) Hm Hx ltac:(cbn; lia)).
    eapply same_trans; [eapply octets_step; [|exact IH]|].
    + assert (Ho : oct o b r = set_input (rd_queue r) (rd_offset r + 1) (lengthen [b] r)).
      { unfold oct, modeOf. destruct r. reader_cbn. subst. unfold stepLine. cbn [indexOf]. replace (b =? LF) with false by (unfold LF in *; lia). cbn [fmap option_fmap option_map default length take]. reader_cbn.
        match goal with |- context [maxLineLength o + 1 <? ?n] => destruct (Z.ltb_spec (maxLineLength o + 1) n) end; [cbn in *; lia|done]. }
      rewrite Ho. apply settle_quiet; [by destruct r..|]. destruct r; reader_cbn; subst. core_eq.
    + unfold same. cbn [fst snd]. split_and!; try done; try (by destruct r). destruct r. unfold lengthen. reader_cbn. subst.
      replace (rd_lineLen + Z.of_nat (length [b]) + Z.of_nat (length x)) with (rd_lineLen + Z.of_nat (length (b :: x))) by (cbn [length]; lia). core_eq.
Qed.

Lemma oct_lf r : quiet r -> rd_mode r = MLine -> rd_lineLen r <= maxLineLength o + 1 ->
  core (oct o LF r) = core (completeLine o (concat (lineParts r)) (set_line [] 0 r)).
Proof.
  intros [He Hw] Hm Hl. unfold oct, modeOf. destruct r as [? ? ? ? ? ? ? [] ? ?]. reader_cbn. subst. unfold stepLine. cbn [indexOf]. rewrite Z.eqb_refl. cbn [default take length]. reader_cbn.
  match goal with |- context [maxLineLength o + 1 <? ?n] => destruct (Z.ltb_spec (maxLineLength o + 1) n) end; [cbn in *; lia|]. reader_cbn. by apply completeLine_core.
Qed.

Lemma lastN_lastN n a b : lastN n (lastN n a ++ b) = lastN n (a ++ b).
Proof.
  unfold lastN. rewrite !length_app, length_drop. destruct (decide (length a <= n)%nat).
  - replace (length a - n)%nat with 0%nat by lia. by rewrite drop_0, Nat.sub_0_r.
  - replace (drop (length a - n) a ++ b) with (drop (length a - n) (a ++ b)) by (by rewrite drop_app_le by lia). rewrite drop_drop. f_equal. lia.
Qed.

Lemma lastN_short n a : (length a <= n)%nat -> lastN n a = a.
Proof. intros. unfold lastN. by replace (length a - n)%nat with 0%nat by lia. Qed.

Lemma lastN_length n a : (length (lastN n a) <= n)%nat.
Proof. unfold lastN. rewrite length_drop. lia. Qed.

Lemma lastN_app_ge n a b : (n <= length b)%nat -> lastN n (a ++ b) = drop (length b - n) b.
Proof. intros. unfold lastN. rewrite length_app, drop_app_ge by lia. f_equal. lia. Qed.

(** The tail of a discarded line. *)
Lemma discard_tail tl piece : (if (TAIL <=? length piece)%nat then drop (length piece - TAIL) piece else lastN TAIL (tl ++ piece)) = lastN TAIL (tl ++ piece).
Proof. destruct (_ <=? _)%nat eqn:E; [|done]. apply Nat.leb_le in E. by rewrite lastN_app_ge. Qed.

Definition forget (x : bytes) (r : Reader) : Reader := set_tail (lastN TAIL (rd_tail r ++ x)) r.

Lemma octets_discard d r x : quiet r -> rd_mode r = MDiscard -> LF ∉ x -> (length (rd_tail r) <= TAIL)%nat -> same (octets o react d r x) (d, forget x r, []).
Proof.
  revert r. induction x as [|b x IH]; intros r [He Hw] Hm Hx Hl.
  - unfold same, forget. cbn [octets fst snd]. rewrite app_nil_r, lastN_short by done. split_and!; try done; try (by destruct r).
  - apply not_elem_of_cons in Hx as [Hb Hx]. specialize (IH (forget [b] r) (conj He Hw) Hm Hx (lastN_length _ _)).
    eapply same_trans; [eapply octets_step; [|exact IH]|].
    + assert (Ho : oct o b r = set_input (rd_queue r) (rd_offset r + 1) (forget [b] r)).
      { unfold oct, modeOf. destruct r. reader_cbn. subst. unfold stepDiscard. cbn [indexOf]. replace (b =? LF) with false by (unfold LF in *; lia). cbn [fmap option_fmap option_map default length take]. reader_cbn.
        done. }
      rewrite Ho. apply settle_quiet; [by destruct r..|]. destruct r; reader_cbn; subst. core_eq.
    + unfold same. cbn [fst snd]. split_and!; try done; try (by destruct r). destruct r. unfold forget. reader_cbn. subst. by rewrite lastN_lastN, <- app_assoc.
Qed.

Lemma oct_lf_discard r : quiet r -> rd_mode r = MDiscard -> (length (rd_tail r) <= TAIL)%nat ->
  core (oct o LF r) = core (afterFailedLine o (if bool_decide (last (rd_tail r) = Some CR) then take (length (rd_tail r) - 1) (rd_tail r) else rd_tail r) None (set_assembly resetCommand (set_tail [] r))).
Proof.
  intros [He Hw] Hm Hl. unfold oct, modeOf. destruct r as [? ? ? ? ? ? ? [] ? ?]. reader_cbn. subst. unfold stepDiscard. cbn [indexOf]. rewrite Z.eqb_refl. cbn [default take length Nat.leb]. reader_cbn.
  rewrite app_nil_r, lastN_short by done. by apply afterFailedLine_core.
Qed.

(** A line that grows too long. *)
Definition overflowed (x : bytes) (r : Reader) : Reader :=
  set_mode MDiscard (set_assembly resetCommand (set_tail (lastN TAIL (concat (lineParts r) ++ x)) (set_line [] 0 (set_rawLine false r)))).
Definition tooLong (tag : option jsstr) : ReaderEvent := EvError (mkReaderError LineTooLong tag false (js "line longer than " ++ dec (maxLineLength o) ++ js " octets")).

Lemma oct_overflow b r : quiet r -> rd_mode r = MLine -> b <> LF -> rd_lineLen r = maxLineLength o + 1 ->
  exists tag, rd_events (oct o b r) = [tooLong tag] /\ core (set_events [] (oct o b r)) = core (overflowed [b] r).
Proof.
  intros [He Hw] Hm Hb Hl. unfold oct, modeOf. destruct r as [q off es m lp ll rl [ps cs fr tg ap st li rem] aw tl]. reader_cbn. subst es aw m. unfold stepLine. cbn [indexOf].
  replace (b =? LF) with false by (unfold LF in *; lia). cbn [fmap option_fmap option_map default length take]. reader_cbn.
  match goal with |- context [maxLineLength o + 1 <? ?n] => destruct (Z.ltb_spec (maxLineLength o + 1) n) end; [|cbn in *; lia]. unfold emitError, overflowed, tooLong. reader_cbn. eexists. split; [done|]. core_eq.
Qed.

Lemma octets_overflow d r x tag : quiet r -> rd_mode r = MLine -> LF ∉ x -> rd_lineLen r <= maxLineLength o + 1 < rd_lineLen r + Z.of_nat (length x) ->
  same (octets o react d r x) (d, overflowed x r, [tooLong tag]).
Proof.
  intros Hq Hm Hx Hl. set (n := Z.to_nat (maxLineLength o + 1 - rd_lineLen r)). destruct (drop n x) as [|b q] eqn:Ed; [apply drop_nil_length in Ed; lia|].
  assert (Ex : x = take n x ++ b :: q) by (by rewrite <- Ed, take_drop). assert (Hn : length (take n x) = n) by (rewrite length_take; lia). clear Ed. revert Ex Hn. generalize (take n x) as p. intros p -> Hn.
  rewrite not_elem_of_app, not_elem_of_cons in Hx. destruct Hx as (Hp & Hb & Hx).
  destruct (oct_overflow b (lengthen p r)) as (t & Ev & Hc); [done..|congruence|cbn; lia|].
  eapply same_trans; [apply octets_app_same, octets_line; [done..|lia]|]. cbn [andThen].
  assert (Hs : same (octets o react d (lengthen p r) (b :: q)) (d, overflowed (p ++ b :: q) r, [tooLong tag])).
  { eapply same_trans; [eapply octets_step; [apply (settle_passive _ _ (tooLong t) (overflowed [b] (lengthen p r)) Ev eq_refl); [by destruct Hq|exact Hc]|eapply (octets_discard d (overflowed [b] (lengthen p r)) q); [|done..|]]|].
    - destruct Hq. by split.
    - apply lastN_length.
    - unfold same. cbn [fst snd]. split_and!; try done; try (by destruct r; destruct Hq). destruct Hq as [He Hw]. destruct r. unfold forget, overflowed, lengthen. reader_cbn. subst.
      rewrite lastN_lastN, concat_app. core_eq. }
  destruct (octets o react d (lengthen p r) (b :: q)) as [[d1 r1] es1]. exact Hs.
Qed.

End runs.

(** ** What a step leaves alone *)

Section frame.
Context `{Runtime} (o : ReaderOptions).

Lemma marker_size_nonneg line m n : literalMarkerAt line = Some m -> mk_size m = Some n -> 0 <= n.
Proof.
  unfold literalMarkerAt. intros E Hn. repeat case_match; simplify_eq; cbn in Hn; simplify_eq; apply Number_nonneg, forallb_Forall;
    match goal with H : takeWhile is_digit ?l = ?c :: ?s |- _ => change (rev s ++ [c]) with (rev (c :: s)); apply List.Forall_rev; rewrite <- H; apply takeWhile_true end.
Qed.

(** A step leaves the rest of the input, or ends the reader; it may clear the line; it gives two events at most. *)
Record frame (r r' : Reader) : Prop := {
  fr_input : rd_queue r' = rd_queue r /\ rd_offset r' = rd_offset r \/ rd_mode r' = MDead /\ rd_queue r' = [] /\ rd_offset r' = 0%nat;
  fr_line : lineParts r' = lineParts r /\ rd_lineLen r' = rd_lineLen r \/ lineParts r' = [] /\ rd_lineLen r' = 0;
  fr_remaining : 0 <= remaining (assembly r) -> 0 <= remaining (assembly r');
  fr_tail : rd_tail r' = rd_tail r;
  fr_events : (length (rd_events r) <= length (rd_events r') <= length (rd_events r) + 2)%nat;
  fr_awaiting : awaitingSync r' = awaitingSync r \/ (length (rd_events r) < length (rd_events r'))%nat /\ rd_mode r' <> MDead }.

Ltac frame_done := split; reader_cbn; rewrite ?length_app; cbn; try tauto; try lia; try (left; done); try (right; split; [cbn; lia|done]).

Lemma afterFailedLine_frame line tag r : frame r (afterFailedLine o line tag r) /\ (length (rd_events (afterFailedLine o line tag r)) <= length (rd_events r) + 1)%nat.
Proof.
  unfold afterFailedLine, nonSyncFatal, emitError. destruct (literalMarkerAt line) as [m|] eqn:E; [|split; [frame_done|cbn; lia]].
  pose proof (marker_size_nonneg line m). repeat case_match; simplify_eq; (split; [frame_done|reader_cbn; rewrite ?length_app; cbn; lia]).
  all: intros; eauto.
Qed.

Lemma failLine_frame code tag line message r a : frame r (failLine o code tag line message (set_assembly a r)).
Proof.
  unfold failLine, emitError. reader_cbn.
  match goal with |- frame _ (afterFailedLine _ _ _ ?r1) => destruct (afterFailedLine_frame line tag r1) as [[H1 H2 H3 H4 H5 H6] H7] end. reader_cbn. rewrite length_app in *. cbn [length] in *.
  split; [done|done|intros; by apply H3|done|lia|]. destruct H6 as [->|[? ?]]; [by left|right; split; [lia|done]].
Qed.

Lemma beginLiteral_frame line m streaming a r : (forall n, mk_size m = Some n -> 0 <= n) -> frame r (beginLiteral o line m streaming a r).
Proof.
  intros Hm. unfold beginLiteral. destruct streaming, (mk_size m) as [n|]; try apply failLine_frame; specialize (Hm n eq_refl); (destruct (_ <? _); [apply failLine_frame|]);
    destruct (mk_nonSync m); frame_done.
Qed.

Lemma frame_assembly r a r' : 0 <= remaining a -> frame (set_assembly a r) r' -> frame r r'.
Proof. intros Ha [H1 H2 H3 H4 H5 H6]. split; try done. intros _. by apply H3. Qed.

Lemma commandLine_frame first line tag r : 0 <= remaining (assembly r) -> frame r (commandLine o first line tag r).
Proof.
  intros Hr. unfold commandLine. set (a := if first then _ else _). assert (Ha : 0 <= remaining a) by (by destruct first). clearbody a.
  destruct (_ <? _); [apply failLine_frame|]. destruct (literalMarkerAt line) as [m|] eqn:E; [|destruct (appendStreamed _); frame_done].
  pose proof (marker_size_nonneg line m) as Hm. destruct (_ <? _); [apply failLine_frame|]. unfold nonSyncFatal, emitError.
  destruct (mk_nonSync m), (literalMode o); try destruct (sizeAbove _ _); try (by apply beginLiteral_frame; eauto); try (by frame_done);
    (eapply frame_assembly; [|apply beginLiteral_frame; eauto]; done).
Qed.

Lemma completeLine_frame raw r : 0 <= remaining (assembly r) -> frame r (completeLine o raw r).
Proof.
  intros Hr. unfold completeLine.
  assert (Hf : forall code tag line message, frame r (failLine o code tag line message r)).
  { intros. replace r with (set_assembly (assembly r) r) at 2 by (by destruct r). apply failLine_frame. }
  repeat (case_match; auto using commandLine_frame); frame_done.
Qed.
End frame.

(** ** The whole loop *)

Section stream.
Context `{Runtime} (o : ReaderOptions) {D : Type} (react : D -> ReaderEvent -> D * Reaction).
Hypothesis line_limit : 0 <= maxLineLength o.

(** The octets not yet read. *)
Definition unread (r : Reader) : bytes := drop (rd_offset r) (concat (rd_queue r)).

Record wf (r : Reader) : Prop := {
  wf_offset : (rd_offset r <= length (default [] (head (rd_queue r))))%nat;
  wf_line : rd_lineLen r = Z.of_nat (length (concat (lineParts r)));
  wf_limit : rd_lineLen r <= maxLineLength o + 1;
  wf_remaining : 0 <= remaining (assembly r);
  wf_tail : (length (rd_tail r) <= TAIL)%nat }.

(** The outcome of a step that reads the octets [x] from the start of the input. *)
Record reads (r : Reader) (x : bytes) (r' : Reader) : Prop := {
  rs_input : rd_queue r' = rd_queue r /\ rd_offset r' = (rd_offset r + length x)%nat \/ rd_mode r' = MDead /\ rd_queue r' = [] /\ rd_offset r' = 0%nat;
  rs_same : forall d, same (octets o react d r x) (settle react d r');
  rs_line : rd_lineLen r' = Z.of_nat (length (concat (lineParts r'))) /\ rd_lineLen r' <= maxLineLength o + 1;
  rs_remaining : 0 <= remaining (assembly r');
  rs_tail : (length (rd_tail r') <= TAIL)%nat;
  rs_events : (length (rd_events r') <= 2)%nat;
  rs_quiet : rd_events r' = [] \/ rd_mode r' = MDead -> awaitingSync r' = false }.

Definition stepMode (rest : bytes) (r : Reader) : Reader :=
  match rd_mode r with MLine => stepLine o rest r | MDiscard => stepDiscard o rest r | _ => stepLiteral rest r end.

Lemma literal_reads r rest : quiet r -> wf r -> isLiteralMode (rd_mode r) = true -> remaining (assembly r) <> 0 -> rest <> [] ->
  exists x y, rest = x ++ y /\ x <> [] /\ reads r x (stepLiteral rest r).
Proof.
  intros Hq [W1 W2 W3 W4 W5] Hm Hr Hne. set (n := Z.to_nat (Z.min (remaining (assembly r)) (Z.of_nat (length rest)))).
  assert (Hn : (0 < n <= length rest)%nat) by (destruct rest; [done|cbn [length] in *; lia]). assert (Hl : length (take n rest) = n) by (rewrite length_take; lia).
  exists (take n rest), (drop n rest). split_and!; [by rewrite take_drop|intros E; rewrite E in Hl; cbn in Hl; lia|].
  assert (Hin : rd_queue (stepLiteral rest r) = rd_queue r /\ rd_offset (stepLiteral rest r) = (rd_offset r + n)%nat) by (unfold stepLiteral; fold n; by destruct (rd_mode r)).
  split; rewrite ?Hl; [by left| |unfold stepLiteral; fold n; destruct (rd_mode r); done|unfold stepLiteral; fold n; destruct (rd_mode r); cbn; lia|unfold stepLiteral; by destruct (rd_mode r)| |].
  - intros d. eapply same_trans; [apply octets_literal; [done..|lia]|]. apply same_sym. destruct Hq as [He Hw].
    assert (Hs : core (set_events [] (stepLiteral rest r)) = core (advance (take n rest) r) /\ rd_events (stepLiteral rest r) = dataOf (rd_mode r) (take n rest)).
    { unfold stepLiteral, advance. fold n. rewrite Hl. destruct r as [? ? ? m ? ? ? [] ? ?]. reader_cbn. subst. destruct m; try done; (split; [|done]); core_eq. }
    destruct Hs as [Hc Hev]. destruct (rd_mode r) eqn:Em; try done; cbn [dataOf] in *.
    + apply settle_quiet; [done..|]. rewrite <- Hc. by destruct (stepLiteral rest r); cbn in *; subst.
    + by apply settle_passive.
    + apply settle_quiet; [done..|]. rewrite <- Hc. by destruct (stepLiteral rest r); cbn in *; subst.
  - unfold stepLiteral. destruct Hq as [He _]. destruct (rd_mode r); try done; cbn; rewrite He; cbn; lia.
  - intros _. unfold stepLiteral. destruct Hq as [_ Hw]. by destruct (rd_mode r).
Qed.

Lemma octets_one d r b : octets o react d r [b] = settle react d (oct o b r).
Proof. cbn. unfold settle. destruct (settleEvents react d _ _) as [d' r']. by rewrite app_nil_r. Qed.

Lemma andThen_quiet d r (k : D -> Reader -> D * Reader * list ReaderEvent) : andThen (d, r, []) k = k d r.
Proof. unfold andThen. by destruct (k d r) as [[? ?] ?]. Qed.

(** The first LF of [rest], or none. *)
Lemma cut_lf rest : (indexOf LF rest = None /\ LF ∉ rest) \/ (exists k, indexOf LF rest = Some k /\ rest = take k rest ++ LF :: drop (S k) rest /\ LF ∉ take k rest /\ (k < length rest)%nat).
Proof.
  destruct (indexOf LF rest) as [k|] eqn:E; [right|left; split; [done|by apply indexOf_None]]. exists k. destruct (indexOf_Some _ _ _ E) as [E1 E2]. split_and!; [done..|].
  apply (f_equal length) in E1. rewrite length_app, length_take in E1. cbn in E1. lia.
Qed.

Lemma line_reads r rest : quiet r -> wf r -> rd_mode r = MLine -> rest <> [] -> exists x y, rest = x ++ y /\ x <> [] /\ reads r x (stepLine o rest r).
Proof.
  intros Hq [W1 W2 W3 W4 W5] Hm Hne. pose proof Hq as [He Hw]. set (piece := take (default (length rest) (indexOf LF rest)) rest).
  assert (Hp : LF ∉ piece) by (unfold piece; destruct (cut_lf rest) as [[-> ?]|(k & -> & _ & ? & _)]; [by rewrite take_ge|done]).
  destruct (Z.ltb_spec (maxLineLength o + 1) (rd_lineLen r + Z.of_nat (length piece))) as [Hlt|Hge].
  - exists piece, (drop (default (length rest) (indexOf LF rest)) rest). split_and!; [unfold piece; by rewrite take_drop|intros E; rewrite E in Hlt; cbn in Hlt; lia|].
    assert (Hs : stepLine o rest r = emit (tooLong o (if (fragment (assembly r) =? 0)%nat && negb (rawLine r) then extractTag (concat (lineParts r ++ [take 256 piece])) else as_tag (assembly r)))
      (set_mode MDiscard (set_assembly (set_as_tag (if (fragment (assembly r) =? 0)%nat && negb (rawLine r) then extractTag (concat (lineParts r ++ [take 256 piece])) else as_tag (assembly r)) resetCommand)
        (set_input (rd_queue r) (rd_offset r + length piece) (set_line [] 0 (set_tail (lastN TAIL (concat (lineParts r ++ [piece]))) (set_rawLine false r))))))).
    { unfold stepLine. fold piece. destruct (Z.ltb_spec (maxLineLength o + 1) (rd_lineLen r + Z.of_nat (length piece))); [|lia]. unfold emitError, tooLong. reader_cbn.
      replace (length piece) with (default (length rest) (indexOf LF rest)); [done|]. unfold piece. destruct (cut_lf rest) as [[-> ?]|(k & -> & _ & _ & ?)]; cbn; rewrite length_take; lia. }
    rewrite Hs. split; reader_cbn; cbn.
    + by left.
    + intros d. eapply same_trans; [eapply octets_overflow; [done..|lia]|]. apply same_sym, settle_passive; [cbn; by rewrite He|done|done|]. unfold overflowed. destruct r; reader_cbn; subst. core_eq.
    + lia.
    + lia.
    + apply lastN_length.
    + rewrite He. cbn. lia.
    + done.
  - destruct (cut_lf rest) as [[El Hx]|(k & El & Er & Hx & Hk)].
    + exists rest, []. assert (piece = rest) as Ep by (unfold piece; rewrite El; by apply take_ge). rewrite Ep in *. split_and!; [by rewrite app_nil_r|done|].
      assert (Hs : stepLine o rest r = set_input (rd_queue r) (rd_offset r + length rest) (lengthen rest r)).
      { unfold stepLine. rewrite El. cbn [default]. rewrite take_ge by lia. destruct (Z.ltb_spec (maxLineLength o + 1) (rd_lineLen r + Z.of_nat (length rest))); [lia|].
        replace (0 <? length rest)%nat with true; [done|]. symmetry. apply Nat.ltb_lt. destruct rest; [done|cbn; lia]. }
      rewrite Hs. split; reader_cbn; unfold lengthen; reader_cbn.
      * by left.
      * intros d. eapply same_trans; [apply octets_line; [done..|lia]|]. apply same_sym, settle_quiet; [done..|]. done.
      * rewrite concat_app, length_app. cbn. rewrite app_nil_r. lia.
      * done.
      * done.
      * rewrite He. cbn. lia.
      * done.
    + exists (take k rest ++ [LF]), (drop (S k) rest). assert (Ep : piece = take k rest) by (unfold piece; by rewrite El). rewrite Ep in *. split_and!; [by rewrite <- app_assoc|by destruct (take k rest)|].
      assert (Hlk : length (take k rest) = k) by (rewrite length_take; lia).
      assert (Hs : exists lp, concat lp = concat (lineParts r) ++ take k rest /\
        stepLine o rest r = completeLine o (concat lp) (set_line [] 0 (set_input (rd_queue r) (rd_offset r + S k) r))).
      { unfold stepLine. rewrite El. cbn [default from_option id]. destruct (Z.ltb_spec (maxLineLength o + 1) (rd_lineLen r + Z.of_nat (length (take k rest)))); [lia|].
        destruct (0 <? length (take k rest))%nat eqn:E0.
        - exists (lineParts r ++ [take k rest]). split; [rewrite concat_app; cbn; by rewrite app_nil_r|]. by destruct r.
        - exists (lineParts r). apply Nat.ltb_ge in E0. destruct (take k rest); [by rewrite app_nil_r|cbn in E0; lia]. }
      destruct Hs as (lp & Hlp & ->). match goal with |- reads _ _ (completeLine _ ?l ?r1) => pose proof (completeLine_frame o l r1 W4) as [F1 F2 F3 F4 F5 F6] end. reader_cbn. rewrite He in *. cbn [length] in *.
      split.
      * rewrite length_app, Hlk. replace (k + length [LF])%nat with (S k) by (cbn; lia). done.
      * intros d. eapply same_trans; [apply octets_app_same, octets_line; [done..|lia]|]. rewrite andThen_quiet, octets_one. apply settle_same.
        rewrite oct_lf by (done || (unfold lengthen; cbn; lia)).
        assert (Hcat : concat (lineParts (lengthen (take k rest) r)) = concat lp) by (unfold lengthen; cbn; rewrite Hlp, concat_app; cbn; by rewrite app_nil_r). rewrite Hcat.
        clear -Hm. destruct r as [? ? ? ? ? ? ? [] ? ?]. unfold lengthen. reader_cbn. subst.
        by apply completeLine_core.
      * destruct F2 as [[-> ->]|[-> ->]]; cbn; lia.
      * by apply F3.
      * by rewrite F4.
      * lia.
      * intros E. destruct F6 as [->|[F6 F7]]; [done|]. destruct E as [E|E]; [rewrite E in F6; cbn in F6; lia|done].
Qed.

Lemma discard_reads r rest : quiet r -> wf r -> rd_mode r = MDiscard -> rest <> [] -> exists x y, rest = x ++ y /\ x <> [] /\ reads r x (stepDiscard o rest r).
Proof.
  intros Hq [W1 W2 W3 W4 W5] Hm Hne. pose proof Hq as [He Hw]. destruct (cut_lf rest) as [[El Hx]|(k & El & Er & Hx & Hk)].
  - exists rest, []. split_and!; [by rewrite app_nil_r|done|].
    assert (Hs : stepDiscard o rest r = set_input (rd_queue r) (rd_offset r + length rest) (forget rest r)).
    { unfold stepDiscard. rewrite El. cbn [default]. by rewrite take_ge, discard_tail by lia. }
    rewrite Hs. split; reader_cbn; unfold forget; reader_cbn; [by left| |done|done|apply lastN_length|rewrite He; cbn; lia|done].
    intros d. eapply same_trans; [by apply octets_discard|]. by apply same_sym, settle_quiet.
  - exists (take k rest ++ [LF]), (drop (S k) rest). split_and!; [by rewrite <- app_assoc|by destruct (take k rest)|]. assert (Hlk : length (take k rest) = k) by (rewrite length_take; lia).
    set (t := lastN TAIL (rd_tail r ++ take k rest)). set (t' := if bool_decide (last t = Some CR) then take (length t - 1) t else t).
    assert (Hs : stepDiscard o rest r = afterFailedLine o t' (as_tag (assembly r)) (set_assembly resetCommand (set_tail [] (set_input (rd_queue r) (rd_offset r + S k) r)))).
    { unfold stepDiscard. rewrite El. cbn [default from_option id]. by rewrite discard_tail. }
    rewrite Hs. match goal with |- reads _ _ (afterFailedLine _ ?l ?t ?r1) => pose proof (afterFailedLine_frame o l t r1) as [[F1 F2 F3 F4 F5 F6] _] end. reader_cbn. rewrite He in *. cbn [length] in *.
    split.
    + rewrite length_app, Hlk. replace (k + length [LF])%nat with (S k) by (cbn; lia). done.
    + intros d. eapply same_trans; [by apply octets_app_same, octets_discard|]. rewrite andThen_quiet, octets_one. apply settle_same.
      rewrite oct_lf_discard by (done || apply lastN_length). unfold forget. change (rd_tail (set_tail _ r)) with t. fold t'. destruct r as [? ? ? ? ? ? ? [] ? ?]. reader_cbn. by apply afterFailedLine_core.
    + destruct F2 as [[-> ->]|[-> ->]]; cbn; lia.
    + apply F3. lia.
    + rewrite F4. cbn. lia.
    + lia.
    + intros E. destruct F6 as [->|[F6 F7]]; [done|]. destruct E as [E|E]; [rewrite E in F6; cbn in F6; lia|done].
Qed.

(** ** The loop of [pump] *)

Lemma unread_cons r chunk queue : rd_queue r = chunk :: queue -> (rd_offset r <= length chunk)%nat -> unread r = drop (rd_offset r) chunk ++ concat queue.
Proof. intros E Ho. unfold unread. rewrite E. cbn. by rewrite drop_app_le. Qed.

(** What is left to do: octets, chunks, and the change of mode after a literal. *)
Definition work (r : Reader) : nat :=
  2 * length (unread r) + length (rd_queue r) + (if isLiteralMode (rd_mode r) && (remaining (assembly r) =? 0) then 1 else 0).

Lemma pumpStep_eq r : rd_events r = [] -> rd_mode r <> MDead ->
  pumpStep o r =
    if isLiteralMode (rd_mode r) && (remaining (assembly r) =? 0) then Some (set_mode (modeOf r) r)
    else match rd_queue r with [] => None | chunk :: queue => if (length chunk <=? rd_offset r)%nat then Some (set_input queue 0 r) else Some (stepMode (drop (rd_offset r) chunk) r) end.
Proof. intros He Hd. unfold pumpStep, stepMode, modeOf. rewrite He. by destruct (rd_mode r) eqn:Em, (remaining (assembly r) =? 0); cbn [isLiteralMode andb] in *. Qed.

Lemma stepMode_reads r rest : quiet r -> wf r -> rd_mode r <> MDead -> isLiteralMode (rd_mode r) && (remaining (assembly r) =? 0) = false -> rest <> [] ->
  exists x y, rest = x ++ y /\ x <> [] /\ reads r x (stepMode rest r).
Proof.
  intros Hq Hwf Hd Hl Hne. unfold stepMode. destruct (rd_mode r) eqn:Em; try done; [by apply line_reads| | |by apply discard_reads|];
    (apply literal_reads; [done|done|by rewrite Em|cbn in Hl; lia|done]).
Qed.

Lemma pumpStep_spec r r1 : quiet r -> wf r -> pumpStep o r = Some r1 ->
  wf r1 /\ (work r1 < work r)%nat /\ (rd_events r1 = [] \/ rd_mode r1 = MDead -> awaitingSync r1 = false) /\
  exists x, (unread r = x ++ unread r1 \/ rd_mode r1 = MDead /\ unread r1 = [] /\ exists y, unread r = x ++ y) /\
    (forall d, same (octets o react d r x) (settle react d r1)) /\ (length (rd_events r1) <= 2 * length x)%nat.
Proof.
  intros Hq Hwf E. pose proof Hq as [He Hw]. assert (Hd : rd_mode r <> MDead) by (intros Hd; unfold pumpStep in E; by rewrite He, Hd in E).
  rewrite pumpStep_eq in E by done. destruct (isLiteralMode (rd_mode r) && (remaining (assembly r) =? 0)) eqn:El.
  - injection E as <-. split; [by destruct Hwf|]. assert (Hwk : work (set_mode (modeOf r) r) = (work r - 1)%nat /\ (1 <= work r)%nat).
    { unfold work. rewrite El. cbn. unfold modeOf. rewrite El. apply andb_true_iff in El as [El _]. change (unread (set_mode _ r)) with (unread r). destruct (rd_mode r); try done; cbn; unfold unread; lia. }
    split; [lia|]. split; [done|]. exists []. split; [by left|]. split; [|cbn; rewrite He; cbn; lia]. intros d. apply same_sym, settle_quiet; [done..|].
    unfold core. assert (Hmm : modeOf (set_mode (modeOf r) r) = modeOf r) by (unfold modeOf at 1; cbn; unfold modeOf; rewrite El; apply andb_true_iff in El as [El _]; by destruct (rd_mode r)).
    rewrite Hmm. by destruct r.
  - destruct (rd_queue r) as [|chunk queue] eqn:Eq; [done|]. destruct Hwf as [W1 W2 W3 W4 W5]. pose proof (unread_cons r chunk queue Eq) as Hu. rewrite Eq in W1. cbn in W1. specialize (Hu W1).
    destruct (length chunk <=? rd_offset r)%nat eqn:Eo.
    + injection E as <-. apply Nat.leb_le in Eo. assert (Hu' : unread (set_input queue 0 r) = unread r) by (rewrite Hu, drop_ge by done; unfold unread; cbn; by rewrite drop_0).
      split; [split; cbn; lia || done|]. split; [unfold work; rewrite Hu'; cbn; rewrite Eq; cbn; lia|]. split; [done|].
      exists []. split; [left; by rewrite Hu'|]. split; [|cbn; rewrite He; cbn; lia]. intros d. by apply same_sym, settle_quiet.
    + injection E as <-. apply Nat.leb_gt in Eo. destruct (stepMode_reads r (drop (rd_offset r) chunk) Hq) as (x & y & Ex & Hx & [R1 R2 R3 R4 R5 R6 R7]); [by split; rewrite ?Eq|done|done|intros Hn%drop_nil_length; lia|].
      assert (Hxl : (0 < length x)%nat) by (destruct x; [done|cbn; lia]). assert (Hlc : (length x + length y = length chunk - rd_offset r)%nat) by (rewrite <- length_app, <- Ex, length_drop; done).
      destruct R1 as [[Rq Ro]|(Rd & Rq & Ro)].
      * assert (Hu1 : unread r = x ++ unread (stepMode (drop (rd_offset r) chunk) r)).
        { rewrite Hu, (unread_cons _ chunk queue), Ro by (rewrite ?Rq, ?Ro; done || lia). rewrite Ex, <- app_assoc. f_equal. f_equal. rewrite <- drop_drop, Ex. by rewrite drop_app_length. }
        split; [split; rewrite ?Rq, ?Ro, ?Eq; cbn; try lia; tauto|]. split; [|split; [done|]].
        -- unfold work. rewrite El. rewrite Hu1, length_app, Rq, Eq. case_match; lia.
        -- exists x. split; [by left|]. split; [done|]. lia.
      * assert (Hu1 : unread (stepMode (drop (rd_offset r) chunk) r) = []) by (unfold unread; by rewrite Rq, Ro).
        split; [split; rewrite ?Rq, ?Ro; cbn; try lia; tauto|]. split; [|split; [done|]].
        -- unfold work. rewrite Hu1, Hu, Rq, Rd, Eq. cbn. lia.
        -- exists x. split; [right; split_and!; [done..|exists (y ++ concat queue); by rewrite Hu, Ex, app_assoc]|]. split; [done|]. lia.
Qed.

(** Nothing comes of a dead reader. *)
Lemma octets_dead d r x : quiet r -> rd_mode r = MDead -> same (octets o react d r x) (d, r, []).
Proof.
  intros [He Hw] Hd. induction x as [|b x IH]; [done|]. eapply (octets_step o react d r b x d r [] d r []); [|done]. apply settle_quiet; [|done|].
  - unfold oct, modeOf. rewrite Hd. done.
  - unfold oct, modeOf. destruct r. reader_cbn. by subst.
Qed.

Lemma pumpStep_stuck r : rd_events r <> [] \/ rd_mode r = MDead -> pumpStep o r = None.
Proof. unfold pumpStep. destruct (rd_events r); [|done]. by intros [?| ->]. Qed.

(** [r'] has read [x] of the input of [r], and gives its events. *)
Definition pumped (r r' : Reader) : Prop :=
  wf r' /\ (rd_events r' = [] \/ rd_mode r' = MDead -> awaitingSync r' = false) /\
  exists x y, unread r = x ++ y /\ (rd_mode r' = MDead \/ y = unread r') /\ (length (rd_events r') <= 2 * length x)%nat /\ forall d, same (octets o react d r x) (settle react d r').

Lemma pumpLoop_spec fuel r : quiet r -> wf r -> (work r < fuel)%nat -> pumpStep o (pumpLoop o fuel r) = None /\ pumped r (pumpLoop o fuel r).
Proof.
  revert r. induction fuel as [|fuel IH]; intros r Hq Hwf Hf; [lia|]. cbn [pumpLoop]. destruct (pumpStep o r) as [r1|] eqn:E.
  - destruct (pumpStep_spec r r1 Hq Hwf E) as (Hwf1 & Hwk & Hq1 & x & Hx & Hs & Hev).
    assert (Hp1 : pumped r r1) by (split; [done|]; split; [done|]; destruct Hx as [Hx|(Hd & Hu & y & Hx)]; exists x; [exists (unread r1)|exists y]; eauto).
    destruct (decide (rd_events r1 <> [] \/ rd_mode r1 = MDead)) as [Hst|Hst].
    { replace (pumpLoop o fuel r1) with r1 by (destruct fuel; [done|]; cbn; by rewrite pumpStep_stuck). split; [by apply pumpStep_stuck|done]. }
    assert (He1 : rd_events r1 = []) by (destruct (rd_events r1); [done|]; destruct Hst; by left). assert (Hd1 : rd_mode r1 <> MDead) by tauto.
    destruct Hx as [Hx|(Hd & _)]; [|done]. destruct (IH r1) as (Hn & Hwf2 & Hq2 & x2 & y2 & Hx2 & Hy2 & Hev2 & Hs2); [split; auto|done|lia|].
    split; [done|]. split; [done|]. split; [done|]. exists (x ++ x2), y2. rewrite Hx, Hx2, <- app_assoc. split; [done|]. split; [done|]. rewrite length_app. split; [lia|].
    intros d. specialize (Hs d). unfold settle in Hs at 1. rewrite He1 in Hs. cbn in Hs. eapply same_trans; [by apply octets_app_same|]. by rewrite andThen_quiet.
  - split; [done|]. split; [done|]. split; [by destruct Hq|]. exists [], (unread r). split; [done|]. split; [by right|]. destruct Hq as [He Hw]. rewrite He. split; [done|]. intros d. by apply same_sym, settle_quiet.
Qed.

Lemma work_fuel r : (work r < pumpFuel r)%nat.
Proof. unfold work, pumpFuel, unread. rewrite length_drop. case_match; lia. Qed.

Lemma wf_awaiting b r : wf r -> wf (set_awaitingSync b r).
Proof. by intros []. Qed.

Lemma pump_spec r : rd_events r = [] -> wf r -> pumpStep o (pump o r) = None /\ pumped (set_awaitingSync false r) (pump o r).
Proof. intros He Hwf. apply pumpLoop_spec; [by split|by apply wf_awaiting|apply work_fuel]. Qed.

(** A pump that gives no event has read everything, or the reader is dead. *)
Lemma pump_idle r : rd_events r = [] -> pumpStep o r = None -> rd_mode r = MDead \/ rd_queue r = [].
Proof.
  intros He Hn. destruct (decide (rd_mode r = MDead)) as [|Hd]; [by left|]. right. rewrite pumpStep_eq in Hn by done. destruct (_ && _); [done|]. destruct (rd_queue r) as [|c q]; [done|]. by destruct (_ <=? _)%nat.
Qed.

(** ** Pulling events *)

Definition calm (x : D * Reader * list ReaderEvent) : D * Reader * list ReaderEvent := let '(d, r, es) := x in (d, set_awaitingSync false r, es).

Lemma calm_id d r es : awaitingSync r = false -> calm (d, r, es) = (d, r, es).
Proof. unfold calm. destruct r. cbn. by intros ->. Qed.

Lemma same_calm x y : same x y -> same (calm x) (calm y).
Proof.
  destruct x as [[d r] es], y as [[d' r'] es']. intros (Hd & Hc & He & Hr & Hr'). unfold same, calm in *. cbn [fst snd] in *. split_and!; try done.
  unfold core, modeOf, coreAssembly in *. destruct r, r'; reader_cbn. injection Hc. intros. congruence.
Qed.

(** A refusal is too late once the next octet has been read. *)
Lemma octets_calm d r x : rd_events r = [] -> same (calm (octets o react d r x)) (calm (octets o react d (set_awaitingSync false r) x)).
Proof.
  intros He. destruct x as [|b x]; [unfold same; cbn; by rewrite He|]. apply same_calm. rewrite !octets_cons. change (oct o b (set_awaitingSync false r)) with (oct o b r).
  apply andThen_same; [apply settle_same; done|]. intros. by apply octets_same.
Qed.

Lemma andThen_run d r es (k : D -> Reader -> D * Reader * list ReaderEvent) x : same (k d r) x -> same (andThen (d, r, es) k) (x.1.1, x.1.2, es ++ x.2).
Proof.
  unfold andThen. destruct (k d r) as [[d1 r1] es1], x as [[d2 r2] es2]. intros (? & ? & ? & ? & ?). unfold same in *. cbn [fst snd] in *. rewrite !flat_app. split_and!; congruence.
Qed.

Lemma drain_S fuel d r : drain o react (S fuel) d r =
  match next o r with
  | (None, r) => (d, r, [])
  | (Some e, r) => let '(d, r) := respond react d e r in let '(d, r, es) := drain o react fuel d r in (d, r, e :: es)
  end.
Proof. done. Qed.

Lemma drain_dead fuel d r : quiet r -> rd_mode r = MDead -> drain o react fuel d r = (d, r, []).
Proof.
  intros [He Hw] Hd. destruct fuel as [|fuel]; [done|]. rewrite drain_S. unfold next. rewrite He. assert (Hp : pump o r = r).
  { unfold pump. replace (set_awaitingSync false r) with r by (by destruct r; cbn in *; subst). destruct (pumpFuel r); [done|]. cbn. rewrite pumpStep_stuck; [done|by right]. }
  by rewrite Hp, He.
Qed.

Lemma drain_pump fuel d r : rd_events r = [] ->
  drain o react (S fuel) d r = match rd_events (pump o r) with [] => (d, pump o r, []) | _ => drain o react (S fuel) d (pump o r) end.
Proof. intros He. cbn [drain]. unfold next. rewrite He. destruct (rd_events (pump o r)) eqn:E; cbn [drain]; by rewrite ?E. Qed.

Lemma drain_events fuel d r es : rd_events r = es ->
  drain o react (length es + fuel) d r = andThen (settleEvents react d r es, es) (fun d r => drain o react fuel d r).
Proof.
  revert d r. induction es as [|e es IH]; intros d r He.
  - cbn. by destruct (drain o react fuel d r) as [[? ?] ?].
  - change (length (e :: es) + fuel)%nat with (S (length es + fuel)). rewrite drain_S. cbn [settleEvents]. assert (Hn : next o r = (Some e, set_events es r)) by (unfold next; rewrite He, He; done). rewrite Hn. pose proof (respond_events react d e (set_events es r)) as Hr. destruct (respond react d e (set_events es r)) as [d1 r1]. cbn in Hr.
    rewrite (IH d1 r1 Hr). unfold andThen. destruct (settleEvents react d1 r1 es) as [d2 r2], (drain o react fuel d2 r2) as [[? ?] ?]. done.
Qed.

Lemma respond_frame d e r : let r' := (respond react d e r).2 in
  (wf r -> wf r') /\ unread r' = unread r /\ (rd_mode r = MDead -> awaitingSync r = false -> rd_mode r' = MDead /\ awaitingSync r' = false).
Proof.
  unfold respond. destruct (passive e); [done|]. destruct (react d e) as [d' [rej raw]]. cbn.
  assert (Hj : (wf r -> wf (rejectLiteral r).2) /\ unread (rejectLiteral r).2 = unread r /\ (rd_mode r = MDead -> awaitingSync r = false -> rd_mode (rejectLiteral r).2 = MDead /\ awaitingSync (rejectLiteral r).2 = false)).
  { unfold rejectLiteral. destruct (awaitingSync r) eqn:Ea; [|done]. destruct (rd_events r); [|done]. cbn. split; [intros []; by split|]. done. }
  destruct Hj as (J1 & J2 & J3). assert (Hx : forall r, wf r -> wf (expectRawLine r)) by (by intros ? []).
  destruct rej, raw; cbn; (split; [auto|split; [first [exact J2|done]|first [exact J3|done]]]).
Qed.

Lemma settle_frame d r es : let r' := (settleEvents react d r es).2 in
  (wf r -> wf r') /\ unread r' = unread r /\ (rd_mode r = MDead -> awaitingSync r = false -> rd_mode r' = MDead /\ awaitingSync r' = false).
Proof.
  revert d r. induction es as [|e es IH]; intros d r; [done|]. cbn [settleEvents]. destruct (respond_frame d e (set_events es r)) as (H1 & H2 & H3).
  destruct (respond react d e (set_events es r)) as [d1 r1]. cbn [snd] in *. destruct (IH d1 r1) as (I1 & I2 & I3). cbn zeta in *. split_and!.
  - intros Hw. apply I1, H1. by destruct Hw.
  - by rewrite I2, H2.
  - intros Hm Ha. destruct (H3 Hm Ha). by apply I3.
Qed.

(** Pulling the events of everything pushed is reading it octet by octet. *)
Lemma drain_spec fuel d r : rd_events r = [] -> wf r -> (2 * length (unread r) < fuel)%nat ->
  same (calm (octets o react d r (unread r))) (drain o react fuel d r) /\
  let r' := (drain o react fuel d r).1.2 in wf r' /\ (rd_mode r' = MDead \/ rd_queue r' = []).
Proof.
  revert d r. induction fuel as [fuel IH] using lt_wf_ind. intros d r He Hwf Hf. destruct fuel as [|fuel]; [lia|]. rewrite drain_pump by done.
  destruct (pump_spec r He Hwf) as (Hn & Hwf1 & Hq1 & x & y & Hx & Hy & Hev & Hs). change (unread (set_awaitingSync false r)) with (unread r) in Hx. specialize (Hs d).
  assert (Hcalm : forall z, same (octets o react d (set_awaitingSync false r) (unread r)) z -> same (calm (octets o react d r (unread r))) (calm z)).
  { intros z Hz. eapply same_trans; [by apply octets_calm|by apply same_calm]. }
  destruct (rd_events (pump o r)) as [|e es] eqn:Ev.
  - specialize (Hq1 (or_introl eq_refl)). unfold settle in Hs. rewrite Ev in Hs. cbn in Hs. destruct (pump_idle _ Ev Hn) as [Hd|Hqe].
    + split; [|by split; [|left]]. rewrite <- (calm_id d (pump o r) [] Hq1). apply Hcalm. rewrite Hx.
      eapply same_trans; [by apply octets_app_same|]. rewrite andThen_quiet. by apply octets_dead.
    + assert (Hu : unread (pump o r) = []) by (unfold unread; rewrite Hqe; cbn; apply drop_nil). split; [|by split; [|right]].
      rewrite <- (calm_id d (pump o r) [] Hq1). apply Hcalm. rewrite Hx.
      destruct Hy as [Hd| ->]; [|by rewrite Hu, app_nil_r]. eapply same_trans; [by apply octets_app_same|]. rewrite andThen_quiet. by apply octets_dead.
  - set (n := (S fuel - length (e :: es))%nat). assert (Hxl : (1 <= length x)%nat) by (cbn in Hev; lia). assert (Hul : length (unread r) = (length x + length y)%nat) by (by rewrite Hx, length_app).
    assert (Ed : drain o react (S fuel) d (pump o r) = andThen (settleEvents react d (pump o r) (e :: es), e :: es) (fun d r => drain o react n d r)).
    { replace (S fuel) with (length (e :: es) + n)%nat by (unfold n; cbn [length] in *; lia). by apply drain_events. }
    rewrite Ed. clear Ed.
    unfold settle in Hs. rewrite Ev in Hs. pose proof (settle_frame d (pump o r) (e :: es)) as (S1 & S2 & S3). pose proof (settleEvents_events react d (pump o r) (e :: es) Ev) as He2.
    destruct (settleEvents react d (pump o r) (e :: es)) as [d2 r2]. cbn [snd] in *. cbn zeta in *. specialize (S1 Hwf1).
    assert (Hw2 : forall z, same (andThen (d2, r2, e :: es) (fun d r => octets o react d r y)) z -> same (calm (octets o react d r (unread r))) (calm z)).
    { intros z Hz. apply Hcalm. rewrite Hx. eapply same_trans; [by apply octets_app_same|done]. }
    destruct (decide (rd_mode (pump o r) = MDead)) as [Hd|Hd].
    + destruct (S3 Hd (Hq1 (or_intror Hd))) as [Hd2 Ha2]. assert (Hq2 : quiet r2) by (by split). unfold andThen. rewrite (drain_dead n d2 r2 Hq2 Hd2). cbn [fst snd]. split; [|by split; [|left]].
      rewrite <- (calm_id d2 r2 ((e :: es) ++ []) Ha2). apply Hw2.
      by apply (andThen_run d2 r2 (e :: es) _ (d2, r2, [])), octets_dead.
    + destruct Hy as [?| ->]; [done|]. destruct (IH n ltac:(unfold n; cbn [length]; lia) d2 r2 He2 S1) as [I1 I2]; [rewrite S2; unfold n; cbn [length] in *; lia|].
      rewrite <- S2 in Hw2. split; [|unfold andThen; by destruct (drain o react n d2 r2) as [[? ?] ?]]. eapply same_trans; [eapply Hw2, (andThen_run d2 r2 (e :: es) (fun d r => octets o react d r (unread r2)) (octets o react d2 r2 (unread r2))), octets_same; done|]. destruct (octets o react d2 r2 (unread r2)) as [[d4 r4] es4].
      unfold andThen. destruct (drain o react n d2 r2) as [[d3 r3] es3]. unfold same, calm in *. cbn [fst snd] in *. rewrite !flat_app. destruct I1 as (? & ? & -> & ? & ?). done.
Qed.

(** ** Chunks *)

(** A reader whose events have been pulled. *)
Definition rested (r : Reader) : Prop := quiet r /\ wf r /\ (rd_mode r = MDead \/ rd_queue r = []).

Lemma rested_push c r : rested r -> rd_mode r <> MDead -> wf (push c r) /\ unread (push c r) = c /\ core (push c r) = core r /\ rd_events (push c r) = [].
Proof.
  intros ([He Hw] & Hwf & Hd) Hnd. destruct Hd as [?|Hq]; [done|]. assert (Ho : rd_offset r = 0%nat) by (destruct Hwf as [W1 _ _ _ _]; rewrite Hq in W1; cbn in W1; lia).
  unfold push. rewrite bool_decide_eq_false_2 by done. destruct c as [|b c]; cbn [orb length Nat.eqb].
  - split_and!; [done| |done|done]. unfold unread. rewrite Hq. apply drop_nil.
  - destruct Hwf as [W1 W2 W3 W4 W5]. split_and!; [split; cbn; rewrite ?Hq, ?Ho; cbn; try done; lia| |by destruct r|by destruct r]. unfold unread. cbn. rewrite Hq, Ho. cbn. by rewrite app_nil_r.
Qed.

Lemma same_awaiting x d r es : same (calm x) (d, r, es) -> awaitingSync r = false.
Proof. destruct x as [[d' r'] es']. intros (_ & Hc & _). cbn [calm fst snd] in Hc. apply core_fields in Hc as (_ & _ & _ & _ & _ & _ & Ha & _). by cbn in Ha. Qed.

Lemma readChunks_cons d r c chunks : readChunks o react d r (c :: chunks) = andThen (drain o react (drainFuel (push c r)) d (push c r)) (fun d r => readChunks o react d r chunks).
Proof. done. Qed.

(** The state after a chunk: nothing unread, the same as after its octets. *)
Lemma chunk_spec d r c : rested r -> exists d1 r1 es1, drain o react (drainFuel (push c r)) d (push c r) = (d1, r1, es1) /\ rested r1 /\ same (calm (octets o react d r c)) (d1, r1, es1).
Proof.
  intros Hr. pose proof Hr as (Hq & Hwf & _). destruct (decide (rd_mode r = MDead)) as [Hd|Hd].
  - exists d, r, []. replace (push c r) with r by (unfold push; by rewrite bool_decide_eq_true_2). rewrite drain_dead by done. split; [done|]. split; [done|].
    destruct Hq as [He Ha]. rewrite <- (calm_id d r [] Ha). by apply same_calm, octets_dead.
  - destruct (rested_push c r Hr Hd) as (W & Hu & Hc & He). destruct (drain_spec (drainFuel (push c r)) d (push c r) He W) as [Hs Hf].
    { unfold drainFuel, unread. rewrite length_drop. lia. }
    rewrite Hu in Hs. destruct (drain _ _ _ _ _) as [[d1 r1] es1]. exists d1, r1, es1. split; [done|]. cbn [fst snd] in Hf.
    split; [split; [split; [by destruct Hs as (_ & _ & _ & _ & ?)|by eapply same_awaiting]|done]|].
    eapply same_trans; [|exact Hs]. apply same_calm, octets_same; [by rewrite Hc|by destruct Hq|done].
Qed.

Lemma readChunks_spec d r chunks : rested r -> same (calm (octets o react d r (concat chunks))) (calm (readChunks o react d r chunks)).
Proof.
  revert d r. induction chunks as [|c chunks IH]; intros d r Hr; [destruct Hr as ([He _] & _); unfold same; cbn; by rewrite He|].
  rewrite readChunks_cons. destruct (chunk_spec d r c Hr) as (d1 & r1 & es1 & -> & Hr1 & Hs). cbn [concat]. rewrite octets_app.
  pose proof (IH d1 r1 Hr1) as Hi. destruct (octets o react d r c) as [[d2 r2] es2]. destruct Hs as (Hd & Hc & Hes & He2 & He1). cbn [calm fst snd] in *. subst d2.
  assert (He2' : rd_events r2 = []) by (by destruct r2). pose proof (octets_calm d1 r2 (concat chunks) He2') as Hk.
  pose proof (same_calm _ _ (octets_same o react d1 (set_awaitingSync false r2) r1 (concat chunks) Hc He2 He1)) as Hk2.
  pose proof (same_trans _ _ _ Hk (same_trans _ _ _ Hk2 Hi)) as Hall. unfold andThen. destruct (octets o react d1 r2 (concat chunks)) as [[d4 r4] es4], (readChunks o react d1 r1 chunks) as [[d3 r3] es3].
  unfold same, calm in *. cbn [fst snd] in *. rewrite !flat_app. destruct Hall as (? & ? & -> & ? & ?). by rewrite Hes.
Qed.

Lemma rested_new : rested newReader.
Proof. split; [done|]. split; [|by right]. split; cbn; try lia; unfold TAIL; lia. Qed.
End stream.
