(* ===== verification/ImapFraming.v ===== *)
(** * ImapFraming: the command reader gives the daemon exactly the commands the client wrote, however the network cuts them *)
From S2P Require Import Prelude JsString JsStringFacts ImapReader ImapReaderProofs.

(** ** What a client writes *)

(** A piece of a command that ends in a literal. *)
Record Fragment := mkFragment { fg_text : bytes; fg_nonSync : bool; fg_data : bytes }.

(** An ordinary command, or an APPEND with one message and a mailbox that is no literal. *)
Inductive ClientCommand :=
  | Plain (frags : list Fragment) (last_ : bytes)
  | Append (text : bytes) (nonSync : bool) (message : bytes) (last_ : bytes).

Definition markerText (n : Z) (nonSync : bool) : bytes := 123 :: dec n ++ (if nonSync then [43] else []) ++ [125].
Definition fragmentLine (f : Fragment) : bytes := fg_text f ++ markerText (Z.of_nat (length (fg_data f))) (fg_nonSync f).
Definition fragmentWire (f : Fragment) : bytes := fragmentLine f ++ CRLF ++ fg_data f.
Definition plainWire (frags : list Fragment) (last_ : bytes) : bytes := concat (fragmentWire <$> frags) ++ last_.
Definition appendLine (text : bytes) (nonSync : bool) (message : bytes) : bytes := text ++ markerText (Z.of_nat (length message)) nonSync.

Definition wire (c : ClientCommand) : bytes :=
  match c with
  | Plain frags last_ => plainWire frags last_ ++ CRLF
  | Append text nonSync message last_ => appendLine text nonSync message ++ CRLF ++ message ++ last_ ++ CRLF
  end.

(** What the daemon is to see of it. *)
Definition firstLine (frags : list Fragment) (last_ : bytes) : bytes := match frags with f :: _ => fragmentLine f | [] => last_ end.
Definition continues (tag : option jsstr) (frags : list Fragment) : list ReaderEvent :=
  omap (fun f => if fg_nonSync f then None else Some (EvContinue tag (Z.of_nat (length (fg_data f))))) frags.
Definition endsInTilde (text : bytes) : bool := bool_decide (last text = Some 126).

Definition expected (c : ClientCommand) : list ReaderEvent :=
  match c with
  | Plain frags last_ => let tag := extractTag (firstLine frags last_) in continues tag frags ++ [EvCommand tag (plainWire frags last_)]
  | Append text nonSync message last_ =>
      let line := appendLine text nonSync message in
      let tag := extractTag line in
      [EvAppendBegin tag line (Z.of_nat (length message)) (endsInTilde text) (negb nonSync) false] ++ ((fun b => EvAppendData [b]) <$> message) ++ [EvAppendEnd tag last_]
  end.

(** ** Within the limits *)

Definition text_ok (l : bytes) : Prop := CR ∉ l /\ LF ∉ l.

Section framing.
Context `{Runtime} (o : ReaderOptions).

Definition line_ok (l : bytes) : Prop := text_ok l /\ Z.of_nat (length l) <= maxLineLength o.

(** A literal whose announcement the reader takes. *)
Definition literal_ok (nonSync : bool) (n : Z) : Prop :=
  n < 10 ^ 15 /\ (nonSync = true -> literalMode o <> LiteralNone /\ (literalMode o = LiteralMinus -> n <= LITERAL_MINUS_MAX)).

Definition sendable (c : ClientCommand) : Prop :=
  match c with
  | Plain frags last_ =>
      Forall (fun f => text_ok (fg_text f) /\ line_ok (fragmentLine f) /\ literal_ok (fg_nonSync f) (Z.of_nat (length (fg_data f)))) frags /\
      line_ok last_ /\ literalMarkerAt last_ = None /\ Z.of_nat (length frags) <= maxLiterals o /\ Z.of_nat (length (plainWire frags last_)) <= maxCommandSize o /\
      appendArgStart (firstLine frags last_) (extractTag (firstLine frags last_)) = None
  | Append text nonSync message last_ =>
      let line := appendLine text nonSync message in
      text_ok text /\ line_ok line /\ literal_ok nonSync (Z.of_nat (length message)) /\ Z.of_nat (length message) <= maxAppendSize o /\ 1 <= maxLiterals o /\
      Z.of_nat (length line) + 2 <= maxCommandSize o /\ line_ok last_ /\ literalMarkerAt last_ = None /\ Z.of_nat (length last_) <= maxCommandSize o /\
      exists at_, appendArgStart line (extractTag line) = Some at_ /\ (at_ < length text)%nat /\ (endsInTilde text = true -> (S at_ < length text)%nat)
  end.

(** ** Lines *)

Lemma marker_written p n ns : 0 <= n < 10 ^ 15 ->
  literalMarkerAt (p ++ markerText n ns) = Some (mkMarker (if endsInTilde p then length p - 1 else length p) (Some n) ns (endsInTilde p)).
Proof.
  intros Hn. destruct (dec_spec n) as (Hd & Hne & _); [lia|]. assert (Hl : (length (dec n) <= 15)%nat) by (apply dec_length; cbn; lia).
  assert (Hrev : rev (p ++ markerText n ns) = 125 :: (if ns then [43] else []) ++ rev (dec n) ++ 123 :: rev p).
  { unfold markerText. rewrite rev_app_distr. cbn [rev]. rewrite !rev_app_distr. cbn. destruct ns; cbn; by rewrite <- !app_assoc. }
  assert (Hrd : Forall (fun c => is_digit c = true) (rev (dec n))) by by apply List.Forall_rev.
  unfold literalMarkerAt. rewrite Hrev.
  assert (Htw : takeWhile is_digit (rev (dec n) ++ 123 :: rev p) = rev (dec n)) by by apply takeWhile_stop.
  assert (Hbin : match rev p with c :: _ => c =? 126 | [] => false end = endsInTilde p).
  { unfold endsInTilde. destruct p as [|c p _] using rev_ind; [done|]. rewrite rev_app_distr, last_snoc. cbn. destruct (Z.eqb_spec c 126); [subst; by rewrite bool_decide_eq_true_2|rewrite bool_decide_eq_false_2; [done|congruence]]. }
  set (l := rev (dec n) ++ 123 :: rev p) in *.
  assert (Hcore : (let digits := takeWhile is_digit l in
      match digits, drop (length digits) l with
      | _ :: _, 0x7b :: before =>
          let size := if (15 <? length digits)%nat then None else Some (Number (rev digits)) in
          let binary := match before with c :: _ => c =? 0x7e | [] => false end in
          Some (mkMarker (if binary then length before - 1 else length before) size ns binary)
      | _, _ => None
      end) = Some (mkMarker (if endsInTilde p then length p - 1 else length p) (Some n) ns (endsInTilde p))).
  { cbn zeta. rewrite Htw. unfold l. destruct (rev (dec n)) as [|c ds] eqn:Er; [apply (f_equal (@rev Z)) in Er; rewrite rev_involutive in Er; by rewrite Er in Hne|].
    rewrite drop_app_length. cbn beta iota. rewrite Hbin, length_rev. assert (Hlr : length (c :: ds) = length (dec n)) by (by rewrite <- Er, length_rev). rewrite Hlr.
    replace (15 <? length (dec n))%nat with false by (symmetry; apply Nat.ltb_ge; lia). rewrite <- Er, rev_involutive, Number_dec by lia. done. }
  destruct ns; cbn [app]; [exact Hcore|].
  assert (Hhd : match l with c :: _ => c =? 0x2b | [] => false end = false).
  { unfold l. destruct (rev (dec n)) as [|c ds] eqn:Er; [apply (f_equal (@rev Z)) in Er; rewrite rev_involutive in Er; by rewrite Er in Hne|].
    cbn [app]. apply Forall_cons in Hrd as [Hc _]. apply is_digit_spec in Hc. lia. }
  rewrite Hhd. exact Hcore.
Qed.

Lemma marker_text_ok p n ns : 0 <= n -> text_ok p -> text_ok (p ++ markerText n ns).
Proof.
  intros Hn [H1 H2]. destruct (dec_spec n Hn) as (Hd & _ & _). rewrite Forall_forall in Hd.
  assert (Hx : forall c, c = CR \/ c = LF -> c ∉ markerText n ns).
  { intros c Hc. unfold markerText. assert (c ∉ dec n) by (intros Hin; apply Hd in Hin; apply is_digit_spec in Hin; unfold CR, LF in Hc; lia).
    destruct ns; cbn; rewrite !elem_of_cons, !elem_of_app, ?elem_of_cons, ?elem_of_nil; unfold CR, LF in Hc; intuition lia. }
  split; rewrite elem_of_app; intros [?|Hin]; try done; (eapply Hx; [|done]); auto.
Qed.

(** ** Runs over whole lines *)

Context {D : Type} (react : D -> ReaderEvent -> D * Reaction).
Hypothesis accepting : forall d e, (react d e).2 = mkReaction false false.

Definition lineStart (a : Assembly) : Reader := mkReader [] 0 [] MLine [] 0 false a false [].

Definition acceptAll (d : D) (es : list ReaderEvent) : D := fold_left (fun d e => if passive e then d else (react d e).1) es d.

Lemma settle_accept d r : settle react d r = (acceptAll d (rd_events r), set_events [] r, rd_events r).
Proof.
  unfold settle. f_equal. assert (Hr : r = set_events (rd_events r) r) by (by destruct r). rewrite Hr at 1 4. generalize (rd_events r) as es. clear Hr. intros es. revert d.
  induction es as [|e es IH]; intros d; [done|]. cbn [settleEvents acceptAll fold_left]. unfold respond. destruct (passive e).
  - apply (IH d).
  - pose proof (accepting d e) as Ha. destruct (react d e) as [d' x]. cbn in Ha. subst x. cbn. apply (IH d').
Qed.

Lemma octets_app_calm d r x y d1 r1 es1 :
  same (calm (octets o react d r x)) (d1, r1, es1) -> same (calm (octets o react d r (x ++ y))) (calm (andThen (d1, r1, es1) (fun d r => octets o react d r y))).
Proof.
  intros Hs. rewrite octets_app. destruct (octets o react d r x) as [[d2 r2] es2]. destruct Hs as (Hd & Hc & Hes & He2 & He1). cbn [calm fst snd] in *. subst d2.
  assert (He2' : rd_events r2 = []) by (by destruct r2). pose proof (octets_calm o react d1 r2 y He2') as Hk.
  pose proof (same_calm _ _ (octets_same o react d1 (set_awaitingSync false r2) r1 y Hc He2 He1)) as Hk2.
  pose proof (same_trans _ _ _ Hk Hk2) as Hall. unfold andThen. destruct (octets o react d1 r2 y) as [[d4 r4] es4], (octets o react d1 r1 y) as [[d3 r3] es3].
  unfold same, calm in *. cbn [fst snd] in *. rewrite !flat_app. destruct Hall as (? & ? & -> & ? & ?). by rewrite Hes.
Qed.

(** A run in two halves, each known. *)
Lemma run_app d r x y d1 r1 es1 d2 r2 es2 :
  same (calm (octets o react d r x)) (d1, r1, es1) -> same (calm (octets o react d1 r1 y)) (d2, r2, es2) -> same (calm (octets o react d r (x ++ y))) (d2, r2, es1 ++ es2).
Proof.
  intros H1 H2. eapply same_trans; [by apply octets_app_calm|]. unfold andThen. destruct (octets o react d1 r1 y) as [[d3 r3] es3]. unfold same, calm in *. cbn [fst snd] in *.
  rewrite !flat_app. destruct H2 as (? & ? & -> & ? & ?). done.
Qed.

Lemma octets_textline d a l : line_ok l ->
  let first := (fragment a =? 0)%nat in
  same (octets o react d (lineStart a) (l ++ CRLF)) (settle react d (commandLine o first l (if first then extractTag l else as_tag a) (lineStart a))).
Proof.
  intros [[Hcr Hlf] Hl]. cbn zeta. change (l ++ CRLF) with (l ++ [CR] ++ [LF]). rewrite app_assoc.
  assert (Hlf' : LF ∉ l ++ [CR]) by (rewrite elem_of_app, list_elem_of_singleton; unfold CR, LF in *; intuition lia).
  eapply same_trans; [apply octets_app_same, (octets_line o react d (lineStart a) (l ++ [CR])); [done|done|done|rewrite length_app; cbn; lia]|].
  rewrite andThen_quiet, octets_one. apply settle_same. rewrite oct_lf by (done || (cbn; rewrite length_app; cbn; lia)). destruct a as [ps cs fr tg ap st li rem]. unfold lengthen, lineStart. reader_cbn.
  cbn [app concat]. rewrite app_nil_r. unfold completeLine. rewrite last_snoc, bool_decide_eq_true_2 by done. cbn [negb]. rewrite length_app. cbn [length].
  replace (length l + 1 - 1)%nat with (length l) by lia. rewrite take_app_length. reader_cbn. rewrite andb_true_r.
  replace (existsb (fun c => c =? CR) l) with false by (symmetry; apply not_true_is_false; rewrite existsb_exists; intros (c & Hin & E); apply Hcr; apply list_elem_of_In in Hin; by replace CR with c by lia).
  replace (maxLineLength o <? Z.of_nat (length l)) with false by lia. by apply commandLine_core.
Qed.

(** The tag a line's command has. *)
Definition tagOf (a : Assembly) (line : bytes) : option jsstr := if (fragment a =? 0)%nat then extractTag line else as_tag a.
Definition appendOf (a : Assembly) (line : bytes) : option nat := if (fragment a =? 0)%nat then appendArgStart line (tagOf a line) else appendAt a.

Lemma nonSync_taken m tag (r r' : Reader) ns n : literal_ok ns n -> mk_size m = Some n -> mk_nonSync m = ns ->
  (if mk_nonSync m then nonSyncFatal o m tag r else (false, r')) = (false, if ns then r else r').
Proof.
  intros [_ Hl] Hs ->. destruct ns; [|done]. destruct (Hl eq_refl) as [H1 H2]. unfold nonSyncFatal. rewrite Hs. destruct (literalMode o); [|done|done]. cbn. specialize (H2 eq_refl). by replace (LITERAL_MINUS_MAX <? n) with false by lia.
Qed.

Definition afterFragment (a : Assembly) (f : Fragment) : Assembly :=
  mkAssembly (parts a ++ [fragmentLine f; CRLF; fg_data f]) (cmdSize a + Z.of_nat (length (fragmentWire f))) (S (fragment a)) (tagOf a (fragmentLine f)) None false (literals a + 1) 0.

Definition fragmentEvents (tag : option jsstr) (f : Fragment) : list ReaderEvent := if fg_nonSync f then [] else [EvContinue tag (Z.of_nat (length (fg_data f)))].

(** The line of a fragment leaves the reader in its literal. *)
Lemma fragment_line a f : let line := fragmentLine f in let n := Z.of_nat (length (fg_data f)) in let tag := tagOf a line in
  literal_ok (fg_nonSync f) n -> appendOf a line = None -> appendStreamed a = false -> cmdSize a + Z.of_nat (length (fragmentWire f)) <= maxCommandSize o -> literals a + 1 <= maxLiterals o ->
  commandLine o (fragment a =? 0)%nat line tag (lineStart a) =
    mkReader [] 0 (fragmentEvents tag f) MLiteral [] 0 false
      (mkAssembly (parts a ++ [line; CRLF]) (cmdSize a + Z.of_nat (length (fragmentWire f))) (S (fragment a)) tag None false (literals a + 1) n) (negb (fg_nonSync f)) [].
Proof.
  intros line n tag Hlit Happ Hst Hsz Hli. assert (Hn : 0 <= n < 10 ^ 15) by (destruct Hlit; lia).
  assert (Hlen : Z.of_nat (length (fragmentWire f)) = Z.of_nat (length line) + 2 + n) by (unfold fragmentWire; rewrite !length_app; unfold line, n; cbn [length CRLF]; lia).
  unfold commandLine. set (a0 := if (fragment a =? 0)%nat then _ else _).
  assert (Ha0 : a0 = mkAssembly (parts a) (cmdSize a) (fragment a) tag None false (literals a) (remaining a)).
  { unfold a0, tag, appendOf, tagOf in *. destruct a as [ps cs fr tg ap st li rem]. cbn in *. subst st. destruct (fr =? 0)%nat; congruence. }
  rewrite Ha0. unfold line, fragmentLine. rewrite marker_written by done. fold n. cbn zeta. set (m := mkMarker _ _ _ _). change (fg_text f ++ markerText n (fg_nonSync f)) with line. reader_cbn.
  destruct (Z.ltb_spec (maxCommandSize o) (cmdSize a + Z.of_nat (length line) + 2)); [lia|]. destruct (Z.ltb_spec (maxLiterals o) (literals a + 1)); [lia|].
  rewrite (nonSync_taken m tag _ _ (fg_nonSync f) n Hlit eq_refl eq_refl). unfold beginLiteral. reader_cbn. cbn [mk_size m mk_nonSync].
  destruct (Z.ltb_spec (maxCommandSize o) (cmdSize a + Z.of_nat (length line) + 2 + n)); [lia|].
  replace (cmdSize a + Z.of_nat (length line) + 2 + n) with (cmdSize a + Z.of_nat (length (fragmentWire f))) by lia. unfold fragmentEvents, lineStart. by destruct (fg_nonSync f).
Qed.

Lemma fragment_run d a f : line_ok (fragmentLine f) -> literal_ok (fg_nonSync f) (Z.of_nat (length (fg_data f))) -> appendOf a (fragmentLine f) = None -> appendStreamed a = false ->
  cmdSize a + Z.of_nat (length (fragmentWire f)) <= maxCommandSize o -> literals a + 1 <= maxLiterals o ->
  exists d', same (calm (octets o react d (lineStart a) (fragmentWire f))) (d', lineStart (afterFragment a f), fragmentEvents (tagOf a (fragmentLine f)) f).
Proof.
  intros Hline Hlit Happ Hst Hsz Hli. pose proof (octets_textline d a (fragmentLine f) Hline) as H1. cbn zeta in H1. fold (tagOf a (fragmentLine f)) in H1.
  rewrite fragment_line, settle_accept in H1 by done. cbn [rd_events set_events] in H1. apply same_calm in H1. set (d' := acceptAll d _) in *. exists d'.
  unfold fragmentWire. rewrite app_assoc. rewrite <- (app_nil_r (fragmentEvents _ f)). eapply run_app; [exact H1|]. cbn [calm set_awaitingSync]. reader_cbn.
  eapply same_trans; [apply same_calm, octets_literal; [done|done|cbn; lia]|]. unfold advance, calm, same. reader_cbn. cbn [fst snd dataOf]. split_and!; try done. unfold afterFragment, lineStart.
  replace (Z.of_nat (length (fg_data f)) - Z.of_nat (length (fg_data f))) with 0 by lia. by rewrite <- app_assoc.
Qed.

(** The last line of a command. *)
Lemma last_run d a l : line_ok l -> literalMarkerAt l = None -> cmdSize a + Z.of_nat (length l) <= maxCommandSize o ->
  exists d', same (calm (octets o react d (lineStart a) (l ++ CRLF))) (d', lineStart resetCommand, [if appendStreamed a then EvAppendEnd (tagOf a l) l else EvCommand (tagOf a l) (concat (parts a) ++ l)]).
Proof.
  intros Hl Hm Hsz. pose proof (octets_textline d a l Hl) as H1. cbn zeta in H1. fold (tagOf a l) in H1.
  assert (Hc : commandLine o (fragment a =? 0)%nat l (tagOf a l) (lineStart a) =
    mkReader [] 0 [if appendStreamed a then EvAppendEnd (tagOf a l) l else EvCommand (tagOf a l) (concat (parts a) ++ l)] MLine [] 0 false resetCommand false []).
  { unfold commandLine. rewrite Hm. destruct a as [ps cs fr tg ap st li rem]. unfold lineStart. reader_cbn. destruct (fr =? 0)%nat; reader_cbn;
      (destruct (Z.ltb_spec (maxCommandSize o) (cs + Z.of_nat (length l) + 0)); [lia|]); rewrite concat_app; cbn [concat]; rewrite app_nil_r; by destruct st. }
  rewrite Hc, settle_accept in H1. apply same_calm in H1. eexists. exact H1.
Qed.

Lemma plain_run d a frags l : 
  Forall (fun f => text_ok (fg_text f) /\ line_ok (fragmentLine f) /\ literal_ok (fg_nonSync f) (Z.of_nat (length (fg_data f)))) frags -> line_ok l -> literalMarkerAt l = None ->
  appendOf a (firstLine frags l) = None -> appendStreamed a = false ->
  cmdSize a + Z.of_nat (length (plainWire frags l)) <= maxCommandSize o -> literals a + Z.of_nat (length frags) <= maxLiterals o ->
  let tag := tagOf a (firstLine frags l) in
  exists d', same (calm (octets o react d (lineStart a) (plainWire frags l ++ CRLF))) (d', lineStart resetCommand, continues tag frags ++ [EvCommand tag (concat (parts a) ++ plainWire frags l)]).
Proof.
  intros Hf Hl Hm. revert d a. induction Hf as [|f frags (Ht & Hline & Hlit) _ IH]; intros d a Happ Hst Hsz Hli; cbn zeta.
  - destruct (last_run d a l Hl Hm) as [d' Hd]; [cbn in Hsz; lia|]. exists d'. rewrite Hst in Hd. exact Hd.
  - assert (Hw : plainWire (f :: frags) l = fragmentWire f ++ plainWire frags l) by (unfold plainWire; cbn; by rewrite <- app_assoc). rewrite Hw, length_app in *. cbn [firstLine length] in *.
    destruct (fragment_run d a f Hline Hlit Happ Hst) as [d1 H1]; [lia|lia|].
    destruct (IH d1 (afterFragment a f)) as [d2 H2]; [done|done|cbn [afterFragment cmdSize]; lia|cbn [afterFragment literals]; lia|].
    exists d2. rewrite <- app_assoc. assert (Ht2 : tagOf (afterFragment a f) (firstLine frags l) = tagOf a (fragmentLine f)) by done. rewrite Ht2 in H2.
    pose proof (run_app _ _ _ _ _ _ _ _ _ _ H1 H2) as Hr. eapply same_trans; [exact Hr|]. unfold same. cbn [fst snd]. split_and!; try done. f_equal.
    unfold fragmentEvents, continues. cbn [omap list_omap]. cbn [afterFragment parts]. rewrite concat_app. cbn [concat]. rewrite app_nil_r. unfold fragmentWire. destruct (fg_nonSync f); cbn [app]; rewrite <- !app_assoc; done.
Qed.

Lemma flat_data x : flat [EvAppendData x] = flat ((fun b => EvAppendData [b]) <$> x).
Proof.
  unfold flat. cbn [fmap list_fmap concat flatEvent]. rewrite app_nil_r. induction x as [|b x IH]; [done|]. cbn [fmap list_fmap concat flatEvent app]. by f_equal.
Qed.

Lemma append_run d text ns msg l : sendable (Append text ns msg l) ->
  exists d', same (calm (octets o react d (lineStart resetCommand) (wire (Append text ns msg l)))) (d', lineStart resetCommand, expected (Append text ns msg l)).
Proof.
  cbn [sendable wire expected]. set (line := appendLine text ns msg). set (n := Z.of_nat (length msg)). set (tag := extractTag line).
  intros (Ht & Hline & Hlit & Hmax & Hli & Hsz & Hl & Hm & Hsl & at_ & Hat & Hlt & Htl). assert (Hn : 0 <= n < 10 ^ 15) by (destruct Hlit; lia).
  pose proof (octets_textline d resetCommand line Hline) as H1. cbn zeta in H1. cbn [fragment resetCommand Nat.eqb] in H1. fold tag in H1.
  set (a1 := mkAssembly [] 0 1 tag (Some at_) true 1 n).
  assert (Hc : commandLine o true line tag (lineStart resetCommand) = mkReader [] 0 [EvAppendBegin tag line n (endsInTilde text) (negb ns) false] MAppend [] 0 false a1 (negb ns) []).
  { unfold commandLine. rewrite Hat. pose proof (marker_written text n ns Hn) as Hmk. change (text ++ markerText n ns) with line in Hmk. rewrite Hmk. clear Hmk. cbn zeta. set (m := mkMarker _ _ _ _). unfold lineStart. reader_cbn.
    destruct (Z.ltb_spec (maxCommandSize o) (0 + Z.of_nat (length line) + 2)); [lia|]. destruct (Z.ltb_spec (maxLiterals o) (0 + 1)); [lia|].
    rewrite (nonSync_taken m tag _ _ ns n Hlit eq_refl eq_refl). replace (negb _) with true.
    2:{ cbn [mk_start m]. destruct (endsInTilde text); [specialize (Htl eq_refl)|]; symmetry; apply negb_true_iff, Nat.eqb_neq; lia. }
    unfold beginLiteral. reader_cbn. cbn [mk_size m mk_nonSync mk_binary]. destruct (Z.ltb_spec (maxAppendSize o) n); [lia|]. cbn [app concat]. rewrite app_nil_r. unfold a1. by destruct ns. }
  rewrite Hc, settle_accept in H1. cbn [rd_events set_events] in H1. apply same_calm in H1. set (d1 := acceptAll d _) in *.
  assert (H2 : same (calm (octets o react d1 (mkReader [] 0 [] MAppend [] 0 false a1 false []) msg)) (d1, lineStart (mkAssembly [] 0 1 tag (Some at_) true 1 0), [EvAppendData msg])).
  { eapply same_trans; [apply same_calm, octets_literal; [done|done|cbn; lia]|]. unfold advance, calm, same. reader_cbn. cbn [fst snd dataOf]. split_and!; try done. unfold lineStart, a1. reader_cbn.
    by replace (n - Z.of_nat (length msg)) with 0 by lia. }
  destruct (last_run d1 (mkAssembly [] 0 1 tag (Some at_) true 1 0) l Hl Hm) as [d2 H3]; [cbn; lia|]. exists d2.
  pose proof (run_app _ _ _ _ _ _ _ _ _ _ H2 H3) as H4. rewrite app_assoc. pose proof (run_app _ _ _ _ _ _ _ _ _ _ H1 H4) as H5.
  eapply same_trans; [exact H5|]. unfold same. cbn [fst snd]. split_and!; try done. rewrite !flat_app. by rewrite flat_data.
Qed.

Lemma command_run d c : sendable c -> exists d', same (calm (octets o react d newReader (wire c))) (d', newReader, expected c).
Proof.
  destruct c as [frags l|text ns msg l]; [|apply append_run]. intros (Hf & Hl & Hm & Hli & Hsz & Ha). apply (plain_run d resetCommand frags l); try done; cbn; lia.
Qed.

Lemma commands_run d cs : Forall sendable cs -> exists d', same (calm (octets o react d newReader (concat (wire <$> cs)))) (d', newReader, concat (expected <$> cs)).
Proof.
  intros Hc. revert d. induction Hc as [|c cs Hc _ IH]; intros d; [by exists d|]. destruct (command_run d c Hc) as [d1 H1], (IH d1) as [d2 H2]. exists d2. cbn. by eapply run_app.
Qed.
End framing.

(** ** Memory *)

Section memory.
Context `{Runtime} (o : ReaderOptions) {D : Type} (react : D -> ReaderEvent -> D * Reaction).
Hypothesis command_limit : 0 <= maxCommandSize o.

(** The command fits, and a dead reader holds no input. *)
Definition small (r : Reader) : Prop := cmdSize (assembly r) <= maxCommandSize o /\ (rd_mode r = MDead -> rd_queue r = [] /\ rd_offset r = 0%nat).

Ltac small_done := unfold small; reader_cbn; split; [lia || done | first [done | tauto]].

Lemma afterFailedLine_small line tag r : cmdSize (assembly r) <= maxCommandSize o -> small (afterFailedLine o line tag r).
Proof. unfold afterFailedLine, nonSyncFatal, emitError. intros Hr. repeat case_match; simplify_eq; small_done. Qed.

Lemma failLine_small code tag line message r : small (failLine o code tag line message r).
Proof. apply afterFailedLine_small. done. Qed.

Lemma beginLiteral_small line m streaming a r : cmdSize a <= maxCommandSize o -> small (beginLiteral o line m streaming a r).
Proof.
  intros Ha. unfold beginLiteral. destruct streaming, (mk_size m) as [n|]; try apply failLine_small; (destruct (_ <? _) eqn:E; [apply failLine_small|]);
    destruct (mk_nonSync m); small_done.
Qed.

Lemma commandLine_small first line tag r : small r -> small (commandLine o first line tag r).
Proof.
  intros [_ Hd]. unfold commandLine. set (a := if first then _ else _). clearbody a. reader_cbn. destruct (Z.ltb_spec (maxCommandSize o) (cmdSize a + Z.of_nat (length line) + (match literalMarkerAt line with Some _ => 2 | None => 0 end))) as [|Hle]; [apply failLine_small|].
  destruct (literalMarkerAt line) as [m|]; [|destruct (appendStreamed _); small_done]. destruct (_ <? _); [apply failLine_small|].
  unfold nonSyncFatal, emitError. destruct (mk_nonSync m), (literalMode o); try destruct (sizeAbove _ _); try (by apply beginLiteral_small); small_done.
Qed.

Lemma completeLine_small raw r : small r -> small (completeLine o raw r).
Proof. intros Hr. unfold completeLine. repeat (case_match; auto using failLine_small, commandLine_small). Qed.

Lemma stepLiteral_small rest r : small r -> rd_mode r <> MDead -> small (stepLiteral rest r).
Proof. intros [H1 _] H2. unfold stepLiteral. destruct (rd_mode r) eqn:E; unfold small; reader_cbn; rewrite ?E; done. Qed.

Lemma stepMode_small rest r : small r -> rd_mode r <> MDead -> small (stepMode o rest r).
Proof.
  intros Hr Hd. pose proof Hr as [H1 _]. assert (Hm : forall r', rd_mode r' = rd_mode r -> cmdSize (assembly r') = cmdSize (assembly r) -> small r') by (intros r' E1 E2; split; [lia|congruence]).
  unfold stepMode. destruct (rd_mode r) eqn:E; try (apply stepLiteral_small; [done|by rewrite E]).
  - unfold stepLine. cbv zeta. match goal with |- small (if ?b then _ else _) => destruct b end; [small_done|].
    match goal with |- context [if ?b then set_line _ _ _ else _] => destruct b end; (destruct (indexOf LF rest); [apply completeLine_small|]; by apply Hm).
  - unfold stepDiscard. destruct (indexOf LF rest); [by apply afterFailedLine_small|by apply Hm].
Qed.

Lemma pumpStep_small r r1 : small r -> pumpStep o r = Some r1 -> small r1.
Proof.
  intros Hr E. destruct (decide (rd_events r <> [] \/ rd_mode r = MDead)) as [Hs|Hs]; [by rewrite pumpStep_stuck in E|].
  assert (He : rd_events r = []) by (destruct (rd_events r); [done|]; destruct Hs; by left). assert (Hd : rd_mode r <> MDead) by tauto. pose proof Hr as [H1 _].
  rewrite pumpStep_eq in E by done. destruct (_ && _) eqn:El.
  - injection E as <-. split; [done|]. cbn. unfold modeOf. rewrite El. by destruct (rd_mode r).
  - destruct (rd_queue r) as [|c q]; [done|]. destruct (_ <=? _)%nat; injection E as <-; [by split|by apply stepMode_small].
Qed.

Lemma pumpLoop_small fuel r : small r -> small (pumpLoop o fuel r).
Proof. revert r. induction fuel as [|fuel IH]; intros r Hr; [done|]. cbn. destruct (pumpStep o r) as [r1|] eqn:E; [|done]. by eapply IH, pumpStep_small. Qed.

Lemma respond_small d e r : small r -> small (respond react d e r).2.
Proof.
  intros Hr. unfold respond. destruct (passive e); [done|]. destruct (react d e) as [d' [rej raw]]. cbn.
  assert (Hj : small (rejectLiteral r).2) by (unfold rejectLiteral; destruct (awaitingSync r), (rd_events r); first [done | small_done]). by destruct rej, raw.
Qed.

Lemma drain_small fuel d r : small r -> small (drain o react fuel d r).1.2.
Proof.
  revert d r. induction fuel as [|fuel IH]; intros d r Hr; [done|]. cbn [drain]. unfold next. set (r1 := match rd_events r with [] => pump o r | _ => r end).
  assert (Hr1 : small r1) by (unfold r1; destruct (rd_events r); [by apply pumpLoop_small|done]). clearbody r1. destruct (rd_events r1) as [|e es]; [done|].
  pose proof (respond_small d e (set_events es r1) Hr1) as H2. destruct (respond react d e (set_events es r1)) as [d2 r2]. cbn in H2. specialize (IH d2 r2 H2). by destruct (drain o react fuel d2 r2) as [[? ?] ?].
Qed.

Lemma readChunks_small d r chunks : small r -> small (readChunks o react d r chunks).1.2.
Proof.
  revert d r. induction chunks as [|c chunks IH]; intros d r Hr; [done|]. cbn [readChunks].
  assert (Hp : small (push c r)).
  { unfold push. destruct Hr as [H1 H2]. destruct (_ || _) eqn:E; [done|]. apply orb_false_iff in E as [E _]. apply bool_decide_eq_false in E. by split. } pose proof (drain_small (drainFuel (push c r)) d (push c r) Hp) as H2.
  destruct (drain o react _ d (push c r)) as [[d2 r2] es2]. cbn in H2. specialize (IH d2 r2 H2). by destruct (readChunks o react d2 r2 chunks) as [[? ?] ?].
Qed.

Lemma readChunks_rested d r chunks : 0 <= maxLineLength o -> rested o r -> rested o (readChunks o react d r chunks).1.2.
Proof.
  intros Hl. revert d r. induction chunks as [|c chunks IH]; intros d r Hr; [done|]. rewrite readChunks_cons. destruct (chunk_spec o react Hl d r c Hr) as (d1 & r1 & es1 & -> & Hr1 & _).
  specialize (IH d1 r1 Hr1). unfold andThen. by destruct (readChunks o react d1 r1 chunks) as [[? ?] ?].
Qed.
End memory.

(** ** Theorems *)

Lemma flat_expected c : flat (expected c) = expected c.
Proof.
  destruct c as [frags l|text ns msg l]; cbn [expected].
  - rewrite flat_app. f_equal. unfold continues. generalize (extractTag (firstLine frags l)) as tag. intros tag. induction frags as [|f frags IH]; [done|]. cbn [omap list_omap]. destruct (fg_nonSync f); cbn; [exact IH|]. unfold flat in *. cbn. by rewrite IH.
  - rewrite !flat_app. f_equal. f_equal. induction msg as [|b msg IH]; [done|]. unfold flat in *. cbn. by rewrite IH.
Qed.

(** C24: What the daemon sees of a stream, and the state it comes to, do not depend on how the network cut it, whatever literals it refuses and whatever
    lines it reads verbatim on the way: only the cutting of message data and the tags of errors may differ. *)
Theorem imap_reader_chunking `{Runtime} (o : ReaderOptions) {D} (react : D -> ReaderEvent -> D * Reaction) d chunks chunks' :
  0 <= maxLineLength o -> concat chunks = concat chunks' ->
  let '(d1, _, es1) := readChunks o react d newReader chunks in
  let '(d2, _, es2) := readChunks o react d newReader chunks' in
  d1 = d2 /\ flat es1 = flat es2.
Proof.
  intros Hl E. pose proof (readChunks_spec o react Hl d newReader chunks (rested_new o Hl)) as H1. pose proof (readChunks_spec o react Hl d newReader chunks' (rested_new o Hl)) as H2. rewrite E in H1.
  pose proof (same_trans _ _ _ (same_sym _ _ H1) H2) as (H3 & _ & H4 & _).
  destruct (readChunks o react d newReader chunks) as [[d1 r1] es1], (readChunks o react d newReader chunks') as [[d2 r2] es2]. done.
Qed.



(** ** At concrete inputs *)

#[local] Instance demoRuntime : Runtime := {| uni_upper := id; uni_lower := id; big_string := fun _ => []; isIPv6 := fun _ => false |}.

(** A daemon that takes everything. *)
Definition acceptor (d : nat) (e : ReaderEvent) : nat * Reaction := (S d, mkReaction false false).

Definition demoCommands : list ClientCommand :=
  [Plain [] (js "a1 NOOP");
   Plain [mkFragment (js "a2 LOGIN ") false (js "us" ++ CRLF ++ js "a9 NOOP"); mkFragment (js " ") true (js "pass")] [];
   Append (js "a3 append INBOX ") true (js "Subject: x" ++ CRLF ++ CRLF ++ js "a4 LOGOUT") []].

Definition demoWire : bytes := concat (wire <$> demoCommands).

Lemma demo_sendable : Forall (sendable defaultReaderOptions) demoCommands.
Proof.
  assert (Hno : forall (c : Z) (l : bytes), bool_decide (c ∉ l) = true -> c ∉ l) by (intros c l; apply bool_decide_eq_true_1).
  unfold demoCommands. rewrite !Forall_cons, Forall_nil. cbn [sendable firstLine]. rewrite !Forall_cons, !Forall_nil. unfold line_ok, text_ok, literal_ok. cbn [fg_text fg_nonSync fg_data].
  split_and!; try done; try (apply Hno; by vm_compute); try (intros _; by vm_compute).
  exists 10%nat. split_and!; [by vm_compute|by apply (bool_decide_unpack _); vm_compute|intros E; by vm_compute in E].
Qed.


Lemma imap_reader_chunking_witness :
  let '(d1, _, es1) := readChunks defaultReaderOptions acceptor 0%nat newReader [take 30 demoWire; drop 30 demoWire] in
  let '(d2, _, es2) := readChunks defaultReaderOptions acceptor 0%nat newReader ((fun b => [b]) <$> demoWire) in
  d1 = d2 /\ flat es1 = flat es2.
Proof.
  apply (imap_reader_chunking defaultReaderOptions acceptor 0%nat [take 30 demoWire; drop 30 demoWire] ((fun b => [b]) <$> demoWire)); by vm_compute.
Defined.


(** The tag of an error can depend on the cutting: a tag of 256 octets on an overlong line. *)
Example overlong_tag_depends_on_chunks :
  let o := mkReaderOptions 300 1000 64 1000 LiteralMinus in
  let line := repeat 97 256 ++ [SP] ++ repeat 98 100 in
  (readChunks o acceptor 0%nat newReader [line]).2 = [tooLong o None] /\
  (readChunks o acceptor 0%nat newReader [take 1 line; drop 1 line]).2 = [tooLong o (Some (repeat 97 256))].
Proof. by vm_compute. Qed.

(** A literal announced with more than 29 digits at the end of an overlong line is not seen: its octets are read as commands. *)
Example overlong_line_hides_literal :
  let o := mkReaderOptions 300 1000 64 1000 LiteralPlus in
  let line := repeat 97 400 ++ js "{0000000000000000000000000000000000009+}" ++ CRLF ++ js "x NOOP" ++ CRLF ++ js "z" in
  (readChunks o acceptor 0%nat newReader [line]).2 = [tooLong o None; EvCommand (Some (js "x")) (js "x NOOP")].
Proof. by vm_compute. Qed.
