(* ===== verification/SieveMatch.v ===== *)
(** * SieveMatch: comparators and match types of Sieve ([sieve/src/match.ts])

    Every step is charged to a work budget; a charge over the allowance throws, which is [None] here, and the
    work spent so far is threaded. *)
From S2P Require Import Prelude JsString JsStringFacts.

Inductive Comparator := CmpOctet | CmpAsciiCasemap.
Inductive MatchType := MatchIs | MatchContains | MatchMatches.

(** [Budget.charge] of a run with [maxWork]. *)
Definition charge (maxWork n work : Z) : option Z := let work := work + n in if maxWork <? work then None else Some work.

Definition foldAscii (s : jsstr) : jsstr := lower_char <$> s.

Inductive PatternPiece := Lit (ch : Z) | Star | One.
#[export] Instance PatternPiece_eq_dec : EqDecision PatternPiece.
Proof. solve_decision. Defined.

Fixpoint compilePattern (pattern : jsstr) : list PatternPiece :=
  match pattern with
  | [] => []
  | 0x5c :: (c :: pattern) => Lit c :: compilePattern pattern
  | 0x2a :: pattern => Star :: compilePattern pattern
  | 0x3f :: pattern => One :: compilePattern pattern
  | c :: pattern => Lit c :: compilePattern pattern
  end.

Definition isWildcard (p : PatternPiece) : bool := match p with Lit _ => false | _ => true end.

(** The wildcards among [p]. *)
Definition wildcards (p : list PatternPiece) : nat := length (filter (fun x => isWildcard x = true) p).

(** [wildcardIndex[pi]] of a wildcard: the wildcards before it. *)
Definition wildcardIndex (p : list PatternPiece) (pi : nat) : nat := wildcards (take pi p).

(** A range of the text, its end excluded. *)
Notation range := (nat * nat)%type.

Record GlobState := mkGlob { g_ti : nat; g_pi : nat; g_starP : option nat; g_starT : nat; g_ranges : list range }.

(** The width of the character at [ti]: a high surrogate takes the unit after it along. *)
Definition charWidth (text : jsstr) (ti : nat) : nat :=
  match text !! ti with Some c => if is_high c && (ti + 1 <? length text)%nat then 2 else 1 | None => 1 end.

(** One round of the loop: the next state, or the failure. *)
Definition globStep (text : jsstr) (p : list PatternPiece) (s : GlobState) : option GlobState :=
  let '(mkGlob ti pi starP starT ranges) := s in
  let grow :=
    match starP with
    | Some sp =>
        let w := wildcardIndex p sp in
        Some (mkGlob (S starT) (S sp) starP (S starT) (<[w := ((default (0, 0) (ranges !! w)).1, S starT)]> ranges)%nat)
    | None => None
    end in
  match p !! pi with
  | Some Star => Some (mkGlob ti (S pi) (Some pi) ti (<[wildcardIndex p pi := (ti, ti)]> ranges))
  | Some One =>
      let width := charWidth text ti in
      Some (mkGlob (ti + width) (S pi) starP starT (<[wildcardIndex p pi := (ti, (ti + width)%nat)]> ranges))
  | Some (Lit ch) => if bool_decide (text !! ti = Some ch) then Some (mkGlob (S ti) (S pi) starP starT ranges) else grow
  | None => grow
  end.

Section match_.
Context (maxWork : Z).

(** What is thrown is [None]; [Some (None, work)] is a text that does not match. *)
Fixpoint globLoop (fuel : nat) (text : jsstr) (p : list PatternPiece) (s : GlobState) (work : Z) : option (option GlobState * Z) :=
  if (g_ti s <? length text)%nat then
    match fuel with
    | O => None
    | S fuel =>
        work ← charge maxWork 1 work;
        match globStep text p s with Some s => globLoop fuel text p s work | None => Some (None, work) end
    end
  else Some (Some s, work).

(** The stars at the end take nothing. *)
Fixpoint trailingStars (fuel : nat) (text : jsstr) (p : list PatternPiece) (pi : nat) (ranges : list range) : nat * list range :=
  match fuel, p !! pi with
  | S fuel, Some Star => trailingStars fuel text p (S pi) (<[wildcardIndex p pi := (length text, length text)]> ranges)
  | _, _ => (pi, ranges)
  end.

Definition globFuel (text : jsstr) (p : list PatternPiece) : nat := length text * (length p + 1) + length p.

Definition globRanges (text pattern : jsstr) (work : Z) : option (option (list range) * Z) :=
  let p := compilePattern pattern in
  '(s, work) ← globLoop (globFuel text p) text p (mkGlob 0 0 None 0 (replicate (wildcards p) (0, 0)%nat)) work;
  match s with
  | None => Some (None, work)
  | Some s =>
      let '(pi, ranges) := trailingStars (length p) text p (g_pi s) (g_ranges s) in
      Some (if (pi =? length p)%nat then Some ranges else None, work)
  end.

Definition slices (text : jsstr) (ranges : list range) : list jsstr := (fun '(a, b) => sub text a b) <$> ranges.

Definition globMatch (text pattern : jsstr) (work : Z) : option (option (list jsstr) * Z) :=
  '(ranges, work) ← globRanges text pattern work; Some (match ranges with None => None | Some r => Some (text :: slices text r) end, work).

Record MatchOutcome := mkOutcome { matched : bool; captures : option (list jsstr) }.
Definition NO : MatchOutcome := mkOutcome false None.

(** [v.includes(k)]. *)
Fixpoint includes (k v : jsstr) : bool := startsWith k v || match v with [] => false | _ :: v => includes k v end.

Definition matchOne (value key : jsstr) (type : MatchType) (comparator : Comparator) (work : Z) : option (MatchOutcome * Z) :=
  let fold s := match comparator with CmpAsciiCasemap => foldAscii s | CmpOctet => s end in
  let v := fold value in
  let k := fold key in
  match type with
  | MatchIs =>
      work ← charge maxWork (1 + Z.of_nat (length v `min` length k)) work;
      Some (if bool_decide (v = k) then mkOutcome true None else NO, work)
  | MatchContains =>
      work ← charge maxWork (1 + Z.of_nat (length v) + Z.of_nat (length k)) work;
      Some (if includes k v then mkOutcome true None else NO, work)
  | MatchMatches =>
      '(ranges, work) ← globRanges v k work;
      Some (match ranges with None => NO | Some r => mkOutcome true (Some (value :: slices value r)) end, work)
  end.

Fixpoint matchKeys (value : jsstr) (keys : list jsstr) (type : MatchType) (comparator : Comparator) (work : Z) : option (MatchOutcome * Z) :=
  match keys with
  | [] => Some (NO, work)
  | key :: keys =>
      '(r, work) ← matchOne value key type comparator work;
      if matched r then Some (r, work) else matchKeys value keys type comparator work
  end.

Fixpoint matchAny (values keys : list jsstr) (type : MatchType) (comparator : Comparator) (work : Z) : option (MatchOutcome * Z) :=
  match values with
  | [] => Some (NO, work)
  | value :: values =>
      '(r, work) ← matchKeys value keys type comparator work;
      if matched r then Some (r, work) else matchAny values keys type comparator work
  end.
End match_.

(** ** What a glob means *)

(** [Matches text p i rs]: the text from [i] on matches [p], and [rs] is what the wildcards take. *)
Inductive Matches (text : jsstr) : list PatternPiece -> nat -> list range -> Prop :=
  | M_end : Matches text [] (length text) []
  | M_lit c p i rs : text !! i = Some c -> Matches text p (S i) rs -> Matches text (Lit c :: p) i rs
  | M_one p i rs : (i < length text)%nat -> Matches text p (i + charWidth text i) rs -> Matches text (One :: p) i ((i, (i + charWidth text i)%nat) :: rs)
  | M_star p i j rs : (i <= j <= length text)%nat -> Matches text p j rs -> Matches text (Star :: p) i ((i, j) :: rs).

(** The first wildcard, from the left, that takes something else takes less. *)
Inductive Leq : list range -> list range -> Prop :=
  | Leq_refl rs : Leq rs rs
  | Leq_less a b b' rs rs' : (b < b')%nat -> Leq ((a, b) :: rs) ((a, b') :: rs')
  | Leq_cons r rs rs' : Leq rs rs' -> Leq (r :: rs) (r :: rs').

(** The leftmost-shortest match, by trying every end of every star in turn. *)
Section reference.
Context (text : jsstr).

(** The first of [j], ..., [j + n] from which [rest] succeeds. *)
Fixpoint firstFrom (i : nat) (rest : nat -> option (list range)) (n j : nat) : option (list range) :=
  match rest j with
  | Some rs => Some ((i, j) :: rs)
  | None => match n with O => None | S n => firstFrom i rest n (S j) end
  end.

Fixpoint ref (p : list PatternPiece) (i : nat) : option (list range) :=
  match p with
  | [] => if (i =? length text)%nat then Some [] else None
  | Lit c :: p => if bool_decide (text !! i = Some c) then ref p (S i) else None
  | One :: p => if (i <? length text)%nat then (fun rs => (i, (i + charWidth text i)%nat) :: rs) <$> ref p (i + charWidth text i) else None
  | Star :: p => if (i <=? length text)%nat then firstFrom i (ref p) (length text - i) i else None
  end.
End reference.

(** ** A glob is decided by one backtrack point

    The loop keeps only the last star. That is enough because the pieces between two stars, started later, end
    later ([walk_mono]): where the first attempt leads to no match, no other does. *)

(** ** The leftmost-shortest match *)

Section reference.
Context (text : jsstr).
Notation n := (length text).

Lemma charWidth_bound i : (i < n)%nat -> (i < i + charWidth text i <= n)%nat.
Proof.
  intros H. unfold charWidth. destruct (text !! i); [|lia]. destruct (is_high z); [|cbn; lia]. cbn [andb]. destruct (Nat.ltb_spec (i + 1) n); lia.
Qed.

Lemma charWidth_mono i j : (i <= j < n)%nat -> (i + charWidth text i <= j + charWidth text j)%nat.
Proof.
  intros H. destruct (decide (i = j)) as [->|]; [lia|]. assert (charWidth text i <= 2)%nat by (unfold charWidth; repeat case_match; lia).
  pose proof (charWidth_bound j ltac:(lia)). lia.
Qed.

Lemma firstFrom_Some i rest k j rs : firstFrom i rest k j = Some rs ->
  exists t rs', (j <= t <= j + k)%nat /\ rs = (i, t) :: rs' /\ rest t = Some rs' /\ forall u, (j <= u < t)%nat -> rest u = None.
Proof.
  revert j. induction k as [|k IH]; intros j; cbn [firstFrom]; destruct (rest j) as [rs'|] eqn:E.
  - intros [= <-]. exists j, rs'. split_and!; [lia..|done|done|]. intros u; lia.
  - done.
  - intros [= <-]. exists j, rs'. split_and!; [lia..|done|done|]. intros u; lia.
  - intros (t & rs' & Ht & -> & Hr & Hu)%IH. exists t, rs'. split_and!; [lia..|done|done|]. intros u Hju. destruct (decide (u = j)) as [->|]; [done|]. apply Hu. lia.
Qed.

Lemma firstFrom_None i rest k j : firstFrom i rest k j = None <-> forall t, (j <= t <= j + k)%nat -> rest t = None.
Proof.
  revert j. induction k as [|k IH]; intros j; cbn [firstFrom]; destruct (rest j) as [rs'|] eqn:E; split; intros H; try done.
  - rewrite (H j) in E; [done|lia].
  - intros t Ht. by replace t with j by lia.
  - rewrite (H j) in E; [done|lia].
  - rewrite IH in H. intros t Ht. destruct (decide (t = j)) as [->|]; [done|]. apply H. lia.
  - apply IH. intros t Ht. apply H. lia.
Qed.

Lemma ref_sound p i rs : ref text p i = Some rs -> Matches text p i rs.
Proof.
  revert i rs. induction p as [|[c| |] p IH]; intros i rs; cbn [ref].
  - destruct (Nat.eqb_spec i n) as [->|]; [|done]. intros [= <-]. constructor.
  - case_bool_decide; [|done]. intros Hr. constructor; auto.
  - destruct (Nat.leb_spec i n); [|done]. intros (t & rs' & Ht & -> & Hr & _)%firstFrom_Some. constructor; [lia|auto].
  - destruct (Nat.ltb_spec i n); [|done]. intros (rs' & Hr & ->)%fmap_Some. constructor; auto.
Qed.

Lemma ref_least p i rs' : Matches text p i rs' -> exists rs, ref text p i = Some rs /\ Leq rs rs'.
Proof.
  induction 1 as [|c p i rs' Hc _ (rs & IH & Hle)|p i rs' Hi _ (rs & IH & Hle)|p i j rs' Hj _ (rs & IH & Hle)]; cbn [ref].
  - rewrite Nat.eqb_refl. eexists; split; [done|constructor].
  - rewrite bool_decide_eq_true_2 by done. eauto.
  - destruct (Nat.ltb_spec i n); [|lia]. rewrite IH. eexists; split; [done|by constructor].
  - destruct (Nat.leb_spec i n); [|lia]. destruct (firstFrom i (ref text p) (n - i) i) as [r|] eqn:E.
    + exists r. split; [done|]. apply firstFrom_Some in E as (t & r' & Ht & -> & Hr & Hu).
      destruct (decide (j < t)%nat) as [Hlt|]; [rewrite Hu in IH by lia; done|]. destruct (decide (t = j)) as [->|]; [|constructor; lia].
      apply Leq_cons. by simplify_eq.
    + rewrite firstFrom_None in E. rewrite E in IH by lia. done.
Qed.

(** ** Pieces without a star *)

Fixpoint walk (seg : list PatternPiece) (i : nat) : option (nat * list range) :=
  match seg with
  | [] => Some (i, [])
  | Lit c :: seg => if bool_decide (text !! i = Some c) then walk seg (S i) else None
  | One :: seg => if (i <? n)%nat then match walk seg (i + charWidth text i) with Some (e, rs) => Some (e, (i, (i + charWidth text i)%nat) :: rs) | None => None end else None
  | Star :: _ => None
  end.

Lemma ref_walk seg p i : Star ∉ seg ->
  ref text (seg ++ p) i = match walk seg i with Some (e, rs) => match ref text p e with Some r => Some (rs ++ r) | None => None end | None => None end.
Proof.
  revert i. induction seg as [|x seg IH]; intros i Hs; [cbn; by destruct (ref text p i)|]. rewrite not_elem_of_cons in Hs. destruct Hs as [Hx Hs].
  destruct x as [c| |]; cbn [app ref walk]; [|done|].
  - case_bool_decide; [|done]. by apply IH.
  - destruct (Nat.ltb_spec i n); [|done]. rewrite IH by done. destruct (walk seg _) as [[e rs]|]; [|done]. by destruct (ref text p e).
Qed.

Lemma walk_app seg x i e rs : walk seg i = Some (e, rs) -> walk (seg ++ x) i = match walk x e with Some (e, r) => Some (e, rs ++ r) | None => None end.
Proof.
  revert i rs. induction seg as [|[c| |] seg IH]; intros i rs; cbn [app walk].
  - intros [= <- <-]. by destruct (walk x i) as [[? ?]|].
  - case_bool_decide; [|done]. apply IH.
  - done.
  - destruct (Nat.ltb_spec i n); [|done]. destruct (walk seg _) as [[e' rs']|] eqn:E; [|done]. intros [= <- <-]. rewrite (IH _ _ E). by destruct (walk x e') as [[? ?]|].
Qed.

Lemma walk_bound seg i e rs : (i <= n)%nat -> walk seg i = Some (e, rs) -> (i <= e <= n)%nat.
Proof.
  revert i rs. induction seg as [|[c| |] seg IH]; intros i rs Hi; cbn [walk].
  - intros [= <- _]. lia.
  - case_bool_decide as Hc; [|done]. apply lookup_lt_Some in Hc. intros Hw%IH; lia.
  - done.
  - destruct (Nat.ltb_spec i n); [|done]. pose proof (charWidth_bound i H). destruct (walk seg _) as [[e' rs']|] eqn:E; [|done]. intros [= <- _]. apply IH in E; lia.
Qed.

(** Started later, it ends later. *)
Lemma walk_mono seg i j e e' rs rs' : (i <= j)%nat -> walk seg i = Some (e, rs) -> walk seg j = Some (e', rs') -> (e <= e')%nat.
Proof.
  revert i j rs rs'. induction seg as [|[c| |] seg IH]; intros i j rs rs' Hij; cbn [walk].
  - intros [= <- _] [= <- _]. lia.
  - case_bool_decide; [|done]. case_bool_decide; [|done]. apply IH. lia.
  - done.
  - destruct (Nat.ltb_spec i n); [|done]. destruct (Nat.ltb_spec j n); [|done]. pose proof (charWidth_mono i j ltac:(lia)).
    destruct (walk seg (i + _)) as [[e1 rs1]|] eqn:E1; [|done]. destruct (walk seg (j + _)) as [[e2 rs2]|] eqn:E2; [|done]. intros [= <- _] [= <- _]. by eapply IH.
Qed.

Lemma ref_star_mono p i j : (i <= j)%nat -> ref text (Star :: p) i = None -> ref text (Star :: p) j = None.
Proof.
  intros Hij. cbn [ref]. destruct (Nat.leb_spec j n); [|done]. destruct (Nat.leb_spec i n); [|lia]. rewrite !firstFrom_None. intros Hf t Ht. apply Hf. lia.
Qed.

(** ** The last star, from where it has come to *)

Definition search (a : nat) (p : list PatternPiece) (t : nat) : option (list range) := firstFrom a (ref text p) (n - t) t.

Lemma search_next a p t : (t < n)%nat -> ref text p t = None -> search a p t = search a p (S t).
Proof. intros Ht Hr. unfold search. replace (n - t)%nat with (S (n - S t)) by lia. cbn [firstFrom]. by rewrite Hr. Qed.

(** Where what follows the pieces does not match later unless it matches now, the first attempt decides. *)
Lemma search_stuck a seg rest t e cur : Star ∉ seg -> (t <= n)%nat -> walk seg t = Some (e, cur) ->
  (ref text rest e = None -> forall e', (e <= e' <= n)%nat -> ref text rest e' = None) ->
  search a (seg ++ rest) t = match ref text rest e with Some r => Some ((a, t) :: cur ++ r) | None => None end.
Proof.
  intros Hs Ht Hw Hm. destruct (ref text rest e) as [r|] eqn:E.
  - unfold search. destruct (n - t)%nat; cbn [firstFrom]; rewrite ref_walk, Hw, E by done; done.
  - apply firstFrom_None. intros u Hu. rewrite ref_walk by done. destruct (walk seg u) as [[e' rs']|] eqn:Eu; [|done]. rewrite Hm; [done..|].
    pose proof (walk_mono seg t u e e' _ _ ltac:(lia) Hw Eu). pose proof (walk_bound seg u e' _ ltac:(lia) Eu). lia.
Qed.

Lemma ref_at_end p : ref text p n = match p with Star :: p => (match ref text p n with Some r => Some ((n, n) :: r) | None => None end) | [] => Some [] | _ => None end.
Proof.
  destruct p as [|[c| |] p]; cbn [ref].
  - by rewrite Nat.eqb_refl.
  - rewrite bool_decide_eq_false_2; [done|]. by rewrite lookup_ge_None_2.
  - rewrite Nat.leb_refl, Nat.sub_diag. cbn [firstFrom]. by destruct (ref text p n).
  - by rewrite Nat.ltb_irrefl.
Qed.
End reference.

(** ** The loop *)

#[local] Arguments wildcards : simpl never.
#[local] Arguments wildcardIndex : simpl never.

Lemma wildcards_app p q : wildcards (p ++ q) = (wildcards p + wildcards q)%nat.
Proof. unfold wildcards. by rewrite filter_app, length_app. Qed.

Lemma wildcardIndex_S p pi x : p !! pi = Some x -> wildcardIndex p (S pi) = (wildcardIndex p pi + (if isWildcard x then 1 else 0))%nat.
Proof. intros Hx. unfold wildcardIndex. rewrite (take_S_r _ _ _ Hx), wildcards_app. f_equal. unfold wildcards. by destruct x. Qed.

Lemma wildcardIndex_lt p pi x : p !! pi = Some x -> isWildcard x = true -> (wildcardIndex p pi < wildcards p)%nat.
Proof.
  intros Hx Hw. assert (wildcards p = wildcardIndex p (S pi) + wildcards (drop (S pi) p))%nat as -> by (unfold wildcardIndex; rewrite <- wildcards_app; by rewrite take_drop).
  rewrite (wildcardIndex_S _ _ _ Hx), Hw. lia.
Qed.

Section loop.
Context (text : jsstr) (p : list PatternPiece).
Notation n := (length text).
Notation m := (length p).

(** What the wildcards before [pi] have taken. *)
Definition settled (s : GlobState) : list range := take (wildcardIndex p (g_pi s)) (g_ranges s).

(** Without a star, there was no choice; after one, the pieces since have been walked from where it ends now. *)
Definition Trail (s : GlobState) : Prop :=
  match g_starP s with
  | None => g_starT s = 0%nat /\ ref text p 0 = match ref text (drop (g_pi s) p) (g_ti s) with Some r => Some (settled s ++ r) | None => None end
  | Some sp =>
      p !! sp = Some Star /\ exists a pre cur seg,
      drop (S sp) p = seg ++ drop (g_pi s) p /\ (g_pi s = S sp + length seg)%nat /\ Star ∉ seg /\
      walk text seg (g_starT s) = Some (g_ti s, cur) /\
      settled s = pre ++ (a, g_starT s) :: cur /\ length pre = wildcardIndex p sp /\
      ref text p 0 = match search text a (drop (S sp) p) (g_starT s) with Some r => Some (pre ++ r) | None => None end
  end.

Record Inv (s : GlobState) : Prop := {
  inv_ti : (g_starT s <= g_ti s <= n)%nat;
  inv_pi : (g_pi s <= m)%nat;
  inv_len : length (g_ranges s) = wildcards p;
  inv_trail : Trail s }.

Lemma settled_insert pi x (rs : list range) (r : range) : p !! pi = Some x -> isWildcard x = true -> length rs = wildcards p ->
  take (wildcardIndex p (S pi)) (<[wildcardIndex p pi := r]> rs) = take (wildcardIndex p pi) rs ++ [r].
Proof.
  intros Hx Hw Hl. rewrite (wildcardIndex_S _ _ _ Hx), Hw, Nat.add_1_r.
  pose proof (wildcardIndex_lt _ _ _ Hx Hw). erewrite take_S_r by (apply list_lookup_insert_eq; lia). by rewrite take_insert_ge by lia.
Qed.

(** The star met next: what was walked is settled. *)
Lemma step_star s : Inv s -> p !! g_pi s = Some Star ->
  Inv (mkGlob (g_ti s) (S (g_pi s)) (Some (g_pi s)) (g_ti s) (<[wildcardIndex p (g_pi s) := (g_ti s, g_ti s)]> (g_ranges s))).
Proof.
  intros [H1 H2 H3 H4] Hx. pose proof (lookup_lt_Some _ _ _ Hx) as Hlt. pose proof (wildcardIndex_lt _ _ _ Hx eq_refl) as Hwl. pose proof (drop_S _ _ _ Hx) as Hd.
  constructor; cbn; [lia|lia|by rewrite length_insert|]. split; [done|]. exists (g_ti s), (settled s), [], []. split_and!; [done|cbn; lia|apply not_elem_of_nil|done| | |].
  - unfold settled. cbn. by eapply settled_insert.
  - unfold settled. rewrite length_take, H3. lia.
  - assert (Hs : search text (g_ti s) (drop (S (g_pi s)) p) (g_ti s) = ref text (drop (g_pi s) p) (g_ti s)).
    { rewrite Hd. cbn [ref]. unfold search. destruct (Nat.leb_spec (g_ti s) n); [done|lia]. }
    rewrite Hs. unfold Trail in H4. destruct (g_starP s) as [sp|]; [|by destruct H4 as [_ ->]].
    destruct H4 as (_ & a & pre & cur & seg & E & Hseg & Hstar & Hw & Hset & Hpre & ->). rewrite Hset, E. rewrite (search_stuck text a seg _ (g_starT s) (g_ti s) cur); [|done|lia|done|].
    + destruct (ref text _ _); [|done]. by rewrite <- app_assoc.
    + intros Hn e' He'. rewrite Hd in *. eapply ref_star_mono; [|exact Hn]. lia.
Qed.

(** A piece that takes the octets up to [ti'], and [r] with them. *)
Lemma step_piece s x ti' r ranges : Inv s -> p !! g_pi s = Some x -> x <> Star -> (g_ti s <= ti' <= n)%nat ->
  walk text [x] (g_ti s) = Some (ti', r) -> length ranges = wildcards p -> take (wildcardIndex p (S (g_pi s))) ranges = settled s ++ r ->
  Inv (mkGlob ti' (S (g_pi s)) (g_starP s) (g_starT s) ranges).
Proof.
  intros [H1 H2 H3 H4] Hx Hns Ht Hw Hl Hset. pose proof (lookup_lt_Some _ _ _ Hx) as Hlt. pose proof (drop_S _ _ _ Hx) as Hd.
  constructor; cbn; [lia|lia|done|]. unfold Trail in *. cbn. destruct (g_starP s) as [sp|].
  - destruct H4 as (Hsp & a & pre & cur & seg & E & Hseg & Hstar & Hwk & Hs & Hpre & Href). split; [done|]. exists a, pre, (cur ++ r), (seg ++ [x]). split_and!; try done.
    + rewrite E, Hd, <- app_assoc. done.
    + rewrite length_app. cbn. lia.
    + set_solver.
    + rewrite (walk_app text _ _ _ _ _ Hwk), Hw. done.
    + unfold settled. cbn. rewrite Hset, Hs, <- app_assoc. done.
  - destruct H4 as [H0 ->]. split; [done|]. rewrite Hd. change (x :: drop (S (g_pi s)) p) with ([x] ++ drop (S (g_pi s)) p). rewrite ref_walk, Hw by set_solver.
    unfold settled at 2. cbn. rewrite Hset. destruct (ref text _ _); [|done]. by rewrite <- app_assoc.
Qed.

(** The pieces do not match here: the star takes one more, or there is no match at all. *)
Lemma step_grow s : Inv s -> (g_ti s < n)%nat -> ref text (drop (g_pi s) p) (g_ti s) = None ->
  match g_starP s with
  | Some sp => Inv (mkGlob (S (g_starT s)) (S sp) (g_starP s) (S (g_starT s)) (<[wildcardIndex p sp := ((default (0, 0) (g_ranges s !! wildcardIndex p sp)).1, S (g_starT s))]> (g_ranges s))%nat)
  | None => ref text p 0 = None
  end.
Proof.
  intros [H1 H2 H3 H4] Ht Hn. unfold Trail in H4. destruct (g_starP s) as [sp|] eqn:Esp; [|by rewrite Hn in H4; tauto].
  destruct H4 as (Hsp & a & pre & cur & seg & E & Hseg & Hstar & Hwk & Hs & Hpre & Href). pose proof (lookup_lt_Some _ _ _ Hsp) as Hlt.
  assert (Ha : g_ranges s !! wildcardIndex p sp = Some (a, g_starT s)).
  { assert (settled s !! wildcardIndex p sp = Some (a, g_starT s)) as Hk by (rewrite Hs, <- Hpre; apply list_lookup_middle; done).
    unfold settled in Hk. apply lookup_take_Some in Hk. tauto. }
  assert (Hp : take (wildcardIndex p sp) (g_ranges s) = pre).
  { assert (take (wildcardIndex p sp) (settled s) = pre) as Hk by (rewrite Hs, <- Hpre; apply take_app_length).
    unfold settled in Hk. rewrite take_take in Hk. rewrite <- Hk. f_equal. apply (f_equal length) in Hs. unfold settled in Hs. rewrite length_take, length_app in Hs. cbn in Hs. lia. }
  constructor; cbn; [lia|lia|by rewrite length_insert|]. unfold Trail. cbn. split; [done|]. exists a, pre, [], []. split_and!; [done|cbn; lia|apply not_elem_of_nil|done| |done|].
  - unfold settled. cbn. rewrite Ha. cbn. rewrite (settled_insert sp Star); [by rewrite Hp|done..].
  - rewrite Href. rewrite (search_next text a _ (g_starT s)); [done|lia|]. rewrite E, ref_walk, Hwk, Hn by done. done.
Qed.

Lemma step_inv s : Inv s -> (g_ti s < n)%nat -> match globStep text p s with Some s' => Inv s' | None => ref text p 0 = None end.
Proof.
  intros Hi Ht. pose proof (step_grow s Hi Ht) as Hg. destruct s as [ti pi starP starT ranges]. cbn in *. destruct Hi as [H1 H2 H3 H4] eqn:Ei. cbn in *. clear Ei.
  destruct (p !! pi) as [[ch| |]|] eqn:Hx.
  - case_bool_decide as Hc.
    + apply (step_piece (mkGlob ti pi starP starT ranges) (Lit ch) (S ti) []); try done; cbn; [lia|by rewrite bool_decide_eq_true_2| ].
      unfold settled. cbn. rewrite (wildcardIndex_S _ _ _ Hx). cbn. by rewrite Nat.add_0_r, app_nil_r.
    + rewrite (drop_S _ _ _ Hx) in Hg. cbn [ref] in Hg. rewrite bool_decide_eq_false_2 in Hg by done. destruct starP; by apply Hg.
  - apply (step_star (mkGlob ti pi starP starT ranges)); done.
  - pose proof (charWidth_bound text ti Ht).
    assert (Hone : walk text [One] ti = Some ((ti + charWidth text ti)%nat, [(ti, (ti + charWidth text ti)%nat)])) by (cbn [walk]; destruct (Nat.ltb_spec ti n); [done|lia]).
    apply (step_piece (mkGlob ti pi starP starT ranges) One _ [(ti, (ti + charWidth text ti)%nat)]); try done; cbn [g_ti g_pi]; [lia|by rewrite length_insert|by eapply settled_insert].
  - apply lookup_ge_None in Hx. rewrite drop_ge in Hg by done. cbn [ref] in Hg. destruct (Nat.eqb_spec ti n); [lia|]. destruct starP; by apply Hg.
Qed.

Definition measure (s : GlobState) : nat := (n - g_starT s) * (m + 1) + (m - g_pi s).

Lemma measure_pos s : (g_starT s < n)%nat -> (1 <= measure s)%nat.
Proof. intros H. unfold measure. assert (1 * 1 <= (n - g_starT s) * (m + 1))%nat by (apply Nat.mul_le_mono; lia). lia. Qed.

Lemma step_measure s s' : Inv s -> (g_ti s < n)%nat -> globStep text p s = Some s' -> (measure s' < measure s)%nat.
Proof.
  intros [H1 H2 H3 H4] Ht. destruct s as [ti pi starP starT ranges]. unfold measure, globStep, Trail in *. cbn in *.
  assert (Hstar : (pi < m)%nat -> ((n - ti) * (m + 1) + (m - S pi) < (n - starT) * (m + 1) + (m - pi))%nat) by (intros; assert ((n - ti) * (m + 1) <= (n - starT) * (m + 1))%nat by (apply Nat.mul_le_mono_r; lia); lia).
  assert (Hgrow : forall sp, ((n - S starT) * (m + 1) + (m - S sp) < (n - starT) * (m + 1) + (m - pi))%nat) by (intros; replace (n - starT)%nat with (S (n - S starT)) by lia; lia).
  destruct (p !! pi) as [[ch| |]|] eqn:Hx; try (pose proof (lookup_lt_Some _ _ _ Hx)); [case_bool_decide| | |]; try (intros [= <-]; cbn; lia);
    destruct starP; intros [= <-]; cbn; auto.
Qed.

Lemma loop_correct maxWork fuel s work : Inv s -> (measure s <= fuel)%nat -> work <= maxWork ->
  exists k res, (k <= measure s)%nat /\ globLoop maxWork fuel text p s work = (if maxWork <? work + Z.of_nat k then None else Some (res, work + Z.of_nat k)) /\
  match res with Some s' => Inv s' /\ g_ti s' = n | None => ref text p 0 = None end.
Proof.
  revert s work. induction fuel as [|fuel IH]; intros s work Hi Hf Hw; cbn [globLoop]; pose proof (inv_ti _ Hi) as Hti.
  - destruct (Nat.ltb_spec (g_ti s) n).
    { pose proof (measure_pos s ltac:(lia)). lia. }
    exists 0%nat, (Some s). rewrite Z.add_0_r. destruct (Z.ltb_spec maxWork work); [lia|]. split_and!; [lia|done|done|lia].
  - destruct (Nat.ltb_spec (g_ti s) n) as [Hlt|].
    2:{ exists 0%nat, (Some s). rewrite Z.add_0_r. destruct (Z.ltb_spec maxWork work); [lia|]. split_and!; [lia|done|done|lia]. }
    pose proof (step_inv s Hi Hlt) as Hs. pose proof (step_measure s) as Hm. unfold charge. destruct (globStep text p s) as [s'|].
    + specialize (Hm s' Hi Hlt eq_refl). destruct (Z.ltb_spec maxWork (work + 1)) as [Hov|Hok].
      * destruct (IH s' (maxWork - Z.of_nat (measure s')) Hs ltac:(lia) ltac:(lia)) as (k & res & Hk & _ & Hres). exists (S k), res.
        split_and!; [lia| |done]. cbn [mbind option_bind]. destruct (Z.ltb_spec maxWork (work + Z.of_nat (S k))); [done|lia].
      * destruct (IH s' (work + 1) Hs ltac:(lia) Hok) as (k & res & Hk & E & Hres). exists (S k), res. split_and!; [lia| |done]. cbn [mbind option_bind].
        rewrite E. by replace (work + 1 + Z.of_nat k) with (work + Z.of_nat (S k)) by lia.
    + exists 1%nat, None. pose proof (measure_pos s ltac:(lia)).
      split_and!; [lia| |done]. change (Z.of_nat 1) with 1. by destruct (Z.ltb_spec maxWork (work + 1)).
Qed.

(** The stars at the end of the text take nothing. *)
Lemma trailing_correct fuel pi ranges : (pi <= m)%nat -> (m - pi <= fuel)%nat -> length ranges = wildcards p ->
  let '(pi', ranges') := trailingStars fuel text p pi ranges in
  ref text (drop pi p) n = (if (pi' =? m)%nat then Some (drop (wildcardIndex p pi) ranges') else None) /\
  take (wildcardIndex p pi) ranges' = take (wildcardIndex p pi) ranges /\ length ranges' = wildcards p.
Proof.
  revert pi ranges. induction fuel as [|fuel IH]; intros pi ranges Hpi Hf Hl.
  - cbn [trailingStars]. assert (pi = m) as -> by lia. rewrite Nat.eqb_refl, drop_ge by lia. rewrite ref_at_end. split_and!; [|done..]. f_equal. symmetry. apply drop_ge.
    unfold wildcardIndex. rewrite take_ge by lia. lia.
  - cbn [trailingStars]. destruct (p !! pi) as [x|] eqn:Hx.
    + pose proof (lookup_lt_Some _ _ _ Hx). rewrite (drop_S _ _ _ Hx), ref_at_end. destruct (decide (x = Star)) as [->|Hns].
      * set (ranges1 := <[_ := _]> ranges). specialize (IH (S pi) ranges1 ltac:(lia) ltac:(lia)). unfold ranges1 in IH at 1. rewrite length_insert in IH. specialize (IH Hl).
        destruct (trailingStars fuel text p (S pi) ranges1) as [pi' ranges']. destruct IH as (-> & Ht & Hl'). unfold ranges1 in Ht. rewrite (settled_insert pi Star) in Ht by done.
        rewrite (wildcardIndex_S _ _ _ Hx) in *. cbn [isWildcard] in *. pose proof (wildcardIndex_lt _ _ _ Hx eq_refl) as Hlt. rewrite Nat.add_1_r in *.
        assert (Hk : ranges' !! wildcardIndex p pi = Some (n, n)).
        { assert (take (S (wildcardIndex p pi)) ranges' !! wildcardIndex p pi = Some (n, n)) as Hk; [|apply lookup_take_Some in Hk; tauto].
          rewrite Ht. rewrite lookup_app_r; rewrite length_take, Nat.min_l by lia; [by rewrite Nat.sub_diag|lia]. }
        split_and!; [|..|done].
        -- rewrite (drop_S _ _ _ Hk). by destruct (pi' =? m)%nat.
        -- apply (f_equal (take (wildcardIndex p pi))) in Ht. rewrite take_take, Nat.min_l in Ht by lia. rewrite Ht. rewrite take_app_le; [by rewrite take_take, Nat.min_id|rewrite length_take; lia].
      * assert (E : trailingStars (S fuel) text p pi ranges = (pi, ranges)) by (cbn; rewrite Hx; by destruct x). cbn [trailingStars] in E. rewrite Hx in E. rewrite E.
        split_and!; [|done..]. destruct (Nat.eqb_spec pi m); [lia|]. by destruct x.
    + apply lookup_ge_None in Hx. assert (pi = m) as -> by lia. rewrite Nat.eqb_refl, drop_ge by lia. rewrite ref_at_end. split_and!; [|done..]. f_equal. symmetry. apply drop_ge.
      unfold wildcardIndex. rewrite take_ge by lia. lia.
Qed.

Lemma final_correct s : Inv s -> g_ti s = n ->
  let '(pi, ranges) := trailingStars m text p (g_pi s) (g_ranges s) in ref text p 0 = if (pi =? m)%nat then Some ranges else None.
Proof.
  intros [H1 H2 H3 H4] Ht. pose proof (trailing_correct m (g_pi s) (g_ranges s) H2 ltac:(lia) H3) as Htr. destruct (trailingStars m text p (g_pi s) (g_ranges s)) as [pi ranges].
  destruct Htr as (Hr & Htk & Hl). assert (Hres : match ref text (drop (g_pi s) p) n with Some r => Some (settled s ++ r) | None => None end = if (pi =? m)%nat then Some ranges else None).
  { rewrite Hr. destruct (pi =? m)%nat; [|done]. f_equal. unfold settled. rewrite <- Htk. apply take_drop. }
  rewrite <- Hres. unfold Trail in H4. rewrite Ht in H4. destruct (g_starP s) as [sp|]; [|tauto].
  destruct H4 as (_ & a & pre & cur & seg & E & _ & Hstar & Hw & Hset & _ & ->). rewrite E, (search_stuck text a seg _ (g_starT s) n cur); [|done|lia|done|].
  - destruct (ref text _ n); [|done]. by rewrite Hset, <- app_assoc.
  - intros Hn e' He'. by replace e' with n by lia.
Qed.
End loop.

(** ** Theorems *)

Lemma start_inv text p : Inv text p (mkGlob 0 0 None 0 (replicate (wildcards p) (0, 0)%nat)).
Proof.
  constructor; cbn; [lia|lia|by rewrite length_replicate|]. split; [done|]. unfold settled. cbn. change (wildcardIndex p 0) with 0%nat. rewrite drop_0, take_0. by destruct (ref text p 0).
Qed.

(** What is charged, and the result unless it is over the allowance. *)
Definition charged {A} (maxWork work : Z) (k : nat) (a : A) : option (A * Z) :=
  if maxWork <? work + Z.of_nat k then None else Some (a, work + Z.of_nat k).

Lemma globRanges_ref maxWork text pattern work : work <= maxWork ->
  exists k, (k <= globFuel text (compilePattern pattern))%nat /\ globRanges maxWork text pattern work = charged maxWork work k (ref text (compilePattern pattern) 0).
Proof.
  intros Hw. unfold globRanges, charged. set (p := compilePattern pattern). pose proof (start_inv text p) as Hi. set (s0 := mkGlob _ _ _ _ _) in *.
  assert (Hm : (measure text p s0 = globFuel text p)%nat) by (unfold measure, globFuel, s0; cbn; lia).
  destruct (loop_correct text p maxWork (globFuel text p) s0 work Hi ltac:(lia) Hw) as (k & res & Hk & E & Hres). exists k. split; [lia|]. rewrite E.
  destruct (maxWork <? work + Z.of_nat k); [done|]. cbn [mbind option_bind]. destruct res as [s|]; [|by rewrite Hres]. destruct Hres as [Hs Ht].
  pose proof (final_correct text p s Hs Ht) as Hf. destruct (trailingStars _ text p _ _) as [pi ranges]. by rewrite Hf.
Qed.

(** [r] is the leftmost-shortest match of the whole text, or there is none. *)
Definition Shortest (text : jsstr) (p : list PatternPiece) (r : option (list range)) : Prop :=
  match r with
  | Some rs => Matches text p 0 rs /\ forall rs', Matches text p 0 rs' -> Leq rs rs'
  | None => forall rs, ~ Matches text p 0 rs
  end.

Lemma ref_shortest text p : Shortest text p (ref text p 0).
Proof.
  destruct (ref text p 0) as [rs|] eqn:E; cbn.
  - split; [by apply ref_sound|]. intros rs' (rs1 & E1 & Hle)%ref_least. congruence.
  - intros rs (rs1 & E1 & _)%ref_least. congruence.
Qed.

(** C28: The glob with one backtrack point decides whether a text matches a pattern, and of all ways to match takes
    the one in which each wildcard, from the left, takes as little as it can; it spends at most n(m + 1) + m work
    units on a text of n characters and a pattern of m pieces, and fails only when the allowance is spent. *)
Theorem glob_leftmost_shortest maxWork text pattern work : work <= maxWork ->
  let p := compilePattern pattern in
  exists k r, (k <= length text * (length p + 1) + length p)%nat /\ Shortest text p r /\
  globRanges maxWork text pattern work = if maxWork <? work + Z.of_nat k then None else Some (r, work + Z.of_nat k).
Proof.
  intros Hw p. destruct (globRanges_ref maxWork text pattern work Hw) as (k & Hk & E). exists k, (ref text p 0). split_and!; [done|apply ref_shortest|done].
Qed.

(** The example of RFC 5229: "[*] *". *)
Lemma glob_leftmost_shortest_witness :
  let text := js "[acme-users] [fwd] version 1.0 is out" in
  let p := compilePattern (js "[*] *") in
  exists k r, (k <= length text * (length p + 1) + length p)%nat /\ Shortest text p r /\
  globRanges 100 text (js "[*] *") 0 = if 100 <? 0 + Z.of_nat k then None else Some (r, 0 + Z.of_nat k).
Proof. apply (glob_leftmost_shortest 100 (js "[acme-users] [fwd] version 1.0 is out") (js "[*] *") 0). done. Defined.

Example glob_rfc5229 : globMatch 100 (js "[acme-users] [fwd] version 1.0 is out") (js "[*] *") 0
  = Some (Some [js "[acme-users] [fwd] version 1.0 is out"; js "acme-users"; js "[fwd] version 1.0 is out"], 39).
Proof. by vm_compute. Qed.

(** ** Values against keys *)

Definition folded (comparator : Comparator) (s : jsstr) : jsstr := match comparator with CmpAsciiCasemap => foldAscii s | CmpOctet => s end.

(** What a test asks of one value and one key. *)
Definition Satisfies (type : MatchType) (comparator : Comparator) (vk : jsstr * jsstr) : Prop :=
  let v := folded comparator vk.1 in
  let k := folded comparator vk.2 in
  match type with
  | MatchIs => v = k
  | MatchContains => exists a b, v = a ++ k ++ b
  | MatchMatches => exists rs, Matches v (compilePattern k) 0 rs
  end.

(** What a successful test leaves for the variables. *)
Definition Captured (type : MatchType) (comparator : Comparator) (vk : jsstr * jsstr) (c : option (list jsstr)) : Prop :=
  match type with
  | MatchMatches => exists rs, Shortest (folded comparator vk.1) (compilePattern (folded comparator vk.2)) (Some rs) /\ c = Some (vk.1 :: slices vk.1 rs)
  | _ => c = None
  end.

Lemma includes_spec k v : includes k v = true <-> exists a b, v = a ++ k ++ b.
Proof.
  induction v as [|x v IH]; cbn [includes]; rewrite orb_true_iff, startsWith_spec.
  - split; [intros [[t Ht]|]; [by exists [], t|done]|]. intros (a & b & E). destruct a; [|done]. left. by exists b.
  - rewrite IH. split.
    + intros [[t Ht]|(a & b & ->)]; [by exists [], t|by exists (x :: a), b].
    + intros ([|y a] & b & E); [left; by exists b|]. right. injection E as -> ->. by exists a, b.
Qed.

(** One pair is decided. *)
Definition Decided (type : MatchType) (comparator : Comparator) (vk : jsstr * jsstr) (r : MatchOutcome) : Prop :=
  if matched r then Satisfies type comparator vk /\ Captured type comparator vk (captures r) else ~ Satisfies type comparator vk /\ r = NO.

Lemma matchOne_spec maxWork value key type comparator work : work <= maxWork ->
  exists k r, matchOne maxWork value key type comparator work = charged maxWork work k r /\ Decided type comparator (value, key) r.
Proof.
  intros Hw. unfold matchOne. cbv zeta. fold (folded comparator value) (folded comparator key). set (v := folded comparator value). set (k := folded comparator key). destruct type.
  - exists (1 + length v `min` length k)%nat, (if bool_decide (v = k) then mkOutcome true None else NO). unfold charged, charge. rewrite Nat2Z.inj_add. split.
    + by destruct (_ <? _).
    + unfold Decided. case_bool_decide; cbn; by fold v k.
  - exists (1 + length v + length k)%nat, (if includes k v then mkOutcome true None else NO). unfold charged, charge. rewrite !Nat2Z.inj_add. split.
    + by destruct (_ <? _).
    + unfold Decided. destruct (includes k v) eqn:E; cbn; fold v k; rewrite <- includes_spec, E; done.
  - destruct (globRanges_ref maxWork v k work Hw) as (c & _ & E). pose proof (ref_shortest v (compilePattern k)) as Hs. set (r := ref v (compilePattern k) 0) in *.
    exists c, (match r with None => NO | Some r => mkOutcome true (Some (value :: slices value r)) end). rewrite E. unfold charged, Decided. split.
    + by destruct (_ <? _).
    + destruct r as [rs|]; cbn; fold v k; [|split; [by intros [rs Hm%Hs]|done]]. split; [exists rs; by apply Hs|by exists rs].
Qed.

(** The first of the pairs that satisfies the test. *)
Definition FirstOf (type : MatchType) (comparator : Comparator) (pairs : list (jsstr * jsstr)) (r : MatchOutcome) : Prop :=
  if matched r then exists pre vk post, pairs = pre ++ vk :: post /\ Forall (fun vk => ~ Satisfies type comparator vk) pre /\ Satisfies type comparator vk /\ Captured type comparator vk (captures r)
  else Forall (fun vk => ~ Satisfies type comparator vk) pairs /\ r = NO.

Lemma FirstOf_app type comparator l1 l2 r : Forall (fun vk => ~ Satisfies type comparator vk) l1 -> FirstOf type comparator l2 r -> FirstOf type comparator (l1 ++ l2) r.
Proof.
  intros H1. unfold FirstOf. destruct (matched r).
  - intros (pre & vk & post & -> & Hp & H). exists (l1 ++ pre), vk, post. rewrite <- app_assoc. split_and!; [done|by apply Forall_app|tauto..].
  - intros [H2 ->]. split; [by apply Forall_app|done].
Qed.

Lemma FirstOf_prefix type comparator l1 l2 r : matched r = true -> FirstOf type comparator l1 r -> FirstOf type comparator (l1 ++ l2) r.
Proof. intros Hr. unfold FirstOf. rewrite Hr. intros (pre & vk & post & -> & H). exists pre, vk, (post ++ l2). by rewrite <- app_assoc. Qed.

Lemma charged_bind {A B} maxWork work k (a : A) (f : A * Z -> option (B * Z)) b :
  work <= maxWork -> (work + Z.of_nat k <= maxWork -> exists k', f (a, work + Z.of_nat k) = charged maxWork (work + Z.of_nat k) k' b) ->
  exists k', (charged maxWork work k a ≫= f) = charged maxWork work k' b.
Proof.
  intros Hw Hf. unfold charged in *. destruct (Z.ltb_spec maxWork (work + Z.of_nat k)) as [Hlt|Hge].
  - exists k. destruct (Z.ltb_spec maxWork (work + Z.of_nat k)); [done|lia].
  - destruct (Hf Hge) as [k' E]. exists (k + k')%nat. cbn [mbind option_bind]. rewrite E, Nat2Z.inj_add, Z.add_assoc. done.
Qed.

Lemma charged_0 {A} maxWork work (a : A) : work <= maxWork -> charged maxWork work 0 a = Some (a, work).
Proof. intros H. unfold charged. rewrite Z.add_0_r. by destruct (Z.ltb_spec maxWork work); [lia|]. Qed.

Lemma matchKeys_spec maxWork value keys type comparator work : work <= maxWork ->
  exists k r, matchKeys maxWork value keys type comparator work = charged maxWork work k r /\ FirstOf type comparator ((fun key => (value, key)) <$> keys) r.
Proof.
  revert work. induction keys as [|key keys IH]; intros work Hw; cbn [matchKeys fmap list_fmap].
  - exists 0%nat, NO. by rewrite charged_0.
  - destruct (matchOne_spec maxWork value key type comparator work Hw) as (k & r & E & Hd). rewrite E. unfold Decided in Hd. destruct (matched r) eqn:Em.
    + destruct (charged_bind maxWork work k r (fun '(r, work) => if matched r then Some (r, work) else matchKeys maxWork value keys type comparator work) r Hw) as [k' Ek].
      { intros H. exists 0%nat. by rewrite Em, charged_0. }
      exists k', r. split; [done|]. unfold FirstOf. rewrite Em. exists [], (value, key), ((fun key => (value, key)) <$> keys). split_and!; [done|constructor|tauto..].
    + destruct Hd as [Hn ->]. destruct (decide (work + Z.of_nat k <= maxWork)) as [Hle|Hgt].
      * destruct (IH _ Hle) as (k2 & r2 & E2 & H2). exists (k + k2)%nat, r2. split.
        -- unfold charged at 1. destruct (Z.ltb_spec maxWork (work + Z.of_nat k)); [lia|]. cbn [mbind option_bind matched NO]. rewrite E2. unfold charged. by rewrite Nat2Z.inj_add, Z.add_assoc.
        -- apply (FirstOf_app _ _ [(value, key)]); [by constructor|done].
      * destruct (IH work Hw) as (k2 & r2 & _ & H2). exists k, r2. split; [|by apply (FirstOf_app _ _ [(value, key)]); [by constructor|]].
        unfold charged. by destruct (Z.ltb_spec maxWork (work + Z.of_nat k)); [|lia].
Qed.

(** Every value against every key: the first pair that satisfies the test decides, and its captures are kept. *)
Lemma matchAny_spec maxWork values keys type comparator work : work <= maxWork ->
  exists k r, matchAny maxWork values keys type comparator work = charged maxWork work k r /\
  FirstOf type comparator (values ≫= fun value => (fun key => (value, key)) <$> keys) r.
Proof.
  revert work. induction values as [|value values IH]; intros work Hw; cbn [matchAny mbind list_bind].
  - exists 0%nat, NO. by rewrite charged_0.
  - destruct (matchKeys_spec maxWork value keys type comparator work Hw) as (k & r & E & Hd). rewrite E. destruct (matched r) eqn:Em.
    + destruct (charged_bind maxWork work k r (fun '(r, work) => if matched r then Some (r, work) else matchAny maxWork values keys type comparator work) r Hw) as [k' Ek].
      { intros H. exists 0%nat. by rewrite Em, charged_0. }
      exists k', r. split; [done|]. by apply FirstOf_prefix.
    + unfold FirstOf in Hd. rewrite Em in Hd. destruct Hd as [Hn ->]. destruct (decide (work + Z.of_nat k <= maxWork)) as [Hle|Hgt].
      * destruct (IH _ Hle) as (k2 & r2 & E2 & H2). exists (k + k2)%nat, r2. split.
        -- unfold charged at 1. destruct (Z.ltb_spec maxWork (work + Z.of_nat k)); [lia|]. cbn [mbind option_bind matched NO]. rewrite E2. unfold charged. by rewrite Nat2Z.inj_add, Z.add_assoc.
        -- by apply FirstOf_app.
      * destruct (IH work Hw) as (k2 & r2 & _ & H2). exists k, r2. split; [|by apply FirstOf_app].
        unfold charged. by destruct (Z.ltb_spec maxWork (work + Z.of_nat k)); [|lia].
Qed.
