(* ===== verification/MimeWords.v ===== *)
(** * MimeWords: charsets, encoded words and header values
    ([mime/src/charset.ts], [encoded-word.ts] and the header writer of [writer.ts])

    [TextDecoder] is a parameter: the encoding a label stands for ([None] is the [RangeError]), and the text of
    a whole buffer in that encoding. The cache of [resolveCharset] only remembers results. *)
From S2P Require Import Prelude JsString JsStringFacts Base64 Utf8.

Class TextDecoders := { labelEncoding : jsstr -> option jsstr; textDecode : jsstr -> bytes -> jsstr }.

Section words.
Context `{R : Runtime} `{T : TextDecoders}.

(** ** charset.ts *)

Definition ALIASES : list (jsstr * jsstr) :=
  [(js "cp932", js "shift_jis"); (js "ms932", js "shift_jis"); (js "sjis", js "shift_jis"); (js "cp936", js "gbk"); (js "ms936", js "gbk");
   (js "cp949", js "euc-kr"); (js "ms949", js "euc-kr"); (js "ks_c_5601", js "euc-kr"); (js "cp950", js "big5"); (js "ms950", js "big5");
   (js "big5-hkscs", js "big5"); (js "ascii", js "us-ascii"); (js "646", js "us-ascii"); (js "ansi", js "windows-1252");
   (js "utf8mb4", js "utf-8"); (js "unicode", js "utf-16le"); (js "ucs-2", js "utf-16le")].

Definition aliasOf (key : jsstr) : option jsstr := snd <$> find (fun '(k, _) => bool_decide (k = key)) ALIASES.

(** [s.replace(/^["']|["']$/g, '')]. *)
Definition isQuote (c : Z) : bool := (c =? 0x22) || (c =? 0x27).
Definition stripQuotes (s : jsstr) : jsstr :=
  let s := match s with c :: t => if isQuote c then t else s | [] => s end in
  match last s with Some c => if isQuote c then take (length s - 1) s else s | None => s end.

(** The remainder after a literal prefix. *)
Definition afterPrefix (p s : jsstr) : option jsstr := if startsWith p s then Some (drop (length p) s) else None.

Definition dropOptional (f : Z -> bool) (s : jsstr) : jsstr := match s with c :: t => if f c then t else s | [] => s end.

(** [/^(?:cp|ms|windows_?)-?(125\d)$/]: the group. *)
Definition cp125x (key : jsstr) : option jsstr :=
  let tail s :=
    let s := dropOptional (fun c => c =? 0x2d) s in
    match s with [a; b; c; d] => if bool_decide ([a; b; c] = js "125") && is_digit d then Some s else None | _ => None end in
  match afterPrefix (js "cp") key with
  | Some s => tail s
  | None =>
      match afterPrefix (js "ms") key with
      | Some s => tail s
      | None => match afterPrefix (js "windows") key with Some s => tail (dropOptional (fun c => c =? 0x5f) s) | None => None end
      end
  end.

(** [/^iso-?8859[-_]?(\d+)$/]: the group. *)
Definition isoPart (key : jsstr) : option jsstr :=
  s ← afterPrefix (js "iso") key;
  s ← afterPrefix (js "8859") (dropOptional (fun c => c =? 0x2d) s);
  let digits := dropOptional (fun c => (c =? 0x2d) || (c =? 0x5f)) s in
  if negb (length digits =? 0)%nat && forallb is_digit digits then Some digits else None.

Definition charsetCandidates (key : jsstr) : list jsstr :=
  [key] ++
  match aliasOf key with Some alias => [alias] | None => [] end ++
  match cp125x key with Some cp => [js "windows-" ++ cp] | None => [] end ++
  (if startsWith (js "x-") key then [drop 2 key] else []) ++
  (if includesChar 0x5f key then [(fun c => if c =? 0x5f then 0x2d else c) <$> key] else []) ++
  match isoPart key with Some n => [js "iso-8859-" ++ n] | None => [] end.

Definition resolveCharset (name : jsstr) : option jsstr :=
  let key := toLowerCase (trim (stripQuotes (trim name))) in
  match key with
  | [] => None
  | _ => fold_left (fun found candidate => match found with Some e => Some e | None => labelEncoding candidate end) (charsetCandidates key) None
  end.

Definition decodeWith (encoding : jsstr) (bs : bytes) : jsstr := textDecode encoding bs.

Record DecodedText := mkDecoded { dt_text : jsstr; dt_encoding : jsstr; dt_unknownCharset : option jsstr }.

Definition decodeBytes (bs : bytes) (charset : option jsstr) : DecodedText :=
  match (match charset with None => Some (js "utf-8") | Some c => resolveCharset c end) with
  | None => mkDecoded (decodeWith (js "utf-8") bs) (js "utf-8") charset
  | Some encoding => mkDecoded (decodeWith encoding bs) encoding None
  end.

(** ** encoded-word.ts, decoding *)

Record Piece := mkPiece { pc_bytes : bytes; pc_charset : jsstr }.

Fixpoint decodeQ (text : jsstr) : option bytes :=
  match text with
  | [] => Some []
  | ch :: text =>
      if ch =? 0x5f then cons 0x20 <$> decodeQ text
      else if ch =? 0x3d then
        match text with
        | a :: b :: text => if is_hex a && is_hex b then cons (16 * hex_digit_val a + hex_digit_val b) <$> decodeQ text else None
        | _ => None
        end
      else if 0x7e <? ch then app (utf8_encode [ch]) <$> decodeQ text
      else cons ch <$> decodeQ text
  end.

(** What [Buffer.from(text, 'base64')] makes of base64 digits: whole groups, then two or three left over. *)
Fixpoint base64Groups (s : jsstr) : bytes :=
  match s with
  | a :: b :: c :: d :: s =>
      let '(va, vb, vc, vd) := (base64_value a, base64_value b, base64_value c, base64_value d) in
      va * 4 + vb / 16 :: vb mod 16 * 16 + vc / 4 :: vc mod 4 * 64 + vd :: base64Groups s
  | [a; b; c] => [base64_value a * 4 + base64_value b / 16; base64_value b mod 16 * 16 + base64_value c / 4]
  | [a; b] => [base64_value a * 4 + base64_value b / 16]
  | _ => []
  end.

Definition decodeB (text : jsstr) : option bytes :=
  let digits := takeWhile is_base64 text in
  let padding := drop (length digits) text in
  if negb ((length padding <=? 2)%nat && forallb (fun c => c =? 0x3d) padding) then None
  else if (length digits mod 4 =? 1)%nat then None
  else Some (base64Groups digits).

Definition decodeWord (charsetField : jsstr) (enc : Z) (text : jsstr) : option Piece :=
  let charset := toLowerCase (takeWhile (fun c => negb (c =? 0x2a)) charsetField) in
  bytes ← (if (enc =? 0x62) || (enc =? 0x42) then decodeB text else decodeQ text);
  Some (mkPiece bytes charset).

(** The bytes of the leading pieces in [charset], and the pieces after them. *)
Fixpoint sameCharset (charset : jsstr) (pieces : list Piece) : bytes * list Piece :=
  match pieces with
  | [] => ([], [])
  | p :: ps =>
      if bool_decide (pc_charset p = charset) then let '(b, rest) := sameCharset charset ps in (pc_bytes p ++ b, rest) else ([], pieces)
  end.

Fixpoint decodePieces_loop (fuel : nat) (pieces : list Piece) (unknown : list jsstr) : jsstr * list jsstr :=
  match fuel, pieces with
  | S fuel, first :: _ =>
      let '(group, rest) := sameCharset (pc_charset first) pieces in
      let encoding := resolveCharset (pc_charset first) in
      let unknown := match encoding with None => if bool_decide (pc_charset first ∈ unknown) then unknown else unknown ++ [pc_charset first] | Some _ => unknown end in
      let '(out, unknown) := decodePieces_loop fuel rest unknown in
      (decodeWith (default (js "utf-8") encoding) group ++ out, unknown)
  | _, _ => ([], unknown)
  end.

Definition decodePieces (pieces : list Piece) (unknown : list jsstr) : jsstr * list jsstr := decodePieces_loop (length pieces) pieces unknown.

(** A match of [WORD] at the start: its groups and what follows it. *)
Record WordMatch := mkWord { wd_charset : jsstr; wd_enc : Z; wd_text : jsstr; wd_rest : jsstr }.

Definition wordChar (c : Z) : bool := negb (c =? 0x3f) && negb (is_js_space c).
Definition isEnc (c : Z) : bool := (c =? 0x42) || (c =? 0x62) || (c =? 0x51) || (c =? 0x71).

Definition matchWord (s : jsstr) : option WordMatch :=
  match s with
  | 0x3d :: 0x3f :: s =>
      let charset := takeWhile wordChar s in
      match charset, drop (length charset) s with
      | _ :: _, 0x3f :: enc :: 0x3f :: s =>
          if isEnc enc then
            let text := takeWhile wordChar s in
            match drop (length text) s with 0x3f :: 0x3d :: rest => Some (mkWord charset enc text rest) | _ => None end
          else None
      | _, _ => None
      end
  | _ => None
  end.

(** The leftmost match, and what comes before it. *)
Fixpoint findWord (s : jsstr) : option (jsstr * WordMatch) :=
  match matchWord s with
  | Some w => Some ([], w)
  | None => match s with [] => None | c :: s => match findWord s with Some (b, w) => Some (c :: b, w) | None => None end end
  end.

Definition wordSource (w : WordMatch) : jsstr := js "=?" ++ wd_charset w ++ js "?" ++ [wd_enc w] ++ js "?" ++ wd_text w ++ js "?=".

Definition isFoldSpace (c : Z) : bool := (c =? 0x20) || (c =? 9) || (c =? 13) || (c =? 10).

(** [rest] is the value from [last] on. *)
Fixpoint decodeWords_loop (fuel : nat) (rest out : jsstr) (pending : list Piece) (unknown : list jsstr) : jsstr * list jsstr :=
  match fuel, findWord rest with
  | S fuel, Some (between, w) =>
      match decodeWord (wd_charset w) (wd_enc w) (wd_text w) with
      | None =>
          let '(s, unknown) := decodePieces pending unknown in
          decodeWords_loop fuel (wd_rest w) (out ++ s ++ between ++ wordSource w) [] unknown
      | Some piece =>
          if negb (length pending =? 0)%nat && forallb isFoldSpace between then decodeWords_loop fuel (wd_rest w) out (pending ++ [piece]) unknown
          else
            let '(s, unknown) := decodePieces pending unknown in
            decodeWords_loop fuel (wd_rest w) (out ++ s ++ between) [piece] unknown
      end
  | _, _ => let '(s, unknown) := decodePieces pending unknown in (out ++ s ++ rest, unknown)
  end.

(** [value.includes('=?')]. *)
Fixpoint includesWordStart (s : jsstr) : bool :=
  match s with [] => false | c :: s' => startsWith (js "=?") s || includesWordStart s' end.

(** The text, and the charsets without a decoder. *)
Definition decodeEncodedWordsDetailed (value : jsstr) : jsstr * list jsstr :=
  if negb (includesWordStart value) then (value, []) else decodeWords_loop (length value) value [] [] [].

Definition decodeEncodedWords (value : jsstr) : jsstr := (decodeEncodedWordsDetailed value).1.
End words.

(** ** encoded-word.ts, encoding *)

Definition MAX_WORD : nat := 75.

Definition qSafe (c : Z) : bool := is_digit c || isAlphaUpper c || isAlphaLower c || (c =? 0x21) || (c =? 0x2a) || (c =? 0x2b) || (c =? 0x2d) || (c =? 0x2f).

Definition qByte (c : Z) : jsstr := if c =? 0x20 then [0x5f] else if qSafe c then [c] else [0x3d; hex_upper_digit (c / 16); hex_upper_digit (c mod 16)].
Definition qEncode (bs : bytes) : jsstr := concat (qByte <$> bs).

(** The characters that [for (const ch of text)] yields: surrogate pairs stay together. *)
Fixpoint characters (s : jsstr) : list jsstr :=
  match s with
  | [] => []
  | c :: s' =>
      match s' with
      | d :: s'' => if is_high c && is_low d then [c; d] :: characters s'' else [c] :: characters s'
      | [] => [[c]]
      end
  end.

Section encode.
Context (useB : bool).

Definition wordPrefix : jsstr := if useB then js "=?UTF-8?B?" else js "=?UTF-8?Q?".
Definition room : nat := MAX_WORD - length wordPrefix - 2.

Definition payload (b : bytes) : jsstr := if useB then base64_encode b else qEncode b.
Definition writeWord (current : list bytes) : jsstr := wordPrefix ++ payload (concat current) ++ js "?=".

Definition encodedLength (parts : list bytes) (extra : bytes) : nat :=
  let all := concat (parts ++ [extra]) in if useB then (length all + 2) / 3 * 4 else length (qEncode all).

(** The words so far, and the character buffers of the word being filled. *)
Fixpoint fillWords (chars : list jsstr) (words : list jsstr) (current : list bytes) : list jsstr * list bytes :=
  match chars with
  | [] => (words, current)
  | ch :: chars =>
      let cb := utf8_encode ch in
      if negb (length current =? 0)%nat && (room <? encodedLength current cb)%nat then fillWords chars (words ++ [writeWord current]) [cb]
      else fillWords chars words (current ++ [cb])
  end.
End encode.

Definition encodeWords (text : jsstr) : list jsstr :=
  let bs := utf8_encode text in
  let unsafe := length (filter (fun c => negb (qSafe c) && negb (c =? 0x20) = true) bs) in
  let useB := (length bs <? unsafe * 3)%nat in
  let '(words, current) := fillWords useB (characters text) [] [] in
  if negb (length current =? 0)%nat || (length words =? 0)%nat then words ++ [writeWord useB current] else words.

(** ** writer.ts, header values *)

Definition LINE : nat := 78.

Definition isVisible (c : Z) : bool := (0x21 <=? c) && (c <=? 0x7e).
Definition isBlank (c : Z) : bool := (c =? 0x20) || (c =? 9).

(** [value.split(/[ \t]/)]. *)
Fixpoint splitBlanks (s : jsstr) : list jsstr :=
  match s with
  | [] => [[]]
  | x :: s => if isBlank x then [] :: splitBlanks s else match splitBlanks s with p :: ps => (x :: p) :: ps | [] => [[x]] end
  end.

Definition isPlainSafe (value : jsstr) : bool :=
  match head value, last value with
  | Some a, Some b =>
      if negb (isVisible a && isVisible b && forallb (fun c => isVisible c || isBlank c) value) then false
      else if includesWordStart value then false
      else forallb (fun w => (length w <=? 900)%nat) (splitBlanks value)
  | _, _ => false
  end.

Fixpoint foldWords (first : nat) (words : list jsstr) (out : jsstr) (lineLen : nat) : jsstr :=
  match words with
  | [] => out
  | w :: words =>
      if (LINE <? lineLen + 1 + length w)%nat && (first <? lineLen)%nat then foldWords first words (out ++ CRLF ++ [SP] ++ w) (1 + length w)
      else foldWords first words (out ++ [SP] ++ w) (lineLen + (1 + length w))
  end.

Definition encodeHeaderValue (value : jsstr) (nameLength : nat) : jsstr :=
  let first := (nameLength + 2)%nat in
  let words := if isPlainSafe value then splitOn SP value else encodeWords value in
  let out := default [] (head words) in
  foldWords first (tail words) out (first + length out).

Definition formatHeader (name value : jsstr) : jsstr := name ++ js ": " ++ encodeHeaderValue value (length name).

(** ** header.ts, unfolding *)

(** [text.replace(/\r?\n|\r/g, '')]: every CR and LF goes. *)
Definition unfold (text : jsstr) : jsstr := filter (fun c => negb (c =? CR) && negb (c =? LF) = true) text.

(** ** A header value survives encoding, folding, unfolding and decoding *)

(** ** UTF-8 by characters *)

Lemma characters_ind (P : jsstr -> Prop) :
  P [] -> (forall c s, P s -> P (c :: s)) -> (forall c d s, is_high c && is_low d = true -> P s -> P (c :: d :: s)) -> forall s, P s.
Proof.
  intros H0 H1 H2 s. induction (Nat.lt_wf_0_projected length s) as [s _ IH]. destruct s as [|c s]; [done|]. apply H1, IH. cbn. lia.
Qed.

Lemma codePoints_characters s : codePoints s = concat (codePoints <$> characters s).
Proof.
  induction (Nat.lt_wf_0_projected length s) as [s _ IH]. destruct s as [|c [|d s]]; [done|cbn; by repeat case_match|].
  destruct (is_high c && is_low d) eqn:E.
  - apply andb_prop in E as E2. destruct E2 as [E1 E2]. cbn [characters]. rewrite E. cbn [fmap list_fmap concat codePoints]. rewrite E1, E2. cbn [app]. f_equal. apply IH. cbn. lia.
  - change (characters (c :: d :: s)) with (if is_high c && is_low d then [c; d] :: characters s else [c] :: characters (d :: s)). rewrite E.
    cbn [fmap list_fmap concat]. rewrite <- (IH (d :: s)) by (cbn; lia). change (codePoints (c :: d :: s)) with
      (if is_high c then if is_low d then (0x10000 + Z.shiftl (c - 0xd800) 10 + (d - 0xdc00)) :: codePoints s else 0xfffd :: codePoints (d :: s)
       else if is_low c then 0xfffd :: codePoints (d :: s) else c :: codePoints (d :: s)).
    generalize (codePoints (d :: s)). intros l. cbn. destruct (is_high c); [cbn in E; by rewrite E|]. by destruct (is_low c).
Qed.

Lemma utf8_encode_characters s : utf8_encode s = concat (utf8_encode <$> characters s).
Proof.
  unfold utf8_encode at 1. rewrite codePoints_characters. generalize (characters s). intros l. induction l as [|ch l IH]; [done|]. cbn. by rewrite fmap_app, concat_app, IH.
Qed.

Lemma utf8_bytes_short cp : (length (utf8_bytes cp) <= 4)%nat.
Proof. unfold utf8_bytes. repeat case_match; cbn; lia. Qed.

Lemma characters_short s : Forall (fun ch => (length (utf8_encode ch) <= 4)%nat) (characters s).
Proof.
  assert (H1 : forall cp, (length (concat (utf8_bytes <$> [cp])) <= 4)%nat) by (intros cp; cbn; rewrite app_nil_r; apply utf8_bytes_short).
  assert (Hone : forall c, (length (utf8_encode [c]) <= 4)%nat) by (intros c; unfold utf8_encode; cbn [codePoints]; repeat case_match; apply H1).
  induction (Nat.lt_wf_0_projected length s) as [s _ IH]. destruct s as [|c [|d s]]; [by apply Forall_nil|apply Forall_cons; split; [done|by apply Forall_nil]|].
  change (characters (c :: d :: s)) with (if is_high c && is_low d then [c; d] :: characters s else [c] :: characters (d :: s)). destruct (_ && _) eqn:E.
  - apply andb_prop in E as [E1 E2]. constructor; [|apply IH; cbn; lia]. unfold utf8_encode. cbn [codePoints]. rewrite E1, E2. apply H1.
  - constructor; [done|]. apply IH. cbn; lia.
Qed.

(** The bytes of a text start with a byte order mark only if the text does. *)
Lemma bom_head cp l : scalar cp -> startsWith [0xef; 0xbb; 0xbf] (utf8_bytes cp ++ l) = true -> cp = 0xfeff.
Proof.
  intros [Hr Hs]. unfold utf8_bytes. bits_to_arith.
  destruct (Z.ltb_spec cp 0x80); [cbn [app startsWith]; intros [E _]%andb_prop; dlia|].
  destruct (Z.ltb_spec cp 0x800); [cbn [app startsWith]; intros [E _]%andb_prop; dlia|].
  destruct (Z.ltb_spec cp 0x10000); [|cbn [app startsWith]; intros [E _]%andb_prop; dlia].
  cbn [app startsWith]. rewrite !andb_true_iff. intros (E1 & E2 & E3 & _). dlia.
Qed.

Lemma drop_bom_encode s : well_formed s = true -> head s <> Some 0xfeff -> drop_bom (utf8_encode s) = utf8_encode s.
Proof.
  intros Hw Hh. destruct (codePoints_back s Hw) as [Hb Hs]. unfold drop_bom. destruct (startsWith _ _) eqn:E; [|done]. exfalso. unfold utf8_encode in E.
  destruct (codePoints s) as [|cp cps]; [done|]. inversion_clear Hs as [|? ? Hcp _]. csimpl in E. apply bom_head in E; [|done]. subst cp. by rewrite <- Hb in Hh.
Qed.

(** ** Payloads *)

Lemma base64Groups_encode b : octets_ok b -> base64Groups (filter (fun c => is_base64 c = true) (base64_encode b)) = b.
Proof.
  revert b. apply (base64_encode_ind (fun b => octets_ok b -> _)).
  - done.
  - intros x Hx. rewrite Forall_cons in Hx. destruct Hx as [Hx _]. destruct (sextets x 0 0) as (A & B & _ & _ & E & _); [done|zlia|zlia|]. rewrite Z.div_0_l, Z.add_0_r in * by lia.
    destruct (base64_digit_ok _ A) as [A1 A2], (base64_digit_ok _ B) as [B1 B2]. cbn [base64_encode]. rewrite !filter_cons, filter_nil, !decide_True by done. rewrite !decide_False by done.
    cbn -[base64_digit base64_value Z.div Z.modulo Z.mul]. by rewrite A2, B2, E.
  - intros x y Hx. rewrite !Forall_cons in Hx. destruct Hx as (Hx & Hy & _). destruct (sextets x y 0) as (A & B & C & _ & E & F & _); [done|done|zlia|]. rewrite Z.div_0_l, Z.add_0_r in * by lia.
    destruct (base64_digit_ok _ A) as [A1 A2], (base64_digit_ok _ B) as [B1 B2], (base64_digit_ok _ C) as [C1 C2].
    cbn [base64_encode]. rewrite !filter_cons, filter_nil, !decide_True by done. rewrite !decide_False by done.
    cbn -[base64_digit base64_value Z.div Z.modulo Z.mul]. by rewrite A2, B2, C2, E, F.
  - intros x y z b IH Hx. rewrite !Forall_cons in Hx. destruct Hx as (Hx & Hy & Hz & Hb). destruct (sextets x y z) as (A & B & C & D & E & F & G); [done..|].
    destruct (base64_digit_ok _ A) as [A1 A2], (base64_digit_ok _ B) as [B1 B2], (base64_digit_ok _ C) as [C1 C2], (base64_digit_ok _ D) as [D1 D2].
    cbn [base64_encode]. rewrite !filter_cons, !decide_True by done. cbn -[base64_digit base64_value Z.div Z.modulo Z.mul base64_encode]. by rewrite A2, B2, C2, D2, E, F, G, IH.
Qed.

(** The digits, then the padding. *)
Lemma base64_shape b : octets_ok b ->
  exists digits padding, base64_encode b = digits ++ padding /\ Forall (fun c => is_base64 c = true) digits /\ padding ∈ [[]; [61]; [61; 61]] /\
  (length digits mod 4 <> 1)%nat /\ (length (base64_encode b) = (length b + 2) / 3 * 4)%nat.
Proof.
  revert b. apply (base64_encode_ind (fun b => octets_ok b -> _)).
  - intros _. exists [], []. split_and!; [done|constructor|set_solver|done|done].
  - intros x Hx. rewrite Forall_cons in Hx. destruct Hx as [Hx _]. destruct (sextets x 0 0) as (A & B & _); [done|zlia|zlia|]. rewrite Z.div_0_l, Z.add_0_r in * by lia.
    eexists [_; _], _. split_and!; [done|repeat constructor; by apply base64_digit_ok|set_solver|done|done].
  - intros x y Hx. rewrite !Forall_cons in Hx. destruct Hx as (Hx & Hy & _). destruct (sextets x y 0) as (A & B & C & _); [done|done|zlia|]. rewrite Z.div_0_l, Z.add_0_r in * by lia.
    eexists [_; _; _], _. split_and!; [done|repeat constructor; by apply base64_digit_ok|set_solver|done|done].
  - intros x y z b IH Hx. rewrite !Forall_cons in Hx. destruct Hx as (Hx & Hy & Hz & Hb). destruct (sextets x y z) as (A & B & C & D & _); [done..|].
    destruct (IH Hb) as (digits & padding & E & Hd & Hp & Hm & Hl). exists (base64_digit (x / 4) :: base64_digit (x mod 4 * 16 + y / 16) :: base64_digit (y mod 16 * 4 + z / 64) :: base64_digit (z mod 64) :: digits), padding.
    split_and!; [cbn [base64_encode app]; by rewrite E|repeat (constructor; [by apply base64_digit_ok|]); done|done| |].
    + cbn [length]. change (S (S (S (S (length digits))))) with (4 + length digits)%nat. rewrite Nat.add_mod by lia. rewrite Nat.mod_same by lia. rewrite Nat.add_0_l, Nat.Div0.mod_mod. done.
    + cbn [base64_encode length]. rewrite Hl. change (S (S (S (length b)))) with (3 + length b)%nat. replace (3 + length b + 2)%nat with (1 * 3 + (length b + 2))%nat by lia. rewrite Nat.div_add_l by lia. lia.
Qed.

Lemma decodeB_encode b : octets_ok b -> decodeB (base64_encode b) = Some b.
Proof.
  intros Hb. pose proof (base64Groups_encode b Hb) as Hg. destruct (base64_shape b Hb) as (digits & padding & E & Hd & Hp & Hm & _). rewrite E in *.
  assert (Hpf : filter (fun c => is_base64 c = true) padding = []) by (repeat (apply elem_of_cons in Hp as [->|Hp]; [done|]); by apply elem_of_nil in Hp).
  assert (Hdf : filter (fun c => is_base64 c = true) digits = digits) by (clear -Hd; induction Hd; [done|]; rewrite filter_cons, decide_True by done; by f_equal).
  rewrite filter_app, Hpf, Hdf, app_nil_r in Hg. unfold decodeB. assert (Ht : takeWhile is_base64 (digits ++ padding) = digits).
  { repeat (apply elem_of_cons in Hp as [->|Hp]; [first [rewrite app_nil_r; by apply takeWhile_all | by apply takeWhile_stop]|]). by apply elem_of_nil in Hp. }
  rewrite Ht, drop_app_length. assert ((length padding <=? 2)%nat && forallb (fun c => c =? 61) padding = true) as ->.
  { repeat (apply elem_of_cons in Hp as [->|Hp]; [done|]). by apply elem_of_nil in Hp. }
  cbn [negb]. destruct (Nat.eqb_spec (length digits mod 4) 1); [done|]. by rewrite Hg.
Qed.

Lemma hex_upper_ok d : 0 <= d < 16 -> is_hex (hex_upper_digit d) = true /\ hex_digit_val (hex_upper_digit d) = d.
Proof.
  intros Hd. assert (Hall : forallb (fun d => is_hex (hex_upper_digit d) && (hex_digit_val (hex_upper_digit d) =? d)) (seqZ 0 16) = true) by (by vm_compute).
  rewrite forallb_Forall, Forall_forall in Hall. assert (Hin : d ∈ seqZ 0 16) by (apply elem_of_seqZ; lia). apply Hall in Hin. apply andb_prop in Hin as [H1 H2]. split; [done|lia].
Qed.

Lemma decodeQ_encode b : octets_ok b -> decodeQ (qEncode b) = Some b.
Proof.
  induction 1 as [|c b Hc _ IH]; [done|]. unfold qEncode in *. cbn [fmap list_fmap concat]. unfold qByte at 1. destruct (Z.eqb_spec c 0x20) as [->|Hn].
  - cbn. by rewrite IH.
  - destruct (qSafe c) eqn:Hs.
    + assert ((c =? 0x5f) = false /\ (c =? 0x3d) = false /\ (0x7e <? c) = false) as (E1 & E2 & E3).
      { unfold qSafe, is_digit, isAlphaUpper, isAlphaLower in Hs. lia. }
      cbn [app decodeQ]. rewrite E1, E2, E3, IH. done.
    + unfold is_octet in Hc. destruct (hex_upper_ok (c / 16)) as [A1 A2]; [dlia|]. destruct (hex_upper_ok (c mod 16)) as [B1 B2]; [dlia|].
      cbn [app decodeQ Z.eqb Pos.eqb]. rewrite A1, B1, A2, B2, IH. cbn. do 2 f_equal. dlia.
Qed.

Definition word_char (c : Z) : Prop := wordChar c = true /\ c <> CR /\ c <> LF.

Lemma word_char_intro c : (0x21 <= c <= 0x7e) -> c <> 0x3f -> word_char c.
Proof. intros H1 H2. unfold word_char, wordChar, is_js_space. zlia. Qed.

Lemma payload_chars useB b : octets_ok b -> Forall word_char (payload useB b).
Proof.
  intros Hb. destruct useB; cbn [payload].
  - destruct (base64_roundtrip b Hb) as [_ Ht]. eapply Forall_impl; [exact Ht|]. cbn. unfold is_base64, isAlphaUpper, isAlphaLower, is_digit. intros c Hc. apply word_char_intro; lia.
  - induction Hb as [|c b Hc _ IH]; [constructor|]. unfold qEncode in *. cbn [fmap list_fmap concat]. apply Forall_app. split; [|done]. unfold qByte.
    destruct (Z.eqb_spec c 0x20); [constructor; [by apply word_char_intro|constructor]|]. destruct (qSafe c) eqn:Hs.
    + constructor; [|constructor]. unfold qSafe, is_digit, isAlphaUpper, isAlphaLower in Hs. apply word_char_intro; lia.
    + assert (Hh : forall d, 0 <= d < 16 -> word_char (hex_upper_digit d)) by (intros d Hd; unfold hex_upper_digit; apply word_char_intro; case_match; lia).
      unfold is_octet in Hc. repeat (constructor; [first [apply Hh; dlia|by apply word_char_intro]|]). constructor.
Qed.

(** ** Filling words *)

Definition wordFits (useB : bool) (g : list bytes) : Prop := (length (payload useB (concat g)) <= room useB)%nat.

Lemma encodedLength_spec useB current extra : octets_ok (concat (current ++ [extra])) -> encodedLength useB current extra = length (payload useB (concat (current ++ [extra]))).
Proof. intros Hb. unfold encodedLength, payload. destruct useB; [|done]. destruct (base64_shape _ Hb) as (? & ? & _ & _ & _ & _ & ->). done. Qed.

Lemma qByte_short c : (length (qByte c) <= 3)%nat.
Proof. unfold qByte. repeat case_match; cbn; lia. Qed.

Lemma qEncode_short b : (length (qEncode b) <= 3 * length b)%nat.
Proof. unfold qEncode. induction b as [|c b IH]; [done|]. cbn [fmap list_fmap concat]. rewrite length_app. pose proof (qByte_short c). cbn [length]. lia. Qed.

Lemma single_fits useB cb : octets_ok cb -> (length cb <= 4)%nat -> wordFits useB [cb].
Proof.
  intros Hb Hl. unfold wordFits. cbn [concat]. rewrite app_nil_r. destruct useB; cbn [payload].
  - destruct (base64_shape _ Hb) as (? & ? & _ & _ & _ & _ & ->). change (room true) with 63%nat. assert ((length cb + 2) / 3 <= 6 / 3)%nat by (apply Nat.Div0.div_le_mono; lia). cbn in *. lia.
  - pose proof (qEncode_short cb). change (room false) with 63%nat. lia.
Qed.

Lemma fill_spec useB chars words current : Forall octets_ok (utf8_encode <$> chars) -> Forall (fun ch => (length (utf8_encode ch) <= 4)%nat) chars ->
  Forall octets_ok current -> (current <> [] -> wordFits useB current) ->
  exists gs cur, fillWords useB chars words current = (words ++ (writeWord useB <$> gs), cur) /\ concat gs ++ cur = current ++ (utf8_encode <$> chars) /\
  Forall (fun g => wordFits useB g /\ Forall octets_ok g) gs /\ Forall octets_ok cur /\ (cur <> [] -> wordFits useB cur).
Proof.
  revert words current. induction chars as [|ch chars IH]; intros words current Ho Hs Hc Hf.
  - exists [], current. cbn. rewrite !app_nil_r. split_and!; [done|done|constructor|done|done].
  - cbn [fmap list_fmap] in Ho. apply Forall_cons in Ho as [Ho1 Ho2], Hs as [Hs1 Hs2]. cbn [fillWords fmap list_fmap concat].
    destruct (negb (length current =? 0)%nat && (room useB <? encodedLength useB current (utf8_encode ch))%nat) eqn:E.
    + apply andb_prop in E as [E1 E2]. assert (Hne : current <> []) by (by destruct current).
      destruct (IH (words ++ [writeWord useB current]) [utf8_encode ch]) as (gs & cur & Ef & Ec & Hg & Hcur & Hfit); [done|done|by constructor|intros _; by apply single_fits|].
      exists (current :: gs), cur. rewrite Ef. split_and!; [by rewrite <- app_assoc| |constructor; auto|done|done]. cbn [concat] in *. by rewrite <- app_assoc, Ec.
    + assert (Hoc : Forall octets_ok (current ++ [utf8_encode ch])) by (apply Forall_app; split; [done|by constructor]).
      destruct (IH words (current ++ [utf8_encode ch])) as (gs & cur & Ef & Ec & Hg & Hcur & Hfit); [done|done|done| |].
      { intros _. destruct current as [|c0 current]; [by apply single_fits|]. apply andb_false_iff in E as [E|E]; [done|]. apply Nat.ltb_ge in E.
        unfold wordFits. rewrite <- encodedLength_spec; [done|]. by apply Forall_concat. }
      exists gs, cur. rewrite Ef. split_and!; [done| |done|done|done]. by rewrite Ec, <- app_assoc.
Qed.

(** The words of a text: what their payloads carry is its UTF-8 form. *)
Lemma encodeWords_spec text : well_formed text = true ->
  exists useB gs, encodeWords text = (writeWord useB <$> gs) /\ gs <> [] /\ concat gs = (utf8_encode <$> characters text) /\ Forall (fun g => wordFits useB g /\ octets_ok (concat g)) gs.
Proof.
  intros Hw. pose proof (utf8_encode_octets text Hw) as Ho. pose proof (utf8_encode_characters text) as Ec. unfold encodeWords. set (useB := (_ <? _)%nat). clearbody useB. exists useB.
  assert (Hoc : Forall octets_ok (utf8_encode <$> characters text)) by (apply Forall_concat; by rewrite <- Ec).
  destruct (fill_spec useB (characters text) [] [] Hoc (characters_short text)) as (gs & cur & -> & Eg & Hg & Hcur & Hfit); [constructor|done|]. cbn [app concat] in *.
  assert (Hg' : Forall (fun g => wordFits useB g /\ octets_ok (concat g)) gs) by (eapply Forall_impl; [exact Hg|]; intros g [H1 H2]; split; [done|by apply Forall_concat]).
  destruct cur as [|c0 cur].
  - cbn [length Nat.eqb negb orb concat] in *. rewrite app_nil_r in Eg. rewrite length_fmap. destruct gs as [|g gs].
    + exists [[]]. cbn in *. split_and!; [done|done|done|]. constructor; [|constructor]. split; [|constructor]. unfold wordFits. cbn. destruct useB; cbn; lia.
    + exists (g :: gs). done.
  - exists (gs ++ [c0 :: cur]). cbn [length Nat.eqb negb orb]. rewrite fmap_app. split_and!; [done|by destruct gs| |].
    + rewrite concat_app, <- Eg. cbn [concat]. by rewrite app_nil_r.
    + apply Forall_app. split; [done|]. constructor; [|constructor]. split; [by apply Hfit|by apply Forall_concat].
Qed.

(** ** Decoding what was written *)

(** The decoders are those of the WHATWG standard, of which UTF-8 is enough here. *)
Class TextDecodersOk `{TextDecoders} : Prop := {
  utf8_label : labelEncoding (js "utf-8") = Some (js "utf-8");
  utf8_decoder : forall b, textDecode (js "utf-8") b = utf8_decode b }.

Lemma utf8_decode_back s : well_formed s = true -> head s <> Some 0xfeff -> utf8_decode (utf8_encode s) = s.
Proof. intros Hw Hh. unfold utf8_decode. rewrite drop_bom_encode by done. by apply utf8_back. Qed.

Section decode.
Context `{R : Runtime} `{T : TextDecoders} `{!TextDecodersOk}.

Lemma resolve_utf8 : resolveCharset (js "utf-8") = Some (js "utf-8").
Proof.
  unfold resolveCharset. change (toLowerCase _) with (js "utf-8"). change (charsetCandidates (js "utf-8")) with [js "utf-8"]. cbn. apply utf8_label.
Qed.

Definition wordOf (useB : bool) (g : list bytes) (rest : jsstr) : WordMatch := mkWord (js "UTF-8") (if useB then 66 else 81) (payload useB (concat g)) rest.

Lemma matchWord_intro charset enc text rest : charset <> [] -> Forall (fun c => wordChar c = true) charset -> isEnc enc = true -> Forall (fun c => wordChar c = true) text ->
  matchWord (js "=?" ++ charset ++ 0x3f :: enc :: 0x3f :: text ++ 0x3f :: 0x3d :: rest) = Some (mkWord charset enc text rest).
Proof.
  intros Hne Hc He Ht. change (js "=?" ++ ?s) with (0x3d :: 0x3f :: s). cbn [matchWord]. cbv zeta. rewrite (takeWhile_stop wordChar charset) by done. destruct charset as [|c0 charset]; [done|].
  rewrite drop_app_length, He, (takeWhile_stop wordChar text), drop_app_length by done. done.
Qed.

Lemma matchWord_written useB g rest : octets_ok (concat g) -> matchWord (writeWord useB g ++ rest) = Some (wordOf useB g rest).
Proof.
  intros Hg. pose proof (payload_chars useB _ Hg) as Hp. unfold wordOf. rewrite <- (matchWord_intro (js "UTF-8") (if useB then 66 else 81)); [|done|by repeat constructor|by destruct useB|eapply Forall_impl; [exact Hp|]; intros c Hc; apply Hc].
  f_equal. unfold writeWord. destruct useB; cbn [payload]; rewrite <- !app_assoc; done.
Qed.

Lemma findWord_written useB g rest : octets_ok (concat g) -> findWord (writeWord useB g ++ rest) = Some ([], wordOf useB g rest).
Proof. intros Hg. pose proof (matchWord_written useB g rest Hg) as E. destruct (writeWord useB g ++ rest) eqn:Es; cbn [findWord]; by rewrite E. Qed.

Lemma findWord_space useB g rest : octets_ok (concat g) -> findWord (SP :: writeWord useB g ++ rest) = Some ([SP], wordOf useB g rest).
Proof.
  intros Hg. pose proof (findWord_written useB g rest Hg) as E. change (findWord (SP :: ?s)) with (match findWord s with Some (b, w) => Some (SP :: b, w) | None => None end). by rewrite E.
Qed.

Lemma decodeWord_written useB g rest : octets_ok (concat g) ->
  decodeWord (wd_charset (wordOf useB g rest)) (wd_enc (wordOf useB g rest)) (wd_text (wordOf useB g rest)) = Some (mkPiece (concat g) (js "utf-8")).
Proof.
  intros Hg. unfold wordOf, decodeWord. cbn [wd_charset wd_enc wd_text]. change (toLowerCase _) with (js "utf-8"). destruct useB; cbn [payload]; [rewrite (decodeB_encode _ Hg)|rewrite (decodeQ_encode _ Hg)]; done.
Qed.

Lemma sameCharset_all bs : sameCharset (js "utf-8") ((fun b => mkPiece b (js "utf-8")) <$> bs) = (concat bs, []).
Proof. induction bs as [|b bs IH]; [done|]. cbn [fmap list_fmap sameCharset pc_charset]. rewrite bool_decide_eq_true_2 by done. by rewrite IH. Qed.

Lemma decodePieces_utf8 bs : bs <> [] -> decodePieces ((fun b => mkPiece b (js "utf-8")) <$> bs) [] = (utf8_decode (concat bs), []).
Proof.
  intros Hb. unfold decodePieces. destruct bs as [|b bs]; [done|]. pose proof (sameCharset_all (b :: bs)) as E. rewrite length_fmap. set (pieces := _ <$> (b :: bs)) in *.
  assert (Hp : exists ps, pieces = mkPiece b (js "utf-8") :: ps) by (by eexists). destruct Hp as [ps Hp]. cbn [length decodePieces_loop]. rewrite Hp at 1. cbn [pc_charset].
  rewrite E, resolve_utf8. cbn [default]. unfold decodeWith. rewrite utf8_decoder. destruct (length bs); cbn; by rewrite app_nil_r.
Qed.

Lemma decode_words fuel useB gs out pending : Forall (fun g => octets_ok (concat g)) gs -> (length gs <= fuel)%nat -> pending <> [] ->
  decodeWords_loop fuel (concat ((fun g => SP :: writeWord useB g) <$> gs)) out ((fun b => mkPiece b (js "utf-8")) <$> pending) [] =
  (out ++ utf8_decode (concat (pending ++ ((fun g => concat g) <$> gs))), []).
Proof.
  intros Hg. revert fuel pending. induction Hg as [|g gs Hg _ IH]; intros fuel pending Hf Hp.
  - cbn [fmap list_fmap concat]. rewrite app_nil_r. destruct fuel; cbn [decodeWords_loop findWord matchWord]; by rewrite (decodePieces_utf8 pending Hp), app_nil_r.
  - cbn [fmap list_fmap concat length] in *. destruct fuel as [|fuel]; [lia|]. cbn [app decodeWords_loop]. rewrite (findWord_space useB g _ Hg), (decodeWord_written useB g _ Hg).
    rewrite length_fmap. destruct pending as [|p0 pending]; [done|]. cbn [length Nat.eqb negb andb forallb isFoldSpace]. change (isFoldSpace SP && true) with true. cbv iota.
    change (wd_rest (wordOf useB g ?r)) with r. specialize (IH fuel ((p0 :: pending) ++ [concat g]) ltac:(lia) ltac:(done)). rewrite fmap_app in IH. cbn [fmap list_fmap] in IH |- *. rewrite IH.
    by rewrite <- app_assoc.
Qed.

Lemma writeWord_start useB g rest : includesWordStart (writeWord useB g ++ rest) = true.
Proof. unfold writeWord, wordPrefix. destruct useB; done. Qed.

(** The words of a text, separated by spaces, decode to it. *)
Lemma decode_encodeWords text : well_formed text = true -> head text <> Some 0xfeff -> decodeEncodedWords (joinWith [SP] (encodeWords text)) = text.
Proof.
  intros Hw Hh. destruct (encodeWords_spec text Hw) as (useB & gs & -> & Hne & Ec & Hg). destruct gs as [|g gs]; [done|]. apply Forall_cons in Hg as [[_ Hg] Hgs].
  assert (Hj : joinWith [SP] (writeWord useB <$> g :: gs) = writeWord useB g ++ concat ((fun g => SP :: writeWord useB g) <$> gs)).
  { clear. revert g. induction gs as [|h gs IH]; intros g; [cbn; by rewrite app_nil_r|]. cbn [fmap list_fmap] in *. rewrite joinWith_cons by done. rewrite IH. done. }
  rewrite Hj. unfold decodeEncodedWords, decodeEncodedWordsDetailed. rewrite writeWord_start. cbn [negb].
  assert (Hlen : (length gs < length (writeWord useB g ++ concat ((fun g => SP :: writeWord useB g) <$> gs)))%nat).
  { rewrite length_app. assert (0 < length (writeWord useB g))%nat by (unfold writeWord, wordPrefix; rewrite length_app; destruct useB; cbn; lia).
    assert (length gs <= length (concat ((fun g => SP :: writeWord useB g) <$> gs)))%nat by (clear; induction gs as [|h gs IH]; [done|]; cbn; rewrite length_app; lia). lia. }
  destruct (length (writeWord _ _ ++ _)) as [|fuel]; [lia|]. cbn [decodeWords_loop]. rewrite (findWord_written useB g _ Hg), (decodeWord_written useB g _ Hg). cbn [length Nat.eqb negb andb].
  change (decodePieces [] []) with (@nil Z, @nil jsstr). cbv iota beta. change (wd_rest (wordOf useB g ?r)) with r.
  pose proof (decode_words fuel useB gs ([] ++ [] ++ []) [concat g]) as Hd. cbn [fmap list_fmap] in Hd. rewrite Hd; [|eapply Forall_impl; [exact Hgs|]; cbn; tauto|lia|done].
  cbn [app fst]. transitivity (utf8_decode (utf8_encode text)); [|by apply utf8_decode_back]. f_equal. rewrite utf8_encode_characters, <- Ec. cbn [concat app]. rewrite concat_app. f_equal. clear. induction gs as [|h gs IH]; [done|]. cbn. by rewrite concat_app, IH.
Qed.

(** ** Folding *)

Definition unbroken (s : jsstr) : Prop := Forall (fun c => c <> CR /\ c <> LF) s.

Lemma unfold_unbroken s : unbroken s -> unfold s = s.
Proof. unfold unfold. induction 1 as [|c s [H1 H2] _ IH]; [done|]. rewrite filter_cons, decide_True by zlia. by f_equal. Qed.

Lemma unfold_app s t : unfold (s ++ t) = unfold s ++ unfold t.
Proof. apply filter_app. Qed.

Lemma unfold_foldWords first words out lineLen : Forall unbroken words ->
  unfold (foldWords first words out lineLen) = unfold out ++ concat ((fun w => SP :: w) <$> words).
Proof.
  intros Hw. revert out lineLen. induction Hw as [|w words Hw _ IH]; intros out lineLen; cbn [foldWords]; [cbn; by rewrite app_nil_r|].
  destruct (_ && _); rewrite IH, !unfold_app; cbn [fmap list_fmap concat]; rewrite (unfold_unbroken w Hw); change (unfold CRLF) with (@nil Z); change (unfold [SP]) with [SP]; by rewrite <- ?app_assoc.
Qed.

Lemma unfold_encode value nameLength words : words = (if isPlainSafe value then splitOn SP value else encodeWords value) -> words <> [] -> Forall unbroken words ->
  unfold (encodeHeaderValue value nameLength) = joinWith [SP] words.
Proof.
  intros E Hne Hu. unfold encodeHeaderValue. rewrite <- E. destruct words as [|w words]; [done|]. apply Forall_cons in Hu as [Hw Hu]. cbn [head default tail from_option]. unfold id. rewrite unfold_foldWords, (unfold_unbroken w Hw) by done.
  clear. revert w. induction words as [|x words IH]; intros w; [cbn; by rewrite app_nil_r|]. rewrite joinWith_cons by done. rewrite <- IH. done.
Qed.

Lemma written_unbroken useB g : octets_ok (concat g) -> unbroken (writeWord useB g).
Proof.
  intros Hg. unfold unbroken, writeWord. rewrite !Forall_app. split_and!.
  - destruct useB; cbn; repeat constructor; zlia.
  - eapply Forall_impl; [by apply payload_chars|]. intros c Hc. split; apply Hc.
  - cbn. repeat constructor; zlia.
Qed.

Lemma plainSafe_spec value : isPlainSafe value = true -> unbroken value /\ includesWordStart value = false.
Proof.
  unfold isPlainSafe. destruct (head value), (last value); try done. destruct (negb _) eqn:E; [done|]. destruct (includesWordStart value); [done|]. intros _. split; [|done].
  apply negb_false_iff in E. apply andb_prop in E as [_ E]. apply forallb_Forall in E. eapply Forall_impl; [exact E|]. unfold isVisible, isBlank. cbn. intros c. zlia.
Qed.

(** Unfolding and decoding an encoded header value gives back the value, whatever text it is, and no encoded
    word is longer than the 75 characters of RFC 2047; only a byte order mark at the start is lost. *)
Theorem header_value_roundtrip value nameLength : well_formed value = true -> head value <> Some 0xfeff ->
  decodeEncodedWords (unfold (encodeHeaderValue value nameLength)) = value /\ Forall (fun w => (length w <= MAX_WORD)%nat) (encodeWords value).
Proof.
  intros Hw Hh. split.
  - erewrite unfold_encode; [|done| |].
    + destruct (isPlainSafe value) eqn:Hp; [|by apply decode_encodeWords]. rewrite joinWith_splitOn. apply plainSafe_spec in Hp as [_ Hp].
      unfold decodeEncodedWords, decodeEncodedWordsDetailed. by rewrite Hp.
    + destruct (isPlainSafe value); [apply splitOn_ne|]. destruct (encodeWords_spec value Hw) as (useB & gs & -> & Hne & _). by destruct gs.
    + destruct (isPlainSafe value) eqn:Hp.
      * apply plainSafe_spec in Hp as [Hu _].
        rewrite <- (joinWith_splitOn SP value) in Hu. revert Hu. generalize (splitOn SP value). intros ps. induction ps as [|p ps IH]; [constructor|]. intros Hu. destruct (decide (ps = [])) as [->|Hps]; [by constructor|].
        rewrite joinWith_cons in Hu by done. apply Forall_app in Hu as [H1 H2]. apply Forall_app in H2 as [_ H2]. constructor; [done|by apply IH].
      * destruct (encodeWords_spec value Hw) as (useB & gs & -> & _ & _ & Hg). apply Forall_fmap. eapply Forall_impl; [exact Hg|]. intros g [_ Ho]. by apply written_unbroken.
  - destruct (encodeWords_spec value Hw) as (useB & gs & -> & _ & _ & Hg). apply Forall_fmap. eapply Forall_impl; [exact Hg|]. intros g [Hf _]. cbn. unfold wordFits, room in Hf. unfold writeWord. rewrite !length_app.
    change (length (js "?=")) with 2%nat. destruct useB; change (length (wordPrefix _)) with 10%nat in *; unfold MAX_WORD in *; lia.
Qed.
End decode.

(** At a concrete value, with the decoders a system without any but UTF-8 would have. *)
Section demo.
#[local] Instance demoRuntime : Runtime := {| uni_upper := id; uni_lower := id; big_string := fun _ => []; isIPv6 := fun _ => false |}.
#[local] Instance demoDecoders : TextDecoders :=
  {| labelEncoding := fun l => if bool_decide (l = js "utf-8") then Some l else None; textDecode := fun _ b => utf8_decode b |}.
#[local] Instance demoDecoders_ok : TextDecodersOk.
Proof. by split. Qed.

Lemma header_value_roundtrip_witness :
  let value := js "Caf" ++ [0xe9] ++ js " " ++ [0xd83d; 0xde00] in
  decodeEncodedWords (unfold (encodeHeaderValue value 7)) = value /\ Forall (fun w => (length w <= MAX_WORD)%nat) (encodeWords value).
Proof. apply (header_value_roundtrip (js "Caf" ++ [0xe9] ++ js " " ++ [0xd83d; 0xde00]) 7); by vm_compute. Defined.

(** A byte order mark at the start of a value is lost. *)
Example header_value_bom : decodeEncodedWords (unfold (encodeHeaderValue ([0xfeff] ++ js "x") 7)) = js "x".
Proof. by vm_compute. Qed.

(** A character outside the basic plane written raw in a Q word becomes two replacement characters. *)
Example raw_astral_in_word : decodeEncodedWords (js "=?utf-8?q?" ++ [0xd83d; 0xde00] ++ js "?=") = [0xfffd; 0xfffd].
Proof. by vm_compute. Qed.
End demo.
