(* ===== verification/MimeAddress.v ===== *)
(** * MimeAddress: address lists ([mime/src/address.ts]) and the mailbox writer ([writer.ts]) *)
From S2P Require Import Prelude JsString JsStringFacts Base64 Utf8 MimeWords.

Record Mailbox := mkMailbox { mb_name : jsstr; mb_address : jsstr }.

Inductive AddressEntry := EntryMailbox (m : Mailbox) | EntryGroup (group : jsstr) (members : list Mailbox).

Inductive TokenKind := KAtom | KQuoted | KComment | KLiteral | KSpecial.
#[export] Instance TokenKind_eq_dec : EqDecision TokenKind.
Proof. solve_decision. Defined.

Record Token := mkToken { tk_kind : TokenKind; tk_value : jsstr; tk_space : bool }.

Definition SPECIALS : jsstr := js "<>@,;:.[]()" ++ [0x22; 0x5c].
Definition isSpecial (c : Z) : bool := includesChar c SPECIALS.

(** A string up to its end [close]; a backslash takes the next character as it is. *)
Fixpoint quotedBody (close : Z) (s : jsstr) : jsstr * jsstr :=
  match s with
  | [] => ([], [])
  | c :: t =>
      if c =? close then ([], t)
      else if c =? 0x5c then match t with d :: t => let '(v, r) := quotedBody close t in (d :: v, r) | [] => ([c], []) end
      else let '(v, r) := quotedBody close t in (c :: v, r)
  end.

(** A comment at nesting [depth], without the parentheses around it. *)
Fixpoint commentBody (depth : nat) (s : jsstr) : jsstr * jsstr :=
  match s with
  | [] => ([], [])
  | c :: t =>
      if c =? 0x5c then match t with d :: t => let '(v, r) := commentBody depth t in (d :: v, r) | [] => ([c], []) end
      else
        let depth := if c =? 0x28 then S depth else if c =? 0x29 then (depth - 1)%nat else depth in
        match depth with O => ([], t) | S _ => let '(v, r) := commentBody depth t in (c :: v, r) end
  end.

Definition isAtomChar (c : Z) : bool := negb (isFoldSpace c) && negb (isSpecial c).

Fixpoint tokenize_loop (fuel : nat) (s : jsstr) (space : bool) : list Token :=
  match fuel, s with
  | S fuel, ch :: t =>
      if isFoldSpace ch then tokenize_loop fuel t true
      else if ch =? 0x22 then let '(v, r) := quotedBody 0x22 t in mkToken KQuoted v space :: tokenize_loop fuel r false
      else if ch =? 0x28 then let '(v, r) := commentBody 1 t in mkToken KComment (trim v) space :: tokenize_loop fuel r false
      else if ch =? 0x5b then let '(v, r) := quotedBody 0x5d t in mkToken KLiteral ([0x5b] ++ v ++ [0x5d]) space :: tokenize_loop fuel r false
      else if isSpecial ch then mkToken KSpecial [ch] space :: tokenize_loop fuel t false
      else
        let v := takeWhile isAtomChar s in
        mkToken KAtom v space :: tokenize_loop fuel (drop (length v) s) false
  | _, _ => []
  end.

Definition tokenize (input : jsstr) : list Token := tokenize_loop (length input) input false.

(** [DOT_ATOM.test(s)]. *)
Definition isAtext (c : Z) : bool :=
  is_digit c || isAlphaUpper c || isAlphaLower c || includesChar c (js "!#$%&'*+-/=?^_`{|}~") || ((0x80 <=? c) && (c <=? 0xffff)).
Definition isDotAtom (s : jsstr) : bool := forallb (fun p => negb (length p =? 0)%nat && forallb isAtext p) (splitOn DOT s).

Definition isSpecialToken (c : Z) (t : Token) : bool := bool_decide (tk_kind t = KSpecial) && bool_decide (tk_value t = [c]).
Definition isComment (t : Token) : bool := bool_decide (tk_kind t = KComment).

(** [findIndex] of a predicate. *)
Fixpoint findIndex (f : Token -> bool) (l : list Token) : option nat :=
  match l with [] => None | t :: l => if f t then Some 0%nat else S <$> findIndex f l end.

Definition findLastIndex (f : Token -> bool) (l : list Token) : option nat := (fun i => length l - S i)%nat <$> findIndex f (rev l).

(** A backslash before every quote and every backslash. *)
Definition escapeQuoted (s : jsstr) : jsstr := concat ((fun c => if (c =? 0x22) || (c =? 0x5c) then [0x5c; c] else [c]) <$> s).

Definition render (local : bool) (l : list Token) : jsstr :=
  concat ((fun t =>
    if negb (bool_decide (tk_kind t = KQuoted)) then tk_value t
    else if local && (length l =? 1)%nat && isDotAtom (tk_value t) then tk_value t
    else [0x22] ++ escapeQuoted (tk_value t) ++ [0x22]) <$> l).

Definition addrSpec (tokens : list Token) : jsstr :=
  let start :=
    match tokens with
    | t :: _ => if isSpecialToken 0x40 t then match findIndex (isSpecialToken 0x3a) tokens with Some colon => S colon | None => O end else O
    | [] => O
    end in
  let parts := filter (fun t => isComment t = false) (drop start tokens) in
  match findLastIndex (isSpecialToken 0x40) parts with
  | None => render true parts
  | Some at_ => render true (take at_ parts) ++ [0x40] ++ render false (drop (S at_) parts)
  end.

(** [/^=\?[^?]+\?[BbQq]\?[^?]*\?=$/.test(s)]. *)
Definition isEncodedWord (s : jsstr) : bool :=
  let noMark c := negb (c =? 0x3f) in
  match s with
  | 0x3d :: 0x3f :: s =>
      let charset := takeWhile noMark s in
      match charset, drop (length charset) s with
      | _ :: _, 0x3f :: enc :: 0x3f :: s => isEnc enc && bool_decide (drop (length (takeWhile noMark s)) s = [0x3f; 0x3d])
      | _, _ => false
      end
  | _ => false
  end.

Section address.
Context `{R : Runtime} `{T : TextDecoders}.

Fixpoint phrase_loop (tokens : list Token) (out : jsstr) (prevEncoded : bool) : jsstr :=
  match tokens with
  | [] => out
  | t :: tokens =>
      if isComment t then phrase_loop tokens out prevEncoded
      else
        let isEncoded := bool_decide (tk_kind t = KAtom) && isEncodedWord (tk_value t) in
        let text := if bool_decide (tk_kind t = KAtom) || bool_decide (tk_kind t = KQuoted) then decodeEncodedWords (tk_value t) else tk_value t in
        let out := if negb (length out =? 0)%nat && tk_space t && negb (isEncoded && prevEncoded) then out ++ [SP] else out in
        phrase_loop tokens (out ++ text) isEncoded
  end.

Definition phrase (tokens : list Token) : jsstr := trim (phrase_loop tokens [] false).

Definition toMailbox (tokens : list Token) : option Mailbox :=
  if forallb isComment tokens then None
  else
    match findIndex (isSpecialToken 0x3c) tokens with
    | Some lt =>
        let gt := match findIndex (isSpecialToken 0x3e) (drop (S lt) tokens) with Some i => (S lt + i)%nat | None => length tokens end in
        Some (mkMailbox (phrase (take lt tokens)) (addrSpec (sub tokens (S lt) gt)))
    | None =>
        let name := match find (fun t => isComment t && negb (length (tk_value t) =? 0)%nat) tokens with Some c => decodeEncodedWords (tk_value c) | None => [] end in
        Some (mkMailbox name (addrSpec tokens))
    end.

(** The state of the loop of [parseAddressList]. *)
Record ListState := mkList { ls_out : list AddressEntry; ls_current : list Token; ls_group : option (jsstr * list Mailbox); ls_inAngle : bool }.

Definition flush (s : ListState) : ListState :=
  match toMailbox (ls_current s) with
  | None => mkList (ls_out s) [] (ls_group s) (ls_inAngle s)
  | Some mb =>
      match ls_group s with
      | Some (name, members) => mkList (ls_out s) [] (Some (name, members ++ [mb])) (ls_inAngle s)
      | None => mkList (ls_out s ++ [EntryMailbox mb]) [] None (ls_inAngle s)
      end
  end.

Definition listStep (s : ListState) (t : Token) : ListState :=
  let push (inAngle : bool) := mkList (ls_out s) (ls_current s ++ [t]) (ls_group s) inAngle in
  let noAngle := negb (ls_inAngle s) in
  if isSpecialToken 0x3c t then push true
  else if isSpecialToken 0x3e t then push false
  else if isSpecialToken 0x2c t && noAngle then flush s
  else if isSpecialToken 0x3a t && noAngle && bool_decide (ls_group s = None) && negb (existsb (isSpecialToken 0x40) (ls_current s)) then
    mkList (ls_out s) [] (Some (phrase (ls_current s), [])) (ls_inAngle s)
  else if isSpecialToken 0x3b t && noAngle then
    match ls_group s with
    | None => push (ls_inAngle s)
    | Some _ =>
        let s := flush s in
        match ls_group s with
        | Some (name, members) => mkList (ls_out s ++ [EntryGroup name members]) (ls_current s) None (ls_inAngle s)
        | None => s
        end
    end
  else push (ls_inAngle s).

Definition parseAddressList (value : jsstr) : list AddressEntry :=
  let s := flush (fold_left listStep (tokenize value) (mkList [] [] None false)) in
  ls_out s ++ match ls_group s with Some (name, members) => [EntryGroup name members] | None => [] end.

Definition parseMailboxes (value : jsstr) : list Mailbox :=
  concat ((fun e => match e with EntryMailbox m => [m] | EntryGroup _ members => members end) <$> parseAddressList value).

Definition MAX_DISPLAY_NAME : nat := 200.
Definition isControlChar (c : Z) : bool := (c <=? 0x1f) || ((0x7f <=? c) && (c <=? 0x9f)).

(** [s.replace(/f+/g, ' ')]. *)
Fixpoint collapse (f : Z -> bool) (s : jsstr) (inRun : bool) : jsstr :=
  match s with
  | [] => []
  | c :: s => if f c then (if inRun then [] else [SP]) ++ collapse f s true else c :: collapse f s false
  end.

Definition displayNameOf (value : option jsstr) : option jsstr :=
  match value with
  | None => None
  | Some value =>
      let name := match parseMailboxes value with m :: _ => mb_name m | [] => [] end in
      let name := filter (fun c => isControlChar c = false) (collapse is_js_space name false) in
      let name := trim (collapse (fun c => c =? SP) name false) in
      match name with [] => None | _ => Some (concat (take MAX_DISPLAY_NAME (characters name))) end
  end.
End address.

(** ** writer.ts *)

Definition formatMailbox (m : Mailbox) : jsstr :=
  match mb_name m with
  | [] => mb_address m
  | name =>
      let name := if forallb (fun c => (0x20 <=? c) && (c <=? 0x7e)) name then [0x22] ++ escapeQuoted name ++ [0x22] else joinWith [SP] (encodeWords name) in
      name ++ js " <" ++ mb_address m ++ js ">"
  end.

(** ** A list of mailboxes is read as it was written *)

(** ** Tokens *)

Lemma quotedBody_length close s : (length (quotedBody close s).2 <= length s)%nat.
Proof.
  induction (Nat.lt_wf_0_projected length s) as [s _ IH]. destruct s as [|c t]; [done|]. cbn [quotedBody]. destruct (c =? close); [cbn; lia|]. destruct (c =? 0x5c).
  - destruct t as [|d t]; [cbn; lia|]. pose proof (IH t ltac:(cbn; lia)). destruct (quotedBody close t). cbn in *. lia.
  - pose proof (IH t ltac:(cbn; lia)). destruct (quotedBody close t). cbn in *. lia.
Qed.

Lemma commentBody_length depth s : (length (commentBody depth s).2 <= length s)%nat.
Proof.
  revert depth. induction (Nat.lt_wf_0_projected length s) as [s _ IH]. intros depth. destruct s as [|c t]; [done|]. cbn [commentBody].
  destruct (c =? 0x5c)%Z.
  - destruct t as [|d t]; [cbn; lia|]. pose proof (IH t ltac:(cbn; lia) depth). destruct (commentBody depth t). cbn in *. lia.
  - cbv zeta. set (k := if (c =? 40)%Z then _ else _). destruct k as [|k]; [cbn; lia|]. pose proof (IH t ltac:(cbn; lia) (S k)). destruct (commentBody (S k) t). cbn in *. lia.
Qed.

Lemma takeWhile_length f s : (length (takeWhile f s) <= length s)%nat.
Proof. induction s as [|c s IH]; [done|]. cbn. destruct (f c); cbn; lia. Qed.

Lemma atom_start ch : isFoldSpace ch = false -> isSpecial ch = false -> isAtomChar ch = true.
Proof. intros H1 H2. unfold isAtomChar. by rewrite H1, H2. Qed.

Lemma atom_intro c : 0x20 < c -> c ∉ SPECIALS -> isAtomChar c = true.
Proof.
  intros Hc Hs. unfold isAtomChar. apply andb_true_iff. split; [unfold isFoldSpace; lia|]. apply negb_true_iff. unfold isSpecial, includesChar. destruct (existsb _ _) eqn:E; [|done].
  apply existsb_exists in E as (x & Hx%list_elem_of_In & ->%Z.eqb_eq). done.
Qed.

(** More fuel than octets changes nothing. *)
Lemma tokenize_fuel fuel s space : (length s <= fuel)%nat -> tokenize_loop fuel s space = tokenize_loop (length s) s space.
Proof.
  revert s space. induction (Nat.lt_wf_0_projected id fuel) as [fuel _ IH]. unfold id in IH. intros s space Hf. destruct s as [|ch t]; [by destruct fuel|]. destruct fuel as [|fuel]; [cbn in Hf; lia|].
  cbn [length] in *. cbn [tokenize_loop].
  assert (Hr : forall r sp, (length r <= length t)%nat -> tokenize_loop fuel r sp = tokenize_loop (length t) r sp).
  { intros r sp Hr. rewrite (IH fuel) by lia. destruct (decide (length t < S fuel)%nat); [|lia]. by rewrite (IH (length t)) by lia. }
  pose proof (quotedBody_length 34 t). pose proof (quotedBody_length 93 t). pose proof (commentBody_length 1 t).
  destruct (isFoldSpace ch) eqn:E1; [by apply Hr|]. destruct (ch =? 34); [destruct (quotedBody 34 t) as [v r]; f_equal; by apply Hr|]. destruct (ch =? 40); [destruct (commentBody 1 t) as [v r]; f_equal; by apply Hr|].
  destruct (ch =? 91); [destruct (quotedBody 93 t) as [v r]; f_equal; by apply Hr|]. destruct (isSpecial ch) eqn:E2; [f_equal; by apply Hr|]. f_equal. apply Hr.
  cbn [takeWhile]. rewrite (atom_start ch E1 E2). cbn [length drop]. rewrite length_drop. lia.
Qed.

Definition toks (s : jsstr) (space : bool) : list Token := tokenize_loop (length s) s space.

Lemma toks_space ch t space : isFoldSpace ch = true -> toks (ch :: t) space = toks t true.
Proof. intros H. unfold toks. cbn [length tokenize_loop]. by rewrite H. Qed.

Lemma toks_special ch t space : ch ∈ [0x3c; 0x3e; 0x40; 0x2c; 0x3b; 0x3a; 0x2e] -> toks (ch :: t) space = mkToken KSpecial [ch] space :: toks t false.
Proof. intros H. unfold toks. cbn [length tokenize_loop]. repeat (apply elem_of_cons in H as [->|H]; [done|]). by apply elem_of_nil in H. Qed.

Lemma quotedBody_escape v r : quotedBody 0x22 (escapeQuoted v ++ 0x22 :: r) = (v, r).
Proof.
  unfold escapeQuoted. induction v as [|c v IH]; [done|]. cbn [fmap list_fmap concat]. destruct ((c =? 0x22) || (c =? 0x5c)) eqn:E.
  - cbn [app]. change (quotedBody 34 (92 :: c :: ?s)) with (let '(v, r) := quotedBody 34 s in (c :: v, r)). by rewrite IH.
  - apply orb_false_iff in E as [E1 E2]. cbn [app quotedBody]. rewrite E1, E2, IH. done.
Qed.

Lemma toks_quoted v r space : toks (0x22 :: escapeQuoted v ++ 0x22 :: r) space = mkToken KQuoted v space :: toks r false.
Proof.
  unfold toks at 1. cbn [length tokenize_loop]. change (isFoldSpace 34) with false. cbn [Z.eqb Pos.eqb]. rewrite quotedBody_escape. f_equal. apply tokenize_fuel.
  rewrite length_app. cbn. lia.
Qed.

(** Where an atom ends. *)
Definition stops (r : jsstr) : Prop := match r with [] => True | c :: _ => isAtomChar c = false end.

Lemma toks_atom v r space : v <> [] -> Forall (fun c => isAtomChar c = true) v -> stops r -> toks (v ++ r) space = mkToken KAtom v space :: toks r false.
Proof.
  intros Hne Hv Hr. destruct v as [|c v]; [done|]. assert (Ht : takeWhile isAtomChar ((c :: v) ++ r) = c :: v) by (destruct r as [|d r]; [rewrite app_nil_r; by apply takeWhile_all|by apply takeWhile_stop]).
  apply Forall_cons in Hv as [Hc _]. unfold toks at 1. assert (Ha : isFoldSpace c = false /\ isSpecial c = false) by (unfold isAtomChar in Hc; apply andb_prop in Hc as [H1 H2]; split; by apply negb_true_iff).
  destruct Ha as [Ha1 Ha2]. assert (Hn : (c =? 34) = false /\ (c =? 40) = false /\ (c =? 91) = false) by (split_and!; apply Z.eqb_neq; intros ->; done). destruct Hn as (N1 & N2 & N3).
  change (length ((c :: v) ++ r)) with (S (length (v ++ r))). change ((c :: v) ++ r) with (c :: (v ++ r)) in *. cbn [tokenize_loop]. rewrite Ha1, N1, N2, N3, Ha2, Ht. f_equal.
  change (c :: v ++ r) with ((c :: v) ++ r). rewrite drop_app_length. apply tokenize_fuel. rewrite length_app. lia.
Qed.

(** ** Addresses *)

(** A token of a local part or a domain made of atoms and dots. *)
Definition plainToken (t : Token) : Prop := (tk_kind t = KAtom \/ (tk_kind t = KSpecial /\ tk_value t = [DOT])) /\ tk_value t <> [].
Definition values (ts : list Token) : jsstr := concat (tk_value <$> ts).
Definition dotted (s : jsstr) : Prop := s <> [] /\ Forall (fun c => isAtomChar c = true \/ c = DOT) s.

Lemma toks_dotted a r space : dotted a -> stops r ->
  exists ts, toks (a ++ r) space = ts ++ toks r false /\ ts <> [] /\ Forall plainToken ts /\ values ts = a.
Proof.
  revert space. induction (Nat.lt_wf_0_projected length a) as [a _ IH]. intros space [Hne Ha] Hr. destruct a as [|c a]; [done|]. clear Hne.
  assert (Hnext : forall w, (length w < length (c :: a))%nat -> Forall (fun c => isAtomChar c = true \/ c = DOT) w ->
    exists ts, toks (w ++ r) false = ts ++ toks r false /\ Forall plainToken ts /\ values ts = w).
  { intros w Hl Hw. destruct (decide (w = [])) as [->|Hn]; [exists []; split_and!; [done|constructor|done]|]. destruct (IH w Hl false) as (ts & E & _ & Hp & Hv); [done|done|]. by exists ts. }
  destruct (isAtomChar c) eqn:Ec.
  - pose proof (takeWhile_dropWhile isAtomChar (c :: a)) as E. set (v := takeWhile isAtomChar (c :: a)) in *. set (w := dropWhile isAtomChar (c :: a)) in *.
    assert (Hv : Forall (fun c => isAtomChar c = true) v) by apply takeWhile_true. assert (Hne : v <> []) by (unfold v; cbn; by rewrite Ec).
    rewrite <- E, <- app_assoc. pose proof Ha as Ha'. rewrite <- E in Ha'. apply Forall_app in Ha' as [_ Hw]. assert (Hst : stops (w ++ r)).
    { destruct (dropWhile_head isAtomChar (c :: a)) as [Hh|(d & w2 & Hh & Hd)]; fold w in Hh; by rewrite Hh. }
    rewrite toks_atom by done. destruct (Hnext w) as (ts & Et & Hp & Hval); [apply (f_equal length) in E; rewrite length_app in E; destruct v; [done|]; cbn in *; lia|done|].
    exists (mkToken KAtom v space :: ts). rewrite Et. split_and!; [done|done|constructor; [|done]; split; [by left|done]|unfold values in *; cbn; by rewrite Hval].
  - apply Forall_cons in Ha as [[Hc| ->] Ha]; [congruence|]. cbn [app]. rewrite toks_special by (unfold DOT; set_solver). destruct (Hnext a) as (ts & Et & Hp & Hval); [cbn; lia|done|].
    exists (mkToken KSpecial [DOT] space :: ts). rewrite Et. split_and!; [done|done|constructor; [|done]; split; [by right|done]|unfold values in *; cbn; by rewrite Hval].
Qed.

Lemma plain_not_special c t : plainToken t -> c <> DOT -> isSpecialToken c t = false.
Proof.
  intros [[Hk|[Hk Hv]] _] Hc; unfold isSpecialToken; rewrite Hk.
  - by rewrite bool_decide_eq_false_2.
  - rewrite Hv, (bool_decide_eq_false_2 ([DOT] = [c])); [apply andb_false_r|]. intros E. by simplify_eq.
Qed.

Lemma plain_not_comment t : plainToken t -> isComment t = false.
Proof. intros [[Hk|[Hk _]] _]; unfold isComment; rewrite Hk; by rewrite bool_decide_eq_false_2. Qed.

Lemma render_plain local ts : Forall plainToken ts -> render local ts = values ts.
Proof.
  intros Hp. unfold render, values. generalize (local && (length ts =? 1)%nat). intros b. f_equal. induction Hp as [|t ts [Hk _] _ IH]; [done|]. cbn [fmap list_fmap]. f_equal; [|exact IH].
  rewrite bool_decide_eq_false_2; [done|]. destruct Hk as [-> |[-> _]]; done.
Qed.

Lemma findIndex_app f ts t l : Forall (fun x => f x = false) ts -> f t = true -> findIndex f (ts ++ t :: l) = Some (length ts).
Proof. intros Hf Ht. induction Hf as [|x ts Hx _ IH]; cbn; [by rewrite Ht|]. by rewrite Hx, IH. Qed.

Lemma findIndex_none f ts : Forall (fun x => f x = false) ts -> findIndex f ts = None.
Proof. induction 1 as [|x ts Hx _ IH]; [done|]. cbn. by rewrite Hx, IH. Qed.

Definition atToken : Token := mkToken KSpecial [0x40] false.

Lemma addrSpec_plain tl td : tl <> [] -> Forall plainToken tl -> Forall plainToken td -> addrSpec (tl ++ atToken :: td) = values tl ++ [0x40] ++ values td.
Proof.
  intros Hne Hl Hd. unfold addrSpec. assert (Hs : (match tl ++ atToken :: td with t :: _ => if isSpecialToken 0x40 t then match findIndex (isSpecialToken 0x3a) (tl ++ atToken :: td) with Some colon => S colon | None => O end else O | [] => O end) = 0%nat).
  { destruct tl as [|t tl]; [done|]. apply Forall_cons in Hl as [Ht _]. cbn [app]. by rewrite (plain_not_special 0x40 t Ht). }
  cbv zeta. rewrite Hs. rewrite drop_0. assert (Hf : filter (fun t => isComment t = false) (tl ++ atToken :: td) = tl ++ atToken :: td).
  { assert (Hk : forall l, Forall plainToken l -> filter (fun t => isComment t = false) l = l) by (induction 1; [done|]; rewrite filter_cons, decide_True by (by apply plain_not_comment); by f_equal).
    rewrite filter_app, filter_cons, decide_True by done. by rewrite !Hk. }
  rewrite Hf. assert (Hi : findLastIndex (isSpecialToken 0x40) (tl ++ atToken :: td) = Some (length tl)).
  { unfold findLastIndex. rewrite rev_app_distr. cbn [rev]. rewrite <- app_assoc. cbn [app]. rewrite findIndex_app; [|apply Forall_rev; eapply Forall_impl; [exact Hd|]; intros t Ht; by apply plain_not_special|done].
    cbn. f_equal. rewrite length_rev, length_app. cbn. lia. }
  rewrite Hi, take_app_length. assert (Hdr : drop (S (length tl)) (tl ++ atToken :: td) = td) by (clear; induction tl; done).
  by rewrite Hdr, !render_plain.
Qed.

(** ** Display names *)

Lemma well_formed_app s t : well_formed s = true -> well_formed (s ++ t) = well_formed t.
Proof.
  induction (Nat.lt_wf_0_projected length s) as [s _ IH]. destruct s as [|c s]; [done|]. cbn [app well_formed]. destruct (is_high c).
  - destruct s as [|d s]; [done|]. intros [Hd Hw]%andb_prop. cbn [app]. rewrite Hd. cbn [andb]. apply IH; [cbn; lia|done].
  - rewrite !andb_true_iff. intros [[[H1 H2] H3] Hw]. rewrite H1, H2, H3. cbn [andb]. apply IH; [cbn; lia|done].
Qed.

Lemma characters_concat s : concat (characters s) = s.
Proof.
  induction (Nat.lt_wf_0_projected length s) as [s _ IH]. destruct s as [|c [|d s]]; [done|done|].
  change (characters (c :: d :: s)) with (if is_high c && is_low d then [c; d] :: characters s else [c] :: characters (d :: s)).
  destruct (_ && _); cbn [concat]; rewrite IH by (cbn; lia); done.
Qed.

Lemma characters_well_formed s : well_formed s = true -> Forall (fun ch => well_formed ch = true) (characters s).
Proof.
  induction (Nat.lt_wf_0_projected length s) as [s _ IH]. destruct s as [|c [|d s]]; [by intros; apply Forall_nil|intros; apply Forall_cons; split; [done|by apply Forall_nil]|].
  change (characters (c :: d :: s)) with (if is_high c && is_low d then [c; d] :: characters s else [c] :: characters (d :: s)).
  intros Hw. cbn [well_formed] in Hw. destruct (is_high c) eqn:Eh; cbn [andb].
  - apply andb_prop in Hw as [Hd Hw]. rewrite Hd. constructor; [cbn; by rewrite Eh, Hd|apply IH; [cbn; lia|done]].
  - apply andb_prop in Hw as [Hc Hw]. constructor; [cbn; by rewrite Eh, Hc|]. apply IH; [cbn; lia|exact Hw].
Qed.

Lemma well_formed_concat chs : Forall (fun ch => well_formed ch = true) chs -> well_formed (concat chs) = true.
Proof. induction 1 as [|ch chs Hc _ IH]; [done|]. cbn [concat]. by rewrite well_formed_app. Qed.

Lemma codePoints_app s t : well_formed s = true -> codePoints (s ++ t) = codePoints s ++ codePoints t.
Proof.
  induction (Nat.lt_wf_0_projected length s) as [s _ IH]. destruct s as [|c s]; [done|]. cbn [app well_formed codePoints]. destruct (is_high c).
  - destruct s as [|d s]; [done|]. intros [Hd Hw]%andb_prop. cbn [app]. rewrite Hd. cbn [app]. f_equal. apply IH; [cbn; lia|done].
  - rewrite !andb_true_iff. intros [[[H1 H2] H3] Hw]. apply negb_true_iff in H1. rewrite H1. cbn [app]. f_equal. apply IH; [cbn; lia|done].
Qed.

Lemma utf8_encode_concat chs : Forall (fun ch => well_formed ch = true) chs -> utf8_encode (concat chs) = concat (utf8_encode <$> chs).
Proof.
  unfold utf8_encode. induction 1 as [|ch chs Hc _ IH]; [done|]. cbn [concat fmap list_fmap]. rewrite codePoints_app by done. by rewrite fmap_app, concat_app, IH.
Qed.

(** The bytes of each character. The words cut a text between characters. *)
Definition encodeAll (chs : list jsstr) : list bytes := utf8_encode <$> chs.

Lemma words_cut (gs : list (list bytes)) (chs : list jsstr) : concat gs = encodeAll chs -> exists chss : list (list jsstr), gs = (encodeAll <$> chss) /\ concat chss = chs.
Proof.
  revert chs. induction gs as [|g gs IH]; intros chs E; cbn [concat] in E.
  - exists []. split; [done|]. by destruct chs.
  - symmetry in E. apply fmap_app_inv in E as (c1 & c2 & E1 & E2 & ->). destruct (IH c2) as (chss & -> & <-); [done|]. exists (c1 :: chss). by rewrite E1.
Qed.

Definition no_bom (s : jsstr) : Prop := 0xfeff ∉ s.

Section names.
Context `{R : Runtime} `{T : TextDecoders} `{!TextDecodersOk}.

Lemma decode_one useB g : octets_ok (concat g) -> decodeEncodedWords (writeWord useB g) = utf8_decode (concat g).
Proof.
  intros Hg. unfold decodeEncodedWords, decodeEncodedWordsDetailed. rewrite <- (app_nil_r (writeWord useB g)), writeWord_start. cbn [negb].
  assert (Hl : (1 <= length (writeWord useB g ++ []))%nat) by (unfold writeWord, wordPrefix; destruct useB; cbn; lia).
  destruct (length (writeWord useB g ++ [])) as [|fuel]; [lia|]. cbn [decodeWords_loop]. rewrite (findWord_written useB g _ Hg), (decodeWord_written useB g _ Hg). cbn [length Nat.eqb negb andb].
  change (decodePieces [] []) with (@nil Z, @nil jsstr). cbv iota beta. change (wd_rest (wordOf useB g ?r)) with r.
  pose proof (decode_words fuel useB [] ([] ++ [] ++ []) [concat g] (List.Forall_nil _) ltac:(cbn; lia) ltac:(done)) as Hd. cbn [fmap list_fmap concat] in Hd. rewrite Hd. cbn. by rewrite app_nil_r.
Qed.

(** What one word carries. *)
Definition chunk (chs : list jsstr) : jsstr := concat chs.

Lemma decode_chunk useB (chs : list jsstr) : Forall (fun ch => well_formed ch = true /\ no_bom ch) chs -> decodeEncodedWords (writeWord useB (encodeAll chs)) = chunk chs.
Proof.
  intros Hc. assert (Hw : Forall (fun ch => well_formed ch = true) chs) by (eapply Forall_impl; [exact Hc|]; cbn; tauto). pose proof (utf8_encode_concat chs Hw) as E.
  unfold encodeAll, chunk. rewrite decode_one; rewrite <- E; [|by apply utf8_encode_octets, well_formed_concat]. apply utf8_decode_back; [by apply well_formed_concat|]. intros Hh.
  assert (Hn : no_bom (concat chs)) by (unfold no_bom; intros Hin%list_elem_of_In; apply in_concat in Hin as (ch & Hch%list_elem_of_In & Hin%list_elem_of_In); rewrite Forall_forall in Hc; by apply Hc in Hch as [_ Hch]).
  revert Hh Hn. destruct (concat chs) as [|x l]; [done|]. intros [= ->] Hn. apply Hn. by left.
Qed.

Lemma written_atoms useB g : octets_ok (concat g) -> writeWord useB g <> [] /\ Forall (fun c => isAtomChar c = true) (writeWord useB g) /\ isEncodedWord (writeWord useB g) = true.
Proof.
  intros Hg. pose proof (payload_chars useB _ Hg) as Hp. split_and!.
  - unfold writeWord, wordPrefix. by destruct useB.
  - unfold writeWord. rewrite !Forall_app. split_and!; [destruct useB; by repeat constructor| |by repeat constructor].
    destruct useB; cbn [payload] in *.
    + destruct (base64_roundtrip _ Hg) as [_ Ht]. eapply Forall_impl; [exact Ht|]. cbn. unfold is_base64, isAlphaUpper, isAlphaLower, is_digit. intros c Hc. apply atom_intro; [lia|]. unfold SPECIALS. set_unfold. lia.
    + clear Hp. induction Hg as [|c b Hc _ IH]; [constructor|]. unfold qEncode in *. cbn [fmap list_fmap concat]. apply Forall_app. split; [|done]. unfold is_octet in Hc. unfold qByte.
      destruct (Z.eqb_spec c 0x20); [by repeat constructor|]. destruct (qSafe c) eqn:Hs.
      * constructor; [|constructor]. unfold qSafe, is_digit, isAlphaUpper, isAlphaLower in Hs. apply atom_intro; [lia|]. unfold SPECIALS. set_unfold. lia.
      * assert (Hh : forall d, 0 <= d < 16 -> isAtomChar (hex_upper_digit d) = true).
        { intros d Hd. assert (Ha : forallb (fun d => isAtomChar (hex_upper_digit d)) (seqZ 0 16) = true) by (by vm_compute). rewrite forallb_Forall, Forall_forall in Ha. apply Ha, elem_of_seqZ. lia. }
        repeat (constructor; [first [apply Hh; dlia|by vm_compute]|]). constructor.
  - unfold isEncodedWord, writeWord. assert (Ht : Forall (fun c => negb (c =? 0x3f) = true) (payload useB (concat g))).
    { eapply Forall_impl; [exact Hp|]. intros c [Hc _]. unfold wordChar in Hc. by apply andb_prop in Hc as [Hc _]. }
    set (pay := payload useB (concat g)) in *. assert (Hk : bool_decide (drop (length (takeWhile (fun c => negb (c =? 0x3f)) (pay ++ js "?="))) (pay ++ js "?=") = [0x3f; 0x3d]) = true).
    { apply bool_decide_eq_true. change (js "?=") with [0x3f; 0x3d]. rewrite (takeWhile_stop (fun c => negb (c =? 0x3f)) pay 0x3f [0x3d]) by done. by rewrite drop_app_length. }
    destruct useB; cbn -[bool_decide takeWhile pay]; cbn [takeWhile Z.eqb Pos.eqb negb length drop]; exact Hk.
Qed.
End names.

(** ** One mailbox *)

Definition printable (s : jsstr) : bool := forallb (fun c => (0x20 <=? c) && (c <=? 0x7e)) s.

(** A name that is written quoted, resp. in encoded words, and is read back as it was. *)
Definition name_ok (s : jsstr) : Prop :=
  trim s = s /\ if printable s then includesWordStart s = false else well_formed s = true /\ no_bom s.

Definition mailbox_ok (m : Mailbox) : Prop :=
  name_ok (mb_name m) /\ exists local domain, mb_address m = local ++ 0x40 :: domain /\ dotted local /\ dotted domain.

Definition inert (t : Token) : Prop := forall c, c ∈ [0x3c; 0x3e; 0x2c; 0x3a; 0x3b] -> isSpecialToken c t = false.

Lemma plain_inert t : plainToken t -> inert t.
Proof. intros Ht c Hc. apply plain_not_special; [done|]. unfold DOT. intros ->. set_unfold in Hc. lia. Qed.

Lemma kind_inert t : tk_kind t <> KSpecial -> inert t.
Proof. intros Ht c _. unfold isSpecialToken. by rewrite bool_decide_eq_false_2. Qed.

Lemma at_inert : inert atToken.
Proof. intros c Hc. repeat (apply elem_of_cons in Hc as [->|Hc]; [done|]). by apply elem_of_nil in Hc. Qed.

Section mailbox.
Context `{R : Runtime} `{T : TextDecoders} `{!TextDecodersOk}.

Lemma fold_inert ts out cur a : Forall inert ts -> fold_left listStep ts (mkList out cur None a) = mkList out (cur ++ ts) None a.
Proof.
  intros Hi. revert cur. induction Hi as [|t ts Ht _ IH]; intros cur; [by rewrite app_nil_r|]. cbn [fold_left].
  assert (listStep (mkList out cur None a) t = mkList out (cur ++ [t]) None a) as ->; [|rewrite IH, <- app_assoc; done].
  unfold listStep. rewrite !(Ht _) by (set_solver). done.
Qed.

Lemma fold_angle ts us out : Forall inert ts -> Forall inert us ->
  fold_left listStep (ts ++ mkToken KSpecial [0x3c] true :: us ++ [mkToken KSpecial [0x3e] false]) (mkList out [] None false) =
  mkList out (ts ++ mkToken KSpecial [0x3c] true :: us ++ [mkToken KSpecial [0x3e] false]) None false.
Proof.
  intros Ht Hu. rewrite fold_left_app, fold_inert by done. cbn [fold_left app]. rewrite fold_left_app.
  change (listStep (mkList out ts None false) (mkToken KSpecial [0x3c] true)) with (mkList out (ts ++ [mkToken KSpecial [0x3c] true]) None true). rewrite fold_inert by done.
  cbn [fold_left]. unfold listStep. cbn. by rewrite <- !app_assoc.
Qed.

(** The tokens of a display name. *)
Definition NameTokens (name : jsstr) (ts : list Token) : Prop := ts <> [] /\ Forall (fun t => tk_kind t = KAtom \/ tk_kind t = KQuoted) ts /\ phrase ts = name.

Lemma quoted_name name r space : name_ok name -> printable name = true ->
  exists ts, toks (0x22 :: escapeQuoted name ++ 0x22 :: r) space = ts ++ toks r false /\ NameTokens name ts.
Proof.
  intros [Ht Hw] Hp. rewrite Hp in Hw. rewrite toks_quoted. exists [mkToken KQuoted name space]. split; [done|]. split_and!; [done|constructor; [by right|constructor]|].
  unfold phrase. cbn. unfold decodeEncodedWords, decodeEncodedWordsDetailed. by rewrite Hw.
Qed.

Definition WordToken (useB : bool) (t : Token) (chs : list jsstr) : Prop := tk_kind t = KAtom /\ tk_value t = writeWord useB (encodeAll chs).
Definition readable (chs : list jsstr) : Prop := Forall (fun ch => well_formed ch = true /\ no_bom ch) chs.

Lemma readable_octets chs : readable chs -> octets_ok (concat (encodeAll chs)).
Proof.
  intros Hc. assert (Hw : Forall (fun ch => well_formed ch = true) chs) by (eapply Forall_impl; [exact Hc|]; cbn; tauto). unfold encodeAll. rewrite <- utf8_encode_concat by done.
  by apply utf8_encode_octets, well_formed_concat.
Qed.

Lemma words_phrase useB ts chss out prev : Forall readable chss -> Forall2 (WordToken useB) ts chss -> out = [] \/ prev = true ->
  phrase_loop ts out prev = out ++ concat (concat chss).
Proof.
  intros Hr Hf. revert out prev Hr. induction Hf as [|t chs ts chss [Hk Hv] _ IH]; intros out prev Hr Ho; [cbn; by rewrite app_nil_r|]. apply Forall_cons in Hr as [Hc Hr].
  cbn [phrase_loop]. unfold isComment. rewrite Hk, Hv, (bool_decide_eq_false_2 (KAtom = KComment)), !(bool_decide_eq_true_2 (KAtom = KAtom)) by done.
  destruct (written_atoms useB (encodeAll chs)) as (_ & _ & ->); [by apply readable_octets|]. cbn [andb orb]. rewrite decode_chunk by done.
  assert (Hsp : negb (length out =? 0)%nat && tk_space t && negb prev = false) by (destruct Ho as [->| ->]; [done|by rewrite andb_false_r]). rewrite Hsp.
  rewrite IH by auto. cbn [concat]. by rewrite concat_app, app_assoc.
Qed.

Lemma toks_words useB chss r space : Forall readable chss -> chss <> [] ->
  exists ts, toks (joinWith [SP] (writeWord useB <$> (encodeAll <$> chss)) ++ SP :: r) space = ts ++ toks (SP :: r) false /\ Forall2 (WordToken useB) ts chss.
Proof.
  revert space. induction chss as [|chs chss IH]; intros space Hr Hne; [done|]. apply Forall_cons in Hr as [Hc Hr]. destruct (written_atoms useB (encodeAll chs)) as (Hw & Ha & _); [by apply readable_octets|].
  destruct (decide (chss = [])) as [->|Hn].
  - cbn [fmap list_fmap joinWith]. rewrite toks_atom by done. eexists [_]. split; [done|]. by repeat constructor.
  - cbn [fmap list_fmap]. rewrite joinWith_cons by (by destruct chss). rewrite <- app_assoc, toks_atom by done. cbn [app]. rewrite toks_space by done.
    destruct (IH true Hr Hn) as (ts & E & Hf). rewrite E. eexists (_ :: ts). split; [done|]. constructor; [|done]. by split.
Qed.

Lemma encoded_name name r space : name_ok name -> printable name = false ->
  exists ts, toks (joinWith [SP] (encodeWords name) ++ SP :: r) space = ts ++ toks (SP :: r) false /\ NameTokens name ts.
Proof.
  intros [Ht Hw] Hp. rewrite Hp in Hw. destruct Hw as [Hw Hb]. destruct (encodeWords_spec name Hw) as (useB & gs & -> & Hne & Hc & _). apply words_cut in Hc as (chss & -> & Hcat).
  assert (Hr : Forall readable chss).
  { apply Forall_concat. rewrite Hcat. rewrite Forall_forall. intros ch Hin. split; [by pose proof (characters_well_formed name Hw) as Hf; rewrite Forall_forall in Hf; apply Hf|].
    intros Hbad. apply Hb. rewrite <- (characters_concat name). apply list_elem_of_In, in_concat. exists ch. by rewrite <- !list_elem_of_In. }
  destruct (toks_words useB chss r space Hr) as (ts & E & Hf); [by destruct chss|]. exists ts. split; [done|]. split_and!.
  - destruct chss; [done|]. by inversion Hf.
  - clear -Hf. induction Hf as [|t chs ts chss [Hk _] _ IH]; constructor; [by left|done].
  - unfold phrase. rewrite (words_phrase useB ts chss) by auto. cbn [app]. by rewrite Hcat, characters_concat.
Qed.

Lemma angle_mailbox name ts tl td : NameTokens name ts -> tl <> [] -> Forall plainToken tl -> Forall plainToken td ->
  toMailbox (ts ++ mkToken KSpecial [0x3c] true :: (tl ++ atToken :: td) ++ [mkToken KSpecial [0x3e] false]) = Some (mkMailbox name (values tl ++ [0x40] ++ values td)).
Proof.
  intros (Hne & Hk & Hph) Hl Hpl Hpd. assert (Hns : forall c, Forall (fun t => isSpecialToken c t = false) ts).
  { intros c. eapply Forall_impl; [exact Hk|]. intros t [Ht|Ht]; unfold isSpecialToken; by rewrite Ht. }
  unfold toMailbox. assert (forallb isComment (ts ++ mkToken KSpecial [0x3c] true :: (tl ++ atToken :: td) ++ [mkToken KSpecial [0x3e] false]) = false) as ->.
  { destruct ts as [|t ts]; [done|]. apply Forall_cons in Hk as [Ht _]. cbn [app forallb]. unfold isComment at 1. by destruct Ht as [-> | ->]. }
  rewrite (findIndex_app _ ts (mkToken KSpecial [0x3c] true)) by done. rewrite take_app_length, Hph.
  assert (Hdr : drop (S (length ts)) (ts ++ mkToken KSpecial [0x3c] true :: (tl ++ atToken :: td) ++ [mkToken KSpecial [0x3e] false]) = (tl ++ atToken :: td) ++ [mkToken KSpecial [0x3e] false]) by (clear; induction ts; done).
  rewrite Hdr. assert (Hin : Forall (fun t => isSpecialToken 0x3e t = false) (tl ++ atToken :: td)).
  { apply Forall_app. split; [|constructor; [done|]]; (eapply Forall_impl; [eassumption|]; intros t Ht; by apply plain_not_special). }
  rewrite (findIndex_app _ (tl ++ atToken :: td)) by done. do 2 f_equal. unfold sub. rewrite Hdr.
  replace (S (length ts) + length (tl ++ atToken :: td) - S (length ts))%nat with (length (tl ++ atToken :: td)) by lia. rewrite take_app_length. by apply addrSpec_plain.
Qed.

Lemma bare_mailbox tl td : tl <> [] -> Forall plainToken tl -> Forall plainToken td -> toMailbox (tl ++ atToken :: td) = Some (mkMailbox [] (values tl ++ [0x40] ++ values td)).
Proof.
  intros Hl Hpl Hpd. unfold toMailbox. assert (Hall : forall f : Token -> bool, (forall t, plainToken t -> f t = false) -> f atToken = false -> Forall (fun t => f t = false) (tl ++ atToken :: td)).
  { intros f Hf Ha. apply Forall_app. split; [|constructor; [done|]]; (eapply Forall_impl; [eassumption|]; done). }
  assert (forallb isComment (tl ++ atToken :: td) = false) as -> by (destruct tl as [|t tl]; [done|]; apply Forall_cons in Hpl as [Ht _]; cbn; by rewrite (plain_not_comment t Ht)).
  rewrite findIndex_none by (apply Hall; [intros t Ht; by apply plain_not_special|done]).
  assert (Hc : find (fun t => isComment t && negb (length (tk_value t) =? 0)%nat) (tl ++ atToken :: td) = None).
  { assert (Hf : Forall (fun t => isComment t && negb (length (tk_value t) =? 0)%nat = false) (tl ++ atToken :: td)) by (apply (Hall (fun t => _)); [intros t Ht; by rewrite plain_not_comment|done]).
    revert Hf. generalize (tl ++ atToken :: td). intros l Hf. induction Hf as [|t l Ht _ IH]; [done|]. cbn. by rewrite Ht. }
  rewrite Hc. do 2 f_equal. by apply addrSpec_plain.
Qed.

Lemma toks_address local domain r space : dotted local -> dotted domain -> stops r ->
  exists tl td, toks (local ++ 0x40 :: domain ++ r) space = (tl ++ atToken :: td) ++ toks r false /\ tl <> [] /\ Forall plainToken tl /\ Forall plainToken td /\ values tl = local /\ values td = domain.
Proof.
  intros Hl Hd Hr. destruct (toks_dotted local (0x40 :: domain ++ r) space Hl) as (tl & E & Hne & Hpl & Hvl); [done|]. rewrite toks_special in E by set_solver.
  destruct (toks_dotted domain r false Hd Hr) as (td & E2 & _ & Hpd & Hvd). rewrite E2 in E. exists tl, td. rewrite <- app_assoc. by split_and!.
Qed.

(** What follows a mailbox. *)
Definition follows (r : jsstr) : Prop := match r with [] => True | c :: _ => c = 0x2c end.

Lemma mailbox_tokens m r space : mailbox_ok m -> follows r ->
  exists ts, toks (formatMailbox m ++ r) space = ts ++ toks r false /\ toMailbox ts = Some m /\ forall out, fold_left listStep ts (mkList out [] None false) = mkList out ts None false.
Proof.
  intros (Hn & local & domain & Ea & Hl & Hd) Hr. assert (Hst : stops r) by (destruct r as [|c r]; [done|]; cbn in Hr; by subst c). destruct m as [name address]. cbn [mb_name mb_address] in *. subst address.
  assert (Hin : forall tl td, Forall plainToken tl -> Forall plainToken td -> Forall inert (tl ++ atToken :: td)).
  { intros tl td H1 H2. apply Forall_app. split; [|constructor; [apply at_inert|]]; (eapply Forall_impl; [eassumption|]; apply plain_inert). }
  unfold formatMailbox. cbn [mb_name mb_address]. destruct name as [|c0 name'].
  - rewrite <- app_assoc. cbn [app]. destruct (toks_address local domain r space Hl Hd Hst) as (tl & td & E & Hne & Hpl & Hpd & Hvl & Hvd). exists (tl ++ atToken :: td). split_and!; [done| |].
    + rewrite bare_mailbox by done. by rewrite Hvl, Hvd.
    + intros out. rewrite fold_inert by auto. done.
  - set (name := c0 :: name') in *. set (rest := js "<" ++ (local ++ 0x40 :: domain) ++ js ">" ++ r).
    assert (Hname : exists ts, toks ((if printable name then [0x22] ++ escapeQuoted name ++ [0x22] else joinWith [SP] (encodeWords name)) ++ SP :: rest) space = ts ++ toks (SP :: rest) false /\ NameTokens name ts).
    { destruct (printable name) eqn:Hp; [|by apply encoded_name]. rewrite <- !app_assoc. cbn [app]. by apply quoted_name. }
    destruct Hname as (ts & E & HN). destruct (toks_address local domain (0x3e :: r) false Hl Hd) as (tl & td & E2 & Hne & Hpl & Hpd & Hvl & Hvd); [done|]. rewrite (toks_special 0x3e) in E2 by set_solver.
    exists (ts ++ mkToken KSpecial [0x3c] true :: (tl ++ atToken :: td) ++ [mkToken KSpecial [0x3e] false]). split_and!.
    + match goal with |- toks ?s space = _ => replace s with ((if printable name then [0x22] ++ escapeQuoted name ++ [0x22] else joinWith [SP] (encodeWords name)) ++ SP :: rest) end.
      2:{ unfold rest. cbv zeta. fold (printable name). change (js " <") with [SP; 0x3c]. change (js "<") with [0x3c]. rewrite <- !app_assoc. done. }
      rewrite E, (toks_space SP) by done. unfold rest. change (js "<" ++ ?s) with (0x3c :: s). rewrite toks_special by set_solver. change (js ">" ++ r) with (0x3e :: r). rewrite <- app_assoc. cbn [app]. rewrite E2.
      repeat (rewrite <- ?app_assoc; cbn [app]). done.
    + rewrite (angle_mailbox name) by done. by rewrite Hvl, Hvd.
    + intros out. apply fold_angle; [|auto]. destruct HN as (_ & Hk & _). eapply Forall_impl; [exact Hk|]. intros t Ht. apply kind_inert. by destruct Ht as [-> | ->].
Qed.

(** A list of mailboxes written with commas between them is read as the same mailboxes: names with quotes,
    backslashes, commas, angle brackets or any Unicode text, and dot-atom addresses, come back exactly. *)
Theorem mailbox_list_roundtrip ms : Forall mailbox_ok ms -> parseMailboxes (joinWith (js ", ") (formatMailbox <$> ms)) = ms.
Proof.
  intros Hm. unfold parseMailboxes, parseAddressList, tokenize. fold (toks (joinWith (js ", ") (formatMailbox <$> ms)) false).
  assert (Hgen : forall ms space out, Forall mailbox_ok ms -> flush (fold_left listStep (toks (joinWith (js ", ") (formatMailbox <$> ms)) space) (mkList out [] None false)) = mkList (out ++ (EntryMailbox <$> ms)) [] None false).
  { clear Hm ms. intros ms. induction ms as [|m ms IH]; intros space out Hm; [cbn; by rewrite app_nil_r|]. apply Forall_cons in Hm as [Hm Hms]. destruct (decide (ms = [])) as [->|Hne].
    - cbn [fmap list_fmap joinWith]. destruct (mailbox_tokens m [] space Hm) as (ts & E & Hto & Hf); [done|]. rewrite app_nil_r in E. rewrite E. change (toks [] false) with (@nil Token). rewrite app_nil_r, Hf.
      unfold flush. cbn [ls_current ls_group ls_out ls_inAngle]. by rewrite Hto.
    - cbn [fmap list_fmap]. assert (Hnf : formatMailbox <$> ms <> []) by (by destruct ms). rewrite joinWith_cons by exact Hnf. change (js ", ") with [0x2c; SP] at 1. set (rest := joinWith (js ", ") (formatMailbox <$> ms)).
      destruct (mailbox_tokens m (0x2c :: SP :: rest) space Hm) as (ts & E & Hto & Hf); [done|]. cbn [app]. rewrite E, toks_special by set_solver. rewrite fold_left_app, Hf. cbn [fold_left].
      rewrite toks_space by done. assert (listStep (mkList out ts None false) (mkToken KSpecial [0x2c] false) = mkList (out ++ [EntryMailbox m]) [] None false) as ->.
      { unfold listStep. cbn. unfold flush. cbn. by rewrite Hto. }
      unfold rest. rewrite IH by done. by rewrite <- app_assoc. }
  rewrite (Hgen ms false [] Hm). cbn [ls_out ls_group app]. rewrite app_nil_r. clear. induction ms as [|m ms IH]; [done|]. cbn. by f_equal.
Qed.
End mailbox.

(** ** At concrete lists *)
Section demo.
#[local] Instance demoRuntime : Runtime := {| uni_upper := id; uni_lower := id; big_string := fun _ => []; isIPv6 := fun _ => false |}.
#[local] Instance demoDecoders : TextDecoders :=
  {| labelEncoding := fun l => if bool_decide (l = js "utf-8") then Some l else None; textDecode := fun _ b => utf8_decode b |}.
#[local] Instance demoDecoders_ok : TextDecodersOk.
Proof. by split. Qed.

Definition demoMailboxes : list Mailbox :=
  [mkMailbox [] (js "bare@example.org"); mkMailbox (js "Doe, Jane <" ++ [0x22; 0x5c]) (js "jane.doe@example.org");
   mkMailbox (js "Caf" ++ [0xe9] ++ js " " ++ [0xd83d; 0xde00]) (js "cafe@d3.example")].

Lemma mailbox_list_roundtrip_witness : parseMailboxes (joinWith (js ", ") (formatMailbox <$> demoMailboxes)) = demoMailboxes.
Proof.
  apply (mailbox_list_roundtrip demoMailboxes). unfold demoMailboxes.
  assert (Hd : forall a l d, a = l ++ 0x40 :: d -> l <> [] -> d <> [] -> forallb (fun c => isAtomChar c || (c =? DOT)) (l ++ d) = true ->
    exists local domain, a = local ++ 0x40 :: domain /\ dotted local /\ dotted domain).
  { intros a l d -> Hl Hd Hf. exists l, d. rewrite forallb_Forall, Forall_app in Hf. destruct Hf as [H1 H2].
    split_and!; [done|split; [done|]..]; (eapply Forall_impl; [eassumption|]; cbn; intros c [Hc|Hc%Z.eqb_eq]%orb_prop; auto). }
  assert (Hb : forall s, forallb (fun c => negb (c =? 0xfeff)) s = true -> no_bom s).
  { intros s Hs Hin. rewrite forallb_Forall, Forall_forall in Hs. apply Hs in Hin. done. }
  rewrite !Forall_cons, Forall_nil. unfold mailbox_ok, name_ok. cbn [mb_name mb_address].
  split_and!; try done; try (by vm_compute).
  - by apply (Hd _ (js "bare") (js "example.org")); vm_compute.
  - by apply (Hd _ (js "jane.doe") (js "example.org")); vm_compute.
  - assert (printable (js "Caf" ++ [0xe9] ++ js " " ++ [0xd83d; 0xde00]) = false) as -> by (by vm_compute). split; [by vm_compute|apply Hb; by vm_compute].
  - by apply (Hd _ (js "cafe") (js "d3.example")); vm_compute.
Defined.

(** A name that looks like an encoded word is written quoted and read decoded. *)
Example quoted_word_decoded : parseMailboxes (formatMailbox (mkMailbox (js "=?utf-8?q?x?=") (js "a@b"))) = [mkMailbox (js "x") (js "a@b")].
Proof. by vm_compute. Qed.
End demo.
