(* ===== verification/MimeTransfer.v ===== *)
(** * MimeTransfer: content transfer encodings ([mime/src/transfer.ts])

    A decoder is its state and a step on one octet, which emits octets. The source writes them into a buffer of a
    size fixed beforehand, where writes past the end are lost: [kept]. Binary operations are on small numbers. *)
From S2P Require Import Prelude JsString JsStringFacts Base64 Utf8.

Definition EQ : Z := 0x3d.

(** ** Base64Decoder *)

Definition B64 (c : Z) : option Z :=
  if is_base64 c then Some (base64_value c) else if c =? 0x2d then Some 62 else if c =? 0x5f then Some 63 else None.

Record B64State := mkB64 { b_acc : Z; b_n : nat; b_bad : bool }.
Definition newB64 : B64State := mkB64 0 0 false.

(** What a partial group gives, and whether it is malformed. *)
Definition flushPartial (acc : Z) (n : nat) : bytes * bool :=
  match n with
  | 2%nat => ([Z.land (Z.shiftr acc 4) 0xff], false)
  | 3%nat => ([Z.land (Z.shiftr acc 10) 0xff; Z.land (Z.shiftr acc 2) 0xff], false)
  | 1%nat => ([], true)
  | _ => ([], false)
  end.

Definition b64Step (s : B64State) (c : Z) : bytes * B64State :=
  match B64 c with
  | Some v =>
      let acc := Z.land (Z.lor (Z.shiftl (b_acc s) 6) v) 0xffffff in
      if (S (b_n s) =? 4)%nat then ([Z.shiftr acc 16; Z.land (Z.shiftr acc 8) 0xff; Z.land acc 0xff], mkB64 0 0 (b_bad s))
      else ([], mkB64 acc (S (b_n s)) (b_bad s))
  | None =>
      if c =? EQ then let '(out, bad) := flushPartial (b_acc s) (b_n s) in (out, mkB64 0 0 (b_bad s || bad))
      else if negb (c =? CR) && negb (c =? LF) && negb (c =? SP) && negb (c =? HTAB) then ([], mkB64 (b_acc s) (b_n s) true)
      else ([], s)
  end.

Section decoder.
Context {S : Type} (step : S -> Z -> bytes * S).

Fixpoint steps (s : S) (chunk : bytes) : bytes * S :=
  match chunk with
  | [] => ([], s)
  | c :: chunk => let '(o1, s) := step s c in let '(o2, s) := steps s chunk in (o1 ++ o2, s)
  end.
End decoder.

(** A buffer of [size] octets keeps the first that are written. *)
Definition kept (size : nat) (out : bytes) : bytes := take size out.

Definition b64Write (s : B64State) (chunk : bytes) : bytes * B64State :=
  let '(out, s) := steps b64Step s chunk in (kept ((length chunk * 3 + 3) / 4 + 3) out, s).

Definition b64End (s : B64State) : bytes * B64State :=
  let '(out, bad) := flushPartial (b_acc s) (b_n s) in (kept 3 out, mkB64 0 0 (b_bad s || bad)).

(** ** QuotedPrintableDecoder *)

Definition hexValue (c : Z) : Z :=
  if (0x30 <=? c) && (c <=? 0x39) then c - 0x30 else if (0x41 <=? c) && (c <=? 0x46) then c - 0x41 + 10
  else if (0x61 <=? c) && (c <=? 0x66) then c - 0x61 + 10 else -1.

Inductive Qp := QpNormal | QpEq | QpEqHex | QpEqWs | QpEqCr.

Definition MAX_HELD_WS : nat := 1024.

Record QpState := mkQp { q_state : Qp; q_hex : Z; q_hexByte : Z; q_ws : bytes; q_bad : bool }.
Definition newQp : QpState := mkQp QpNormal 0 0 [] false.

Definition set_q (state : Qp) (ws : bytes) (s : QpState) : QpState := mkQp state (q_hex s) (q_hexByte s) ws (q_bad s).
Definition set_qbad (s : QpState) : QpState := mkQp (q_state s) (q_hex s) (q_hexByte s) (q_ws s) true.

Definition isWs (c : Z) : bool := (c =? SP) || (c =? HTAB).

(** An octet in the state Normal. *)
Definition qpNormal (s : QpState) (c : Z) : bytes * QpState :=
  if isWs c then
    if (MAX_HELD_WS <=? length (q_ws s))%nat then (q_ws s, set_q QpNormal [c] s) else ([], set_q QpNormal (q_ws s ++ [c]) s)
  else if (c =? CR) || (c =? LF) then ([c], set_q QpNormal [] s)
  else if c =? EQ then (q_ws s, set_q QpEq [] s)
  else (q_ws s ++ [c], set_q QpNormal [] s).

(** [out] is emitted, and [c] is an octet like any other. *)
Definition reprocess (out : bytes) (s : QpState) (c : Z) : bytes * QpState := let '(o, s) := qpNormal s c in (out ++ o, s).

Definition qpStep (s : QpState) (c : Z) : bytes * QpState :=
  match q_state s with
  | QpNormal => qpNormal s c
  | QpEq =>
      let h := hexValue c in
      if 0 <=? h then ([], mkQp QpEqHex h c (q_ws s) (q_bad s))
      else if c =? CR then ([], set_q QpEqCr (q_ws s) s)
      else if c =? LF then ([], set_q QpNormal (q_ws s) s)
      else if isWs c then ([], set_q QpEqWs (q_ws s ++ [c]) s)
      else reprocess [EQ] (set_q QpNormal (q_ws s) (set_qbad s)) c
  | QpEqHex =>
      let h := hexValue c in
      if 0 <=? h then ([Z.lor (Z.shiftl (q_hex s) 4) h], set_q QpNormal (q_ws s) s)
      else reprocess [EQ; q_hexByte s] (set_q QpNormal (q_ws s) (set_qbad s)) c
  | QpEqWs =>
      if isWs c then
        if (MAX_HELD_WS <=? length (q_ws s))%nat then (EQ :: q_ws s, set_q QpNormal [c] (set_qbad s))
        else ([], set_q QpEqWs (q_ws s ++ [c]) s)
      else if c =? CR then ([], set_q QpEqCr [] s)
      else if c =? LF then ([], set_q QpNormal [] s)
      else reprocess (EQ :: q_ws s) (set_q QpNormal [] (set_qbad s)) c
  | QpEqCr => if c =? LF then ([], set_q QpNormal (q_ws s) s) else qpNormal (set_q QpNormal (q_ws s) s) c
  end.

Definition qpWrite (s : QpState) (chunk : bytes) : bytes * QpState :=
  let '(out, s') := steps qpStep s chunk in (kept (length chunk + length (q_ws s) + 3) out, s').

Definition qpEnd (s : QpState) : bytes * QpState :=
  let idle := set_q QpNormal [] in
  match q_state s with
  | QpEq => ([EQ], idle (set_qbad s))
  | QpEqHex => ([EQ; q_hexByte s], idle (set_qbad s))
  | _ => ([], idle s)
  end.

Definition carried (s : QpState) : nat := length (q_ws s) + (match q_state s with QpNormal => 0 | _ => 2 end).

(** ** The decoder of a part *)

(** [value.replace(/\([^)]*\)/g, ' ')]. *)
Fixpoint dropComments (fuel : nat) (s : jsstr) : jsstr :=
  match fuel, s with
  | S fuel, c :: t =>
      if c =? 0x28 then
        match drop (length (takeWhile (fun c => negb (c =? 0x29)) t)) t with
        | _ :: rest => SP :: dropComments fuel rest
        | [] => c :: dropComments fuel t
        end
      else c :: dropComments fuel t
  | _, _ => []
  end.

Definition normalizeEncoding `{Runtime} (value : option jsstr) : jsstr :=
  match value with
  | None => js "7bit"
  | Some value =>
      match toLowerCase (trim (filter (fun c => c <> 0x22) (dropComments (length value) value))) with [] => js "7bit" | token => token end
  end.

Definition isKnownEncoding (encoding : jsstr) : bool :=
  existsb (fun e => bool_decide (e = encoding)) [js "7bit"; js "8bit"; js "binary"; js "base64"; js "quoted-printable"].

Inductive TransferDecoder := DecBase64 (s : B64State) | DecQp (s : QpState) | DecIdentity.

Definition createTransferDecoder (encoding : jsstr) : TransferDecoder :=
  if bool_decide (encoding = js "base64") then DecBase64 newB64
  else if bool_decide (encoding = js "quoted-printable") then DecQp newQp else DecIdentity.

Definition decWrite (d : TransferDecoder) (chunk : bytes) : bytes * TransferDecoder :=
  match d with
  | DecBase64 s => let '(o, s) := b64Write s chunk in (o, DecBase64 s)
  | DecQp s => let '(o, s) := qpWrite s chunk in (o, DecQp s)
  | DecIdentity => (chunk, DecIdentity)
  end.

Definition decEnd (d : TransferDecoder) : bytes * TransferDecoder :=
  match d with
  | DecBase64 s => let '(o, s) := b64End s in (o, DecBase64 s)
  | DecQp s => let '(o, s) := qpEnd s in (o, DecQp s)
  | DecIdentity => ([], DecIdentity)
  end.

Definition malformed (d : TransferDecoder) : bool := match d with DecBase64 s => b_bad s | DecQp s => q_bad s | DecIdentity => false end.

(** Every chunk, then the end: what comes out, and the decoder after it. *)
Fixpoint decodeChunks (d : TransferDecoder) (chunks : list bytes) : bytes * TransferDecoder :=
  match chunks with
  | [] => decEnd d
  | c :: chunks => let '(o1, d) := decWrite d c in let '(o2, d) := decodeChunks d chunks in (o1 ++ o2, d)
  end.

(** ** Encoders *)

(** The slices of [s] of [n] characters: [n] is positive. *)
Fixpoint slicesOf (fuel n : nat) (s : jsstr) : list jsstr :=
  match fuel, s with S fuel, _ :: _ => take n s :: slicesOf fuel n (drop n s) | _, _ => [] end.

(** The loop does not end for a [lineLength] of 0. *)
Definition encodeBase64 (data : bytes) (lineLength : nat) : jsstr :=
  let b64 := base64_encode data in
  if (length b64 <=? lineLength)%nat then b64 else joinWith CRLF (slicesOf (length b64) lineLength b64).

Record B64Encoder := mkB64Encoder { e_carry : bytes; e_column : nat; e_lineLength : nat }.
Definition newB64Encoder (lineLength : nat) : B64Encoder := mkB64Encoder [] 0 (lineLength - lineLength mod 4).

(** [wrap]; it does not end for a line length below 4. *)
Fixpoint wrap (fuel lineLength column : nat) (b64 : jsstr) : jsstr * nat :=
  match fuel, b64 with
  | S fuel, _ :: _ =>
      let brk := (column =? lineLength)%nat in
      let column := if brk then 0%nat else column in
      let n := ((lineLength - column) `min` length b64)%nat in
      let '(rest, column') := wrap fuel lineLength (column + n)%nat (drop n b64) in
      ((if brk then CRLF else []) ++ take n b64 ++ rest, column')
  | _, _ => ([], column)
  end.

Definition encoderWrap (e : B64Encoder) (carry : bytes) (b64 : jsstr) : jsstr * B64Encoder :=
  let '(out, column) := wrap (length b64) (e_lineLength e) (e_column e) b64 in (out, mkB64Encoder carry column (e_lineLength e)).

Definition encoderWrite (e : B64Encoder) (chunk : bytes) : jsstr * B64Encoder :=
  let data := e_carry e ++ chunk in
  let whole := (length data - length data mod 3)%nat in
  encoderWrap e (drop whole data) (base64_encode (take whole data)).

Definition encoderEnd (e : B64Encoder) : jsstr * B64Encoder := encoderWrap e [] (base64_encode (e_carry e)).

(** The output so far and the line being filled. *)
Record QpLine := mkQpLine { ql_out : jsstr; ql_line : jsstr }.

Section quoted.
Context (binary : bool) (max : nat).

Definition qpPush (token : jsstr) (l : QpLine) : QpLine :=
  if (max - 1 <? length (ql_line l) + length token)%nat then mkQpLine (ql_out l ++ ql_line l ++ [EQ] ++ CRLF) token
  else mkQpLine (ql_out l) (ql_line l ++ token).

Definition escapeOctet (c : Z) : jsstr := [EQ; hex_upper_digit (Z.shiftr c 4); hex_upper_digit (Z.land c 15)].

(** [c] and what follows it: at the end of a line? *)
Definition atLineEnd (rest : bytes) : bool :=
  match rest with [] => true | next :: _ => negb binary && ((next =? CR) || (next =? LF)) end.

Definition qpToken (c : Z) (rest : bytes) : jsstr :=
  if isWs c && negb (atLineEnd rest) then [c] else if (0x21 <=? c) && (c <=? 0x7e) && negb (c =? EQ) then [c] else escapeOctet c.

Definition hardBreak (l : QpLine) : QpLine := mkQpLine (ql_out l ++ ql_line l ++ CRLF) [].

Fixpoint encodeQp_loop (data : bytes) (l : QpLine) : QpLine :=
  match data with
  | [] => l
  | c :: rest =>
      if negb binary && (c =? LF) then encodeQp_loop rest (hardBreak l)
      else if negb binary && (c =? CR) then
        match rest with
        | d :: rest' => if d =? LF then encodeQp_loop rest' (hardBreak l) else encodeQp_loop rest (qpPush (qpToken c rest) l)
        | [] => encodeQp_loop rest (qpPush (qpToken c rest) l)
        end
      else encodeQp_loop rest (qpPush (qpToken c rest) l)
  end.

Definition encodeQuotedPrintable (data : bytes) : jsstr := let l := encodeQp_loop data (mkQpLine [] []) in ql_out l ++ ql_line l.
End quoted.

(** ** A body survives its transfer encoding, however it is cut *)

Lemma steps_app {S} (step : S -> Z -> bytes * S) s a b :
  steps step s (a ++ b) = let '(o1, s1) := steps step s a in let '(o2, s2) := steps step s1 b in (o1 ++ o2, s2).
Proof.
  revert s. induction a as [|c a IH]; intros s; cbn [app steps]; [by destruct (steps step s b)|]. destruct (step s c) as [o1 s1]. rewrite IH.
  destruct (steps step s1 a) as [o2 s2], (steps step s2 b) as [o3 s3]. by rewrite app_assoc.
Qed.

Lemma kept_all size out : (length out <= size)%nat -> kept size out = out.
Proof. apply take_ge. Qed.

(** ** The buffers are large enough *)

Lemma b64Step_room s c : (b_n s <= 3)%nat -> let '(o, s') := b64Step s c in (b_n s' <= 3 /\ 4 * length o + 3 * b_n s' <= 3 + 3 * b_n s)%nat.
Proof.
  intros Hn. unfold b64Step. destruct (B64 c) as [v|].
  - destruct (Nat.eqb_spec (S (b_n s)) 4); cbn; lia.
  - destruct (c =? EQ); [|by destruct (_ && _); cbn; lia]. unfold flushPartial. destruct (b_n s) as [|[|[|[|n]]]]; cbn; lia.
Qed.

Lemma b64_room s chunk : (b_n s <= 3)%nat -> let '(o, s') := steps b64Step s chunk in (b_n s' <= 3 /\ 4 * length o + 3 * b_n s' <= 3 * length chunk + 3 * b_n s)%nat.
Proof.
  revert s. induction chunk as [|c chunk IH]; intros s Hn; [cbn; lia|]. cbn [steps]. pose proof (b64Step_room s c Hn) as H1. destruct (b64Step s c) as [o1 s1]. destruct H1 as [Hn1 H1].
  specialize (IH s1 Hn1). destruct (steps b64Step s1 chunk) as [o2 s2]. rewrite length_app. cbn [length]. lia.
Qed.

(** Nothing is lost to the size of the buffer. *)
Lemma b64Write_steps s chunk : (b_n s <= 3)%nat -> b64Write s chunk = steps b64Step s chunk /\ (b_n (b64Write s chunk).2 <= 3)%nat.
Proof.
  intros Hn. unfold b64Write. pose proof (b64_room s chunk Hn) as Hr. destruct (steps b64Step s chunk) as [o s']. destruct Hr as [Hn' Hr]. split; [|done]. rewrite kept_all; [done|].
  assert ((3 * length chunk + 9) / 4 <= (length chunk * 3 + 3) / 4 + 3)%nat.
  { rewrite <- (Nat.div_add _ 3 4) by lia. apply Nat.Div0.div_le_mono. lia. }
  assert (length o <= (3 * length chunk + 9) / 4)%nat by (apply Nat.div_le_lower_bound; lia). lia.
Qed.

Definition pend (s : QpState) : nat := length (q_ws s) + (match q_state s with QpNormal | QpEqCr => 0 | QpEq | QpEqWs => 1 | QpEqHex => 2 end).

Lemma qpNormal_room s c : let '(o, s') := qpNormal s c in (length o + pend s' <= 1 + length (q_ws s))%nat.
Proof. unfold qpNormal. repeat case_match; simplify_eq; unfold pend; cbn; rewrite ?length_app; cbn; lia. Qed.

Lemma reprocess_room out s c : let '(o, s') := reprocess out s c in (length o + pend s' <= length out + 1 + length (q_ws s))%nat.
Proof. unfold reprocess. pose proof (qpNormal_room s c) as H. destruct (qpNormal s c) as [o s']. rewrite length_app. lia. Qed.

Lemma qpStep_room s c : let '(o, s') := qpStep s c in (length o + pend s' <= 1 + pend s)%nat.
Proof.
  unfold qpStep. destruct (q_state s) eqn:E; cbv zeta.
  - pose proof (qpNormal_room s c) as H. destruct (qpNormal s c). unfold pend in *. rewrite E. lia.
  - destruct (0 <=? hexValue c); [unfold pend; cbn; rewrite E; lia|]. destruct (c =? CR); [unfold pend; cbn; rewrite E; lia|]. destruct (c =? LF); [unfold pend; cbn; rewrite E; lia|].
    destruct (isWs c); [unfold pend; cbn; rewrite E, length_app; cbn; lia|]. match goal with |- context [reprocess ?o ?s ?c] => pose proof (reprocess_room o s c) as H; destruct (reprocess o s c) end. unfold pend in *. cbn in *. rewrite E. lia.
  - destruct (0 <=? hexValue c); [unfold pend; cbn; rewrite E; lia|].
    match goal with |- context [reprocess ?o ?s ?c] => pose proof (reprocess_room o s c) as H; destruct (reprocess o s c) end. unfold pend in *. cbn in *. rewrite E. lia.
  - destruct (isWs c); [destruct (_ <=? _)%nat; unfold pend; cbn; rewrite E, ?length_app; cbn; lia|]. destruct (c =? CR); [unfold pend; cbn; rewrite E; lia|]. destruct (c =? LF); [unfold pend; cbn; rewrite E; lia|].
    match goal with |- context [reprocess ?o ?s ?c] => pose proof (reprocess_room o s c) as H; destruct (reprocess o s c) end. unfold pend in *. cbn in *. rewrite E. lia.
  - destruct (c =? LF); [unfold pend; cbn; rewrite E; lia|]. match goal with |- context [qpNormal ?s ?c] => pose proof (qpNormal_room s c) as H; destruct (qpNormal s c) end. unfold pend in *. cbn in *. rewrite E. lia.
Qed.

Lemma qp_room s chunk : let '(o, s') := steps qpStep s chunk in (length o + pend s' <= length chunk + pend s)%nat.
Proof.
  revert s. induction chunk as [|c chunk IH]; intros s; [cbn; lia|]. cbn [steps]. pose proof (qpStep_room s c) as H1. destruct (qpStep s c) as [o1 s1].
  specialize (IH s1). destruct (steps qpStep s1 chunk) as [o2 s2]. rewrite length_app. cbn [length]. lia.
Qed.

Lemma qpWrite_steps s chunk : qpWrite s chunk = steps qpStep s chunk.
Proof.
  unfold qpWrite. pose proof (qp_room s chunk) as Hr. destruct (steps qpStep s chunk) as [o s']. rewrite kept_all; [done|]. unfold pend in Hr. destruct (q_state s); lia.
Qed.

(** ** Chunks *)

Lemma b64_chunks s chunks : (b_n s <= 3)%nat ->
  decodeChunks (DecBase64 s) chunks = let '(o1, s1) := steps b64Step s (concat chunks) in let '(o2, s2) := b64End s1 in (o1 ++ o2, DecBase64 s2).
Proof.
  revert s. induction chunks as [|c chunks IH]; intros s Hn; cbn [decodeChunks concat decWrite]; [cbn; by destruct (b64End s)|]. destruct (b64Write_steps s c Hn) as [E Hn']. rewrite E in *. rewrite steps_app.
  destruct (steps b64Step s c) as [o1 s1]. rewrite IH by done. destruct (steps b64Step s1 (concat chunks)) as [o2 s2], (b64End s2) as [o3 s3]. by rewrite app_assoc.
Qed.

Lemma qp_chunks s chunks : decodeChunks (DecQp s) chunks = let '(o1, s1) := steps qpStep s (concat chunks) in let '(o2, s2) := qpEnd s1 in (o1 ++ o2, DecQp s2).
Proof.
  revert s. induction chunks as [|c chunks IH]; intros s; cbn [decodeChunks concat decWrite]; [cbn; by destruct (qpEnd s)|]. rewrite qpWrite_steps, steps_app.
  destruct (steps qpStep s c) as [o1 s1]. rewrite IH. destruct (steps qpStep s1 (concat chunks)) as [o2 s2], (qpEnd s2) as [o3 s3]. by rewrite app_assoc.
Qed.

(** ** Base64 *)

Definition noBreak (c : Z) : Prop := c <> CR /\ c <> LF.
#[local] Instance noBreak_dec c : Decision (noBreak c).
Proof. unfold noBreak. apply _. Defined.

Lemma steps_skip s t : steps b64Step s t = steps b64Step s (filter noBreak t).
Proof.
  revert s. induction t as [|c t IH]; intros s; [done|]. rewrite filter_cons. case_decide as Hc.
  - cbn [steps]. destruct (b64Step s c) as [o1 s1]. by rewrite IH.
  - cbn [steps]. assert (b64Step s c = ([], s)) as ->; [|rewrite IH; by destruct (steps b64Step s (filter noBreak t))].
    assert (c = CR \/ c = LF) as [-> | ->] by (unfold noBreak in Hc; destruct (decide (c = CR)), (decide (c = LF)); tauto); done.
Qed.

Lemma b64_digit n : 0 <= n < 64 -> B64 (base64_digit n) = Some n.
Proof. intros Hn. destruct (base64_digit_ok n Hn) as [H1 H2]. unfold B64. by rewrite H1, H2. Qed.

Lemma acc_step acc v : 0 <= acc < 2 ^ 18 -> 0 <= v < 64 -> Z.land (Z.lor (Z.shiftl acc 6) v) 0xffffff = acc * 64 + v.
Proof.
  intros Ha Hv. rewrite shift_lor by (change (2 ^ 6) with 64; lia). change 0xffffff with (Z.ones 24). rewrite Z.land_ones by lia. change (2 ^ 6) with 64. apply Z.mod_small. change (2 ^ 24) with (64 * 2 ^ 18). lia.
Qed.

Lemma digit_step acc n bad v : 0 <= acc < 2 ^ 18 -> 0 <= v < 64 ->
  b64Step (mkB64 acc n bad) (base64_digit v) =
  if (S n =? 4)%nat then ([(acc * 64 + v) / 65536; (acc * 64 + v) / 256 mod 256; (acc * 64 + v) mod 256], mkB64 0 0 bad) else ([], mkB64 (acc * 64 + v) (S n) bad).
Proof.
  intros Ha Hv. unfold b64Step. rewrite b64_digit by done. cbn [b_acc b_n b_bad]. rewrite acc_step by done. change 0xff with (Z.ones 8). rewrite !Z.land_ones, !Z.shiftr_div_pow2 by lia. done.
Qed.

Lemma b64_decodes data : octets_ok data -> steps b64Step newB64 (base64_encode data) = (data, newB64).
Proof.
  revert data. apply (base64_encode_ind (fun b => octets_ok b -> _)).
  - done.
  - intros x Hx. rewrite Forall_cons in Hx. destruct Hx as [Hx _]. destruct (sextets x 0 0) as (A & B & _ & _ & E & _); [done|zlia|zlia|]. rewrite Z.div_0_l, Z.add_0_r in * by lia.
    unfold is_octet in Hx. cbn [base64_encode steps]. unfold newB64. rewrite digit_step by lia. cbn [Nat.eqb]. rewrite digit_step by lia. cbn [Nat.eqb].
    unfold b64Step at 1 2. cbn. f_equal. f_equal. change 255 with (Z.ones 8). rewrite Z.land_ones, Z.shiftr_div_pow2 by lia. change (2 ^ 4) with 16. change (2 ^ 8) with 256. dlia.
  - intros x y Hx. rewrite !Forall_cons in Hx. destruct Hx as (Hx & Hy & _). destruct (sextets x y 0) as (A & B & C & _ & E & F & _); [done|done|zlia|]. rewrite Z.div_0_l, Z.add_0_r in * by lia.
    unfold is_octet in Hx, Hy. cbn [base64_encode steps]. unfold newB64. rewrite digit_step by lia. cbn [Nat.eqb]. rewrite digit_step by lia. cbn [Nat.eqb]. rewrite digit_step by lia. cbn [Nat.eqb].
    unfold b64Step at 1. cbn. change 255 with (Z.ones 8). rewrite !Z.land_ones, !Z.shiftr_div_pow2 by lia. change (2 ^ 10) with 1024. change (2 ^ 2) with 4. change (2 ^ 8) with 256. f_equal. f_equal; [|f_equal]; dlia.
  - intros x y z b IH Hx. rewrite !Forall_cons in Hx. destruct Hx as (Hx & Hy & Hz & Hb). destruct (sextets x y z) as (A & B & C & D & _); [done..|].
    unfold is_octet in Hx, Hy, Hz. cbn [base64_encode steps]. unfold newB64 in *. rewrite digit_step by lia. cbn [Nat.eqb]. rewrite digit_step by lia. cbn [Nat.eqb]. rewrite digit_step by lia. cbn [Nat.eqb]. rewrite digit_step by lia. cbn [Nat.eqb].
    rewrite IH by done. cbn [app]. f_equal. f_equal; [|f_equal; [|f_equal]]; dlia.
Qed.

Lemma slices_concat fuel n s : (0 < n)%nat -> (length s <= fuel)%nat -> concat (slicesOf fuel n s) = s.
Proof.
  intros Hn. revert s. induction fuel as [|fuel IH]; intros s Hf; [destruct s; [done|cbn in Hf; lia]|]. destruct s as [|c s]; [done|]. cbn [slicesOf concat]. rewrite (IH (drop n (c :: s))); [by rewrite take_drop|]. rewrite length_drop. cbn [length] in *. lia.
Qed.

Lemma base64_noBreak data : octets_ok data -> Forall noBreak (base64_encode data).
Proof.
  intros Hd. destruct (base64_roundtrip data Hd) as [_ Ht]. eapply Forall_impl; [exact Ht|]. cbn. unfold noBreak, is_base64, isAlphaUpper, isAlphaLower, is_digit. intros c. zlia.
Qed.

Lemma filter_all s : Forall noBreak s -> filter noBreak s = s.
Proof. induction 1 as [|c s Hc _ IH]; [done|]. rewrite filter_cons, decide_True by done. by f_equal. Qed.

Lemma filter_join ps : filter noBreak (joinWith CRLF ps) = filter noBreak (concat ps).
Proof.
  induction ps as [|p ps IH]; [done|]. destruct (decide (ps = [])) as [->|Hn]; [cbn; by rewrite app_nil_r|]. rewrite joinWith_cons by done. cbn [concat]. rewrite !filter_app, IH. done.
Qed.

Lemma encodeBase64_filter data n : octets_ok data -> (0 < n)%nat -> filter noBreak (encodeBase64 data n) = base64_encode data.
Proof.
  intros Hd Hn. unfold encodeBase64. destruct (_ <=? _)%nat; [by apply filter_all, base64_noBreak|]. rewrite filter_join, slices_concat by done. by apply filter_all, base64_noBreak.
Qed.

(** ** Quoted-printable *)

(** After [text] the decoder is at rest, and [data] is what it has emitted and what it holds back. *)
Definition Decoded (text : jsstr) (data held : bytes) : Prop :=
  exists o s, steps qpStep newQp text = (o, s) /\ q_state s = QpNormal /\ q_bad s = false /\ q_ws s = held /\ o ++ held = data.

Lemma decoded_nil : Decoded [] [] [].
Proof. by exists [], newQp. Qed.

Lemma decoded_ws text data held c : Decoded text data held -> isWs c = true -> exists held', Decoded (text ++ [c]) (data ++ [c]) held'.
Proof.
  intros (o & s & E & H1 & H2 & H3 & H4) Hc. assert (Hs : qpStep s c = qpNormal s c) by (unfold qpStep; by rewrite H1). unfold qpNormal in Hs. rewrite Hc in Hs.
  destruct (_ <=? _)%nat; eexists; unfold Decoded; rewrite steps_app, E; cbn [steps]; rewrite Hs; eexists _, _; (split_and!; [done|done|done|done|]); cbn; rewrite <- H4, H3, ?app_nil_r, <- ?app_assoc; done.
Qed.

Lemma decoded_visible text data held c : Decoded text data held -> 0x21 <= c <= 0x7e -> c <> EQ -> Decoded (text ++ [c]) (data ++ [c]) [].
Proof.
  intros (o & s & E & H1 & H2 & H3 & H4) Hc He. unfold EQ in He. assert (Hs : qpStep s c = (q_ws s ++ [c], set_q QpNormal [] s)).
  { unfold qpStep, qpNormal, isWs, EQ. rewrite H1. replace ((c =? SP) || (c =? HTAB)) with false by zlia. replace ((c =? CR) || (c =? LF)) with false by zlia. by replace (c =? 0x3d) with false by lia. }
  unfold Decoded. rewrite steps_app, E. cbn [steps]. rewrite Hs. eexists _, _. split_and!; [done|done|done|done|]. rewrite <- H4, H3. by rewrite !app_nil_r, app_assoc.
Qed.

(** The equals sign first lets go of what was held back. *)
Lemma steps_eq text data held rest : Decoded text data held ->
  exists s, q_state s = QpEq /\ q_bad s = false /\ q_ws s = [] /\ steps qpStep newQp (text ++ EQ :: rest) = let '(o, s') := steps qpStep s rest in (data ++ o, s').
Proof.
  intros (o & s & E & H1 & H2 & H3 & H4). exists (set_q QpEq [] s). split_and!; [done|done|done|]. rewrite steps_app, E. cbn [steps]. assert (qpStep s EQ = (q_ws s, set_q QpEq [] s)) as -> by (unfold qpStep; by rewrite H1).
  destruct (steps qpStep _ rest) as [o2 s2]. by rewrite H3, app_assoc, H4.
Qed.

Lemma decoded_soft text data held : Decoded text data held -> Decoded (text ++ [EQ] ++ CRLF) data [].
Proof.
  intros Hd. destruct (steps_eq text data held CRLF Hd) as (s & H1 & H2 & H3 & E). unfold Decoded. change ([EQ] ++ CRLF) with (EQ :: CRLF). rewrite E. unfold CRLF. cbn [steps].
  assert (qpStep s CR = ([], set_q QpEqCr (q_ws s) s)) as -> by (unfold qpStep; by rewrite H1). cbn. eexists _, _. split_and!; [done|done|done|done|]. by rewrite !app_nil_r.
Qed.

Lemma hexValue_digit d : 0 <= d < 16 -> hexValue (hex_upper_digit d) = d.
Proof.
  intros Hd. assert (Hall : forallb (fun d => hexValue (hex_upper_digit d) =? d) (seqZ 0 16) = true) by (by vm_compute).
  rewrite forallb_Forall, Forall_forall in Hall. apply Z.eqb_eq, Hall, elem_of_seqZ. lia.
Qed.

Lemma decoded_escape text data held c : Decoded text data held -> is_octet c -> Decoded (text ++ escapeOctet c) (data ++ [c]) [].
Proof.
  intros Hd Hc. unfold escapeOctet. destruct (steps_eq text data held [hex_upper_digit (Z.shiftr c 4); hex_upper_digit (Z.land c 15)] Hd) as (s & H1 & H2 & H3 & E). unfold Decoded. rewrite E.
  change 15 with (Z.ones 4). rewrite Z.land_ones, Z.shiftr_div_pow2 by lia. change (2 ^ 4) with 16. unfold is_octet in Hc. assert (Hh : hexValue (hex_upper_digit (c / 16)) = c / 16) by (apply hexValue_digit; dlia).
  assert (Hl : hexValue (hex_upper_digit (c mod 16)) = c mod 16) by (apply hexValue_digit; dlia). cbn [steps].
  assert (qpStep s (hex_upper_digit (c / 16)) = ([], mkQp QpEqHex (c / 16) (hex_upper_digit (c / 16)) [] false)) as ->.
  { unfold qpStep. rewrite H1, Hh, H2, H3. by replace (0 <=? c / 16) with true by dlia. }
  assert (qpStep (mkQp QpEqHex (c / 16) (hex_upper_digit (c / 16)) [] false) (hex_upper_digit (c mod 16)) = ([c], mkQp QpNormal (c / 16) (hex_upper_digit (c / 16)) [] false)) as ->.
  { unfold qpStep. cbn [q_state q_hex q_ws]. rewrite Hl. replace (0 <=? c mod 16) with true by dlia. rewrite shift_lor by (change (2 ^ 4) with 16; dlia). unfold set_q. cbn. do 2 f_equal. dlia. }
  eexists _, _. split_and!; [done|done|done|done|]. cbn. by rewrite app_nil_r.
Qed.

Lemma decoded_break text data : Decoded text data [] -> Decoded (text ++ CRLF) (data ++ CRLF) [].
Proof.
  intros (o & s & E & H1 & H2 & H3 & H4). unfold Decoded. rewrite steps_app, E. unfold CRLF. cbn [steps].
  assert (qpStep s CR = ([CR], set_q QpNormal [] s)) as -> by (unfold qpStep; by rewrite H1). cbn. eexists _, _. split_and!; [done|done|done|done|]. rewrite app_nil_r in *. by rewrite H4.
Qed.

Section quoted.
Context (binary : bool) (max : nat).

(** What the decoder gives back: without [binary] every line break is CRLF. *)
Fixpoint breaks (data : bytes) : bytes :=
  match data with
  | [] => []
  | c :: rest =>
      if c =? LF then CRLF ++ breaks rest
      else if c =? CR then match rest with d :: rest' => if d =? LF then CRLF ++ breaks rest' else c :: breaks rest | [] => [c] end
      else c :: breaks rest
  end.
Definition canonical (data : bytes) : bytes := if binary then data else breaks data.

Definition text (l : QpLine) : jsstr := ql_out l ++ ql_line l.

Lemma push_decoded token l data held : Decoded (text l) data held -> exists held', Decoded (ql_out (qpPush max token l) ++ take (length (ql_line (qpPush max token l)) - length token) (ql_line (qpPush max token l))) data held' /\
  text (qpPush max token l) = (ql_out (qpPush max token l) ++ take (length (ql_line (qpPush max token l)) - length token) (ql_line (qpPush max token l))) ++ token.
Proof.
  intros Hd. unfold qpPush. destruct (_ <? _)%nat; cbn [ql_out ql_line]; unfold text; cbn [ql_out ql_line].
  - rewrite Nat.sub_diag. cbn [take]. exists []. rewrite app_nil_r. split; [|done]. rewrite (app_assoc (ql_out l)). by apply decoded_soft with held.
  - rewrite length_app, Nat.add_sub, take_app_length. exists held. split; [done|]. by rewrite app_assoc.
Qed.

Lemma token_decoded c rest l data held : Decoded (text l) data held -> is_octet c ->
  exists held', Decoded (text (qpPush max (qpToken binary c rest) l)) (data ++ [c]) held' /\ (held' <> [] -> atLineEnd binary rest = false).
Proof.
  intros Hd Hc. destruct (push_decoded (qpToken binary c rest) l data held Hd) as (h & Hp & ->). set (t := ql_out _ ++ _) in *. clearbody t. unfold qpToken.
  destruct (isWs c && negb (atLineEnd binary rest)) eqn:E.
  - apply andb_prop in E as [E1 E2]. destruct (decoded_ws t data h c Hp E1) as [h' Hh]. exists h'. split; [done|]. intros _. by apply negb_true_iff.
  - exists []. split; [|done]. destruct ((0x21 <=? c) && (c <=? 0x7e) && negb (c =? EQ)) eqn:Ev; [|by eapply decoded_escape]. apply andb_prop in Ev as [Ev Eq]. apply andb_prop in Ev as [Ev1 Ev2]. eapply decoded_visible; [done|lia|]. apply negb_true_iff, Z.eqb_neq in Eq. done.
Qed.

Lemma canonical_cons_binary c rest : binary = true -> canonical (c :: rest) = c :: canonical rest.
Proof. intros Hb. unfold canonical. by rewrite Hb. Qed.

Lemma encode_decoded data l done held : octets_ok data -> Decoded (text l) done held -> (held <> [] -> atLineEnd binary data = false) -> Decoded (text (encodeQp_loop binary max data l)) (done ++ canonical data) [].
Proof.
  revert l done held. induction (Nat.lt_wf_0_projected length data) as [data _ IH]. intros l done held Ho Hd Hh. destruct data as [|c rest].
  - assert (held = []) as -> by (destruct held; [done|]; by specialize (Hh ltac:(done))). cbn. unfold canonical. destruct binary; cbn; by rewrite app_nil_r.
  - apply Forall_cons in Ho as [Hc Ho]. cbn [encodeQp_loop].
    assert (Htok : canonical (c :: rest) = c :: canonical rest -> Decoded (text (encodeQp_loop binary max rest (qpPush max (qpToken binary c rest) l))) (done ++ canonical (c :: rest)) []).
    { intros ->. destruct (token_decoded c rest l done held Hd Hc) as (h & Hp & He). change (c :: canonical rest) with ([c] ++ canonical rest). rewrite app_assoc. eapply IH; [cbn; lia|done|exact Hp|done]. }
    assert (Hbreak : forall rest', (length rest' < length (c :: rest))%nat -> octets_ok rest' -> atLineEnd binary (c :: rest) = true -> Decoded (text (encodeQp_loop binary max rest' (hardBreak l))) (done ++ CRLF ++ canonical rest') []).
    { intros rest' Hlen Ho' He. assert (held = []) as -> by (destruct held; [done|]; by rewrite Hh in He). rewrite app_assoc. eapply IH; [done|done| |done].
      unfold hardBreak, text. cbn [ql_out ql_line]. rewrite app_nil_r, app_assoc. by apply decoded_break. }
    unfold canonical in *. destruct binary; cbn [negb andb]; [by apply Htok|]. destruct (Z.eqb_spec c LF) as [->|Hlf].
    + cbn [breaks]. change (LF =? LF) with true. cbv iota. apply Hbreak; [cbn; lia|done|done].
    + destruct (Z.eqb_spec c CR) as [->|Hcr].
      * destruct rest as [|d rest'].
        -- apply Htok. done.
        -- destruct (d =? LF) eqn:Ed.
           ++ cbn [breaks]. change (CR =? LF) with false. change (CR =? CR) with true. rewrite Ed. cbv iota. apply Forall_cons in Ho as [_ Ho]. apply Hbreak; [cbn; lia|done|done].
           ++ apply Htok. cbn [breaks]. change (CR =? LF) with false. change (CR =? CR) with true. by rewrite Ed.
      * apply Htok. cbn [breaks]. rewrite (proj2 (Z.eqb_neq c LF)), (proj2 (Z.eqb_neq c CR)) by done. done.
Qed.
End quoted.

(** C29: What is encoded in base64 (lines of any length) or in quoted-printable is decoded to the same octets,
    however the encoded text is cut into chunks, and is never flagged as malformed; a text (not binary) in
    quoted-printable comes back with its line breaks as CRLF. No octet is lost to the size of an output buffer. *)
Theorem transfer_roundtrip data chunks : octets_ok data ->
  (forall lineLength, (0 < lineLength)%nat -> concat chunks = encodeBase64 data lineLength ->
     let '(out, d) := decodeChunks (createTransferDecoder (js "base64")) chunks in out = data /\ malformed d = false) /\
  (forall binary lineLength, concat chunks = encodeQuotedPrintable binary lineLength data ->
     let '(out, d) := decodeChunks (createTransferDecoder (js "quoted-printable")) chunks in out = canonical binary data /\ malformed d = false).
Proof.
  intros Ho. split.
  - intros n Hn E. change (createTransferDecoder (js "base64")) with (DecBase64 newB64). rewrite b64_chunks by (cbn; lia). rewrite E, steps_skip, encodeBase64_filter, b64_decodes by done. cbn. by rewrite app_nil_r.
  - intros binary max E. change (createTransferDecoder (js "quoted-printable")) with (DecQp newQp). rewrite qp_chunks, E. unfold encodeQuotedPrintable. cbv zeta.
    destruct (encode_decoded binary max data (mkQpLine [] []) [] []) as (o & s & Es & H1 & H2 & H3 & H4); [done|apply decoded_nil|done|]. unfold text in Es. rewrite Es. cbn [app] in H4. rewrite app_nil_r in H4.
    unfold qpEnd. rewrite H1. cbn. rewrite app_nil_r. by split.
Qed.

Lemma transfer_roundtrip_witness :
  let data := js "Hello = w" ++ [HTAB; LF; CR; LF; 200] ++ js " x " in
  let wire := encodeQuotedPrintable false 12 data in
  (forall lineLength, (0 < lineLength)%nat -> concat [take 7 wire; drop 7 wire] = encodeBase64 data lineLength ->
     let '(out, d) := decodeChunks (createTransferDecoder (js "base64")) [take 7 wire; drop 7 wire] in out = data /\ malformed d = false) /\
  (forall binary lineLength, concat [take 7 wire; drop 7 wire] = encodeQuotedPrintable binary lineLength data ->
     let '(out, d) := decodeChunks (createTransferDecoder (js "quoted-printable")) [take 7 wire; drop 7 wire] in out = canonical binary data /\ malformed d = false).
Proof.
  cbv zeta. apply (transfer_roundtrip (js "Hello = w" ++ [HTAB; LF; CR; LF; 200] ++ js " x ")
    [take 7 (encodeQuotedPrintable false 12 (js "Hello = w" ++ [HTAB; LF; CR; LF; 200] ++ js " x ")); drop 7 (encodeQuotedPrintable false 12 (js "Hello = w" ++ [HTAB; LF; CR; LF; 200] ++ js " x "))]).
  assert (Hf : forallb (fun c => (0 <=? c) && (c <? 256)) (js "Hello = w" ++ [HTAB; LF; CR; LF; 200] ++ js " x ") = true) by (by vm_compute).
  apply forallb_Forall in Hf. eapply Forall_impl; [exact Hf|]. cbn. unfold is_octet. intros c. lia.
Defined.

(** ** The streaming encoder *)

(** A line break before every character that finds its line full. *)
Fixpoint ins (L column : nat) (s : jsstr) : jsstr * nat :=
  match s with
  | [] => ([], column)
  | c :: s => if (column =? L)%nat then let '(r, k) := ins L 1 s in (CRLF ++ c :: r, k) else let '(r, k) := ins L (S column) s in (c :: r, k)
  end.

Lemma ins_app L column a b : ins L column (a ++ b) = let '(r1, k1) := ins L column a in let '(r2, k2) := ins L k1 b in (r1 ++ r2, k2).
Proof.
  revert column. induction a as [|c a IH]; intros column; cbn [app ins]; [by destruct (ins L column b)|].
  destruct (column =? L)%nat; rewrite IH; (destruct (ins L _ a) as [r1 k1]; destruct (ins L k1 b) as [r2 k2]; done).
Qed.

Lemma ins_line L column s : (column + length s <= L)%nat -> ins L column s = (s, (column + length s)%nat).
Proof.
  revert column. induction s as [|c s IH]; intros column Hl; cbn [ins length] in *; [by rewrite Nat.add_0_r|]. destruct (Nat.eqb_spec column L); [lia|]. rewrite IH by lia. f_equal. lia.
Qed.

Lemma ins_full L s : (0 < L)%nat -> s <> [] -> ins L L s = let '(r, k) := ins L 0 s in (CRLF ++ r, k).
Proof. intros HL Hs. destruct s as [|c s]; [done|]. cbn [ins]. rewrite Nat.eqb_refl. destruct (Nat.eqb_spec 0 L); [lia|]. by destruct (ins L 1 s). Qed.

Lemma wrap_ins fuel L column s : (0 < L)%nat -> (column <= L)%nat -> (length s <= fuel)%nat -> wrap fuel L column s = ins L column s.
Proof.
  intros HL. revert column s. induction fuel as [|fuel IH]; intros column s Hc Hf; [destruct s; [done|cbn in Hf; lia]|]. destruct s as [|c s]; [done|].
  cbn [wrap]. set (s1 := c :: s) in *. set (col := if (column =? L)%nat then 0%nat else column). set (n := ((L - col) `min` length s1)%nat).
  assert (Hcol : (col < L)%nat) by (unfold col; destruct (Nat.eqb_spec column L); lia). assert (Hn : (0 < n)%nat) by (unfold n, s1; cbn [length]; lia).
  rewrite IH; [|unfold n; lia|rewrite length_drop; unfold s1 in *; cbn [length] in *; lia].
  assert (Hins : ins L col s1 = let '(r, k) := ins L (col + n) (drop n s1) in (take n s1 ++ r, k)).
  { rewrite <- (take_drop n s1) at 1. rewrite ins_app, ins_line by (rewrite length_take; unfold n; lia). rewrite length_take, Nat.min_l by (unfold n; lia). done. }
  destruct (ins L (col + n) (drop n s1)) as [r k]. unfold col in *. destruct (Nat.eqb_spec column L) as [->|]; [|by rewrite Hins]. by rewrite ins_full, Hins.
Qed.

Lemma slices_ins L fuel s : (0 < L)%nat -> (length s <= fuel)%nat -> joinWith CRLF (slicesOf fuel L s) = (ins L 0 s).1.
Proof.
  intros HL. revert s. induction fuel as [|fuel IH]; intros s Hf; [destruct s; [done|cbn in Hf; lia]|]. destruct s as [|c s]; [done|]. cbn [slicesOf]. set (s1 := c :: s) in *.
  assert (Hlen : (length (drop L s1) <= fuel)%nat) by (rewrite length_drop; unfold s1 in *; cbn [length] in *; lia). specialize (IH (drop L s1) Hlen).
  destruct (decide (length s1 <= L)%nat) as [Hs|Hs].
  - rewrite ins_line by lia. rewrite (take_ge s1), (drop_ge s1) by lia. by destruct fuel; cbn.
  - rewrite <- (take_drop L s1) at 3. rewrite ins_app, ins_line by (rewrite length_take; lia). rewrite length_take, Nat.min_l by lia. cbn [Nat.add].
    assert (Hd : drop L s1 <> []) by (intros Hd; apply (f_equal length) in Hd; rewrite length_drop in Hd; change (length (@nil Z)) with 0%nat in Hd; lia). rewrite ins_full by done.
    assert (Hne : slicesOf fuel L (drop L s1) <> []) by (destruct (drop L s1); [done|]; by destruct fuel; [cbn in Hlen; lia|]). rewrite joinWith_cons by done. rewrite IH. by destruct (ins L 0 (drop L s1)).
Qed.

Lemma encodeBase64_ins data L : (0 < L)%nat -> encodeBase64 data L = (ins L 0 (base64_encode data)).1.
Proof. intros HL. unfold encodeBase64. destruct (Nat.leb_spec (length (base64_encode data)) L); [by rewrite ins_line by lia|]. by apply slices_ins. Qed.

Lemma base64_encode_app a b : (length a mod 3 = 0)%nat -> base64_encode (a ++ b) = base64_encode a ++ base64_encode b.
Proof.
  revert a. apply (base64_encode_ind (fun a => (length a mod 3 = 0)%nat -> _)); [done|done|done|]. intros x y z a IH Ha. cbn [app base64_encode]. rewrite IH; [done|].
  cbn [length] in Ha. change (S (S (S (length a)))) with (1 * 3 + length a)%nat in Ha. by rewrite Nat.add_comm, Nat.Div0.mod_add in Ha.
Qed.

Fixpoint encodeChunks (e : B64Encoder) (chunks : list bytes) : jsstr :=
  match chunks with [] => (encoderEnd e).1 | c :: chunks => let '(o, e) := encoderWrite e c in o ++ encodeChunks e chunks end.

Lemma ins_column L column s : (0 < L)%nat -> (column <= L)%nat -> ((ins L column s).2 <= L)%nat.
Proof.
  intros HL. revert column. induction s as [|c s IH]; intros column Hc; [done|]. cbn [ins]. destruct (Nat.eqb_spec column L).
  - specialize (IH 1%nat ltac:(lia)). by destruct (ins L 1 s).
  - specialize (IH (S column) ltac:(lia)). by destruct (ins L (S column) s).
Qed.

Lemma encodeChunks_ins e chunks : (0 < e_lineLength e)%nat -> (e_column e <= e_lineLength e)%nat ->
  encodeChunks e chunks = (ins (e_lineLength e) (e_column e) (base64_encode (e_carry e ++ concat chunks))).1.
Proof.
  revert e. induction chunks as [|c chunks IH]; intros e HL Hc; cbn [encodeChunks concat].
  - unfold encoderEnd, encoderWrap. rewrite app_nil_r, wrap_ins by done. by destruct (ins _ _ _).
  - unfold encoderWrite, encoderWrap. set (data := e_carry e ++ c). set (whole := (length data - length data mod 3)%nat). rewrite wrap_ins by done.
    pose proof (ins_column (e_lineLength e) (e_column e) (base64_encode (take whole data)) HL Hc) as Hcol. destruct (ins (e_lineLength e) (e_column e) (base64_encode (take whole data))) as [o k] eqn:E.
    assert (Hsplit : base64_encode (data ++ concat chunks) = base64_encode (take whole data) ++ base64_encode (drop whole data ++ concat chunks)).
    { rewrite <- base64_encode_app; [by rewrite app_assoc, take_drop|]. rewrite length_take, Nat.min_l by (unfold whole; lia). unfold whole. pose proof (Nat.div_mod_eq (length data) 3).
      replace (length data - length data mod 3)%nat with (length data / 3 * 3)%nat by lia. apply Nat.Div0.mod_mul. }
    rewrite IH by done. cbn [e_carry e_column e_lineLength]. rewrite (app_assoc (e_carry e)). fold data. rewrite Hsplit, ins_app, E. by destruct (ins _ k _).
Qed.

(** The streaming encoder writes what the encoder of the whole writes with the line length rounded down to a multiple of 4. *)
Theorem base64_encoder_streams lineLength chunks : (4 <= lineLength)%nat ->
  encodeChunks (newB64Encoder lineLength) chunks = encodeBase64 (concat chunks) (lineLength - lineLength mod 4).
Proof.
  intros HL. pose proof (Nat.mod_upper_bound lineLength 4 ltac:(lia)) as Hm. assert (0 < lineLength - lineLength mod 4)%nat.
  { destruct (decide (lineLength = 4%nat)) as [->|]; [cbn; lia|]. lia. }
  rewrite encodeChunks_ins, encodeBase64_ins by (cbn; lia). done.
Qed.

