(* ===== verification/SieveSyntax.v ===== *)
(** * SieveSyntax: syntax trees, errors, lexer and printer of Sieve
    ([sieve/src/ast.ts], [errors.ts], [lexer.ts] and [printer.ts])

    The lexer's state is the text that is left with the line and column of its first character. A thrown
    [SieveSyntaxError] is [Throw]; [Stuck] is a recursion that ran out of fuel, which never happens. *)
From S2P Require Import Prelude JsString JsStringFacts.

(** ** errors.ts *)

Record SourcePos := mkPos { pos_line : Z; pos_column : Z }.

Inductive SyntaxErrorCode :=
  | TooLarge | BadChar | UnterminatedString | UnterminatedComment | UnterminatedText | BadNumber | StringTooLong | ListTooLong | TooDeep
  | UnexpectedToken | UnknownCommand | UnknownTest | UnknownExtension | NotRequired | RequirePosition | BadArguments | BadValue | OrphanElse.

Record SieveSyntaxError := mkSyntaxError { se_code : SyntaxErrorCode; se_detail : jsstr; se_pos : SourcePos }.

Inductive Result (A : Type) := Ok (a : A) | Throw (e : SieveSyntaxError) | Stuck.
Arguments Ok {A} a.
Arguments Throw {A} e.
Arguments Stuck {A}.

#[export] Instance Result_ret : MRet Result := fun A a => Ok a.
#[export] Instance Result_bind : MBind Result := fun A B f m => match m with Ok a => f a | Throw e => Throw e | Stuck => Stuck end.

Definition syntaxError {A} (code : SyntaxErrorCode) (detail : jsstr) (pos : SourcePos) : Result A := Throw (mkSyntaxError code detail pos).

(** The call ends, and what it gives satisfies [P]. *)
Definition Good {A} (r : Result A) (P : A -> Prop) : Prop := match r with Ok a => P a | Throw _ => True | Stuck => False end.

Lemma good_bind {A B} (r : Result A) (f : A -> Result B) (P : A -> Prop) (Q : B -> Prop) : Good r P -> (forall a, P a -> Good (f a) Q) -> Good (r ≫= f) Q.
Proof. destruct r; cbn; auto. Qed.

Lemma good_weaken {A} (r : Result A) (P Q : A -> Prop) : Good r P -> (forall a, P a -> Q a) -> Good r Q.
Proof. destruct r; cbn; auto. Qed.

(** ** ast.ts *)

Inductive Argument :=
  | ATag (name : jsstr) (pos : SourcePos)
  | ANumber (value : Z) (pos : SourcePos)
  | AString (value : jsstr) (multiline : bool) (pos : SourcePos)
  | AList (vs : list jsstr) (pos : SourcePos).

Inductive TestNode := mkTest (name : jsstr) (args : list Argument) (tests : list TestNode) (testList : bool) (pos : SourcePos).

Inductive CommandNode := mkCommand (name : jsstr) (args : list Argument) (tests : list TestNode) (testList : bool) (block : option (list CommandNode)) (pos : SourcePos).

Definition ScriptNode : Type := list CommandNode.

Definition argPos (a : Argument) : SourcePos := match a with ATag _ p | ANumber _ p | AString _ _ p | AList _ p => p end.

Definition t_name (t : TestNode) : jsstr := let '(mkTest n _ _ _ _) := t in n.
Definition t_args (t : TestNode) : list Argument := let '(mkTest _ a _ _ _) := t in a.
Definition t_tests (t : TestNode) : list TestNode := let '(mkTest _ _ ts _ _) := t in ts.
Definition t_testList (t : TestNode) : bool := let '(mkTest _ _ _ l _) := t in l.
Definition t_pos (t : TestNode) : SourcePos := let '(mkTest _ _ _ _ p) := t in p.

Definition c_name (c : CommandNode) : jsstr := let '(mkCommand n _ _ _ _ _) := c in n.
Definition c_args (c : CommandNode) : list Argument := let '(mkCommand _ a _ _ _ _) := c in a.
Definition c_tests (c : CommandNode) : list TestNode := let '(mkCommand _ _ ts _ _ _) := c in ts.
Definition c_testList (c : CommandNode) : bool := let '(mkCommand _ _ _ l _ _) := c in l.
Definition c_block (c : CommandNode) : option (list CommandNode) := let '(mkCommand _ _ _ _ b _) := c in b.
Definition c_pos (c : CommandNode) : SourcePos := let '(mkCommand _ _ _ _ _ p) := c in p.

(** ** lexer.ts *)

Inductive TokenKind := TIdentifier | TTag | TNumber | TString | TSpecial (c : Z) | TEof.
#[export] Instance TokenKind_eq_dec : EqDecision TokenKind.
Proof. solve_decision. Defined.

Record Token := mkToken { tok_kind : TokenKind; tok_text : jsstr; tok_number : Z; tok_multiline : bool; tok_pos : SourcePos }.

Record Lexer := mkLexer { lx_src : jsstr; lx_line : Z; lx_col : Z }.

Definition lexerPos (l : Lexer) : SourcePos := mkPos (lx_line l) (lx_col l).

Definition sieveSpecials : jsstr := js "[](){},;".
Definition isSieveSpecial (c : Z) : bool := includesChar c sieveSpecials.

Definition inQuotes (s : jsstr) : jsstr := [0x22] ++ s ++ [0x22].

Definition isAlpha (c : Z) : bool := ((0x41 <=? c) && (c <=? 0x5a)) || ((0x61 <=? c) && (c <=? 0x7a)) || (c =? 0x5f).

Definition advance (l : Lexer) : Lexer :=
  match lx_src l with
  | [] => l
  | c :: src => if c =? 0x0a then mkLexer src (lx_line l + 1) 1 else mkLexer src (lx_line l) (lx_col l + 1)
  end.

Fixpoint advanceN (n : nat) (l : Lexer) : Lexer := match n with O => l | S n => advanceN n (advance l) end.

(** [s.indexOf(p)], as the number of characters before it. *)
Fixpoint find2 (p : jsstr) (s : jsstr) : option nat :=
  if startsWith p s then Some O else match s with [] => None | _ :: s => S <$> find2 p s end.

Definition notLf (c : Z) : bool := negb (c =? 0x0a).

Fixpoint skipTrivia (fuel : nat) (l : Lexer) : Result Lexer :=
  match fuel with
  | O => Stuck
  | S fuel =>
      match lx_src l with
      | [] => Ok l
      | c :: rest =>
          if (c =? 0x20) || (c =? 0x09) || (c =? 0x0d) || (c =? 0x0a) then skipTrivia fuel (advance l)
          else if c =? 0x23 then skipTrivia fuel (advanceN (length (takeWhile notLf (lx_src l))) l)
          else if (c =? 0x2f) && bool_decide (head rest = Some 0x2a) then
            let l2 := advanceN 2 l in
            match find2 (js "*/") (lx_src l2) with
            | None => syntaxError UnterminatedComment (js "unterminated /* comment") (lexerPos l)
            | Some n => skipTrivia fuel (advanceN (n + 2) l2)
            end
          else Ok l
      end
  end.

Section lexer.
Context `{R : Runtime} (maxStringLength : Z).

(** [toLowerCase] of ASCII letters. *)
Definition identifier (l : Lexer) : jsstr * Lexer :=
  let name := takeWhile (fun c => isAlpha c || is_digit c) (lx_src l) in
  (lower_char <$> name, advanceN (length name) l).

Definition MAX_SAFE_INTEGER : Z := 2 ^ 53 - 1.

Definition QUANTIFIER (key : jsstr) : option Z :=
  if bool_decide (key = js "k") then Some 1024 else if bool_decide (key = js "m") then Some (1024 * 1024)
  else if bool_decide (key = js "g") then Some (1024 * 1024 * 1024) else None.

Fixpoint digitsLoop (digits : jsstr) (value : Z) (pos : SourcePos) : Result Z :=
  match digits with
  | [] => Ok value
  | c :: digits =>
      let value := value * 10 + (c - 0x30) in
      if MAX_SAFE_INTEGER <? value then syntaxError BadNumber (js "number is too large") pos else digitsLoop digits value pos
  end.

Definition numberToken (l : Lexer) (pos : SourcePos) : Result (Token * Lexer) :=
  let digits := takeWhile is_digit (lx_src l) in
  value ← digitsLoop digits 0 pos;
  let l := advanceN (length digits) l in
  match QUANTIFIER (toLowerCase (take 1 (lx_src l))) with
  | Some q =>
      let value := value * q in
      let l := advance l in
      if MAX_SAFE_INTEGER <? value then syntaxError BadNumber (js "number is too large") pos else Ok (mkToken TNumber (dec value) value false pos, l)
  | None => Ok (mkToken TNumber (dec value) value false pos, l)
  end.

Definition checkLength (length : Z) (pos : SourcePos) : Result unit :=
  if maxStringLength <? length then syntaxError StringTooLong (js "string is longer than " ++ dec maxStringLength ++ js " characters") pos else Ok tt.

Definition unterminatedString {A} (pos : SourcePos) : Result A := syntaxError UnterminatedString (js "unterminated quoted string") pos.
Definition nulInString {A} (pos : SourcePos) : Result A := syntaxError BadChar (js "NUL is not allowed in a string") pos.

(** After the opening quote: [value] has been read, [length] units of it. *)
Fixpoint quotedLoop (fuel : nat) (l : Lexer) (value : jsstr) (length : Z) (pos : SourcePos) : Result (jsstr * Lexer) :=
  match fuel with
  | O => Stuck
  | S fuel =>
      match lx_src l with
      | [] => unterminatedString pos
      | c :: rest =>
          if c =? 0x22 then Ok (value, advance l)
          else if c =? 0x00 then nulInString (lexerPos l)
          else if c =? 0x5c then
            let l := advance l in
            match lx_src l with
            | [] => unterminatedString pos
            | d :: _ => if d =? 0x00 then nulInString (lexerPos l) else quotedLoop fuel (advance l) (value ++ [d]) (length + 1) pos
            end
          else
            let length := length + 1 in
            _ ← checkLength length pos;
            quotedLoop fuel (advance l) (value ++ [c]) length pos
      end
  end.

Definition quoted (l : Lexer) (pos : SourcePos) : Result (Token * Lexer) :=
  let l := advance l in
  '(value, l) ← quotedLoop (S (length (lx_src l))) l [] 0 pos;
  _ ← checkLength (Z.of_nat (length value)) pos;
  Ok (mkToken TString value 0 false pos, l).

Definition unterminatedText {A} (pos : SourcePos) : Result A := syntaxError UnterminatedText (js "unterminated text: string (missing " ++ inQuotes (js ".") ++ js " line)") pos.

Fixpoint textLines (fuel : nat) (l : Lexer) (value : jsstr) (length_ : Z) (pos : SourcePos) : Result (jsstr * Lexer) :=
  match fuel with
  | O => Stuck
  | S fuel =>
      match lx_src l with
      | [] => unterminatedText pos
      | _ =>
          let nl := indexOf 0x0a (lx_src l) in
          let end_ := default (length (lx_src l)) nl in
          let line := take end_ (lx_src l) in
          let line := if bool_decide (last line = Some 0x0d) then take (length line - 1) line else line in
          if includesChar 0 line then nulInString (lexerPos l)
          else
            let l := match nl with None => mkLexer [] (lx_line l) 1 | Some n => mkLexer (drop (n + 1) (lx_src l)) (lx_line l + 1) 1 end in
            if bool_decide (line = [DOT]) then Ok (value, l)
            else
              match nl with
              | None => unterminatedText pos
              | Some _ =>
                  let line := if startsWith [DOT] line then drop 1 line else line in
                  let length_ := length_ + (Z.of_nat (length line) + 2) in
                  _ ← checkLength length_ pos;
                  textLines fuel l (value ++ line ++ CRLF) length_ pos
              end
      end
  end.

Definition multiline (l : Lexer) (pos : SourcePos) : Result (Token * Lexer) :=
  let l := advanceN (length (takeWhile (fun c => (c =? 0x20) || (c =? 0x09)) (lx_src l))) l in
  l ← match lx_src l with
      | c :: rest =>
          if c =? 0x23 then Ok (advanceN (length (takeWhile notLf (lx_src l))) l)
          else if (c =? 0x0d) && bool_decide (head rest = Some 0x0a) then Ok (advance l)
          else if negb (c =? 0x0a) then syntaxError UnexpectedToken (js "expected a line break after " ++ inQuotes (js "text:")) (lexerPos l)
          else Ok l
      | [] => syntaxError UnexpectedToken (js "expected a line break after " ++ inQuotes (js "text:")) (lexerPos l)
      end;
  match lx_src l with
  | [] => unterminatedText pos
  | _ =>
      let l := advance l in
      '(value, l) ← textLines (S (length (lx_src l))) l [] 0 pos;
      Ok (mkToken TString value 0 true pos, l)
  end.
(** [JSON.stringify] of the character at the start. *)
Definition shownChar (s : jsstr) : jsstr :=
  match s with
  | [] => []
  | c :: rest =>
      inQuotes
        (if c =? 0x5c then [0x5c; 0x5c]
         else if is_high c then match rest with d :: _ => if is_low d then [c; d] else [0x5c; 0x75] ++ toString16 c | [] => [0x5c; 0x75] ++ toString16 c end
         else if is_low c then [0x5c; 0x75] ++ toString16 c else [c])
  end.

(** [c.toString(16).toUpperCase().padStart(4, '0')] of a control character. *)
Definition hex4 (c : Z) : jsstr := [0x30; 0x30; hex_upper_digit (c / 16); hex_upper_digit (c mod 16)].

Definition next (l : Lexer) : Result (Token * Lexer) :=
  l ← skipTrivia (S (length (lx_src l))) l;
  let pos := lexerPos l in
  match lx_src l with
  | [] => Ok (mkToken TEof [] 0 false pos, l)
  | c :: rest =>
      if isSieveSpecial c then Ok (mkToken (TSpecial c) [c] 0 false pos, advance l)
      else if c =? 0x22 then quoted l pos
      else if c =? 0x3a then
        let l := advance l in
        match lx_src l with
        | d :: _ =>
            if negb (isAlpha d) then syntaxError BadChar (js "expected a tag name after " ++ inQuotes (js ":")) pos
            else let '(name, l) := identifier l in Ok (mkToken TTag name 0 false pos, l)
        | [] => syntaxError BadChar (js "expected a tag name after " ++ inQuotes (js ":")) pos
        end
      else if is_digit c then numberToken l pos
      else if isAlpha c then
        let '(name, l) := identifier l in
        if bool_decide (name = js "text") && bool_decide (head (lx_src l) = Some 0x3a) then multiline (advance l) pos
        else Ok (mkToken TIdentifier name 0 false pos, l)
      else if (c =? 0x2f) && negb (bool_decide (head rest = Some 0x2a)) then syntaxError BadChar (js "unexpected " ++ inQuotes (js "/")) pos
      else
        let shown := if (c <? 0x20) || (c =? 0x7f) then js "U+" ++ hex4 c else shownChar (lx_src l) in
        syntaxError BadChar (js "unexpected character " ++ shown) pos
  end.
End lexer.

(** ** printer.ts *)

Definition quote (value : jsstr) : jsstr := inQuotes (concat ((fun c => if (c =? 0x5c) || (c =? 0x22) then [0x5c; c] else [c]) <$> value)).

Definition printArg (a : Argument) : jsstr :=
  match a with
  | ATag name _ => js ":" ++ name
  | ANumber value _ => dec value
  | AString value _ _ => quote value
  | AList vs _ => js "[" ++ joinWith (js ", ") (quote <$> vs) ++ js "]"
  end.

(** [head], given the printed tests. *)
Definition printHead (name : jsstr) (args : list Argument) (tests : list jsstr) (testList : bool) : jsstr :=
  joinWith [SP] (name :: (printArg <$> args) ++ (if testList then [js "(" ++ joinWith (js ", ") tests ++ js ")"] else tests)).

Fixpoint printTest (t : TestNode) : jsstr := let '(mkTest name args tests testList _) := t in printHead name args (printTest <$> tests) testList.

Fixpoint printCommand (c : CommandNode) (indent : jsstr) : jsstr :=
  let '(mkCommand name args tests testList block _) := c in
  let line := indent ++ printHead name args (printTest <$> tests) testList in
  match block with
  | None => line ++ js ";" ++ [LF]
  | Some b => line ++ js " {" ++ [LF] ++ concat ((fun c => printCommand c (indent ++ js "  ")) <$> b) ++ indent ++ js "}" ++ [LF]
  end.

Definition print (script : ScriptNode) : jsstr := concat ((fun c => printCommand c []) <$> script).

(** ** The recursive-descent parser of Sieve ([sieve/src/parser.ts])

    The state is the current token and the lexer after it. Every call takes fuel; each chain of calls consumes a
    token or goes down the grammar, so the fuel that [parse] gives is never used up. *)

Record ParseLimits := mkLimits { maxScriptBytes : Z; maxDepth : Z; lim_maxStringLength : Z; maxListLength : Z; maxArguments : Z }.

Definition DEFAULT_LIMITS : ParseLimits := mkLimits (256 * 1024) 32 (64 * 1024) 1024 64.

(** The caller's limits, where given, else the defaults. *)
Definition resolveLimits (scriptBytes depth stringLength listLength arguments : option Z) : ParseLimits :=
  mkLimits (default (maxScriptBytes DEFAULT_LIMITS) scriptBytes) (default (maxDepth DEFAULT_LIMITS) depth) (default (lim_maxStringLength DEFAULT_LIMITS) stringLength)
    (default (maxListLength DEFAULT_LIMITS) listLength) (default (maxArguments DEFAULT_LIMITS) arguments).

Definition describe (t : Token) : jsstr :=
  match tok_kind t with
  | TEof => js "end of script"
  | TIdentifier => js "identifier " ++ inQuotes (tok_text t)
  | TTag => js "tag " ++ inQuotes (js ":" ++ tok_text t)
  | TNumber => js "number " ++ tok_text t
  | TString => js "a string"
  | TSpecial c => inQuotes [c]
  end.

Section parser.
Context `{R : Runtime} (limits : ParseLimits).

Record Parser := mkParser { p_tok : Token; p_lexer : Lexer }.

Definition startParser (src : jsstr) : Result Parser :=
  '(t, l) ← next (lim_maxStringLength limits) (mkLexer src 1 1);
  Ok (mkParser t l).

Definition peek (p : Parser) : TokenKind := tok_kind (p_tok p).

Definition shift (p : Parser) : Result (Token * Parser) :=
  '(t, l) ← next (lim_maxStringLength limits) (p_lexer p);
  Ok (p_tok p, mkParser t l).

Definition expect (kind : TokenKind) (what : jsstr) (p : Parser) : Result (Token * Parser) :=
  if bool_decide (peek p = kind) then shift p
  else syntaxError UnexpectedToken (js "expected " ++ what ++ js ", found " ++ describe (p_tok p)) (tok_pos (p_tok p)).

Definition enter (depth : Z) (p : Parser) : Result unit :=
  if maxDepth limits <? depth then syntaxError TooDeep (js "nesting deeper than " ++ dec (maxDepth limits) ++ js " levels") (tok_pos (p_tok p)) else Ok tt.

(** The strings after the first one of a list. *)
Fixpoint listValues (fuel : nat) (vs : list jsstr) (p : Parser) : Result (list jsstr * Parser) :=
  match fuel with
  | O => Stuck
  | S fuel =>
      if bool_decide (peek p = TSpecial 0x2c) then
        '(_, p) ← shift p;
        '(t, p) ← expect TString (js "a string after " ++ inQuotes (js ",")) p;
        let vs := vs ++ [tok_text t] in
        if maxListLength limits <? Z.of_nat (length vs)
        then syntaxError ListTooLong (js "more than " ++ dec (maxListLength limits) ++ js " strings in a list") (tok_pos (p_tok p))
        else listValues fuel vs p
      else Ok (vs, p)
  end.

(** The characters left, which bound the tokens left. *)
Definition left (p : Parser) : nat := length (lx_src (p_lexer p)).

Definition argument (p : Parser) : Result (option Argument * Parser) :=
  let t := p_tok p in
  match tok_kind t with
  | TTag => '(_, p) ← shift p; Ok (Some (ATag (tok_text t) (tok_pos t)), p)
  | TNumber => '(_, p) ← shift p; Ok (Some (ANumber (tok_number t) (tok_pos t)), p)
  | TString => '(_, p) ← shift p; Ok (Some (AString (tok_text t) (tok_multiline t) (tok_pos t)), p)
  | TSpecial c =>
      if c =? 0x5b then
        '(_, p) ← shift p;
        '(first, p) ← expect TString (js "a string in the string list") p;
        '(vs, p) ← listValues (S (S (left p))) [tok_text first] p;
        '(_, p) ← expect (TSpecial 0x5d) (inQuotes (js ",") ++ js " or " ++ inQuotes (js "]") ++ js " in the string list") p;
        Ok (Some (AList vs (tok_pos t)), p)
      else Ok (None, p)
  | _ => Ok (None, p)
  end.

Fixpoint argumentList (fuel : nat) (args : list Argument) (p : Parser) : Result (list Argument * Parser) :=
  match fuel with
  | O => Stuck
  | S fuel =>
      '(arg, p) ← argument p;
      match arg with
      | None => Ok (args, p)
      | Some arg =>
          let args := args ++ [arg] in
          if maxArguments limits <? Z.of_nat (length args)
          then syntaxError BadArguments (js "more than " ++ dec (maxArguments limits) ++ js " arguments") (argPos arg)
          else argumentList fuel args p
      end
  end.

Record Arguments_ := mkArguments { as_args : list Argument; as_tests : list TestNode; as_testList : bool }.

(** [arguments], [test] and the loop over a test list. *)
Fixpoint arguments (fuel : nat) (depth : Z) (p : Parser) {struct fuel} : Result (Arguments_ * Parser) :=
  match fuel with
  | O => Stuck
  | S fuel =>
      '(args, p) ← argumentList (S (S (left p))) [] p;
      match peek p with
      | TIdentifier =>
          _ ← enter (depth + 1) p;
          '(t, p) ← test fuel (depth + 1) p;
          Ok (mkArguments args [t] false, p)
      | TSpecial c =>
          if c =? 0x28 then
            _ ← enter (depth + 1) p;
            '(_, p) ← shift p;
            '(t, p) ← test fuel (depth + 1) p;
            '(ts, p) ← testTail fuel (depth + 1) [t] p;
            '(_, p) ← expect (TSpecial 0x29) (inQuotes (js ",") ++ js " or " ++ inQuotes (js ")") ++ js " in the test list") p;
            Ok (mkArguments args ts true, p)
          else Ok (mkArguments args [] false, p)
      | _ => Ok (mkArguments args [] false, p)
      end
  end
with test (fuel : nat) (depth : Z) (p : Parser) {struct fuel} : Result (TestNode * Parser) :=
  match fuel with
  | O => Stuck
  | S fuel =>
      '(id, p) ← expect TIdentifier (js "a test") p;
      '(a, p) ← arguments fuel depth p;
      Ok (mkTest (tok_text id) (as_args a) (as_tests a) (as_testList a) (tok_pos id), p)
  end
with testTail (fuel : nat) (depth : Z) (ts : list TestNode) (p : Parser) {struct fuel} : Result (list TestNode * Parser) :=
  match fuel with
  | O => Stuck
  | S fuel =>
      if bool_decide (peek p = TSpecial 0x2c) then
        '(_, p) ← shift p;
        '(t, p) ← test fuel depth p;
        let ts := ts ++ [t] in
        if maxListLength limits <? Z.of_nat (length ts)
        then syntaxError ListTooLong (js "more than " ++ dec (maxListLength limits) ++ js " tests in a test list") (tok_pos (p_tok p))
        else testTail fuel depth ts p
      else Ok (ts, p)
  end.

(** Enough for what is left: three calls a token. *)
Definition parserFuel (p : Parser) : nat := 3 * left p + 6.

Fixpoint commands (fuel : nat) (depth : Z) (cs : list CommandNode) (p : Parser) {struct fuel} : Result (list CommandNode * Parser) :=
  match fuel with
  | O => Stuck
  | S fuel =>
      if bool_decide (peek p = TIdentifier) then
        '(c, p) ← command fuel depth p;
        commands fuel depth (cs ++ [c]) p
      else Ok (cs, p)
  end
with command (fuel : nat) (depth : Z) (p : Parser) {struct fuel} : Result (CommandNode * Parser) :=
  match fuel with
  | O => Stuck
  | S fuel =>
      '(id, p) ← shift p;
      '(a, p) ← arguments (parserFuel p) depth p;
      let node block := mkCommand (tok_text id) (as_args a) (as_tests a) (as_testList a) block (tok_pos id) in
      if bool_decide (peek p = TSpecial 0x7b) then
        _ ← enter (depth + 1) p;
        '(_, p) ← shift p;
        '(b, p) ← commands fuel (depth + 1) [] p;
        '(_, p) ← expect (TSpecial 0x7d) (inQuotes (js "}") ++ js " or a command") p;
        Ok (node (Some b), p)
      else if bool_decide (peek p = TSpecial 0x3b) then
        '(_, p) ← shift p;
        Ok (node None, p)
      else syntaxError UnexpectedToken (js "expected " ++ inQuotes (js ";") ++ js " or " ++ inQuotes (js "{") ++ js " after " ++ tok_text id ++ js ", found " ++ describe (p_tok p)) (tok_pos (p_tok p))
  end.

Definition script (p : Parser) : Result ScriptNode :=
  '(cs, p) ← commands (parserFuel p) 0 [] p;
  if bool_decide (peek p = TEof) then Ok cs
  else syntaxError UnexpectedToken (js "expected a command, found " ++ describe (p_tok p)) (tok_pos (p_tok p)).

Inductive Source := SrcText (s : jsstr) | SrcBytes (b : bytes).

Definition origin : SourcePos := mkPos 1 1.
Definition tooLarge {A} : Result A := syntaxError TooLarge (js "script is larger than " ++ dec (maxScriptBytes limits) ++ js " bytes") origin.

Definition parse (source : Source) : Result ScriptNode :=
  src ← match source with
        | SrcText s => if maxScriptBytes limits <? Z.of_nat (byteLength s) then tooLarge else Ok s
        | SrcBytes b =>
            if maxScriptBytes limits <? Z.of_nat (length b) then tooLarge
            else match utf8_decode_fatal b with Some s => Ok s | None => syntaxError BadChar (js "script is not valid UTF-8") origin end
        end;
  let src := if bool_decide (head src = Some 0xfeff) then drop 1 src else src in
  p ← startParser src;
  script p.
End parser.

(** ** The lexer and the parser always come to an end *)

(** ** The lexer *)

Abbreviation len l := (length (lx_src l)).

Lemma advance_len l : len (advance l) = (len l - 1)%nat.
Proof. unfold advance. destruct (lx_src l) as [|c s] eqn:E; [by rewrite E|]. destruct (c =? 0x0a); cbn; lia. Qed.

Lemma advanceN_len n l : len (advanceN n l) = (len l - n)%nat.
Proof. revert l. induction n as [|n IH]; intros l; cbn [advanceN]; [lia|]. rewrite IH, advance_len. lia. Qed.

Lemma skipTrivia_good fuel l : (len l < fuel)%nat -> Good (skipTrivia fuel l) (fun l' => (len l' <= len l)%nat).
Proof.
  revert l. induction fuel as [|fuel IH]; intros l Hf; [lia|]. cbn [skipTrivia]. destruct (lx_src l) as [|c rest] eqn:E; [cbn; by rewrite E|]. cbn [length] in *.
  assert (Hrec : forall l', (len l' <= length rest)%nat -> Good (skipTrivia fuel l') (fun l' => (len l' <= S (length rest))%nat)).
  { intros l' Hl. eapply good_weaken; [apply IH; lia|]. cbn. lia. }
  destruct (_ || _ || _ || _); [apply Hrec; rewrite advance_len, E; cbn; lia|]. destruct (Z.eqb_spec c 0x23) as [->|].
  - apply Hrec. rewrite advanceN_len, E. cbn. lia.
  - destruct (_ && _); [|cbn; rewrite E; done]. destruct (find2 _ _); [|done]. apply Hrec. rewrite !advanceN_len, E. cbn. lia.
Qed.

Section lexer.
Context `{R : Runtime} (maxStringLength : Z).

Definition shorter (l : Lexer) (r : Token * Lexer) : Prop := (len r.2 < len l)%nat /\ tok_kind r.1 <> TEof.

Lemma digitsLoop_good digits value pos : Good (digitsLoop digits value pos) (fun _ => True).
Proof. revert value. induction digits as [|c digits IH]; intros value; [done|]. cbn [digitsLoop]. cbv zeta. destruct (_ <? _); [done|apply IH]. Qed.

Lemma numberToken_good l pos c s : lx_src l = c :: s -> is_digit c = true -> Good (numberToken l pos) (shorter l).
Proof.
  intros E Hc. unfold numberToken. eapply good_bind; [apply digitsLoop_good|]. intros v _. cbv zeta.
  assert (Hl : (len (advanceN (length (takeWhile is_digit (lx_src l))) l) < len l)%nat) by (rewrite advanceN_len, E; cbn [takeWhile]; rewrite Hc; cbn; lia).
  destruct (QUANTIFIER _); [destruct (_ <? _); [done|]|]; (split; [cbn; rewrite ?advance_len; lia|done]).
Qed.

Lemma checkLength_good n pos : Good (checkLength maxStringLength n pos) (fun _ => True).
Proof. unfold checkLength. by destruct (_ <? _). Qed.

Lemma quotedLoop_good fuel l value n pos : (len l < fuel)%nat -> Good (quotedLoop maxStringLength fuel l value n pos) (fun r => (len r.2 <= len l)%nat).
Proof.
  revert l value n. induction fuel as [|fuel IH]; intros l value n Hf; [lia|]. cbn [quotedLoop]. destruct (lx_src l) as [|c rest] eqn:E; [done|]. cbn [length] in *.
  assert (Hrec : forall l' v k, (len l' <= length rest)%nat -> Good (quotedLoop maxStringLength fuel l' v k pos) (fun r => (len r.2 <= S (length rest))%nat)).
  { intros l' v k Hl. eapply good_weaken; [apply IH; lia|]. cbn. lia. }
  destruct (c =? 0x22); [cbn; rewrite advance_len, E; cbn; lia|]. destruct (c =? 0); [done|]. destruct (c =? 0x5c).
  - cbv zeta. destruct (lx_src (advance l)) as [|d r2] eqn:E2; [done|]. destruct (d =? 0); [done|]. apply Hrec. rewrite !advance_len, E. cbn. lia.
  - eapply good_bind; [apply checkLength_good|]. intros _ _. apply Hrec. rewrite advance_len, E. cbn. lia.
Qed.

Lemma quoted_good l pos c s : lx_src l = c :: s -> Good (quoted maxStringLength l pos) (shorter l).
Proof.
  intros E. unfold quoted. cbv zeta. eapply good_bind; [apply quotedLoop_good; lia|]. intros [v l'] Hl. eapply good_bind; [apply checkLength_good|]. intros _ _.
  split; [|done]. cbn in *. rewrite advance_len, E in Hl. rewrite E. cbn in *. lia.
Qed.

Lemma textLines_good fuel l value n pos : (len l < fuel)%nat -> Good (textLines maxStringLength fuel l value n pos) (fun r => (len r.2 <= len l)%nat).
Proof.
  revert l value n. induction fuel as [|fuel IH]; intros l value n Hf; [lia|]. cbn [textLines]. destruct (lx_src l) as [|c rest] eqn:E; [done|]. rewrite <- E. set (line := if bool_decide _ then _ else _). clearbody line.
  destruct (includesChar 0 line); [done|]. destruct (indexOf 0x0a (lx_src l)) as [k|] eqn:Ek.
  - set (l1 := mkLexer _ _ _). assert (Hl1 : (len l1 < len l)%nat) by (unfold l1; cbn [lx_src]; rewrite length_drop, E; cbn [length]; lia). destruct (bool_decide _); [cbn [Good snd]; lia|].
    cbv zeta. eapply good_bind; [apply checkLength_good|]. intros _ _. assert (Hl1f : (len l1 < fuel)%nat) by (rewrite E in *; cbn [length] in *; lia). clearbody l1. eapply good_weaken; [by apply IH|]. cbn. lia.
  - destruct (bool_decide _); [cbn; lia|done].
Qed.

Lemma multiline_good l pos : Good (multiline maxStringLength l pos) (fun r => (len r.2 <= len l)%nat /\ tok_kind r.1 <> TEof).
Proof.
  unfold multiline. cbv zeta. set (l1 := advanceN _ l). assert (H1 : (len l1 <= len l)%nat) by (unfold l1; rewrite advanceN_len; lia). clearbody l1.
  eapply (good_bind _ _ (fun l2 => (len l2 <= len l1)%nat)).
  - destruct (lx_src l1) as [|c rest] eqn:E; [done|]. destruct (c =? 0x23); [cbn [Good]; rewrite advanceN_len, E; lia|]. destruct (_ && _); [cbn [Good]; rewrite advance_len, E; cbn; lia|]. destruct (negb _); [done|]. cbn [Good]. rewrite E. done.
  - intros l2 H2. destruct (lx_src l2) as [|c rest] eqn:E; [done|]. eapply good_bind; [apply textLines_good; lia|]. intros [v l3] H3. cbn in *. rewrite advance_len, E in H3. cbn in H3. split; [lia|done].
Qed.

Lemma next_good l : Good (next maxStringLength l) (fun r => tok_kind r.1 = TEof \/ shorter l r).
Proof.
  unfold next. eapply good_bind; [apply skipTrivia_good; lia|]. intros l1 H1. cbv zeta. destruct (lx_src l1) as [|c rest] eqn:E; [by left|].
  assert (Hsh : forall r, shorter l1 r -> shorter l r) by (intros r [H2 H3]; split; [cbn in *; lia|done]).
  destruct (isSieveSpecial c); [cbn; right; apply Hsh; split; [cbn; rewrite advance_len, E; cbn; lia|done]|].
  destruct (c =? 0x22); [eapply good_weaken; [by eapply quoted_good|]; cbn; auto|]. destruct (c =? 0x3a).
  { destruct (lx_src (advance l1)) as [|d r2] eqn:E2; [done|]. destruct (negb (isAlpha d)); [done|]. cbn. right. apply Hsh. split; [|done]. cbn [snd]. rewrite advanceN_len, advance_len, E. cbn. lia. }
  destruct (is_digit c) eqn:Ed; [eapply good_weaken; [by eapply numberToken_good|]; cbn; auto|]. destruct (isAlpha c) eqn:Ea; [|by destruct (_ && _)].
  unfold identifier. set (l2 := advanceN _ l1). assert (H2 : (len l2 < len l1)%nat) by (unfold l2; rewrite advanceN_len, E; cbn [takeWhile]; rewrite Ea; cbn; lia). clearbody l2.
  destruct (_ && _).
  - eapply good_weaken; [apply multiline_good|]. intros r [H3 H4]. right. apply Hsh. rewrite advance_len in H3. split; [lia|done].
  - cbn. right. apply Hsh. split; [cbn; lia|done].
Qed.
End lexer.

(** ** The parser *)

Section parser.
Context `{R : Runtime} (limits : ParseLimits).

(** What is left, the current token included; nothing is after the end. *)
Definition tokensLeft (p : Parser) : nat := if bool_decide (peek p = TEof) then 0 else S (left p).

Lemma tokensLeft_le p : (tokensLeft p <= S (left p))%nat.
Proof. unfold tokensLeft. case_bool_decide; lia. Qed.

Lemma shift_good p : peek p <> TEof -> Good (shift limits p) (fun r => r.1 = p_tok p /\ (tokensLeft r.2 < tokensLeft p)%nat).
Proof.
  intros Hp. unfold shift. eapply good_bind; [apply next_good|]. intros [t l] Hr. cbn in *. split; [done|]. unfold tokensLeft, peek, left in *. rewrite (bool_decide_eq_false_2 _ Hp). cbn.
  case_bool_decide; [lia|]. destruct Hr as [Hr|[Hr _]]; [done|]. cbn in Hr. lia.
Qed.

Lemma expect_good kind what p : kind <> TEof -> Good (expect limits kind what p) (fun r => (tokensLeft r.2 < tokensLeft p)%nat).
Proof.
  intros Hk. unfold expect. case_bool_decide as E; [|done]. eapply good_weaken; [apply shift_good; congruence|]. cbn. tauto.
Qed.

Lemma enter_good depth p : Good (enter limits depth p) (fun _ => True).
Proof. unfold enter. by destruct (_ <? _). Qed.

Lemma listValues_good fuel vs p : (tokensLeft p < fuel)%nat -> Good (listValues limits fuel vs p) (fun r => (tokensLeft r.2 <= tokensLeft p)%nat).
Proof.
  revert vs p. induction fuel as [|fuel IH]; intros vs p Hf; [lia|]. cbn [listValues]. case_bool_decide as E; [|cbn; lia]. eapply good_bind; [apply shift_good; congruence|]. intros [t1 p1] [_ H1]. cbn in H1.
  eapply good_bind; [by apply expect_good|]. intros [t2 p2] H2. cbn in H2. cbv zeta. destruct (_ <? _); [done|]. eapply good_weaken; [apply IH; lia|]. cbn. lia.
Qed.

Lemma argument_good p : Good (argument limits p) (fun r => match r.1 with Some _ => (tokensLeft r.2 < tokensLeft p)%nat | None => r.2 = p end).
Proof.
  unfold argument. cbv zeta. fold (peek p). destruct (peek p) eqn:E; try done; try (eapply good_bind; [apply shift_good; congruence|]; intros [t1 p1] [_ H1]; exact H1).
  destruct (c =? 0x5b); [|done]. eapply good_bind; [apply shift_good; congruence|]. intros [t1 p1] [_ H1]. cbn in H1. eapply good_bind; [by apply expect_good|]. intros [t2 p2] H2. cbn in H2.
  eapply good_bind; [apply listValues_good; pose proof (tokensLeft_le p2); lia|]. intros [vs p3] H3. cbn in H3. eapply good_bind; [by apply expect_good|]. intros [t4 p4] H4. cbn in *. lia.
Qed.

Lemma argumentList_good fuel args p : (tokensLeft p < fuel)%nat -> Good (argumentList limits fuel args p) (fun r => (tokensLeft r.2 <= tokensLeft p)%nat).
Proof.
  revert args p. induction fuel as [|fuel IH]; intros args p Hf; [lia|]. cbn [argumentList]. eapply good_bind; [apply argument_good|]. intros [[arg|] p1] H1; cbn in H1; [|cbn; by subst].
  cbv zeta. destruct (_ <? _); [done|]. eapply good_weaken; [apply IH; lia|]. cbn. lia.
Qed.

(** The three mutual functions, by the fuel. *)
Lemma tests_good fuel :
  (forall depth p, (2 * tokensLeft p + 2 <= fuel)%nat -> Good (arguments limits fuel depth p) (fun r => (tokensLeft r.2 <= tokensLeft p)%nat)) /\
  (forall depth p, (2 * tokensLeft p + 1 <= fuel)%nat -> Good (test limits fuel depth p) (fun r => (tokensLeft r.2 < tokensLeft p)%nat)) /\
  (forall depth ts p, (2 * tokensLeft p + 1 <= fuel)%nat -> Good (testTail limits fuel depth ts p) (fun r => (tokensLeft r.2 <= tokensLeft p)%nat)).
Proof.
  induction fuel as [|fuel (IHa & IHt & IHl)]; [split_and!; lia|]. split_and!.
  - intros depth p Hf. cbn [arguments]. eapply good_bind; [apply argumentList_good; pose proof (tokensLeft_le p); lia|]. intros [args p1] H1. cbn in H1. destruct (peek p1) eqn:E; try (cbn; lia).
    + eapply good_bind; [apply enter_good|]. intros _ _. eapply good_bind; [apply IHt; lia|]. intros [t p2] H2. cbn in *. lia.
    + destruct (c =? 0x28); [|cbn; lia]. eapply good_bind; [apply enter_good|]. intros _ _. eapply good_bind; [apply shift_good; congruence|]. intros [t1 p2] [_ H2]. cbn in H2.
      eapply good_bind; [apply IHt; lia|]. intros [t p3] H3. cbn in H3. eapply good_bind; [apply IHl; lia|]. intros [ts p4] H4. cbn in H4. eapply good_bind; [by apply expect_good|]. intros [t5 p5] H5. cbn in *. lia.
  - intros depth p Hf. cbn [test]. eapply good_bind; [by apply expect_good|]. intros [id p1] H1. cbn in H1. eapply good_bind; [apply IHa; lia|]. intros [a p2] H2. cbn in *. lia.
  - intros depth ts p Hf. cbn [testTail]. case_bool_decide as E; [|cbn; lia]. eapply good_bind; [apply shift_good; congruence|]. intros [t1 p1] [_ H1]. cbn in H1.
    eapply good_bind; [apply IHt; lia|]. intros [t p2] H2. cbn in H2. cbv zeta. destruct (_ <? _); [done|]. eapply good_weaken; [apply IHl; lia|]. cbn. lia.
Qed.

Lemma parserFuel_enough p : (2 * tokensLeft p + 2 <= parserFuel p)%nat.
Proof. pose proof (tokensLeft_le p). unfold parserFuel. lia. Qed.

Lemma commands_good fuel :
  (forall depth cs p, (2 * tokensLeft p + 2 <= fuel)%nat -> Good (commands limits fuel depth cs p) (fun r => (tokensLeft r.2 <= tokensLeft p)%nat)) /\
  (forall depth p, (2 * tokensLeft p + 1 <= fuel)%nat -> peek p = TIdentifier -> Good (command limits fuel depth p) (fun r => (tokensLeft r.2 < tokensLeft p)%nat)).
Proof.
  induction fuel as [|fuel (IHs & IHc)]; [split; lia|]. split.
  - intros depth cs p Hf. cbn [commands]. case_bool_decide as E; [|cbn; lia]. eapply good_bind; [apply IHc; [lia|done]|]. intros [c p1] H1. cbn in H1. eapply good_weaken; [apply IHs; lia|]. cbn. lia.
  - intros depth p Hf Hp. cbn [command]. eapply good_bind; [apply shift_good; congruence|]. intros [id p1] [_ H1]. cbn in H1.
    eapply good_bind; [apply tests_good, parserFuel_enough|]. intros [a p2] H2. cbn in H2. cbv zeta. case_bool_decide as Eb.
    + eapply good_bind; [apply enter_good|]. intros _ _. eapply good_bind; [apply shift_good; congruence|]. intros [t3 p3] [_ H3]. cbn in H3. eapply good_bind; [apply IHs; lia|]. intros [b p4] H4. cbn in H4.
      eapply good_bind; [by apply expect_good|]. intros [t5 p5] H5. cbn in *. lia.
    + case_bool_decide as Es; [|done]. eapply good_bind; [apply shift_good; congruence|]. intros [t3 p3] [_ H3]. cbn in *. lia.
Qed.

(** Parsing always ends, on every text or octets and under all limits: with a tree or with a syntax error, never
    in a recursion that goes on. *)
Theorem parse_total source : parse limits source <> Stuck.
Proof.
  assert (Hg : Good (parse limits source) (fun _ => True)); [|by destruct (parse limits source)]. unfold parse. eapply (good_bind _ _ (fun _ => True)).
  - destruct source; repeat case_match; done.
  - intros src _. cbv zeta. eapply (good_bind _ _ (fun _ => True)); [eapply good_bind; [apply next_good|]; intros [t l] _; exact I|]. intros p _. unfold script. eapply good_bind; [apply commands_good, parserFuel_enough|]. intros [cs p1] _. by case_bool_decide.
Qed.
End parser.
