(* ===== verification/SieveCompile.v ===== *)
(** * SieveCompile: validation of Sieve scripts ([sieve/src/compile.ts])

    [Compiler]'s set of capabilities is the list of the ones required so far, in order. [Stuck] is an argument
    list of another length than the one just checked, which never happens ([compile_total]). *)
From S2P Require Import Prelude JsString JsStringFacts SieveMatch SieveSyntax.

Definition SUPPORTED_EXTENSIONS : list jsstr :=
  [js "fileinto"; js "envelope"; js "imap4flags"; js "variables"; js "body"; js "vacation"; js "mailbox"; js "vnd.postroom.bucket"; js "comparator-i;octet"; js "comparator-i;ascii-casemap"].

Definition COMPARATORS : list jsstr := [js "i;octet"; js "i;ascii-casemap"].
Definition ENVELOPE_PARTS : list jsstr := [js "from"; js "to"].

(** [/^[A-Za-z_][A-Za-z0-9_]*$/]. *)
Definition IDENTIFIER (s : jsstr) : bool := match s with c :: s => isAlpha c && forallb (fun c => isAlpha c || is_digit c) s | [] => false end.

(** [/^[!-9;-~]+$/]. *)
Definition FIELD_NAME (s : jsstr) : bool :=
  negb (length s =? 0)%nat && forallb (fun c => ((0x21 <=? c) && (c <=? 0x39)) || ((0x3b <=? c) && (c <=? 0x7e))) s.

Definition isAlnum (c : Z) : bool := isAlphaUpper c || isAlphaLower c || is_digit c.

(** [/^[A-Za-z0-9][A-Za-z0-9 _.-]{0,63}$/]. *)
Definition BUCKET_NAME (s : jsstr) : bool :=
  match s with c :: s => isAlnum c && (length s <=? 63)%nat && forallb (fun c => isAlnum c || includesChar c (js " _.-")) s | [] => false end.

Record MatchSpec := mkMatch { ms_type : MatchType; ms_comparator : Comparator }.

Inductive AddressPart := PartAll | PartLocalpart | PartDomain.
Inductive BodyTransform := BodyRaw | BodyText | BodyContent (types : list jsstr).
Inductive SetModifier := ModLower | ModUpper | ModLowerfirst | ModUpperfirst | ModQuotewildcard | ModLength.

Inductive CompiledTest :=
  | TestTrue (pos : SourcePos)
  | TestFalse (pos : SourcePos)
  | TestNot (test : CompiledTest) (pos : SourcePos)
  | TestAnyof (tests : list CompiledTest) (pos : SourcePos)
  | TestAllof (tests : list CompiledTest) (pos : SourcePos)
  | TestHeader (names keys : list jsstr) (spec : MatchSpec) (pos : SourcePos)
  | TestAddress (names keys : list jsstr) (spec : MatchSpec) (part : AddressPart) (pos : SourcePos)
  | TestEnvelope (names keys : list jsstr) (spec : MatchSpec) (part : AddressPart) (pos : SourcePos)
  | TestExists (names : list jsstr) (pos : SourcePos)
  | TestSize (over : bool) (limit : Z) (pos : SourcePos)
  | TestBody (transform : BodyTransform) (keys : list jsstr) (spec : MatchSpec) (pos : SourcePos)
  | TestHasflag (variables : option (list jsstr)) (keys : list jsstr) (spec : MatchSpec) (pos : SourcePos)
  | TestString (sources keys : list jsstr) (spec : MatchSpec) (pos : SourcePos)
  | TestMailboxexists (names : list jsstr) (pos : SourcePos).

Inductive FlagOp := Setflag | Addflag | Removeflag.
#[export] Instance FlagOp_eq_dec : EqDecision FlagOp.
Proof. solve_decision. Defined.

Record VacationCommand := mkVacation {
  v_reason : jsstr; v_days : option Z; v_subject : option jsstr; v_from : option jsstr; v_addresses : list jsstr; v_mime : bool; v_handle : option jsstr; v_pos : SourcePos }.

Inductive CompiledCommand :=
  | CmdIf (branches : list (option CompiledTest * list CompiledCommand)) (pos : SourcePos)
  | CmdStop (pos : SourcePos)
  | CmdDiscard (pos : SourcePos)
  | CmdKeep (flags : option (list jsstr)) (pos : SourcePos)
  | CmdFileinto (mailbox : jsstr) (flags : option (list jsstr)) (create : bool) (pos : SourcePos)
  | CmdRedirect (address : jsstr) (pos : SourcePos)
  | CmdFlags (op : FlagOp) (variable : option jsstr) (flags : list jsstr) (pos : SourcePos)
  | CmdSet (name value : jsstr) (modifiers : list SetModifier) (pos : SourcePos)
  | CmdVacation (v : VacationCommand)
  | CmdBucket (name : jsstr) (pos : SourcePos).

Record CompiledScript := mkScript { capabilities : list jsstr; cs_commands : list CompiledCommand }.

(** ** Argument binding *)

Inductive ValueKind := VString | VStringList | VNumber.

Record TagDef := mkTag { td_value : option ValueKind; td_group : option jsstr; td_ext : option jsstr }.

Record Bound := mkBound { b_tags : list (jsstr * (SourcePos * option Argument)); b_groups : list (jsstr * jsstr); b_positional : list Argument }.

(** [get] of a Map, and of a record by an own key. *)
Definition assoc {A} (k : jsstr) (l : list (jsstr * A)) : option A := snd <$> find (fun '(x, _) => bool_decide (x = k)) l.
Definition assocHas {A} (k : jsstr) (l : list (jsstr * A)) : bool := bool_decide (is_Some (assoc k l)).

Definition grouped (name group : jsstr) : jsstr * TagDef := (name, mkTag None (Some group) None).
Definition COMPARATOR_TAG : list (jsstr * TagDef) := [(js "comparator", mkTag (Some VString) (Some (js "comparator")) None)].
Definition MATCH_TAGS : list (jsstr * TagDef) := [grouped (js "is") (js "match"); grouped (js "contains") (js "match"); grouped (js "matches") (js "match")].
Definition ADDRESS_PART_TAGS : list (jsstr * TagDef) := [grouped (js "all") (js "part"); grouped (js "localpart") (js "part"); grouped (js "domain") (js "part")].

Definition kindOf (a : Argument) : jsstr :=
  match a with
  | ATag name _ => js "tag " ++ inQuotes (js ":" ++ name)
  | ANumber _ _ => js "a number"
  | AString _ _ _ => js "a string"
  | AList _ _ => js "a string list"
  end.

Definition fits (a : Argument) (kind : ValueKind) : bool :=
  match kind, a with
  | VNumber, ANumber _ _ => true
  | VString, AString _ _ _ => true
  | VStringList, (AString _ _ _ | AList _ _) => true
  | _, _ => false
  end.

Definition KIND_NAME (kind : ValueKind) : jsstr := match kind with VString => js "a string" | VStringList => js "a string list" | VNumber => js "a number" end.

Definition str (a : Argument) : jsstr := match a with AString v _ _ => v | _ => [] end.
Definition listOf (a : Argument) : list jsstr := match a with AString v _ _ => [v] | AList vs _ => vs | _ => [] end.
Definition num (a : Argument) : Z := match a with ANumber n _ => n | _ => 0 end.

(** The value of a tag that has one. *)
Definition tagValue (bound : Bound) (tag : jsstr) : option Argument := t ← assoc tag (b_tags bound); snd t.
Definition tagString (bound : Bound) (tag : jsstr) : option jsstr := str <$> tagValue bound tag.
Definition flagsTag (bound : Bound) : option (list jsstr) := listOf <$> tagValue bound (js "flags").

(** [s.includes('${')]. *)
Fixpoint hasReference (s : jsstr) : bool := startsWith (js "${") s || match s with [] => false | _ :: s => hasReference s end.

(** The first expression takes a local part without white space and specials; the second, one in quotes without a
    quote or a line break in it. *)
Definition localChar (c : Z) : bool := negb (is_js_space c) && negb (includesChar c (js "@<>(),;:" ++ [0x22])).
Definition domainChar (c : Z) : bool := localChar c && negb (includesChar c (js "[]")).
Definition isDomain (s : jsstr) : bool := negb (length s =? 0)%nat && forallb domainChar s.
Definition quotedChar (c : Z) : bool := negb (c =? 0x22) && negb (c =? CR) && negb (c =? LF).

Definition isAddress (s : jsstr) : bool :=
  let local := takeWhile localChar s in
  (negb (length local =? 0)%nat && match drop (length local) s with c :: d => (c =? 0x40) && isDomain d | [] => false end) ||
  match s with
  | c :: s =>
      (c =? 0x22) && match drop (length (takeWhile quotedChar s)) s with q :: a :: d => (q =? 0x22) && (a =? 0x40) && isDomain d | _ => false end
  | [] => false
  end.

(** [/<[^<>@\s]+@[^<>@\s]+>/.test(s)]: at some position, [<], a run, [@], a run and [>]. *)
Definition angleChar (c : Z) : bool := negb (is_js_space c) && negb (includesChar c (js "<>@")).
Definition angleAt (s : jsstr) : bool :=
  match s with
  | c :: s =>
      let a := takeWhile angleChar s in
      (c =? 0x3c) && negb (length a =? 0)%nat &&
      match drop (length a) s with
      | at_ :: s => let b := takeWhile angleChar s in (at_ =? 0x40) && negb (length b =? 0)%nat && bool_decide (head (drop (length b) s) = Some 0x3e)
      | [] => false
      end
  | [] => false
  end.
Fixpoint hasAngleAddress (s : jsstr) : bool := angleAt s || match s with [] => false | _ :: s => hasAngleAddress s end.

Section compiler.
Context `{R : Runtime}.

Definition need (caps : list jsstr) (ext what : jsstr) (pos : SourcePos) : Result unit :=
  if bool_decide (ext ∈ caps) then Ok tt else syntaxError NotRequired (what ++ js " needs require " ++ inQuotes ext) pos.

Definition variables (caps : list jsstr) : bool := bool_decide (js "variables" ∈ caps).
Definition literal (caps : list jsstr) (s : jsstr) : bool := negb (variables caps) || negb (hasReference s).

Definition badArguments {A} (detail : jsstr) (pos : SourcePos) : Result A := syntaxError BadArguments detail pos.
Definition badValue {A} (detail : jsstr) (pos : SourcePos) : Result A := syntaxError BadValue detail pos.

(** [":name"], as messages show a tag. *)
Definition shownTag (name : jsstr) : jsstr := inQuotes (js ":" ++ name).

Fixpoint bindPositional (args : list Argument) (bound : Bound) : Result Bound :=
  match args with
  | [] => Ok bound
  | ATag name pos :: _ => badArguments (js "tagged argument " ++ shownTag name ++ js " must come before positional arguments") pos
  | a :: args => bindPositional args (mkBound (b_tags bound) (b_groups bound) (b_positional bound ++ [a]))
  end.

(** The group of a tag is taken, once. *)
Definition bindGroup (def : TagDef) (name : jsstr) (pos : SourcePos) (bound : Bound) : Result Bound :=
  match td_group def with
  | None => Ok bound
  | Some group =>
      match assoc group (b_groups bound) with
      | Some prev => badArguments (shownTag name ++ js " cannot be combined with " ++ shownTag prev) pos
      | None => Ok (mkBound (b_tags bound) (b_groups bound ++ [(group, name)]) (b_positional bound))
      end
  end.

Definition setTag (name : jsstr) (pos : SourcePos) (value : option Argument) (bound : Bound) : Bound :=
  mkBound (b_tags bound ++ [(name, (pos, value))]) (b_groups bound) (b_positional bound).

Fixpoint bindTags (caps : list jsstr) (cmd : jsstr) (tags : list (jsstr * TagDef)) (args : list Argument) (bound : Bound) : Result Bound :=
  match args with
  | ATag name pos :: rest =>
      match assoc name tags with
      | None => badArguments (cmd ++ js " does not take " ++ shownTag name) pos
      | Some def =>
          _ ← match td_ext def with Some ext => need caps ext (shownTag name) pos | None => Ok tt end;
          if assocHas name (b_tags bound) then badArguments (shownTag name ++ js " given twice") pos
          else
            bound ← bindGroup def name pos bound;
            match td_value def with
            | None => bindTags caps cmd tags rest (setTag name pos None bound)
            | Some kind =>
                match rest with
                | v :: rest =>
                    if fits v kind then bindTags caps cmd tags rest (setTag name pos (Some v) bound)
                    else badArguments (shownTag name ++ js " must be followed by " ++ KIND_NAME kind) (argPos v)
                | [] => badArguments (shownTag name ++ js " must be followed by " ++ KIND_NAME kind) pos
                end
            end
      end
  | _ => bindPositional args bound
  end.

Definition bind (caps : list jsstr) (cmd : jsstr) (args : list Argument) (tags : list (jsstr * TagDef)) : Result Bound :=
  bindTags caps cmd tags args (mkBound [] [] []).

(** [forEach] of the kinds. *)
Fixpoint checkKinds (name : jsstr) (kinds : list ValueKind) (p : list Argument) : Result unit :=
  match kinds, p with
  | k :: kinds, a :: p =>
      if fits a k then checkKinds name kinds p
      else badArguments (name ++ js ": expected " ++ KIND_NAME k ++ js ", found " ++ kindOf a) (argPos a)
  | _, _ => Ok tt
  end.

Definition positional (name : jsstr) (bound : Bound) (kinds : list ValueKind) (pos : SourcePos) : Result (list Argument) :=
  let p := b_positional bound in
  let n := length kinds in
  if (length p =? n)%nat then _ ← checkKinds name kinds p; Ok p
  else
    badArguments (name ++ js " takes " ++ dec (Z.of_nat n) ++ js " positional argument" ++ (if (n =? 1)%nat then [] else js "s") ++ js ", found " ++ dec (Z.of_nat (length p)))
      (default pos (argPos <$> p !! n)).

Definition positional1 (name : jsstr) (bound : Bound) (kind : ValueKind) (pos : SourcePos) : Result Argument :=
  p ← positional name bound [kind] pos;
  match p with [a] => Ok a | _ => Stuck end.

Definition positional2 (name : jsstr) (bound : Bound) (k1 k2 : ValueKind) (pos : SourcePos) : Result (Argument * Argument) :=
  p ← positional name bound [k1; k2] pos;
  match p with [a; b] => Ok (a, b) | _ => Stuck end.

(** No argument at all. *)
Definition noArguments (caps : list jsstr) (name : jsstr) (args : list Argument) (pos : SourcePos) : Result unit :=
  b ← bind caps name args [];
  _ ← positional name b [] pos;
  Ok tt.

Definition matchTypeOf (name : jsstr) : MatchType :=
  if bool_decide (name = js "contains") then MatchContains else if bool_decide (name = js "matches") then MatchMatches else MatchIs.

Definition comparatorOf (name : jsstr) : Comparator := if bool_decide (name = js "i;octet") then CmpOctet else CmpAsciiCasemap.

(** [match], with the default comparator. *)
Definition matchSpec (bound : Bound) : Result MatchSpec :=
  let type := matchTypeOf (default (js "is") (assoc (js "match") (b_groups bound))) in
  match tagValue bound (js "comparator") with
  | Some c =>
      let name := toLowerCase (str c) in
      if bool_decide (name ∈ COMPARATORS) then Ok (mkMatch type (comparatorOf name))
      else badValue (js "unsupported comparator " ++ inQuotes (str c)) (argPos c)
  | None => Ok (mkMatch type CmpAsciiCasemap)
  end.

Definition headerNames (caps : list jsstr) (names : list jsstr) (pos : SourcePos) : Result (list jsstr) :=
  match find (fun n => literal caps n && negb (FIELD_NAME n)) names with
  | Some n => badValue (inQuotes n ++ js " is not a valid header field name") pos
  | None => Ok names
  end.

Definition noTests (name : jsstr) (tests : list TestNode) : Result unit :=
  match tests with t :: _ => badArguments (name ++ js " does not take a test") (t_pos t) | [] => Ok tt end.

Definition flagVariable (name : jsstr) (pos : SourcePos) : Result jsstr :=
  if IDENTIFIER name then Ok (toLowerCase name) else badValue (inQuotes name ++ js " is not a valid variable name") pos.

(** [map] of a function that may throw. *)
Fixpoint mapR {A B} (f : A -> Result B) (l : list A) : Result (list B) :=
  match l with
  | [] => Ok []
  | x :: l => y ← f x; ys ← mapR f l; Ok (y :: ys)
  end.

(** ** Tests *)

Definition headerTest (caps : list jsstr) (t : TestNode) : Result CompiledTest :=
  b ← bind caps (js "header") (t_args t) (COMPARATOR_TAG ++ MATCH_TAGS);
  '(names, keys) ← positional2 (js "header") b VStringList VStringList (t_pos t);
  _ ← noTests (t_name t) (t_tests t);
  names ← headerNames caps (listOf names) (argPos names);
  spec ← matchSpec b;
  Ok (TestHeader names (listOf keys) spec (t_pos t)).

Definition envelopePart (caps : list jsstr) (pos : SourcePos) (n : jsstr) : Result jsstr :=
  if negb (literal caps n) then Ok n
  else
    let low := toLowerCase n in
    if bool_decide (low ∈ ENVELOPE_PARTS) then Ok low else badValue (js "unsupported envelope part " ++ inQuotes n ++ js " (from and to are)") pos.

Definition addressPartOf (b : Bound) : AddressPart :=
  let name := default (js "all") (assoc (js "part") (b_groups b)) in
  if bool_decide (name = js "localpart") then PartLocalpart else if bool_decide (name = js "domain") then PartDomain else PartAll.

Definition addressTest (caps : list jsstr) (envelope : bool) (t : TestNode) : Result CompiledTest :=
  _ ← (if envelope then need caps (js "envelope") (inQuotes (js "envelope")) (t_pos t) else Ok tt);
  b ← bind caps (t_name t) (t_args t) (COMPARATOR_TAG ++ MATCH_TAGS ++ ADDRESS_PART_TAGS);
  '(names, keys) ← positional2 (t_name t) b VStringList VStringList (t_pos t);
  _ ← noTests (t_name t) (t_tests t);
  list_ ← (if envelope then mapR (envelopePart caps (argPos names)) (listOf names) else headerNames caps (listOf names) (argPos names));
  spec ← matchSpec b;
  Ok ((if envelope then TestEnvelope else TestAddress) list_ (listOf keys) spec (addressPartOf b) (t_pos t)).

Definition existsTest (caps : list jsstr) (t : TestNode) : Result CompiledTest :=
  b ← bind caps (js "exists") (t_args t) [];
  names ← positional1 (js "exists") b VStringList (t_pos t);
  _ ← noTests (t_name t) (t_tests t);
  names ← headerNames caps (listOf names) (argPos names);
  Ok (TestExists names (t_pos t)).

Definition sizeTest (caps : list jsstr) (t : TestNode) : Result CompiledTest :=
  b ← bind caps (js "size") (t_args t) [grouped (js "over") (js "size"); grouped (js "under") (js "size")];
  limit ← positional1 (js "size") b VNumber (t_pos t);
  _ ← noTests (t_name t) (t_tests t);
  match assoc (js "size") (b_groups b) with
  | None => badArguments (inQuotes (js "size") ++ js " needs :over or :under") (t_pos t)
  | Some which => Ok (TestSize (bool_decide (which = js "over")) (num limit) (t_pos t))
  end.

Definition transformOf (b : Bound) : BodyTransform :=
  let which := default (js "text") (assoc (js "transform") (b_groups b)) in
  if bool_decide (which = js "content") then BodyContent (match tagValue b (js "content") with Some v => toLowerCase <$> listOf v | None => [] end)
  else if bool_decide (which = js "raw") then BodyRaw else BodyText.

Definition bodyTest (caps : list jsstr) (t : TestNode) : Result CompiledTest :=
  _ ← need caps (js "body") (inQuotes (js "body")) (t_pos t);
  b ← bind caps (js "body") (t_args t)
        (COMPARATOR_TAG ++ MATCH_TAGS ++ [grouped (js "raw") (js "transform"); grouped (js "text") (js "transform"); (js "content", mkTag (Some VStringList) (Some (js "transform")) None)]);
  keys ← positional1 (js "body") b VStringList (t_pos t);
  _ ← noTests (t_name t) (t_tests t);
  spec ← matchSpec b;
  Ok (TestBody (transformOf b) (listOf keys) spec (t_pos t)).

Definition hasflagTest (caps : list jsstr) (t : TestNode) : Result CompiledTest :=
  _ ← need caps (js "imap4flags") (inQuotes (js "hasflag")) (t_pos t);
  b ← bind caps (js "hasflag") (t_args t) (COMPARATOR_TAG ++ MATCH_TAGS);
  _ ← noTests (t_name t) (t_tests t);
  match b_positional b with
  | [p0; _] =>
      _ ← need caps (js "variables") (js "a variable list on " ++ inQuotes (js "hasflag")) (argPos p0);
      '(vars, keys) ← positional2 (js "hasflag") b VStringList VStringList (t_pos t);
      names ← mapR (fun v => flagVariable v (argPos vars)) (listOf vars);
      spec ← matchSpec b;
      Ok (TestHasflag (Some names) (listOf keys) spec (t_pos t))
  | _ =>
      keys ← positional1 (js "hasflag") b VStringList (t_pos t);
      spec ← matchSpec b;
      Ok (TestHasflag None (listOf keys) spec (t_pos t))
  end.

Definition stringTest (caps : list jsstr) (t : TestNode) : Result CompiledTest :=
  _ ← need caps (js "variables") (inQuotes (js "string")) (t_pos t);
  b ← bind caps (js "string") (t_args t) (COMPARATOR_TAG ++ MATCH_TAGS);
  '(sources, keys) ← positional2 (js "string") b VStringList VStringList (t_pos t);
  _ ← noTests (t_name t) (t_tests t);
  spec ← matchSpec b;
  Ok (TestString (listOf sources) (listOf keys) spec (t_pos t)).

Definition mailboxexistsTest (caps : list jsstr) (t : TestNode) : Result CompiledTest :=
  _ ← need caps (js "mailbox") (inQuotes (js "mailboxexists")) (t_pos t);
  b ← bind caps (js "mailboxexists") (t_args t) [];
  names ← positional1 (js "mailboxexists") b VStringList (t_pos t);
  _ ← noTests (t_name t) (t_tests t);
  Ok (TestMailboxexists (listOf names) (t_pos t)).

(** The tests that take no test. *)
Definition leafTest (caps : list jsstr) (t : TestNode) : Result CompiledTest :=
  let named s := bool_decide (t_name t = s) in
  if named (js "header") then headerTest caps t
  else if named (js "address") then addressTest caps false t
  else if named (js "envelope") then addressTest caps true t
  else if named (js "exists") then existsTest caps t
  else if named (js "size") then sizeTest caps t
  else if named (js "body") then bodyTest caps t
  else if named (js "hasflag") then hasflagTest caps t
  else if named (js "string") then stringTest caps t
  else if named (js "mailboxexists") then mailboxexistsTest caps t
  else syntaxError UnknownTest (js "unknown test " ++ inQuotes (t_name t)) (t_pos t).

Fixpoint test (caps : list jsstr) (t : TestNode) {struct t} : Result CompiledTest :=
  let '(mkTest name args tests testList pos) := t in
  let named s := bool_decide (name = s) in
  if named (js "true") || named (js "false") then
    _ ← noArguments caps name args pos;
    _ ← noTests name tests;
    Ok (if named (js "true") then TestTrue pos else TestFalse pos)
  else if named (js "not") then
    _ ← noArguments caps (js "not") args pos;
    if testList then badArguments (inQuotes (js "not") ++ js " takes exactly one test") pos
    else
      match tests with
      | [inner] => x ← test caps inner; Ok (TestNot x pos)
      | _ => badArguments (inQuotes (js "not") ++ js " takes exactly one test") pos
      end
  else if named (js "anyof") || named (js "allof") then
    _ ← noArguments caps name args pos;
    if negb testList then badArguments (inQuotes name ++ js " takes a parenthesised list of tests") pos
    else
      xs ← mapR (test caps) tests;
      Ok (if named (js "anyof") then TestAnyof xs pos else TestAllof xs pos)
  else leafTest caps t.

(** ** Commands *)

Fixpoint addCaps (caps : list jsstr) (pos : SourcePos) (given : list jsstr) : Result (list jsstr) :=
  match given with
  | [] => Ok caps
  | cap :: given =>
      let low := toLowerCase cap in
      if bool_decide (low ∈ SUPPORTED_EXTENSIONS) then addCaps (if bool_decide (low ∈ caps) then caps else caps ++ [low]) pos given
      else syntaxError UnknownExtension (js "unsupported extension " ++ inQuotes cap) pos
  end.

Definition require (caps : list jsstr) (node : CommandNode) : Result (list jsstr) :=
  b ← bind caps (js "require") (c_args node) [];
  given ← positional1 (js "require") b VStringList (c_pos node);
  _ ← noTests (c_name node) (c_tests node);
  match c_block node with
  | Some _ => badArguments (inQuotes (js "require") ++ js " does not take a block") (c_pos node)
  | None => addCaps caps (argPos given) (listOf given)
  end.

Definition flagsTagDef : jsstr * TagDef := (js "flags", mkTag (Some VStringList) None (Some (js "imap4flags"))).
Definition valued (name : jsstr) (kind : ValueKind) : jsstr * TagDef := (name, mkTag (Some kind) None None).
Definition plainTag (name : jsstr) : jsstr * TagDef := (name, mkTag None None None).

Definition keepCommand (caps : list jsstr) (node : CommandNode) : Result CompiledCommand :=
  b ← bind caps (js "keep") (c_args node) [flagsTagDef];
  _ ← positional (js "keep") b [] (c_pos node);
  Ok (CmdKeep (flagsTag b) (c_pos node)).

Definition fileintoCommand (caps : list jsstr) (node : CommandNode) : Result CompiledCommand :=
  _ ← need caps (js "fileinto") (inQuotes (js "fileinto")) (c_pos node);
  b ← bind caps (js "fileinto") (c_args node) [flagsTagDef; (js "create", mkTag None None (Some (js "mailbox")))];
  mailbox ← positional1 (js "fileinto") b VString (c_pos node);
  let m := str mailbox in
  if bool_decide (m = []) then badValue (js "fileinto needs a mailbox name") (argPos mailbox)
  else Ok (CmdFileinto m (flagsTag b) (assocHas (js "create") (b_tags b)) (c_pos node)).

Definition redirectCommand (caps : list jsstr) (node : CommandNode) : Result CompiledCommand :=
  b ← bind caps (js "redirect") (c_args node) [];
  address ← positional1 (js "redirect") b VString (c_pos node);
  let a := str address in
  if literal caps a && negb (isAddress a) then badValue (inQuotes a ++ js " is not a valid address") (argPos address)
  else Ok (CmdRedirect a (c_pos node)).

Definition flagsCommand (op : FlagOp) (caps : list jsstr) (node : CommandNode) : Result CompiledCommand :=
  let name := c_name node in
  _ ← need caps (js "imap4flags") (inQuotes name) (c_pos node);
  b ← bind caps name (c_args node) [];
  match b_positional b with
  | [p0; _] =>
      _ ← need caps (js "variables") (js "a variable name on " ++ inQuotes name) (argPos p0);
      '(variable, flags) ← positional2 name b VString VStringList (c_pos node);
      v ← flagVariable (str variable) (argPos variable);
      Ok (CmdFlags op (Some v) (listOf flags) (c_pos node))
  | _ =>
      flags ← positional1 name b VStringList (c_pos node);
      Ok (CmdFlags op None (listOf flags) (c_pos node))
  end.

Definition modifierOrder : list (jsstr * SetModifier) :=
  [(js "lower", ModLower); (js "upper", ModUpper); (js "lowerfirst", ModLowerfirst); (js "upperfirst", ModUpperfirst); (js "quotewildcard", ModQuotewildcard); (js "length", ModLength)].

Definition setCommand (caps : list jsstr) (node : CommandNode) : Result CompiledCommand :=
  _ ← need caps (js "variables") (inQuotes (js "set")) (c_pos node);
  b ← bind caps (js "set") (c_args node)
        [grouped (js "lower") (js "case"); grouped (js "upper") (js "case"); grouped (js "lowerfirst") (js "first"); grouped (js "upperfirst") (js "first"); plainTag (js "quotewildcard"); plainTag (js "length")];
  '(n, value) ← positional2 (js "set") b VString VString (c_pos node);
  let varName := str n in
  if negb (IDENTIFIER varName) then badValue (inQuotes varName ++ js " is not a valid variable name") (argPos n)
  else Ok (CmdSet (toLowerCase varName) (str value) (snd <$> filter (fun m => assocHas m.1 (b_tags b) = true) modifierOrder) (c_pos node)).

Definition vacationCommand (caps : list jsstr) (node : CommandNode) : Result CompiledCommand :=
  let pos := c_pos node in
  _ ← need caps (js "vacation") (inQuotes (js "vacation")) pos;
  b ← bind caps (js "vacation") (c_args node)
        [valued (js "days") VNumber; valued (js "subject") VString; valued (js "from") VString; valued (js "addresses") VStringList; plainTag (js "mime"); valued (js "handle") VString];
  reason ← positional1 (js "vacation") b VString pos;
  let from := tagString b (js "from") in
  _ ← match from with
      | Some f =>
          if literal caps f && negb (isAddress f) && negb (hasAngleAddress f)
          then badValue (inQuotes (js ":from") ++ js " " ++ inQuotes f ++ js " is not a valid address") (default pos (argPos <$> tagValue b (js "from")))
          else Ok tt
      | None => Ok tt
      end;
  Ok (CmdVacation (mkVacation (str reason) (num <$> tagValue b (js "days")) (tagString b (js "subject")) from (default [] (listOf <$> tagValue b (js "addresses")))
        (assocHas (js "mime") (b_tags b)) (tagString b (js "handle")) pos)).

Definition bucketCommand (caps : list jsstr) (node : CommandNode) : Result CompiledCommand :=
  _ ← need caps (js "vnd.postroom.bucket") (inQuotes (js "bucket")) (c_pos node);
  b ← bind caps (js "bucket") (c_args node) [];
  bucket ← positional1 (js "bucket") b VString (c_pos node);
  let v := str bucket in
  if literal caps v && negb (BUCKET_NAME v)
  then badValue (inQuotes v ++ js " is not a valid bucket name (1-64 of letters, digits, space, " ++ inQuotes (js "_") ++ js ", " ++ inQuotes (js ".") ++ js " and " ++ inQuotes (js "-") ++ js ", starting with a letter or digit)") (argPos bucket)
  else Ok (CmdBucket v (c_pos node)).

Definition command (caps : list jsstr) (node : CommandNode) : Result CompiledCommand :=
  let name := c_name node in
  let pos := c_pos node in
  let named s := bool_decide (name = s) in
  match c_block node with
  | Some _ => badArguments (inQuotes name ++ js " does not take a block") pos
  | None =>
      _ ← noTests name (c_tests node);
      if named (js "stop") then _ ← noArguments caps name (c_args node) pos; Ok (CmdStop pos)
      else if named (js "discard") then _ ← noArguments caps name (c_args node) pos; Ok (CmdDiscard pos)
      else if named (js "keep") then keepCommand caps node
      else if named (js "fileinto") then fileintoCommand caps node
      else if named (js "redirect") then redirectCommand caps node
      else if named (js "setflag") then flagsCommand Setflag caps node
      else if named (js "addflag") then flagsCommand Addflag caps node
      else if named (js "removeflag") then flagsCommand Removeflag caps node
      else if named (js "set") then setCommand caps node
      else if named (js "vacation") then vacationCommand caps node
      else if named (js "bucket") then bucketCommand caps node
      else syntaxError UnknownCommand (js "unknown command " ++ inQuotes name) pos
  end.

(** [chain.push]: the open chain is the last command. *)
Definition pushBranch (br : option CompiledTest * list CompiledCommand) (out : list CompiledCommand) : list CompiledCommand :=
  match last out with
  | Some (CmdIf branches pos) => take (length out - 1) out ++ [CmdIf (branches ++ [br]) pos]
  | _ => out
  end.

Section block.
Variable branch : list jsstr -> CommandNode -> Result (option CompiledTest * list CompiledCommand).

(** [block] from a state of its loop: what is compiled, whether a chain is open, the capabilities. *)
Fixpoint block (topLevel : bool) (nodes : list CommandNode) (out : list CompiledCommand) (chain : bool) (caps : list jsstr) : Result (list CompiledCommand * list jsstr) :=
  match nodes with
  | [] => Ok (out, caps)
  | node :: nodes =>
      let name := c_name node in
      let named s := bool_decide (name = s) in
      if named (js "elsif") || named (js "else") then
        if negb chain then syntaxError OrphanElse (inQuotes name ++ js " without a preceding " ++ inQuotes (js "if")) (c_pos node)
        else
          br ← branch caps node;
          block topLevel nodes (pushBranch br out) (negb (named (js "else"))) caps
      else if named (js "if") then
        br ← branch caps node;
        block topLevel nodes (out ++ [CmdIf [br] (c_pos node)]) true caps
      else if named (js "require") then
        if negb topLevel then syntaxError RequirePosition (inQuotes (js "require") ++ js " is only allowed at the top of the script") (c_pos node)
        else
          caps ← require caps node;
          block topLevel nodes out false caps
      else
        c ← command caps node;
        block topLevel nodes (out ++ [c]) false caps
  end.
End block.

Fixpoint branch (caps : list jsstr) (node : CommandNode) {struct node} : Result (option CompiledTest * list CompiledCommand) :=
  let '(mkCommand name args tests testList body pos) := node in
  match body with
  | None => badArguments (inQuotes name ++ js " needs a { block }") pos
  | Some body =>
      _ ← noArguments caps name args pos;
      t ← (if bool_decide (name = js "else") then _ ← noTests name tests; Ok None
           else if testList then badArguments (inQuotes name ++ js " takes exactly one test") pos
           else match tests with
                | [inner] => t ← test caps inner; Ok (Some t)
                | _ => badArguments (inQuotes name ++ js " takes exactly one test") pos
                end);
      r ← block branch false body [] false caps;
      Ok (t, r.1)
  end.

(** A require after another command. *)
Fixpoint requirePosition (nodes : list CommandNode) (requiresDone : bool) : Result unit :=
  match nodes with
  | [] => Ok tt
  | c :: nodes =>
      if negb (bool_decide (c_name c = js "require")) then requirePosition nodes true
      else if requiresDone then syntaxError RequirePosition (inQuotes (js "require") ++ js " must come before any other command") (c_pos c)
      else requirePosition nodes requiresDone
  end.

Definition compile (script : ScriptNode) : Result CompiledScript :=
  _ ← requirePosition script false;
  '(cs, caps) ← block branch true script [] false [];
  Ok (mkScript caps cs).
End compiler.

(** ** What a compiled script may hold *)

Section wf.
Context (caps : list jsstr).

(** The extension is required. *)
Definition Needs (ext : jsstr) : Prop := ext ∈ caps.

(** A literal stays what it is, so it has been checked. *)
Definition Checked (check : jsstr -> bool) (s : jsstr) : Prop := literal caps s = true -> check s = true.

Inductive WfTest : CompiledTest -> Prop :=
  | Wf_true pos : WfTest (TestTrue pos)
  | Wf_false pos : WfTest (TestFalse pos)
  | Wf_not x pos : WfTest x -> WfTest (TestNot x pos)
  | Wf_anyof ts pos : Forall WfTest ts -> WfTest (TestAnyof ts pos)
  | Wf_allof ts pos : Forall WfTest ts -> WfTest (TestAllof ts pos)
  | Wf_header names keys spec pos : Forall (Checked FIELD_NAME) names -> WfTest (TestHeader names keys spec pos)
  | Wf_address names keys spec part pos : Forall (Checked FIELD_NAME) names -> WfTest (TestAddress names keys spec part pos)
  | Wf_envelope names keys spec part pos :
      Needs (js "envelope") -> Forall (Checked (fun n => bool_decide (n ∈ ENVELOPE_PARTS))) names -> WfTest (TestEnvelope names keys spec part pos)
  | Wf_exists names pos : Forall (Checked FIELD_NAME) names -> WfTest (TestExists names pos)
  | Wf_size over limit pos : WfTest (TestSize over limit pos)
  | Wf_body transform keys spec pos : Needs (js "body") -> WfTest (TestBody transform keys spec pos)
  | Wf_hasflag vars keys spec pos : Needs (js "imap4flags") -> (vars <> None -> Needs (js "variables")) -> WfTest (TestHasflag vars keys spec pos)
  | Wf_string sources keys spec pos : Needs (js "variables") -> WfTest (TestString sources keys spec pos)
  | Wf_mailboxexists names pos : Needs (js "mailbox") -> WfTest (TestMailboxexists names pos).

Definition WfFlags (flags : option (list jsstr)) : Prop := flags <> None -> Needs (js "imap4flags").

(** Branches: only the last, which is not the first, may be without a test. *)
Definition tested (b : option CompiledTest * list CompiledCommand) : Prop := b.1 <> None.
Definition chained (branches : list (option CompiledTest * list CompiledCommand)) : Prop :=
  exists first pre final, branches = first :: pre ++ final /\ tested first /\ Forall tested pre /\ (length final <= 1)%nat.

Inductive WfCommand : CompiledCommand -> Prop :=
  | Wf_if branches pos : chained branches -> Forall (fun b => (forall t, b.1 = Some t -> WfTest t) /\ Forall WfCommand b.2) branches -> WfCommand (CmdIf branches pos)
  | Wf_stop pos : WfCommand (CmdStop pos)
  | Wf_discard pos : WfCommand (CmdDiscard pos)
  | Wf_keep flags pos : WfFlags flags -> WfCommand (CmdKeep flags pos)
  | Wf_fileinto mailbox flags create pos :
      Needs (js "fileinto") -> WfFlags flags -> (create = true -> Needs (js "mailbox")) -> mailbox <> [] -> WfCommand (CmdFileinto mailbox flags create pos)
  | Wf_redirect address pos : Checked isAddress address -> WfCommand (CmdRedirect address pos)
  | Wf_flags op variable flags pos : Needs (js "imap4flags") -> (variable <> None -> Needs (js "variables")) -> WfCommand (CmdFlags op variable flags pos)
  | Wf_set name value modifiers pos : Needs (js "variables") -> WfCommand (CmdSet name value modifiers pos)
  | Wf_vacation v : Needs (js "vacation") -> (forall f, v_from v = Some f -> Checked (fun f => isAddress f || hasAngleAddress f) f) -> WfCommand (CmdVacation v)
  | Wf_bucket name pos : Needs (js "vnd.postroom.bucket") -> Checked BUCKET_NAME name -> WfCommand (CmdBucket name pos).
End wf.

(** ** Induction on the trees *)

Lemma CompiledTest_ind' (P : CompiledTest -> Prop) :
  (forall x pos, P x -> P (TestNot x pos)) -> (forall ts pos, Forall P ts -> P (TestAnyof ts pos)) -> (forall ts pos, Forall P ts -> P (TestAllof ts pos)) ->
  (forall t, (forall x pos, t <> TestNot x pos) -> (forall ts pos, t <> TestAnyof ts pos) -> (forall ts pos, t <> TestAllof ts pos) -> P t) -> forall t, P t.
Proof.
  intros Hn Ho Ha Hl. fix IH 1. intros [pos|pos|x pos|ts pos|ts pos| | | | | | | | |]; try (by apply Hl).
  - by apply Hn.
  - apply Ho. induction ts; constructor; auto.
  - apply Ha. induction ts; constructor; auto.
Qed.

Lemma CompiledCommand_ind' (P : CompiledCommand -> Prop) :
  (forall branches pos, Forall (fun b => Forall P b.2) branches -> P (CmdIf branches pos)) -> (forall c, (forall branches pos, c <> CmdIf branches pos) -> P c) -> forall c, P c.
Proof.
  intros Hi Hl. fix IH 1. intros [branches pos| | | | | | | | |]; try (by apply Hl). apply Hi. induction branches as [|[t b] branches IHb]; constructor; [|done]. cbn. induction b; constructor; auto.
Qed.

Lemma TestNode_ind' (P : TestNode -> Prop) : (forall name args tests testList pos, Forall P tests -> P (mkTest name args tests testList pos)) -> forall t, P t.
Proof. intros H. fix IH 1. intros [name args tests testList pos]. apply H. induction tests; constructor; auto. Qed.

Lemma CommandNode_ind' (P : CommandNode -> Prop) :
  (forall name args tests testList block pos, (forall b, block = Some b -> Forall P b) -> P (mkCommand name args tests testList block pos)) -> forall c, P c.
Proof. intros H. fix IH 1. intros [name args tests testList block pos]. apply H. destruct block as [b|]; [|done]. intros b' [= <-]. induction b; constructor; auto. Qed.

(** ** Requiring more keeps what is well-formed *)

Lemma literal_mono caps caps' s : caps ⊆ caps' -> literal caps' s = true -> literal caps s = true.
Proof.
  intros Hsub. unfold literal, variables. rewrite !orb_true_iff, !negb_true_iff, !bool_decide_eq_false. intros [Hv|]; [left|by right]. intros Hin. by apply Hv, Hsub.
Qed.

Lemma Checked_mono caps caps' check s : caps ⊆ caps' -> Checked caps check s -> Checked caps' check s.
Proof. intros Hsub Hc Hl. apply Hc. by eapply literal_mono. Qed.

Lemma Forall_Checked_mono caps caps' check l : caps ⊆ caps' -> Forall (Checked caps check) l -> Forall (Checked caps' check) l.
Proof. intros Hsub Hl. eapply Forall_impl; [done|]. intros s. by apply Checked_mono. Qed.

Lemma Needs_mono caps caps' ext : caps ⊆ caps' -> Needs caps ext -> Needs caps' ext.
Proof. intros Hsub. apply Hsub. Qed.

Lemma WfTest_mono caps caps' t : caps ⊆ caps' -> WfTest caps t -> WfTest caps' t.
Proof.
  intros Hsub. induction t as [x pos IH|ts pos IH|ts pos IH|t H1 H2 H3] using CompiledTest_ind'.
  - inversion 1; subst. constructor. auto.
  - inversion 1; subst. constructor. rewrite Forall_forall in *. eauto.
  - inversion 1; subst. constructor. rewrite Forall_forall in *. eauto.
  - inversion 1; subst; try (by destruct (H1 _ _ eq_refl) || by destruct (H2 _ _ eq_refl) || by destruct (H3 _ _ eq_refl)); by constructor; eauto using Needs_mono, Forall_Checked_mono.
Qed.

Lemma WfCommand_mono caps caps' c : caps ⊆ caps' -> WfCommand caps c -> WfCommand caps' c.
Proof.
  intros Hsub. induction c as [branches pos IH|c H1] using CompiledCommand_ind'.
  - inversion 1 as [? ? Hc Hf| | | | | | | | |]; subst. constructor; [done|]. rewrite Forall_forall in *. intros b Hb. destruct (Hf b Hb) as [Ht Hbs]. specialize (IH b Hb). split.
    + intros t Et. eapply WfTest_mono; eauto.
    + rewrite Forall_forall in *. eauto.
  - inversion 1; subst; [by destruct (H1 _ _ eq_refl)|..]; constructor; unfold WfFlags in *; eauto using Needs_mono, Checked_mono.
Qed.

(** ** Validation ends, and what it lets through is well-formed *)

Section correct.
Context `{R : Runtime}.

Lemma need_good caps ext what pos : Good (need caps ext what pos) (fun _ => ext ∈ caps).
Proof. unfold need. by case_bool_decide. Qed.

(** A tag that was given is one the command knows, and its extension is required. *)
Definition BoundOk (caps : list jsstr) (tags : list (jsstr * TagDef)) (b : Bound) : Prop :=
  forall name v, assoc name (b_tags b) = Some v -> exists def, assoc name tags = Some def /\ forall ext, td_ext def = Some ext -> ext ∈ caps.

Lemma bindPositional_good caps tags args b : BoundOk caps tags b -> Good (bindPositional args b) (BoundOk caps tags).
Proof. revert b. induction args as [|a args IH]; intros b Hb; [done|]. cbn [bindPositional]. destruct a; [done|by apply IH..]. Qed.

Lemma assoc_app {A} k (l1 l2 : list (jsstr * A)) : assoc k (l1 ++ l2) = match assoc k l1 with Some v => Some v | None => assoc k l2 end.
Proof. unfold assoc. induction l1 as [|[x v] l1 IH]; [done|]. cbn. by case_bool_decide. Qed.

Lemma setTag_ok caps tags name pos value b def :
  assoc name tags = Some def -> (forall ext, td_ext def = Some ext -> ext ∈ caps) -> BoundOk caps tags b -> BoundOk caps tags (setTag name pos value b).
Proof.
  intros Hd He Hb n v. unfold setTag. cbn [b_tags]. rewrite assoc_app. destruct (assoc n (b_tags b)) as [w|] eqn:E; [intros _; by eapply Hb|]. unfold assoc. cbn. case_bool_decide as En; [subst; by exists def|done].
Qed.

Lemma bindGroup_good caps tags def name pos b : BoundOk caps tags b -> Good (bindGroup def name pos b) (BoundOk caps tags).
Proof. intros Hb. unfold bindGroup. destruct (td_group def); [|done]. by destruct (assoc _ _). Qed.

Lemma bindTags_good caps cmd tags args b : BoundOk caps tags b -> Good (bindTags caps cmd tags args b) (BoundOk caps tags).
Proof.
  remember (length args) as n eqn:Hn. assert (Hle : (length args <= n)%nat) by lia. clear Hn. revert args b Hle. induction n as [|n IH]; intros [|a args] b Hle Hb; [done|cbn in Hle; lia|done|].
  cbn [length] in Hle. destruct a as [name pos| | |]; [|by apply bindPositional_good..]. cbn [bindTags]. destruct (assoc name tags) as [def|] eqn:Ed; [|done].
  eapply (good_bind _ _ (fun _ => forall ext, td_ext def = Some ext -> ext ∈ caps)).
  { destruct (td_ext def) as [ext|]; [|done]. eapply good_weaken; [apply need_good|]. cbn. intros _ Hin ? [= <-]. done. }
  intros _ He. destruct (assocHas _ _); [done|]. eapply good_bind; [by apply bindGroup_good|]. intros b1 Hb1. destruct (td_value def) as [kind|]; [|apply IH; [lia|by eapply setTag_ok]].
  destruct args as [|v args]; [done|]. cbn [length] in Hle. destruct (fits v kind); [|done]. apply IH; [lia|by eapply setTag_ok].
Qed.

Lemma bind_good caps cmd args tags : Good (bind caps cmd args tags) (BoundOk caps tags).
Proof. by apply bindTags_good. Qed.

Lemma checkKinds_good name kinds p : Good (checkKinds name kinds p) (fun _ => True).
Proof. revert p. induction kinds as [|k kinds IH]; intros [|a p]; try done. cbn [checkKinds]. by destruct (fits a k). Qed.

Lemma positional_good name b kinds pos : Good (positional name b kinds pos) (fun p => length p = length kinds).
Proof. unfold positional. cbv zeta. destruct (Nat.eqb_spec (length (b_positional b)) (length kinds)); [|done]. eapply good_bind; [apply checkKinds_good|done]. Qed.

Lemma positional1_good name b kind pos : Good (positional1 name b kind pos) (fun _ => True).
Proof. unfold positional1. eapply good_bind; [apply positional_good|]. by intros [|a [|]]. Qed.

Lemma positional2_good name b k1 k2 pos : Good (positional2 name b k1 k2 pos) (fun _ => True).
Proof. unfold positional2. eapply good_bind; [apply positional_good|]. by intros [|a [|c [|]]]. Qed.

Lemma noArguments_good caps name args pos : Good (noArguments caps name args pos) (fun _ => True).
Proof. unfold noArguments. eapply good_bind; [apply bind_good|]. intros b _. by eapply good_bind; [apply positional_good|]. Qed.

Lemma matchSpec_good b : Good (matchSpec b) (fun _ => True).
Proof. unfold matchSpec. cbv zeta. destruct (tagValue _ _); [|done]. by case_bool_decide. Qed.

Lemma headerNames_good caps names pos : Good (headerNames caps names pos) (Forall (Checked caps FIELD_NAME)).
Proof.
  unfold headerNames. destruct (find _ names) eqn:E; [done|]. cbn. apply Forall_forall. intros n Hn Hl. apply list_elem_of_In, (find_none _ _ E) in Hn. rewrite Hl in Hn. by destruct (FIELD_NAME n).
Qed.

Lemma noTests_good name tests : Good (noTests name tests) (fun _ => True).
Proof. by destruct tests. Qed.

Lemma flagVariable_good name pos : Good (flagVariable name pos) (fun _ => True).
Proof. unfold flagVariable. by destruct (IDENTIFIER name). Qed.

Lemma mapR_good {A B} (f : A -> Result B) (l : list A) (P : B -> Prop) : Forall (fun x => Good (f x) P) l -> Good (mapR f l) (Forall P).
Proof.
  induction 1 as [|x l Hx _ IH]; [by constructor|]. cbn [mapR]. eapply good_bind; [done|]. intros y Hy. eapply good_bind; [done|]. intros ys Hys. by constructor.
Qed.

Lemma envelopePart_good caps pos n : Good (envelopePart caps pos n) (Checked caps (fun n => bool_decide (n ∈ ENVELOPE_PARTS))).
Proof.
  unfold envelopePart. cbv zeta. destruct (literal caps n) eqn:E; cbn [negb]; [|cbn; intros Hl; congruence]. case_bool_decide as Hin; [|done]. cbn. intros _. by apply bool_decide_eq_true.
Qed.

Create HintDb good.
#[local] Hint Resolve need_good bind_good positional_good positional1_good positional2_good noArguments_good matchSpec_good headerNames_good noTests_good flagVariable_good : good.

(** One step of a validation that has a lemma. *)
Ltac good_step := eapply good_bind; [solve [eauto with good]|cbn beta; intros].
Ltac good_steps := repeat (good_step; repeat match goal with p : (_ * _)%type |- _ => destruct p end).

Lemma leafTest_good caps t : Good (leafTest caps t) (WfTest caps).
Proof.
  unfold leafTest. cbv zeta.
  repeat (case_bool_decide as Hname; clear Hname).
  - unfold headerTest. good_steps. by constructor.
  - unfold addressTest. eapply (good_bind _ _ (fun _ => True)); [done|]. intros _ _. good_steps. by constructor.
  - unfold addressTest. good_steps. eapply good_bind; [apply mapR_good, Forall_forall; intros n _; apply envelopePart_good|]. cbn beta. intros. good_steps. by constructor.
  - unfold existsTest. good_steps. by constructor.
  - unfold sizeTest. good_steps. destruct (assoc _ _); [constructor|done].
  - unfold bodyTest. good_steps. by constructor.
  - unfold hasflagTest. good_steps. destruct (b_positional _) as [|p0 [|p1 [|]]]; good_steps; try (by constructor).
    eapply good_bind; [apply mapR_good, Forall_forall; intros n _; apply flagVariable_good|]. cbn beta. intros. good_steps. by constructor.
  - unfold stringTest. good_steps. by constructor.
  - unfold mailboxexistsTest. good_steps. by constructor.
  - done.
Qed.

Lemma test_good caps t : Good (test caps t) (WfTest caps).
Proof.
  induction t as [name args tests testList pos IH] using TestNode_ind'. cbn [test]. cbv zeta.
  destruct (_ || _); [good_steps; case_bool_decide; constructor|]. case_bool_decide.
  - good_step. destruct testList; [done|]. destruct tests as [|x [|]]; [done| |done]. inversion IH; subst. eapply good_bind; [done|]. intros y Hy. by constructor.
  - destruct (_ || _); [|apply leafTest_good]. good_step. destruct testList; cbn [negb]; [|done]. eapply good_bind; [by apply mapR_good|]. intros ts Hts. case_bool_decide; by constructor.
Qed.

(** What is required is supported, and nothing required is dropped. *)
Definition Extends (caps caps' : list jsstr) : Prop := caps ⊆ caps' /\ (Forall (.∈ SUPPORTED_EXTENSIONS) caps -> Forall (.∈ SUPPORTED_EXTENSIONS) caps').

#[export] Instance Extends_preorder : PreOrder Extends.
Proof. split; [by intros caps|]. intros c1 c2 c3 [H1 H2] [H3 H4]. split; [set_solver|auto]. Qed.

Lemma addCaps_good caps pos given : Good (addCaps caps pos given) (Extends caps).
Proof.
  revert caps. induction given as [|cap given IH]; intros caps; [by cbn|]. cbn [addCaps]. cbv zeta. case_bool_decide as Hs; [|done]. eapply good_weaken; [apply IH|]. cbn beta. intros caps' He.
  case_bool_decide; [done|]. etrans; [|done]. split; [set_solver|]. intros Hc. apply Forall_app. split; [done|]. by apply Forall_singleton.
Qed.

Lemma require_good caps node : Good (require caps node) (Extends caps).
Proof. unfold require. good_steps. destruct (c_block node); [done|apply addCaps_good]. Qed.

Lemma flagsTag_ok caps tags b : BoundOk caps (flagsTagDef :: tags) b -> WfFlags caps (flagsTag b).
Proof.
  intros Hb Hf. unfold flagsTag, tagValue in Hf. destruct (assoc (js "flags") (b_tags b)) as [v|] eqn:E; [|done]. destruct (Hb _ _ E) as (def & Hd & He). vm_compute in Hd. injection Hd as <-. by apply He.
Qed.

Lemma checked_intro caps check s : literal caps s && negb (check s) = false -> Checked caps check s.
Proof. intros H Hl. rewrite Hl in H. by destruct (check s). Qed.

Lemma command_good caps node : Good (command caps node) (WfCommand caps).
Proof.
  unfold command. cbv zeta. destruct (c_block node); [done|]. good_step.
  repeat (case_bool_decide as Hname; clear Hname).
  - good_step. constructor.
  - good_step. constructor.
  - unfold keepCommand. good_steps. constructor. by eapply flagsTag_ok.
  - unfold fileintoCommand. good_steps. case_bool_decide; [done|]. constructor; [done|by eapply flagsTag_ok| |done].
    unfold assocHas. rewrite bool_decide_eq_true. intros [v E]. match goal with Hb : BoundOk _ _ _ |- _ => destruct (Hb _ _ E) as (def & Hd & He) end. vm_compute in Hd. injection Hd as <-. by apply He.
  - unfold redirectCommand. good_steps. destruct (_ && _) eqn:E; [done|]. constructor. by apply checked_intro.
  - unfold flagsCommand. cbv zeta. good_steps. destruct (b_positional _) as [|p0 [|p1 [|]]]; good_steps; by constructor.
  - unfold flagsCommand. cbv zeta. good_steps. destruct (b_positional _) as [|p0 [|p1 [|]]]; good_steps; by constructor.
  - unfold flagsCommand. cbv zeta. good_steps. destruct (b_positional _) as [|p0 [|p1 [|]]]; good_steps; by constructor.
  - unfold setCommand. good_steps. destruct (negb _); [done|]. by constructor.
  - unfold vacationCommand. cbv zeta. good_steps.
    match goal with Hb : BoundOk _ _ ?b |- _ => eapply (good_bind _ _ (fun _ => forall f, tagString b (js "from") = Some f -> Checked caps (fun f => isAddress f || hasAngleAddress f) f)) end.
    + destruct (tagString _ _) as [f|]; [|done]. destruct (_ && _) eqn:E; [done|]. intros ? [= <-]. apply checked_intro. by rewrite negb_orb, andb_assoc.
    + intros _ Hf. constructor; done.
  - unfold bucketCommand. good_steps. destruct (_ && _) eqn:E; [done|]. constructor; [done|]. by apply checked_intro.
  - done.
Qed.
(** What a branch gives; only an else has no test. *)
Definition BranchOk (caps : list jsstr) (node : CommandNode) (br : option CompiledTest * list CompiledCommand) : Prop :=
  (forall t, br.1 = Some t -> WfTest caps t) /\ Forall (WfCommand caps) br.2 /\ (tested br <-> c_name node <> js "else").

(** What is compiled so far; while a chain is open, it ends with an if that has no else. *)
Definition OutOk (caps : list jsstr) (chain : bool) (out : list CompiledCommand) : Prop :=
  Forall (WfCommand caps) out /\
  (chain = true -> exists before first rest pos, out = before ++ [CmdIf (first :: rest) pos] /\ Forall tested (first :: rest)).

Lemma OutOk_closed caps caps' out c : Extends caps caps' -> Forall (WfCommand caps) out -> Forall (WfCommand caps') c -> OutOk caps' false (out ++ c).
Proof. intros [Hsub _] Ho Hc. split; [|done]. apply Forall_app. split; [|done]. eapply Forall_impl; [done|]. intros x. by apply WfCommand_mono. Qed.

Lemma chained_open first rest : Forall tested (first :: rest) -> chained (first :: rest).
Proof. inversion 1. exists first, rest, []. rewrite app_nil_r. by split_and!; [..|cbn; lia]. Qed.

Lemma chained_push first rest br : Forall tested (first :: rest) -> chained (first :: rest ++ [br]).
Proof. inversion 1. exists first, rest, [br]. by split_and!; [..|cbn; lia]. Qed.

Lemma pushBranch_ok caps node br out : OutOk caps true out -> BranchOk caps node br -> OutOk caps (negb (bool_decide (c_name node = js "else"))) (pushBranch br out).
Proof.
  intros [Ho Hc] (Ht & Hb & Hn). destruct (Hc eq_refl) as (before & first & rest & pos & -> & Htested). clear Hc. unfold pushBranch. rewrite last_snoc, length_app. cbn [length].
  replace (length before + 1 - 1)%nat with (length before) by lia. rewrite take_app_length. apply Forall_app in Ho as [Hbefore Hif]. apply Forall_inv in Hif.
  inversion Hif as [? ? _ Hbs| | | | | | | | |]; subst. split.
  - apply Forall_app. split; [done|]. apply Forall_singleton. constructor; [by apply chained_push|]. apply Forall_app. split; [done|]. by apply Forall_singleton.
  - rewrite negb_true_iff, bool_decide_eq_false. intros He%Hn. exists before, first, (rest ++ [br]), pos. split; [done|]. rewrite app_comm_cons, Forall_app. by split; [|constructor].
Qed.

Lemma block_good (branch : list jsstr -> CommandNode -> Result (option CompiledTest * list CompiledCommand)) topLevel nodes out chain caps :
  Forall (fun node => forall caps, Good (branch caps node) (BranchOk caps node)) nodes -> OutOk caps chain out ->
  Good (block branch topLevel nodes out chain caps) (fun r => Extends caps r.2 /\ (topLevel = false -> r.2 = caps) /\ Forall (WfCommand r.2) r.1).
Proof.
  intros Hn. revert out chain caps. induction Hn as [|node nodes Hb _ IH]; intros out chain caps Ho; [split_and!; [done|done|apply Ho]|]. cbn [block]. cbv zeta. destruct (_ || _) eqn:E1.
  - destruct chain; cbn [negb]; [|done]. eapply good_bind; [apply Hb|]. intros br Hbr. apply IH. by apply pushBranch_ok.
  - apply orb_false_iff in E1 as [_ Helse%bool_decide_eq_false]. case_bool_decide as E2.
    + eapply good_bind; [apply Hb|]. intros br (Ht & Hbs & Htested). assert (Hf : Forall tested [br]) by (constructor; [by apply Htested|constructor]). apply IH. split.
      * apply Forall_app. split; [apply Ho|]. apply Forall_singleton. constructor; [by apply chained_open|]. by apply Forall_singleton.
      * intros _. by exists out, br, [], (c_pos node).
    + case_bool_decide as E3.
      * destruct topLevel; cbn [negb]; [|done]. eapply good_bind; [apply require_good|]. intros caps' He. eapply good_weaken; [apply IH|].
        -- rewrite <- (app_nil_r out). eapply OutOk_closed; [done|apply Ho|constructor].
        -- cbn beta. intros r (Hr & _ & Hw). split_and!; [by etrans|done|done].
      * eapply good_bind; [apply command_good|]. intros c Hc. apply IH. eapply OutOk_closed; [done|apply Ho|by apply Forall_singleton].
Qed.

Lemma branch_good node caps : Good (branch caps node) (BranchOk caps node).
Proof.
  revert caps. induction node as [name args tests testList body pos IH] using CommandNode_ind'. intros caps. cbn [branch]. destruct body as [body|]; [|done]. specialize (IH body eq_refl).
  eapply good_bind; [apply noArguments_good|]. intros _ _.
  eapply (good_bind _ _ (fun t => (forall x, t = Some x -> WfTest caps x) /\ (t <> None <-> name <> js "else"))).
  - case_bool_decide; [eapply good_bind; [apply noTests_good|]; by intros _ _|]. destruct testList; [done|]. destruct tests as [|x [|]]; [done| |done].
    eapply good_bind; [apply test_good|]. intros y Hy. split; [by intros ? [= <-]|done].
  - intros t [Ht Hname]. eapply good_bind; [apply block_good; [done|by split]|]. intros r (_ & He & Hr). rewrite (He eq_refl) in Hr. by split_and!.
Qed.

Lemma requirePosition_good nodes requiresDone : Good (requirePosition nodes requiresDone) (fun _ => True).
Proof. revert requiresDone. induction nodes as [|c nodes IH]; intros requiresDone; [done|]. cbn [requirePosition]. destruct (negb _); [apply IH|]. by destruct requiresDone. Qed.

Lemma compile_good script : Good (compile script) (fun p => Forall (WfCommand (capabilities p)) (cs_commands p) /\ Forall (.∈ SUPPORTED_EXTENSIONS) (capabilities p)).
Proof.
  unfold compile. eapply good_bind; [apply requirePosition_good|]. intros _ _. eapply good_bind.
  - apply block_good; [apply Forall_forall; intros node _ caps; apply branch_good|by split].
  - intros [cs caps] ([_ Hs] & _ & Hw). split; [done|by apply Hs].
Qed.

(** C14: Validation always ends, with a compiled script or a syntax error, and a compiled script is well-formed: every
    command and test in it that belongs to an extension has that extension among the capabilities, all of which are
    supported; an if has its elsif branches and at most one else, at the end; and a header name, an envelope part, an
    address or a bucket name that no variable can change is a valid one. *)
Theorem compiled_well_formed script :
  match compile script with
  | Ok p => Forall (WfCommand (capabilities p)) (cs_commands p) /\ Forall (.∈ SUPPORTED_EXTENSIONS) (capabilities p)
  | Throw _ => True
  | Stuck => False
  end.
Proof. apply compile_good. Qed.
End correct.
