(* ===== verification/SieveInterp.v ===== *)
(** * SieveInterp: the interpreter of compiled Sieve scripts ([sieve/src/interpreter.ts])

    A method of [Run] is a function of its fields: it gives a value, unwinds by [Stop], or throws a
    [SieveRuntimeError]. The message and the options are the interfaces the worker implements; SHA-256 is the
    parameter [Sha256]. The Maps and the Set of the source are [gmap]s and a [gset]: nothing iterates over them. *)
From stdpp Require Import gmap.
From S2P Require Import Prelude JsString JsStringFacts DkimCanon Utf8 SieveMatch MimeWords MimeAddress SieveSyntax SieveCompile.

Inductive RuntimeErrorCode := WorkLimit | ActionLimit | RunBadValue | DuplicateVacation.
Record SieveRuntimeError := mkRuntimeError { re_code : RuntimeErrorCode; re_detail : jsstr; re_pos : SourcePos }.

(** ** message.ts *)

Record SieveBodyPart := mkPart { sp_contentType : jsstr; sp_content : jsstr; sp_disposition : option jsstr }.

Record SieveMessage := mkMessage {
  m_size : Z; m_envelopeFrom : jsstr; m_envelopeTo : jsstr; m_header : jsstr -> list jsstr; m_rawBody : jsstr; m_bodyParts : list SieveBodyPart }.

(** ** Actions and results *)

Record VacationAction := mkVacationAction {
  va_to : jsstr; va_subject : jsstr; va_from : option jsstr; va_reason : jsstr; va_mime : bool; va_handle : jsstr; va_days : Z; va_suppressed : option jsstr; va_line : Z }.

(** [respond], which is [suppressed === null]. *)
Definition va_respond (v : VacationAction) : bool := bool_decide (va_suppressed v = None).

Inductive SieveAction :=
  | ActKeep (mailbox : jsstr) (flags : option (list jsstr)) (implicit : bool) (line : Z)
  | ActFileinto (mailbox : jsstr) (flags : option (list jsstr)) (create : bool) (line : Z)
  | ActDiscard (line : Z)
  | ActRedirect (address : jsstr) (allowed : bool) (reason : option jsstr) (line : Z)
  | ActVacation (v : VacationAction).

Record TraceEntry := mkTrace { tr_line : Z; tr_column : Z; tr_event : jsstr }.

Record SieveResult := mkResult {
  sr_actions : list SieveAction; sr_implicitKeep : bool; sr_bucket : option jsstr; sr_error : option SieveRuntimeError; sr_trace : list TraceEntry }.

Record ExecuteOptions := mkOptions {
  o_userAddresses : option (list jsstr); o_ownsAddress : option (jsstr -> bool); o_mailboxExists : option (jsstr -> bool);
  o_recentlyResponded : option (jsstr -> jsstr -> Z -> bool); o_inbox : option jsstr; o_maxWork : option Z; o_maxRedirects : option Z;
  o_maxActions : option Z; o_maxStringLength : option Z; o_maxTrace : option Z; o_minVacationDays : option Z; o_maxVacationDays : option Z }.

Definition ADDRESS_HEADERS : list jsstr :=
  [js "from"; js "to"; js "cc"; js "bcc"; js "sender"; js "reply-to"; js "resent-from"; js "resent-to"; js "resent-cc"; js "resent-bcc"; js "resent-sender";
   js "resent-reply-to"; js "return-path"; js "delivered-to"; js "envelope-to"; js "x-original-to"; js "errors-to"; js "mail-followup-to"; js "mail-reply-to";
   js "disposition-notification-to"].

Definition LIST_HEADERS : list jsstr := [js "list-id"; js "list-help"; js "list-subscribe"; js "list-unsubscribe"; js "list-post"; js "list-owner"; js "list-archive"].
Definition RECIPIENT_HEADERS : list jsstr := [js "to"; js "cc"; js "bcc"; js "resent-to"; js "resent-cc"; js "resent-bcc"].

(** What [.] matches. *)
Definition notLineEnd (c : Z) : bool := negb ((c =? LF) || (c =? CR) || (c =? 0x2028) || (c =? 0x2029)).

(** [/^(owner-.*|.*-request|mailer-daemon|listserv|majordomo|no-?reply|postmaster)$/i]. *)
Definition AUTOMATED_SENDER (s : jsstr) : bool :=
  let low := lower_char <$> s in
  (startsWith (js "owner-") low && forallb notLineEnd (drop 6 s)) ||
  (endsWith (js "-request") low && forallb notLineEnd (take (length s - 8) s)) ||
  bool_decide (low ∈ [js "mailer-daemon"; js "listserv"; js "majordomo"; js "no-reply"; js "noreply"; js "postmaster"]).

(** ** The state of a run *)

Record Run := mkRun {
  r_work : Z; r_pos : SourcePos; r_vars : gmap jsstr jsstr; r_matchVars : list jsstr; r_flags : list jsstr; r_actions : list SieveAction;
  r_filed : gmap jsstr nat; r_redirected : gset jsstr; r_implicitKeep : bool; r_bucket : option jsstr; r_vacationDone : bool; r_trace : list TraceEntry }.

Definition newRun : Run := mkRun 0 (mkPos 1 1) ∅ [] [] [] ∅ ∅ true None false [].

Definition setWork (w : Z) (s : Run) : Run := mkRun w (r_pos s) (r_vars s) (r_matchVars s) (r_flags s) (r_actions s) (r_filed s) (r_redirected s) (r_implicitKeep s) (r_bucket s) (r_vacationDone s) (r_trace s).
Definition setPos (p : SourcePos) (s : Run) : Run := mkRun (r_work s) p (r_vars s) (r_matchVars s) (r_flags s) (r_actions s) (r_filed s) (r_redirected s) (r_implicitKeep s) (r_bucket s) (r_vacationDone s) (r_trace s).
Definition setVars (v : gmap jsstr jsstr) (s : Run) : Run := mkRun (r_work s) (r_pos s) v (r_matchVars s) (r_flags s) (r_actions s) (r_filed s) (r_redirected s) (r_implicitKeep s) (r_bucket s) (r_vacationDone s) (r_trace s).
Definition setMatchVars (v : list jsstr) (s : Run) : Run := mkRun (r_work s) (r_pos s) (r_vars s) v (r_flags s) (r_actions s) (r_filed s) (r_redirected s) (r_implicitKeep s) (r_bucket s) (r_vacationDone s) (r_trace s).
Definition setFlags (f : list jsstr) (s : Run) : Run := mkRun (r_work s) (r_pos s) (r_vars s) (r_matchVars s) f (r_actions s) (r_filed s) (r_redirected s) (r_implicitKeep s) (r_bucket s) (r_vacationDone s) (r_trace s).
Definition setActions (a : list SieveAction) (s : Run) : Run := mkRun (r_work s) (r_pos s) (r_vars s) (r_matchVars s) (r_flags s) a (r_filed s) (r_redirected s) (r_implicitKeep s) (r_bucket s) (r_vacationDone s) (r_trace s).
Definition setFiled (f : gmap jsstr nat) (s : Run) : Run := mkRun (r_work s) (r_pos s) (r_vars s) (r_matchVars s) (r_flags s) (r_actions s) f (r_redirected s) (r_implicitKeep s) (r_bucket s) (r_vacationDone s) (r_trace s).
Definition setRedirected (r : gset jsstr) (s : Run) : Run := mkRun (r_work s) (r_pos s) (r_vars s) (r_matchVars s) (r_flags s) (r_actions s) (r_filed s) r (r_implicitKeep s) (r_bucket s) (r_vacationDone s) (r_trace s).
Definition cancelKeep (s : Run) : Run := mkRun (r_work s) (r_pos s) (r_vars s) (r_matchVars s) (r_flags s) (r_actions s) (r_filed s) (r_redirected s) false (r_bucket s) (r_vacationDone s) (r_trace s).
Definition setBucket (b : jsstr) (s : Run) : Run := mkRun (r_work s) (r_pos s) (r_vars s) (r_matchVars s) (r_flags s) (r_actions s) (r_filed s) (r_redirected s) (r_implicitKeep s) (Some b) (r_vacationDone s) (r_trace s).
Definition setVacationDone (s : Run) : Run := mkRun (r_work s) (r_pos s) (r_vars s) (r_matchVars s) (r_flags s) (r_actions s) (r_filed s) (r_redirected s) (r_implicitKeep s) (r_bucket s) true (r_trace s).
Definition setTrace (t : list TraceEntry) (s : Run) : Run := mkRun (r_work s) (r_pos s) (r_vars s) (r_matchVars s) (r_flags s) (r_actions s) (r_filed s) (r_redirected s) (r_implicitKeep s) (r_bucket s) (r_vacationDone s) t.

Inductive Outcome (A : Type) := Val (a : A) | Stopped | Failed (e : SieveRuntimeError).
Arguments Val {A} a.
Arguments Stopped {A}.
Arguments Failed {A} e.

Definition M (A : Type) : Type := Run -> Outcome A * Run.

#[export] Instance Run_ret : MRet M := fun A a s => (Val a, s).
#[export] Instance Run_bind : MBind M := fun A B f m s =>
  match m s with
  | (Val a, s) => f a s
  | (Stopped, s) => (Stopped, s)
  | (Failed e, s) => (Failed e, s)
  end.

Definition gets {A} (f : Run -> A) : M A := fun s => (Val (f s), s).
Definition update (f : Run -> Run) : M unit := fun s => (Val tt, f s).
Definition stop {A} : M A := fun s => (Stopped, s).
Definition fail {A} (code : RuntimeErrorCode) (detail : jsstr) : M A := fun s => (Failed (mkRuntimeError code detail (r_pos s)), s).

(** Loops of a method. *)
Fixpoint forM {A} (f : A -> M unit) (l : list A) : M unit := match l with [] => mret tt | x :: l => _ ← f x; forM f l end.
Fixpoint mapM' {A B} (f : A -> M B) (l : list A) : M (list B) := match l with [] => mret [] | x :: l => y ← f x; ys ← mapM' f l; mret (y :: ys) end.
Fixpoint someM {A} (f : A -> M bool) (l : list A) : M bool := match l with [] => mret false | x :: l => b ← f x; if b : bool then mret true else someM f l end.
Fixpoint everyM {A} (f : A -> M bool) (l : list A) : M bool := match l with [] => mret true | x :: l => b ← f x; if b : bool then everyM f l else mret false end.

(** [s.slice(0, n)]. *)
Definition sliceTo (n : Z) (s : jsstr) : jsstr := take (Z.to_nat (if n <? 0 then Z.of_nat (length s) + n else n)) s.

(** [s.replace(/[*?\\]/g, ...)] and the number of surrogate pairs. *)
Definition quoteWildcards (s : jsstr) : jsstr := concat ((fun c => if includesChar c [0x2a; 0x3f; 0x5c] then [0x5c; c] else [c]) <$> s).
Fixpoint surrogatePairs (s : jsstr) : Z :=
  match s with
  | c :: rest => (match rest with d :: _ => if is_high c && is_low d then 1 else 0 | [] => 0 end) + surrogatePairs rest
  | [] => 0
  end.

(** [s.replace(/p/gi, r)] of a literal in lower case. *)
Fixpoint replaceCI (fuel : nat) (p r s : jsstr) : jsstr :=
  match fuel, s with
  | S fuel, c :: t => if startsWithCI p s then r ++ replaceCI fuel p r (drop (length p) s) else c :: replaceCI fuel p r t
  | _, _ => s
  end.
Definition replaceEntity (p r s : jsstr) : jsstr := replaceCI (length s) p r s.

Fixpoint dropTags (fuel : nat) (html : jsstr) : jsstr :=
  match fuel with
  | O => html
  | S fuel =>
      match indexOf 0x3c html with
      | None => html
      | Some lt =>
          let tail := drop (lt + 1) html in
          match indexOf 0x3e tail with None => html | Some gt => take lt html ++ dropTags fuel (drop (gt + 1) tail) end
      end
  end.

Definition stripTags (html : jsstr) : jsstr :=
  replaceEntity (js "&amp;") (js "&") (replaceEntity (js "&#39;") (js "'") (replaceEntity (js "&quot;") [0x22]
    (replaceEntity (js "&gt;") (js ">") (replaceEntity (js "&lt;") (js "<") (replaceEntity (js "&nbsp;") (js " ") (dropTags (length html) html)))))).

Section interpreter.
Context `{R : Runtime} `{T : TextDecoders} `{S2 : Sha256}.

Definition addressesOf (value : jsstr) : list jsstr :=
  concat ((fun e => match e with EntryGroup _ members => mb_address <$> members | EntryMailbox m => [mb_address m] end) <$> parseAddressList value).

Definition partOf (address : jsstr) (part : AddressPart) : jsstr :=
  match part, lastIndexOf 0x40 address with
  | PartAll, _ => address
  | PartLocalpart, None => address
  | PartLocalpart, Some at_ => take at_ address
  | PartDomain, None => []
  | PartDomain, Some at_ => drop (at_ + 1) address
  end.

Definition modify1 (m : SetModifier) (v : jsstr) : jsstr :=
  match m with
  | ModLower => toLowerCase v
  | ModUpper => toUpperCase v
  | ModLowerfirst => toLowerCase (take 1 v) ++ drop 1 v
  | ModUpperfirst => toUpperCase (take 1 v) ++ drop 1 v
  | ModQuotewildcard => quoteWildcards v
  | ModLength => dec (Z.of_nat (length v) - surrogatePairs v)
  end.
Definition modify (value : jsstr) (modifiers : list SetModifier) : jsstr := fold_left (fun v m => modify1 m v) modifiers value.

(** The flags in order of first appearance, without regard to case. *)
Fixpoint dedupFlags (l : list jsstr) (seen : list jsstr) : list jsstr :=
  match l with
  | [] => []
  | f :: l =>
      let key := toLowerCase f in
      if bool_decide (f = []) || bool_decide (key ∈ seen) then dedupFlags l seen else f :: dedupFlags l (key :: seen)
  end.
Definition isFlagSpace (c : Z) : bool := includesChar c [0x20; 9; CR; LF].
Definition splitFlags (l : list jsstr) : list jsstr := dedupFlags (concat ((fun s => splitRuns isFlagSpace (length s) s) <$> l)) [].

Definition mailboxKey (mailbox : jsstr) : jsstr := if bool_decide (toUpperCase mailbox = js "INBOX") then js "INBOX" else mailbox.

(** The digest a vacation without a handle is known by. *)
Definition toHex (b : bytes) : jsstr := concat ((fun o => [hex_lower_digit (o / 16); hex_lower_digit (o mod 16)]) <$> b).
Definition defaultHandle (reason : jsstr) (subject from : option jsstr) (mime : bool) : jsstr :=
  take 32 (toHex (sha256 (utf8_encode
    (js "[" ++ jsonString reason ++ js "," ++ jsonOrNull subject ++ js "," ++ jsonOrNull from ++ js "," ++ (if mime then js "true" else js "false") ++ js "]")))).

Section run.
Context (script : CompiledScript) (msg : SieveMessage) (opts : ExecuteOptions).

Definition useVariables : bool := bool_decide (js "variables" ∈ capabilities script).
Definition useFlags : bool := bool_decide (js "imap4flags" ∈ capabilities script).
Definition inbox : jsstr := default (js "INBOX") (o_inbox opts).
Definition maxWork : Z := default 5000000 (o_maxWork opts).
Definition maxString : Z := default (64 * 1024) (o_maxStringLength opts).
Definition maxTrace : Z := default 500 (o_maxTrace opts).
Definition maxActions : Z := default 64 (o_maxActions opts).
Definition maxRedirects : Z := default 4 (o_maxRedirects opts).

Definition workLimit {A} : M A := fail WorkLimit (js "script exceeded its work limit (" ++ dec maxWork ++ js ")").

Definition chargeWork (n : Z) : M unit :=
  _ ← update (fun s => setWork (r_work s + n) s);
  w ← gets r_work;
  if maxWork <? w then workLimit else mret tt.

Definition note (event : jsstr) : M unit :=
  update (fun s => if Z.of_nat (length (r_trace s)) <? maxTrace then setTrace (r_trace s ++ [mkTrace (pos_line (r_pos s)) (pos_column (r_pos s)) event]) s else s).

(** ** Strings and variables *)

(** What a reference stands for; [None] where the text is not a reference. *)
Definition reference (name : jsstr) (s : Run) : option jsstr :=
  if negb (bool_decide (name = [])) && forallb is_digit name then
    let n := Number name in
    Some (if n <? Z.of_nat (length (r_matchVars s)) then default [] (r_matchVars s !! Z.to_nat n) else [])
  else if IDENTIFIER name then Some (default [] (r_vars s !! toLowerCase name))
  else None.

Fixpoint expandLoop (fuel : nat) (rest out : jsstr) (length_ : Z) : M jsstr :=
  match fuel with
  | O => mret out
  | S fuel =>
      match rest with
      | [] => mret out
      | _ =>
          match find2 (js "${") rest with
          | None => mret (out ++ rest)
          | Some at_ =>
              let tail := drop (at_ + 2) rest in
              let close := indexOf 0x7d tail in
              let name := match close with None => [] | Some n => take n tail end in
              value ← gets (reference name);
              let piece := default (js "${") value in
              let next := match value with None => tail | Some _ => drop (length name + 1) tail end in
              let out := out ++ take at_ rest ++ piece in
              let length_ := length_ + Z.of_nat at_ + Z.of_nat (length piece) in
              _ ← chargeWork (1 + Z.of_nat (length (default [] value)));
              if maxString <? length_ then mret out else expandLoop fuel next out length_
          end
      end
  end.

Definition expand (s : jsstr) : M jsstr :=
  if negb useVariables || negb (hasReference s) then mret s
  else
    result ← expandLoop (S (length s)) s [] 0;
    mret (if maxString <? Z.of_nat (length result) then sliceTo maxString result else result).

Definition expandAll (l : list jsstr) : M (list jsstr) := mapM' expand l.

Definition expandOpt (o : option jsstr) : M (option jsstr) := match o with None => mret None | Some s => x ← expand s; mret (Some x) end.

(** ** Flags *)

Definition getFlags (variable : option jsstr) : M (list jsstr) :=
  match variable with None => gets r_flags | Some v => gets (fun s => splitFlags [default [] (r_vars s !! v)]) end.

Definition putFlags (variable : option jsstr) (flags : list jsstr) : M unit :=
  match variable with
  | None => update (setFlags flags)
  | Some v => update (fun s => setVars (<[v := sliceTo maxString (joinWith [SP] flags)]> (r_vars s)) s)
  end.

(** ** Actions *)

Definition push (action : SieveAction) : M unit :=
  actions ← gets r_actions;
  if maxActions <=? Z.of_nat (length actions) then fail ActionLimit (js "more than " ++ dec maxActions ++ js " actions")
  else update (setActions (actions ++ [action])).

Inductive DeliverType := DKeep | DFileinto (create : bool).
Definition deliverName (type : DeliverType) : jsstr := match type with DKeep => js "keep" | DFileinto _ => js "fileinto" end.

Definition mergeFlags (prev flags : option (list jsstr)) : option (list jsstr) :=
  match prev, flags with None, None => None | _, _ => Some (splitFlags (default [] prev ++ default [] flags)) end.

(** The earlier delivery with the flags of both. *)
Definition mergeDelivery (prev : SieveAction) (flags : option (list jsstr)) (create : bool) : SieveAction :=
  match prev with
  | ActKeep mb f implicit line => ActKeep mb (mergeFlags f flags) implicit line
  | ActFileinto mb f c line => ActFileinto mb (mergeFlags f flags) (c || create) line
  | other => other
  end.

Definition deliver (type : DeliverType) (mailbox : jsstr) (flags : option (list jsstr)) : M unit :=
  _ ← update cancelKeep;
  let key := mailboxKey mailbox in
  let create := match type with DKeep => false | DFileinto create => create end in
  filed ← gets r_filed;
  match filed !! key with
  | Some existing =>
      _ ← update (fun s => setActions (alter (fun prev => mergeDelivery prev flags create) existing (r_actions s)) s);
      note (deliverName type ++ js " " ++ inQuotes mailbox ++ js " merged with an earlier delivery to the same mailbox")
  | None =>
      _ ← update (fun s => setFiled (<[key := length (r_actions s)]> (r_filed s)) s);
      line ← gets (fun s => pos_line (r_pos s));
      _ ← push (match type with DKeep => ActKeep mailbox flags false line | DFileinto create => ActFileinto mailbox flags create line end);
      note (deliverName type ++ js " " ++ inQuotes mailbox ++
        match flags with Some (f :: fs) => js " flags " ++ joinWith [SP] (f :: fs) | _ => [] end)
  end.

Definition owns (address : jsstr) : bool :=
  match o_ownsAddress opts with
  | Some f => f address
  | None => let want := toLowerCase address in existsb (fun a => bool_decide (toLowerCase a = want)) (default [] (o_userAddresses opts))
  end.

Definition redirect (address : jsstr) : M unit :=
  if negb (isAddress address) then fail RunBadValue (js "redirect: " ++ inQuotes address ++ js " is not a valid address")
  else
    let key := toLowerCase address in
    redirected ← gets r_redirected;
    if bool_decide (key ∈ redirected) then note (js "redirect to " ++ address ++ js " already recorded")
    else if maxRedirects <=? Z.of_nat (size redirected) then fail ActionLimit (js "more than " ++ dec maxRedirects ++ js " redirects")
    else
      _ ← update (setRedirected ({[key]} ∪ redirected));
      let allowed := owns address in
      let reason := if allowed then None else Some (js "redirect refused: the address does not belong to this account and Postroom never relays") in
      _ ← (if allowed then update cancelKeep else mret tt);
      line ← gets (fun s => pos_line (r_pos s));
      _ ← push (ActRedirect address allowed reason line);
      note (if allowed then js "redirect to " ++ address else js "redirect to " ++ address ++ js " refused (not the account's own address)").

Definition addressedToMe (mine : list jsstr) : M bool :=
  someM (fun h => someM (fun value =>
    _ ← chargeWork (1 + Z.of_nat (length value));
    mret (existsb (fun a => bool_decide (toLowerCase a ∈ mine)) (addressesOf value))) (m_header msg h)) RECIPIENT_HEADERS.

(** Why no reply should be sent, the vacation store apart. *)
Definition suppression (mine : list jsstr) : M (option jsstr) :=
  let sender := m_envelopeFrom msg in
  let autoSubmitted := head (m_header msg (js "auto-submitted")) in
  let precedence := toLowerCase (trim (default [] (head (m_header msg (js "precedence"))))) in
  if bool_decide (sender = []) then mret (Some (js "the message has a null envelope sender"))
  else if AUTOMATED_SENDER (takeWhile (fun c => negb (c =? 0x40)) sender) then mret (Some (js "the sender looks like an automated or list address"))
  else if match autoSubmitted with Some a => negb (bool_decide (toLowerCase (trim a) = js "no")) | None => false end then mret (Some (js "the message is Auto-Submitted"))
  else if existsb (fun h => negb (length (m_header msg h) =? 0)%nat) LIST_HEADERS || bool_decide (precedence ∈ [js "bulk"; js "list"; js "junk"])
  then mret (Some (js "the message came from a mailing list"))
  else if bool_decide (toLowerCase sender ∈ mine) then mret (Some (js "the sender is the account itself"))
  else
    addressed ← addressedToMe mine;
    mret (if addressed : bool then None else Some (js "none of the account's addresses is in To, Cc or Bcc")).

(** The account's addresses, those of the command and the envelope recipient. *)
Definition mineOf (addresses : list jsstr) : list jsstr :=
  filter (fun a => a <> []) (toLowerCase <$> default [] (o_userAddresses opts) ++ addresses ++ [m_envelopeTo msg]).

Definition vacationSubject (explicit : option jsstr) : jsstr :=
  match explicit with
  | Some s => s
  | None =>
      match head (m_header msg (js "subject")) with
      | None => js "Automated reply"
      | Some original => if bool_decide (trim original = []) then js "Automated reply" else js "Auto: " ++ decodeEncodedWords original
      end
  end.

Definition vacation (cmd : VacationCommand) : M unit :=
  done_ ← gets r_vacationDone;
  if done_ : bool then fail DuplicateVacation (js "vacation may only run once")
  else
    _ ← update setVacationDone;
    reason ← expand (v_reason cmd);
    from ← expandOpt (v_from cmd);
    explicitSubject ← expandOpt (v_subject cmd);
    addresses ← expandAll (v_addresses cmd);
    let days := Z.min (default 30 (o_maxVacationDays opts)) (Z.max (default 1 (o_minVacationDays opts)) (default 7 (v_days cmd))) in
    handle ← match v_handle cmd with Some h => expand h | None => mret (defaultHandle reason explicitSubject from (v_mime cmd)) end;
    let subject := vacationSubject explicitSubject in
    let sender := m_envelopeFrom msg in
    why ← suppression (mineOf addresses);
    let suppressed :=
      match why with
      | Some w => Some w
      | None =>
          match o_recentlyResponded opts with
          | Some recently => if recently sender handle days then Some (js "already replied to this sender within " ++ dec days ++ js " days") else None
          | None => None
          end
      end in
    line ← gets (fun s => pos_line (r_pos s));
    _ ← push (ActVacation (mkVacationAction sender subject from reason (v_mime cmd) handle days suppressed line));
    note (match suppressed with None => js "vacation reply to " ++ sender | Some w => js "vacation suppressed: " ++ w end).

(** ** Tests *)

Definition compare (vs keys : list jsstr) (spec : MatchSpec) : M bool :=
  keys ← expandAll keys;
  work ← gets r_work;
  match matchAny maxWork vs keys (ms_type spec) (ms_comparator spec) work with
  | None => workLimit
  | Some (r, work) =>
      _ ← update (setWork work);
      _ ← match captures r with
          | Some c => if matched r && useVariables then update (setMatchVars c) else mret tt
          | None => mret tt
          end;
      mret (matched r)
  end.

Definition chargeValue (v : jsstr) : M unit := chargeWork (1 + Z.of_nat (length v)).

Definition headerValues (name : jsstr) : M (list jsstr) :=
  let vs := m_header msg name in
  _ ← forM chargeValue vs;
  mret vs.

Definition bodyValues (transform : BodyTransform) : M (list jsstr) :=
  match transform with
  | BodyRaw => mret [m_rawBody msg]
  | BodyText =>
      mret ((fun p => if bool_decide (sp_contentType p = js "text/html") then stripTags (sp_content p) else sp_content p) <$>
        filter (fun p => startsWith (js "text/") (sp_contentType p) = true /\ sp_disposition p <> Some (js "attachment")) (m_bodyParts msg))
  | BodyContent types =>
      l ← mapM' (fun p =>
            let major := takeWhile (fun c => negb (c =? 0x2f)) (sp_contentType p) in
            types ← expandAll types;
            mret (if existsb (fun t => bool_decide (t = []) || bool_decide (t = sp_contentType p) || (negb (includesChar 0x2f t) && bool_decide (t = major))) (toLowerCase <$> types)
                  then [sp_content p] else [])) (m_bodyParts msg);
      mret (concat l)
  end.

Definition testPos (t : CompiledTest) : SourcePos :=
  match t with
  | TestTrue p | TestFalse p | TestNot _ p | TestAnyof _ p | TestAllof _ p | TestHeader _ _ _ p | TestAddress _ _ _ _ p | TestEnvelope _ _ _ _ p
  | TestExists _ p | TestSize _ _ p | TestBody _ _ _ p | TestHasflag _ _ _ p | TestString _ _ _ p | TestMailboxexists _ p => p
  end.

(** The kinds of test that are traced. *)
Definition testKind (t : CompiledTest) : option jsstr :=
  match t with
  | TestTrue _ | TestFalse _ | TestNot _ _ | TestAnyof _ _ | TestAllof _ _ => None
  | TestHeader _ _ _ _ => Some (js "header")
  | TestAddress _ _ _ _ _ => Some (js "address")
  | TestEnvelope _ _ _ _ _ => Some (js "envelope")
  | TestExists _ _ => Some (js "exists")
  | TestSize _ _ _ => Some (js "size")
  | TestBody _ _ _ _ => Some (js "body")
  | TestHasflag _ _ _ _ => Some (js "hasflag")
  | TestString _ _ _ _ => Some (js "string")
  | TestMailboxexists _ _ => Some (js "mailboxexists")
  end.

(** [evaluate] of the tests that take no test. *)
Definition evaluateLeaf (t : CompiledTest) : M bool :=
  match t with
  | TestHeader names keys spec _ =>
      names ← expandAll names;
      vs ← mapM' (fun name => vs ← headerValues name; mret (decodeEncodedWords <$> vs)) names;
      compare (concat vs) keys spec
  | TestAddress names keys spec part _ =>
      names ← expandAll names;
      vs ← mapM' (fun name =>
             if bool_decide (toLowerCase name ∈ ADDRESS_HEADERS)
             then vs ← headerValues name; mret (concat ((fun v => (fun a => partOf a part) <$> addressesOf v) <$> vs))
             else mret []) names;
      compare (concat vs) keys spec
  | TestEnvelope names keys spec part _ =>
      names ← expandAll names;
      compare (concat ((fun name =>
        let low := toLowerCase name in
        if bool_decide (low = js "from") then [partOf (m_envelopeFrom msg) part]
        else if bool_decide (low = js "to") then [partOf (m_envelopeTo msg) part] else []) <$> names)) keys spec
  | TestExists names _ => names ← expandAll names; mret (forallb (fun n => negb (length (m_header msg n) =? 0)%nat) names)
  | TestSize over limit _ => mret (if over then limit <? m_size msg else m_size msg <? limit)
  | TestBody transform keys spec _ =>
      vs ← bodyValues transform;
      _ ← forM chargeValue vs;
      compare vs keys spec
  | TestHasflag vars keys spec _ =>
      vs ← match vars with None => gets r_flags | Some vars => l ← mapM' (fun v => getFlags (Some v)) vars; mret (concat l) end;
      compare vs keys spec
  | TestString sources keys spec _ => vs ← expandAll sources; compare vs keys spec
  | TestMailboxexists names _ =>
      match o_mailboxExists opts with
      | None => mret false
      | Some exists_ => names ← expandAll names; mret (forallb exists_ names)
      end
  | _ => mret false
  end.

(** [test], around what [evaluate] gives. *)
Definition testAround (evaluate : CompiledTest -> M bool) (t : CompiledTest) : M bool :=
  _ ← update (setPos (testPos t));
  _ ← chargeWork 1;
  result ← evaluate t;
  _ ← update (setPos (testPos t));
  _ ← match testKind t with Some kind => note (kind ++ js " test " ++ (if result : bool then js "matched" else js "did not match")) | None => mret tt end;
  mret result.

Fixpoint evaluate (t : CompiledTest) : M bool :=
  match t with
  | TestTrue _ => mret true
  | TestFalse _ => mret false
  | TestNot x _ => b ← testAround evaluate x; mret (negb b)
  | TestAnyof ts _ => someM (testAround evaluate) ts
  | TestAllof ts _ => everyM (testAround evaluate) ts
  | _ => evaluateLeaf t
  end.

Definition runTest (t : CompiledTest) : M bool := testAround evaluate t.

(** ** Commands *)

Definition flagsFor (explicit : option (list jsstr)) : M (option (list jsstr)) :=
  if negb useFlags then mret None
  else match explicit with None => f ← gets r_flags; mret (Some f) | Some l => l ← expandAll l; mret (Some (splitFlags l)) end.

Definition flagOpName (op : FlagOp) : jsstr := match op with Setflag => js "setflag" | Addflag => js "addflag" | Removeflag => js "removeflag" end.

Definition flagCommand (op : FlagOp) (variable : option jsstr) (flags : list jsstr) : M unit :=
  l ← expandAll flags;
  let given := splitFlags l in
  current ← getFlags variable;
  let next :=
    match op with
    | Setflag => given
    | Addflag => splitFlags (current ++ given)
    | Removeflag => filter (fun f => toLowerCase f ∉ (toLowerCase <$> given)) current
    end in
  _ ← putFlags variable next;
  note (flagOpName op ++ match variable with None => [] | Some v => js " " ++ v end ++ js ": " ++ match joinWith [SP] next with [] => js "(none)" | l => l end).

Definition commandPos (c : CompiledCommand) : SourcePos :=
  match c with
  | CmdIf _ p | CmdStop p | CmdDiscard p | CmdKeep _ p | CmdFileinto _ _ _ p | CmdRedirect _ p | CmdFlags _ _ _ p | CmdSet _ _ _ p | CmdBucket _ p => p
  | CmdVacation v => v_pos v
  end.

(** The commands without a block. *)
Definition simpleCommand (c : CompiledCommand) : M unit :=
  match c with
  | CmdIf _ _ => mret tt
  | CmdStop _ => _ ← note (js "stop"); stop
  | CmdKeep flags _ => f ← flagsFor flags; deliver DKeep inbox f
  | CmdDiscard pos =>
      _ ← update cancelKeep;
      _ ← push (ActDiscard (pos_line pos));
      note (js "discard")
  | CmdFileinto mailbox flags create _ =>
      mailbox ← expand mailbox;
      if bool_decide (mailbox = []) then fail RunBadValue (js "fileinto: the mailbox name expanded to nothing")
      else f ← flagsFor flags; deliver (DFileinto create) mailbox f
  | CmdRedirect address _ => a ← expand address; redirect a
  | CmdFlags op variable flags _ => flagCommand op variable flags
  | CmdSet name value modifiers _ =>
      v ← expand value;
      let value := sliceTo maxString (modify v modifiers) in
      _ ← update (fun s => setVars (<[name := value]> (r_vars s)) s);
      _ ← chargeWork (1 + Z.of_nat (length value));
      note (js "set " ++ name)
  | CmdVacation v => vacation v
  | CmdBucket name _ =>
      name ← expand name;
      if negb (BUCKET_NAME name) then fail RunBadValue (js "bucket: " ++ inQuotes name ++ js " is not a valid bucket name")
      else _ ← update (setBucket name); note (js "bucket " ++ inQuotes name)
  end.

(** The first branch whose test holds. *)
Fixpoint runBranches (block : list CompiledCommand -> M unit) (branches : list (option CompiledTest * list CompiledCommand)) : M unit :=
  match branches with
  | [] => mret tt
  | (t, b) :: branches =>
      holds ← match t with None => mret true | Some t => runTest t end;
      if holds : bool then block b else runBranches block branches
  end.

Fixpoint runCommand (c : CompiledCommand) : M unit :=
  _ ← update (setPos (commandPos c));
  _ ← chargeWork 1;
  match c with
  | CmdIf branches _ => runBranches (forM runCommand) branches
  | _ => simpleCommand c
  end.

Definition runBlock (cs : list CompiledCommand) : M unit := forM runCommand cs.

(** [run]: the error, or the result, and the run as it ended. *)
Definition run : (SieveRuntimeError + SieveResult) * Run :=
  let finish (s : Run) :=
    let s := if r_implicitKeep s then setActions (r_actions s ++ [ActKeep inbox (if useFlags then Some (r_flags s) else None) true 0]) s else s in
    (inr (mkResult (r_actions s) (r_implicitKeep s) (r_bucket s) None (r_trace s)), s) in
  match runBlock (cs_commands script) newRun with
  | (Val _, s) | (Stopped, s) => finish s
  | (Failed e, s) => (inl e, s)
  end.

Definition execute : SieveResult :=
  match run with
  | (inr r, _) => r
  | (inl e, s) =>
      mkResult [ActKeep inbox None true 0] true None (Some e)
        (r_trace s ++ [mkTrace (pos_line (re_pos e)) (pos_column (re_pos e)) (js "runtime error: " ++ re_detail e ++ js "; falling back to the implicit keep")])
  end.
End run.
End interpreter.

(** ** No message is lost, none is relayed, and no reply starts a loop

    Tests and expansions touch none of the fields the actions depend on ([Quiet]); the commands that act keep one
    invariant of the run ([Inv]), from which the theorems are read off. *)

(** ** Lists under a projection *)

Lemma omap_alter {A B} (g : A -> option B) (f : A -> A) i (l : list A) : (forall a, g (f a) = g a) -> omap g (alter f i l) = omap g l.
Proof. intros H. revert i. induction l as [|x l IH]; intros [|i]; [done..| |]; cbn; [by rewrite H|]. destruct (g x); [f_equal|]; apply IH. Qed.

Lemma Forall_alter_inv {A} (P : A -> Prop) (f : A -> A) i (l : list A) : (forall a, P a -> P (f a)) -> Forall P l -> Forall P (alter f i l).
Proof. intros H Hl. revert i. induction Hl as [|x l Hx Hl IH]; intros [|i]; cbn; constructor; auto; apply IH. Qed.

Lemma Exists_alter {A} (P : A -> Prop) (f : A -> A) i (l : list A) : (forall a, P (f a) <-> P a) -> Exists P (alter f i l) <-> Exists P l.
Proof. intros H. revert i. induction l as [|x l IH]; intros [|i]; [done..| |]; cbn; rewrite !Exists_cons; [by rewrite H|]. by rewrite (IH i). Qed.

(** ** What actions do *)

(** The action takes the place of the implicit keep. *)
Definition cancels (a : SieveAction) : Prop :=
  match a with ActKeep _ _ _ _ | ActFileinto _ _ _ _ | ActDiscard _ => True | ActRedirect _ allowed _ _ => allowed = true | ActVacation _ => False end.

(** The message gets somewhere. *)
Definition delivers (a : SieveAction) : Prop :=
  match a with ActKeep _ _ _ _ | ActFileinto _ _ _ _ => True | ActRedirect _ allowed _ _ => allowed = true | ActDiscard _ | ActVacation _ => False end.

Section interpreter.
Context `{R : Runtime} `{T : TextDecoders} `{S2 : Sha256}.

Definition deliveryKey (a : SieveAction) : option jsstr := match a with ActKeep mb _ _ _ | ActFileinto mb _ _ _ => Some (mailboxKey mb) | _ => None end.
Definition redirectKey (a : SieveAction) : option jsstr := match a with ActRedirect address _ _ _ => Some (toLowerCase address) | _ => None end.
Definition vacationOf (a : SieveAction) : option VacationAction := match a with ActVacation v => Some v | _ => None end.

(** The script has a discard. *)
Fixpoint discards (c : CompiledCommand) : bool :=
  match c with CmdIf branches _ => existsb (fun b => existsb discards b.2) branches | CmdDiscard _ => true | _ => false end.

Section run.
Context (script : CompiledScript) (msg : SieveMessage) (opts : ExecuteOptions).

Definition scriptDiscards : bool := existsb discards (cs_commands script).

(** The conditions of RFC 5230 under which a reply may be sent: a sender that is a person, not the account; a message
    that is not automatic and not from a list; and an address of the account among the recipients. *)
Definition MayReply (mine : list jsstr) : Prop :=
  m_envelopeFrom msg <> [] /\
  AUTOMATED_SENDER (takeWhile (fun c => negb (c =? 0x40)) (m_envelopeFrom msg)) = false /\
  (forall a, head (m_header msg (js "auto-submitted")) = Some a -> toLowerCase (trim a) = js "no") /\
  (forall h, h ∈ LIST_HEADERS -> m_header msg h = []) /\
  toLowerCase (trim (default [] (head (m_header msg (js "precedence"))))) ∉ [js "bulk"; js "list"; js "junk"] /\
  toLowerCase (m_envelopeFrom msg) ∉ mine /\
  (exists h v a, h ∈ RECIPIENT_HEADERS /\ v ∈ m_header msg h /\ a ∈ addressesOf v /\ toLowerCase a ∈ mine).

Definition ReplyOk (v : VacationAction) : Prop :=
  va_to v = m_envelopeFrom msg /\
  (va_respond v = true ->
    (exists given, MayReply (mineOf msg opts given)) /\
    (forall recently, o_recentlyResponded opts = Some recently -> recently (va_to v) (va_handle v) (va_days v) = false)).

(** What an action of the script may be. *)
Definition ActionOk (a : SieveAction) : Prop :=
  match a with
  | ActKeep mailbox _ implicit _ => implicit = false /\ mailbox = inbox opts
  | ActFileinto mailbox _ _ _ => mailbox <> []
  | ActDiscard _ => scriptDiscards = true
  | ActRedirect address allowed _ _ => isAddress address = true /\ allowed = owns opts address
  | ActVacation v => ReplyOk v
  end.

Definition TraceOk (s : Run) : Prop := Z.of_nat (length (r_trace s)) <= Z.max 0 (maxTrace opts).

Record Inv (s : Run) : Prop := {
  inv_keep : r_implicitKeep s = false <-> Exists cancels (r_actions s);
  inv_ok : Forall ActionOk (r_actions s);
  inv_count : Z.of_nat (length (r_actions s)) <= Z.max 0 (maxActions opts);
  inv_filed : forall k i, r_filed s !! k = Some i -> exists a, r_actions s !! i = Some a /\ deliveryKey a = Some k;
  inv_known : forall k, k ∈ omap deliveryKey (r_actions s) -> is_Some (r_filed s !! k);
  inv_once : NoDup (omap deliveryKey (r_actions s));
  inv_redirected : r_redirected s = list_to_set (omap redirectKey (r_actions s));
  inv_distinct : NoDup (omap redirectKey (r_actions s));
  inv_redirects : Z.of_nat (length (omap redirectKey (r_actions s))) <= Z.max 0 (maxRedirects opts);
  inv_vacation : (length (omap vacationOf (r_actions s)) <= if r_vacationDone s then 1 else 0)%nat;
  inv_trace : TraceOk s
}.

(** ** Quiet steps *)

(** Only fields the actions do not depend on differ. *)
Record Same (s s' : Run) : Prop := {
  same_actions : r_actions s' = r_actions s;
  same_filed : r_filed s' = r_filed s;
  same_redirected : r_redirected s' = r_redirected s;
  same_keep : r_implicitKeep s' = r_implicitKeep s;
  same_vacation : r_vacationDone s' = r_vacationDone s;
  same_trace : TraceOk s -> TraceOk s'
}.

#[export] Instance Same_preorder : PreOrder Same.
Proof. split; [by intros s; constructor|]. intros s1 s2 s3 [] []. constructor; [congruence..|auto]. Qed.

Lemma Inv_same s s' : Same s s' -> Inv s -> Inv s'.
Proof. intros [E1 E2 E3 E4 E5 E6] []. constructor; rewrite ?E1, ?E2, ?E3, ?E4, ?E5; auto. Qed.

(** What an outcome throws is a use of the whole allowance. *)
Definition Exhausts {A} (o : Outcome A) : Prop := match o with Failed e => re_code e = WorkLimit | _ => True end.

Definition Quiet {A} (m : M A) : Prop := forall s, Same s (m s).2 /\ Exhausts (m s).1.

Lemma quiet_ret {A} (a : A) : Quiet (mret a).
Proof. by intros s. Qed.

Lemma quiet_bind {A B} (m : M A) (f : A -> M B) : Quiet m -> (forall a, Quiet (f a)) -> Quiet (m ≫= f).
Proof.
  intros Hm Hf s. specialize (Hm s). unfold mbind, Run_bind. destruct (m s) as [[a| |e] s']; cbn in *; [|done..]. split; [etrans; [apply Hm|]|]; apply Hf.
Qed.

Lemma quiet_gets {A} (f : Run -> A) : Quiet (gets f).
Proof. by intros s. Qed.

Lemma quiet_update f : (forall s, Same s (f s)) -> Quiet (update f).
Proof. intros H s. split; [apply H|done]. Qed.

Lemma quiet_workLimit {A} : Quiet (workLimit (A := A) opts).
Proof. by intros s. Qed.

Create HintDb quiet.
#[local] Hint Resolve quiet_ret quiet_bind quiet_gets quiet_workLimit : quiet.

(** Case analysis on what a method looks at, then its parts. *)
Ltac quiet := repeat first
  [ progress cbv beta zeta
  | match goal with
    | |- Quiet (_ ≫= _) => apply quiet_bind; [|intros ?]
    | |- Quiet (let '(_, _) := ?x in _) => destruct x
    | |- Quiet (if ?b then _ else _) => destruct b
    | |- Quiet (match ?x with _ => _ end) => destruct x
    end
  | solve [auto with quiet] ].

Lemma quiet_work n : Quiet (update (fun s => setWork (r_work s + n) s)).
Proof. by apply quiet_update. Qed.
Lemma quiet_setWork n : Quiet (update (setWork n)).
Proof. by apply quiet_update. Qed.
Lemma quiet_pos p : Quiet (update (setPos p)).
Proof. by apply quiet_update. Qed.
Lemma quiet_vars f : Quiet (update (fun s => setVars (f s) s)).
Proof. by apply quiet_update. Qed.
Lemma quiet_matchVars v : Quiet (update (setMatchVars v)).
Proof. by apply quiet_update. Qed.
Lemma quiet_flags v : Quiet (update (setFlags v)).
Proof. by apply quiet_update. Qed.
Lemma quiet_bucket v : Quiet (update (setBucket v)).
Proof. by apply quiet_update. Qed.
#[local] Hint Resolve quiet_work quiet_setWork quiet_pos quiet_vars quiet_matchVars quiet_flags quiet_bucket : quiet.

Lemma quiet_note e : Quiet (note opts e).
Proof.
  apply quiet_update. intros s. destruct (Z.ltb_spec (Z.of_nat (length (r_trace s))) (maxTrace opts)); [|done]. constructor; [done..|]. intros _. unfold TraceOk. cbn. rewrite length_app. cbn. lia.
Qed.

Lemma quiet_charge n : Quiet (chargeWork opts n).
Proof. unfold chargeWork. quiet. Qed.
#[local] Hint Resolve quiet_note quiet_charge : quiet.

Lemma quiet_forM {A} (f : A -> M unit) l : (forall x, Quiet (f x)) -> Quiet (forM f l).
Proof. intros H. induction l as [|x l IH]; cbn [forM]; quiet; auto. Qed.
Lemma quiet_mapM {A B} (f : A -> M B) l : (forall x, Quiet (f x)) -> Quiet (mapM' f l).
Proof. intros H. induction l as [|x l IH]; cbn [mapM']; quiet; auto. Qed.
Lemma quiet_someM {A} (f : A -> M bool) l : Forall (fun x => Quiet (f x)) l -> Quiet (someM f l).
Proof. induction 1 as [|x l Hx _ IH]; cbn [someM]; quiet; auto. Qed.
Lemma quiet_everyM {A} (f : A -> M bool) l : Forall (fun x => Quiet (f x)) l -> Quiet (everyM f l).
Proof. induction 1 as [|x l Hx _ IH]; cbn [everyM]; quiet; auto. Qed.
#[local] Hint Resolve quiet_forM quiet_mapM : quiet.

Lemma quiet_expandLoop fuel rest out n : Quiet (expandLoop opts fuel rest out n).
Proof. revert rest out n. induction fuel as [|fuel IH]; intros rest out n; cbn [expandLoop]; quiet. Qed.
#[local] Hint Resolve quiet_expandLoop : quiet.

Lemma quiet_expand s : Quiet (expand script opts s).
Proof. unfold expand. quiet. Qed.
#[local] Hint Resolve quiet_expand : quiet.

Lemma quiet_expandAll l : Quiet (expandAll script opts l).
Proof. unfold expandAll. quiet. Qed.
Lemma quiet_expandOpt o : Quiet (expandOpt script opts o).
Proof. unfold expandOpt. quiet. Qed.
#[local] Hint Resolve quiet_expandAll quiet_expandOpt : quiet.

Lemma quiet_getFlags v : Quiet (getFlags v).
Proof. unfold getFlags. quiet. Qed.
Lemma quiet_putFlags v f : Quiet (putFlags opts v f).
Proof. unfold putFlags. quiet. Qed.
Lemma quiet_flagsFor e : Quiet (flagsFor script opts e).
Proof. unfold flagsFor. quiet. Qed.
#[local] Hint Resolve quiet_getFlags quiet_putFlags quiet_flagsFor : quiet.

Lemma quiet_compare vs keys spec : Quiet (compare script opts vs keys spec).
Proof. unfold compare. quiet. Qed.
Lemma quiet_chargeValue v : Quiet (chargeValue opts v).
Proof. unfold chargeValue. quiet. Qed.
#[local] Hint Resolve quiet_compare quiet_chargeValue : quiet.

Lemma quiet_headerValues name : Quiet (headerValues msg opts name).
Proof. unfold headerValues. quiet. Qed.
#[local] Hint Resolve quiet_headerValues : quiet.

Lemma quiet_bodyValues t : Quiet (bodyValues script msg opts t).
Proof. unfold bodyValues. quiet. Qed.
#[local] Hint Resolve quiet_bodyValues : quiet.

Lemma quiet_evaluateLeaf t : Quiet (evaluateLeaf script msg opts t).
Proof. unfold evaluateLeaf. quiet; apply quiet_mapM; intros ?; quiet. Qed.

Lemma quiet_testAround f t : Quiet (f t) -> Quiet (testAround opts f t).
Proof. intros H. unfold testAround. quiet. Qed.

Lemma quiet_evaluate t : Quiet (evaluate script msg opts t).
Proof.
  induction t as [x pos IH|ts pos IH|ts pos IH|t H1 H2 H3] using CompiledTest_ind'; cbn [evaluate].
  - quiet. by apply quiet_testAround.
  - apply quiet_someM. eapply Forall_impl; [done|]. intros x. apply quiet_testAround.
  - apply quiet_everyM. eapply Forall_impl; [done|]. intros x. apply quiet_testAround.
  - destruct t; try (exfalso; naive_solver); cbn [evaluate]; first [apply quiet_ret|apply quiet_evaluateLeaf].
Qed.

Lemma quiet_runTest t : Quiet (runTest script msg opts t).
Proof. apply quiet_testAround, quiet_evaluate. Qed.

Lemma quiet_addressedToMe mine : Quiet (addressedToMe msg opts mine).
Proof. unfold addressedToMe. apply quiet_someM, Forall_forall. intros h _. apply quiet_someM, Forall_forall. intros v _. quiet. Qed.
#[local] Hint Resolve quiet_runTest quiet_addressedToMe : quiet.

Lemma quiet_suppression mine : Quiet (suppression msg opts mine).
Proof. unfold suppression. quiet. Qed.

Lemma quiet_flagCommand op v f : Quiet (flagCommand script opts op v f).
Proof. unfold flagCommand. quiet. Qed.
#[local] Hint Resolve quiet_suppression quiet_flagCommand : quiet.

(** ** Commands keep the invariant *)

(** From a state that satisfies [P]: a value satisfies [Q], [Stop] leaves the invariant, an error a bounded trace. *)
Definition Triple {A} (P : Run -> Prop) (m : M A) (Q : A -> Run -> Prop) : Prop :=
  forall s, P s -> match m s with (Val a, s') => Q a s' | (Stopped, s') => Inv s' | (Failed _, s') => TraceOk s' end.

Abbreviation Keeps m := (Triple Inv m (fun _ => Inv)).

Lemma triple_bind {A B} P (m : M A) (f : A -> M B) Q W : Triple P m Q -> (forall a, Triple (Q a) (f a) W) -> Triple P (m ≫= f) W.
Proof. intros Hm Hf s Hs. specialize (Hm s Hs). unfold mbind, Run_bind. destruct (m s) as [[a| |e] s']; [by apply Hf|done..]. Qed.

(** A property of the fields a quiet step leaves alone. *)
Definition Stable (P : Run -> Prop) : Prop := (forall s s', P s -> Same s s' -> P s') /\ (forall s, P s -> Inv s).

Lemma Stable_Inv : Stable Inv.
Proof. split; [|done]. intros s s' Hs Hsame. by eapply Inv_same. Qed.

Lemma triple_quiet {A} P (m : M A) (V : A -> Prop) : Stable P -> Quiet m -> (forall s a s', m s = (Val a, s') -> V a) -> Triple P m (fun a s => P s /\ V a).
Proof.
  intros [HP HI] Hq HV s Hs. destruct (Hq s) as [Hsame _]. destruct (m s) as [[a| |e] s'] eqn:E; cbn in Hsame.
  - split; [by eapply HP|by eapply HV].
  - eapply HI. by eapply HP.
  - apply (same_trace _ _ Hsame). apply HI in Hs. apply Hs.
Qed.

Lemma quiet_keeps {A} (m : M A) : Quiet m -> Keeps m.
Proof.
  intros Hq s Hs. pose proof (triple_quiet Inv m (fun _ => True) Stable_Inv Hq (fun _ _ _ _ => I) s Hs) as H. destruct (m s) as [[a| |e] s']; [apply H|done..].
Qed.

Lemma run_keeps_bind {A B} (m : M A) (f : A -> M B) : Keeps m -> (forall a, Keeps (f a)) -> Keeps (m ≫= f).
Proof. intros Hm Hf. eapply triple_bind; [done|]. done. Qed.

Lemma list_to_set_snoc (l : list jsstr) k : list_to_set (l ++ [k]) =@{gset jsstr} {[k]} ∪ list_to_set l.
Proof. rewrite list_to_set_app_L. set_solver. Qed.

(** One more action, and the fields that go with it. *)
Lemma Inv_push s s' a :
  Inv s -> Z.of_nat (length (r_actions s)) < maxActions opts -> ActionOk a -> r_actions s' = r_actions s ++ [a] ->
  (r_implicitKeep s' = false <-> r_implicitKeep s = false \/ cancels a) ->
  match deliveryKey a with Some k => r_filed s !! k = None /\ r_filed s' = <[k := length (r_actions s)]> (r_filed s) | None => r_filed s' = r_filed s end ->
  match redirectKey a with
  | Some k => k ∉ r_redirected s /\ Z.of_nat (size (r_redirected s)) < maxRedirects opts /\ r_redirected s' = {[k]} ∪ r_redirected s
  | None => r_redirected s' = r_redirected s
  end ->
  match vacationOf a with Some _ => omap vacationOf (r_actions s) = [] /\ r_vacationDone s' = true | None => r_vacationDone s' = r_vacationDone s end ->
  TraceOk s' -> Inv s'.
Proof.
  intros [] Hlt Ha E Hk Hd Hr Hv Ht. constructor; rewrite ?E, ?omap_app; cbn [omap list_omap]; [| | | | | | | | | |done].
  - rewrite Hk, inv_keep0, Exists_app, Exists_cons, Exists_nil. tauto.
  - apply Forall_app. split; [done|]. by apply Forall_singleton.
  - rewrite length_app. cbn. lia.
  - intros k i Hi. assert (Hold : r_filed s !! k = Some i -> exists b, (r_actions s ++ [a]) !! i = Some b /\ deliveryKey b = Some k).
    { intros (b & Hb & Hkb)%inv_filed0. exists b. split; [|done]. by apply lookup_app_l_Some. }
    destruct (deliveryKey a) as [k'|] eqn:Ek; [|rewrite Hd in Hi; auto]. destruct Hd as [_ Hd]. rewrite Hd in Hi. destruct (decide (k' = k)) as [->|Hne].
    + rewrite lookup_insert in Hi. destruct (decide _); [|done]. injection Hi as <-. exists a. split; [|done]. by apply list_lookup_middle.
    + rewrite lookup_insert_ne in Hi by done. auto.
  - intros k [Hk'|Hk']%elem_of_app; destruct (deliveryKey a) as [k'|] eqn:Ek; cbn in Hk'.
    + destruct Hd as [_ Hd]. rewrite Hd. destruct (decide (k' = k)) as [->|]; [rewrite lookup_insert; by case_decide|]. rewrite lookup_insert_ne by done. auto.
    + rewrite Hd. auto.
    + destruct Hd as [_ Hd]. apply list_elem_of_singleton in Hk' as ->. rewrite Hd, lookup_insert. by case_decide.
    + by apply elem_of_nil in Hk'.
  - destruct (deliveryKey a) as [k|]; [|by rewrite app_nil_r]. destruct Hd as [Hn _]. apply NoDup_app. split_and!; [done| |apply NoDup_singleton].
    intros k' Hk' ->%list_elem_of_singleton. destruct (inv_known0 _ Hk'). congruence.
  - destruct (redirectKey a) as [k|]; [|by rewrite app_nil_r, Hr]. destruct Hr as (_ & _ & Hr). by rewrite Hr, inv_redirected0, list_to_set_snoc.
  - destruct (redirectKey a) as [k|]; [|by rewrite app_nil_r]. destruct Hr as (Hn & _ & _). apply NoDup_app. split_and!; [done| |apply NoDup_singleton].
    intros k' Hk' ->%list_elem_of_singleton. apply Hn. rewrite inv_redirected0. by apply elem_of_list_to_set.
  - destruct (redirectKey a) as [k|]; [|by rewrite app_nil_r]. destruct Hr as (_ & Hsz & _). rewrite inv_redirected0, size_list_to_set in Hsz by done. rewrite length_app. cbn. lia.
  - destruct (vacationOf a) as [v|]; [|rewrite app_nil_r, Hv; done]. destruct Hv as [Hv Hd']. rewrite Hv, Hd'. cbn. lia.
Qed.

Lemma bind_update {B} f (k : unit -> M B) s : (update f ≫= k) s = k tt (f s).
Proof. done. Qed.
Lemma bind_gets {A B} (f : Run -> A) (k : A -> M B) s : (gets f ≫= k) s = k (f s) s.
Proof. done. Qed.

(** An action that is let through is followed by a quiet step. *)
Lemma push_then s s1 a (m : unit -> M unit) :
  TraceOk s1 -> r_actions s1 = r_actions s -> Quiet (m tt) -> (Z.of_nat (length (r_actions s)) < maxActions opts -> Inv (setActions (r_actions s ++ [a]) s1)) ->
  match (push opts a ≫= m) s1 with (Failed _, s') => TraceOk s' | (_, s') => Inv s' end.
Proof.
  intros Ht Ea Hq Hi. unfold push. unfold mbind at 1, Run_bind at 1. rewrite bind_gets, Ea. destruct (Z.leb_spec (maxActions opts) (Z.of_nat (length (r_actions s)))); [done|].
  specialize (Hi ltac:(lia)). cbn. pose proof (quiet_keeps _ Hq _ Hi) as H1. destruct (m tt _) as [[[]| |e] s']; done.
Qed.

Lemma deliveryKey_merge flags create a : deliveryKey (mergeDelivery a flags create) = deliveryKey a.
Proof. by destruct a. Qed.
Lemma redirectKey_merge flags create a : redirectKey (mergeDelivery a flags create) = redirectKey a.
Proof. by destruct a. Qed.
Lemma vacationOf_merge flags create a : vacationOf (mergeDelivery a flags create) = vacationOf a.
Proof. by destruct a. Qed.
Lemma cancels_merge flags create a : cancels (mergeDelivery a flags create) <-> cancels a.
Proof. by destruct a. Qed.
Lemma ActionOk_merge flags create a : ActionOk a -> ActionOk (mergeDelivery a flags create).
Proof. by destruct a. Qed.

(** The invariant where a delivery joins an earlier one. *)
Lemma Inv_merge s key i flags create : Inv s -> r_filed s !! key = Some i ->
  Inv (setActions (alter (fun prev => mergeDelivery prev flags create) i (r_actions s)) (cancelKeep s)).
Proof.
  intros [] Hi. destruct (inv_filed0 _ _ Hi) as (a & Ha & Hk).
  constructor; cbn; rewrite ?omap_alter by eauto using deliveryKey_merge, redirectKey_merge, vacationOf_merge; auto.
  - rewrite Exists_alter by apply cancels_merge. split; [|done]. intros _. apply Exists_exists. exists a. split; [by eapply list_elem_of_lookup_2|]. by destruct a.
  - apply Forall_alter_inv; [|done]. apply ActionOk_merge.
  - by rewrite length_alter.
  - intros k j Hj. destruct (inv_filed0 _ _ Hj) as (b & Hb & Hkb). destruct (decide (i = j)) as [->|Hne].
    + exists (mergeDelivery b flags create). rewrite list_lookup_alter, decide_True by done. by rewrite Hb, deliveryKey_merge.
    + exists b. by rewrite list_lookup_alter_ne.
Qed.

Definition MailboxOk (type : DeliverType) (mailbox : jsstr) : Prop := match type with DKeep => mailbox = inbox opts | DFileinto _ => mailbox <> [] end.

Lemma keeps_deliver type mailbox flags : MailboxOk type mailbox -> Keeps (deliver opts type mailbox flags).
Proof.
  intros Hmb s Hs. unfold deliver. cbv zeta. rewrite bind_update, bind_gets. cbn [r_filed cancelKeep]. destruct (r_filed s !! mailboxKey mailbox) as [i|] eqn:Ei.
  - rewrite bind_update. pose proof (Inv_merge s _ i flags (match type with DKeep => false | DFileinto create => create end) Hs Ei) as Hi.
    pose proof (quiet_keeps _ (quiet_note (deliverName type ++ js " " ++ inQuotes mailbox ++ js " merged with an earlier delivery to the same mailbox")) _ Hi) as H. done.
  - rewrite bind_update, bind_gets. cbn [r_pos setFiled cancelKeep r_actions r_filed].
    match goal with |- match ?x with _ => _ end => assert (H : match x with (Failed _, s') => TraceOk s' | (_, s') => Inv s' end); [|by destruct x as [[]]] end.
    apply (push_then s); [apply Hs|done|apply quiet_note|]. intros Hlt. eapply (Inv_push s); [done|done| |done|..]; destruct type; cbn; try done; try apply Hs; tauto || auto.
Qed.

Lemma keeps_discard pos : scriptDiscards = true -> Keeps (simpleCommand script msg opts (CmdDiscard pos)).
Proof.
  intros Hd s Hs. cbn [simpleCommand]. rewrite bind_update.
  match goal with |- match ?x with _ => _ end => assert (H : match x with (Failed _, s') => TraceOk s' | (_, s') => Inv s' end); [|by destruct x as [[]]] end.
  apply (push_then s); [apply Hs|done|apply quiet_note|]. intros Hlt. eapply (Inv_push s); [done|done| |done|..]; cbn; try done; try apply Hs; tauto || auto.
Qed.

Lemma keeps_redirect address : Keeps (redirect opts address).
Proof.
  intros s Hs. unfold redirect. cbv zeta. destruct (isAddress address) eqn:Ea; cbn [negb]; [|cbn; apply Hs]. rewrite bind_gets. case_bool_decide as Hin; [exact (quiet_keeps _ (quiet_note _) _ Hs)|].
  destruct (Z.leb_spec (maxRedirects opts) (Z.of_nat (size (r_redirected s)))); [cbn; apply Hs|]. rewrite bind_update.
  match goal with |- match ?x with _ => _ end => assert (H1 : match x with (Failed _, s') => TraceOk s' | (_, s') => Inv s' end); [|by destruct x as [[]]] end.
  destruct (owns opts address) eqn:Eo; rewrite bind_update || (unfold mbind at 1, Run_bind at 1; cbn [mret Run_ret]); rewrite bind_gets.
  - apply (push_then s); [apply Hs|done|apply quiet_note|]. intros Hlt. eapply (Inv_push s); [done|done| |done|..]; cbn; try done; try apply Hs; tauto || auto.
  - apply (push_then s); [apply Hs|done|apply quiet_note|]. intros Hlt. eapply (Inv_push s); [done|done| |done|..]; cbn; try done; try apply Hs; try (intuition congruence).
Qed.

(** ** Vacation *)

Lemma run_bind_val {A B} (m : M A) (f : A -> M B) s b s' : (m ≫= f) s = (Val b, s') -> exists a s1, m s = (Val a, s1) /\ f a s1 = (Val b, s').
Proof. unfold mbind, Run_bind. destruct (m s) as [[a| |e] s1]; [|done..]. by exists a, s1. Qed.

Lemma someM_true {A} (f : A -> M bool) l s s' : someM f l s = (Val true, s') -> exists x s1 s2, x ∈ l /\ f x s1 = (Val true, s2).
Proof.
  revert s. induction l as [|x l IH]; intros s; [done|]. cbn [someM]. intros ([|] & s1 & Hx & H)%run_bind_val.
  - exists x, s, s1. split; [left|done].
  - destruct (IH _ H) as (y & s2 & s3 & Hy & Hf). exists y, s2, s3. split; [by right|done].
Qed.

Lemma addressedToMe_true mine s s' : addressedToMe msg opts mine s = (Val true, s') ->
  exists h v a, h ∈ RECIPIENT_HEADERS /\ v ∈ m_header msg h /\ a ∈ addressesOf v /\ toLowerCase a ∈ mine.
Proof.
  intros (h & s1 & s2 & Hh & (v & s3 & s4 & Hv & ([] & s5 & _ & H)%run_bind_val)%someM_true)%someM_true. injection H as H _.
  apply existsb_exists in H as (a & Ha%list_elem_of_In & Hm%bool_decide_eq_true). by exists h, v, a.
Qed.

Lemma suppression_none mine s s' : suppression msg opts mine s = (Val None, s') -> MayReply mine.
Proof.
  unfold suppression, MayReply. cbv zeta. case_bool_decide as H1; [done|]. destruct (AUTOMATED_SENDER _) eqn:H2; [done|].
  destruct (match head (m_header msg (js "auto-submitted")) with Some a => _ | None => _ end) eqn:H3; [done|].
  destruct (existsb _ _) eqn:H4; [done|]. case_bool_decide as H5; [done|]. cbn [orb]. case_bool_decide as H6; [done|]. intros ([|] & s1 & H7 & H8)%run_bind_val; [|done].
  split_and!; [done|done| | |done|done|by eapply addressedToMe_true].
  - intros a Ha. rewrite Ha in H3. apply negb_false_iff, bool_decide_eq_true in H3. done.
  - intros h Hh. apply not_true_iff_false in H4. destruct (m_header msg h) as [|v vs] eqn:E; [done|]. exfalso. apply H4, existsb_exists. exists h. split; [by apply list_elem_of_In|]. by rewrite E.
Qed.

(** The run before the one vacation of a script has acted. *)
Definition NoReply (s : Run) : Prop := Inv s /\ r_vacationDone s = true /\ omap vacationOf (r_actions s) = [].

Lemma Stable_NoReply : Stable NoReply.
Proof.
  split; [|by intros s []]. intros s s' (Hi & Hd & Hv) Hs. split_and!; [by eapply Inv_same|by rewrite (same_vacation _ _ Hs)|by rewrite (same_actions _ _ Hs)].
Qed.

Lemma quiet_triple {A} P (m : M A) : Stable P -> Quiet m -> Triple P m (fun _ => P).
Proof. intros HP Hq s Hs. pose proof (triple_quiet P m (fun _ => True) HP Hq (fun _ _ _ _ => I) s Hs) as H. destruct (m s) as [[a| |e] s']; [apply H|done..]. Qed.

Lemma keeps_vacation cmd : Keeps (vacation script msg opts cmd).
Proof.
  intros s Hs. unfold vacation. rewrite bind_gets. destruct (r_vacationDone s) eqn:Ed; [cbn; apply Hs|]. rewrite bind_update.
  assert (Hn : NoReply (setVacationDone s)).
  { destruct Hs. rewrite Ed in inv_vacation0. split_and!; [|done|cbn; destruct (omap vacationOf (r_actions s)); [done|cbn in *; lia]]. constructor; auto. cbn. lia. }
  match goal with |- match ?m ?s' with _ => _ end => enough (H : Triple NoReply m (fun _ => Inv)) by exact (H s' Hn) end. clear s Hs Ed Hn.
  eapply triple_bind; [by apply quiet_triple; [apply Stable_NoReply|quiet]|]. intros reason. eapply triple_bind; [by apply quiet_triple; [apply Stable_NoReply|quiet]|]. intros from.
  eapply triple_bind; [by apply quiet_triple; [apply Stable_NoReply|quiet]|]. intros subject. eapply triple_bind; [by apply quiet_triple; [apply Stable_NoReply|quiet]|]. intros given. cbv zeta.
  eapply triple_bind; [by apply quiet_triple; [apply Stable_NoReply|quiet]|]. intros handle.
  eapply triple_bind; [eapply (triple_quiet NoReply _ (fun why => why = None -> MayReply (mineOf msg opts given)) Stable_NoReply); [quiet|]|].
  { intros s why s' E ->. by eapply suppression_none. }
  intros why s [(Hs & Hd & Hv) Hwhy]. rewrite bind_gets.
  match goal with |- match ?x with _ => _ end => assert (H : match x with (Failed _, s') => TraceOk s' | (_, s') => Inv s' end); [|by destruct x as [[]]] end.
  apply (push_then s); [apply Hs|done|quiet|]. intros Hlt. eapply (Inv_push s); [done|done| |done|..]; cbn; try done; try apply Hs; try tauto.
  unfold ReplyOk. split; [done|]. cbn. unfold va_respond. cbn. rewrite bool_decide_eq_true. destruct why as [w|]; [done|]. intros Hsup. split; [exists given; auto|].
  intros recently E. rewrite E in Hsup. by destruct (recently _ _ _).
Qed.

(** ** The run *)

(** Given the discards the script has. *)
Definition Admits (c : CompiledCommand) : Prop := discards c = true -> scriptDiscards = true.

Lemma keeps_simple c : Admits c -> (forall branches pos, c <> CmdIf branches pos) -> Keeps (simpleCommand script msg opts c).
Proof.
  intros Ha Hif. destruct c as [branches pos|pos|pos|flags pos|mailbox flags create pos|address pos|op v flags pos|name value ms pos|v|name pos]; [by destruct (Hif branches pos)|..].
  - cbn [simpleCommand]. apply run_keeps_bind; [apply quiet_keeps; quiet|]. intros _ s Hs. exact Hs.
  - apply keeps_discard. by apply Ha.
  - cbn [simpleCommand]. apply run_keeps_bind; [apply quiet_keeps; quiet|]. intros f. by apply keeps_deliver.
  - cbn [simpleCommand]. apply run_keeps_bind; [apply quiet_keeps; quiet|]. intros mb. case_bool_decide; [intros s Hs; apply Hs|].
    apply run_keeps_bind; [apply quiet_keeps; quiet|]. intros f. by apply keeps_deliver.
  - cbn [simpleCommand]. apply run_keeps_bind; [apply quiet_keeps; quiet|]. intros a. apply keeps_redirect.
  - apply quiet_keeps. cbn [simpleCommand]. quiet.
  - apply quiet_keeps. cbn [simpleCommand]. quiet.
  - apply keeps_vacation.
  - cbn [simpleCommand]. apply run_keeps_bind; [apply quiet_keeps; quiet|]. intros n. destruct (negb _); [intros s Hs; apply Hs|]. apply quiet_keeps. quiet.
Qed.

Lemma keeps_forM {A} (f : A -> M unit) l : Forall (fun x => Keeps (f x)) l -> Keeps (forM f l).
Proof. induction 1 as [|x l Hx _ IH]; cbn [forM]; [apply quiet_keeps; quiet|by apply run_keeps_bind]. Qed.

Lemma Admits_branches branches pos : Admits (CmdIf branches pos) -> Forall (fun b => Forall Admits b.2) branches.
Proof.
  intros Ha. apply Forall_forall. intros b Hb. apply Forall_forall. intros c Hc Hd. apply Ha. cbn. apply existsb_exists. exists b. split; [by apply list_elem_of_In|].
  apply existsb_exists. exists c. split; [by apply list_elem_of_In|done].
Qed.

Lemma keeps_branches (block : list CompiledCommand -> M unit) branches : Forall (fun b => Keeps (block b.2)) branches -> Keeps (runBranches script msg opts block branches).
Proof.
  induction 1 as [|[t b] branches Hb _ IH]; cbn [runBranches]; [apply quiet_keeps; quiet|]. apply run_keeps_bind; [apply quiet_keeps; quiet|]. by intros [|].
Qed.

Lemma keeps_runCommand c : Admits c -> Keeps (runCommand script msg opts c).
Proof.
  induction c as [branches pos IH|c Hif] using CompiledCommand_ind'; intros Ha; cbn [runCommand].
  - apply run_keeps_bind; [apply quiet_keeps; quiet|]. intros _. apply run_keeps_bind; [apply quiet_keeps; quiet|]. intros _. apply keeps_branches. apply Admits_branches in Ha.
    rewrite !Forall_forall in *. intros b Hb. apply keeps_forM. specialize (IH b Hb). specialize (Ha b Hb). rewrite !Forall_forall in *. auto.
  - destruct c; try (by destruct (Hif _ _ eq_refl)); cbn [runCommand]; (apply run_keeps_bind; [apply quiet_keeps; quiet|]; intros _; apply run_keeps_bind; [apply quiet_keeps; quiet|]; intros _; by apply keeps_simple).
Qed.

Lemma Inv_new : Inv newRun.
Proof. constructor; cbn; try (by constructor); try lia; try set_solver; [|unfold TraceOk; cbn; lia]. by rewrite Exists_nil. Qed.

Lemma keeps_script : Keeps (runBlock script msg opts (cs_commands script)).
Proof.
  apply keeps_forM, Forall_forall. intros c Hc. apply keeps_runCommand. intros Hd. apply existsb_exists. exists c. split; [by apply list_elem_of_In|done].
Qed.

(** How a run ends: in an error, or in a state that satisfies the invariant, to whose actions the implicit keep is added. *)
Lemma execute_cases :
  let r := execute script msg opts in
  (exists e, sr_error r = Some e /\ sr_actions r = [ActKeep (inbox opts) None true 0] /\ sr_implicitKeep r = true /\ sr_bucket r = None /\
    Z.of_nat (length (sr_trace r)) <= Z.max 0 (maxTrace opts) + 1) \/
  (exists s flags, Inv s /\ sr_error r = None /\ sr_implicitKeep r = r_implicitKeep s /\ Z.of_nat (length (sr_trace r)) <= Z.max 0 (maxTrace opts) + 1 /\
    sr_actions r = r_actions s ++ if r_implicitKeep s then [ActKeep (inbox opts) flags true 0] else []).
Proof.
  cbv zeta. unfold execute, run. pose proof (keeps_script newRun Inv_new) as H. destruct (runBlock _ _ _ _ newRun) as [[a| |e] s]; cbn.
  1, 2: right; exists s, (if useFlags script then Some (r_flags s) else None); pose proof (inv_trace _ H) as Ht; unfold TraceOk in Ht;
    destruct (r_implicitKeep s) eqn:E; cbn; rewrite ?app_nil_r; split_and!; (done || lia).
  left. exists e. split_and!; [done..|]. unfold TraceOk in H. rewrite length_app. cbn. lia.
Qed.

(** ** Theorems *)

Lemma cancels_delivers a : ActionOk a -> scriptDiscards = false -> cancels a -> delivers a.
Proof. intros Ha Hd. destruct a; cbn in *; congruence || done. Qed.

(** C10: No message is lost. A script that fails leaves the implicit keep as the only action and no bucket. Otherwise
    the implicit keep is there, after the actions of the script and in the inbox, exactly when the script has neither
    kept, filed, discarded nor redirected the message to where it may go; so a script without a discard always has it
    delivered somewhere, whatever it refuses, suppresses or stops at. *)
Theorem sieve_loses_no_mail :
  let r := execute script msg opts in
  match sr_error r with
  | Some _ => sr_actions r = [ActKeep (inbox opts) None true 0] /\ sr_implicitKeep r = true /\ sr_bucket r = None
  | None => exists acts flags, Forall ActionOk acts /\ (sr_implicitKeep r = false <-> Exists cancels acts) /\
      sr_actions r = acts ++ if sr_implicitKeep r then [ActKeep (inbox opts) flags true 0] else []
  end /\
  (scriptDiscards = false -> Exists delivers (sr_actions r)).
Proof.
  cbv zeta. destruct execute_cases as [(e & -> & -> & Hk & Hb & _)|(s & flags & [] & -> & -> & _ & ->)].
  - split; [done|]. intros _. by left.
  - split; [by exists (r_actions s), flags|]. intros Hd. destruct (r_implicitKeep s); [apply Exists_app; right; by left|]. rewrite app_nil_r.
    destruct inv_keep0 as [Hc _]. apply Exists_exists in Hc as (a & Ha & Hca); [|done]. apply Exists_exists. exists a. split; [done|].
    rewrite Forall_forall in inv_ok0. by apply cancels_delivers; [apply inv_ok0|..].
Qed.

(** C11: Postroom never relays, and does nothing twice: of the redirects of a run exactly those to addresses the account
    owns are allowed, each goes to a valid address, no two to the same one, and there are no more than the limit; no
    two deliveries are to the same mailbox; and the actions, the implicit keep included, and the trace are bounded. *)
Theorem sieve_never_relays :
  let r := execute script msg opts in
  (forall address allowed reason line, ActRedirect address allowed reason line ∈ sr_actions r -> isAddress address = true /\ (allowed = true <-> owns opts address = true)) /\
  NoDup (omap redirectKey (sr_actions r)) /\ Z.of_nat (length (omap redirectKey (sr_actions r))) <= Z.max 0 (maxRedirects opts) /\
  NoDup (omap deliveryKey (sr_actions r)) /\
  Z.of_nat (length (sr_actions r)) <= Z.max 0 (maxActions opts) + 1 /\ Z.of_nat (length (sr_trace r)) <= Z.max 0 (maxTrace opts) + 1.
Proof.
  cbv zeta. destruct execute_cases as [(e & _ & -> & _ & _ & Ht)|(s & flags & [] & _ & _ & Ht & ->)].
  - split_and!; cbn; [set_solver|constructor|lia|apply NoDup_singleton|lia|done].
  - rewrite !omap_app. split_and!.
    + intros address allowed reason line [Hin|Hin]%elem_of_app; [|destruct (r_implicitKeep s); set_solver]. rewrite Forall_forall in inv_ok0. destruct (inv_ok0 _ Hin) as [Ha ->]. done.
    + destruct (r_implicitKeep s); cbn; by rewrite app_nil_r.
    + destruct (r_implicitKeep s); cbn; by rewrite app_nil_r.
    + destruct (r_implicitKeep s) eqn:E; cbn; [|by rewrite app_nil_r]. apply NoDup_app. split_and!; [done| |apply NoDup_singleton]. intros k Hk%list_elem_of_omap _. destruct Hk as (a & Ha & Hk).
      assert (true = false) as [=]. apply inv_keep0, Exists_exists. exists a. by destruct a.
    + rewrite length_app. destruct (r_implicitKeep s); cbn; lia.
    + done.
Qed.


(** ** What validation rules out *)

Definition NoBadValue {A} (o : Outcome A) : Prop := match o with Failed e => re_code e <> RunBadValue | _ => True end.
Definition Clean {A} (m : M A) : Prop := forall s, NoBadValue (m s).1.

Lemma quiet_clean {A} (m : M A) : Quiet m -> Clean m.
Proof. intros Hq s. destruct (Hq s) as [_ He]. destruct (m s) as [[a| |e] s']; [done..|]. cbn in *. congruence. Qed.

Lemma clean_bind {A B} (m : M A) (f : A -> M B) : Clean m -> (forall a, Clean (f a)) -> Clean (m ≫= f).
Proof. intros Hm Hf s. specialize (Hm s). unfold mbind, Run_bind. destruct (m s) as [[a| |e] s']; [apply Hf|done..]. Qed.

Lemma clean_ret_bind {A B} (a : A) (f : A -> M B) : Clean (f a) -> Clean (mret a ≫= f).
Proof. done. Qed.

Lemma clean_update f : Clean (update f).
Proof. by intros s. Qed.

Lemma clean_fail {A} code detail : code <> RunBadValue -> Clean (fail (A := A) code detail).
Proof. by intros H s. Qed.

(** The parts of a command, those that act first. *)
Ltac clean := repeat first
  [ progress cbv beta zeta
  | match goal with
    | |- Clean (_ ≫= _) => apply clean_bind; [|intros ?]
    | |- Clean (if ?b then _ else _) => destruct b
    | |- Clean (match ?x with _ => _ end) => destruct x
    | |- Clean (update _) => apply clean_update
    | |- Clean (fail _ _) => by apply clean_fail
    end
  | solve [apply quiet_clean; auto with quiet] ].

Lemma clean_push a : Clean (push opts a).
Proof. unfold push. clean. Qed.

Lemma clean_deliver type mb flags : Clean (deliver opts type mb flags).
Proof. unfold deliver. clean; apply clean_push. Qed.

Lemma clean_redirect address : isAddress address = true -> Clean (redirect opts address).
Proof. intros H. unfold redirect. rewrite H. cbn [negb]. clean; apply clean_push. Qed.

Lemma clean_vacation cmd : Clean (vacation script msg opts cmd).
Proof. unfold vacation. clean; apply clean_push. Qed.

Lemma clean_forM {A} (f : A -> M unit) l : Forall (fun x => Clean (f x)) l -> Clean (forM f l).
Proof. induction 1 as [|x l Hx _ IH]; cbn [forM]; clean; auto. Qed.

Lemma clean_branches (block : list CompiledCommand -> M unit) branches : Forall (fun b => Clean (block b.2)) branches -> Clean (runBranches script msg opts block branches).
Proof. induction 1 as [|[t b] branches Hb _ IH]; cbn [runBranches]; clean; auto. Qed.

Section literal.
Context (Hliteral : js "variables" ∉ capabilities script).

Lemma literal_script s : literal (capabilities script) s = true.
Proof. unfold literal, variables. by rewrite bool_decide_eq_false_2. Qed.

Lemma expand_literal s : expand script opts s = mret s.
Proof. unfold expand, useVariables. by rewrite bool_decide_eq_false_2. Qed.

Lemma clean_runCommand c : WfCommand (capabilities script) c -> Clean (runCommand script msg opts c).
Proof.
  induction c as [branches pos IH|c Hif] using CompiledCommand_ind'; intros Hw.
  - cbn [runCommand]. clean. apply clean_branches. inversion Hw as [? ? _ Hbs| | | | | | | | |]; subst. rewrite Forall_forall in *. intros b Hb. apply clean_forM.
    specialize (IH b Hb). destruct (Hbs b Hb) as [_ Hcs]. rewrite Forall_forall in *. auto.
  - inversion Hw; subst; [by destruct (Hif _ _ eq_refl)|..]; cbn [runCommand]; clean; cbn [simpleCommand]; rewrite ?expand_literal.
    + clean. by intros s.
    + clean. apply clean_push.
    + clean. apply clean_deliver.
    + apply clean_ret_bind. rewrite bool_decide_eq_false_2 by done. clean. apply clean_deliver.
    + apply clean_ret_bind, clean_redirect. auto using literal_script.
    + clean.
    + clean.
    + apply clean_vacation.
    + apply clean_ret_bind. match goal with Hc : Checked _ BUCKET_NAME _ |- _ => rewrite (Hc (literal_script _)) end. cbn [negb]. clean.
Qed.

Lemma clean_script e : Forall (WfCommand (capabilities script)) (cs_commands script) -> sr_error (execute script msg opts) = Some e -> re_code e <> RunBadValue.
Proof.
  intros Hw. assert (Hc : Clean (runBlock script msg opts (cs_commands script))) by (apply clean_forM; eapply Forall_impl; [done|]; apply clean_runCommand).
  specialize (Hc newRun). unfold execute, run. destruct (runBlock _ _ _ _ newRun) as [[a| |e'] s]; cbn in *; [by destruct (r_implicitKeep s)..|]. by intros [= <-].
Qed.
End literal.
End run.

(** C13: What validation lets through, a run does not stumble over: a script that compiles and does not require
    variables never fails on a value (an address, a mailbox or a bucket name) whatever the message; only the limits on
    work and actions or a second vacation can end it. *)
Theorem validated_values script p msg opts e :
  compile script = Ok p -> js "variables" ∉ capabilities p -> sr_error (execute p msg opts) = Some e -> re_code e <> RunBadValue.
Proof.
  intros Hc Hv He. pose proof (compile_good script) as Hg. rewrite Hc in Hg. destruct Hg as [Hw _]. by eapply clean_script.
Qed.
End interpreter.

(** ** Runs *)

Module SieveDemo.
#[export] Instance runtime : Runtime := {| uni_upper s := s; uni_lower s := s; big_string n := []; isIPv6 _ := false |}.
#[export] Instance decoders : TextDecoders := {| labelEncoding l := Some l; textDecode _ b := b |}.
#[export] Instance hash : Sha256 := {| sha256 b := [Z.of_nat (length b) mod 256] |}.

Definition options : ExecuteOptions :=
  mkOptions (Some [js "me@example.org"; js "Me.Too@example.org"]) None None None None None (Some 2) (Some 4) None None None None.

Definition message : SieveMessage :=
  mkMessage 1000 (js "ann@example.com") (js "me@example.org")
    (fun name => if bool_decide (name = js "to") then [js "Me <me@example.org>"] else if bool_decide (name = js "subject") then [js "[acme] hello"] else []) [] [].

(** The script, read, validated and run. *)
Definition runText (text : jsstr) : option SieveResult :=
  match parse DEFAULT_LIMITS (SrcText text) with
  | Ok tree => match compile tree with Ok p => Some (execute p message options) | _ => None end
  | _ => None
  end.

Abbreviation q s := (inQuotes (js s)).

(** A list message is filed by the name in its subject; nothing else happens to it. *)
Definition sortingScript : jsstr :=
  js "require [" ++ q "fileinto" ++ js ", " ++ q "variables" ++ js "];" ++ CRLF ++
  js "if header :matches " ++ q "subject" ++ js " " ++ q "[*] *" ++ js " { fileinto " ++ q "lists/${1}" ++ js "; stop; }" ++ CRLF ++ js "discard;" ++ CRLF.

Example sorted : sr_actions <$> runText sortingScript = Some [ActFileinto (js "lists/acme") None false 2].
Proof. by vm_compute. Qed.

(** A redirect to a stranger is refused, and the message kept; one to the account is allowed, once. *)
Definition redirectScript : jsstr :=
  js "redirect " ++ q "stranger@example.net" ++ js ";" ++ CRLF ++ js "redirect " ++ q "me.too@example.org" ++ js "; redirect " ++ q "me.too@example.org" ++ js ";".

Example redirected : option_map (fun r => (omap redirectKey (sr_actions r), length (sr_actions r), sr_implicitKeep r)) (runText redirectScript)
  = Some ([js "stranger@example.net"; js "me.too@example.org"], 2%nat, false).
Proof. by vm_compute. Qed.

Definition strangerScript : jsstr := js "redirect " ++ q "stranger@example.net" ++ js ";".

Example refused : option_map (fun r => (length (sr_actions r), last (sr_actions r), sr_implicitKeep r)) (runText strangerScript)
  = Some (2%nat, Some (ActKeep (js "INBOX") None true 0), true).
Proof. by vm_compute. Qed.

(** A reply, and a second one, which is an error: the message is kept all the same. *)
Definition replyScript : jsstr := js "require " ++ q "vacation" ++ js "; vacation " ++ q "Away" ++ js ";".

Example replied : option_map (fun r => va_respond <$> omap vacationOf (sr_actions r)) (runText replyScript) = Some [true].
Proof. by vm_compute. Qed.

Definition twiceScript : jsstr := replyScript ++ js " vacation " ++ q "Away" ++ js ";".
Definition twiceCompiled : CompiledScript :=
  match parse DEFAULT_LIMITS (SrcText twiceScript) with Ok tree => match compile tree with Ok p => p | _ => mkScript [] [] end | _ => mkScript [] [] end.
Definition twiceTree : ScriptNode := match parse DEFAULT_LIMITS (SrcText twiceScript) with Ok tree => tree | _ => [] end.
Definition twiceError : SieveRuntimeError := mkRuntimeError DuplicateVacation (js "vacation may only run once") (mkPos 1 38).
End SieveDemo.
Import SieveDemo.

Lemma validated_values_witness :
  compile SieveDemo.twiceTree = Ok SieveDemo.twiceCompiled /\ sr_error (execute SieveDemo.twiceCompiled SieveDemo.message SieveDemo.options) = Some SieveDemo.twiceError /\
  re_code SieveDemo.twiceError <> RunBadValue.
Proof.
  assert (H1 : compile SieveDemo.twiceTree = Ok SieveDemo.twiceCompiled) by (vm_compute; reflexivity).
  assert (H2 : sr_error (execute SieveDemo.twiceCompiled SieveDemo.message SieveDemo.options) = Some SieveDemo.twiceError) by (vm_compute; reflexivity).
  assert (H3 : js "variables" ∉ capabilities SieveDemo.twiceCompiled) by (eapply bool_decide_eq_true_1; vm_compute; reflexivity).
  exact (conj H1 (conj H2 (validated_values _ _ _ _ _ H1 H3 H2))).
Defined.
