(* ===== verification/Threading.v ===== *)
(** * Threading: JWZ message threading ([threading/src/jwz.ts])

    The containers are objects that point to each other, so they live in a store and a container is its index.
    A walk over pointers takes fuel; [None] is a walk that did not end, which never happens. The date of a message
    is its time in milliseconds, of a valid Date. *)
From stdpp Require Import gmap sorting.
From S2P Require Import Prelude JsString JsStringFacts.

Record ThreadInput := mkInput {
  ti_id : jsstr; ti_messageId : option jsstr; ti_inReplyTo : option jsstr; ti_references : list jsstr; ti_subject : jsstr; ti_date : Z; ti_from : jsstr; ti_to : jsstr }.

Inductive ThreadTree := mkThread (id : jsstr) (message : option ThreadInput) (children : list ThreadTree).

Record Container := mkContainer { c_key : jsstr; c_message : option ThreadInput; c_parent : option nat; c_children : list nat }.

Abbreviation Store := (list Container).

Definition setMessage (m : ThreadInput) (c : Container) : Container := mkContainer (c_key c) (Some m) (c_parent c) (c_children c).
Definition setParent (p : option nat) (c : Container) : Container := mkContainer (c_key c) (c_message c) p (c_children c).
Definition setChildren (l : list nat) (c : Container) : Container := mkContainer (c_key c) (c_message c) (c_parent c) l.

Definition childrenOf (st : Store) (i : nat) : list nat := default [] (c_children <$> st !! i).
Definition messageOf (st : Store) (i : nat) : option ThreadInput := c ← st !! i; c_message c.
Definition parentOf (st : Store) (i : nat) : option nat := c ← st !! i; c_parent c.

(** ** Identifiers *)

(** [s.replace(/\r?\n[ \t]+/g, ' ')]. *)
Fixpoint unfoldLines (fuel : nat) (s : jsstr) : jsstr :=
  match fuel, s with
  | S fuel, c :: rest =>
      let after := if c =? LF then Some rest else if (c =? CR) && bool_decide (head rest = Some LF) then Some (drop 1 rest) else None in
      match after with
      | Some r => if match r with d :: _ => (d =? SP) || (d =? HTAB) | [] => false end then SP :: unfoldLines fuel (dropWhile (fun d => (d =? SP) || (d =? HTAB)) r) else c :: unfoldLines fuel rest
      | None => c :: unfoldLines fuel rest
      end
  | _, _ => s
  end.

Definition normalizeMsgId (raw : jsstr) : jsstr :=
  let unfolded := trim (unfoldLines (length raw) raw) in
  let inner :=
    match unfolded with
    | c :: rest => if (c =? 0x3c) && bool_decide (last rest = Some 0x3e) && negb (includesChar 0x3e (take (length rest - 1) rest)) then take (length rest - 1) rest else unfolded
    | [] => unfolded
    end in
  trim inner.

(** ** Base subjects *)

Record SubjectAnalysis := mkSubject { sa_base : jsstr; sa_isReply : bool }.

(** A run of characters as one space. *)
Fixpoint runsToSpace (f : Z -> bool) (s : jsstr) (inRun : bool) : jsstr :=
  match s with
  | [] => []
  | c :: s => if f c then (if inRun then runsToSpace f s true else SP :: runsToSpace f s true) else c :: runsToSpace f s false
  end.

Definition trimEnd (s : jsstr) : jsstr := dropEndWhile is_js_space s.
Definition trimStart (s : jsstr) : jsstr := dropWhile is_js_space s.
Definition lowered (s : jsstr) : jsstr := lower_char <$> s.

(** The trailing [(fwd)]s of a text without white space at its end, with the white space before each: where they start. *)
Fixpoint fwdTrailer (fuel : nat) (s : jsstr) : option nat :=
  match fuel with
  | O => None
  | S fuel =>
      if endsWith (js "(fwd)") (lowered s) then
        let before := trimEnd (take (length s - 5) s) in
        Some (default (length before) (fwdTrailer fuel before))
      else None
  end.

Fixpoint stripTrailers (fuel : nat) (s : jsstr) (changed : bool) : jsstr * bool :=
  match fuel with
  | O => (s, changed)
  | S fuel =>
      let trimmedEnd := trimEnd s in
      match fwdTrailer (length trimmedEnd) trimmedEnd with
      | Some index => stripTrailers fuel (trimEnd (take index trimmedEnd)) true
      | None => (trimmedEnd, changed || negb (bool_decide (trimmedEnd = s)))
      end
  end.

(** A bracketed blob at the start: what is after it and after the white space that follows. *)
Definition blobRest (s : jsstr) : option jsstr :=
  match s with
  | c :: rest =>
      if c =? 0x5b then
        match drop (length (takeWhile (fun d => negb ((d =? 0x5b) || (d =? 0x5d))) rest)) rest with
        | d :: after => if d =? 0x5d then Some (trimStart after) else None
        | [] => None
        end
      else None
  | [] => None
  end.

Fixpoint skipBlobs (fuel : nat) (s : jsstr) : jsstr :=
  match fuel with
  | O => s
  | S fuel => match blobRest s with Some rest => skipBlobs fuel rest | None => s end
  end.

(** After a prefix keyword: white space, a blob and the colon. *)
Definition afterKeyword (s : jsstr) : option jsstr :=
  let s := trimStart s in
  match default s (blobRest s) with c :: rest => if c =? 0x3a then Some (trimStart rest) else None | [] => None end.

Definition keywordRest (word s : jsstr) : option jsstr := if startsWith word (lowered s) then afterKeyword (drop (length word) s) else None.

(** The first of the results that is one. *)
Definition orElse {A} (a b : option A) : option A := match a with Some _ => a | None => b end.

(** Blobs, one of re, fw, fwd, aw and sv in any case, perhaps a blob, and a colon: what is after the match. *)
Definition refwdRest (s : jsstr) : option jsstr :=
  let s := skipBlobs (length s) s in
  orElse (keywordRest (js "re") s) (orElse (keywordRest (js "fw") s) (orElse (keywordRest (js "fwd") s) (orElse (keywordRest (js "aw") s) (keywordRest (js "sv") s)))).

(** The text, whether it is a reply, and whether something changed. *)
Record Stripping := mkStripping { s_text : jsstr; s_reply : bool; s_changed : bool }.

Fixpoint stripPrefixes (fuel : nat) (x : Stripping) : Stripping :=
  match fuel with
  | O => x
  | S fuel =>
      let s := trimStart (s_text x) in
      let changed := s_changed x || negb (bool_decide (s = s_text x)) in
      match refwdRest s with
      | Some rest => stripPrefixes fuel (mkStripping rest true true)
      | None =>
          match blobRest s with
          | Some (c :: rest) => stripPrefixes fuel (mkStripping (c :: rest) (s_reply x) true)
          | _ => mkStripping s (s_reply x) changed
          end
      end
  end.

(** What is inside a pair of brackets that starts with [fwd:], if it is one line. *)
Definition fwdWrapped (s : jsstr) : option jsstr :=
  if startsWith (js "[fwd:") (lowered s) && (6 <=? length s)%nat && bool_decide (last s = Some 0x5d) then
    let inner := trimStart (take (length s - 6) (drop 5 s)) in
    if existsb (fun c => (c =? LF) || (c =? CR) || (c =? 0x2028) || (c =? 0x2029)) inner then None else Some inner
  else None.

(** One round of the loop. *)
Definition stripRound (s : jsstr) (isReply : bool) : Stripping :=
  let '(s, changed) := stripTrailers (S (length s)) s false in
  let x := stripPrefixes (S (length s)) (mkStripping s isReply changed) in
  match fwdWrapped (s_text x) with
  | Some inner => mkStripping inner true true
  | None => x
  end.

Fixpoint stripSubject (fuel : nat) (s : jsstr) (isReply : bool) : jsstr * bool :=
  match fuel with
  | O => (s, isReply)
  | S fuel =>
      let x := stripRound s isReply in
      if s_changed x then stripSubject fuel (s_text x) (s_reply x) else (s_text x, s_reply x)
  end.

Definition flattened (subjectRaw : jsstr) : jsstr :=
  trim (runsToSpace (fun c => c =? SP) (runsToSpace (fun c => (c =? HTAB) || (c =? CR) || (c =? LF)) subjectRaw false) false).

Section threading.
Context `{R : Runtime}.

Definition analyzeSubject (subjectRaw : jsstr) : SubjectAnalysis :=
  let s := flattened subjectRaw in
  let '(s, isReply) := stripSubject (S (length s)) s false in
  mkSubject (toLowerCase s) isReply.

Definition baseSubject (subject : jsstr) : jsstr := sa_base (analyzeSubject subject).

(** ** Linking *)

(** [isDescendant], from a stack with its top first. *)
Fixpoint reaches (fuel : nat) (st : Store) (stack : list nat) (target : nat) : option bool :=
  match fuel with
  | O => None
  | S fuel =>
      match stack with
      | [] => Some false
      | cur :: stack => if (cur =? target)%nat then Some true else reaches fuel st (rev (childrenOf st cur) ++ stack) target
      end
  end.
Definition isDescendant (st : Store) (root target : nat) : option bool := reaches (S (length st)) st (rev (childrenOf st root)) target.

Definition pushChild (p c : nat) (st : Store) : Store := alter (fun x => setChildren (c_children x ++ [c]) x) p st.

Definition link (newParent newChild : nat) (st : Store) : option Store :=
  if (newParent =? newChild)%nat then Some st
  else if bool_decide (parentOf st newChild <> None) then Some st
  else
    below ← isDescendant st newChild newParent;
    if below : bool then Some st else Some (alter (setParent (Some newParent)) newChild (pushChild newParent newChild st)).

(** ** Pruning *)

Fixpoint pruneForest (fuel : nat) (st : Store) (containers : list nat) (parent : option nat) {struct fuel} : option (Store * list nat) :=
  match fuel with
  | O => None
  | S fuel =>
      match containers with
      | [] => Some (st, [])
      | c :: rest =>
          '(st, kids) ← pruneForest fuel st (childrenOf st c) (Some c);
          let st := alter (setChildren kids) c st in
          match messageOf st c, kids with
          | None, [] => pruneForest fuel st rest parent
          | None, [only] =>
              '(st, result) ← pruneForest fuel (alter (setParent parent) only st) rest parent;
              Some (st, only :: result)
          | _, _ =>
              '(st, result) ← pruneForest fuel (alter (setParent parent) c st) rest parent;
              Some (st, c :: result)
          end
      end
  end.

(** ** Grouping by subject *)

(** [subjectSource]: of the first container, in order, that has a message. *)
Fixpoint firstSubject (fuel : nat) (st : Store) (l : list nat) {struct fuel} : option (option jsstr) :=
  match fuel with
  | O => None
  | S fuel =>
      match l with
      | [] => Some None
      | c :: rest =>
          match messageOf st c with
          | Some m => Some (Some (ti_subject m))
          | None =>
              s ← firstSubject fuel st (childrenOf st c);
              match s with Some s => Some (Some s) | None => firstSubject fuel st rest end
          end
      end
  end.

(** [infoByContainer]. *)
Fixpoint subjectInfo (fuel : nat) (st : Store) (root : list nat) (info : gmap nat SubjectAnalysis) : option (gmap nat SubjectAnalysis) :=
  match root with
  | [] => Some info
  | c :: root =>
      subj ← firstSubject fuel st [c];
      match subj with
      | None => subjectInfo fuel st root info
      | Some subj =>
          let a := analyzeSubject subj in
          subjectInfo fuel st root (if bool_decide (sa_base a = []) then info else <[c := a]> info)
      end
  end.

Definition isDummy (st : Store) (c : nat) : bool := bool_decide (messageOf st c = None).
Definition replyOf (info : gmap nat SubjectAnalysis) (c : nat) : option bool := sa_isReply <$> info !! c.

(** The representative of each base subject. *)
Fixpoint subjectTable (st : Store) (info : gmap nat SubjectAnalysis) (root : list nat) (table : gmap jsstr nat) : gmap jsstr nat :=
  match root with
  | [] => table
  | c :: root =>
      match info !! c with
      | None => subjectTable st info root table
      | Some a =>
          match table !! sa_base a with
          | None => subjectTable st info root (<[sa_base a := c]> table)
          | Some existing =>
              let better :=
                (isDummy st c && negb (isDummy st existing)) ||
                (negb (isDummy st c) && negb (isDummy st existing) && bool_decide (replyOf info existing = Some true) && negb (sa_isReply a)) in
              subjectTable st info root (if better then <[sa_base a := c]> table else table)
          end
      end
  end.

(** The state of the loop that merges. *)
Record Grouping := mkGrouping { g_store : Store; g_result : list nat; g_removed : list nat; g_table : gmap jsstr nat; g_dummies : nat }.

Definition moveUnder (p c : nat) (st : Store) : Store := pushChild p c (alter (setParent (Some p)) c st).

(** [result.splice(result.indexOf(x), 1)], where it is there. *)
Fixpoint spliceOut (x : nat) (l : list nat) : list nat :=
  match l with [] => [] | y :: l => if (y =? x)%nat then l else y :: spliceOut x l end.

(** A number in the keys made up for containers without a message. *)
Definition madeUpKey (kind : jsstr) (n : nat) : jsstr := NUL :: kind ++ js ":" ++ dec (Z.of_nat n).

Definition keepRoot (c : nat) (g : Grouping) : Grouping := mkGrouping (g_store g) (g_result g ++ [c]) (g_removed g) (g_table g) (g_dummies g).
Definition mergeInto (st : Store) (c : nat) (g : Grouping) : Grouping := mkGrouping st (g_result g) (c :: g_removed g) (g_table g) (g_dummies g).

Definition groupStep (info : gmap nat SubjectAnalysis) (c : nat) (g : Grouping) : Grouping :=
  let st := g_store g in
  if bool_decide (c ∈ g_removed g) then g
  else
    match info !! c with
    | None => keepRoot c g
    | Some a =>
        match g_table g !! sa_base a with
        | None => keepRoot c g
        | Some rep =>
            if (rep =? c)%nat then keepRoot c g
            else if isDummy st rep && isDummy st c then
              mergeInto (fold_left (fun st ch => moveUnder rep ch st) (childrenOf st c) st) c g
            else if isDummy st rep then mergeInto (moveUnder rep c st) c g
            else if isDummy st c then keepRoot c g
            else if bool_decide (replyOf info rep = Some false) && sa_isReply a then mergeInto (moveUnder rep c st) c g
            else if bool_decide (replyOf info rep = Some true) && negb (sa_isReply a) then
              mkGrouping (moveUnder c rep st) (spliceOut rep (g_result g) ++ [c]) (rep :: g_removed g) (<[sa_base a := c]> (g_table g)) (g_dummies g)
            else
              let dummy := length st in
              let st := st ++ [mkContainer (madeUpKey (js "subj") (g_dummies g)) None None [rep; c]] in
              let st := alter (setParent (Some dummy)) c (alter (setParent (Some dummy)) rep st) in
              mkGrouping st (spliceOut rep (g_result g) ++ [dummy]) (c :: rep :: g_removed g) (<[sa_base a := dummy]> (g_table g)) (S (g_dummies g))
        end
    end.

(** [dummyCounter] lives in the module: it comes in and goes out. *)
Definition groupBySubject (fuel : nat) (st : Store) (root : list nat) (dummyCounter : nat) : option (Store * list nat * nat) :=
  info ← subjectInfo fuel st root ∅;
  let g := fold_left (fun g c => groupStep info c g) root (mkGrouping st [] [] (subjectTable st info root ∅) dummyCounter) in
  Some (g_store g, g_result g, g_dummies g).

(** ** Sorting *)

(** A time, or positive infinity. *)
Definition earlier (a b : option Z) : option Z := match a, b with None, x | x, None => x | Some x, Some y => Some (Z.min x y) end.
Definition notAfter (a b : option Z) : bool := match a, b with _, None => true | None, Some _ => false | Some x, Some y => x <=? y end.

(** The least [minDate] of some containers. *)
Fixpoint minDates (fuel : nat) (st : Store) (l : list nat) {struct fuel} : option (option Z) :=
  match fuel with
  | O => None
  | S fuel =>
      match l with
      | [] => Some None
      | c :: rest =>
          d ← match messageOf st c with Some m => Some (Some (ti_date m)) | None => minDates fuel st (childrenOf st c) end;
          ds ← minDates fuel st rest;
          Some (earlier d ds)
      end
  end.
Definition minDate (fuel : nat) (st : Store) (c : nat) : option (option Z) := minDates fuel st [c].

(** [Array.prototype.sort], which is stable, of containers with their dates. *)
Fixpoint insertByDate (x : option Z * nat) (l : list (option Z * nat)) : list (option Z * nat) :=
  match l with
  | [] => [x]
  | y :: l => if notAfter y.1 x.1 then y :: insertByDate x l else x :: y :: l
  end.
Definition sortByDate (l : list (option Z * nat)) : list (option Z * nat) := fold_left (fun acc x => insertByDate x acc) l [].

Definition dated (fuel : nat) (st : Store) (l : list nat) : option (list (option Z * nat)) := mapM (fun c => d ← minDate fuel st c; Some (d, c)) l.

(** Enough for a walk over every container. *)
Definition walkFuel (st : Store) : nat := S (length st).

(** The children of every container, from the first. *)
Fixpoint sortChildren (fuel : nat) (st : Store) (l : list nat) {struct fuel} : option Store :=
  match fuel with
  | O => None
  | S fuel =>
      match l with
      | [] => Some st
      | c :: rest =>
          st ← sortChildren fuel st (childrenOf st c);
          kids ← dated (walkFuel st) st (childrenOf st c);
          sortChildren fuel (alter (setChildren (snd <$> sortByDate kids)) c st) rest
      end
  end.

Definition sortForest (fuel : nat) (st : Store) (containers : list nat) : option (Store * list nat) :=
  st ← sortChildren fuel st containers;
  l ← dated fuel st containers;
  Some (st, snd <$> sortByDate l).

(** ** Trees *)

Fixpoint toThreadTrees (fuel : nat) (st : Store) (l : list nat) {struct fuel} : option (list ThreadTree) :=
  match fuel with
  | O => None
  | S fuel =>
      match l with
      | [] => Some []
      | c :: rest =>
          x ← st !! c;
          kids ← toThreadTrees fuel st (c_children x);
          ts ← toThreadTrees fuel st rest;
          Some (mkThread (c_key x) (c_message x) kids :: ts)
      end
  end.

(** ** The threader *)

Record Threader := mkThreader { t_store : Store; t_ids : gmap jsstr nat; t_synthetic : nat }.

(** A new container; [None] for one that no identifier leads to. *)
Definition addContainer (key : jsstr) (message : option ThreadInput) (listed : bool) (t : Threader) : nat * Threader :=
  let i := length (t_store t) in
  (i, mkThreader (t_store t ++ [mkContainer key message None []]) (if listed then <[key := i]> (t_ids t) else t_ids t) (t_synthetic t)).

Definition nextSynthetic (t : Threader) : jsstr * Threader := (madeUpKey (js "dup") (t_synthetic t), mkThreader (t_store t) (t_ids t) (S (t_synthetic t))).

Definition addDuplicate (msg : ThreadInput) (t : Threader) : nat * Threader := let '(key, t) := nextSynthetic t in addContainer key (Some msg) false t.

Definition getOrCreatePlaceholder (key : jsstr) (t : Threader) : nat * Threader :=
  match t_ids t !! key with Some existing => (existing, t) | None => addContainer key None true t end.

Definition containerFor (msg : ThreadInput) (t : Threader) : nat * Threader :=
  let rawKey := match ti_messageId msg with Some m => normalizeMsgId m | None => [] end in
  if bool_decide (rawKey = []) then addDuplicate msg t
  else
    match t_ids t !! rawKey with
    | Some existing =>
        if isDummy (t_store t) existing then (existing, mkThreader (alter (setMessage msg) existing (t_store t)) (t_ids t) (t_synthetic t))
        else addDuplicate msg t
    | None => addContainer rawKey (Some msg) true t
    end.

Definition pushRef (chain : list jsstr) (raw : jsstr) : list jsstr :=
  let norm := normalizeMsgId raw in
  if negb (bool_decide (norm = [])) && negb (bool_decide (last chain = Some norm)) then chain ++ [norm] else chain.

Definition refChain (msg : ThreadInput) : list jsstr :=
  let chain := fold_left pushRef (ti_references msg) [] in
  match ti_inReplyTo msg with Some r => pushRef chain r | None => chain end.

Definition linkAfter (prev : option nat) (c : nat) (t : Threader) : option Threader :=
  match prev with
  | None => Some t
  | Some p => st ← link p c (t_store t); Some (mkThreader st (t_ids t) (t_synthetic t))
  end.

Fixpoint linkChain (chain : list jsstr) (prev : option nat) (t : Threader) : option (option nat * Threader) :=
  match chain with
  | [] => Some (prev, t)
  | key :: chain =>
      let '(c, t) := getOrCreatePlaceholder key t in
      t ← linkAfter prev c t;
      linkChain chain (Some c) t
  end.

Definition threadOne (msg : ThreadInput) (t : Threader) : option Threader :=
  let '(container, t) := containerFor msg t in
  '(prev, t) ← linkChain (refChain msg) None t;
  linkAfter prev container t.

Fixpoint threadAll (msgs : list ThreadInput) (t : Threader) : option Threader :=
  match msgs with [] => Some t | msg :: msgs => t ← threadOne msg t; threadAll msgs t end.

Definition rootsOf (st : Store) : list nat := filter (fun i => parentOf st i = None) (seq 0 (length st)).

Definition threadMessages (msgs : list ThreadInput) (dummyCounter : nat) : option (list ThreadTree * nat) :=
  t ← threadAll msgs (mkThreader [] ∅ 0);
  '(st, root) ← pruneForest (walkFuel (t_store t)) (t_store t) (rootsOf (t_store t)) None;
  '(st, root, dummyCounter) ← groupBySubject (walkFuel st) st root dummyCounter;
  '(st, root) ← sortForest (walkFuel st) st root;
  trees ← toThreadTrees (walkFuel st) st root;
  Some (trees, dummyCounter).
End threading.

(** ** Every message is in the threads once, and the containers never form a cycle

    A part of the store is read as a forest ([Rep]); linking, pruning, grouping and sorting are shown to turn
    forests into forests with the same messages. *)

(** ** Forests of containers *)

Inductive Tree := N (i : nat) (ts : list Tree).

Lemma Tree_ind' (P : Tree -> Prop) : (forall i ts, Forall P ts -> P (N i ts)) -> forall t, P t.
Proof. intros H. fix IH 1. intros [i ts]. apply H. induction ts; constructor; auto. Qed.

Definition root (t : Tree) : nat := let '(N i _) := t in i.
Fixpoint ids (t : Tree) : list nat := let '(N i ts) := t in i :: concat (ids <$> ts).

Abbreviation roots F := (root <$> F).
Abbreviation idsF F := (concat (ids <$> F)).

(** The pointers of the store are those of the tree. *)
Inductive Rep (st : Store) : Tree -> Prop :=
  | Rep_node i ts x : st !! i = Some x -> c_children x = roots ts -> Forall (Rep st) ts -> Rep st (N i ts).

(** No two places of the forest are the same container. *)
Definition Forest (st : Store) (F : list Tree) : Prop := Forall (Rep st) F /\ NoDup (idsF F).

Lemma idsF_app F G : idsF (F ++ G) = idsF F ++ idsF G.
Proof. by rewrite fmap_app, concat_app. Qed.

Lemma idsF_perm F G : F ≡ₚ G -> idsF F ≡ₚ idsF G.
Proof. intros H. by rewrite H. Qed.

Lemma root_in_ids t : root t ∈ ids t.
Proof. destruct t. left. Qed.

Lemma elem_idsF F i : i ∈ idsF F <-> exists t, t ∈ F /\ i ∈ ids t.
Proof.
  induction F as [|t F IH]; cbn; [split; [by intros ?%elem_of_nil|by intros (t & ?%elem_of_nil & _)]|]. rewrite elem_of_app, IH. split.
  - intros [Hi|(u & Hu & Hi)]; [exists t; split; [left|done]|exists u; split; [by right|done]].
  - intros (u & [->|Hu]%elem_of_cons & Hi); [by left|right; by exists u].
Qed.

Lemma roots_in_ids F i : i ∈ roots F -> i ∈ idsF F.
Proof. intros (t & -> & Ht)%list_elem_of_fmap. apply elem_idsF. exists t. split; [done|apply root_in_ids]. Qed.

(** What the children are outside the tree does not matter. *)
Lemma Rep_frame st st' t : Rep st t -> (forall i, i ∈ ids t -> c_children <$> st' !! i = c_children <$> st !! i) -> Rep st' t.
Proof.
  induction t as [i ts IH] using Tree_ind'. inversion 1 as [? ? x Hx Hc Hts]; subst. intros Hf. pose proof (Hf i ltac:(by left)) as Hi. rewrite Hx in Hi. cbn in Hi.
  destruct (st' !! i) as [x'|] eqn:Hx'; [|done]. injection Hi as Hi. econstructor; [done|congruence|]. rewrite Forall_forall in *. intros t Ht. apply IH; [done|by apply Hts|].
  intros j Hj. apply Hf. right. apply elem_idsF. by exists t.
Qed.

Lemma RepF_frame st st' F : Forall (Rep st) F -> (forall i, i ∈ idsF F -> c_children <$> st' !! i = c_children <$> st !! i) -> Forall (Rep st') F.
Proof. intros HF Hf. rewrite Forall_forall in *. intros t Ht. eapply Rep_frame; [by apply HF|]. intros i Hi. apply Hf, elem_idsF. by exists t. Qed.

Lemma Rep_lt st t i : Rep st t -> i ∈ ids t -> (i < length st)%nat.
Proof.
  induction t as [j ts IH] using Tree_ind'. inversion 1 as [? ? x Hx Hc Hts]; subst. intros [->|Hi]%elem_of_cons; [by apply lookup_lt_Some in Hx|].
  apply elem_idsF in Hi as (t & Ht & Hi). rewrite Forall_forall in *. eauto.
Qed.

Lemma Forest_size st F : Forest st F -> (length (idsF F) <= length st)%nat.
Proof.
  intros [HF HN]. transitivity (length (seq 0 (length st))); [|by rewrite length_seq]. apply submseteq_length, NoDup_submseteq; [done|]. intros i (t & Ht & Hi)%elem_idsF. apply elem_of_seq. rewrite Forall_forall in HF.
  pose proof (Rep_lt _ _ _ (HF _ Ht) Hi). lia.
Qed.

Lemma Rep_children st i ts : Rep st (N i ts) -> childrenOf st i = roots ts.
Proof. inversion 1 as [? ? x Hx Hc _]; subst. unfold childrenOf. by rewrite Hx. Qed.

Lemma Rep_subtrees st i ts : Rep st (N i ts) -> Forall (Rep st) ts.
Proof. by inversion 1. Qed.

(** The head of a forest, its children and the rest are disjoint. *)
Lemma NoDup_head i ts F : NoDup (idsF (N i ts :: F)) -> i ∉ idsF ts /\ i ∉ idsF F /\ NoDup (idsF ts) /\ NoDup (idsF F) /\ (forall j, j ∈ idsF ts -> j ∉ idsF F).
Proof.
  cbn. intros [Hi H]%NoDup_cons. apply NoDup_app in H as (H1 & H2 & H3). rewrite elem_of_app in Hi. split_and!; [tauto|tauto|done|done|done].
Qed.

Lemma Forest_head st i ts F : Forest st (N i ts :: F) -> Rep st (N i ts) /\ Forest st ts /\ Forest st F.
Proof. intros [[HR HF]%Forall_cons HN]. apply NoDup_head in HN as (_ & _ & H1 & H2 & _). split_and!; [done|split; [by eapply Rep_subtrees|done]|done]. Qed.

Lemma Forest_one st t F : Forest st (t :: F) -> Forest st [t].
Proof. intros [HR HN]. inversion HR; subst. split; [by constructor|]. cbn in *. rewrite app_nil_r. by apply NoDup_app in HN as (? & _). Qed.

Lemma Forest_perm st F G : F ≡ₚ G -> Forest st F -> Forest st G.
Proof. intros HP [H1 H2]. split; [by rewrite <- HP|by rewrite <- HP]. Qed.

(** The forest with its trees in the order of a list of its roots. *)
Lemma roots_order (F : list Tree) l : roots F ≡ₚ l -> exists G, F ≡ₚ G /\ roots G = l.
Proof. intros H. symmetry in H. apply Permutation_map_inv in H as (G & -> & HG). by exists G. Qed.

Lemma NoDup_roots F : NoDup (idsF F) -> NoDup (roots F).
Proof.
  induction F as [|[i ts] F IH]; [constructor|]. intros (_ & Hi & _ & HN & _)%NoDup_head. cbn. constructor; [|auto]. intros Hr. by apply Hi, roots_in_ids.
Qed.

(** ** Walks end *)

Lemma reaches_spec fuel st S target : Forest st S -> (length (idsF S) < fuel)%nat -> reaches fuel st (roots S) target = Some (bool_decide (target ∈ idsF S)).
Proof.
  revert S. induction fuel as [|fuel IH]; intros S HS Hf; [lia|]. destruct S as [|[cur ts] S]; [by cbn|]. cbn [reaches fmap list_fmap root].
  destruct (Nat.eqb_spec cur target) as [->|Hne]; [f_equal; symmetry; apply bool_decide_eq_true; left|].
  destruct (Forest_head _ _ _ _ HS) as (HR & Hts & HS'). rewrite (Rep_children _ _ _ HR).
  assert (HP : rev ts ++ S ≡ₚ ts ++ S) by (by rewrite <- Permutation_rev). replace (rev (roots ts)) with (roots (rev ts)) by apply map_rev. rewrite <- fmap_app.
  assert (HF : Forest st (ts ++ S)). { destruct HS as [_ HN]. split; [apply Forall_app; split; [apply Hts|apply HS']|]. cbn in HN. rewrite idsF_app. by apply NoDup_cons in HN as [_ HN]. }
  rewrite IH; [|by eapply Forest_perm|rewrite (idsF_perm _ _ HP), idsF_app; cbn in Hf; rewrite !length_app in *; lia].
  f_equal. apply bool_decide_ext. rewrite (idsF_perm _ _ HP), idsF_app. cbn. rewrite elem_of_cons, elem_of_app. naive_solver.
Qed.

Definition messages (st : Store) (F : list Tree) : list ThreadInput := omap (messageOf st) (idsF F).
#[global] Arguments messages : simpl never.

(** What a tree of containers is read as. *)
Fixpoint treeOf (st : Store) (t : Tree) : ThreadTree := let '(N i ts) := t in mkThread (default [] (c_key <$> st !! i)) (messageOf st i) (treeOf st <$> ts).

Lemma messages_cons st i ts F : messages st (N i ts :: F) = option_list (messageOf st i) ++ messages st ts ++ messages st F.
Proof. unfold messages. cbn. rewrite omap_app. by destruct (messageOf st i). Qed.

Lemma messages_app st F G : messages st (F ++ G) = messages st F ++ messages st G.
Proof. unfold messages. by rewrite idsF_app, omap_app. Qed.

Lemma toThreadTrees_spec fuel st F : Forest st F -> (length (idsF F) < fuel)%nat -> toThreadTrees fuel st (roots F) = Some (treeOf st <$> F).
Proof.
  revert F. induction fuel as [|fuel IH]; intros F HF Hf; [lia|]. destruct F as [|[c ts] F]; [done|]. cbn [toThreadTrees fmap list_fmap root].
  destruct (Forest_head _ _ _ _ HF) as (HR & Hts & HF'). inversion HR as [? ? x Hx Hc _]; subst. cbn in Hf. rewrite length_app in Hf. unfold messageOf.
  rewrite Hx. cbn. rewrite Hc, (IH ts Hts) by lia. cbn. rewrite (IH F HF') by lia. cbn. unfold messageOf. rewrite Hx. done.
Qed.

(** ** Linking *)

Lemma childrenOf_alter (st : Store) (c : nat) f (i : nat) : (forall x, c_children (f x) = c_children x) -> c_children <$> alter f c st !! i = c_children <$> st !! i.
Proof.
  intros Hf. destruct (decide (c = i)) as [->|Hne]; [|by rewrite list_lookup_alter_ne]. rewrite list_lookup_alter, decide_True by done. destruct (st !! i); cbn; [by rewrite Hf|done].
Qed.

Lemma messageOf_alter (st : Store) (c : nat) f (i : nat) : (forall x, c_message (f x) = c_message x) -> messageOf (alter f c st) i = messageOf st i.
Proof.
  intros Hf. unfold messageOf. destruct (decide (c = i)) as [->|Hne]; [|by rewrite list_lookup_alter_ne]. rewrite list_lookup_alter, decide_True by done. destruct (st !! i); cbn; [by rewrite Hf|done].
Qed.

Lemma messages_ext st st' F : (forall i, messageOf st' i = messageOf st i) -> messages st' F = messages st F.
Proof. intros H. unfold messages. induction (idsF F) as [|i l IH]; [done|]. cbn. by rewrite H, IH. Qed.

Lemma messages_ids st F G : idsF F ≡ₚ idsF G -> messages st F ≡ₚ messages st G.
Proof. intros H. unfold messages. by rewrite H. Qed.

Lemma messages_perm st F G : F ≡ₚ G -> messages st F ≡ₚ messages st G.
Proof. intros H. unfold messages. by rewrite H. Qed.

(** A tree put under one place of another. *)
Lemma graft_tree (st st' : Store) p t u :
  p ∈ ids u -> NoDup (ids u) -> Rep st u -> Rep st' t ->
  (forall i, i <> p -> c_children <$> st' !! i = c_children <$> st !! i) -> c_children <$> st' !! p = (fun l => l ++ [root t]) <$> (c_children <$> st !! p) ->
  exists u', root u' = root u /\ ids u' ≡ₚ ids u ++ ids t /\ Rep st' u'.
Proof.
  intros Hp HN Hu Ht Hne Heq. induction u as [i ts IH] using Tree_ind'. inversion Hu as [? ? x Hx Hc Hts]; subst. cbn in HN. apply NoDup_cons in HN as [Hi HN].
  destruct (decide (i = p)) as [->|Hip].
  - exists (N p (ts ++ [t])). rewrite Hx in Heq. cbn in Heq. destruct (st' !! p) as [x'|] eqn:Hx'; [|done]. injection Heq as Heq. split_and!; [done| |].
    + cbn. rewrite fmap_app, concat_app. cbn. by rewrite app_nil_r.
    + econstructor; [done|rewrite Heq, Hc, fmap_app; done|]. apply Forall_app. split; [|by apply Forall_singleton]. eapply RepF_frame; [done|]. intros j Hj. apply Hne. by intros ->.
  - apply elem_of_cons in Hp as [?|Hp]; [by subst|]. apply elem_idsF in Hp as (v & Hv & Hp). apply list_elem_of_split in Hv as (ts1 & ts2 & ->).
    rewrite Forall_app, Forall_cons in IH, Hts. destruct IH as (_ & IHv & _), Hts as (H1 & Hv & H2). rewrite idsF_app in HN. cbn in HN. apply NoDup_app in HN as (HN1 & Hd1 & HN2). apply NoDup_app in HN2 as (HNv & Hd2 & HN2).
    destruct (IHv Hp HNv Hv) as (v' & Hr & HP & HR). exists (N i (ts1 ++ v' :: ts2)). split_and!; [done| |].
    + cbn. rewrite !fmap_app, !concat_app. cbn. rewrite HP. solve_Permutation.
    + pose proof (Hne i Hip) as Hci. rewrite Hx in Hci. destruct (st' !! i) as [x'|] eqn:Hx'; [|done]. injection Hci as Hci. econstructor; [done|rewrite Hci, Hc, !fmap_app; cbn; by rewrite Hr|].
      rewrite Forall_app, Forall_cons. split_and!; [|done|].
      * eapply RepF_frame; [done|]. intros j Hj. apply Hne. intros ->. apply (Hd1 p Hj), elem_of_app. by left.
      * eapply RepF_frame; [done|]. intros j Hj. apply Hne. intros ->. by apply (Hd2 p).
Qed.

(** The store is one forest, whose roots are the containers without a parent. *)
Record Linked (st : Store) (F : list Tree) : Prop := {
  linked_forest : Forest st F;
  linked_all : idsF F ≡ₚ seq 0 (length st);
  linked_roots : forall i, (i < length st)%nat -> (parentOf st i = None <-> i ∈ roots F)
}.

Lemma linked_in st F i : Linked st F -> (i < length st)%nat -> i ∈ idsF F.
Proof. intros [_ HP _] Hi. rewrite HP, elem_of_seq. lia. Qed.

Lemma linked_split st F c : Linked st F -> (c < length st)%nat -> parentOf st c = None -> exists ts F0, F ≡ₚ N c ts :: F0.
Proof.
  intros HL Hc Hp. apply (linked_roots _ _ HL c Hc) in Hp. apply list_elem_of_fmap in Hp as ([i ts] & -> & Ht). apply list_elem_of_split in Ht as (F1 & F2 & ->).
  exists ts, (F1 ++ F2). by rewrite Permutation_middle.
Qed.

(** What two stores have in common after a link: the size and the messages. *)
Definition SameMessages (st st' : Store) : Prop := length st' = length st /\ forall i, messageOf st' i = messageOf st i.

#[export] Instance SameMessages_preorder : PreOrder SameMessages.
Proof. split; [by split|]. intros s1 s2 s3 [H1 H2] [H3 H4]. split; [congruence|]. intros i. by rewrite H4, H2. Qed.

Lemma SameMessages_alter (st : Store) (c : nat) f : (forall x, c_message (f x) = c_message x) -> SameMessages st (alter f c st).
Proof. intros H. split; [apply length_alter|]. intros i. by apply messageOf_alter. Qed.

Lemma link_spec st F p c : Linked st F -> (p < length st)%nat -> (c < length st)%nat -> exists st' F', link p c st = Some st' /\ Linked st' F' /\ SameMessages st st'.
Proof.
  intros HL Hp Hc. unfold link. destruct (Nat.eqb_spec p c) as [->|Hpc]; [by exists st, F|]. case_bool_decide as Hpar; [by exists st, F|].
  destruct (linked_split st F c HL Hc Hpar) as (ts & F0 & HF). pose proof (Forest_perm _ _ _ HF (linked_forest _ _ HL)) as HF0. destruct (Forest_head _ _ _ _ HF0) as (HR & Hts & HF00).
  pose proof (proj2 HF0) as HN. apply NoDup_head in HN as (Hcts & HcF & HNts & HNF & Hdisj).
  unfold isDescendant. rewrite (Rep_children _ _ _ HR). replace (rev (roots ts)) with (roots (rev ts)) by apply map_rev.
  assert (HPr : rev ts ≡ₚ ts) by (by rewrite <- Permutation_rev). rewrite reaches_spec; [|by eapply Forest_perm|pose proof (Forest_size _ _ Hts); rewrite (idsF_perm _ _ HPr); lia].
  cbn [mbind option_bind]. case_bool_decide as Hin; rewrite (idsF_perm _ _ HPr) in Hin; [by exists st, F|].
  pose proof (linked_in _ _ p HL Hp) as Hpin. rewrite (idsF_perm _ _ HF) in Hpin. cbn in Hpin. rewrite elem_of_cons, elem_of_app in Hpin. destruct Hpin as [?|[?|HpF]]; [done..|].
  apply elem_idsF in HpF as (u & Hu & Hpu). apply list_elem_of_split in Hu as (F1 & F2 & ->). rewrite idsF_app in HNF. cbn in HNF. apply NoDup_app in HNF as (HN1 & Hd1 & HN2). apply NoDup_app in HN2 as (HNu & Hd2 & HN2).
  destruct HF00 as [HF00 _]. rewrite Forall_app, Forall_cons in HF00. destruct HF00 as (HR1 & HRu & HR2).
  set (st' := alter (setParent (Some p)) c (pushChild p c st)).
  assert (Hne : forall i, i <> p -> c_children <$> st' !! i = c_children <$> st !! i).
  { intros i Hi. unfold st', pushChild. rewrite childrenOf_alter by done. by rewrite list_lookup_alter_ne. }
  assert (Heq : c_children <$> st' !! p = (fun l => l ++ [c]) <$> (c_children <$> st !! p)).
  { unfold st', pushChild. rewrite childrenOf_alter by done. rewrite list_lookup_alter, decide_True by done. by destruct (st !! p). }
  assert (HR' : Rep st' (N c ts)). { eapply Rep_frame; [done|]. intros i Hi. apply Hne. intros ->. cbn in Hi. by apply elem_of_cons in Hi as [?|?]. }
  destruct (graft_tree st st' p (N c ts) u Hpu HNu HRu HR' Hne Heq) as (u' & Hr & HPu & HRu').
  assert (HS : SameMessages st st') by (etrans; apply SameMessages_alter; done).
  assert (HPF : idsF (F1 ++ u' :: F2) ≡ₚ idsF F). { rewrite (idsF_perm _ _ HF), idsF_app. cbn. rewrite idsF_app. cbn. rewrite HPu. cbn. solve_Permutation. }
  exists st', (F1 ++ u' :: F2). split_and!; [done| |done]. constructor.
  - split; [|rewrite HPF; apply (linked_forest _ _ HL)]. rewrite Forall_app, Forall_cons. split_and!; [|done|].
    + eapply RepF_frame; [done|]. intros j Hj. apply Hne. intros ->. apply (Hd1 p Hj), elem_of_app. by left.
    + eapply RepF_frame; [done|]. intros j Hj. apply Hne. intros ->. by apply (Hd2 p).
  - rewrite HPF, (proj1 HS). apply HL.
  - intros i Hi. rewrite (proj1 HS) in Hi.
    assert (Hroots : roots (F1 ++ u' :: F2) = roots (F1 ++ u :: F2)) by (rewrite !fmap_app; cbn; by rewrite Hr). rewrite Hroots.
    destruct (decide (i = c)) as [->|Hic].
    + assert (Hpc' : parentOf st' c = Some p). { unfold parentOf, st'. rewrite list_lookup_alter, decide_True by done. unfold pushChild. rewrite list_lookup_alter_ne by done. destruct (lookup_lt_is_Some_2 st c Hc) as [x ->]. done. }
      rewrite Hpc'. split; [done|]. intros Hc'. destruct HcF. by apply roots_in_ids.
    + assert (Hpi : parentOf st' i = parentOf st i). { unfold parentOf, st'. rewrite list_lookup_alter_ne by done. unfold pushChild. destruct (decide (p = i)) as [->|]; [|by rewrite list_lookup_alter_ne]. rewrite list_lookup_alter, decide_True by done. by destruct (st !! i). }
      rewrite Hpi, (linked_roots _ _ HL i Hi), HF. cbn. rewrite elem_of_cons. naive_solver.
Qed.

(** ** Arrival *)

(** What has been threaded so far. *)
Record Arrived (t : Threader) (F : list Tree) (done_ : list ThreadInput) : Prop := {
  arrived_linked : Linked (t_store t) F;
  arrived_ids : forall k i, t_ids t !! k = Some i -> (i < length (t_store t))%nat;
  arrived_messages : omap c_message (t_store t) ≡ₚ done_
}.

Lemma omap_seq (st : Store) : omap (messageOf st) (seq 0 (length st)) = omap c_message st.
Proof.
  assert (H : forall pre, omap (messageOf (pre ++ st)) (seq (length pre) (length st)) = omap c_message st); [|exact (H [])].
  induction st as [|x st IH]; intros pre; [done|]. cbn [length seq omap list_omap]. specialize (IH (pre ++ [x])). rewrite length_app, Nat.add_1_r, <- app_assoc in IH. cbn in IH.
  rewrite IH. unfold messageOf at 1. rewrite list_lookup_middle by done. done.
Qed.

Lemma linked_messages st F : Linked st F -> messages st F ≡ₚ omap c_message st.
Proof. intros HL. unfold messages. rewrite (linked_all _ _ HL), omap_seq. done. Qed.

(** A container of its own. *)
Lemma Linked_new st F key m : Linked st F -> Linked (st ++ [mkContainer key m None []]) (F ++ [N (length st) []]).
Proof.
  intros [[HR HN] HP Hr]. set (x := mkContainer key m None []). constructor.
  - split.
    + apply Forall_app. split.
      * eapply RepF_frame; [done|]. intros i Hi. rewrite HP, elem_of_seq in Hi. by rewrite lookup_app_l by lia.
      * apply Forall_singleton. eapply (Rep_node _ _ _ x); [by apply list_lookup_middle|done|constructor].
    + rewrite idsF_app. cbn. apply NoDup_app. split_and!; [done| |apply NoDup_singleton]. intros i Hi. rewrite HP, elem_of_seq in Hi. intros ->%list_elem_of_singleton. lia.
  - rewrite idsF_app, length_app, Nat.add_1_r, seq_S. cbn. by rewrite HP.
  - intros i Hi. rewrite length_app, Nat.add_1_r in Hi. rewrite fmap_app. cbn. rewrite elem_of_app, list_elem_of_singleton. unfold parentOf. destruct (decide (i = length st)) as [->|Hne].
    + rewrite list_lookup_middle by done. cbn. tauto.
    + rewrite lookup_app_l by lia. specialize (Hr i ltac:(lia)). unfold parentOf in Hr. rewrite Hr. tauto.
Qed.

Lemma Linked_message st F i m : Linked st F -> Linked (alter (setMessage m) i st) F.
Proof.
  intros [[HR HN] HP Hr]. constructor.
  - split; [|done]. eapply RepF_frame; [done|]. intros j Hj. by apply childrenOf_alter.
  - by rewrite length_alter.
  - intros j Hj. rewrite length_alter in Hj. rewrite <- (Hr j Hj). unfold parentOf. destruct (decide (i = j)) as [->|]; [|by rewrite list_lookup_alter_ne]. rewrite list_lookup_alter, decide_True by done. by destruct (st !! j).
Qed.

Lemma omap_message (st : Store) i m : (i < length st)%nat -> messageOf st i = None -> omap c_message (alter (setMessage m) i st) ≡ₚ m :: omap c_message st.
Proof.
  revert i. induction st as [|x st IH]; intros [|i] Hi Hm; cbn in Hi; [lia|lia| |]; cbn.
  - unfold messageOf in Hm. cbn in Hm. by rewrite Hm.
  - assert (Hm' : messageOf st i = None) by done. destruct (c_message x); rewrite (IH i) by (lia || done); [constructor|done].
Qed.

(** One more message, or none. *)
Lemma addContainer_spec key m listed t F l : Arrived t F l ->
  let '(i, t') := addContainer key m listed t in (i < length (t_store t'))%nat /\ exists F', Arrived t' F' (l ++ option_list m).
Proof.
  intros [HL Hids Hm]. cbn. rewrite length_app. split; [cbn; lia|]. exists (F ++ [N (length (t_store t)) []]). constructor; cbn.
  - by apply Linked_new.
  - intros k i. rewrite length_app. cbn. destruct listed; [|intros Hk%Hids; lia]. destruct (decide (key = k)) as [->|]; [rewrite lookup_insert; case_decide; [|done]; intros [= <-]; lia|].
    rewrite lookup_insert_ne by done. intros Hk%Hids. lia.
  - rewrite omap_app, Hm. cbn. by destruct m.
Qed.

Lemma addDuplicate_spec msg t F l : Arrived t F l -> let '(i, t') := addDuplicate msg t in (i < length (t_store t'))%nat /\ exists F', Arrived t' F' (l ++ [msg]).
Proof.
  intros Ha. unfold addDuplicate, nextSynthetic. cbn [fst snd]. apply (addContainer_spec _ (Some msg) false (mkThreader (t_store t) (t_ids t) (S (t_synthetic t))) F l). by destruct Ha.
Qed.

Lemma placeholder_spec key t F l : Arrived t F l ->
  let '(i, t') := getOrCreatePlaceholder key t in (i < length (t_store t'))%nat /\ (length (t_store t) <= length (t_store t'))%nat /\ exists F', Arrived t' F' l.
Proof.
  intros Ha. unfold getOrCreatePlaceholder. destruct (t_ids t !! key) as [i|] eqn:E.
  - split; [by eapply arrived_ids|]. split; [done|]. by exists F.
  - pose proof (addContainer_spec key None true t F l Ha) as H. destruct (addContainer key None true t) as [i t'] eqn:Ea. rewrite app_nil_r in H. destruct H as [H1 H2]. split; [done|]. split; [|done].
    injection Ea as <- <-. cbn. rewrite length_app. lia.
Qed.

Section threading.
Context `{R : Runtime}.

Lemma containerFor_spec msg t F l : Arrived t F l -> let '(i, t') := containerFor msg t in (i < length (t_store t'))%nat /\ exists F', Arrived t' F' (l ++ [msg]).
Proof.
  intros Ha. unfold containerFor. cbv zeta. case_bool_decide; [by eapply addDuplicate_spec|]. destruct (t_ids t !! _) as [i|] eqn:E.
  - unfold isDummy. case_bool_decide as Hd; [|by eapply addDuplicate_spec]. pose proof (arrived_ids _ _ _ Ha _ _ E) as Hi. cbn. rewrite length_alter. split; [done|]. exists F. destruct Ha as [HL Hids Hm].
    constructor; cbn; [by apply Linked_message|intros k j Hk; rewrite length_alter; by eapply Hids|]. rewrite omap_message, Hm by done. apply Permutation_cons_append.
  - exact (addContainer_spec _ (Some msg) true t F l Ha).
Qed.

Lemma linkAfter_spec prev c t F l : Arrived t F l -> (c < length (t_store t))%nat -> (forall p, prev = Some p -> (p < length (t_store t))%nat) ->
  exists t' F', linkAfter prev c t = Some t' /\ Arrived t' F' l /\ length (t_store t') = length (t_store t).
Proof.
  intros [HL Hids Hm] Hc Hp. destruct prev as [p|]; [|by exists t, F]. cbn. destruct (link_spec _ F p c HL (Hp p eq_refl) Hc) as (st' & F' & -> & HL' & Hs & Hmsg). cbn. eexists _, F'. split; [done|]. split; [|done].
  constructor; cbn; [done|intros k i Hk; rewrite Hs; by eapply Hids|]. rewrite <- Hm, <- (linked_messages _ _ HL'), <- (linked_messages _ _ HL).
  unfold messages. rewrite (linked_all _ _ HL'), (linked_all _ _ HL), Hs. assert (E : omap (messageOf st') (seq 0 (length (t_store t))) = omap (messageOf (t_store t)) (seq 0 (length (t_store t)))); [|by rewrite E].
  induction (seq 0 (length (t_store t))) as [|i s IH]; [done|]. cbn. by rewrite Hmsg, IH.
Qed.

Lemma linkChain_spec chain prev t F l : Arrived t F l -> (forall p, prev = Some p -> (p < length (t_store t))%nat) ->
  exists prev' t' F', linkChain chain prev t = Some (prev', t') /\ Arrived t' F' l /\ (length (t_store t) <= length (t_store t'))%nat /\ (forall p, prev' = Some p -> (p < length (t_store t'))%nat).
Proof.
  revert prev t F. induction chain as [|key chain IH]; intros prev t F Ha Hp; [by exists prev, t, F|]. cbn [linkChain]. pose proof (placeholder_spec key t F l Ha) as H1.
  destruct (getOrCreatePlaceholder key t) as [c t1]. destruct H1 as (Hc & Hle & F1 & Ha1).
  destruct (linkAfter_spec prev c t1 F1 l Ha1 Hc) as (t2 & F2 & E2 & Ha2 & Hl2); [intros p Ep; specialize (Hp p Ep); lia|]. rewrite E2. cbn.
  destruct (IH (Some c) t2 F2 Ha2) as (prev' & t3 & F3 & E3 & Ha3 & Hl3 & Hp3); [intros p [= <-]; lia|]. exists prev', t3, F3. split_and!; [done|done|lia|done].
Qed.

Lemma threadOne_spec msg t F l : Arrived t F l -> exists t' F', threadOne msg t = Some t' /\ Arrived t' F' (l ++ [msg]).
Proof.
  intros Ha. unfold threadOne. pose proof (containerFor_spec msg t F l Ha) as H1. destruct (containerFor msg t) as [c t1]. destruct H1 as (Hc & F1 & Ha1).
  destruct (linkChain_spec (refChain msg) None t1 F1 _ Ha1) as (prev & t2 & F2 & E2 & Ha2 & Hl2 & Hp2); [done|]. rewrite E2. cbn.
  destruct (linkAfter_spec prev c t2 F2 _ Ha2) as (t3 & F3 & E3 & Ha3 & _); [lia|done|]. by exists t3, F3.
Qed.

Lemma threadAll_spec msgs t F l : Arrived t F l -> exists t' F', threadAll msgs t = Some t' /\ Arrived t' F' (l ++ msgs).
Proof.
  revert t F l. induction msgs as [|msg msgs IH]; intros t F l Ha; [exists t, F; by rewrite app_nil_r|]. cbn [threadAll]. destruct (threadOne_spec msg t F l Ha) as (t1 & F1 & -> & Ha1). cbn.
  destruct (IH t1 F1 _ Ha1) as (t2 & F2 & E & Ha2). exists t2, F2. by rewrite <- app_assoc in Ha2.
Qed.

Lemma Arrived_new : Arrived (mkThreader [] ∅ 0) [] [].
Proof.
  constructor; [|by intros k i Hk|done]. constructor; [by split; [|constructor]|done|]. intros i Hi. cbn in Hi. lia.
Qed.

(** The roots are those of the forest, in the order of their numbers. *)
Lemma rootsOf_forest st F : Linked st F -> exists G, F ≡ₚ G /\ roots G = rootsOf st.
Proof.
  intros HL. apply roots_order. apply NoDup_Permutation.
  - apply NoDup_roots, HL.
  - apply NoDup_filter, NoDup_seq.
  - intros i. unfold rootsOf. rewrite list_elem_of_filter, elem_of_seq. split.
    + intros Hi. pose proof (roots_in_ids _ _ Hi) as Hin. rewrite (linked_all _ _ HL), elem_of_seq in Hin. split; [|lia]. by apply (linked_roots _ _ HL); [lia|].
    + intros [Hp Hi]. apply (linked_roots _ _ HL); [lia|done].
Qed.

(** ** Pruning *)

(** A container without a message holds together two others at least. *)
Inductive Full (st : Store) : Tree -> Prop :=
  | Full_node i ts : (messageOf st i = None -> (2 <= length ts)%nat) -> Forall (Full st) ts -> Full st (N i ts).

Lemma Full_ext st st' t : (forall i, messageOf st' i = messageOf st i) -> Full st t -> Full st' t.
Proof.
  intros H. induction t as [i ts IH] using Tree_ind'. inversion 1 as [? ? Hm Hts]; subst. constructor; [by rewrite H|]. rewrite Forall_forall in *. auto.
Qed.

(** Nothing outside a set of containers has other children. *)
Definition Outside (P : list nat) (st st' : Store) : Prop := forall i, i ∉ P -> c_children <$> st' !! i = c_children <$> st !! i.

Lemma childrenOf_set (st : Store) c l i : c <> i -> c_children <$> alter (setChildren l) c st !! i = c_children <$> st !! i.
Proof. intros H. by rewrite list_lookup_alter_ne. Qed.

(** A tree next to what the rest of the forest has become. *)
Lemma Forest_cons st t F : Rep st t -> NoDup (ids t) -> Forest st F -> (forall i, i ∈ ids t -> i ∉ idsF F) -> Forest st (t :: F).
Proof. intros HR HN [HF HNF] Hd. split; [by constructor|]. cbn. by apply NoDup_app. Qed.

Definition Pruned (st : Store) (F : list Tree) (st' : Store) (F' : list Tree) : Prop :=
  Forest st' F' /\ (forall i, i ∈ idsF F' -> i ∈ idsF F) /\ messages st' F' = messages st F /\ Forall (Full st') F' /\ SameMessages st st' /\ Outside (idsF F) st st'.

Lemma Pruned_nil st : Pruned st [] st [].
Proof. split_and!; [split; constructor|done|done|constructor|done|done]. Qed.

(** The rest is pruned after the tree [t], which stays, has got its new parent. *)
Lemma prune_rest st F st' F' k par t : Rep st t -> Full st t -> NoDup (ids t) -> (forall i, i ∈ ids t -> i ∉ idsF F) ->
  Pruned (alter (setParent par) k st) F st' F' -> Forest st' (t :: F') /\ messages st' (t :: F') = messages st [t] ++ messages st F /\ Forall (Full st') (t :: F') /\ SameMessages st st' /\ Outside (idsF F) st st'.
Proof.
  intros HR HFull HN Hd (HF' & Hsub & Hm & Hfull & Hs & Ho). set (st3 := alter (setParent par) k st) in *.
  assert (Hs3 : SameMessages st st3) by (by apply SameMessages_alter). assert (Hs4 : SameMessages st st') by (by etrans). split_and!.
  - apply Forest_cons; [|done|done|intros i Hi Hi'; by apply (Hd i Hi), Hsub]. eapply Rep_frame; [done|]. intros i Hi. rewrite Ho by auto. by apply childrenOf_alter.
  - destruct t as [i ts]. rewrite !messages_cons, Hm. rewrite (messages_ext st3 st' ts), (messages_ext st st3 ts), (messages_ext st st3 F) by (apply Hs || apply Hs3). rewrite (proj2 Hs4). unfold messages at 5. cbn. by rewrite app_nil_r, app_assoc.
  - constructor; [|done]. eapply Full_ext; [apply Hs4|done].
  - done.
  - intros i Hi. rewrite Ho by done. by apply childrenOf_alter.
Qed.

Lemma pruneForest_spec fuel st F par : Forest st F -> (length (idsF F) < fuel)%nat ->
  exists st' F', pruneForest fuel st (roots F) par = Some (st', roots F') /\ Pruned st F st' F'.
Proof.
  revert st F par. induction fuel as [|fuel IH]; intros st F par HF Hf; [lia|]. destruct F as [|[c ts] F]; [exists st, []; split; [done|apply Pruned_nil]|]. cbn [pruneForest fmap list_fmap root].
  destruct (Forest_head _ _ _ _ HF) as (HR & Hts & HF'). destruct (NoDup_head _ _ _ (proj2 HF)) as (Hcts & HcF & _ & _ & Hdisj). cbn in Hf. rewrite length_app in Hf. rewrite (Rep_children _ _ _ HR).
  destruct (IH st ts (Some c) Hts ltac:(lia)) as (st1 & ts' & E1 & Hts' & Hsub1 & Hm1 & Hfull1 & Hs1 & Ho1). rewrite E1. cbn [mbind option_bind].
  set (st2 := alter (setChildren (roots ts')) c st1). assert (Hs12 : SameMessages st1 st2) by (by apply SameMessages_alter). assert (Hs2 : SameMessages st st2) by (by etrans).
  assert (Hcts' : c ∉ idsF ts') by (intros ?%Hsub1; done).
  assert (Hts2 : Forall (Rep st2) ts'). { eapply RepF_frame; [apply Hts'|]. intros i Hi. apply childrenOf_set. by intros ->. }
  assert (HR2 : Rep st2 (N c ts')).
  { destruct (lookup_lt_is_Some_2 st1 c) as [x Hx]; [rewrite (proj1 Hs1); eapply Rep_lt; [done|left]|].
    eapply (Rep_node _ _ _ (setChildren (roots ts') x)); [unfold st2; by rewrite list_lookup_alter, decide_True, Hx by done|done|done]. }
  assert (Ho2 : Outside (c :: idsF ts) st st2). { intros i Hi. apply not_elem_of_cons in Hi as [Hic Hi]. unfold st2. rewrite childrenOf_set by (by intros ->). by apply Ho1. }
  assert (HF2 : Forest st2 F). { split; [|apply HF']. eapply RepF_frame; [apply HF'|]. intros i Hi. apply Ho2. rewrite not_elem_of_cons. split; [by intros ->|]. intros Hi'. by apply (Hdisj i). }
  assert (Hfull2 : Forall (Full st2) ts'). { eapply Forall_impl; [exact Hfull1|]. intros t. apply Full_ext, Hs12. }
  assert (Hmts : messages st2 ts' = messages st ts) by (rewrite <- Hm1; apply messages_ext, Hs12).
  assert (HmF : messages st2 F = messages st F) by apply messages_ext, Hs2.
  assert (Hd2 : forall i, i ∈ idsF ts' -> i ∉ idsF F) by auto.
  assert (Hsubs : forall F', (forall i, i ∈ idsF F' -> i ∈ idsF F) -> forall i, i ∈ (c :: idsF ts') ++ idsF F' -> i ∈ idsF (N c ts :: F)).
  { intros F'' Hs i. cbn. rewrite !elem_of_cons, !elem_of_app. intros [->|[Hi|Hi]]; auto. }
  assert (Hout : forall st' : Store, Outside (idsF F) st2 st' -> Outside (idsF (N c ts :: F)) st st').
  { intros st' Ho i Hi. cbn in Hi. rewrite not_elem_of_cons, not_elem_of_app in Hi. rewrite Ho by tauto. apply Ho2. rewrite not_elem_of_cons. tauto. }
  (* The container stays. *)
  assert (Hstay : (messageOf st2 c = None -> (2 <= length ts')%nat) ->
    exists st' F', ('(st3, result) ← pruneForest fuel (alter (setParent par) c st2) (roots F) par; Some (st3, c :: result)) = Some (st', roots F') /\ Pruned st (N c ts :: F) st' F').
  { intros H2. assert (HF3 : Forest (alter (setParent par) c st2) F). { split; [|apply HF']. eapply RepF_frame; [apply HF2|]. intros i _. by apply childrenOf_alter. }
    destruct (IH _ F par HF3 ltac:(lia)) as (st4 & F4 & E4 & HP4). rewrite E4. cbn. exists st4, (N c ts' :: F4). split; [done|].
    destruct (prune_rest st2 F st4 F4 c par (N c ts')) as (H3 & H4 & H5 & H6 & H7); [done|by constructor|cbn; apply NoDup_cons; split; [done|apply Hts']| |done|].
    { intros i [->|Hi]%elem_of_cons; auto. }
    split_and!; [done|apply Hsubs, HP4| |done|by etrans|by apply Hout]. rewrite H4, !messages_cons, HmF, Hmts, (proj2 Hs2). by rewrite <- app_assoc, app_nil_r. }
  destruct (messageOf st2 c) as [m|] eqn:Hmc; [by destruct ts' as [|[] [|[]]]; apply Hstay|]. assert (Hmc0 : messageOf st c = None) by (by rewrite <- (proj2 Hs2)).
  destruct ts' as [|t' [|t'' ts'']]; cbn [fmap list_fmap].
  - destruct (IH st2 F par HF2 ltac:(lia)) as (st4 & F4 & E4 & H1 & H2 & H3 & H4 & H5 & H6). exists st4, F4. split; [done|]. split_and!; [done| | |done|by etrans|by apply Hout].
    + intros i Hi. cbn. rewrite elem_of_cons, elem_of_app. auto.
    + rewrite H3, messages_cons, Hmc0, HmF, <- Hmts. done.
  - assert (HF3 : Forest (alter (setParent par) (root t') st2) F). { split; [|apply HF']. eapply RepF_frame; [apply HF2|]. intros i _. by apply childrenOf_alter. }
    destruct (IH _ F par HF3 ltac:(lia)) as (st4 & F4 & E4 & HP4). rewrite E4. cbn. exists st4, (t' :: F4). split; [done|]. rewrite Forall_singleton in Hts2, Hfull2.
    destruct Hts' as [_ HNts']. cbn in HNts', Hd2, Hsub1. rewrite app_nil_r in HNts', Hd2, Hsub1.
    destruct (prune_rest st2 F st4 F4 (root t') par t') as (H3 & H4 & H5 & H6 & H7); [done..|].
    split_and!; [done| | |done|by etrans|by apply Hout].
    + intros i Hi. apply (Hsubs F4); [apply HP4|]. cbn in Hi. rewrite elem_of_app in Hi. cbn. rewrite app_nil_r, elem_of_cons, elem_of_app. tauto.
    + rewrite H4, messages_cons, Hmc0, HmF, Hmts. done.
  - apply Hstay. intros _. cbn. lia.
Qed.

(** ** Grouping by subject *)

Lemma firstSubject_total fuel st F : Forest st F -> (length (idsF F) < fuel)%nat -> exists s, firstSubject fuel st (roots F) = Some s.
Proof.
  revert F. induction fuel as [|fuel IH]; intros F HF Hf; [lia|]. destruct F as [|[c ts] F]; [by eexists|]. cbn [firstSubject fmap list_fmap root].
  destruct (Forest_head _ _ _ _ HF) as (HR & Hts & HF'). cbn in Hf. rewrite length_app in Hf. destruct (messageOf st c); [by eexists|]. rewrite (Rep_children _ _ _ HR).
  destruct (IH ts Hts ltac:(lia)) as [[s|] ->]; [by eexists|]. cbn. apply IH; [done|lia].
Qed.

Lemma subjectInfo_spec st F info : Forest st F ->
  exists info', subjectInfo (walkFuel st) st (roots F) info = Some info' /\ forall i a, info' !! i = Some a -> info !! i = Some a \/ i ∈ roots F.
Proof.
  revert info. induction F as [|t F IH]; intros info HF; [exists info; split; [done|by left]|]. cbn [subjectInfo fmap list_fmap].
  assert (Ht : Forest st [t]) by by eapply Forest_one.
  assert (HF' : Forest st F) by (by destruct t; apply Forest_head in HF as (_ & _ & ?)).
  pose proof (Forest_size _ _ Ht). destruct (firstSubject_total (walkFuel st) st [t] Ht) as [s Es]; [unfold walkFuel; lia|]. change (roots [t]) with [root t] in Es. rewrite Es. cbn [mbind option_bind].
  assert (Hone : forall info1, (forall i a, info1 !! i = Some a -> info !! i = Some a \/ i = root t) ->
    exists info', subjectInfo (walkFuel st) st (roots F) info1 = Some info' /\ forall i a, info' !! i = Some a -> info !! i = Some a \/ i ∈ root t :: roots F).
  { intros info1 H1. destruct (IH info1 HF') as (info' & -> & H2). exists info'. split; [done|]. intros i a Hi. rewrite elem_of_cons. destruct (H2 i a Hi) as [Hi'|]; [|tauto]. destruct (H1 i a Hi'); tauto. }
  destruct s as [s|]; apply Hone; [|by left]. intros i a. case_bool_decide; [by left|]. destruct (decide (root t = i)) as [<-|]; [by right|]. rewrite lookup_insert_ne by done. by left.
Qed.

(** A tree of a forest goes under another. *)
Lemma move_one st p ts u F : Forest st (N p ts :: u :: F) ->
  Forest (moveUnder p (root u) st) (N p (ts ++ [u]) :: F) /\ messages (moveUnder p (root u) st) (N p (ts ++ [u]) :: F) ≡ₚ messages st (N p ts :: u :: F) /\ SameMessages st (moveUnder p (root u) st).
Proof.
  intros HF. set (st' := moveUnder p (root u) st). assert (HS : SameMessages st st') by (etrans; apply SameMessages_alter; done).
  assert (Hids : idsF (N p (ts ++ [u]) :: F) ≡ₚ idsF (N p ts :: u :: F)). { cbn. rewrite fmap_app, concat_app. cbn. rewrite app_nil_r. solve_Permutation. }
  destruct HF as [HR HN]. pose proof HN as HN'. apply NoDup_head in HN as (Hp1 & Hp2 & _). rewrite !Forall_cons in HR. destruct HR as (HRp & HRu & HRF).
  assert (Hf : forall i, i <> p -> c_children <$> st' !! i = c_children <$> st !! i).
  { intros i Hi. unfold st', moveUnder, pushChild. rewrite list_lookup_alter_ne by done. by apply childrenOf_alter. }
  cbn in Hp2. rewrite not_elem_of_app in Hp2. destruct Hp2 as [Hpu HpF]. inversion HRp as [? ? x Hx Hc Hts]; subst. split_and!; [|rewrite (messages_ids _ _ _ Hids), (messages_ext st st') by apply HS; done|done].
  split; [|by rewrite Hids]. constructor; [|eapply RepF_frame; [done|intros i Hi; apply Hf; by intros ->]].
  destruct (alter (setParent (Some p)) (root u) st !! p) as [y|] eqn:Hy.
  2:{ apply lookup_lt_Some in Hx. apply lookup_ge_None in Hy. rewrite length_alter in Hy. lia. }
  assert (Hcy : c_children y = roots ts). { pose proof (childrenOf_alter st (root u) (setParent (Some p)) p ltac:(done)) as H. rewrite Hy, Hx in H. cbn in H. congruence. }
  apply (Rep_node _ _ _ (setChildren (c_children y ++ [root u]) y)).
  - unfold st', moveUnder, pushChild. by rewrite list_lookup_alter, decide_True, Hy by done.
  - cbn. by rewrite Hcy, fmap_app.
  - apply Forall_app. split; [eapply RepF_frame; [done|intros i Hi; apply Hf; by intros ->]|]. constructor; [|constructor]. eapply Rep_frame; [done|]. intros i Hi. apply Hf. by intros ->.
Qed.

(** The forests a step may lead to: well formed, with these messages, and with no empty containers. *)
Definition Holds (l : list ThreadInput) (st : Store) (F : list Tree) : Prop := Forest st F /\ messages st F ≡ₚ l /\ Forall (Full st) F.

Lemma Holds_perm l st F G : F ≡ₚ G -> Holds l st F -> Holds l st G.
Proof. intros HP (H1 & H2 & H3). split_and!; [by eapply Forest_perm|by rewrite <- (messages_perm _ _ _ HP)|by rewrite <- HP]. Qed.

Lemma move_all st p ts us F : Forest st (N p ts :: us ++ F) ->
  let st' := fold_left (fun st ch => moveUnder p ch st) (roots us) st in
  Forest st' (N p (ts ++ us) :: F) /\ messages st' (N p (ts ++ us) :: F) ≡ₚ messages st (N p ts :: us ++ F) /\ SameMessages st st'.
Proof.
  revert st ts. induction us as [|u us IH]; intros st ts HF; cbn [fmap list_fmap fold_left app] in *; [by rewrite app_nil_r|].
  destruct (move_one _ _ _ _ _ HF) as (H1 & H2 & H3). destruct (IH _ _ H1) as (H4 & H5 & H6). rewrite <- app_assoc in H4, H5. cbv zeta. split_and!; [done|by rewrite H5|by etrans].
Qed.

Lemma Full_more st p ts us : Full st (N p ts) -> Forall (Full st) us -> Full st (N p (ts ++ us)).
Proof. inversion 1 as [? ? Hm Hts]; subst. intros Hus. constructor; [intros Hp; rewrite length_app; specialize (Hm Hp); lia|]. by apply Forall_app. Qed.

Lemma FullF_ext st st' F : SameMessages st st' -> Forall (Full st) F -> Forall (Full st') F.
Proof. intros [_ H] HF. eapply Forall_impl; [exact HF|]. intros t. by apply Full_ext. Qed.

(** One tree under another. *)
Lemma Holds_move l st p ts u F : Holds l st (N p ts :: u :: F) -> exists F', Holds l (moveUnder p (root u) st) F' /\ roots F' = p :: roots F.
Proof.
  intros (H1 & H2 & H3). destruct (move_one _ _ _ _ _ H1) as (H4 & H5 & H6). exists (N p (ts ++ [u]) :: F). split; [|done]. split_and!; [done|by rewrite H5|].
  apply (FullF_ext _ _ _ H6) in H3. rewrite !Forall_cons in H3. constructor; [|apply H3]. apply Full_more; [apply H3|]. apply Forall_singleton, H3.
Qed.

(** The children of a container without a message under another. *)
Lemma Holds_adopt l st p ts c us F : messageOf st c = None -> Holds l st (N p ts :: N c us :: F) ->
  exists F', Holds l (fold_left (fun st ch => moveUnder p ch st) (childrenOf st c) st) F' /\ roots F' = p :: roots F.
Proof.
  intros Hc (H1 & H2 & H3). assert (HR : Rep st (N c us)) by (destruct H1 as [HR _]; rewrite !Forall_cons in HR; apply HR). rewrite (Rep_children _ _ _ HR).
  assert (HF : Forest st (N p ts :: us ++ F)).
  { destruct H1 as [HRs HN]. rewrite !Forall_cons in HRs. split; [constructor; [apply HRs|apply Forall_app; split; [by eapply Rep_subtrees|apply HRs]]|].
    eapply (sublist_NoDup _ (idsF (N p ts :: N c us :: F))); [done|]. cbn. rewrite fmap_app, concat_app. apply sublist_skip, sublist_app; [done|]. by apply sublist_cons. }
  destruct (move_all _ _ _ _ _ HF) as (H4 & H5 & H6). cbv zeta in *. eexists (N p (ts ++ us) :: F). split; [|done]. split_and!; [done| |].
  - by rewrite H5, <- H2, !messages_cons, Hc, messages_app.
  - apply (FullF_ext _ _ _ H6) in H3. rewrite !Forall_cons in H3. constructor; [|apply H3]. apply Full_more; [apply H3|]. destruct H3 as (_ & H3 & _). by inversion H3.
Qed.

(** A new container over two trees. *)
Lemma Holds_over l st t u F key : Holds l st (t :: u :: F) ->
  exists F', Holds l (alter (setParent (Some (length st))) (root u) (alter (setParent (Some (length st))) (root t) (st ++ [mkContainer key None None [root t; root u]]))) F' /\ roots F' = length st :: roots F.
Proof.
  intros (H1 & H2 & H3). set (st1 := st ++ _). set (st' := alter _ _ _). exists (N (length st) [t; u] :: F). split; [|done].
  assert (HS : SameMessages st1 st') by (etrans; apply SameMessages_alter; done).
  assert (Hlt : forall i, i ∈ idsF (t :: u :: F) -> (i < length st)%nat). { intros i (v & Hv & Hi)%elem_idsF. destruct H1 as [H1 _]. rewrite Forall_forall in H1. by eapply Rep_lt; [apply H1|]. }
  assert (Hm : forall i, messageOf st' i = messageOf st i).
  { intros i. rewrite (proj2 HS). unfold messageOf, st1. destruct (decide (i < length st)%nat); [by rewrite lookup_app_l|]. rewrite lookup_app_r by lia. rewrite (proj2 (lookup_ge_None st i)) by lia. by destruct (i - length st)%nat as [|[]]. }
  assert (Hch : forall i, c_children <$> st' !! i = c_children <$> st1 !! i). { intros i. unfold st'. rewrite !childrenOf_alter; done. }
  assert (HR : Forall (Rep st') (t :: u :: F)). { eapply RepF_frame; [apply H1|]. intros i Hi. rewrite Hch. unfold st1. by rewrite lookup_app_l by auto. }
  assert (Hids : idsF (N (length st) [t; u] :: F) = length st :: idsF (t :: u :: F)). { cbn. by rewrite app_nil_r, <- app_assoc. }
  rewrite !Forall_cons in HR. split_and!.
  - split; [|rewrite Hids; constructor; [intros Hi%Hlt; lia|apply H1]]. constructor; [|apply HR]. specialize (Hch (length st)). unfold st1 in Hch. rewrite list_lookup_middle in Hch by done. cbn in Hch.
    destruct (st' !! length st) as [x|] eqn:Hx; [|done]. injection Hch as Hch. econstructor; [done|done|]. constructor; [apply HR|constructor; [apply HR|constructor]].
  - rewrite messages_cons, Hm, <- messages_app, (messages_ext st st') by done. unfold messageOf. by rewrite (proj2 (lookup_ge_None st (length st))) by lia.
  - assert (H3' : Forall (Full st') (t :: u :: F)) by (eapply Forall_impl; [exact H3|]; intros v; by apply Full_ext). rewrite !Forall_cons in H3'. constructor; [|apply H3'].
    constructor; [cbn; lia|]. constructor; [apply H3'|constructor; [apply H3'|constructor]].
Qed.

(** The containers at the top that are still there: those put in the result, and those to come that are not merged. *)
Definition alive (g : Grouping) (rest : list nat) : list nat := g_result g ++ filter (.∉ g_removed g) rest.

Lemma spliceOut_perm x l : x ∈ l -> x :: spliceOut x l ≡ₚ l.
Proof.
  induction l as [|y l IH]; [by intros ?%elem_of_nil|]. intros [->|Hx]%elem_of_cons; cbn; [by rewrite Nat.eqb_refl|]. destruct (Nat.eqb_spec y x) as [->|]; [done|]. rewrite perm_swap. by constructor; apply IH.
Qed.

Lemma spliceOut_id x l : x ∉ l -> spliceOut x l = l.
Proof. induction l as [|y l IH]; [done|]. intros [Hy Hl]%not_elem_of_cons. cbn. destruct (Nat.eqb_spec y x); [by subst|]. by rewrite IH. Qed.

Lemma filter_nothing (rest : list nat) : filter (.∉ @nil nat) rest = rest.
Proof. induction rest as [|x rest IH]; [done|]. rewrite filter_cons_True by apply not_elem_of_nil. by rewrite IH. Qed.

Lemma filter_removed (x : nat) (removed rest : list nat) : filter (.∉ x :: removed) rest = filter (.≠ x) (filter (.∉ removed) rest).
Proof. rewrite list_filter_filter. apply list_filter_iff. intros y. by rewrite not_elem_of_cons. Qed.

Lemma filter_ne_id (x : nat) (l : list nat) : x ∉ l -> filter (.≠ x) l = l.
Proof.
  induction l as [|y l IH]; [done|]. intros [Hy Hx]%not_elem_of_cons. rewrite filter_cons_True by (by intros ->). by rewrite IH.
Qed.

Lemma filter_ne_perm (x : nat) (l : list nat) : NoDup l -> x ∈ l -> x :: filter (.≠ x) l ≡ₚ l.
Proof.
  induction l as [|y l IH]; [by intros _ ?%elem_of_nil|]. intros [Hy HN]%NoDup_cons [->|Hx]%elem_of_cons.
  - rewrite filter_cons_False by (intros H; by apply H). by rewrite filter_ne_id.
  - rewrite filter_cons_True by (by intros ->). rewrite perm_swap. constructor. by apply IH.
Qed.

(** A root that is merged is gone from the result or from what is to come. *)
Lemma merge_root (x : nat) (res rest : list nat) : NoDup (res ++ rest) -> x ∈ res ++ rest -> x :: spliceOut x res ++ filter (.≠ x) rest ≡ₚ res ++ rest.
Proof.
  intros (HN1 & Hd & HN2)%NoDup_app [Hx|Hx]%elem_of_app.
  - rewrite app_comm_cons, spliceOut_perm by done. by rewrite filter_ne_id by auto.
  - assert (x ∉ res) by (intros ?; by apply (Hd x)). rewrite spliceOut_id by done. rewrite Permutation_middle. by rewrite filter_ne_perm.
Qed.

Section group.
Context (l : list ThreadInput) (n : nat) (info : gmap nat SubjectAnalysis) (Hinfo : forall i a, info !! i = Some a -> (i < n)%nat).

(** The entries of the table are containers at the top, each under one subject, its own. *)
Record GoodTable (top : list nat) (table : gmap jsstr nat) : Prop := {
  table_top : forall b r, table !! b = Some r -> r ∈ top;
  table_one : forall b b' r, table !! b = Some r -> table !! b' = Some r -> b = b';
  table_own : forall b r a, table !! b = Some r -> info !! r = Some a -> sa_base a = b
}.

Record Grouped (g : Grouping) (rest : list nat) : Prop := {
  grouped_holds : exists F, Holds l (g_store g) F /\ roots F ≡ₚ alive g rest;
  grouped_table : GoodTable (alive g rest) (g_table g);
  grouped_size : (n <= length (g_store g))%nat
}.

Lemma GoodTable_perm top top' table : top ≡ₚ top' -> GoodTable top table -> GoodTable top' table.
Proof. intros HP [H1 H2 H3]. split; [|done..]. intros b r Hr. rewrite <- HP. by eapply H1. Qed.

Lemma Grouped_perm g g' rest rest' : g_store g = g_store g' -> g_table g = g_table g' -> alive g rest ≡ₚ alive g' rest' -> Grouped g rest -> Grouped g' rest'.
Proof. intros E1 E2 HP [(F & H1 & H2) H3 H4]. rewrite E1, E2 in *. split; [exists F; split; [done|by rewrite H2]|by eapply GoodTable_perm|done]. Qed.

Lemma alive_NoDup g rest : Grouped g rest -> NoDup (alive g rest).
Proof. intros [(F & (H1 & _) & H2) _ _]. rewrite <- H2. apply NoDup_roots, H1. Qed.

(** An entry of the table with another subject's container is not that container. *)
Lemma table_insert top top' table b c : GoodTable top table -> (forall a, info !! c = Some a -> sa_base a = b) -> (forall b', b' <> b -> table !! b' <> Some c) -> c ∈ top' ->
  (forall b' r, b' <> b -> table !! b' = Some r -> r ∈ top') -> GoodTable top' (<[b := c]> table).
Proof.
  intros [H1 H2 H3] Ha Hc Hin Hrest. split.
  - intros b' r. destruct (decide (b = b')) as [<-|Hb]; [rewrite lookup_insert_eq; by intros [= <-]|]. rewrite lookup_insert_ne by done. by apply Hrest.
  - intros b1 b2 r. destruct (decide (b = b1)) as [<-|Hb1], (decide (b = b2)) as [<-|Hb2]; rewrite ?lookup_insert_eq, ?lookup_insert_ne by done; [done| | |by apply H2]; intros E1 E2; exfalso.
    + injection E1 as <-. by apply (Hc b2).
    + injection E2 as <-. by apply (Hc b1).
  - intros b' r a. destruct (decide (b = b')) as [<-|Hb]; [rewrite lookup_insert_eq; intros [= <-]; by apply Ha|]. rewrite lookup_insert_ne by done. by apply H3.
Qed.

Lemma two_roots F r c : r ∈ roots F -> c ∈ roots F -> r <> c -> exists ts us F0, F ≡ₚ N r ts :: N c us :: F0.
Proof.
  intros ([i ts] & -> & Hr)%list_elem_of_fmap Hc Hne. apply list_elem_of_split in Hr as (F1 & F2 & ->). assert (HP : F1 ++ N i ts :: F2 ≡ₚ N i ts :: F1 ++ F2) by (by rewrite Permutation_middle).
  rewrite HP in Hc. apply elem_of_cons in Hc as [->|([j us] & -> & Hc)%list_elem_of_fmap]; [done|]. apply list_elem_of_split in Hc as (F3 & F4 & E). exists ts, us, (F3 ++ F4). by rewrite HP, E, <- Permutation_middle.
Qed.

Section step.
Context (g : Grouping) (c : nat) (rest : list nat) (a : SubjectAnalysis) (rep : nat).
Context (Hg : Grouped g (c :: rest)) (Hc : c ∉ g_removed g) (Ha : info !! c = Some a) (Hrep : g_table g !! sa_base a = Some rep) (Hne : rep <> c).

Let coming := filter (.∉ g_removed g) rest.

Lemma alive_next : alive g (c :: rest) = g_result g ++ c :: coming.
Proof. unfold alive. by rewrite filter_cons_True. Qed.

Lemma next_once : c ∉ coming.
Proof. pose proof (alive_NoDup _ _ Hg) as HN. rewrite alive_next in HN. apply NoDup_app in HN as (_ & _ & HN). by apply NoDup_cons in HN as [? _]. Qed.

Lemma step_trees : exists ts us F0, Holds l (g_store g) (N rep ts :: N c us :: F0) /\ rep :: c :: roots F0 ≡ₚ alive g (c :: rest).
Proof.
  destruct Hg as [(F & H1 & H2) [H3 _ _] _]. destruct (two_roots F rep c) as (ts & us & F0 & HP); [rewrite H2; by eapply H3|rewrite H2, alive_next, elem_of_app, elem_of_cons; tauto|done|].
  exists ts, us, F0. split; [by eapply Holds_perm|]. by rewrite <- H2, HP.
Qed.

(** The entries under other subjects are not the two. *)
Lemma others b r F0 : rep :: c :: roots F0 ≡ₚ alive g (c :: rest) -> b <> sa_base a -> g_table g !! b = Some r -> r ∈ roots F0.
Proof.
  intros HP Hb Hr. destruct Hg as [_ [H1 H2 H3] _]. pose proof (H1 _ _ Hr) as Hin. rewrite <- HP, !elem_of_cons in Hin. destruct Hin as [->|[->|]]; [by rewrite (H2 _ _ _ Hr Hrep) in Hb|by rewrite (H3 _ _ _ Hr Ha) in Hb|done].
Qed.

Lemma own_entry b' : b' <> sa_base a -> g_table g !! b' <> Some c.
Proof. intros Hb Hr. destruct Hg as [_ [_ _ H3] _]. apply Hb. symmetry. by eapply H3. Qed.

Lemma step_merged st' F' F0 : Holds l st' F' -> roots F' = rep :: roots F0 -> rep :: c :: roots F0 ≡ₚ alive g (c :: rest) -> (n <= length st')%nat -> Grouped (mergeInto st' c g) rest.
Proof.
  intros H1 H2 H3 H4. assert (HP : rep :: roots F0 ≡ₚ alive (mergeInto st' c g) rest).
  { unfold alive. cbn [mergeInto g_result g_removed]. rewrite filter_removed, filter_ne_id by apply next_once. rewrite perm_swap, alive_next, <- Permutation_middle in H3. by apply Permutation_cons_inv in H3. }
  split; [exists F'; split; [done|by rewrite H2]| |done]. eapply GoodTable_perm; [exact HP|]. destruct (grouped_table _ _ Hg) as [T1 T2 T3]. split; [|done..].
  intros b r Hr. rewrite elem_of_cons. destruct (decide (b = sa_base a)) as [->|Hb]; [left; cbn in Hr; congruence|right; by eapply others].
Qed.

(** What is left of the result and of what is to come without the two, and a new root. *)
Lemma left_over F0 x (removed : list nat) : rep :: c :: roots F0 ≡ₚ alive g (c :: rest) -> filter (.∉ removed) rest = filter (.≠ rep) coming ->
  x :: roots F0 ≡ₚ (spliceOut rep (g_result g) ++ [x]) ++ filter (.∉ removed) rest.
Proof.
  intros HP ->. pose proof (alive_NoDup _ _ Hg) as HN. assert (Hin : rep ∈ alive g (c :: rest)) by (rewrite <- HP; left). rewrite alive_next in *.
  pose proof (merge_root rep _ _ HN Hin) as Hm. rewrite <- HP, filter_cons_True in Hm by (by intros ->). apply Permutation_cons_inv in Hm. rewrite <- Permutation_middle in Hm. apply Permutation_cons_inv in Hm.
  rewrite <- app_assoc. cbn. by rewrite <- Permutation_middle, Hm.
Qed.

Lemma step_swapped st' F' F0 k : Holds l st' F' -> roots F' = c :: roots F0 -> rep :: c :: roots F0 ≡ₚ alive g (c :: rest) -> (n <= length st')%nat ->
  Grouped (mkGrouping st' (spliceOut rep (g_result g) ++ [c]) (rep :: g_removed g) (<[sa_base a := c]> (g_table g)) k) rest.
Proof.
  intros H1 H2 H3 H4. pose proof (left_over F0 c (rep :: g_removed g) H3 (filter_removed _ _ _)) as HP. split; [exists F'; split; [done|by rewrite H2]| |done].
  eapply GoodTable_perm; [exact HP|]. eapply table_insert; [apply Hg|by intros ? [= <-]%(eq_trans (eq_sym Ha))|apply own_entry|left|]. intros b r Hb Hr. right. by eapply others.
Qed.

Lemma step_over st' F' F0 d k : Holds l st' F' -> roots F' = d :: roots F0 -> rep :: c :: roots F0 ≡ₚ alive g (c :: rest) -> (n <= length st')%nat -> (n <= d)%nat -> d ∉ roots F0 -> d <> rep -> d <> c ->
  Grouped (mkGrouping st' (spliceOut rep (g_result g) ++ [d]) (c :: rep :: g_removed g) (<[sa_base a := d]> (g_table g)) k) rest.
Proof.
  intros H1 H2 H3 H4 Hd Hd0 Hdr Hdc. assert (HP : d :: roots F0 ≡ₚ (spliceOut rep (g_result g) ++ [d]) ++ filter (.∉ c :: rep :: g_removed g) rest).
  { apply left_over; [done|]. rewrite filter_removed, filter_removed. apply filter_ne_id. rewrite list_elem_of_filter. intros [_ ?]. by apply next_once. }
  split; [exists F'; split; [done|by rewrite H2]| |done]. eapply GoodTable_perm; [exact HP|].
  eapply table_insert; [apply Hg|intros a' Hi; apply Hinfo in Hi; lia| |left|intros b r Hb Hr; right; by eapply others]. intros b Hb Hr. by apply (others _ _ F0) in Hr.
Qed.
End step.

Lemma moveUnder_length p c st : length (moveUnder p c st) = length st.
Proof. unfold moveUnder, pushChild. by rewrite !length_alter. Qed.

Lemma adopt_length p cs st : length (fold_left (fun st ch => moveUnder p ch st) cs st) = length st.
Proof. revert st. induction cs as [|c cs IH]; intros st; [done|]. cbn. by rewrite IH, moveUnder_length. Qed.

Lemma groupStep_spec g c rest : Grouped g (c :: rest) -> Grouped (groupStep info c g) rest.
Proof.
  intros Hg. assert (Hkeep : c ∉ g_removed g -> Grouped (keepRoot c g) rest).
  { intros Hc. eapply (Grouped_perm g); [done..| |exact Hg]. rewrite alive_next by done. unfold alive. cbn. by rewrite <- app_assoc. }
  unfold groupStep. case_bool_decide as Hc; [eapply (Grouped_perm g); [done..| |exact Hg]; unfold alive; rewrite filter_cons_False by (by intros H; apply H); done|].
  destruct (info !! c) as [a|] eqn:Ha; [|by apply Hkeep]. destruct (g_table g !! sa_base a) as [rep|] eqn:Hrep; [|by apply Hkeep]. destruct (Nat.eqb_spec rep c) as [->|Hne]; [by apply Hkeep|].
  destruct (step_trees _ _ _ _ _ Hg Hc Hrep Hne) as (ts & us & F0 & HH & HP). pose proof (grouped_size _ _ Hg) as Hn. unfold isDummy.
  assert (Hunder : Grouped (mergeInto (moveUnder rep c (g_store g)) c g) rest).
  { destruct (Holds_move _ _ _ _ _ _ HH) as (F' & H1 & H2). eapply step_merged; try eassumption. by rewrite moveUnder_length. }
  destruct (bool_decide_reflect (messageOf (g_store g) rep = None)) as [Hr|Hr], (bool_decide_reflect (messageOf (g_store g) c = None)) as [Hm|Hm]; cbn [andb]; [|done|by apply Hkeep|].
  - destruct (Holds_adopt _ _ _ _ _ _ _ Hm HH) as (F' & H1 & H2). eapply step_merged; try eassumption. by rewrite adopt_length.
  - case_match; [done|]. case_match.
    + apply (Holds_perm _ _ _ _ (perm_swap _ _ _)) in HH. destruct (Holds_move _ _ _ _ _ _ HH) as (F' & H1 & H2). eapply step_swapped; try eassumption. by rewrite moveUnder_length.
    + destruct (Holds_over _ _ _ _ _ (madeUpKey (js "subj") (g_dummies g)) HH) as (F' & H1 & H2).
      assert (Hlt : forall i, i ∈ rep :: c :: roots F0 -> (i < length (g_store g))%nat).
      { intros i Hi. change (i ∈ roots (N rep ts :: N c us :: F0)) in Hi. apply roots_in_ids, elem_idsF in Hi as (t & Ht & Hi). destruct HH as ((HR & _) & _). rewrite Forall_forall in HR. by eapply Rep_lt; [apply HR|]. }
      eapply step_over; try eassumption; [rewrite !length_alter, length_app; lia|intros Hi; specialize (Hlt (length (g_store g))); rewrite !elem_of_cons in Hlt; intuition lia| |].
      * intros E. specialize (Hlt rep ltac:(left)). lia.
      * intros E. specialize (Hlt c ltac:(right; left)). lia.
Qed.

Lemma groupSteps_spec rest g : Grouped g rest -> Grouped (fold_left (fun g c => groupStep info c g) rest g) [].
Proof. revert g. induction rest as [|c rest IH]; intros g Hg; [done|]. cbn. by apply IH, groupStep_spec. Qed.

Lemma subjectTable_spec st (top root : list nat) table : (forall c, c ∈ root -> c ∈ top) -> (forall b r, table !! b = Some r -> r ∈ top /\ exists a, info !! r = Some a /\ sa_base a = b) ->
  forall b r, subjectTable st info root table !! b = Some r -> r ∈ top /\ exists a, info !! r = Some a /\ sa_base a = b.
Proof.
  revert table. induction root as [|c root IH]; intros table Hroot Ht; [done|]. cbn [subjectTable]. assert (Hroot' : forall i, i ∈ root -> i ∈ top) by (intros i Hi; apply Hroot; by right).
  assert (Hc : c ∈ top) by (apply Hroot; left). destruct (info !! c) as [a|] eqn:Ha; [|by apply IH].
  assert (Hins : forall b r, <[sa_base a := c]> table !! b = Some r -> r ∈ top /\ exists a, info !! r = Some a /\ sa_base a = b).
  { intros b r. destruct (decide (sa_base a = b)) as [<-|Hb]; [rewrite lookup_insert_eq; intros [= <-]; eauto|]. rewrite lookup_insert_ne by done. apply Ht. }
  destruct (table !! sa_base a) as [existing|]; [|by apply IH]. by case_match; apply IH.
Qed.
End group.

Lemma groupBySubject_spec l st F k : Holds l st F -> exists st' F' k', groupBySubject (walkFuel st) st (roots F) k = Some (st', roots F', k') /\ Holds l st' F'.
Proof.
  intros HF. unfold groupBySubject. destruct (subjectInfo_spec st F ∅ (proj1 HF)) as (info & -> & Hdom). cbn [mbind option_bind].
  assert (Hinfo : forall i a, info !! i = Some a -> (i < length st)%nat).
  { intros i a Hi. destruct (Hdom i a Hi) as [?|Hin]; [done|]. apply roots_in_ids, elem_idsF in Hin as (t & Ht & Hin). destruct HF as ((HR & _) & _). rewrite Forall_forall in HR. by eapply Rep_lt; [apply HR|]. }
  pose proof (subjectTable_spec info st (roots F) (roots F) ∅ ltac:(done) ltac:(by intros ? ?)) as Ht.
  assert (H0 : Grouped l (length st) info (mkGrouping st [] [] (subjectTable st info (roots F) ∅) k) (roots F)).
  { assert (Hall : filter (.∉ []) (roots F) = roots F) by apply filter_nothing.
    split; [exists F; split; [done|unfold alive; cbn; by rewrite Hall]| |done]. unfold alive. cbn [g_result g_removed g_table app]. rewrite Hall. split.
    - intros b r Hr. by apply Ht in Hr as [? _].
    - intros b b' r (_ & a & Ha & Eb)%Ht (_ & a' & Ha' & Eb')%Ht. congruence.
    - intros b r a (_ & a' & Ha' & Eb)%Ht Ha. congruence. }
  apply (groupSteps_spec _ _ _ Hinfo) in H0 as [(G & H1 & H2) _ _]. set (g := fold_left _ _ _) in *. unfold alive in H2. cbn in H2. rewrite app_nil_r in H2. destruct (roots_order _ _ H2) as (G' & HP & E).
  exists (g_store g), G', (g_dummies g). rewrite E. split; [done|]. by eapply Holds_perm.
Qed.
End threading.

(** ** Sorting *)

Definition earliest (l : list (option Z)) : option Z := foldr earlier None l.

(** The date a thread is sorted by: its message's, or the first of those under it. *)
Fixpoint treeDate (t : ThreadTree) : option Z :=
  let '(mkThread _ m kids) := t in match m with Some m => Some (ti_date m) | None => earliest (treeDate <$> kids) end.

Definition InOrder (l : list (option Z)) : Prop := StronglySorted (fun a b => notAfter a b = true) l.

(** Replies are in the order of their dates, everywhere in a thread. *)
Inductive Chronological : ThreadTree -> Prop :=
  | Chronological_node id m kids : InOrder (treeDate <$> kids) -> Forall Chronological kids -> Chronological (mkThread id m kids).

Lemma notAfter_total a b : notAfter a b = false -> notAfter b a = true.
Proof. destruct a, b; cbn; lia || done. Qed.

Lemma notAfter_trans a b c : notAfter a b = true -> notAfter b c = true -> notAfter a c = true.
Proof. destruct a, b, c; cbn; lia || done. Qed.

Lemma earlier_comm a b c : earlier a (earlier b c) = earlier b (earlier a c).
Proof. destruct a, b, c; cbn; try done; f_equal; lia. Qed.

Lemma earliest_perm l l' : l ≡ₚ l' -> earliest l = earliest l'.
Proof. induction 1; cbn; [done|by f_equal|apply earlier_comm|congruence]. Qed.

Lemma insertByDate_perm x l : insertByDate x l ≡ₚ x :: l.
Proof. induction l as [|y l IH]; [done|]. cbn. case_match; [|done]. by rewrite IH, perm_swap. Qed.

Lemma insertByDate_order x l : InOrder l.*1 -> InOrder (insertByDate x l).*1.
Proof.
  unfold InOrder. induction l as [|y l IH]; [by repeat constructor|]. cbn. intros [Hl Hy]%StronglySorted_inv. destruct (notAfter y.1 x.1) eqn:E; cbn.
  - constructor; [by apply IH|]. rewrite insertByDate_perm. by constructor.
  - apply notAfter_total in E. constructor; [by constructor|]. constructor; [done|]. eapply Forall_impl; [exact Hy|]. intros d. by apply notAfter_trans.
Qed.

Lemma sortByDate_spec l : sortByDate l ≡ₚ l /\ InOrder (sortByDate l).*1.
Proof.
  unfold sortByDate. assert (H : forall acc, InOrder acc.*1 -> fold_left (fun acc x => insertByDate x acc) l acc ≡ₚ acc ++ l /\ InOrder (fold_left (fun acc x => insertByDate x acc) l acc).*1); [|apply H; constructor].
  induction l as [|x l IH]; intros acc Ha; cbn; [by rewrite app_nil_r|]. destruct (IH (insertByDate x acc)) as [H1 H2]; [by apply insertByDate_order|]. split; [|done]. rewrite H1, insertByDate_perm. solve_Permutation.
Qed.

(** The dates of the containers of a forest. *)
Abbreviation dateOf st t := (treeDate (treeOf st t)).

Lemma minDates_spec fuel st F : Forest st F -> (length (idsF F) < fuel)%nat -> minDates fuel st (roots F) = Some (earliest ((fun t => dateOf st t) <$> F)).
Proof.
  revert F. induction fuel as [|fuel IH]; intros F HF Hf; [lia|]. destruct F as [|[c ts] F]; [done|]. cbn [minDates fmap list_fmap root].
  destruct (Forest_head _ _ _ _ HF) as (HR & Hts & HF'). cbn in Hf. rewrite length_app in Hf. rewrite (Rep_children _ _ _ HR).
  assert (Hd : match messageOf st c with Some m => Some (Some (ti_date m)) | None => minDates fuel st (roots ts) end = Some (dateOf st (N c ts))).
  { cbn. destruct (messageOf st c); [done|]. rewrite (IH ts Hts) by lia. do 2 f_equal. by rewrite <- list_fmap_compose. }
  rewrite Hd. cbn [mbind option_bind]. by rewrite (IH F HF') by lia.
Qed.

Lemma dated_spec fuel st F : Forest st F -> (length st < fuel)%nat -> dated fuel st (roots F) = Some ((fun t => (dateOf st t, root t)) <$> F).
Proof.
  intros HF Hf. induction F as [|t F IH]; [done|]. pose proof (Forest_one _ _ _ HF) as Ht. pose proof (Forest_size _ _ Ht).
  assert (Hd : minDate fuel st (root t) = Some (dateOf st t)). { unfold minDate. change [root t] with (roots [t]). rewrite (minDates_spec _ _ _ Ht) by lia. cbn. by destruct (dateOf st t). }
  unfold dated in *. cbn [fmap list_fmap mapM]. rewrite Hd. cbn [mbind option_bind]. by rewrite IH by (by destruct t; apply Forest_head in HF as (_ & _ & ?)).
Qed.

(** A forest with its trees in the order of their dates. *)
Lemma sort_trees st F : exists G, F ≡ₚ G /\ roots G = snd <$> sortByDate ((fun t => (dateOf st t, root t)) <$> F) /\ InOrder ((fun t => dateOf st t) <$> G).
Proof.
  destruct (sortByDate_spec ((fun t => (dateOf st t, root t)) <$> F)) as [HP HO]. apply Permutation_map_inv in HP as (G & E & HG). exists G. split; [done|]. rewrite E in *. rewrite <- !list_fmap_compose in *. split; [done|exact HO].
Qed.

(** What sorting leaves: everything but the children's order. *)
Definition SameLabels (st st' : Store) : Prop := SameMessages st st' /\ forall i, c_key <$> st' !! i = c_key <$> st !! i.

#[export] Instance SameLabels_preorder : PreOrder SameLabels.
Proof. split; [by split|]. intros s1 s2 s3 [H1 H2] [H3 H4]. split; [by etrans|]. intros i. by rewrite H4, H2. Qed.

Lemma SameLabels_children (st : Store) c l : SameLabels st (alter (setChildren l) c st).
Proof.
  split; [by apply SameMessages_alter|]. intros i. destruct (decide (c = i)) as [->|Hne]; [|by rewrite list_lookup_alter_ne]. rewrite list_lookup_alter, decide_True by done. by destruct (st !! i).
Qed.

Lemma treeOf_labels st st' t : SameLabels st st' -> treeOf st' t = treeOf st t.
Proof.
  intros [[_ Hm] Hk]. induction t as [i ts IH] using Tree_ind'. cbn. rewrite Hm, Hk. f_equal. apply list_fmap_ext. intros j t Ht. rewrite Forall_forall in IH. apply IH. by eapply list_elem_of_lookup_2.
Qed.

Lemma treesOf_labels st st' (F : list Tree) : SameLabels st st' -> treeOf st' <$> F = treeOf st <$> F.
Proof. intros H. apply list_fmap_ext. intros _ t _. by apply treeOf_labels. Qed.

Record SortedTo (st : Store) (F : list Tree) (st' : Store) (F' : list Tree) : Prop := {
  sorted_roots : roots F' = roots F;
  sorted_forest : Forest st' F';
  sorted_ids : idsF F' ≡ₚ idsF F;
  sorted_labels : SameLabels st st';
  sorted_outside : Outside (idsF F) st st';
  sorted_dates : treeDate <$> (treeOf st' <$> F') = treeDate <$> (treeOf st <$> F);
  sorted_order : Forall Chronological (treeOf st' <$> F');
  sorted_full : Forall (Full st) F -> Forall (Full st') F'
}.

(** The head, once its children are sorted, and what becomes of the rest. *)
Lemma SortedTo_cons st c ts F st1 ts1 ts2 st3 F3 : Forest st (N c ts :: F) -> SortedTo st ts st1 ts1 -> ts1 ≡ₚ ts2 -> InOrder (treeDate <$> (treeOf st1 <$> ts2)) ->
  SortedTo (alter (setChildren (roots ts2)) c st1) F st3 F3 -> SortedTo st (N c ts :: F) st3 (N c ts2 :: F3).
Proof.
  intros HF H1 HP HO H3. destruct (NoDup_head _ _ _ (proj2 HF)) as (Hcts & HcF & _ & _ & Hdisj). set (st2 := alter (setChildren (roots ts2)) c st1) in *.
  assert (Hids : idsF ts2 ≡ₚ idsF ts) by (by rewrite <- (sorted_ids _ _ _ _ H1), HP). pose proof (SameLabels_children st1 c (roots ts2)) as L12. fold st2 in L12.
  pose proof (sorted_labels _ _ _ _ H1) as L1. pose proof (sorted_labels _ _ _ _ H3) as L3. assert (L13 : SameLabels st1 st3) by (by etrans). assert (L : SameLabels st st3) by (by etrans).
  assert (Hcts2 : c ∉ idsF ts2) by (by rewrite Hids).
  assert (Hts2 : Forall (Rep st2) ts2). { eapply RepF_frame; [rewrite <- HP; apply H1|]. intros i Hi. apply childrenOf_set. by intros ->. }
  assert (HR2 : Rep st2 (N c ts2)).
  { destruct (lookup_lt_is_Some_2 st1 c) as [x Hx]; [rewrite (proj1 (proj1 L1)); destruct HF as [HR _]; inversion HR; subst; eapply Rep_lt; [done|left]|].
    eapply (Rep_node _ _ _ (setChildren (roots ts2) x)); [unfold st2; by rewrite list_lookup_alter, decide_True, Hx by done|done|done]. }
  assert (HR3 : Rep st3 (N c ts2)). { eapply Rep_frame; [done|]. intros i [->|Hi]%elem_of_cons; apply (sorted_outside _ _ _ _ H3); [done|]. apply Hdisj. by rewrite <- Hids. }
  constructor.
  - cbn. f_equal. apply H3.
  - apply Forest_cons; [done| |apply H3|].
    + cbn. constructor; [done|]. rewrite Hids. apply (NoDup_head _ _ _ (proj2 HF)).
    + intros i Hi. rewrite (sorted_ids _ _ _ _ H3). cbn in Hi. rewrite Hids in Hi. apply elem_of_cons in Hi as [->|Hi]; auto.
  - cbn. rewrite Hids. f_equiv. f_equiv. apply H3.
  - done.
  - intros i Hi. cbn in Hi. apply not_elem_of_cons in Hi as [Hic [Hi1 Hi2]%not_elem_of_app]. rewrite (sorted_outside _ _ _ _ H3) by done. unfold st2. rewrite childrenOf_set by (by intros ->). by apply (sorted_outside _ _ _ _ H1).
  - rewrite !fmap_cons. f_equal; [|rewrite (sorted_dates _ _ _ _ H3), (treesOf_labels st st2) by exact (transitivity L1 L12); done]. cbn. rewrite (proj2 (proj1 L)). destruct (messageOf st c); [done|].
    rewrite (treesOf_labels st1 st3) by done. rewrite <- (sorted_dates _ _ _ _ H1). apply earliest_perm. by rewrite HP.
  - rewrite fmap_cons. constructor; [|apply H3]. cbn. constructor; rewrite (treesOf_labels st1 st3) by done; [done|]. rewrite <- HP. apply H1.
  - intros [Hc HF0]%Forall_cons. inversion Hc as [? ? Hm Hts]; subst. constructor.
    + constructor; [rewrite (proj2 (proj1 L)), <- (Permutation_length HP); intros Hn; specialize (Hm Hn); rewrite <- (length_fmap root ts1), (sorted_roots _ _ _ _ H1), length_fmap; done|].
      apply (FullF_ext st1); [apply L13|]. rewrite <- HP. by apply H1.
    + apply H3. apply (FullF_ext st); [apply (transitivity L1 L12)|done].
Qed.

Lemma sortChildren_spec fuel st F : Forest st F -> (length (idsF F) < fuel)%nat -> exists st' F', sortChildren fuel st (roots F) = Some st' /\ SortedTo st F st' F'.
Proof.
  revert st F. induction fuel as [|fuel IH]; intros st F HF Hf; [lia|]. destruct F as [|[c ts] F]; [exists st, []; split; [done|]; by constructor|]. cbn [sortChildren fmap list_fmap root].
  destruct (Forest_head _ _ _ _ HF) as (HR & Hts & HF'). destruct (NoDup_head _ _ _ (proj2 HF)) as (Hcts & HcF & _ & _ & Hdisj). cbn in Hf. rewrite length_app in Hf. rewrite (Rep_children _ _ _ HR).
  destruct (IH st ts Hts ltac:(lia)) as (st1 & ts1 & E1 & H1). rewrite E1. cbn [mbind option_bind]. pose proof (sorted_labels _ _ _ _ H1) as L1.
  assert (Hch : childrenOf st1 c = roots ts1). { rewrite (sorted_roots _ _ _ _ H1), <- (Rep_children _ _ _ HR). unfold childrenOf. by rewrite (sorted_outside _ _ _ _ H1) by done. }
  rewrite Hch, (dated_spec _ _ _ (sorted_forest _ _ _ _ H1)) by (unfold walkFuel; lia). cbn [mbind option_bind]. destruct (sort_trees st1 ts1) as (ts2 & HP & <- & HO).
  set (st2 := alter (setChildren (roots ts2)) c st1).
  assert (HF2 : Forest st2 F).
  { split; [|apply HF']. eapply RepF_frame; [apply HF'|]. intros i Hi. unfold st2. rewrite childrenOf_set by (by intros ->). apply (sorted_outside _ _ _ _ H1). intros Hi'. by apply (Hdisj i). }
  destruct (IH st2 F HF2 ltac:(lia)) as (st3 & F3 & -> & H3). exists st3, (N c ts2 :: F3). split; [done|]. eapply SortedTo_cons; [done..| |done]. by rewrite <- list_fmap_compose.
Qed.

Lemma sortForest_spec st F : Forest st F ->
  exists st' F', sortForest (walkFuel st) st (roots F) = Some (st', roots F') /\ Forest st' F' /\ idsF F' ≡ₚ idsF F /\ SameLabels st st' /\ InOrder (treeDate <$> (treeOf st' <$> F')) /\
    Forall Chronological (treeOf st' <$> F') /\ (Forall (Full st) F -> Forall (Full st') F').
Proof.
  intros HF. unfold sortForest. pose proof (Forest_size _ _ HF). destruct (sortChildren_spec (walkFuel st) st F HF) as (st1 & F1 & E1 & H1); [unfold walkFuel; lia|]. rewrite E1. cbn [mbind option_bind].
  pose proof (sorted_labels _ _ _ _ H1) as L1. rewrite <- (sorted_roots _ _ _ _ H1), (dated_spec _ _ _ (sorted_forest _ _ _ _ H1)) by (unfold walkFuel; rewrite (proj1 (proj1 L1)); lia). cbn [mbind option_bind].
  destruct (sort_trees st1 F1) as (F2 & HP & <- & HO). exists st1, F2. split_and!; [done|by eapply Forest_perm, H1|by rewrite <- HP, (sorted_ids _ _ _ _ H1)|done|by rewrite <- list_fmap_compose| |].
  - rewrite <- HP. apply H1.
  - intros Hfull. rewrite <- HP. by apply H1.
Qed.

(** ** The threads *)

(** A thread's place without a message holds two others at least. *)
Inductive NoEmpty : ThreadTree -> Prop :=
  | NoEmpty_node id m kids : (m = None -> (2 <= length kids)%nat) -> Forall NoEmpty kids -> NoEmpty (mkThread id m kids).

Lemma Full_NoEmpty st t : Full st t -> NoEmpty (treeOf st t).
Proof.
  induction t as [i ts IH] using Tree_ind'. inversion 1 as [? ? Hm Hts]; subst. cbn. constructor; [by rewrite length_fmap|]. apply Forall_fmap. rewrite Forall_forall in *. intros t Ht. by apply IH, Hts.
Qed.

Fixpoint treeMessages (t : ThreadTree) : list ThreadInput :=
  let '(mkThread _ m kids) := t in option_list m ++ concat (treeMessages <$> kids).

Lemma treeMessages_ids st t : treeMessages (treeOf st t) = omap (messageOf st) (ids t).
Proof.
  induction t as [i ts IH] using Tree_ind'. assert (E : concat (treeMessages <$> (treeOf st <$> ts)) = omap (messageOf st) (idsF ts)).
  { induction IH as [|t ts Ht _ IHts]; [done|]. cbn. by rewrite Ht, omap_app, IHts. }
  cbn. rewrite E. by destruct (messageOf st i).
Qed.

Lemma treeMessages_messages st F : concat (treeMessages <$> (treeOf st <$> F)) = messages st F.
Proof. unfold messages. induction F as [|t F IH]; [done|]. cbn. by rewrite treeMessages_ids, omap_app, IH. Qed.

(** C27: Threading ends on every batch of messages and gives threads in which every message stands exactly once,
    a place without a message holds two others at least, and threads and replies are in the order of their dates. *)
Theorem threads_complete `{R : Runtime} (msgs : list ThreadInput) (dummyCounter : nat) :
  exists trees dummyCounter', threadMessages msgs dummyCounter = Some (trees, dummyCounter') /\
    concat (treeMessages <$> trees) ≡ₚ msgs /\ Forall NoEmpty trees /\ Forall Chronological trees /\ InOrder (treeDate <$> trees).
Proof.
  unfold threadMessages. destruct (threadAll_spec msgs _ _ _ Arrived_new) as (t & F & E & Ha). rewrite E. cbn [mbind option_bind].
  pose proof (arrived_linked _ _ _ Ha) as HL. destruct (rootsOf_forest _ _ HL) as (G & HP & <-). assert (HG : Forest (t_store t) G) by (eapply Forest_perm, HL; done).
  pose proof (Forest_size _ _ HG). destruct (pruneForest_spec (walkFuel (t_store t)) _ _ None HG) as (st1 & F1 & E1 & HF1 & _ & Hm1 & Hfull1 & _); [unfold walkFuel; lia|]. rewrite E1. cbn [mbind option_bind].
  assert (H1 : Holds msgs st1 F1). { split_and!; [done|rewrite Hm1|done]. rewrite <- (messages_perm _ _ _ HP), (linked_messages _ _ HL). apply Ha. }
  destruct (groupBySubject_spec _ _ _ dummyCounter H1) as (st2 & F2 & k & E2 & HF2 & Hm2 & Hfull2). rewrite E2. cbn [mbind option_bind].
  destruct (sortForest_spec _ _ HF2) as (st3 & F3 & E3 & HF3 & Hids & HS & HO & HC & Hfull3). rewrite E3. cbn [mbind option_bind]. pose proof (Forest_size _ _ HF3).
  rewrite (toThreadTrees_spec _ _ _ HF3) by (unfold walkFuel; lia). exists (treeOf st3 <$> F3), k. split_and!; [done| | |done|done].
  - rewrite treeMessages_messages, (messages_ids _ _ _ Hids), (messages_ext st2 st3) by apply HS. done.
  - apply Forall_fmap. eapply Forall_impl; [by apply Hfull3|]. intros u. apply Full_NoEmpty.
Qed.

(** ** An example *)

#[local] Instance demoRuntime : Runtime := {| uni_upper := id; uni_lower := id; big_string := fun _ => []; isIPv6 := fun _ => false |}.

Definition demo_message (id messageId : string) (references : list string) (subject : string) (date : Z) : ThreadInput :=
  mkInput (js id) (Some (js messageId)) None ((fun r => js r) <$> references) (js subject) date [] [].

Fixpoint shape (t : ThreadTree) : list jsstr * list (list jsstr) :=
  let '(mkThread id _ kids) := t in ([id], (fun k => let '(a, b) := shape k in a ++ concat b) <$> kids).

Example demo_base : baseSubject (js "[list] Re: AW: [fwd: Lunch  on Friday (fwd)] ") = js "lunch on friday".
Proof. vm_compute. reflexivity. Qed.

(** A reply that comes before its parent and names itself as its ancestor; and one that only the subject links. *)
Example demo_threads :
  let a := demo_message "1" "<a@x>" [] "Lunch" 10 in
  let b := demo_message "2" "<b@x>" ["<a@x>"; "<b@x>"] "Re: Lunch" 30 in
  let c := demo_message "3" "<c@x>" [] "Re: lunch" 20 in
  match threadMessages [b; c; a] 0 with Some (trees, _) => Some (shape <$> trees) | None => None end = Some [([js "a@x"], [[js "c@x"]; [js "b@x"]])].
Proof. vm_compute. reflexivity. Qed.
