(* ===== verification/MailDb.v ===== *)
(** * MailDb: the mailbox tables and the statements every writer of them shares

    [db/prisma/schema.prisma] with its constraints, [apps/imap/src/flags.ts] and [names.ts],
    [classifier/src/buckets.ts], the row operations of [blobstore/src/store.ts] and [dsn/src/file-local-message.ts].

    A table is a [gmap] from its key. A transaction is a function of the database that gives a value and the
    database it commits, or aborts and leaves no trace. Its statements are one atomic step: every writer locks the
    mailbox rows first. [gen_random_uuid] hands out identifiers that were never used; times are milliseconds. *)
From stdpp Require Import gmap sorting.
From S2P Require Import Prelude JsString JsStringFacts.

Abbreviation Id := nat.

Inductive SpecialUse := UseInbox | UseSent | UseDrafts | UseTrash | UseJunk | UseArchive | UseRejects.
#[export] Instance SpecialUse_eq_dec : EqDecision SpecialUse.
Proof. solve_decision. Defined.

(** ** Flags ([flags.ts]) *)

Section flags.
Context `{R : Runtime}.

Definition SYSTEM_FLAGS : list jsstr := [js "\Answered"; js "\Flagged"; js "\Deleted"; js "\Seen"; js "\Draft"; js "\Recent"].
Definition SEEN : jsstr := js "\Seen".
Definition DELETED : jsstr := js "\Deleted".

Definition canonicalFlag (flag : jsstr) : jsstr := default flag (List.find (fun f => bool_decide (toUpperCase f = toUpperCase flag)) SYSTEM_FLAGS).

Fixpoint normalizeFrom (flags seen : list jsstr) : list jsstr :=
  match flags with
  | [] => []
  | raw :: flags =>
      let f := canonicalFlag raw in
      let key := toLowerCase f in
      if bool_decide (key = js "\recent") || bool_decide (key ∈ seen) then normalizeFrom flags seen else f :: normalizeFrom flags (key :: seen)
  end.
Definition normalizeFlags (flags : list jsstr) : list jsstr := normalizeFrom flags [].

Definition hasFlag (flags : list jsstr) (flag : jsstr) : bool := existsb (fun f => bool_decide (toLowerCase f = toLowerCase flag)) flags.

Inductive StoreOperation := OpSet | OpAdd | OpRemove.

Definition applyFlags (current : list jsstr) (op : StoreOperation) (flags : list jsstr) : list jsstr :=
  let change := normalizeFlags flags in
  match op with
  | OpSet => change
  | OpAdd => normalizeFlags (current ++ change)
  | OpRemove => filter (fun f => toLowerCase f ∉ toLowerCase <$> change) current
  end.

Definition sameFlags (a b : list jsstr) : bool := (length a =? length b)%nat && forallb (fun f => bool_decide (toLowerCase f ∈ toLowerCase <$> a)) b.

Definition isKeyword (flag : jsstr) : bool := negb (startsWith (js "\") flag).
End flags.

(** ** Mailbox names ([names.ts]) *)

Definition DELIMITER : Z := 0x2f.

(** ["a/b/c"] gives ["a"] and ["a/b"]; [before] is what comes before [name]. *)
Fixpoint parentsFrom (before name : jsstr) : list jsstr :=
  match name with
  | [] => []
  | c :: name => (if (c =? DELIMITER) && negb (bool_decide (before = [])) then [before] else []) ++ parentsFrom (before ++ [c]) name
  end.
(** The loop stops at once when the delimiter comes first. *)
Definition parentsOf (name : jsstr) : list jsstr := match name with c :: _ => if c =? DELIMITER then [] else parentsFrom [] name | [] => [] end.

Definition isSelfOrChild (name parent : jsstr) : bool := bool_decide (name = parent) || startsWith (parent ++ [DELIMITER]) name.

(** Postgres's [left(name, n)]: the first [n] characters, which are code points. *)
Definition sqlLeft (n : nat) (s : jsstr) : list Z := take n (codePoints s).

(** [left(name, from.length + 1) = from/]: how the store looks for the children of a mailbox. *)
Definition isBelow (from name : jsstr) : bool := bool_decide (sqlLeft (S (length from)) name = codePoints (from ++ [DELIMITER])).

(** ** Sorting buckets ([buckets.ts]) *)

Inductive SortBucket := BInbox | BNewsletters | BUpdates | BReceipts | BNotifications | BJunk.
#[export] Instance SortBucket_eq_dec : EqDecision SortBucket.
Proof. solve_decision. Defined.

Section buckets.
Context `{R : Runtime}.

Definition bucketOfMailbox (name : jsstr) (specialUse : option SpecialUse) : option SortBucket :=
  if bool_decide (specialUse = Some UseInbox) || bool_decide (toUpperCase name = js "INBOX") then Some BInbox
  else
    match specialUse with
    | Some UseJunk => Some BJunk
    | Some _ => None
    | None =>
        if bool_decide (name = js "Newsletters") then Some BNewsletters else if bool_decide (name = js "Updates") then Some BUpdates
        else if bool_decide (name = js "Receipts") then Some BReceipts else if bool_decide (name = js "Notifications") then Some BNotifications else None
    end.

Definition trainingMove (fromName : jsstr) (fromUse : option SpecialUse) (toName : jsstr) (toUse : option SpecialUse) : option (SortBucket * SortBucket) :=
  match bucketOfMailbox fromName fromUse, bucketOfMailbox toName toUse with
  | Some a, Some b => if bool_decide (a = b) then None else Some (a, b)
  | _, _ => None
  end.
End buckets.

(** ** The tables *)

Record Mailbox := mkMailbox {
  mb_account : Id; mb_name : jsstr; mb_specialUse : option SpecialUse; mb_uidvalidity : Z; mb_uidnext : Z; mb_highestModseq : Z; mb_subscribed : bool }.

(** The columns lists and threads read. *)
Record Columns := mkColumns {
  c_messageIdHeader : option jsstr; c_subject : option jsstr; c_fromAddress : option jsstr; c_fromName : option jsstr; c_snippet : option jsstr;
  c_toName : option jsstr; c_toCount : option Z; c_sentAt : option Z; c_inReplyTo : option jsstr; c_references : list jsstr; c_threadId : option Id }.
Definition noColumns : Columns := mkColumns None None None None None None None None None [] None.

Record Message := mkMessage {
  m_mailbox : Id; m_uid : Z; m_modseq : Z; m_blob : jsstr; m_size : Z; m_internalDate : Z; m_receivedAt : Z; m_flags : list jsstr; m_inbound : option Id; m_columns : Columns }.

Record SearchRow := mkSearch {
  s_account : Id; s_subject : jsstr; s_from : jsstr; s_to : jsstr; s_body : jsstr; s_hasAttachment : bool; s_attachmentNames : jsstr }.
Record VerdictRow := mkVerdict { v_auth : jsstr; v_attachments : jsstr; v_bucket : option jsstr; v_reasons : list jsstr; v_scores : jsstr }.

Inductive Via := ImapMove | ImapCopyExpunge | Web.
Record TrainingEvent := mkTraining { t_account : Id; t_message : Id; t_blob : jsstr; t_from : SortBucket; t_to : SortBucket; t_via : Via }.

Record Correspondent := mkCorrespondent { co_first : Z; co_last : Z; co_count : Z }.

Inductive AuditEntry :=
  | AuditExpunge (account mailbox : Id) (uids : list Z) (via : jsstr)
  | AuditCreate (account mailbox : Id) (name : jsstr) (specialUse : option SpecialUse) (uidvalidity : Z)
  | AuditImplied (account mailbox : Id) (name : jsstr)
  | AuditDelete (account mailbox : Id) (name : jsstr) (uidvalidity : Z) (messages : nat)
  | AuditRename (account mailbox : Id) (before after : jsstr) (children : option nat).

Record Db := mkDb {
  d_fresh : Id;
  d_mailboxes : gmap Id Mailbox;
  d_messages : gmap Id Message;
  d_expunged : gmap (Id * Z) Z;
  d_blobs : gmap jsstr Z;
  d_search : gmap Id SearchRow;
  d_verdicts : gmap Id VerdictRow;
  d_training : list TrainingEvent;
  d_correspondents : gmap (Id * jsstr) Correspondent;
  d_audit : list AuditEntry;
  d_notified : list Id
}.

Definition onMailboxes f (d : Db) : Db := mkDb (d_fresh d) (f (d_mailboxes d)) (d_messages d) (d_expunged d) (d_blobs d) (d_search d) (d_verdicts d) (d_training d) (d_correspondents d) (d_audit d) (d_notified d).
Definition onMessages f (d : Db) : Db := mkDb (d_fresh d) (d_mailboxes d) (f (d_messages d)) (d_expunged d) (d_blobs d) (d_search d) (d_verdicts d) (d_training d) (d_correspondents d) (d_audit d) (d_notified d).
Definition onExpunged f (d : Db) : Db := mkDb (d_fresh d) (d_mailboxes d) (d_messages d) (f (d_expunged d)) (d_blobs d) (d_search d) (d_verdicts d) (d_training d) (d_correspondents d) (d_audit d) (d_notified d).
Definition onBlobs f (d : Db) : Db := mkDb (d_fresh d) (d_mailboxes d) (d_messages d) (d_expunged d) (f (d_blobs d)) (d_search d) (d_verdicts d) (d_training d) (d_correspondents d) (d_audit d) (d_notified d).
Definition onSearch f (d : Db) : Db := mkDb (d_fresh d) (d_mailboxes d) (d_messages d) (d_expunged d) (d_blobs d) (f (d_search d)) (d_verdicts d) (d_training d) (d_correspondents d) (d_audit d) (d_notified d).
Definition onVerdicts f (d : Db) : Db := mkDb (d_fresh d) (d_mailboxes d) (d_messages d) (d_expunged d) (d_blobs d) (d_search d) (f (d_verdicts d)) (d_training d) (d_correspondents d) (d_audit d) (d_notified d).
Definition onTraining f (d : Db) : Db := mkDb (d_fresh d) (d_mailboxes d) (d_messages d) (d_expunged d) (d_blobs d) (d_search d) (d_verdicts d) (f (d_training d)) (d_correspondents d) (d_audit d) (d_notified d).
Definition onCorrespondents f (d : Db) : Db := mkDb (d_fresh d) (d_mailboxes d) (d_messages d) (d_expunged d) (d_blobs d) (d_search d) (d_verdicts d) (d_training d) (f (d_correspondents d)) (d_audit d) (d_notified d).
Definition onAudit f (d : Db) : Db := mkDb (d_fresh d) (d_mailboxes d) (d_messages d) (d_expunged d) (d_blobs d) (d_search d) (d_verdicts d) (d_training d) (d_correspondents d) (f (d_audit d)) (d_notified d).
Definition onNotified f (d : Db) : Db := mkDb (d_fresh d) (d_mailboxes d) (d_messages d) (d_expunged d) (d_blobs d) (d_search d) (d_verdicts d) (d_training d) (d_correspondents d) (d_audit d) (f (d_notified d)).

(** ** Transactions *)

Inductive TxError := MailboxGone | Exists | BlobNotFound | PreconditionFailed (current : Z) | Violation (constraint : jsstr).
Inductive Outcome (A : Type) := Committed (a : A) (d : Db) | Aborted (e : TxError).
Arguments Committed {A}. Arguments Aborted {A}.

Definition TX (A : Type) : Type := Db -> Outcome A.
#[export] Instance TX_ret : MRet TX := fun A a d => Committed a d.
#[export] Instance TX_bind : MBind TX := fun A B f m d => match m d with Committed a d => f a d | Aborted e => Aborted e end.

Definition select {A} (f : Db -> A) : TX A := fun d => Committed (f d) d.
Definition exec (f : Db -> Db) : TX unit := fun d => Committed tt (f d).
Definition abort {A} (e : TxError) : TX A := fun _ => Aborted e.
Definition constraint (name : jsstr) (ok : bool) : TX unit := if ok then mret tt else abort (Violation name).

Fixpoint forEach {A} (l : list A) (f : A -> TX unit) : TX unit := match l with [] => mret tt | x :: l => _ ← f x; forEach l f end.
Fixpoint traverse {A B} (f : A -> TX B) (l : list A) : TX (list B) := match l with [] => mret [] | x :: l => y ← f x; ys ← traverse f l; mret (y :: ys) end.

(** What is in the database after an operation: an aborted transaction leaves it as it was. *)
Definition after {A} (m : TX A) (d : Db) : Db := match m d with Committed _ d => d | Aborted _ => d end.

(** ** Statements *)

Definition freshId : TX Id := fun d =>
  Committed (d_fresh d) (mkDb (S (d_fresh d)) (d_mailboxes d) (d_messages d) (d_expunged d) (d_blobs d) (d_search d) (d_verdicts d) (d_training d) (d_correspondents d) (d_audit d) (d_notified d)).

(** The messages of a mailbox in the order of their UIDs. *)
Definition uidBefore (a b : Id * Message) : Prop := m_uid a.2 <= m_uid b.2.
#[export] Instance uidBefore_dec a b : Decision (uidBefore a b).
Proof. unfold uidBefore. apply _. Defined.
Definition messagesOf (d : Db) (mailbox : Id) : list (Id * Message) := merge_sort uidBefore (filter (fun x => m_mailbox x.2 = mailbox) (map_to_list (d_messages d))).

(** Those of [mailboxId] with [uid = ANY(uids)]. *)
Definition rowsByUid (d : Db) (mailbox : Id) (uids : list Z) : list (Id * Message) := filter (fun x => m_uid x.2 ∈ uids) (messagesOf d mailbox).

Definition lockMailbox (mailboxId : Id) : TX Mailbox := fun d => match d_mailboxes d !! mailboxId with Some m => Committed m d | None => Aborted MailboxGone end.

Definition findMailbox (d : Db) (accountId : Id) (name : jsstr) : option (Id * Mailbox) :=
  head (filter (fun x => mb_account x.2 = accountId /\ mb_name x.2 = name) (map_to_list (d_mailboxes d))).

Definition setCounters (uidnext modseq : Z) (m : Mailbox) : Mailbox := mkMailbox (mb_account m) (mb_name m) (mb_specialUse m) (mb_uidvalidity m) uidnext modseq (mb_subscribed m).
Definition setModseq (modseq : Z) (m : Mailbox) : Mailbox := setCounters (mb_uidnext m) modseq m.
Definition setName (name : jsstr) (m : Mailbox) : Mailbox := mkMailbox (mb_account m) name (mb_specialUse m) (mb_uidvalidity m) (mb_uidnext m) (mb_highestModseq m) (mb_subscribed m).
Definition setSubscription (s : bool) (m : Mailbox) : Mailbox := mkMailbox (mb_account m) (mb_name m) (mb_specialUse m) (mb_uidvalidity m) (mb_uidnext m) (mb_highestModseq m) s.

(** [UPDATE mailbox SET name]: the name is taken by no other of the account. *)
Definition updateName (name : jsstr) (mailboxId : Id) : TX unit := fun d =>
  match d_mailboxes d !! mailboxId with
  | None => Committed tt d
  | Some m =>
      (_ ← constraint (js "mailbox_account_id_name_key")
             (negb (existsb (fun x => negb (bool_decide (x.1 = mailboxId)) && bool_decide (mb_account x.2 = mb_account m) && bool_decide (mb_name x.2 = name)) (map_to_list (d_mailboxes d))));
       exec (onMailboxes (alter (setName name) mailboxId))) d
  end.

Definition updateMailbox (f : Mailbox -> Mailbox) (mailboxId : Id) : TX unit := exec (onMailboxes (alter f mailboxId)).

Definition MAX_INT4 : Z := 2147483647.

(** [uidnext] is an int4. *)
Definition updateCounters (uidnext modseq : Z) (mailboxId : Id) : TX unit :=
  _ ← constraint (js "int4") (uidnext <=? MAX_INT4);
  updateMailbox (setCounters uidnext modseq) mailboxId.

Definition onColumns f (m : Message) : Message := mkMessage (m_mailbox m) (m_uid m) (m_modseq m) (m_blob m) (m_size m) (m_internalDate m) (m_receivedAt m) (m_flags m) (m_inbound m) (f (m_columns m)).
Definition setFlags (flags : list jsstr) (modseq : Z) (m : Message) : Message := mkMessage (m_mailbox m) (m_uid m) modseq (m_blob m) (m_size m) (m_internalDate m) (m_receivedAt m) flags (m_inbound m) (m_columns m).
Definition rehome (mailbox : Id) (uid modseq : Z) (flags : list jsstr) (inbound : option Id) (m : Message) : Message :=
  mkMessage mailbox uid modseq (m_blob m) (m_size m) (m_internalDate m) (m_receivedAt m) flags inbound (m_columns m).

(** A row that is another than [id]. *)
Definition another (d : Db) (id : Id) (p : Message -> bool) : bool := existsb (fun x => negb (bool_decide (x.1 = id)) && p x.2) (map_to_list (d_messages d)).

(** An INSERT, or an UPDATE of the key columns, with the constraints of the table. *)
Definition putMessage (id : Id) (m : Message) : TX unit := fun d =>
  (_ ← constraint (js "message_mailbox_id_fkey") (bool_decide (is_Some (d_mailboxes d !! m_mailbox m)));
   _ ← constraint (js "message_blob_sha256_fkey") (bool_decide (is_Some (d_blobs d !! m_blob m)));
   _ ← constraint (js "int4") (m_uid m <=? MAX_INT4);
   _ ← constraint (js "message_mailbox_id_uid_key") (negb (another d id (fun o => bool_decide (m_mailbox o = m_mailbox m) && (m_uid o =? m_uid m))));
   _ ← constraint (js "message_mailbox_id_inbound_message_id_key")
         (negb (another d id (fun o => bool_decide (m_mailbox o = m_mailbox m) && bool_decide (is_Some (m_inbound m)) && bool_decide (m_inbound o = m_inbound m))));
   exec (onMessages <[id := m]>)) d.

Definition insertMessage (m : Message) : TX Id :=
  id ← freshId;
  _ ← putMessage id m;
  mret id.

Definition updateColumns (f : Columns -> Columns) (id : Id) : TX unit := exec (onMessages (alter (onColumns f) id)).

(** DELETE of message rows, with what cascades. *)
Definition deleteMessages (ids : list Id) : TX unit :=
  exec (fun d => onVerdicts (filter (fun x => x.1 ∉ ids)) (onSearch (filter (fun x => x.1 ∉ ids)) (onMessages (filter (fun x => x.1 ∉ ids)) d))).

Definition recordExpunged (mailboxId : Id) (uids : list Z) (modseq : Z) : TX unit :=
  exec (onExpunged (fun e => fold_left (fun e uid => match e !! (mailboxId, uid) with Some _ => e | None => <[(mailboxId, uid) := modseq]> e end) uids e)).

Definition notifyMailbox (mailboxId : Id) : TX unit := exec (onNotified (fun l => l ++ [mailboxId])).
Definition recordAudit (e : AuditEntry) : TX unit := exec (onAudit (fun l => l ++ [e])).

(** ** Blob rows *)

(** [commit] of [put]: whether the row is new. *)
Definition putBlob (sha256 : jsstr) : TX bool := fun d =>
  match d_blobs d !! sha256 with
  | Some n => Committed false (onBlobs <[sha256 := n + 1]> d)
  | None => Committed true (onBlobs <[sha256 := 1]> d)
  end.

(** The reference count after it. A row that is still referred to cannot go. *)
Definition release (sha256 : jsstr) : TX Z := fun d =>
  match d_blobs d !! sha256 with
  | None => Aborted BlobNotFound
  | Some n =>
      if n <=? 1 then
        (_ ← constraint (js "message_blob_sha256_fkey") (negb (existsb (fun x => bool_decide (m_blob x.2 = sha256)) (map_to_list (d_messages d))));
         _ ← exec (onBlobs (delete sha256));
         mret 0) d
      else Committed (n - 1) (onBlobs <[sha256 := n - 1]> d)
  end.

(** [UPDATE blob SET refcount = refcount + n]. *)
Definition addReferences (sha256 : jsstr) (n : Z) : TX unit := exec (onBlobs (alter (Z.add n) sha256)).

(** ** Mailboxes and filing *)

Section filing.
Context (uidValidity : Id -> Z).

(** INSERT ... ON CONFLICT (account_id, name) DO NOTHING RETURNING. [uidValidity] is the number drawn for the row. *)
Definition insertMailbox (accountId : Id) (name : jsstr) (specialUse : option SpecialUse) (uidnext modseq : Z) : TX (option Id) := fun d =>
  match findMailbox d accountId name with
  | Some _ => Committed None d
  | None =>
      (id ← freshId;
       _ ← exec (onMailboxes <[id := mkMailbox accountId name specialUse (uidValidity id) uidnext modseq true]>);
       mret (Some id)) d
  end.

Definition SPECIAL_USE_BY_NAME : list (jsstr * SpecialUse) :=
  [(js "INBOX", UseInbox); (js "Sent", UseSent); (js "Drafts", UseDrafts); (js "Trash", UseTrash); (js "Junk", UseJunk); (js "Archive", UseArchive); (js "Rejects", UseRejects)].
Definition specialUseByName (name : jsstr) : option SpecialUse := snd <$> List.find (fun x => bool_decide (x.1 = name)) SPECIAL_USE_BY_NAME.

Definition lockOrCreateMailbox (accountId : Id) (name : jsstr) : TX (Id * Mailbox) :=
  _ ← insertMailbox accountId name (specialUseByName name) 1 0;
  found ← select (fun d => findMailbox d accountId name);
  match found with Some x => mret x | None => abort MailboxGone end.

Record FileInput := mkFile { fi_account : Id; fi_mailbox : jsstr; fi_blob : jsstr; fi_size : Z; fi_internalDate : Z; fi_flags : list jsstr }.
Record Filed := mkFiled { filed_id : Id; filed_mailbox : Id; filed_uid : Z; filed_modseq : Z }.

Definition fileLocalMessage (now : Z) (input : FileInput) : TX Filed :=
  mailbox ← lockOrCreateMailbox (fi_account input) (fi_mailbox input);
  let uid := mb_uidnext mailbox.2 in
  let modseq := mb_highestModseq mailbox.2 + 1 in
  id ← insertMessage (mkMessage mailbox.1 uid modseq (fi_blob input) (fi_size input) (fi_internalDate input) now (fi_flags input) None noColumns);
  _ ← updateCounters (uid + 1) modseq mailbox.1;
  mret (mkFiled id mailbox.1 uid modseq).
End filing.
