(* ===== verification/MailStore.v ===== *)
(** * MailStore: the writers of the mailboxes

    [apps/imap/src/store.ts], [moveMessages] and [removeMessage] of [apps/worker/src/scheduled/mailbox.ts], and
    [updateMessage] of [apps/api/src/mail/store.ts]. A method that reads before its transaction takes what it read
    as an argument. [now] is the time of the transaction. *)
From stdpp Require Import gmap sorting.
From S2P Require Import Prelude JsString JsStringFacts MailDb.

(** ** Reads *)

Record FlagRow := mkFlagRow { f_uid : Z; f_flags : list jsstr; f_modseq : Z }.
Definition flagRow (m : Message) : FlagRow := mkFlagRow (m_uid m) (m_flags m) (m_modseq m).

Definition probe (d : Db) (mailboxId : Id) : option (Z * Z) := (fun m => (mb_uidnext m, mb_highestModseq m)) <$> d_mailboxes d !! mailboxId.

Definition snapshot (d : Db) (mailboxId : Id) : list (Z * Z * bool) := (fun x => (m_uid x.2, m_modseq x.2, bool_decide (SEEN ∈ m_flags x.2))) <$> messagesOf d mailboxId.

Definition changedSince (d : Db) (mailboxId : Id) (modseq : Z) : list FlagRow := (fun x => flagRow x.2) <$> filter (fun x => modseq < m_modseq x.2) (messagesOf d mailboxId).

Definition expungedSince (d : Db) (mailboxId : Id) (modseq : Z) : list Z :=
  merge_sort Z.le ((fun x => x.1.2) <$> filter (fun x => x.1.1 = mailboxId /\ modseq < x.2) (map_to_list (d_expunged d))).

Definition uidsUpTo (d : Db) (mailboxId : Id) (maxUid : Z) : list Z := filter (fun u => u <= maxUid) ((fun x => m_uid x.2) <$> messagesOf d mailboxId).
Definition countUpTo (d : Db) (mailboxId : Id) (maxUid : Z) : nat := length (uidsUpTo d mailboxId maxUid).

Record MailboxCounts := mkCounts { n_messages : nat; n_unseen : nat; n_deleted : nat; n_size : Z }.
Definition counts (d : Db) (mailboxId : Id) : MailboxCounts :=
  let rows := snd <$> messagesOf d mailboxId in
  mkCounts (length rows) (length (filter (fun m => SEEN ∉ m_flags m) rows)) (length (filter (fun m => DELETED ∈ m_flags m) rows)) (foldr Z.add 0 (m_size <$> rows)).

(** ** Helpers *)

(** Strings as [Array.prototype.sort] orders them. *)
Fixpoint textBefore (a b : jsstr) : bool :=
  match a, b with
  | [], _ => true
  | _ :: _, [] => false
  | x :: a, y :: b => (x <? y) || ((x =? y) && textBefore a b)
  end.
Definition textLe (a b : jsstr) : Prop := textBefore a b = true.
#[export] Instance textLe_dec a b : Decision (textLe a b).
Proof. unfold textLe. apply _. Defined.
Definition sortTexts (l : list jsstr) : list jsstr := merge_sort textLe l.

(** The blobs whose last reference went. *)
Fixpoint releaseAll (shas : list jsstr) : TX (list jsstr) :=
  match shas with
  | [] => mret []
  | sha :: shas =>
      n ← release sha;
      gone ← releaseAll shas;
      mret (if n =? 0 then sha :: gone else gone)
  end.
Definition releaseBlobs (shas : list jsstr) : TX (list jsstr) := releaseAll (sortTexts shas).

Definition recordTraining (accountId : Id) (move : SortBucket * SortBucket) (via : Via) (messages : list (Id * jsstr)) : TX unit :=
  exec (onTraining (fun l => l ++ ((fun m => mkTraining accountId m.1 m.2 move.1 move.2 via) <$> messages))).

Definition assoc {A} (k : Z) (l : list (Z * A)) : option A := snd <$> List.find (fun x => x.1 =? k) l.

Section store.
Context `{R : Runtime} (uidValidity : Id -> Z) (now : Z).

(** The copies of the expunged blobs in other mailboxes, the newest first. *)
Definition newerFirst (a b : Id * Message) : Prop := m_receivedAt b.2 < m_receivedAt a.2 \/ (m_receivedAt a.2 = m_receivedAt b.2 /\ (a.1 <= b.1)%nat).
#[local] Instance newerFirst_dec a b : Decision (newerFirst a b).
Proof. unfold newerFirst. apply _. Defined.

Definition copiesOf (d : Db) (accountId sourceId : Id) (blobs : list jsstr) : list (Id * Message) :=
  merge_sort newerFirst (filter (fun x => m_mailbox x.2 <> sourceId /\ m_blob x.2 ∈ blobs /\ (mb_account <$> d_mailboxes d !! m_mailbox x.2) = Some accountId) (map_to_list (d_messages d))).

Fixpoint trainCopies (accountId : Id) (source : Mailbox) (copies : list (Id * Message)) (done_ : list jsstr) : TX unit :=
  match copies with
  | [] => mret tt
  | c :: copies =>
      if bool_decide (m_blob c.2 ∈ done_) then trainCopies accountId source copies done_
      else
        mb ← select (fun d => d_mailboxes d !! m_mailbox c.2);
        match mb with
        | None => trainCopies accountId source copies done_
        | Some mb =>
            match trainingMove (mb_name source) (mb_specialUse source) (mb_name mb) (mb_specialUse mb) with
            | None => trainCopies accountId source copies done_
            | Some move =>
                _ ← recordTraining accountId move ImapCopyExpunge [(c.1, m_blob c.2)];
                trainCopies accountId source copies (m_blob c.2 :: done_)
            end
        end
  end.

Definition recordCopyMoves (accountId sourceId : Id) (blobs : list jsstr) : TX unit :=
  source ← select (fun d => d_mailboxes d !! sourceId);
  match source with
  | Some source => if bool_decide (blobs = []) then mret tt else copies ← select (fun d => copiesOf d accountId sourceId blobs); trainCopies accountId source copies []
  | None => mret tt
  end.

(** ** Flags *)

Record StoreFlagsResult := mkStored { sr_rows : list FlagRow; sr_changed : list Z; sr_modified : list Z; sr_modseq : option Z }.

Definition staleFor (unchangedSince : option Z) (m : Message) : bool := match unchangedSince with Some u => u <? m_modseq m | None => false end.

Definition flagUpdates (op : StoreOperation) (flags : list jsstr) (unchangedSince : option Z) (current : list (Id * Message)) : list (Z * list jsstr) :=
  omap (fun x =>
    if staleFor unchangedSince x.2 then None
    else let next := applyFlags (m_flags x.2) op flags in if sameFlags next (m_flags x.2) then None else Some (m_uid x.2, next)) current.

Definition writeFlags (mailboxId : Id) (updates : list (Z * list jsstr)) (modseq : Z) : TX unit :=
  exec (onMessages (fmap (fun m => if bool_decide (m_mailbox m = mailboxId) then match assoc (m_uid m) updates with Some f => setFlags f modseq m | None => m end else m))).

Definition storeFlags (mailboxId : Id) (uids : list Z) (op : StoreOperation) (flags : list jsstr) (unchangedSince : option Z) : TX StoreFlagsResult :=
  if bool_decide (uids = []) then mret (mkStored [] [] [] None)
  else
    hm ← lockMailbox mailboxId;
    current ← select (fun d => rowsByUid d mailboxId uids);
    let modified := (fun x => m_uid x.2) <$> filter (fun x => staleFor unchangedSince x.2 = true) current in
    let updates := flagUpdates op flags unchangedSince current in
    let modseq := mb_highestModseq hm + 1 in
    let kept := snd <$> filter (fun x => m_uid x.2 ∉ modified) current in
    if bool_decide (updates = []) then mret (mkStored (flagRow <$> kept) [] modified None)
    else
      _ ← writeFlags mailboxId updates modseq;
      _ ← updateMailbox (setModseq modseq) mailboxId;
      _ ← notifyMailbox mailboxId;
      mret (mkStored ((fun m => match assoc (m_uid m) updates with Some f => mkFlagRow (m_uid m) f modseq | None => flagRow m end) <$> kept) updates.*1 modified (Some modseq)).

(** ** Expunge, copy, move, append *)

Definition expungeable (uids : option (list Z)) (m : Message) : bool :=
  bool_decide (DELETED ∈ m_flags m) && match uids with Some uids => bool_decide (m_uid m ∈ uids) | None => true end.

(** The UIDs removed, and the blobs to reap after the commit. *)
Definition expunge (accountId mailboxId : Id) (uids : option (list Z)) (reason : jsstr) : TX (list Z * list jsstr) :=
  if bool_decide (uids = Some []) then mret ([], [])
  else
    hm ← lockMailbox mailboxId;
    rows ← select (fun d => filter (fun x => expungeable uids x.2 = true) (messagesOf d mailboxId));
    _ ← deleteMessages rows.*1;
    if bool_decide (rows = []) then mret ([], [])
    else
      let shas := (fun x => m_blob x.2) <$> rows in
      _ ← recordCopyMoves accountId mailboxId shas;
      let modseq := mb_highestModseq hm + 1 in
      _ ← updateMailbox (setModseq modseq) mailboxId;
      gone ← releaseBlobs shas;
      let removedUids := merge_sort Z.le ((fun x => m_uid x.2) <$> rows) in
      _ ← recordExpunged mailboxId removedUids modseq;
      _ ← recordAudit (AuditExpunge accountId mailboxId removedUids reason);
      _ ← notifyMailbox mailboxId;
      mret (removedUids, gone).

Record CopyResult := mkCopied { cr_uidvalidity : Z; cr_pairs : list (Z * Z) }.

Definition copiedColumns (c : Columns) (c' : Columns) : Columns :=
  mkColumns (c_messageIdHeader c) (c_subject c) (c_fromAddress c) (c_fromName c) (c_snippet c) (c_toName c') (c_toCount c') (c_sentAt c) (c_inReplyTo c) (c_references c) (c_threadId c').

(** INSERT ... SELECT of the row of another message, if it has one. *)
Definition copySearch (from to : Id) : TX unit :=
  exec (onSearch (fun t => match t !! from with Some r => <[to := r]> t | None => t end)).
Definition copyVerdict (from to : Id) : TX unit :=
  exec (onVerdicts (fun t => match t !! from with Some r => <[to := mkVerdict (v_auth r) (v_attachments r) (v_bucket r) (v_reasons r) (js "{}")]> t | None => t end)).

Definition copyRow (target : Mailbox) (x : Id * Message) : TX (Z * Z) :=
  let m := x.2 in
  filed ← fileLocalMessage uidValidity now (mkFile (mb_account target) (mb_name target) (m_blob m) (m_size m) (m_internalDate m) (m_flags m));
  _ ← updateColumns (copiedColumns (m_columns m)) (filed_id filed);
  _ ← copySearch x.1 (filed_id filed);
  _ ← copyVerdict x.1 (filed_id filed);
  mret (m_uid m, filed_uid filed).

Definition countText (s : jsstr) (l : list jsstr) : Z := Z.of_nat (length (filter (fun x => x = s) l)).

Definition copy (sourceId : Id) (uids : list Z) (targetId : Id) : TX CopyResult :=
  target ← lockMailbox targetId;
  rows ← select (fun d => rowsByUid d sourceId uids);
  if bool_decide (rows = []) then mret (mkCopied (mb_uidvalidity target) [])
  else
    let shas := (fun x => m_blob x.2) <$> rows in
    _ ← forEach (sortTexts (remove_dups shas)) (fun sha => addReferences sha (countText sha shas));
    pairs ← traverse (copyRow target) rows;
    _ ← notifyMailbox targetId;
    mret (mkCopied (mb_uidvalidity target) pairs).

(** [UPDATE message SET mailbox_id, uid, modseq, inbound_message_id] of one row: null where the target has the inbound message already. *)
Definition moveRow (targetId : Id) (modseq : Z) (flags : list jsstr -> list jsstr) (id : Id) (uid : Z) : TX unit := fun d =>
  match d_messages d !! id with
  | None => Committed tt d
  | Some m =>
      let there := existsb (fun x => bool_decide (m_mailbox x.2 = targetId) && bool_decide (m_inbound x.2 = m_inbound m)) (map_to_list (d_messages d)) in
      putMessage id (rehome targetId uid modseq (flags (m_flags m)) (if there then None else m_inbound m) m) d
  end.

(** The UID each row gets. *)
Fixpoint moveRows (targetId : Id) (modseq : Z) (flags : list jsstr -> list jsstr) (rows : list (Id * Message)) (next : Z) : TX (list (Z * Z) * Z) :=
  match rows with
  | [] => mret ([], next)
  | r :: rows =>
      _ ← moveRow targetId modseq flags r.1 next;
      '(pairs, last) ← moveRows targetId modseq flags rows (next + 1);
      mret ((m_uid r.2, next) :: pairs, last)
  end.

Definition move (sourceId : Id) (uids : list Z) (targetId : Id) : TX CopyResult :=
  target ← lockMailbox targetId;
  source ← lockMailbox sourceId;
  rows ← select (fun d => rowsByUid d sourceId uids);
  if bool_decide (rows = []) then mret (mkCopied (mb_uidvalidity target) [])
  else
    let modseq := Z.max (mb_highestModseq target) (mb_highestModseq source) + 1 in
    '(pairs, next) ← moveRows targetId modseq id rows (mb_uidnext target);
    _ ← updateCounters next modseq targetId;
    _ ← (if bool_decide (sourceId = targetId) then mret tt else updateMailbox (setModseq modseq) sourceId);
    _ ← recordExpunged sourceId pairs.*1 modseq;
    _ ← match trainingMove (mb_name source) (mb_specialUse source) (mb_name target) (mb_specialUse target) with
        | Some t => recordTraining (mb_account source) t ImapMove ((fun x => (x.1, m_blob x.2)) <$> rows)
        | None => mret tt
        end;
    _ ← notifyMailbox targetId;
    _ ← (if bool_decide (sourceId = targetId) then mret tt else notifyMailbox sourceId);
    mret (mkCopied (mb_uidvalidity target) pairs).

Record Denormalised := mkDenorm {
  dn_messageIdHeader : option jsstr; dn_subject : option jsstr; dn_fromAddress : option jsstr; dn_fromName : option jsstr; dn_snippet : option (option jsstr);
  dn_sentAt : option Z; dn_inReplyTo : option jsstr; dn_references : list jsstr; dn_recipientAddresses : list jsstr }.

Definition denormColumns (n : Denormalised) (c : Columns) : Columns :=
  mkColumns (dn_messageIdHeader n) (dn_subject n) (dn_fromAddress n) (dn_fromName n) (default (c_snippet c) (dn_snippet n)) (c_toName c) (c_toCount c) (dn_sentAt n) (dn_inReplyTo n) (dn_references n) (c_threadId c).

Definition normalizeCorrespondentAddress (address : jsstr) : jsstr :=
  let trimmed := toLowerCase (trim address) in
  match lastIndexOf 0x40 trimmed with
  | None => trimmed
  | Some at_ =>
      let local := take at_ trimmed in
      let local := match indexOf 0x2b local with Some plus => take plus local | None => local end in
      local ++ [0x40] ++ dropEndWhile (fun c => c =? DOT) (drop (S at_) trimmed)
  end.

Definition upsertCorrespondent (accountId : Id) (sentAt : Z) (address : jsstr) : TX unit :=
  exec (onCorrespondents (fun t =>
    <[(accountId, address) := match t !! (accountId, address) with Some c => mkCorrespondent (co_first c) sentAt (co_count c + 1) | None => mkCorrespondent sentAt sentAt 1 end]> t)).

(** A Set keeps the first of equal addresses. *)
Definition harvestSentRecipients (accountId : Id) (addresses : list jsstr) (sentAt : Z) : TX unit :=
  forEach (filter (fun a => a <> []) (rev (remove_dups (rev (normalizeCorrespondentAddress <$> addresses))))) (upsertCorrespondent accountId sentAt).

Record AppendInput := mkAppend { ap_sha256 : jsstr; ap_size : Z; ap_flags : list jsstr; ap_internalDate : Z; ap_denorm : option Denormalised }.

Definition append (accountId mailboxId : Id) (input : AppendInput) : TX (Z * Z) :=
  mb ← lockMailbox mailboxId;
  _ ← (if bool_decide (mb_account mb = accountId) then mret tt else abort MailboxGone);
  filed ← fileLocalMessage uidValidity now (mkFile accountId (mb_name mb) (ap_sha256 input) (ap_size input) (ap_internalDate input) (normalizeFlags (ap_flags input)));
  _ ← match ap_denorm input with
      | Some denorm =>
          _ ← updateColumns (denormColumns denorm) (filed_id filed);
          if bool_decide (mb_specialUse mb = Some UseSent) && negb (bool_decide (dn_recipientAddresses denorm = []))
          then harvestSentRecipients accountId (dn_recipientAddresses denorm) (ap_internalDate input) else mret tt
      | None => mret tt
      end;
  _ ← notifyMailbox mailboxId;
  mret (filed_uid filed, mb_uidvalidity mb).

(** ** Mailboxes *)

Fixpoint createEach (accountId : Id) (name : jsstr) (specialUse : option SpecialUse) (names : list jsstr) : TX unit :=
  match names with
  | [] => mret tt
  | n :: names =>
      let use := if bool_decide (n = name) then specialUse else None in
      row ← insertMailbox uidValidity accountId n use 1 0;
      _ ← match row with
          | Some id => recordAudit (AuditCreate accountId id n use (uidValidity id))
          | None => if bool_decide (n = name) then abort Exists else mret tt
          end;
      createEach accountId name specialUse names
  end.
Definition createMailbox (accountId : Id) (name : jsstr) (specialUse : option SpecialUse) : TX unit := createEach accountId name specialUse (parentsOf name ++ [name]).

Fixpoint createParents (accountId : Id) (names skip : list jsstr) : TX unit :=
  match names with
  | [] => mret tt
  | p :: names =>
      _ ← (if bool_decide (p ∈ skip) then mret tt
           else
             row ← insertMailbox uidValidity accountId p None 1 0;
             match row with Some id => recordAudit (AuditImplied accountId id p) | None => mret tt end);
      createParents accountId names skip
  end.

Inductive DeleteResult := DeleteOk | DeleteNonexistent | DeleteInbox | DeleteSpecial | DeleteChildren.
Inductive RenameResult := RenameOk | RenameNonexistent | RenameExists | RenameIntoSelf.

Definition INBOX : jsstr := js "INBOX".

(** [mb] is what [findMailbox] read before the transaction. *)
Definition deleteMailbox (accountId : Id) (name : jsstr) (mb : option (Id * Mailbox)) : TX (DeleteResult * list jsstr) :=
  match mb with
  | None => mret (DeleteNonexistent, [])
  | Some (id, mb) =>
      if bool_decide (mb_name mb = INBOX) then mret (DeleteInbox, [])
      else if bool_decide (mb_specialUse mb <> None) then mret (DeleteSpecial, [])
      else
        locked ← select (fun d => d_mailboxes d !! id);
        if bool_decide (locked = None) then mret (DeleteNonexistent, [])
        else
          children ← select (fun d => existsb (fun x => bool_decide (mb_account x.2 = accountId) && isBelow name (mb_name x.2)) (map_to_list (d_mailboxes d)));
          if children : bool then mret (DeleteChildren, [])
          else
            rows ← select (fun d => messagesOf d id);
            _ ← deleteMessages rows.*1;
            gone ← releaseBlobs ((fun x => m_blob x.2) <$> rows);
            _ ← exec (fun d => onExpunged (filter (fun x => x.1.1 <> id)) (onMailboxes (delete id) d));
            _ ← recordAudit (AuditDelete accountId id (mb_name mb) (mb_uidvalidity mb) (length rows));
            _ ← notifyMailbox id;
            mret (DeleteOk, gone)
  end.

(** RENAME of INBOX: its messages go to a new mailbox. *)
Definition renameInbox (accountId : Id) (to : jsstr) (src : Id * Mailbox) (locked : Mailbox) : TX unit :=
  _ ← createParents accountId (parentsOf to) [];
  created ← insertMailbox uidValidity accountId to None (mb_uidnext src.2) (mb_highestModseq src.2);
  match created with
  | None => abort Exists
  | Some target =>
      moved ← select (fun d => (fun x => m_uid x.2) <$> messagesOf d src.1);
      _ ← exec (onMessages (fmap (fun m => if bool_decide (m_mailbox m = src.1) then rehome target (m_uid m) (m_modseq m) (m_flags m) (m_inbound m) m else m)));
      _ ← updateMailbox (fun m => setModseq (mb_highestModseq m + 1) m) src.1;
      _ ← recordExpunged src.1 moved (mb_highestModseq locked + 1);
      _ ← notifyMailbox src.1;
      _ ← notifyMailbox target;
      recordAudit (AuditRename accountId target INBOX to None)
  end.

Definition idBefore (a b : Id * Mailbox) : Prop := (a.1 <= b.1)%nat.
#[local] Instance idBefore_dec a b : Decision (idBefore a b).
Proof. unfold idBefore. apply _. Defined.

Definition renameTree (accountId : Id) (from to : jsstr) (src : Id) : TX unit :=
  moving ← select (fun d => merge_sort idBefore (filter (fun x => mb_account x.2 = accountId /\ (mb_name x.2 = from \/ isBelow from (mb_name x.2) = true)) (map_to_list (d_mailboxes d))));
  let renamed := (fun x => (x.1, to ++ drop (length from) (mb_name x.2))) <$> moving in
  clash ← select (fun d => existsb (fun x => bool_decide (mb_account x.2 = accountId) && bool_decide (mb_name x.2 ∈ renamed.*2)) (map_to_list (d_mailboxes d)));
  if clash : bool then abort Exists
  else
    _ ← forEach renamed (fun r => updateName r.2 r.1);
    _ ← createParents accountId (parentsOf to) renamed.*2;
    recordAudit (AuditRename accountId src from to (Some (length renamed - 1)%nat)).

(** [src] is what [findMailbox] read before the transaction. *)
Definition renameMailbox (accountId : Id) (from to : jsstr) (src : option (Id * Mailbox)) : TX RenameResult :=
  if bool_decide (from = to) then mret RenameExists
  else if negb (bool_decide (from = INBOX)) && isSelfOrChild to from then mret RenameIntoSelf
  else
    match src with
    | None => mret RenameNonexistent
    | Some src =>
        locked ← lockMailbox src.1;
        _ ← (if bool_decide (from = INBOX) then renameInbox accountId to src locked else renameTree accountId from to src.1);
        mret RenameOk
    end.

Definition setSubscribed (accountId : Id) (name : jsstr) (subscribed : bool) : TX bool :=
  row ← select (fun d => findMailbox d accountId name);
  match row with
  | Some (id, _) => _ ← updateMailbox (setSubscription subscribed) id; mret true
  | None => mret false
  end.

(** ** The scheduled loop's moves and removals ([mailbox.ts]) *)

Definition clearFlag (clear : bool) (flags : list jsstr) : list jsstr := if clear then filter (fun f => f <> SEEN) flags else flags.

Definition moveMessages (sourceId targetId : Id) (messageIds : list Id) (clearSeen : bool) : TX (list (Z * Z)) :=
  if bool_decide (messageIds = []) || bool_decide (sourceId = targetId) then mret []
  else
    source ← lockMailbox sourceId;
    target ← lockMailbox targetId;
    rows ← select (fun d => filter (fun x => x.1 ∈ messageIds) (messagesOf d sourceId));
    if bool_decide (rows = []) then mret []
    else
      let modseq := Z.max (mb_highestModseq target) (mb_highestModseq source) + 1 in
      '(moved, next) ← moveRows targetId modseq (clearFlag clearSeen) rows (mb_uidnext target);
      _ ← updateCounters next modseq targetId;
      _ ← updateMailbox (setModseq modseq) sourceId;
      _ ← recordExpunged sourceId ((fun x => m_uid x.2) <$> rows) modseq;
      _ ← notifyMailbox targetId;
      _ ← notifyMailbox sourceId;
      mret moved.

(** [message] is the row the caller read. Whether the blob went. *)
Definition removeMessage (id : Id) (message : Message) : TX bool :=
  mb ← lockMailbox (m_mailbox message);
  let modseq := mb_highestModseq mb + 1 in
  present ← select (fun d => bool_decide (is_Some (d_messages d !! id)));
  _ ← constraint (js "P2025") present;
  _ ← deleteMessages [id];
  _ ← updateMailbox (setModseq modseq) (m_mailbox message);
  _ ← recordExpunged (m_mailbox message) [m_uid message] modseq;
  n ← release (m_blob message);
  _ ← notifyMailbox (m_mailbox message);
  mret (n =? 0).

(** ** The webmail's change of a message ([updateMessage]) *)

Record UpdateInput := mkUpdate { u_account : Id; u_message : Id; u_ifMatch : option Z; u_add : list jsstr; u_remove : list jsstr; u_moveTo : option Id }.

Definition webFlags (input : UpdateInput) (flags : list jsstr) : list jsstr :=
  fold_left (fun fs f => if bool_decide (f ∉ fs) && bool_decide (f ∉ u_remove input) then fs ++ [f] else fs) (u_add input) (filter (fun f => f ∉ u_remove input) flags).

(** The row moves to another key. *)
Definition rekey {A} (from to : Id) (t : gmap Id A) : gmap Id A := match t !! from with Some r => <[to := r]> (delete from t) | None => t end.

(** The message after the change, or [None] when it is not the caller's. *)
Definition updateMessage (input : UpdateInput) : TX (option (Id * Message)) :=
  found ← select (fun d => m ← d_messages d !! u_message input; mb ← d_mailboxes d !! m_mailbox m; if bool_decide (mb_account mb = u_account input) then Some m else None);
  match found with
  | None => mret None
  | Some message =>
      source ← lockMailbox (m_mailbox message);
      let flags := webFlags input (m_flags message) in
      _ ← match u_ifMatch input with Some v => if v =? m_modseq message then mret tt else abort (PreconditionFailed (m_modseq message)) | None => mret tt end;
      match (if bool_decide (u_moveTo input = Some (m_mailbox message)) then None else u_moveTo input) with
      | None =>
          if bool_decide (flags = m_flags message) then mret (Some (u_message input, message))
          else
            let modseq := mb_highestModseq source + 1 in
            let updated := setFlags flags modseq message in
            _ ← exec (onMessages <[u_message input := updated]>);
            _ ← updateMailbox (setModseq modseq) (m_mailbox message);
            _ ← notifyMailbox (m_mailbox message);
            mret (Some (u_message input, updated))
      | Some moving =>
          target ← lockMailbox moving;
          let uid := mb_uidnext target in
          let modseq := mb_highestModseq target + 1 in
          let moved := rehome moving uid modseq flags (m_inbound message) message in
          id ← insertMessage moved;
          _ ← updateCounters (uid + 1) modseq moving;
          _ ← exec (fun d => onVerdicts (rekey (u_message input) id) (onSearch (rekey (u_message input) id) d));
          _ ← deleteMessages [u_message input];
          _ ← match trainingMove (mb_name source) (mb_specialUse source) (mb_name target) (mb_specialUse target) with
              | Some t => recordTraining (u_account input) t Web [(id, m_blob message)]
              | None => mret tt
              end;
          _ ← updateMailbox (setModseq (mb_highestModseq source + 1)) (m_mailbox message);
          _ ← notifyMailbox (m_mailbox message);
          _ ← notifyMailbox moving;
          mret (Some (id, moved))
      end
  end.
End store.
