(* ===== verification/MailStoreProofs.v ===== *)
(** * MailStoreProofs: what the writers of the mailboxes keep

    [Evolves] says how a mailbox may change; every operation but the webmail's move makes every mailbox evolve, and
    what IMAP promises follows from it: UIDs are never reused, and a client that resynchronises misses nothing. *)
From stdpp Require Import gmap sorting.
From S2P Require Import Prelude JsString JsStringFacts MailDb MailStore.

(** ** Runs of transactions *)

Lemma tx_bind_inv {A B} (m : TX A) (k : A -> TX B) d b d' : (x ← m; k x) d = Committed b d' -> exists a d1, m d = Committed a d1 /\ k a d1 = Committed b d'.
Proof. unfold mbind, TX_bind. destruct (m d) as [a d1|]; [|done]. by exists a, d1. Qed.

Lemma select_inv {A} (f : Db -> A) d a d' : select f d = Committed a d' -> a = f d /\ d' = d.
Proof. by intros [= <- <-]. Qed.

Lemma exec_inv f d a d' : exec f d = Committed a d' -> d' = f d.
Proof. by intros [= <- <-]. Qed.

Lemma tx_ret_inv {A} (x : A) d a d' : (mret x : TX A) d = Committed a d' -> a = x /\ d' = d.
Proof. by intros [= <- <-]. Qed.

Lemma constraint_inv n b d a d' : constraint n b d = Committed a d' -> b = true /\ d' = d.
Proof. unfold constraint. destruct b; [|done]. by intros [_ ->]%tx_ret_inv. Qed.

Lemma lock_inv i d m d' : lockMailbox i d = Committed m d' -> d_mailboxes d !! i = Some m /\ d' = d.
Proof. unfold lockMailbox. destruct (_ !! i); [|done]. by intros [= -> ->]. Qed.

(** One statement after the other. *)
Ltac steps H :=
  repeat match type of H with
    | (_ ≫= _) _ = Committed _ _ => let a := fresh "a" in let d := fresh "d" in let E := fresh "E" in apply tx_bind_inv in H as (a & d & E & H); steps E
    | select _ _ = Committed _ _ => apply select_inv in H as [-> ->]
    | exec _ _ = Committed _ _ => apply exec_inv in H as ->
    | mret _ _ = Committed _ _ => apply tx_ret_inv in H as [-> ->]
    | constraint _ _ _ = Committed _ _ => let C := fresh "C" in apply constraint_inv in H as [C ->]
    | lockMailbox _ _ = Committed _ _ => let L := fresh "L" in apply lock_inv in H as [L ->]
    | (let '(_, _) := ?x in _) _ = Committed _ _ => destruct x
    end.

(** ** The state of a mailbox *)

(** What a client sees of a message, and its content. *)
Record Seen := mkSeen { v_uid : Z; v_modseq : Z; v_flags : list jsstr; v_blob : jsstr }.
Definition seen (m : Message) : Seen := mkSeen (m_uid m) (m_modseq m) (m_flags m) (m_blob m).

Definition live (d : Db) (mb : Id) (v : Seen) : Prop := exists i m, d_messages d !! i = Some m /\ m_mailbox m = mb /\ v = seen m.

(** How a mailbox that stays may change. When [announced], a message that goes leaves a record. *)
Record Evolves (announced : bool) (d d' : Db) (mb : Id) (b b' : Mailbox) : Prop := {
  evolves_uidnext : mb_uidnext b <= mb_uidnext b';
  evolves_modseq : mb_highestModseq b <= mb_highestModseq b';
  evolves_live : forall v', live d' mb v' -> live d mb v' \/
    (mb_highestModseq b < v_modseq v' <= mb_highestModseq b' /\
     ((exists v, live d mb v /\ v_uid v = v_uid v' /\ v_blob v = v_blob v') \/ mb_uidnext b <= v_uid v' < mb_uidnext b'));
  evolves_lost : forall v, live d mb v -> (exists v', live d' mb v' /\ v_uid v' = v_uid v) \/
    (mb_highestModseq b < mb_highestModseq b' /\ (announced = true -> exists q, d_expunged d' !! (mb, v_uid v) = Some q /\ mb_highestModseq b < q));
  evolves_kept : forall u q, d_expunged d !! (mb, u) = Some q -> d_expunged d' !! (mb, u) = Some q;
  evolves_gone : forall u q, d_expunged d' !! (mb, u) = Some q -> d_expunged d !! (mb, u) = Some q \/
    (q <= mb_highestModseq b' /\ ((exists v, live d mb v /\ v_uid v = u) \/ mb_uidnext b <= u < mb_uidnext b') /\ forall v', live d' mb v' -> v_uid v' <> u)
}.

(** What holds of a mailbox at rest. *)
Record BoxOk (d : Db) (mb : Id) (b : Mailbox) : Prop := {
  box_uid : forall v, live d mb v -> 0 < v_uid v < mb_uidnext b;
  box_modseq : forall v, live d mb v -> v_modseq v <= mb_highestModseq b;
  box_gone : forall u q, d_expunged d !! (mb, u) = Some q -> u < mb_uidnext b /\ q <= mb_highestModseq b /\ forall v, live d mb v -> v_uid v <> u;
  box_next : 0 < mb_uidnext b
}.

Lemma Evolves_refl an d mb b : Evolves an d d mb b b.
Proof. split; [lia|lia|by left| |done|by left]. intros v Hv. left. by exists v. Qed.

Lemma BoxOk_evolves an d d' mb b b' : Evolves an d d' mb b b' -> BoxOk d mb b -> BoxOk d' mb b'.
Proof.
  intros [E1 E2 E3 E4 E5 E6] [B1 B2 B3 B4]. split; [| | |lia].
  - intros v' [Hv|(Hq & [(v & Hv & Hu & _)|Hu])]%E3; [specialize (B1 _ Hv); lia|specialize (B1 _ Hv); lia|lia].
  - intros v' [Hv|(Hq & _)]%E3; [specialize (B2 _ Hv); lia|lia].
  - intros u q [Hq|(Hq & Hu & Hn)]%E6.
    + destruct (B3 u q Hq) as (H1 & H2 & H3). split_and!; [lia|lia|]. intros v' [Hv|(_ & [(v & Hv & Hu & _)|Hu])]%E3; [by apply H3|rewrite <- Hu; by apply H3|lia].
    + split_and!; [destruct Hu as [(v & Hv & <-)|Hu]; [specialize (B1 _ Hv)|]; lia|lia|done].
Qed.

Lemma Evolves_trans an1 an2 d1 d2 d3 mb b1 b2 b3 : BoxOk d1 mb b1 -> Evolves an1 d1 d2 mb b1 b2 -> Evolves an2 d2 d3 mb b2 b3 -> Evolves (an1 && an2) d1 d3 mb b1 b3.
Proof.
  intros HB [E1 E2 E3 E4 E5 E6] [F1 F2 F3 F4 F5 F6]. split; [lia|lia| | |by eauto|].
  - intros v3 [[Hv|(Hq & Hu)]%E3|(Hq & [(v2 & Hv2 & Eu & Eb)|Hu])]%F3; [by left|right; split; [lia|]| |right; split; [lia|right; lia]].
    + destruct Hu as [Hu|Hu]; [by left|right; lia].
    + right. split; [lia|]. apply E3 in Hv2 as [Hv2|(_ & [(v1 & Hv1 & Eu1 & Eb1)|Hu])]; [left; by exists v2|left; exists v1; split_and!; [done|congruence|congruence]|right; lia].
  - intros v1 Hv1. destruct (E4 v1 Hv1) as [(v2 & Hv2 & Eu)|(Hlt & Hq)].
    + destruct (F4 v2 Hv2) as [(v3 & Hv3 & Eu3)|(Hlt & Hq)]; [left; exists v3; split; [done|congruence]|]. right. split; [lia|]. intros [_ Han]%andb_true_iff. destruct (Hq Han) as (q & Hq' & Hlt'). exists q. rewrite <- Eu. split; [done|lia].
    + right. split; [lia|]. intros [Han _]%andb_true_iff. destruct (Hq Han) as (q & Hq' & Hlt'). exists q. split; [by apply F5|lia].
  - intros u q [[Hq|(Hq & Hu & Hn)]%E6|(Hq & Hu & Hn)]%F6; [by left|right; split_and!; [lia| |]|right; split_and!; [done| |done]].
    + destruct Hu as [Hu|Hu]; [by left|right; lia].
    + intros v3 [Hv3|(_ & [(v2 & Hv2 & Eu & _)|Hu3])]%F3; [by apply Hn|rewrite <- Eu; by apply Hn|].
      destruct Hu as [(v1 & Hv1 & <-)|Hu]; [pose proof (box_uid _ _ _ HB _ Hv1); lia|lia].
    + destruct Hu as [(v2 & Hv2 & <-)|Hu]; [|right; lia]. apply E3 in Hv2 as [Hv2|(_ & [(v1 & Hv1 & Eu & _)|Hu])]; [left; by exists v2|left; by exists v1|right; lia].
Qed.

(** ** The database at rest *)

Definition UniqueUids (ms : gmap Id Message) : Prop := forall i j m m', ms !! i = Some m -> ms !! j = Some m' -> m_mailbox m = m_mailbox m' -> m_uid m = m_uid m' -> i = j.
Definition NamesOk (ms : gmap Id Mailbox) : Prop := forall mb mb' b b', ms !! mb = Some b -> ms !! mb' = Some b' -> mb_account b = mb_account b' -> mb_name b = mb_name b' -> mb = mb'.

Record Structure (d : Db) : Prop := {
  ok_home : forall i m, d_messages d !! i = Some m -> is_Some (d_mailboxes d !! m_mailbox m);
  ok_gone : forall mb u q, d_expunged d !! (mb, u) = Some q -> is_Some (d_mailboxes d !! mb);
  ok_unique : UniqueUids (d_messages d);
  ok_fresh : forall mb, is_Some (d_mailboxes d !! mb) -> (mb < d_fresh d)%nat;
  ok_fresh_message : forall i, is_Some (d_messages d !! i) -> (i < d_fresh d)%nat;
  ok_names : NamesOk (d_mailboxes d)
}.

Record DbOk (d : Db) : Prop := { ok_structure : Structure d; ok_boxes : forall mb b, d_mailboxes d !! mb = Some b -> BoxOk d mb b }.

(** What an operation makes of a database at rest. *)
Record Step (an : bool) (d d' : Db) : Prop := {
  step_ok : DbOk d';
  step_fresh : (d_fresh d <= d_fresh d')%nat;
  step_box : forall mb b', d_mailboxes d' !! mb = Some b' -> (exists b, d_mailboxes d !! mb = Some b /\ Evolves an d d' mb b b') \/ (d_fresh d <= mb)%nat
}.

Definition Moves {A} (an : bool) (m : TX A) : Prop := forall d a d', DbOk d -> m d = Committed a d' -> Step an d d'.

Lemma Evolves_weaken an d d' mb b b' : Evolves true d d' mb b b' -> Evolves an d d' mb b b'.
Proof. intros [E1 E2 E3 E4 E5 E6]. split; [done|done|done| |done|done]. intros v Hv. destruct (E4 v Hv) as [?|[Hlt Hq]]; [by left|right; split; [done|auto]]. Qed.

Lemma Step_refl an d : DbOk d -> Step an d d.
Proof. intros Hd. split; [done|lia|]. intros mb b Hb. left. exists b. split; [done|apply Evolves_refl]. Qed.

Lemma Step_trans an1 an2 d1 d2 d3 : DbOk d1 -> Step an1 d1 d2 -> Step an2 d2 d3 -> Step (an1 && an2) d1 d3.
Proof.
  intros Hd [S1 S2 S3] [T1 T2 T3]. split; [done|lia|]. intros mb b3 H3. destruct (T3 mb b3 H3) as [(b2 & H2 & E2)|?]; [|right; lia]. destruct (S3 mb b2 H2) as [(b1 & H1 & E1)|?]; [|by right].
  left. exists b1. split; [done|]. by eapply Evolves_trans; [apply Hd|..].
Qed.

Lemma Moves_bind {A B} an (m : TX A) (k : A -> TX B) : Moves an m -> (forall a, Moves an (k a)) -> Moves an (x ← m; k x).
Proof.
  intros Hm Hk d b d' Hd (a & d1 & E1 & E2)%tx_bind_inv. pose proof (Hm _ _ _ Hd E1) as H1. pose proof (Hk _ _ _ _ (step_ok _ _ _ H1) E2) as H2. rewrite <- (andb_diag an). by eapply Step_trans.
Qed.

Lemma Moves_ret {A} an (x : A) : Moves an (mret x).
Proof. intros d a d' Hd [-> ->]%tx_ret_inv. by apply Step_refl. Qed.
Lemma Moves_abort {A} an e : Moves an (abort (A := A) e).
Proof. by intros d a d' Hd. Qed.
Lemma Moves_select {A} an (f : Db -> A) : Moves an (select f).
Proof. intros d a d' Hd [-> ->]%select_inv. by apply Step_refl. Qed.
Lemma Moves_lock an i : Moves an (lockMailbox i).
Proof. intros d a d' Hd [_ ->]%lock_inv. by apply Step_refl. Qed.
Lemma Moves_forEach {A} an (l : list A) f : (forall x, Moves an (f x)) -> Moves an (forEach l f).
Proof. intros Hf. induction l as [|x l IH]; [apply Moves_ret|]. by apply Moves_bind. Qed.
Lemma Moves_traverse {A B} an (l : list A) (f : A -> TX B) : (forall x, Moves an (f x)) -> Moves an (traverse f l).
Proof. intros Hf. induction l as [|x l IH]; [apply Moves_ret|]. apply Moves_bind; [done|]. intros y. apply Moves_bind; [done|]. intros ys. apply Moves_ret. Qed.

#[export] Hint Resolve Moves_ret Moves_abort Moves_select Moves_lock : mail.

(** The databases that differ in nothing a mailbox shows. *)
Record SameMail (d d' : Db) : Prop := {
  same_mailboxes : d_mailboxes d' = d_mailboxes d;
  same_expunged : d_expunged d' = d_expunged d;
  same_fresh : d_fresh d' = d_fresh d;
  same_messages : forall i, (fun m => (m_mailbox m, seen m)) <$> d_messages d' !! i = (fun m => (m_mailbox m, seen m)) <$> d_messages d !! i
}.

Lemma same_message d d' i m' : SameMail d d' -> d_messages d' !! i = Some m' -> exists m, d_messages d !! i = Some m /\ m_mailbox m = m_mailbox m' /\ seen m = seen m'.
Proof. intros [_ _ _ H] Hi. specialize (H i). rewrite Hi in H. destruct (d_messages d !! i) as [m|]; [|done]. cbn in H. exists m. split; [done|]. split; congruence. Qed.

Lemma SameMail_live d d' mb v : SameMail d d' -> live d' mb v -> live d mb v.
Proof. intros HS (i & m' & Hi & <- & ->). destruct (same_message _ _ _ _ HS Hi) as (m & Hm & E1 & E2). by exists i, m. Qed.

Lemma SameMail_sym d d' : SameMail d d' -> SameMail d' d.
Proof. intros [H1 H2 H3 H4]. by split. Qed.
Lemma SameMail_refl d : SameMail d d.
Proof. by split. Qed.
Lemma SameMail_trans d1 d2 d3 : SameMail d1 d2 -> SameMail d2 d3 -> SameMail d1 d3.
Proof. intros [H1 H2 H3 H4] [K1 K2 K3 K4]. split; [congruence..|]. intros i. by rewrite K4. Qed.

(** A mailbox none of whose messages and records change. *)
Lemma Evolves_same an d d' mb b b' : mb_uidnext b' = mb_uidnext b -> mb_highestModseq b <= mb_highestModseq b' -> (forall v, live d' mb v <-> live d mb v) ->
  (forall u, d_expunged d' !! (mb, u) = d_expunged d !! (mb, u)) -> Evolves an d d' mb b b'.
Proof.
  intros H1 H2 H3 H4. split; [lia|done|by intros v Hv; left; apply H3| | |].
  - intros v Hv. left. exists v. split; [by apply H3|done].
  - intros u q. by rewrite H4.
  - intros u q. rewrite H4. by left.
Qed.

Lemma SameMail_structure d d' : SameMail d d' -> Structure d -> Structure d'.
Proof.
  intros HS [H1 H2 H3 H4 H5 H6]. split; rewrite ?(same_mailboxes _ _ HS), ?(same_expunged _ _ HS), ?(same_fresh _ _ HS); [| |intros i j m m' Hi Hj| | |]; [|done| |done| |done].
  - intros i m Hi. destruct (same_message _ _ _ _ HS Hi) as (m0 & Hm & <- & _). by eapply H1.
  - destruct (same_message _ _ _ _ HS Hi) as (m0 & Hm & <- & E), (same_message _ _ _ _ HS Hj) as (m0' & Hm' & <- & E'). intros Hmb Hu. eapply H3; [done..|]. unfold seen in *. congruence.
  - intros i [m' Hi]. destruct (same_message _ _ _ _ HS Hi) as (m & Hm & _). apply H5. by eexists.
Qed.

Lemma Step_same an d d' : DbOk d -> SameMail d d' -> Step an d d'.
Proof.
  intros [Hs Hb] HS. assert (HE : forall mb b, d_mailboxes d !! mb = Some b -> Evolves an d d' mb b b).
  { intros mb b _. apply Evolves_same; [done|lia| |by rewrite (same_expunged _ _ HS)]. intros v. split; apply SameMail_live; [done|by apply SameMail_sym]. }
  split.
  - split; [by eapply SameMail_structure|]. intros mb b. rewrite (same_mailboxes _ _ HS). intros Hmb. eapply BoxOk_evolves; [by apply HE|by apply Hb].
  - by rewrite (same_fresh _ _ HS).
  - intros mb b. rewrite (same_mailboxes _ _ HS). intros Hmb. left. exists b. split; [done|by apply HE].
Qed.

(** Operations that touch no mailbox. *)
Definition Quiet {A} (m : TX A) : Prop := forall d a d', m d = Committed a d' -> SameMail d d'.

Lemma Quiet_moves {A} an (m : TX A) : Quiet m -> Moves an m.
Proof. intros Hm d a d' Hd E. by eapply Step_same, Hm. Qed.
Lemma Quiet_bind {A B} (m : TX A) (k : A -> TX B) : Quiet m -> (forall a, Quiet (k a)) -> Quiet (x ← m; k x).
Proof. intros Hm Hk d b d' (a & d1 & E1 & E2)%tx_bind_inv. eapply SameMail_trans; [by eapply Hm|by eapply Hk]. Qed.
Lemma Quiet_ret {A} (x : A) : Quiet (mret x).
Proof. intros d a d' [_ ->]%tx_ret_inv. apply SameMail_refl. Qed.
Lemma Quiet_abort {A} e : Quiet (abort (A := A) e).
Proof. by intros d a d'. Qed.
Lemma Quiet_select {A} (f : Db -> A) : Quiet (select f).
Proof. intros d a d' [_ ->]%select_inv. apply SameMail_refl. Qed.
Lemma Quiet_lock i : Quiet (lockMailbox i).
Proof. intros d a d' [_ ->]%lock_inv. apply SameMail_refl. Qed.
Lemma Quiet_exec f : (forall d, SameMail d (f d)) -> Quiet (exec f).
Proof. intros Hf d a d' ->%exec_inv. apply Hf. Qed.
Lemma Quiet_constraint n b : Quiet (constraint n b).
Proof. unfold constraint. destruct b; [apply Quiet_ret|apply Quiet_abort]. Qed.
Lemma Quiet_forEach {A} (l : list A) f : (forall x, Quiet (f x)) -> Quiet (forEach l f).
Proof. intros Hf. induction l as [|x l IH]; [apply Quiet_ret|]. by apply Quiet_bind. Qed.

Lemma Quiet_notify i : Quiet (notifyMailbox i).
Proof. by apply Quiet_exec. Qed.
Lemma Quiet_audit e : Quiet (recordAudit e).
Proof. by apply Quiet_exec. Qed.
Lemma Quiet_training a m v l : Quiet (recordTraining a m v l).
Proof. by apply Quiet_exec. Qed.
Lemma Quiet_references s n : Quiet (addReferences s n).
Proof. by apply Quiet_exec. Qed.
Lemma Quiet_columns f i : Quiet (updateColumns f i).
Proof.
  apply Quiet_exec. intros d. split; [done..|]. intros j. cbn. destruct (decide (i = j)) as [->|]; [|by rewrite lookup_alter_ne]. rewrite lookup_alter_eq. by destruct (d_messages d !! j).
Qed.
Lemma Quiet_putBlob s : Quiet (putBlob s).
Proof. intros d a d'. unfold putBlob. destruct (_ !! s); intros [= _ <-]; by split. Qed.
Lemma Quiet_release s : Quiet (release s).
Proof.
  intros d a d'. unfold release. destruct (_ !! s) as [n|]; [|done]. destruct (n <=? 1); [|intros [= _ <-]; by split]. intros H. steps H. by split.
Qed.
#[export] Hint Resolve Quiet_ret Quiet_abort Quiet_select Quiet_lock Quiet_constraint Quiet_notify Quiet_audit Quiet_training Quiet_references Quiet_columns Quiet_putBlob Quiet_release Quiet_bind Quiet_moves : mail.

Lemma Quiet_releaseAll l : Quiet (releaseAll l).
Proof. induction l as [|s l IH]; cbn; auto 6 with mail. Qed.
Lemma Quiet_trainCopies `{R : Runtime} a src l seen_ : Quiet (trainCopies a src l seen_).
Proof.
  revert seen_. induction l as [|c l IH]; intros seen_; cbn; [auto with mail|]. case_match; [done|]. apply Quiet_bind; [auto with mail|]. intros [mb|]; [|done]. case_match; auto with mail.
Qed.
Lemma Quiet_copyMoves `{R : Runtime} a src l : Quiet (recordCopyMoves a src l).
Proof.
  unfold recordCopyMoves. apply Quiet_bind; [auto with mail|]. intros [s|]; [|auto with mail]. case_match; [auto with mail|]. apply Quiet_bind; [auto with mail|]. intros. apply Quiet_trainCopies.
Qed.
#[export] Hint Resolve Quiet_releaseAll Quiet_trainCopies Quiet_copyMoves : mail.

(** ** Rows and records *)

Lemma elem_messagesOf d mb x : x ∈ messagesOf d mb <-> d_messages d !! x.1 = Some x.2 /\ m_mailbox x.2 = mb.
Proof. unfold messagesOf. rewrite merge_sort_Permutation, list_elem_of_filter. destruct x as [i m]. rewrite elem_of_map_to_list. cbn. tauto. Qed.

Lemma NoDup_messagesOf d mb : NoDup (messagesOf d mb).*1.
Proof. unfold messagesOf. rewrite merge_sort_Permutation. eapply sublist_NoDup; [apply (NoDup_fst_map_to_list (d_messages d))|]. apply fmap_sublist, sublist_filter. Qed.

Lemma elem_rowsByUid d mb uids x : x ∈ rowsByUid d mb uids <-> d_messages d !! x.1 = Some x.2 /\ m_mailbox x.2 = mb /\ m_uid x.2 ∈ uids.
Proof. unfold rowsByUid. rewrite list_elem_of_filter, elem_messagesOf. tauto. Qed.

Lemma NoDup_fst_filter (P : Id * Message -> Prop) `{!forall x, Decision (P x)} (l : list (Id * Message)) : NoDup l.*1 -> NoDup (filter P l).*1.
Proof. intros HN. eapply sublist_NoDup; [exact HN|]. apply fmap_sublist, sublist_filter. Qed.

Definition expunging (mb : Id) (uids : list Z) (q : Z) (e : gmap (Id * Z) Z) : gmap (Id * Z) Z :=
  fold_left (fun e uid => match e !! (mb, uid) with Some _ => e | None => <[(mb, uid) := q]> e end) uids e.

Lemma expunging_lookup mb uids q e k : expunging mb uids q e !! k = match e !! k with Some x => Some x | None => if bool_decide (k.1 = mb /\ k.2 ∈ uids) then Some q else None end.
Proof.
  unfold expunging. revert e. induction uids as [|u uids IH]; intros e; cbn.
  - rewrite bool_decide_eq_false_2; [by destruct (e !! k)|]. by intros [_ ?%not_elem_of_nil].
  - rewrite IH. destruct k as [mb' u']. cbn. destruct (e !! (mb, u)) as [y|] eqn:Ey.
    + destruct (e !! (mb', u')) eqn:E; [done|]. erewrite bool_decide_ext; [done|]. rewrite elem_of_cons. split; [tauto|]. intros [-> [->|]]; [congruence|done].
    + destruct (decide ((mb, u) = (mb', u'))) as [[= <- <-]|Hne].
      * rewrite lookup_insert_eq, Ey. rewrite bool_decide_eq_true_2; [done|]. split; [done|left].
      * rewrite lookup_insert_ne by done. destruct (e !! (mb', u')); [done|]. erewrite bool_decide_ext; [done|]. rewrite elem_of_cons. split; [tauto|]. intros [-> [->|]]; [done|done].
Qed.

(** ** Parts of the structure *)

Lemma alter_lookup (f : Mailbox -> Mailbox) mb (ms : gmap Id Mailbox) j b' : alter f mb ms !! j = Some b' -> exists b, ms !! j = Some b /\ ((j = mb /\ b' = f b) \/ (j <> mb /\ b' = b)).
Proof.
  destruct (decide (mb = j)) as [->|Hne]; [rewrite lookup_alter_eq|rewrite lookup_alter_ne by done]; intros H.
  - destruct (ms !! j) as [b|]; [|done]. exists b. injection H as <-. split; [done|by left].
  - exists b'. split; [done|right]. by split.
Qed.

Lemma NamesOk_alter f mb ms : (forall b, mb_account (f b) = mb_account b /\ mb_name (f b) = mb_name b) -> NamesOk ms -> NamesOk (alter f mb ms).
Proof.
  intros Hf HN i j b b' (c & Hc & Ec)%alter_lookup (c' & Hc' & Ec')%alter_lookup Ha Hn. eapply HN; [done|done| |]; destruct Ec as [[-> ->]|[_ ->]], Ec' as [[-> ->]|[_ ->]]; rewrite ?(proj1 (Hf _)), ?(proj2 (Hf _)) in *; congruence.
Qed.

Lemma alter_is_Some (f : Mailbox -> Mailbox) mb (ms : gmap Id Mailbox) j : is_Some (alter f mb ms !! j) <-> is_Some (ms !! j).
Proof. destruct (decide (mb = j)) as [->|Hne]; [rewrite lookup_alter_eq|by rewrite lookup_alter_ne]. by rewrite fmap_is_Some. Qed.

(** Fewer messages. *)
Definition Fewer (d d' : Db) : Prop := forall i m, d_messages d' !! i = Some m -> d_messages d !! i = Some m.

(** A message that is new or has changed in place. *)
Lemma Structure_messages d d' :
  Structure d -> (forall j, is_Some (d_mailboxes d' !! j) <-> is_Some (d_mailboxes d !! j)) -> NamesOk (d_mailboxes d') -> d_fresh d' = d_fresh d ->
  (forall i m', d_messages d' !! i = Some m' -> exists m, d_messages d !! i = Some m /\ m_mailbox m' = m_mailbox m /\ m_uid m' = m_uid m) ->
  (forall mb u, is_Some (d_expunged d' !! (mb, u)) -> is_Some (d_expunged d !! (mb, u)) \/ is_Some (d_mailboxes d !! mb)) -> Structure d'.
Proof.
  intros [H1 H2 H3 H4 H5 H6] Hmb HN Hf Hm He. split.
  - intros i m' (m & Hi & -> & _)%Hm. apply Hmb. by eapply H1.
  - intros mb u q Hq. apply Hmb. destruct (He mb u) as [[q' Hq']|]; [by eexists|by eapply H2|done].
  - intros i j m m' (m0 & Hi & E1 & E2)%Hm (m0' & Hj & E1' & E2')%Hm Hmm Hu. eapply H3; [done..|congruence|congruence].
  - intros mb Hb. rewrite Hf. by apply H4, Hmb.
  - intros i [m' (m & Hi & _)%Hm]. rewrite Hf. apply H5. by eexists.
  - exact HN.
Qed.

(** A step where every mailbox stays. *)
Lemma Step_intro an d d' : DbOk d -> Structure d' -> (d_fresh d <= d_fresh d')%nat ->
  (forall mb b', d_mailboxes d' !! mb = Some b' -> (exists b, d_mailboxes d !! mb = Some b /\ Evolves an d d' mb b b') \/ ((d_fresh d <= mb)%nat /\ BoxOk d' mb b')) -> Step an d d'.
Proof.
  intros [Hs Hb] Hs' Hf H. split; [|done|].
  - split; [done|]. intros mb b' Hmb. destruct (H mb b' Hmb) as [(b & Hb0 & HE)|[_ HB]]; [|done]. eapply BoxOk_evolves; [exact HE|by apply Hb].
  - intros mb b' Hmb. destruct (H mb b' Hmb) as [?|[? _]]; [by left|by right].
Qed.

Lemma DbOk_names d : DbOk d -> NamesOk (d_mailboxes d).
Proof. intros [Hs _]. exact (ok_names _ Hs). Qed.

(** A step that changes the rows of one mailbox. *)
Lemma Step_one an d d' mb b g :
  DbOk d -> Structure d' -> d_fresh d' = d_fresh d -> d_mailboxes d !! mb = Some b -> d_mailboxes d' = alter g mb (d_mailboxes d) ->
  (forall j v, j <> mb -> live d' j v <-> live d j v) -> (forall j u, j <> mb -> d_expunged d' !! (j, u) = d_expunged d !! (j, u)) -> Evolves an d d' mb b (g b) -> Step an d d'.
Proof.
  intros Hd Hs Hf Hb Hm Hl He HE. apply Step_intro; [done|done|lia|]. intros j b' Hj. left. rewrite Hm in Hj. apply alter_lookup in Hj as (b0 & Hj & [[-> ->]|[Hne ->]]).
  - exists b0. split; [done|]. by simplify_eq.
  - exists b0. split; [done|]. apply Evolves_same; [done|lia|intros v; by apply Hl|intros u; by apply He].
Qed.

(** ** Flags *)

Section flags.
Context `{R : Runtime}.

Lemma writeFlags_step an d mb b updates q d' : DbOk d -> d_mailboxes d !! mb = Some b -> q = mb_highestModseq b + 1 ->
  d_mailboxes d' = alter (setModseq q) mb (d_mailboxes d) -> d_expunged d' = d_expunged d -> d_fresh d' = d_fresh d ->
  d_messages d' = (fun m => if bool_decide (m_mailbox m = mb) then match assoc (m_uid m) updates with Some f => setFlags f q m | None => m end else m) <$> d_messages d -> Step an d d'.
Proof.
  intros Hd Hb -> Hm He Hf Hg. set (upd := fun m => _) in Hg.
  assert (Hupd : forall m, m_mailbox (upd m) = m_mailbox m /\ m_uid (upd m) = m_uid m /\ m_blob (upd m) = m_blob m) by (intros m; unfold upd; by repeat case_match).
  assert (Hi : forall i m', d_messages d' !! i = Some m' -> exists m, d_messages d !! i = Some m /\ m' = upd m). { intros i m' Hi. rewrite Hg, lookup_fmap in Hi. destruct (d_messages d !! i) as [m|]; [|done]. injection Hi as <-. by exists m. }
  eapply Step_one; [done| |done|done|done| |by rewrite He|].
  - eapply Structure_messages; [apply Hd|intros j; rewrite Hm; apply alter_is_Some|rewrite Hm; apply NamesOk_alter; [done|by apply DbOk_names]|done| |].
    + intros i m' (m & Hm0 & ->)%Hi. exists m. split; [done|]. split; apply Hupd.
    + intros j u. rewrite He. by left.
  - assert (Hother : forall j m, j <> mb -> m_mailbox m = j -> upd m = m) by (intros j m Hj <-; unfold upd; by rewrite bool_decide_eq_false_2).
    intros j v Hj. split; intros (i & m & Hm0 & Hmb & ->).
    + apply Hi in Hm0 as (m0 & Hm0 & ->). rewrite (proj1 (Hupd m0)) in Hmb. exists i, m0. split_and!; [done|done|]. by rewrite (Hother j).
    + exists i, (upd m). rewrite Hg, lookup_fmap, Hm0. split_and!; [done|by rewrite (proj1 (Hupd m))|]. by rewrite (Hother j).
  - assert (Hin : forall i m, d_messages d !! i = Some m -> m_mailbox m = mb -> live d' mb (seen (upd m))). { intros i m Hm0 Hmb. exists i, (upd m). rewrite Hg, lookup_fmap, Hm0. split_and!; [done|by rewrite (proj1 (Hupd m))|done]. }
    split; cbn; [lia|lia| | |by rewrite He|rewrite He; by left].
    + intros v' (i & m' & (m & Hm0 & ->)%Hi & Hmb & ->). rewrite (proj1 (Hupd m)) in Hmb. unfold upd. rewrite bool_decide_eq_true_2 by done. destruct (assoc (m_uid m) updates) as [fl|]; [|left; by exists i, m].
      right. cbn. split; [lia|]. left. exists (seen m). split; [by exists i, m|done].
    + intros v (i & m & Hm0 & Hmb & ->). left. exists (seen (upd m)). split; [by eapply Hin|]. cbn. apply Hupd.
Qed.

Lemma storeFlags_moves an mb uids op fl since : Moves an (storeFlags mb uids op fl since).
Proof.
  intros d a d' Hd. unfold storeFlags. case_bool_decide; [intros [_ ->]%tx_ret_inv; by apply Step_refl|]. intros H0. steps H0. case_bool_decide; steps H0; [by apply Step_refl|].
  unfold writeFlags, updateMailbox, notifyMailbox in *. steps E. steps E0. steps E1. eapply writeFlags_step; done.
Qed.
End flags.

(** ** Removals *)

Lemma live_fewer d d' mb v : Fewer d d' -> live d' mb v -> live d mb v.
Proof. intros HF (i & m & Hi & H). exists i, m. split; [by apply HF|done]. Qed.

Lemma removal_step an d mb b (rows : list (Id * Message)) uids q d' : DbOk d -> d_mailboxes d !! mb = Some b -> q = mb_highestModseq b + 1 ->
  (forall x, x ∈ rows -> d_messages d !! x.1 = Some x.2 /\ m_mailbox x.2 = mb) -> (forall u, u ∈ uids <-> exists x, x ∈ rows /\ m_uid x.2 = u) ->
  d_mailboxes d' = alter (setModseq q) mb (d_mailboxes d) -> d_expunged d' = expunging mb uids q (d_expunged d) -> d_fresh d' = d_fresh d ->
  d_messages d' = filter (fun x => x.1 ∉ rows.*1) (d_messages d) -> Step an d d'.
Proof.
  intros Hd Hb -> Hrows Huids Hm He Hf Hg.
  assert (Hi : forall i m, d_messages d' !! i = Some m <-> d_messages d !! i = Some m /\ i ∉ rows.*1) by (intros i m; by rewrite Hg, map_lookup_filter_Some).
  assert (HF : Fewer d d') by (intros i m [? _]%Hi; done). assert (Hbox : BoxOk d mb b) by (by apply Hd).
  assert (Hgone : forall i m, d_messages d !! i = Some m -> i ∈ rows.*1 -> (i, m) ∈ rows). { intros i m Hi0 ([i' m'] & -> & Hx)%list_elem_of_fmap. destruct (Hrows _ Hx) as [Hr _]. cbn in *. by simplify_eq. }
  assert (Hother : forall j v, j <> mb -> live d' j v <-> live d j v).
  { intros j v Hj. split; [by apply live_fewer|]. intros (i & m & Hi0 & Hmb & ->). exists i, m. split; [|done]. apply Hi. split; [done|]. intros Hin. destruct (Hrows _ (Hgone _ _ Hi0 Hin)) as [_ E]. cbn in E. congruence. }
  eapply Step_one; [done| |done|done|done|done| |].
  - eapply Structure_messages; [apply Hd|intros j; rewrite Hm; apply alter_is_Some|rewrite Hm; apply NamesOk_alter; [done|by apply DbOk_names]|done|intros i m Hi0; exists m; split; [by apply HF|done]|].
    intros j u. rewrite He, expunging_lookup. destruct (d_expunged d !! (j, u)) as [x|]; [intros _; left; by exists x|]. case_bool_decide as Hju; [|by intros [? [=]]]. destruct Hju as [<- _]. intros _. right. by eexists.
  - intros j u Hj. rewrite He, expunging_lookup. rewrite bool_decide_eq_false_2 by (cbn; tauto). by destruct (d_expunged d !! (j, u)).
  - assert (Hnew : forall u, u ∈ uids -> d_expunged d !! (mb, u) = None).
    { intros u (x & Hx & <-)%Huids. destruct (d_expunged d !! _) as [q|] eqn:E; [|done]. exfalso. destruct (Hrows _ Hx) as [Hx1 Hx2]. eapply (proj2 (proj2 (box_gone _ _ _ Hbox _ _ E)) (seen x.2)); [|done]. by exists x.1, x.2. }
    split; cbn; [lia|lia|intros v Hv; left; by apply (live_fewer d d')| | |].
    + intros v (i & m & Hi0 & Hmb & ->). destruct (decide (i ∈ rows.*1)) as [Hin|Hin]; [|left; exists (seen m); split; [|done]; exists i, m; split; [by apply Hi|done]].
      right. split; [lia|]. intros _. exists (mb_highestModseq b + 1). split; [|lia]. assert (Hu : m_uid m ∈ uids) by (apply Huids; exists (i, m); split; [by apply Hgone|done]).
      rewrite He, expunging_lookup. cbn. rewrite Hnew by done. by rewrite bool_decide_eq_true_2.
    + intros u q Hq. rewrite He, expunging_lookup, Hq. done.
    + intros u q. rewrite He, expunging_lookup. destruct (d_expunged d !! (mb, u)) as [x|] eqn:E; [by left|]. case_bool_decide as Hju; [|done]. intros [= <-]. cbn in Hju. destruct Hju as [_ (x & Hx & <-)%Huids]. right. destruct (Hrows _ Hx) as [Hx1 Hx2].
      split; [lia|]. split; [left; exists (seen x.2); split; [by exists x.1, x.2|done]|]. intros v (i & m & [Hi0 Hin]%Hi & Hmb & ->). cbn. intros Hu. apply Hin.
      rewrite (ok_unique _ (ok_structure _ Hd) i x.1 m x.2 Hi0 Hx1) by congruence. apply list_elem_of_fmap. by exists x.
Qed.

(** The same statement in two databases that show the same. *)
Lemma SameMail_onMailboxes f d d' : SameMail d d' -> SameMail (onMailboxes f d) (onMailboxes f d').
Proof. intros [H1 H2 H3 H4]. split; cbn; [by rewrite H1|done..]. Qed.
Lemma SameMail_onExpunged f d d' : SameMail d d' -> SameMail (onExpunged f d) (onExpunged f d').
Proof. intros [H1 H2 H3 H4]. split; cbn; [done|by rewrite H2|done|done]. Qed.

Lemma Step_after an d e d' : DbOk d -> Step an d e -> SameMail e d' -> Step an d d'.
Proof. intros Hd Hs HS. rewrite <- (andb_true_r an). eapply Step_trans; [done|exact Hs|]. apply Step_same; [apply Hs|done]. Qed.

Lemma SameMail_delete_none d : SameMail d (after (deleteMessages []) d).
Proof. split; [done..|]. intros i. cbn. f_equal. apply option_eq. intros m. rewrite map_lookup_filter_Some. cbn. split; [by intros [? _]|]. intros H. split; [done|apply not_elem_of_nil]. Qed.

Section removals.
Context `{R : Runtime}.

Lemma expunge_moves an acc mb uids reason : Moves an (expunge acc mb uids reason).
Proof.
  intros d a d' Hd. unfold expunge. case_bool_decide; [intros [_ ->]%tx_ret_inv; by apply Step_refl|]. intros H0. steps H0.
  set (rows := filter _ _) in *. unfold deleteMessages in E. apply exec_inv in E. case_bool_decide as Hr.
  - steps H0. subst. apply Step_same; [done|]. rewrite Hr. apply SameMail_delete_none.
  - steps H0. apply Quiet_copyMoves in E0. unfold updateMailbox in E1. apply exec_inv in E1. apply Quiet_releaseAll in E2. unfold recordExpunged in E3. apply exec_inv in E3. apply Quiet_audit in E4. apply Quiet_notify in E5.
    set (q := mb_highestModseq a0 + 1) in *. set (uids' := merge_sort _ _) in *.
    apply (Step_after _ _ (onExpunged (expunging mb uids' q) (onMailboxes (alter (setModseq q) mb) d0))); [done| |].
    + subst d0. eapply (removal_step _ _ _ _ rows uids' q); [done|exact L|done| | |done..].
      * intros x Hx. apply list_elem_of_filter in Hx as [_ Hx]. by apply elem_messagesOf in Hx.
      * intros u. unfold uids'. rewrite merge_sort_Permutation, list_elem_of_fmap. split; intros (x & Hx1 & Hx2); exists x; by split.
    + eapply SameMail_trans; [|exact E5]. eapply SameMail_trans; [|exact E4]. rewrite E3. apply SameMail_onExpunged. eapply SameMail_trans; [|exact E2]. rewrite E1. by apply SameMail_onMailboxes.
Qed.

Lemma removeMessage_step an i m d a d' : DbOk d -> d_messages d !! i = Some m -> removeMessage i m d = Committed a d' -> Step an d d'.
Proof.
  intros Hd Hi H. unfold removeMessage in H. steps H. set (q := mb_highestModseq a0 + 1) in *.
  unfold deleteMessages in E. apply exec_inv in E. unfold updateMailbox in E0. apply exec_inv in E0. unfold recordExpunged in E1. apply exec_inv in E1. apply Quiet_release in E2. apply Quiet_notify in E3.
  apply (Step_after _ _ d2); [done| |by eapply SameMail_trans]. subst. eapply (removal_step _ _ _ _ [(i, m)] [m_uid m] q); [done|exact L|done| | |done..].
  - by intros x ->%list_elem_of_singleton.
  - intros u. rewrite list_elem_of_singleton. split; [intros ->; exists (i, m); split; [left|done]|by intros (x & ->%list_elem_of_singleton & <-)].
Qed.
End removals.

(** ** Arrivals *)

Lemma another_false d i p : another d i p = false <-> forall j m, d_messages d !! j = Some m -> j <> i -> p m = false.
Proof.
  unfold another. rewrite <- not_true_iff_false, existsb_exists. split.
  - intros H j m Hj Hne. destruct (p m) eqn:E; [|done]. exfalso. apply H. exists (j, m). split; [by apply list_elem_of_In, elem_of_map_to_list|]. cbn. by rewrite bool_decide_eq_false_2, E.
  - intros H ([j m] & Hj%list_elem_of_In%elem_of_map_to_list & (Hne & Hp)%andb_true_iff). cbn in *. rewrite negb_true_iff, bool_decide_eq_false in Hne. by rewrite (H _ _ Hj Hne) in Hp.
Qed.

(** What an INSERT or UPDATE that passes the constraints leaves. *)
Lemma putMessage_inv i m d a d' : putMessage i m d = Committed a d' -> d' = onMessages <[i := m]> d /\ is_Some (d_mailboxes d !! m_mailbox m) /\ is_Some (d_blobs d !! m_blob m) /\
  (forall j o, d_messages d !! j = Some o -> j <> i -> m_mailbox o = m_mailbox m -> m_uid o <> m_uid m).
Proof.
  unfold putMessage. intros H. steps H. rewrite bool_decide_eq_true in C, C0. split_and!; [done..|]. apply negb_true_iff in C2. intros j o Hj Hne Hmb Hu. pose proof (proj1 (another_false _ _ _) C2 j o Hj Hne) as Hp. cbn in Hp.
  rewrite bool_decide_eq_true_2 in Hp by done. rewrite Hu, Z.eqb_refl in Hp. done.
Qed.

Lemma Unique_put ms i m : UniqueUids ms -> (forall j o, ms !! j = Some o -> j <> i -> m_mailbox o = m_mailbox m -> m_uid o <> m_uid m) -> UniqueUids (<[i := m]> ms).
Proof.
  intros HU Hn j k o o' Hj Hk Hmb Hu. destruct (decide (i = j)) as [<-|Hij], (decide (i = k)) as [<-|Hik]; [done| | |].
  - rewrite lookup_insert_eq in Hj. rewrite lookup_insert_ne in Hk by done. injection Hj as <-. exfalso. by apply (Hn _ _ Hk).
  - rewrite lookup_insert_eq in Hk. rewrite lookup_insert_ne in Hj by done. injection Hk as <-. exfalso. by apply (Hn _ _ Hj).
  - rewrite lookup_insert_ne in Hj, Hk by done. by eapply HU.
Qed.

(** A new row in a mailbox, under its next UID. *)
Lemma arrival_step an d mb b m d' : DbOk d -> d_mailboxes d !! mb = Some b -> m_mailbox m = mb -> m_uid m = mb_uidnext b -> m_modseq m = mb_highestModseq b + 1 ->
  d_mailboxes d' = alter (setCounters (mb_uidnext b + 1) (mb_highestModseq b + 1)) mb (d_mailboxes d) -> d_expunged d' = d_expunged d -> d_fresh d' = S (d_fresh d) ->
  d_messages d' = <[d_fresh d := m]> (d_messages d) -> Step an d d'.
Proof.
  intros Hd Hb Hmb Hu Hq Hm He Hf Hg. pose proof (ok_boxes _ Hd _ _ Hb) as HB. pose proof (ok_structure _ Hd) as Hs.
  assert (Hnone : d_messages d !! d_fresh d = None). { apply eq_None_not_Some. intros Hi%(ok_fresh_message _ Hs). lia. }
  assert (Hnew : forall j o, d_messages d !! j = Some o -> j <> d_fresh d -> m_mailbox o = m_mailbox m -> m_uid o <> m_uid m).
  { intros j o Hj _ Ho. rewrite Hu. pose proof (box_uid _ _ _ HB (seen o)) as Hlt. cbn in Hlt. specialize (Hlt ltac:(exists j, o; split_and!; [done|congruence|done])). lia. }
  assert (Hl : forall j v, live d' j v <-> live d j v \/ (j = mb /\ v = seen m)).
  { intros j v. split.
    - intros (i & o & Hi & Ho & ->). rewrite Hg in Hi. destruct (decide (d_fresh d = i)) as [<-|]; [rewrite lookup_insert_eq in Hi; injection Hi as <-; right; split; [congruence|done]|]. rewrite lookup_insert_ne in Hi by done. left. by exists i, o.
    - intros [(i & o & Hi & Ho & ->)|[-> ->]]; [|exists (d_fresh d), m; rewrite Hg, lookup_insert_eq; done]. exists i, o. rewrite Hg, lookup_insert_ne; [done|]. intros <-. congruence. }
  apply Step_intro; [done| |lia|].
  - split.
    + intros i o Hi. rewrite Hm, alter_is_Some. rewrite Hg in Hi. destruct (decide (d_fresh d = i)) as [<-|]; [rewrite lookup_insert_eq in Hi; injection Hi as <-; rewrite Hmb; by eexists|]. rewrite lookup_insert_ne in Hi by done. by eapply ok_home.
    + intros j u q. rewrite He, Hm, alter_is_Some. by apply ok_gone.
    + rewrite Hg. apply Unique_put; [apply (ok_unique _ Hs)|done].
    + intros j. rewrite Hm, alter_is_Some, Hf. intros Hj%(ok_fresh _ Hs). lia.
    + intros i [o Hi]. rewrite Hg in Hi. rewrite Hf. destruct (decide (d_fresh d = i)) as [<-|]; [lia|]. rewrite lookup_insert_ne in Hi by done. pose proof (ok_fresh_message _ Hs i ltac:(by eexists)). lia.
    + rewrite Hm. apply NamesOk_alter; [done|by apply DbOk_names].
  - intros j b' Hj. left. rewrite Hm in Hj. apply alter_lookup in Hj as (b0 & Hj & [[-> ->]|[Hne ->]]); exists b0; (split; [done|]); simplify_eq.
    + split; cbn; [lia|lia| | |by rewrite He|rewrite He; by left].
      * intros v [Hv|[_ ->]]%Hl; [by left|]. right. cbn. split; [lia|right; lia].
      * intros v Hv. left. exists v. split; [apply Hl; by left|done].
    + apply Evolves_same; [done|lia| |by rewrite He]. intros v. rewrite Hl. split; [by intros [?|[-> _]]|by left].
Qed.

(** A new mailbox. *)
Lemma newMailbox_step an d mb b d' : DbOk d -> (d_fresh d <= mb)%nat -> (mb < d_fresh d')%nat -> 0 < mb_uidnext b -> d_mailboxes d' = <[mb := b]> (d_mailboxes d) -> d_expunged d' = d_expunged d -> d_messages d' = d_messages d ->
  NamesOk (d_mailboxes d') -> Step an d d'.
Proof.
  intros Hd Hlo Hhi Hnext Hm He Hg HN. pose proof (ok_structure _ Hd) as Hs. assert (Hnone : d_mailboxes d !! mb = None). { apply eq_None_not_Some. intros Hj%(ok_fresh _ Hs). lia. }
  assert (Hsome : forall j, is_Some (d_mailboxes d' !! j) <-> j = mb \/ is_Some (d_mailboxes d !! j)).
  { intros j. rewrite Hm. destruct (decide (mb = j)) as [<-|]; [rewrite lookup_insert_eq; split; [by left|by eexists]|]. rewrite lookup_insert_ne by done. split; [by right|]. by intros [->|]. }
  apply Step_intro; [done| |lia|].
  - split; rewrite ?Hg, ?He.
    + intros i o Hi. apply Hsome. right. by eapply ok_home.
    + intros j u q Hq. apply Hsome. right. by eapply ok_gone.
    + by eapply ok_unique.
    + intros j [->|Hj%(ok_fresh _ Hs)]%Hsome; lia.
    + intros i Hi%(ok_fresh_message _ Hs). lia.
    + done.
  - assert (Hl : forall j v, live d' j v <-> live d j v) by (intros j v; unfold live; by rewrite Hg).
    intros j b' Hj. rewrite Hm in Hj. destruct (decide (mb = j)) as [<-|Hne].
    + right. split; [done|]. rewrite lookup_insert_eq in Hj. injection Hj as <-. assert (Hempty : forall v, live d' mb v -> False). { intros v (i & m & Hi & Hmb & _)%Hl. apply (ok_home _ Hs) in Hi as [x Hi]. congruence. }
      split; [by intros v ?%Hempty|by intros v ?%Hempty| |done]. intros u q. rewrite He. intros [x Hq]%(ok_gone _ Hs). congruence.
    + left. rewrite lookup_insert_ne in Hj by done. exists b'. split; [done|]. apply Evolves_same; [done|lia|apply Hl|by rewrite He].
Qed.

Lemma findMailbox_Some d acc name i b : findMailbox d acc name = Some (i, b) -> d_mailboxes d !! i = Some b /\ mb_account b = acc /\ mb_name b = name.
Proof.
  unfold findMailbox. intros H. apply head_Some_elem_of, list_elem_of_filter in H as [[H1 H2] H3]. by apply elem_of_map_to_list in H3.
Qed.

Lemma findMailbox_None d acc name : findMailbox d acc name = None -> forall i b, d_mailboxes d !! i = Some b -> mb_account b = acc -> mb_name b <> name.
Proof.
  unfold findMailbox. intros H i b Hi Ha Hn. apply head_None in H. eapply (not_elem_of_nil (i, b)). rewrite <- H. apply list_elem_of_filter. split; [done|]. by apply elem_of_map_to_list.
Qed.

Section filing.
Context `{R : Runtime} (uv : Id -> Z) (now : Z).

Lemma insertMailbox_inv acc name use un q d r d' : insertMailbox uv acc name use un q d = Committed r d' ->
  (r = None /\ d' = d /\ exists x, findMailbox d acc name = Some x) \/
  (r = Some (d_fresh d) /\ findMailbox d acc name = None /\ d_mailboxes d' = <[d_fresh d := mkMailbox acc name use (uv (d_fresh d)) un q true]> (d_mailboxes d) /\
   d_messages d' = d_messages d /\ d_expunged d' = d_expunged d /\ d_fresh d' = S (d_fresh d) /\ d_blobs d' = d_blobs d).
Proof.
  unfold insertMailbox. destruct (findMailbox d acc name) as [x|] eqn:Ef; [intros [= <- <-]; left; split_and!; [done|done|by exists x]|]. intros H. right. steps H. unfold freshId in E. injection E as <- <-. done.
Qed.

Lemma insertMailbox_moves an acc name use un q : 0 < un -> Moves an (insertMailbox uv acc name use un q).
Proof.
  intros Hun d r d' Hd [(_ & -> & _)|(_ & Hf & Hm & Hg & He & Hfr & _)]%insertMailbox_inv; [by apply Step_refl|]. eapply newMailbox_step; [done| | | |done..|]; [done|lia|done|].
  rewrite Hm. intros i j b b' Hi Hj Ha Hn. destruct (decide (d_fresh d = i)) as [<-|Hi'], (decide (d_fresh d = j)) as [<-|Hj']; [done| | |].
  - rewrite lookup_insert_eq in Hi. rewrite lookup_insert_ne in Hj by done. injection Hi as <-. exfalso. by eapply (findMailbox_None _ _ _ Hf _ _ Hj).
  - rewrite lookup_insert_eq in Hj. rewrite lookup_insert_ne in Hi by done. injection Hj as <-. exfalso. by eapply (findMailbox_None _ _ _ Hf _ _ Hi).
  - rewrite lookup_insert_ne in Hi, Hj by done. by eapply (DbOk_names _ Hd i j).
Qed.

Lemma insertMessage_inv m d i d' : insertMessage m d = Committed i d' -> i = d_fresh d /\ d_mailboxes d' = d_mailboxes d /\ d_expunged d' = d_expunged d /\ d_fresh d' = S (d_fresh d) /\
  d_messages d' = <[d_fresh d := m]> (d_messages d) /\ d_blobs d' = d_blobs d /\ is_Some (d_blobs d !! m_blob m) /\
  (forall j o, d_messages d !! j = Some o -> j <> d_fresh d -> m_mailbox o = m_mailbox m -> m_uid o <> m_uid m).
Proof.
  unfold insertMessage. intros H. steps H. unfold freshId in E. injection E as <- <-. apply putMessage_inv in E0 as (-> & H1 & H2 & H3). by split_and!.
Qed.

Lemma fileLocalMessage_moves an input : Moves an (fileLocalMessage uv now input).
Proof.
  intros d a d' Hd H. unfold fileLocalMessage, lockOrCreateMailbox in H. steps H. steps E. destruct a0 as [i b]. pose proof (insertMailbox_moves an _ _ _ 1 0 ltac:(lia) _ _ _ Hd E0) as S1. cbn [fst snd] in *.
  assert (Hf : findMailbox d1 (fi_account input) (fi_mailbox input) = Some (i, b) /\ d0 = d1). { destruct (findMailbox d1 _ _) as [x|]; [|done]. by apply tx_ret_inv in E as [<- ->]. } destruct Hf as [Hf ->].
  apply findMailbox_Some in Hf as (Hb & _). apply insertMessage_inv in E1 as (-> & Hm & He & Hfr & Hg & _ & _). unfold updateCounters, updateMailbox in E2. steps E2.
  rewrite <- (andb_diag an). eapply Step_trans; [done|exact S1|]. eapply (arrival_step _ d1 i b); [apply S1|exact Hb| | | |cbn; by rewrite Hm|done..|exact Hg]; done.
Qed.

Lemma addReferences_quiet l f : Quiet (forEach l (fun sha => addReferences sha (f sha))).
Proof. apply Quiet_forEach. intros. auto with mail. Qed.

Lemma Quiet_copySearch i j : Quiet (copySearch i j).
Proof. by apply Quiet_exec. Qed.
Lemma Quiet_copyVerdict i j : Quiet (copyVerdict i j).
Proof. by apply Quiet_exec. Qed.
#[local] Hint Resolve fileLocalMessage_moves Quiet_copySearch Quiet_copyVerdict addReferences_quiet Moves_bind : mail.

Lemma copy_moves an src uids tgt : Moves an (copy uv now src uids tgt).
Proof.
  unfold copy. apply Moves_bind; [auto with mail|]. intros target. apply Moves_bind; [auto with mail|]. intros rows. case_match; [auto with mail|]. apply Moves_bind; [auto with mail|]. intros _. apply Moves_bind; [|intros; auto with mail].
  apply Moves_traverse. intros x. unfold copyRow. auto 10 with mail.
Qed.

Lemma Quiet_harvest acc l t : Quiet (harvestSentRecipients acc l t).
Proof. apply Quiet_forEach. intros x. by apply Quiet_exec. Qed.

Lemma append_moves an acc mb input : Moves an (append uv now acc mb input).
Proof.
  unfold append. apply Moves_bind; [auto with mail|]. intros b. apply Moves_bind; [case_match; auto with mail|]. intros _. apply Moves_bind; [auto with mail|]. intros filed. apply Moves_bind; [|intros; auto with mail].
  apply Quiet_moves. destruct (ap_denorm input) as [n|]; [|auto with mail]. apply Quiet_bind; [auto with mail|]. intros _. case_match; [apply Quiet_harvest|auto with mail].
Qed.

Lemma createEach_moves an acc name use names : Moves an (createEach uv acc name use names).
Proof.
  induction names as [|n names IH]; cbn [createEach]; [auto with mail|]. apply Moves_bind; [by apply insertMailbox_moves|]. intros r. apply Moves_bind; [destruct r; [auto with mail|case_match; auto with mail]|done].
Qed.

Lemma createParents_moves an acc names skip : Moves an (createParents uv acc names skip).
Proof.
  induction names as [|n names IH]; cbn [createParents]; [auto with mail|]. apply Moves_bind; [|done]. case_match; [auto with mail|]. apply Moves_bind; [by apply insertMailbox_moves|]. intros [i|]; auto with mail.
Qed.
End filing.
#[export] Hint Resolve fileLocalMessage_moves createParents_moves : mail.

(** ** Moves *)

Lemma moveRow_inv tgt q fl i u d a d' m : d_messages d !! i = Some m -> moveRow tgt q fl i u d = Committed a d' ->
  exists m', d' = onMessages <[i := m']> d /\ m_mailbox m' = tgt /\ m_uid m' = u /\ m_modseq m' = q /\ m_blob m' = m_blob m /\ is_Some (d_mailboxes d !! tgt) /\
    (UniqueUids (d_messages d) -> UniqueUids (d_messages d')).
Proof.
  intros Hi. unfold moveRow. rewrite Hi. intros (-> & H1 & H2 & H3)%putMessage_inv. eexists. split; [done|]. split_and!; [done..|]. intros HU. by apply Unique_put.
Qed.

Lemma moveRows_inv tgt q fl rows next d pairs last d' : NoDup rows.*1 -> (forall x, x ∈ rows -> d_messages d !! x.1 = Some x.2) -> moveRows tgt q fl rows next d = Committed (pairs, last) d' ->
  last = next + Z.of_nat (length rows) /\ pairs.*1 = (fun x => m_uid x.2) <$> rows /\
  d_mailboxes d' = d_mailboxes d /\ d_expunged d' = d_expunged d /\ d_fresh d' = d_fresh d /\ (UniqueUids (d_messages d) -> UniqueUids (d_messages d')) /\ (rows <> [] -> is_Some (d_mailboxes d !! tgt)) /\
  (forall i, i ∉ rows.*1 -> d_messages d' !! i = d_messages d !! i) /\
  (forall x, x ∈ rows -> exists m', d_messages d' !! x.1 = Some m' /\ m_mailbox m' = tgt /\ next <= m_uid m' < last /\ m_modseq m' = q /\ m_blob m' = m_blob x.2).
Proof.
  revert next d pairs last. induction rows as [|x rows IH]; intros next d pairs last HN Hr H; cbn [moveRows] in H.
  - apply tx_ret_inv in H as [[= -> ->] ->]. cbn. split_and!; [lia|done..|by intros x ?%elem_of_nil].
  - apply tx_bind_inv in H as (u & d1 & E & H). apply tx_bind_inv in H as ([ps la] & d2 & E1 & H). apply tx_ret_inv in H as [[= -> ->] ->]. cbn in HN. apply NoDup_cons in HN as [Hx HN].
    assert (Hx1 : d_messages d !! x.1 = Some x.2) by (apply Hr; left).
    destruct (moveRow_inv _ _ _ _ _ _ _ _ _ Hx1 E) as (m' & -> & M1 & M2 & M3 & M4 & M5 & M6).
    assert (Hr' : forall y, y ∈ rows -> d_messages (onMessages <[x.1 := m']> d) !! y.1 = Some y.2).
    { intros y Hy. cbn. rewrite lookup_insert_ne; [apply Hr; by right|]. intros Ey. apply Hx. rewrite Ey. by apply list_elem_of_fmap_2. }
    destruct (IH _ _ _ _ HN Hr' E1) as (-> & Ep & K1 & K2 & K3 & K4 & K5 & K6 & K7).
    cbn in *. split_and!; [lia|by rewrite Ep|done..|auto|done| |].
    + intros i [Hi1 Hi2]%not_elem_of_cons. rewrite K6 by done. by rewrite lookup_insert_ne.
    + intros y [->|Hy]%elem_of_cons.
      * exists m'. rewrite K6 by done. rewrite lookup_insert_eq. split_and!; [done|done|lia|lia|done|done].
      * destruct (K7 y Hy) as (m'' & Hm & J1 & J2 & J3 & J4). exists m''. split_and!; [done|done|lia|lia|done|done].
Qed.

Lemma move_step an d d1 src tgt sb tb (rows : list (Id * Message)) q last uids d' : DbOk d -> d_mailboxes d !! src = Some sb -> d_mailboxes d !! tgt = Some tb ->
  mb_highestModseq sb < q -> mb_highestModseq tb < q -> rows <> [] -> (forall x, x ∈ rows -> d_messages d !! x.1 = Some x.2 /\ m_mailbox x.2 = src) -> uids = (fun x => m_uid x.2) <$> rows ->
  d_messages d' = d_messages d1 -> d_fresh d' = d_fresh d -> d_expunged d' = expunging src uids q (d_expunged d) -> UniqueUids (d_messages d1) -> mb_uidnext tb <= last ->
  d_mailboxes d' = alter (setModseq q) src (alter (setCounters last q) tgt (d_mailboxes d)) ->
  (forall i, i ∉ rows.*1 -> d_messages d1 !! i = d_messages d !! i) ->
  (forall x, x ∈ rows -> exists m', d_messages d1 !! x.1 = Some m' /\ m_mailbox m' = tgt /\ mb_uidnext tb <= m_uid m' < last /\ m_modseq m' = q /\ m_blob m' = m_blob x.2) -> Step an d d'.
Proof.
  intros Hd Hsb Htb Hqs Hqt Hne Hrows -> Hg Hf He HU Hlast Hm Hstay Hgo. rewrite <- Hg in *. pose proof (ok_structure _ Hd) as Hs.
  assert (Hin : forall i m, d_messages d !! i = Some m -> i ∈ rows.*1 -> (i, m) ∈ rows). { intros i m Hi ([i' m0] & -> & Hx)%list_elem_of_fmap. destruct (Hrows _ Hx) as [Hr _]. cbn in *. by simplify_eq. }
  (* A row is either as it was, or one of those that moved. *)
  assert (Hi : forall i m', d_messages d' !! i = Some m' -> (i ∉ rows.*1 /\ d_messages d !! i = Some m') \/
    (exists m, (i, m) ∈ rows /\ d_messages d !! i = Some m /\ m_mailbox m' = tgt /\ mb_uidnext tb <= m_uid m' < last /\ m_modseq m' = q)).
  { intros i m' Hi. destruct (decide (i ∈ rows.*1)) as [Hr|Hr]; [|left; split; [done|by rewrite <- Hstay]]. right. apply list_elem_of_fmap in Hr as ([i' m] & -> & Hx). cbn in *.
    destruct (Hgo _ Hx) as (m0 & Hm0 & G1 & G2 & G3 & _). cbn in Hm0. simplify_eq. exists m. split_and!; [done|apply (Hrows _ Hx)|done|lia|lia|done]. }
  assert (Hbox : forall j b', d_mailboxes d' !! j = Some b' -> exists b, d_mailboxes d !! j = Some b /\ mb_uidnext b' = (if decide (j = tgt) then last else mb_uidnext b) /\
    mb_highestModseq b' = (if decide (j = tgt \/ j = src) then q else mb_highestModseq b)).
  { intros j b'. rewrite Hm. intros (b1 & (b & Hb & Hb1)%alter_lookup & Hb')%alter_lookup. exists b. split; [done|]. destruct Hb' as [[-> ->]|[Hj ->]], Hb1 as [[-> ->]|[Hj' ->]]; cbn; repeat case_decide; naive_solver. }
  assert (Hlost : forall j m i, d_messages d !! i = Some m -> m_mailbox m = j -> i ∉ rows.*1 -> live d' j (seen m)) by (intros j m i Hi0 Hj Hr; exists i, m; by rewrite Hstay).
  apply Step_intro; [done| |lia|].
  - split.
    + intros i m' [[_ Hi0]|(m & _ & _ & -> & _)]%Hi; rewrite Hm, !alter_is_Some; [by eapply ok_home|by eexists].
    + intros j u q'. rewrite He, Hm, !alter_is_Some, expunging_lookup. destruct (d_expunged d !! (j, u)) as [x|] eqn:E; [intros _; by eapply ok_gone|]. case_bool_decide as Hju; [|done]. cbn in Hju. destruct Hju as [-> _]. by eexists.
    + done.
    + intros j. rewrite Hm, !alter_is_Some, Hf. apply (ok_fresh _ Hs).
    + intros i [m' [[_ Hi0]|(m & _ & Hi0 & _)]%Hi]; rewrite Hf; apply (ok_fresh_message _ Hs); by eexists.
    + rewrite Hm. apply NamesOk_alter; [done|]. apply NamesOk_alter; [done|]. by apply DbOk_names.
  - intros j b' (b & Hb & En & Eq)%Hbox. left. exists b. split; [done|]. assert (Htj : j = tgt -> b = tb) by (intros ->; by simplify_eq). assert (Hsj : j = src -> b = sb) by (intros ->; by simplify_eq).
    pose proof (ok_boxes _ Hd _ _ Hb) as HB. split; rewrite ?En, ?Eq.
    + destruct (decide (j = tgt)) as [Hj|]; [rewrite (Htj Hj)|]; lia.
    + destruct (decide (j = tgt \/ j = src)) as [[Hj|Hj]|]; [rewrite (Htj Hj)|rewrite (Hsj Hj)|]; lia.
    + intros v (i & m' & [[Hr Hi0]|(m & Hx & Hi0 & G1 & G2 & G3)]%Hi & Hmb & ->); [left; by exists i, m'|]. right. cbn. assert (Hj : j = tgt) by congruence. rewrite !decide_True by tauto. rewrite (Htj Hj). split; [lia|right; lia].
    + intros v (i & m & Hi0 & Hmb & ->). destruct (decide (i ∈ rows.*1)) as [Hr|Hr]; [|left; exists (seen m); split; [by eapply Hlost|done]].
      pose proof (Hin _ _ Hi0 Hr) as Hx. destruct (Hrows _ Hx) as [_ Ej]. cbn in Ej. right. assert (j = src) as -> by congruence. rewrite decide_True by tauto. rewrite (Hsj eq_refl) in *. split; [lia|]. intros _. exists q. split; [|lia].
      rewrite He, expunging_lookup. destruct (d_expunged d !! (src, v_uid (seen m))) as [y|] eqn:E.
      * exfalso. eapply (proj2 (proj2 (box_gone _ _ _ HB _ _ E)) (seen m)); [by exists i, m|done].
      * rewrite bool_decide_eq_true_2; [done|]. split; [done|]. apply list_elem_of_fmap. by exists (i, m).
    + intros u q' Hq. by rewrite He, expunging_lookup, Hq.
    + intros u q'. rewrite He, expunging_lookup. destruct (d_expunged d !! (j, u)) as [y|] eqn:E; [by left|]. case_bool_decide as Hju; [|done]. intros [= <-]. cbn in Hju. destruct Hju as [-> (x & -> & Hx)%list_elem_of_fmap]. right.
      rewrite decide_True by tauto. destruct (Hrows _ Hx) as [Hx1 Hx2]. split; [lia|]. assert (Hlv : live d src (seen x.2)) by (by exists x.1, x.2). split; [left; by exists (seen x.2)|].
      intros v (i & m' & [[Hr Hi0]|(m & Hx' & Hi0 & G1 & G2 & G3)]%Hi & Hmb & ->); cbn.
      * intros Eu. apply Hr. rewrite (ok_unique _ Hs i x.1 m' x.2 Hi0 Hx1) by congruence. by apply list_elem_of_fmap_2.
      * pose proof (box_uid _ _ _ HB _ Hlv) as Hlt. cbn in Hlt. assert (src = tgt) as <- by congruence. rewrite (Htj eq_refl) in Hlt. lia.
Qed.

Lemma rowsByUid_of d mb uids x : x ∈ rowsByUid d mb uids -> d_messages d !! x.1 = Some x.2 /\ m_mailbox x.2 = mb.
Proof. rewrite elem_rowsByUid. tauto. Qed.

(** The statements of a move after its rows have gone. *)
Lemma moved_step an d d1 src tgt sb tb (rows : list (Id * Message)) fl q pairs last d' : DbOk d -> d_mailboxes d !! src = Some sb -> d_mailboxes d !! tgt = Some tb ->
  q = Z.max (mb_highestModseq tb) (mb_highestModseq sb) + 1 -> rows <> [] -> (forall x, x ∈ rows -> d_messages d !! x.1 = Some x.2 /\ m_mailbox x.2 = src) -> NoDup rows.*1 ->
  moveRows tgt q fl rows (mb_uidnext tb) d = Committed (pairs, last) d1 ->
  SameMail (onExpunged (expunging src ((fun x => m_uid x.2) <$> rows) q) (onMailboxes (fun ms => alter (setModseq q) src (alter (setCounters last q) tgt ms)) d1)) d' -> Step an d d'.
Proof.
  intros Hd Hsb Htb -> Hne Hrows HN E HS. apply (Step_after _ _ _ _ Hd) with (2 := HS).
  apply moveRows_inv in E as (-> & _ & K1 & K2 & K3 & K4 & _ & K6 & K7); [|done|intros x Hx; by apply Hrows].
  apply (move_step an d d1 src tgt sb tb rows (Z.max (mb_highestModseq tb) (mb_highestModseq sb) + 1) (mb_uidnext tb + Z.of_nat (length rows)) ((fun x => m_uid x.2) <$> rows)); cbn; try done; try lia.
  - by rewrite K2.
  - apply K4, ok_unique, Hd.
  - by rewrite K1.
Qed.

Lemma setModseq_twice last q mb (ms : gmap Id Mailbox) : alter (setModseq q) mb (alter (setCounters last q) mb ms) = alter (setCounters last q) mb ms.
Proof.
  apply map_eq. intros j. destruct (decide (mb = j)) as [->|Hne]; [|by rewrite !lookup_alter_ne]. rewrite !lookup_alter_eq. by destruct (ms !! j).
Qed.

Section moves.
Context `{R : Runtime}.

Lemma move_moves an src uids tgt : Moves an (move src uids tgt).
Proof.
  intros d a d' Hd H. unfold move in H. steps H. case_bool_decide as Hr; steps H; [by apply Step_refl|]. set (rows := rowsByUid d src uids) in *.
  unfold updateCounters, updateMailbox in E0. steps E0. unfold recordExpunged in E2. apply exec_inv in E2.
  assert (E1' : d2 = onMailboxes (fun ms => alter (setModseq (Z.max (mb_highestModseq a0) (mb_highestModseq a1) + 1)) src (alter (setCounters z (Z.max (mb_highestModseq a0) (mb_highestModseq a1) + 1)) tgt ms)) d0).
  { destruct (decide (src = tgt)) as [->|Hst]; [rewrite bool_decide_eq_true_2 in E1 by done; steps E1; unfold onMailboxes; by rewrite setModseq_twice|]. rewrite bool_decide_eq_false_2 in E1 by done. unfold updateMailbox in E1. by steps E1. }
  assert (HN : NoDup rows.*1) by apply NoDup_fst_filter, NoDup_messagesOf.
  assert (Hrows : forall x, x ∈ rows -> d_messages d !! x.1 = Some x.2) by (intros x Hx; by apply rowsByUid_of in Hx as [? _]).
  pose proof (moveRows_inv _ _ _ _ _ _ _ _ _ HN Hrows E) as (_ & Hp & _). rewrite Hp in E2. fold (expunging src ((fun x => m_uid x.2) <$> rows) (Z.max (mb_highestModseq a0) (mb_highestModseq a1) + 1)) in E2.
  assert (Hq : SameMail d3 d4) by (destruct (trainingMove _ _ _ _); [by apply Quiet_training in E3|by apply Quiet_ret in E3]). apply Quiet_notify in E4.
  eapply (moved_step an d d0 src tgt a1 a0 rows id _ l z); [done|done|done|done|done|intros x; apply rowsByUid_of|done|exact E|]. rewrite E1' in E2. rewrite E2 in Hq.
  eapply SameMail_trans; [exact Hq|]. eapply SameMail_trans; [exact E4|]. case_bool_decide; [by apply Quiet_ret in E5|by apply Quiet_notify in E5].
Qed.

Lemma moveMessages_moves an src tgt is_ clear : Moves an (moveMessages src tgt is_ clear).
Proof.
  intros d a d' Hd H. unfold moveMessages in H. destruct (bool_decide (is_ = []) || bool_decide (src = tgt)); [apply tx_ret_inv in H as [_ ->]; by apply Step_refl|]. steps H. case_bool_decide as Hr; steps H; [by apply Step_refl|].
  set (rows := filter _ _) in *. unfold updateCounters, updateMailbox in *. steps E0. apply exec_inv in E1. unfold recordExpunged in E2. apply exec_inv in E2. apply Quiet_notify in E3, E4.
  eapply (moved_step an d d0 src tgt a0 a1 rows _ _ l z); [done|done|done|done|done| | |exact E|].
  - intros x Hx. apply list_elem_of_filter in Hx as [_ Hx]. by apply elem_messagesOf in Hx.
  - apply NoDup_fst_filter, NoDup_messagesOf.
  - eapply SameMail_trans; [|exact E4]. eapply SameMail_trans; [|exact E3]. rewrite E2, E1. apply SameMail_refl.
Qed.
End moves.

(** ** Mailboxes come, go and change their names *)

(** A mailbox whose counters stay. *)
Lemma relabel_step an d mb g d' : DbOk d -> (forall b, mb_uidnext (g b) = mb_uidnext b /\ mb_highestModseq (g b) = mb_highestModseq b) ->
  d_mailboxes d' = alter g mb (d_mailboxes d) -> NamesOk (d_mailboxes d') -> d_messages d' = d_messages d -> d_expunged d' = d_expunged d -> d_fresh d' = d_fresh d -> Step an d d'.
Proof.
  intros Hd Hg Hm HN Hms He Hf. assert (Hl : forall j v, live d' j v <-> live d j v) by (intros j v; unfold live; by rewrite Hms). apply Step_intro; [done| |lia|].
  - eapply Structure_messages; [apply Hd|intros j; rewrite Hm; apply alter_is_Some|done|done|intros i m; rewrite Hms; by exists m|intros j u; rewrite He; by left].
  - intros j b' Hj. left. rewrite Hm in Hj. apply alter_lookup in Hj as (b & Hj & Hb). exists b. split; [done|]. destruct Hb as [[-> ->]|[_ ->]]; (apply Evolves_same; [| |apply Hl|by rewrite He]); rewrite ?(proj1 (Hg _)), ?(proj2 (Hg _)); lia.
Qed.

Lemma updateName_moves an name i : Moves an (updateName name i).
Proof.
  intros d a d' Hd H. unfold updateName in H. destruct (d_mailboxes d !! i) as [m|] eqn:Ei; [|injection H as _ <-; by apply Step_refl]. steps H. apply negb_true_iff in C.
  eapply (relabel_step _ _ i); [done| |done| |done..]; [done|]. cbn.
  assert (Hfree : forall j b, d_mailboxes d !! j = Some b -> j <> i -> mb_account b = mb_account m -> mb_name b <> name).
  { intros j b Hj Hne Ha Hn. apply not_true_iff_false in C. apply C, existsb_exists. exists (j, b). split; [by apply list_elem_of_In, elem_of_map_to_list|]. cbn. by rewrite bool_decide_eq_false_2, !bool_decide_eq_true_2. }
  intros j k b b' (c & Hc & Eb)%alter_lookup (c' & Hc' & Eb')%alter_lookup Ha Hn. destruct Eb as [[-> ->]|[Hj ->]], Eb' as [[-> ->]|[Hk ->]]; cbn in *; [done| | |by eapply (DbOk_names _ Hd)]; simplify_eq.
  - exfalso. by eapply (Hfree k c').
  - exfalso. by eapply (Hfree j c).
Qed.

Section mailboxes.
Context `{R : Runtime} (uv : Id -> Z).

Lemma setSubscribed_moves an acc name s : Moves an (setSubscribed acc name s).
Proof.
  unfold setSubscribed. apply Moves_bind; [auto with mail|]. intros [[i b]|]; [|auto with mail]. apply Moves_bind; [|intros; auto with mail]. intros d a d' Hd H. unfold updateMailbox in H. apply exec_inv in H as ->.
  eapply (relabel_step _ _ i); [done| |done| |done..]; [done|]. apply NamesOk_alter; [done|by apply DbOk_names].
Qed.

Lemma renameTree_moves an acc from to src : Moves an (renameTree uv acc from to src).
Proof.
  unfold renameTree. apply Moves_bind; [auto with mail|]. intros moving. apply Moves_bind; [auto with mail|]. intros clash. destruct clash; [auto with mail|]. apply Moves_bind; [apply Moves_forEach; intros; apply updateName_moves|]. intros _. apply Moves_bind; intros; auto with mail.
Qed.

(** A mailbox goes, with its messages and their records. *)
Lemma deletion_step an d mb d' : DbOk d -> d_mailboxes d' = delete mb (d_mailboxes d) -> d_expunged d' = filter (fun x => x.1.1 <> mb) (d_expunged d) -> d_fresh d' = d_fresh d ->
  (forall i m, d_messages d' !! i = Some m <-> d_messages d !! i = Some m /\ m_mailbox m <> mb) -> Step an d d'.
Proof.
  intros Hd Hm He Hf Hg. pose proof (ok_structure _ Hd) as Hs. assert (Hbox : forall j, is_Some (d_mailboxes d' !! j) <-> is_Some (d_mailboxes d !! j) /\ j <> mb).
  { intros j. rewrite Hm. destruct (decide (mb = j)) as [<-|Hne]; [rewrite lookup_delete_eq; split; [by intros [? ?]|by intros [_ ?]]|]. rewrite lookup_delete_ne by done. split; [by intros ?; split|by intros [? _]]. }
  apply Step_intro; [done| |lia|].
  - split.
    + intros i m [Hi Hne]%Hg. apply Hbox. split; [by eapply ok_home|done].
    + intros j u q. rewrite He, map_lookup_filter_Some. intros [Hq Hne]. apply Hbox. split; [by eapply ok_gone|done].
    + intros i j m m' [Hi _]%Hg [Hj _]%Hg. by eapply ok_unique.
    + intros j [Hj _]%Hbox. rewrite Hf. by apply (ok_fresh _ Hs).
    + intros i [m [Hi _]%Hg]. rewrite Hf. apply (ok_fresh_message _ Hs). by eexists.
    + intros j k b b'. rewrite Hm, !lookup_delete_Some. intros [_ Hj] [_ Hk]. by eapply (ok_names _ Hs).
  - intros j b. rewrite Hm, lookup_delete_Some. intros [Hne Hj]. left. exists b. split; [done|]. apply Evolves_same; [done|lia| |].
    + intros v. split; intros (i & m & Hi & Hmb & ->); exists i, m; [apply Hg in Hi as [Hi _]; done|]. split; [apply Hg; split; [done|congruence]|done].
    + intros u. rewrite He. apply option_eq. intros q. rewrite map_lookup_filter_Some. cbn. split; [by intros [? _]|by intros ?; split].
Qed.

Lemma deleteMailbox_moves an acc name mb : Moves an (deleteMailbox acc name mb).
Proof.
  intros d a d' Hd H. unfold deleteMailbox in H. destruct mb as [[i b]|]; [|apply tx_ret_inv in H as [_ ->]; by apply Step_refl]. case_bool_decide; [apply tx_ret_inv in H as [_ ->]; by apply Step_refl|]. case_bool_decide; [apply tx_ret_inv in H as [_ ->]; by apply Step_refl|].
  steps H. case_bool_decide; [apply tx_ret_inv in H as [_ ->]; by apply Step_refl|]. steps H. destruct (existsb _ _); [apply tx_ret_inv in H as [_ ->]; by apply Step_refl|]. steps H.
  unfold deleteMessages in E. apply exec_inv in E. apply Quiet_releaseAll in E0. apply Quiet_audit in E1. apply Quiet_notify in E2.
  apply (Step_after _ _ (onExpunged (filter (fun x => x.1.1 <> i)) (onMailboxes (delete i) d0))); [done| |].
  - subst d0. eapply (deletion_step _ _ i); [done..|]. intros j m. cbn. rewrite map_lookup_filter_Some. cbn. split; intros [Hj Hm]; (split; [done|]).
    + intros Hi. apply Hm, list_elem_of_fmap. exists (j, m). split; [done|]. by apply elem_messagesOf.
    + intros ([j' m'] & -> & [Hj' Hm']%elem_messagesOf)%list_elem_of_fmap. cbn in *. congruence.
  - eapply SameMail_trans; [|exact E2]. eapply SameMail_trans; [|exact E1]. by apply SameMail_onExpunged, SameMail_onMailboxes.
Qed.

(** The messages of a mailbox go to a new one that takes over its counters. *)
Lemma inbox_step an d i b t name acc uids d' : DbOk d -> d_mailboxes d !! i = Some b -> t = d_fresh d ->
  d_mailboxes d' = alter (setModseq (mb_highestModseq b + 1)) i (<[t := mkMailbox acc name None (uv t) (mb_uidnext b) (mb_highestModseq b) true]> (d_mailboxes d)) -> NamesOk (d_mailboxes d') ->
  d_expunged d' = expunging i uids (mb_highestModseq b + 1) (d_expunged d) -> d_fresh d' = S (d_fresh d) -> uids = (fun x => m_uid x.2) <$> messagesOf d i ->
  d_messages d' = (fun m => if bool_decide (m_mailbox m = i) then rehome t (m_uid m) (m_modseq m) (m_flags m) (m_inbound m) m else m) <$> d_messages d -> Step an d d'.
Proof.
  intros Hd Hb Ht Hm HN He Hf -> Hg. pose proof (ok_structure _ Hd) as Hs. pose proof (ok_boxes _ Hd _ _ Hb) as HB.
  assert (Htn : forall x, d_mailboxes d !! t = Some x -> False). { intros x Hx. pose proof (ok_fresh _ Hs t ltac:(by eexists)). lia. } assert (Hti : t <> i) by (intros ->; by eapply Htn).
  assert (Hnot : forall j m, d_messages d !! j = Some m -> m_mailbox m <> t). { intros j m Hj E. apply (ok_home _ Hs) in Hj as [x Hx]. rewrite E in Hx. by eapply Htn. }
  assert (Hi : forall j m', d_messages d' !! j = Some m' <-> (exists m, d_messages d !! j = Some m /\ m_mailbox m = i /\ m' = rehome t (m_uid m) (m_modseq m) (m_flags m) (m_inbound m) m) \/ (d_messages d !! j = Some m' /\ m_mailbox m' <> i)).
  { intros j m'. rewrite Hg, lookup_fmap. destruct (d_messages d !! j) as [m|]; cbn; [|split; [done|by intros [(? & [=] & _)|[[=] _]]]]. case_bool_decide as Hmi.
    - split; [intros [= <-]; left; by exists m|]. intros [(? & [= <-] & _ & ->)|[[= <-] ?]]; done.
    - split; [intros [= <-]; by right|]. intros [(? & [= <-] & ? & _)|[[= <-] ?]]; done. }
  assert (Hbox : forall j, is_Some (d_mailboxes d' !! j) <-> j = t \/ is_Some (d_mailboxes d !! j)).
  { intros j. rewrite Hm, alter_is_Some. destruct (decide (t = j)) as [<-|Hne]; [rewrite lookup_insert_eq; split; [by left|by eexists]|]. rewrite lookup_insert_ne by done. split; [by right|]. by intros [->|]. }
  assert (Hlt : forall v, live d' t v <-> live d i v).
  { intros v. split.
    - intros (j & m' & [(m & Hj & Hmi & ->)|[Hj _]]%Hi & Hmt & ->); [by exists j, m|]. by apply Hnot in Hj.
    - intros (j & m & Hj & Hmi & ->). exists j, (rehome t (m_uid m) (m_modseq m) (m_flags m) (m_inbound m) m). split; [apply Hi; left; by exists m|done]. }
  assert (Hli : forall v, ~ live d' i v). { intros v (j & m' & [(m & Hj & Hmi & ->)|[Hj Hne]]%Hi & Hmt & ->); [by cbn in Hmt|done]. }
  apply Step_intro; [done| |lia|].
  - split.
    + intros j m' [(m & Hj & Hmi & ->)|[Hj _]]%Hi; apply Hbox; [by left|right; by eapply ok_home].
    + intros j u q. rewrite He, expunging_lookup. intros Hq. apply Hbox. right. destruct (d_expunged d !! (j, u)) as [x|] eqn:E; [by eapply ok_gone|]. case_bool_decide as Hju; [|done]. cbn in Hju. destruct Hju as [-> _]. by eexists.
    + intros j k m m' [(m0 & Hj & Hmi & ->)|[Hj Hmi]]%Hi [(m0' & Hk & Hmi' & ->)|[Hk Hmi']]%Hi; cbn; intros Hmm Hu; [|by eapply Hnot in Hk|by eapply Hnot in Hj|by eapply ok_unique]. eapply (ok_unique _ Hs); [done|done|congruence|done].
    + intros j [->|Hj%(ok_fresh _ Hs)]%Hbox; lia.
    + intros j [m' [(m & Hj & _)|[Hj _]]%Hi]; rewrite Hf; (assert (j < d_fresh d)%nat; [apply (ok_fresh_message _ Hs); by eexists|lia]).
    + done.
  - intros j b'. rewrite Hm. intros (b1 & Hj & Hb')%alter_lookup. destruct (decide (t = j)) as [<-|Htj].
    + right. rewrite lookup_insert_eq in Hj. destruct Hb' as [[? _]|[_ ->]]; [done|]. injection Hj as <-. split; [lia|]. split; cbn; [intros v Hv%Hlt; by apply HB|intros v Hv%Hlt; by apply HB| |apply HB].
      intros u q. rewrite He, expunging_lookup. destruct (d_expunged d !! (t, u)) as [x|] eqn:E; [apply (ok_gone _ Hs) in E as [x' E]; by apply Htn in E|]. case_bool_decide as Hju; [|done]. cbn in Hju. by destruct Hju.
    + left. rewrite lookup_insert_ne in Hj by done. exists b1. split; [done|]. destruct Hb' as [[-> ->]|[Hji ->]].
      * assert (b1 = b) as -> by congruence. split; cbn; [lia|lia|by intros v ?%Hli| | |].
        -- intros v Hv. right. split; [lia|]. intros _. exists (mb_highestModseq b + 1). split; [|lia]. rewrite He, expunging_lookup. destruct (d_expunged d !! (i, v_uid v)) as [x|] eqn:E; [exfalso; by eapply (proj2 (proj2 (box_gone _ _ _ HB _ _ E)))|].
           rewrite bool_decide_eq_true_2; [done|]. split; [done|]. destruct Hv as (k & m & Hk & Hmi & ->). apply list_elem_of_fmap. exists (k, m). split; [done|]. by apply elem_messagesOf.
        -- intros u q Hq. by rewrite He, expunging_lookup, Hq.
        -- intros u q. rewrite He, expunging_lookup. destruct (d_expunged d !! (i, u)) as [x|] eqn:E; [by left|]. case_bool_decide as Hju; [|done]. intros [= <-]. right. cbn in Hju. destruct Hju as [_ (x & -> & [Hx1 Hx2]%elem_messagesOf)%list_elem_of_fmap].
           split_and!; [lia|left; exists (seen x.2); split; [by exists x.1, x.2|done]|by intros v ?%Hli].
      * apply Evolves_same; [done|lia| |].
        -- intros v. split; intros (k & m & Hk & Hmj & ->); exists k, m; (split; [|done]).
           ++ apply Hi in Hk as [(m0 & Hk & Hmi & ->)|[Hk _]]; [by cbn in Hmj|done].
           ++ apply Hi. right. split; [done|congruence].
        -- intros u. rewrite He, expunging_lookup. rewrite bool_decide_eq_false_2 by (cbn; tauto). by destruct (d_expunged d !! (j, u)).
Qed.

(** Creating parents leaves what is there. *)
Definition Keeps (d d' : Db) : Prop := d_messages d' = d_messages d /\ d_expunged d' = d_expunged d /\ forall i b, d_mailboxes d !! i = Some b -> d_mailboxes d' !! i = Some b.

Lemma insertMailbox_keeps acc name use un q d r d' : DbOk d -> insertMailbox uv acc name use un q d = Committed r d' -> Keeps d d'.
Proof.
  intros Hd [(_ & -> & _)|(_ & _ & Hm & Hg & He & _)]%insertMailbox_inv; [done|]. split_and!; [done|done|]. intros i b Hi. rewrite Hm, lookup_insert_ne; [done|]. intros <-. pose proof (ok_fresh _ (ok_structure _ Hd) (d_fresh d) ltac:(by eexists)). lia.
Qed.

Lemma createParents_keeps acc names skip d a d' : DbOk d -> createParents uv acc names skip d = Committed a d' -> Keeps d d'.
Proof.
  revert d a. induction names as [|n names IH]; intros d a Hd H; cbn [createParents] in H; [by apply tx_ret_inv in H as [_ ->]|]. apply tx_bind_inv in H as (u & d1 & E & H). case_bool_decide; [apply tx_ret_inv in E as [_ ->]; by eapply IH|].
  apply tx_bind_inv in E as (r & d2 & E & E'). pose proof (insertMailbox_keeps _ _ _ _ _ _ _ _ Hd E) as (K1 & K2 & K3). pose proof (step_ok _ _ _ (insertMailbox_moves uv true _ _ _ 1 0 ltac:(lia) _ _ _ Hd E)) as Hd2.
  assert (HE : d_messages d1 = d_messages d2 /\ d_expunged d1 = d_expunged d2 /\ d_mailboxes d1 = d_mailboxes d2 /\ DbOk d1).
  { destruct r as [i|]; [unfold recordAudit in E'; apply exec_inv in E' as ->|by apply tx_ret_inv in E' as [_ ->]]. split_and!; [done..|]. by eapply step_ok, (Step_same true _ _ Hd2). }
  destruct HE as (H1 & H2 & H3 & Hd1). destruct (IH _ _ Hd1 H) as (L1 & L2 & L3). split_and!; [congruence|congruence|]. intros i b Hi. apply L3. rewrite H3. by apply K3.
Qed.

End mailboxes.
