(* ===== verification/MailSync.v ===== *)
(** * MailSync: what a mailbox promises to those who watch it *)
From stdpp Require Import gmap sorting.
From S2P Require Import Prelude JsString JsStringFacts MailDb MailStore MailStoreProofs.

Section mailboxes.
Context `{R : Runtime} (uv : Id -> Z).

Lemma renameInbox_step an acc to i b d a d' : DbOk d -> d_mailboxes d !! i = Some b -> renameInbox uv acc to (i, b) b d = Committed a d' -> Step an d d'.
Proof.
  intros Hd Hb H. unfold renameInbox in H. apply tx_bind_inv in H as (u & d1 & E & H). pose proof (createParents_moves uv an _ _ _ _ _ _ Hd E) as S1. destruct (createParents_keeps _ _ _ _ _ _ _ Hd E) as (_ & _ & K). specialize (K _ _ Hb).
  apply tx_bind_inv in H as (r & d2 & E2 & H). rewrite <- (andb_diag an). eapply Step_trans; [done|exact S1|]. pose proof (step_ok _ _ _ S1) as Hd1.
  destruct r as [t|]; [|done]. pose proof (insertMailbox_moves uv an _ _ _ _ _ (box_next _ _ _ (ok_boxes _ Hd1 _ _ K)) _ _ _ Hd1 E2) as S2.
  apply insertMailbox_inv in E2 as [([=] & _)|([= ->] & Hnone & Hm & Hg & He & Hf & _)]. cbn [fst snd] in *. steps H.
  set (q := mb_highestModseq b + 1) in *. unfold updateMailbox in E0. apply exec_inv in E0. unfold recordExpunged in E1. apply exec_inv in E1. apply Quiet_notify in E2, E3. unfold recordAudit in H. apply exec_inv in H.
  assert (HS : SameMail d3 d') by (rewrite H; eapply SameMail_trans; [exact E2|]; by eapply SameMail_trans).
  apply (Step_after _ _ d3); [done| |exact HS]. rewrite E1, E0.
  assert (Ha : alter (fun m => setModseq (mb_highestModseq m + 1) m) i (d_mailboxes d2) = alter (setModseq q) i (d_mailboxes d2)).
  { apply map_eq. intros j. destruct (decide (i = j)) as [<-|]; [|by rewrite !lookup_alter_ne]. rewrite !lookup_alter_eq, Hm. rewrite lookup_insert_ne, K; [done|]. intros Ei. pose proof (ok_fresh _ (ok_structure _ Hd1) i ltac:(by eexists)). lia. }
  eapply (inbox_step uv an d1 i b (d_fresh d1) to acc ((fun x => m_uid x.2) <$> messagesOf d1 i)); [done|done|done|..]; cbn.
  - by rewrite Ha, Hm.
  - apply NamesOk_alter; [done|]. apply (DbOk_names _ (step_ok _ _ _ S2)).
  - rewrite He. unfold messagesOf. by rewrite Hg.
  - done.
  - done.
  - by rewrite Hg.
Qed.

Lemma renameMailbox_step an acc from to d a d' : DbOk d -> renameMailbox uv acc from to (findMailbox d acc from) d = Committed a d' -> Step an d d'.
Proof.
  intros Hd H. unfold renameMailbox in H. case_bool_decide; [steps H; by apply Step_refl|]. destruct (negb _ && _); [steps H; by apply Step_refl|].
  destruct (findMailbox d acc from) as [[i b]|] eqn:Ef; [|steps H; by apply Step_refl]. apply findMailbox_Some in Ef as (Hb & _). steps H. cbn in L. simplify_eq.
  case_bool_decide; [by eapply renameInbox_step|by eapply renameTree_moves].
Qed.
End mailboxes.

(** ** The webmail's changes *)

(** A row goes and nothing tells of it. *)
Lemma silent_step d mb b i m q d' : DbOk d -> d_mailboxes d !! mb = Some b -> mb_highestModseq b < q -> d_messages d !! i = Some m -> m_mailbox m = mb ->
  d_mailboxes d' = alter (setModseq q) mb (d_mailboxes d) -> d_expunged d' = d_expunged d -> d_fresh d' = d_fresh d -> d_messages d' = filter (fun x => x.1 ∉ [i]) (d_messages d) -> Step false d d'.
Proof.
  intros Hd Hb Hq Hi Hmb Hm He Hf Hg.
  assert (Hrow : forall j o, d_messages d' !! j = Some o <-> d_messages d !! j = Some o /\ j <> i) by (intros j o; by rewrite Hg, map_lookup_filter_Some, list_elem_of_singleton).
  assert (HF : Fewer d d') by (intros j o [? _]%Hrow; done).
  eapply Step_one; [done| |done|done|done| |by intros; rewrite He|].
  - eapply Structure_messages; [apply Hd|intros j; rewrite Hm; apply alter_is_Some|rewrite Hm; apply NamesOk_alter; [done|by apply DbOk_names]|done|intros j o Ho; exists o; split; [by apply HF|done]|].
    intros j u. rewrite He. by left.
  - intros j v Hj. split; [by apply live_fewer|]. intros (k & o & Hk & Ho & ->). exists k, o. split; [|done]. apply Hrow. split; [done|]. intros ->. congruence.
  - split; cbn; [lia|lia|intros v Hv; left; by apply (live_fewer d d')| |by rewrite He|rewrite He; by left].
    intros v (j & o & Hj & Ho & ->). destruct (decide (j = i)) as [->|Hne]; [by right|]. left. exists (seen o). split; [|done]. exists j, o. split; [by apply Hrow|done].
Qed.

Section webmail.
Context `{R : Runtime}.

Lemma updateMessage_flags an d d' i m b flags : DbOk d -> d_messages d !! i = Some m -> d_mailboxes d !! m_mailbox m = Some b -> d_expunged d' = d_expunged d -> d_fresh d' = d_fresh d ->
  d_mailboxes d' = alter (setModseq (mb_highestModseq b + 1)) (m_mailbox m) (d_mailboxes d) -> d_messages d' = <[i := setFlags flags (mb_highestModseq b + 1) m]> (d_messages d) -> Step an d d'.
Proof.
  intros Hd Hi Hb He Hf Hm Hg. eapply (writeFlags_step an d (m_mailbox m) b [(m_uid m, flags)]); [done..|]. rewrite Hg. apply map_eq. intros j. rewrite lookup_fmap. destruct (decide (i = j)) as [<-|Hij].
  - rewrite lookup_insert_eq, Hi. cbn. rewrite bool_decide_eq_true_2 by done. unfold assoc. cbn. by rewrite Z.eqb_refl.
  - rewrite lookup_insert_ne by done. destruct (d_messages d !! j) as [o|] eqn:Ej; [|done]. cbn. case_bool_decide as Hmo; [|done]. unfold assoc. cbn. destruct (Z.eqb_spec (m_uid m) (m_uid o)) as [Hu|]; [|done].
    exfalso. apply Hij. by eapply (ok_unique _ (ok_structure _ Hd)).
Qed.

(** Without a move it is announced. *)
Lemma updateMessage_step d a d' input : DbOk d -> updateMessage input d = Committed a d' -> Step (bool_decide (u_moveTo input = None)) d d'.
Proof.
  intros Hd H. unfold updateMessage in H. steps H. destruct (d_messages d !! u_message input) as [m|] eqn:Ei; cbn in H; [|apply tx_ret_inv in H as [_ ->]; by apply Step_refl].
  destruct (d_mailboxes d !! m_mailbox m) as [b|] eqn:Eb; cbn in H; [|apply tx_ret_inv in H as [_ ->]; by apply Step_refl]. destruct (bool_decide (mb_account b = u_account input)); [|apply tx_ret_inv in H as [_ ->]; by apply Step_refl]. steps H. simplify_eq.
  assert (d0 = d) as ->. { destruct (u_ifMatch input) as [v|]; [destruct (v =? m_modseq m)|]; [by steps E|done|by steps E]. } clear E.
  destruct (if bool_decide (u_moveTo input = Some (m_mailbox m)) then None else u_moveTo input) as [t|] eqn:Et.
  - rewrite bool_decide_eq_false_2 by (intros Hn; rewrite Hn in Et; by case_bool_decide). steps H. assert (Hne : t <> m_mailbox m) by (intros ->; case_bool_decide; simplify_eq; done).
    apply insertMessage_inv in E as (-> & Hm & He & Hf & Hg & _). unfold updateCounters, updateMailbox, deleteMessages in *. steps E0. apply exec_inv in E1, E3.
    assert (Hq : SameMail d2 d3) by (destruct (trainingMove _ _ _ _); [by apply Quiet_training in E2|by apply Quiet_ret in E2]). apply Quiet_notify in E4, E5.
    set (e := onMailboxes (alter (setCounters (mb_uidnext a0 + 1) (mb_highestModseq a0 + 1)) t) d0) in *.
    assert (S1 : Step false d e) by (eapply (arrival_step false d t a0); [done|done|..]; cbn; [| | |by rewrite Hm|done|done|done]; done).
    assert (S2 : Step false e (onMailboxes (alter (setModseq (mb_highestModseq b + 1)) (m_mailbox m)) (onMessages (filter (fun x => x.1 ∉ [u_message input])) e))).
    { eapply (silent_step e (m_mailbox m) b (u_message input) m (mb_highestModseq b + 1)); [apply S1| |lia| |done|done..].
      - cbn. rewrite lookup_alter_ne, Hm; done.
      - cbn. rewrite Hg, lookup_insert_ne; [done|]. intros Efr. pose proof (ok_fresh_message _ (ok_structure _ Hd) (u_message input) ltac:(by eexists)). lia. }
    apply (Step_after _ _ _ _ Hd (Step_trans false false _ _ _ Hd S1 S2)). eapply SameMail_trans; [|exact E5]. eapply SameMail_trans; [|exact E4]. rewrite E3. apply SameMail_onMailboxes. eapply SameMail_trans; [|exact Hq]. rewrite E1. by split.
  - case_bool_decide; steps H; [by apply Step_refl|]. unfold updateMailbox, notifyMailbox in *. apply exec_inv in E, E0. subst. by eapply updateMessage_flags.
Qed.

End webmail.

(** ** Histories *)

(** What its users and loops do to the mailboxes. *)
Inductive Operation :=
  | OStoreFlags (mailbox : Id) (uids : list Z) (op : StoreOperation) (flags : list jsstr) (unchangedSince : option Z)
  | OExpunge (account mailbox : Id) (uids : option (list Z)) (reason : jsstr)
  | OCopy (source : Id) (uids : list Z) (target : Id)
  | OMove (source : Id) (uids : list Z) (target : Id)
  | OAppend (account mailbox : Id) (input : AppendInput)
  | OFile (input : FileInput)
  | OCreate (account : Id) (name : jsstr) (specialUse : option SpecialUse)
  | ODelete (account : Id) (name : jsstr)
  | ORename (account : Id) (from to : jsstr)
  | OSubscribe (account : Id) (name : jsstr) (subscribed : bool)
  | OMoveMessages (source target : Id) (messages : list Id) (clearSeen : bool)
  | ORemove (message : Id)
  | OUpdate (input : UpdateInput)
  | OPut (sha256 : jsstr)
  | ODrop (sha256 : jsstr).

(** All but the webmail's move tell IMAP clients what they take away. *)
Definition announced (op : Operation) : bool := match op with OUpdate input => bool_decide (u_moveTo input = None) | _ => true end.

Section histories.
Context `{R : Runtime} (uv : Id -> Z).

(** Each operation reads what it reads before its transaction in the database it finds. *)
Definition transaction (now : Z) (op : Operation) : TX unit :=
  match op with
  | OStoreFlags mb uids o flags since => _ ← storeFlags mb uids o flags since; mret tt
  | OExpunge acc mb uids reason => _ ← expunge acc mb uids reason; mret tt
  | OCopy src uids tgt => _ ← copy uv now src uids tgt; mret tt
  | OMove src uids tgt => _ ← move src uids tgt; mret tt
  | OAppend acc mb input => _ ← append uv now acc mb input; mret tt
  | OFile input => _ ← fileLocalMessage uv now input; mret tt
  | OCreate acc name use => createMailbox uv acc name use
  | ODelete acc name => mb ← select (fun d => findMailbox d acc name); _ ← deleteMailbox acc name mb; mret tt
  | ORename acc from to => src ← select (fun d => findMailbox d acc from); _ ← renameMailbox uv acc from to src; mret tt
  | OSubscribe acc name s => _ ← setSubscribed acc name s; mret tt
  | OMoveMessages src tgt is_ clear => _ ← moveMessages src tgt is_ clear; mret tt
  | ORemove i => m ← select (fun d => d_messages d !! i); match m with Some m => _ ← removeMessage i m; mret tt | None => mret tt end
  | OUpdate input => _ ← updateMessage input; mret tt
  | OPut sha => _ ← putBlob sha; mret tt
  | ODrop sha => _ ← release sha; mret tt
  end.

Definition run (now : Z) (op : Operation) (d : Db) : Db := after (transaction now op) d.
Definition history (ops : list (Z * Operation)) (d : Db) : Db := fold_left (fun d o => run o.1 o.2 d) ops d.

Definition emptyDb : Db := mkDb 0 ∅ ∅ ∅ ∅ ∅ ∅ [] ∅ [] [].

Lemma transaction_step now op d a d' : DbOk d -> transaction now op d = Committed a d' -> Step (announced op) d d'.
Proof.
  intros Hd H. destruct op; cbn [transaction announced] in H |- *; steps H.
  - by eapply storeFlags_moves.
  - by eapply expunge_moves.
  - by eapply copy_moves.
  - by eapply move_moves.
  - by eapply append_moves.
  - by eapply fileLocalMessage_moves.
  - by eapply createEach_moves.
  - by eapply deleteMailbox_moves.
  - by eapply renameMailbox_step.
  - by eapply setSubscribed_moves.
  - by eapply moveMessages_moves.
  - destruct (d_messages d !! message) as [m|] eqn:Em; steps H; [by eapply removeMessage_step|by apply Step_refl].
  - by eapply updateMessage_step.
  - apply Step_same; [done|]. by eapply Quiet_putBlob.
  - apply Step_same; [done|]. by eapply Quiet_release.
Qed.

Lemma run_step now op d : DbOk d -> Step (announced op) d (run now op d).
Proof. intros Hd. unfold run, after. destruct (transaction now op d) as [a d'|e] eqn:E; [by eapply transaction_step|by apply Step_refl]. Qed.

Lemma history_step ops d : DbOk d -> Step (forallb (fun o => announced o.2) ops) d (history ops d).
Proof.
  revert d. induction ops as [|o ops IH]; intros d Hd; cbn; [by apply Step_refl|]. pose proof (run_step o.1 o.2 d Hd) as S1. eapply Step_trans; [done|exact S1|]. apply IH, S1.
Qed.

Lemma emptyDb_ok : DbOk emptyDb.
Proof. split; [split; cbn|]; try (by intros ? [? ?]); by intros ?. Qed.

Lemma history_ok ops : DbOk (history ops emptyDb).
Proof. eapply step_ok, history_step, emptyDb_ok. Qed.

(** A mailbox that is there before and after. *)
Lemma history_box ops d mb b b' : DbOk d -> d_mailboxes d !! mb = Some b -> d_mailboxes (history ops d) !! mb = Some b' -> Evolves (forallb (fun o => announced o.2) ops) d (history ops d) mb b b'.
Proof.
  intros Hd Hb Hb'. destruct (step_box _ _ _ (history_step ops d Hd) mb b' Hb') as [(b0 & Hb0 & HE)|Hlt]; [by simplify_eq|]. pose proof (ok_fresh _ (ok_structure _ Hd) mb (mk_is_Some _ _ Hb)). lia.
Qed.
End histories.

(** ** What a client learns *)

Lemma elem_changedSince d mb q r : r ∈ changedSince d mb q <-> exists i m, d_messages d !! i = Some m /\ m_mailbox m = mb /\ q < m_modseq m /\ r = flagRow m.
Proof.
  unfold changedSince. rewrite list_elem_of_fmap. split.
  - intros ([i m] & -> & [Hq Hx]%list_elem_of_filter). apply elem_messagesOf in Hx as [? ?]. by exists i, m.
  - intros (i & m & Hi & Hmb & Hq & ->). exists (i, m). split; [done|]. apply list_elem_of_filter. split; [done|]. by apply elem_messagesOf.
Qed.

Lemma elem_expungedSince d mb q u : u ∈ expungedSince d mb q <-> exists q', d_expunged d !! (mb, u) = Some q' /\ q < q'.
Proof.
  unfold expungedSince. rewrite merge_sort_Permutation, list_elem_of_fmap. split.
  - intros ([[mb' u'] q'] & -> & [[Hmb Hq] Hx]%list_elem_of_filter). cbn in *. subst. exists q'. by apply elem_of_map_to_list in Hx.
  - intros (q' & Hu & Hq). exists (mb, u, q'). split; [done|]. apply list_elem_of_filter. split; [done|]. by apply elem_of_map_to_list.
Qed.

(** What a client keeps of a mailbox: the flags and the mod-sequence of each UID. *)
Abbreviation Cache := (gmap Z (list jsstr * Z)).
Definition entry (m : Message) : Z * (list jsstr * Z) := (m_uid m, (m_flags m, m_modseq m)).
Definition contents (d : Db) (mb : Id) : Cache := list_to_map ((fun x => entry x.2) <$> messagesOf d mb).

(** The client takes out the UIDs that vanished, then takes in the rows that changed (RFC 7162, section 3.2.5). *)
Definition resynchronise (cache : Cache) (vanished : list Z) (changed : list FlagRow) : Cache :=
  foldr (fun r c => <[f_uid r := (f_flags r, f_modseq r)]> c) (foldr delete cache vanished) changed.

Lemma NoDup_uids d mb : UniqueUids (d_messages d) -> NoDup (((fun x => entry x.2) <$> messagesOf d mb).*1).
Proof.
  intros HU. rewrite <- list_fmap_compose. apply NoDup_fmap_2_strong; [|eapply NoDup_fmap_1, NoDup_messagesOf].
  intros [i m] [j m'] [Hi Hmi]%elem_messagesOf [Hj Hmj]%elem_messagesOf Hu. cbn in *. assert (i = j) as -> by (eapply HU; [done|done|congruence|done]). by simplify_eq.
Qed.

Lemma contents_lookup d mb u e : UniqueUids (d_messages d) -> contents d mb !! u = Some e <-> exists i m, d_messages d !! i = Some m /\ m_mailbox m = mb /\ entry m = (u, e).
Proof.
  intros HU. unfold contents. etrans; [symmetry; apply (elem_of_list_to_map (M := gmap Z)); by apply NoDup_uids|]. rewrite list_elem_of_fmap. split.
  - intros ([i m] & E & [Hi Hm]%elem_messagesOf). by exists i, m.
  - intros (i & m & Hi & Hm & E). exists (i, m). split; [done|]. by apply elem_messagesOf.
Qed.

Lemma foldr_delete_lookup (cache : Cache) l u : foldr delete cache l !! u = if bool_decide (u ∈ l) then None else cache !! u.
Proof.
  induction l as [|x l IH]; cbn; [done|]. destruct (decide (x = u)) as [->|Hne]; [rewrite lookup_delete_eq, bool_decide_eq_true_2; [done|left]|].
  rewrite lookup_delete_ne, IH by done. erewrite bool_decide_ext; [done|]. rewrite elem_of_cons. split; [by right|]. intros [->|]; done.
Qed.

Lemma resynchronise_none cache vanished changed u : (forall r, r ∈ changed -> f_uid r <> u) -> resynchronise cache vanished changed !! u = if bool_decide (u ∈ vanished) then None else cache !! u.
Proof.
  unfold resynchronise. induction changed as [|r changed IH]; intros Hn; cbn; [apply foldr_delete_lookup|]. rewrite lookup_insert_ne by (apply Hn; left). apply IH. intros r' Hr. apply Hn. by right.
Qed.

Lemma resynchronise_some cache vanished changed r : r ∈ changed -> (forall r', r' ∈ changed -> f_uid r' = f_uid r -> r' = r) -> resynchronise cache vanished changed !! f_uid r = Some (f_flags r, f_modseq r).
Proof.
  unfold resynchronise. induction changed as [|x changed IH]; intros Hr Hu; [by apply not_elem_of_nil in Hr|]. cbn. destruct (decide (f_uid x = f_uid r)) as [E|Hne].
  - rewrite E, lookup_insert_eq. by rewrite (Hu x (list_elem_of_here _ _) E).
  - rewrite lookup_insert_ne by done. apply elem_of_cons in Hr as [->|Hr]; [done|]. apply IH; [done|]. intros r' Hr'. apply Hu. by right.
Qed.

Lemma resynchronise_exact d d' mb b b' : DbOk d -> DbOk d' -> d_mailboxes d !! mb = Some b -> d_mailboxes d' !! mb = Some b' -> Evolves true d d' mb b b' ->
  resynchronise (contents d mb) (expungedSince d' mb (mb_highestModseq b)) (changedSince d' mb (mb_highestModseq b)) = contents d' mb.
Proof.
  intros Hd Hd' Hb Hb' HE. pose proof (ok_boxes _ Hd _ _ Hb) as HB. pose proof (ok_boxes _ Hd' _ _ Hb') as HB'. pose proof (ok_unique _ (ok_structure _ Hd)) as HU. pose proof (ok_unique _ (ok_structure _ Hd')) as HU'.
  set (h := mb_highestModseq b) in *. apply map_eq. intros u. destruct (decide (u ∈ f_uid <$> changedSince d' mb h)) as [(r & -> & Hr)%list_elem_of_fmap|Hn].
  - rewrite resynchronise_some; [|done|].
    + apply elem_changedSince in Hr as (i & m & Hi & Hm & _ & ->). symmetry. apply contents_lookup; [done|]. by exists i, m.
    + intros r' (j & m' & Hj & Hm' & _ & ->)%elem_changedSince Eu. apply elem_changedSince in Hr as (i & m & Hi & Hm & _ & ->). cbn in Eu. assert (j = i) as -> by (eapply HU'; [done|done|congruence|done]). by simplify_eq.
  - assert (Hnone : ~ exists r, r ∈ changedSince d' mb h /\ f_uid r = u) by (intros (r & Hr & <-); by apply Hn, list_elem_of_fmap_2). rewrite resynchronise_none by naive_solver. apply option_eq. intros e. rewrite contents_lookup by done. case_bool_decide as Hv.
    + split; [done|]. intros (i & m & Hi & Hm & [= Eu _]). exfalso. apply elem_expungedSince in Hv as (q & Hq & _). eapply (proj2 (proj2 (box_gone _ _ _ HB' _ _ Hq)) (seen m)); [by exists i, m|done].
    + rewrite contents_lookup by done. split.
      * intros (i & m & Hi & Hm & [= Eu Ee]). destruct (evolves_lost _ _ _ _ _ _ HE (seen m)) as [(v & Hv' & Evu)|[_ Hq']]; [by exists i, m| |destruct (Hq' eq_refl) as (q & Hq & Hlt)].
        -- pose proof Hv' as Hw. destruct Hv' as (j & m' & Hj & Hm' & ->). apply (evolves_live _ _ _ _ _ _ HE) in Hw as [(k & m0 & Hk & Hk' & E0)|[Hlt _]].
           ++ assert (k = i) as -> by (eapply HU; [done|done|congruence|unfold seen in *; cbn in *; congruence]). simplify_eq. exists j, m'. split_and!; [done|done|]. unfold entry, seen in *. congruence.
           ++ exfalso. apply Hnone. exists (flagRow m'). split; [apply elem_changedSince; exists j, m'; cbn in *; split_and!; [done|done|lia|done]|by rewrite <- Eu].
        -- exfalso. apply Hv, elem_expungedSince. exists q. rewrite <- Eu. done.
      * intros (j & m' & Hj & Hm' & [= Eu Ee]). destruct (evolves_live _ _ _ _ _ _ HE (seen m')) as [(i & m & Hi & Hm & E)|[Hlt _]]; [by exists j, m'| |].
        -- exists i, m. split_and!; [done|done|]. unfold entry, seen in *. congruence.
        -- exfalso. apply Hnone. exists (flagRow m'). split; [apply elem_changedSince; exists j, m'; cbn in *; split_and!; [done|done|lia|done]|done].
Qed.

Section promises.
Context `{R : Runtime} (uv : Id -> Z).

Lemma live_unique d mb v v' : DbOk d -> live d mb v -> live d mb v' -> v_uid v = v_uid v' -> v = v'.
Proof. intros Hd (i & m & Hi & Hm & ->) (j & m' & Hj & Hm' & ->) Hu. cbn in Hu. assert (i = j) as -> by (eapply (ok_unique _ (ok_structure _ Hd)); [done|done|congruence|done]). congruence. Qed.

(** A UID that is there later was there before, with the same content, unless it is new. *)
Lemma evolves_uid an d d' mb b b' v : BoxOk d mb b -> Evolves an d d' mb b b' -> live d' mb v -> v_uid v < mb_uidnext b -> exists v0, live d mb v0 /\ v_uid v0 = v_uid v /\ v_blob v0 = v_blob v.
Proof. intros HB HE Hv Hlt. destruct (evolves_live _ _ _ _ _ _ HE v Hv) as [Hv0|(_ & [(v0 & Hv0 & Eu & Eb)|Hu])]; [by exists v|by exists v0|lia]. Qed.



(** What filing needs of the mailbox. *)
Lemma lockOrCreate_succeeds acc name d : DbOk d -> exists i b d1, lockOrCreateMailbox uv acc name d = Committed (i, b) d1 /\ DbOk d1 /\ d_mailboxes d1 !! i = Some b /\ d_blobs d1 = d_blobs d /\
  mb_uidnext b = default 1 ((fun x => mb_uidnext x.2) <$> findMailbox d acc name) /\ (forall x, findMailbox d acc name = Some x -> x = (i, b)).
Proof.
  intros Hd. unfold lockOrCreateMailbox, mbind, TX_bind. destruct (insertMailbox uv acc name (specialUseByName name) 1 0 d) as [r d1|e] eqn:E; [|unfold insertMailbox in E; by destruct (findMailbox d acc name)].
  pose proof (step_ok _ _ _ (insertMailbox_moves uv true _ _ _ 1 0 ltac:(lia) _ _ _ Hd E)) as Hd1. pose proof E as E'. apply insertMailbox_inv in E as [(-> & -> & [i b] & Hf)|(-> & Hn & Hm & _ & _ & _ & Hb)]; cbn.
  - rewrite Hf. exists i, b, d. split_and!; [done|done|by apply findMailbox_Some in Hf as [? _]|done|done|by intros x [= <-]].
  - assert (Hnew : d_mailboxes d1 !! d_fresh d = Some (mkMailbox acc name (specialUseByName name) (uv (d_fresh d)) 1 0 true)) by (by rewrite Hm, lookup_insert_eq).
    destruct (findMailbox d1 acc name) as [[i b]|] eqn:Hf; [|exfalso; by eapply (findMailbox_None _ _ _ Hf _ _ Hnew)]. apply findMailbox_Some in Hf as (Hi & Ha & Hname).
    assert (i = d_fresh d) as -> by (by eapply (DbOk_names _ Hd1)). rewrite Hnew in Hi. injection Hi as <-. rewrite Hn. by eexists _, _, d1.
Qed.

Lemma putMessage_succeeds i m d b : d_mailboxes d !! m_mailbox m = Some b -> is_Some (d_blobs d !! m_blob m) -> m_uid m <= MAX_INT4 -> m_inbound m = None ->
  (forall j o, d_messages d !! j = Some o -> m_mailbox o = m_mailbox m -> m_uid o <> m_uid m) -> putMessage i m d = Committed tt (onMessages <[i := m]> d).
Proof.
  intros Hb Hblob Hu Hin Hn. unfold putMessage, constraint. rewrite Hb, (bool_decide_eq_true_2 (is_Some (Some b))), (bool_decide_eq_true_2 (is_Some (d_blobs d !! m_blob m))) by (done || by eexists). apply Z.leb_le in Hu. rewrite Hu.
  assert (H1 : another d i (fun o => bool_decide (m_mailbox o = m_mailbox m) && (m_uid o =? m_uid m)) = false).
  { apply another_false. intros j o Hj _. apply not_true_iff_false. rewrite andb_true_iff, bool_decide_eq_true, Z.eqb_eq. intros [Hmb Hu']. by eapply Hn. }
  assert (H2 : another d i (fun o => bool_decide (m_mailbox o = m_mailbox m) && bool_decide (is_Some (m_inbound m)) && bool_decide (m_inbound o = m_inbound m)) = false).
  { apply another_false. intros j o Hj _. rewrite (bool_decide_eq_false_2 (is_Some (m_inbound m))); [by rewrite andb_false_r|]. rewrite Hin. by intros [? [=]]. }
  by rewrite H1, H2.
Qed.

(** Filing does not fail for its UID: in any database its operations can reach, a message whose content is
    stored goes into its mailbox, which is made if it has to be, under the mailbox's next UID. *)
Theorem filing_succeeds ops now input :
  let d := history uv ops emptyDb in
  is_Some (d_blobs d !! fi_blob input) -> (forall x, findMailbox d (fi_account input) (fi_mailbox input) = Some x -> mb_uidnext x.2 < MAX_INT4) ->
  exists filed d', fileLocalMessage uv now input d = Committed filed d' /\
    filed_uid filed = default 1 ((fun x => mb_uidnext x.2) <$> findMailbox d (fi_account input) (fi_mailbox input)) /\
    probe d' (filed_mailbox filed) = Some (filed_uid filed + 1, filed_modseq filed) /\
    live d' (filed_mailbox filed) (mkSeen (filed_uid filed) (filed_modseq filed) (fi_flags input) (fi_blob input)).
Proof.
  intros d Hblob Hmax. assert (Hd : DbOk d) by apply history_ok. destruct (lockOrCreate_succeeds (fi_account input) (fi_mailbox input) d Hd) as (i & b & d1 & E & Hd1 & Hb & Hbl & Hnext & Hx).
  assert (Hlt : mb_uidnext b < MAX_INT4). { destruct (findMailbox d _ _) as [x|]; [specialize (Hmax x eq_refl); rewrite (Hx x eq_refl) in Hmax; exact Hmax|]. rewrite Hnext. done. }
  unfold fileLocalMessage, mbind, TX_bind. rewrite E. cbn [fst snd]. set (m := mkMessage _ _ _ _ _ _ _ _ _ _).
  pose proof (putMessage_succeeds (d_fresh d1) m (mkDb (S (d_fresh d1)) (d_mailboxes d1) (d_messages d1) (d_expunged d1) (d_blobs d1) (d_search d1) (d_verdicts d1) (d_training d1) (d_correspondents d1) (d_audit d1) (d_notified d1)) b Hb) as Hput.
  unfold insertMessage, mbind, TX_bind, freshId. rewrite Hput; cbn; [|by rewrite Hbl|lia|done|].
  - unfold updateCounters, constraint, mbind, TX_bind. rewrite (proj2 (Z.leb_le _ _)) by lia. cbn. eexists _, _. split_and!; [done|done| |].
    + unfold probe. cbn. by rewrite lookup_alter_eq, Hb.
    + exists (d_fresh d1), m. cbn. by rewrite lookup_insert_eq.
  - intros j o Hj Ho Hu. pose proof (box_uid _ _ _ (ok_boxes _ Hd1 _ _ Hb) (seen o) ltac:(by exists j, o)) as Hlt'. cbn in Hlt'. lia.
Qed.
End promises.

(** ** Examples *)

Definition mail_runtime : Runtime := {| uni_upper s := s; uni_lower s := s; big_string _ := []; isIPv6 _ := false |}.
Definition demo_uv (i : Id) : Z := 1000 + Z.of_nat i.
Definition demo_file (sha : string) : FileInput := mkFile 7%nat INBOX (js sha) 10 0 [].

(** Two messages come to INBOX, one is read, the other deleted; the client was there in between. *)
Definition demo_arrive : list (Z * Operation) := [(1, OPut (js "aa")); (2, OFile (demo_file "aa")); (3, OPut (js "bb")); (4, OFile (demo_file "bb"))].
Definition demo_later : list (Z * Operation) :=
  [(5, OStoreFlags 0%nat [1] OpAdd [SEEN] None); (6, OStoreFlags 0%nat [2] OpAdd [DELETED] None); (7, OExpunge 7%nat 0%nat None (js "expunge")); (8, OPut (js "cc")); (9, OFile (demo_file "cc"))].
Notation demo_run ops d := (history (R := mail_runtime) demo_uv ops d).
Definition demo_d1 : Db := demo_run demo_arrive emptyDb.
Definition demo_d2 : Db := demo_run demo_later demo_d1.



Lemma filing_succeeds_witness : exists filed d', fileLocalMessage demo_uv 10 (demo_file "aa") demo_d1 = Committed filed d' /\ filed_uid filed = 3.
Proof.
  destruct (filing_succeeds (R := mail_runtime) demo_uv demo_arrive 10 (demo_file "aa")) as (filed & d' & H1 & H2 & _).
  - eexists. vm_compute. reflexivity.
  - intros x Hx. vm_compute in Hx. injection Hx as <-. reflexivity.
  - exists filed, d'. split; [exact H1|]. rewrite H2. vm_compute. reflexivity.
Defined.

(** The webmail moves a message out of INBOX: its UID is in no [expungedSince], and the client keeps it. *)
Example webmail_move_stays_in_caches :
  let d2 := demo_run [(5, OCreate 7%nat (js "Archive") None); (6, OUpdate (mkUpdate 7%nat 1%nat None [] [] (Some 3%nat)))] demo_d1 in
  map_to_list (contents d2 0%nat) = [(2, ([], 2))] /\ expungedSince d2 0%nat 2 = [] /\
  map_to_list (resynchronise (contents demo_d1 0%nat) (expungedSince d2 0%nat 2) (changedSince d2 0%nat 2)) = [(2, ([], 2)); (1, ([], 1))].
Proof. vm_compute. done. Qed.

(** RENAME of INBOX reads the mailbox before it locks it: what is filed between goes to the new mailbox, whose
    next UID is one of those it has, and no message can be filed there any more. *)
Example rename_of_inbox_reads_too_early :
  let stale := findMailbox demo_d1 7%nat INBOX in
  let d2 := demo_run [(5, OPut (js "cc")); (6, OFile (demo_file "cc"))] demo_d1 in
  let d3 := after (renameMailbox demo_uv 7%nat INBOX (js "Old") stale) d2 in
  (fun x => (x.1, mb_uidnext x.2)) <$> findMailbox d3 7%nat (js "Old") = Some (4%nat, 3) /\ (fun x => m_uid x.2) <$> messagesOf d3 4%nat = [1; 2; 3] /\
  fileLocalMessage demo_uv 8 (mkFile 7%nat (js "Old") (js "aa") 10 0 []) d3 = Aborted (Violation (js "message_mailbox_id_uid_key")).
Proof. vm_compute. done. Qed.

(** [left(name, n)] counts characters and [length] UTF-16 units: the children of a mailbox outside the Basic
    Multilingual Plane are not found. *)
Example children_of_an_emoji_are_not_found :
  let from := [0xd83d; 0xdcec] in let child := from ++ js "/a" in isSelfOrChild child from = true /\ isBelow from child = false.
Proof. done. Qed.
