(* ===== verification/MailBlobs.v ===== *)
(** * MailBlobs: the reference counts of stored contents

    [blobstore/src/store.ts] keeps a count with each content. The messages that hold a content and the references
    its users took with [put] and have not given to a message yet add up to it. *)
From stdpp Require Import gmap sorting.
From S2P Require Import Prelude JsString JsStringFacts MailDb MailStore MailStoreProofs MailSync.

(** ** Counting *)

Definition blobsOf (d : Db) : gmap Id jsstr := m_blob <$> d_messages d.
Definition refsIn (t : gmap Id jsstr) (s : jsstr) : Z := Z.of_nat (size (filter (fun x => x.2 = s) t)).
Definition refs (d : Db) (s : jsstr) : Z := refsIn (blobsOf d) s.
Definition counted (d : Db) (s : jsstr) : Z := default 0 (d_blobs d !! s).

(** The references no message holds. *)
Definition slack (d : Db) (s : jsstr) : Z := counted d s - refs d s.

Definition one (sha s : jsstr) : Z := if bool_decide (s = sha) then 1 else 0.
Definition sumOf (l : list jsstr) (s : jsstr) : Z := foldr (fun sha n => one sha s + n) 0 l.

Lemma sumOf_cons b l s : sumOf (b :: l) s = one b s + sumOf l s.
Proof. done. Qed.
#[local] Arguments sumOf : simpl never.

Lemma refsIn_insert t i b s : t !! i = None -> refsIn (<[i := b]> t) s = refsIn t s + one b s.
Proof.
  intros Hi. unfold refsIn, one. case_bool_decide as Hs.
  - rewrite map_filter_insert_True by done. rewrite map_size_insert_None; [lia|]. apply map_lookup_filter_None. by left.
  - rewrite map_filter_insert_not'; [lia|cbn; congruence|]. intros y Hy. congruence.
Qed.

Lemma refsIn_delete t i b s : t !! i = Some b -> refsIn (delete i t) s = refsIn t s - one b s.
Proof.
  intros Hi. rewrite <- (insert_delete_id t i b Hi) at 2. rewrite refsIn_insert by apply lookup_delete_eq. lia.
Qed.

Lemma refsIn_filter (l : list Id) t s : NoDup l -> (forall i, i ∈ l -> is_Some (t !! i)) -> refsIn (filter (fun x => x.1 ∉ l) t) s = refsIn t s - sumOf (omap (fun i => t !! i) l) s.
Proof.
  intros HN. induction HN as [|i l Hi HN IH]; intros Hl; cbn.
  - rewrite map_filter_id; [unfold sumOf; cbn; lia|]. intros i b _. cbn. apply not_elem_of_nil.
  - assert (E : filter (fun x : Id * jsstr => x.1 ∉ i :: l) t = delete i (filter (fun x => x.1 ∉ l) t)).
    { apply map_eq. intros j. apply option_eq. intros b. rewrite lookup_delete_Some, !map_lookup_filter_Some. cbn. rewrite not_elem_of_cons. naive_solver. }
    destruct (Hl i (list_elem_of_here _ _)) as [b Hb]. rewrite E, (refsIn_delete _ _ b) by by apply map_lookup_filter_Some. rewrite IH by (intros j Hj; apply Hl; by right). rewrite Hb.
    rewrite sumOf_cons. lia.
Qed.

Lemma refsIn_nonneg t s : 0 <= refsIn t s.
Proof. unfold refsIn. lia. Qed.

Lemma refsIn_pos t i s : t !! i = Some s -> 0 < refsIn t s.
Proof. intros Hi. pose proof (refsIn_delete t i s s Hi) as E. pose proof (refsIn_nonneg (delete i t) s). unfold one in E. rewrite bool_decide_eq_true_2 in E by done. lia. Qed.

Lemma refsIn_zero t s : (forall i, t !! i <> Some s) -> refsIn t s = 0.
Proof. intros H. unfold refsIn. rewrite map_empty_filter_2; [done|]. intros i b Hi E. cbn in E. subst. by apply (H i). Qed.

Lemma one_nonneg sha s : 0 <= one sha s.
Proof. unfold one. case_bool_decide; lia. Qed.
Lemma sumOf_nonneg l s : 0 <= sumOf l s.
Proof. induction l as [|x l IH]; [done|]. rewrite sumOf_cons. pose proof (one_nonneg x s). lia. Qed.
Lemma sumOf_permutation l l' s : l ≡ₚ l' -> sumOf l s = sumOf l' s.
Proof. induction 1; rewrite ?sumOf_cons in *; lia. Qed.
Lemma sumOf_count l s : sumOf l s = countText s l.
Proof.
  unfold countText. induction l as [|x l IH]; [done|]. rewrite sumOf_cons, IH, filter_cons. unfold one. case_bool_decide as Hs; [rewrite decide_True by congruence|rewrite decide_False by congruence]; cbn [length]; lia.
Qed.

(** ** What a transaction does to the counts *)

Definition IdsOk (d : Db) : Prop := forall i, is_Some (d_messages d !! i) -> (i < d_fresh d)%nat.
Definition Positive (d : Db) : Prop := forall s n, d_blobs d !! s = Some n -> 0 < n.

Definition Pays (f : jsstr -> Z) (d d' : Db) : Prop := IdsOk d' /\ Positive d' /\ forall s, slack d' s = slack d s + f s.
Definition Charges {A} (m : TX A) (f : jsstr -> Z) : Prop := forall d a d', IdsOk d -> Positive d -> m d = Committed a d' -> Pays f d d'.
Definition nothing (s : jsstr) : Z := 0.

Lemma Pays_trans f g d1 d2 d3 : Pays f d1 d2 -> Pays g d2 d3 -> Pays (fun s => f s + g s) d1 d3.
Proof. intros (H1 & H2 & H3) (K1 & K2 & K3). split_and!; [done|done|]. intros s. rewrite K3, H3. lia. Qed.

Lemma Pays_ext f g d d' : (forall s, f s = g s) -> Pays f d d' -> Pays g d d'.
Proof. intros E (H1 & H2 & H3). split_and!; [done|done|]. intros s. by rewrite H3, E. Qed.

Lemma Charges_bind {A B} (m : TX A) (k : A -> TX B) f g : Charges m f -> (forall a, Charges (k a) g) -> Charges (x ← m; k x) (fun s => f s + g s).
Proof. intros Hm Hk d b d' HI HP (a & d1 & E1 & E2)%tx_bind_inv. pose proof (Hm _ _ _ HI HP E1) as H1. eapply Pays_trans; [exact H1|]. eapply Hk; [apply H1|apply H1|exact E2]. Qed.

(** The statements that change no content of a message and no count. *)
Record SameBlobs (d d' : Db) : Prop := { same_refs : blobsOf d' = blobsOf d; same_counts : d_blobs d' = d_blobs d; same_ids : (d_fresh d <= d_fresh d')%nat }.
Definition Still {A} (m : TX A) : Prop := forall d a d', m d = Committed a d' -> SameBlobs d d'.

Lemma SameBlobs_refl d : SameBlobs d d.
Proof. split; [done|done|lia]. Qed.
Lemma SameBlobs_trans d1 d2 d3 : SameBlobs d1 d2 -> SameBlobs d2 d3 -> SameBlobs d1 d3.
Proof. intros [H1 H2 H3] [K1 K2 K3]. split; [congruence|congruence|lia]. Qed.

Lemma SameBlobs_pays d d' : IdsOk d -> Positive d -> SameBlobs d d' -> Pays nothing d d'.
Proof.
  intros HI HP [H1 H2 H3]. split_and!.
  - intros i Hi. enough (is_Some (d_messages d !! i)) as K%HI by lia. assert (E : is_Some (blobsOf d' !! i)) by (unfold blobsOf; by rewrite lookup_fmap, fmap_is_Some). rewrite H1 in E. unfold blobsOf in E. by rewrite lookup_fmap, fmap_is_Some in E.
  - unfold Positive. by rewrite H2.
  - intros s. unfold slack, refs, counted, nothing. rewrite H1, H2. lia.
Qed.

Lemma Still_charges {A} (m : TX A) : Still m -> Charges m nothing.
Proof. intros Hm d a d' HI HP E. by eapply SameBlobs_pays, Hm. Qed.
Lemma Still_bind {A B} (m : TX A) (k : A -> TX B) : Still m -> (forall a, Still (k a)) -> Still (x ← m; k x).
Proof. intros Hm Hk d b d' (a & d1 & E1 & E2)%tx_bind_inv. eapply SameBlobs_trans; [by eapply Hm|by eapply Hk]. Qed.
Lemma Still_ret {A} (x : A) : Still (mret x).
Proof. intros d a d' [_ ->]%tx_ret_inv. apply SameBlobs_refl. Qed.
Lemma Still_abort {A} e : Still (abort (A := A) e).
Proof. by intros d a d'. Qed.
Lemma Still_select {A} (f : Db -> A) : Still (select f).
Proof. intros d a d' [_ ->]%select_inv. apply SameBlobs_refl. Qed.
Lemma Still_lock i : Still (lockMailbox i).
Proof. intros d a d' [_ ->]%lock_inv. apply SameBlobs_refl. Qed.
Lemma Still_exec f : (forall d, SameBlobs d (f d)) -> Still (exec f).
Proof. intros Hf d a d' ->%exec_inv. apply Hf. Qed.
Lemma Still_constraint n b : Still (constraint n b).
Proof. unfold constraint. destruct b; [apply Still_ret|apply Still_abort]. Qed.
Lemma Still_forEach {A} (l : list A) f : (forall x, Still (f x)) -> Still (forEach l f).
Proof. intros Hf. induction l as [|x l IH]; [apply Still_ret|]. by apply Still_bind. Qed.

(** An [exec] that leaves the messages and the counts. *)
Lemma Still_other f : (forall d, d_messages (f d) = d_messages d /\ d_blobs (f d) = d_blobs d /\ d_fresh (f d) = d_fresh d) -> Still (exec f).
Proof. intros Hf. apply Still_exec. intros d. destruct (Hf d) as (H1 & H2 & H3). split; [by unfold blobsOf; rewrite H1|done|lia]. Qed.

(** An [exec] that changes messages but not their contents. *)
Lemma Still_messages f : (forall t, m_blob <$> f t = m_blob <$> t) -> Still (exec (onMessages f)).
Proof. intros Hf. apply Still_exec. intros d. split; [apply Hf|done|done]. Qed.

(** ** The statements *)

Lemma Still_notify i : Still (notifyMailbox i).
Proof. by apply Still_other. Qed.
Lemma Still_audit e : Still (recordAudit e).
Proof. by apply Still_other. Qed.
Lemma Still_training a m v l : Still (recordTraining a m v l).
Proof. by apply Still_other. Qed.
Lemma Still_expunged i l q : Still (recordExpunged i l q).
Proof. by apply Still_other. Qed.
Lemma Still_mailbox f i : Still (updateMailbox f i).
Proof. by apply Still_other. Qed.
Lemma Still_counters u q i : Still (updateCounters u q i).
Proof. apply Still_bind; [apply Still_constraint|]. intros _. apply Still_mailbox. Qed.
Lemma Still_columns f i : Still (updateColumns f i).
Proof.
  apply Still_messages. intros t. apply map_eq. intros j. rewrite !lookup_fmap. destruct (decide (i = j)) as [->|]; [|by rewrite lookup_alter_ne]. rewrite lookup_alter_eq. by destruct (t !! j).
Qed.
Lemma Still_copySearch i j : Still (copySearch i j).
Proof. by apply Still_other. Qed.
Lemma Still_copyVerdict i j : Still (copyVerdict i j).
Proof. by apply Still_other. Qed.
#[export] Hint Resolve Still_ret Still_abort Still_select Still_lock Still_constraint Still_notify Still_audit Still_training Still_expunged Still_mailbox Still_counters Still_columns Still_copySearch Still_copyVerdict Still_bind : blobs.

Lemma Still_updateName n i : Still (updateName n i).
Proof.
  intros d a d' H. unfold updateName in H. destruct (d_mailboxes d !! i); [|injection H as _ <-; apply SameBlobs_refl]. steps H. by split.
Qed.
Lemma Still_harvest `{R : Runtime} acc l t : Still (harvestSentRecipients acc l t).
Proof. apply Still_forEach. intros x. by apply Still_other. Qed.
Lemma Still_trainCopies `{R : Runtime} a src l seen_ : Still (trainCopies a src l seen_).
Proof.
  revert seen_. induction l as [|c l IH]; intros seen_; cbn; [auto with blobs|]. case_match; [done|]. apply Still_bind; [auto with blobs|]. intros [mb|]; [|done]. case_match; auto with blobs.
Qed.
Lemma Still_copyMoves `{R : Runtime} a src l : Still (recordCopyMoves a src l).
Proof.
  unfold recordCopyMoves. apply Still_bind; [auto with blobs|]. intros [s|]; [|auto with blobs]. case_match; [auto with blobs|]. apply Still_bind; [auto with blobs|]. intros. apply Still_trainCopies.
Qed.
Lemma Still_insertMailbox uv acc name use un q : Still (insertMailbox uv acc name use un q).
Proof.
  intros d r d' [(_ & -> & _)|(_ & _ & _ & Hg & _ & Hf & Hb)]%insertMailbox_inv; [apply SameBlobs_refl|]. split; [by unfold blobsOf; rewrite Hg|done|lia].
Qed.
#[export] Hint Resolve Still_updateName Still_harvest Still_trainCopies Still_copyMoves Still_insertMailbox : blobs.
Lemma Still_createParents uv acc names skip : Still (createParents uv acc names skip).
Proof.
  induction names as [|n names IH]; cbn [createParents]; [auto with blobs|]. apply Still_bind; [|done]. case_match; [auto with blobs|]. apply Still_bind; [auto with blobs|]. intros [i|]; auto with blobs.
Qed.
Lemma Still_createEach uv acc name use names : Still (createEach uv acc name use names).
Proof.
  induction names as [|n names IH]; cbn [createEach]; [auto with blobs|]. apply Still_bind; [auto with blobs|]. intros r. apply Still_bind; [|done]. destruct r; [auto with blobs|]. case_match; auto with blobs.
Qed.
#[export] Hint Resolve Still_createParents Still_createEach : blobs.

(** A row of the same content. *)
Lemma put_same_blob d i m m' : d_messages d !! i = Some m -> m_blob m' = m_blob m -> SameBlobs d (onMessages <[i := m']> d).
Proof. intros Hi Hb. split; [|done|done]. unfold blobsOf. cbn. rewrite fmap_insert, Hb. apply insert_id. by rewrite lookup_fmap, Hi. Qed.

Lemma moveRows_still tgt q fl rows next : (Still (moveRows tgt q fl rows next)).
Proof.
  revert next. induction rows as [|r rows IH]; intros next; cbn [moveRows]; [auto with blobs|]. apply Still_bind; [|intros _; apply Still_bind; [done|intros [? ?]; auto with blobs]].
  intros d a d' H. destruct (d_messages d !! r.1) as [m|] eqn:Ei; [|unfold moveRow in H; rewrite Ei in H; injection H as _ <-; apply SameBlobs_refl]. destruct (moveRow_inv _ _ _ _ _ _ _ _ _ Ei H) as (m' & -> & _ & _ & _ & Hb & _). by apply (put_same_blob d r.1 m).
Qed.
#[export] Hint Resolve moveRows_still : blobs.

Lemma insertMessage_charges m : Charges (insertMessage m) (fun s => - one (m_blob m) s).
Proof.
  intros d i d' HI HP (-> & Hm & _ & Hf & Hg & Hb & _)%insertMessage_inv. assert (Hn : d_messages d !! d_fresh d = None) by (apply eq_None_not_Some; intros K%HI; lia). split_and!.
  - intros j [o Hj]. rewrite Hg in Hj. rewrite Hf. destruct (decide (d_fresh d = j)) as [<-|]; [lia|]. rewrite lookup_insert_ne in Hj by done. pose proof (HI j ltac:(by eexists)). lia.
  - unfold Positive. by rewrite Hb.
  - intros s. unfold slack, refs, counted, blobsOf. rewrite Hb, Hg, fmap_insert, refsIn_insert; [lia|]. by rewrite lookup_fmap, Hn.
Qed.

Lemma counts_pays d f b : IdsOk d -> (forall s n, b !! s = Some n -> 0 < n) -> (forall s, default 0 (b !! s) = counted d s + f s) -> Pays f d (onBlobs (fun _ => b) d).
Proof. intros HI Hb Hf. split_and!; [done|done|]. intros s. unfold slack. unfold counted at 1. cbn. rewrite Hf. change (refs (onBlobs (fun _ => b) d) s) with (refs d s). lia. Qed.

Lemma putBlob_charges sha : Charges (putBlob sha) (one sha).
Proof.
  intros d a d' HI HP H. unfold putBlob in H. destruct (d_blobs d !! sha) as [n|] eqn:E; injection H as _ <-.
  - apply (counts_pays d (one sha) (<[sha := n + 1]> (d_blobs d))); [done| |].
    + intros s x [[<- <-]|[_ Hs]]%lookup_insert_Some; [|by eapply HP]. apply HP in E. lia.
    + intros s. unfold counted, one. case_bool_decide as Hs; [subst; rewrite lookup_insert_eq, E; cbn; lia|]. rewrite lookup_insert_ne by done. lia.
  - apply (counts_pays d (one sha) (<[sha := 1]> (d_blobs d))); [done| |].
    + intros s x [[<- <-]|[_ Hs]]%lookup_insert_Some; [lia|by eapply HP].
    + intros s. unfold counted, one. case_bool_decide as Hs; [subst; rewrite lookup_insert_eq, E; cbn; lia|]. rewrite lookup_insert_ne by done. lia.
Qed.

Lemma release_charges sha : Charges (release sha) (fun s => - one sha s).
Proof.
  intros d a d' HI HP H. unfold release in H. destruct (d_blobs d !! sha) as [n|] eqn:E; [|done]. pose proof (HP _ _ E). destruct (Z.leb_spec n 1).
  - steps H. apply (counts_pays d (fun s => - one sha s) (delete sha (d_blobs d))); [done| |].
    + intros s x [_ Hs]%lookup_delete_Some. by eapply HP.
    + intros s. unfold counted, one. case_bool_decide as Hs; [subst; rewrite lookup_delete_eq, E; cbn; lia|]. rewrite lookup_delete_ne by done. lia.
  - injection H as _ <-. apply (counts_pays d (fun s => - one sha s) (<[sha := n - 1]> (d_blobs d))); [done| |].
    + intros s x [[<- <-]|[_ Hs]]%lookup_insert_Some; [lia|by eapply HP].
    + intros s. unfold counted, one. case_bool_decide as Hs; [subst; rewrite lookup_insert_eq, E; cbn; lia|]. rewrite lookup_insert_ne by done. lia.
Qed.

Lemma releaseAll_charges l : Charges (releaseAll l) (fun s => - sumOf l s).
Proof.
  induction l as [|sha l IH]; cbn [releaseAll].
  - intros d a d' HI HP E. eapply Pays_ext; [|by eapply (Still_charges _ (Still_ret _))]. done.
  - intros d a d' HI HP E. eapply Pays_ext; [|eapply (Charges_bind _ _ (fun s => - one sha s) (fun s => - sumOf l s + nothing s)); [apply release_charges| |exact HI|exact HP|exact E]].
    + intros s. rewrite sumOf_cons. unfold nothing. lia.
    + intros n. apply Charges_bind; [done|]. intros gone. apply Still_charges. auto with blobs.
Qed.

(** Rows that are there go. *)
Lemma deleteMessages_pays rows d : IdsOk d -> Positive d -> NoDup rows.*1 -> (forall x, x ∈ rows -> d_messages d !! x.1 = Some x.2) ->
  Pays (sumOf ((fun x => m_blob x.2) <$> rows)) d (after (deleteMessages rows.*1) d).
Proof.
  intros HI HP HN Hr. cbn. split_and!; [|done|].
  - intros i [m [Hi _]%map_lookup_filter_Some]. apply HI. by eexists.
  - intros s. unfold slack, refs, blobsOf, counted. cbn.
    assert (E : m_blob <$> filter (fun x : Id * Message => x.1 ∉ rows.*1) (d_messages d) = filter (fun x => x.1 ∉ rows.*1) (m_blob <$> d_messages d)).
    { apply map_eq. intros j. apply option_eq. intros b. rewrite lookup_fmap, fmap_Some, map_lookup_filter_Some, lookup_fmap, fmap_Some. setoid_rewrite map_lookup_filter_Some. cbn. naive_solver. }
    rewrite E, refsIn_filter; [|done|].
    + enough (omap (fun i => (m_blob <$> d_messages d) !! i) rows.*1 = (fun x => m_blob x.2) <$> rows) as -> by lia. clear -Hr. induction rows as [|x rows IH]; [done|]. cbn. rewrite lookup_fmap, (Hr x (list_elem_of_here _ _)). cbn. f_equal. apply IH. intros y Hy. apply Hr. by right.
    + intros i ([j m] & -> & Hx)%list_elem_of_fmap. rewrite lookup_fmap, (Hr _ Hx). by eexists.
Qed.

(** ** The operations *)

Section operations.
Context `{R : Runtime} (uv : Id -> Z) (now : Z).

Lemma storeFlags_still mb uids op fl since : Still (storeFlags mb uids op fl since).
Proof.
  unfold storeFlags. case_match; [auto with blobs|]. apply Still_bind; [auto with blobs|]. intros hm. apply Still_bind; [auto with blobs|]. intros current. case_match; [auto with blobs|]. apply Still_bind; [|auto with blobs].
  apply Still_messages. intros t. apply map_eq. intros j. rewrite !lookup_fmap. destruct (t !! j) as [m|]; [|done]. cbn. by repeat case_match.
Qed.

Lemma move_still src uids tgt : Still (move src uids tgt).
Proof.
  unfold move. apply Still_bind; [auto with blobs|]. intros target. apply Still_bind; [auto with blobs|]. intros source. apply Still_bind; [auto with blobs|]. intros rows. case_match; [auto with blobs|]. apply Still_bind; [auto with blobs|]. intros [pairs next].
  repeat (apply Still_bind; [try case_match; auto with blobs|]; intros ?). auto with blobs.
Qed.

Lemma moveMessages_still src tgt is_ clear : Still (moveMessages src tgt is_ clear).
Proof.
  unfold moveMessages. case_match; [auto with blobs|]. apply Still_bind; [auto with blobs|]. intros source. apply Still_bind; [auto with blobs|]. intros target. apply Still_bind; [auto with blobs|]. intros rows. case_match; [auto with blobs|]. apply Still_bind; [auto with blobs|]. intros [pairs next].
  repeat (apply Still_bind; [auto with blobs|]; intros ?). auto with blobs.
Qed.

Lemma setSubscribed_still acc name s : Still (setSubscribed acc name s).
Proof. unfold setSubscribed. apply Still_bind; [auto with blobs|]. intros [[i b]|]; auto with blobs. Qed.

Lemma renameMailbox_still acc from to src : Still (renameMailbox uv acc from to src).
Proof.
  unfold renameMailbox. case_match; [auto with blobs|]. case_match; [auto with blobs|]. destruct src as [src|]; [|auto with blobs]. apply Still_bind; [auto with blobs|]. intros locked. apply Still_bind; [|intros; auto with blobs]. case_match.
  - unfold renameInbox. apply Still_bind; [auto with blobs|]. intros _. apply Still_bind; [auto with blobs|]. intros [t|]; [|auto with blobs]. apply Still_bind; [auto with blobs|]. intros moved. apply Still_bind; [|auto 10 with blobs].
    apply Still_messages. intros ms. apply map_eq. intros j. rewrite !lookup_fmap. destruct (ms !! j) as [m|]; [|done]. cbn. by case_match.
  - unfold renameTree. apply Still_bind; [auto with blobs|]. intros moving. apply Still_bind; [auto with blobs|]. intros clash. destruct clash; [auto with blobs|]. apply Still_bind; [apply Still_forEach; auto with blobs|]. auto with blobs.
Qed.

Lemma fileLocalMessage_charges input : Charges (fileLocalMessage uv now input) (fun s => - one (fi_blob input) s).
Proof.
  intros d a d' HI HP E. eapply Pays_ext; [|unfold fileLocalMessage in E; eapply (Charges_bind _ _ nothing (fun s => - one (fi_blob input) s + nothing s)); [|intros x|exact HI|exact HP|exact E]].
  - intros s. unfold nothing. lia.
  - apply Still_charges. unfold lockOrCreateMailbox. apply Still_bind; [auto with blobs|]. intros _. apply Still_bind; [auto with blobs|]. intros [y|]; auto with blobs.
  - apply (Charges_bind _ _ (fun s => - one (fi_blob input) s) nothing); [exact (insertMessage_charges (mkMessage _ _ _ (fi_blob input) _ _ _ _ _ _))|]. intros i. apply Still_charges. auto with blobs.
Qed.

Lemma append_charges acc mb input : Charges (append uv now acc mb input) (fun s => - one (ap_sha256 input) s).
Proof.
  intros d a d' HI HP E. unfold append in E. apply tx_bind_inv in E as (b & d0 & [_ ->]%lock_inv & E). apply tx_bind_inv in E as (u & d1 & E1 & E). assert (d1 = d) as -> by (destruct (bool_decide (mb_account b = acc)); [by apply tx_ret_inv in E1 as [_ ->]|done]). apply tx_bind_inv in E as (filed & d2 & E2 & E).
  pose proof (fileLocalMessage_charges _ _ _ _ HI HP E2) as H1. eapply Pays_ext; [|eapply Pays_trans; [exact H1|]; refine (SameBlobs_pays _ _ (proj1 H1) (proj1 (proj2 H1)) _)]; [intros s; unfold nothing; cbn; lia|].
  revert E. generalize d2 a d'. change (Still (_ ← match ap_denorm input with
      | Some denorm => _ ← updateColumns (denormColumns denorm) (filed_id filed);
          if bool_decide (mb_specialUse b = Some UseSent) && negb (bool_decide (dn_recipientAddresses denorm = [])) then harvestSentRecipients acc (dn_recipientAddresses denorm) (ap_internalDate input) else mret tt
      | None => mret tt end; _ ← notifyMailbox mb; mret (filed_uid filed, mb_uidvalidity b))).
  apply Still_bind; [|auto with blobs]. destruct (ap_denorm input); [|auto with blobs]. apply Still_bind; [auto with blobs|]. intros _. destruct (_ && _); [apply Still_harvest|apply Still_ret].
Qed.

(** Rows that go, and their references with them. *)
Lemma removal_pays d u d1 d2 rows l : IdsOk d -> Positive d -> NoDup rows.*1 -> (forall x, x ∈ rows -> d_messages d !! x.1 = Some x.2) -> deleteMessages rows.*1 d = Committed u d1 ->
  forall a d3, SameBlobs d1 d2 -> releaseAll l d2 = Committed a d3 -> l ≡ₚ (fun x => m_blob x.2) <$> rows -> Pays nothing d d3.
Proof.
  intros HI HP HN Hr E1 a d3 HS E2 Hl. unfold deleteMessages in E1. apply exec_inv in E1. pose proof (deleteMessages_pays rows d HI HP HN Hr) as H1. cbn in H1. rewrite <- E1 in H1.
  pose proof (SameBlobs_pays _ _ (proj1 H1) (proj1 (proj2 H1)) HS) as H2. pose proof (releaseAll_charges _ _ _ _ (proj1 H2) (proj1 (proj2 H2)) E2) as H3. eapply Pays_ext; [|eapply Pays_trans; [eapply Pays_trans; [exact H1|exact H2]|exact H3]].
  intros s. unfold nothing. cbn. rewrite (sumOf_permutation _ _ s Hl). lia.
Qed.

Lemma Pays_still f d d1 d2 : Pays f d d1 -> SameBlobs d1 d2 -> Pays f d d2.
Proof. intros H HS. eapply Pays_ext; [|eapply Pays_trans; [exact H|]; refine (SameBlobs_pays _ _ (proj1 H) (proj1 (proj2 H)) HS)]. intros s. unfold nothing. cbn. lia. Qed.

Lemma sortTexts_permutation l : sortTexts l ≡ₚ l.
Proof. unfold sortTexts. apply merge_sort_Permutation. Qed.

Lemma messagesOf_row d i x : x ∈ messagesOf d i -> d_messages d !! x.1 = Some x.2.
Proof. by intros [? _]%elem_messagesOf. Qed.

Lemma expunge_pays acc mb uids reason d a d' : IdsOk d -> Positive d -> expunge acc mb uids reason d = Committed a d' -> Pays nothing d d'.
Proof.
  intros HI HP H. unfold expunge in H. case_bool_decide; [steps H; by apply SameBlobs_pays, SameBlobs_refl|]. steps H. set (rows := filter _ _) in *. 
  assert (HN : NoDup rows.*1) by apply NoDup_fst_filter, NoDup_messagesOf. assert (Hr : forall x, x ∈ rows -> d_messages d !! x.1 = Some x.2) by (intros x [_ Hx]%list_elem_of_filter; by eapply messagesOf_row).
  case_bool_decide as Hn; steps H; [exact (removal_pays d _ d0 d0 rows [] HI HP HN Hr E [] d0 (SameBlobs_refl _) eq_refl ltac:(by rewrite Hn))|].
  apply Still_copyMoves in E0. apply Still_mailbox in E1. eapply Pays_still; [eapply (removal_pays d _ d0 d2 rows (sortTexts ((fun x => m_blob x.2) <$> rows))); [done..| |exact E2|apply sortTexts_permutation]|].
  - by eapply SameBlobs_trans.
  - eapply SameBlobs_trans; [by eapply Still_expunged|]. eapply SameBlobs_trans; [by eapply Still_audit|]. by eapply Still_notify.
Qed.

Lemma deleteMailbox_pays acc name mb d a d' : IdsOk d -> Positive d -> deleteMailbox acc name mb d = Committed a d' -> Pays nothing d d'.
Proof.
  intros HI HP H. assert (Hret : forall x, (mret x : TX (DeleteResult * list jsstr)) d = Committed a d' -> Pays nothing d d') by (intros x [_ ->]%tx_ret_inv; by apply SameBlobs_pays, SameBlobs_refl).
  unfold deleteMailbox in H. destruct mb as [[i b]|]; [|by eapply Hret]. case_bool_decide; [by eapply Hret|]. case_bool_decide; [by eapply Hret|]. steps H. case_bool_decide; [by eapply Hret|]. steps H. destruct (existsb _ _); [by eapply Hret|]. steps H. 
  eapply Pays_still; [eapply (removal_pays d _ d0 d0 (messagesOf d i)); [done|done|apply NoDup_messagesOf|intros x; apply messagesOf_row|exact E|apply SameBlobs_refl|exact E0|apply sortTexts_permutation]|].
  apply Still_audit in E1. apply Still_notify in E2. eapply SameBlobs_trans; [|exact E2]. eapply SameBlobs_trans; [|exact E1]. by split.
Qed.

Lemma removeMessage_pays i m d a d' : IdsOk d -> Positive d -> d_messages d !! i = Some m -> removeMessage i m d = Committed a d' -> Pays nothing d d'.
Proof.
  intros HI HP Hi H. unfold removeMessage in H. steps H.  apply Still_mailbox in E0. apply Still_expunged in E1. apply Still_notify in E3.
  eapply Pays_still; [eapply (removal_pays d _ d0 d2 [(i, m)] [m_blob m]); [done|done|apply NoDup_singleton|by intros x ->%list_elem_of_singleton|exact E|by eapply SameBlobs_trans| |done]|exact E3].
  cbn [releaseAll]. unfold mbind, TX_bind. rewrite E2. done.
Qed.
End operations.

(** References taken for every row that is copied. *)
Lemma addReferences_pays (l : list jsstr) (f : jsstr -> Z) d a d' : IdsOk d -> Positive d -> NoDup l -> (forall s, s ∈ l -> is_Some (d_blobs d !! s)) -> (forall s, 0 <= f s) ->
  forEach l (fun s => addReferences s (f s)) d = Committed a d' -> Pays (fun s => if bool_decide (s ∈ l) then f s else 0) d d'.
Proof.
  intros HI HP HN Hl Hf. revert d HI HP Hl. induction HN as [|sha l Hs HN IH]; intros d HI HP Hl E; cbn [forEach] in E.
  - apply tx_ret_inv in E as [_ ->]. eapply Pays_ext; [|by apply SameBlobs_pays, SameBlobs_refl]. done.
  - apply tx_bind_inv in E as (u & d1 & E1 & E). unfold addReferences in E1. apply exec_inv in E1 as ->. destruct (Hl sha (list_elem_of_here _ _)) as [n Hn].
    assert (H1 : Pays (fun s => if bool_decide (s = sha) then f sha else 0) d (onBlobs (alter (Z.add (f sha)) sha) d)).
    { apply (counts_pays d _ (alter (Z.add (f sha)) sha (d_blobs d))); [done| |].
      - intros s x. destruct (decide (sha = s)) as [<-|]; [rewrite lookup_alter_eq, Hn; intros [= <-]; pose proof (HP _ _ Hn); specialize (Hf sha); lia|]. rewrite lookup_alter_ne by done. apply HP.
      - intros s. unfold counted. case_bool_decide as Es; [subst; rewrite lookup_alter_eq, Hn; cbn; lia|]. rewrite lookup_alter_ne by done. lia. }
    eapply Pays_ext; [|eapply Pays_trans; [exact H1|apply IH; [apply H1|apply H1| |exact E]]].
    + intros s. cbn. destruct (decide (s = sha)) as [->|Hne].
      * rewrite (bool_decide_eq_true_2 (sha = sha)), (bool_decide_eq_false_2 (sha ∈ l)), (bool_decide_eq_true_2 (sha ∈ sha :: l)) by (done || left). lia.
      * rewrite (bool_decide_eq_false_2 (s = sha)) by done. erewrite (bool_decide_ext (s ∈ sha :: l)); [reflexivity|]. rewrite elem_of_cons. tauto.
    + intros s Hin. cbn. destruct (decide (sha = s)) as [<-|]; [rewrite lookup_alter_eq, Hn; by eexists|]. rewrite lookup_alter_ne by done. apply Hl. by right.
Qed.

Lemma countText_absent s l : s ∉ l -> countText s l = 0.
Proof.
  intros Hs. unfold countText. destruct (filter _ l) as [|x l'] eqn:E; [done|]. assert (Hx : x ∈ filter (fun x => x = s) l) by (rewrite E; left). apply list_elem_of_filter in Hx as [-> Hx]. done.
Qed.

Section copying.
Context `{R : Runtime} (uv : Id -> Z) (now : Z).

Lemma copyRows_charges target rows : Charges (traverse (copyRow uv now target) rows) (fun s => - sumOf ((fun x => m_blob x.2) <$> rows) s).
Proof.
  induction rows as [|x rows IH]; cbn [traverse]; intros d a d' HI HP E.
  - apply tx_ret_inv in E as [_ ->]. eapply Pays_ext; [|by apply SameBlobs_pays, SameBlobs_refl]. done.
  - eapply Pays_ext; [|eapply (Charges_bind _ _ (fun s => - one (m_blob x.2) s + nothing s) (fun s => - sumOf ((fun x => m_blob x.2) <$> rows) s + nothing s)); [| |exact HI|exact HP|exact E]].
    + intros s. rewrite fmap_cons, sumOf_cons. unfold nothing. lia.
    + unfold copyRow. apply Charges_bind; [exact (fileLocalMessage_charges uv now (mkFile _ _ (m_blob x.2) _ _ _))|]. intros filed. apply Still_charges. auto with blobs.
    + intros y. apply Charges_bind; [done|]. intros ys. apply Still_charges. auto with blobs.
Qed.

Lemma copy_pays src uids tgt d a d' : IdsOk d -> Positive d -> (forall i m, d_messages d !! i = Some m -> is_Some (d_blobs d !! m_blob m)) -> copy uv now src uids tgt d = Committed a d' -> Pays nothing d d'.
Proof.
  intros HI HP HF H. unfold copy in H. steps H. case_bool_decide; steps H; [by apply SameBlobs_pays, SameBlobs_refl|]. set (shas := (fun x => m_blob x.2) <$> rowsByUid d src uids) in *.
  apply addReferences_pays in E; [|done|done| | |intros s; unfold countText; lia].
  - eapply Pays_still; [|by eapply Still_notify]. eapply Pays_ext; [|eapply Pays_trans; [exact E|eapply copyRows_charges; [apply E|apply E|exact E0]]].
    intros s. cbn. fold shas. rewrite sumOf_count. unfold nothing. case_bool_decide as Hs; [lia|]. rewrite sortTexts_permutation, elem_of_remove_dups in Hs. rewrite countText_absent by done. done.
  - rewrite sortTexts_permutation. apply NoDup_remove_dups.
  - intros s. rewrite sortTexts_permutation, elem_of_remove_dups. intros ([i m] & -> & [Hi _]%rowsByUid_of)%list_elem_of_fmap. by eapply HF.
Qed.

Lemma updateMessage_pays d a d' input : IdsOk d -> Positive d -> updateMessage input d = Committed a d' -> Pays nothing d d'.
Proof.
  intros HI HP H. assert (Hret : forall x, (mret x : TX (option (Id * Message))) d = Committed a d' -> Pays nothing d d') by (intros x [_ ->]%tx_ret_inv; by apply SameBlobs_pays, SameBlobs_refl).
  unfold updateMessage in H. steps H. destruct (d_messages d !! u_message input) as [m|] eqn:Ei; cbn in H; [|by eapply Hret].
  destruct (d_mailboxes d !! m_mailbox m) as [b|] eqn:Eb; cbn in H; [|by eapply Hret]. destruct (bool_decide (mb_account b = u_account input)); [|by eapply Hret]. steps H. simplify_eq.
  assert (d0 = d) as ->. { destruct (u_ifMatch input) as [v|]; [destruct (v =? m_modseq m)|]; [by steps E|done|by steps E]. } clear E.
  destruct (if bool_decide (u_moveTo input = Some (m_mailbox m)) then None else u_moveTo input) as [t|] eqn:Et.
  - steps H. pose proof E as E'. apply insertMessage_inv in E' as (-> & _ & _ & Hf & Hg & _). apply insertMessage_charges in E as H1; [|done|done]. cbn [m_blob rehome] in H1. apply Still_counters in E0 as S0.
    pose proof (Pays_still _ _ _ _ H1 S0) as H2. set (e := onVerdicts _ _) in *. assert (S1 : SameBlobs d1 e) by (by split). pose proof (Pays_still _ _ _ _ H2 S1) as (HI2 & HP2 & Hs2).
    assert (Hu : d_messages e !! u_message input = Some m).
    { unfold updateCounters, updateMailbox in E0. steps E0. cbn. rewrite Hg, lookup_insert_ne; [done|]. intros Efr. pose proof (HI (u_message input) (mk_is_Some _ _ Ei)). lia. }
    pose proof (deleteMessages_pays [(u_message input, m)] e HI2 HP2 (NoDup_singleton _)) as H3. unfold deleteMessages in E1. apply exec_inv in E1. cbn in H3. rewrite <- E1 in H3. specialize (H3 ltac:(by intros x ->%list_elem_of_singleton)).
    eapply Pays_still; [eapply Pays_ext; [|eapply Pays_trans; [split_and!; [exact HI2|exact HP2|exact Hs2]|exact H3]]|].
    + intros s. cbn. rewrite sumOf_cons. unfold nothing, sumOf. cbn. lia.
    + eapply SameBlobs_trans; [|eapply SameBlobs_trans; [by eapply Still_mailbox|eapply SameBlobs_trans; [by eapply Still_notify|by eapply Still_notify]]]. destruct (trainingMove _ _ _ _); [by eapply Still_training|by eapply Still_ret].
  - case_bool_decide; [by eapply Hret|]. steps H. apply Still_mailbox in E. apply Still_notify in E0. apply SameBlobs_pays; [done|done|]. eapply SameBlobs_trans; [|exact E0]. eapply SameBlobs_trans; [|exact E]. by apply (put_same_blob d (u_message input) m).
Qed.
End copying.

(** ** The ledger *)

(** The reference an operation gives away: a filed message takes over the one its caller holds. *)
Definition spends (op : Operation) : option jsstr :=
  match op with OFile input => Some (fi_blob input) | OAppend _ _ input => Some (ap_sha256 input) | ODrop sha => Some sha | _ => None end.

Definition charge (op : Operation) (s : jsstr) : Z :=
  match op with OPut sha => one sha s | _ => match spends op with Some sha => - one sha s | None => 0 end end.

Section ledger.
Context `{R : Runtime} (uv : Id -> Z).

(** What is held after an operation: an aborted one changes nothing. *)
Definition settle (now : Z) (op : Operation) (d : Db) (held : jsstr -> Z) : jsstr -> Z :=
  match transaction uv now op d with Committed _ _ => fun s => held s + charge op s | Aborted _ => held end.

Fixpoint holdings (ops : list (Z * Operation)) (d : Db) (held : jsstr -> Z) : jsstr -> Z :=
  match ops with [] => held | o :: ops => holdings ops (run uv o.1 o.2 d) (settle o.1 o.2 d held) end.

(** Nobody gives away a reference that is not held. *)
Fixpoint lawful (ops : list (Z * Operation)) (d : Db) (held : jsstr -> Z) : bool :=
  match ops with
  | [] => true
  | o :: ops => match spends o.2 with Some sha => 0 <? held sha | None => true end && lawful ops (run uv o.1 o.2 d) (settle o.1 o.2 d held)
  end.

Lemma content_is_there d i m : (forall s, 0 <= slack d s) -> d_messages d !! i = Some m -> is_Some (d_blobs d !! m_blob m).
Proof.
  intros HS Hi. specialize (HS (m_blob m)). unfold slack, refs, counted in HS. pose proof (refsIn_pos (blobsOf d) i (m_blob m)) as Hp. unfold blobsOf in Hp at 1. rewrite lookup_fmap, Hi in Hp. specialize (Hp eq_refl).
  destruct (d_blobs d !! m_blob m) as [n|]; [by eexists|]. cbn in HS. lia.
Qed.

Lemma Still_pays op d d' : DbOk d -> Positive d -> (forall s, charge op s = 0) -> SameBlobs d d' -> Pays (charge op) d d'.
Proof. intros Hd HP Hc HS. eapply Pays_ext; [|apply SameBlobs_pays; [exact (ok_fresh_message _ (ok_structure _ Hd))|done|exact HS]]. done. Qed.

Lemma transaction_pays now op d a d' : DbOk d -> Positive d -> (forall s, 0 <= slack d s) -> transaction uv now op d = Committed a d' -> Pays (charge op) d d'.
Proof.
  intros Hd HP HS H. assert (HI : IdsOk d) by exact (ok_fresh_message _ (ok_structure _ Hd)).
  destruct op; cbn [transaction] in H; steps H.
  - apply Still_pays; [done..|]. by eapply storeFlags_still.
  - by eapply expunge_pays.
  - eapply copy_pays; [done|done| |done]. intros i m. by apply content_is_there.
  - apply Still_pays; [done..|]. by eapply move_still.
  - by eapply append_charges.
  - by eapply fileLocalMessage_charges.
  - apply Still_pays; [done..|]. by eapply Still_createEach.
  - by eapply deleteMailbox_pays.
  - apply Still_pays; [done..|]. by eapply renameMailbox_still.
  - apply Still_pays; [done..|]. by eapply setSubscribed_still.
  - apply Still_pays; [done..|]. by eapply moveMessages_still.
  - destruct (d_messages d !! message) as [m|] eqn:Em; steps H; [by eapply removeMessage_pays|apply Still_pays; [done..|apply SameBlobs_refl]].
  - by eapply updateMessage_pays.
  - by eapply putBlob_charges.
  - by eapply release_charges.
Qed.

Definition Accounted (d : Db) (held : jsstr -> Z) : Prop := DbOk d /\ Positive d /\ forall s, slack d s = held s /\ 0 <= held s.

Lemma run_accounted now op d held : Accounted d held -> match spends op with Some sha => 0 < held sha | None => True end -> Accounted (run uv now op d) (settle now op d held).
Proof.
  intros (Hd & HP & HS) Hsp. unfold run, after, settle. destruct (transaction uv now op d) as [a d'|e] eqn:E; [|done].
  pose proof (transaction_step uv now op d a d' Hd E) as Hst. apply transaction_pays in E as (_ & HP' & HS'); [|done|done|intros s; rewrite (proj1 (HS s)); apply HS].
  split_and!; [apply Hst|done|]. intros s. destruct (HS s) as [E1 E2]. rewrite HS', E1. split; [done|].
  destruct op; cbn in *; try lia; try (pose proof (one_nonneg sha256 s); lia); unfold one; case_bool_decide; subst; lia.
Qed.

Lemma history_accounted ops d held : Accounted d held -> lawful ops d held = true -> Accounted (history uv ops d) (holdings ops d held).
Proof.
  revert d held. induction ops as [|o ops IH]; intros d held HA Hl; cbn in *; [done|]. apply andb_true_iff in Hl as [H1 H2]. apply IH; [|done]. apply run_accounted; [done|]. destruct (spends o.2); [by apply Z.ltb_lt|done].
Qed.

(** C22: the count of a stored content is exact: after any history in which nobody gives away a reference that is
    not held, it is the number of messages with that content plus the references taken with [put] and not given
    to a message yet, and the row of the content is there exactly when that is not zero. So no message loses its
    content, and a content goes with its last reference, whatever was copied, moved, renamed, expunged or
    deleted, and whichever of the transactions were aborted. *)
Theorem blob_counts_are_exact ops s :
  lawful ops emptyDb (fun _ => 0) = true ->
  let d := history uv ops emptyDb in let n := Z.of_nat (size (filter (fun x => m_blob x.2 = s) (d_messages d))) + holdings ops emptyDb (fun _ => 0) s in
  0 <= n /\ d_blobs d !! s = if n =? 0 then None else Some n.
Proof.
  intros Hl d n. destruct (history_accounted ops emptyDb (fun _ => 0)) as (_ & HP & HS); [split_and!; [apply emptyDb_ok|by intros ? ?|by intros ?]|done|]. fold d in HP, HS. destruct (HS s) as [E1 E2]. fold d in E1.
  assert (En : refs d s = Z.of_nat (size (filter (fun x => m_blob x.2 = s) (d_messages d)))).
  { unfold refs, refsIn, blobsOf. by rewrite map_filter_fmap, map_size_fmap. }
  assert (Hn : counted d s = n) by (unfold n; rewrite <- En, <- E1; unfold slack; lia). unfold counted in Hn. split; [unfold n; lia|].
  destruct (d_blobs d !! s) as [x|] eqn:Ex; cbn in Hn; subst x || rewrite <- Hn; [|done]. apply HP in Ex. destruct (Z.eqb_spec n 0); [lia|done].
Qed.
End ledger.

Lemma blob_counts_are_exact_witness :
  let ops := demo_arrive ++ [(5, OPut (js "aa")); (6, OCreate 7%nat (js "Archive") None); (7, OCopy 0%nat [1; 2] 3%nat); (8, OStoreFlags 0%nat [1; 2] OpSet [DELETED] None); (9, OExpunge 7%nat 0%nat (Some [2]) (js "uid-expunge"))] in
  let d := history (R := mail_runtime) demo_uv ops emptyDb in d_blobs d !! js "aa" = Some 3 /\ d_blobs d !! js "bb" = Some 1.
Proof.
  intros ops d. assert (Hl : lawful (R := mail_runtime) demo_uv ops emptyDb (fun _ => 0) = true) by (vm_compute; reflexivity).
  split; [etransitivity; [apply (blob_counts_are_exact (R := mail_runtime) demo_uv ops (js "aa") Hl)|vm_compute; reflexivity]|etransitivity; [apply (blob_counts_are_exact (R := mail_runtime) demo_uv ops (js "bb") Hl)|vm_compute; reflexivity]].
Defined.
