(* ===== verification/ImapView.v ===== *)
(** * ImapView: what a session believes of its selected mailbox

    [apps/imap/src/view.ts] and [extensions/qresync.ts]. A method that reads the database takes what it read as
    arguments; between its reads other sessions may change the mailbox. A [Set] is the list of its elements in the
    order of their insertion. The name of the mailbox, its UIDVALIDITY and [readOnly] never change and are left out.

    The theorems put a client on the other side, which does what the responses tell it. *)
From stdpp Require Import gmap sorting.
From S2P Require Import Prelude JsString JsStringFacts ImapSequence MailDb MailStore MailStoreProofs MailSync.

(** ** The view *)

Inductive ImapResponse :=
  | RExpunge (seq : Z)
  | RExists (n : Z)
  | RVanished (uids : list Z) (earlier : bool)
  | RFetch (seq : Z) (uid : option Z) (flags : list jsstr) (modseq : option Z).

Record MailboxView := mkView { vw_mailbox : Id; vw_uids : list Z; vw_known : gmap Z Z; vw_pending : list Z; vw_highest : Z }.

Definition setUids u (w : MailboxView) : MailboxView := mkView (vw_mailbox w) u (vw_known w) (vw_pending w) (vw_highest w).
Definition setKnown k (w : MailboxView) : MailboxView := mkView (vw_mailbox w) (vw_uids w) k (vw_pending w) (vw_highest w).
Definition setPending p (w : MailboxView) : MailboxView := mkView (vw_mailbox w) (vw_uids w) (vw_known w) p (vw_highest w).
Definition setHighest h (w : MailboxView) : MailboxView := mkView (vw_mailbox w) (vw_uids w) (vw_known w) (vw_pending w) h.

Definition exists_ (w : MailboxView) : Z := Z.of_nat (length (vw_uids w)).
Definition maxUid (w : MailboxView) : Z := default 0 (last (vw_uids w)).

Fixpoint firstUnseenFrom (i : Z) (rows : list (Z * Z * bool)) : option Z :=
  match rows with [] => None | r :: rows => if r.2 then firstUnseenFrom (i + 1) rows else Some i end.

(** The view, the first unseen message, and the HIGHESTMODSEQ and UIDNEXT of the answer. [probe] is read before [rows]. *)
Definition open (mailbox : Id) (highestModseq : Z) (probe : option (Z * Z)) (rows : list (Z * Z * bool)) : MailboxView * option Z * Z * Z :=
  let view := mkView mailbox ((fun r => r.1.1) <$> rows) (list_to_map (rev ((fun r => (r.1.1, r.1.2)) <$> rows))) [] (default highestModseq (snd <$> probe)) in
  (view, firstUnseenFrom 1 rows, vw_highest view, Z.max (default 1 (fst <$> probe)) (maxUid view + 1)).

Definition isExpunged (w : MailboxView) (uid : Z) : bool := bool_decide (uid ∈ vw_pending w).
Definition liveUids (w : MailboxView) : list Z := filter (fun u => isExpunged w u = false) (vw_uids w).

Definition at_ (uids : list Z) (i : Z) : Z := default 0 (uids !! Z.to_nat i).

(** The binary search. [hi] is -1 when the view is empty. *)
Fixpoint seqLoop (fuel : nat) (uids : list Z) (uid lo hi : Z) : option Z :=
  match fuel with
  | O => None
  | S fuel =>
      if lo <=? hi then
        let mid := Z.shiftr (lo + hi) 1 in
        let v := at_ uids mid in
        if v =? uid then Some (mid + 1) else if v <? uid then seqLoop fuel uids uid (mid + 1) hi else seqLoop fuel uids uid lo (mid - 1)
      else None
  end.
Definition seqOf (w : MailboxView) (uid : Z) : option Z := seqLoop (S (length (vw_uids w))) (vw_uids w) uid 0 (exists_ w - 1).

Definition uidAt (w : MailboxView) (seq : Z) : option Z := if seq <? 1 then None else vw_uids w !! Z.to_nat (seq - 1).

Definition noteModseq (uid modseq : Z) (w : MailboxView) : MailboxView :=
  match vw_known w !! uid with Some _ => setKnown (<[uid := modseq]> (vw_known w)) w | None => w end.

Definition pairsForUids (w : MailboxView) (uids : list Z) : list (Z * Z) := omap (fun u => (fun s => (s, u)) <$> seqOf w u) (merge_sort Z.le uids).

(** The numbers from [lo] to [hi]. *)
Definition upTo (lo hi : Z) : list Z := (fun i => lo + Z.of_nat i) <$> seq 0 (Z.to_nat (hi + 1 - lo)).

Definition resolveSeqs (w : MailboxView) (set : SequenceSet) (saved : option (list Z)) : list (Z * Z) :=
  match set with
  | SeqSaved => pairsForUids w (default [] saved)
  | _ =>
      if bool_decide (vw_uids w = []) then []
      else normalizeSequenceSet set (exists_ w) ≫= fun r => omap (fun s => (fun u => (s, u)) <$> uidAt w s) (upTo r.1 (Z.min r.2 (exists_ w)))
  end.

Fixpoint boundLoop (fuel : nat) (uids : list Z) (uid lo hi : Z) : Z :=
  match fuel with
  | O => lo
  | S fuel =>
      if lo <? hi then
        let mid := Z.shiftr (lo + hi) 1 in
        if at_ uids mid <? uid then boundLoop fuel uids uid (mid + 1) hi else boundLoop fuel uids uid lo mid
      else lo
  end.
Definition lowerBound (w : MailboxView) (uid : Z) : Z := boundLoop (S (length (vw_uids w))) (vw_uids w) uid 0 (exists_ w).

(** The loop from the lower bound to the first UID above [hi]. *)
Fixpoint uidsThrough (hi i : Z) (uids : list Z) : list (Z * Z) :=
  match uids with [] => [] | u :: uids => if hi <? u then [] else (i + 1, u) :: uidsThrough hi (i + 1) uids end.

Definition resolveUids (w : MailboxView) (set : SequenceSet) (saved : option (list Z)) : list (Z * Z) :=
  match set with
  | SeqSaved => pairsForUids w (default [] saved)
  | _ =>
      if bool_decide (vw_uids w = []) then []
      else normalizeSequenceSet set (maxUid w) ≫= fun r => let i := lowerBound w r.1 in uidsThrough r.2 i (drop (Z.to_nat i) (vw_uids w))
  end.

(** ** Expunges *)

Definition forgetUid (u : Z) (w : MailboxView) : MailboxView := setKnown (delete u (vw_known w)) (setPending (filter (fun x => x <> u) (vw_pending w)) w).
Definition splice (s : Z) (w : MailboxView) : MailboxView := setUids (delete (Z.to_nat (s - 1)) (vw_uids w)) w.

Fixpoint vanishLoop (uids gone : list Z) (w : MailboxView) : list Z * MailboxView :=
  match uids with
  | [] => (gone, w)
  | u :: uids => match seqOf w u with None => vanishLoop uids gone w | Some s => vanishLoop uids (gone ++ [u]) (forgetUid u (splice s w)) end
  end.

Fixpoint expungeLoop (seqs : list Z) (w : MailboxView) : list ImapResponse * MailboxView :=
  match seqs with
  | [] => ([], w)
  | s :: seqs =>
      let w' := match uidAt w s with Some u => forgetUid u (splice s w) | None => splice s w end in
      let r := expungeLoop seqs w' in
      (RExpunge s :: r.1, r.2)
  end.

Definition expungeNow (uids : list Z) (vanished : bool) (w : MailboxView) : list ImapResponse * MailboxView :=
  if vanished then
    let r := vanishLoop uids [] w in
    (if bool_decide (r.1 = []) then [] else [RVanished (merge_sort Z.le r.1) false], r.2)
  else expungeLoop (merge_sort Z.ge (omap (seqOf w) uids)) w.

Definition flushPending (vanished : bool) (w : MailboxView) : list ImapResponse * MailboxView :=
  if bool_decide (vw_pending w = []) then ([], w) else expungeNow (vw_pending w) vanished w.

(** ** Bringing the client up to date *)

Record SyncOptions := mkSyncOptions { so_allowExpunge : bool; so_condstore : bool; so_qresync : bool }.

(** The four reads, in this order. *)
Record SyncReads := mkReads { rd_probe : option (Z * Z); rd_changed : list FlagRow; rd_count : nat; rd_present : list Z }.

Definition addPending (present : list Z) (w : MailboxView) : MailboxView :=
  setPending (vw_pending w ++ filter (fun u => u ∉ present /\ u ∉ vw_pending w) (vw_uids w)) w.

Definition detectExpunged (count : nat) (present : list Z) (w : MailboxView) : MailboxView :=
  let known := Z.of_nat (length (vw_uids w)) - Z.of_nat (length (vw_pending w)) in
  if (0 <? known) && negb (Z.of_nat count =? known) then addPending present w else w.

Definition arrive (r : FlagRow) (w : MailboxView) : MailboxView := setKnown (<[f_uid r := f_modseq r]> (vw_known w)) (setUids (vw_uids w ++ [f_uid r]) w).

Fixpoint flagLoop (condstore : bool) (top : Z) (changed : list FlagRow) (w : MailboxView) : list ImapResponse * MailboxView :=
  match changed with
  | [] => ([], w)
  | r :: changed =>
      let skip := flagLoop condstore top changed w in
      if (top <? f_uid r) || isExpunged w (f_uid r) then skip
      else if match vw_known w !! f_uid r with Some q => f_modseq r <=? q | None => false end then skip
      else
        match seqOf w (f_uid r) with
        | None => skip
        | Some s =>
            let rest := flagLoop condstore top changed (setKnown (<[f_uid r := f_modseq r]> (vw_known w)) w) in
            (RFetch s (Some (f_uid r)) (f_flags r) (if condstore then Some (f_modseq r) else None) :: rest.1, rest.2)
        end
  end.

(** [None] when the mailbox is gone. *)
Definition sync (o : SyncOptions) (rd : SyncReads) (w : MailboxView) : option (list ImapResponse * MailboxView) :=
  match rd_probe rd with
  | None => None
  | Some probe =>
      let flush w := if so_allowExpunge o then flushPending (so_qresync o) w else ([], w) in
      if probe.2 =? vw_highest w then Some (flush w)
      else
        let top := maxUid w in
        let r1 := flush (detectExpunged (rd_count rd) (rd_present rd) w) in
        let arrivals := filter (fun r => top < f_uid r) (rd_changed rd) in
        let w2 := fold_left (fun w r => arrive r w) arrivals r1.2 in
        let r3 := flagLoop (so_condstore o) top (rd_changed rd) w2 in
        Some (r1.1 ++ (if bool_decide (arrivals = []) then [] else [RExists (exists_ w2)]) ++ r3.1, setHighest probe.2 r3.2)
  end.

(** ** QRESYNC ([qresync.ts]) *)

Definition vanishedSince (expunged : list Z) (set : option SequenceSet) (uidnext : Z) : list Z :=
  match set with None => expunged | Some set => filter (fun u => sequenceSetHas set u (Z.max (uidnext - 1) 1) = true) expunged end.

Fixpoint changedResponses (inKnown : Z -> bool) (changed : list FlagRow) (w : MailboxView) : list ImapResponse * MailboxView :=
  match changed with
  | [] => ([], w)
  | r :: changed =>
      match (if inKnown (f_uid r) then seqOf w (f_uid r) else None) with
      | None => changedResponses inKnown changed w
      | Some s =>
          let rest := changedResponses inKnown changed (noteModseq (f_uid r) (f_modseq r) w) in
          (RFetch s (Some (f_uid r)) (f_flags r) (Some (f_modseq r)) :: rest.1, rest.2)
      end
  end.

(** [expunged] and [changed] are [expungedSince] and [changedSince] of the modseq the client remembers. *)
Definition qresyncSelectResponses (sameValidity : bool) (known : option SequenceSet) (uidnext : Z) (expunged : list Z) (changed : list FlagRow) (w : MailboxView) : list ImapResponse * MailboxView :=
  if sameValidity then
    let inKnown u := match known with None => true | Some set => sequenceSetHas set u (Z.max (uidnext - 1) 1) end in
    let gone := vanishedSince expunged known uidnext in
    let r := changedResponses inKnown changed w in
    ((if bool_decide (gone = []) then [] else [RVanished gone true]) ++ r.1, r.2)
  else ([], w).

(** ** Positions in a sorted view *)

Definition Ascending (uids : list Z) : Prop := StronglySorted Z.lt uids.
Definition uidRank (uids : list Z) (u : Z) : nat := length (filter (fun x => x < u) uids).

Lemma filter_none {A} (P : A -> Prop) `{!forall x, Decision (P x)} (l : list A) : (forall x, x ∈ l -> ~ P x) -> filter P l = [].
Proof. induction l as [|x l IH]; intros HP; [done|]. rewrite filter_cons_False by (apply HP; left). apply IH. intros y Hy. apply HP. by right. Qed.
Lemma filter_every {A} (P : A -> Prop) `{!forall x, Decision (P x)} (l : list A) : (forall x, x ∈ l -> P x) -> filter P l = l.
Proof. induction l as [|x l IH]; intros HP; [done|]. rewrite filter_cons_True by (apply HP; left). f_equal. apply IH. intros y Hy. apply HP. by right. Qed.

Lemma Ascending_cons u uids : Ascending (u :: uids) <-> (forall x, x ∈ uids -> u < x) /\ Ascending uids.
Proof. unfold Ascending. split; [intros [H1 H2]%StronglySorted_inv; rewrite Forall_forall in H2; by split|]. intros [H1 H2]. constructor; [done|]. by apply Forall_forall. Qed.

Lemma Ascending_NoDup uids : Ascending uids -> NoDup uids.
Proof. induction uids as [|u uids IH]; intros H; constructor; apply Ascending_cons in H as [H1 H2]; [|by apply IH]. intros Hu%H1. lia. Qed.

Lemma Ascending_filter (P : Z -> Prop) `{!forall x, Decision (P x)} uids : Ascending uids -> Ascending (filter P uids).
Proof.
  induction uids as [|u uids IH]; intros HA; [done|]. apply Ascending_cons in HA as [H1 H2]. rewrite filter_cons. case_decide; [|by apply IH]. apply Ascending_cons. split; [|by apply IH]. intros x [_ Hx]%list_elem_of_filter. by apply H1.
Qed.

Lemma Ascending_snoc uids u : Ascending uids -> (forall x, x ∈ uids -> x < u) -> Ascending (uids ++ [u]).
Proof.
  induction uids as [|y uids IH]; intros H Hu; cbn; [apply Ascending_cons; split; [by intros x ?%elem_of_nil|constructor]|]. apply Ascending_cons in H as [H1 H2]. apply Ascending_cons. split.
  - intros x [Hx| ->%list_elem_of_singleton]%elem_of_app; [by apply H1|apply Hu; left].
  - apply IH; [done|]. intros x Hx. apply Hu. by right.
Qed.

Lemma rank_lookup uids i u : Ascending uids -> uids !! i = Some u -> uidRank uids u = i.
Proof.
  revert i. induction uids as [|x uids IH]; intros i H Hi; [done|]. apply Ascending_cons in H as [H1 H2]. unfold uidRank. destruct i as [|i]; cbn in Hi.
  - injection Hi as ->. rewrite filter_cons_False by lia. rewrite filter_none; [done|]. intros y Hy%H1. lia.
  - assert (Hx : x < u) by (apply H1; by eapply list_elem_of_lookup_2). rewrite filter_cons_True by done. cbn. f_equal. by apply IH.
Qed.

Lemma lookup_rank uids u : Ascending uids -> u ∈ uids -> uids !! uidRank uids u = Some u.
Proof. intros H [i Hi]%list_elem_of_lookup. by rewrite (rank_lookup _ i). Qed.

Lemma lookup_order uids i j a b : Ascending uids -> uids !! i = Some a -> uids !! j = Some b -> (i < j)%nat <-> a < b.
Proof.
  revert i j. induction uids as [|x uids IH]; intros i j H Hi Hj; [done|]. apply Ascending_cons in H as [H1 H2]. destruct i as [|i], j as [|j]; cbn in *.
  - simplify_eq. lia.
  - simplify_eq. assert (a < b) by (apply H1; by eapply list_elem_of_lookup_2). lia.
  - simplify_eq. assert (b < a) by (apply H1; by eapply list_elem_of_lookup_2). lia.
  - rewrite <- (IH i j H2 Hi Hj). lia.
Qed.

Lemma rank_order uids a b : Ascending uids -> a ∈ uids -> b ∈ uids -> (uidRank uids a < uidRank uids b)%nat <-> a < b.
Proof. intros H Ha Hb. by apply (lookup_order uids); [|apply lookup_rank..]. Qed.

Lemma at_lookup uids i : 0 <= i < Z.of_nat (length uids) -> uids !! Z.to_nat i = Some (at_ uids i).
Proof. intros Hi. unfold at_. destruct (lookup_lt_is_Some_2 uids (Z.to_nat i)) as [x Hx]; [lia|]. by rewrite Hx. Qed.

(** The middle of a range. *)
Lemma middle lo hi : lo <= hi -> lo <= Z.shiftr (lo + hi) 1 <= hi.
Proof. intros H. rewrite Z.shiftr_div_pow2 by lia. change (2 ^ 1) with 2. split; [apply Z.div_le_lower_bound; lia|apply Z.div_le_upper_bound; lia]. Qed.
Lemma middle_below lo hi : lo < hi -> lo <= Z.shiftr (lo + hi) 1 < hi.
Proof. intros H. rewrite Z.shiftr_div_pow2 by lia. change (2 ^ 1) with 2. split; [apply Z.div_le_lower_bound; lia|apply Z.div_lt_upper_bound; lia]. Qed.

Lemma seqLoop_spec fuel uids u lo hi : Ascending uids -> 0 <= lo -> hi < Z.of_nat (length uids) -> hi - lo + 1 < Z.of_nat fuel ->
  (forall i x, uids !! i = Some x -> Z.of_nat i < lo -> x < u) -> (forall i x, uids !! i = Some x -> hi < Z.of_nat i -> u < x) ->
  seqLoop fuel uids u lo hi = if bool_decide (u ∈ uids) then Some (Z.of_nat (uidRank uids u) + 1) else None.
Proof.
  intros HA. revert lo hi. induction fuel as [|fuel IH]; intros lo hi Hlo Hhi Hf Hl Hh.
  all: assert (Hnone : hi < lo -> u ∉ uids) by (intros Hlt [i Hi]%list_elem_of_lookup; destruct (decide (Z.of_nat i < lo)) as [Hi'|Hi']; [specialize (Hl _ _ Hi Hi')|specialize (Hh _ _ Hi ltac:(lia))]; lia).
  - rewrite bool_decide_eq_false_2; [done|apply Hnone; lia].
  - cbn [seqLoop]. destruct (Z.leb_spec lo hi) as [Hle|Hlt]; [|by rewrite bool_decide_eq_false_2 by by apply Hnone].
    pose proof (middle lo hi Hle) as Hm. set (mid := Z.shiftr (lo + hi) 1) in *. assert (Hv : uids !! Z.to_nat mid = Some (at_ uids mid)) by (apply at_lookup; lia). set (v := at_ uids mid) in *.
    destruct (Z.eqb_spec v u) as [->|Hne]; [rewrite bool_decide_eq_true_2, (rank_lookup _ _ _ HA Hv) by (by eapply list_elem_of_lookup_2); f_equal; lia|].
    destruct (Z.ltb_spec v u); apply IH; try lia; try done; intros i x Hi Hlt.
    + assert (x <= v); [|lia]. destruct (decide (i = Z.to_nat mid)) as [->|]; [simplify_eq; lia|]. assert (x < v); [|lia]. apply (lookup_order uids i (Z.to_nat mid)); [done..|lia].
    + assert (v <= x); [|lia]. destruct (decide (i = Z.to_nat mid)) as [->|]; [simplify_eq; lia|]. assert (v < x); [|lia]. apply (lookup_order uids (Z.to_nat mid) i); [done..|lia].
Qed.

(** [seqOf] finds the position of a UID. *)
Lemma seqOf_spec w u : Ascending (vw_uids w) -> seqOf w u = if bool_decide (u ∈ vw_uids w) then Some (Z.of_nat (uidRank (vw_uids w) u) + 1) else None.
Proof.
  intros HA. unfold seqOf, exists_. apply seqLoop_spec; [done|lia|lia|lia|lia|]. intros i x Hi%lookup_lt_Some. lia.
Qed.

Lemma boundLoop_spec fuel uids u lo hi : Ascending uids -> 0 <= lo <= hi -> hi <= Z.of_nat (length uids) -> hi - lo < Z.of_nat fuel ->
  (forall i x, uids !! i = Some x -> Z.of_nat i < lo -> x < u) -> (forall i x, uids !! i = Some x -> hi <= Z.of_nat i -> u <= x) ->
  let b := boundLoop fuel uids u lo hi in 0 <= b <= Z.of_nat (length uids) /\ (forall i x, uids !! i = Some x -> Z.of_nat i < b <-> x < u).
Proof.
  intros HA. revert lo hi. induction fuel as [|fuel IH]; intros lo hi Hlo Hhi Hf Hl Hh; [lia|]. cbn [boundLoop]. destruct (Z.ltb_spec lo hi) as [Hlt|Hge].
  - pose proof (middle_below lo hi Hlt) as Hm. set (mid := Z.shiftr (lo + hi) 1) in *. assert (Hv : uids !! Z.to_nat mid = Some (at_ uids mid)) by (apply at_lookup; lia). set (v := at_ uids mid) in *.
    destruct (Z.ltb_spec v u); apply IH; try lia; try done.
    + intros i x Hi Hi'. assert (x <= v); [|lia]. destruct (decide (i = Z.to_nat mid)) as [->|]; [simplify_eq; lia|]. assert (x < v); [|lia]. apply (lookup_order uids i (Z.to_nat mid)); [done..|lia].
    + intros i x Hi Hi'. assert (v <= x); [|lia]. destruct (decide (i = Z.to_nat mid)) as [->|]; [simplify_eq; lia|]. assert (v < x); [|lia]. apply (lookup_order uids (Z.to_nat mid) i); [done..|lia].
  - cbn. split; [lia|]. intros i x Hi. split; [by apply Hl|]. intros Hx. destruct (decide (Z.of_nat i < lo)); [done|]. specialize (Hh _ _ Hi ltac:(lia)). lia.
Qed.

(** ** Message sets *)

(** The messages of the view, with their numbers. *)
Fixpoint numbered (i : Z) (uids : list Z) : list (Z * Z) := match uids with [] => [] | u :: uids => (i + 1, u) :: numbered (i + 1) uids end.

#[local] Instance covers_dec n l : Decision (covers n l).
Proof. unfold covers. apply _. Defined.

Lemma elem_numbered i uids p : p ∈ numbered i uids <-> i < p.1 /\ uids !! Z.to_nat (p.1 - i - 1) = Some p.2.
Proof.
  revert i. induction uids as [|u uids IH]; intros i; cbn [numbered]; [split; [by intros ?%elem_of_nil|by intros [_ ?]]|]. rewrite elem_of_cons, IH. destruct p as [s x]. cbn. split.
  - intros [[= -> ->]|[Hi Hl]]; [split; [lia|by replace (i + 1 - i - 1) with 0 by lia]|]. split; [lia|]. by replace (Z.to_nat (s - i - 1)) with (S (Z.to_nat (s - (i + 1) - 1))) by lia.
  - intros [Hi Hl]. destruct (decide (s = i + 1)) as [->|Hne]; [left; replace (i + 1 - i - 1) with 0 in Hl by lia; by injection Hl as ->|]. right. split; [lia|]. by replace (Z.to_nat (s - i - 1)) with (S (Z.to_nat (s - (i + 1) - 1))) in Hl by lia.
Qed.

Lemma numbered_sorted i uids : Ascending uids -> StronglySorted (fun p q => p.1 < q.1 /\ p.2 < q.2) (numbered i uids).
Proof.
  revert i. induction uids as [|u uids IH]; intros i HA; cbn [numbered]; [constructor|]. apply Ascending_cons in HA as [H1 H2]. constructor; [by apply IH|]. apply Forall_forall. intros p [Hp Hl]%elem_numbered. cbn. split; [lia|]. apply H1. by eapply list_elem_of_lookup_2.
Qed.

(** Two filters of a sorted list, one below the other. *)
Lemma filter_split {A} (key : A -> Z) (P Q T : A -> Prop) `{!forall x, Decision (P x), !forall x, Decision (Q x), !forall x, Decision (T x)} (l : list A) :
  StronglySorted (fun x y => key x < key y) l -> (forall x y, P x -> Q y -> key x < key y) -> (forall x, x ∈ l -> T x <-> P x \/ Q x) -> filter P l ++ filter Q l = filter T l.
Proof.
  intros HS HPQ. induction HS as [|x l HS IH Hx]; intros HT; [done|]. rewrite Forall_forall in Hx. pose proof (HT x (list_elem_of_here _ _)) as Hxt. specialize (IH (fun y Hy => HT y (list_elem_of_further _ _ _ Hy))). rewrite !filter_cons.
  destruct (decide (P x)) as [HP|HP], (decide (Q x)) as [HQ|HQ], (decide (T x)) as [HTx|HTx]; try tauto.
  - specialize (HPQ x x HP HQ). lia.
  - cbn. by f_equal.
  - rewrite (filter_none P) in IH |- *; [cbn in *; by f_equal| |]; intros y Hy HPy; specialize (Hx _ Hy); specialize (HPQ y x HPy HQ); lia.
Qed.

Lemma canonical_filter (key : Z * Z -> Z) (f : Z * Z -> list (Z * Z)) l low ranges : StronglySorted (fun p q => key p < key q) l -> canonical low ranges ->
  (forall lo hi, low <= lo <= hi -> f (lo, hi) = filter (fun p => lo <= key p <= hi) l) -> ranges ≫= f = filter (fun p => covers (key p) ranges) l.
Proof.
  intros HS. revert low. induction ranges as [|[lo hi] ranges IH]; intros low Hc Hf; cbn [canonical] in Hc.
  - by rewrite filter_none by (intros p _ ?%covers_nil; done).
  - destruct Hc as [Hlo Hc]. cbn [mbind list_bind]. rewrite Hf by done. fold (ranges ≫= f). rewrite (IH (hi + 2)); [|done|intros; apply Hf; lia]. apply (filter_split key); [done| |].
    + intros x y Hx Hy. apply (canonical_above _ _ _ Hc) in Hy. lia.
    + intros x _. by rewrite covers_cons.
Qed.

Lemma uidsThrough_spec hi i uids : Ascending uids -> uidsThrough hi i uids = filter (fun p => p.2 <= hi) (numbered i uids).
Proof.
  revert i. induction uids as [|u uids IH]; intros i HA; [done|]. cbn [uidsThrough numbered]. apply Ascending_cons in HA as [H1 H2]. rewrite filter_cons. cbn [snd]. destruct (Z.ltb_spec hi u) as [Hlt|Hge].
  - rewrite decide_False by lia. rewrite filter_none; [done|]. intros p [_ Hp%list_elem_of_lookup_2%H1]%elem_numbered. lia.
  - rewrite decide_True by lia. by rewrite IH.
Qed.

(** The numbers of the rest of a view. *)
Lemma numbered_drop n i uids : numbered (i + Z.of_nat n) (drop n uids) = drop n (numbered i uids).
Proof. revert i uids. induction n as [|n IH]; intros i [|u uids]; cbn [drop numbered]; try done; [by rewrite Z.add_0_r|]. rewrite <- IH. f_equal. lia. Qed.

Lemma drop_filter_sorted (key : Z * Z -> Z) n x l : StronglySorted (fun p q => key p < key q) l -> (forall i p, l !! i = Some p -> (i < n)%nat <-> key p < x) -> drop n l = filter (fun p => x <= key p) l.
Proof.
  revert n. induction l as [|p l IH]; intros n HS Hn; [by destruct n|]. apply StronglySorted_inv in HS as [HS Hp]. rewrite filter_cons. pose proof (Hn 0%nat p eq_refl) as H0. destruct n as [|n].
  - rewrite decide_True by lia. cbn. f_equal. symmetry. apply filter_every. rewrite Forall_forall in Hp. intros q Hq. specialize (Hp _ Hq). lia.
  - rewrite decide_False by lia. cbn. apply IH; [done|]. intros i q Hq. rewrite <- (Hn (S i) q Hq). lia.
Qed.

Lemma keyed_unique (key : Z * Z -> Z) l l' : StronglySorted (fun p q => key p < key q) l -> StronglySorted (fun p q => key p < key q) l' -> (forall p, p ∈ l <-> p ∈ l') -> l = l'.
Proof.
  intros HS HS' HE. assert (HN : forall k, StronglySorted (fun p q => key p < key q) k -> NoDup k).
  { intros k Hk. induction Hk as [|p k _ IH Hp]; constructor; [|done]. rewrite Forall_forall in Hp. intros Hin%Hp. lia. }
  apply (StronglySorted_unique_strong (fun p q => key p < key q)); [intros; lia|done|done|]. by apply NoDup_Permutation; [apply HN|apply HN|].
Qed.

Lemma StronglySorted_omap {A B} (R : A -> A -> Prop) (R' : B -> B -> Prop) (f : A -> option B) l :
  StronglySorted R l -> (forall x y x' y', R x y -> f x = Some x' -> f y = Some y' -> R' x' y') -> StronglySorted R' (omap f l).
Proof.
  intros HS Hf. induction HS as [|x l HS IH Hx]; cbn; [constructor|]. destruct (f x) as [x'|] eqn:E; [|done]. constructor; [done|]. apply Forall_forall. intros y' (y & Hy & Ey)%list_elem_of_omap. rewrite Forall_forall in Hx. by eapply Hf; [apply Hx|..].
Qed.

Lemma elem_upTo lo hi x : x ∈ upTo lo hi <-> lo <= x <= hi.
Proof.
  unfold upTo. rewrite list_elem_of_fmap. split; [intros (i & -> & Hi%elem_of_seq); lia|]. intros Hx. exists (Z.to_nat (x - lo)). rewrite elem_of_seq. lia.
Qed.

Lemma upTo_sorted lo hi : StronglySorted Z.lt (upTo lo hi).
Proof.
  unfold upTo. generalize 0%nat as s. generalize (Z.to_nat (hi + 1 - lo)) as n. induction n as [|n IH]; intros s; cbn; constructor; [apply IH|]. apply Forall_forall. intros x (i & -> & Hi%elem_of_seq)%list_elem_of_fmap. lia.
Qed.

Lemma StronglySorted_weaken {A} (R R' : A -> A -> Prop) l : (forall x y, R x y -> R' x y) -> StronglySorted R l -> StronglySorted R' l.
Proof. intros HR HS. induction HS as [|x l HS IH Hx]; constructor; [done|]. eapply Forall_impl; [exact Hx|]. apply HR. Qed.

Lemma filter_agree {A} (P Q : A -> Prop) `{!forall x, Decision (P x), !forall x, Decision (Q x)} (l : list A) : (forall x, x ∈ l -> P x <-> Q x) -> filter P l = filter Q l.
Proof.
  induction l as [|x l IH]; intros HPQ; [done|]. rewrite !filter_cons, IH by (intros y Hy; apply HPQ; by right). pose proof (HPQ x (list_elem_of_here _ _)). repeat case_decide; tauto.
Qed.

Lemma StronglySorted_filter {A} (R : A -> A -> Prop) (P : A -> Prop) `{!forall x, Decision (P x)} (l : list A) : StronglySorted R l -> StronglySorted R (filter P l).
Proof.
  intros HS. induction HS as [|x l HS IH Hx]; [constructor|]. rewrite filter_cons. case_decide; [|done]. constructor; [done|]. rewrite Forall_forall in Hx |- *. intros y [_ Hy]%list_elem_of_filter. by apply Hx.
Qed.

Lemma sorted_ascending uids : NoDup uids -> Ascending (merge_sort Z.le uids).
Proof.
  intros HN. rewrite <- (merge_sort_Permutation Z.le uids) in HN. assert (HS : StronglySorted Z.le (merge_sort Z.le uids)) by (apply StronglySorted_merge_sort; [intros x y z; lia|intros x y; lia]).
  induction HS as [|u l HS IH Hu]; [constructor|]. apply NoDup_cons in HN as [Hn HN]. apply Ascending_cons. split; [|by apply IH]. intros x Hx. rewrite Forall_forall in Hu. specialize (Hu _ Hx). assert (x <> u) by (by intros ->). lia.
Qed.

Section resolve.
Context (w : MailboxView) (HA : Ascending (vw_uids w)).

Lemma sorted_by_seq : StronglySorted (fun p q => p.1 < q.1) (numbered 0 (vw_uids w)).
Proof. eapply StronglySorted_weaken; [|by apply numbered_sorted]. by intros p q [? ?]. Qed.
Lemma sorted_by_uid : StronglySorted (fun p q => p.2 < q.2) (numbered 0 (vw_uids w)).
Proof. eapply StronglySorted_weaken; [|by apply numbered_sorted]. by intros p q [? ?]. Qed.

Lemma uidAt_numbered s u : uidAt w s = Some u <-> (s, u) ∈ numbered 0 (vw_uids w).
Proof. rewrite elem_numbered. unfold uidAt. cbn. replace (s - 0 - 1) with (s - 1) by lia. destruct (Z.ltb_spec s 1); split; try done; [lia|intros ?; split; [lia|done]|tauto]. Qed.

Lemma seqOf_numbered s u : seqOf w u = Some s <-> (s, u) ∈ numbered 0 (vw_uids w).
Proof.
  rewrite seqOf_spec, elem_numbered by done. cbn. split.
  - case_bool_decide as Hu; intros [= <-]. split; [lia|]. replace (Z.to_nat _) with (uidRank (vw_uids w) u) by lia. by apply lookup_rank.
  - intros [Hs Hl]. rewrite bool_decide_eq_true_2 by by eapply list_elem_of_lookup_2. rewrite (rank_lookup _ _ _ HA Hl). f_equal. lia.
Qed.

Lemma lowerBound_spec u : (forall i p, numbered 0 (vw_uids w) !! i = Some p -> (i < Z.to_nat (lowerBound w u))%nat <-> p.2 < u) /\ 0 <= lowerBound w u.
Proof.
  unfold lowerBound, exists_. destruct (boundLoop_spec (S (length (vw_uids w))) (vw_uids w) u 0 (Z.of_nat (length (vw_uids w)))) as [Hb Hs]; [done|lia..|intros i x Hi%lookup_lt_Some; lia|].
  split; [|lia]. intros i p Hi. assert (vw_uids w !! i = Some p.2) as Hu; [|specialize (Hs _ _ Hu); lia].
  revert Hi. clear. generalize 0. generalize (vw_uids w). intros l. revert i. induction l as [|u l IH]; intros i k; [done|]. destruct i as [|i]; cbn; [by intros [= <-]|]. apply IH.
Qed.

(** Sequence numbers, and UIDs, in a set: the messages of the view that the set names, in its order, however the
    set writes them; of the saved search result, those that are still there. *)
Lemma resolveSeqs_spec ranges saved : resolveSeqs w (SeqRanges ranges) saved = filter (fun p => sequenceSetHas (SeqRanges ranges) p.1 (exists_ w) = true) (numbered 0 (vw_uids w)).
Proof.
  unfold resolveSeqs. case_bool_decide as Hn; [by rewrite Hn|]. destruct (normalize_spec (SeqRanges ranges) (exists_ w)) as [Hc He]. erewrite (canonical_filter (fun p => p.1)); [|apply sorted_by_seq|exact Hc|].
  - apply filter_agree. intros p [Hp _]%elem_numbered. rewrite He. split; [by intros [_ ?]|]. intros ?. split; [lia|done].
  - intros lo hi Hlo. cbn [fst snd]. apply (keyed_unique (fun p => p.1)).
    + eapply StronglySorted_omap; [apply upTo_sorted|]. intros s t p q Hst. destruct (uidAt w s), (uidAt w t); try done. by intros [= <-] [= <-].
    + apply StronglySorted_filter, sorted_by_seq.
    + intros [s u]. rewrite list_elem_of_omap, list_elem_of_filter, <- uidAt_numbered. cbn. split.
      * intros (t & Ht%elem_upTo & E). destruct (uidAt w t) as [x|] eqn:Ex; [|done]. injection E as <- <-. split; [lia|done].
      * intros [Hs Hu]. exists s. rewrite Hu. split; [|done]. apply elem_upTo. unfold uidAt in Hu. destruct (s <? 1); [done|]. apply lookup_lt_Some in Hu. unfold exists_. lia.
Qed.

Lemma resolveUids_spec ranges saved : (forall u, u ∈ vw_uids w -> 0 < u) -> resolveUids w (SeqRanges ranges) saved = filter (fun p => sequenceSetHas (SeqRanges ranges) p.2 (maxUid w) = true) (numbered 0 (vw_uids w)).
Proof.
  intros Hpos. unfold resolveUids. case_bool_decide as Hn; [by rewrite Hn|]. destruct (normalize_spec (SeqRanges ranges) (maxUid w)) as [Hc He]. erewrite (canonical_filter (fun p => p.2)); [|apply sorted_by_uid|exact Hc|].
  - apply filter_agree. intros p [_ Hp%list_elem_of_lookup_2%Hpos]%elem_numbered. rewrite He. split; [by intros [_ ?]|]. intros ?. split; [lia|done].
  - intros lo hi Hlo. cbn [fst snd]. destruct (lowerBound_spec lo) as [Hlb Hge]. set (i := lowerBound w lo) in *.
    rewrite uidsThrough_spec by (rewrite <- (take_drop (Z.to_nat i) (vw_uids w)) in HA; by apply StronglySorted_app_1_r in HA). rewrite <- (Z2Nat.id i Hge) at 1. rewrite <- (Z.add_0_l (Z.of_nat _)), numbered_drop, (drop_filter_sorted (fun p => p.2) _ lo) by (apply sorted_by_uid || done).
    rewrite list_filter_filter. apply list_filter_iff. intros p. lia.
Qed.

Lemma pairsForUids_spec uids : NoDup uids -> pairsForUids w uids = filter (fun p => p.2 ∈ uids) (numbered 0 (vw_uids w)).
Proof.
  intros HN. unfold pairsForUids. apply (keyed_unique (fun p => p.2)).
  - eapply StronglySorted_omap; [by apply sorted_ascending|]. intros u x p q Hux. destruct (seqOf w u), (seqOf w x); try done. by intros [= <-] [= <-].
  - apply StronglySorted_filter, sorted_by_uid.
  - intros [s u]. rewrite list_elem_of_omap, list_elem_of_filter, <- seqOf_numbered. setoid_rewrite (merge_sort_Permutation Z.le uids). cbn [fst snd]. split.
    + intros (x & Hx & E). destruct (seqOf w x) as [t|] eqn:Et; [|done]. by injection E as <- <-.
    + intros [Hu Hs]. exists u. by rewrite Hs.
Qed.
End resolve.

(** ** The client *)

(** What a client knows of the message in a position. *)
Record Entry := mkEntry { en_uid : option Z; en_flags : option (list jsstr) }.
Definition unknown : Entry := mkEntry None None.

(** The client does what it is told, and has no answer to what contradicts what it knows. It did not enable QRESYNC. *)
Definition receiveOne (r : ImapResponse) (c : list Entry) : option (list Entry) :=
  match r with
  | RExpunge s => if (1 <=? s) && (s <=? Z.of_nat (length c)) then Some (delete (Z.to_nat (s - 1)) c) else None
  | RExists n => if Z.of_nat (length c) <=? n then Some (c ++ replicate (Z.to_nat n - length c) unknown) else None
  | RVanished _ _ => None
  | RFetch s uid flags _ =>
      if s <? 1 then None
      else
        match c !! Z.to_nat (s - 1) with
        | None => None
        | Some e =>
            match en_uid e, uid with
            | Some u, Some u' => if u =? u' then Some (<[Z.to_nat (s - 1) := mkEntry (Some u) (Some flags)]> c) else None
            | None, _ => Some (<[Z.to_nat (s - 1) := mkEntry uid (Some flags)]> c)
            | Some u, None => Some (<[Z.to_nat (s - 1) := mkEntry (Some u) (Some flags)]> c)
            end
        end
  end.

Fixpoint receiveAll (rs : list ImapResponse) (c : list Entry) : option (list Entry) :=
  match rs with [] => Some c | r :: rs => c ← receiveOne r c; receiveAll rs c end.

Lemma receiveAll_app rs1 rs2 c : receiveAll (rs1 ++ rs2) c = c ← receiveAll rs1 c; receiveAll rs2 c.
Proof. revert c. induction rs1 as [|r rs1 IH]; intros c; [done|]. cbn. destruct (receiveOne r c); [apply IH|done]. Qed.

(** ** Expunges *)

Lemma filter_filter_and (P Q R : Z -> Prop) `{!forall x, Decision (P x), !forall x, Decision (Q x), !forall x, Decision (R x)} (l : list Z) :
  (forall x, R x <-> P x /\ Q x) -> filter P (filter Q l) = filter R l.
Proof. intros HR. rewrite list_filter_filter. apply list_filter_iff. intros x. symmetry. apply HR. Qed.

Lemma delete_rank uids u : Ascending uids -> u ∈ uids -> delete (uidRank uids u) uids = filter (fun x => x <> u) uids.
Proof.
  induction uids as [|y uids IH]; intros H Hu; [by apply elem_of_nil in Hu|]. apply Ascending_cons in H as [H1 H2]. unfold uidRank. rewrite !filter_cons. apply elem_of_cons in Hu as [->|Hu].
  - rewrite decide_False by lia. rewrite decide_False by (intros ?; done). rewrite filter_none; [cbn|intros z Hz%H1; lia]. symmetry. apply filter_every. intros z Hz%H1. lia.
  - pose proof (H1 _ Hu). rewrite decide_True by done. rewrite decide_True by lia. cbn. f_equal. by apply IH.
Qed.

Lemma rank_without uids u x : x < u -> uidRank (filter (fun y => y <> u) uids) x = uidRank uids x.
Proof. intros Hx. unfold uidRank. f_equal. apply filter_filter_and. intros y. split; [|tauto]. intros Hy. split; [done|lia]. Qed.

(** What is left of a view without some UIDs. *)
Record PrunedView (us : list Z) (w w' : MailboxView) : Prop := {
  pruned_mailbox : vw_mailbox w' = vw_mailbox w;
  pruned_highest : vw_highest w' = vw_highest w;
  pruned_uids : vw_uids w' = filter (fun x => x ∉ us) (vw_uids w);
  pruned_known : forall u, vw_known w' !! u = if bool_decide (u ∈ us) then None else vw_known w !! u;
  pruned_pending : vw_pending w' = filter (fun x => x ∉ us) (vw_pending w)
}.

Definition positions (uids us : list Z) : list Z := (fun u => Z.of_nat (uidRank uids u) + 1) <$> us.

Lemma expungeLoop_spec (R : Entry -> Z -> Prop) us w c : Ascending (vw_uids w) -> StronglySorted Z.gt us -> (forall u, u ∈ us -> u ∈ vw_uids w) -> Forall2 R c (vw_uids w) ->
  let r := expungeLoop (positions (vw_uids w) us) w in
  PrunedView us w r.2 /\ exists c', receiveAll r.1 c = Some c' /\ Forall2 R c' (vw_uids r.2).
Proof.
  revert w c. induction us as [|u us IH]; intros w c HA HG Hin HR; cbn.
  - split; [|by exists c]. split; [done|done|symmetry; apply filter_every; intros; apply not_elem_of_nil|by intros u; rewrite bool_decide_eq_false_2 by apply not_elem_of_nil|symmetry; apply filter_every; intros; apply not_elem_of_nil].
  - apply StronglySorted_inv in HG as [HG Hgt]. rewrite Forall_forall in Hgt. pose proof (Hin u (list_elem_of_here _ _)) as Hu. pose proof (lookup_rank _ _ HA Hu) as Hl. set (k := uidRank (vw_uids w) u) in *.
    assert (Es : Z.to_nat (Z.of_nat k + 1 - 1) = k) by lia. unfold uidAt. rewrite (proj2 (Z.ltb_ge _ _)) by lia. rewrite Es, Hl.
    set (w1 := forgetUid u (splice (Z.of_nat k + 1) w)). assert (Hu1 : vw_uids w1 = filter (fun x => x <> u) (vw_uids w)) by (cbn; rewrite Es; by apply delete_rank).
    pose proof (Forall2_length _ _ _ HR) as Hlen. pose proof (lookup_lt_Some _ _ _ Hl) as Hk.
    assert (Ep : (fun x => Z.of_nat (uidRank (vw_uids w) x) + 1) <$> us = positions (vw_uids w1) us).
    { unfold positions. apply list_fmap_ext. intros i x Hx. rewrite Hu1, rank_without; [done|]. assert (u > x); [apply Hgt; by eapply list_elem_of_lookup_2|lia]. }
    rewrite Ep. destruct (IH w1 (delete k c)) as ([P1 P2 P3 P4 P5] & c' & Hc & HR').
    + rewrite Hu1. by apply Ascending_filter.
    + done.
    + intros x Hx. rewrite Hu1. apply list_elem_of_filter. split; [|apply Hin; by right]. intros ->. specialize (Hgt _ Hx). lia.
    + cbn. rewrite Es. by apply Forall2_delete.
    + split.
      * split; [done|done| | |].
        -- rewrite P3, Hu1. apply filter_filter_and. intros x. rewrite not_elem_of_cons. tauto.
        -- intros x. rewrite P4. cbn. destruct (decide (u = x)) as [->|Hne]; [rewrite lookup_delete_eq, (bool_decide_eq_true_2 (x ∈ x :: us)) by left; by case_bool_decide|].
           rewrite lookup_delete_ne by done. erewrite (bool_decide_ext (x ∈ u :: us)); [done|]. rewrite elem_of_cons. split; [by intros [->|]|by right].
        -- rewrite P5. cbn. apply filter_filter_and. intros x. rewrite not_elem_of_cons. tauto.
      * exists c'. split; [|done]. rewrite (proj2 (Z.leb_le _ _)), (proj2 (Z.leb_le _ _)) by lia. exact Hc.
Qed.

(** The shape every view has. *)
Record Shape (w : MailboxView) : Prop := {
  shape_uids : Ascending (vw_uids w);
  shape_pending : NoDup (vw_pending w) /\ forall u, u ∈ vw_pending w -> u ∈ vw_uids w;
  shape_known : forall u, is_Some (vw_known w !! u) <-> u ∈ vw_uids w
}.

Lemma Pruned_shape us w w' : Shape w -> PrunedView us w w' -> Shape w'.
Proof.
  intros [S1 [S2 S3] S4] [P1 P2 P3 P4 P5]. split.
  - rewrite P3. by apply Ascending_filter.
  - rewrite P5, P3. split; [by apply NoDup_filter|]. intros u [Hu1 Hu2]%list_elem_of_filter. apply list_elem_of_filter. split; [done|by apply S3].
  - intros u. rewrite P3, P4, list_elem_of_filter, <- S4. case_bool_decide; [split; [by intros [? [=]]|by intros [? _]]|tauto].
Qed.

Lemma Pruned_ext us us' w w' : Shape w -> (forall u, u ∈ vw_uids w -> u ∈ us <-> u ∈ us') -> PrunedView us w w' -> PrunedView us' w w'.
Proof.
  intros [S1 [S2 S3] S4] E [P1 P2 P3 P4 P5]. assert (Ef : forall l : list Z, (forall u, u ∈ l -> u ∈ vw_uids w) -> filter (fun x => x ∉ us) l = filter (fun x => x ∉ us') l).
  { intros l. induction l as [|x l IH]; intros Hl; [done|]. rewrite !filter_cons, IH by (intros y Hy; apply Hl; by right). pose proof (E x (Hl x (list_elem_of_here _ _))). repeat case_decide; tauto. }
  split; [done|done|by rewrite P3, Ef|intros u; rewrite P4|by rewrite P5, Ef].
  destruct (decide (u ∈ vw_uids w)) as [Hu|Hu]; [by rewrite (bool_decide_ext _ _ (E u Hu))|]. assert (vw_known w !! u = None) as -> by (apply eq_None_not_Some; by rewrite S4). by repeat case_bool_decide.
Qed.

#[local] Instance Zge_antisymm : AntiSymm (=) Z.ge.
Proof. intros x y. lia. Qed.
#[local] Instance Zge_total : Total Z.ge.
Proof. intros x y. lia. Qed.
#[local] Instance Zge_trans : Transitive Z.ge.
Proof. intros x y z. lia. Qed.

Lemma descending us : StronglySorted Z.ge us -> NoDup us -> StronglySorted Z.gt us.
Proof.
  induction us as [|u us IH]; intros HS HN; [constructor|]. apply StronglySorted_inv in HS as [HS Hge]. apply NoDup_cons in HN as [Hu HN]. constructor; [by apply IH|]. rewrite Forall_forall in Hge |- *. intros x Hx. specialize (Hge _ Hx). assert (u <> x) by (by intros ->). lia.
Qed.

Lemma positions_descending uids us : Ascending uids -> (forall u, u ∈ us -> u ∈ uids) -> StronglySorted Z.gt us -> StronglySorted Z.ge (positions uids us).
Proof.
  intros HA. induction us as [|u us IH]; intros Hin HS; [constructor|]. apply StronglySorted_inv in HS as [HS Hgt]. cbn. constructor; [apply IH; [intros x Hx; apply Hin; by right|done]|].
  rewrite Forall_forall in Hgt |- *. intros p (x & -> & Hx)%list_elem_of_fmap. assert (x < u) as Hlt by (specialize (Hgt _ Hx); lia). apply (rank_order uids) in Hlt; [lia|done|apply Hin; by right|apply Hin; left].
Qed.

Lemma expungeNow_spec (R : Entry -> Z -> Prop) l w c : Shape w -> NoDup l -> Forall2 R c (vw_uids w) ->
  let r := expungeNow l false w in PrunedView l w r.2 /\ exists c', receiveAll r.1 c = Some c' /\ Forall2 R c' (vw_uids r.2).
Proof.
  intros HS HN HR. pose proof (shape_uids _ HS) as HA. set (us := merge_sort Z.ge (filter (fun u => u ∈ vw_uids w) l)). unfold expungeNow.
  assert (Hus : forall u, u ∈ us <-> u ∈ vw_uids w /\ u ∈ l) by (intros u; unfold us; by rewrite merge_sort_Permutation, list_elem_of_filter).
  assert (HG : StronglySorted Z.gt us).
  { apply descending; [apply StronglySorted_merge_sort; apply _|]. unfold us. rewrite merge_sort_Permutation. by apply NoDup_filter. }
  assert (Eo : omap (seqOf w) l = positions (vw_uids w) (filter (fun u => u ∈ vw_uids w) l)).
  { clear -HA. induction l as [|u l IH]; [done|]. cbn [omap list_omap]. rewrite seqOf_spec by done. rewrite filter_cons. case_bool_decide; case_decide; try done. cbn. by f_equal. }
  assert (Es : merge_sort Z.ge (omap (seqOf w) l) = positions (vw_uids w) us).
  { apply (StronglySorted_unique Z.ge).
    - apply StronglySorted_merge_sort; apply _.
    - apply positions_descending; [done|intros u Hu; by apply Hus|done].
    - rewrite merge_sort_Permutation, Eo. unfold positions, us. by rewrite merge_sort_Permutation. }
  rewrite Es. destruct (expungeLoop_spec R us w c HA HG) as [HP Hc]; [intros u Hu; by apply Hus|done|]. split; [|done]. eapply Pruned_ext; [done| |exact HP]. intros u Hu. rewrite Hus. tauto.
Qed.

Lemma flushPending_spec (R : Entry -> Z -> Prop) w c : Shape w -> Forall2 R c (vw_uids w) ->
  let r := flushPending false w in PrunedView (vw_pending w) w r.2 /\ exists c', receiveAll r.1 c = Some c' /\ Forall2 R c' (vw_uids r.2).
Proof.
  intros HS HR. unfold flushPending. case_bool_decide as Hp; [|apply expungeNow_spec; [done|apply (shape_pending _ HS)|done]].
  cbn. split; [|by exists c]. rewrite Hp. split; [done|done| |intros u; by rewrite bool_decide_eq_false_2 by apply not_elem_of_nil|]; symmetry; apply filter_every; intros; apply not_elem_of_nil.
Qed.

(** ** What the view has of the database *)

Record Faithful (w : MailboxView) (d : Db) (b : Mailbox) : Prop := {
  faithful_shape : Shape w;
  faithful_below : forall u, u ∈ vw_uids w -> u < mb_uidnext b;
  faithful_highest : vw_highest w <= mb_highestModseq b;
  faithful_pending : forall u v, u ∈ vw_pending w -> live d (vw_mailbox w) v -> v_uid v <> u;
  faithful_gone : forall u, u ∈ vw_uids w -> (exists v, live d (vw_mailbox w) v /\ v_uid v = u) \/ u ∈ vw_pending w \/ vw_highest w < mb_highestModseq b;
  faithful_live : forall v, live d (vw_mailbox w) v -> v_uid v ∈ vw_uids w \/ ((forall u, u ∈ vw_uids w -> u < v_uid v) /\ vw_highest w < v_modseq v);
  faithful_known : forall v q, live d (vw_mailbox w) v -> vw_known w !! v_uid v = Some q -> q <= v_modseq v /\ (v_modseq v <= vw_highest w -> q = v_modseq v);
  faithful_heard : forall u q, vw_known w !! u = Some q -> q <= mb_highestModseq b
}.

(** What the client was told of a message is so, unless the session knows that it has changed. *)
Definition Told (w : MailboxView) (d : Db) (e : Entry) (u : Z) : Prop :=
  (forall u', en_uid e = Some u' -> u' = u) /\
  (forall fl v, en_flags e = Some fl -> live d (vw_mailbox w) v -> v_uid v = u -> vw_known w !! u = Some (v_modseq v) -> v_flags v = fl).

Lemma Evolves_silent an d d' mb b b' : Evolves an d d' mb b b' -> Evolves false d d' mb b b'.
Proof. intros [E1 E2 E3 E4 E5 E6]. split; [done|done|done| |done|done]. intros v Hv. destruct (E4 v Hv) as [?|[? _]]; [by left|by right]. Qed.

Lemma Evolves_silent_trans d1 d2 d3 mb b1 b2 b3 : BoxOk d1 mb b1 -> Evolves false d1 d2 mb b1 b2 -> Evolves false d2 d3 mb b2 b3 -> Evolves false d1 d3 mb b1 b3.
Proof. apply (Evolves_trans false false). Qed.

(** A message that is there later: as it was, changed since, or new. *)
Lemma evolves_back d d' mb b b' v' : Evolves false d d' mb b b' -> live d' mb v' ->
  live d mb v' \/ (mb_highestModseq b < v_modseq v' /\ ((exists v, live d mb v /\ v_uid v = v_uid v') \/ mb_uidnext b <= v_uid v')).
Proof. intros HE Hv. destruct (evolves_live _ _ _ _ _ _ HE v' Hv) as [?|(Hq & [(v & H1 & H2 & _)|Hu])]; [by left|right; split; [lia|left; by exists v]|right; split; [lia|right; lia]]. Qed.

Lemma faithful_evolves w d d' b b' : Evolves false d d' (vw_mailbox w) b b' -> Faithful w d b -> Faithful w d' b'.
Proof.
  intros HE [F1 F2 F3 F4 F5 F6 F7 F8]. pose proof (evolves_uidnext _ _ _ _ _ _ HE). pose proof (evolves_modseq _ _ _ _ _ _ HE). pose proof (fun v' => evolves_back _ _ _ _ _ v' HE) as HB. split; [done|intros u Hu; specialize (F2 u Hu); lia|lia| | | | |].
  - intros u v Hu [Hv|(_ & [(v0 & Hv & E)|Hlt])]%HB Eu; [by eapply F4|eapply (F4 u v0); [done..|congruence]|]. apply (shape_pending _ F1), F2 in Hu. lia.
  - intros u Hu. destruct (F5 u Hu) as [(v & Hv & Eu)|[?|?]]; [|by right; left|right; right; lia]. destruct (evolves_lost _ _ _ _ _ _ HE v Hv) as [(v' & Hv' & Eu')|[Hlt _]]; [left; exists v'; split; [done|congruence]|right; right; lia].
  - intros v [Hv|(Hq & [(v0 & Hv & E)|Hlt])]%HB; [by apply F6| |].
    + destruct (F6 v0 Hv) as [Hin|[Hin _]]; rewrite E in Hin; [by left|right; split; [done|lia]].
    + right. split; [|lia]. intros u Hu%F2. lia.
  - intros v q [Hv|(Hq & _)]%HB Hk; [by apply F7|]. specialize (F8 _ _ Hk). split; lia.
  - intros u q Hk%F8. lia.
Qed.

Lemma told_evolves w d d' b b' e u : Evolves false d d' (vw_mailbox w) b b' -> Faithful w d b -> Told w d e u -> Told w d' e u.
Proof.
  intros HE HF [H1 H2]. split; [done|]. intros fl v Hfl Hv Hu Hk. destruct (evolves_back _ _ _ _ _ v HE Hv) as [Hv0|(Hq & _)]; [by eapply H2|]. apply (faithful_heard _ _ _ HF) in Hk. lia.
Qed.

(** The client stays right when the session forgets. *)
Lemma told_less w w' d e u : vw_mailbox w' = vw_mailbox w -> (forall q, vw_known w' !! u = Some q -> vw_known w !! u = Some q) -> Told w d e u -> Told w' d e u.
Proof. intros Hm Hk [H1 H2]. split; [done|]. intros fl v Hfl. rewrite Hm. intros Hv Hu Hq. by eapply H2, Hk. Qed.

Lemma pruned_told us w w' d c : PrunedView us w w' -> Forall2 (Told w d) c (vw_uids w') -> Forall2 (Told w' d) c (vw_uids w').
Proof. intros HP HF. eapply Forall2_impl; [exact HF|]. intros e u. apply told_less; [apply HP|]. intros q. rewrite (pruned_known _ _ _ HP). by case_bool_decide. Qed.

Lemma pruned_faithful us w w' d b : PrunedView us w w' -> (forall u v, u ∈ us -> live d (vw_mailbox w) v -> v_uid v <> u) -> Faithful w d b -> Faithful w' d b.
Proof.
  intros HP Hus [F1 F2 F3 F4 F5 F6 F7 F8]. pose proof HP as [P1 P2 P3 P4 P5]. assert (Hu : forall u, u ∈ vw_uids w' <-> u ∉ us /\ u ∈ vw_uids w) by (intros u; by rewrite P3, list_elem_of_filter).
  split; rewrite ?P1, ?P2; [by eapply Pruned_shape|by intros u [_ Hin%F2]%Hu|done| | | | |].
  - intros u v. rewrite P5, list_elem_of_filter. intros [_ Hp]. by apply F4.
  - intros u [Hn Hin]%Hu. destruct (F5 u Hin) as [?|[?|?]]; [by left|right; left|right; by right]. rewrite P5. by apply list_elem_of_filter.
  - intros v Hv. destruct (F6 v Hv) as [Hin|[Hab Hq]]; [left; apply Hu; split; [|done]; intros Hn; by eapply Hus|]. right. split; [|done]. intros u [_ Hin]%Hu. by apply Hab.
  - intros v q Hv. rewrite P4. case_bool_decide; [done|]. by apply F7.
  - intros u q. rewrite P4. case_bool_decide; [done|]. apply F8.
Qed.

(** ** The reads *)

Lemma uids_ascending d mb : UniqueUids (d_messages d) -> Ascending ((fun x => m_uid x.2) <$> messagesOf d mb).
Proof.
  intros HU. assert (HS : StronglySorted Z.le ((fun x => m_uid x.2) <$> messagesOf d mb)).
  { assert (HS : StronglySorted uidBefore (messagesOf d mb)) by (apply StronglySorted_merge_sort; [intros x y z; unfold uidBefore; lia|intros x y; unfold uidBefore; lia]).
    induction HS as [|x l HS IH Hx]; [constructor|]. cbn. constructor; [done|]. apply Forall_fmap. eapply Forall_impl; [exact Hx|]. done. }
  assert (HN : NoDup ((fun x => m_uid x.2) <$> messagesOf d mb)) by (pose proof (NoDup_uids d mb HU) as HN; by rewrite <- list_fmap_compose in HN).
  induction HS as [|u l HS IH Hu]; [constructor|]. apply NoDup_cons in HN as [Hn HN]. apply Ascending_cons. split; [|by apply IH]. intros x Hx. rewrite Forall_forall in Hu. specialize (Hu _ Hx). assert (x <> u) by (by intros ->). lia.
Qed.

Lemma elem_uids d mb u : u ∈ (fun x => m_uid x.2) <$> messagesOf d mb <-> exists v, live d mb v /\ v_uid v = u.
Proof.
  rewrite list_elem_of_fmap. split.
  - intros ([i m] & -> & [Hi Hm]%elem_messagesOf). exists (seen m). split; [by exists i, m|done].
  - intros (v & (i & m & Hi & Hm & ->) & <-). exists (i, m). split; [done|]. by apply elem_messagesOf.
Qed.

Lemma elem_changed d mb q r : r ∈ changedSince d mb q <-> exists v, live d mb v /\ q < v_modseq v /\ r = mkFlagRow (v_uid v) (v_flags v) (v_modseq v).
Proof.
  rewrite elem_changedSince. split; [intros (i & m & Hi & Hm & Hq & ->); exists (seen m); split; [by exists i, m|done]|]. intros (v & (i & m & Hi & Hm & ->) & Hq & ->). by exists i, m.
Qed.

Lemma changed_ascending d mb q : UniqueUids (d_messages d) -> Ascending (f_uid <$> changedSince d mb q).
Proof.
  intros HU0. pose proof (uids_ascending d mb HU0) as HU. unfold changedSince. rewrite <- list_fmap_compose. induction (messagesOf d mb) as [|x l IH]; [constructor|]. cbn in HU. apply Ascending_cons in HU as [H1 H2]. rewrite filter_cons. case_decide; [|by apply IH].
  cbn. apply Ascending_cons. split; [|by apply IH]. intros y (z & -> & [_ Hz]%list_elem_of_filter)%list_elem_of_fmap. apply H1. by apply list_elem_of_fmap_2.
Qed.

Lemma maxUid_spec uids u : Ascending uids -> u ∈ uids -> exists m, last uids = Some m /\ u <= m.
Proof.
  intros HA Hu. destruct (last uids) as [m|] eqn:E; [|apply last_None in E; subst; by apply elem_of_nil in Hu]. exists m. split; [done|]. apply last_Some in E as [l ->]. apply elem_of_app in Hu as [Hu|Hu%list_elem_of_singleton]; [|lia].
  clear -HA Hu. induction l as [|x l IH]; [by apply elem_of_nil in Hu|]. cbn in HA. apply Ascending_cons in HA as [H1 H2]. apply elem_of_cons in Hu as [->|Hu]; [|by apply IH]. assert (x < m); [|lia]. apply H1, elem_of_app. right. by apply list_elem_of_singleton.
Qed.

(** A UID is above [maxUid] exactly when it is above all of the view. *)
Lemma maxUid_above w u : Ascending (vw_uids w) -> 0 < u -> maxUid w < u <-> forall x, x ∈ vw_uids w -> x < u.
Proof.
  intros HA Hu. unfold maxUid. split.
  - intros Hm x Hx. destruct (maxUid_spec _ _ HA Hx) as (m & E & Hle). rewrite E in Hm. cbn in Hm. lia.
  - intros Hx. destruct (last (vw_uids w)) as [m|] eqn:E; [|done]. cbn. apply Hx. apply last_Some in E as [l ->]. apply elem_of_app. right. by apply list_elem_of_singleton.
Qed.

(** ** The steps of [sync] *)

Lemma arrive_spec rows w : let w' := fold_left (fun w r => arrive r w) rows w in
  vw_mailbox w' = vw_mailbox w /\ vw_highest w' = vw_highest w /\ vw_pending w' = vw_pending w /\ vw_uids w' = vw_uids w ++ (f_uid <$> rows) /\
  (forall u, u ∉ f_uid <$> rows -> vw_known w' !! u = vw_known w !! u) /\ (NoDup (f_uid <$> rows) -> forall r, r ∈ rows -> vw_known w' !! f_uid r = Some (f_modseq r)).
Proof.
  revert w. induction rows as [|r rows IH]; intros w; cbn [fold_left].
  - cbn. split_and!; [done..|by rewrite app_nil_r|done|by intros _ r ?%elem_of_nil].
  - destruct (IH (arrive r w)) as (I1 & I2 & I3 & I4 & I5 & I6). split_and!; [done|done|done|by rewrite I4; cbn; rewrite <- app_assoc| |].
    + intros u Hu. rewrite fmap_cons, not_elem_of_cons in Hu. destruct Hu as [Hu1 Hu2]. rewrite I5 by done. cbn. by rewrite lookup_insert_ne.
    + rewrite fmap_cons, NoDup_cons. intros [Hn HN] x [->|Hx]%elem_of_cons; [|by apply I6]. rewrite I5 by done. cbn. by rewrite lookup_insert_eq.
Qed.

(** What the client is told of the row of a message that is still there. *)
Definition RowOk (d : Db) (mb : Id) (r : FlagRow) : Prop := forall v, live d mb v -> v_uid v = f_uid r -> v_modseq v = f_modseq r -> v_flags v = f_flags r.

(** The same view but for the mod-sequences the client heard of. *)
Record SameView (w w' : MailboxView) : Prop := {
  sv_mailbox : vw_mailbox w' = vw_mailbox w; sv_uids : vw_uids w' = vw_uids w; sv_pending : vw_pending w' = vw_pending w; sv_highest : vw_highest w' = vw_highest w;
  sv_known : forall u, is_Some (vw_known w' !! u) <-> is_Some (vw_known w !! u) }.

Lemma SameView_refl w : SameView w w.
Proof. by split. Qed.
Lemma SameView_trans w1 w2 w3 : SameView w1 w2 -> SameView w2 w3 -> SameView w1 w3.
Proof. intros [H1 H2 H3 H4 H5] [K1 K2 K3 K4 K5]. split; [congruence..|]. intros u. by rewrite K5, H5. Qed.

Lemma SameView_shape w w' : SameView w w' -> Shape w -> Shape w'.
Proof. intros [H1 H2 H3 H4 H5] [S1 S2 S3]. split; rewrite ?H2, ?H3; [done|done|]. intros u. by rewrite H5, S3. Qed.

(** One message is told of: the client takes it, and what it knows of the others stays. *)
Lemma told_fetch w d c u q fl uid ms : Shape w -> u ∈ vw_uids w -> (uid = None \/ uid = Some u) -> (forall v, live d (vw_mailbox w) v -> v_uid v = u -> v_modseq v = q -> v_flags v = fl) -> Forall2 (Told w d) c (vw_uids w) ->
  exists s c', seqOf w u = Some s /\ receiveOne (RFetch s uid fl ms) c = Some c' /\ Forall2 (Told (setKnown (<[u := q]> (vw_known w)) w) d) c' (vw_uids w).
Proof.
  intros HS Hu Huid Hfl HR. pose proof (shape_uids _ HS) as HA. rewrite seqOf_spec, bool_decide_eq_true_2 by done. set (k := uidRank (vw_uids w) u). pose proof (lookup_rank _ _ HA Hu) as Hk. fold k in Hk.
  destruct (Forall2_lookup_r _ _ _ _ _ HR Hk) as (e & He & [T1 T2]). exists (Z.of_nat k + 1), (<[k := mkEntry (if en_uid e then Some u else uid) (Some fl)]> c). split; [done|]. cbn [receiveOne]. rewrite (proj2 (Z.ltb_ge _ _)) by lia. replace (Z.to_nat (Z.of_nat k + 1 - 1)) with k by lia. rewrite He. split.
  - destruct (en_uid e) as [u'|] eqn:Eu; [|by destruct Huid as [-> | ->]]. specialize (T1 u' eq_refl) as ->. destruct Huid as [-> | ->]; [done|]. by rewrite Z.eqb_refl.
  - assert (Hlk : (k < length c)%nat) by by eapply lookup_lt_Some. rewrite <- (list_insert_id (vw_uids w) k u Hk). apply Forall2_same_length_lookup_2.
    { rewrite !length_insert. by eapply Forall2_length. }
    intros i e' u' Hi Hi'. destruct (decide (k = i)) as [<-|Hne].
    + rewrite list_lookup_insert_eq in Hi by done. rewrite list_lookup_insert_eq in Hi' by (by eapply lookup_lt_Some). injection Hi as <-. injection Hi' as <-. split; cbn.
      * intros x. destruct (en_uid e); [congruence|]. destruct Huid as [-> | ->]; congruence.
      * intros fl' v [= <-] Hv Hvu. rewrite lookup_insert_eq. intros [= Hq]. by apply Hfl.
    + rewrite list_lookup_insert_ne in Hi by done. rewrite list_lookup_insert_ne in Hi' by done. assert (u' <> u) by (intros ->; apply Hne; by eapply NoDup_lookup; [by apply Ascending_NoDup|..]).
      apply (told_less w); [done| |by eapply Forall2_lookup_lr]. cbn. intros q'. by rewrite lookup_insert_ne.
Qed.

Lemma flagLoop_spec cs top C d w c : Shape w -> (forall r, r ∈ C -> RowOk d (vw_mailbox w) r) -> Forall2 (Told w d) c (vw_uids w) ->
  let r := flagLoop cs top C w in
  SameView w r.2 /\
  (forall u q, vw_known w !! u = Some q -> exists q', vw_known r.2 !! u = Some q' /\ q <= q' /\ (q' = q \/ u <= top /\ exists x, x ∈ C /\ f_uid x = u /\ q' = f_modseq x)) /\
  (forall x, x ∈ C -> f_uid x <= top -> f_uid x ∉ vw_pending w -> f_uid x ∈ vw_uids w -> exists q', vw_known r.2 !! f_uid x = Some q' /\ f_modseq x <= q') /\
  exists c', receiveAll r.1 c = Some c' /\ Forall2 (Told r.2 d) c' (vw_uids w).
Proof.
  revert w c. induction C as [|x C IH]; intros w c HS HR HT; cbn [flagLoop].
  - cbn. split_and!; [apply SameView_refl|intros u q Hq; exists q; split_and!; [done|lia|by left]|by intros x ?%elem_of_nil|by exists c].
  - (* The rows that are passed over. *)
    assert (Hskip : (f_uid x <= top -> f_uid x ∉ vw_pending w -> f_uid x ∈ vw_uids w -> exists q, vw_known w !! f_uid x = Some q /\ f_modseq x <= q) ->
      let r := flagLoop cs top C w in SameView w r.2 /\
      (forall u q, vw_known w !! u = Some q -> exists q', vw_known r.2 !! u = Some q' /\ q <= q' /\ (q' = q \/ u <= top /\ exists y, y ∈ x :: C /\ f_uid y = u /\ q' = f_modseq y)) /\
      (forall y, y ∈ x :: C -> f_uid y <= top -> f_uid y ∉ vw_pending w -> f_uid y ∈ vw_uids w -> exists q', vw_known r.2 !! f_uid y = Some q' /\ f_modseq y <= q') /\
      exists c', receiveAll r.1 c = Some c' /\ Forall2 (Told r.2 d) c' (vw_uids w)).
    { intros Hx. destruct (IH w c HS (fun r Hr => HR r (list_elem_of_further _ _ _ Hr)) HT) as (I1 & I2 & I3 & I4). split_and!; [done| | |done].
      - intros u q (q' & H1 & H2 & H3)%I2. exists q'. split_and!; [done|done|]. destruct H3 as [?|(Ht & y & Hy & ?)]; [by left|right; split; [done|exists y; split; [by right|done]]].
      - intros y [->|Hy]%elem_of_cons Ht Hp Hu; [|by apply I3]. destruct (Hx Ht Hp Hu) as (q & Hq & Hle). destruct (I2 _ _ Hq) as (q' & Hq' & Hle' & _). exists q'. split; [done|lia]. }
    destruct (Z.ltb_spec top (f_uid x)) as [Hlt|Hge]; [cbn [orb]; apply Hskip; lia|]. cbn [orb]. unfold isExpunged. case_bool_decide as Hp; [by apply Hskip|].
    destruct (vw_known w !! f_uid x) as [q|] eqn:Eq; [destruct (Z.leb_spec (f_modseq x) q) as [Hle|Hgt]; [apply Hskip; intros; by exists q|]|].
    2: { assert (f_uid x ∉ vw_uids w) as Hn by (rewrite <- (shape_known _ HS), Eq; by intros [? [=]]). rewrite seqOf_spec, bool_decide_eq_false_2 by (done || apply HS). by apply Hskip. }
    assert (Hu : f_uid x ∈ vw_uids w) by (rewrite <- (shape_known _ HS), Eq; by eexists).
    destruct (told_fetch w d c (f_uid x) (f_modseq x) (f_flags x) (Some (f_uid x)) (if cs then Some (f_modseq x) else None) HS Hu ltac:(by right)) as (s & c1 & Es & Ec & HT1); [intros v Hv Hvu Hvq; by apply (HR x (list_elem_of_here _ _))|done|].
    rewrite Es. set (w1 := setKnown (<[f_uid x := f_modseq x]> (vw_known w)) w) in *.
    assert (V1 : SameView w w1). { split; [done..|]. intros u. cbn. destruct (decide (f_uid x = u)) as [<-|]; [rewrite lookup_insert_eq, Eq; split; by eexists|by rewrite lookup_insert_ne]. }
    destruct (IH w1 c1 (SameView_shape _ _ V1 HS) (fun r Hr => HR r (list_elem_of_further _ _ _ Hr)) HT1) as (I1 & I2 & I3 & c' & I4 & I5). cbn [fst snd]. split_and!.
    + by eapply SameView_trans.
    + intros u q0 Hq0. destruct (decide (f_uid x = u)) as [<-|Hne].
      * simplify_eq. destruct (I2 (f_uid x) (f_modseq x)) as (q' & H1 & H2 & H3); [cbn; by rewrite lookup_insert_eq|]. exists q'. split_and!; [done|lia|]. right. split; [done|]. destruct H3 as [->|(_ & y & Hy & Ey)]; [exists x; split; [left|done]|exists y; split; [by right|done]].
      * destruct (I2 u q0) as (q' & H1 & H2 & H3); [cbn; by rewrite lookup_insert_ne|]. exists q'. split_and!; [done|done|]. destruct H3 as [?|(Ht & y & Hy & ?)]; [by left|right; split; [done|exists y; split; [by right|done]]].
    + intros y [->|Hy]%elem_of_cons Ht Hp' Hu'; [|by apply I3]. destruct (I2 (f_uid x) (f_modseq x)) as (q' & H1 & H2 & _); [cbn; by rewrite lookup_insert_eq|]. by exists q'.
    + exists c'. split; [|done]. cbn [receiveAll]. by rewrite Ec.
Qed.

Lemma live_count w : Shape w -> Z.of_nat (length (vw_uids w)) - Z.of_nat (length (vw_pending w)) = Z.of_nat (length (filter (fun u => u ∉ vw_pending w) (vw_uids w))).
Proof.
  intros [S1 [S2 S3] S4]. assert (HN : NoDup (vw_uids w)) by by apply Ascending_NoDup.
  assert (HP : filter (fun u => u ∈ vw_pending w) (vw_uids w) ≡ₚ vw_pending w) by (apply NoDup_Permutation; [by apply NoDup_filter|done|intros u; rewrite list_elem_of_filter; naive_solver]).
  assert (HL : length (vw_uids w) = (length (filter (fun u => u ∈ vw_pending w) (vw_uids w)) + length (filter (fun u => u ∉ vw_pending w) (vw_uids w)))%nat).
  { clear. induction (vw_uids w) as [|u l IH]; [done|]. destruct (decide (u ∈ vw_pending w)) as [Hu|Hu].
    - rewrite filter_cons_True, filter_cons_False by (done || (intros Hn; by apply Hn)). cbn [length]. lia.
    - rewrite filter_cons_False, filter_cons_True by done. cbn [length]. lia. }
  rewrite HP in HL. lia.
Qed.

Lemma elem_uidsUpTo d mb top u : u ∈ uidsUpTo d mb top <-> u <= top /\ exists v, live d mb v /\ v_uid v = u.
Proof. unfold uidsUpTo. rewrite list_elem_of_filter. by rewrite elem_uids. Qed.

(** What [sync] makes of the two reads that tell which messages have gone. *)
Lemma detect_spec w d2 d3 b2 b3 mb : vw_mailbox w = mb -> DbOk d2 -> BoxOk d2 mb b2 -> Evolves false d2 d3 mb b2 b3 -> Faithful w d2 b2 ->
  let w1 := detectExpunged (countUpTo d2 mb (maxUid w)) (uidsUpTo d3 mb (maxUid w)) w in
  Shape w1 /\ vw_mailbox w1 = mb /\ vw_uids w1 = vw_uids w /\ vw_known w1 = vw_known w /\
  (forall u v, u ∈ vw_pending w1 -> live d3 mb v -> v_uid v <> u) /\
  (forall u, u ∈ vw_uids w -> (exists v, live d3 mb v /\ v_uid v = u) \/ u ∈ vw_pending w1 \/ mb_highestModseq b2 < mb_highestModseq b3).
Proof.
  intros Hmb Hd2 HB HE HF. pose proof (faithful_shape _ _ _ HF) as HS. assert (HE' : Evolves false d2 d3 (vw_mailbox w) b2 b3) by by rewrite Hmb. pose proof (faithful_evolves _ _ _ _ _ HE' HF) as HF3.
  assert (Htop : forall u, u ∈ vw_uids w -> u <= maxUid w) by (intros u Hu; unfold maxUid; destruct (maxUid_spec _ _ (shape_uids _ HS) Hu) as (m & -> & Hle); exact Hle).
  unfold detectExpunged. rewrite live_count by done. set (L := filter _ (vw_uids w)). destruct ((0 <? Z.of_nat (length L)) && negb (Z.of_nat (countUpTo d2 mb (maxUid w)) =? Z.of_nat (length L))) eqn:Ec; cbn.
  - pose proof HS as [S1 [S2 S3] S4]. split_and!; [|done|done|done| |].
    + split; cbn; [done| |done]. split.
      * apply NoDup_app. split_and!; [done|intros u Hu [[_ Hn] _]%list_elem_of_filter; done|by apply NoDup_filter, Ascending_NoDup].
      * intros u [Hu|[_ Hu]%list_elem_of_filter]%elem_of_app; [by apply S3|done].
    + intros u v [Hu|[[Hn _] Hu]%list_elem_of_filter]%elem_of_app Hv; [apply (faithful_pending _ _ _ HF3 u v Hu); by rewrite Hmb|]. intros <-. apply Hn, elem_uidsUpTo. split; [by apply Htop|by exists v].
    + intros u Hu. destruct (decide (u ∈ uidsUpTo d3 mb (maxUid w))) as [[_ Hin]%elem_uidsUpTo|Hn]; [by left|]. right; left. apply elem_of_app. destruct (decide (u ∈ vw_pending w)); [by left|right]. by apply list_elem_of_filter.
  - split_and!; [done|done|done|done|intros u v Hu Hv; apply (faithful_pending _ _ _ HF3 u v Hu); by rewrite Hmb|].
    intros u Hu. destruct (decide (u ∈ vw_pending w)) as [|Hp]; [by right; left|]. assert (HuL : u ∈ L) by by apply list_elem_of_filter.
    assert (Hsub : forall x, x ∈ uidsUpTo d2 mb (maxUid w) -> x ∈ L).
    { intros x (Hx & v & Hv & <-)%elem_uidsUpTo. pose proof (box_uid _ _ _ HB _ Hv). rewrite <- Hmb in Hv. apply list_elem_of_filter. split; [intros Hpx; by eapply (faithful_pending _ _ _ HF)|].
      destruct (faithful_live _ _ _ HF v Hv) as [?|[Hab _]]; [done|]. apply maxUid_above in Hab; [lia|apply HS|lia]. }
    assert (HN : NoDup (uidsUpTo d2 mb (maxUid w))) by (apply NoDup_filter, Ascending_NoDup, uids_ascending, (ok_unique _ (ok_structure _ Hd2))).
    assert (Hlen : length (uidsUpTo d2 mb (maxUid w)) = length L) by (apply list_elem_of_lookup in HuL as [i Hi%lookup_lt_Some]; apply andb_false_iff in Ec as [Ec%Z.ltb_ge|Ec%negb_false_iff%Z.eqb_eq]; unfold countUpTo in *; lia).
    assert (HP : uidsUpTo d2 mb (maxUid w) ≡ₚ L) by (apply submseteq_length_Permutation; [by apply NoDup_submseteq|lia]).
    rewrite <- HP in HuL. apply elem_uidsUpTo in HuL as (_ & v & Hv & <-). destruct (evolves_lost _ _ _ _ _ _ HE v Hv) as [?|[Hlt _]]; [by left|right; by right].
Qed.

Lemma Ascending_app l1 l2 : Ascending l1 -> Ascending l2 -> (forall x y, x ∈ l1 -> y ∈ l2 -> x < y) -> Ascending (l1 ++ l2).
Proof.
  intros H1 H2. induction l1 as [|x l1 IH]; intros H; [done|]. apply Ascending_cons in H1 as [Hx H1]. cbn. apply Ascending_cons. split; [intros y [Hy|Hy]%elem_of_app; [by apply Hx|apply H; [left|done]]|]. apply IH; [done|]. intros a y Ha Hy. apply H; [by right|done].
Qed.

Lemma Ascending_fmap_filter (P : FlagRow -> Prop) `{!forall x, Decision (P x)} (C : list FlagRow) : Ascending (f_uid <$> C) -> Ascending (f_uid <$> filter P C).
Proof.
  induction C as [|x C IH]; intros HA; [done|]. cbn in HA. apply Ascending_cons in HA as [H1 H2]. rewrite filter_cons. case_decide; [|by apply IH]. cbn. apply Ascending_cons. split; [|by apply IH].
  intros y (z & -> & [_ Hz]%list_elem_of_filter)%list_elem_of_fmap. apply H1. by apply list_elem_of_fmap_2.
Qed.

Lemma flush_spec (o : SyncOptions) (R : Entry -> Z -> Prop) w c : so_qresync o = false -> Shape w -> Forall2 R c (vw_uids w) ->
  let r := if so_allowExpunge o then flushPending (so_qresync o) w else ([], w) in
  exists us, (forall u, u ∈ us -> u ∈ vw_pending w) /\ PrunedView us w r.2 /\ (so_allowExpunge o = true -> vw_pending r.2 = []) /\ exists c', receiveAll r.1 c = Some c' /\ Forall2 R c' (vw_uids r.2).
Proof.
  intros -> HS HR. destruct (so_allowExpunge o).
  - destruct (flushPending_spec R w c HS HR) as [HP Hc]. exists (vw_pending w). split_and!; [done|exact HP| |exact Hc]. intros _. rewrite (pruned_pending _ _ _ HP). apply filter_none. intros x Hx Hn. by apply Hn.
  - exists []. cbn. split_and!; [by intros u ?%elem_of_nil| |done|by exists c]. split; [done|done| |intros u; by rewrite bool_decide_eq_false_2 by apply not_elem_of_nil|]; symmetry; apply filter_every; intros; apply not_elem_of_nil.
Qed.

(** New messages: the view and the client grow by as many. *)
Lemma arrivals_spec A w d c : Shape w -> Ascending (f_uid <$> A) -> (forall x r, x ∈ vw_uids w -> r ∈ A -> x < f_uid r) -> Forall2 (Told w d) c (vw_uids w) ->
  let w2 := fold_left (fun w r => arrive r w) A w in
  Shape w2 /\ (forall u, u ∈ vw_uids w -> vw_known w2 !! u = vw_known w !! u) /\ (forall r, r ∈ A -> vw_known w2 !! f_uid r = Some (f_modseq r)) /\
  exists c', receiveAll (if bool_decide (A = []) then [] else [RExists (exists_ w2)]) c = Some c' /\ Forall2 (Told w2 d) c' (vw_uids w2).
Proof.
  intros HS HA Hlt HT w2. destruct (arrive_spec A w) as (A1 & A2 & A3 & A4 & A5 & A6). fold w2 in A1, A2, A3, A4, A5, A6. pose proof HS as [S1 [S2 S3] S4]. specialize (A6 (Ascending_NoDup _ HA)).
  assert (Hold : forall u, u ∈ vw_uids w -> u ∉ f_uid <$> A) by (intros u Hu (r & -> & Hr)%list_elem_of_fmap; specialize (Hlt _ _ Hu Hr); lia). split_and!.
  - split; rewrite ?A3, ?A4.
    + apply Ascending_app; [done|done|]. intros x y Hx (r & -> & Hr)%list_elem_of_fmap. by apply Hlt.
    + split; [done|]. intros u Hu. apply elem_of_app. left. by apply S3.
    + intros u. rewrite elem_of_app. destruct (decide (u ∈ f_uid <$> A)) as [(r & -> & Hr)%list_elem_of_fmap|Hn]; [rewrite A6 by done; split; [right; by apply list_elem_of_fmap_2|by eexists]|]. rewrite A5, S4 by done. tauto.
  - intros u Hu. by apply A5, Hold.
  - exact A6.
  - pose proof (Forall2_length _ _ _ HT) as Hlen. exists (c ++ replicate (length A) unknown). split.
    + case_bool_decide as Hn; [rewrite Hn; cbn; by rewrite app_nil_r|]. cbn. unfold exists_. rewrite A4, length_app, length_fmap, Hlen. rewrite (proj2 (Z.leb_le _ _)) by lia. cbn. do 4 f_equal. lia.
    + rewrite A4. apply Forall2_app.
      * apply (Forall2_impl (fun e u => Told w d e u /\ u ∈ vw_uids w)); [|intros e u [He Hu]; apply (told_less w); [done| |done]; intros q; by rewrite A5 by by apply Hold].
        apply Forall2_same_length_lookup_2; [done|]. intros i e u Hi Hu. split; [by eapply Forall2_lookup_lr|by eapply list_elem_of_lookup_2].
      * apply Forall2_same_length_lookup_2; [by rewrite length_replicate, length_fmap|]. intros i e u [-> _]%lookup_replicate Hu. by split.
Qed.

(** RFC 9051 section 7.5.1: a command that may not expunge is answered with no EXPUNGE and no VANISHED. *)
Definition renumbers (r : ImapResponse) : bool := match r with RExpunge _ | RVanished _ _ => true | _ => false end.

Lemma flagLoop_numbers cs top C w : Forall (fun r => renumbers r = false) (flagLoop cs top C w).1.
Proof.
  revert w. induction C as [|x C IH]; intros w; cbn [flagLoop]; [constructor|]. destruct (_ || _); [apply IH|]. destruct (match _ with Some q => _ | None => _ end); [apply IH|]. destruct (seqOf w (f_uid x)); [|apply IH]. cbn. constructor; [done|apply IH].
Qed.

Lemma sync_withholds_expunges cs qr rd w rs w' : sync (mkSyncOptions false cs qr) rd w = Some (rs, w') -> Forall (fun r => renumbers r = false) rs.
Proof.
  unfold sync. destruct (rd_probe rd) as [probe|]; [|done]. cbn [so_allowExpunge so_condstore]. destruct (probe.2 =? vw_highest w); intros [= <- _]; [constructor|]. cbn [fst app].
  apply Forall_app. split; [|apply flagLoop_numbers]. case_bool_decide; repeat constructor.
Qed.

(** ** [sync] *)

Section synchronising.
Context (mb : Id) (d0 d1 d2 d3 : Db) (b0 b1 b2 b3 : Mailbox).
Hypotheses (D0 : DbOk d0) (D1 : DbOk d1) (D2 : DbOk d2) (B0 : BoxOk d0 mb b0) (B1 : BoxOk d1 mb b1) (B2 : BoxOk d2 mb b2).
Hypotheses (E01 : Evolves false d0 d1 mb b0 b1) (E12 : Evolves false d1 d2 mb b1 b2) (E23 : Evolves false d2 d3 mb b2 b3).

Definition readsAt (w : MailboxView) : SyncReads :=
  mkReads (Some (mb_uidnext b0, mb_highestModseq b0)) (changedSince d1 mb (vw_highest w)) (countUpTo d2 mb (maxUid w)) (uidsUpTo d3 mb (maxUid w)).

Let E13 : Evolves false d1 d3 mb b1 b3 := Evolves_silent_trans _ _ _ _ _ _ _ B1 E12 E23.
Let E02 : Evolves false d0 d2 mb b0 b2 := Evolves_silent_trans _ _ _ _ _ _ _ B0 E01 E12.
Let E03 : Evolves false d0 d3 mb b0 b3 := Evolves_silent_trans _ _ _ _ _ _ _ B0 E01 E13.

(** A row read at the second moment says at the last one what it said then. *)
Lemma changed_row q r : r ∈ changedSince d1 mb q -> q < f_modseq r <= mb_highestModseq b1 /\ f_uid r < mb_uidnext b1 /\ 0 < f_uid r /\ RowOk d3 mb r /\
  ((exists v, live d3 mb v /\ v_uid v = f_uid r) \/ mb_highestModseq b1 < mb_highestModseq b3) /\ (forall v, live d3 mb v -> v_uid v = f_uid r -> f_modseq r <= v_modseq v).
Proof.
  intros (v1 & Hv1 & Hq & ->)%elem_changed. cbn. pose proof (box_uid _ _ _ B1 _ Hv1). pose proof (box_modseq _ _ _ B1 _ Hv1).
  assert (Hback : forall v, live d3 mb v -> v_uid v = v_uid v1 -> v = v1 \/ mb_highestModseq b1 < v_modseq v).
  { intros v Hv Hu. destruct (evolves_back _ _ _ _ _ v E13 Hv) as [Hv'|[Hlt _]]; [left; by apply (live_unique d1 mb)|by right]. }
  split_and!; [lia|lia|lia|lia| | |].
  - intros v Hv Hu Eq. cbn in *. destruct (Hback v Hv Hu) as [->|]; [done|lia].
  - destruct (evolves_lost _ _ _ _ _ _ E13 v1 Hv1) as [?|[? _]]; [by left|by right].
  - intros v Hv Hu. destruct (Hback v Hv Hu) as [->|]; lia.
Qed.

(** A message that is there at the end and did not change since the first moment was there, the same, at the first two. *)
Lemma old_message v : live d3 mb v -> v_modseq v <= mb_highestModseq b0 -> live d0 mb v /\ live d1 mb v.
Proof.
  intros Hv Hq. pose proof (evolves_modseq _ _ _ _ _ _ E01). split; [destruct (evolves_back _ _ _ _ _ v E03 Hv) as [?|[? _]]|destruct (evolves_back _ _ _ _ _ v E13 Hv) as [?|[? _]]]; (done || lia).
Qed.

(** A message that is there at the end is in the view, or new, or among the rows that changed. *)
Lemma placed w v : vw_mailbox w = mb -> Faithful w d0 b0 -> live d3 mb v ->
  v_uid v ∈ vw_uids w \/ (forall u, u ∈ vw_uids w -> u < v_uid v) /\
    ((exists r, r ∈ changedSince d1 mb (vw_highest w) /\ f_uid r = v_uid v) \/ mb_uidnext b1 <= v_uid v /\ mb_highestModseq b1 < v_modseq v).
Proof.
  intros Hmb HF Hv. assert (E01' : Evolves false d0 d1 (vw_mailbox w) b0 b1) by by rewrite Hmb. pose proof (faithful_evolves _ _ _ _ _ E01' HF) as HF1.
  assert (Hrow : forall v1, live d1 mb v1 -> v_uid v1 ∈ vw_uids w \/ (forall u, u ∈ vw_uids w -> u < v_uid v1) /\ exists r, r ∈ changedSince d1 mb (vw_highest w) /\ f_uid r = v_uid v1).
  { intros v1 Hv1. destruct (faithful_live _ _ _ HF1 v1) as [?|[Hab Hq]]; [by rewrite Hmb|by left|]. right. split; [done|]. exists (mkFlagRow (v_uid v1) (v_flags v1) (v_modseq v1)). split; [|done]. apply elem_changed. by exists v1. }
  destruct (evolves_back _ _ _ _ _ v E13 Hv) as [Hv1|(Hq & [(v1 & Hv1 & <-)|Hu])].
  - destruct (Hrow v Hv1) as [?|[? ?]]; [by left|right; split; [done|by left]].
  - destruct (Hrow v1 Hv1) as [?|[? ?]]; [by left|right; split; [done|by left]].
  - right. split; [|by right]. intros u Hu'%(faithful_below _ _ _ HF1). lia.
Qed.

(** Where what the client heard of comes from. *)
Lemma synced_known_from (w w2 w1 : MailboxView) (C : list FlagRow) (top : Z) (A : list FlagRow) (known : gmap Z Z) :
  (forall r, r ∈ A <-> top < f_uid r /\ r ∈ C) -> vw_uids w2 = vw_uids w1 ++ (f_uid <$> A) -> (forall u q, vw_known w1 !! u = Some q -> vw_known w !! u = Some q) ->
  (forall u, u ∈ vw_uids w1 -> vw_known w2 !! u = vw_known w1 !! u) -> (forall r, r ∈ A -> vw_known w2 !! f_uid r = Some (f_modseq r)) ->
  (forall u q, vw_known w2 !! u = Some q -> exists q', known !! u = Some q' /\ q <= q' /\ (q' = q \/ u <= top /\ exists x, x ∈ C /\ f_uid x = u /\ q' = f_modseq x)) ->
  (forall u, is_Some (known !! u) <-> is_Some (vw_known w2 !! u)) -> Shape w2 ->
  forall u q, known !! u = Some q -> vw_known w !! u = Some q \/ exists r, r ∈ C /\ f_uid r = u /\ q = f_modseq r.
Proof.
  intros HA HU H1 H2 H3 HL HD HS u q Hk. assert (Hs : is_Some (vw_known w2 !! u)) by (apply HD; by eexists). destruct Hs as [q2 Hq2]. destruct (HL u q2 Hq2) as (q' & Hk' & _ & Hq'). simplify_eq. destruct Hq' as [<-|(_ & x & Hx & Eu & Eq)]; [|right; by exists x].
  assert (Hin : u ∈ vw_uids w2) by (apply (shape_known _ HS); by eexists). rewrite HU, elem_of_app, list_elem_of_fmap in Hin. destruct Hin as [Hin|(r & -> & Hr)]; [left; apply H1; by rewrite <- H2|].
  right. exists r. rewrite H3 in Hq2 by done. split; [by apply HA|]. split; [done|congruence].
Qed.

(** What the steps of [sync] leave. *)
Record Synced (w wf : MailboxView) (us : list Z) : Prop := {
  synced_mailbox : vw_mailbox wf = mb;
  synced_shape : Shape wf;
  synced_uids : forall u, u ∈ vw_uids wf <-> (u ∉ us /\ u ∈ vw_uids w) \/ exists r, r ∈ changedSince d1 mb (vw_highest w) /\ maxUid w < f_uid r /\ f_uid r = u;
  synced_pending : forall u v, u ∈ vw_pending wf -> live d3 mb v -> v_uid v <> u;
  synced_removed : forall u v, u ∈ us -> live d3 mb v -> v_uid v <> u;
  synced_gone : forall u, u ∈ vw_uids w -> (exists v, live d3 mb v /\ v_uid v = u) \/ (u ∈ us \/ u ∈ vw_pending wf) \/ mb_highestModseq b2 < mb_highestModseq b3;
  synced_known : forall u q, vw_known wf !! u = Some q -> vw_known w !! u = Some q \/ exists r, r ∈ changedSince d1 mb (vw_highest w) /\ f_uid r = u /\ q = f_modseq r;
  synced_changed : forall r, r ∈ changedSince d1 mb (vw_highest w) -> f_uid r ∈ vw_uids wf -> f_uid r ∉ vw_pending wf -> exists q, vw_known wf !! f_uid r = Some q /\ f_modseq r <= q;
  synced_grows : forall u q, u ∈ vw_uids w -> u ∈ vw_uids wf -> vw_known w !! u = Some q -> exists q', vw_known wf !! u = Some q' /\ q <= q'
}.

Lemma synced_faithful w wf us : vw_mailbox w = mb -> Faithful w d0 b0 -> Synced w wf us -> Faithful (setHighest (mb_highestModseq b0) wf) d3 b3.
Proof.
  intros Hmb HF [M S U P US G K1 K2 K3]. assert (E03' : Evolves false d0 d3 (vw_mailbox w) b0 b3) by by rewrite Hmb. pose proof (faithful_evolves _ _ _ _ _ E03' HF) as HF3.
  pose proof (evolves_modseq _ _ _ _ _ _ E01). pose proof (evolves_modseq _ _ _ _ _ _ E12). pose proof (evolves_modseq _ _ _ _ _ _ E23). pose proof (evolves_uidnext _ _ _ _ _ _ E13).
  split; cbn; rewrite ?M; [| | | | | | |].
  - destruct S. by split.
  - intros u [[_ Hu]|(r & Hr & _ & <-)]%U; [by apply (faithful_below _ _ _ HF3)|]. apply changed_row in Hr as (_ & ? & _). lia.
  - lia.
  - exact P.
  - intros u [[Hn Hu]|(r & Hr & _ & <-)]%U; [destruct (G u Hu) as [?|[[?|?]|?]]; [by left|done|by right; left|right; right; lia]|]. apply changed_row in Hr as (_ & _ & _ & _ & [?|?] & _); [by left|right; right; lia].
  - intros v Hv. destruct (placed w v Hmb HF Hv) as [Hin|(Hab & [(r & Hr & Eu)|[Hge Hq]])].
    + left. apply U. left. split; [|done]. intros Hn. by eapply US.
    + left. apply U. right. exists r. split_and!; [done| |done]. pose proof (changed_row _ _ Hr) as (_ & _ & Hpos & _). rewrite Eu in Hpos |- *. apply maxUid_above; [apply HF|done|done].
    + right. split; [|lia]. intros u [[_ Hu]|(r & Hr & _ & <-)]%U; [by apply Hab|]. apply changed_row in Hr as (_ & ? & _). lia.
  - intros v q Hv Hk. assert (Hin : v_uid v ∈ vw_uids wf) by (apply (shape_known _ S); by eexists). assert (Hle : q <= v_modseq v).
    { destruct (K1 _ _ Hk) as [Hk'|(r & Hr & Eu & ->)]; [by apply (faithful_known _ _ _ HF3 v q); rewrite ?Hmb|]. apply changed_row in Hr as (_ & _ & _ & _ & _ & Hrow). by apply Hrow. }
    split; [done|]. intros Hq. destruct (old_message v Hv Hq) as [Hv0 Hv1]. destruct (Z.ltb_spec (vw_highest w) (v_modseq v)) as [Hlt|Hge].
    + destruct (K2 (mkFlagRow (v_uid v) (v_flags v) (v_modseq v))) as (q' & Hk' & Hle'); [apply elem_changed; by exists v|done|intros Hp; by eapply P|]. cbn in *. simplify_eq. lia.
    + rewrite <- Hmb in Hv0. destruct (faithful_live _ _ _ HF v Hv0) as [Hu|[_ ?]]; [|lia]. apply (shape_known _ (faithful_shape _ _ _ HF)) in Hu as Hk0. destruct Hk0 as [q0 Hk0].
      destruct (faithful_known _ _ _ HF v q0 Hv0 Hk0) as [_ Heq]. specialize (Heq Hge) as ->. destruct (K3 _ _ Hu Hin Hk0) as (q' & Hk' & Hle'). simplify_eq. lia.
  - intros u q Hk. destruct (K1 _ _ Hk) as [Hk'%(faithful_heard _ _ _ HF3)|(r & Hr & _ & ->)]; [done|]. apply changed_row in Hr as (? & _). lia.
Qed.

Lemma sync_spec o w c : vw_mailbox w = mb -> so_qresync o = false -> Faithful w d0 b0 -> Forall2 (Told w d0) c (vw_uids w) ->
  mb_highestModseq b0 <> vw_highest w ->
  exists rs w', sync o (readsAt w) w = Some (rs, w') /\ vw_mailbox w' = mb /\ vw_highest w' = mb_highestModseq b0 /\ (so_allowExpunge o = true -> vw_pending w' = []) /\ Faithful w' d3 b3 /\
    exists c', receiveAll rs c = Some c' /\ Forall2 (Told w' d3) c' (vw_uids w').
Proof.
  intros Hmb Hqr HF HT Hne. unfold sync, readsAt. cbn [rd_probe rd_changed rd_count rd_present snd]. rewrite (proj2 (Z.eqb_neq _ _)) by done. set (top := maxUid w). set (C := changedSince d1 mb (vw_highest w)).
  assert (E02' : Evolves false d0 d2 (vw_mailbox w) b0 b2) by by rewrite Hmb. assert (E03' : Evolves false d0 d3 (vw_mailbox w) b0 b3) by by rewrite Hmb.
  pose proof (faithful_evolves _ _ _ _ _ E03' HF) as HF3. pose proof (faithful_shape _ _ _ HF) as HS.
  destruct (detect_spec w d2 d3 b2 b3 mb Hmb D2 B2 E23 (faithful_evolves _ _ _ _ _ E02' HF)) as (S1 & M1 & U1 & K1 & P1 & G1). fold top in S1, M1, U1, K1, P1, G1. set (w1 := detectExpunged _ _ w) in *.
  assert (HT1 : Forall2 (Told w1 d3) c (vw_uids w1)).
  { rewrite U1. eapply Forall2_impl; [exact HT|]. intros e u He. apply (told_less w); [congruence|by rewrite K1|]. by eapply told_evolves. }
  destruct (flush_spec o _ w1 c Hqr S1 HT1) as (us & Hus & HP & Hfl & c1 & Hc1 & HT1'). set (r1 := if so_allowExpunge o then _ else _) in *. pose proof (Pruned_shape _ _ _ S1 HP) as S1'. apply (pruned_told _ _ _ _ _ HP) in HT1'.
  destruct HP as [Q1 Q2 Q3 Q4 Q5]. assert (Hu1 : forall u, u ∈ vw_uids r1.2 <-> u ∉ us /\ u ∈ vw_uids w) by (intros u; by rewrite Q3, U1, list_elem_of_filter).
  set (A := filter (fun r => top < f_uid r) C). assert (HA : Ascending (f_uid <$> A)) by apply Ascending_fmap_filter, changed_ascending, (ok_unique _ (ok_structure _ D1)).
  assert (HAC : forall r, r ∈ A <-> top < f_uid r /\ r ∈ C) by (intros r; unfold A; by rewrite list_elem_of_filter).
  assert (Hlt : forall x r, x ∈ vw_uids r1.2 -> r ∈ A -> x < f_uid r).
  { intros x r [_ Hx]%Hu1 [Ht Hr]%HAC. pose proof (changed_row _ _ Hr) as (_ & _ & Hpos & _). by apply (maxUid_above w); [apply HS|..]. }
  destruct (arrivals_spec A r1.2 d3 c1 S1' HA Hlt HT1') as (S2 & AK1 & AK2 & c2 & Hc2 & HT2). destruct (arrive_spec A r1.2) as (A1 & A2 & A3 & A4 & _ & _). set (w2 := fold_left _ A r1.2) in *.
  assert (HR : forall r, r ∈ C -> RowOk d3 (vw_mailbox w2) r) by (intros r Hr; rewrite A1, Q1, M1; by apply changed_row in Hr as (_ & _ & _ & ? & _)).
  destruct (flagLoop_spec (so_condstore o) top C d3 w2 c2 S2 HR HT2) as ([V1 V2 V3 V4 V5] & L1 & L2 & c3 & Hc3 & HT3). set (r3 := flagLoop _ top C w2) in *.
  eexists _, _. split; [reflexivity|]. split_and!; [cbn; congruence|done|intros Hal; cbn; rewrite V3, A3; by apply Hfl| |].
  - apply (synced_faithful w r3.2 us Hmb HF). split.
    + congruence.
    + by apply (SameView_shape w2); [split|].
    + intros u. rewrite V2, A4, elem_of_app, Hu1, list_elem_of_fmap. apply or_iff_compat_l. split; [intros (r & -> & [Ht Hr]%HAC); by exists r|intros (r & Hr & Ht & <-); exists r; split; [done|by apply HAC]].
    + intros u v. rewrite V3, A3, Q5. intros [_ Hp]%list_elem_of_filter. by apply P1.
    + intros u v Hu%Hus. by apply P1.
    + intros u Hu. destruct (G1 u Hu) as [?|[Hp|?]]; [by left| |by right; right]. right; left. destruct (decide (u ∈ us)); [by left|right]. rewrite V3, A3, Q5. by apply list_elem_of_filter.
    + apply (synced_known_from w w2 r1.2 C top A); [done|done| |done|done|exact L1|exact V5|exact S2].
      intros u q Hk. rewrite Q4, K1 in Hk. by case_bool_decide.
    + intros r Hr Hin Hp. destruct (Z.ltb_spec top (f_uid r)) as [Ht|Ht]; [|apply L2; [done|lia|by rewrite <- V3|by rewrite <- V2]]. destruct (L1 (f_uid r) (f_modseq r)) as (q' & Hk & Hle & _); [apply AK2; by apply HAC|]. by exists q'.
    + intros u q Hu Hin Hk. destruct (L1 u q) as (q' & Hk' & Hle & _); [|by exists q'].
      assert (Hin1 : u ∈ vw_uids r1.2). { rewrite V2, A4, elem_of_app, list_elem_of_fmap in Hin. destruct Hin as [?|(r & -> & [Ht Hr]%HAC)]; [done|]. exfalso. pose proof (changed_row _ _ Hr) as (_ & _ & Hpos & _). pose proof (proj1 (maxUid_above w (f_uid r) (shape_uids _ HS) Hpos) Ht _ Hu). lia. }
      rewrite AK1 by done. apply Hu1 in Hin1 as [Hn _]. by rewrite Q4, bool_decide_eq_false_2, K1.
  - exists c3. split; [rewrite receiveAll_app, Hc1; cbn [mbind option_bind]; rewrite receiveAll_app, Hc2; exact Hc3|]. rewrite <- V2 in HT3. exact HT3.
Qed.
End synchronising.

(** ** Sessions *)

(** What an operation takes out of a mailbox is recorded. *)
Lemma filter_uids_NoDup d mb (P : Id * Message -> Prop) `{!forall x, Decision (P x)} : UniqueUids (d_messages d) -> NoDup ((fun x => m_uid x.2) <$> filter P (messagesOf d mb)).
Proof.
  intros HU. eapply sublist_NoDup; [apply Ascending_NoDup, (uids_ascending d mb HU)|]. apply fmap_sublist, sublist_filter.
Qed.

Lemma recorded_gone d mb b (us : list Z) : BoxOk d mb b -> (forall u, u ∈ us -> is_Some (d_expunged d !! (mb, u))) -> forall u v, u ∈ us -> live d mb v -> v_uid v <> u.
Proof. intros HB Hus u v [q Hq]%Hus Hv. destruct (box_gone _ _ _ HB _ _ Hq) as (_ & _ & Hn). by apply Hn. Qed.

Lemma recordExpunged_records mb us q d a d' : recordExpunged mb us q d = Committed a d' -> forall u, u ∈ us -> is_Some (d_expunged d' !! (mb, u)).
Proof.
  intros ->%exec_inv u Hu. cbn. fold (expunging mb us q (d_expunged d)). rewrite expunging_lookup. destruct (d_expunged d !! (mb, u)); [by eexists|]. rewrite bool_decide_eq_true_2 by done. by eexists.
Qed.

Lemma expunge_removes `{R : Runtime} acc mb uids reason d removed gone d' : UniqueUids (d_messages d) -> expunge acc mb uids reason d = Committed (removed, gone) d' ->
  NoDup removed /\ forall u, u ∈ removed -> is_Some (d_expunged d' !! (mb, u)).
Proof.
  intros HU H. unfold expunge in H. case_bool_decide; [injection H as <- <- <-; split; [constructor|by intros u ?%elem_of_nil]|]. apply tx_bind_inv in H as (hm & d0 & [_ ->]%lock_inv & H). apply tx_bind_inv in H as (rows & d0 & [-> ->]%select_inv & H).
  apply tx_bind_inv in H as (u0 & d1 & _ & H). case_bool_decide; [injection H as <- <- <-; split; [constructor|by intros u ?%elem_of_nil]|].
  apply tx_bind_inv in H as (u1 & d2 & _ & H). apply tx_bind_inv in H as (u2 & d3 & _ & H). apply tx_bind_inv in H as (g & d4 & _ & H). apply tx_bind_inv in H as (u3 & d5 & E & H). apply tx_bind_inv in H as (u4 & d6 & E1%Quiet_audit & H). apply tx_bind_inv in H as (u5 & d7 & E2%Quiet_notify & H).
  injection H as <- <- <-. split; [rewrite merge_sort_Permutation; by apply filter_uids_NoDup|]. intros u Hu. rewrite (same_expunged _ _ E2), (same_expunged _ _ E1). by eapply recordExpunged_records.
Qed.

Lemma move_removes `{R : Runtime} mb uids tgt d res d' : UniqueUids (d_messages d) -> move mb uids tgt d = Committed res d' ->
  NoDup (cr_pairs res).*1 /\ forall u, u ∈ (cr_pairs res).*1 -> is_Some (d_expunged d' !! (mb, u)).
Proof.
  intros HU H. unfold move in H. apply tx_bind_inv in H as (t & d0 & [_ ->]%lock_inv & H). apply tx_bind_inv in H as (s & d0 & [_ ->]%lock_inv & H). apply tx_bind_inv in H as (rows & d0 & [-> ->]%select_inv & H).
  case_bool_decide; [injection H as <- <-; split; [constructor|by intros u ?%elem_of_nil]|]. apply tx_bind_inv in H as ([pairs next] & d1 & E & H). apply tx_bind_inv in H as (u1 & d2 & _ & H). apply tx_bind_inv in H as (u2 & d3 & _ & H).
  apply tx_bind_inv in H as (u3 & d4 & E1 & H). apply tx_bind_inv in H as (u4 & d5 & E2 & H). apply tx_bind_inv in H as (u5 & d6 & E3%Quiet_notify & H). apply tx_bind_inv in H as (u6 & d7 & E4 & H). injection H as <- <-. cbn [cr_pairs].
  assert (S2 : SameMail d4 d5) by (destruct (trainingMove _ _ _ _); [by apply Quiet_training in E2|by apply Quiet_ret in E2]). assert (S4 : SameMail d6 d7) by (case_bool_decide; [by apply Quiet_ret in E4|by apply Quiet_notify in E4]).
  apply moveRows_inv in E as (_ & Ep & _); [|apply NoDup_fst_filter, NoDup_messagesOf|intros x Hx; by apply rowsByUid_of in Hx as [? _]]. split.
  - rewrite Ep. by apply filter_uids_NoDup.
  - intros u Hu. rewrite (same_expunged _ _ S4), (same_expunged _ _ E3), (same_expunged _ _ S2). by eapply recordExpunged_records.
Qed.

Record Session := mkSession { ss_db : Db; ss_view : MailboxView; ss_client : list Entry }.

(** What happens while the mailbox is selected: other sessions write; the session synchronises, they writing between
    its reads; it expunges or moves messages itself, or answers with the flags of one (FETCH, or STORE without
    [.SILENT]), with or without the UID. *)
Inductive SessionEvent :=
  | EOthers (ops : list (Z * Operation))
  | ESync (allowExpunge condstore : bool) (ops1 ops2 ops3 : list (Z * Operation))
  | EExpunge (account : Id) (uids : option (list Z)) (reason : jsstr)
  | EMove (uids : list Z) (target : Id)
  | EShow (uid : Z) (withUid : bool).

Section sessions.
Context `{R : Runtime} (uv : Id -> Z) (mb : Id).

Definition databaseAfter (e : SessionEvent) (d : Db) : Db :=
  match e with
  | EOthers ops => history uv ops d
  | ESync _ _ ops1 ops2 ops3 => history uv ops3 (history uv ops2 (history uv ops1 d))
  | EExpunge acc uids reason => after (expunge acc mb uids reason) d
  | EMove uids tgt => after (move mb uids tgt) d
  | EShow _ _ => d
  end.

Definition told (rs : list ImapResponse) (w : MailboxView) (d : Db) (c : list Entry) : option Session := c ← receiveAll rs c; Some (mkSession d w c).

(** [None] when the client is told what contradicts what it knows. *)
Definition sessionStep (e : SessionEvent) (s : Session) : option Session :=
  let d := ss_db s in let w := ss_view s in let c := ss_client s in let d' := databaseAfter e d in
  match e with
  | EOthers _ => Some (mkSession d' w c)
  | ESync allowExpunge condstore ops1 ops2 ops3 =>
      let d1 := history uv ops1 d in let d2 := history uv ops2 d1 in
      match sync (mkSyncOptions allowExpunge condstore false) (mkReads (probe d mb) (changedSince d1 mb (vw_highest w)) (countUpTo d2 mb (maxUid w)) (uidsUpTo d' mb (maxUid w))) w with
      | Some r => told r.1 r.2 d' c
      | None => Some (mkSession d' w c)
      end
  | EExpunge acc uids reason =>
      match expunge acc mb uids reason d with
      | Committed r d' => let x := expungeNow r.1 false w in told x.1 x.2 d' c
      | Aborted _ => Some s
      end
  | EMove uids tgt =>
      match move mb uids tgt d with
      | Committed r d' => let x := expungeNow (cr_pairs r).*1 false w in told x.1 x.2 d' c
      | Aborted _ => Some s
      end
  | EShow uid withUid =>
      match (if isExpunged w uid then None else seqOf w uid), head (rowsByUid d mb [uid]) with
      | Some n, Some row => told [RFetch n (if withUid then Some uid else None) (m_flags row.2) None] (noteModseq uid (m_modseq row.2) w) d c
      | _, _ => Some s
      end
  end.

Fixpoint playSession (es : list SessionEvent) (s : Session) : option Session := match es with [] => Some s | e :: es => s ← sessionStep e s; playSession es s end.
Definition databasesAfter (es : list SessionEvent) (d : Db) : Db := fold_left (fun d e => databaseAfter e d) es d.

(** SELECT: other sessions write between the probe and the snapshot. The client learns how many messages there are. *)
Definition select_ (highestModseq : Z) (ops : list (Z * Operation)) (d : Db) : Session :=
  let d' := history uv ops d in
  let opened := open mb highestModseq (probe d mb) (snapshot d' mb) in
  mkSession d' opened.1.1.1 (replicate (length (vw_uids opened.1.1.1)) unknown).
End sessions.

#[local] Arguments seqOf : simpl never.
#[local] Arguments receiveOne : simpl never.
#[local] Arguments expungeNow : simpl never.
#[local] Arguments sync : simpl never.
#[local] Arguments noteModseq : simpl never.

Section converges.
Context `{R : Runtime} (uv : Id -> Z) (mb : Id).

Record SessionOk (s : Session) (b : Mailbox) : Prop := {
  so_db : DbOk (ss_db s);
  so_box : d_mailboxes (ss_db s) !! mb = Some b;
  so_mailbox : vw_mailbox (ss_view s) = mb;
  so_faithful : Faithful (ss_view s) (ss_db s) b;
  so_told : Forall2 (Told (ss_view s) (ss_db s)) (ss_client s) (vw_uids (ss_view s))
}.

(** A mailbox that is there before and after was there between. *)
Lemma between an1 an2 d d1 d2 b : DbOk d -> Step an1 d d1 -> Step an2 d1 d2 -> d_mailboxes d !! mb = Some b -> is_Some (d_mailboxes d2 !! mb) -> is_Some (d_mailboxes d1 !! mb).
Proof.
  intros Hd S1 S2 Hb [b2 Hb2]. destruct (step_box _ _ _ S2 mb b2 Hb2) as [(b1 & Hb1 & _)|Hlt]; [by eexists|]. pose proof (ok_fresh _ (ok_structure _ Hd) mb (mk_is_Some _ _ Hb)). pose proof (step_fresh _ _ _ S1). lia.
Qed.

Lemma step_evolves an d d' b b' : DbOk d -> Step an d d' -> d_mailboxes d !! mb = Some b -> d_mailboxes d' !! mb = Some b' -> Evolves false d d' mb b b'.
Proof.
  intros Hd HS Hb Hb'. destruct (step_box _ _ _ HS mb b' Hb') as [(b0 & Hb0 & HE)|Hlt]; [simplify_eq; by eapply Evolves_silent|]. pose proof (ok_fresh _ (ok_structure _ Hd) mb (mk_is_Some _ _ Hb)). lia.
Qed.

Lemma after_step {A} an (m : TX A) d : Moves an m -> DbOk d -> Step an d (after m d).
Proof. intros Hm Hd. unfold after. destruct (m d) as [a d'|e] eqn:E; [by eapply Hm|by apply Step_refl]. Qed.

Lemma databaseAfter_step e d : DbOk d -> exists an, Step an d (databaseAfter uv mb e d).
Proof.
  intros Hd. destruct e as [ops|? ? ops1 ops2 ops3|acc uids reason|uids tgt|]; cbn [databaseAfter].
  - eexists. by apply history_step.
  - pose proof (history_step uv ops1 d Hd) as S1. pose proof (history_step uv ops2 _ (step_ok _ _ _ S1)) as S2. pose proof (history_step uv ops3 _ (step_ok _ _ _ S2)) as S3. eexists. eapply Step_trans; [done|exact S1|]. eapply Step_trans; [apply S1|exact S2|exact S3].
  - exists true. apply after_step; [apply expunge_moves|done].
  - exists true. apply after_step; [apply move_moves|done].
  - exists true. by apply Step_refl.
Qed.

Lemma databasesAfter_step es d : DbOk d -> exists an, Step an d (databasesAfter uv mb es d).
Proof.
  revert d. induction es as [|e es IH]; intros d Hd; [exists true; by apply Step_refl|]. destruct (databaseAfter_step e d Hd) as [an1 S1]. destruct (IH _ (step_ok _ _ _ S1)) as [an2 S2]. eexists. by eapply Step_trans.
Qed.

(** The session after the database has moved on. *)
Lemma session_evolves d d' w c b b' : DbOk d' -> Evolves false d d' mb b b' -> d_mailboxes d' !! mb = Some b' -> SessionOk (mkSession d w c) b -> SessionOk (mkSession d' w c) b'.
Proof.
  intros Hd' HE Hb' [S1 S2 S3 S4 S5]. cbn in *. assert (HE' : Evolves false d d' (vw_mailbox w) b b') by by rewrite S3. split; cbn; [done|done|done|by eapply faithful_evolves|]. eapply Forall2_impl; [exact S5|]. intros e u. by eapply told_evolves.
Qed.

(** The session takes messages out that are gone. *)
Lemma session_removes d w c b us : SessionOk (mkSession d w c) b -> NoDup us -> (forall u v, u ∈ us -> live d mb v -> v_uid v <> u) ->
  let x := expungeNow us false w in exists c', receiveAll x.1 c = Some c' /\ SessionOk (mkSession d x.2 c') b.
Proof.
  intros [S1 S2 S3 S4 S5] HN Hus x. subst x. cbn in *. destruct (expungeNow_spec (Told w d) us w c (faithful_shape _ _ _ S4) HN S5) as (HP & c' & Hc & HT). exists c'. split; [done|]. split; cbn; [done|done|exact (eq_trans (pruned_mailbox _ _ _ HP) S3)| |by eapply pruned_told].
  eapply pruned_faithful; [exact HP|by rewrite S3|done].
Qed.

(** A row that is read is the only one of its UID. *)
Lemma session_shows d w c b u row n : SessionOk (mkSession d w c) b -> live d mb (seen row) -> m_uid row = u -> seqOf w u = Some n -> forall uid, uid = None \/ uid = Some u ->
  exists c', receiveAll [RFetch n uid (m_flags row) None] c = Some c' /\ SessionOk (mkSession d (noteModseq u (m_modseq row) w) c') b.
Proof.
  intros [S1 S2 S3 S4 S5] Hrow Hu Hn uid Huid. cbn in *. pose proof (faithful_shape _ _ _ S4) as HS. assert (Hin : u ∈ vw_uids w) by (rewrite seqOf_spec in Hn by apply HS; by case_bool_decide).
  assert (Huniq : forall v, live d mb v -> v_uid v = u -> v = seen row) by (intros v Hv Hvu; apply (live_unique d mb); [done|done|done|cbn; congruence]).
  destruct (told_fetch w d c u (m_modseq row) (m_flags row) uid None HS Hin Huid) as (s & c' & Es & Ec & HT); [rewrite S3; intros v Hv Hvu _; by rewrite (Huniq v Hv Hvu)|done|]. simplify_eq. exists c'. split; [cbn [receiveAll]; by rewrite Ec|].
  pose proof (proj2 (shape_known _ HS _) Hin) as [q Hq]. unfold noteModseq. rewrite Hq. set (k := <[m_uid row := m_modseq row]> (vw_known w)) in *.
  assert (V : SameView w (setKnown k w)). { split; [done..|]. intros x. unfold k. cbn. destruct (decide (m_uid row = x)) as [<-|]; [rewrite lookup_insert_eq, Hq; split; by eexists|by rewrite lookup_insert_ne]. }
  split; cbn; [done|done|done| |exact HT]. destruct S4 as [F1 F2 F3 F4 F5 F6 F7 F8]. split; [by eapply SameView_shape|done|done|done|done|done| |].
  - intros v q' Hv. unfold k. cbn. destruct (decide (m_uid row = v_uid v)) as [E|Hne]; [|rewrite lookup_insert_ne by done; by apply F7]. cbn in Hv. rewrite S3 in Hv. rewrite E, lookup_insert_eq. rewrite (Huniq v Hv (eq_sym E)). cbn. intros [= <-]. split; lia.
  - intros x q'. unfold k. cbn. destruct (decide (m_uid row = x)) as [<-|]; [|rewrite lookup_insert_ne by done; by apply F8]. rewrite lookup_insert_eq. intros [= <-]. apply (box_modseq _ _ _ (ok_boxes _ S1 _ _ S2) _ Hrow).
Qed.

(** [sync] in a session, whatever the others do between its reads. *)
Lemma session_syncs d d1 d2 d3 w c b b1 b2 b3 o : SessionOk (mkSession d w c) b -> so_qresync o = false -> DbOk d1 -> DbOk d2 -> DbOk d3 ->
  d_mailboxes d1 !! mb = Some b1 -> d_mailboxes d2 !! mb = Some b2 -> d_mailboxes d3 !! mb = Some b3 -> Evolves false d d1 mb b b1 -> Evolves false d1 d2 mb b1 b2 -> Evolves false d2 d3 mb b2 b3 ->
  exists rs w' c', sync o (mkReads (probe d mb) (changedSince d1 mb (vw_highest w)) (countUpTo d2 mb (maxUid w)) (uidsUpTo d3 mb (maxUid w))) w = Some (rs, w') /\ receiveAll rs c = Some c' /\
    SessionOk (mkSession d3 w' c') b3 /\ vw_highest w' = mb_highestModseq b /\ (so_allowExpunge o = true -> vw_pending w' = []).
Proof.
  intros HS Hqr Hd1 Hd2 Hd3 Hb1 Hb2 Hb3 E01 E12 E23. pose proof HS as [S1 S2 S3 S4 S5]. cbn in S1, S2, S3, S4, S5. unfold probe. rewrite S2. cbn [fmap option_fmap option_map].
  pose proof (ok_boxes _ S1 _ _ S2) as B0. pose proof (ok_boxes _ Hd1 _ _ Hb1) as B1. pose proof (ok_boxes _ Hd2 _ _ Hb2) as B2. destruct (decide (mb_highestModseq b = vw_highest w)) as [Heq|Hne].
  - unfold sync. cbn [rd_probe snd]. rewrite (proj2 (Z.eqb_eq _ _)) by done. destruct (flush_spec o (Told w d) w c Hqr (faithful_shape _ _ _ S4) S5) as (us & Hus & HP & Hfl & c' & Hc & HT). set (r := if so_allowExpunge o then _ else _) in *.
    exists r.1, r.2, c'. split_and!; [by destruct r|done| |rewrite (pruned_highest _ _ _ HP); done|done].
    apply (session_evolves d d3 r.2 c' b b3); [done| |done|].
    + eapply Evolves_silent_trans; [done|exact E01|]. by eapply Evolves_silent_trans.
    + split; cbn; [done|done|by rewrite (pruned_mailbox _ _ _ HP)| |by eapply pruned_told]. eapply pruned_faithful; [exact HP| |done]. intros u v Hu%Hus. by apply (faithful_pending _ _ _ S4).
  - destruct (sync_spec mb d d1 d2 d3 b b1 b2 b3 Hd1 Hd2 B0 B1 B2 E01 E12 E23 o w c S3 Hqr S4 S5 Hne) as (rs & w' & Es & M & Hh & Hp & HF & c' & Hc & HT). exists rs, w', c'. split_and!; [exact Es|done| |done|done]. by split.
Qed.

Lemma session_steps e s b : SessionOk s b -> is_Some (d_mailboxes (databaseAfter uv mb e (ss_db s)) !! mb) ->
  exists s' b', sessionStep uv mb e s = Some s' /\ ss_db s' = databaseAfter uv mb e (ss_db s) /\ SessionOk s' b'.
Proof.
  destruct s as [d w c]. intros HS [b' Hb']. pose proof (so_db _ _ HS) as Hd. pose proof (so_box _ _ HS) as Hb. cbn [ss_db] in *. destruct (databaseAfter_step e d Hd) as [an St]. pose proof (step_ok _ _ _ St) as Hd'. pose proof (step_evolves _ _ _ _ _ Hd St Hb Hb') as HE.
  pose proof (session_evolves _ _ _ _ _ _ Hd' HE Hb' HS) as HS'. destruct e as [ops|al cs ops1 ops2 ops3|acc uids reason|uids tgt|u wu]; cbn [sessionStep ss_db ss_view ss_client].
  - by exists (mkSession (databaseAfter uv mb (EOthers ops) d) w c), b'.
  - cbn [databaseAfter] in *. pose proof (history_step uv ops1 d Hd) as S1. pose proof (history_step uv ops2 _ (step_ok _ _ _ S1)) as S2. pose proof (history_step uv ops3 _ (step_ok _ _ _ S2)) as S3.
    assert (St2 := Step_trans _ _ _ _ _ Hd S1 S2). destruct (between _ _ _ _ _ _ Hd St2 S3 Hb (mk_is_Some _ _ Hb')) as [b2 Hb2]. destruct (between _ _ _ _ _ _ Hd S1 S2 Hb (mk_is_Some _ _ Hb2)) as [b1 Hb1].
    destruct (session_syncs d _ _ _ w c b b1 b2 b' (mkSyncOptions al cs false) HS eq_refl (step_ok _ _ _ S1) (step_ok _ _ _ S2) Hd' Hb1 Hb2 Hb') as (rs & w' & c' & Es & Hc & HS2 & _); [by eapply step_evolves; [exact Hd|exact S1|..]|eapply step_evolves; [apply S1|exact S2|done|done]|eapply step_evolves; [apply S2|exact S3|done|done]|].
    rewrite Es. unfold told. cbn [fst snd]. rewrite Hc. by exists (mkSession (history uv ops3 (history uv ops2 (history uv ops1 d))) w' c'), b'.
  - cbn [databaseAfter] in *. unfold after in *. destruct (expunge acc mb uids reason d) as [[removed gone] d'|e] eqn:E; [|by exists (mkSession d w c), b]. apply expunge_removes in E as [HN Hrec]; [|apply (ok_structure _ Hd)]. cbn [fst] in *.
    destruct (session_removes d' w c b' removed HS' HN (recorded_gone _ _ _ _ (ok_boxes _ Hd' _ _ Hb') Hrec)) as (c' & Hc & HS2). unfold told. rewrite Hc. by eexists _, b'.
  - cbn [databaseAfter] in *. unfold after in *. destruct (move mb uids tgt d) as [res d'|e] eqn:E; [|by exists (mkSession d w c), b]. apply move_removes in E as [HN Hrec]; [|apply (ok_structure _ Hd)].
    destruct (session_removes d' w c b' _ HS' HN (recorded_gone _ _ _ _ (ok_boxes _ Hd' _ _ Hb') Hrec)) as (c' & Hc & HS2). unfold told. rewrite Hc. by eexists _, b'.
  - cbn [databaseAfter] in *. destruct (isExpunged w u); [by exists (mkSession d w c), b|]. destruct (seqOf w u) as [n|] eqn:En; [|by exists (mkSession d w c), b]. destruct (head (rowsByUid d mb [u])) as [row|] eqn:Er; [|by exists (mkSession d w c), b].
    apply head_Some_elem_of, elem_rowsByUid in Er as (H1 & H2 & H3%list_elem_of_singleton). destruct (session_shows d w c b u row.2 n HS) with (uid := if wu then Some u else None) as (c' & Hc & HS2); [by exists row.1, row.2|done|done|destruct wu; auto|].
    unfold told. rewrite Hc. by eexists _, b.
Qed.

Lemma playSession_app es1 es2 s : playSession uv mb (es1 ++ es2) s = s' ← playSession uv mb es1 s; playSession uv mb es2 s'.
Proof. revert s. induction es1 as [|e es1 IH]; intros s; [done|]. cbn [app playSession]. destruct (sessionStep uv mb e s); [apply IH|done]. Qed.

Lemma session_runs es s b : SessionOk s b -> is_Some (d_mailboxes (databasesAfter uv mb es (ss_db s)) !! mb) ->
  exists s' b', playSession uv mb es s = Some s' /\ ss_db s' = databasesAfter uv mb es (ss_db s) /\ SessionOk s' b'.
Proof.
  revert s b. induction es as [|e es IH]; intros s b HS Hend; [by exists s, b|]. cbn [playSession databasesAfter fold_left] in *. pose proof (so_db _ _ HS) as Hd. destruct (databaseAfter_step e _ Hd) as [an1 S1]. destruct (databasesAfter_step es _ (step_ok _ _ _ S1)) as [an2 S2].
  destruct (session_steps e s b HS (between _ _ _ _ _ _ Hd S1 S2 (so_box _ _ HS) Hend)) as (s1 & b1 & E1 & Ed & HS1). rewrite E1. cbn [mbind option_bind]. rewrite <- Ed in Hend |- *. destruct (IH s1 b1 HS1 Hend) as (s' & b' & ?). by exists s', b'.
Qed.

Lemma known_opened (rows : list (Z * Z * bool)) u q : NoDup ((fun r => r.1.1) <$> rows) ->
  (list_to_map (rev ((fun r => (r.1.1, r.1.2)) <$> rows)) : gmap Z Z) !! u = Some q <-> exists r, r ∈ rows /\ r.1.1 = u /\ r.1.2 = q.
Proof.
  intros HN. rewrite <- elem_of_list_to_map by (rewrite <- Permutation_rev; by rewrite <- list_fmap_compose). rewrite <- Permutation_rev, list_elem_of_fmap. split.
  - intros (r & [= -> ->] & Hr). by exists r.
  - intros (r & Hr & <- & <-). by exists r.
Qed.

(** What SELECT starts a session with. *)
Lemma select_ok h ops d b : DbOk d -> d_mailboxes d !! mb = Some b -> is_Some (d_mailboxes (history uv ops d) !! mb) -> exists b', SessionOk (select_ uv mb h ops d) b'.
Proof.
  intros Hd Hb [b' Hb']. pose proof (history_step uv ops d Hd) as St. pose proof (step_ok _ _ _ St) as Hd'. pose proof (evolves_modseq _ _ _ _ _ _ (step_evolves _ _ _ _ _ Hd St Hb Hb')) as Hle. exists b'. unfold select_, probe. rewrite Hb. cbn. set (d' := history uv ops d) in *.
  pose proof (ok_boxes _ Hd' _ _ Hb') as HB. pose proof (uids_ascending d' mb (ok_unique _ (ok_structure _ Hd'))) as HA. pose proof (elem_uids d' mb) as HE.
  assert (Eu : (fun r : Z * Z * bool => r.1.1) <$> snapshot d' mb = (fun x => m_uid x.2) <$> messagesOf d' mb) by (unfold snapshot; by rewrite <- list_fmap_compose).
  assert (HK : forall u q, (list_to_map (rev ((fun r => (r.1.1, r.1.2)) <$> snapshot d' mb)) : gmap Z Z) !! u = Some q <-> exists v, live d' mb v /\ v_uid v = u /\ v_modseq v = q).
  { intros u q. rewrite known_opened by (rewrite Eu; by apply Ascending_NoDup). split.
    - intros (r & ([i m] & -> & [Hi Hm]%elem_messagesOf)%list_elem_of_fmap & <- & <-). exists (seen m). split; [by exists i, m|done].
    - intros (v & (i & m & Hi & Hm & ->) & <- & <-). exists (m_uid m, m_modseq m, bool_decide (SEEN ∈ m_flags m)). split; [|done]. apply list_elem_of_fmap. exists (i, m). split; [done|]. by apply elem_messagesOf. }
  rewrite Eu. split; cbn; [done|done|done| |].
  - split; cbn; [split; cbn| | | | | | |].
    + done.
    + split; [constructor|by intros u ?%elem_of_nil].
    + intros u. rewrite HE. split; [intros [q (v & Hv & Ev & _)%HK]; by exists v|intros (v & Hv & Ev); exists (v_modseq v); apply HK; by exists v].
    + intros u (v & Hv & <-)%HE. by apply (box_uid _ _ _ HB).
    + exact Hle.
    + by intros u v ?%elem_of_nil.
    + intros u ?%HE. by left.
    + intros v Hv. left. apply HE. by exists v.
    + intros v q Hv (v' & Hv' & Ev & <-)%HK. rewrite (live_unique d' mb v' v Hd' Hv' Hv Ev). split; [lia|done].
    + intros u q (v & Hv & _ & <-)%HK. by apply (box_modseq _ _ _ HB).
  - apply Forall2_same_length_lookup_2; [by rewrite length_replicate, length_fmap|]. intros i e u [-> _]%lookup_replicate Hu. by split.
Qed.

(** What a client that was told all has of a message. *)
Definition Mirrors (e : Entry) (x : Id * Message) : Prop := (forall u, en_uid e = Some u -> u = m_uid x.2) /\ (forall fl, en_flags e = Some fl -> fl = m_flags x.2).

(** A session that has nothing left to tell. *)
Lemma session_mirrors s b : SessionOk s b -> vw_highest (ss_view s) = mb_highestModseq b -> vw_pending (ss_view s) = [] -> Forall2 Mirrors (ss_client s) (messagesOf (ss_db s) mb).
Proof.
  destruct s as [d w c]. intros [S1 S2 S3 S4 S5] Hh Hp. cbn in *. pose proof (ok_boxes _ S1 _ _ S2) as HB. destruct S4 as [F1 F2 F3 F4 F5 F6 F7 F8]. rewrite S3 in *.
  assert (Eu : vw_uids w = (fun x => m_uid x.2) <$> messagesOf d mb).
  { pose proof (uids_ascending d mb (ok_unique _ (ok_structure _ S1))) as HA. apply (StronglySorted_unique_strong Z.lt); [lia|apply F1|done|]. apply NoDup_Permutation; [apply Ascending_NoDup, F1|by apply Ascending_NoDup|]. intros u. rewrite elem_uids. split.
    - intros [?|[Hu|?]]%F5; [done|rewrite Hp in Hu; by apply elem_of_nil in Hu|lia].
    - intros (v & Hv & <-). destruct (F6 v Hv) as [?|[_ Hq]]; [done|]. apply (box_modseq _ _ _ HB) in Hv. lia. }
  rewrite Eu, Forall2_fmap_r in S5. apply Forall2_same_length_lookup_2; [exact (Forall2_length _ _ _ S5)|]. intros i e [j m] He Hm. pose proof (Forall2_lookup_lr _ _ _ _ _ _ S5 He Hm) as [T1 T2]. cbn in *. split; [done|]. intros fl Hfl. cbn.
  apply list_elem_of_lookup_2, elem_messagesOf in Hm as [Hj Hmb]. assert (Hv : live d mb (seen m)) by by exists j, m. symmetry. apply (T2 fl (seen m) Hfl); [by rewrite S3|done|].
  destruct (proj2 (shape_known _ F1 (m_uid m))) as [q Hq]; [rewrite Eu; apply elem_uids; by exists (seen m)|]. rewrite Hq. f_equal. apply (F7 (seen m)); [done|exact Hq|]. rewrite Hh. by apply (box_modseq _ _ _ HB).
Qed.

End converges.

(** Two messages when SELECT starts, a third filed while it reads; the first is seen, and the second expunged while a
    FETCH is answered, which may not say so; a fourth arrives. *)
Definition demo_session : list SessionEvent :=
  [EShow 1 true;
   ESync false true [(5, OStoreFlags 0%nat [1] OpAdd [SEEN] None)] [(6, OStoreFlags 0%nat [2] OpAdd [DELETED] None); (7, OExpunge 7%nat 0%nat None (js "expunge"))] [];
   EOthers [(8, OPut (js "dd")); (9, OFile (demo_file "dd"))]].
Definition demo_selected : Session := select_ (R := mail_runtime) demo_uv 0%nat 0 [(5, OPut (js "cc")); (5, OFile (demo_file "cc"))] demo_d1.
Notation demo_ends es := (playSession (R := mail_runtime) demo_uv 0%nat es demo_selected).

Example demo_session_waits : (fun s => (vw_uids (ss_view s), vw_pending (ss_view s), length (ss_client s), uidsUpTo (ss_db s) 0%nat 9)) <$> demo_ends demo_session = Some ([1; 2; 3], [2], 3%nat, [1; 3; 4]).
Proof. vm_compute. reflexivity. Qed.

